(* ===== verification/_CoqProject ===== *)
-Q . S2P
Prelude.v
NameTable.v
Wire.v
Writer.v
Name.v
Codec.v
NameCodec.v
NameText.v
RData.v
RDataCodec.v
RecordCodec.v
Ttl.v
Edns.v
Message.v
MessageSafety.v
MessageCodec.v
Padding.v
ProtoProps.v
LruMap.v
LruMapSpec.v
Acl.v
Cookie.v
CoreProps.v
OwnerIndex.v
OwnerIndexSpec.v
ZoneData.v
ZoneNames.v
Zone.v
ZoneGroups.v
ZoneLoad.v
ZoneLoaded.v
ZoneChecks.v
ZoneQuery.v
ZoneSpec.v
ZoneRefine.v
ZoneFacts.v
AuthorityProps.v
Regex.v
RegexVm.v
RegexSem.v
RegexStep.v
RegexParse.v
FilterTable.v
FilterTableSpec.v
Dawg.v
DawgRep.v
DawgReg.v
DawgPath.v
DawgBuild.v
DawgWords.v
DawgPack.v
DawgRank.v
Compact.v
CompactChains.v
CompactLookup.v
CompactBuild.v
FilterProps.v
Varint.v
QuicFrame.v
QuicPacket.v
QuicHandshake.v
Huffman.v
Hpack.v
H2Frame.v
Qpack.v
QpackCodec.v
QpackSync.v
QpackRun.v
TransportProps.v
Raft.v
RaftVotes.v
RaftNet.v
RaftRun.v
RaftLog.v
RaftFile.v
RaftFileSpec.v
RaftRecovery.v
RaftDisk.v
RaftDiskSpec.v
RaftProps.v
