(* ===== verification/Prelude.v ===== *)
(** * OnetDNS: verification library

    OnetDNS is a DNS server in Rust: an encrypted-transport front (UDP, TCP,
    TLS, HTTPS, QUIC), a message codec, filtering, caching, recursion and a
    replicated configuration kept by a Raft cluster.  This library models the
    parts whose correctness is a matter of data and algorithms, translated
    from the sources under [src/crates/], and proves what the rest of the
    server relies on.

    ** Parts, and how they interact

    - The message codec ([onetdns-proto]).  [NameTable] is the compression
      table of the encoder ([NameMap] of [name.rs]); [Wire] the bounded reader
      and [Writer] the size-limited writer of [wire.rs]; [Name] and [NameCodec]
      are the names of [name.rs] (parsers with compression pointers, the
      compressing encoder), [NameText] their textual form; [RData] the typed
      record data and the records of [rdata.rs], [Ttl] the levelling of TTLs;
      [Edns] and [Message] are [message.rs].  A message parser calls the record
      parser, which calls the data parser, which calls the name parser; the
      encoders are stacked the same way over one writer that owns the table.
      [Codec] states what it means for an encoder and a parser to agree, and
      [RDataCodec], [RecordCodec], [MessageCodec] prove it layer by layer;
      [MessageSafety] treats arbitrary inputs of both; [Padding]
      shows that the random seed of the table does not matter.
    - The shared structures.  [LruMap] is the arena of
      [onetdns-core/src/lrumap.rs], [LruMapSpec] the recency list it
      implements.  [Acl] is the networks, rules and subnet keys of
      [onetdns-core/src/ipnet.rs], [policy.rs], [client.rs] and
      [onetdns-security/src/acl.rs], [subnet.rs].  [Cookie] is
      [onetdns-security/src/siphash.rs] and [cookie.rs]: the keyed hash with its
      buffered tail, and the cookies that it signs for an address.
    - The authoritative zones ([onetdns-authority/src/lib.rs]).  [OwnerIndex]
      is the hash table from owner keys to ranges of records, [ZoneData] the
      packed records and the groups that loading walks through, [Zone] loading
      and its checks, [ZoneQuery] the query path and the store of zones.
      [OwnerIndexSpec] shows that the table is a finite map; [ZoneNames] reads
      keys as paths; [ZoneGroups], [ZoneLoad] and [ZoneLoaded] follow
      loading, and [ZoneChecks] puts them together in [loaded], the
      invariant of a zone.  [ZoneSpec] is what a zone answers as
      a function of the list of its records, [ZoneRefine] the refinement, and
      [ZoneFacts] its consequences.  Zones call the names, the records, the
      levelling of TTLs and the data encoder of the codec.
    - The filter's regular expressions ([onetdns-filter/src/regex.rs]).
      [Regex] is the parser of patterns, [RegexVm] the compiler and the machine
      that runs all threads of a program together.  [RegexSem] says what an
      expression matches and that the compiler appends its code; [RegexStep]
      shows that the code runs the expression and that the machine finds every
      thread over reused scratch space, [RegexParse] that the parser answers
      and the octets of classes.
    - The filter's domains ([onetdns-filter/src/table.rs] and [compact.rs]).
      [FilterTable] is the chained hash table that holds the rules while lists
      are loaded, [FilterTableSpec] the list of rules it stands for.  [Dawg] is
      the builder of a minimal automaton from sorted words and its packing:
      [DawgRep] reads the graph off the builder's memory, [DawgReg] treats
      the register of frozen states, [DawgPath] the path of the last word,
      [DawgBuild] insertion, [DawgWords] the words and minimality, [DawgPack]
      the packed arrays and the counts, [DawgRank] the ranks of words.
      [Compact] is the compact map over it: sources, folded chains, both
      lookups; [CompactChains] treats the chains and the folded arrays,
      [CompactLookup] the lookups, [CompactBuild] the whole way from a table
      of rules to the map.
    - The transports.  [Varint] and [QuicFrame] are [onetdns-quic/src/varint.rs]
      and [frame.rs]; [Huffman], [Hpack] and [H2Frame] are
      [onetdns-http2/src/huffman.rs], [hpack.rs], [frame.rs], [wire.rs] and the
      header test of [lib.rs].  HPACK strings call the Huffman code.
      [QuicPacket] is [onetdns-quic/src/packet.rs] with the nonces of
      [protect.rs]: headers, truncated packet numbers and the two layers of
      protection; [QuicHandshake] the transport parameters of [params.rs] and
      the tokens and Retry packets of [retry.rs].
      [Qpack] is [onetdns-quic/src/qpack.rs]: an encoder, a decoder and their
      two instruction streams.  [QpackCodec] treats integers and strings of
      partial buffers, instructions and field lines, [QpackSync]
      the two endpoints with the octets between them as a step relation and its
      invariant, [QpackRun] its preservation, and hostile octets.
    - The cluster ([onetdns-cluster/src/raft.rs]).  [Raft] is one node: every
      handler, guard and early return, over a disk behind the interface
      [Storage] ([persist_at] and [load_state]).  [RaftVotes] states the laws
      of such a disk and what each operation does to ballots; [RaftNet] runs
      any number of nodes over a network that loses, repeats and reorders
      messages, with crashes; [RaftLog] is the invariant of the log, with
      applying and the election timer.  [RaftFile] is the state
      file and the write-ahead log, [RaftFileSpec] and [RaftRecovery] what a
      restart reads; [RaftDisk] is [persist_at] and [append_wal_frame] on a
      disk of two files whose operations may fail at any point, [RaftDiskSpec]
      their crash consistency.  [RaftRun] executes concrete runs.

    [ProtoProps], [CoreProps], [AuthorityProps], [FilterProps], [TransportProps] and
    [RaftProps] hold the theorems that are the library's results, each with a concrete instance.

    ** Conventions

    A byte is an integer of 0 to 255 and a string of bytes a [list Z]; the
    machine integers are [Z] with their wrap-around or their check written out.
    Code that can fail returns an [outcome]: [Ok] and [Err] are those of
    [Result] ([Option] becomes [outcome unit] where slicing may panic), [Panic]
    is a run-time panic, and [NoFuel] the answer of a loop that ran out of
    fuel.  The totality theorems exclude [Panic] and [NoFuel], so no theorem
    speaks only of runs that happen to return.  Stateful code passes its state;
    code that needs an object whose address matters (the name table, the arena
    of the LRU map) models the arena with its indices.

    Code of other packages is a parameter: the seeded hashers, SHA-256, the
    ciphers of QUIC packets and reading an IP address from text.  Of the ciphers
    it is assumed that decryption undoes encryption, that a tag has 16 octets
    and a mask of a header five.  Nothing is assumed of the hashers; of the
    hash SHA-256 only the length of a digest and its values being octets.  The
    unstable sort and the binary search of the standard library are parameters
    too: the one gives a sorted permutation of its list, the other finds an
    element of a sorted slice at its index.

    ** Fuel

    Every loop that is not structural has a bound which its theorem shows to
    be enough.  The name parser has 300 rounds: a round consumes a label (at
    most 127 in 255 octets) or a pointer (at most [MAX_JUMPS] = 20).  The frames
    of a QUIC packet have 1026 rounds, the limit of 1024 frames and the two
    tests around it.  HPACK integers have 11 rounds, one more than the ten
    continuation octets that fit a 64-bit shift, QPACK integers ten of the nine
    that their limit on shifts allows; flushing the Huffman
    accumulator has 4, since it holds less than 40 bits.  Probing the owner
    index has one round for a slot; walking up a name one for a label; following
    CNAMEs while a zone is checked two more than its records, while it answers
    the 8 of the code.  The calls of the pattern parser inside one another are
    the 201 that its depth limit allows, and following the jumps of a regular
    program takes two rounds for an instruction and two more.  A bucket of the
    domain table has a round for an entry and one more, a chain of edges of the
    automaton one for a cell of the arena, a chain of its register one for a
    state; counting visits every state and every edge at most once and has two
    rounds more, packing and marking a round for a state.  Following a folded
    chain has 256 rounds, the limit of 255 letters and one; a lookup one for an
    octet of the name and one more.  Replaying the
    write-ahead log, reading header blocks and scanning text have the length of
    their input and one more, transport parameters the length of theirs.

    ** What the theorems show

    - Codec: the message parser is total and what it accepts satisfies the
      invariants of the types; the encoder is total and bounded; what it
      writes is read back, up to the case of compressed names; names agree in
      wire, text and canonical form; TTL levelling, padding, EDNS.
    - Shared structures: the LRU map refines a list of distinct keys in order
      of recency; denial wins in access control; networks are canonical.
    - Zones: loading is total and what it builds is consistent; every answer is
      the one of the specification; NXDOMAIN only for names without records,
      referrals below delegations; the store finds the deepest zone.
    - Regular expressions: a pattern compiles to a program within the limits
      or is refused, and the machine answers exactly whether the expression
      matches, whatever earlier runs left in the scratch space.
    - Filter tables: the domain table is the list of its rules, in which the
      first of two rules for a name wins; the automaton accepts exactly its
      words and no two of its states agree; the compact map of a table gives
      the rules of the table, for the name and for its closest listed ancestor.
    - Cookies: a cookie is valid exactly when this server made it for the
      address at a time that is fresh, by the SipHash of all that is signed.
    - Transports: frames, integers, Huffman and HPACK round trips; decoders are
      total and within their limits on any octets; a QPACK encoder and decoder
      stay in step in every run, so that no section is ever blocked.  Protected
      packets read back with the full packet number, and no octets make the
      reader panic; a token of address validation is accepted exactly when it
      was issued for the address, the identifiers and a time that is fresh;
      transport parameters read back, and never past their limits.
    - Cluster: one leader per term in every run, votes that survive crashes,
      the committed prefix of a node is kept, an election starts within the
      ceiling, entries are applied in order and once, recovery is total and
      crash consistent.  Four theorems exhibit runs of the code in which it
      does less than its comments say, among them the loss of a committed
      entry after compaction.

    ** Not modelled

    - Sockets, threads, processes, the operating system and the wiring of the
      server: [onetdns-bin] (with its answer cache, leases and key rollover),
      [onetdns-runtime], [onetdns-transport], [onetdns-control], the thread
      around the consensus machine ([transport.rs]), [udp.rs], [talloc.rs],
      [isolation.rs], [log.rs].
    - Of the zones: the sources of their data (databases and the zone-file
      parser), the master-file writer, transfers and their message templates,
      the direct wire path and the lookups of denial records.
    - Of the filter: the file format of a compact map and its validation
      ([encode], [decode], [for_each_entry]), loading lists, the engine that
      joins tables and expressions, and the data of services and presets.
    - TLS, the derivation of keys, signatures and the machines that rest on
      them: [onetdns-tls],
      [onetdns-dnssec], [onetdns-dnscrypt], the connections of [onetdns-quic]
      and [onetdns-http2], and the forwarders.
    - The configuration's fields and defaults and its reader, JSON, and the
      policy's WebAssembly host.
    - Token buckets, which count in floating point.
    - Of the cluster: that the logs of any two nodes agree.  The theorems on
      lost and unconfirmed entries are runs of the code in which what a leader
      has told its clients is not kept, so the usual statement does not hold. *)

From stdpp Require Export base list gmap strings pretty.
From Stdlib Require Export ZArith Lia.
From Stdlib Require Import Znumtheory.

#[global] Open Scope Z_scope.

(** ** Tactics *)

(** Boolean comparisons in the context as propositions. *)
Ltac bool_prop :=
  repeat match goal with
  | H : (_ <=? _) = true |- _ => apply Z.leb_le in H
  | H : (_ <=? _) = false |- _ => apply Z.leb_gt in H
  | H : (_ <? _) = true |- _ => apply Z.ltb_lt in H
  | H : (_ <? _) = false |- _ => apply Z.ltb_ge in H
  | H : (_ =? _) = true |- _ => apply Z.eqb_eq in H
  | H : (_ =? _) = false |- _ => apply Z.eqb_neq in H
  | H : (_ && _) = true |- _ => apply andb_prop in H; destruct H
  | H : (_ || _) = false |- _ => apply orb_false_elim in H; destruct H
  | H : negb _ = true |- _ => apply negb_true_iff in H
  | H : negb _ = false |- _ => apply negb_false_iff in H
  end.

(** Case split on every [match] and [if] of the goal and the context, turning
    the tests into propositions. *)
Ltac cases := repeat (case_match; simplify_eq); bool_prop.

(** ** Outcomes of fallible code

    [Ok] and [Err] are the two constructors of Rust's [Result]; [Panic] is a
    run-time panic (an index or a slice out of range, a failed [expect] or
    [assert!]); [NoFuel] is the answer of a loop whose fuel ran out, and is
    proved unreachable for every loop of the library. *)
Inductive outcome (E A : Type) : Type :=
  | Ok (a : A)
  | Err (e : E)
  | Panic
  | NoFuel.
Arguments Ok {E A} a.
Arguments Err {E A} e.
Arguments Panic {E A}.
Arguments NoFuel {E A}.

(** A call that returned to its caller (with a value or with an error value). *)
Definition returns {E A} (o : outcome E A) : Prop :=
  match o with Ok _ | Err _ => True | Panic | NoFuel => False end.

Definition obind {E A B} (o : outcome E A) (k : A → outcome E B) : outcome E B :=
  match o with
  | Ok a => k a
  | Err e => Err e
  | Panic => Panic
  | NoFuel => NoFuel
  end.

(** A call that gave a value satisfying [P], or an error. *)
Definition yields {E A} (o : outcome E A) (P : A → Prop) : Prop :=
  match o with Ok a => P a | Err _ => True | Panic | NoFuel => False end.

Lemma yields_obind {E A B} (o : outcome E A) (k : A → outcome E B) P Q :
  yields o P → (∀ a, P a → yields (k a) Q) → yields (obind o k) Q.
Proof. destruct o; simpl; auto. Qed.

Lemma yields_Ok {E A} (o : outcome E A) P a : yields o P → o = Ok a → P a.
Proof. by intros H ->. Qed.

Lemma yields_weaken {E A} (o : outcome E A) (P Q : A → Prop) : yields o P → (∀ a, P a → Q a) → yields o Q.
Proof. destruct o; simpl; auto. Qed.

Declare Scope outcome_scope.
Delimit Scope outcome_scope with outcome.
Notation "'try!' x := m 'in' k" := (obind m (fun x => k))
  (at level 10, x pattern, k at level 200) : outcome_scope.

(** ** Machine integers

    A [w]-bit unsigned integer is a [Z] in [0 .. 2^w - 1]. *)
Definition U8_MAX : Z := 255.
Definition U16_MAX : Z := 65535.
Definition U32_MAX : Z := 4294967295.
Definition USIZE_MAX : Z := 18446744073709551615.

Definition U64_MAX : Z := 18446744073709551615.

Definition is_u8 (v : Z) : Prop := 0 ≤ v ≤ U8_MAX.
Definition is_u16 (v : Z) : Prop := 0 ≤ v ≤ U16_MAX.
Definition is_u32 (v : Z) : Prop := 0 ≤ v ≤ U32_MAX.
Definition is_u64 (v : Z) : Prop := 0 ≤ v ≤ U64_MAX.

(** [usize::checked_add] on a 64-bit target. *)
Definition checked_add (a b : Z) : option Z :=
  if a + b <=? USIZE_MAX then Some (a + b) else None.
(** [usize::checked_sub]. *)
Definition checked_sub (a b : Z) : option Z :=
  if b <=? a then Some (a - b) else None.
(** [usize::saturating_sub]. *)
Definition saturating_sub (a b : Z) : Z := Z.max 0 (a - b).
(** [usize::saturating_add] and [usize::saturating_mul]. *)
Definition saturating_add (a b : Z) : Z := Z.min USIZE_MAX (a + b).
Definition saturating_mul (a b : Z) : Z := Z.min USIZE_MAX (a * b).

(** [<<] on a [u64]: the bits shifted out are dropped. *)
Definition u64_shl (v n : Z) : Z := Z.shiftl v n mod 2 ^ 64.

(** [u16::try_from] and [u8::try_from] on a [usize]. *)
Definition u16_try_from (v : Z) : option Z := if v <=? U16_MAX then Some v else None.
Definition u8_try_from (v : Z) : option Z := if v <=? U8_MAX then Some v else None.

(** [to_be_bytes] of [u16], [u32] and [u64], and [u16::from_be_bytes]. *)
Definition u16_to_be (v : Z) : list Z := [Z.land (Z.shiftr v 8) 255; Z.land v 255].
Definition u32_to_be (v : Z) : list Z :=
  [Z.land (Z.shiftr v 24) 255; Z.land (Z.shiftr v 16) 255;
   Z.land (Z.shiftr v 8) 255; Z.land v 255].
Definition u64_to_be (v : Z) : list Z := u32_to_be (v / 2 ^ 32) ++ u32_to_be (v mod 2 ^ 32).
Definition u16_from_be (a b : Z) : Z := Z.lor (Z.shiftl a 8) b.

(** [u8::to_ascii_lowercase]. *)
Definition ascii_lower (b : Z) : Z :=
  if (65 <=? b) && (b <=? 90) then Z.lor b 32 else b.

(** ** Lists as slices and vectors *)

(** [slice::len]. *)
Definition zlen {A} (l : list A) : Z := Z.of_nat (length l).

(** [slice::get] at an index. *)
Definition get {A} (l : list A) (i : Z) : option A :=
  if i <? 0 then None else l !! Z.to_nat i.

(** [slice::get] at a range [a..b]: [None] when [a > b] or [b > len]. *)
Definition get_range {A} (l : list A) (a b : Z) : option (list A) :=
  if (0 <=? a) && (a <=? b) && (b <=? zlen l)
  then Some (take (Z.to_nat (b - a)) (drop (Z.to_nat a) l))
  else None.

(** [vec[i] = x] as a partial function: out of range panics in the source. *)
Definition set_at {A} (l : list A) (i : Z) (x : A) : option (list A) :=
  if (0 <=? i) && (i <? zlen l) then Some (<[Z.to_nat i := x]> l) else None.

(** [str::as_bytes]. *)
Definition as_bytes (s : string) : list Z :=
  map (λ a, Z.of_N (Ascii.N_of_ascii a)) (String.list_ascii_of_string s).

(** A value of Rust type [&[u8]]. *)
Definition is_bytes (l : list Z) : Prop := Forall is_u8 l.

(** The check that concrete octets are in range, by computation. *)
Definition is_bytesb (l : list Z) : bool := forallb (λ b, (0 <=? b) && (b <=? U8_MAX)) l.

Lemma is_bytesb_ok l : is_bytesb l = true → is_bytes l.
Proof.
  unfold is_bytesb. rewrite forallb_forall. intros H. apply Forall_forall. intros b Hb%list_elem_of_In.
  apply H in Hb. bool_prop. by split.
Qed.

Lemma checked_add_Some a b c : checked_add a b = Some c → c = a + b ∧ a + b ≤ USIZE_MAX.
Proof. unfold checked_add. case_match eqn:E; [|done]. intros [= <-]. apply Z.leb_le in E. auto. Qed.

Lemma zlen_nil {A} : zlen (@nil A) = 0.
Proof. reflexivity. Qed.
Lemma zlen_cons {A} (x : A) l : zlen (x :: l) = zlen l + 1.
Proof. unfold zlen. simpl length. lia. Qed.
Lemma zlen_app {A} (l k : list A) : zlen (l ++ k) = zlen l + zlen k.
Proof. unfold zlen. rewrite length_app. lia. Qed.
Lemma zlen_nonneg {A} (l : list A) : 0 ≤ zlen l.
Proof. unfold zlen. lia. Qed.
Lemma zlen_map {A B} (f : A → B) l : zlen (map f l) = zlen l.
Proof. unfold zlen. by rewrite length_map. Qed.
Lemma zlen_insert {A} (l : list A) i x : zlen (<[i:=x]> l) = zlen l.
Proof. unfold zlen. by rewrite length_insert. Qed.

Create Rewrite HintDb zlen.
#[export] Hint Rewrite @zlen_nil @zlen_cons @zlen_app @zlen_map @zlen_insert : zlen.

Lemma get_Some_lookup {A} (l : list A) i x :
  get l i = Some x ↔ 0 ≤ i ∧ l !! Z.to_nat i = Some x.
Proof. unfold get. destruct (Z.ltb_spec i 0); split; intros; [done|lia|split; [lia|done]|tauto]. Qed.

Lemma get_Some_lt {A} (l : list A) i x : get l i = Some x → 0 ≤ i < zlen l.
Proof.
  intros [Hi Hl]%get_Some_lookup. apply lookup_lt_Some in Hl. unfold zlen. lia.
Qed.

Lemma get_is_Some {A} (l : list A) i : 0 ≤ i < zlen l → ∃ x, get l i = Some x.
Proof.
  intros Hi. destruct (lookup_lt_is_Some_2 l (Z.to_nat i)) as [x Hx].
  { unfold zlen in Hi. lia. }
  exists x. apply get_Some_lookup. split; [lia|done].
Qed.

Lemma get_None_ge {A} (l : list A) i : zlen l ≤ i → get l i = None.
Proof.
  intros Hi. unfold get. destruct (Z.ltb_spec i 0); [done|].
  apply lookup_ge_None_2. unfold zlen in Hi. lia.
Qed.

Lemma get_app_l {A} (l k : list A) i : i < zlen l → get (l ++ k) i = get l i.
Proof.
  intros Hi. unfold get. destruct (Z.ltb_spec i 0); [done|].
  rewrite lookup_app_l; [done|]. unfold zlen in Hi. lia.
Qed.

Lemma get_app_r {A} (l k : list A) i :
  zlen l ≤ i → get (l ++ k) i = get k (i - zlen l).
Proof.
  intros Hi. unfold get.
  pose proof (zlen_nonneg l).
  destruct (Z.ltb_spec i 0); [lia|]. destruct (Z.ltb_spec (i - zlen l) 0); [lia|].
  unfold zlen in *. rewrite lookup_app_r by lia. f_equal. lia.
Qed.

Lemma get_app_mid {A} (l k : list A) (x : A) : get (l ++ x :: k) (zlen l) = Some x.
Proof. rewrite get_app_r by lia. by rewrite Z.sub_diag. Qed.

Lemma get_Some_app {A} (l k : list A) i x : get l i = Some x → get (l ++ k) i = Some x.
Proof. intros H. rewrite get_app_l; [done|]. apply get_Some_lt in H. lia. Qed.

Lemma get_cons_0 {A} (x : A) l : get (x :: l) 0 = Some x.
Proof. reflexivity. Qed.

Lemma get_cons_pos {A} (x : A) l i : 0 < i → get (x :: l) i = get l (i - 1).
Proof.
  intros Hi. unfold get.
  destruct (Z.ltb_spec i 0); [lia|]. destruct (Z.ltb_spec (i - 1) 0); [lia|].
  replace (Z.to_nat i) with (S (Z.to_nat (i - 1))) by lia. done.
Qed.

Lemma get_range_Some {A} (l : list A) a b s :
  get_range l a b = Some s →
  0 ≤ a ≤ b ∧ b ≤ zlen l ∧ s = take (Z.to_nat (b - a)) (drop (Z.to_nat a) l) ∧ zlen s = b - a.
Proof.
  unfold get_range.
  destruct (Z.leb_spec 0 a), (Z.leb_spec a b), (Z.leb_spec b (zlen l));
    simpl; intros; simplify_eq.
  split_and!; [lia..|done|]. unfold zlen in *.
  rewrite length_take, length_drop. lia.
Qed.

Lemma get_range_is_Some {A} (l : list A) a b :
  0 ≤ a ≤ b → b ≤ zlen l →
  get_range l a b = Some (take (Z.to_nat (b - a)) (drop (Z.to_nat a) l)).
Proof.
  intros. unfold get_range.
  destruct (Z.leb_spec 0 a), (Z.leb_spec a b), (Z.leb_spec b (zlen l)); simpl; done || lia.
Qed.

Lemma get_range_app {A} (l m k : list A) :
  get_range (l ++ m ++ k) (zlen l) (zlen l + zlen m) = Some m.
Proof.
  rewrite get_range_is_Some.
  - f_equal. unfold zlen.
    replace (Z.to_nat (_ + _ - _)) with (length m) by lia.
    rewrite Nat2Z.id, drop_app_length. apply take_app_length.
  - pose proof (zlen_nonneg l). pose proof (zlen_nonneg m). lia.
  - rewrite !zlen_app. pose proof (zlen_nonneg k). lia.
Qed.

(** A range is determined by its elements. *)
Lemma get_range_ext {A} (l k : list A) a b s :
  get_range l a b = Some s → b ≤ zlen k →
  (∀ i, a ≤ i < b → get k i = get l i) → get_range k a b = Some s.
Proof.
  intros (Hab & Hb & -> & _)%get_range_Some Hk Heq.
  rewrite get_range_is_Some by lia. f_equal. apply list_eq. intros i.
  destruct (decide (i < Z.to_nat (b - a))%nat).
  - rewrite !lookup_take_lt, !lookup_drop by lia.
    specialize (Heq (a + Z.of_nat i) ltac:(lia)). unfold get in Heq.
    destruct (Z.ltb_spec (a + Z.of_nat i) 0); [lia|].
    by replace (Z.to_nat (a + Z.of_nat i)) with (Z.to_nat a + i)%nat in Heq by lia.
  - by rewrite !lookup_take_ge by lia.
Qed.

Lemma get_range_get {A} (l : list A) a b s i :
  get_range l a b = Some s → 0 ≤ i < b - a → get s i = get l (a + i).
Proof.
  intros (Hab & Hb & -> & _)%get_range_Some Hi. unfold get.
  destruct (Z.ltb_spec i 0); [lia|]. destruct (Z.ltb_spec (a + i) 0); [lia|].
  rewrite lookup_take_lt, lookup_drop by lia. f_equal. lia.
Qed.

Lemma Forall_get {A} (P : A → Prop) l i x : Forall P l → get l i = Some x → P x.
Proof. intros Hl [_ Hx]%get_Some_lookup. by eapply Forall_lookup_1. Qed.

Lemma Forall_get_range {A} (P : A → Prop) l a b s :
  Forall P l → get_range l a b = Some s → Forall P s.
Proof.
  intros Hl (_ & _ & -> & _)%get_range_Some. by apply Forall_take, Forall_drop.
Qed.

(** Splitting a list at an element or at a range. *)
Lemma drop_get {A} (l : list A) i x :
  get l i = Some x → drop (Z.to_nat i) l = x :: drop (Z.to_nat (i + 1)) l.
Proof.
  intros [Hi Hx]%get_Some_lookup. rewrite (drop_S _ _ _ Hx). do 2 f_equal. lia.
Qed.

Lemma drop_get_range {A} (l : list A) a b s :
  get_range l a b = Some s → drop (Z.to_nat a) l = s ++ drop (Z.to_nat b) l.
Proof.
  intros (Hab & Hb & -> & _)%get_range_Some.
  rewrite <-(take_drop (Z.to_nat (b - a)) (drop (Z.to_nat a) l)) at 1.
  rewrite drop_drop. do 2 f_equal. lia.
Qed.

(** ** Bit arithmetic *)

Lemma lor_shiftl_add a b n : 0 ≤ n → 0 ≤ b < 2 ^ n → Z.lor (Z.shiftl a n) b = a * 2 ^ n + b.
Proof.
  intros Hn Hb. rewrite <-Z.shiftl_mul_pow2 by done.
  assert (Hl : Z.land (Z.shiftl a n) b = 0).
  { apply Z.bits_inj'. intros k Hk. rewrite Z.land_spec, Z.bits_0.
    destruct (Z.ltb_spec k n).
    - by rewrite Z.shiftl_spec_low.
    - rewrite <-(Z.mod_small b (2 ^ n)) by done.
      rewrite Z.mod_pow2_bits_high by lia. apply andb_false_r. }
  rewrite <-Z.lxor_lor by done. symmetry. by apply Z.add_nocarry_lxor.
Qed.

Lemma land_ones_mod a n m : 0 ≤ n → m = 2 ^ n - 1 → Z.land a m = a mod 2 ^ n.
Proof. intros Hn ->. rewrite <-Z.land_ones by done. by rewrite Z.ones_equiv, <-Z.sub_1_r. Qed.

Lemma land_255 a : Z.land a 255 = a mod 256.
Proof. by apply (land_ones_mod a 8). Qed.

Lemma u16_from_be_val a b : is_u8 b → u16_from_be a b = a * 256 + b.
Proof. intros. unfold u16_from_be. by rewrite lor_shiftl_add by (unfold is_u8, U8_MAX in *; lia). Qed.

Lemma u16_to_be_val v : is_u16 v → u16_to_be v = [v / 256; v mod 256].
Proof.
  unfold is_u16, U16_MAX, u16_to_be. intros. rewrite !land_255, Z.shiftr_div_pow2 by lia.
  change (2 ^ 8) with 256. rewrite (Z.mod_small (v / 256)); [done|].
  split; [apply Z.div_pos|apply Z.div_lt_upper_bound]; lia.
Qed.

Ltac div_mod_lia := Z.div_mod_to_equations; lia.

Lemma u16_be_roundtrip v : is_u16 v → u16_from_be (v / 256) (v mod 256) = v.
Proof.
  intros. rewrite u16_from_be_val; unfold is_u8, is_u16, U8_MAX, U16_MAX in *; div_mod_lia.
Qed.

Lemma u16_to_from_be a b : is_u8 a → is_u8 b → u16_to_be (u16_from_be a b) = [a; b].
Proof.
  unfold is_u8, U8_MAX. intros Ha Hb. rewrite u16_from_be_val by done.
  rewrite u16_to_be_val by (unfold is_u16, U16_MAX; lia).
  by rewrite Z.div_add_l, (Z.div_small b), Z.add_0_r, Z.add_comm, Z_mod_plus_full, Z.mod_small by lia.
Qed.

Lemma u16_from_be_u16 a b : is_u8 a → is_u8 b → is_u16 (u16_from_be a b).
Proof.
  unfold is_u8, U8_MAX. intros Ha Hb. rewrite u16_from_be_val by done. unfold is_u16, U16_MAX. lia.
Qed.

Lemma u16_to_be_bytes v : is_bytes (u16_to_be v).
Proof.
  unfold u16_to_be, is_bytes. rewrite !land_255.
  repeat constructor; unfold U8_MAX; div_mod_lia.
Qed.

Lemma u32_to_be_bytes v : is_bytes (u32_to_be v).
Proof.
  unfold u32_to_be, is_bytes. rewrite !land_255.
  repeat constructor; unfold U8_MAX; div_mod_lia.
Qed.

(** A 32-bit big-endian integer is the big-endian pair of its 16-bit halves. *)
Lemma u32_to_be_split v :
  is_u32 v → u32_to_be v = u16_to_be (v / 65536) ++ u16_to_be (v mod 65536).
Proof.
  unfold is_u32, U32_MAX. intros Hv.
  rewrite !u16_to_be_val by (unfold is_u16, U16_MAX; div_mod_lia).
  unfold u32_to_be. rewrite !land_255, !Z.shiftr_div_pow2 by lia.
  change (2 ^ 24) with 16777216. change (2 ^ 16) with 65536. change (2 ^ 8) with 256.
  simpl app. repeat (apply (f_equal2 cons); [div_mod_lia|]). done.
Qed.

(** Big-endian octets as a number. *)
Definition be_val (val : Z) (bs : list Z) : Z := fold_left (λ a b, a * 256 + b) bs val.

Lemma be_val_bound bs : ∀ val, is_bytes bs → 0 ≤ val →
  0 ≤ be_val val bs < (val + 1) * 256 ^ zlen bs.
Proof.
  induction bs as [|b bs IH]; intros val Hb Hv.
  - unfold be_val, zlen. simpl. lia.
  - inversion Hb as [|? ? Hb1 Hbs]; subst. unfold is_u8, U8_MAX in Hb1.
    change (be_val val (b :: bs)) with (be_val (val * 256 + b) bs).
    specialize (IH (val * 256 + b) Hbs ltac:(lia)). split; [lia|].
    rewrite zlen_cons, Z.pow_add_r by (pose proof (zlen_nonneg bs); lia).
    assert (0 < 256 ^ zlen bs) by (apply Z.pow_pos_nonneg; [lia|apply zlen_nonneg]). nia.
Qed.

Lemma u64_to_be_bytes v : is_bytes (u64_to_be v).
Proof. apply Forall_app. split; apply u32_to_be_bytes. Qed.

Lemma be_val_shift bs : ∀ a, be_val a bs = a * 256 ^ zlen bs + be_val 0 bs.
Proof.
  induction bs as [|b bs IH]; intros a; [unfold be_val, zlen; simpl; lia|].
  change (be_val a (b :: bs)) with (be_val (a * 256 + b) bs).
  change (be_val 0 (b :: bs)) with (be_val b bs). rewrite (IH (a * 256 + b)), (IH b).
  rewrite zlen_cons, Z.pow_add_r by (pose proof (zlen_nonneg bs); lia). lia.
Qed.

Lemma be_val_app a bs cs : be_val a (bs ++ cs) = be_val (be_val a bs) cs.
Proof. apply fold_left_app. Qed.

Lemma be_val_u16 a v : is_u16 v → be_val a (u16_to_be v) = a * 65536 + v.
Proof. intros H. rewrite u16_to_be_val by done. unfold be_val, is_u16, U16_MAX in *. cbn. div_mod_lia. Qed.

Lemma be_val_u32 a v : is_u32 v → be_val a (u32_to_be v) = a * 2 ^ 32 + v.
Proof.
  intros H. rewrite u32_to_be_split by done. unfold is_u32, U32_MAX in H.
  rewrite be_val_app, !be_val_u16 by (unfold is_u16, U16_MAX; div_mod_lia). div_mod_lia.
Qed.

Lemma be_val_u64 a v : is_u64 v → be_val a (u64_to_be v) = a * 2 ^ 64 + v.
Proof.
  unfold is_u64, U64_MAX. intros H. unfold u64_to_be.
  rewrite be_val_app, !be_val_u32 by (unfold is_u32, U32_MAX; div_mod_lia). div_mod_lia.
Qed.

Lemma ascii_lower_u8 b : is_u8 b → is_u8 (ascii_lower b).
Proof.
  unfold ascii_lower, is_u8, U8_MAX. intros Hb.
  destruct (Z.leb_spec 65 b), (Z.leb_spec b 90); simpl; try lia.
  assert (Z.lor b 32 < 2 ^ 8); [|split; [apply Z.lor_nonneg; lia|lia]].
  apply Z.log2_lt_cancel. rewrite Z.log2_pow2, Z.log2_lor by lia.
  apply Z.max_lub_lt; [|done]. apply Z.log2_lt_pow2; lia.
Qed.

(** A decidable fact about one octet, by enumeration. *)
Lemma u8_forall (P : Z → bool) :
  forallb (λ n, P (Z.of_nat n)) (seq 0 256) = true → ∀ b, is_u8 b → P b = true.
Proof.
  rewrite forallb_forall. intros H b Hb. unfold is_u8, U8_MAX in Hb.
  rewrite <-(Z2Nat.id b) by lia. apply H, in_seq. lia.
Qed.

Lemma land_192_label b : is_u8 b → (Z.land b 192 =? 0) = (b <? 64).
Proof.
  intros Hb. apply eqb_prop. revert b Hb. apply (u8_forall (λ b, Bool.eqb _ _)).
  by vm_compute.
Qed.

Lemma land_192_pointer b : is_u8 b → (Z.land b 192 =? 192) = (192 <=? b).
Proof.
  intros Hb. apply eqb_prop. revert b Hb. apply (u8_forall (λ b, Bool.eqb _ _)).
  by vm_compute.
Qed.

Lemma land_63_pointer b : 192 ≤ b ≤ U8_MAX → Z.land b 63 = b - 192.
Proof.
  intros Hb. rewrite (land_ones_mod b 6) by done. change (2 ^ 6) with 64.
  unfold U8_MAX in Hb. div_mod_lia.
Qed.

(** ** Reading at a position *)

(** What is left of [l] from [pos] on is [s]. *)
Definition here {A} (l : list A) (pos : Z) (s : list A) : Prop := ∃ pre, l = pre ++ s ∧ pos = zlen pre.

Lemma here_0 {A} (l : list A) : here l 0 l.
Proof. by exists []. Qed.

Lemma here_get {A} (l : list A) pos x s : here l pos (x :: s) → get l pos = Some x.
Proof. intros (pre & -> & ->). apply get_app_mid. Qed.

Lemma here_skip {A} (l : list A) pos a s : here l pos (a ++ s) → here l (pos + zlen a) s.
Proof. intros (pre & -> & ->). exists (pre ++ a). by rewrite app_assoc, zlen_app. Qed.

Lemma here_next {A} (l : list A) pos x s : here l pos (x :: s) → here l (pos + 1) s.
Proof. apply (here_skip l pos [x] s). Qed.

Lemma here_range {A} (l : list A) pos a s : here l pos (a ++ s) → get_range l pos (pos + zlen a) = Some a.
Proof. intros (pre & -> & ->). apply get_range_app. Qed.

Lemma here_rest {A} (l : list A) pos s : here l pos s → get_range l pos (zlen l) = Some s.
Proof.
  intros (pre & -> & ->). rewrite <- (app_nil_r s) at 1. rewrite zlen_app. apply get_range_app.
Qed.

Lemma here_len {A} (l : list A) pos s : here l pos s → zlen l = pos + zlen s ∧ 0 ≤ pos.
Proof. intros (pre & -> & ->). rewrite zlen_app. split; [done|apply zlen_nonneg]. Qed.
