(* ===== verification/NameTable.v ===== *)
(** * The name compression table ([onetdns-proto/src/name.rs], [NameMap])

    The encoder remembers, for every suffix it has written, the offset of that
    suffix.  The code keeps an arena of entries chained by hash; this file
    models it operation by operation and shows that it implements a finite map
    from keys to offsets, whatever the (randomly seeded) hash function is. *)

From S2P Require Import Prelude.

(** [struct NameMapEntry]. *)
Record NameMapEntry := mkNameMapEntry {
  key : list Z;
  offset : Z;
  next : option nat;
}.

(** [struct NameMap].  [hash_builder] stands for the seeded [RandomState]: an
    arbitrary function from byte strings to 64-bit hashes. *)
Record NameMap := mkNameMap {
  heads : gmap Z nat;
  entries : list NameMapEntry;
  active : nat;
  hash_builder : list Z → Z;
}.

(** [MAX_RETAINED_NAME_ENTRIES]. *)
Definition MAX_RETAINED_NAME_ENTRIES : nat := 64.

(** [NameMap::default]. *)
Definition NameMap_default (hb : list Z → Z) : NameMap :=
  {| heads := ∅; entries := []; active := 0; hash_builder := hb |}.

(** [NameMap::hash]. *)
Definition NameMap_hash (nm : NameMap) (k : list Z) : Z := hash_builder nm k.

(** The [while let Some(index) = current] loop of [NameMap::get]; [None] is
    an exhausted fuel. *)
Fixpoint chain_get (fuel : nat) (es : list NameMapEntry) (k : list Z)
    (current : option nat) : option (option Z) :=
  match fuel with
  | O => None
  | S fuel =>
      match current with
      | None => Some None
      | Some index =>
          match es !! index with
          | None => Some None
          | Some e =>
              if decide (key e = k) then Some (Some (offset e))
              else chain_get fuel es k (next e)
          end
      end
  end.

(** [NameMap::get]. *)
Definition NameMap_get (nm : NameMap) (k : list Z) : option Z :=
  default None
    (chain_get (S (active nm)) (entries nm) k (heads nm !! NameMap_hash nm k)).

(** [NameMap::insert]. *)
Definition NameMap_insert (nm : NameMap) (k : list Z) (off : Z) : NameMap :=
  let hash := NameMap_hash nm k in
  let e := {| key := k; offset := off; next := heads nm !! hash |} in
  {| heads := <[hash := active nm]> (heads nm);
     entries :=
       match entries nm !! active nm with
       | Some _ => <[active nm := e]> (entries nm)
       | None => entries nm ++ [e]
       end;
     active := S (active nm);
     hash_builder := hash_builder nm |}.

(** [NameMap::clear]. *)
Definition NameMap_clear (nm : NameMap) : NameMap :=
  if (MAX_RETAINED_NAME_ENTRIES <? length (entries nm))%nat
  then {| heads := ∅; entries := []; active := 0; hash_builder := hash_builder nm |}
  else {| heads := ∅; entries := entries nm; active := 0;
          hash_builder := hash_builder nm |}.

(** [NameMap::is_empty]. *)
Definition NameMap_is_empty (nm : NameMap) : bool := (active nm =? 0)%nat.

(** ** Representation invariant *)

(** The greatest index below [n] whose entry has hash [h]. *)
Fixpoint last_with (hb : list Z → Z) (es : list NameMapEntry) (h : Z) (n : nat) : option nat :=
  match n with
  | O => None
  | S m =>
      match es !! m with
      | Some e => if decide (hb (key e) = h) then Some m else last_with hb es h m
      | None => last_with hb es h m
      end
  end.

(** Every head is the newest entry of its hash and every [next] link is the
    next older entry with the same hash. *)
Record NameMap_wf (nm : NameMap) : Prop := {
  wf_active : (active nm ≤ length (entries nm))%nat;
  wf_heads : ∀ h, heads nm !! h = last_with (hash_builder nm) (entries nm) h (active nm);
  wf_next : ∀ i e, (i < active nm)%nat → entries nm !! i = Some e →
    next e = last_with (hash_builder nm) (entries nm) (hash_builder nm (key e)) i;
}.

(** The finite map the table represents: newer entries win. *)
Definition NameMap_model (nm : NameMap) : gmap (list Z) Z :=
  foldl (λ m e, <[key e := offset e]> m) ∅ (take (active nm) (entries nm)).

(** The loop, without the chain: the newest of the first [n] entries. *)
Definition find_newest (es : list NameMapEntry) (k : list Z) (n : nat) : option Z :=
  foldl (λ m e, <[key e := offset e]> m) (∅ : gmap (list Z) Z) (take n es) !! k.

Lemma find_newest_S es k n e :
  es !! n = Some e →
  find_newest es k (S n) =
    if decide (key e = k) then Some (offset e) else find_newest es k n.
Proof.
  intros He. unfold find_newest. rewrite (take_S_r _ _ e) by done.
  rewrite foldl_snoc, lookup_insert. by case_decide.
Qed.

Lemma last_with_bound hb es h n i :
  last_with hb es h n = Some i → (i < n)%nat.
Proof.
  induction n as [|n IH]; simpl; [done|].
  destruct (es !! n); [case_decide|]; intros; simplify_eq; try lia;
    apply IH in H || apply IH in H0; lia.
Qed.

Lemma last_with_ext hb es es' h n :
  (∀ i, (i < n)%nat → es !! i = es' !! i) → last_with hb es h n = last_with hb es' h n.
Proof.
  induction n as [|n IH]; simpl; intros Heq; [done|].
  rewrite <-(Heq n) by lia. rewrite IH by (intros; apply Heq; lia). done.
Qed.

(** Following the chain of a key's hash finds the newest entry of that key. *)
Lemma chain_get_newest nm k n fuel :
  NameMap_wf nm → (n ≤ active nm)%nat → (n < fuel)%nat →
  chain_get fuel (entries nm) k
    (last_with (hash_builder nm) (entries nm) (hash_builder nm k) n)
  = Some (find_newest (entries nm) k n).
Proof.
  intros Hwf. revert fuel. induction n as [|n IH]; intros fuel Hn Hf.
  - destruct fuel; [lia|]. done.
  - destruct (lookup_lt_is_Some_2 (entries nm) n) as [e He].
    { pose proof (wf_active _ Hwf). lia. }
    rewrite (find_newest_S _ _ _ e) by done. cbn [last_with]. rewrite He.
    destruct (decide (hash_builder nm (key e) = hash_builder nm k)) as [Hh|Hh].
    + destruct fuel as [|fuel]; [lia|]. simpl. rewrite He.
      case_decide; [done|].
      rewrite (wf_next _ Hwf n e), Hh by (done || lia). apply IH; lia.
    + rewrite decide_False by congruence. apply IH; lia.
Qed.

Lemma NameMap_get_model nm k : NameMap_wf nm → NameMap_get nm k = NameMap_model nm !! k.
Proof.
  intros Hwf. unfold NameMap_get, NameMap_hash. rewrite (wf_heads _ Hwf).
  by rewrite chain_get_newest by (done || lia).
Qed.

Lemma NameMap_default_wf hb : NameMap_wf (NameMap_default hb).
Proof. constructor; simpl; [lia|done|lia]. Qed.

Lemma NameMap_default_model hb : NameMap_model (NameMap_default hb) = ∅.
Proof. done. Qed.

Lemma NameMap_clear_wf nm : NameMap_wf (NameMap_clear nm).
Proof. unfold NameMap_clear. case_match; constructor; simpl; lia || done. Qed.

Lemma NameMap_clear_model nm : NameMap_model (NameMap_clear nm) = ∅.
Proof. unfold NameMap_clear, NameMap_model. case_match; by rewrite take_0. Qed.

(** The arena after an insertion: the slots in use are kept, slot [active]
    holds the new entry. *)
Lemma NameMap_insert_entries nm k off :
  (active nm ≤ length (entries nm))%nat →
  let e := {| key := k; offset := off; next := heads nm !! hash_builder nm k |} in
  let es := entries (NameMap_insert nm k off) in
  es !! active nm = Some e ∧
  (∀ i, (i < active nm)%nat → es !! i = entries nm !! i) ∧
  (active nm < length es)%nat.
Proof.
  intros Ha e es. subst es. simpl. fold (NameMap_hash nm k) in e. fold e.
  destruct (entries nm !! active nm) eqn:Hl.
  - apply lookup_lt_Some in Hl. split_and!.
    + by apply list_lookup_insert_eq.
    + intros i Hi. apply list_lookup_insert_ne. lia.
    + by rewrite length_insert.
  - apply lookup_ge_None in Hl. replace (active nm) with (length (entries nm)) by lia.
    split_and!.
    + by rewrite list_lookup_middle.
    + intros i Hi. by apply lookup_app_l.
    + rewrite length_app. simpl. lia.
Qed.

Lemma NameMap_insert_wf nm k off : NameMap_wf nm → NameMap_wf (NameMap_insert nm k off).
Proof.
  intros Hwf. pose proof (wf_active _ Hwf) as Ha.
  destruct (NameMap_insert_entries nm k off Ha) as (Hnew & Hold & Hlen).
  assert (Hlw : ∀ h, last_with (hash_builder nm) (entries (NameMap_insert nm k off)) h (active nm)
                   = heads nm !! h).
  { intros h. rewrite (wf_heads _ Hwf). by apply last_with_ext. }
  constructor.
  - done.
  - intros h. cbn [heads NameMap_insert active hash_builder]. cbn [last_with].
    rewrite Hnew. simpl. unfold NameMap_hash. rewrite lookup_insert.
    case_decide; [done|]. by rewrite Hlw.
  - intros i e Hi He. cbn [active hash_builder NameMap_insert] in *.
    destruct (decide (i = active nm)) as [->|Hne].
    + rewrite Hnew in He. simplify_eq. simpl. by rewrite Hlw.
    + rewrite Hold in He by lia. rewrite (wf_next _ Hwf i e) by (done || lia).
      apply last_with_ext. intros j Hj. symmetry. apply Hold. lia.
Qed.

Lemma NameMap_insert_model nm k off :
  NameMap_wf nm → NameMap_model (NameMap_insert nm k off) = <[k := off]> (NameMap_model nm).
Proof.
  intros Hwf. pose proof (wf_active _ Hwf) as Ha.
  destruct (NameMap_insert_entries nm k off Ha) as (Hnew & Hold & Hlen).
  unfold NameMap_model. cbn [active NameMap_insert].
  rewrite (take_S_r _ _ _ Hnew), foldl_snoc. simpl. f_equal. f_equal.
  apply list_eq. intros i. destruct (decide (i < active nm)%nat).
  - rewrite !lookup_take_lt by lia. by apply Hold.
  - by rewrite !lookup_take_ge by lia.
Qed.

Lemma NameMap_is_empty_model nm : NameMap_is_empty nm = true → NameMap_model nm = ∅.
Proof.
  unfold NameMap_is_empty, NameMap_model. intros ->%Nat.eqb_eq. by rewrite take_0.
Qed.
