(* ===== verification/Wire.v ===== *)
(** * Reader and writer ([onetdns-proto/src/wire.rs], [onetdns-proto/src/lib.rs])

    The bounds-checked cursor every parser goes through and the encoding
    buffer every encoder goes through, with the lemmas that say when their
    operations succeed and what they preserve. *)

From S2P Require Import Prelude NameTable.

(** [enum ProtoError]. *)
Inductive ProtoError :=
  | ErrEof
  | ErrName (s : string)
  | ErrMessage (s : string).

#[export] Instance ProtoError_eq_dec : EqDecision ProtoError.
Proof. solve_decision. Defined.

(** [impl Display for ProtoError]. *)
Definition ProtoError_to_string (e : ProtoError) : string :=
  match e with
  | ErrEof => "메시지가 끝난 뒤의 데이터를 읽으려 했습니다"
  | ErrName s => "이름 파싱 오류: " +:+ s
  | ErrMessage s => "DNS 메시지 오류: " +:+ s
  end.

(** [MAX_DNS_WIRE_LEN]. *)
Definition MAX_DNS_WIRE_LEN : Z := U16_MAX.

(** ** [struct Reader] *)

Record Reader := mkReader {
  rbuf : list Z;
  rpos : Z;
  rlimit : Z;
}.

Definition set_rpos (p : Z) (r : Reader) : Reader :=
  {| rbuf := rbuf r; rpos := p; rlimit := rlimit r |}.
Definition set_rlimit (l : Z) (r : Reader) : Reader :=
  {| rbuf := rbuf r; rpos := rpos r; rlimit := l |}.

(** A method of [&mut Reader] that can fail. *)
Definition Parser (A : Type) : Type := Reader → outcome ProtoError A * Reader.

Definition pret {A} (a : A) : Parser A := λ r, (Ok a, r).
Definition pfail {A} (e : ProtoError) : Parser A := λ r, (Err e, r).
Definition pbind {A B} (m : Parser A) (k : A → Parser B) : Parser B := λ r,
  match m r with
  | (Ok a, r') => k a r'
  | (Err e, r') => (Err e, r')
  | (Panic, r') => (Panic, r')
  | (NoFuel, r') => (NoFuel, r')
  end.
(** An [Option] turned into a result, as [ok_or] does. *)
Definition plift {A} (o : option A) (e : ProtoError) : Parser A :=
  match o with Some a => pret a | None => pfail e end.
(** An unchecked index or slice: panics when out of range. *)
Definition pindex {A} (o : option A) : Parser A := λ r,
  match o with Some a => (Ok a, r) | None => (Panic, r) end.

Declare Scope parser_scope.
Delimit Scope parser_scope with parser.
Notation "'let!' x := m 'in' k" := (pbind m (fun x => k))
  (at level 10, x pattern, k at level 200) : parser_scope.
#[global] Open Scope parser_scope.

(** [Reader::new]. *)
Definition Reader_new (b : list Z) : Reader :=
  {| rbuf := b; rpos := 0; rlimit := zlen b |}.

(** [Reader::u8]. *)
Definition Reader_u8 : Parser Z := λ r,
  if rlimit r <=? rpos r then (Err ErrEof, r)
  else match get (rbuf r) (rpos r) with
       | None => (Err ErrEof, r)
       | Some b => (Ok b, set_rpos (rpos r + 1) r)
       end.

(** [Reader::u16]. *)
Definition Reader_u16 : Parser Z :=
  let! hi := Reader_u8 in
  let! lo := Reader_u8 in
  pret (Z.lor (Z.shiftl hi 8) lo).

(** [Reader::u32]. *)
Definition Reader_u32 : Parser Z :=
  let! a := Reader_u16 in
  let! b := Reader_u16 in
  pret (Z.lor (Z.shiftl a 16) b).

(** [Reader::bytes]. *)
Definition Reader_bytes (n : Z) : Parser (list Z) := λ r,
  match checked_add (rpos r) n with
  | None => (Err ErrEof, r)
  | Some e =>
      if rlimit r <? e then (Err ErrEof, r)
      else match get_range (rbuf r) (rpos r) e with
           | None => (Err ErrEof, r)
           | Some s => (Ok s, set_rpos e r)
           end
  end.

(** [Reader::remaining]. *)
Definition Reader_remaining (r : Reader) : Z := saturating_sub (rlimit r) (rpos r).

(** The invariant stated on [struct Reader]; the buffer is a slice of bytes. *)
Record Reader_wf (r : Reader) : Prop := {
  rwf_pos : 0 ≤ rpos r ≤ rlimit r;
  rwf_limit : rlimit r ≤ zlen (rbuf r);
  rwf_max : zlen (rbuf r) ≤ MAX_DNS_WIRE_LEN;
  rwf_bytes : is_bytes (rbuf r);
}.

(** What every parsing step guarantees, whatever the bytes are: it does not
    panic nor loop, keeps the buffer and the limit, moves the cursor forward
    within the limit, and its value satisfies [Q]. *)
Definition safe_at {A} (r : Reader) (m : Parser A) (Q : A → Prop) : Prop :=
  ∃ o r', m r = (o, r') ∧ rbuf r' = rbuf r ∧ rlimit r' = rlimit r ∧
    Reader_wf r' ∧ rpos r ≤ rpos r' ∧
    match o with Ok a => Q a | Err _ => True | Panic | NoFuel => False end.

Definition safe {A} (m : Parser A) (Q : A → Prop) : Prop :=
  ∀ r, Reader_wf r → safe_at r m Q.

(** Sequencing at a given reader; the continuation knows how it was reached. *)
Lemma safe_at_bind {A B} r (m : Parser A) (k : A → Parser B) Q1 Q2 :
  safe_at r m Q1 →
  (∀ a r', m r = (Ok a, r') → Q1 a → Reader_wf r' → rbuf r' = rbuf r →
     rlimit r' = rlimit r → rpos r ≤ rpos r' → safe_at r' (k a) Q2) →
  safe_at r (pbind m k) Q2.
Proof.
  intros (o & r' & Hmr & Hb & Hl & Hwf & Hp & Ho) Hk. unfold safe_at, pbind. rewrite Hmr.
  destruct o as [a|e| |]; [|by eexists _, _; split_and!|done|done].
  destruct (Hk a r') as (o2 & r2 & Hk2 & Hb2 & Hl2 & Hwf2 & Hp2 & Ho2); try done.
  exists o2, r2. split_and!; try done; try congruence; lia.
Qed.

Lemma safe_ret {A} (a : A) (Q : A → Prop) : Q a → safe (pret a) Q.
Proof. intros Ha r Hr. unfold safe_at. eexists _, _. split; [done|]. by split_and!. Qed.

Lemma safe_fail {A} e (Q : A → Prop) : safe (pfail e) Q.
Proof. intros r Hr. unfold safe_at. eexists _, _. split; [done|]. by split_and!. Qed.

Lemma safe_bind {A B} (m : Parser A) (k : A → Parser B) Q1 Q2 :
  safe m Q1 → (∀ a, Q1 a → safe (k a) Q2) → safe (pbind m k) Q2.
Proof.
  intros Hm Hk r Hr. eapply safe_at_bind; [by apply Hm|]. intros a r' _ Ha Hr' _ _ _. by apply Hk.
Qed.

Lemma safe_weaken {A} (m : Parser A) (Q1 Q2 : A → Prop) :
  safe m Q1 → (∀ a, Q1 a → Q2 a) → safe m Q2.
Proof.
  intros Hm HQ r Hr. destruct (Hm r Hr) as (o & r' & ? & ? & ? & ? & ? & Ho).
  exists o, r'. split_and!; try done. destruct o; auto.
Qed.

Lemma Reader_wf_set_pos r p :
  Reader_wf r → 0 ≤ p ≤ rlimit r → Reader_wf (set_rpos p r).
Proof. intros [] ?. by constructor. Qed.

Lemma Reader_u8_safe : safe Reader_u8 is_u8.
Proof.
  intros r Hr. pose proof Hr as [Hp Hl Hm Hb]. unfold safe_at, Reader_u8.
  destruct (Z.leb_spec (rlimit r) (rpos r)); [by eexists _, _; split_and!|].
  destruct (get_is_Some (rbuf r) (rpos r)) as [b Hg]; [lia|]. rewrite Hg.
  eexists _, _. split; [done|]. simpl. split_and!; try done; try lia.
  - apply Reader_wf_set_pos; [done|lia].
  - by eapply Forall_get.
Qed.

Lemma Reader_u16_safe : safe Reader_u16 is_u16.
Proof.
  eapply safe_bind; [apply Reader_u8_safe|]. intros hi Hhi.
  eapply safe_bind; [apply Reader_u8_safe|]. intros lo Hlo.
  apply safe_ret. pose proof (u16_from_be_val hi lo Hlo) as He.
  unfold u16_from_be in He. rewrite He.
  unfold is_u8, is_u16, U8_MAX, U16_MAX in *. lia.
Qed.

Lemma Reader_u32_safe : safe Reader_u32 is_u32.
Proof.
  eapply safe_bind; [apply Reader_u16_safe|]. intros hi Hhi.
  eapply safe_bind; [apply Reader_u16_safe|]. intros lo Hlo.
  apply safe_ret. unfold is_u16, is_u32, U16_MAX, U32_MAX in *.
  rewrite lor_shiftl_add by lia. lia.
Qed.

Lemma Reader_bytes_safe n :
  0 ≤ n → safe (Reader_bytes n) (λ s, zlen s = n ∧ is_bytes s).
Proof.
  intros Hn r Hr. pose proof Hr as [Hp Hl Hm Hb]. unfold safe_at, Reader_bytes.
  destruct (checked_add (rpos r) n) as [e|] eqn:He; [|by eexists _, _; split_and!].
  unfold checked_add in He. case_match; simplify_eq.
  destruct (Z.ltb_spec (rlimit r) (rpos r + n)); [by eexists _, _; split_and!|].
  destruct (get_range (rbuf r) (rpos r) (rpos r + n)) as [s|] eqn:Hs;
    [|by eexists _, _; split_and!].
  eexists _, _. split; [done|]. simpl. split_and!; try done; try lia.
  - apply Reader_wf_set_pos; [done|lia].
  - apply get_range_Some in Hs. lia.
  - by eapply Forall_get_range.
Qed.

Create HintDb safe.
#[export] Hint Resolve Reader_u8_safe Reader_u16_safe Reader_u32_safe
  safe_ret safe_fail : safe.

(** Walk through a parser, one bind at a time. *)
Ltac safe_step :=
  eapply safe_bind; [solve [eauto with safe]|intros].
