(* ===== verification/Writer.v ===== *)
(** * The encoding buffer ([onetdns-proto/src/wire.rs], [Writer])

    A buffer that fails once and then ignores every later write.  Besides the
    operations this file states what each of them appends, that a failed
    writer is never changed and that the length never exceeds the limit. *)

From S2P Require Import Prelude NameTable Wire.

(** [struct Writer]. *)
Record Writer := mkWriter {
  wbuf : list Z;
  wnames : NameMap;
  werror : option ProtoError;
  wlimit : Z;
}.

Definition set_wbuf (b : list Z) (w : Writer) : Writer :=
  {| wbuf := b; wnames := wnames w; werror := werror w; wlimit := wlimit w |}.
Definition set_wnames (n : NameMap) (w : Writer) : Writer :=
  {| wbuf := wbuf w; wnames := n; werror := werror w; wlimit := wlimit w |}.

(** [Writer::new], with the seed of the new table's hasher. *)
Definition Writer_new (hb : list Z → Z) : Writer :=
  {| wbuf := []; wnames := NameMap_default hb; werror := None; wlimit := MAX_DNS_WIRE_LEN |}.

(** [Writer::with_limit]. *)
Definition Writer_with_limit (hb : list Z → Z) (limit : Z) : Writer :=
  {| wbuf := []; wnames := NameMap_default hb; werror := None;
     wlimit := Z.min limit MAX_DNS_WIRE_LEN |}.

(** [Writer::clear]. *)
Definition Writer_clear (w : Writer) : Writer :=
  {| wbuf := []; wnames := NameMap_clear (wnames w); werror := None; wlimit := wlimit w |}.

(** [Writer::fail]. *)
Definition Writer_fail (message : string) (w : Writer) : Writer :=
  match werror w with
  | None => {| wbuf := wbuf w; wnames := wnames w;
               werror := Some (ErrMessage message); wlimit := wlimit w |}
  | Some _ => w
  end.

(** [Writer::is_failed]. *)
Definition Writer_is_failed (w : Writer) : bool :=
  match werror w with Some _ => true | None => false end.

(** [Writer::reserve_append]. *)
Definition Writer_reserve_append (additional : Z) (w : Writer) : bool * Writer :=
  if Writer_is_failed w then (false, w)
  else match checked_add (zlen (wbuf w)) additional with
       | None => (false, Writer_fail "DNS 메시지 길이 산술 계산 범위를 넘었습니다" w)
       | Some total =>
           if wlimit w <? total
           then (false, Writer_fail
                   ("DNS 메시지가 허용 크기인 " +:+ pretty (wlimit w) +:+ "바이트를 넘었습니다") w)
           else (true, w)
       end.

(** The common shape of the [push_*] methods: append when the reservation
    succeeded. *)
Definition Writer_append (additional : Z) (b : list Z) (w : Writer) : Writer :=
  match Writer_reserve_append additional w with
  | (true, w') => set_wbuf (wbuf w' ++ b) w'
  | (false, w') => w'
  end.

(** [Writer::push_u8], [push_u16], [push_u32] and [push_bytes]. *)
Definition Writer_push_u8 (v : Z) : Writer → Writer := Writer_append 1 [v].
Definition Writer_push_u16 (v : Z) : Writer → Writer := Writer_append 2 (u16_to_be v).
Definition Writer_push_u32 (v : Z) : Writer → Writer := Writer_append 4 (u32_to_be v).
Definition Writer_push_bytes (b : list Z) : Writer → Writer := Writer_append (zlen b) b.

(** [Writer::reserve_block]: the start of the zeroed block, if there is one. *)
Definition Writer_reserve_block (additional : Z) (w : Writer) : option Z * Writer :=
  match Writer_reserve_append additional w with
  | (false, w') => (None, w')
  | (true, w') =>
      (Some (zlen (wbuf w')),
       set_wbuf (wbuf w' ++ replicate (Z.to_nat additional) 0) w')
  end.

(** [Writer::placeholder_u16]. *)
Definition Writer_placeholder_u16 (w : Writer) : Z * Writer :=
  (zlen (wbuf w), Writer_push_u16 0 w).

(** [self.buf[at..at + 2].copy_from_slice(..)]. *)
Definition patch_u16 (b : list Z) (at_ : Z) (v : Z) : list Z :=
  take (Z.to_nat at_) b ++ u16_to_be v ++ drop (Z.to_nat (at_ + 2)) b.

(** [Writer::backpatch_len]. *)
Definition Writer_backpatch_len (at_ : Z) (w : Writer) : Writer :=
  if Writer_is_failed w then w
  else match checked_add at_ 2 with
       | None => Writer_fail "DNS 길이 placeholder 계산 범위를 넘었습니다" w
       | Some start =>
           match get_range (wbuf w) at_ start with
           | None => Writer_fail "DNS 길이 placeholder 범위가 올바르지 않습니다" w
           | Some _ =>
               match checked_sub (zlen (wbuf w)) start with
               | None => Writer_fail "DNS RDATA 길이 범위가 올바르지 않습니다" w
               | Some len =>
                   match u16_try_from len with
                   | None => Writer_fail "DNS 레코드 데이터가 65,535바이트를 넘었습니다" w
                   | Some len => set_wbuf (patch_u16 (wbuf w) at_ len) w
                   end
               end
           end
       end.

(** [Writer::finish]. *)
Definition Writer_finish (w : Writer) : outcome ProtoError (list Z) :=
  match werror w with
  | Some e => Err e
  | None => Ok (wbuf w)
  end.

(** ** Encoders as writer transformers *)

(** The invariant stated on [struct Writer], for buffers of bytes. *)
Record Writer_wf (w : Writer) : Prop := {
  wwf_len : zlen (wbuf w) ≤ wlimit w;
  wwf_limit : 0 ≤ wlimit w ≤ MAX_DNS_WIRE_LEN;
  wwf_bytes : is_bytes (wbuf w);
  wwf_names : NameMap_wf (wnames w);
}.

(** A failed writer ignores every write. *)
Definition sticky (enc : Writer → Writer) : Prop :=
  ∀ w, Writer_is_failed w = true → enc w = w.

(** Two writes in sequence. *)
Definition wseq (e1 e2 : Writer → Writer) : Writer → Writer := λ w, e2 (e1 w).

Lemma sticky_wseq e1 e2 : sticky e1 → sticky e2 → sticky (wseq e1 e2).
Proof. intros H1 H2 w Hw. unfold wseq. by rewrite (H1 w Hw), H2. Qed.

Lemma sticky_id : sticky id.
Proof. by intros w. Qed.

Lemma Writer_fail_failed m w : Writer_is_failed (Writer_fail m w) = true.
Proof. unfold Writer_fail, Writer_is_failed. by destruct (werror w) eqn:E; simpl; rewrite ?E. Qed.

Lemma sticky_fail m : sticky (Writer_fail m).
Proof. intros w. unfold Writer_fail, Writer_is_failed. by destruct (werror w). Qed.

Lemma sticky_append n b : sticky (Writer_append n b).
Proof. intros w Hw. unfold Writer_append, Writer_reserve_append. by rewrite Hw. Qed.

Lemma sticky_backpatch at_ : sticky (Writer_backpatch_len at_).
Proof. intros w Hw. unfold Writer_backpatch_len. by rewrite Hw. Qed.

Create HintDb sticky.
#[export] Hint Resolve sticky_append sticky_fail sticky_backpatch sticky_id sticky_wseq : sticky.
#[export] Hint Extern 1 (sticky (Writer_push_u8 _)) => apply sticky_append : sticky.
#[export] Hint Extern 1 (sticky (Writer_push_u16 _)) => apply sticky_append : sticky.
#[export] Hint Extern 1 (sticky (Writer_push_u32 _)) => apply sticky_append : sticky.
#[export] Hint Extern 1 (sticky (Writer_push_bytes _)) => apply sticky_append : sticky.

Declare Scope writer_scope.
Delimit Scope writer_scope with writer.
Notation "e1 ;> e2" := (wseq e1 e2) (at level 65, right associativity) : writer_scope.

(** If a composed encoder did not fail then its first part did not. *)
Lemma sticky_first e2 w :
  sticky e2 → Writer_is_failed (e2 w) = false → Writer_is_failed w = false.
Proof.
  intros He Hw. destruct (Writer_is_failed w) eqn:E; [|done]. rewrite (He w E) in Hw. congruence.
Qed.

(** An append keeps the buffer and fails, or appends. *)
Lemma Writer_append_cases n b w :
  (∃ m, Writer_append n b w = Writer_fail m w) ∨
  (Writer_is_failed w = false ∧ zlen (wbuf w) + n ≤ wlimit w ∧
   Writer_append n b w = set_wbuf (wbuf w ++ b) w).
Proof.
  destruct (Writer_is_failed w) eqn:Hw.
  { left. exists EmptyString. by rewrite sticky_append, sticky_fail. }
  unfold Writer_append, Writer_reserve_append, checked_add. rewrite Hw.
  destruct (_ <=? USIZE_MAX); [|by left; eexists].
  destruct (_ <? _) eqn:Hlt; bool_prop; [by left; eexists|by right].
Qed.

(** What a successful append does. *)
Lemma Writer_append_ok n b w :
  Writer_is_failed (Writer_append n b w) = false →
  Writer_is_failed w = false ∧ zlen (wbuf w) + n ≤ wlimit w ∧
  Writer_append n b w = set_wbuf (wbuf w ++ b) w.
Proof.
  intros H. destruct (Writer_append_cases n b w) as [[m Hm]|Hok]; [|done].
  rewrite Hm, Writer_fail_failed in H. done.
Qed.

(** When an append succeeds. *)
Lemma Writer_append_fits n b w :
  Writer_is_failed w = false → zlen (wbuf w) + n ≤ wlimit w →
  wlimit w ≤ MAX_DNS_WIRE_LEN →
  Writer_append n b w = set_wbuf (wbuf w ++ b) w.
Proof.
  intros Hw Hn Hl. unfold Writer_append, Writer_reserve_append. rewrite Hw.
  unfold checked_add, MAX_DNS_WIRE_LEN, U16_MAX, USIZE_MAX in *.
  rewrite (proj2 (Z.leb_le _ _)) by lia.
  by rewrite (proj2 (Z.ltb_ge _ _)) by lia.
Qed.

Lemma Writer_wf_fail m w : Writer_wf w → Writer_wf (Writer_fail m w).
Proof. intros []. unfold Writer_fail. destruct (werror w); by constructor. Qed.

Lemma Writer_append_wf n b w :
  Writer_wf w → n = zlen b → is_bytes b → Writer_wf (Writer_append n b w).
Proof.
  intros Hw -> Hb. destruct (Writer_append_cases (zlen b) b w) as [[m ->]|(_ & Hlen & ->)].
  - by apply Writer_wf_fail.
  - destruct Hw. constructor; simpl; try done; [rewrite zlen_app; lia|by apply Forall_app].
Qed.

Lemma zlen_u16_to_be v : zlen (u16_to_be v) = 2.
Proof. done. Qed.
Lemma zlen_u32_to_be v : zlen (u32_to_be v) = 4.
Proof. done. Qed.
#[export] Hint Rewrite zlen_u16_to_be zlen_u32_to_be : zlen.

(** A backpatch fails, or records the number of bytes after the slot. *)
Lemma Writer_backpatch_cases at_ w :
  (∃ m, Writer_backpatch_len at_ w = Writer_fail m w) ∨
  (∃ len, Writer_is_failed w = false ∧
    0 ≤ at_ ∧ len = zlen (wbuf w) - (at_ + 2) ∧ 0 ≤ len ≤ U16_MAX ∧
    Writer_backpatch_len at_ w = set_wbuf (patch_u16 (wbuf w) at_ len) w).
Proof.
  destruct (Writer_is_failed w) eqn:Hw.
  { left. exists EmptyString. by rewrite sticky_backpatch, sticky_fail. }
  unfold Writer_backpatch_len, checked_add, checked_sub, u16_try_from. rewrite Hw.
  destruct (_ <=? USIZE_MAX); [|by left; eexists].
  destruct (get_range _ _ _) as [s|] eqn:Hs; [|by left; eexists].
  apply get_range_Some in Hs.
  destruct (at_ + 2 <=? _) eqn:H1; bool_prop; [|by left; eexists].
  destruct (_ <=? U16_MAX) eqn:H2; bool_prop; [|by left; eexists].
  right. eexists. split_and!; try done; lia.
Qed.

Lemma Writer_backpatch_ok at_ w :
  Writer_is_failed (Writer_backpatch_len at_ w) = false →
  ∃ len, 0 ≤ at_ ∧ len = zlen (wbuf w) - (at_ + 2) ∧ 0 ≤ len ≤ U16_MAX ∧
    Writer_backpatch_len at_ w = set_wbuf (patch_u16 (wbuf w) at_ len) w.
Proof.
  intros H. destruct (Writer_backpatch_cases at_ w) as [[m Hm]|(len & _ & Hok)]; [|by exists len].
  rewrite Hm, Writer_fail_failed in H. done.
Qed.

Lemma patch_u16_split b at_ v :
  0 ≤ at_ → at_ + 2 ≤ zlen b →
  ∃ l x y k, b = l ++ [x; y] ++ k ∧ zlen l = at_ ∧ patch_u16 b at_ v = l ++ u16_to_be v ++ k.
Proof.
  intros Hat Hlen. unfold zlen in Hlen.
  destruct (lookup_lt_is_Some_2 b (Z.to_nat at_)) as [x Hx]; [lia|].
  destruct (lookup_lt_is_Some_2 b (S (Z.to_nat at_))) as [y Hy]; [lia|].
  exists (take (Z.to_nat at_) b), x, y, (drop (Z.to_nat (at_ + 2)) b).
  split_and!.
  - replace (Z.to_nat (at_ + 2)) with (S (S (Z.to_nat at_))) by lia. simpl.
    rewrite <-(drop_S _ _ _ Hy), <-(drop_S _ _ _ Hx). by rewrite take_drop.
  - unfold zlen. rewrite length_take. lia.
  - done.
Qed.

Lemma Writer_backpatch_wf at_ w : Writer_wf w → Writer_wf (Writer_backpatch_len at_ w).
Proof.
  intros Hw. destruct (Writer_backpatch_cases at_ w)
    as [[m ->]|(len & _ & Hat & Hlen & Hr & ->)]; [by apply Writer_wf_fail|].
  destruct Hw as [Hl ? Hb ?].
  destruct (patch_u16_split (wbuf w) at_ len) as (l & x & y & k & Hbuf & Hll & Hp); [lia..|].
  rewrite Hbuf in Hl, Hb. unfold is_bytes in *.
  rewrite !Forall_app in Hb. destruct Hb as (? & ? & ?).
  constructor; simpl; try done; rewrite Hp.
  - rewrite !zlen_app, zlen_u16_to_be in *. change (zlen [x; y]) with 2 in Hl. lia.
  - unfold is_bytes. rewrite !Forall_app. split_and!; try done. apply u16_to_be_bytes.
Qed.

Lemma Writer_new_wf hb : Writer_wf (Writer_new hb).
Proof. constructor; simpl; [done|done|constructor|apply NameMap_default_wf]. Qed.

Lemma Writer_with_limit_wf hb limit : 0 ≤ limit → Writer_wf (Writer_with_limit hb limit).
Proof.
  constructor; simpl; unfold MAX_DNS_WIRE_LEN, U16_MAX in *.
  - rewrite zlen_nil. lia.
  - lia.
  - constructor.
  - apply NameMap_default_wf.
Qed.

Lemma Writer_clear_wf w : Writer_wf w → Writer_wf (Writer_clear w).
Proof.
  intros []. constructor; simpl; [rewrite zlen_nil; lia|done|constructor|apply NameMap_clear_wf].
Qed.

(** A finished message never exceeds the wire limit. *)
Lemma Writer_finish_bound w b :
  Writer_wf w → Writer_finish w = Ok b → zlen b ≤ MAX_DNS_WIRE_LEN ∧ is_bytes b.
Proof.
  intros [] H. unfold Writer_finish in H. case_match; simplify_eq. split; [lia|done].
Qed.
