(* ===== verification/Name.v ===== *)
(** * Domain names ([onetdns-proto/src/name.rs])

    Names are kept in uncompressed wire form.  This file models the label
    iterator, the constructors, the textual form, the case-insensitive
    comparisons and the two parsers; the compressing encoder is in
    [NameCodec]. *)

From S2P Require Import Prelude NameTable Wire.

Definition MAX_JUMPS : Z := 20.
Definition MAX_NAME_LEN : Z := 255.

(** ** [struct Labels] *)

Record Labels := mkLabels {
  lwire : list Z;
  lfront : Z;
  lback : Z;
}.

(** [Labels::next]: the label and the advanced iterator. *)
Definition Labels_next (l : Labels) : option (list Z) * Labels :=
  if lback l <=? lfront l then (None, l)
  else match get (lwire l) (lfront l) with
       | None => (None, l)
       | Some len =>
           let start := lfront l + 1 in
           match checked_add start len with
           | None => (None, l)
           | Some e =>
               if lback l <? e then (None, l)
               else match get_range (lwire l) start e with
                    | None => (None, l)
                    | Some label =>
                        (Some label, {| lwire := lwire l; lfront := e; lback := lback l |})
                    end
           end
       end.

(** [Labels::first]. *)
Definition Labels_first (l : Labels) : option (list Z) := fst (Labels_next l).

(** [Labels::is_empty]. *)
Definition Labels_is_empty (l : Labels) : bool := lback l <=? lfront l.

(** The [while cursor < self.back] loop of [Labels::len]. *)
Fixpoint Labels_len_loop (fuel : nat) (wire : list Z) (back cursor count : Z) : option Z :=
  match fuel with
  | O => None
  | S fuel =>
      if cursor <? back then
        match get wire cursor with
        | None => Some count
        | Some len => Labels_len_loop fuel wire back (cursor + len + 1) (count + 1)
        end
      else Some count
  end.

(** Each iteration of a label walk moves the cursor by at least one octet. *)
Definition labels_fuel (l : Labels) : nat := S (length (lwire l)).

(** [Labels::len]. *)
Definition Labels_len (l : Labels) : Z :=
  default 0 (Labels_len_loop (labels_fuel l) (lwire l) (lback l) (lfront l) 0).

(** The loop of [Labels::next_back]: the start of the last label. *)
Fixpoint Labels_last_loop (fuel : nat) (wire : list Z) (back cursor last : Z) : option Z :=
  match fuel with
  | O => None
  | S fuel =>
      if cursor <? back then
        match get wire cursor with
        | None => None
        | Some len => Labels_last_loop fuel wire back (cursor + len + 1) cursor
        end
      else Some last
  end.

(** [Labels::next_back]. *)
Definition Labels_next_back (l : Labels) : option (list Z) * Labels :=
  if lback l <=? lfront l then (None, l)
  else match Labels_last_loop (labels_fuel l) (lwire l) (lback l) (lfront l) (lfront l) with
       | None => (None, l)
       | Some last =>
           match get (lwire l) last with
           | None => (None, l)
           | Some len =>
               (get_range (lwire l) (last + 1) (last + 1 + len),
                {| lwire := lwire l; lfront := lfront l; lback := last |})
           end
       end.

(** [for label in labels]. *)
Fixpoint Labels_collect_loop (fuel : nat) (l : Labels) : list (list Z) :=
  match fuel with
  | O => []
  | S fuel =>
      match Labels_next l with
      | (None, _) => []
      | (Some label, l') => label :: Labels_collect_loop fuel l'
      end
  end.
Definition Labels_collect (l : Labels) : list (list Z) :=
  Labels_collect_loop (labels_fuel l) l.

(** ** [struct Name] *)

Record Name := mkName { nwire : list Z }.

#[export] Instance Name_eq_dec : EqDecision Name.
Proof. solve_decision. Defined.

(** [Name::root] and the shared [ROOT_WIRE]. *)
Definition Name_root : Name := {| nwire := [0] |}.

(** [Name::is_root]. *)
Definition Name_is_root (n : Name) : bool := zlen (nwire n) =? 1.

(** [Name::labels]. *)
Definition Name_labels (n : Name) : Labels :=
  {| lwire := nwire n; lfront := 0; lback := saturating_sub (zlen (nwire n)) 1 |}.

(** [Name::num_labels]. *)
Definition Name_num_labels (n : Name) : Z := Labels_len (Name_labels n).

(** [Name::as_uncompressed_wire]. *)
Definition Name_as_uncompressed_wire (n : Name) : list Z := nwire n.

(** The length checks of [Name::from_labels]. *)
Fixpoint from_labels_total (labels : list (list Z)) (total : Z) : outcome ProtoError Z :=
  match labels with
  | [] => Ok total
  | label :: rest =>
      if (zlen label =? 0) || (63 <? zlen label)
      then Err (ErrName "라벨 길이가 올바르지 않습니다")
      else match checked_add total (zlen label + 1) with
           | None => Err (ErrName "이름이 너무 김")
           | Some total => from_labels_total rest total
           end
  end.

(** The two [push] loops of [Name::from_labels]. *)
Definition labels_wire (labels : list (list Z)) : list Z :=
  concat (map (λ l, zlen l :: l) labels) ++ [0].

(** [Name::from_labels]. *)
Definition Name_from_labels (labels : list (list Z)) : outcome ProtoError Name :=
  obind (from_labels_total labels 1) (λ total,
    if MAX_NAME_LEN <? total then Err (ErrName "이름이 너무 김")
    else Ok {| nwire := labels_wire labels |}).

(** [u8::is_ascii_digit]. *)
Definition is_ascii_digit (b : Z) : bool := (48 <=? b) && (b <=? 57).

(** The scanning loop of [Name::from_str]; the argument is the text from
    [index] on. *)
Fixpoint from_str_loop (s : list Z) (labels : list (list Z)) (current : list Z)
    (ended_with_separator : bool) : outcome ProtoError (list (list Z)) :=
  match s with
  | [] => Ok (if ended_with_separator then labels else labels ++ [current])
  | byte :: s1 =>
      if byte =? 92 then
        match s1 with
        | [] => Err (ErrName "이스케이프가 끝나지 않았습니다")
        | a :: s2 =>
            match s2 with
            | b :: c :: s4 =>
                if is_ascii_digit a && is_ascii_digit b && is_ascii_digit c then
                  let value := ((a - 48) * 10 + (b - 48)) * 10 + (c - 48) in
                  if 255 <? value
                  then Err (ErrName "십진 이스케이프가 255를 넘었습니다")
                  else from_str_loop s4 labels (current ++ [value]) false
                else from_str_loop s2 labels (current ++ [a]) false
            | _ => from_str_loop s2 labels (current ++ [a]) false
            end
        end
      else if byte =? 46 then from_str_loop s1 (labels ++ [current]) [] true
      else from_str_loop s1 labels (current ++ [byte]) false
  end.

(** [Name::from_str], on the bytes of the text. *)
Definition Name_from_str (s : list Z) : outcome ProtoError Name :=
  obind (from_str_loop s [] [] false) (λ labels,
    if bool_decide (labels = [] ∨ labels = [[]]) then Ok Name_root
    else if existsb (λ l, zlen l =? 0) labels
    then Err (ErrName "루트 라벨이 두 번 이상 붙었습니다")
    else Name_from_labels labels).

(** The characters [Name::to_master_lower] writes after a backslash. *)
Definition is_master_special (b : Z) : bool :=
  bool_decide (b ∈ [46; 92; 34; 40; 41; 59; 64; 36]).

(** One octet of [Name::to_master_lower]. *)
Definition master_byte (b : Z) : list Z :=
  if is_master_special b then [92; b]
  else if (33 <=? b) && (b <=? 126) then [ascii_lower b]
  else [92; 48 + b / 100; 48 + b / 10 mod 10; 48 + b mod 10].

(** The loop over the labels, with the separating dots. *)
Fixpoint master_labels (first : bool) (labels : list (list Z)) : list Z :=
  match labels with
  | [] => []
  | l :: rest =>
      (if first then [] else [46]) ++ concat (map master_byte l) ++ master_labels false rest
  end.

(** [Name::to_master_lower], as the bytes of the text. *)
Definition Name_to_master_lower (n : Name) : list Z :=
  master_labels true (Labels_collect (Name_labels n)).

(** [Name::canonical_key]. *)
Definition Name_canonical_key (n : Name) : list Z :=
  concat (map (λ l, zlen l :: map ascii_lower l) (Labels_collect (Name_labels n))) ++ [0].

(** The writes of one label in [Name::write_canonical_from]. *)
Fixpoint write_bytes (out : list Z) (offset : Z) (bs : list Z) : option (list Z) :=
  match bs with
  | [] => Some out
  | b :: bs =>
      match set_at out offset b with
      | None => None
      | Some out => write_bytes out (offset + 1) bs
      end
  end.

Fixpoint write_labels (out : list Z) (offset : Z) (labels : list (list Z)) :
    option (list Z * Z) :=
  match labels with
  | [] => Some (out, offset)
  | l :: rest =>
      match write_bytes out offset (zlen l :: map ascii_lower l) with
      | None => None
      | Some out => write_labels out (offset + 1 + zlen l) rest
      end
  end.

(** [Name::write_canonical_from]: [Ok None] when the buffer is too small,
    [Panic] when a write or the final slice is out of range. *)
Definition Name_write_canonical_from (n : Name) (start : Z) (out : list Z) :
    outcome ProtoError (option (list Z)) :=
  match checked_sub (zlen (nwire n)) start, checked_sub (zlen (nwire n)) 1 with
  | Some needed, Some back =>
      if zlen out <? needed then Ok None
      else
        let labels := Labels_collect {| lwire := nwire n; lfront := start; lback := back |} in
        match write_labels out 0 labels with
        | None => Panic
        | Some (out, offset) =>
            match set_at out offset 0 with
            | None => Panic
            | Some out =>
                match get_range out 0 needed with
                | None => Panic
                | Some key => Ok (Some key)
                end
            end
        end
  | _, _ => Ok None
  end.

(** [Name::canonical_key_into]. *)
Definition Name_canonical_key_into (n : Name) (out : list Z) :
    outcome ProtoError (option (list Z)) := Name_write_canonical_from n 0 out.

(** The [start += wire[start] + 1] loops that skip labels. *)
Fixpoint skip_labels (wire : list Z) (skip : nat) (start : Z) : option Z :=
  match skip with
  | O => Some start
  | S skip =>
      match get wire start with
      | None => None
      | Some len => skip_labels wire skip (start + len + 1)
      end
  end.

(** [Name::canonical_suffix_key_into]. *)
Definition Name_canonical_suffix_key_into (n : Name) (label_count : Z) (out : list Z) :
    outcome ProtoError (option (list Z)) :=
  let total := Name_num_labels n in
  let skip := saturating_sub total (Z.min label_count total) in
  match skip_labels (nwire n) (Z.to_nat skip) 0 with
  | None => Ok None
  | Some start => Name_write_canonical_from n start out
  end.

(** [Name::to_ascii_lower_name]. *)
Definition is_ascii_uppercase (b : Z) : bool := (65 <=? b) && (b <=? 90).
Definition Name_to_ascii_lower_name (n : Name) : Name :=
  if negb (existsb is_ascii_uppercase (nwire n)) then n
  else {| nwire := map ascii_lower (nwire n) |}.

(** [Name::suffix]: indexing out of range panics. *)
Definition Name_suffix (n : Name) (k : Z) : outcome ProtoError Name :=
  let total := Name_num_labels n in
  let skip := saturating_sub total (Z.min k total) in
  match skip_labels (nwire n) (Z.to_nat skip) 0 with
  | None => Panic
  | Some start =>
      match get_range (nwire n) start (zlen (nwire n)) with
      | None => Panic
      | Some w => Ok {| nwire := w |}
      end
  end.

(** [<[u8]>::eq_ignore_ascii_case]. *)
Definition eq_ignore_ascii_case (a b : list Z) : bool :=
  bool_decide (map ascii_lower a = map ascii_lower b).

(** [Name::eq_ignore_case]. *)
Definition Name_eq_ignore_case (n m : Name) : bool :=
  eq_ignore_ascii_case (nwire n) (nwire m).

(** [Name::ends_with_ignore_case]. *)
Definition Name_ends_with_ignore_case (n suffix : Name) : outcome ProtoError bool :=
  let own_labels := Name_num_labels n in
  let suffix_labels := Name_num_labels suffix in
  if own_labels <? suffix_labels then Ok false
  else match skip_labels (nwire n) (Z.to_nat (own_labels - suffix_labels)) 0 with
       | None => Panic
       | Some start =>
           match get_range (nwire n) start (zlen (nwire n)) with
           | None => Panic
           | Some w => Ok (eq_ignore_ascii_case w (nwire suffix))
           end
       end.

(** The loop of [Name::from_uncompressed_wire]. *)
Fixpoint from_wire_loop (fuel : nat) (bytes : list Z) (pos : Z) : option (option Name) :=
  match fuel with
  | O => None
  | S fuel =>
      match get bytes pos with
      | None => Some None
      | Some len =>
          if len =? 0 then
            Some (if pos + 1 =? zlen bytes
                  then Some (if zlen bytes =? 1 then Name_root else {| nwire := bytes |})
                  else None)
          else if negb (Z.land len 192 =? 0) then Some None
          else match checked_add pos 1 with
               | None => Some None
               | Some p =>
                   match checked_add p len with
                   | None => Some None
                   | Some p => from_wire_loop fuel bytes p
                   end
               end
      end
  end.

(** [Name::from_uncompressed_wire]. *)
Definition Name_from_uncompressed_wire (bytes : list Z) : option Name :=
  if (zlen bytes =? 0) || (MAX_NAME_LEN <? zlen bytes) then None
  else default None (from_wire_loop (S (length bytes)) bytes 0).

(** ** The parsers *)

(** The loop of [Name::parse].  [wire] is the prefix [wire[..wire_len]] of the
    stack array; a write beyond its [MAX_NAME_LEN] octets panics.  The result
    is that prefix and the position after the name. *)
Fixpoint parse_loop (fuel : nat) (buf : list Z) (limit pos : Z) (wire : list Z)
    (jumped : bool) (jumps end_ total : Z) : outcome ProtoError (list Z * Z) :=
  match fuel with
  | O => NoFuel
  | S fuel =>
      if negb jumped && (limit <=? pos) then Err ErrEof
      else match get buf pos with
      | None => Err ErrEof
      | Some len =>
          if Z.land len 192 =? 0 then
            if len =? 0 then Ok (wire, if jumped then end_ else pos + 1)
            else match checked_add pos 1 with
            | None => Err ErrEof
            | Some start =>
                match checked_add start len with
                | None => Err ErrEof
                | Some label_end =>
                    if negb jumped && (limit <? label_end) then Err ErrEof
                    else match get_range buf start label_end with
                    | None => Err ErrEof
                    | Some lab =>
                        match checked_add total (len + 1) with
                        | None => Err (ErrName "이름이 너무 김")
                        | Some total =>
                            if MAX_NAME_LEN <? total then Err (ErrName "이름이 너무 김")
                            else if MAX_NAME_LEN <? zlen wire + 1 + len then Panic
                            else parse_loop fuel buf limit label_end (wire ++ len :: lab)
                                   jumped jumps end_ total
                        end
                    end
                end
            end
          else if Z.land len 192 =? 192 then
            match checked_add pos 2 with
            | None => Err ErrEof
            | Some pos2 =>
                if negb jumped && (limit <? pos2) then Err ErrEof
                else match get buf (pos + 1) with
                | None => Err ErrEof
                | Some b2 =>
                    let end_ := if jumped then end_ else pos + 2 in
                    let jumps := jumps + 1 in
                    if MAX_JUMPS <? jumps then Err (ErrName "압축 포인터 루프")
                    else
                      let ptr := Z.lor (Z.shiftl (Z.land len 63) 8) b2 in
                      if pos <=? ptr then Err (ErrName "잘못된 압축 포인터")
                      else parse_loop fuel buf limit ptr wire true jumps end_ total
                end
            end
          else Err (ErrName "예약된 라벨 길이 비트")
      end
  end.

(** Every iteration adds at least two octets to [total], which stays within
    [MAX_NAME_LEN], or one to [jumps], which stays within [MAX_JUMPS]. *)
Definition PARSE_FUEL : nat := 300.

(** [Name::parse]. *)
Definition Name_parse : Parser Name := λ r,
  match parse_loop PARSE_FUEL (rbuf r) (rlimit r) (rpos r) [] false 0 (rpos r) 1 with
  | Ok (wire, end_) =>
      let r := set_rpos end_ r in
      if zlen wire =? 0 then (Ok Name_root, r)
      else if zlen wire <? MAX_NAME_LEN then (Ok {| nwire := wire ++ [0] |}, r)
      else (Panic, r)
  | Err e => (Err e, r)
  | Panic => (Panic, r)
  | NoFuel => (NoFuel, r)
  end.

(** The loop of [Name::parse_uncompressed]. *)
Fixpoint parse_uncompressed_loop (fuel : nat) (wire : list Z) (total : Z) : Parser Name :=
  match fuel with
  | O => λ r, (NoFuel, r)
  | S fuel =>
      let! len := Reader_u8 in
      if len =? 0 then
        if zlen wire =? 0 then pret Name_root
        else pindex (if zlen wire <? MAX_NAME_LEN then Some {| nwire := wire ++ [0] |} else None)
      else if negb (Z.land len 192 =? 0) || (63 <? len)
      then pfail (ErrName "압축이 허용되지 않는 DNS 이름에 잘못된 라벨")
      else
        let! total := plift (checked_add total (len + 1)) (ErrName "이름이 너무 김") in
        if MAX_NAME_LEN <? total then pfail (ErrName "이름이 너무 김")
        else
          let! _ := pindex (if zlen wire + 1 + len <=? MAX_NAME_LEN then Some tt else None) in
          let! lab := Reader_bytes len in
          parse_uncompressed_loop fuel (wire ++ len :: lab) total
  end.

(** [Name::parse_uncompressed]. *)
Definition Name_parse_uncompressed : Parser Name :=
  parse_uncompressed_loop PARSE_FUEL [] 1.

(** ** Well-formed names *)

(** A label: 1 to 63 octets. *)
Definition label_wf (l : list Z) : Prop := 1 ≤ zlen l ≤ 63 ∧ is_bytes l.

(** Labels with their length octets, without the root. *)
Definition body (ls : list (list Z)) : list Z := concat (map (λ l, zlen l :: l) ls).

(** The labels of a name of at most [MAX_NAME_LEN] octets. *)
Definition labels_wf (ls : list (list Z)) : Prop :=
  Forall label_wf ls ∧ zlen (body ls) + 1 ≤ MAX_NAME_LEN.

(** The invariant stated on [struct Name]. *)
Definition Name_wf (n : Name) : Prop := ∃ ls, labels_wf ls ∧ nwire n = labels_wire ls.

(** Equality of label lists up to ASCII case. *)
Definition labels_lower (ls : list (list Z)) : list (list Z) := map (map ascii_lower) ls.

(** An encoded name in a buffer, given as a partial function from offsets to
    octets: labels, root octet or a pointer to an earlier offset.  The indices
    are the labels, the number of pointers followed and the end offset. *)
Definition bytes_at (f : Z → option Z) (p : Z) (bs : list Z) : Prop :=
  ∀ i x, get bs i = Some x → f (p + i) = Some x.

Inductive name_at (f : Z → option Z) : Z → list (list Z) → Z → Z → Prop :=
  | na_root p : f p = Some 0 → name_at f p [] 0 (p + 1)
  | na_label p l ls j e :
      label_wf l → bytes_at f p (zlen l :: l) →
      name_at f (p + 1 + zlen l) ls j e → name_at f p (l :: ls) j e
  | na_ptr p b1 b2 ls j e :
      f p = Some b1 → f (p + 1) = Some b2 → 192 ≤ b1 ≤ U8_MAX → is_u8 b2 →
      (b1 - 192) * 256 + b2 < p → name_at f ((b1 - 192) * 256 + b2) ls j e →
      name_at f p ls (j + 1) (p + 2).

Lemma labels_wire_body ls : labels_wire ls = body ls ++ [0].
Proof. done. Qed.

Lemma labels_wire_cons l ls : labels_wire (l :: ls) = (zlen l :: l) ++ labels_wire ls.
Proof. unfold labels_wire. simpl. by rewrite <-app_assoc. Qed.

Lemma zlen_labels_wire ls : zlen (labels_wire ls) = zlen (body ls) + 1.
Proof. rewrite labels_wire_body, zlen_app. reflexivity. Qed.

Lemma body_cons l ls : body (l :: ls) = zlen l :: l ++ body ls.
Proof. done. Qed.

Lemma body_app ls ks : body (ls ++ ks) = body ls ++ body ks.
Proof. unfold body. by rewrite map_app, concat_app. Qed.

Lemma zlen_body_cons l ls : zlen (body (l :: ls)) = 1 + zlen l + zlen (body ls).
Proof. rewrite body_cons, zlen_cons, zlen_app. lia. Qed.

Lemma body_bytes ls : Forall label_wf ls → is_bytes (body ls).
Proof.
  unfold is_bytes. induction 1 as [|l ls [Hl Hb] _ IH]; [constructor|].
  rewrite body_cons. constructor; [unfold is_u8, U8_MAX; lia|]. by apply Forall_app.
Qed.

Lemma labels_wf_tail l ls : labels_wf (l :: ls) → labels_wf ls.
Proof.
  intros [Hf Hl]. apply Forall_cons in Hf as [[??] ?].
  rewrite zlen_body_cons in Hl. split; [done|lia].
Qed.

Lemma labels_wf_suffix ks ls : labels_wf (ks ++ ls) → labels_wf ls.
Proof. induction ks; [done|]. intros H. by apply labels_wf_tail in H; auto. Qed.

Lemma Name_wf_root : Name_wf Name_root.
Proof. exists []. split; [split; [constructor|done]|done]. Qed.

(** The label octets at each step of a walk. *)
Lemma get_label pre l rest :
  get (pre ++ (zlen l :: l) ++ rest) (zlen pre) = Some (zlen l).
Proof. apply get_app_mid. Qed.

Lemma get_label_bytes pre l rest :
  get_range (pre ++ (zlen l :: l) ++ rest) (zlen pre + 1) (zlen pre + 1 + zlen l) = Some l.
Proof.
  replace (pre ++ (zlen l :: l) ++ rest) with ((pre ++ [zlen l]) ++ l ++ rest)
    by (by rewrite <-!app_assoc).
  replace (zlen pre + 1) with (zlen (pre ++ [zlen l])) by (rewrite zlen_app; done).
  apply get_range_app.
Qed.

Lemma Labels_next_body pre l ls rest back :
  Forall label_wf (l :: ls) → back = zlen pre + zlen (body (l :: ls)) →
  back ≤ USIZE_MAX →
  Labels_next {| lwire := pre ++ body (l :: ls) ++ rest; lfront := zlen pre; lback := back |}
  = (Some l, {| lwire := pre ++ body (l :: ls) ++ rest;
                lfront := zlen pre + 1 + zlen l; lback := back |}).
Proof.
  intros Hwf Hback Hmax. apply Forall_cons in Hwf as [[Hl _] _].
  rewrite zlen_body_cons in Hback. pose proof (zlen_nonneg (body ls)).
  unfold Labels_next. cbn [lwire lfront lback].
  rewrite (proj2 (Z.leb_gt _ _)) by lia.
  rewrite body_cons. replace (pre ++ (zlen l :: l ++ body ls) ++ rest)
    with (pre ++ (zlen l :: l) ++ body ls ++ rest) by (simpl; by rewrite <-app_assoc).
  rewrite get_label. unfold checked_add. rewrite (proj2 (Z.leb_le _ _)) by lia.
  rewrite (proj2 (Z.ltb_ge _ _)) by lia. by rewrite get_label_bytes.
Qed.

Lemma Labels_collect_body fuel pre ls rest back :
  Forall label_wf ls → back = zlen pre + zlen (body ls) → back ≤ USIZE_MAX →
  (length ls < fuel)%nat →
  Labels_collect_loop fuel {| lwire := pre ++ body ls ++ rest; lfront := zlen pre; lback := back |}
  = ls.
Proof.
  revert pre fuel. induction ls as [|l ls IH]; intros pre fuel Hwf Hback Hmax Hf.
  - destruct fuel; [lia|]. simpl. unfold Labels_next. cbn [lwire lfront lback].
    change (zlen (body [])) with 0 in Hback. by rewrite (proj2 (Z.leb_le _ _)) by lia.
  - destruct fuel as [|fuel]; [simpl in Hf; lia|]. cbn [Labels_collect_loop].
    rewrite Labels_next_body by done. f_equal.
    rewrite body_cons. apply Forall_cons in Hwf as [Hl Hwf].
    replace (pre ++ (zlen l :: l ++ body ls) ++ rest)
      with ((pre ++ zlen l :: l) ++ body ls ++ rest)
      by (rewrite <-!app_assoc; simpl; by rewrite <-app_assoc).
    replace (zlen pre + 1 + zlen l) with (zlen (pre ++ zlen l :: l))
      by (rewrite zlen_app, zlen_cons; lia).
    apply IH; [done| |done|simpl in Hf; lia].
    rewrite zlen_body_cons in Hback. rewrite zlen_app, zlen_cons. lia.
Qed.

Lemma body_length ls : (length ls ≤ length (body ls))%nat.
Proof.
  induction ls as [|l ls IH]; [simpl; lia|]. rewrite body_cons. simpl. rewrite length_app. lia.
Qed.

Lemma labels_wf_max ls : labels_wf ls → zlen (body ls) ≤ 254.
Proof. unfold labels_wf, MAX_NAME_LEN. lia. Qed.

(** The iterator of a well-formed name yields exactly its labels. *)
Lemma Name_labels_collect ls :
  labels_wf ls → Labels_collect (Name_labels {| nwire := labels_wire ls |}) = ls.
Proof.
  intros Hwf. pose proof (labels_wf_max _ Hwf). pose proof (zlen_nonneg (body ls)).
  unfold Labels_collect, Name_labels, labels_fuel. cbn [lwire nwire].
  rewrite labels_wire_body.
  apply (Labels_collect_body _ [] ls [0]); rewrite ?zlen_app; unfold saturating_sub, USIZE_MAX;
    change (zlen [0]) with 1; change (zlen (@nil Z)) with 0; try lia.
  - apply Hwf.
  - pose proof (body_length ls). rewrite length_app. lia.
Qed.

(** Rewriting a wire so that the cursor sits behind the first label. *)
Lemma wire_shift pre l ls rest :
  pre ++ body (l :: ls) ++ rest = (pre ++ zlen l :: l) ++ body ls ++ rest.
Proof. rewrite body_cons. rewrite <-!app_assoc. simpl. by rewrite <-app_assoc. Qed.

Lemma zlen_shift pre (l : list Z) : zlen (pre ++ zlen l :: l) = zlen pre + zlen l + 1.
Proof. rewrite zlen_app, zlen_cons. lia. Qed.

Lemma get_wire_label pre l ls rest :
  get (pre ++ body (l :: ls) ++ rest) (zlen pre) = Some (zlen l).
Proof. rewrite body_cons. simpl. apply get_app_mid. Qed.

Lemma Labels_len_loop_body fuel pre ls rest back count :
  back = zlen pre + zlen (body ls) → (length ls < fuel)%nat →
  Labels_len_loop fuel (pre ++ body ls ++ rest) back (zlen pre) count
  = Some (count + Z.of_nat (length ls)).
Proof.
  revert pre fuel count. induction ls as [|l ls IH]; intros pre fuel count Hback Hf;
    (destruct fuel as [|fuel]; [simpl in Hf; lia|]); cbn [Labels_len_loop].
  - change (zlen (body [])) with 0 in Hback. rewrite (proj2 (Z.ltb_ge _ _)) by lia.
    f_equal. simpl. lia.
  - rewrite zlen_body_cons in Hback.
    pose proof (zlen_nonneg l). pose proof (zlen_nonneg (body ls)).
    rewrite (proj2 (Z.ltb_lt _ _)) by lia. rewrite get_wire_label, wire_shift.
    rewrite <-zlen_shift. rewrite IH.
    + f_equal. simpl length. lia.
    + rewrite zlen_shift. lia.
    + simpl in Hf. lia.
Qed.

Lemma Name_num_labels_wf ls :
  Name_num_labels {| nwire := labels_wire ls |} = Z.of_nat (length ls).
Proof.
  unfold Name_num_labels, Labels_len, Name_labels, labels_fuel. cbn [lwire lfront lback nwire].
  rewrite labels_wire_body.
  pose proof (Labels_len_loop_body (S (length (body ls ++ [0]))) [] ls [0]
    (saturating_sub (zlen (body ls ++ [0])) 1) 0) as Hl.
  simpl app in Hl. change (zlen (@nil Z)) with 0 in Hl. rewrite Hl; [done| |].
  - rewrite zlen_app. unfold saturating_sub. change (zlen [0]) with 1.
    pose proof (zlen_nonneg (body ls)). lia.
  - pose proof (body_length ls). rewrite length_app. lia.
Qed.

Lemma Labels_last_loop_body fuel pre ls l rest back last :
  back = zlen pre + zlen (body (ls ++ [l])) → (length ls + 1 < fuel)%nat →
  Labels_last_loop fuel (pre ++ body (ls ++ [l]) ++ rest) back (zlen pre) last
  = Some (zlen pre + zlen (body ls)).
Proof.
  revert pre fuel last. induction ls as [|k ls IH]; intros pre fuel last Hback Hf;
    (destruct fuel as [|fuel]; [simpl in Hf; lia|]); cbn [Labels_last_loop].
  - change ([] ++ [l]) with [l] in *. rewrite zlen_body_cons in Hback.
    change (zlen (body [])) with 0 in *. pose proof (zlen_nonneg l). rewrite (proj2 (Z.ltb_lt _ _)) by lia.
    rewrite get_wire_label. destruct fuel as [|fuel]; [lia|]. cbn [Labels_last_loop].
    rewrite (proj2 (Z.ltb_ge _ _)) by lia. f_equal. lia.
  - change ((k :: ls) ++ [l]) with (k :: (ls ++ [l])) in *. rewrite zlen_body_cons in Hback.
    pose proof (zlen_nonneg k). pose proof (zlen_nonneg (body (ls ++ [l]))).
    rewrite (proj2 (Z.ltb_lt _ _)) by lia. rewrite get_wire_label, wire_shift.
    rewrite <-zlen_shift, IH.
    + f_equal. rewrite zlen_shift, zlen_body_cons. lia.
    + rewrite zlen_shift. lia.
    + simpl in Hf. lia.
Qed.

(** [next_back] removes the last label. *)
Lemma Labels_next_back_body ls l :
  labels_wf (ls ++ [l]) →
  Labels_next_back (Name_labels {| nwire := labels_wire (ls ++ [l]) |})
  = (Some l, {| lwire := labels_wire (ls ++ [l]); lfront := 0; lback := zlen (body ls) |}).
Proof.
  intros Hwf. pose proof (labels_wf_suffix _ _ Hwf) as [[[Hl _] _]%Forall_cons _].
  unfold Labels_next_back, Name_labels, labels_fuel. cbn [lwire lfront lback nwire].
  rewrite labels_wire_body.
  assert (Hb : saturating_sub (zlen (body (ls ++ [l]) ++ [0])) 1 = zlen (body (ls ++ [l]))).
  { rewrite zlen_app. unfold saturating_sub. change (zlen [0]) with 1.
    pose proof (zlen_nonneg (body (ls ++ [l]))). lia. }
  assert (Hbody : zlen (body (ls ++ [l])) = zlen (body ls) + 1 + zlen l).
  { rewrite body_app, zlen_app, zlen_body_cons. change (zlen (body [])) with 0. lia. }
  pose proof (zlen_nonneg (body ls)).
  rewrite Hb, (proj2 (Z.leb_gt _ _)) by lia.
  pose proof (Labels_last_loop_body (S (length (body (ls ++ [l]) ++ [0]))) [] ls l [0]
    (zlen (body (ls ++ [l]))) 0) as Hlast.
  simpl app in Hlast. change (zlen (@nil Z)) with 0 in Hlast. rewrite Hlast; [|done|].
  2:{ pose proof (body_length (ls ++ [l])). rewrite !length_app in *. simpl in *. lia. }
  rewrite Z.add_0_l.
  assert (Hw : body (ls ++ [l]) ++ [0] = body ls ++ (zlen l :: l) ++ [0]).
  { rewrite body_app, <-app_assoc. f_equal. rewrite body_cons. simpl. by rewrite app_nil_r. }
  rewrite Hw, get_label, get_label_bytes. done.
Qed.

Lemma skip_labels_body pre ks ls rest :
  skip_labels (pre ++ body (ks ++ ls) ++ rest) (length ks) (zlen pre)
  = Some (zlen pre + zlen (body ks)).
Proof.
  revert pre. induction ks as [|k ks IH]; intros pre; cbn [length skip_labels app].
  - f_equal. change (zlen (body [])) with 0. lia.
  - rewrite get_wire_label, wire_shift, <-zlen_shift, IH. f_equal.
    rewrite zlen_shift, zlen_body_cons. lia.
Qed.

Lemma skip_labels_wire ks ls :
  skip_labels (labels_wire (ks ++ ls)) (length ks) 0 = Some (zlen (body ks)).
Proof.
  pose proof (skip_labels_body [] ks ls [0]) as H. simpl app in H.
  change (zlen (@nil Z)) with 0 in H. by rewrite labels_wire_body, H.
Qed.

(** The rest of the wire after some labels is the wire of the other labels. *)
Lemma get_range_suffix ks ls :
  get_range (labels_wire (ks ++ ls)) (zlen (body ks)) (zlen (labels_wire (ks ++ ls)))
  = Some (labels_wire ls).
Proof.
  rewrite !labels_wire_body, body_app, <-app_assoc.
  pose proof (get_range_app (body ks) (body ls ++ [0]) []) as H.
  rewrite app_nil_r in H. by rewrite zlen_app, H.
Qed.

Lemma zlen_take_drop_split {A} (ls : list A) (k : Z) :
  0 ≤ k ≤ zlen ls →
  ∃ ks ms, ls = ks ++ ms ∧ length ks = Z.to_nat (zlen ls - k) ∧ zlen ms = k.
Proof.
  intros Hk. exists (take (Z.to_nat (zlen ls - k)) ls), (drop (Z.to_nat (zlen ls - k)) ls).
  unfold zlen in *. rewrite take_drop, length_take, length_drop. split_and!; [done|lia|lia].
Qed.

(** [suffix k] keeps the last [k] labels. *)
Lemma Name_suffix_spec ls k :
  0 ≤ k →
  ∃ ks ms, ls = ks ++ ms ∧ zlen ms = Z.min k (zlen ls) ∧
    Name_suffix {| nwire := labels_wire ls |} k = Ok {| nwire := labels_wire ms |}.
Proof.
  intros Hk. pose proof (zlen_nonneg ls).
  destruct (zlen_take_drop_split ls (Z.min k (zlen ls))) as (ks & ms & -> & Hks & Hms); [lia|].
  exists ks, ms. split_and!; [done|done|].
  unfold Name_suffix. rewrite Name_num_labels_wf. cbn [nwire].
  change (Z.of_nat (length (ks ++ ms))) with (zlen (ks ++ ms)).
  replace (Z.to_nat (saturating_sub _ _)) with (length ks)
    by (rewrite Hks; unfold saturating_sub; lia).
  by rewrite skip_labels_wire, get_range_suffix.
Qed.

(** ** Constructors *)

Lemma from_labels_total_spec ls t :
  0 ≤ t → t + zlen (body ls) ≤ USIZE_MAX →
  from_labels_total ls t =
    if forallb (λ l, (1 <=? zlen l) && (zlen l <=? 63)) ls
    then Ok (t + zlen (body ls))
    else Err (ErrName "라벨 길이가 올바르지 않습니다").
Proof.
  revert t. induction ls as [|l ls IH]; intros t Ht Hmax; simpl.
  - f_equal. change (zlen (body [])) with 0. lia.
  - rewrite zlen_body_cons in *. pose proof (zlen_nonneg l). pose proof (zlen_nonneg (body ls)).
    destruct (Z.eqb_spec (zlen l) 0), (Z.ltb_spec 63 (zlen l)),
      (Z.leb_spec 1 (zlen l)), (Z.leb_spec (zlen l) 63); simpl; try lia; try done.
    unfold checked_add. rewrite (proj2 (Z.leb_le _ _)) by lia.
    rewrite IH by lia. case_match; f_equal. lia.
Qed.

(** [from_labels] accepts exactly the well-formed label lists. *)
Lemma Name_from_labels_wf ls :
  labels_wf ls → Name_from_labels ls = Ok {| nwire := labels_wire ls |}.
Proof.
  intros [Hf Hl]. unfold MAX_NAME_LEN in Hl. unfold Name_from_labels.
  rewrite from_labels_total_spec by (unfold USIZE_MAX; lia).
  rewrite (proj2 (forallb_forall _ _)).
  - simpl. unfold MAX_NAME_LEN. by rewrite (proj2 (Z.ltb_ge _ _)) by lia.
  - intros l Hin. rewrite Forall_forall in Hf.
    destruct (Hf l) as [[??] _]; [by apply list_elem_of_In|].
    by rewrite !(proj2 (Z.leb_le _ _)) by lia.
Qed.

Lemma Name_from_labels_sound ls n :
  Forall is_bytes ls → zlen (body ls) < USIZE_MAX →
  Name_from_labels ls = Ok n → labels_wf ls ∧ n = {| nwire := labels_wire ls |}.
Proof.
  intros Hb Hmax. unfold Name_from_labels. rewrite from_labels_total_spec by lia.
  destruct (forallb _ ls) eqn:Hf; [|done]. simpl. case_match; [done|].
  bool_prop. intros; simplify_eq. split; [|done]. split; [|lia].
  rewrite forallb_forall in Hf. apply Forall_forall. intros l Hin.
  rewrite Forall_forall in Hb. specialize (Hf l (proj1 (list_elem_of_In _ _) Hin)).
  bool_prop. by split; [lia|apply Hb].
Qed.

(** ** Parsing *)

Lemma get_range_label buf p len lab :
  get buf p = Some len → 1 ≤ len ≤ 63 → is_bytes buf →
  get_range buf (p + 1) (p + 1 + len) = Some lab →
  label_wf lab ∧ zlen lab = len ∧ bytes_at (get buf) p (zlen lab :: lab).
Proof.
  intros Hlen Hr Hb Hlab. pose proof (Forall_get_range _ _ _ _ _ Hb Hlab) as Hlb.
  pose proof (get_range_Some _ _ _ _ Hlab) as (? & ? & _ & Hz).
  assert (zlen lab = len) as Hzl by lia. split_and!; [split; [lia|done]|done|].
  intros i x Hi. pose proof (get_Some_lt _ _ _ Hi) as Hlt. rewrite zlen_cons in Hlt.
  destruct (decide (i = 0)) as [->|Hi0].
  - rewrite get_cons_0 in Hi. injection Hi as <-. by rewrite Z.add_0_r, Hzl.
  - rewrite get_cons_pos in Hi by lia. rewrite <-Hi.
    rewrite (get_range_get _ _ _ _ _ Hlab) by lia. f_equal. lia.
Qed.

(** The loop neither panics nor runs out of fuel, and what it accepts is an
    encoded name. *)
Lemma parse_loop_sound fuel buf limit pos wire jumped jumps end_ total :
  is_bytes buf → limit ≤ zlen buf → zlen buf ≤ U16_MAX → 0 ≤ pos →
  total = zlen wire + 1 → total ≤ MAX_NAME_LEN → 0 ≤ jumps ≤ MAX_JUMPS →
  (Z.to_nat (MAX_NAME_LEN - total + (MAX_JUMPS - jumps)) < fuel)%nat →
  match parse_loop fuel buf limit pos wire jumped jumps end_ total with
  | Ok (wire', e) => ∃ ls j e',
      Forall label_wf ls ∧ wire' = wire ++ body ls ∧ zlen wire' + 1 ≤ MAX_NAME_LEN ∧
      name_at (get buf) pos ls j e' ∧ 0 ≤ j ∧ jumps + j ≤ MAX_JUMPS ∧
      e = (if jumped then end_ else e') ∧ pos < e' ∧ (jumped = false → e' ≤ limit)
  | Err _ => True
  | Panic | NoFuel => False
  end.
Proof.
  unfold MAX_NAME_LEN, MAX_JUMPS, U16_MAX. intros Hb Hlim Hmax.
  revert pos wire jumped jumps end_ total.
  induction fuel as [|fuel IH]; intros pos wire jumped jumps end_ total Hpos Htot Hle Hj Hf; [lia|].
  cbn [parse_loop].
  destruct (negb jumped && (limit <=? pos)) eqn:Hjl; [done|].
  destruct (get buf pos) as [len|] eqn:Hlen; [|done].
  pose proof (Forall_get _ _ _ _ Hb Hlen) as Hu8. pose proof (get_Some_lt _ _ _ Hlen) as Hlt.
  assert (Hposlim : jumped = false → pos < limit).
  { intros ->. simpl in Hjl. by bool_prop. }
  rewrite land_192_label by done. destruct (len <? 64) eqn:H64; bool_prop.
  - destruct (Z.eqb_spec len 0) as [->|Hne].
    + exists [], 0, (pos + 1). rewrite app_nil_r. split_and!; try done; try lia; try constructor; try done.
      intros ?. apply Hposlim in H. lia.
    + unfold is_u8 in Hu8. unfold checked_add, USIZE_MAX.
      rewrite (proj2 (Z.leb_le _ _)) by lia. rewrite (proj2 (Z.leb_le _ _)) by lia.
      destruct (negb jumped && (limit <? pos + 1 + len)) eqn:Hjl2; [done|].
      destruct (get_range buf (pos + 1) (pos + 1 + len)) as [lab|] eqn:Hlab; [|done].
      destruct (get_range_label _ _ _ _ Hlen ltac:(lia) Hb Hlab) as (Hwf & Hzl & Hat).
      rewrite (proj2 (Z.leb_le _ _)) by lia. unfold MAX_NAME_LEN.
      destruct (255 <? total + (len + 1)) eqn:H255; bool_prop; [done|].
      rewrite (proj2 (Z.ltb_ge _ _)) by lia.
      specialize (IH (pos + 1 + len) (wire ++ len :: lab) jumped jumps end_ (total + (len + 1))).
      destruct (parse_loop _ _ _ _ _ _ _ _ _) as [[wire' e]|e| |] eqn:Hp;
        [|done|apply IH; rewrite ?zlen_app, ?zlen_cons; lia..].
      destruct IH as (ls & j & e' & Hls & -> & Hw & Hna & Hj0 & Hjj & -> & Hpe & Hend);
        [rewrite ?zlen_app, ?zlen_cons; lia..|].
      exists (lab :: ls), j, e'. rewrite body_cons, Hzl. rewrite <-app_assoc in Hw |- *.
      split_and!; try done; try lia.
      * by constructor.
      * apply na_label; [done|done|by rewrite Hzl].
  - rewrite land_192_pointer by done. destruct (192 <=? len) eqn:H192; bool_prop; [|done].
    unfold checked_add, USIZE_MAX. rewrite (proj2 (Z.leb_le _ _)) by lia.
    destruct (negb jumped && (limit <? pos + 2)) eqn:Hjl2; [done|].
    destruct (get buf (pos + 1)) as [b2|] eqn:Hb2; [|done].
    pose proof (Forall_get _ _ _ _ Hb Hb2) as Hu2. unfold MAX_JUMPS.
    destruct (20 <? jumps + 1) eqn:H20; bool_prop; [done|].
    unfold is_u8 in Hu8. rewrite land_63_pointer by lia.
    rewrite lor_shiftl_add by (unfold is_u8, U8_MAX in Hu2; lia). change (2 ^ 8) with 256.
    destruct (pos <=? _) eqn:Hptr; bool_prop; [done|].
    specialize (IH ((len - 192) * 256 + b2) wire true (jumps + 1) (if jumped then end_ else pos + 2) total).
    unfold is_u8 in Hu2.
    destruct (parse_loop _ _ _ _ _ _ _ _ _) as [[wire' e]|e| |] eqn:Hp;
      [|done|apply IH; lia..].
    destruct IH as (ls & j & e' & Hls & -> & Hw & Hna & Hj0 & Hjj & -> & Hpe & Hend); [lia..|].
    exists ls, (j + 1), (pos + 2). split_and!; try done; try lia.
    + by eapply na_ptr; try eassumption; lia.
    + intros ->. simpl in Hjl2. bool_prop. lia.
Qed.

Lemma get_range_bytes_at buf p bs :
  0 ≤ p → bytes_at (get buf) p bs → p + zlen bs ≤ zlen buf →
  get_range buf p (p + zlen bs) = Some bs.
Proof.
  intros Hp Hat Hlen. pose proof (zlen_nonneg bs).
  rewrite get_range_is_Some by lia. f_equal. apply list_eq. intros i.
  replace (Z.to_nat (p + zlen bs - p)) with (length bs) by (unfold zlen; lia).
  destruct (decide (i < length bs)%nat) as [Hi|Hi].
  - rewrite lookup_take_lt, lookup_drop by done.
    destruct (lookup_lt_is_Some_2 bs i Hi) as [x Hx]. rewrite Hx.
    specialize (Hat (Z.of_nat i) x). rewrite <-(Nat2Z.id i) in Hx.
    specialize (Hat (proj2 (get_Some_lookup _ _ _) (conj (Nat2Z.is_nonneg _) Hx))).
    apply get_Some_lookup in Hat as [_ Hat]. rewrite <-Hat. f_equal. lia.
  - rewrite lookup_take_ge, lookup_ge_None_2; done || lia.
Qed.

(** The end of an encoded name is inside the buffer and behind its start. *)
Lemma name_at_bounds buf p ls j e :
  name_at (get buf) p ls j e → 0 ≤ p → p < e ∧ e ≤ zlen buf ∧ 0 ≤ j.
Proof.
  induction 1 as [p H0|p l ls j e Hl Hat _ IH|p b1 b2 ls j e H1 H2 ? Hu ? _ IH]; intros Hp.
  - apply get_Some_lt in H0. lia.
  - pose proof (zlen_nonneg l). specialize (IH ltac:(lia)). lia.
  - apply get_Some_lt in H2. unfold is_u8 in Hu. specialize (IH ltac:(lia)). lia.
Qed.

Lemma bytes_at_cons f p b bs : bytes_at f p (b :: bs) → f p = Some b ∧ bytes_at f (p + 1) bs.
Proof.
  intros H. split.
  - rewrite <-(Z.add_0_r p). apply H. by rewrite get_cons_0.
  - intros i x Hi. pose proof (get_Some_lt _ _ _ Hi). rewrite <-Z.add_assoc.
    apply H. rewrite get_cons_pos by lia. rewrite <-Hi. f_equal. lia.
Qed.

(** The loop accepts every encoded name within the limits. *)
Lemma parse_loop_complete buf limit p ls j e :
  name_at (get buf) p ls j e →
  ∀ fuel wire jumped jumps end_ total,
    zlen buf ≤ U16_MAX → limit ≤ zlen buf → 0 ≤ p → (jumped = false → e ≤ limit) →
    total = zlen wire + 1 → total + zlen (body ls) ≤ MAX_NAME_LEN →
    0 ≤ jumps → jumps + j ≤ MAX_JUMPS →
    (Z.to_nat (MAX_NAME_LEN - total + (MAX_JUMPS - jumps)) < fuel)%nat →
    parse_loop fuel buf limit p wire jumped jumps end_ total
    = Ok (wire ++ body ls, if jumped then end_ else e).
Proof.
  unfold MAX_NAME_LEN, MAX_JUMPS, U16_MAX, U8_MAX.
  induction 1 as [p H0|p l ls j e Hl Hat Hna IH|p b1 b2 ls j e H1 H2 Hb1 Hu Hlt Hna IH];
    intros fuel wire jumped jumps end_ total Hmax Hlim Hp He Htot Hlen Hj Hjj Hf;
    (destruct fuel as [|fuel]; [lia|]); cbn [parse_loop].
  - replace (negb jumped && (limit <=? p)) with false.
    2:{ destruct jumped; [done|]. specialize (He eq_refl). symmetry. simpl. apply Z.leb_gt. lia. }
    rewrite H0. simpl. by rewrite app_nil_r.
  - pose proof (name_at_bounds _ _ _ _ _ Hna) as Hbnd. destruct Hl as [Hl Hlb].
    apply bytes_at_cons in Hat as [Hlz Hat]. rewrite zlen_body_cons in Hlen.
    pose proof (zlen_nonneg (body ls)). specialize (Hbnd ltac:(lia)).
    replace (negb jumped && (limit <=? p)) with false.
    2:{ destruct jumped; [done|]. specialize (He eq_refl). symmetry. simpl. apply Z.leb_gt. lia. }
    rewrite Hlz. rewrite land_192_label by (unfold is_u8, U8_MAX; lia).
    rewrite (proj2 (Z.ltb_lt _ _)) by lia. rewrite (proj2 (Z.eqb_neq _ _)) by lia.
    unfold checked_add, USIZE_MAX. rewrite (proj2 (Z.leb_le _ _)) by lia.
    rewrite (proj2 (Z.leb_le _ _)) by lia.
    replace (negb jumped && (limit <? p + 1 + zlen l)) with false.
    2:{ destruct jumped; [done|]. specialize (He eq_refl). symmetry. simpl. apply Z.ltb_ge. lia. }
    rewrite get_range_bytes_at by (done || lia).
    rewrite (proj2 (Z.leb_le _ _)) by lia. unfold MAX_NAME_LEN.
    rewrite (proj2 (Z.ltb_ge _ _)) by lia. rewrite (proj2 (Z.ltb_ge _ _)) by lia.
    rewrite IH; rewrite ?zlen_app, ?zlen_cons; try done; try lia.
    by rewrite <-app_assoc.
  - unfold is_u8, U8_MAX in Hu, Hb1. specialize (name_at_bounds _ _ _ _ _ Hna ltac:(lia)) as Hbnd.
    pose proof (get_Some_lt _ _ _ H2). pose proof (zlen_nonneg (body ls)).
    replace (negb jumped && (limit <=? p)) with false.
    2:{ destruct jumped; [done|]. specialize (He eq_refl). symmetry. simpl. apply Z.leb_gt. lia. }
    rewrite H1, land_192_label, land_192_pointer by (unfold is_u8, U8_MAX; lia).
    rewrite (proj2 (Z.ltb_ge _ _)) by lia. rewrite (proj2 (Z.leb_le _ _)) by lia.
    unfold checked_add, USIZE_MAX. rewrite (proj2 (Z.leb_le _ _)) by lia.
    replace (negb jumped && (limit <? p + 2)) with false.
    2:{ destruct jumped; [done|]. specialize (He eq_refl). symmetry. simpl. apply Z.ltb_ge. lia. }
    rewrite H2. unfold MAX_JUMPS. rewrite (proj2 (Z.ltb_ge _ _)) by lia.
    rewrite land_63_pointer by (unfold U8_MAX; lia). rewrite lor_shiftl_add by lia.
    change (2 ^ 8) with 256. rewrite (proj2 (Z.leb_gt _ _)) by lia.
    rewrite IH; done || lia.
Qed.

(** [Name::parse] on any bytes: no panic, no divergence, a well-formed name. *)
Lemma Name_parse_sound r :
  Reader_wf r →
  match Name_parse r with
  | (Ok n, r') => ∃ ls j e, labels_wf ls ∧ nwire n = labels_wire ls ∧
      name_at (get (rbuf r)) (rpos r) ls j e ∧ 0 ≤ j ≤ MAX_JUMPS ∧
      r' = set_rpos e r ∧ rpos r < e ≤ rlimit r
  | (Err _, r') => r' = r
  | (Panic, _) | (NoFuel, _) => False
  end.
Proof.
  intros [Hp Hl Hm Hb]. unfold Name_parse.
  pose proof (parse_loop_sound PARSE_FUEL (rbuf r) (rlimit r) (rpos r) [] false 0 (rpos r) 1
    Hb Hl Hm ltac:(lia) ltac:(done) ltac:(done) ltac:(done) ltac:(vm_compute; lia)) as Hs.
  destruct (parse_loop _ _ _ _ _ _ _ _ _) as [[wire e]|e| |]; [|done|done|done].
  destruct Hs as (ls & j & e' & Hls & -> & Hw & Hna & Hj & Hjj & -> & Hpe & He).
  simpl app in *. assert (Hlw : labels_wf ls) by (split; [done|lia]).
  unfold MAX_NAME_LEN in Hw. specialize (He eq_refl).
  destruct (Z.eqb_spec (zlen (body ls)) 0) as [Hz|Hz].
  - assert (ls = []) as -> by
      (destruct ls as [|l ls]; [done|]; rewrite zlen_body_cons in Hz;
       pose proof (zlen_nonneg l); pose proof (zlen_nonneg (body ls)); lia).
    exists [], j, e'. split_and!; done || lia.
  - unfold MAX_NAME_LEN. rewrite (proj2 (Z.ltb_lt _ _)) by lia.
    exists ls, j, e'. split_and!; done || lia.
Qed.

Lemma Name_parse_complete r ls j e :
  Reader_wf r → labels_wf ls → name_at (get (rbuf r)) (rpos r) ls j e →
  j ≤ MAX_JUMPS → e ≤ rlimit r →
  Name_parse r = (Ok {| nwire := labels_wire ls |}, set_rpos e r).
Proof.
  intros [Hp Hl Hm Hb] Hwf Hna Hj He. unfold Name_parse. unfold MAX_DNS_WIRE_LEN in Hm.
  pose proof (labels_wf_max _ Hwf) as Hw.
  rewrite (parse_loop_complete _ _ _ _ _ _ Hna) by
    (first [done | lia | (unfold MAX_NAME_LEN; lia) | (vm_compute; lia)]).
  simpl app. destruct (Z.eqb_spec (zlen (body ls)) 0) as [Hz|Hz].
  - destruct ls as [|l ls]; [done|]. rewrite zlen_body_cons in Hz.
    pose proof (zlen_nonneg l); pose proof (zlen_nonneg (body ls)); lia.
  - unfold MAX_NAME_LEN. by rewrite (proj2 (Z.ltb_lt _ _)) by lia.
Qed.

Lemma Name_parse_safe : safe Name_parse Name_wf.
Proof.
  intros r Hr. unfold safe_at. pose proof (Name_parse_sound r Hr) as H.
  destruct (Name_parse r) as [[n|e| |] r']; [|subst; eexists _, _; by split_and!|done|done].
  destruct H as (ls & j & e & Hwf & Hn & Hna & Hj & -> & He).
  eexists _, _. split; [done|]. split_and!; try done; simpl; try lia.
  - apply Reader_wf_set_pos; [done|]. destruct Hr. lia.
  - by exists ls.
Qed.
#[export] Hint Resolve Name_parse_safe : safe.

Lemma safe_plift {A} (o : option A) e (Q : A → Prop) :
  (∀ a, o = Some a → Q a) → safe (plift o e) Q.
Proof. intros H. destruct o; [by apply safe_ret, H|apply safe_fail]. Qed.

Lemma safe_pindex {A} (a : A) (Q : A → Prop) : Q a → safe (pindex (Some a)) Q.
Proof. apply safe_ret. Qed.

Lemma parse_uncompressed_loop_safe fuel ls total :
  Forall label_wf ls → total = zlen (body ls) + 1 → total ≤ MAX_NAME_LEN →
  (Z.to_nat (MAX_NAME_LEN - total) < fuel)%nat →
  safe (parse_uncompressed_loop fuel (body ls) total) Name_wf.
Proof.
  unfold MAX_NAME_LEN. revert ls total.
  induction fuel as [|fuel IH]; intros ls total Hls Htot Hle Hf; [lia|]. cbn [parse_uncompressed_loop].
  safe_step. rename a into len. destruct (Z.eqb_spec len 0) as [->|Hne].
  - destruct (zlen (body ls) =? 0); [apply safe_ret, Name_wf_root|].
    unfold MAX_NAME_LEN. rewrite (proj2 (Z.ltb_lt _ _)) by lia. apply safe_pindex.
    exists ls. split; [|done]. split; [done|unfold MAX_NAME_LEN; lia].
  - destruct (negb _ || _) eqn:Hc; [apply safe_fail|]. bool_prop.
    unfold is_u8 in H.
    eapply safe_bind with (Q1 := λ t, t = total + (len + 1)).
    { apply safe_plift. unfold checked_add. intros t Ht. case_match; by simplify_eq. }
    intros t ->. unfold MAX_NAME_LEN. destruct (255 <? _) eqn:H255; [apply safe_fail|].
    bool_prop. rewrite (proj2 (Z.leb_le _ _)) by lia.
    eapply safe_bind with (Q1 := λ _, True); [by apply safe_pindex|]. intros _ _.
    eapply safe_bind; [apply Reader_bytes_safe; lia|]. intros lab [Hzl Hlb]. cbv beta.
    replace (body ls ++ len :: lab) with (body (ls ++ [lab])).
    2:{ rewrite body_app. f_equal. rewrite body_cons, Hzl. simpl. by rewrite app_nil_r. }
    assert (zlen (body (ls ++ [lab])) = zlen (body ls) + 1 + len) as Hz.
    { rewrite body_app, zlen_app, zlen_body_cons. change (zlen (body [])) with 0. lia. }
    apply IH; [|lia..]. apply Forall_app. split; [done|]. constructor; [|done]. by split; [lia|].
Qed.

Lemma Name_parse_uncompressed_safe : safe Name_parse_uncompressed Name_wf.
Proof.
  apply (parse_uncompressed_loop_safe _ []); [constructor|done|done|vm_compute; lia].
Qed.
#[export] Hint Resolve Name_parse_uncompressed_safe : safe.

Lemma Reader_u8_at r b :
  get (rbuf r) (rpos r) = Some b → rpos r < rlimit r →
  Reader_u8 r = (Ok b, set_rpos (rpos r + 1) r).
Proof. intros Hg Hl. unfold Reader_u8. rewrite (proj2 (Z.leb_gt _ _)) by lia. by rewrite Hg. Qed.

Lemma Reader_bytes_at r bs :
  bytes_at (get (rbuf r)) (rpos r) bs → 0 ≤ rpos r → rpos r + zlen bs ≤ rlimit r →
  rlimit r ≤ zlen (rbuf r) → zlen (rbuf r) ≤ U16_MAX →
  Reader_bytes (zlen bs) r = (Ok bs, set_rpos (rpos r + zlen bs) r).
Proof.
  unfold U16_MAX. intros Hat Hp Hl Hlb Hm. unfold Reader_bytes, checked_add, USIZE_MAX.
  rewrite (proj2 (Z.leb_le _ _)) by lia. rewrite (proj2 (Z.ltb_ge _ _)) by lia.
  by rewrite get_range_bytes_at by (done || lia).
Qed.

Lemma bytes_at_app f p bs cs :
  bytes_at f p (bs ++ cs) → bytes_at f p bs ∧ bytes_at f (p + zlen bs) cs.
Proof.
  intros H. split.
  - intros i x Hi. apply H. by apply get_Some_app.
  - intros i x Hi. pose proof (get_Some_lt _ _ _ Hi). rewrite <-Z.add_assoc.
    apply H. rewrite get_app_r by lia. rewrite <-Hi. f_equal. lia.
Qed.

(** Uncompressed names in a buffer are read back. *)
Lemma parse_uncompressed_loop_complete fuel ks ls total r :
  labels_wf (ks ++ ls) → total = zlen (body ks) + 1 →
  (Z.to_nat (MAX_NAME_LEN - total) < fuel)%nat →
  bytes_at (get (rbuf r)) (rpos r) (labels_wire ls) → 0 ≤ rpos r →
  rpos r + zlen (labels_wire ls) ≤ rlimit r →
  rlimit r ≤ zlen (rbuf r) → zlen (rbuf r) ≤ U16_MAX →
  parse_uncompressed_loop fuel (body ks) total r
  = (Ok {| nwire := labels_wire (ks ++ ls) |}, set_rpos (rpos r + zlen (labels_wire ls)) r).
Proof.
  revert ks total fuel r. induction ls as [|l ls IH]; intros ks total fuel r Hwf Htot Hf Hat Hp Hlim Hlb Hm;
    (destruct fuel as [|fuel]; [lia|]); cbn [parse_uncompressed_loop]; unfold pbind at 1.
  - apply bytes_at_cons in Hat as [H0 _]. change (zlen (labels_wire [])) with 1 in *.
    rewrite (Reader_u8_at r 0) by (done || lia). simpl (0 =? 0). cbn [negb].
    rewrite app_nil_r in *. pose proof (labels_wf_max _ Hwf).
    destruct (Z.eqb_spec (zlen (body ks)) 0) as [Hz|Hz].
    + destruct ks as [|k ks]; [done|]. rewrite zlen_body_cons in Hz.
      pose proof (zlen_nonneg k). pose proof (zlen_nonneg (body ks)). lia.
    + unfold MAX_NAME_LEN. by rewrite (proj2 (Z.ltb_lt _ _)) by lia.
  - pose proof (labels_wf_suffix _ _ Hwf) as Hwl.
    destruct Hwl as [[[Hl Hlb'] _]%Forall_cons _]. destruct Hwf as [Hwf Hmax].
    rewrite body_app, zlen_app, zlen_body_cons in Hmax. unfold MAX_NAME_LEN in Hmax, Hf.
    pose proof (zlen_nonneg (body ks)). pose proof (zlen_nonneg (body ls)).
    pose proof (labels_wire_cons l ls) as Hlw.
    rewrite Hlw in Hat, Hlim |- *. rewrite zlen_app, zlen_cons in *.
    apply bytes_at_app in Hat as [Hat Hrest]. rewrite zlen_cons in Hrest.
    apply bytes_at_cons in Hat as [Hl0 Hat]. pose proof (zlen_nonneg (labels_wire ls)).
    rewrite (Reader_u8_at r (zlen l)) by (done || lia).
    rewrite (proj2 (Z.eqb_neq _ _)) by lia.
    rewrite land_192_label by (unfold is_u8, U8_MAX; lia).
    rewrite (proj2 (Z.ltb_lt _ _)) by lia. rewrite (proj2 (Z.ltb_ge 63 _)) by lia. cbn [negb orb].
    unfold pbind at 1, plift, checked_add, USIZE_MAX. rewrite (proj2 (Z.leb_le _ _)) by lia.
    cbn [pret]. unfold MAX_NAME_LEN. rewrite (proj2 (Z.ltb_ge _ _)) by lia.
    rewrite (proj2 (Z.leb_le _ _)) by lia. unfold pbind at 1. cbn [pindex].
    unfold pbind at 1. rewrite (Reader_bytes_at (set_rpos (rpos r + 1) r) l) by (done || (simpl; lia)).
    replace (body ks ++ zlen l :: l) with (body (ks ++ [l])).
    2:{ rewrite body_app. f_equal. rewrite body_cons. simpl. by rewrite app_nil_r. }
    assert (zlen (body (ks ++ [l])) = zlen (body ks) + 1 + zlen l) as Hz.
    { rewrite body_app, zlen_app, zlen_body_cons. change (zlen (body [])) with 0. lia. }
    rewrite IH; simpl; rewrite <-?app_assoc; simpl.
    + f_equal. unfold set_rpos. simpl. f_equal. lia.
    + split; [done|]. unfold MAX_NAME_LEN. rewrite body_app, zlen_app, zlen_body_cons. lia.
    + lia.
    + unfold MAX_NAME_LEN. lia.
    + by replace (rpos r + 1 + zlen l) with (rpos r + (zlen l + 1)) by lia.
    + lia.
    + lia.
    + done.
    + done.
Qed.

Lemma Name_parse_uncompressed_complete r ls :
  labels_wf ls → Reader_wf r → bytes_at (get (rbuf r)) (rpos r) (labels_wire ls) →
  rpos r + zlen (labels_wire ls) ≤ rlimit r →
  Name_parse_uncompressed r
  = (Ok {| nwire := labels_wire ls |}, set_rpos (rpos r + zlen (labels_wire ls)) r).
Proof.
  intros Hwf [Hp Hl Hm Hb] Hat Hlim.
  apply (parse_uncompressed_loop_complete _ []); done || lia || (vm_compute; lia).
Qed.

(** An uncompressed wire in a buffer is in particular an encoded name. *)
Lemma name_at_wire f p ls :
  Forall label_wf ls → bytes_at f p (labels_wire ls) →
  name_at f p ls 0 (p + zlen (labels_wire ls)).
Proof.
  revert p. induction ls as [|l ls IH]; intros p Hwf Hat.
  - apply na_root. rewrite <-(Z.add_0_r p). by apply Hat.
  - apply Forall_cons in Hwf as [Hl Hwf].
    pose proof (labels_wire_cons l ls) as Hlw.
    rewrite Hlw in *. apply bytes_at_app in Hat as [Hat Hrest].
    rewrite zlen_app, zlen_cons in *.
    apply na_label; [done|done|].
    replace (p + (zlen l + 1 + zlen (labels_wire ls)))
      with (p + 1 + zlen l + zlen (labels_wire ls)) by lia.
    apply IH; [done|]. by replace (p + 1 + zlen l) with (p + (zlen l + 1)) by lia.
Qed.

(** ** Accepting stored wire *)

Lemma from_wire_loop_sound fuel bytes pos n :
  is_bytes bytes → 0 ≤ pos → zlen bytes ≤ MAX_NAME_LEN →
  from_wire_loop fuel bytes pos = Some (Some n) →
  ∃ ls, Forall label_wf ls ∧ bytes_at (get bytes) pos (labels_wire ls) ∧
    pos + zlen (labels_wire ls) = zlen bytes ∧
    n = (if zlen bytes =? 1 then Name_root else {| nwire := bytes |}).
Proof.
  unfold MAX_NAME_LEN. intros Hb. revert pos. induction fuel as [|fuel IH]; intros pos Hp Hm; simpl; [done|].
  destruct (get bytes pos) as [len|] eqn:Hlen; [|done].
  pose proof (Forall_get _ _ _ _ Hb Hlen) as Hu. pose proof (get_Some_lt _ _ _ Hlen).
  rewrite land_192_label by done. unfold is_u8 in Hu.
  destruct (Z.eqb_spec len 0) as [->|Hne].
  - destruct (pos + 1 =? zlen bytes) eqn:He; bool_prop; [|done]. intros [= <-].
    exists []. split_and!; try done. intros i x Hi.
    pose proof (get_Some_lt _ _ _ Hi). change (zlen (labels_wire [])) with 1 in *.
    assert (i = 0) as -> by lia. rewrite Z.add_0_r, Hlen. done.
  - destruct (len <? 64) eqn:H64; bool_prop; [|done]. simpl.
    unfold checked_add, USIZE_MAX. rewrite (proj2 (Z.leb_le _ _)) by lia.
    rewrite (proj2 (Z.leb_le _ _)) by lia. intros Hrec.
    assert (Hlt : pos + 1 + len < zlen bytes).
    { destruct fuel; [done|]. simpl in Hrec.
      destruct (get bytes (pos + 1 + len)) eqn:Hg; [|done]. apply get_Some_lt in Hg. lia. }
    apply IH in Hrec as (ls & Hls & Hat & Hend & ->); [|lia..].
    assert (Hr : 0 ≤ pos + 1 ≤ pos + 1 + len) by lia.
    pose proof (get_range_is_Some bytes (pos + 1) (pos + 1 + len) Hr ltac:(lia)) as Hlab.
    set (lab := take _ _) in Hlab.
    destruct (get_range_label _ _ _ _ Hlen ltac:(lia) Hb Hlab) as (Hwf & Hzl & Hatl).
    pose proof (labels_wire_cons lab ls) as Hlw.
    exists (lab :: ls). split_and!; [by constructor| | |done].
    + rewrite Hlw. intros i x Hi. destruct (decide (i < zlen (zlen lab :: lab))) as [Hi'|Hi'].
      * rewrite get_app_l in Hi by done. by apply Hatl.
      * rewrite get_app_r in Hi by lia. specialize (Hat _ _ Hi).
        rewrite zlen_cons in Hat. rewrite <-Hat. f_equal. lia.
    + rewrite Hlw, zlen_app, zlen_cons. lia.
Qed.

Lemma from_wire_loop_complete fuel bytes pos ls :
  zlen bytes ≤ MAX_NAME_LEN → 0 ≤ pos →
  Forall label_wf ls → bytes_at (get bytes) pos (labels_wire ls) →
  pos + zlen (labels_wire ls) = zlen bytes → (length ls < fuel)%nat →
  from_wire_loop fuel bytes pos
  = Some (Some (if zlen bytes =? 1 then Name_root else {| nwire := bytes |})).
Proof.
  unfold MAX_NAME_LEN. intros Hm. revert fuel pos. induction ls as [|l ls IH]; intros fuel pos Hp Hwf Hat Hend Hf;
    (destruct fuel as [|fuel]; [simpl in Hf; lia|]); cbn [from_wire_loop].
  - rewrite <-(Z.add_0_r pos), (Hat 0 0) by done. simpl (0 =? 0).
    change (zlen (labels_wire [])) with 1 in Hend.
    by rewrite (proj2 (Z.eqb_eq _ _)) by lia.
  - apply Forall_cons in Hwf as [[Hl Hlb] Hwf].
    pose proof (labels_wire_cons l ls) as Hlw.
    rewrite Hlw in Hat, Hend. rewrite zlen_app, zlen_cons in Hend.
    apply bytes_at_app in Hat as [Hat Hrest]. apply bytes_at_cons in Hat as [H0 _].
    rewrite zlen_cons in Hrest. pose proof (zlen_nonneg (labels_wire ls)).
    rewrite H0, (proj2 (Z.eqb_neq _ _)) by lia.
    rewrite land_192_label by (unfold is_u8, U8_MAX; lia).
    rewrite (proj2 (Z.ltb_lt _ _)) by lia. cbn [negb].
    unfold checked_add, USIZE_MAX. rewrite (proj2 (Z.leb_le _ _)) by lia.
    rewrite (proj2 (Z.leb_le _ _)) by lia.
    apply IH; try done; try lia; [|simpl in Hf; lia].
    by replace (pos + 1 + zlen l) with (pos + (zlen l + 1)) by lia.
Qed.

(** [from_uncompressed_wire] accepts exactly the well-formed wires. *)
Lemma Name_from_uncompressed_wire_spec bytes n :
  is_bytes bytes →
  Name_from_uncompressed_wire bytes = Some n ↔ Name_wf n ∧ nwire n = bytes.
Proof.
  intros Hb. unfold Name_from_uncompressed_wire. split.
  - destruct (_ || _) eqn:Hc; [done|]. bool_prop.
    destruct (from_wire_loop _ _ _) as [[n'|]|] eqn:Hl; simpl; try done. intros [= ->].
    apply from_wire_loop_sound in Hl as (ls & Hls & Hat & Hend & Hn); [|done|lia|done].
    rewrite Z.add_0_l in Hend.
    assert (Heq : bytes = labels_wire ls).
    { unfold zlen in Hend. apply list_eq_same_length with (n := length bytes); [lia|lia|].
      intros i x y Hi Hx Hy. specialize (Hat (Z.of_nat i) y).
      assert (Hy' : get (labels_wire ls) (Z.of_nat i) = Some y)
        by (apply get_Some_lookup; split; [lia|by rewrite Nat2Z.id]).
      specialize (Hat Hy'). rewrite Z.add_0_l in Hat.
      apply get_Some_lookup in Hat as [_ Hat]. rewrite Nat2Z.id in Hat. congruence. }
    unfold MAX_NAME_LEN in *.
    assert (Hwf : labels_wf ls).
    { split; [done|]. rewrite zlen_labels_wire in Hend. unfold MAX_NAME_LEN. lia. }
    destruct (Z.eqb_spec (zlen bytes) 1) as [H1|H1]; subst n.
    + split; [apply Name_wf_root|]. destruct ls as [|l ls]; [done|].
      destruct Hwf as [[[? _] _]%Forall_cons _].
      rewrite labels_wire_body, zlen_app, zlen_body_cons in Hend.
      change (zlen [0]) with 1 in Hend. pose proof (zlen_nonneg (body ls)). lia.
    + split; [|done]. by exists ls.
  - intros [(ls & Hwf & Hn) <-]. pose proof (labels_wf_max _ Hwf).
    pose proof (zlen_nonneg (body ls)).
    assert (Hz : zlen (nwire n) = zlen (body ls) + 1) by (rewrite Hn; apply zlen_labels_wire).
    unfold MAX_NAME_LEN. rewrite (proj2 (Z.eqb_neq _ _)) by lia.
    rewrite (proj2 (Z.ltb_ge _ _)) by lia. cbn [orb].
    rewrite (from_wire_loop_complete _ _ _ ls).
    + simpl. f_equal. destruct (Z.eqb_spec (zlen (nwire n)) 1); [|by destruct n].
      destruct n as [w]. simpl in *. subst w. unfold Name_root. f_equal.
      destruct ls as [|l ls]; [done|]. destruct Hwf as [[[? _] _]%Forall_cons _].
      rewrite zlen_body_cons in *. pose proof (zlen_nonneg (body ls)). lia.
    + unfold MAX_NAME_LEN. lia.
    + done.
    + apply Hwf.
    + rewrite Hn. by intros i x Hi.
    + by rewrite Hn.
    + rewrite Hn, labels_wire_body. pose proof (body_length ls). rewrite length_app. lia.
Qed.
