(* ===== verification/Codec.v ===== *)
(** * What it means for an encoder and a parser to agree

    An encoder is a writer transformer, a parser runs on a reader.  [encodes
    e d Q] says: whatever was written before, if [e] does not fail then it
    only appends, keeps the compression table sound, and [d], started where
    [e] started on any buffer that contains the final message, reads a value
    satisfying [Q] and stops where [e] stopped.  The lemmas compose such
    statements, so that every codec above is proved from its parts.

    While the RDATA of a record is written, its length slot is not final yet;
    [hole] is the offset of that slot, and nothing may depend on it. *)

From S2P Require Import Prelude NameTable Wire Writer Name.

#[local] Open Scope writer_scope.

(** The final octets of a buffer: all but the two of the open length slot. *)
Definition frozen (b : list Z) (hole : option Z) (i : Z) : option Z :=
  match hole with
  | Some a => if (a <=? i) && (i <? a + 2) then None else get b i
  | None => get b i
  end.

Definition hole_ok (hole : option Z) (b : list Z) : Prop :=
  match hole with Some a => 0 ≤ a ∧ a + 2 ≤ zlen b | None => True end.

(** The compression key of a list of labels. *)
Definition labels_key (ls : list (list Z)) : list Z :=
  concat (map (λ l, zlen l :: map ascii_lower l) ls) ++ [0].

(** A table entry points to an encoded name with that key, reachable with
    fewer pointers than it has labels. *)
Definition entry_ok (f : Z → option Z) (len : Z) (k : list Z) (off : Z) : Prop :=
  0 ≤ off < 16384 ∧ off < len ∧
  ∃ ls j e, name_at f off ls j e ∧ labels_wf ls ∧ k = labels_key ls ∧
    0 ≤ j < Z.of_nat (length ls).

Record WInv (hole : option Z) (w : Writer) : Prop := {
  winv_wf : Writer_wf w;
  winv_hole : hole_ok hole (wbuf w);
  winv_names : ∀ k off, NameMap_model (wnames w) !! k = Some off →
    entry_ok (frozen (wbuf w) hole) (zlen (wbuf w)) k off;
}.

(** A reader over a buffer that holds everything final in [w]. *)
Record reads (r : Reader) (hole : option Z) (w : Writer) : Prop := {
  reads_wf : Reader_wf r;
  reads_buf : ∀ i x, frozen (wbuf w) hole i = Some x → get (rbuf r) i = Some x;
  reads_limit : zlen (wbuf w) ≤ rlimit r;
}.

Definition encodes_at {A} (hole : option Z) (e : Writer → Writer) (d : Parser A)
    (Q : A → Prop) : Prop :=
  ∀ w, WInv hole w → Writer_is_failed (e w) = false →
    WInv hole (e w) ∧ wbuf w `prefix_of` wbuf (e w) ∧
    ∀ r, reads r hole (e w) → rpos r = zlen (wbuf w) →
      ∃ a, d r = (Ok a, set_rpos (zlen (wbuf (e w))) r) ∧ Q a.

Definition encodes {A} (e : Writer → Writer) (d : Parser A) (Q : A → Prop) : Prop :=
  ∀ hole, encodes_at hole e d Q.

(** The same for RDATA: the parser is told the length, which ends at the
    reader's limit. *)
Definition encodes_rdata {A} (e : Writer → Writer) (d : Z → Parser A) (Q : A → Prop) : Prop :=
  ∀ hole w, WInv hole w → Writer_is_failed (e w) = false →
    WInv hole (e w) ∧ wbuf w `prefix_of` wbuf (e w) ∧
    ∀ r, reads r hole (e w) → rpos r = zlen (wbuf w) → rlimit r = zlen (wbuf (e w)) →
      ∃ a, d (rlimit r - rpos r) r = (Ok a, set_rpos (zlen (wbuf (e w))) r) ∧ Q a.

(** How many octets an encoder appends. *)
Definition grows (n : Z) (e : Writer → Writer) : Prop :=
  ∀ w, Writer_is_failed (e w) = false → zlen (wbuf w) + n ≤ zlen (wbuf (e w)).
Definition exact_size (n : Z) (e : Writer → Writer) : Prop :=
  ∀ w, Writer_is_failed (e w) = false → zlen (wbuf (e w)) = zlen (wbuf w) + n.

(** ** Structural lemmas *)

Lemma frozen_prefix b b' hole i x :
  b `prefix_of` b' → hole_ok hole b → frozen b hole i = Some x → frozen b' hole i = Some x.
Proof.
  intros [c ->] Hh. unfold frozen. destruct hole as [a|]; [case_match; [done|]|];
    apply get_Some_app.
Qed.

Lemma frozen_get b hole i x : frozen b hole i = Some x → get b i = Some x.
Proof. unfold frozen. destruct hole; [by case_match|done]. Qed.

Lemma frozen_new b c hole i :
  hole_ok hole b → zlen b ≤ i → frozen (b ++ c) hole i = get c (i - zlen b).
Proof.
  intros Hh Hi. unfold frozen, hole_ok in *. destruct hole as [a|]; [|by apply get_app_r].
  rewrite (proj2 (Z.ltb_ge _ _)) by lia. rewrite andb_false_r. by apply get_app_r.
Qed.

Lemma bytes_at_mono f g p bs :
  (∀ i x, f i = Some x → g i = Some x) → bytes_at f p bs → bytes_at g p bs.
Proof. intros Hfg H i x Hi. by apply Hfg, H. Qed.

Lemma bytes_at_new b c hole :
  hole_ok hole b → bytes_at (frozen (b ++ c) hole) (zlen b) c.
Proof.
  intros Hh i x Hi. pose proof (get_Some_lt _ _ _ Hi).
  rewrite frozen_new by (done || lia). rewrite <-Hi. f_equal. lia.
Qed.

Lemma name_at_mono f g p ls j e :
  (∀ i x, f i = Some x → g i = Some x) → name_at f p ls j e → name_at g p ls j e.
Proof.
  intros Hfg. induction 1.
  - by apply na_root, Hfg.
  - apply na_label; [done|by eapply bytes_at_mono|done].
  - eapply na_ptr; eauto.
Qed.

Lemma entry_ok_mono f g n m k off :
  (∀ i x, f i = Some x → g i = Some x) → n ≤ m → entry_ok f n k off → entry_ok g m k off.
Proof.
  intros Hfg Hnm (H1 & H2 & ls & j & e & Hna & ?). split_and!; [lia..|].
  exists ls, j, e. split; [by eapply name_at_mono|done].
Qed.

Lemma hole_ok_prefix hole b b' : b `prefix_of` b' → hole_ok hole b → hole_ok hole b'.
Proof.
  intros [c ->]. unfold hole_ok. destruct hole; [|done]. rewrite zlen_app.
  pose proof (zlen_nonneg c). lia.
Qed.

Lemma zlen_prefix {A} (b b' : list A) : b `prefix_of` b' → zlen b ≤ zlen b'.
Proof. intros [c ->]. rewrite zlen_app. pose proof (zlen_nonneg c). lia. Qed.

(** A reader of the final message also reads every earlier state of it. *)
Lemma reads_before r hole w w' :
  wbuf w `prefix_of` wbuf w' → hole_ok hole (wbuf w) → reads r hole w' → reads r hole w.
Proof.
  intros Hp Hh [Hwf Hb Hl]. constructor; [done| |].
  - intros i x Hi. apply Hb. by eapply frozen_prefix.
  - pose proof (zlen_prefix _ _ Hp). lia.
Qed.

Lemma reads_set_rpos r hole w p :
  0 ≤ p ≤ rlimit r → reads r hole w → reads (set_rpos p r) hole w.
Proof. intros Hp []. constructor; [by apply Reader_wf_set_pos|done|done]. Qed.

(** A reader over the writer's own buffer. *)
Definition self_reader (p : Z) (w : Writer) : Reader :=
  {| rbuf := wbuf w; rpos := p; rlimit := zlen (wbuf w) |}.

Lemma self_reader_reads p hole w :
  WInv hole w → 0 ≤ p ≤ zlen (wbuf w) → reads (self_reader p w) hole w.
Proof.
  intros [[] _ _] Hp. constructor; simpl; [|intros i x; apply frozen_get|lia].
  constructor; simpl; done || lia.
Qed.

(** A codec that succeeds reads some value. *)
Lemma encodes_at_inhabited {A} hole e (d : Parser A) Q w :
  encodes_at hole e d Q → WInv hole w → Writer_is_failed (e w) = false → ∃ a, Q a.
Proof.
  intros H Hw Hf. destruct (H w Hw Hf) as (Hw' & Hp & Hd).
  pose proof (zlen_nonneg (wbuf w)). pose proof (zlen_prefix _ _ Hp).
  destruct (Hd (self_reader (zlen (wbuf w)) (e w))) as (a & _ & Ha); [|done|by exists a].
  apply self_reader_reads; [done|lia].
Qed.

Lemma encodes_at_bind {A B} hole e1 e2 (d1 : Parser A) (d2 : A → Parser B) Q1 Q2 :
  sticky e2 → encodes_at hole e1 d1 Q1 → (∀ a, Q1 a → encodes_at hole e2 (d2 a) Q2) →
  encodes_at hole (e1 ;> e2) (pbind d1 d2) Q2.
Proof.
  intros Hst H1 H2 w Hw Hf. unfold wseq in *.
  pose proof (sticky_first _ _ Hst Hf) as Hf1.
  destruct (encodes_at_inhabited _ _ _ _ _ H1 Hw Hf1) as [a0 Ha0].
  destruct (H1 w Hw Hf1) as (Hw1 & Hp1 & Hd1).
  destruct (H2 a0 Ha0 _ Hw1 Hf) as (Hw2 & Hp2 & _). split_and!; [done|by etrans|].
  intros r Hr Hpos. pose proof Hr as [Hrwf _ Hrl].
  pose proof (zlen_prefix _ _ Hp2). pose proof (zlen_nonneg (wbuf (e1 w))).
  destruct (Hd1 r) as (a & Hda & Ha);
    [eapply reads_before; [done|apply Hw1|done]|done|].
  destruct (H2 a Ha _ Hw1 Hf) as (_ & _ & Hd2).
  destruct (Hd2 (set_rpos (zlen (wbuf (e1 w))) r)) as (b & Hdb & Hb).
  { apply reads_set_rpos; [lia|done]. }
  { done. }
  exists b. unfold pbind. by rewrite Hda, Hdb.
Qed.

Lemma encodes_bind {A B} e1 e2 (d1 : Parser A) (d2 : A → Parser B) Q1 Q2 :
  sticky e2 → encodes e1 d1 Q1 → (∀ a, Q1 a → encodes e2 (d2 a) Q2) →
  encodes (e1 ;> e2) (pbind d1 d2) Q2.
Proof.
  intros Hst H1 H2 hole. eapply encodes_at_bind; [done|apply H1|]. intros a Ha. by apply H2.
Qed.

Lemma encodes_at_weaken {A} hole e (d : Parser A) (Q1 Q2 : A → Prop) :
  encodes_at hole e d Q1 → (∀ a, Q1 a → Q2 a) → encodes_at hole e d Q2.
Proof.
  intros H HQ w Hw Hf. destruct (H w Hw Hf) as (? & ? & Hd). split_and!; try done.
  intros r Hr Hp. destruct (Hd r Hr Hp) as (a & ? & ?). eauto.
Qed.

Lemma encodes_weaken {A} e (d : Parser A) (Q1 Q2 : A → Prop) :
  encodes e d Q1 → (∀ a, Q1 a → Q2 a) → encodes e d Q2.
Proof. intros H HQ hole. by eapply encodes_at_weaken. Qed.

Lemma encodes_ret {A} (a : A) (Q : A → Prop) : Q a → encodes (λ w, w) (pret a) Q.
Proof.
  intros Ha hole w Hw Hf. split_and!; [done|done|]. intros r Hr Hp.
  exists a. split; [|done]. rewrite <-Hp. by destruct r.
Qed.

(** The last value of a sequence is returned without writing anything. *)
Lemma encodes_map {A B} e (d : Parser A) (g : A → B) Q1 (Q2 : B → Prop) :
  encodes e d Q1 → (∀ a, Q1 a → Q2 (g a)) → encodes e (pbind d (λ a, pret (g a))) Q2.
Proof.
  intros H HQ.
  change e with (e ;> (λ w, w)).
  apply (encodes_bind e (λ w, w) d (λ a, pret (g a)) Q1 Q2); [by intros w| done|].
  intros a Ha. by apply encodes_ret, HQ.
Qed.

(** ** Primitive codecs *)

Lemma WInv_append hole w n b :
  WInv hole w → n = zlen b → is_bytes b → Writer_is_failed (Writer_append n b w) = false →
  WInv hole (Writer_append n b w) ∧ wbuf (Writer_append n b w) = wbuf w ++ b.
Proof.
  intros [Hwf Hh Hn] -> Hb Hf. apply Writer_append_ok in Hf as (_ & Hl & Heq).
  rewrite Heq. split; [|done]. constructor.
  - rewrite <-Heq. by apply Writer_append_wf.
  - eapply hole_ok_prefix; [|done]. by eexists.
  - intros k off Hk. simpl. eapply entry_ok_mono; [| |by apply Hn].
    + intros i x. apply frozen_prefix; [by eexists|done].
    + rewrite zlen_app. pose proof (zlen_nonneg b). lia.
Qed.

(** Appending fixed octets, read back by [d]. *)
Lemma encodes_append {A} n b (d : Parser A) (Q : A → Prop) :
  n = zlen b → is_bytes b →
  (∀ r, Reader_wf r → bytes_at (get (rbuf r)) (rpos r) b → rpos r + zlen b ≤ rlimit r →
    ∃ a, d r = (Ok a, set_rpos (rpos r + zlen b) r) ∧ Q a) →
  encodes (Writer_append n b) d Q.
Proof.
  intros Hn Hb Hd hole w Hw Hf.
  destruct (WInv_append hole w n b Hw Hn Hb Hf) as [Hw' Hbuf].
  rewrite Hbuf. split_and!; [done|by eexists|]. intros r [Hrwf Hrb Hrl] Hp.
  rewrite Hbuf in Hrb, Hrl. rewrite zlen_app in *. destruct (Hd r) as (a & Hda & Ha).
  - done.
  - rewrite Hp. eapply bytes_at_mono; [done|]. by apply bytes_at_new, Hw.
  - lia.
  - exists a. by rewrite Hda, Hp.
Qed.

Lemma encodes_u8 v : is_u8 v → encodes (Writer_push_u8 v) Reader_u8 (eq v).
Proof.
  intros Hv. apply encodes_append; [done|by apply Forall_singleton|].
  intros r Hr Hat Hl. apply bytes_at_cons in Hat as [Hg _]. change (zlen [v]) with 1 in *.
  exists v. split; [|done]. apply Reader_u8_at; [done|lia].
Qed.

Lemma Reader_u16_at r v :
  Reader_wf r → is_u16 v → bytes_at (get (rbuf r)) (rpos r) (u16_to_be v) →
  rpos r + 2 ≤ rlimit r → Reader_u16 r = (Ok v, set_rpos (rpos r + 2) r).
Proof.
  intros Hr Hv Hat Hl. rewrite u16_to_be_val in Hat by done.
  apply bytes_at_cons in Hat as [Hhi Hat]. apply bytes_at_cons in Hat as [Hlo _].
  unfold Reader_u16, pbind.
  rewrite (Reader_u8_at r (v / 256)) by (done || lia).
  rewrite (Reader_u8_at _ (v mod 256)) by (done || (simpl; lia)).
  unfold pret. simpl. change (Z.lor (Z.shiftl (v / 256) 8) (v mod 256))
    with (u16_from_be (v / 256) (v mod 256)).
  rewrite u16_be_roundtrip by done. unfold set_rpos. simpl. do 2 f_equal. lia.
Qed.

Lemma encodes_u16 v : is_u16 v → encodes (Writer_push_u16 v) Reader_u16 (eq v).
Proof.
  intros Hv. apply encodes_append; [done|apply u16_to_be_bytes|].
  intros r Hr Hat Hl. exists v. split; [|done]. by apply Reader_u16_at.
Qed.

Lemma Writer_append_split n m b c w :
  n = zlen b → m = zlen c → Writer_wf w →
  Writer_is_failed (Writer_append (n + m) (b ++ c) w) = false →
  Writer_append (n + m) (b ++ c) w = Writer_append m c (Writer_append n b w).
Proof.
  intros -> -> [Hl Hlim _ _] Hf. pose proof (Writer_append_ok _ _ _ Hf) as (Hnf & Hle & ->).
  pose proof (zlen_nonneg b). pose proof (zlen_nonneg c).
  rewrite (Writer_append_fits (zlen b) b) by (done || lia).
  rewrite Writer_append_fits; simpl; rewrite ?zlen_app; try done; try lia.
  by rewrite <-app_assoc.
Qed.

Lemma encodes_u32 v : is_u32 v → encodes (Writer_push_u32 v) Reader_u32 (eq v).
Proof.
  intros Hv hole w Hw Hf. unfold Writer_push_u32 in *.
  assert (H1 : is_u16 (v / 65536)) by (unfold is_u32, is_u16, U32_MAX, U16_MAX in *; div_mod_lia).
  assert (H2 : is_u16 (v mod 65536)) by (unfold is_u32, is_u16, U32_MAX, U16_MAX in *; div_mod_lia).
  rewrite u32_to_be_split in * by done.
  change 4 with (2 + 2) in *. rewrite (Writer_append_split 2 2) in * by (done || apply Hw).
  revert hole w Hw Hf.
  change (encodes (Writer_push_u16 (v / 65536) ;> Writer_push_u16 (v mod 65536)) Reader_u32 (eq v)).
  unfold Reader_u32. eapply encodes_bind; [apply sticky_append|by apply encodes_u16|].
  intros a <-. eapply encodes_map; [by apply encodes_u16|]. intros b <-.
  unfold is_u16, U16_MAX in *. rewrite lor_shiftl_add by lia. change (2 ^ 16) with 65536.
  div_mod_lia.
Qed.

Lemma encodes_bytes b : is_bytes b → encodes (Writer_push_bytes b) (Reader_bytes (zlen b)) (eq b).
Proof.
  intros Hb. apply encodes_append; [done|done|].
  intros r [Hp Hl Hm Hbb] Hat Hle. exists b. split; [|done]. by apply Reader_bytes_at; try done; lia.
Qed.

(** ** Sizes *)

Lemma exact_size_append n b : n = zlen b → exact_size n (Writer_append n b).
Proof.
  intros -> w Hf. apply Writer_append_ok in Hf as (_ & _ & ->). simpl. rewrite zlen_app. lia.
Qed.

Lemma exact_size_compose n m e1 e2 :
  sticky e2 → exact_size n e1 → exact_size m e2 → exact_size (n + m) (e1 ;> e2).
Proof.
  unfold wseq. intros Hs H1 H2 w Hf. rewrite (H2 _ Hf). rewrite (H1 w); [lia|by eapply sticky_first].
Qed.

Lemma exact_size_grows n e : exact_size n e → grows n e.
Proof. intros H w Hf. rewrite (H w Hf). lia. Qed.

Lemma grows_compose n m e1 e2 :
  sticky e2 → grows n e1 → grows m e2 → grows (n + m) (e1 ;> e2).
Proof.
  unfold wseq. intros Hs H1 H2 w Hf. pose proof (H2 _ Hf). pose proof (H1 w (sticky_first _ _ Hs Hf)). lia.
Qed.

Lemma grows_weaken n m e : m ≤ n → grows n e → grows m e.
Proof. intros Hm H w Hf. pose proof (H w Hf). lia. Qed.

Lemma encodes_grows {A} e (d : Parser A) Q hole w :
  encodes e d Q → WInv hole w → Writer_is_failed (e w) = false →
  zlen (wbuf w) ≤ zlen (wbuf (e w)).
Proof. intros H Hw Hf. apply zlen_prefix. by apply (H hole). Qed.

(** ** RDATA *)

Lemma encodes_rdata_const {A} e (d : Z → Parser A) Q n :
  exact_size n e → encodes e (d n) Q → encodes_rdata e d Q.
Proof.
  intros Hn H hole w Hw Hf. destruct (H hole w Hw Hf) as (? & ? & Hd). split_and!; [done|done|].
  intros r Hr Hp Hl. rewrite Hl, Hp, (Hn w Hf).
  replace (zlen (wbuf w) + n - zlen (wbuf w)) with n by lia. rewrite <-(Hn w Hf). by apply Hd.
Qed.

Lemma encodes_rdata_any {A} e (d : Z → Parser A) Q :
  (∀ n, encodes e (d n) Q) → encodes_rdata e d Q.
Proof.
  intros H hole w Hw Hf. destruct (H 0 hole w Hw Hf) as (? & ? & _). split_and!; [done|done|].
  intros r Hr Hp Hl. by apply (H _ hole w Hw Hf).
Qed.

Create HintDb codec.
#[export] Hint Resolve encodes_u8 encodes_u16 encodes_u32 encodes_bytes : codec.

(** One field: the encoder and the parser both go on after it. *)
Ltac codec_step :=
  eapply encodes_bind; [solve [eauto 20 with sticky]|solve [eauto with codec]|intros ? <-].
(** The last field. *)
Ltac codec_last := eapply encodes_map; [solve [eauto with codec]|intros ? <-].

Create HintDb size.
#[export] Hint Extern 1 (exact_size _ (Writer_push_u8 _)) => by apply exact_size_append : size.
#[export] Hint Extern 1 (exact_size _ (Writer_push_u16 _)) => by apply exact_size_append : size.
#[export] Hint Extern 1 (exact_size _ (Writer_push_u32 _)) => by apply exact_size_append : size.
#[export] Hint Extern 1 (exact_size _ (Writer_push_bytes _)) => by apply exact_size_append : size.
#[export] Hint Extern 2 (exact_size _ (_ ;> _)) =>
  eapply exact_size_compose; [solve [eauto 20 with sticky]| |] : size.

(** ** Parsers that run up to the reader's limit *)

(** The parser [d] is told its end, and that end is the reader's limit. *)
Definition encodes_to {A} (hole : option Z) (e : Writer → Writer) (d : Z → Parser A)
    (Q : A → Prop) : Prop :=
  ∀ w, WInv hole w → Writer_is_failed (e w) = false →
    WInv hole (e w) ∧ wbuf w `prefix_of` wbuf (e w) ∧
    ∀ r, reads r hole (e w) → rpos r = zlen (wbuf w) → rlimit r = zlen (wbuf (e w)) →
      ∃ a, d (rlimit r) r = (Ok a, set_rpos (zlen (wbuf (e w))) r) ∧ Q a.

Lemma encodes_to_end {A} hole (d : Z → Parser A) (a : A) (Q : A → Prop) :
  (∀ r, rpos r = rlimit r → d (rlimit r) r = (Ok a, r)) → Q a → encodes_to hole id d Q.
Proof.
  intros Hd HQ w Hw Hf. split_and!; [done|done|]. intros r Hr Hp Hl. exists a.
  split; [|done]. simpl in *. rewrite Hd by congruence. rewrite <-Hp. by destruct r.
Qed.

Lemma encodes_to_seq {A B} hole e1 e2 (d1 : Parser A) (d2 : A → Z → Parser B) Q1 Q2 :
  sticky e2 → encodes_at hole e1 d1 Q1 → (∀ a, Q1 a → encodes_to hole e2 (d2 a) Q2) →
  encodes_to hole (e1 ;> e2) (λ e, pbind d1 (λ a, d2 a e)) Q2.
Proof.
  intros Hst H1 H2 w Hw Hf. unfold wseq in *. pose proof (sticky_first _ _ Hst Hf) as Hf1.
  destruct (encodes_at_inhabited _ _ _ _ _ H1 Hw Hf1) as [a0 Ha0].
  destruct (H1 w Hw Hf1) as (Hw1 & Hp1 & Hd1).
  destruct (H2 a0 Ha0 _ Hw1 Hf) as (Hw2 & Hp2 & _).
  split_and!; [done|by etrans|]. intros r Hr Hp Hl. unfold pbind.
  pose proof (zlen_prefix _ _ Hp2). pose proof (zlen_nonneg (wbuf (e1 w))).
  destruct (Hd1 r) as (a & -> & Ha); [eapply reads_before; [done|apply Hw1|done]|done|].
  destruct (H2 a Ha _ Hw1 Hf) as (_ & _ & Hd2).
  destruct (Hd2 (set_rpos (zlen (wbuf (e1 w))) r)) as (b & Hdb & Hb); try done.
  { apply reads_set_rpos; [lia|done]. }
  exists b. simpl in Hdb. by rewrite Hdb.
Qed.

(** At least [n] octets are left for the parser. *)
Lemma encodes_to_open {A} hole n e (d d' : Z → Parser A) Q :
  grows n e → encodes_to hole e d Q →
  (∀ r, Reader_wf r → rpos r + n ≤ rlimit r → d' (rlimit r) r = d (rlimit r) r) →
  encodes_to hole e d' Q.
Proof.
  intros Hg H Hd w Hw Hf. destruct (H w Hw Hf) as (? & ? & Hr). split_and!; try done.
  intros r Hrd ? ?. rewrite Hd; [by apply Hr|apply Hrd|]. pose proof (Hg w Hf). lia.
Qed.

Lemma encodes_to_map {A B} hole e (d : Z → Parser A) (k : A → Parser B) Q1 (Q2 : B → Prop) :
  encodes_to hole e d Q1 → (∀ a, Q1 a → ∃ b, Q2 b ∧ ∀ r, k a r = (Ok b, r)) →
  encodes_to hole e (λ z, pbind (d z) k) Q2.
Proof.
  intros H HQ w Hw Hf. destruct (H w Hw Hf) as (? & ? & Hr). split_and!; try done.
  intros r Hrd Hp Hl. destruct (Hr r Hrd Hp Hl) as (a & Ha & HQa). destruct (HQ a HQa) as (b & ? & Hk).
  exists b. unfold pbind. by rewrite Ha, Hk.
Qed.

(** RDATA that is parsed up to its end, with fuel enough for every octet. *)
Lemma encodes_rdata_to {A} n e (d : nat → Z → Parser A) (dd : Z → Parser A) Q :
  grows (Z.of_nat n) e → (∀ hole fuel, (n < fuel)%nat → encodes_to hole e (d fuel) Q) →
  (∀ m r, dd m r = d (S (Z.to_nat m)) (rpos r + m) r) → encodes_rdata e dd Q.
Proof.
  intros Hg H Hdd hole w Hw Hf. pose proof (Hg w Hf).
  destruct (H hole (S n) ltac:(lia) w Hw Hf) as (? & ? & _).
  split_and!; try done. intros r Hr Hp Hl. rewrite Hdd, Z.add_sub_assoc, Z.add_simpl_l.
  eapply H; try done. lia.
Qed.

(** A pure continuation. *)
Lemma encodes_then {A B} e (d : Parser A) (k : A → Parser B) Q1 (Q2 : B → Prop) :
  encodes e d Q1 → (∀ a, Q1 a → ∃ b, Q2 b ∧ ∀ r, k a r = (Ok b, r)) → encodes e (pbind d k) Q2.
Proof.
  intros H HQ hole w Hw Hf. destruct (H hole w Hw Hf) as (? & ? & Hr). split_and!; try done.
  intros r Hrd Hp. destruct (Hr r Hrd Hp) as (a & Ha & HQa). destruct (HQ a HQa) as (b & ? & Hk).
  exists b. unfold pbind. by rewrite Ha, Hk.
Qed.

(** *** Lower bounds on what is appended *)

Lemma grows_append n b : n = zlen b → grows n (Writer_append n b).
Proof. intros. by apply exact_size_grows, exact_size_append. Qed.

Lemma grows_seq n m k e1 e2 :
  sticky e2 → grows n e1 → grows m e2 → k ≤ n + m → grows k (e1 ;> e2).
Proof. intros. eapply grows_weaken; [done|]. by apply grows_compose. Qed.

Lemma grows_fails n m : grows n (Writer_fail m).
Proof. intros w Hw. by rewrite Writer_fail_failed in Hw. Qed.

Lemma grows_zero n b : n = zlen b → grows 0 (Writer_append n b).
Proof. intros ->. eapply grows_weaken; [apply (zlen_nonneg b)|by apply grows_append]. Qed.

