(* ===== verification/NameCodec.v ===== *)
(** * Encoding names ([Name::encode], [Name::encode_uncompressed],
    [Name::canonical_key_into] of [onetdns-proto/src/name.rs])

    The compressing encoder replaces the longest suffix that was already
    written, compared without case, by a pointer.  The codec theorem says that
    a parser of the final message reads the same name up to ASCII case. *)

From S2P Require Import Prelude NameTable Wire Writer Name Codec.

(** The loop of [Name::encode]; [key] is [&key[key_offset..]]. *)
Fixpoint encode_loop (key : list Z) (labels : list (list Z)) (w : Writer) : Writer :=
  match labels with
  | [] => Writer_push_u8 0 w
  | label :: rest =>
      match NameMap_get (wnames w) key with
      | Some off => Writer_push_u16 (Z.lor 49152 off) w
      | None =>
          let w :=
            if negb (Writer_is_failed w) && (zlen (wbuf w) <? 16384)
            then set_wnames (NameMap_insert (wnames w) key (zlen (wbuf w))) w
            else w in
          let w := Writer_push_u8 (zlen label) w in
          let w := Writer_push_bytes label w in
          encode_loop (drop (length label + 1) key) rest w
      end
  end.

(** [Name::encode].  [Name_canonical_key_into] never panics on a well-formed
    name ([canonical_key_into_ok]), so that case is merged with the [None] one. *)
Definition Name_encode (n : Name) (w : Writer) : Writer :=
  match Name_canonical_key_into n (replicate (Z.to_nat MAX_NAME_LEN) 0) with
  | Ok (Some key) => encode_loop key (Labels_collect (Name_labels n)) w
  | _ => Writer_fail "DNS 이름의 정규화된 키가 255바이트를 넘었습니다" w
  end.

(** [Name::encode_uncompressed]. *)
Definition Name_encode_uncompressed (n : Name) (w : Writer) : Writer :=
  Writer_push_bytes (nwire n) w.

(** ** Canonical keys *)

Definition lower_body (ls : list (list Z)) : list Z :=
  concat (map (λ l, zlen l :: map ascii_lower l) ls).

Lemma lower_body_cons l ls : lower_body (l :: ls) = (zlen l :: map ascii_lower l) ++ lower_body ls.
Proof. done. Qed.

Lemma zlen_lower_body ls : zlen (lower_body ls) = zlen (body ls).
Proof.
  induction ls as [|l ls IH]; [done|].
  rewrite lower_body_cons, zlen_app, zlen_cons, zlen_map, zlen_body_cons. lia.
Qed.

Lemma labels_key_cons l ls :
  labels_key (l :: ls) = (zlen l :: map ascii_lower l) ++ labels_key ls.
Proof. unfold labels_key. simpl. by rewrite <-app_assoc. Qed.

Lemma zlen_labels_key ls : zlen (labels_key ls) = zlen (body ls) + 1.
Proof. unfold labels_key. rewrite zlen_app. fold (lower_body ls). by rewrite zlen_lower_body. Qed.

Lemma drop_labels_key l ls : drop (length l + 1) (labels_key (l :: ls)) = labels_key ls.
Proof.
  rewrite labels_key_cons. rewrite drop_app_length'; [done|].
  simpl. rewrite length_map. lia.
Qed.

(** A key determines the labels up to case. *)
Lemma labels_key_inj ls ks :
  Forall label_wf ls → Forall label_wf ks →
  labels_key ls = labels_key ks → labels_lower ls = labels_lower ks.
Proof.
  revert ks. induction ls as [|l ls IH]; intros [|k ks] Hl Hk Heq; try done.
  - rewrite labels_key_cons in Heq. apply Forall_cons in Hk as [[Hk _] _].
    unfold labels_key in Heq. simpl in Heq. injection Heq as Hz _. lia.
  - rewrite labels_key_cons in Heq. apply Forall_cons in Hl as [[Hl _] _].
    unfold labels_key in Heq. simpl in Heq. injection Heq as Hz _. lia.
  - rewrite !labels_key_cons in Heq. apply Forall_cons in Hl as [_ Hl], Hk as [_ Hk].
    simpl in Heq. injection Heq as Hz Heq.
    apply app_inj_1 in Heq as [Hlk Heq]; [|unfold zlen in Hz; rewrite !length_map; lia].
    unfold labels_lower. simpl. f_equal; [done|]. by apply IH.
Qed.

Lemma labels_lower_lengths ls ks : labels_lower ls = labels_lower ks → zlen (body ls) = zlen (body ks).
Proof.
  revert ks. induction ls as [|l ls IH]; intros [|k ks] Heq; try done.
  simpl in Heq. injection Heq as Hlk Heq.
  rewrite !zlen_body_cons, (IH ks) by done.
  apply (f_equal zlen) in Hlk. rewrite !zlen_map in Hlk. lia.
Qed.

Lemma labels_lower_key ls ks : labels_lower ls = labels_lower ks → labels_key ls = labels_key ks.
Proof.
  revert ks. induction ls as [|l ls IH]; intros [|k ks] Heq; try done.
  simpl in Heq. injection Heq as Hlk Heq.
  rewrite !labels_key_cons, (IH ks), Hlk by done. f_equal. f_equal.
  apply (f_equal zlen) in Hlk. by rewrite !zlen_map in Hlk.
Qed.

Lemma labels_lower_length ls ks : labels_lower ls = labels_lower ks → length ls = length ks.
Proof. intros H%(f_equal length). unfold labels_lower in H. by rewrite !length_map in H. Qed.

(** Writing octets over a region of a buffer. *)
Lemma write_bytes_over pre mid post bs :
  zlen mid = zlen bs →
  write_bytes (pre ++ mid ++ post) (zlen pre) bs = Some (pre ++ bs ++ post).
Proof.
  revert pre mid. induction bs as [|b bs IH]; intros pre mid Hlen.
  - destruct mid; [done|]. rewrite zlen_cons in Hlen. pose proof (zlen_nonneg mid).
    change (zlen (@nil Z)) with 0 in Hlen. lia.
  - destruct mid as [|m mid]; [rewrite zlen_cons in Hlen; pose proof (zlen_nonneg bs);
      change (zlen (@nil Z)) with 0 in Hlen; lia|].
    rewrite !zlen_cons in Hlen. cbn [write_bytes]. unfold set_at.
    rewrite (proj2 (Z.leb_le _ _)) by apply zlen_nonneg.
    rewrite (proj2 (Z.ltb_lt _ _)).
    2:{ rewrite zlen_app. simpl. rewrite zlen_cons. pose proof (zlen_nonneg (mid ++ post)). lia. }
    simpl app. unfold zlen at 1. rewrite Nat2Z.id, insert_app_r_alt by lia.
    rewrite Nat.sub_diag. simpl.
    replace (pre ++ b :: mid ++ post) with ((pre ++ [b]) ++ mid ++ post) by (by rewrite <-app_assoc).
    replace (zlen pre + 1) with (zlen (pre ++ [b])) by (by rewrite zlen_app).
    rewrite IH by lia. by rewrite <-app_assoc.
Qed.

Lemma write_labels_over pre mid post ls :
  zlen mid = zlen (lower_body ls) →
  write_labels (pre ++ mid ++ post) (zlen pre) ls
  = Some (pre ++ lower_body ls ++ post, zlen pre + zlen (lower_body ls)).
Proof.
  revert pre mid. induction ls as [|l ls IH]; intros pre mid Hlen; cbn [write_labels].
  - change (zlen (lower_body [])) with 0 in *.
    destruct mid; [|rewrite zlen_cons in Hlen; pose proof (zlen_nonneg mid); lia].
    do 2 f_equal. lia.
  - rewrite lower_body_cons in *. rewrite zlen_app in *.
    set (c := zlen l :: map ascii_lower l) in *.
    assert (Hc : zlen c = zlen l + 1) by (unfold c; by rewrite zlen_cons, zlen_map).
    pose proof (zlen_nonneg l). pose proof (zlen_nonneg (lower_body ls)).
    assert (Hm : mid = take (length c) mid ++ drop (length c) mid) by (by rewrite take_drop).
    assert (Hlt : zlen (take (length c) mid) = zlen c).
    { unfold zlen in *. rewrite length_take. lia. }
    rewrite Hm, <-app_assoc, (write_bytes_over pre _ _ c) by done.
    replace (pre ++ c ++ drop (length c) mid ++ post)
      with ((pre ++ c) ++ drop (length c) mid ++ post) by (by rewrite <-app_assoc).
    replace (zlen pre + 1 + zlen l) with (zlen (pre ++ c)) by (rewrite zlen_app; lia).
    rewrite IH.
    + rewrite <-!app_assoc. do 2 f_equal. rewrite zlen_app. lia.
    + apply (f_equal zlen) in Hm. rewrite zlen_app in Hm. lia.
Qed.

(** From a label boundary on, the canonical key is that of the remaining labels. *)
Lemma write_canonical_from_ok ks ls out :
  labels_wf (ks ++ ls) → zlen (body ls) + 1 ≤ zlen out →
  Name_write_canonical_from {| nwire := labels_wire (ks ++ ls) |} (zlen (body ks)) out
  = Ok (Some (labels_key ls)).
Proof.
  intros Hwf Hout. pose proof (labels_wf_max _ Hwf) as Hmax.
  unfold Name_write_canonical_from. cbn [nwire].
  rewrite zlen_labels_wire in *. rewrite body_app, zlen_app in *.
  pose proof (zlen_nonneg (body ks)). pose proof (zlen_nonneg (body ls)).
  unfold checked_sub. rewrite !(proj2 (Z.leb_le _ _)) by lia.
  rewrite (proj2 (Z.ltb_ge _ _)) by lia.
  assert (Hlab : Labels_collect {| lwire := labels_wire (ks ++ ls); lfront := zlen (body ks);
    lback := zlen (body ks) + zlen (body ls) + 1 - 1 |} = ls).
  { unfold Labels_collect, labels_fuel. cbn [lwire].
    rewrite labels_wire_body, body_app, <-app_assoc.
    apply Labels_collect_body; unfold USIZE_MAX; try lia.
    - destruct Hwf as [Hwf _]. by apply Forall_app in Hwf as [_ ?].
    - pose proof (body_length ls). rewrite !length_app. lia. }
  rewrite Hlab.
  set (k := zlen (body ls)) in *.
  assert (Hsplit : out = [] ++ take (Z.to_nat k) out ++ drop (Z.to_nat k) out) by (by rewrite take_drop).
  assert (Hkl : zlen (take (Z.to_nat k) out) = zlen (lower_body ls)).
  { rewrite zlen_lower_body. fold k. unfold zlen in *. rewrite length_take. lia. }
  rewrite Hsplit. rewrite (write_labels_over [] _ _ ls) by done.
  change (zlen (@nil Z)) with 0. rewrite Z.add_0_l, zlen_lower_body. fold k. simpl app.
  destruct (drop (Z.to_nat k) out) as [|x post] eqn:Hd.
  { apply (f_equal zlen) in Hd. unfold zlen in *. rewrite length_drop in Hd. simpl in Hd. lia. }
  unfold set_at. rewrite (proj2 (Z.leb_le _ _)) by lia.
  rewrite (proj2 (Z.ltb_lt _ _)).
  2:{ rewrite zlen_app, zlen_lower_body, zlen_cons. fold k. pose proof (zlen_nonneg post). lia. }
  simpl. replace (Z.to_nat k) with (length (lower_body ls))
    by (pose proof (zlen_lower_body ls); unfold k, zlen in *; lia).
  rewrite insert_app_r_alt, Nat.sub_diag by lia. simpl.
  replace (lower_body ls ++ 0 :: post) with ([] ++ labels_key ls ++ post)
    by (unfold labels_key; fold (lower_body ls); by rewrite <-app_assoc).
  replace (zlen (body ks) + k + 1 - zlen (body ks)) with (zlen (@nil Z) + zlen (labels_key ls)).
  2:{ rewrite zlen_labels_key. change (zlen (@nil Z)) with 0. fold k. lia. }
  change 0 with (zlen (@nil Z)) at 1. by rewrite get_range_app.
Qed.

Lemma canonical_key_into_ok ls out :
  labels_wf ls → MAX_NAME_LEN ≤ zlen out →
  Name_canonical_key_into {| nwire := labels_wire ls |} out = Ok (Some (labels_key ls)).
Proof.
  intros Hwf Hout. apply (write_canonical_from_ok [] ls); [done|].
  destruct Hwf as [_ ?]. lia.
Qed.

Lemma Name_encode_loop ls w :
  labels_wf ls →
  Name_encode {| nwire := labels_wire ls |} w = encode_loop (labels_key ls) ls w.
Proof.
  intros Hwf. unfold Name_encode. rewrite canonical_key_into_ok by done.
  by rewrite Name_labels_collect.
Qed.

Lemma sticky_encode_loop key ls : sticky (encode_loop key ls).
Proof.
  revert key. induction ls as [|l ls IH]; intros key w Hw; cbn [encode_loop].
  - by apply sticky_append.
  - case_match; [by apply sticky_append|]. rewrite Hw. simpl.
    unfold Writer_push_bytes, Writer_push_u8. rewrite !(sticky_append _ _ w) by done. by apply IH.
Qed.

Lemma sticky_Name_encode n : sticky (Name_encode n).
Proof.
  intros w Hw. unfold Name_encode. repeat case_match; try by apply sticky_fail.
  by apply sticky_encode_loop.
Qed.

Lemma sticky_Name_encode_uncompressed n : sticky (Name_encode_uncompressed n).
Proof. apply sticky_append. Qed.
#[export] Hint Resolve sticky_Name_encode sticky_Name_encode_uncompressed : sticky.

(** ** The compressing encoder *)

(** The table entries for keys no longer than [n] are sound. *)
Definition names_upto (n : Z) (hole : option Z) (w : Writer) : Prop :=
  ∀ k off, NameMap_model (wnames w) !! k = Some off → zlen k ≤ n →
    entry_ok (frozen (wbuf w) hole) (zlen (wbuf w)) k off.

(** What the encoding loop for the labels [ls] did between [w] and [w']. *)
Record loop_result (hole : option Z) (ls : list (list Z)) (w w' : Writer) : Prop := {
  lr_wf : Writer_wf w';
  lr_prefix : wbuf w `prefix_of` wbuf w';
  lr_name : ∃ ls' j, labels_lower ls' = labels_lower ls ∧ labels_wf ls' ∧
    0 ≤ j ≤ Z.of_nat (length ls) ∧
    name_at (frozen (wbuf w') hole) (zlen (wbuf w)) ls' j (zlen (wbuf w'));
  lr_names : ∀ k off, NameMap_model (wnames w') !! k = Some off →
    NameMap_model (wnames w) !! k = Some off ∨
    entry_ok (frozen (wbuf w') hole) (zlen (wbuf w')) k off;
}.

Lemma encode_root hole w :
  Writer_wf w → hole_ok hole (wbuf w) → Writer_is_failed (Writer_push_u8 0 w) = false →
  loop_result hole [] w (Writer_push_u8 0 w).
Proof.
  intros Hwf Hh Hf. pose proof (Writer_append_ok _ _ _ Hf) as (_ & _ & Heq).
  constructor.
  - apply Writer_append_wf; [done|done|by apply Forall_singleton].
  - unfold Writer_push_u8. rewrite Heq. by eexists.
  - exists [], 0. unfold Writer_push_u8. rewrite Heq. split_and!; [done|by split; [constructor|]|lia|lia|].
    simpl. rewrite zlen_app. apply na_root. rewrite frozen_new by (done || lia).
    by rewrite Z.sub_diag.
  - intros k off. unfold Writer_push_u8. rewrite Heq. simpl. by left.
Qed.

Lemma pointer_octets off :
  0 ≤ off < 16384 →
  is_u16 (Z.lor 49152 off) ∧
  u16_to_be (Z.lor 49152 off) = [192 + off / 256; off mod 256].
Proof.
  intros Hoff.
  assert (Hl : Z.lor 49152 off = 49152 + off).
  { change 49152 with (Z.shiftl 3 14). rewrite lor_shiftl_add by lia. done. }
  assert (Hu : is_u16 (49152 + off)) by (unfold is_u16, U16_MAX; lia).
  rewrite Hl. split; [done|]. rewrite u16_to_be_val by done.
  repeat (apply (f_equal2 cons); [div_mod_lia|]). done.
Qed.

Lemma encode_pointer hole ls w off :
  Writer_wf w → hole_ok hole (wbuf w) → Forall label_wf ls →
  entry_ok (frozen (wbuf w) hole) (zlen (wbuf w)) (labels_key ls) off →
  Writer_is_failed (Writer_push_u16 (Z.lor 49152 off) w) = false →
  loop_result hole ls w (Writer_push_u16 (Z.lor 49152 off) w).
Proof.
  intros Hwf Hh Hls (Hoff & Hlt & ls' & j & e & Hna & Hwf' & Hkey & Hj) Hf.
  destruct (pointer_octets off Hoff) as [_ Hbe].
  pose proof (Writer_append_ok _ _ _ Hf) as (_ & _ & Heq). unfold Writer_push_u16 in *.
  pose proof (labels_key_inj _ _ (proj1 Hwf') Hls (eq_sym Hkey)) as Hlow.
  constructor.
  - apply Writer_append_wf; [done|done|apply u16_to_be_bytes].
  - rewrite Heq. by eexists.
  - exists ls', (j + 1). rewrite Heq. simpl. split_and!; [done|done|lia|..].
    { rewrite <-(labels_lower_length _ _ Hlow). lia. }
    rewrite Hbe, zlen_app. change (zlen [_; _]) with 2.
    eapply (na_ptr _ _ (192 + off / 256) (off mod 256)).
    + rewrite frozen_new by (done || lia). by rewrite Z.sub_diag.
    + rewrite frozen_new by (done || lia). by replace (_ - _) with 1 by lia.
    + unfold U8_MAX. div_mod_lia.
    + unfold is_u8, U8_MAX. div_mod_lia.
    + div_mod_lia.
    + replace ((192 + off / 256 - 192) * 256 + off mod 256) with off by div_mod_lia.
      eapply name_at_mono; [|done]. intros i x. apply frozen_prefix; [by eexists|done].
  - intros k o. rewrite Heq. simpl. by left.
Qed.

(** The registration of the current suffix, and the label octets. *)
Definition encode_label (key label : list Z) (w : Writer) : Writer :=
  Writer_push_bytes label (Writer_push_u8 (zlen label)
    (if negb (Writer_is_failed w) && (zlen (wbuf w) <? 16384)
     then set_wnames (NameMap_insert (wnames w) key (zlen (wbuf w))) w else w)).

Lemma encode_label_ok key l w :
  Writer_wf w → label_wf l → Writer_is_failed (encode_label key l w) = false →
  Writer_wf (encode_label key l w) ∧
  wbuf (encode_label key l w) = wbuf w ++ zlen l :: l ∧
  ∀ k off, NameMap_model (wnames (encode_label key l w)) !! k = Some off →
    NameMap_model (wnames w) !! k = Some off ∨
    k = key ∧ off = zlen (wbuf w) ∧ zlen (wbuf w) < 16384.
Proof.
  intros Hwf [Hl Hlb] Hf.
  pose proof (Writer_append_ok _ _ _ Hf) as (Hf2 & _ & Heq2).
  pose proof (Writer_append_ok _ _ _ Hf2) as (Hf1 & _ & Heq1).
  unfold encode_label, Writer_push_bytes, Writer_push_u8 in *.
  set (w1 := if _ && _ then _ else w) in *.
  assert (Hw1 : Writer_wf w1 ∧ wbuf w1 = wbuf w).
  { subst w1. case_match; [|done]. destruct Hwf. split; [|done].
    constructor; simpl; try done. by apply NameMap_insert_wf. }
  destruct Hw1 as [Hw1 Hb1].
  split_and!.
  - apply Writer_append_wf; [|done|done]. apply Writer_append_wf; [done|done|].
    apply Forall_singleton. unfold is_u8, U8_MAX. lia.
  - rewrite Heq2, Heq1. simpl. by rewrite <-app_assoc, Hb1.
  - intros k off. rewrite Heq2, Heq1. simpl. subst w1.
    destruct (negb _ && _) eqn:Hc; simpl; [|by left]. bool_prop.
    rewrite NameMap_insert_model by apply Hwf. intros [[<- <-]|[_ ?]]%lookup_insert_Some; auto.
Qed.

Lemma encode_loop_label hole ls l w w' :
  labels_wf (l :: ls) → Writer_wf w → hole_ok hole (wbuf w) →
  Writer_is_failed (encode_label (labels_key (l :: ls)) l w) = false →
  loop_result hole ls (encode_label (labels_key (l :: ls)) l w) w' →
  loop_result hole (l :: ls) w w'.
Proof.
  intros Hls Hwf Hh Hf [Hwf' [c Hp] (ls' & j & Hlow & Hwfl & Hj & Hna) Hnames].
  destruct Hls as [Hlf Hlen]. apply Forall_cons in Hlf as [Hl Hlf].
  destruct (encode_label_ok (labels_key (l :: ls)) l w Hwf Hl Hf) as (_ & Hbuf & Hreg).
  assert (Hpre : wbuf w' = wbuf w ++ (zlen l :: l) ++ c) by (rewrite Hp, Hbuf; by rewrite <-app_assoc).
  assert (Hname : name_at (frozen (wbuf w') hole) (zlen (wbuf w)) (l :: ls') j (zlen (wbuf w'))).
  { apply na_label; [done| |].
    - rewrite Hpre. intros i x Hi. apply (bytes_at_new (wbuf w) ((zlen l :: l) ++ c)); [done|].
      by apply get_Some_app.
    - rewrite Hbuf, zlen_app, zlen_cons in Hna.
      by replace (zlen (wbuf w) + 1 + zlen l) with (zlen (wbuf w) + (zlen l + 1)) by lia. }
  assert (Hlow' : labels_lower (l :: ls') = labels_lower (l :: ls)).
  { unfold labels_lower. simpl. f_equal. exact Hlow. }
  assert (Hwf2 : labels_wf (l :: ls')).
  { split; [constructor; [done|apply Hwfl]|]. by rewrite (labels_lower_lengths _ _ Hlow'). }
  pose proof (labels_lower_length _ _ Hlow).
  constructor; [done| | |].
  - rewrite Hpre. by eexists.
  - exists (l :: ls'), j. simpl length. split_and!; [done|done|lia|lia|done].
  - intros k off [Hk|Hk]%Hnames; [|by right].
    apply Hreg in Hk as [Hk|(-> & -> & Hlt)]; [by left|]. right.
    split; [pose proof (zlen_nonneg (wbuf w)); lia|]. split.
    { rewrite Hpre, !zlen_app, zlen_cons. pose proof (zlen_nonneg l). pose proof (zlen_nonneg c). lia. }
    exists (l :: ls'), j, (zlen (wbuf w')). split_and!; [done|done| |lia|simpl length; lia].
    symmetry. by apply labels_lower_key.
Qed.

Lemma names_upto_label hole ls l w :
  labels_wf (l :: ls) → Writer_wf w → hole_ok hole (wbuf w) →
  Writer_is_failed (encode_label (labels_key (l :: ls)) l w) = false →
  names_upto (zlen (labels_key (l :: ls))) hole w →
  names_upto (zlen (labels_key ls)) hole (encode_label (labels_key (l :: ls)) l w).
Proof.
  intros [[[Hl ?] Hlf]%Forall_cons Hlen] Hwf Hh Hf Hup k off Hk Hkl.
  destruct (encode_label_ok (labels_key (l :: ls)) l w Hwf (conj Hl H) Hf) as (_ & Hbuf & Hreg).
  rewrite !zlen_labels_key, zlen_body_cons in *.
  apply Hreg in Hk as [Hk|(-> & _)].
  - rewrite Hbuf. eapply entry_ok_mono; [| |apply (Hup _ _ Hk)].
    + intros i x. apply frozen_prefix; [by eexists|done].
    + rewrite zlen_app, zlen_cons. lia.
    + lia.
  - rewrite zlen_labels_key, zlen_body_cons in Hkl. lia.
Qed.

Lemma encode_loop_spec hole ls w :
  labels_wf ls → Writer_wf w → hole_ok hole (wbuf w) →
  names_upto (zlen (labels_key ls)) hole w →
  Writer_is_failed (encode_loop (labels_key ls) ls w) = false →
  loop_result hole ls w (encode_loop (labels_key ls) ls w).
Proof.
  revert w. induction ls as [|l ls IH]; intros w Hls Hwf Hh Hup Hf; cbn [encode_loop] in *.
  - by apply encode_root.
  - rewrite NameMap_get_model in * by apply Hwf.
    destruct (NameMap_model (wnames w) !! labels_key (l :: ls)) as [off|] eqn:Hget.
    + apply encode_pointer; [done|done|apply Hls| |done]. by apply Hup.
    + change (Writer_push_bytes _ _) with (encode_label (labels_key (l :: ls)) l w) in *.
      rewrite drop_labels_key in *.
      pose proof (sticky_first _ _ (sticky_encode_loop _ _) Hf) as Hf1.
      pose proof Hls as [[Hl _]%Forall_cons _].
      destruct (encode_label_ok _ _ _ Hwf Hl Hf1) as (Hwf1 & Hbuf & _).
      apply encode_loop_label; [done..|].
      apply IH; [by eapply labels_wf_tail|done| |by apply names_upto_label|done].
      eapply hole_ok_prefix; [|done]. rewrite Hbuf. by eexists.
Qed.

(** Two names equal up to ASCII case. *)
Definition name_equiv (n m : Name) : Prop := Name_eq_ignore_case n m = true.

Lemma map_ascii_lower_small l : Forall (λ b, 0 ≤ b ≤ 63) l → map ascii_lower l = l.
Proof.
  induction 1 as [|b l Hb _ IH]; [done|]. simpl. rewrite IH. f_equal.
  unfold ascii_lower. by rewrite (proj2 (Z.leb_gt _ _)) by lia.
Qed.

Lemma lower_wire ls : Forall label_wf ls → map ascii_lower (labels_wire ls) = labels_key ls.
Proof.
  induction 1 as [|l ls [Hl _] _ IH]; [done|].
  rewrite labels_key_cons, labels_wire_cons, map_app, IH. simpl. f_equal.
  unfold ascii_lower. by rewrite (proj2 (Z.leb_gt _ _)) by lia.
Qed.

Lemma labels_lower_equiv ls ks :
  Forall label_wf ls → Forall label_wf ks →
  labels_lower ls = labels_lower ks ↔
  name_equiv {| nwire := labels_wire ls |} {| nwire := labels_wire ks |}.
Proof.
  intros Hl Hk. unfold name_equiv, Name_eq_ignore_case, eq_ignore_ascii_case. simpl.
  rewrite bool_decide_eq_true, !lower_wire by done. split.
  - apply labels_lower_key.
  - by apply labels_key_inj.
Qed.

Lemma Name_labels_of n : Name_wf n → ∃ ls, labels_wf ls ∧ n = {| nwire := labels_wire ls |}.
Proof. intros (ls & ? & Hn). exists ls. split; [done|]. destruct n. simpl in *. by subst. Qed.

(** Compressed names: what was encoded is read back, up to ASCII case, when it
    has at most [MAX_JUMPS] labels. *)
Lemma encodes_Name n :
  Name_wf n → Name_num_labels n ≤ MAX_JUMPS →
  encodes (Name_encode n) Name_parse (λ m, Name_wf m ∧ name_equiv m n).
Proof.
  intros Hn Hmax hole w [Hwf Hh Hnames] Hf.
  destruct (Name_labels_of n Hn) as (ls & Hls & ->).
  rewrite Name_num_labels_wf in Hmax. rewrite Name_encode_loop in * by done.
  destruct (encode_loop_spec hole ls w) as [Hwf' Hp (ls' & j & Hlow & Hls' & Hj & Hna) Hn'];
    [done..| |done|].
  { intros k off Hk _. by apply Hnames. }
  split_and!; [constructor|done|].
  - done.
  - by eapply hole_ok_prefix.
  - intros k off [Hk|Hk]%Hn'; [|done]. eapply entry_ok_mono; [| |by apply Hnames].
    + intros i x. by apply frozen_prefix.
    + by apply zlen_prefix.
  - intros r [Hr Hrb Hrl] Hpos. exists {| nwire := labels_wire ls' |}. split.
    + eapply Name_parse_complete; [done|done| | |done].
      * rewrite Hpos. by eapply name_at_mono.
      * lia.
    + split; [by exists ls'|]. apply labels_lower_equiv; [apply Hls'|apply Hls|done].
Qed.

(** Uncompressed names are read back exactly, by either parser. *)
Lemma wire_bytes ls : Forall label_wf ls → is_bytes (labels_wire ls).
Proof.
  intros H. rewrite labels_wire_body. apply Forall_app. split; [by apply body_bytes|].
  by apply Forall_singleton.
Qed.

Lemma encodes_Name_uncompressed n :
  Name_wf n → encodes (Name_encode_uncompressed n) Name_parse_uncompressed (eq n).
Proof.
  intros Hn. destruct (Name_labels_of n Hn) as (ls & Hls & ->).
  apply encodes_append; [done|by apply wire_bytes, Hls|].
  intros r Hr Hat Hl. eexists. split; [|done]. by apply Name_parse_uncompressed_complete.
Qed.

Lemma encodes_Name_uncompressed_parse n :
  Name_wf n → encodes (Name_encode_uncompressed n) Name_parse (eq n).
Proof.
  intros Hn. destruct (Name_labels_of n Hn) as (ls & Hls & ->).
  apply encodes_append; [done|by apply wire_bytes, Hls|].
  intros r Hr Hat Hl. eexists. split; [|done].
  apply (Name_parse_complete r ls 0); [done|done| |done|done].
  apply name_at_wire; [apply Hls|done].
Qed.

Lemma grows_Name_encode n : Name_wf n → grows 1 (Name_encode n).
Proof.
  intros Hn w Hf. destruct (Name_labels_of n Hn) as (ls & Hls & ->).
  rewrite Name_encode_loop in * by done. revert Hf. generalize (labels_key ls). clear Hls Hn.
  revert w. induction ls as [|l ls IH]; intros w key Hf; cbn [encode_loop] in *.
  - apply Writer_append_ok in Hf as (_ & _ & Heq). unfold Writer_push_u8. rewrite Heq.
    simpl. rewrite zlen_app. reflexivity.
  - case_match.
    + apply Writer_append_ok in Hf as (_ & _ & Heq). unfold Writer_push_u16. rewrite Heq.
      simpl. rewrite zlen_app, zlen_u16_to_be. lia.
    + pose proof (IH _ _ Hf) as Hle.
      pose proof (sticky_first _ _ (sticky_encode_loop _ _) Hf) as Hf1.
      pose proof (Writer_append_ok _ _ _ Hf1) as (Hf2 & _ & _).
      pose proof (exact_size_append _ l eq_refl _ Hf1) as H1.
      pose proof (exact_size_append 1 [zlen l] eq_refl _ Hf2) as H2.
      assert (Hw1 : wbuf (if negb (Writer_is_failed w) && (zlen (wbuf w) <? 16384)
        then set_wnames (NameMap_insert (wnames w) key (zlen (wbuf w))) w else w) = wbuf w)
        by by case_match.
      rewrite Hw1 in H2. pose proof (zlen_nonneg l).
      unfold Writer_push_bytes, Writer_push_u8 in *. lia.
Qed.
