(* ===== verification/NameText.v ===== *)
(** * Names as text and as keys ([Name::from_str], [Name::to_master_lower],
    [Name::ends_with_ignore_case] of [onetdns-proto/src/name.rs])

    The text written for a name is read back as the same name in lower case;
    two names have the same canonical key exactly when they are equal up to
    case; suffix tests respect label boundaries. *)

From S2P Require Import Prelude NameTable Wire Writer Name Codec NameCodec.

(** ** One octet *)

(** The characters that are escaped by a backslash are not digits and have no
    case. *)
Lemma master_special b :
  is_master_special b = true → is_ascii_digit b = false ∧ ascii_lower b = b.
Proof.
  unfold is_master_special. rewrite bool_decide_eq_true. revert b. apply Forall_forall.
  repeat (constructor; [done|]). constructor.
Qed.

Lemma from_str_special b s labels cur e :
  is_master_special b = true →
  from_str_loop (92 :: b :: s) labels cur e = from_str_loop s labels (cur ++ [b]) false.
Proof.
  intros [Hd _]%master_special.
  cbn [from_str_loop Z.eqb Pos.eqb]. destruct s as [|x [|y s]]; try done. by rewrite Hd.
Qed.

Lemma from_str_plain b s labels cur e :
  b ≠ 92 → b ≠ 46 →
  from_str_loop (b :: s) labels cur e = from_str_loop s labels (cur ++ [b]) false.
Proof.
  intros H1 H2. cbn [from_str_loop].
  by rewrite (proj2 (Z.eqb_neq b 92) H1), (proj2 (Z.eqb_neq b 46) H2).
Qed.

Lemma from_str_decimal b s labels cur e :
  is_u8 b →
  from_str_loop ([92; 48 + b / 100; 48 + b / 10 mod 10; 48 + b mod 10] ++ s) labels cur e =
  from_str_loop s labels (cur ++ [b]) false.
Proof.
  intros Hb. unfold is_u8, U8_MAX in Hb. cbn [app from_str_loop Z.eqb Pos.eqb].
  assert (Hd : ∀ d, 0 ≤ d ≤ 9 → is_ascii_digit (48 + d) = true).
  { intros d Hd. unfold is_ascii_digit. apply andb_true_intro. split; apply Z.leb_le; lia. }
  rewrite !Hd by div_mod_lia. cbn [andb].
  replace (((48 + b / 100 - 48) * 10 + (48 + b / 10 mod 10 - 48)) * 10 + (48 + b mod 10 - 48))
    with b by div_mod_lia.
  by rewrite (proj2 (Z.ltb_ge _ _)) by lia.
Qed.

Lemma ascii_lower_other b : (b < 65 ∨ 90 < b) → ascii_lower b = b.
Proof.
  intros H. unfold ascii_lower. destruct (Z.leb_spec 65 b), (Z.leb_spec b 90); simpl; done || lia.
Qed.

Lemma ascii_lower_upper b : 65 ≤ b ≤ 90 → ascii_lower b = b + 32.
Proof.
  intros H. assert (Hb : is_u8 b) by (unfold is_u8, U8_MAX; lia).
  pose proof (u8_forall (λ b, negb ((65 <=? b) && (b <=? 90)) || (ascii_lower b =? b + 32))) as Hall.
  specialize (Hall ltac:(by vm_compute) b Hb). cbv beta in Hall.
  rewrite (proj2 (Z.leb_le 65 b)), (proj2 (Z.leb_le b 90)) in Hall by lia. simpl in Hall. by bool_prop.
Qed.

(** Whatever [to_master_lower] writes for an octet reads back as that octet in
    lower case. *)
Lemma from_str_master_byte b s labels cur e :
  is_u8 b →
  from_str_loop (master_byte b ++ s) labels cur e =
  from_str_loop s labels (cur ++ [ascii_lower b]) false.
Proof.
  intros Hb. unfold master_byte. destruct (is_master_special b) eqn:Hs.
  - cbn [app]. rewrite from_str_special by done. by destruct (master_special b Hs) as [_ ->].
  - destruct ((33 <=? b) && (b <=? 126)) eqn:Hr.
    + bool_prop. cbn [app]. apply from_str_plain.
      * intros Heq. destruct (decide (65 ≤ b ≤ 90)) as [Hu|Hn].
        -- rewrite ascii_lower_upper in Heq by done. lia.
        -- rewrite ascii_lower_other in Heq by lia. by subst b.
      * intros Heq. destruct (decide (65 ≤ b ≤ 90)) as [Hu|Hn].
        -- rewrite ascii_lower_upper in Heq by done. lia.
        -- rewrite ascii_lower_other in Heq by lia. by subst b.
    + rewrite from_str_decimal by done. do 2 f_equal. f_equal. symmetry. apply ascii_lower_other.
      apply andb_false_iff in Hr as [Hr|Hr]; bool_prop; lia.
Qed.

Lemma from_str_master_label l s labels cur e :
  is_bytes l → l ≠ [] →
  from_str_loop (concat (map master_byte l) ++ s) labels cur e =
  from_str_loop s labels (cur ++ map ascii_lower l) false.
Proof.
  intros Hl Hne. revert cur e Hne. induction Hl as [|b l Hb _ IH]; intros cur e Hne; [done|].
  cbn [map concat]. rewrite <-app_assoc, from_str_master_byte by done.
  destruct l as [|b' l]; [done|]. rewrite IH by done. by rewrite <-app_assoc.
Qed.

Lemma label_nonempty l : label_wf l → l ≠ [].
Proof. intros [? _] ->. rewrite zlen_nil in *. lia. Qed.

(** The loop after the first label. *)
Lemma from_str_master_labels ls : ∀ labels cur,
  Forall label_wf ls →
  from_str_loop (master_labels false ls) labels cur false = Ok (labels ++ cur :: labels_lower ls).
Proof.
  induction ls as [|l ls IH]; intros labels cur Hls; [done|].
  apply Forall_cons in Hls as [Hl Hls]. cbn [master_labels app].
  change (from_str_loop (46 :: ?s) labels cur false) with (from_str_loop s (labels ++ [cur]) [] true).
  rewrite from_str_master_label by (apply Hl || by apply label_nonempty).
  rewrite IH by done. by rewrite <-app_assoc.
Qed.

Lemma from_str_master ls :
  labels_wf ls → from_str_loop (master_labels true ls) [] [] false =
    Ok (match ls with [] => [[]] | _ => labels_lower ls end).
Proof.
  intros [Hls _]. destruct ls as [|l ls]; [done|]. apply Forall_cons in Hls as [Hl Hls].
  cbn [master_labels app].
  rewrite from_str_master_label by (apply Hl || by apply label_nonempty).
  by rewrite from_str_master_labels.
Qed.

(** ** Lower case *)

Lemma label_lower_wf l : label_wf l → label_wf (map ascii_lower l).
Proof.
  intros [Hl Hb]. split; [by rewrite zlen_map|]. apply Forall_map.
  eapply Forall_impl; [done|]. intros b. apply ascii_lower_u8.
Qed.

Lemma labels_lower_wf ls : labels_wf ls → labels_wf (labels_lower ls).
Proof.
  intros [Hls Hz]. split.
  - apply Forall_map. eapply Forall_impl; [done|]. apply label_lower_wf.
  - rewrite (labels_lower_lengths (labels_lower ls) ls); [done|].
    unfold labels_lower. rewrite map_map. apply map_ext. intros l. rewrite map_map. apply map_ext.
    intros b. destruct (decide (65 ≤ b ≤ 90)) as [Hu|Hn].
    + rewrite (ascii_lower_upper b) by done. apply ascii_lower_other. lia.
    + by rewrite !(ascii_lower_other b) by lia.
Qed.

Lemma labels_wire_lower ls :
  Forall label_wf ls → labels_wire (labels_lower ls) = map ascii_lower (labels_wire ls).
Proof.
  intros Hls. rewrite lower_wire by done. unfold labels_wire, labels_key, labels_lower.
  f_equal. f_equal. rewrite map_map. apply map_ext. intros l. by rewrite zlen_map.
Qed.

Lemma to_lower_name_spec n : nwire (Name_to_ascii_lower_name n) = map ascii_lower (nwire n).
Proof.
  unfold Name_to_ascii_lower_name. destruct (existsb _ _) eqn:He; [done|]. simpl.
  induction (nwire n) as [|b w IH]; [done|]. cbn [existsb] in He.
  apply orb_false_elim in He as [Hb He]. cbn [map]. rewrite <-IH by done. f_equal.
  unfold ascii_lower. unfold is_ascii_uppercase in Hb. by rewrite Hb.
Qed.

Lemma Name_text_roundtrip n :
  Name_wf n → Name_from_str (Name_to_master_lower n) = Ok (Name_to_ascii_lower_name n).
Proof.
  intros Hn. destruct (Name_labels_of n Hn) as (ls & Hls & ->).
  unfold Name_to_master_lower. rewrite Name_labels_collect by done.
  unfold Name_from_str. rewrite from_str_master by done. cbn [obind].
  assert (Hlow : Name_to_ascii_lower_name {| nwire := labels_wire ls |} =
    {| nwire := labels_wire (labels_lower ls) |}).
  { rewrite labels_wire_lower by apply Hls.
    pose proof (to_lower_name_spec {| nwire := labels_wire ls |}) as H.
    destruct (Name_to_ascii_lower_name _). simpl in *. by subst. }
  rewrite Hlow. destruct ls as [|l ls]; [done|].
  pose proof (labels_lower_wf _ Hls) as Hls'.
  rewrite bool_decide_eq_false_2; [|intros [?|[= Hl _]]; [done|]].
  2:{ destruct Hls as [[Hl0 _]%Forall_cons _]. apply label_nonempty in Hl0.
      by apply Hl0, map_eq_nil with (f := ascii_lower). }
  replace (existsb _ _) with false; [by apply Name_from_labels_wf|].
  symmetry. apply not_true_is_false. intros (x & Hin & Hx)%existsb_exists. bool_prop.
  destruct Hls' as [Hf _]. rewrite Forall_forall in Hf. apply list_elem_of_In in Hin.
  destruct (Hf _ Hin). lia.
Qed.

(** ** Canonical keys *)

Lemma canonical_key_labels ls :
  labels_wf ls → Name_canonical_key {| nwire := labels_wire ls |} = labels_key ls.
Proof. intros Hls. unfold Name_canonical_key. by rewrite Name_labels_collect. Qed.

(** Equal keys, equal names up to case. *)
Lemma canonical_key_equiv n m :
  Name_wf n → Name_wf m → Name_canonical_key n = Name_canonical_key m ↔ name_equiv n m.
Proof.
  intros Hn Hm. destruct (Name_labels_of n Hn) as (ls & Hls & ->).
  destruct (Name_labels_of m Hm) as (ks & Hks & ->). rewrite !canonical_key_labels by done.
  rewrite <-labels_lower_equiv by (apply Hls || apply Hks). split.
  - apply labels_key_inj; [apply Hls|apply Hks].
  - apply labels_lower_key.
Qed.

(** The borrowing key functions agree with the allocating one. *)
Lemma canonical_key_into_key n out :
  Name_wf n → MAX_NAME_LEN ≤ zlen out →
  Name_canonical_key_into n out = Ok (Some (Name_canonical_key n)).
Proof.
  intros Hn Hout. destruct (Name_labels_of n Hn) as (ls & Hls & ->).
  by rewrite canonical_key_into_ok, canonical_key_labels.
Qed.

(** ** Suffixes *)

Lemma labels_lower_app ls ks : labels_lower (ls ++ ks) = labels_lower ls ++ labels_lower ks.
Proof. apply map_app. Qed.

Lemma ends_with_spec ls ks :
  labels_wf ls → labels_wf ks →
  ∃ b, Name_ends_with_ignore_case {| nwire := labels_wire ls |} {| nwire := labels_wire ks |} = Ok b ∧
    (b = true ↔ ∃ pre suf, ls = pre ++ suf ∧ labels_lower suf = labels_lower ks).
Proof.
  intros Hls Hks. unfold Name_ends_with_ignore_case. rewrite !Name_num_labels_wf by done.
  destruct (_ <? _) eqn:Hlt; bool_prop.
  { exists false. split; [done|]. split; [done|]. intros (pre & suf & -> & Heq).
    apply labels_lower_length in Heq. rewrite length_app in Hlt. lia. }
  set (k := Z.to_nat _).
  rewrite <-(take_drop k ls) in Hls |- *. set (pre := take k ls) in *. set (suf := drop k ls) in *.
  assert (Hlen : length suf = length ks) by (unfold suf, k; rewrite length_drop; lia).
  assert (Hk : k = length pre) by (unfold pre, k; rewrite length_take; lia).
  cbn [nwire]. rewrite Hk, skip_labels_wire, get_range_suffix.
  eexists. split; [done|]. unfold eq_ignore_ascii_case. rewrite bool_decide_eq_true.
  pose proof (labels_wf_suffix _ _ Hls) as Hsuf.
  rewrite !lower_wire by (apply Hsuf || apply Hks). split.
  - intros Heq. exists pre, suf. split; [done|]. by apply labels_key_inj; [apply Hsuf|apply Hks|].
  - intros (pre' & suf' & Heq & Hlow). apply labels_lower_key.
    assert (Hl : length suf' = length suf) by (apply labels_lower_length in Hlow; lia).
    apply app_inj_2 in Heq as [_ Heq]; [|lia]. by rewrite Heq.
Qed.

(** ** Concrete inputs *)

(** The check that a concrete name is well formed, by computation. *)
Definition Name_wfb (n : Name) : bool :=
  is_bytesb (nwire n) &&
  match Name_from_uncompressed_wire (nwire n) with Some m => bool_decide (m = n) | None => false end.

Lemma Name_wfb_ok n : Name_wfb n = true → Name_wf n.
Proof.
  unfold Name_wfb. intros [Hb%is_bytesb_ok Hn]%andb_prop.
  destruct (Name_from_uncompressed_wire (nwire n)) as [m|] eqn:Hm; [|done].
  apply bool_decide_eq_true in Hn as ->. by apply Name_from_uncompressed_wire_spec in Hm as [? _].
Qed.

Ltac wf_name := apply Name_wfb_ok; vm_compute; reflexivity.
Ltac in_range := match goal with
  | |- is_u8 _ => vm_compute; split; discriminate
  | |- is_u16 _ => vm_compute; split; discriminate
  | |- is_u32 _ => vm_compute; split; discriminate
  end.
