(* ===== verification/RData.v ===== *)
(** * Record data ([onetdns-proto/src/rdata.rs])

    Record types, the typed RDATA, its syntax checks, its parser and its
    encoder, and resource records. *)

From S2P Require Import Prelude NameTable Wire Writer Name Codec NameCodec.

#[local] Open Scope writer_scope.

(** ** [RecordType] and [DnsClass]: newtypes over [u16] *)

Definition TYPE_A : Z := 1.
Definition TYPE_NS : Z := 2.
Definition TYPE_CNAME : Z := 5.
Definition TYPE_SOA : Z := 6.
Definition TYPE_PTR : Z := 12.
Definition TYPE_MX : Z := 15.
Definition TYPE_TXT : Z := 16.
Definition TYPE_AAAA : Z := 28.
Definition TYPE_SRV : Z := 33.
Definition TYPE_NAPTR : Z := 35.
Definition TYPE_DNAME : Z := 39.
Definition TYPE_OPT : Z := 41.
Definition TYPE_SSHFP : Z := 44.
Definition TYPE_RRSIG : Z := 46.
Definition TYPE_TLSA : Z := 52.
Definition TYPE_SVCB : Z := 64.
Definition TYPE_HTTPS : Z := 65.
Definition TYPE_URI : Z := 256.
Definition TYPE_CAA : Z := 257.

Definition CLASS_IN : Z := 1.

(** ** Data *)

(** [struct Soa]. *)
Record Soa := mkSoa {
  mname : Name; rname : Name;
  serial : Z; refresh : Z; retry : Z; expire : Z; minimum : Z;
}.

(** [struct Naptr]. *)
Record Naptr := mkNaptr {
  naptr_order : Z; naptr_preference : Z;
  naptr_flags : list Z; naptr_services : list Z; naptr_regexp : list Z;
  naptr_replacement : Name;
}.

(** [enum RData].  IP addresses are their octets. *)
Inductive RData :=
  | RD_A (ip : list Z)
  | RD_Aaaa (ip : list Z)
  | RD_Ns (n : Name)
  | RD_Cname (n : Name)
  | RD_Dname (n : Name)
  | RD_Ptr (n : Name)
  | RD_Mx (preference : Z) (exchange : Name)
  | RD_Txt (chunks : list (list Z))
  | RD_Soa (s : Soa)
  | RD_Srv (priority weight port : Z) (target : Name)
  | RD_Caa (flags : Z) (tag value : list Z)
  | RD_Tlsa (usage selector matching : Z) (data : list Z)
  | RD_Sshfp (algorithm fp_type : Z) (fingerprint : list Z)
  | RD_Naptr (n : Naptr)
  | RD_Uri (priority weight : Z) (target : list Z)
  | RD_Svcb (priority : Z) (target : Name) (params : list (Z * list Z))
  | RD_Https (priority : Z) (target : Name) (params : list (Z * list Z))
  | RD_Unknown (t : Z) (bytes : list Z).

#[export] Instance Soa_eq_dec : EqDecision Soa.
Proof. solve_decision. Defined.
#[export] Instance Naptr_eq_dec : EqDecision Naptr.
Proof. solve_decision. Defined.
#[export] Instance RData_eq_dec : EqDecision RData.
Proof. solve_decision. Defined.

(** [RData::record_type]. *)
Definition RData_record_type (d : RData) : Z :=
  match d with
  | RD_A _ => TYPE_A
  | RD_Aaaa _ => TYPE_AAAA
  | RD_Ns _ => TYPE_NS
  | RD_Cname _ => TYPE_CNAME
  | RD_Dname _ => TYPE_DNAME
  | RD_Ptr _ => TYPE_PTR
  | RD_Mx _ _ => TYPE_MX
  | RD_Txt _ => TYPE_TXT
  | RD_Soa _ => TYPE_SOA
  | RD_Srv _ _ _ _ => TYPE_SRV
  | RD_Caa _ _ _ => TYPE_CAA
  | RD_Tlsa _ _ _ _ => TYPE_TLSA
  | RD_Sshfp _ _ _ => TYPE_SSHFP
  | RD_Naptr _ => TYPE_NAPTR
  | RD_Uri _ _ _ => TYPE_URI
  | RD_Svcb _ _ _ => TYPE_SVCB
  | RD_Https _ _ _ => TYPE_HTTPS
  | RD_Unknown t _ => t
  end.

(** [is_unsupported_name_bearing]. *)
Definition is_unsupported_name_bearing (rtype : Z) : bool :=
  bool_decide (rtype ∈ [3; 4; 7; 8; 9; 14; 17; 18; 21; 23; 26; 30; 36]).

(** ** SVCB parameters *)

(** [params.windows(2).any(|pair| pair[0].0 >= pair[1].0)]. *)
Fixpoint svcb_unordered (params : list (Z * list Z)) : bool :=
  match params with
  | (k1, _) :: ((k2, _) :: _) as rest => (k2 <=? k1) || svcb_unordered rest
  | _ => false
  end.

(** [has]: the binary search of a list whose keys were checked to be strictly
    ascending is a membership test. *)
Definition svcb_has (params : list (Z * list Z)) (key : Z) : bool :=
  existsb (λ p, fst p =? key) params.

(** The loop over [value.chunks_exact(2)] of the mandatory list. *)
Fixpoint svcb_mandatory (params : list (Z * list Z)) (value : list Z) (previous : option Z) : bool :=
  match value with
  | a :: b :: rest =>
      let listed := u16_from_be a b in
      if (listed =? 0)
         || match previous with Some p => listed <=? p | None => false end
         || negb (svcb_has params listed)
      then false
      else svcb_mandatory params rest (Some listed)
  | _ => true
  end.

(** The loop over the alpn value: the final position, [None] on a bad length. *)
Fixpoint svcb_alpn (fuel : nat) (value : list Z) (position : Z) : outcome ProtoError (option Z) :=
  match fuel with
  | O => NoFuel
  | S fuel =>
      if position <? zlen value then
        match get value position with
        | None => Panic
        | Some len =>
            let position := position + 1 in
            if (len =? 0) || (zlen value <? saturating_add position len) then Ok None
            else svcb_alpn fuel value (position + len)
        end
      else Ok (Some position)
  end.

(** One parameter of the loop of [validate_svcb_params]. *)
Definition validate_svcb_param (params : list (Z * list Z)) (key : Z) (value : list Z) :
    outcome ProtoError unit :=
  if key =? 0 then
    if (zlen value =? 0) || negb (zlen value mod 2 =? 0)
    then Err (ErrMessage "SVCB mandatory 값은 비어 있지 않은 u16 key 목록이어야 함")
    else if svcb_mandatory params value None then Ok tt
    else Err (ErrMessage "SVCB mandatory key 목록이 자기일관적이지 않음")
  else if key =? 1 then
    obind (svcb_alpn (S (length value)) value 0) (λ position,
      match position with
      | None => Err (ErrMessage "SVCB alpn 값의 길이 표기가 올바르지 않습니다")
      | Some position =>
          if position =? 0 then Err (ErrMessage "SVCB alpn 값이 비어 있습니다") else Ok tt
      end)
  else if (key =? 2) && (negb (zlen value =? 0) || negb (svcb_has params 1)) then
    Err (ErrMessage "SVCB no-default-alpn 값은 비어 있어야 하며 alpn 항목이 함께 있어야 합니다")
  else if (key =? 3) && negb (zlen value =? 2) then
    Err (ErrMessage "SVCB port 값은 정확히 2바이트여야 함")
  else if (key =? 4) && ((zlen value =? 0) || negb (zlen value mod 4 =? 0)) then
    Err (ErrMessage "SVCB ipv4hint 값의 길이가 올바르지 않습니다")
  else if (key =? 6) && ((zlen value =? 0) || negb (zlen value mod 16 =? 0)) then
    Err (ErrMessage "SVCB ipv6hint 값의 길이가 올바르지 않습니다")
  else Ok tt.

Fixpoint validate_svcb_loop (params : list (Z * list Z)) (rest : list (Z * list Z)) :
    outcome ProtoError unit :=
  match rest with
  | [] => Ok tt
  | (key, value) :: rest =>
      obind (validate_svcb_param params key value) (λ _, validate_svcb_loop params rest)
  end.

(** [validate_svcb_params]. *)
Definition validate_svcb_params (priority : Z) (params : list (Z * list Z)) :
    outcome ProtoError unit :=
  if svcb_unordered params
  then Err (ErrMessage "SVCB parameter key가 엄격한 오름차순이 아닙니다")
  else if match last params with Some (key, _) => key =? U16_MAX | None => false end
  then Err (ErrMessage "SVCB 매개변수 키 65535는 사용할 수 없습니다")
  else if priority =? 0 then Ok tt
  else validate_svcb_loop params params.

(** [RData::validate]. *)
Definition RData_validate (d : RData) : outcome ProtoError unit :=
  match d with
  | RD_Svcb priority _ params | RD_Https priority _ params =>
      validate_svcb_params priority params
  | _ => Ok tt
  end.

(** ** Parsing *)

(** [read_char_string]. *)
Definition read_char_string : Parser (list Z) :=
  let! n := Reader_u8 in
  Reader_bytes n.

(** The TXT loop: character strings up to [end_]. *)
Fixpoint txt_loop (fuel : nat) (end_ : Z) (chunks : list (list Z)) : Parser (list (list Z)) :=
  λ r,
  match fuel with
  | O => (NoFuel, r)
  | S fuel =>
      if rpos r <? end_ then
        (let! n := Reader_u8 in
         let! c := Reader_bytes n in
         txt_loop fuel end_ (chunks ++ [c])) r
      else (Ok chunks, r)
  end.

(** The SVCB parameter loop. *)
Fixpoint svcb_loop (fuel : nat) (end_ : Z) (params : list (Z * list Z)) :
    Parser (list (Z * list Z)) :=
  λ r,
  match fuel with
  | O => (NoFuel, r)
  | S fuel =>
      if rpos r <? end_ then
        (let! key := Reader_u16 in
         let! plen := Reader_u16 in
         let! value := Reader_bytes plen in
         svcb_loop fuel end_ (params ++ [(key, value)])) r
      else (Ok params, r)
  end.

(** A validation inside a parser. *)
Definition pcheck (o : outcome ProtoError unit) : Parser unit := λ r, (o, r).

(** [RData::parse]. *)
Definition RData_parse (rtype rdlen : Z) : Parser RData :=
  if rtype =? TYPE_A then
    let! b := Reader_bytes 4 in
    pindex (match get b 0, get b 1, get b 2, get b 3 with
            | Some b0, Some b1, Some b2, Some b3 => Some (RD_A [b0; b1; b2; b3])
            | _, _, _, _ => None
            end)
  else if rtype =? TYPE_AAAA then
    let! b := Reader_bytes 16 in
    pindex (if zlen b =? 16 then Some (RD_Aaaa b) else None)
  else if rtype =? TYPE_NS then let! n := Name_parse in pret (RD_Ns n)
  else if rtype =? TYPE_CNAME then let! n := Name_parse in pret (RD_Cname n)
  else if rtype =? TYPE_DNAME then let! n := Name_parse in pret (RD_Dname n)
  else if rtype =? TYPE_PTR then let! n := Name_parse in pret (RD_Ptr n)
  else if rtype =? TYPE_MX then
    let! preference := Reader_u16 in
    let! exchange := Name_parse in
    pret (RD_Mx preference exchange)
  else if rtype =? TYPE_TXT then
    let! chunks := (λ r, txt_loop (S (Z.to_nat rdlen)) (rpos r + rdlen) [] r) in
    pret (RD_Txt chunks)
  else if rtype =? TYPE_SOA then
    let! m := Name_parse in
    let! n := Name_parse in
    let! s := Reader_u32 in
    let! rf := Reader_u32 in
    let! rt := Reader_u32 in
    let! ex := Reader_u32 in
    let! mi := Reader_u32 in
    pret (RD_Soa {| mname := m; rname := n; serial := s; refresh := rf; retry := rt;
                    expire := ex; minimum := mi |})
  else if rtype =? TYPE_SRV then
    let! priority := Reader_u16 in
    let! weight := Reader_u16 in
    let! port := Reader_u16 in
    let! target := Name_parse in
    pret (RD_Srv priority weight port target)
  else if rtype =? TYPE_CAA then
    let! flags := Reader_u8 in
    let! tag_len := Reader_u8 in
    let! tag := Reader_bytes tag_len in
    let! vlen := plift (checked_sub rdlen (2 + tag_len)) ErrEof in
    let! value := Reader_bytes vlen in
    pret (RD_Caa flags tag value)
  else if rtype =? TYPE_TLSA then
    let! usage := Reader_u8 in
    let! selector := Reader_u8 in
    let! matching := Reader_u8 in
    let! dlen := plift (checked_sub rdlen 3) ErrEof in
    let! data := Reader_bytes dlen in
    pret (RD_Tlsa usage selector matching data)
  else if rtype =? TYPE_SSHFP then
    let! algorithm := Reader_u8 in
    let! fp_type := Reader_u8 in
    let! flen := plift (checked_sub rdlen 2) ErrEof in
    let! fingerprint := Reader_bytes flen in
    pret (RD_Sshfp algorithm fp_type fingerprint)
  else if rtype =? TYPE_NAPTR then
    let! order := Reader_u16 in
    let! preference := Reader_u16 in
    let! flags := read_char_string in
    let! services := read_char_string in
    let! regexp := read_char_string in
    let! replacement := Name_parse in
    pret (RD_Naptr {| naptr_order := order; naptr_preference := preference;
                      naptr_flags := flags; naptr_services := services;
                      naptr_regexp := regexp; naptr_replacement := replacement |})
  else if rtype =? TYPE_URI then
    let! priority := Reader_u16 in
    let! weight := Reader_u16 in
    let! tlen := plift (checked_sub rdlen 4) ErrEof in
    let! target := Reader_bytes tlen in
    pret (RD_Uri priority weight target)
  else if (rtype =? TYPE_SVCB) || (rtype =? TYPE_HTTPS) then λ r,
    let end_ := rpos r + rdlen in
    (let! priority := Reader_u16 in
     let! target := Name_parse_uncompressed in
     let! params := svcb_loop (S (Z.to_nat rdlen)) end_ [] in
     let! _ := pcheck (validate_svcb_params priority params) in
     pret (if rtype =? TYPE_SVCB then RD_Svcb priority target params
           else RD_Https priority target params)) r
  else if is_unsupported_name_bearing rtype then
    pfail (ErrMessage ("압축 이름을 포함할 수 있는 지원하지 않는 RDATA 유형 " +:+ pretty rtype))
  else
    let! bytes := Reader_bytes rdlen in
    pret (RD_Unknown rtype bytes).

(** ** Encoding *)

(** [write_char_string]. *)
Definition write_char_string (s : list Z) : Writer → Writer :=
  match u8_try_from (zlen s) with
  | None => Writer_fail "DNS 문자 문자열이 255바이트를 넘었습니다"
  | Some n => Writer_push_u8 n ;> Writer_push_bytes s
  end.

(** The TXT loop of [RData::encode]. *)
Fixpoint encode_chunks (chunks : list (list Z)) : Writer → Writer :=
  match chunks with
  | [] => id
  | c :: chunks =>
      match u8_try_from (zlen c) with
      | None => Writer_fail "TXT 문자열 조각이 255바이트를 넘었습니다"
      | Some len => Writer_push_u8 len ;> Writer_push_bytes c ;> encode_chunks chunks
      end
  end.

(** The SVCB parameter loop of [RData::encode]. *)
Fixpoint encode_params (params : list (Z * list Z)) : Writer → Writer :=
  match params with
  | [] => id
  | (key, val) :: params =>
      Writer_push_u16 key ;>
      match u16_try_from (zlen val) with
      | None => Writer_fail "SVCB 매개변수가 65,535바이트를 넘었습니다"
      | Some len => Writer_push_u16 len ;> Writer_push_bytes val ;> encode_params params
      end
  end.

Definition encode_svcb (priority : Z) (target : Name) (params : list (Z * list Z)) :
    Writer → Writer :=
  match validate_svcb_params priority params with
  | Ok _ =>
      Writer_push_u16 priority ;> Name_encode_uncompressed target ;> encode_params params
  | Err error => Writer_fail (ProtoError_to_string error)
  | Panic | NoFuel => Writer_fail "unreachable"
  end.

(** [RData::encode]. *)
Definition RData_encode (d : RData) : Writer → Writer :=
  match d with
  | RD_A ip => Writer_push_bytes ip
  | RD_Aaaa ip => Writer_push_bytes ip
  | RD_Ns n | RD_Cname n | RD_Ptr n => Name_encode n
  | RD_Dname n => Name_encode_uncompressed n
  | RD_Mx preference exchange => Writer_push_u16 preference ;> Name_encode exchange
  | RD_Txt chunks => encode_chunks chunks
  | RD_Soa s =>
      Name_encode (mname s) ;> Name_encode (rname s) ;>
      Writer_push_u32 (serial s) ;> Writer_push_u32 (refresh s) ;>
      Writer_push_u32 (retry s) ;> Writer_push_u32 (expire s) ;>
      Writer_push_u32 (minimum s)
  | RD_Srv priority weight port target =>
      Writer_push_u16 priority ;> Writer_push_u16 weight ;> Writer_push_u16 port ;>
      Name_encode_uncompressed target
  | RD_Caa flags tag value =>
      Writer_push_u8 flags ;>
      match u8_try_from (zlen tag) with
      | None => Writer_fail "CAA 태그가 255바이트를 넘었습니다"
      | Some tag_len => Writer_push_u8 tag_len ;> Writer_push_bytes tag ;> Writer_push_bytes value
      end
  | RD_Tlsa usage selector matching data =>
      Writer_push_u8 usage ;> Writer_push_u8 selector ;> Writer_push_u8 matching ;>
      Writer_push_bytes data
  | RD_Sshfp algorithm fp_type fingerprint =>
      Writer_push_u8 algorithm ;> Writer_push_u8 fp_type ;> Writer_push_bytes fingerprint
  | RD_Naptr n =>
      Writer_push_u16 (naptr_order n) ;> Writer_push_u16 (naptr_preference n) ;>
      write_char_string (naptr_flags n) ;> write_char_string (naptr_services n) ;>
      write_char_string (naptr_regexp n) ;> Name_encode_uncompressed (naptr_replacement n)
  | RD_Uri priority weight target =>
      Writer_push_u16 priority ;> Writer_push_u16 weight ;> Writer_push_bytes target
  | RD_Svcb priority target params | RD_Https priority target params =>
      encode_svcb priority target params
  | RD_Unknown _ bytes => Writer_push_bytes bytes
  end.

(** ** [struct Record] *)

Record Record_ := mkRecord {
  name : Name;
  rtype : Z;
  class : Z;
  ttl : Z;
  rdata : RData;
}.

#[export] Instance Record_eq_dec : EqDecision Record_.
Proof. solve_decision. Defined.

(** [Record::new]. *)
Definition Record_new (n : Name) (t : Z) (d : RData) : Record_ :=
  {| name := n; rtype := RData_record_type d; class := CLASS_IN; ttl := t; rdata := d |}.

(** The body of [Record::parse_inner] between narrowing and restoring the
    limit: the parsed RDATA and the cursor. *)
Definition parse_rdata_within (empty_classes : option (list Z)) (t c rdlen end_ : Z) :
    Parser RData := λ r,
  let previous_limit := rlimit r in
  let (parsed, r') :=
    (if (rdlen =? 0) &&
        match empty_classes with Some cs => bool_decide (c ∈ cs) | None => false end
     then pret (RD_Unknown t [])
     else RData_parse t rdlen) (set_rlimit end_ r) in
  (parsed, set_rlimit previous_limit r').

(** [Record::parse_inner]. *)
Definition Record_parse_inner (empty_classes : option (list Z)) : Parser Record_ :=
  let! n := Name_parse in
  let! t := Reader_u16 in
  let! c := Reader_u16 in
  let! tl := Reader_u32 in
  let! rdlen := Reader_u16 in
  λ r,
  let start := rpos r in
  match checked_add start rdlen with
  | None => (Err ErrEof, r)
  | Some end_ =>
      if rlimit r <? end_ then (Err ErrEof, r)
      else
        (let! d := parse_rdata_within empty_classes t c rdlen end_ in
         λ r, if negb (rpos r =? end_)
              then (Err (ErrName "RDATA 길이가 일치하지 않습니다"), r)
              else (Ok {| name := n; rtype := t; class := c; ttl := tl; rdata := d |}, r)) r
  end.

(** [Record::parse], [parse_update_empty] and [parse_update_operation]. *)
Definition Record_parse : Parser Record_ := Record_parse_inner None.
Definition Record_parse_update_empty : Parser Record_ := Record_parse_inner (Some [254; 255]).
Definition Record_parse_update_operation : Parser Record_ := Record_parse_inner (Some [255]).

(** [Record::encode_with_ttl]. *)
Definition Record_encode_with_ttl (rec : Record_) (t : Z) : Writer → Writer :=
  Name_encode (name rec) ;> Writer_push_u16 (rtype rec) ;> Writer_push_u16 (class rec) ;>
  Writer_push_u32 t ;>
  (λ w, let (at_, w) := Writer_placeholder_u16 w in
        Writer_backpatch_len at_ (RData_encode (rdata rec) w)).

(** [Record::encode]. *)
Definition Record_encode (rec : Record_) : Writer → Writer :=
  Record_encode_with_ttl rec (ttl rec).

(** ** Safety of the parser *)

(** The ranges of the fields, as their Rust types and [Name]'s invariant give
    them. *)
Definition rdata_wf (d : RData) : Prop :=
  match d with
  | RD_A ip => zlen ip = 4 ∧ is_bytes ip
  | RD_Aaaa ip => zlen ip = 16 ∧ is_bytes ip
  | RD_Ns n | RD_Cname n | RD_Dname n | RD_Ptr n => Name_wf n
  | RD_Mx p n => is_u16 p ∧ Name_wf n
  | RD_Txt cs => Forall is_bytes cs
  | RD_Soa s => Name_wf (mname s) ∧ Name_wf (rname s) ∧ is_u32 (serial s) ∧
      is_u32 (refresh s) ∧ is_u32 (retry s) ∧ is_u32 (expire s) ∧ is_u32 (minimum s)
  | RD_Srv p w q n => is_u16 p ∧ is_u16 w ∧ is_u16 q ∧ Name_wf n
  | RD_Caa f t v => is_u8 f ∧ is_bytes t ∧ is_bytes v
  | RD_Tlsa u s m dt => is_u8 u ∧ is_u8 s ∧ is_u8 m ∧ is_bytes dt
  | RD_Sshfp a t f => is_u8 a ∧ is_u8 t ∧ is_bytes f
  | RD_Naptr n => is_u16 (naptr_order n) ∧ is_u16 (naptr_preference n) ∧
      is_bytes (naptr_flags n) ∧ is_bytes (naptr_services n) ∧
      is_bytes (naptr_regexp n) ∧ Name_wf (naptr_replacement n)
  | RD_Uri p w t => is_u16 p ∧ is_u16 w ∧ is_bytes t
  | RD_Svcb p n ps | RD_Https p n ps => is_u16 p ∧ Name_wf n ∧
      Forall (λ kv, is_u16 (fst kv) ∧ is_bytes (snd kv)) ps
  | RD_Unknown t b => is_bytes b
  end.

Lemma svcb_alpn_total fuel value position :
  is_bytes value → 0 ≤ position → (Z.to_nat (zlen value - position) < fuel)%nat →
  ∃ o, svcb_alpn fuel value position = Ok o.
Proof.
  intros Hb. revert position. induction fuel as [|fuel IH]; intros p Hp Hf; [lia|]. simpl.
  destruct (p <? zlen value) eqn:Hlt; bool_prop; [|by eexists].
  destruct (get_is_Some value p) as [len Hlen]; [lia|]. rewrite Hlen.
  pose proof (Forall_get _ _ _ _ Hb Hlen) as Hu. unfold is_u8 in Hu.
  case_match; [by eexists|]. bool_prop. apply IH; lia.
Qed.

(** The syntax check returns. *)
Lemma validate_svcb_params_returns priority params :
  Forall (λ kv, is_u16 (fst kv) ∧ is_bytes (snd kv)) params →
  returns (validate_svcb_params priority params).
Proof.
  intros Hps. unfold validate_svcb_params.
  destruct (svcb_unordered params); [done|].
  destruct (match last params with Some _ => _ | None => _ end); [done|].
  destruct (priority =? 0); [done|].
  generalize params at 1. induction Hps as [|[k v] rest [_ Hv] _ IH]; intros ps; [done|].
  cbn [validate_svcb_loop fst snd] in *.
  assert (Hone : returns (validate_svcb_param ps k v)).
  { unfold validate_svcb_param.
    destruct (k =? 0); [by repeat case_match|]. destruct (k =? 1); [|by repeat case_match].
    destruct (svcb_alpn_total (S (length v)) v 0) as [o ->]; [done|lia|unfold zlen; lia|].
    simpl. by repeat case_match. }
  destruct (validate_svcb_param ps k v); try done. apply IH.
Qed.

Lemma txt_loop_safe fuel end_ chunks r :
  Reader_wf r → Forall is_bytes chunks → (Z.to_nat (end_ - rpos r) < fuel)%nat →
  safe_at r (txt_loop fuel end_ chunks) (Forall is_bytes).
Proof.
  revert chunks r. induction fuel as [|fuel IH]; intros chunks r Hr Hc Hf; [lia|].
  unfold safe_at. cbn [txt_loop]. destruct (rpos r <? end_) eqn:Hlt; bool_prop.
  - eapply safe_at_bind; [by apply Reader_u8_safe|]. intros n r1 Hn Hu Hr1 _ _ _.
    unfold Reader_u8 in Hn. repeat case_match; simplify_eq.
    eapply safe_at_bind; [apply Reader_bytes_safe; [unfold is_u8 in Hu; lia|done]|].
    intros c r2 _ [_ Hcb] Hr2 _ _ Hp2. simpl in Hp2.
    apply IH; [done| |lia]. by apply Forall_app_2, Forall_singleton.
  - eexists _, _. by split_and!.
Qed.

Lemma svcb_loop_safe fuel end_ params r :
  Reader_wf r → Forall (λ kv, is_u16 (fst kv) ∧ is_bytes (snd kv)) params →
  (Z.to_nat (end_ - rpos r) < fuel)%nat →
  safe_at r (svcb_loop fuel end_ params) (Forall (λ kv, is_u16 (fst kv) ∧ is_bytes (snd kv))).
Proof.
  revert params r. induction fuel as [|fuel IH]; intros ps r Hr Hps Hf; [lia|].
  unfold safe_at. cbn [svcb_loop]. destruct (rpos r <? end_) eqn:Hlt; bool_prop.
  - eapply safe_at_bind; [by apply Reader_u16_safe|]. intros k r1 Hk Huk Hr1 _ _ _.
    assert (Hadv : rpos r < rpos r1).
    { unfold Reader_u16, pbind, Reader_u8, pret in Hk. repeat case_match; simplify_eq; simpl; lia. }
    eapply safe_at_bind; [by apply Reader_u16_safe|]. intros n r2 _ Hu Hr2 _ _ Hp2.
    eapply safe_at_bind; [apply Reader_bytes_safe; [unfold is_u16 in Hu; lia|done]|].
    intros v r3 _ [_ Hv] Hr3 _ _ Hp3. apply IH; [done| |lia].
    by apply Forall_app_2, Forall_singleton.
  - eexists _, _. by split_and!.
Qed.

Lemma safe_pcheck o : returns o → safe (pcheck o) (λ _, o = Ok tt).
Proof.
  intros Ho r Hr. unfold safe_at, pcheck. eexists _, _. split; [done|]. split_and!; try done.
  by destruct o as [[]| | |].
Qed.

Lemma read_char_string_safe : safe read_char_string is_bytes.
Proof.
  safe_step. eapply safe_weaken; [apply Reader_bytes_safe; unfold is_u8 in *; lia|].
  by intros ? [_ ?].
Qed.
#[export] Hint Resolve read_char_string_safe : safe.

Lemma zlen_4 {A} (b : list A) : zlen b = 4 → ∃ x y z w, b = [x; y; z; w].
Proof.
  unfold zlen. intros H. destruct b as [|x [|y [|z [|w [|v b]]]]]; simpl in H; try lia.
  by eexists _, _, _, _.
Qed.

(** A length computed from RDLENGTH: nonnegative when it exists. *)
Lemma safe_checked_sub a b : safe (plift (checked_sub a b) ErrEof) (λ n, 0 ≤ n).
Proof. apply safe_plift. unfold checked_sub. intros n Hn. case_match; simplify_eq. bool_prop. lia. Qed.
#[export] Hint Resolve safe_checked_sub : safe.

Ltac safe_bytes :=
  eapply safe_bind; [apply Reader_bytes_safe; unfold is_u8, is_u16 in *; lia|intros ? [? ?]].
Ltac safe_end := apply safe_ret; split; [by apply symmetry, Z.eqb_eq|]; simpl; split_and?; by auto.

Lemma RData_parse_safe t n :
  0 ≤ n → safe (RData_parse t n) (λ d, RData_record_type d = t ∧ rdata_wf d).
Proof.
  intros Hn. unfold RData_parse.
  destruct (t =? TYPE_A) eqn:?.
  { safe_bytes. destruct (zlen_4 a) as (x & y & z & w & ->); [done|].
    apply safe_pindex. split; [by apply symmetry, Z.eqb_eq|done]. }
  destruct (t =? TYPE_AAAA) eqn:?.
  { safe_bytes. rewrite (proj2 (Z.eqb_eq _ _)) by done.
    apply safe_pindex. split; [by apply symmetry, Z.eqb_eq|done]. }
  destruct (t =? TYPE_NS) eqn:?; [safe_step; safe_end|].
  destruct (t =? TYPE_CNAME) eqn:?; [safe_step; safe_end|].
  destruct (t =? TYPE_DNAME) eqn:?; [safe_step; safe_end|].
  destruct (t =? TYPE_PTR) eqn:?; [safe_step; safe_end|].
  destruct (t =? TYPE_MX) eqn:?; [do 2 safe_step; safe_end|].
  destruct (t =? TYPE_TXT) eqn:?.
  { eapply safe_bind; [intros r Hr; apply (txt_loop_safe _ (rpos r + n)); [done|done|lia]|].
    intros cs Hcs. safe_end. }
  destruct (t =? TYPE_SOA) eqn:?; [do 7 safe_step; safe_end|].
  destruct (t =? TYPE_SRV) eqn:?; [do 4 safe_step; safe_end|].
  destruct (t =? TYPE_CAA) eqn:?; [do 2 safe_step; safe_bytes; safe_step; safe_bytes; safe_end|].
  destruct (t =? TYPE_TLSA) eqn:?; [do 4 safe_step; safe_bytes; safe_end|].
  destruct (t =? TYPE_SSHFP) eqn:?; [do 3 safe_step; safe_bytes; safe_end|].
  destruct (t =? TYPE_NAPTR) eqn:?; [do 6 safe_step; safe_end|].
  destruct (t =? TYPE_URI) eqn:?; [do 3 safe_step; safe_bytes; safe_end|].
  destruct (_ || _) eqn:Hsvcb.
  { intros r Hr. eapply safe_at_bind; [by apply Reader_u16_safe|]. intros p r1 _ Hp Hr1 _ _ Hp1.
    eapply safe_at_bind; [by apply Name_parse_uncompressed_safe|]. intros nm r2 _ Hnm Hr2 _ _ Hp2.
    assert (Hfuel : (Z.to_nat (rpos r + n - rpos r2) < S (Z.to_nat n))%nat) by (clear - Hp1 Hp2 Hn; lia).
    eapply safe_at_bind; [by apply svcb_loop_safe|]. intros ps r3 _ Hps Hr3 _ _ Hp3.
    eapply safe_at_bind; [apply safe_pcheck; [by apply validate_svcb_params_returns|done]|].
    intros [] r4 _ _ Hr4 _ _ _. apply safe_ret; [|done].
    apply orb_prop in Hsvcb. destruct (t =? TYPE_SVCB) eqn:Hs; bool_prop; [by subst t|].
    destruct Hsvcb as [?|Hs']; [done|]. apply Z.eqb_eq in Hs'. by subst t. }
  destruct (is_unsupported_name_bearing t); [apply safe_fail|].
  safe_bytes. by apply safe_ret.
Qed.

Lemma parse_rdata_within_safe cs t c n e r :
  0 ≤ n → Reader_wf r → rpos r ≤ e ≤ rlimit r →
  safe_at r (parse_rdata_within cs t c n e) (λ d, RData_record_type d = t ∧ rdata_wf d).
Proof.
  intros Hn Hr He. pose proof Hr as [Hp Hl Hm Hb]. unfold safe_at, parse_rdata_within.
  assert (Hw : safe_at (set_rlimit e r)
    (if (n =? 0) && match cs with Some cs => bool_decide (c ∈ cs) | None => false end
     then pret (RD_Unknown t []) else RData_parse t n)
    (λ d, RData_record_type d = t ∧ rdata_wf d)).
  { assert (Hr' : Reader_wf (set_rlimit e r)) by (constructor; simpl; done || lia).
    destruct (_ && _); [apply safe_ret; [split; [done|constructor]|done]|]. by apply RData_parse_safe. }
  destruct Hw as (o & r' & -> & Hb' & Hl' & [] & Hp' & Ho). simpl in *.
  eexists o, _. split; [done|]. simpl. split_and!; try done.
  constructor; simpl; rewrite ?Hb'; try done; lia.
Qed.

Definition record_wf (rec : Record_) : Prop :=
  Name_wf (name rec) ∧ is_u16 (rtype rec) ∧ is_u16 (class rec) ∧ is_u32 (ttl rec) ∧
  rdata_wf (rdata rec).

(** A parsed record: its RDATA has the declared type, and the cursor stops
    exactly at the declared end. *)
Lemma Record_parse_inner_safe cs :
  safe (Record_parse_inner cs)
    (λ rec, record_wf rec ∧ RData_record_type (rdata rec) = rtype rec).
Proof.
  unfold Record_parse_inner. do 5 safe_step. rename a3 into n, H3 into Hn. unfold is_u16 in Hn.
  intros r Hr. pose proof Hr as [Hp Hl Hm Hb]. unfold safe_at, checked_add. cbv beta zeta.
  destruct (rpos r + n <=? USIZE_MAX); [|exact (safe_fail ErrEof _ r Hr)].
  destruct (rlimit r <? rpos r + n) eqn:Hlim; bool_prop; [exact (safe_fail ErrEof _ r Hr)|].
  eapply safe_at_bind; [apply parse_rdata_within_safe; [lia|done|lia]|].
  intros d r' _ [Ht Hd] Hr' Hb' Hl' Hp'. unfold safe_at. cbv beta.
  destruct (negb _); [exact (safe_fail _ _ r' Hr')|].
  refine (safe_ret {| name := a; rtype := a0; class := a1; ttl := a2; rdata := d |} _ _ r' Hr').
  by split.
Qed.

Lemma Record_parse_safe :
  safe Record_parse (λ rec, record_wf rec ∧ RData_record_type (rdata rec) = rtype rec).
Proof. apply Record_parse_inner_safe. Qed.
#[export] Hint Resolve Record_parse_inner_safe Record_parse_safe : safe.
