(* ===== verification/RDataCodec.v ===== *)
(** * RDATA and records are read back ([onetdns-proto/src/rdata.rs])

    The codec theorems of [RData::encode]/[RData::parse] and of
    [Record::encode_with_ttl]/[Record::parse_inner], with the length slot that
    is patched after the RDATA. *)

From S2P Require Import Prelude NameTable Wire Writer Name Codec NameCodec RData.

#[local] Open Scope writer_scope.

(** ** Which RDATA survives *)

(** The types [RData::parse] interprets or refuses: their RDATA is not kept as
    [Unknown]. *)
Definition is_typed (t : Z) : bool :=
  bool_decide (t ∈ [TYPE_A; TYPE_AAAA; TYPE_NS; TYPE_CNAME; TYPE_DNAME; TYPE_PTR; TYPE_MX;
    TYPE_TXT; TYPE_SOA; TYPE_SRV; TYPE_CAA; TYPE_TLSA; TYPE_SSHFP; TYPE_NAPTR; TYPE_URI;
    TYPE_SVCB; TYPE_HTTPS]) || is_unsupported_name_bearing t.

Definition rdata_regular (d : RData) : Prop :=
  match d with RD_Unknown t _ => is_typed t = false | _ => True end.

(** A name the encoder may compress: few enough labels for the parser. *)
Definition short_name (n : Name) : Prop := Name_wf n ∧ Name_num_labels n ≤ MAX_JUMPS.

Definition rdata_short (d : RData) : Prop :=
  match d with
  | RD_Ns n | RD_Cname n | RD_Ptr n | RD_Mx _ n => short_name n
  | RD_Soa s => short_name (mname s) ∧ short_name (rname s)
  | _ => True
  end.

(** Equality up to the case of the names that may be compressed. *)
Definition rdata_equiv (a b : RData) : Prop :=
  match a, b with
  | RD_Ns n, RD_Ns m | RD_Cname n, RD_Cname m | RD_Ptr n, RD_Ptr m => name_equiv n m
  | RD_Mx p n, RD_Mx q m => p = q ∧ name_equiv n m
  | RD_Soa s, RD_Soa t =>
      name_equiv (mname s) (mname t) ∧ name_equiv (rname s) (rname t) ∧
      serial s = serial t ∧ refresh s = refresh t ∧ retry s = retry t ∧
      expire s = expire t ∧ minimum s = minimum t
  | _, _ => a = b
  end.

Lemma encodes_short_name n :
  short_name n → encodes (Name_encode n) Name_parse (λ m, Name_wf m ∧ name_equiv m n).
Proof. intros [? ?]. by apply encodes_Name. Qed.
#[export] Hint Resolve encodes_short_name encodes_Name_uncompressed
  encodes_Name_uncompressed_parse : codec.

(** One name field. *)
Ltac codec_name :=
  eapply encodes_bind; [solve [eauto 20 with sticky]|by apply encodes_short_name|intros ? [? ?]].

(** ** Sticky encoders *)

Lemma sticky_encode_chunks cs : sticky (encode_chunks cs).
Proof. induction cs; cbn [encode_chunks]; [apply sticky_id|]. case_match; auto 10 with sticky. Qed.

Lemma sticky_encode_params ps : sticky (encode_params ps).
Proof.
  induction ps as [|[k v] ps IH]; cbn [encode_params]; [apply sticky_id|].
  apply sticky_wseq; [auto with sticky|]. case_match; auto 10 with sticky.
Qed.

Lemma sticky_write_char_string s : sticky (write_char_string s).
Proof. unfold write_char_string. case_match; auto with sticky. Qed.
#[export] Hint Resolve sticky_encode_chunks sticky_encode_params sticky_write_char_string : sticky.

Lemma sticky_encode_svcb p n ps : sticky (encode_svcb p n ps).
Proof. unfold encode_svcb. case_match; auto 10 with sticky. Qed.
#[export] Hint Resolve sticky_encode_svcb : sticky.

Lemma sticky_RData_encode d : sticky (RData_encode d).
Proof.
  destruct d; cbn [RData_encode]; auto 20 with sticky.
  apply sticky_wseq; [auto with sticky|]. case_match; auto with sticky.
Qed.
#[export] Hint Resolve sticky_RData_encode : sticky.

(** ** Parts *)

(** An encoder that always fails agrees with anything. *)
Lemma encodes_fails {A} m (d : Parser A) Q : encodes (Writer_fail m) d Q.
Proof. intros hole w Hw Hf. by rewrite Writer_fail_failed in Hf. Qed.

Lemma encodes_bind_fails {A} e m (d : Parser A) Q : encodes (e ;> Writer_fail m) d Q.
Proof. intros hole w Hw Hf. unfold wseq in Hf. by rewrite Writer_fail_failed in Hf. Qed.

Lemma encodes_char_string s :
  is_bytes s → encodes (write_char_string s) read_char_string (eq s).
Proof.
  intros Hs. unfold write_char_string, read_char_string, u8_try_from.
  destruct (_ <=? U8_MAX) eqn:Hl; bool_prop; [|apply encodes_fails].
  eapply encodes_bind; [auto with sticky| |].
  - apply encodes_u8. unfold is_u8. pose proof (zlen_nonneg s). lia.
  - intros n <-. by apply encodes_bytes.
Qed.
#[export] Hint Resolve encodes_char_string : codec.

Lemma grows_encode_chunks cs : grows (zlen cs) (encode_chunks cs).
Proof.
  induction cs as [|c cs IH]; cbn [encode_chunks]; [intros w _; rewrite zlen_nil; simpl; lia|].
  case_match; [|apply grows_fails]. rewrite zlen_cons.
  apply (grows_seq 1 (zlen cs)); [auto with sticky|by apply grows_append| |lia].
  apply (grows_seq 0 (zlen cs)); [auto with sticky|by apply grows_zero|done|done].
Qed.

Lemma grows_encode_params ps : grows (zlen ps) (encode_params ps).
Proof.
  induction ps as [|[k v] ps IH]; cbn [encode_params]; [intros w _; rewrite zlen_nil; simpl; lia|].
  rewrite zlen_cons. pose proof (zlen_nonneg ps).
  apply (grows_seq 2 (zlen ps)); [case_match; auto 10 with sticky|by apply grows_append| |lia].
  case_match; [|apply grows_fails].
  apply (grows_seq 0 (zlen ps)); [auto with sticky|by apply grows_zero| |done].
  by apply (grows_seq 0 (zlen ps)); [auto with sticky|apply grows_zero|..].
Qed.

(** The fuel of a parsing loop may grow. *)
Lemma encodes_chunks hole cs : ∀ fuel acc, (length cs < fuel)%nat → Forall is_bytes cs →
  encodes_to hole (encode_chunks cs) (λ e, txt_loop fuel e acc) (eq (acc ++ cs)).
Proof.
  induction cs as [|c cs IH]; intros fuel acc Hf Hcs;
    (destruct fuel as [|fuel]; [simpl in Hf; lia|]); cbn [encode_chunks].
  - rewrite app_nil_r. apply (encodes_to_end _ _ acc); [|done]. intros r Hr. simpl.
    by rewrite (proj2 (Z.ltb_ge _ _)) by lia.
  - apply Forall_cons in Hcs as [Hc Hcs]. unfold u8_try_from.
    destruct (_ <=? U8_MAX) eqn:Hl; bool_prop; [|by intros ? ? Hw; rewrite Writer_fail_failed in Hw].
    pose proof (zlen_nonneg c).
    change (Writer_push_u8 (zlen c) ;> Writer_push_bytes c ;> encode_chunks cs)
      with ((Writer_push_u8 (zlen c) ;> Writer_push_bytes c) ;> encode_chunks cs).
    eapply (encodes_to_open _ 1);
      [|apply (encodes_to_seq _ _ _ (let! n := Reader_u8 in Reader_bytes n)
                (λ c e, txt_loop fuel e (acc ++ [c])) (eq c))|].
    + apply (grows_seq 1 (zlen cs)); [auto with sticky| |apply grows_encode_chunks|pose proof (zlen_nonneg cs); lia].
      eapply grows_seq; [auto with sticky|by apply grows_append|by apply grows_zero|done].
    + auto with sticky.
    + eapply encodes_bind; [auto with sticky|apply encodes_u8; unfold is_u8; lia|].
      intros n <-. by apply encodes_bytes.
    + intros c' <-. replace (acc ++ c :: cs) with ((acc ++ [c]) ++ cs) by (by rewrite <-app_assoc).
      apply IH; [simpl in Hf; lia|done].
    + intros r _ Hr. cbn [txt_loop]. rewrite (proj2 (Z.ltb_lt _ _)) by lia.
      unfold pbind. repeat case_match; by simplify_eq.
Qed.

Lemma encodes_params hole ps : ∀ fuel acc, (length ps < fuel)%nat →
  Forall (λ kv, is_u16 (fst kv) ∧ is_bytes (snd kv)) ps →
  encodes_to hole (encode_params ps) (λ e, svcb_loop fuel e acc) (eq (acc ++ ps)).
Proof.
  induction ps as [|[k v] ps IH]; intros fuel acc Hf Hps;
    (destruct fuel as [|fuel]; [simpl in Hf; lia|]); cbn [encode_params].
  - rewrite app_nil_r. apply (encodes_to_end _ _ acc); [|done]. intros r Hr. simpl.
    by rewrite (proj2 (Z.ltb_ge _ _)) by lia.
  - apply Forall_cons in Hps as [[Hk Hv] Hps]. simpl in Hk, Hv. unfold u16_try_from.
    destruct (_ <=? U16_MAX) eqn:Hl; bool_prop;
      [|by intros ? ? Hw; unfold wseq in Hw; rewrite Writer_fail_failed in Hw].
    pose proof (zlen_nonneg v).
    change (Writer_push_u16 k ;> Writer_push_u16 (zlen v) ;> Writer_push_bytes v ;> encode_params ps)
      with ((Writer_push_u16 k ;> Writer_push_u16 (zlen v) ;> Writer_push_bytes v) ;> encode_params ps).
    eapply (encodes_to_open _ 1);
      [|apply (encodes_to_seq _ _ _
          (let! k := Reader_u16 in let! n := Reader_u16 in let! v := Reader_bytes n in pret (k, v))
          (λ kv e, svcb_loop fuel e (acc ++ [kv])) (eq (k, v)))|].
    + apply (grows_seq 1 (zlen ps)); [auto with sticky| |apply grows_encode_params|pose proof (zlen_nonneg ps); lia].
      eapply (grows_seq 2 0); [auto with sticky|by apply grows_append| |done].
      eapply (grows_seq 0 0); [auto with sticky|by apply grows_zero|by apply grows_zero|done].
    + auto with sticky.
    + codec_step. eapply encodes_bind; [auto with sticky|apply encodes_u16; unfold is_u16; lia|].
      intros n <-. codec_last. done.
    + intros kv <-. replace (acc ++ (k, v) :: ps) with ((acc ++ [(k, v)]) ++ ps)
        by (by rewrite <-app_assoc).
      apply IH; [simpl in Hf; lia|done].
    + intros r _ Hr. cbn [svcb_loop]. rewrite (proj2 (Z.ltb_lt _ _)) by lia.
      unfold pbind, pret. repeat case_match; by simplify_eq.
Qed.

(** ** The RDATA codec *)

(** Select the branch of [RData::parse] for a known type. *)
Ltac rdata_branch :=
  cbv [RData_parse TYPE_A TYPE_NS TYPE_CNAME TYPE_SOA TYPE_PTR TYPE_MX TYPE_TXT TYPE_AAAA
    TYPE_SRV TYPE_NAPTR TYPE_DNAME TYPE_SSHFP TYPE_TLSA TYPE_SVCB TYPE_HTTPS TYPE_URI TYPE_CAA
    Z.eqb Pos.eqb orb].

(** A record data with one compressed or uncompressed name. *)
Lemma encodes_rdata_name (c : Name → RData) n :
  short_name n → encodes (Name_encode n) (pbind Name_parse (λ m, pret (c m)))
    (λ d, ∃ m, d = c m ∧ name_equiv m n).
Proof. intros Hn. eapply encodes_map; [by apply encodes_short_name|]. intros m [_ ?]. by exists m. Qed.

Lemma encodes_svcb (c : Z → Name → list (Z * list Z) → RData) p n ps :
  is_u16 p → Name_wf n → Forall (λ kv, is_u16 (fst kv) ∧ is_bytes (snd kv)) ps →
  encodes_rdata (encode_svcb p n ps)
    (λ rdlen r, (let! priority := Reader_u16 in
      let! target := Name_parse_uncompressed in
      let! params := svcb_loop (S (Z.to_nat rdlen)) (rpos r + rdlen) [] in
      let! _ := pcheck (validate_svcb_params priority params) in
      pret (c priority target params)) r)
    (eq (c p n ps)).
Proof.
  intros Hp Hn Hps. unfold encode_svcb. destruct (validate_svcb_params p ps) as [[]| | |] eqn:Hv;
    try (intros ? ? ? Hw; by rewrite Writer_fail_failed in Hw).
  apply (encodes_rdata_to (length ps) _ (λ fuel e,
    let! priority := Reader_u16 in
    let! target := Name_parse_uncompressed in
    let! params := svcb_loop fuel e [] in
    let! _ := pcheck (validate_svcb_params priority params) in
    pret (c priority target params))); [|intros hole fuel Hf|done].
  - eapply (grows_seq 0 (zlen ps)); [auto with sticky|by apply grows_zero| |done].
    eapply (grows_seq 0 (zlen ps)); [auto with sticky|by apply grows_zero| |done].
    apply grows_encode_params.
  - eapply encodes_to_seq; [auto with sticky|by apply encodes_u16|intros ? <-].
    eapply encodes_to_seq; [auto with sticky|by apply encodes_Name_uncompressed|intros ? <-].
    eapply encodes_to_map; [by apply encodes_params|]. intros ? <-. eexists. split; [done|].
    intros r. unfold pbind, pcheck. simpl app. by rewrite Hv.
Qed.

Lemma encodes_txt cs :
  Forall is_bytes cs →
  encodes_rdata (encode_chunks cs)
    (λ rdlen, let! chunks := (λ r, txt_loop (S (Z.to_nat rdlen)) (rpos r + rdlen) [] r) in
       pret (RD_Txt chunks))
    (eq (RD_Txt cs)).
Proof.
  intros Hcs. apply (encodes_rdata_to (length cs) _ (λ fuel e,
    let! chunks := txt_loop fuel e [] in pret (RD_Txt chunks))).
  - apply grows_encode_chunks.
  - intros hole fuel Hf. eapply encodes_to_map; [by apply encodes_chunks|]. intros ? <-. by eexists.
  - done.
Qed.

(** Octet fields up to the end: the RDATA has an exact size. *)
Ltac size_done := repeat (eapply exact_size_compose; [solve [auto with sticky]| |]);
  apply exact_size_append; reflexivity.

Lemma encodes_caa f t v :
  is_u8 f → is_bytes t → is_bytes v →
  encodes_rdata (RData_encode (RD_Caa f t v)) (RData_parse TYPE_CAA) (eq (RD_Caa f t v)).
Proof.
  intros Hf Ht Hv. rdata_branch. cbn [RData_encode]. unfold u8_try_from.
  destruct (_ <=? U8_MAX) eqn:Hl; bool_prop;
    [|intros ? ? ? Hw; unfold wseq in Hw; by rewrite Writer_fail_failed in Hw].
  pose proof (zlen_nonneg t). pose proof (zlen_nonneg v).
  eapply (encodes_rdata_const _ _ _ (1 + (1 + (zlen t + zlen v)))); [size_done|].
  codec_step. eapply encodes_bind; [auto with sticky|apply encodes_u8; by unfold is_u8|intros ? <-].
  codec_step. unfold checked_sub. rewrite (proj2 (Z.leb_le _ _)) by lia.
  replace (_ - _) with (zlen v) by lia. unfold plift. codec_last. done.
Qed.

Lemma encodes_tlsa u s m b :
  is_u8 u → is_u8 s → is_u8 m → is_bytes b →
  encodes_rdata (RData_encode (RD_Tlsa u s m b)) (RData_parse TYPE_TLSA) (eq (RD_Tlsa u s m b)).
Proof.
  intros. rdata_branch. cbn [RData_encode]. pose proof (zlen_nonneg b).
  eapply (encodes_rdata_const _ _ _ (1 + (1 + (1 + zlen b)))); [size_done|].
  do 3 codec_step. unfold checked_sub. rewrite (proj2 (Z.leb_le _ _)) by lia.
  replace (_ - _) with (zlen b) by lia. codec_last. done.
Qed.

Lemma encodes_sshfp a t b :
  is_u8 a → is_u8 t → is_bytes b →
  encodes_rdata (RData_encode (RD_Sshfp a t b)) (RData_parse TYPE_SSHFP) (eq (RD_Sshfp a t b)).
Proof.
  intros. rdata_branch. cbn [RData_encode]. pose proof (zlen_nonneg b).
  eapply (encodes_rdata_const _ _ _ (1 + (1 + zlen b))); [size_done|].
  do 2 codec_step. unfold checked_sub. rewrite (proj2 (Z.leb_le _ _)) by lia.
  replace (_ - _) with (zlen b) by lia. codec_last. done.
Qed.

Lemma encodes_uri p q b :
  is_u16 p → is_u16 q → is_bytes b →
  encodes_rdata (RData_encode (RD_Uri p q b)) (RData_parse TYPE_URI) (eq (RD_Uri p q b)).
Proof.
  intros. rdata_branch. cbn [RData_encode]. pose proof (zlen_nonneg b).
  eapply (encodes_rdata_const _ _ _ (2 + (2 + zlen b))); [size_done|].
  do 2 codec_step. unfold checked_sub. rewrite (proj2 (Z.leb_le _ _)) by lia.
  replace (_ - _) with (zlen b) by lia. codec_last. done.
Qed.

Lemma encodes_unknown t b :
  is_typed t = false → is_bytes b →
  encodes_rdata (Writer_push_bytes b) (RData_parse t) (eq (RD_Unknown t b)).
Proof.
  intros Ht Hb. apply orb_false_elim in Ht as [Ht Hu]. apply bool_decide_eq_false in Ht.
  apply (encodes_rdata_const _ _ _ (zlen b)); [by apply exact_size_append|].
  unfold RData_parse. rewrite Hu.
  rewrite !(proj2 (Z.eqb_neq _ _)) by (intros ->; apply Ht; set_solver). cbn [orb]. codec_last. done.
Qed.

Lemma encodes_rdata_weaken {A} e (d : Z → Parser A) (Q1 Q2 : A → Prop) :
  encodes_rdata e d Q1 → (∀ a, Q1 a → Q2 a) → encodes_rdata e d Q2.
Proof.
  intros H HQ hole w Hw Hf. destruct (H hole w Hw Hf) as (? & ? & Hd). split_and!; try done.
  intros r Hr Hp Hl. destruct (Hd r Hr Hp Hl) as (a & ? & ?). eauto.
Qed.

Lemma encodes_soa s :
  rdata_wf (RD_Soa s) → rdata_short (RD_Soa s) →
  encodes_rdata (RData_encode (RD_Soa s)) (RData_parse TYPE_SOA) (λ d', rdata_equiv d' (RD_Soa s)).
Proof.
  destruct s. cbn. intros (? & ? & ? & ? & ? & ? & ?) (? & ?). rdata_branch.
  apply encodes_rdata_any. intros n. do 2 codec_name. do 4 codec_step. codec_last.
  by split_and!.
Qed.

Lemma encodes_naptr n :
  rdata_wf (RD_Naptr n) →
  encodes_rdata (RData_encode (RD_Naptr n)) (RData_parse TYPE_NAPTR) (eq (RD_Naptr n)).
Proof.
  destruct n. cbn. intros (? & ? & ? & ? & ? & ?). rdata_branch.
  apply encodes_rdata_any. intros n. do 5 codec_step.
  eapply encodes_map; [by apply encodes_Name_uncompressed_parse|]. by intros ? <-.
Qed.

(** Addresses: a fixed number of octets. *)
Lemma encodes_a ip :
  rdata_wf (RD_A ip) → encodes_rdata (RData_encode (RD_A ip)) (RData_parse TYPE_A) (eq (RD_A ip)).
Proof.
  intros [Hl Hb]. rdata_branch.
  apply (encodes_rdata_const _ _ _ (zlen ip)); [by apply exact_size_append|].
  apply (encodes_then _ (Reader_bytes 4) _ (eq ip)); [rewrite <-Hl; by apply encodes_bytes|].
  intros ? <-. destruct (zlen_4 ip Hl) as (x & y & z & w & ->). by eexists.
Qed.

Lemma encodes_aaaa ip :
  rdata_wf (RD_Aaaa ip) →
  encodes_rdata (RData_encode (RD_Aaaa ip)) (RData_parse TYPE_AAAA) (eq (RD_Aaaa ip)).
Proof.
  intros [Hl Hb]. rdata_branch.
  apply (encodes_rdata_const _ _ _ (zlen ip)); [by apply exact_size_append|].
  apply (encodes_then _ (Reader_bytes 16) _ (eq ip)); [rewrite <-Hl; by apply encodes_bytes|].
  intros ? <-. rewrite Hl. by eexists.
Qed.

Lemma encodes_srv p q o n :
  rdata_wf (RD_Srv p q o n) →
  encodes_rdata (RData_encode (RD_Srv p q o n)) (RData_parse TYPE_SRV) (eq (RD_Srv p q o n)).
Proof.
  intros (? & ? & ? & ?). rdata_branch. apply encodes_rdata_any. intros _. do 3 codec_step.
  eapply encodes_map; [by apply encodes_Name_uncompressed_parse|]. by intros ? <-.
Qed.

Lemma encodes_dname n :
  rdata_wf (RD_Dname n) →
  encodes_rdata (RData_encode (RD_Dname n)) (RData_parse TYPE_DNAME) (eq (RD_Dname n)).
Proof.
  intros ?. rdata_branch. apply encodes_rdata_any. intros _.
  eapply encodes_map; [by apply encodes_Name_uncompressed_parse|]. by intros ? <-.
Qed.

Lemma encodes_mx p n :
  is_u16 p → short_name n →
  encodes_rdata (RData_encode (RD_Mx p n)) (RData_parse TYPE_MX)
    (λ d', rdata_equiv d' (RD_Mx p n)).
Proof.
  intros. rdata_branch. apply encodes_rdata_any. intros _. codec_step.
  eapply encodes_map; [by apply encodes_short_name|]. by intros ? [_ ?].
Qed.

Theorem encodes_RData d :
  rdata_wf d → rdata_regular d → rdata_short d →
  encodes_rdata (RData_encode d) (RData_parse (RData_record_type d)) (λ d', rdata_equiv d' d).
Proof.
  intros Hwf Hreg Hsh.
  destruct d as [ip|ip|n|n|n|n|p n|cs|s|p q o n|f t v|u s m b|a t b|n|p q b|p n ps|p n ps|t b];
    cbn [rdata_short RData_record_type] in *;
    try (by apply encodes_soa);
    try (eapply encodes_rdata_weaken; [first
      [ by apply encodes_a | by apply encodes_aaaa | by apply encodes_naptr
      | by apply encodes_srv | by apply encodes_dname
      | apply encodes_caa; apply Hwf | apply encodes_tlsa; apply Hwf
      | apply encodes_sshfp; apply Hwf | apply encodes_uri; apply Hwf
      | rdata_branch; apply (encodes_svcb RD_Svcb); apply Hwf
      | rdata_branch; apply (encodes_svcb RD_Https); apply Hwf
      | rdata_branch; by apply encodes_txt
      | by apply encodes_unknown ]|by intros ? <-]);
    try (apply encodes_mx; [apply Hwf|done]).
  all: rdata_branch; apply encodes_rdata_any; intros _;
    (eapply encodes_map; [by apply encodes_short_name|]; by intros ? [_ ?]).
Qed.
