(* ===== verification/RecordCodec.v ===== *)
(** * Resource records are read back ([Record] of [onetdns-proto/src/rdata.rs])

    The length slot of a record is written first and patched after the RDATA;
    the codec theorem of the RDATA holds while the slot is open, and the patch
    closes it. *)

From S2P Require Import Prelude NameTable Wire Writer Name Codec NameCodec RData RDataCodec.

#[local] Open Scope writer_scope.

(** ** The length slot *)

(** [placeholder_u16], the RDATA, [backpatch_len]. *)
Definition with_len_slot (e : Writer → Writer) (w : Writer) : Writer :=
  let (at_, w) := Writer_placeholder_u16 w in Writer_backpatch_len at_ (e w).

Lemma sticky_with_len_slot e : sticky e → sticky (with_len_slot e).
Proof.
  intros He w Hw. unfold with_len_slot, Writer_placeholder_u16, Writer_push_u16.
  rewrite (sticky_append _ _ w Hw), (He w Hw). by apply sticky_backpatch.
Qed.
#[export] Hint Resolve sticky_with_len_slot : sticky.

Lemma frozen_None b i : frozen b None i = get b i.
Proof. done. Qed.

(** Opening the slot: the octets written before stay final. *)
Lemma WInv_open_slot w :
  WInv None w → Writer_is_failed (Writer_push_u16 0 w) = false →
  WInv (Some (zlen (wbuf w))) (Writer_push_u16 0 w) ∧
  wbuf (Writer_push_u16 0 w) = wbuf w ++ [0; 0].
Proof.
  intros Hw Hf. destruct (WInv_append None w 2 (u16_to_be 0)) as [[Hwf _ Hn] Hb]; [done..|apply u16_to_be_bytes|done|].
  fold (Writer_push_u16 0 w) in *. split; [|done]. constructor; [done| |].
  - rewrite Hb. simpl. rewrite zlen_app. change (zlen (u16_to_be 0)) with 2.
    pose proof (zlen_nonneg (wbuf w)). lia.
  - intros k off Hk. eapply entry_ok_mono; [| |apply Hw].
    + intros i x Hi. rewrite frozen_None in Hi. pose proof (get_Some_lt _ _ _ Hi).
      unfold frozen. rewrite (proj2 (Z.leb_gt _ _)) by lia. simpl. rewrite Hb. by apply get_Some_app.
    + rewrite Hb, zlen_app. change (zlen (u16_to_be 0)) with 2. lia.
    + pose proof (Writer_append_ok _ _ _ Hf) as (_ & _ & Heq). unfold Writer_push_u16 in Hk.
      by rewrite Heq in Hk.
Qed.

Lemma frozen_patch b at_ v i x :
  0 ≤ at_ → at_ + 2 ≤ zlen b → frozen b (Some at_) i = Some x → get (patch_u16 b at_ v) i = Some x.
Proof.
  intros Hat Hb Hi. destruct (patch_u16_split b at_ v Hat Hb) as (l & y & z & k & -> & Hl & ->).
  unfold frozen in Hi. destruct ((at_ <=? i) && (i <? at_ + 2)) eqn:Hc; [done|].
  destruct (Z.ltb_spec i at_) as [Hlt|Hge].
  - rewrite get_app_l in * by lia. done.
  - assert (at_ + 2 ≤ i).
    { rewrite (proj2 (Z.leb_le _ _)) in Hc by lia. simpl in Hc. bool_prop. lia. }
    rewrite get_app_r in * by lia. rewrite (get_app_r [y; z]) in Hi by (change (zlen [y; z]) with 2; lia).
    by rewrite get_app_r by (rewrite zlen_u16_to_be; lia).
Qed.

Lemma zlen_patch b at_ v : 0 ≤ at_ → at_ + 2 ≤ zlen b → zlen (patch_u16 b at_ v) = zlen b.
Proof.
  intros Hat Hb. destruct (patch_u16_split b at_ v Hat Hb) as (l & y & z & k & -> & Hl & ->).
  rewrite !zlen_app. done.
Qed.

Lemma patch_at b c at_ v :
  zlen b = at_ → patch_u16 (b ++ [0; 0] ++ c) at_ v = b ++ u16_to_be v ++ c.
Proof.
  intros <-. unfold patch_u16. f_equal.
  - unfold zlen. rewrite Nat2Z.id. apply take_app_length.
  - f_equal. rewrite app_assoc. apply drop_app_length'. rewrite length_app. unfold zlen. simpl. lia.
Qed.

(** Closing the slot. *)
Lemma WInv_close_slot at_ w :
  WInv (Some at_) w → Writer_is_failed (Writer_backpatch_len at_ w) = false →
  let w' := Writer_backpatch_len at_ w in
  WInv None w' ∧ is_u16 (zlen (wbuf w) - (at_ + 2)) ∧
  wbuf w' = patch_u16 (wbuf w) at_ (zlen (wbuf w) - (at_ + 2)) ∧ zlen (wbuf w') = zlen (wbuf w) ∧
  (∀ i x, frozen (wbuf w) (Some at_) i = Some x → get (wbuf w') i = Some x).
Proof.
  intros [Hwf [Hat Hl] Hn] Hf w'. subst w'.
  destruct (Writer_backpatch_ok _ _ Hf) as (len & _ & -> & Hr & Heq).
  pose proof (Writer_backpatch_wf at_ _ Hwf) as Hwf'. rewrite Heq in *. simpl.
  rewrite zlen_patch by done. split_and!; try done; [|by intros; apply frozen_patch].
  constructor; [done|done|]. intros k off Hk. simpl in *. rewrite zlen_patch by done.
  eapply entry_ok_mono; [|reflexivity|by apply Hn]. intros i x Hi. by apply frozen_patch.
Qed.

(** A reader over the closed message reads the RDATA up to its end. *)
Lemma reads_within r at_ w :
  WInv (Some at_) w → Writer_is_failed (Writer_backpatch_len at_ w) = false →
  reads r None (Writer_backpatch_len at_ w) →
  reads (set_rlimit (zlen (wbuf w)) (set_rpos (at_ + 2) r)) (Some at_) w.
Proof.
  intros Hw Hf [[Hp Hl Hm Hb] Hg Hle].
  destruct (WInv_close_slot at_ w Hw Hf) as (_ & _ & _ & Hlen & Hfr). rewrite Hlen in Hle.
  destruct Hw as [_ [Hat Hat2] _]. constructor; simpl; [constructor; simpl; done || lia| |lia].
  intros i x Hi. by apply Hg, Hfr.
Qed.

(** ** The record codec *)

(** The parser of the part after the length slot, at a given end. *)
Definition parse_slot (dd : Z → Parser RData) (k : RData → Record_) (rdlen : Z) : Parser Record_ := λ r,
  match checked_add (rpos r) rdlen with
  | None => (Err ErrEof, r)
  | Some end_ =>
      if rlimit r <? end_ then (Err ErrEof, r)
      else
        let (parsed, r') := dd rdlen (set_rlimit end_ r) in
        match parsed with
        | Ok d => if negb (rpos r' =? end_)
                  then (Err (ErrName "RDATA 길이가 일치하지 않습니다"), set_rlimit (rlimit r) r')
                  else (Ok (k d), set_rlimit (rlimit r) r')
        | Err e => (Err e, set_rlimit (rlimit r) r')
        | Panic => (Panic, set_rlimit (rlimit r) r')
        | NoFuel => (NoFuel, set_rlimit (rlimit r) r')
        end
  end.

Lemma encodes_slot (e : Writer → Writer) (dd : Z → Parser RData) k Q :
  sticky e → encodes_rdata e dd Q →
  encodes_at None (with_len_slot e) (pbind Reader_u16 (parse_slot dd k))
    (λ rec, ∃ d, Q d ∧ rec = k d).
Proof.
  intros He H w Hw Hf. unfold with_len_slot, Writer_placeholder_u16 in *.
  set (at_ := zlen (wbuf w)) in *. set (w1 := Writer_push_u16 0 w) in *.
  pose proof (sticky_first _ _ (sticky_backpatch at_) Hf) as Hf2.
  pose proof (sticky_first _ _ He Hf2) as Hf1.
  destruct (WInv_open_slot w Hw Hf1) as [Hw1 Hb1]. fold w1 at_ in Hw1, Hb1.
  destruct (H _ w1 Hw1 Hf2) as (Hw2 & [c Hc] & Hd).
  destruct (WInv_close_slot at_ _ Hw2 Hf) as (Hw3 & Hlen & Hb3 & Hl3 & _).
  rewrite Hb1, <-app_assoc in Hc. split_and!; [done| |].
  { rewrite Hb3, Hc, patch_at by done. by eexists. }
  intros r Hr Hp. pose proof (reads_within r at_ _ Hw2 Hf Hr) as Hr2.
  pose proof Hr as [[Hpr Hlr Hm Hbb] Hg Hle].
  pose proof (zlen_nonneg (wbuf w)) as Hat. fold at_ in Hat.
  destruct (Hd _ Hr2) as (d & Hdd & HQ); [simpl; rewrite Hb1, zlen_app; done|done|]. simpl in Hdd.
  pose proof (rwf_pos _ (reads_wf _ _ _ Hr2)) as Hat2. simpl in Hat2.
  set (len := zlen (wbuf (e w1)) - (at_ + 2)) in *.
  assert (H16 : Reader_u16 r = (Ok len, set_rpos (at_ + 2) r)).
  { rewrite <-Hp. apply Reader_u16_at; [apply Hr|done| |rewrite Hp; lia].
    rewrite Hp. apply (bytes_at_mono (get (wbuf (Writer_backpatch_len at_ (e w1))))); [done|].
    rewrite Hb3, Hc, patch_at by done. intros i x Hi. fold len.
    pose proof (get_Some_lt _ _ _ Hi). rewrite get_app_r by (fold at_; lia).
    fold at_. rewrite Z.add_simpl_l. by apply get_Some_app. }
  exists (k d). split; [|by exists d]. unfold pbind. rewrite H16. unfold parse_slot, checked_add.
  simpl. unfold MAX_DNS_WIRE_LEN, U16_MAX, USIZE_MAX in *.
  replace (at_ + 2 + len) with (zlen (wbuf (e w1))) by (unfold len; lia).
  rewrite (proj2 (Z.leb_le _ _)) by lia. rewrite (proj2 (Z.ltb_ge _ _)) by lia.
  rewrite Hdd. simpl. rewrite Z.eqb_refl. simpl. rewrite Hl3. by destruct r.
Qed.

(** ** Records *)

Definition update_class (cs : option (list Z)) (c : Z) : bool :=
  match cs with Some cs => bool_decide (c ∈ cs) | None => false end.

(** RDATA of at least one octet. *)
Definition rdata_nonempty (d : RData) : Prop :=
  match d with RD_Txt [] | RD_Unknown _ [] => False | _ => True end.

(** The RDATA survives in a section that is parsed with the empty-RDATA
    classes [cs]. *)
Definition rdata_kept (cs : option (list Z)) (rec : Record_) : Prop :=
  if update_class cs (class rec)
  then rdata rec = RD_Unknown (rtype rec) [] ∨
       rdata_regular (rdata rec) ∧ rdata_nonempty (rdata rec)
  else rdata_regular (rdata rec).

Definition record_regular (cs : option (list Z)) (rec : Record_) : Prop :=
  RData_record_type (rdata rec) = rtype rec ∧ rdata_kept cs rec.

Definition record_short (rec : Record_) : Prop :=
  short_name (name rec) ∧ rdata_short (rdata rec).

(** Records equal up to the case of compressible names, the second with TTL
    [t]. *)
Definition record_equiv_ttl (t : Z) (a b : Record_) : Prop :=
  name_equiv (name a) (name b) ∧ rtype a = rtype b ∧ class a = class b ∧
  ttl a = t ∧ rdata_equiv (rdata a) (rdata b).
Definition record_equiv (a b : Record_) : Prop := record_equiv_ttl (ttl b) a b.

(** The first encoder appends [n > 0] octets, whatever follows. *)
Lemma grows_1_seq e1 e2 : sticky e2 → grows 1 e1 → grows 0 e2 → grows 1 (e1 ;> e2).
Proof. intros. by apply (grows_seq 1 0). Qed.

Lemma grows_1_append n b : n = zlen b → 1 ≤ n → grows 1 (Writer_append n b).
Proof. intros. by eapply grows_weaken; [|apply grows_append]. Qed.

Lemma grows_0_Name_encode n : Name_wf n → grows 0 (Name_encode n).
Proof. intros H. eapply grows_weaken; [|by apply grows_Name_encode]. done. Qed.

Lemma grows_Name_encode_uncompressed n : Name_wf n → grows 1 (Name_encode_uncompressed n).
Proof.
  intros Hn. destruct (Name_labels_of n Hn) as (ls & _ & ->).
  eapply grows_weaken; [|by apply grows_append]. unfold nwire.
  rewrite labels_wire_body, zlen_app. pose proof (zlen_nonneg (body ls)). change (zlen [0]) with 1. lia.
Qed.

Lemma grows_0_Name_encode_uncompressed n : grows 0 (Name_encode_uncompressed n).
Proof. by apply grows_zero. Qed.

Lemma grows_0_seq e1 e2 : sticky e2 → grows 0 e1 → grows 0 e2 → grows 0 (e1 ;> e2).
Proof. intros. by apply (grows_seq 0 0). Qed.

Lemma grows_0_chars s : grows 0 (write_char_string s).
Proof.
  unfold write_char_string. case_match; [|apply grows_fails].
  apply grows_0_seq; [auto with sticky|by apply grows_zero|by apply grows_zero].
Qed.

Lemma grows_0_params ps : grows 0 (encode_params ps).
Proof. eapply grows_weaken; [apply (zlen_nonneg ps)|apply grows_encode_params]. Qed.

Create HintDb grows.
#[export] Hint Resolve grows_1_seq grows_0_Name_encode grows_Name_encode
  grows_Name_encode_uncompressed grows_0_Name_encode_uncompressed grows_0_seq grows_0_chars
  grows_0_params grows_fails : grows.
#[export] Hint Extern 1 (sticky _) => solve [auto 20 with sticky] : grows.
#[export] Hint Extern 1 (grows 1 (Writer_push_u8 _)) => by apply grows_1_append : grows.
#[export] Hint Extern 1 (grows 1 (Writer_push_u16 _)) => by apply grows_1_append : grows.
#[export] Hint Extern 1 (grows 0 (Writer_append _ _)) => by apply grows_zero : grows.
#[export] Hint Extern 1 (grows 0 (Writer_push_bytes _)) => by apply grows_zero : grows.
#[export] Hint Extern 1 (grows 0 (Writer_push_u8 _)) => by apply grows_zero : grows.
#[export] Hint Extern 1 (grows 0 (Writer_push_u16 _)) => by apply grows_zero : grows.
#[export] Hint Extern 1 (grows 0 (Writer_push_u32 _)) => by apply grows_zero : grows.

Lemma grows_1_svcb p n ps : Name_wf n → grows 1 (encode_svcb p n ps).
Proof. intros. unfold encode_svcb. case_match; auto 10 with grows. Qed.
#[export] Hint Resolve grows_1_svcb : grows.

Lemma grows_RData_encode d : rdata_wf d → rdata_nonempty d → grows 1 (RData_encode d).
Proof.
  destruct d as [ip|ip|n|n|n|n|p n|cs|s|p q o n|f t v|u s m b|a t b|n|p q b|p n ps|p n ps|t b];
    cbn [rdata_wf rdata_nonempty RData_encode]; intros Hwf Hne; destruct_and? Hwf;
    try solve [auto 20 with grows].
  - by apply grows_1_append; [|lia].
  - by apply grows_1_append; [|lia].
  - destruct cs as [|c cs]; [done|]. eapply grows_weaken; [|apply grows_encode_chunks].
    rewrite zlen_cons. pose proof (zlen_nonneg cs). lia.
  - apply grows_1_seq; [case_match; auto 20 with sticky|by apply grows_1_append|].
    case_match; auto 20 with grows.
  - destruct b as [|x b]; [done|]. apply grows_1_append; [done|].
    rewrite zlen_cons. pose proof (zlen_nonneg b). lia.
Qed.

(** ** Records *)

Definition parse_rdata (cs : option (list Z)) (t c rdlen : Z) : Parser RData :=
  if (rdlen =? 0) && update_class cs c then pret (RD_Unknown t []) else RData_parse t rdlen.

Lemma encodes_rdata_update cs rec :
  record_wf rec → record_regular cs rec → record_short rec →
  encodes_rdata (RData_encode (rdata rec)) (parse_rdata cs (rtype rec) (class rec))
    (λ d, rdata_equiv d (rdata rec)).
Proof.
  destruct rec as [n t c tl d]. unfold record_regular, rdata_kept, record_short, record_wf, parse_rdata. simpl.
  intros (_ & _ & _ & _ & Hwf) [<- Hreg] [_ Hsh].
  destruct (update_class cs c) eqn:Hc.
  2:{ intros hole w Hw Hf. destruct (encodes_RData d Hwf Hreg Hsh hole w Hw Hf) as (? & ? & Hd).
      split_and!; try done. intros r. rewrite andb_false_r. apply Hd. }
  destruct Hreg as [->|[Hreg Hne]].
  - cbn [RData_encode RData_record_type]. apply (encodes_rdata_const _ _ _ 0); [by apply exact_size_append|].
    intros hole w Hw Hf. destruct (encodes_bytes [] ltac:(constructor) hole w Hw Hf) as (? & ? & Hd).
    split_and!; try done. intros r Hr Hp. exists (RD_Unknown (RData_record_type d) []).
    split; [|done]. simpl.
    apply Writer_append_ok in Hf as (_ & _ & Heq). unfold Writer_push_bytes. rewrite Heq. simpl.
    rewrite app_nil_r, <-Hp. by destruct r.
  - intros hole w Hw Hf. destruct (encodes_RData d Hwf Hreg Hsh hole w Hw Hf) as (? & ? & Hd).
    split_and!; try done. intros r Hr Hp Hl. pose proof (grows_RData_encode d Hwf Hne w Hf).
    rewrite (proj2 (Z.eqb_neq _ _)) by lia. simpl. by apply Hd.
Qed.

Lemma parse_record_slot cs n t c tl rdlen r :
  (let start := rpos r in
   match checked_add start rdlen with
   | None => (Err ErrEof, r)
   | Some end_ =>
       if rlimit r <? end_ then (Err ErrEof, r)
       else
         (let! d := parse_rdata_within cs t c rdlen end_ in
          λ r, if negb (rpos r =? end_)
               then (Err (ErrName "RDATA 길이가 일치하지 않습니다"), r)
               else (Ok {| name := n; rtype := t; class := c; ttl := tl; rdata := d |}, r)) r
   end) =
  parse_slot (parse_rdata cs t c)
    (λ d, {| name := n; rtype := t; class := c; ttl := tl; rdata := d |}) rdlen r.
Proof.
  unfold parse_slot, pbind, parse_rdata_within, parse_rdata, update_class. simpl.
  destruct (checked_add (rpos r) rdlen) as [e|]; [|done]. destruct (rlimit r <? e); [done|].
  match goal with |- context [(if ?b then ?x else ?y) ?z] =>
    destruct ((if b then x else y) z) as [[d|?| |] r'] end; simpl; try done.
Qed.

Lemma encodes_at_ext {A} hole e (d d' : Parser A) Q :
  (∀ r, d' r = d r) → encodes_at hole e d Q → encodes_at hole e d' Q.
Proof.
  intros Hd H w Hw Hf. destruct (H w Hw Hf) as (? & ? & Hr). split_and!; try done.
  intros r ? ?. rewrite Hd. by apply Hr.
Qed.

(** One field of a record, at the top level. *)
Ltac field_step :=
  eapply encodes_at_bind; [solve [eauto 20 with sticky]|intros; by apply encodes_u16|intros ? <-].

(** A record that is encoded is read back, up to the case of its names. *)
Theorem encodes_Record cs rec t :
  record_wf rec → is_u32 t → record_regular cs rec → record_short rec →
  encodes_at None (Record_encode_with_ttl rec t) (Record_parse_inner cs)
    (λ rec', Name_wf (name rec') ∧ record_equiv_ttl t rec' rec).
Proof.
  intros Hwf Ht Hreg Hsh. pose proof Hwf as (? & ? & ? & ? & ?).
  unfold Record_encode_with_ttl, Record_parse_inner. fold (with_len_slot (RData_encode (rdata rec))).
  eapply encodes_at_bind; [auto 20 with sticky|by apply encodes_short_name, Hsh|intros n [Hn ?]].
  do 2 field_step.
  eapply encodes_at_bind; [auto 20 with sticky|by apply encodes_u32|intros ? <-].
  eapply encodes_at_ext.
  { intros r. unfold pbind at 1. symmetry. unfold pbind at 1. symmetry.
    instantiate (1 := pbind Reader_u16 (parse_slot (parse_rdata cs (rtype rec) (class rec)) _)).
    unfold pbind at 1. destruct (Reader_u16 r) as [[]]; try done. apply parse_record_slot. }
  eapply encodes_at_weaken; [apply encodes_slot; [auto with sticky|by apply encodes_rdata_update]|].
  intros ? (d & Hd & ->). done.
Qed.

(** ** Sizes *)

Lemma grows_0_RData_encode d : rdata_wf d → grows 0 (RData_encode d).
Proof.
  intros Hwf. destruct (decide (d = RD_Txt [])) as [->|H1].
  { intros w _. simpl. lia. }
  destruct d as [| | | | | | |[|c cs]| | | | | | | | | |t [|x b]]; try done;
    try (eapply grows_weaken; [|by apply grows_RData_encode]; done).
  by apply grows_zero.
Qed.

Lemma grows_with_len_slot e : sticky e → grows 0 e → grows 2 (with_len_slot e).
Proof.
  intros He Hg w Hf. unfold with_len_slot, Writer_placeholder_u16 in *.
  set (w1 := Writer_push_u16 0 w) in *.
  pose proof (sticky_first _ _ (sticky_backpatch _) Hf) as Hf2.
  pose proof (sticky_first _ _ He Hf2) as Hf1. pose proof (Hg _ Hf2) as Hlen.
  assert (H1 : zlen (wbuf w1) = zlen (wbuf w) + 2) by by apply (exact_size_append 2).
  destruct (Writer_backpatch_ok _ _ Hf) as (len & Hat & Hl & Hr & ->). simpl.
  rewrite zlen_patch; lia.
Qed.

Lemma grows_Record rec t : record_wf rec → grows 11 (Record_encode_with_ttl rec t).
Proof.
  intros (Hn & _ & _ & _ & Hd). unfold Record_encode_with_ttl.
  fold (with_len_slot (RData_encode (rdata rec))).
  apply (grows_seq 1 10); [auto 20 with sticky|by apply grows_Name_encode| |done].
  apply (grows_seq 2 8); [auto 20 with sticky|by apply grows_append| |done].
  apply (grows_seq 2 6); [auto 20 with sticky|by apply grows_append| |done].
  apply (grows_seq 4 2); [auto 20 with sticky|by apply grows_append| |done].
  apply grows_with_len_slot; [auto with sticky|by apply grows_0_RData_encode].
Qed.

Lemma sticky_Record_encode rec t : sticky (Record_encode_with_ttl rec t).
Proof.
  unfold Record_encode_with_ttl. fold (with_len_slot (RData_encode (rdata rec))). auto 20 with sticky.
Qed.
#[export] Hint Resolve sticky_Record_encode : sticky.
