(* ===== verification/Ttl.v ===== *)
(** * Record lifetimes ([normalize_ttls] of [onetdns-proto/src/rdata.rs])

    The TTLs of a section are clamped and levelled per RRset.  The code works
    in three passes with a hash map and a shortcut; the theorem says that the
    result is, record by record, the smallest clamped TTL of its RRset. *)

From S2P Require Import Prelude NameTable Wire Writer Name Codec NameCodec RData.

(** [MAX_TTL]. *)
Definition MAX_TTL : Z := 0x7fffffff.

(** [ttl_field_is_not_a_lifetime]. *)
Definition ttl_field_is_not_a_lifetime (t : Z) : bool := bool_decide (t ∈ [41; 249; 250]).

(** [rrset_key]. *)
Definition rrset_key (rec : Record_) : list Z * Z * Z * Z :=
  let covered :=
    if rtype rec =? TYPE_RRSIG then
      match rdata rec with
      | RD_Unknown _ (a :: b :: _) => u16_from_be a b
      | _ => 0
      end
    else 0 in
  (Name_canonical_key (name rec), rtype rec, class rec, covered).

Definition set_ttl (t : Z) (rec : Record_) : Record_ :=
  {| name := name rec; rtype := rtype rec; class := class rec; ttl := t; rdata := rdata rec |}.

(** The first loop of [normalize_ttls]: a TTL above the ceiling becomes 0. *)
Definition clamp_ttl (rec : Record_) : Record_ :=
  if negb (ttl_field_is_not_a_lifetime (rtype rec)) && (MAX_TTL <? ttl rec)
  then set_ttl 0 rec else rec.

(** One step of the second loop: [entry(..).and_modify(min).or_insert(..)]. *)
Definition lowest_step (lowest : gmap (list Z * Z * Z * Z) Z) (rec : Record_) :
    gmap (list Z * Z * Z * Z) Z :=
  if ttl_field_is_not_a_lifetime (rtype rec) then lowest
  else match lowest !! rrset_key rec with
       | Some t => <[rrset_key rec := Z.min t (ttl rec)]> lowest
       | None => <[rrset_key rec := ttl rec]> lowest
       end.

(** One step of the third loop. *)
Definition level_ttl (lowest : gmap (list Z * Z * Z * Z) Z) (rec : Record_) : Record_ :=
  if ttl_field_is_not_a_lifetime (rtype rec) then rec
  else match lowest !! rrset_key rec with
       | Some t => set_ttl t rec
       | None => rec
       end.

(** [normalize_ttls]. *)
Definition normalize_ttls (records : list Record_) : list Record_ :=
  let records := map clamp_ttl records in
  let lowest := fold_left lowest_step records ∅ in
  if (size lowest =? length records)%nat then records
  else map (level_ttl lowest) records.

(** ** What the map holds *)

(** The members of an RRset, among records whose TTL is a lifetime. *)
Definition in_rrset (k : list Z * Z * Z * Z) (rec : Record_) : bool :=
  negb (ttl_field_is_not_a_lifetime (rtype rec)) && bool_decide (rrset_key rec = k).

(** The smallest TTL of an RRset, [None] when it has no record. *)
Fixpoint rrset_min (k : list Z * Z * Z * Z) (records : list Record_) : option Z :=
  match records with
  | [] => None
  | rec :: records =>
      if in_rrset k rec
      then Some (match rrset_min k records with Some t => Z.min (ttl rec) t | None => ttl rec end)
      else rrset_min k records
  end.

Definition omin (a b : option Z) : option Z :=
  match a, b with Some x, Some y => Some (Z.min x y) | None, y => y | x, None => x end.

Lemma fold_lowest_lookup records : ∀ m k,
  fold_left lowest_step records m !! k = omin (m !! k) (rrset_min k records).
Proof.
  induction records as [|rec records IH]; intros m k; simpl; [by destruct (m !! k)|].
  rewrite IH. unfold lowest_step, in_rrset. destruct (ttl_field_is_not_a_lifetime _); [done|]. simpl.
  case_bool_decide as Hk.
  - subst k. destruct (m !! rrset_key rec); rewrite lookup_insert_eq;
      destruct (rrset_min _ records); simpl; f_equal; lia.
  - destruct (m !! rrset_key rec); by rewrite lookup_insert_ne.
Qed.

Lemma rrset_min_member k records rec :
  rec ∈ records → in_rrset k rec = true → ∃ t, rrset_min k records = Some t ∧ t ≤ ttl rec.
Proof.
  induction 1 as [rec l|rec x l _ IH]; intros Hin; simpl.
  - rewrite Hin. destruct (rrset_min k l); eexists; (split; [done|lia]).
  - destruct (IH Hin) as (t & -> & Ht). destruct (in_rrset k x); eexists; (split; [done|lia]).
Qed.

Lemma rrset_min_attained k records t :
  rrset_min k records = Some t → ∃ rec, rec ∈ records ∧ in_rrset k rec = true ∧ ttl rec = t.
Proof.
  revert t. induction records as [|x l IH]; intros t; simpl; [done|].
  destruct (in_rrset k x) eqn:Hx.
  - destruct (rrset_min k l) as [t'|]; intros [= <-].
    + destruct (Z.min_spec (ttl x) t') as [[_ ->]|[_ ->]]; [exists x; by split_and!; [left|..]|].
      destruct (IH t' eq_refl) as (rec & ? & ? & ?). exists rec. by split_and!; [right|..].
    + exists x. by split_and!; [left|..].
  - intros (rec & ? & ? & ?)%IH. exists rec. by split_and!; [right|..].
Qed.

(** ** The shortcut *)

Lemma lowest_step_size m rec : (size m ≤ size (lowest_step m rec) ≤ S (size m))%nat.
Proof.
  unfold lowest_step. destruct (ttl_field_is_not_a_lifetime _); [lia|].
  destruct (m !! rrset_key rec) eqn:Hm.
  - rewrite map_size_insert_Some by (by eexists). lia.
  - rewrite map_size_insert_None by done. lia.
Qed.

Lemma fold_lowest_size records : ∀ m,
  (size (fold_left lowest_step records m) ≤ size m + length records)%nat.
Proof.
  induction records as [|rec records IH]; intros m; simpl; [lia|].
  pose proof (IH (lowest_step m rec)). pose proof (lowest_step_size m rec). lia.
Qed.

(** The map has as many entries as there are records only when every record
    is alone in its RRset. *)
Lemma fold_lowest_full records : ∀ m,
  size (fold_left lowest_step records m) = (size m + length records)%nat →
  (∀ rec, rec ∈ records → ttl_field_is_not_a_lifetime (rtype rec) = false ∧
    rrset_min (rrset_key rec) records = Some (ttl rec) ∧ m !! rrset_key rec = None).
Proof.
  induction records as [|x l IH]; intros m Hsize rec Hin; simpl in Hsize; [by inversion Hin|].
  pose proof (fold_lowest_size l (lowest_step m x)) as Hle.
  pose proof (lowest_step_size m x) as Hst.
  assert (Hstep : size (lowest_step m x) = S (size m)) by lia.
  assert (Hx : ttl_field_is_not_a_lifetime (rtype x) = false ∧ m !! rrset_key x = None ∧
    lowest_step m x = <[rrset_key x := ttl x]> m).
  { unfold lowest_step in *. destruct (ttl_field_is_not_a_lifetime (rtype x)); [lia|].
    destruct (m !! rrset_key x) eqn:Hm; [|done].
    rewrite map_size_insert_Some in Hstep by (by eexists). lia. }
  destruct Hx as (Hmeta & Hfresh & Heq).
  specialize (IH (lowest_step m x) ltac:(lia)). rewrite Heq in IH.
  assert (Hdiff : ∀ r, r ∈ l → rrset_key r ≠ rrset_key x).
  { intros r Hr Hk. destruct (IH r Hr) as (_ & _ & Hn). rewrite Hk, lookup_insert_eq in Hn. done. }
  inversion Hin as [|? ? ? Hin']; subst; [|clear Hin; rename Hin' into Hin].
  - split_and!; try done. simpl. unfold in_rrset. rewrite Hmeta, bool_decide_eq_true_2 by done. simpl.
    destruct (rrset_min (rrset_key x) l) as [t|] eqn:Ht; [|done].
    apply rrset_min_attained in Ht as (r & Hr & Hrk & _). unfold in_rrset in Hrk.
    apply andb_prop in Hrk as [_ Hrk%bool_decide_eq_true]. by destruct (Hdiff r Hr).
  - destruct (IH rec Hin) as (Hm & Hmin & Hn).
    rewrite lookup_insert_ne in Hn by (apply not_eq_sym, Hdiff, Hin). split_and!; try done.
    simpl. unfold in_rrset at 1. rewrite bool_decide_eq_false_2 by (apply not_eq_sym, Hdiff, Hin).
    by rewrite andb_false_r.
Qed.

(** ** The result *)

(** The record with the smallest clamped TTL of its RRset. *)
Definition levelled (records : list Record_) (rec : Record_) : Record_ :=
  if ttl_field_is_not_a_lifetime (rtype rec) then rec
  else set_ttl (default 0 (rrset_min (rrset_key rec) (map clamp_ttl records))) rec.

Lemma set_ttl_id rec : set_ttl (ttl rec) rec = rec.
Proof. by destruct rec. Qed.

Lemma clamp_ttl_same rec : rtype (clamp_ttl rec) = rtype rec ∧ rrset_key (clamp_ttl rec) = rrset_key rec.
Proof. unfold clamp_ttl. by case_match. Qed.

Lemma set_ttl_clamp t rec : set_ttl t (clamp_ttl rec) = set_ttl t rec.
Proof. unfold clamp_ttl. by case_match. Qed.

Lemma level_ttl_spec records rec :
  rec ∈ records →
  level_ttl (fold_left lowest_step (map clamp_ttl records) ∅) (clamp_ttl rec) = levelled records rec.
Proof.
  intros Hin. unfold level_ttl, levelled. destruct (clamp_ttl_same rec) as [-> ->].
  destruct (ttl_field_is_not_a_lifetime (rtype rec)) eqn:Hm.
  { unfold clamp_ttl. by rewrite Hm. }
  rewrite fold_lowest_lookup, lookup_empty. simpl.
  destruct (rrset_min_member (rrset_key rec) (map clamp_ttl records) (clamp_ttl rec)) as (t & -> & _).
  - by apply list_elem_of_fmap_2.
  - unfold in_rrset. destruct (clamp_ttl_same rec) as [-> ->]. rewrite Hm. by apply bool_decide_eq_true_2.
  - simpl. apply set_ttl_clamp.
Qed.

Lemma normalize_ttls_spec records : normalize_ttls records = map (levelled records) records.
Proof.
  unfold normalize_ttls. destruct (_ =? _)%nat eqn:Hs.
  - apply Nat.eqb_eq in Hs. pose proof (fold_lowest_full (map clamp_ttl records) ∅) as Hfull.
    rewrite map_size_empty in Hfull. specialize (Hfull Hs).
    apply map_ext_in. intros rec Hin%list_elem_of_In.
    destruct (Hfull (clamp_ttl rec)) as (Hm & Hmin & _); [by apply list_elem_of_fmap_2|].
    destruct (clamp_ttl_same rec) as [Ht Hk]. rewrite Ht in Hm. rewrite Hk in Hmin.
    unfold levelled. rewrite Hm, Hmin. simpl. rewrite <-set_ttl_clamp. by rewrite set_ttl_id.
  - rewrite map_map. apply map_ext_in. intros rec Hin%list_elem_of_In. by apply level_ttl_spec.
Qed.
