(* ===== verification/Edns.v ===== *)
(** * EDNS(0) ([Edns] of [onetdns-proto/src/message.rs])

    The OPT record hides its fields: the class is the UDP payload size, the TTL
    holds the extended response code, the version and the DO bit, and the RDATA
    is a list of options. *)

From S2P Require Import Prelude NameTable Wire Writer Name Codec NameCodec RData.

Definition EDE_OPTION : Z := 15.
Definition EDNS_TCP_KEEPALIVE : Z := 11.
Definition EDNS_CLIENT_SUBNET : Z := 8.
Definition EDNS_PADDING : Z := 12.

(** [struct Edns]. *)
Record Edns := mkEdns {
  udp_payload : Z;
  extended_rcode : Z;
  version : Z;
  dnssec_ok : bool;
  options : list (Z * list Z);
}.

Definition set_options (o : list (Z * list Z)) (e : Edns) : Edns :=
  {| udp_payload := udp_payload e; extended_rcode := extended_rcode e;
     version := version e; dnssec_ok := dnssec_ok e; options := o |}.
Definition set_extended_rcode (x : Z) (e : Edns) : Edns :=
  {| udp_payload := udp_payload e; extended_rcode := x;
     version := version e; dnssec_ok := dnssec_ok e; options := options e |}.

(** [Edns::default]. *)
Definition Edns_default : Edns :=
  {| udp_payload := 1232; extended_rcode := 0; version := 0; dnssec_ok := false; options := [] |}.

(** [Edns::record_parts]. *)
Definition Edns_record_parts (rec : Record_) : outcome ProtoError (Z * list Z) :=
  if negb (rtype rec =? TYPE_OPT) then Err (ErrMessage "OPT가 아닌 레코드")
  else if negb (Name_is_root (name rec)) then Err (ErrMessage "OPT owner는 root여야 함")
  else match rdata rec with
       | RD_Unknown _ raw => Ok (ttl rec, raw)
       | _ => Err (ErrMessage "잘못된 OPT RDATA")
       end.

(** The loop of [Edns::visit_options]; [visit] updates the state of the
    callback. *)
Fixpoint visit_loop {S_} (visit : S_ → Z → list Z → S_) (fuel : nat) (raw : list Z) (i : Z)
    (s : S_) : outcome ProtoError S_ :=
  match fuel with
  | O => NoFuel
  | S fuel =>
      if i <? zlen raw then
        if zlen raw - i <? 4 then Err (ErrMessage "EDNS 옵션 헤더가 중간에서 끊겼습니다")
        else match get raw i, get raw (i + 1), get raw (i + 2), get raw (i + 3) with
             | Some c0, Some c1, Some l0, Some l1 =>
                 let code := u16_from_be c0 c1 in
                 let len := u16_from_be l0 l1 in
                 let i := i + 4 in
                 match checked_add i len with
                 | None => Err (ErrMessage "EDNS option 길이 계산 범위를 넘었습니다")
                 | Some end_ =>
                     if zlen raw <? end_ then Err (ErrMessage "잘린 EDNS option data")
                     else match get_range raw i end_ with
                          | None => Panic
                          | Some data => visit_loop visit fuel raw end_ (visit s code data)
                          end
                 end
             | _, _, _, _ => Panic
             end
      else Ok s
  end.

(** [Edns::visit_options]. *)
Definition Edns_visit_options {S_} (raw : list Z) (visit : S_ → Z → list Z → S_) (s : S_) :
    outcome ProtoError S_ :=
  visit_loop visit (S (length raw)) raw 0 s.

(** [Edns::validate_record]. *)
Definition Edns_validate_record (rec : Record_) : outcome ProtoError Z :=
  obind (Edns_record_parts rec) (λ '(t, raw),
  obind (Edns_visit_options raw (λ s _ _, s) tt) (λ _,
  Ok (Z.land (Z.shiftr t 24) 255))).

(** [Edns::try_from_record]. *)
Definition Edns_try_from_record (rec : Record_) : outcome ProtoError Edns :=
  obind (Edns_record_parts rec) (λ '(t, raw),
  obind (Edns_visit_options raw (λ options code data, options ++ [(code, data)]) []) (λ options,
  Ok {| udp_payload := class rec;
        extended_rcode := Z.land (Z.shiftr t 24) 255;
        version := Z.land (Z.shiftr t 16) 255;
        dnssec_ok := negb (Z.land t 32768 =? 0);
        options := options |})).

(** [Edns::from_record]. *)
Definition Edns_from_record (rec : Record_) : option Edns :=
  match Edns_try_from_record rec with Ok e => Some e | _ => None end.

(** [options.retain(|(c, _)| *c != code)]. *)
Definition retain_not (code : Z) (o : list (Z * list Z)) : list (Z * list Z) :=
  filter (λ p, fst p ≠ code) o.

(** [Edns::push_ede]; the text is its UTF-8 octets. *)
Definition Edns_push_ede (info_code : Z) (extra_text : list Z) (e : Edns) : Edns :=
  set_options (options e ++ [(EDE_OPTION, u16_to_be info_code ++ extra_text)]) e.

(** [Edns::has_option]. *)
Definition Edns_has_option (code : Z) (e : Edns) : bool := existsb (λ p, fst p =? code) (options e).

(** [Edns::set_tcp_keepalive]. *)
Definition Edns_set_tcp_keepalive (timeout_100ms : Z) (e : Edns) : Edns :=
  set_options (retain_not EDNS_TCP_KEEPALIVE (options e) ++
    [(EDNS_TCP_KEEPALIVE, u16_to_be timeout_100ms)]) e.

(** [Edns::set_client_subnet]. *)
Definition Edns_set_client_subnet (option : list Z) (e : Edns) : Edns :=
  set_options (retain_not EDNS_CLIENT_SUBNET (options e) ++ [(EDNS_CLIENT_SUBNET, option)]) e.

(** The first option with a code: [iter().find(..)]. *)
Definition find_option (code : Z) (o : list (Z * list Z)) : option (list Z) :=
  match find (λ p, fst p =? code) o with Some (_, data) => Some data | None => None end.

(** [Edns::client_subnet]. *)
Definition Edns_client_subnet (e : Edns) : option (list Z) :=
  find_option EDNS_CLIENT_SUBNET (options e).

(** [Edns::ede]: the code and the octets of the text. *)
Definition Edns_ede (e : Edns) : option (Z * list Z) :=
  match find_option EDE_OPTION (options e) with
  | None => None
  | Some d =>
      let code := match get d 0, get d 1 with
                  | Some a, Some b => u16_from_be a b
                  | _, _ => 0
                  end in
      Some (code, default [] (get_range d 2 (zlen d)))
  end.

(** The option loop of [Edns::try_to_record]. *)
Fixpoint options_to_raw (o : list (Z * list Z)) (raw : list Z) : outcome ProtoError (list Z) :=
  match o with
  | [] => Ok raw
  | (code, data) :: o =>
      match u16_try_from (zlen data) with
      | None => Err (ErrMessage ("EDNS 옵션 " +:+ pretty code +:+ "의 크기가 65,535바이트를 넘었습니다"))
      | Some len =>
          match checked_add (zlen raw) 4 ≫= λ v, checked_add v (zlen data) with
          | None => Err (ErrMessage "EDNS option 길이 계산 범위를 넘었습니다")
          | Some next =>
              if U16_MAX <? next
              then Err (ErrMessage "EDNS 옵션 전체 크기가 65,535바이트를 넘었습니다")
              else options_to_raw o (raw ++ u16_to_be code ++ u16_to_be len ++ data)
          end
      end
  end.

(** The TTL of [Edns::try_to_record]. *)
Definition Edns_ttl (e : Edns) : Z :=
  Z.lor (Z.lor (Z.shiftl (extended_rcode e) 24) (Z.shiftl (version e) 16))
        (if dnssec_ok e then 32768 else 0).

(** [Edns::try_to_record]. *)
Definition Edns_try_to_record (e : Edns) : outcome ProtoError Record_ :=
  obind (options_to_raw (options e) []) (λ raw,
  Ok {| name := Name_root; rtype := TYPE_OPT; class := udp_payload e; ttl := Edns_ttl e;
        rdata := RD_Unknown TYPE_OPT raw |}).

(** ** The option list as octets *)

(** The octets of a list of options. *)
Definition options_raw (o : list (Z * list Z)) : list Z :=
  concat (map (λ '(code, data), u16_to_be code ++ u16_to_be (zlen data) ++ data) o).

Definition option_wf (p : Z * list Z) : Prop :=
  is_u16 (fst p) ∧ is_bytes (snd p) ∧ zlen (snd p) ≤ U16_MAX.

Definition edns_wf (e : Edns) : Prop :=
  is_u16 (udp_payload e) ∧ is_u8 (extended_rcode e) ∧ is_u8 (version e) ∧
  Forall (λ p, is_u16 (fst p) ∧ is_bytes (snd p)) (options e).

Lemma options_raw_cons c d o :
  options_raw ((c, d) :: o) = (u16_to_be c ++ u16_to_be (zlen d) ++ d) ++ options_raw o.
Proof. done. Qed.

Lemma options_raw_app o p : options_raw (o ++ p) = options_raw o ++ options_raw p.
Proof. unfold options_raw. by rewrite map_app, concat_app. Qed.

Lemma zlen_options_raw_cons c d o :
  zlen (options_raw ((c, d) :: o)) = 4 + zlen d + zlen (options_raw o).
Proof. rewrite options_raw_cons, !zlen_app, !zlen_u16_to_be. lia. Qed.

(** The visitor sees the options in order. *)
Lemma visit_loop_raw {S_} (visit : S_ → Z → list Z → S_) o : ∀ fuel pre s,
  Forall option_wf o → zlen (pre ++ options_raw o) ≤ U16_MAX → (length o < fuel)%nat →
  visit_loop visit fuel (pre ++ options_raw o) (zlen pre) s =
    Ok (fold_left (λ s '(c, d), visit s c d) o s).
Proof.
  induction o as [|[c d] o IH]; intros fuel pre s Ho Hl Hf;
    (destruct fuel as [|fuel]; [simpl in Hf; lia|]).
  - unfold options_raw. simpl. rewrite app_nil_r. by rewrite (proj2 (Z.ltb_ge _ _)) by lia.
  - apply Forall_cons in Ho as [(Hc & Hd & Hdl) Ho]. simpl in Hc, Hd, Hdl.
    rewrite zlen_app, zlen_options_raw_cons in Hl.
    pose proof (zlen_nonneg pre). pose proof (zlen_nonneg d). pose proof (zlen_nonneg (options_raw o)).
    assert (Hdu : is_u16 (zlen d)) by (unfold is_u16; lia).
    set (raw := pre ++ options_raw ((c, d) :: o)).
    assert (Hraw : raw = pre ++ (c / 256) :: (c mod 256) :: (zlen d / 256) :: (zlen d mod 256) ::
      d ++ options_raw o).
    { unfold raw. rewrite options_raw_cons, !u16_to_be_val by done. by rewrite <-!app_assoc. }
    assert (Hz : zlen raw = zlen pre + (4 + zlen d + zlen (options_raw o))).
    { unfold raw. by rewrite zlen_app, zlen_options_raw_cons. }
    cbn [visit_loop]. rewrite (proj2 (Z.ltb_lt _ _)), (proj2 (Z.ltb_ge _ _)) by lia.
    assert (Hg : ∀ k x, get [c / 256; c mod 256; zlen d / 256; zlen d mod 256] k = Some x →
      get raw (zlen pre + k) = Some x).
    { intros k x Hk. pose proof (get_Some_lt _ _ _ Hk). rewrite Hraw, get_app_r by lia.
      rewrite Z.add_simpl_l. by apply (get_Some_app [_; _; _; _]). }
    rewrite <-(Z.add_0_r (zlen pre)) at 1. rewrite !(Hg 0 _ eq_refl), !(Hg 1 _ eq_refl),
      !(Hg 2 _ eq_refl), !(Hg 3 _ eq_refl). cbv zeta. rewrite !u16_be_roundtrip by done.
    unfold checked_add. unfold U16_MAX, USIZE_MAX in *. rewrite (proj2 (Z.leb_le _ _)) by lia.
    rewrite (proj2 (Z.ltb_ge _ _)) by lia.
    set (pre' := pre ++ u16_to_be c ++ u16_to_be (zlen d)).
    assert (Hp' : zlen pre' = zlen pre + 4) by (unfold pre'; by rewrite !zlen_app).
    assert (Hraw' : raw = pre' ++ d ++ options_raw o).
    { unfold raw, pre'. rewrite options_raw_cons. by rewrite <-!app_assoc. }
    rewrite <-Hp'. rewrite Hraw' at 1. rewrite get_range_app. rewrite Hraw', app_assoc, <-zlen_app.
    apply IH; [done| |simpl in Hf; lia]. rewrite <-app_assoc, <-Hraw', Hz. lia.
Qed.

(** What the visitor saw is what the octets hold. *)
Lemma visit_loop_sound {S_} (visit : S_ → Z → list Z → S_) raw : ∀ fuel i s s',
  is_bytes raw → zlen raw ≤ U16_MAX → 0 ≤ i ≤ zlen raw →
  visit_loop visit fuel raw i s = Ok s' →
  ∃ o, Forall option_wf o ∧ drop (Z.to_nat i) raw = options_raw o ∧
    s' = fold_left (λ s '(c, d), visit s c d) o s.
Proof.
  intros fuel i s s' Hb Hl. revert i s. induction fuel as [|fuel IH]; intros i s Hi H; [done|].
  cbn [visit_loop] in H. destruct (i <? zlen raw) eqn:Hlt; bool_prop.
  2:{ injection H as <-. exists []. split_and!; [constructor| |done].
      rewrite drop_ge; [done|]. unfold zlen in *. lia. }
  destruct (zlen raw - i <? 4) eqn:H4; bool_prop; [done|].
  destruct (get raw i) as [c0|] eqn:G0; [|done]. destruct (get raw (i + 1)) as [c1|] eqn:G1; [|done].
  destruct (get raw (i + 2)) as [l0|] eqn:G2; [|done]. destruct (get raw (i + 3)) as [l1|] eqn:G3; [|done].
  pose proof (Forall_get _ _ _ _ Hb G0) as U0. pose proof (Forall_get _ _ _ _ Hb G1) as U1.
  pose proof (Forall_get _ _ _ _ Hb G2) as U2. pose proof (Forall_get _ _ _ _ Hb G3) as U3.
  simpl in U0, U1, U2, U3.
  unfold checked_add in H. destruct (_ <=? USIZE_MAX); [|done].
  destruct (zlen raw <? _) eqn:Hend; bool_prop; [done|].
  destruct (get_range _ _ _) as [d|] eqn:Hd; [|done].
  pose proof (u16_from_be_u16 l0 l1 U2 U3) as Hu. unfold is_u16 in Hu.
  destruct (IH (i + 4 + u16_from_be l0 l1) _ ltac:(lia) H) as (o & Ho & Hdrop & ->).
  exists ((u16_from_be c0 c1, d) :: o). split_and!; [|rewrite options_raw_cons|done].
  - constructor; [|done]. split; [by apply u16_from_be_u16|]. split; [by eapply Forall_get_range|].
    apply get_range_Some in Hd. simpl. lia.
  - assert (Hzd : zlen d = u16_from_be l0 l1) by (apply get_range_Some in Hd; lia).
    rewrite Hzd, !u16_to_from_be, (drop_get _ _ _ G0), (drop_get _ _ _ G1) by done.
    replace (i + 1 + 1) with (i + 2) by lia. rewrite (drop_get _ _ _ G2).
    replace (i + 2 + 1) with (i + 3) by lia. rewrite (drop_get _ _ _ G3).
    rewrite <-Hdrop. simpl. do 4 f_equal. replace (i + 3 + 1) with (i + 4) by lia.
    by apply drop_get_range.
Qed.

Lemma visit_loop_returns {S_} (visit : S_ → Z → list Z → S_) raw : ∀ fuel i s,
  is_bytes raw → 0 ≤ i → (Z.to_nat (zlen raw - i) < fuel)%nat →
  returns (visit_loop visit fuel raw i s).
Proof.
  intros fuel i s Hb. revert i s. induction fuel as [|fuel IH]; intros i s Hi Hf; [lia|].
  cbn [visit_loop]. destruct (i <? zlen raw) eqn:Hlt; bool_prop; [|done].
  destruct (zlen raw - i <? 4) eqn:H4; bool_prop; [done|].
  destruct (get_is_Some raw i) as [c0 ->]; [lia|]. destruct (get_is_Some raw (i + 1)) as [c1 ->]; [lia|].
  destruct (get_is_Some raw (i + 2)) as [l0 G2]; [lia|].
  destruct (get_is_Some raw (i + 3)) as [l1 G3]; [lia|]. rewrite G2, G3.
  pose proof (u16_from_be_u16 l0 l1 (Forall_get _ _ _ _ Hb G2) (Forall_get _ _ _ _ Hb G3)) as Hu.
  unfold is_u16 in Hu. cbv zeta. destruct (checked_add _ _) as [e|] eqn:He; [|done].
  unfold checked_add in He. case_match; simplify_eq.
  destruct (zlen raw <? _) eqn:Hend; bool_prop; [done|].
  rewrite get_range_is_Some by lia. apply IH; lia.
Qed.

Lemma fold_left_snoc (o acc : list (Z * list Z)) :
  fold_left (λ s '(c, d), s ++ [(c, d)]) o acc = acc ++ o.
Proof.
  revert acc. induction o as [|[c d] o IH]; intros acc; simpl; [by rewrite app_nil_r|].
  by rewrite IH, <-app_assoc.
Qed.

(** The encoder of the option list. *)
Lemma options_to_raw_spec o raw raw' :
  options_to_raw o raw = Ok raw' →
  raw' = raw ++ options_raw o ∧ Forall (λ p, zlen (snd p) ≤ U16_MAX) o ∧
  (zlen raw ≤ U16_MAX → zlen raw' ≤ U16_MAX).
Proof.
  revert raw. induction o as [|[c d] o IH]; intros raw H; cbn [options_to_raw] in H.
  { injection H as <-. split_and!; [by rewrite app_nil_r|constructor|done]. }
  unfold u16_try_from in H. destruct (zlen d <=? U16_MAX) eqn:Hd; bool_prop; [|done].
  unfold checked_add in H. destruct (zlen raw + 4 <=? USIZE_MAX); cbn [mbind option_bind] in H; [|done].
  destruct (_ <=? USIZE_MAX); [|done]. destruct (U16_MAX <? _) eqn:Hn; bool_prop; [done|].
  destruct (IH _ H) as (-> & Ho & Hl). split_and!.
  - by rewrite options_raw_cons, <-!app_assoc.
  - by constructor.
  - intros _. apply Hl. rewrite !zlen_app, !zlen_u16_to_be. lia.
Qed.

Lemma options_to_raw_ok o raw :
  zlen raw + zlen (options_raw o) ≤ U16_MAX → options_to_raw o raw = Ok (raw ++ options_raw o).
Proof.
  revert raw. induction o as [|[c d] o IH]; intros raw H; cbn [options_to_raw].
  { by rewrite app_nil_r. }
  rewrite zlen_options_raw_cons in H. pose proof (zlen_nonneg raw). pose proof (zlen_nonneg d).
  pose proof (zlen_nonneg (options_raw o)). unfold u16_try_from. rewrite (proj2 (Z.leb_le _ _)) by lia.
  unfold checked_add. unfold U16_MAX, USIZE_MAX in *. rewrite (proj2 (Z.leb_le _ _)) by lia.
  cbn [mbind option_bind]. rewrite (proj2 (Z.leb_le _ _)) by lia. rewrite (proj2 (Z.ltb_ge _ _)) by lia.
  rewrite IH; [|rewrite !zlen_app, !zlen_u16_to_be; lia].
  by rewrite options_raw_cons, <-!app_assoc.
Qed.

Lemma options_to_raw_returns o raw : returns (options_to_raw o raw).
Proof.
  revert raw. induction o as [|[c d] o IH]; intros raw; cbn [options_to_raw]; [done|].
  repeat case_match; done || apply IH.
Qed.

(** ** The TTL of an OPT record *)

Lemma Edns_ttl_val e :
  is_u8 (extended_rcode e) → is_u8 (version e) →
  Edns_ttl e = extended_rcode e * 16777216 + version e * 65536 + (if dnssec_ok e then 32768 else 0).
Proof.
  unfold is_u8, U8_MAX. intros Hx Hv. unfold Edns_ttl.
  rewrite (Z.shiftl_mul_pow2 (version e)) by lia. rewrite lor_shiftl_add by lia.
  replace (extended_rcode e * 2 ^ 24 + version e * 2 ^ 16)
    with (Z.shiftl (extended_rcode e * 256 + version e) 16)
    by (rewrite Z.shiftl_mul_pow2 by lia; lia).
  rewrite lor_shiftl_add by (destruct (dnssec_ok e); lia). lia.
Qed.

Lemma ttl_byte t n : 0 ≤ n → Z.land (Z.shiftr t n) 255 = (t / 2 ^ n) mod 256.
Proof. intros Hn. by rewrite land_255, Z.shiftr_div_pow2. Qed.

(** The DO bit is bit 15. *)
Lemma ttl_do_bit t : negb (Z.land t 32768 =? 0) = Z.testbit t 15.
Proof.
  change 32768 with (2 ^ 15). destruct (Z.testbit t 15) eqn:Ht.
  - apply negb_true_iff, Z.eqb_neq. intros H0. apply (f_equal (λ z, Z.testbit z 15)) in H0.
    rewrite Z.land_spec, Ht, Z.pow2_bits_true in H0 by lia. done.
  - apply negb_false_iff, Z.eqb_eq. apply Z.bits_inj'. intros k Hk.
    rewrite Z.land_spec, Z.bits_0. destruct (decide (k = 15)) as [->|]; [by rewrite Ht|].
    rewrite Z.pow2_bits_false by lia. apply andb_false_r.
Qed.

Lemma testbit_div t n : 0 ≤ n → Z.testbit t n = ((t / 2 ^ n) mod 2 =? 1).
Proof.
  intros Hn. rewrite <-Z.testbit_spec' by done. by destruct (Z.testbit t n).
Qed.

Lemma Edns_ttl_fields e :
  is_u8 (extended_rcode e) → is_u8 (version e) →
  Z.land (Z.shiftr (Edns_ttl e) 24) 255 = extended_rcode e ∧
  Z.land (Z.shiftr (Edns_ttl e) 16) 255 = version e ∧
  negb (Z.land (Edns_ttl e) 32768 =? 0) = dnssec_ok e ∧ is_u32 (Edns_ttl e).
Proof.
  intros Hx Hv. rewrite ttl_do_bit, !ttl_byte, testbit_div by lia. rewrite Edns_ttl_val by done.
  unfold is_u8, is_u32, U8_MAX, U32_MAX in *.
  change (2 ^ 24) with 16777216. change (2 ^ 16) with 65536. change (2 ^ 15) with 32768.
  destruct (dnssec_ok e); split_and!; div_mod_lia.
Qed.

(** ** Records and EDNS states *)

Lemma try_to_record_spec e rec :
  Edns_try_to_record e = Ok rec →
  rec = {| name := Name_root; rtype := TYPE_OPT; class := udp_payload e; ttl := Edns_ttl e;
           rdata := RD_Unknown TYPE_OPT (options_raw (options e)) |} ∧
  Forall (λ p, zlen (snd p) ≤ U16_MAX) (options e) ∧ zlen (options_raw (options e)) ≤ U16_MAX.
Proof.
  unfold Edns_try_to_record. destruct (options_to_raw _ _) as [raw| | |] eqn:Hr; try done.
  simpl. intros [= <-]. destruct (options_to_raw_spec _ _ _ Hr) as (-> & Ho & Hl). simpl in *.
  split_and!; [done|done|]. apply Hl. unfold U16_MAX. rewrite zlen_nil. lia.
Qed.

Lemma options_raw_bytes o : Forall (λ p, is_bytes (snd p)) o → is_bytes (options_raw o).
Proof.
  induction 1 as [|[c d] o Hd _ IH]; [constructor|]. rewrite options_raw_cons.
  unfold is_bytes. rewrite !Forall_app. split_and!; try done; apply u16_to_be_bytes.
Qed.

Lemma length_options_raw o : Z.of_nat (length o) ≤ zlen (options_raw o).
Proof.
  induction o as [|[c d] o IH]; [done|]. rewrite zlen_options_raw_cons. pose proof (zlen_nonneg d).
  simpl length. lia.
Qed.

Lemma Edns_visit_options_raw {S_} o (visit : S_ → Z → list Z → S_) s :
  Forall option_wf o → zlen (options_raw o) ≤ U16_MAX →
  Edns_visit_options (options_raw o) visit s = Ok (fold_left (λ s '(c, d), visit s c d) o s).
Proof.
  intros Ho Hl. unfold Edns_visit_options. apply (visit_loop_raw visit o _ []); [done|done|].
  pose proof (length_options_raw o). unfold zlen in *. lia.
Qed.

Lemma Edns_visit_options_returns {S_} raw (visit : S_ → Z → list Z → S_) s :
  is_bytes raw → returns (Edns_visit_options raw visit s).
Proof. intros Hb. apply visit_loop_returns; [done|done|]. unfold zlen. lia. Qed.

Lemma Edns_visit_options_sound {S_} raw (visit : S_ → Z → list Z → S_) s s' :
  is_bytes raw → zlen raw ≤ U16_MAX → Edns_visit_options raw visit s = Ok s' →
  ∃ o, Forall option_wf o ∧ raw = options_raw o ∧ s' = fold_left (λ s '(c, d), visit s c d) o s.
Proof.
  intros Hb Hl H. apply (visit_loop_sound visit raw (S (length raw)) 0); try done. pose proof (zlen_nonneg raw). lia.
Qed.

(** The record that [try_to_record] builds, seen by both readers. *)
Lemma Edns_option_wf e : edns_wf e → Forall (λ p, zlen (snd p) ≤ U16_MAX) (options e) →
  Forall option_wf (options e).
Proof.
  intros (_ & _ & _ & Ho) Hl. rewrite Forall_forall in *. intros p Hp.
  destruct (Ho p Hp). split_and!; auto.
Qed.

Lemma Edns_record_parts_ok rec t raw :
  Edns_record_parts rec = Ok (t, raw) →
  rtype rec = TYPE_OPT ∧ Name_is_root (name rec) = true ∧ t = ttl rec ∧
  ∃ u, rdata rec = RD_Unknown u raw.
Proof.
  unfold Edns_record_parts. intros H. destruct (negb (rtype rec =? _)) eqn:Ht; bool_prop; [done|].
  destruct (negb (Name_is_root _)) eqn:Hr; bool_prop; [done|].
  destruct (rdata rec); try done. injection H as <- <-. eauto.
Qed.

(** Reading back an EDNS state from the record it was turned into. *)
Lemma try_from_to_record e rec :
  edns_wf e → Edns_try_to_record e = Ok rec → Edns_try_from_record rec = Ok e.
Proof.
  intros Hwf H. destruct (try_to_record_spec e rec H) as (-> & Hol & Hl).
  unfold Edns_try_from_record, Edns_record_parts. simpl.
  rewrite Edns_visit_options_raw by (done || by apply Edns_option_wf).
  destruct Hwf as (_ & Hx & Hv & _). destruct (Edns_ttl_fields e Hx Hv) as (H1 & H2 & H3 & _).
  cbn [obind]. rewrite fold_left_snoc, H1, H2, H3. by destruct e.
Qed.

(** The two readers agree on the extended response code. *)
Lemma validate_try_from rec :
  Edns_validate_record rec =
  obind (Edns_try_from_record rec) (λ e, Ok (extended_rcode e)).
Proof.
  unfold Edns_validate_record, Edns_try_from_record.
  destruct (Edns_record_parts rec) as [[t raw]| | |]; try done. cbn [obind].
  assert (H : ∀ fuel i (s : list (Z * list Z)),
    visit_loop (λ s _ _, s) fuel raw i tt =
    obind (visit_loop (λ o c d, o ++ [(c, d)]) fuel raw i s) (λ _, Ok tt)).
  { induction fuel as [|fuel IH]; intros i s; [done|]. cbn [visit_loop]. cbv zeta.
    repeat (case_match; try done); apply IH. }
  unfold Edns_visit_options. rewrite (H _ _ []). by destruct (visit_loop _ _ _ _ []).
Qed.

Lemma try_from_record_returns rec : rdata_wf (rdata rec) → returns (Edns_try_from_record rec).
Proof.
  intros Hwf. unfold Edns_try_from_record, Edns_record_parts.
  destruct (negb _); [done|]. destruct (negb _); [done|]. destruct (rdata rec); try done. cbn [obind].
  pose proof (Edns_visit_options_returns bytes (λ o c d, o ++ [(c, d)]) ([] : list (Z * list Z)) Hwf).
  by destruct (Edns_visit_options _ _ _).
Qed.

(** What a record that is read tells: its options are its RDATA. *)
Lemma try_from_record_spec rec e :
  rdata_wf (rdata rec) → (∀ u raw, rdata rec = RD_Unknown u raw → zlen raw ≤ U16_MAX) →
  is_u16 (class rec) → Edns_try_from_record rec = Ok e →
  rtype rec = TYPE_OPT ∧ Name_is_root (name rec) = true ∧ class rec = udp_payload e ∧
  edns_wf e ∧ Forall (λ p, zlen (snd p) ≤ U16_MAX) (options e) ∧
  extended_rcode e = (ttl rec / 16777216) mod 256 ∧ version e = (ttl rec / 65536) mod 256 ∧
  dnssec_ok e = Z.testbit (ttl rec) 15 ∧
  ∃ u, rdata rec = RD_Unknown u (options_raw (options e)) ∧ zlen (options_raw (options e)) ≤ U16_MAX.
Proof.
  intros Hwf Hlen Hc H. unfold Edns_try_from_record in H.
  destruct (Edns_record_parts rec) as [[t raw]| | |] eqn:Hp; try done. cbn [obind] in H.
  destruct (Edns_record_parts_ok _ _ _ Hp) as (Ht & Hr & -> & u & Hu).
  destruct (Edns_visit_options _ _ _) as [o| | |] eqn:Ho; try done. injection H as <-. simpl.
  rewrite Hu in Hwf. specialize (Hlen u raw Hu).
  destruct (Edns_visit_options_sound _ _ _ _ Hwf Hlen Ho) as (o' & Ho' & -> & ->).
  rewrite fold_left_snoc. simpl. rewrite ttl_do_bit, !ttl_byte by lia.
  split_and!; try done.
  - split_and!; simpl; try (unfold is_u8, U8_MAX; div_mod_lia); [done|].
    eapply Forall_impl; [done|]. intros p (? & ? & ?). done.
  - eapply Forall_impl; [done|]. by intros p (? & ? & ?).
  - by exists u.
Qed.
