(* ===== verification/Message.v ===== *)
(** * DNS messages ([Header] and [Message] of [onetdns-proto/src/message.rs])

    The header flags, the strict message parser, the checked encoder, and the
    operations that edit the OPT record. *)

From S2P Require Import Prelude NameTable Wire Writer Name Codec NameCodec RData RDataCodec.
From S2P Require Import RecordCodec Edns.

#[local] Open Scope writer_scope.

(** [struct Header]. *)
Record Header := mkHeader {
  msg_id : Z;
  response : bool;
  opcode : Z;
  authoritative : bool;
  truncated : bool;
  recursion_desired : bool;
  recursion_available : bool;
  authentic_data : bool;
  checking_disabled : bool;
  rcode : Z;
}.

Definition Header_default : Header :=
  {| msg_id := 0; response := false; opcode := 0; authoritative := false; truncated := false;
     recursion_desired := false; recursion_available := false; authentic_data := false;
     checking_disabled := false; rcode := 0 |}.

Definition set_rcode (c : Z) (h : Header) : Header :=
  {| msg_id := msg_id h; response := response h; opcode := opcode h; authoritative := authoritative h;
     truncated := truncated h; recursion_desired := recursion_desired h;
     recursion_available := recursion_available h; authentic_data := authentic_data h;
     checking_disabled := checking_disabled h; rcode := c |}.

(** [if b { f |= mask; }]. *)
Definition or_if (b : bool) (mask f : Z) : Z := if b then Z.lor f mask else f.

(** [Header::flags]. *)
Definition Header_flags (h : Header) : Z :=
  let f := or_if (response h) 0x8000 0 in
  let f := Z.lor f (Z.shiftl (Z.land (opcode h) 0xF) 11) in
  let f := or_if (authoritative h) 0x0400 f in
  let f := or_if (truncated h) 0x0200 f in
  let f := or_if (recursion_desired h) 0x0100 f in
  let f := or_if (recursion_available h) 0x0080 f in
  let f := or_if (authentic_data h) 0x0020 f in
  let f := or_if (checking_disabled h) 0x0010 f in
  Z.lor f (Z.land (rcode h) 0xF).

Definition flag (f mask : Z) : bool := negb (Z.land f mask =? 0).

(** [Header::from_flags]. *)
Definition Header_from_flags (i f : Z) : Header :=
  {| msg_id := i;
     response := flag f 0x8000;
     opcode := Z.land (Z.shiftr f 11) 0xF;
     authoritative := flag f 0x0400;
     truncated := flag f 0x0200;
     recursion_desired := flag f 0x0100;
     recursion_available := flag f 0x0080;
     authentic_data := flag f 0x0020;
     checking_disabled := flag f 0x0010;
     rcode := Z.land f 0xF |}.

(** [struct Question]. *)
Record Question := mkQuestion {
  qname : Name;
  qtype : Z;
  qclass : Z;
}.

(** [struct Message]. *)
Record Message := mkMessage {
  header : Header;
  questions : list Question;
  answers : list Record_;
  authorities : list Record_;
  additionals : list Record_;
}.

Definition set_additionals (a : list Record_) (m : Message) : Message :=
  {| header := header m; questions := questions m; answers := answers m;
     authorities := authorities m; additionals := a |}.

(** ** [Message::parse] *)

(** The loops [for _ in 0..n] that push what [p] reads. *)
Fixpoint parse_n {A} (n : nat) (p : Parser A) : Parser (list A) :=
  match n with
  | O => pret []
  | S n => let! a := p in let! l := parse_n n p in pret (a :: l)
  end.

Definition Question_parse : Parser Question :=
  let! n := Name_parse in
  let! t := Reader_u16 in
  let! c := Reader_u16 in
  pret {| qname := n; qtype := t; qclass := c |}.

(** The record parser of a section; [update_section] as in [read_n]. *)
Definition section_classes (update_section : Z) : option (list Z) :=
  if update_section =? 1 then Some [254; 255]
  else if update_section =? 2 then Some [255] else None.

Definition read_n (n : Z) (update_section : Z) : Parser (list Record_) :=
  parse_n (Z.to_nat n)
    (if update_section =? 1 then Record_parse_update_empty
     else if update_section =? 2 then Record_parse_update_operation else Record_parse).

Definition MAX_SECTION_ITEMS : Z := 4096.

Definition is_opt (rec : Record_) : bool := rtype rec =? TYPE_OPT.

(** The section count check. *)
Definition counts_impossible (qd an ns ar remaining : Z) : bool :=
  (MAX_SECTION_ITEMS <? qd) || (MAX_SECTION_ITEMS <? an) || (MAX_SECTION_ITEMS <? ns)
  || (MAX_SECTION_ITEMS <? ar) || (remaining <? saturating_mul qd 5)
  || (remaining <? saturating_mul (saturating_add (saturating_add an ns) ar) 11).

(** The OPT rules on a parsed additional section: the header to return. *)
Definition parse_opt_rcode (h : Header) (adds : list Record_) : outcome ProtoError Header :=
  match List.filter is_opt adds with
  | [] => Ok h
  | [opt] =>
      obind (Edns_validate_record opt) (λ ext, Ok (set_rcode (Z.lor (rcode h) (Z.shiftl ext 4)) h))
  | _ :: _ :: _ => Err (ErrMessage "DNS 메시지에는 OPT 레코드를 하나만 넣을 수 있습니다")
  end.

(** The part of [Message::parse] after the header. *)
Definition Message_parse_sections (h : Header) (qd an ns ar : Z) : Parser Message := λ r,
  if counts_impossible qd an ns ar (Reader_remaining r)
  then (Err (ErrMessage "불가능하거나 과도한 DNS section count"), r)
  else
    (let! qs := parse_n (Z.to_nat qd) Question_parse in
     let is_update := (opcode h =? 5) && negb (response h) in
     let! ans := read_n an (if is_update then 1 else 0) in
     let! auths := read_n ns (if is_update then 2 else 0) in
     if existsb is_opt (ans ++ auths)
     then pfail (ErrMessage "OPT 레코드는 Additional 섹션에만 올 수 있습니다")
     else
       let! adds := read_n ar 0 in
       λ r,
       if negb (Reader_remaining r =? 0)
       then (Err (ErrMessage "DNS 메시지 뒤에 해석되지 않은 바이트가 남음"), r)
       else
         (obind (parse_opt_rcode h adds) (λ h,
            Ok {| header := h; questions := qs; answers := ans; authorities := auths;
                  additionals := adds |}), r)) r.

Definition Message_parse_body : Parser Message :=
  let! i := Reader_u16 in
  let! flags := Reader_u16 in
  let! qd := Reader_u16 in
  let! an := Reader_u16 in
  let! ns := Reader_u16 in
  let! ar := Reader_u16 in
  Message_parse_sections (Header_from_flags i flags) qd an ns ar.

(** [Message::parse]. *)
Definition Message_parse (buf : list Z) : outcome ProtoError Message :=
  if MAX_DNS_WIRE_LEN <? zlen buf
  then Err (ErrMessage "DNS 메시지가 최대 wire 크기인 65,535바이트를 넘었습니다")
  else fst (Message_parse_body (Reader_new buf)).

(** ** Encoding *)

(** The loop that compares TYPE with the RDATA and validates it. *)
Fixpoint check_records (l : list Record_) : outcome ProtoError unit :=
  match l with
  | [] => Ok tt
  | rec :: l =>
      if negb (rtype rec =? RData_record_type (rdata rec))
      then Err (ErrMessage ("DNS 레코드 TYPE " +:+ pretty (rtype rec) +:+ "와 RDATA TYPE " +:+
                  pretty (RData_record_type (rdata rec)) +:+ "가 일치하지 않습니다"))
      else obind (RData_validate (rdata rec)) (λ _, check_records l)
  end.

Definition too_many (message : string) (n : Z) : outcome ProtoError Z :=
  match u16_try_from n with Some v => Ok v | None => Err (ErrMessage message) end.

(** The checks of [encode_checked_into] before anything is written: the four
    counts and whether an OPT record must be synthesised. *)
Definition encode_checks (m : Message) : outcome ProtoError (Z * Z * Z * Z * bool) :=
  if 0x0f <? opcode (header m) then Err (ErrMessage "DNS opcode가 4비트 범위를 넘었습니다")
  else if 0x0fff <? rcode (header m) then Err (ErrMessage "DNS 응답 코드가 12비트 범위를 넘었습니다")
  else
    obind (too_many "DNS 질문 수가 65,535개를 넘었습니다" (zlen (questions m))) (λ qd,
    obind (too_many "DNS 응답 레코드 수가 65,535개를 넘었습니다" (zlen (answers m))) (λ an,
    obind (too_many "DNS 권한 레코드 수가 65,535개를 넘었습니다" (zlen (authorities m))) (λ ns,
    let opt_count := zlen (List.filter is_opt (additionals m)) in
    if 1 <? opt_count
    then Err (ErrMessage "DNS 메시지에는 OPT 레코드를 하나만 넣을 수 있습니다")
    else if existsb is_opt (answers m ++ authorities m)
    then Err (ErrMessage "OPT 레코드는 Additional 섹션에만 올 수 있습니다")
    else
      obind (check_records (answers m ++ authorities m ++ additionals m)) (λ _,
      obind (match find is_opt (additionals m) with
             | None => Ok tt
             | Some opt =>
                 if negb (Name_is_root (name opt)) then Err (ErrMessage "OPT owner는 root여야 함")
                 else obind (Edns_try_from_record opt) (λ _, Ok tt)
             end) (λ _,
      let needs_synthetic_opt := (0x0f <? rcode (header m)) && (opt_count =? 0) in
      match checked_add (zlen (additionals m)) (if needs_synthetic_opt then 1 else 0) with
      | None => Err (ErrMessage "additional count 계산 범위를 넘었습니다")
      | Some ar_len =>
          obind (too_many "DNS 부가 레코드 수가 65,535개를 넘었습니다" ar_len) (λ ar,
          Ok (qd, an, ns, ar, needs_synthetic_opt))
      end))))).

(** Code that writes and may return early. *)
Definition Enc : Type := Writer → outcome ProtoError unit * Writer.

Definition ebind (e k : Enc) : Enc := λ w,
  match e w with (Ok _, w') => k w' | (o, w') => (o, w') end.
Notation "e1 ;? e2" := (ebind e1 e2) (at level 65, right associativity) : writer_scope.

(** Writes followed by [Self::stop_on_writer_error(w)?]. *)
Definition stop_on_writer_error : Enc := λ w,
  match werror w with Some e => (Err e, w) | None => (Ok tt, w) end.
Definition eput (e : Writer → Writer) : Enc := λ w, stop_on_writer_error (e w).

Fixpoint eput_all {A} (e : A → Writer → Writer) (l : list A) : Enc :=
  match l with
  | [] => λ w, (Ok tt, w)
  | a :: l => eput (e a) ;? eput_all e l
  end.

Definition Question_encode (q : Question) : Writer → Writer :=
  Name_encode (qname q) ;> Writer_push_u16 (qtype q) ;> Writer_push_u16 (qclass q).

(** The upper eight bits of the response code, [((rcode >> 4) & 0xff) as u8]. *)
Definition rcode_ext (h : Header) : Z := Z.land (Z.shiftr (rcode h) 4) 0xff.

(** The TTL an additional record is written with. *)
Definition additional_ttl (h : Header) (rec : Record_) : Z :=
  if is_opt rec then Z.lor (Z.land (ttl rec) 0x00ffffff) (Z.shiftl (rcode_ext h) 24) else ttl rec.

Definition additional_encode (h : Header) (rec : Record_) : Writer → Writer :=
  Record_encode_with_ttl rec (additional_ttl h rec).

Definition encode_synthetic_opt (h : Header) : Enc := λ w,
  match Edns_try_to_record (set_extended_rcode (rcode_ext h) Edns_default) with
  | Ok rec => eput (Record_encode rec) w
  | Err e => (Err e, w)
  | Panic => (Panic, w)
  | NoFuel => (NoFuel, w)
  end.

(** [Message::encode_checked_into]. *)
Definition Message_encode_checked_into (m : Message) : Enc := λ w,
  match encode_checks m with
  | Ok (qd, an, ns, ar, needs_synthetic_opt) =>
      (eput (Writer_push_u16 (msg_id (header m)) ;> Writer_push_u16 (Header_flags (header m)) ;>
             Writer_push_u16 qd ;> Writer_push_u16 an ;> Writer_push_u16 ns ;> Writer_push_u16 ar) ;?
       eput_all Question_encode (questions m) ;?
       eput_all Record_encode (answers m) ;?
       eput_all Record_encode (authorities m) ;?
       eput_all (additional_encode (header m)) (additionals m) ;?
       (if needs_synthetic_opt then encode_synthetic_opt (header m) else λ w, (Ok tt, w))) w
  | Err e => (Err e, w)
  | Panic => (Panic, w)
  | NoFuel => (NoFuel, w)
  end.

(** [Message::try_encode], with the seed of the new writer's table. *)
Definition Message_try_encode (hb : list Z → Z) (m : Message) : outcome ProtoError (list Z) :=
  match Message_encode_checked_into m (Writer_new hb) with
  | (Ok _, w) => Writer_finish w
  | (Err e, _) => Err e
  | (Panic, _) => Panic
  | (NoFuel, _) => NoFuel
  end.

(** [Message::try_encode_into]. *)
Definition Message_try_encode_into (m : Message) : Enc := λ w,
  if negb (zlen (wbuf w) =? 0) || negb (NameMap_is_empty (wnames w)) || Writer_is_failed w
  then (Err (ErrMessage "DNS 메시지를 직접 인코딩하려면 비어 있는 출력 버퍼가 필요합니다"), w)
  else Message_encode_checked_into m w.

(** ** Other operations *)

(** [Message::query]. *)
Definition Message_query (i : Z) (n : Name) (t : Z) : Message :=
  {| header := {| msg_id := i; response := false; opcode := 0; authoritative := false;
                  truncated := false; recursion_desired := true; recursion_available := false;
                  authentic_data := false; checking_disabled := false; rcode := 0 |};
     questions := [{| qname := n; qtype := t; qclass := CLASS_IN |}];
     answers := []; authorities := []; additionals := [] |}.

(** [Message::opt]. *)
Definition Message_opt (m : Message) : option Record_ := find is_opt (additionals m).

(** [Message::requested_padding]. *)
Definition Message_requested_padding (m : Message) : bool :=
  match Message_opt m ≫= Edns_from_record with
  | Some e => Edns_has_option EDNS_PADDING e
  | None => false
  end.

(** [iter().position(|r| r.rtype == OPT)]. *)
Fixpoint opt_position (l : list Record_) : option nat :=
  match l with
  | [] => None
  | rec :: l => if is_opt rec then Some 0%nat else S <$> opt_position l
  end.

(** [self.additionals[idx] = rec]. *)
Definition replace_additional (idx : nat) (rec : Record_) (m : Message) : Message :=
  set_additionals (<[idx := rec]> (additionals m)) m.

(** The octets that pad a message of [base] octets to a multiple of [block],
    the option header included. *)
Definition pad_len (block base : Z) : Z := (block - (base + 4) mod block) mod block.

(** [Message::pad_to]: the result and the message as it is left. *)
Definition Message_pad_to (hb : list Z → Z) (block : Z) (m : Message) :
    outcome ProtoError unit * Message :=
  if block =? 0 then (Ok tt, m)
  else match opt_position (additionals m) with
  | None => (Ok tt, m)
  | Some idx =>
      match additionals m !! idx with
      | None => (Panic, m)
      | Some opt =>
          match Edns_try_from_record opt with
          | Ok edns =>
              let edns := set_options (retain_not EDNS_PADDING (options edns)) edns in
              match Edns_try_to_record edns with
              | Ok rec =>
                  let m := replace_additional idx rec m in
                  match Message_try_encode hb m with
                  | Ok b =>
                      let edns := set_options (options edns ++
                        [(EDNS_PADDING, replicate (Z.to_nat (pad_len block (zlen b))) 0)]) edns in
                      match Edns_try_to_record edns with
                      | Ok rec => (Ok tt, replace_additional idx rec m)
                      | Err e => (Err e, m)
                      | Panic => (Panic, m)
                      | NoFuel => (NoFuel, m)
                      end
                  | Err e => (Err e, m)
                  | Panic => (Panic, m)
                  | NoFuel => (NoFuel, m)
                  end
              | Err e => (Err e, m)
              | Panic => (Panic, m)
              | NoFuel => (NoFuel, m)
              end
          | Err e => (Err e, m)
          | Panic => (Panic, m)
          | NoFuel => (NoFuel, m)
          end
      end
  end.

(** The common shape of [set_tcp_keepalive] and [set_client_subnet]: edit the
    OPT record, or append one. *)
Definition edit_opt (f : Edns → Edns) (m : Message) : outcome ProtoError Message :=
  match opt_position (additionals m) with
  | Some idx =>
      match additionals m !! idx with
      | None => Panic
      | Some opt =>
          obind (Edns_try_from_record opt) (λ edns,
          obind (Edns_try_to_record (f edns)) (λ rec, Ok (replace_additional idx rec m)))
      end
  | None =>
      obind (Edns_try_to_record (f Edns_default)) (λ rec,
      Ok (set_additionals (additionals m ++ [rec]) m))
  end.

(** [Message::set_tcp_keepalive] and [Message::set_client_subnet]; on an error
    the message is unchanged. *)
Definition Message_set_tcp_keepalive (timeout_100ms : Z) : Message → outcome ProtoError Message :=
  edit_opt (Edns_set_tcp_keepalive timeout_100ms).
Definition Message_set_client_subnet (option : list Z) : Message → outcome ProtoError Message :=
  edit_opt (Edns_set_client_subnet option).
