(* ===== verification/MessageSafety.v ===== *)
(** * The message parser and the encoder on arbitrary input

    Whatever the octets are, the parser returns; a message that is accepted
    satisfies the invariants the rest of the server relies on.

    For every message whose fields have the ranges of their Rust types, the
    encoder returns, and what it returns is at most 65,535 octets long: no
    branch of the encoder writes past the limit of its buffer. *)

From S2P Require Import Prelude NameTable Wire Writer Name Codec NameCodec RData RDataCodec.
From S2P Require Import RecordCodec Edns Message.

#[local] Open Scope writer_scope.

(** ** Header flags *)

Definition header_wf (h : Header) : Prop :=
  is_u16 (msg_id h) ∧ 0 ≤ opcode h ≤ 15 ∧ 0 ≤ rcode h ≤ 4095.

(** Enumeration of booleans and of four-bit numbers. *)
Definition all_bool (P : bool → bool) : bool := P true && P false.
Definition all_nibble (P : Z → bool) : bool := forallb (λ n, P (Z.of_nat n)) (seq 0 16).

Lemma all_bool_spec P : all_bool P = true → ∀ b, P b = true.
Proof. intros [H1 H2]%andb_prop. by intros []. Qed.

Lemma all_nibble_spec P : all_nibble P = true → ∀ v, 0 ≤ v ≤ 15 → P v = true.
Proof.
  unfold all_nibble. rewrite forallb_forall. intros H v Hv. rewrite <-(Z2Nat.id v) by lia.
  apply H, in_seq. lia.
Qed.

(** A decidable fact about all headers with id 0 and 4-bit codes. *)
Definition all_headers (P : Header → bool) : bool :=
  all_nibble (λ o, all_nibble (λ c, all_bool (λ b1, all_bool (λ b2, all_bool (λ b3,
  all_bool (λ b4, all_bool (λ b5, all_bool (λ b6, all_bool (λ b7,
    P {| msg_id := 0; response := b1; opcode := o; authoritative := b2; truncated := b3;
         recursion_desired := b4; recursion_available := b5; authentic_data := b6;
         checking_disabled := b7; rcode := c |}))))))))).

Lemma all_headers_spec P h :
  all_headers P = true → 0 ≤ opcode h ≤ 15 → 0 ≤ rcode h ≤ 15 →
  P {| msg_id := 0; response := response h; opcode := opcode h; authoritative := authoritative h;
       truncated := truncated h; recursion_desired := recursion_desired h;
       recursion_available := recursion_available h; authentic_data := authentic_data h;
       checking_disabled := checking_disabled h; rcode := rcode h |} = true.
Proof.
  intros H Ho Hc. unfold all_headers in H.
  apply all_nibble_spec with (v := opcode h) in H; [|done].
  apply all_nibble_spec with (v := rcode h) in H; [|done].
  apply all_bool_spec with (b := response h) in H.
  apply all_bool_spec with (b := authoritative h) in H.
  apply all_bool_spec with (b := truncated h) in H.
  apply all_bool_spec with (b := recursion_desired h) in H.
  apply all_bool_spec with (b := recursion_available h) in H.
  apply all_bool_spec with (b := authentic_data h) in H.
  by apply all_bool_spec with (b := checking_disabled h) in H.
Qed.

Definition header_eqb (g h : Header) : bool :=
  Bool.eqb (response g) (response h) && (opcode g =? opcode h) &&
  Bool.eqb (authoritative g) (authoritative h) && Bool.eqb (truncated g) (truncated h) &&
  Bool.eqb (recursion_desired g) (recursion_desired h) &&
  Bool.eqb (recursion_available g) (recursion_available h) &&
  Bool.eqb (authentic_data g) (authentic_data h) &&
  Bool.eqb (checking_disabled g) (checking_disabled h) && (rcode g =? rcode h).

Lemma header_eqb_eq g h : msg_id g = msg_id h → header_eqb g h = true → g = h.
Proof.
  destruct g, h. unfold header_eqb. simpl. intros -> H.
  repeat match goal with
  | H : _ && _ = true |- _ => apply andb_prop in H; destruct H
  | H : Bool.eqb _ _ = true |- _ => apply eqb_prop in H
  | H : (_ =? _) = true |- _ => apply Z.eqb_eq in H
  end. by subst.
Qed.

Lemma all_headers_flags :
  all_headers (λ h, (0 <=? Header_flags h) && (Header_flags h <=? U16_MAX) &&
    header_eqb (Header_from_flags 0 (Header_flags h)) h) = true.
Proof. by vm_compute. Qed.

(** Only the low four bits of the two codes are written. *)
Definition low_codes (h : Header) : Header :=
  {| msg_id := msg_id h; response := response h; opcode := Z.land (opcode h) 15;
     authoritative := authoritative h; truncated := truncated h;
     recursion_desired := recursion_desired h; recursion_available := recursion_available h;
     authentic_data := authentic_data h; checking_disabled := checking_disabled h;
     rcode := Z.land (rcode h) 15 |}.

Lemma Header_flags_low h : Header_flags (low_codes h) = Header_flags h.
Proof.
  unfold Header_flags, low_codes. simpl.
  by rewrite <-(Z.land_assoc (rcode h)), <-(Z.land_assoc (opcode h)).
Qed.

Lemma land_15_range v : 0 ≤ Z.land v 15 ≤ 15.
Proof. rewrite (land_ones_mod v 4) by done. div_mod_lia. Qed.

Lemma Header_flags_spec h :
  is_u16 (Header_flags h) ∧ Header_from_flags (msg_id h) (Header_flags h) = low_codes h.
Proof.
  rewrite <-Header_flags_low.
  pose proof (all_headers_spec _ (low_codes h) all_headers_flags (land_15_range _) (land_15_range _)) as H.
  cbv beta in H. set (g := {| msg_id := 0 |}) in H.
  assert (Hg : Header_flags g = Header_flags (low_codes h)) by done.
  rewrite Hg in H. apply andb_prop in H as [[? ?]%andb_prop He]. bool_prop. split; [by split|].
  apply header_eqb_eq; [done|]. exact He.
Qed.

Lemma Header_from_flags_ranges i f :
  is_u16 i → 0 ≤ f → header_wf (Header_from_flags i f) ∧ rcode (Header_from_flags i f) ≤ 15.
Proof.
  intros Hi Hf. unfold header_wf. simpl. pose proof (land_15_range f).
  pose proof (land_15_range (Z.shiftr f 11)). split_and!; try done; lia.
Qed.

(** ** The parser *)

Lemma parse_n_safe {A} n (p : Parser A) (Q : A → Prop) :
  safe p Q → safe (parse_n n p) (λ l, length l = n ∧ Forall Q l).
Proof.
  intros Hp. induction n as [|n IH]; cbn [parse_n]; [by apply safe_ret|].
  eapply safe_bind; [done|]. intros a Ha. eapply safe_bind; [done|]. intros l [<- Hl].
  apply safe_ret. by split; [|constructor].
Qed.

Definition question_wf (q : Question) : Prop :=
  Name_wf (qname q) ∧ is_u16 (qtype q) ∧ is_u16 (qclass q).

Lemma Question_parse_safe : safe Question_parse question_wf.
Proof. unfold Question_parse. do 3 safe_step. by apply safe_ret. Qed.

(** A record as it is stored after parsing. *)
Definition parsed_record (rec : Record_) : Prop :=
  record_wf rec ∧ RData_record_type (rdata rec) = rtype rec.

Lemma read_n_safe n u : safe (read_n n u) (λ l, length l = Z.to_nat n ∧ Forall parsed_record l).
Proof.
  unfold read_n. apply parse_n_safe. destruct (u =? 1); [apply Record_parse_inner_safe|].
  destruct (u =? 2); apply Record_parse_inner_safe.
Qed.

(** The fields of a message as their Rust types give them. *)
Definition message_wf (m : Message) : Prop :=
  is_u16 (msg_id (header m)) ∧ is_u8 (opcode (header m)) ∧ is_u16 (rcode (header m)) ∧
  Forall question_wf (questions m) ∧ Forall record_wf (answers m) ∧
  Forall record_wf (authorities m) ∧ Forall record_wf (additionals m).

(** What acceptance by the parser guarantees. *)
Record message_parsed (m : Message) : Prop := {
  mp_header : header_wf (header m);
  mp_questions : Forall question_wf (questions m);
  mp_answers : Forall parsed_record (answers m);
  mp_authorities : Forall parsed_record (authorities m);
  mp_additionals : Forall parsed_record (additionals m);
  mp_counts : zlen (questions m) ≤ MAX_SECTION_ITEMS ∧ zlen (answers m) ≤ MAX_SECTION_ITEMS ∧
    zlen (authorities m) ≤ MAX_SECTION_ITEMS ∧ zlen (additionals m) ≤ MAX_SECTION_ITEMS;
  mp_opt_place : existsb is_opt (answers m ++ authorities m) = false;
  mp_opt_unique : zlen (List.filter is_opt (additionals m)) ≤ 1;
  mp_opt_valid : ∀ opt, opt ∈ additionals m → is_opt opt = true →
    ∃ e, Edns_try_from_record opt = Ok e;
}.

Lemma rcode_join c e : 0 ≤ c ≤ 15 → is_u8 e → Z.lor c (Z.shiftl e 4) = e * 16 + c.
Proof.
  unfold is_u8, U8_MAX. intros Hc He. rewrite Z.lor_comm, lor_shiftl_add by lia. done.
Qed.

Lemma parse_opt_rcode_returns h adds :
  Forall parsed_record adds → returns (parse_opt_rcode h adds).
Proof.
  intros Ha. unfold parse_opt_rcode. destruct (List.filter is_opt adds) as [|opt [|]] eqn:Hf; try done.
  assert (Hin : In opt adds) by (apply (filter_In is_opt); rewrite Hf; by left).
  rewrite <-list_elem_of_In in Hin. rewrite Forall_forall in Ha. destruct (Ha _ Hin) as [Hwf _].
  rewrite validate_try_from. pose proof (try_from_record_returns opt) as H.
  destruct (Edns_try_from_record opt); try done; by apply H, Hwf.
Qed.

Lemma try_from_extended_rcode rec e : Edns_try_from_record rec = Ok e → is_u8 (extended_rcode e).
Proof.
  unfold Edns_try_from_record. destruct (Edns_record_parts rec) as [[t raw]| | |]; try done.
  cbn [obind]. destruct (Edns_visit_options _ _ _); try done. intros [= <-]. simpl.
  rewrite land_255. unfold is_u8, U8_MAX. div_mod_lia.
Qed.

Lemma parse_opt_rcode_spec h h' adds :
  header_wf h → rcode h ≤ 15 → parse_opt_rcode h adds = Ok h' →
  header_wf h' ∧ zlen (List.filter is_opt adds) ≤ 1 ∧
  ∀ opt, opt ∈ adds → is_opt opt = true → ∃ e, Edns_try_from_record opt = Ok e.
Proof.
  intros (Hi & Ho & Hc) Hc15. unfold parse_opt_rcode.
  destruct (List.filter is_opt adds) as [|opt [|]] eqn:Hf; try done.
  - intros [= <-]. split_and!; try done. intros opt Hin%list_elem_of_In Hopt.
    assert (Hin' : In opt (List.filter is_opt adds)) by by apply filter_In.
    by rewrite Hf in Hin'.
  - rewrite validate_try_from. destruct (Edns_try_from_record opt) as [e| | |] eqn:He; try done.
    cbn [obind]. intros [= <-]. pose proof (try_from_extended_rcode _ _ He) as Hx.
    split_and!; [|done|].
    + unfold header_wf. simpl. rewrite rcode_join by (done || lia).
      unfold is_u8, U8_MAX in *. split_and!; try done; lia.
    + intros opt' Hin%list_elem_of_In Hopt.
      assert (Hin' : In opt' (List.filter is_opt adds)) by by apply filter_In.
      rewrite Hf in Hin'. destruct Hin' as [<-|[]]. by exists e.
Qed.

Lemma counts_possible qd an ns ar rem :
  counts_impossible qd an ns ar rem = false →
  qd ≤ MAX_SECTION_ITEMS ∧ an ≤ MAX_SECTION_ITEMS ∧ ns ≤ MAX_SECTION_ITEMS ∧ ar ≤ MAX_SECTION_ITEMS.
Proof. unfold counts_impossible. intros H. bool_prop. lia. Qed.

Lemma Message_parse_body_safe : safe Message_parse_body message_parsed.
Proof.
  unfold Message_parse_body, Message_parse_sections.
  safe_step; rename a into i, H into Hi. safe_step; rename a into f, H into Hf.
  safe_step; rename a into qd, H into Hqd. safe_step; rename a into an, H into Han.
  safe_step; rename a into ns, H into Hns. safe_step; rename a into ar, H into Har.
  intros r Hr. unfold safe_at. cbv beta zeta.
  destruct (counts_impossible _ _ _ _ _) eqn:Hcnt; [exact (safe_fail _ _ r Hr)|].
  apply counts_possible in Hcnt.
  destruct (Header_from_flags_ranges i f) as [Hh Hc15]; [done|unfold is_u16 in Hf; lia|].
  revert r Hr. eapply safe_bind; [apply parse_n_safe, Question_parse_safe|]. intros qs [Hql Hqs].
  eapply safe_bind; [apply read_n_safe|]. intros ans [Hal Hans].
  eapply safe_bind; [apply read_n_safe|]. intros auths [Hnl Hauths].
  destruct (existsb is_opt (ans ++ auths)) eqn:Hopt; [apply safe_fail|].
  eapply safe_bind; [apply read_n_safe|]. intros adds [Hrl Hadds].
  intros r Hr. unfold safe_at. destruct (negb _); [exact (safe_fail _ _ r Hr)|].
  eexists _, r. split; [done|]. split_and!; try done.
  pose proof (parse_opt_rcode_returns (Header_from_flags i f) adds Hadds) as Hret.
  destruct (parse_opt_rcode _ adds) as [h'| | |] eqn:Hp; try done. cbn [obind].
  destruct (parse_opt_rcode_spec _ _ _ Hh Hc15 Hp) as (Hh' & Hone & Hval).
  unfold is_u16, zlen in *. constructor; simpl; try done. unfold zlen. lia.
Qed.

Lemma Reader_new_wf b : is_bytes b → zlen b ≤ MAX_DNS_WIRE_LEN → Reader_wf (Reader_new b).
Proof. intros Hb Hl. pose proof (zlen_nonneg b). constructor; simpl; done || lia. Qed.

Lemma Message_parse_spec b :
  is_bytes b →
  match Message_parse b with Ok m => message_parsed m | Err _ => True | Panic | NoFuel => False end.
Proof.
  intros Hb. unfold Message_parse. destruct (_ <? _) eqn:Hl; bool_prop; [done|].
  destruct (Message_parse_body_safe (Reader_new b) (Reader_new_wf b Hb Hl))
    as (o & r & -> & _ & _ & _ & _ & Ho). by destruct o.
Qed.

Lemma message_parsed_wf m : message_parsed m → message_wf m.
Proof.
  intros [(? & ? & ?) ? ? ? ? _ _ _ _]. unfold message_wf, is_u8, is_u16, U8_MAX, U16_MAX in *.
  split_and!; try done; try lia; (eapply Forall_impl; [done|by intros ? []]).
Qed.

(** * The encoder on arbitrary messages ([Message::try_encode]) *)

(** The invariant of the writer survives, failed or not. *)
Definition wf_keeps (e : Writer → Writer) : Prop := ∀ w, Writer_wf w → Writer_wf (e w).

Lemma wf_keeps_append n b : n = zlen b → is_bytes b → wf_keeps (Writer_append n b).
Proof. intros ? ? w Hw. by apply Writer_append_wf. Qed.

Lemma wf_keeps_fail m : wf_keeps (Writer_fail m).
Proof. intros w. apply Writer_wf_fail. Qed.

Lemma wf_keeps_seq e1 e2 : wf_keeps e1 → wf_keeps e2 → wf_keeps (e1 ;> e2).
Proof. intros H1 H2 w Hw. by apply H2, H1. Qed.

Lemma wf_keeps_id : wf_keeps id.
Proof. by intros w. Qed.

Lemma wf_keeps_u8 v : is_u8 v → wf_keeps (Writer_push_u8 v).
Proof. intros Hv. apply wf_keeps_append; [done|by apply Forall_singleton]. Qed.
Lemma wf_keeps_u16 v : wf_keeps (Writer_push_u16 v).
Proof. apply wf_keeps_append; [done|apply u16_to_be_bytes]. Qed.
Lemma wf_keeps_u32 v : wf_keeps (Writer_push_u32 v).
Proof. apply wf_keeps_append; [done|apply u32_to_be_bytes]. Qed.
Lemma wf_keeps_bytes b : is_bytes b → wf_keeps (Writer_push_bytes b).
Proof. intros. by apply wf_keeps_append. Qed.

Create HintDb wf_keeps.
#[export] Hint Resolve wf_keeps_u8 wf_keeps_u16 wf_keeps_u32 wf_keeps_bytes wf_keeps_fail
  wf_keeps_id wf_keeps_seq : wf_keeps.

Lemma wf_keeps_encode_loop ls : Forall label_wf ls → ∀ key, wf_keeps (encode_loop key ls).
Proof.
  induction 1 as [|l ls [Hl Hb] _ IH]; intros key w Hw; cbn [encode_loop].
  - apply wf_keeps_u8; [|done]. unfold is_u8, U8_MAX. lia.
  - destruct (NameMap_get _ _); [by apply wf_keeps_u16|]. apply IH.
    apply wf_keeps_bytes; [done|]. apply wf_keeps_u8; [unfold is_u8, U8_MAX; lia|].
    destruct (_ && _); [|done]. destruct Hw. constructor; simpl; try done. by apply NameMap_insert_wf.
Qed.

Lemma wf_keeps_Name_encode n : Name_wf n → wf_keeps (Name_encode n).
Proof.
  intros Hn w Hw. destruct (Name_labels_of n Hn) as (ls & Hls & ->).
  rewrite Name_encode_loop by done. apply wf_keeps_encode_loop; [apply Hls|done].
Qed.

Lemma wf_keeps_Name_encode_uncompressed n : Name_wf n → wf_keeps (Name_encode_uncompressed n).
Proof.
  intros Hn. destruct (Name_labels_of n Hn) as (ls & Hls & ->).
  apply wf_keeps_bytes. by apply wire_bytes, Hls.
Qed.

(** A length that fits its octet. *)
Lemma u8_try_from_u8 l v : u8_try_from (zlen (A:=Z) l) = Some v → is_u8 v.
Proof.
  unfold u8_try_from. case_match; [|done]. intros [= <-]. bool_prop.
  pose proof (zlen_nonneg l). by split.
Qed.

Lemma wf_keeps_char_string s : is_bytes s → wf_keeps (write_char_string s).
Proof.
  intros Hs. unfold write_char_string. destruct (u8_try_from _) eqn:Hv; [|auto with wf_keeps].
  apply u8_try_from_u8 in Hv. auto with wf_keeps.
Qed.

Lemma wf_keeps_chunks cs : Forall is_bytes cs → wf_keeps (encode_chunks cs).
Proof.
  induction 1 as [|c cs Hc _ IH]; cbn [encode_chunks]; [auto with wf_keeps|].
  destruct (u8_try_from _) eqn:Hv; [|auto with wf_keeps]. apply u8_try_from_u8 in Hv.
  auto with wf_keeps.
Qed.

Lemma wf_keeps_params ps :
  Forall (λ kv, is_u16 (fst kv) ∧ is_bytes (snd kv)) ps → wf_keeps (encode_params ps).
Proof.
  induction 1 as [|[k v] ps [_ Hv] _ IH]; cbn [encode_params]; [auto with wf_keeps|].
  simpl in Hv. destruct (u16_try_from _); auto with wf_keeps.
Qed.
#[export] Hint Resolve wf_keeps_Name_encode wf_keeps_Name_encode_uncompressed
  wf_keeps_char_string wf_keeps_chunks wf_keeps_params : wf_keeps.

Lemma wf_keeps_svcb p n ps :
  Name_wf n → Forall (λ kv, is_u16 (fst kv) ∧ is_bytes (snd kv)) ps → wf_keeps (encode_svcb p n ps).
Proof. intros. unfold encode_svcb. destruct (validate_svcb_params _ _); auto with wf_keeps. Qed.
#[export] Hint Resolve wf_keeps_svcb : wf_keeps.

Lemma wf_keeps_RData d : rdata_wf d → wf_keeps (RData_encode d).
Proof.
  destruct d; cbn [rdata_wf RData_encode]; intros Hwf; destruct_and? Hwf; auto 12 with wf_keeps.
  apply wf_keeps_seq; [auto with wf_keeps|].
  destruct (u8_try_from _) eqn:Hv; [|auto with wf_keeps]. apply u8_try_from_u8 in Hv.
  auto with wf_keeps.
Qed.

Lemma wf_keeps_Record rec t : record_wf rec → wf_keeps (Record_encode_with_ttl rec t).
Proof.
  intros (Hn & _ & _ & _ & Hd). unfold Record_encode_with_ttl.
  repeat (apply wf_keeps_seq; [auto with wf_keeps|]).
  intros w Hw. apply Writer_backpatch_wf, wf_keeps_RData; [done|]. by apply wf_keeps_u16.
Qed.

(** ** The message *)

(** A part of the encoder that returns and keeps the writer's invariant. *)
Definition enc_safe (e : Enc) : Prop :=
  ∀ w, Writer_wf w → returns (fst (e w)) ∧ Writer_wf (snd (e w)).

Lemma enc_safe_ebind e k : enc_safe e → enc_safe k → enc_safe (e ;? k).
Proof.
  intros He Hk w Hw. unfold ebind. destruct (He w Hw) as [Hr Hw'].
  destruct (e w) as [[?|?| |] w']; try done. by apply Hk.
Qed.

Lemma enc_safe_eput e : wf_keeps e → enc_safe (eput e).
Proof.
  intros He w Hw. unfold eput, stop_on_writer_error. specialize (He w Hw).
  by destruct (werror (e w)).
Qed.

Lemma enc_safe_ok : enc_safe (λ w, (Ok tt, w)).
Proof. by intros w. Qed.

Lemma enc_safe_all {A} (e : A → Writer → Writer) l :
  Forall (λ a, wf_keeps (e a)) l → enc_safe (eput_all e l).
Proof.
  induction 1; cbn [eput_all]; [apply enc_safe_ok|]. by apply enc_safe_ebind; [apply enc_safe_eput|].
Qed.

Lemma check_records_returns l : Forall record_wf l → returns (check_records l).
Proof.
  induction 1 as [|rec l (_ & _ & _ & _ & Hd) _ IH]; cbn [check_records]; [done|].
  destruct (negb _); [done|].
  assert (Hv : returns (RData_validate (rdata rec))).
  { destruct (rdata rec); try done; apply validate_svcb_params_returns; apply Hd. }
  by destruct (RData_validate _).
Qed.

Lemma encode_checks_returns m : message_wf m → returns (encode_checks m).
Proof.
  intros (_ & _ & _ & _ & Ha & Hn & Hr). unfold encode_checks, too_many.
  destruct (_ <? opcode _); [done|]. destruct (_ <? rcode _); [done|].
  destruct (u16_try_from (zlen (questions m))); [|done]. cbn [obind].
  destruct (u16_try_from (zlen (answers m))); [|done]. cbn [obind].
  destruct (u16_try_from (zlen (authorities m))); [|done]. cbn [obind].
  destruct (1 <? _); [done|]. destruct (existsb _ _); [done|].
  pose proof (check_records_returns (answers m ++ authorities m ++ additionals m)) as Hck.
  destruct (check_records _); try (apply Hck; by repeat apply Forall_app_2). cbn [obind].
  destruct (find is_opt (additionals m)) as [opt|] eqn:Hf; cbn [obind].
  - destruct (negb _); [done|]. apply find_some in Hf as [Hin _]. apply list_elem_of_In in Hin.
    rewrite Forall_forall in Hr. destruct (Hr _ Hin) as (_ & _ & _ & _ & Hd).
    pose proof (try_from_record_returns opt Hd). destruct (Edns_try_from_record opt); try done.
    cbn [obind]. destruct (checked_add _ _); [|done]. by destruct (u16_try_from _).
  - destruct (checked_add _ _); [|done]. by destruct (u16_try_from _).
Qed.

Lemma rcode_ext_u8 h : is_u8 (rcode_ext h).
Proof. unfold rcode_ext. rewrite land_255. unfold is_u8, U8_MAX. div_mod_lia. Qed.

Lemma Edns_default_wf h : edns_wf (set_extended_rcode (rcode_ext h) Edns_default).
Proof.
  unfold edns_wf. simpl. split_and!; try done; apply (rcode_ext_u8 h).
Qed.

Lemma Name_root_wf : Name_wf Name_root.
Proof. exists []. split; [by split; [constructor|]|done]. Qed.

Lemma try_to_record_wf e rec : edns_wf e → Edns_try_to_record e = Ok rec → record_wf rec.
Proof.
  intros Hwf H. destruct (try_to_record_spec e rec H) as (-> & _ & _).
  destruct Hwf as (? & Hx & Hv & Ho). destruct (Edns_ttl_fields e Hx Hv) as (_ & _ & _ & ?).
  split_and!; simpl; try done; [apply Name_root_wf|]. apply options_raw_bytes.
  eapply Forall_impl; [done|]. by intros ? [].
Qed.

Lemma enc_safe_synthetic h : enc_safe (encode_synthetic_opt h).
Proof.
  intros w Hw. unfold encode_synthetic_opt.
  destruct (Edns_try_to_record _) as [rec| | |] eqn:Hr; try done.
  apply enc_safe_eput; [|done]. eapply wf_keeps_Record, try_to_record_wf; [|done].
  apply Edns_default_wf.
Qed.

Lemma enc_safe_message m : message_wf m → enc_safe (Message_encode_checked_into m).
Proof.
  intros Hm w Hw. unfold Message_encode_checked_into.
  pose proof (encode_checks_returns m Hm) as Hret.
  destruct (encode_checks m) as [[[[[qd an] ns] ar] syn]| | |]; try done.
  destruct Hm as (_ & _ & _ & Hq & Ha & Hn & Hr). revert w Hw.
  change (enc_safe (eput (Writer_push_u16 (msg_id (header m)) ;> Writer_push_u16 (Header_flags (header m)) ;>
             Writer_push_u16 qd ;> Writer_push_u16 an ;> Writer_push_u16 ns ;> Writer_push_u16 ar) ;?
       eput_all Question_encode (questions m) ;?
       eput_all Record_encode (answers m) ;?
       eput_all Record_encode (authorities m) ;?
       eput_all (additional_encode (header m)) (additionals m) ;?
       (if syn then encode_synthetic_opt (header m) else λ w, (Ok tt, w)))).
  apply enc_safe_ebind; [apply enc_safe_eput; auto 20 with wf_keeps|].
  apply enc_safe_ebind; [apply enc_safe_all|].
  { eapply Forall_impl; [done|]. intros q (? & _ & _). unfold Question_encode. auto with wf_keeps. }
  do 3 (apply enc_safe_ebind; [apply enc_safe_all; eapply Forall_impl; [done|];
    intros rec Hrec; by apply wf_keeps_Record|]).
  destruct syn; [apply enc_safe_synthetic|apply enc_safe_ok].
Qed.

Lemma Message_try_encode_spec hb m :
  message_wf m →
  match Message_try_encode hb m with
  | Ok b => zlen b ≤ MAX_DNS_WIRE_LEN ∧ is_bytes b
  | Err _ => True
  | Panic | NoFuel => False
  end.
Proof.
  intros Hm. unfold Message_try_encode.
  destruct (enc_safe_message m Hm (Writer_new hb) (Writer_new_wf hb)) as [Hr Hw].
  destruct (Message_encode_checked_into m _) as [[[]|?| |] w]; try done. simpl in Hw.
  destruct (Writer_finish w) as [b| | |] eqn:Hf; try done.
  - by apply Writer_finish_bound with w.
  - unfold Writer_finish in Hf. by case_match.
  - unfold Writer_finish in Hf. by case_match.
Qed.
