(* ===== verification/MessageCodec.v ===== *)
(** * Messages are read back ([Message::try_encode] and [Message::parse])

    The encoder is a sequence of writes with early returns; when it succeeds it
    is the plain sequence.  The codec theorem then follows section by section,
    with the counts of the header checked against the octets that follow. *)

From S2P Require Import Prelude NameTable Wire Writer Name Codec NameCodec RData RDataCodec.
From S2P Require Import RecordCodec Edns Message MessageSafety.

#[local] Open Scope writer_scope.

(** ** The plain sequence of writes *)

Fixpoint write_all {A} (e : A → Writer → Writer) (l : list A) : Writer → Writer :=
  match l with [] => id | a :: l => e a ;> write_all e l end.

Lemma write_all_app {A} (e : A → Writer → Writer) l k w :
  write_all e (l ++ k) w = (write_all e l ;> write_all e k) w.
Proof. revert w. induction l as [|a l IH]; intros w; [done|]. simpl. unfold wseq. by rewrite IH. Qed.

Lemma sticky_write_all {A} (e : A → Writer → Writer) l : (∀ a, sticky (e a)) → sticky (write_all e l).
Proof. intros He. induction l; simpl; [apply sticky_id|]. by apply sticky_wseq. Qed.

(** If a part of the encoder succeeds it did what [e] does. *)
Definition writes (enc : Enc) (e : Writer → Writer) : Prop :=
  ∀ w w', Writer_is_failed w = false → enc w = (Ok tt, w') →
    w' = e w ∧ Writer_is_failed w' = false.

Lemma writes_eput e : writes (eput e) e.
Proof.
  intros w w' _. unfold eput, stop_on_writer_error. destruct (werror (e w)) eqn:He; [done|].
  intros [= <-]. unfold Writer_is_failed. by rewrite He.
Qed.

Lemma writes_ebind e1 e2 f1 f2 : writes e1 f1 → writes e2 f2 → writes (e1 ;? e2) (f1 ;> f2).
Proof.
  intros H1 H2 w w' Hw. unfold ebind, wseq. destruct (e1 w) as [[[]|?| |] w1] eqn:He; try done.
  destruct (H1 w w1 Hw He) as [-> Hw1]. by apply H2.
Qed.

Lemma writes_ok : writes (λ w, (Ok tt, w)) id.
Proof. by intros w w' Hw [= <-]. Qed.

Lemma writes_all {A} (e : A → Writer → Writer) l : writes (eput_all e l) (write_all e l).
Proof.
  induction l; cbn [eput_all write_all]; [apply writes_ok|].
  apply writes_ebind; [apply writes_eput|done].
Qed.

(** The record as it is written: an OPT record carries the upper bits of the
    response code. *)
Definition wire_record (h : Header) (rec : Record_) : Record_ :=
  {| name := name rec; rtype := rtype rec; class := class rec;
     ttl := additional_ttl h rec; rdata := rdata rec |}.

Definition synthetic_opt (h : Header) : Record_ :=
  {| name := Name_root; rtype := TYPE_OPT; class := 1232;
     ttl := Edns_ttl (set_extended_rcode (rcode_ext h) Edns_default);
     rdata := RD_Unknown TYPE_OPT [] |}.

Definition needs_synthetic_opt (m : Message) : bool :=
  (0x0f <? rcode (header m)) && (zlen (List.filter is_opt (additionals m)) =? 0).

(** The additional section as it is written. *)
Definition wire_additionals (m : Message) : list Record_ :=
  map (wire_record (header m)) (additionals m) ++
  if needs_synthetic_opt m then [synthetic_opt (header m)] else [].

Definition write_header (m : Message) : Writer → Writer :=
  Writer_push_u16 (msg_id (header m)) ;> Writer_push_u16 (Header_flags (header m)) ;>
  Writer_push_u16 (zlen (questions m)) ;> Writer_push_u16 (zlen (answers m)) ;>
  Writer_push_u16 (zlen (authorities m)) ;> Writer_push_u16 (zlen (wire_additionals m)).

Definition write_sections (m : Message) : Writer → Writer :=
  write_all Question_encode (questions m) ;> write_all Record_encode (answers m) ;>
  write_all Record_encode (authorities m) ;> write_all Record_encode (wire_additionals m).

Lemma write_all_map {A B} (e : B → Writer → Writer) (f : A → B) l w :
  write_all e (map f l) w = write_all (λ a, e (f a)) l w.
Proof. revert w. induction l as [|a l IH]; intros w; [done|]. simpl. unfold wseq. by rewrite IH. Qed.

(** What success of the checks says. *)
Lemma too_many_ok s n v : too_many s n = Ok v → v = n ∧ n ≤ U16_MAX.
Proof. unfold too_many, u16_try_from. destruct (n <=? U16_MAX) eqn:H; bool_prop; by intros [= <-]. Qed.

Lemma check_records_ok l :
  check_records l = Ok tt → Forall (λ rec, RData_record_type (rdata rec) = rtype rec) l.
Proof.
  induction l as [|rec l IH]; cbn [check_records]; [constructor|].
  destruct (negb _) eqn:Ht; [done|]. bool_prop. destruct (RData_validate _); try done.
  intros. constructor; [done|by apply IH].
Qed.

Record checked (m : Message) : Prop := {
  ck_opcode : opcode (header m) ≤ 15;
  ck_rcode : rcode (header m) ≤ 4095;
  ck_counts : zlen (questions m) ≤ U16_MAX ∧ zlen (answers m) ≤ U16_MAX ∧
    zlen (authorities m) ≤ U16_MAX ∧ zlen (wire_additionals m) ≤ U16_MAX;
  ck_types : Forall (λ rec, RData_record_type (rdata rec) = rtype rec)
    (answers m ++ authorities m ++ additionals m);
  ck_place : existsb is_opt (answers m ++ authorities m) = false;
  ck_unique : zlen (List.filter is_opt (additionals m)) ≤ 1;
  ck_opt : ∀ opt, find is_opt (additionals m) = Some opt →
    Name_is_root (name opt) = true ∧ ∃ e, Edns_try_from_record opt = Ok e;
}.

Lemma encode_checks_ok m qd an ns ar syn :
  encode_checks m = Ok (qd, an, ns, ar, syn) →
  checked m ∧ qd = zlen (questions m) ∧ an = zlen (answers m) ∧ ns = zlen (authorities m) ∧
  ar = zlen (wire_additionals m) ∧ syn = needs_synthetic_opt m.
Proof.
  unfold encode_checks. destruct (_ <? opcode _) eqn:Ho; bool_prop; [done|].
  destruct (_ <? rcode _) eqn:Hc; bool_prop; [done|].
  destruct (too_many _ (zlen (questions m))) eqn:Hq; try done. apply too_many_ok in Hq as [-> ?].
  destruct (too_many _ (zlen (answers m))) eqn:Ha; try done. apply too_many_ok in Ha as [-> ?].
  destruct (too_many _ (zlen (authorities m))) eqn:Hn; try done. apply too_many_ok in Hn as [-> ?].
  cbn [obind]. destruct (1 <? _) eqn:Hu; bool_prop; [done|]. destruct (existsb _ _) eqn:Hp; [done|].
  destruct (check_records _) as [[]| | |] eqn:Hck; try done. cbn [obind].
  destruct (match find _ _ with Some _ => _ | None => _ end) as [[]| | |] eqn:Hf; try done.
  cbn [obind]. unfold checked_add. destruct (_ <=? USIZE_MAX); [|done].
  destruct (too_many _ _) eqn:Hr; try done. apply too_many_ok in Hr as [-> Hr].
  cbn [obind]. intros [= <- <- <- <- <-].
  assert (Hz : zlen (wire_additionals m) =
    zlen (additionals m) + (if needs_synthetic_opt m then 1 else 0)).
  { unfold wire_additionals. rewrite zlen_app, zlen_map. by destruct (needs_synthetic_opt m). }
  split; [|split_and!; try done]. constructor; try done.
  - rewrite Hz. split_and!; done.
  - by apply check_records_ok.
  - intros opt Hopt. rewrite Hopt in Hf. destruct (negb _) eqn:Hroot; bool_prop; [done|].
    destruct (Edns_try_from_record opt); [eauto|done..].
Qed.

(** A successful encoding is the header followed by the sections. *)
Lemma Message_encode_ok m w' :
  ∀ w, Writer_is_failed w = false → Message_encode_checked_into m w = (Ok tt, w') →
  checked m ∧ w' = (write_header m ;> write_sections m) w ∧ Writer_is_failed w' = false.
Proof.
  intros w Hw. unfold Message_encode_checked_into.
  destruct (encode_checks m) as [[[[[qd an] ns] ar] syn]| | |] eqn:Hck; try done.
  destruct (encode_checks_ok _ _ _ _ _ _ Hck) as (Hok & -> & -> & -> & -> & ->).
  intros H. split; [done|].
  assert (Hsyn : writes (if needs_synthetic_opt m then encode_synthetic_opt (header m)
                         else λ w, (Ok tt, w))
    (write_all Record_encode (if needs_synthetic_opt m then [synthetic_opt (header m)] else []))).
  { destruct (needs_synthetic_opt m); [|apply writes_ok].
    intros w1 w2 Hw1. unfold encode_synthetic_opt.
    destruct (Edns_try_to_record _) as [rec| | |] eqn:Hr; try done.
    apply try_to_record_spec in Hr as (Hr & _).
    assert (rec = synthetic_opt (header m)) as -> by exact Hr. intros H1.
    cbn [write_all]. unfold wseq. by apply (writes_eput _ w1 w2 Hw1 H1). }
  destruct (writes_ebind _ _ _ _ (writes_eput _) (writes_ebind _ _ _ _ (writes_all _ _)
    (writes_ebind _ _ _ _ (writes_all _ _) (writes_ebind _ _ _ _ (writes_all _ _)
    (writes_ebind _ _ _ _ (writes_all _ _) Hsyn)))) w w' Hw H) as [-> Hf].
  split; [|done]. unfold write_sections, wire_additionals. unfold wseq at 3 4 5 6.
  unfold write_header, wseq. rewrite write_all_app. unfold wseq. by rewrite write_all_map.
Qed.

(** ** Reading the sections *)

Lemma encodes_parse_n {A B} hole (e : A → Writer → Writer) (p : Parser B) (R : B → A → Prop) l :
  (∀ a, sticky (e a)) → Forall (λ a, encodes_at hole (e a) p (λ b, R b a)) l →
  encodes_at hole (write_all e l) (parse_n (length l) p) (λ bs, Forall2 R bs l).
Proof.
  intros He. induction 1 as [|a l Ha _ IH]; cbn [write_all parse_n length].
  { intros w Hw Hf. split_and!; [done|done|]. intros r Hr Hp. exists [].
    split; [|constructor]. simpl in *. rewrite <-Hp. by destruct r. }
  eapply encodes_at_bind; [by apply sticky_write_all|done|]. intros b Hb.
  intros w Hw Hf. destruct (IH w Hw Hf) as (? & ? & Hd). split_and!; try done.
  intros r Hr Hp. destruct (Hd r Hr Hp) as (bs & Hbs & ?). exists (b :: bs).
  unfold pbind. rewrite Hbs. split; [done|by constructor].
Qed.

Definition question_equiv (a b : Question) : Prop :=
  name_equiv (qname a) (qname b) ∧ qtype a = qtype b ∧ qclass a = qclass b.

Lemma sticky_Question_encode q : sticky (Question_encode q).
Proof. unfold Question_encode. auto with sticky. Qed.
#[export] Hint Resolve sticky_Question_encode : sticky.

Lemma encodes_Question q :
  question_wf q → short_name (qname q) →
  encodes (Question_encode q) Question_parse (λ q', question_equiv q' q).
Proof.
  intros (? & ? & ?) Hs. unfold Question_encode, Question_parse.
  codec_name. codec_step. codec_last. by split_and!.
Qed.

(** The sections of a message in which everything is read back. *)
Record message_plain (m : Message) : Prop := {
  pl_counts : zlen (questions m) ≤ MAX_SECTION_ITEMS ∧ zlen (answers m) ≤ MAX_SECTION_ITEMS ∧
    zlen (authorities m) ≤ MAX_SECTION_ITEMS ∧ zlen (wire_additionals m) ≤ MAX_SECTION_ITEMS;
  pl_questions : Forall (λ q, short_name (qname q)) (questions m);
  pl_names : Forall record_short (answers m ++ authorities m ++ additionals m);
  pl_answers : Forall (rdata_kept (if (opcode (header m) =? 5) && negb (response (header m))
    then Some [254; 255] else None)) (answers m);
  pl_authorities : Forall (rdata_kept (if (opcode (header m) =? 5) && negb (response (header m))
    then Some [255] else None)) (authorities m);
  pl_additionals : Forall (rdata_kept None) (additionals m);
}.

(** Equality up to the case of compressible names, with the additional section
    as it is written. *)
Definition message_equiv (a b : Message) : Prop :=
  header a = header b ∧ Forall2 question_equiv (questions a) (questions b) ∧
  Forall2 record_equiv (answers a) (answers b) ∧
  Forall2 record_equiv (authorities a) (authorities b) ∧
  Forall2 record_equiv (additionals a) (wire_additionals b).

(** One section of records. *)
Lemma encodes_section cs l :
  Forall record_wf l → Forall (λ rec, RData_record_type (rdata rec) = rtype rec) l →
  Forall record_short l → Forall (rdata_kept cs) l →
  encodes_at None (write_all Record_encode l) (parse_n (length l) (Record_parse_inner cs))
    (λ l', Forall2 record_equiv l' l).
Proof.
  intros Hwf Ht Hs Hk. apply encodes_parse_n; [intros rec; apply sticky_Record_encode|].
  rewrite Forall_forall in *. intros rec Hin. specialize (Hwf _ Hin). pose proof Hwf as (_ & _ & _ & ? & _).
  eapply encodes_at_weaken;
    [apply (encodes_Record cs rec (ttl rec)); [done|done|by split; auto|by auto]|].
  by intros rec' [_ ?].
Qed.

Lemma read_n_inner n u :
  read_n n u = parse_n (Z.to_nat n) (Record_parse_inner (section_classes u)).
Proof.
  unfold read_n, section_classes, Record_parse_update_empty, Record_parse_update_operation, Record_parse.
  by repeat case_match.
Qed.

(** ** Records that are written in place of others *)

Lemma additional_ttl_u32 h rec : is_u32 (ttl rec) → is_u32 (additional_ttl h rec).
Proof.
  intros Ht. unfold additional_ttl. case_match; [|done]. rewrite Z.lor_comm.
  pose proof (rcode_ext_u8 h) as Hu. unfold is_u8, is_u32, U8_MAX, U32_MAX in *.
  rewrite (land_ones_mod _ 24) by done. rewrite lor_shiftl_add by (div_mod_lia). div_mod_lia.
Qed.

Lemma additional_ttl_ext h rec :
  is_opt rec = true → Z.land (Z.shiftr (additional_ttl h rec) 24) 255 = rcode_ext h.
Proof.
  intros Ho. unfold additional_ttl. rewrite Ho, Z.lor_comm, ttl_byte by lia.
  pose proof (rcode_ext_u8 h) as Hu. unfold is_u8, U8_MAX in *.
  rewrite (land_ones_mod _ 24) by done. rewrite lor_shiftl_add by (div_mod_lia). div_mod_lia.
Qed.

Lemma wire_record_wf h rec : record_wf rec → record_wf (wire_record h rec).
Proof. intros (? & ? & ? & ? & ?). split_and!; try done. by apply additional_ttl_u32. Qed.

Lemma synthetic_opt_wf h : record_wf (synthetic_opt h).
Proof.
  apply (try_to_record_wf (set_extended_rcode (rcode_ext h) Edns_default)); [apply Edns_default_wf|done].
Qed.

Lemma root_short : short_name Name_root.
Proof. split; [apply Name_root_wf|]. by vm_compute. Qed.

(** A property of the additional records and of the synthetic one. *)
Lemma wire_additionals_forall (P : Record_ → Prop) m :
  Forall (λ rec, P (wire_record (header m) rec)) (additionals m) → P (synthetic_opt (header m)) →
  Forall P (wire_additionals m).
Proof.
  intros H Hs. apply Forall_app_2; [|destruct (needs_synthetic_opt m); by constructor].
  by apply Forall_map.
Qed.

Lemma filter_wire h l :
  List.filter is_opt (map (wire_record h) l) = map (wire_record h) (List.filter is_opt l).
Proof.
  induction l as [|rec l IH]; [done|]. simpl. change (is_opt (wire_record h rec)) with (is_opt rec).
  destruct (is_opt rec); simpl; by rewrite IH.
Qed.

Lemma Forall2_filter_opt l' l :
  Forall2 record_equiv l' l → Forall2 record_equiv (List.filter is_opt l') (List.filter is_opt l).
Proof.
  induction 1 as [|a b l' l (Hn & Ht & Hr) _ IH]; [constructor|]. simpl.
  replace (is_opt a) with (is_opt b) by (unfold is_opt; by rewrite Ht).
  destruct (is_opt b); [|done]. by constructor.
Qed.

Lemma existsb_equiv l' l : Forall2 record_equiv l' l → existsb is_opt l' = existsb is_opt l.
Proof.
  induction 1 as [|a b l' l (Hn & Ht & Hr) _ IH]; [done|]. simpl. rewrite IH. f_equal.
  unfold is_opt. by rewrite Ht.
Qed.

Lemma name_equiv_root n m : name_equiv n m → Name_is_root m = true → Name_is_root n = true.
Proof.
  unfold name_equiv, Name_eq_ignore_case, eq_ignore_ascii_case, Name_is_root.
  intros H%bool_decide_eq_true%(f_equal zlen). rewrite !zlen_map in H. by rewrite H.
Qed.

(** An OPT record that is read back is accepted, whatever its TTL became. *)
Lemma validate_like a b e :
  rtype a = rtype b → Name_is_root (name a) = true → rdata_equiv (rdata a) (rdata b) →
  Edns_try_from_record b = Ok e →
  Edns_validate_record a = Ok (Z.land (Z.shiftr (ttl a) 24) 255).
Proof.
  intros Ht Hr Hd Hb.
  assert (Hv : Edns_validate_record b = Ok (extended_rcode e)) by (by rewrite validate_try_from, Hb).
  unfold Edns_validate_record in *. destruct (Edns_record_parts b) as [[t raw]| | |] eqn:Hp; try done.
  destruct (Edns_record_parts_ok _ _ _ Hp) as (Hbt & _ & _ & u & Hu). rewrite Hu in Hd.
  assert (Ha : rdata a = RD_Unknown u raw) by (by destruct (rdata a)).
  unfold Edns_record_parts. rewrite Ht, Hbt, Hr, Ha. cbn [obind negb Z.eqb TYPE_OPT Pos.eqb] in *.
  by destruct (Edns_visit_options _ _ _).
Qed.

Lemma rcode_rejoin c : 0 ≤ c ≤ 4095 → Z.lor (Z.land c 15) (Z.shiftl (Z.land (Z.shiftr c 4) 255) 4) = c.
Proof.
  intros Hc. rewrite Z.lor_comm, (land_ones_mod c 4), land_255, Z.shiftr_div_pow2 by done.
  rewrite lor_shiftl_add by (div_mod_lia). div_mod_lia.
Qed.

Lemma land_15_small v : 0 ≤ v ≤ 15 → Z.land v 15 = v.
Proof. intros. rewrite (land_ones_mod v 4) by done. rewrite Z.mod_small; [done|]. simpl. lia. Qed.

Lemma set_rcode_low h c :
  0 ≤ opcode h ≤ 15 → c = rcode h → set_rcode c (low_codes h) = h.
Proof.
  intros Ho ->. destruct h. unfold set_rcode, low_codes. simpl in *. by rewrite land_15_small.
Qed.

(** The response code is put together again from one OPT record. *)
Lemma join_opt_rcode h b opt e :
  0 ≤ opcode h ≤ 15 → 0 ≤ rcode h ≤ 4095 → record_equiv opt b → Name_is_root (name b) = true →
  Edns_try_from_record {| name := name b; rtype := rtype b; class := class b; ttl := e.1;
                          rdata := rdata b |} = Ok e.2 →
  Z.land (Z.shiftr (ttl b) 24) 255 = rcode_ext h →
  obind (Edns_validate_record opt) (λ ext, Ok (set_rcode
    (Z.lor (rcode (low_codes h)) (Z.shiftl ext 4)) (low_codes h))) = Ok h.
Proof.
  intros Ho Hc (Hn & Ht & _ & Httl & Hd) Hroot He Hx.
  rewrite (validate_like opt {| name := name b; rtype := rtype b; class := class b;
    ttl := fst e; rdata := rdata b |} _ Ht (name_equiv_root _ _ Hn Hroot) Hd He).
  cbn [obind]. rewrite Httl, Hx. f_equal. apply set_rcode_low; [done|]. by apply rcode_rejoin.
Qed.

Lemma synthetic_ext h : Z.land (Z.shiftr (ttl (synthetic_opt h)) 24) 255 = rcode_ext h.
Proof.
  destruct (Edns_ttl_fields (set_extended_rcode (rcode_ext h) Edns_default)) as (H & _);
    [apply rcode_ext_u8|done|exact H].
Qed.

Lemma Forall2_singleton_r {A B} (R : A → B → Prop) l b :
  Forall2 R l [b] → ∃ a, l = [a] ∧ R a b.
Proof. intros H. inversion H as [|a ? l' ? Hab Hnil]; subst. inversion Hnil; subst. by exists a. Qed.

Lemma find_filter_head {A} (f : A → bool) l a k : List.filter f l = a :: k → find f l = Some a.
Proof.
  induction l as [|b l IH]; simpl; [done|]. destruct (f b); [by intros [= -> _]|done].
Qed.

Lemma parse_opt_rcode_wire m adds :
  header_wf (header m) → checked m → Forall2 record_equiv adds (wire_additionals m) →
  parse_opt_rcode (low_codes (header m)) adds = Ok (header m).
Proof.
  intros (_ & Ho & Hc) Hck Heq%Forall2_filter_opt. unfold parse_opt_rcode.
  unfold wire_additionals in Heq. rewrite List.filter_app, filter_wire in Heq.
  unfold needs_synthetic_opt in Heq.
  destruct (List.filter is_opt (additionals m)) as [|opt [|opt2 l]] eqn:Hf.
  - rewrite andb_true_r in Heq. cbn [map app] in Heq.
    destruct (0x0f <? rcode (header m)) eqn:Hbig; bool_prop.
    + change (List.filter is_opt [synthetic_opt (header m)]) with [synthetic_opt (header m)] in Heq.
      apply Forall2_singleton_r in Heq as (opt & -> & Heq).
      apply (join_opt_rcode _ _ _ (0, Edns_default) Ho Hc Heq); [done|done|].
      apply synthetic_ext.
    + apply Forall2_nil_inv_r in Heq as ->. f_equal. apply set_rcode_low; [done|].
      apply land_15_small. lia.
  - change (zlen [opt] =? 0) with false in Heq. rewrite andb_false_r, app_nil_r in Heq.
    apply Forall2_singleton_r in Heq as (opt' & -> & Heq).
    assert (Hfind : find is_opt (additionals m) = Some opt) by by eapply find_filter_head.
    destruct (ck_opt m Hck opt Hfind) as (Hroot & e & He).
    apply (join_opt_rcode _ _ _ (ttl opt, e) Ho Hc Heq); [done|by destruct opt|].
    apply additional_ttl_ext. by apply find_some in Hfind as [_ ?].
  - pose proof (ck_unique m Hck) as Hu. rewrite Hf, !zlen_cons in Hu. pose proof (zlen_nonneg l). lia.
Qed.

(** ** The codec of a message *)

Lemma grows_write_all {A} n (e : A → Writer → Writer) l :
  0 ≤ n → (∀ a, sticky (e a)) → Forall (λ a, grows n (e a)) l → grows (n * zlen l) (write_all e l).
Proof.
  intros Hn He. induction 1 as [|a l Ha _ IH]; cbn [write_all].
  - intros w _. rewrite zlen_nil. simpl. lia.
  - apply (grows_seq n (n * zlen l)); [by apply sticky_write_all|done|done|rewrite zlen_cons; lia].
Qed.

Lemma sticky_write_records l : sticky (write_all Record_encode l).
Proof. apply sticky_write_all. intros rec. apply sticky_Record_encode. Qed.

Lemma grows_Question q : question_wf q → grows 5 (Question_encode q).
Proof.
  intros (Hn & _ & _). unfold Question_encode.
  apply (grows_seq 1 4); [auto with sticky|by apply grows_Name_encode| |done].
  by apply (grows_seq 2 2); [auto with sticky|apply grows_append..|].
Qed.

Lemma wire_additionals_wf m : Forall record_wf (additionals m) → Forall record_wf (wire_additionals m).
Proof.
  intros H. apply wire_additionals_forall; [|apply synthetic_opt_wf].
  eapply Forall_impl; [done|]. intros rec. apply wire_record_wf.
Qed.

Lemma grows_sections m :
  message_wf m → grows (5 * zlen (questions m) +
    11 * (zlen (answers m) + zlen (authorities m) + zlen (wire_additionals m))) (write_sections m).
Proof.
  intros (_ & _ & _ & Hq & Ha & Hn & Hr). unfold write_sections.
  assert (Hrec : ∀ l, Forall record_wf l → grows (11 * zlen l) (write_all Record_encode l)).
  { intros l Hl. apply grows_write_all; [done|intros rec; apply sticky_Record_encode|].
    eapply Forall_impl; [done|]. intros rec ?. by apply grows_Record. }
  pose proof sticky_write_records as Hst.
  eapply (grows_seq (5 * zlen (questions m))
    (11 * zlen (answers m) + 11 * (zlen (authorities m) + zlen (wire_additionals m))));
    [by repeat (apply sticky_wseq; [apply Hst|])| | |lia].
  - apply grows_write_all; [done|apply sticky_Question_encode|].
    eapply Forall_impl; [done|]. apply grows_Question.
  - eapply grows_seq; [by apply sticky_wseq|by apply Hrec| |reflexivity].
    eapply grows_seq; [apply Hst|by apply Hrec|by apply Hrec, wire_additionals_wf|lia].
Qed.

(** The counts of what was written are never rejected. *)
Lemma counts_accepted qd an ns ar rem :
  0 ≤ qd ≤ MAX_SECTION_ITEMS → 0 ≤ an ≤ MAX_SECTION_ITEMS → 0 ≤ ns ≤ MAX_SECTION_ITEMS →
  0 ≤ ar ≤ MAX_SECTION_ITEMS → 5 * qd + 11 * (an + ns + ar) ≤ rem →
  counts_impossible qd an ns ar rem = false.
Proof.
  unfold counts_impossible, saturating_mul, saturating_add, MAX_SECTION_ITEMS, USIZE_MAX. intros.
  repeat (apply orb_false_intro); apply Z.ltb_ge; lia.
Qed.

Lemma checked_wire_types m :
  checked m → Forall (λ rec, RData_record_type (rdata rec) = rtype rec) (wire_additionals m).
Proof.
  intros Hck. pose proof (ck_types m Hck) as Ht. rewrite !Forall_app in Ht.
  apply wire_additionals_forall; [|done]. apply Ht.
Qed.

Lemma plain_wire m :
  message_plain m → Forall record_short (wire_additionals m) ∧ Forall (rdata_kept None) (wire_additionals m).
Proof.
  intros Hp. pose proof (pl_names m Hp) as Hn. rewrite !Forall_app in Hn.
  split; apply wire_additionals_forall; try done; [apply Hn|split; [apply root_short|done]|].
  apply Hp.
Qed.

Lemma Z_to_nat_zlen {A} (l : list A) : Z.to_nat (zlen l) = length l.
Proof. unfold zlen. lia. Qed.

Lemma encodes_questions hole qs :
  Forall question_wf qs → Forall (λ q, short_name (qname q)) qs →
  encodes_at hole (write_all Question_encode qs) (parse_n (length qs) Question_parse)
    (λ qs', Forall2 question_equiv qs' qs).
Proof.
  intros Hq Hs. apply encodes_parse_n; [apply sticky_Question_encode|].
  rewrite Forall_forall in *. intros q Hin. apply encodes_Question; auto.
Qed.

Lemma encodes_sections m :
  message_wf m → header_wf (header m) → checked m → message_plain m →
  encodes_to None (write_sections m)
    (λ _, Message_parse_sections (low_codes (header m)) (zlen (questions m)) (zlen (answers m))
       (zlen (authorities m)) (zlen (wire_additionals m)))
    (λ m', message_equiv m' m).
Proof.
  intros Hwf Hh Hck Hpl. pose proof Hpl as [Hcnt Hqs Hnames Hka Hkn Hkr].
  pose proof (ck_types m Hck) as Ht. rewrite !Forall_app in Hnames, Ht.
  destruct Hnames as (Hna & Hnn & Hnr). destruct Ht as (Hta & Htn & Htr).
  destruct (plain_wire m Hpl) as [Hsw Hkw].
  eapply (encodes_to_open _ _ _ (λ _, _)); [by apply grows_sections| |].
  2:{ intros r [] Hr. unfold Message_parse_sections.
      rewrite counts_accepted; [done|split; [apply zlen_nonneg|apply Hcnt]..|].
      unfold Reader_remaining, saturating_sub. lia. }
  destruct Hwf as (_ & _ & _ & Hq & Ha & Hn & Hr). rewrite !read_n_inner, !Z_to_nat_zlen.
  pose proof sticky_write_records as Hst.
  assert (Hop : opcode (low_codes (header m)) = opcode (header m)) by (apply land_15_small, Hh).
  unfold write_sections.
  eapply encodes_to_seq; [by repeat (apply sticky_wseq; [apply Hst|])|by apply encodes_questions|]. intros qs Heqq.
  cbv zeta. rewrite Hop. cbn [response low_codes].
  set (upd := (opcode (header m) =? 5) && negb (response (header m))) in *.
  replace (section_classes (if upd then 1 else 0)) with (if upd then Some [254; 255] else None)
    by by destruct upd.
  eapply encodes_to_seq; [by repeat (apply sticky_wseq; [apply Hst|])|by apply encodes_section|]. intros ans Heqa.
  replace (section_classes (if upd then 2 else 0)) with (if upd then Some [255] else None)
    by by destruct upd.
  eapply encodes_to_seq; [apply Hst|by apply encodes_section|]. intros auths Heqn.
  rewrite (existsb_equiv _ (answers m ++ authorities m)) by by apply Forall2_app.
  rewrite (ck_place m Hck).
  change (write_all Record_encode (wire_additionals m))
    with (write_all Record_encode (wire_additionals m) ;> id).
  eapply encodes_to_seq; [apply sticky_id|apply encodes_section|].
  { by apply wire_additionals_wf. } { by apply checked_wire_types. } { done. } { done. }
  intros adds Heqr.
  apply (encodes_to_end _ _ {| header := header m; questions := qs; answers := ans;
    authorities := auths; additionals := adds |}); [|by split_and!].
  intros r Hr0. unfold Reader_remaining, saturating_sub. rewrite Hr0, Z.sub_diag. cbn [Z.max Z.compare Z.eqb negb].
  by rewrite parse_opt_rcode_wire.
Qed.

Lemma sticky_write_sections m : sticky (write_sections m).
Proof.
  apply sticky_wseq; [apply sticky_write_all, sticky_Question_encode|].
  apply sticky_wseq; [apply sticky_write_records|].
  apply sticky_wseq; apply sticky_write_records.
Qed.

Lemma encodes_message m :
  message_wf m → checked m → message_plain m →
  encodes_to None (write_header m ;> write_sections m) (λ _, Message_parse_body)
    (λ m', message_equiv m' m).
Proof.
  intros Hwf Hck Hpl. pose proof Hwf as (Hi & Ho & Hc & _).
  assert (Hh : header_wf (header m)).
  { destruct Hck as [? ? _ _ _ _ _]. unfold header_wf, is_u8, is_u16 in *. lia. }
  destruct (Header_flags_spec (header m)) as [Hf16 Hfl]. destruct Hck as [? ? Hu ? ? ? ?] eqn:E.
  pose proof (sticky_write_sections m) as Hst.
  assert (Hz : ∀ (A : Type) (l : list A), zlen l ≤ U16_MAX → is_u16 (zlen l)).
  { intros A l Hl. split; [apply zlen_nonneg|done]. }
  destruct Hu as (? & ? & ? & ?).
  change (write_header m ;> write_sections m) with
    (Writer_push_u16 (msg_id (header m)) ;> Writer_push_u16 (Header_flags (header m)) ;>
     Writer_push_u16 (zlen (questions m)) ;> Writer_push_u16 (zlen (answers m)) ;>
     Writer_push_u16 (zlen (authorities m)) ;> Writer_push_u16 (zlen (wire_additionals m)) ;>
     write_sections m).
  unfold Message_parse_body.
  do 6 (eapply encodes_to_seq; [by repeat (apply sticky_wseq; [apply sticky_append|])|apply encodes_u16; auto|intros ? <-]).
  rewrite Hfl. by apply encodes_sections.
Qed.

Lemma Message_try_encode_ok hb m b :
  Message_try_encode hb m = Ok b →
  ∃ w, checked m ∧ w = (write_header m ;> write_sections m) (Writer_new hb) ∧
    Writer_is_failed w = false ∧ b = wbuf w.
Proof.
  unfold Message_try_encode. destruct (Message_encode_checked_into m _) as [[[]|?| |] w] eqn:He; try done.
  destruct (Message_encode_ok m w (Writer_new hb) eq_refl He) as (Hck & Hw & Hf).
  intros Hb. exists w. split_and!; try done. unfold Writer_finish in Hb. case_match; [done|].
  by injection Hb as <-.
Qed.

Lemma WInv_new hb : WInv None (Writer_new hb).
Proof.
  constructor; [apply Writer_new_wf|done|]. intros k off. unfold Writer_new. cbn [wnames].
  by rewrite NameMap_default_model, lookup_empty.
Qed.

Lemma Message_roundtrip_lemma hb m b :
  message_wf m → message_plain m → Message_try_encode hb m = Ok b →
  ∃ m', Message_parse b = Ok m' ∧ message_equiv m' m.
Proof.
  intros Hwf Hpl He. pose proof (Message_try_encode_spec hb m Hwf) as Hb. rewrite He in Hb.
  destruct Hb as [Hlen Hbytes]. destruct (Message_try_encode_ok hb m b He) as (w & Hck & -> & Hf & ->).
  set (w := (write_header m ;> write_sections m) (Writer_new hb)) in *.
  destruct (encodes_message m Hwf Hck Hpl (Writer_new hb) (WInv_new hb) Hf) as (Hw & _ & Hd).
  destruct (Hd (Reader_new (wbuf w))) as (m' & Hm' & Heq); [|done|done|].
  { apply (self_reader_reads 0 None w Hw). pose proof (zlen_nonneg (wbuf w)). lia. }
  exists m'. split; [|done]. unfold Message_parse. rewrite (proj2 (Z.ltb_ge _ _)) by done.
  by rewrite Hm'.
Qed.
