(* ===== verification/Padding.v ===== *)
(** * Padding and the hash seed ([Message::pad_to])

    The encoding of a message does not depend on the random seed of the
    writer's name table, so the size measured by [pad_to] is the size that is
    sent; a padded message whose OPT record comes last has a length that is a
    multiple of the block. *)

From S2P Require Import Prelude NameTable Wire Writer Name Codec NameCodec RData RDataCodec.
From S2P Require Import RecordCodec Edns Message MessageSafety MessageCodec.

#[local] Open Scope writer_scope.

(** ** Two writers that differ in their seeds *)

Record sim (w w' : Writer) : Prop := {
  sim_buf : wbuf w = wbuf w';
  sim_error : werror w = werror w';
  sim_limit : wlimit w = wlimit w';
  sim_wf : NameMap_wf (wnames w) ∧ NameMap_wf (wnames w');
  sim_names : NameMap_model (wnames w) = NameMap_model (wnames w');
}.

Definition seedless (e : Writer → Writer) : Prop := ∀ w w', sim w w' → sim (e w) (e w').

Lemma sim_failed w w' : sim w w' → Writer_is_failed w = Writer_is_failed w'.
Proof. intros []. unfold Writer_is_failed. by f_equal; rewrite sim_error0. Qed.

Lemma seedless_fail m : seedless (Writer_fail m).
Proof.
  intros w w' [Hb He Hl Hw Hn]. unfold Writer_fail. rewrite <-He.
  destruct (werror w) eqn:E; by constructor; simpl; rewrite ?E.
Qed.

Lemma seedless_append n b : seedless (Writer_append n b).
Proof.
  intros w w' Hs. pose proof Hs as [Hb He Hl Hw Hn].
  unfold Writer_append, Writer_reserve_append. rewrite <-(sim_failed _ _ Hs), <-Hb, <-Hl.
  destruct (Writer_is_failed w); [done|]. destruct (checked_add _ _); [|by apply seedless_fail].
  destruct (_ <? _); [by apply seedless_fail|]. constructor; simpl; done || by rewrite Hb.
Qed.

Lemma seedless_seq e1 e2 : seedless e1 → seedless e2 → seedless (e1 ;> e2).
Proof. intros H1 H2 w w' Hs. by apply H2, H1. Qed.

Lemma seedless_id : seedless id.
Proof. by intros w w'. Qed.

Lemma seedless_backpatch at_ : seedless (Writer_backpatch_len at_).
Proof.
  intros w w' Hs. pose proof Hs as [Hb He Hl Hw Hn].
  unfold Writer_backpatch_len. rewrite <-(sim_failed _ _ Hs), <-Hb.
  destruct (Writer_is_failed w); [done|]. destruct (checked_add _ _); [|by apply seedless_fail].
  destruct (get_range _ _ _); [|by apply seedless_fail].
  destruct (checked_sub _ _); [|by apply seedless_fail].
  destruct (u16_try_from _); [|by apply seedless_fail]. constructor; simpl; done || by rewrite Hb.
Qed.

Lemma seedless_encode_loop ls : ∀ key, seedless (encode_loop key ls).
Proof.
  induction ls as [|l ls IH]; intros key w w' Hs; cbn [encode_loop]; [by apply seedless_append|].
  pose proof Hs as [Hb He Hl [Hw Hw'] Hn]. rewrite !NameMap_get_model by done. rewrite <-Hn.
  destruct (NameMap_model (wnames w) !! key); [by apply seedless_append|].
  apply IH. do 2 apply seedless_append. rewrite <-(sim_failed _ _ Hs), <-Hb.
  destruct (_ && _); [|done].
  constructor; simpl; try done; [split; by apply NameMap_insert_wf|].
  by rewrite !NameMap_insert_model, Hn.
Qed.

Lemma seedless_Name_encode n : seedless (Name_encode n).
Proof.
  intros w w' Hs. unfold Name_encode. destruct (Name_canonical_key_into _ _) as [[key|]| | |];
    try by apply seedless_fail. by apply seedless_encode_loop.
Qed.

Lemma seedless_with_len_slot e : seedless e → seedless (with_len_slot e).
Proof.
  intros He w w' Hs. unfold with_len_slot, Writer_placeholder_u16.
  rewrite (sim_buf _ _ Hs). apply seedless_backpatch, He. by apply seedless_append.
Qed.

Create HintDb seedless.
#[export] Hint Resolve seedless_fail seedless_append seedless_seq seedless_id
  seedless_Name_encode seedless_with_len_slot : seedless.
#[export] Hint Extern 1 (seedless (Writer_push_u8 _)) => apply seedless_append : seedless.
#[export] Hint Extern 1 (seedless (Writer_push_u16 _)) => apply seedless_append : seedless.
#[export] Hint Extern 1 (seedless (Writer_push_u32 _)) => apply seedless_append : seedless.
#[export] Hint Extern 1 (seedless (Writer_push_bytes _)) => apply seedless_append : seedless.
#[export] Hint Extern 1 (seedless (Name_encode_uncompressed _)) => apply seedless_append : seedless.

Lemma seedless_char_string s : seedless (write_char_string s).
Proof. unfold write_char_string. case_match; auto with seedless. Qed.
Lemma seedless_chunks cs : seedless (encode_chunks cs).
Proof. induction cs; cbn [encode_chunks]; [apply seedless_id|]. case_match; auto with seedless. Qed.
Lemma seedless_params ps : seedless (encode_params ps).
Proof.
  induction ps as [|[]]; cbn [encode_params]; [apply seedless_id|].
  apply seedless_seq; [auto with seedless|]. case_match; auto with seedless.
Qed.
#[export] Hint Resolve seedless_char_string seedless_chunks seedless_params : seedless.

Lemma seedless_RData d : seedless (RData_encode d).
Proof.
  destruct d; cbn [RData_encode]; auto 20 with seedless;
    try (unfold encode_svcb; case_match; auto 20 with seedless).
Qed.
#[export] Hint Resolve seedless_RData : seedless.

Lemma seedless_Record rec t : seedless (Record_encode_with_ttl rec t).
Proof.
  unfold Record_encode_with_ttl. fold (with_len_slot (RData_encode (rdata rec))).
  auto 20 with seedless.
Qed.

Lemma sim_new hb hb' : sim (Writer_new hb) (Writer_new hb').
Proof.
  constructor; [done..|split; apply NameMap_default_wf|]. unfold Writer_new. cbn [wnames].
  by rewrite !NameMap_default_model.
Qed.

(** The same for the parts of the encoder that may return early. *)
Definition enc_seedless (e : Enc) : Prop :=
  ∀ w w', sim w w' → fst (e w) = fst (e w') ∧ sim (snd (e w)) (snd (e w')).

Lemma enc_seedless_eput e : seedless e → enc_seedless (eput e).
Proof.
  intros He w w' Hs. specialize (He _ _ Hs). pose proof (sim_error _ _ He) as Herr.
  unfold eput, stop_on_writer_error. rewrite <-Herr. by destruct (werror (e w)).
Qed.

Lemma enc_seedless_ebind e k : enc_seedless e → enc_seedless k → enc_seedless (e ;? k).
Proof.
  intros He Hk w w' Hs. unfold ebind. destruct (He _ _ Hs) as [Hf Hs'].
  destruct (e w) as [o w1], (e w') as [o' w1']. simpl in Hf, Hs'. subst o'.
  destruct o; try done. by apply Hk.
Qed.

Lemma enc_seedless_all {A} (e : A → Writer → Writer) l :
  (∀ a, seedless (e a)) → enc_seedless (eput_all e l).
Proof.
  intros He. induction l; cbn [eput_all]; [by intros w w' Hs|].
  by apply enc_seedless_ebind; [apply enc_seedless_eput|].
Qed.

Lemma enc_seedless_message m : enc_seedless (Message_encode_checked_into m).
Proof.
  intros w w' Hs. unfold Message_encode_checked_into.
  destruct (encode_checks m) as [[[[[qd an] ns] ar] syn]| | |]; try done. revert w w' Hs.
  match goal with |- ∀ w w', _ → fst (?e _) = _ ∧ _ => change (enc_seedless e) end.
  apply enc_seedless_ebind; [apply enc_seedless_eput; auto 20 with seedless|].
  apply enc_seedless_ebind.
  { apply enc_seedless_all. intros q. unfold Question_encode. auto with seedless. }
  do 3 (apply enc_seedless_ebind; [apply enc_seedless_all; intros rec; apply seedless_Record|]).
  destruct syn; [|by intros w w' Hs]. unfold encode_synthetic_opt.
  intros w w' Hs. case_match; try done.
  by apply enc_seedless_eput; [apply seedless_Record|].
Qed.

Lemma Message_try_encode_seed hb hb' m : Message_try_encode hb m = Message_try_encode hb' m.
Proof.
  unfold Message_try_encode. destruct (enc_seedless_message m _ _ (sim_new hb hb')) as [Hf Hs].
  destruct (Message_encode_checked_into m (Writer_new hb)) as [o w],
    (Message_encode_checked_into m (Writer_new hb')) as [o' w']. simpl in Hf, Hs. subst o'.
  destruct o; try done. unfold Writer_finish. by rewrite (sim_error _ _ Hs), (sim_buf _ _ Hs).
Qed.

(** ** Sizes *)

Lemma exact_size_with_len_slot n e :
  sticky e → exact_size n e → exact_size (2 + n) (with_len_slot e).
Proof.
  intros He Hn w Hf. unfold with_len_slot, Writer_placeholder_u16 in *.
  set (w1 := Writer_push_u16 0 w) in *.
  pose proof (sticky_first _ _ (sticky_backpatch _) Hf) as Hf2.
  pose proof (sticky_first _ _ He Hf2) as Hf1. pose proof (Hn _ Hf2) as Hlen.
  assert (H1 : zlen (wbuf w1) = zlen (wbuf w) + 2) by by apply (exact_size_append 2).
  destruct (Writer_backpatch_ok _ _ Hf) as (len & Hat & Hl & Hr & ->). simpl.
  rewrite zlen_patch; lia.
Qed.

(** A record with the root name and opaque RDATA. *)
Lemma exact_size_opt c t t' raw :
  exact_size (11 + zlen raw) (Record_encode_with_ttl
    {| name := Name_root; rtype := TYPE_OPT; class := c; ttl := t; rdata := RD_Unknown TYPE_OPT raw |} t').
Proof.
  unfold Record_encode_with_ttl. cbn [name rtype class rdata RData_encode].
  fold (with_len_slot (Writer_push_bytes raw)).
  replace (11 + zlen raw) with (1 + (2 + (2 + (4 + (2 + zlen raw))))) by lia.
  assert (Hst : sticky (with_len_slot (Writer_push_bytes raw))) by auto with sticky.
  apply exact_size_compose; [auto 10 with sticky| |].
  { change Name_root with {| nwire := labels_wire [] |}.
    assert (Hwf : labels_wf []) by (by split; [constructor|]).
    intros w. rewrite Name_encode_loop by done. by apply (exact_size_append 1). }
  apply exact_size_compose; [auto 10 with sticky|by apply exact_size_append|].
  apply exact_size_compose; [auto 10 with sticky|by apply exact_size_append|].
  apply exact_size_compose; [auto 10 with sticky|by apply exact_size_append|].
  apply exact_size_with_len_slot; [auto with sticky|by apply exact_size_append].
Qed.

(** ** [pad_to] *)

(** Everything that is written before a last additional record. *)
Definition write_before (m : Message) (pre : list Record_) (count : Z) : Writer → Writer :=
  (Writer_push_u16 (msg_id (header m)) ;> Writer_push_u16 (Header_flags (header m)) ;>
   Writer_push_u16 (zlen (questions m)) ;> Writer_push_u16 (zlen (answers m)) ;>
   Writer_push_u16 (zlen (authorities m)) ;> Writer_push_u16 count) ;>
  write_all Question_encode (questions m) ;> write_all Record_encode (answers m) ;>
  write_all Record_encode (authorities m) ;> write_all Record_encode (map (wire_record (header m)) pre).

Definition opt_record (c t : Z) (raw : list Z) : Record_ :=
  {| name := Name_root; rtype := TYPE_OPT; class := c; ttl := t; rdata := RD_Unknown TYPE_OPT raw |}.

Lemma exact_size_opt_record rec raw :
  name rec = Name_root → rtype rec = TYPE_OPT → rdata rec = RD_Unknown TYPE_OPT raw →
  exact_size (11 + zlen raw) (Record_encode rec).
Proof.
  destruct rec as [nm ty cl tt d]. cbn [name rtype rdata]. intros -> -> ->.
  unfold Record_encode. cbn [ttl]. apply exact_size_opt.
Qed.

(** The length of a message that ends with an OPT record. *)
Lemma encode_opt_last hb m pre c t raw b :
  additionals m = pre ++ [opt_record c t raw] → Message_try_encode hb m = Ok b →
  zlen b = zlen (wbuf (write_before m pre (zlen pre + 1) (Writer_new hb))) + (11 + zlen raw).
Proof.
  intros Hadd He. destruct (Message_try_encode_ok hb m b He) as (w & Hck & Hw & Hf & ->).
  assert (Hwire : wire_additionals m =
    map (wire_record (header m)) pre ++ [wire_record (header m) (opt_record c t raw)]).
  { unfold wire_additionals, needs_synthetic_opt. rewrite Hadd, List.filter_app, zlen_app, map_app.
    change (zlen (List.filter is_opt [opt_record c t raw])) with 1.
    pose proof (zlen_nonneg (List.filter is_opt pre)).
    rewrite (proj2 (Z.eqb_neq _ 0)) by lia. rewrite andb_false_r, app_nil_r. done. }
  assert (Hcount : zlen (wire_additionals m) = zlen pre + 1).
  { rewrite Hwire, zlen_app, zlen_map. done. }
  assert (Hsplit : w = Record_encode (wire_record (header m) (opt_record c t raw))
    (write_before m pre (zlen pre + 1) (Writer_new hb))).
  { rewrite Hw. unfold write_before, write_sections, write_header. rewrite Hcount, Hwire.
    unfold wseq. rewrite write_all_app. done. }
  rewrite Hsplit in Hf |- *. by apply (exact_size_opt_record (wire_record (header m) (opt_record c t raw))).
Qed.

Lemma pad_multiple block x : 0 < block → (x + (block - x mod block) mod block) mod block = 0.
Proof.
  intros Hb. rewrite Zplus_mod_idemp_r.
  replace (x + (block - x mod block)) with ((x / block + 1) * block) by (rewrite (Z.div_mod x block) at 2; lia).
  apply Z_mod_mult.
Qed.

Lemma opt_position_last pre opt :
  existsb is_opt pre = false → is_opt opt = true → opt_position (pre ++ [opt]) = Some (length pre).
Proof.
  intros Hp Ho. induction pre as [|r pre IH]; simpl in *; [by rewrite Ho|].
  apply orb_false_elim in Hp as [-> Hp]. by rewrite IH.
Qed.

Lemma insert_last {A} (l : list A) x y : <[length l := y]> (l ++ [x]) = l ++ [y].
Proof. rewrite insert_app_r_alt by lia. by rewrite Nat.sub_diag. Qed.

Lemma options_raw_snoc o c d : zlen (options_raw (o ++ [(c, d)])) = zlen (options_raw o) + 4 + zlen d.
Proof.
  rewrite options_raw_app, zlen_app, zlen_options_raw_cons. change (options_raw []) with (@nil Z).
  rewrite zlen_nil. lia.
Qed.

Lemma pad_to_lemma hb hb' block m m' pre opt b :
  0 < block → additionals m = pre ++ [opt] → existsb is_opt pre = false → is_opt opt = true →
  Message_pad_to hb block m = (Ok tt, m') → Message_try_encode hb' m' = Ok b →
  zlen b mod block = 0.
Proof.
  intros Hb Hadd Hpre Hopt Hpad Henc. unfold Message_pad_to in Hpad.
  rewrite (proj2 (Z.eqb_neq _ _)) in Hpad by lia.
  rewrite Hadd, opt_position_last in Hpad by done.
  rewrite lookup_app_r, Nat.sub_diag in Hpad by lia. cbn [lookup list_lookup] in Hpad.
  destruct (Edns_try_from_record opt) as [e| | |]; try done.
  set (e1 := set_options _ e) in Hpad.
  destruct (Edns_try_to_record e1) as [rec1| | |] eqn:H1; try done.
  destruct (Message_try_encode hb _) as [b1| | |] eqn:He1; try done.
  set (e2 := set_options _ e1) in Hpad.
  destruct (Edns_try_to_record e2) as [rec2| | |] eqn:H2; try done. injection Hpad as <-.
  apply try_to_record_spec in H1 as (-> & _). apply try_to_record_spec in H2 as (-> & _).
  rewrite (Message_try_encode_seed hb' hb) in Henc. unfold replace_additional in Henc, He1.
  rewrite Hadd, insert_last in He1. rewrite Hadd in Henc. cbn [additionals set_additionals] in Henc.
  rewrite !insert_last in Henc.
  eapply encode_opt_last with (pre := pre) in He1; [|done].
  eapply encode_opt_last with (pre := pre) in Henc; [|done].
  change (write_before (set_additionals _ _) pre (zlen pre + 1)) with (write_before m pre (zlen pre + 1)) in *.
  unfold e2 in Henc. cbn [options set_options] in Henc. rewrite options_raw_snoc in Henc.
  replace (zlen b) with ((zlen b1 + 4) + (block - (zlen b1 + 4) mod block) mod block);
    [by apply pad_multiple|].
  assert (Hpl : zlen (replicate (Z.to_nat (pad_len block (zlen b1))) 0) = pad_len block (zlen b1)).
  { unfold zlen at 1. rewrite length_replicate. unfold pad_len.
    pose proof (Z.mod_pos_bound (block - (zlen b1 + 4) mod block) block Hb). lia. }
  rewrite Hpl in Henc. unfold pad_len in Henc. lia.
Qed.
