(* ===== verification/ProtoProps.v ===== *)
(** * Properties of the DNS codec ([onetdns-proto])

    The statements the rest of the server relies on, each with a concrete
    instance. *)

From S2P Require Import Prelude NameTable Wire Writer Name Codec NameCodec NameText RData.
From S2P Require Import RDataCodec RecordCodec Ttl Edns Message MessageSafety.
From S2P Require Import MessageCodec Padding.

(** ** Concrete inputs *)

(** "WWW.example", "mail.example" and "ns.example". *)
Definition www : Name := {| nwire := [3;87;87;87;7;101;120;97;109;112;108;101;0] |}.
Definition mail : Name := {| nwire := [4;109;97;105;108;7;101;120;97;109;112;108;101;0] |}.

(** A response with an answer, an MX record and an extended response code. *)
Definition sample : Message :=
  {| header := {| msg_id := 4660; response := true; opcode := 0; authoritative := true;
                  truncated := false; recursion_desired := true; recursion_available := true;
                  authentic_data := false; checking_disabled := false; rcode := 23 |};
     questions := [{| qname := www; qtype := TYPE_A; qclass := CLASS_IN |}];
     answers := [Record_new www 300 (RD_A [192; 0; 2; 1]); Record_new www 60 (RD_Mx 10 mail)];
     authorities := []; additionals := [] |}.

Definition sample_wire : list Z :=
  match Message_try_encode (λ _, 0) sample with Ok b => b | _ => [] end.


Lemma www_short : short_name www.
Proof. split; [wf_name|vm_compute; discriminate]. Qed.
Lemma mail_short : short_name mail.
Proof. split; [wf_name|vm_compute; discriminate]. Qed.

Lemma sample_wf : message_wf sample.
Proof.
  pose proof www_short as [Hw _]. pose proof mail_short as [Hm _].
  unfold message_wf, sample, question_wf, record_wf, Record_new, rdata_wf. cbn.
  split_and!; try in_range; repeat (constructor; cbn; split_and?; try done; try in_range).
Qed.


(** ** Messages *)

(** C1. [Message::parse] is total on octet strings: it neither panics nor
    loops, and a message it accepts has all its invariants (types that match
    their data, bounded sections, at most one valid OPT record, in the
    additional section). *)
Theorem message_parse_total (b : list Z) :
  is_bytes b →
  match Message_parse b with Ok m => message_parsed m | Err _ => True | Panic | NoFuel => False end.
Proof. apply Message_parse_spec. Qed.

Lemma message_parse_total_witness :
  match Message_parse sample_wire with Ok m => message_parsed m | Err _ => True | Panic | NoFuel => False end.
Proof. apply (message_parse_total sample_wire). apply is_bytesb_ok. vm_compute. reflexivity. Defined.



(** C3. [Message::try_encode] is total on messages whose fields have the
    ranges of their Rust types, and never returns more than 65,535 octets. *)
Theorem message_encode_total (hb : list Z → Z) (m : Message) :
  message_wf m →
  match Message_try_encode hb m with
  | Ok b => zlen b ≤ MAX_DNS_WIRE_LEN ∧ is_bytes b
  | Err _ => True
  | Panic | NoFuel => False
  end.
Proof. apply Message_try_encode_spec. Qed.

Lemma message_encode_total_witness :
  match Message_try_encode (λ _, 0) sample with
  | Ok b => zlen b ≤ MAX_DNS_WIRE_LEN ∧ is_bytes b
  | Err _ => True
  | Panic | NoFuel => False
  end.
Proof. apply message_encode_total. exact sample_wf. Defined.

(** The encoding does not depend on the random seed of the hasher of the
    compression table: every server writes the same octets. *)
Theorem message_encode_deterministic (hb hb' : list Z → Z) (m : Message) :
  Message_try_encode hb m = Message_try_encode hb' m.
Proof. apply Message_try_encode_seed. Qed.

(** [Message::pad_to] makes the length of the message a multiple of the
    block when the OPT record is the last additional record. *)
Theorem pad_to_block (hb hb' : list Z → Z) (block : Z) (m m' : Message) (pre : list Record_)
    (opt : Record_) (b : list Z) :
  0 < block → additionals m = pre ++ [opt] → existsb is_opt pre = false → is_opt opt = true →
  Message_pad_to hb block m = (Ok tt, m') → Message_try_encode hb' m' = Ok b →
  zlen b mod block = 0.
Proof. apply pad_to_lemma. Qed.

(** A query with an OPT record that asks for padding. *)
Definition sample_opt : Record_ :=
  {| name := Name_root; rtype := TYPE_OPT; class := 1232; ttl := 32768;
     rdata := RD_Unknown TYPE_OPT [0; 12; 0; 1; 0; 0; 10; 0; 2; 7; 7] |}.
Definition sample_query : Message := set_additionals [sample_opt] (Message_query 7 www TYPE_MX).
Definition sample_padded : Message := snd (Message_pad_to (λ _, 0) 128 sample_query).
Definition sample_padded_wire : list Z :=
  match Message_try_encode (λ _, 1) sample_padded with Ok b => b | _ => [] end.

Lemma pad_to_block_witness : zlen sample_padded_wire mod 128 = 0.
Proof.
  apply (pad_to_block (λ _, 0) (λ _, 1) 128 sample_query sample_padded [] sample_opt);
    [lia|reflexivity|reflexivity|reflexivity|vm_compute; reflexivity|vm_compute; reflexivity].
Defined.

(** ** Names *)

(** C4. [Name::parse] and [Name::encode] agree.  Whatever was written before
    (the table and the buffer satisfy the invariant), a name of at most
    [MAX_JUMPS] labels that is encoded, possibly as pointers into the earlier
    octets, is read back from every buffer that continues this one: the same
    name up to the case of its letters, and the cursor right behind it. *)
Theorem name_compression_roundtrip (n : Name) :
  Name_wf n → Name_num_labels n ≤ MAX_JUMPS →
  encodes (Name_encode n) Name_parse (λ m, Name_wf m ∧ name_equiv m n).
Proof. apply encodes_Name. Qed.

Lemma name_compression_roundtrip_witness :
  encodes (Name_encode www) Name_parse (λ m, Name_wf m ∧ name_equiv m www).
Proof. apply name_compression_roundtrip; [wf_name|vm_compute; discriminate]. Defined.

(** [Name::from_uncompressed_wire] accepts an octet string exactly when it
    is the wire form of a well-formed name (labels of 1 to 63 octets, at most
    255 octets in all, nothing behind the root), and returns that name. *)
Theorem from_uncompressed_wire_exact (bytes : list Z) (n : Name) :
  is_bytes bytes →
  Name_from_uncompressed_wire bytes = Some n ↔ Name_wf n ∧ nwire n = bytes.
Proof. apply Name_from_uncompressed_wire_spec. Qed.

Lemma from_uncompressed_wire_exact_witness :
  Name_from_uncompressed_wire (nwire www) = Some www ↔ Name_wf www ∧ nwire www = nwire www.
Proof. apply from_uncompressed_wire_exact. apply is_bytesb_ok. vm_compute. reflexivity. Defined.

(** C36. a name written by [Name::to_master_lower] is read back by
    [Name::from_str] as the same name in lower case, whatever octets its
    labels hold (dots, backslashes and control characters included). *)
Theorem name_text_roundtrip (n : Name) :
  Name_wf n → Name_from_str (Name_to_master_lower n) = Ok (Name_to_ascii_lower_name n).
Proof. apply Name_text_roundtrip. Qed.

Lemma name_text_roundtrip_witness :
  Name_from_str (Name_to_master_lower {| nwire := [4; 46; 92; 0; 65; 2; 64; 200; 0] |}) =
  Ok {| nwire := [4; 46; 92; 0; 97; 2; 64; 200; 0] |}.
Proof.
  apply (name_text_roundtrip {| nwire := [4; 46; 92; 0; 65; 2; 64; 200; 0] |}). wf_name.
Defined.

(** [Name::ends_with_ignore_case] returns, and it answers [true] exactly
    when the labels of the second name are the last labels of the first one,
    up to case: a suffix of the text that cuts a label is not accepted. *)
Theorem ends_with_labels (ls ks : list (list Z)) :
  labels_wf ls → labels_wf ks →
  ∃ b, Name_ends_with_ignore_case {| nwire := labels_wire ls |} {| nwire := labels_wire ks |} = Ok b ∧
    (b = true ↔ ∃ pre suf, ls = pre ++ suf ∧ labels_lower suf = labels_lower ks).
Proof. apply ends_with_spec. Qed.

Lemma ends_with_labels_witness :
  ∃ b, Name_ends_with_ignore_case {| nwire := labels_wire [[97]; [66; 99]] |}
         {| nwire := labels_wire [[98; 67]] |} = Ok b ∧
    (b = true ↔ ∃ pre suf, [[97]; [66; 99]] = pre ++ suf ∧ labels_lower suf = labels_lower [[98; 67]]).
Proof.
  apply ends_with_labels; (split; [|vm_compute; discriminate]);
    repeat (constructor; [split; [vm_compute; split; discriminate|
      repeat (constructor; [vm_compute; split; discriminate|]); constructor]|]); constructor.
Defined.

(** The canonical key identifies names up to case: two names have the
    same [Name::canonical_key] exactly when [Name::eq_ignore_case] holds. *)
Theorem canonical_key_identifies (n m : Name) :
  Name_wf n → Name_wf m →
  Name_canonical_key n = Name_canonical_key m ↔ Name_eq_ignore_case n m = true.
Proof. apply canonical_key_equiv. Qed.

Lemma canonical_key_identifies_witness :
  Name_canonical_key www = Name_canonical_key mail ↔ Name_eq_ignore_case www mail = true.
Proof. apply canonical_key_identifies; wf_name. Defined.

(** ** Records *)

(** a record that is encoded is read back, in every section kind: the
    RDATA length that is patched in afterwards is the length that is read, the
    parser stops exactly behind the RDATA, and every RDATA variant comes back. *)
Theorem record_roundtrip (cs : option (list Z)) (rec : Record_) (t : Z) :
  record_wf rec → is_u32 t → record_regular cs rec → record_short rec →
  encodes_at None (Record_encode_with_ttl rec t) (Record_parse_inner cs)
    (λ rec', Name_wf (name rec') ∧ record_equiv_ttl t rec' rec).
Proof. apply encodes_Record. Qed.

Lemma record_roundtrip_witness :
  encodes_at None (Record_encode_with_ttl (Record_new www 60 (RD_Mx 10 mail)) 60)
    (Record_parse_inner (Some [255]))
    (λ rec', Name_wf (name rec') ∧ record_equiv_ttl 60 rec' (Record_new www 60 (RD_Mx 10 mail))).
Proof.
  apply record_roundtrip.
  - split_and!; try in_range; try wf_name. split; [in_range|wf_name].
  - in_range.
  - split; [reflexivity|exact I].
  - split; [exact www_short|exact mail_short].
Defined.

(** [normalize_ttls] gives every record whose TTL is a lifetime the
    smallest TTL of its RRset, values above 2^31-1 counting as 0, and leaves
    every other field and record alone; the shortcut for sections in which
    every record is alone changes nothing. *)
Theorem normalize_ttls_levels (records : list Record_) :
  normalize_ttls records = map (levelled records) records.
Proof. apply normalize_ttls_spec. Qed.

(** ** EDNS *)

(** an EDNS state survives [Edns::try_to_record] followed by
    [Edns::try_from_record]: the payload size, the extended response code, the
    version, the DO bit and all options in order. *)
Theorem edns_roundtrip (e : Edns) (rec : Record_) :
  edns_wf e → Edns_try_to_record e = Ok rec → Edns_try_from_record rec = Ok e.
Proof. apply try_from_to_record. Qed.

Definition sample_edns : Edns :=
  {| udp_payload := 1232; extended_rcode := 1; version := 0; dnssec_ok := true;
     options := [(10, [1; 2; 3]); (12, [])] |}.

Lemma edns_roundtrip_witness :
  Edns_try_from_record {| name := Name_root; rtype := TYPE_OPT; class := 1232; ttl := 16809984;
    rdata := RD_Unknown TYPE_OPT [0; 10; 0; 3; 1; 2; 3; 0; 12; 0; 0] |} = Ok sample_edns.
Proof.
  apply edns_roundtrip; [|vm_compute; reflexivity].
  split_and!; try in_range.
  constructor; [split; [in_range|apply is_bytesb_ok; reflexivity]|].
  constructor; [split; [in_range|apply is_bytesb_ok; reflexivity]|constructor].
Defined.

(** [Header::from_flags] undoes [Header::flags] for every header, up to
    the four low bits of the opcode and of the response code, and the flags
    always fit sixteen bits. *)
Theorem header_flags_roundtrip (h : Header) :
  is_u16 (Header_flags h) ∧ Header_from_flags (msg_id h) (Header_flags h) = low_codes h.
Proof. apply Header_flags_spec. Qed.

(** ** The compression table *)

(** the chained hash table of the encoder is a finite map, whatever the
    hash function: after any sequence of insertions a lookup finds the offset
    that was inserted last for the key, and nothing else. *)
Theorem name_map_is_a_map (hb : list Z → Z) (kvs : list (list Z * Z)) (k : list Z) :
  NameMap_get (fold_left (λ nm kv, NameMap_insert nm (fst kv) (snd kv)) kvs (NameMap_default hb)) k =
  fold_left (λ (m : gmap (list Z) Z) kv, <[fst kv := snd kv]> m) kvs ∅ !! k.
Proof.
  assert (H : ∀ nm, NameMap_wf nm →
    NameMap_get (fold_left (λ nm kv, NameMap_insert nm (fst kv) (snd kv)) kvs nm) k =
    fold_left (λ (m : gmap (list Z) Z) kv, <[fst kv := snd kv]> m) kvs (NameMap_model nm) !! k).
  { induction kvs as [|kv kvs IH]; intros nm Hnm; simpl; [by apply NameMap_get_model|].
    rewrite IH by by apply NameMap_insert_wf. by rewrite NameMap_insert_model. }
  rewrite H by apply NameMap_default_wf. by rewrite NameMap_default_model.
Qed.

(** ** A limit of the encoder *)

(** The message with one question for each of the names "a", "a.a", up to
    [n] labels. *)
Definition nested_names (n : nat) : Message :=
  {| header := Header_default;
     questions := map (λ k, {| qname := {| nwire := labels_wire (replicate (S k) [97]) |};
                               qtype := TYPE_A; qclass := CLASS_IN |}) (seq 0 n);
     answers := []; authorities := []; additionals := [] |}.

Definition nested_wire : list Z :=
  match Message_try_encode (λ _, 0) (nested_names 22) with Ok b => b | _ => [] end.

(** C40. the bound on the number of labels in [message_roundtrip] and
    [name_compression_roundtrip] is needed: the encoder
    compresses nested names into chains of pointers without limit, and a
    message with 22 nested names is encoded successfully but rejected by this
    library's own parser, which follows at most 20 pointers. *)
Theorem encoder_exceeds_parser_pointer_limit :
  ∃ b, Message_try_encode (λ _, 0) (nested_names 22) = Ok b ∧
    Message_parse b = Err (ErrName "압축 포인터 루프").
Proof. exists nested_wire. split; vm_compute; reflexivity. Qed.
