(* ===== verification/LruMap.v ===== *)
(** * The bounded LRU map ([onetdns-core/src/lrumap.rs])

    Nodes live in an arena; two intrusive lists run through them: the recency
    list, doubly linked, and one chain per key digest.  This file models every
    operation on the arena, with the panics of the code; [LruMapSpec] shows
    that they implement a recency list of distinct keys. *)

From S2P Require Import Prelude.

(** [NodeIndex] is [u32]; [NIL] is its largest value. *)
Definition NIL : Z := U32_MAX.

(** [struct Node]. *)
Record Node {K V : Type} := mkNode {
  nkey : K;
  nval : V;
  nprev : Z;
  nnext : Z;
  hash_next : Z;
}.
Arguments Node : clear implicits.
Arguments mkNode {K V}.

(** [struct LruMap]; the seeded hasher is the parameter [key_hash] of the
    operations. *)
Record LruMap {K V : Type} := mkLruMap {
  cap : Z;
  map_ : gmap Z Z;
  nodes : list (option (Node K V));
  free : list Z;
  head : Z;
  tail : Z;
  len : Z;
}.
Arguments LruMap : clear implicits.
Arguments mkLruMap {K V}.

Section Lru.
Context {K V : Type} `{EqDecision K}.
(** [LruMap::key_hash]: the 32-bit digest of a key, whatever the seed is. *)
Variable key_hash : K → Z.

Notation lru := (LruMap K V).

Definition set_links (p n : Z) (x : Node K V) : Node K V :=
  {| nkey := nkey x; nval := nval x; nprev := p; nnext := n; hash_next := hash_next x |}.
Definition set_val (v : V) (x : Node K V) : Node K V :=
  {| nkey := nkey x; nval := v; nprev := nprev x; nnext := nnext x; hash_next := hash_next x |}.
Definition set_hash_next (h : Z) (x : Node K V) : Node K V :=
  {| nkey := nkey x; nval := nval x; nprev := nprev x; nnext := nnext x; hash_next := h |}.

Definition set_nodes (ns : list (option (Node K V))) (m : lru) : lru :=
  {| cap := cap m; map_ := map_ m; nodes := ns; free := free m; head := head m; tail := tail m; len := len m |}.
Definition set_map (t : gmap Z Z) (m : lru) : lru :=
  {| cap := cap m; map_ := t; nodes := nodes m; free := free m; head := head m; tail := tail m; len := len m |}.
Definition set_free (f : list Z) (m : lru) : lru :=
  {| cap := cap m; map_ := map_ m; nodes := nodes m; free := f; head := head m; tail := tail m; len := len m |}.
Definition set_head (h : Z) (m : lru) : lru :=
  {| cap := cap m; map_ := map_ m; nodes := nodes m; free := free m; head := h; tail := tail m; len := len m |}.
Definition set_tail (t : Z) (m : lru) : lru :=
  {| cap := cap m; map_ := map_ m; nodes := nodes m; free := free m; head := head m; tail := t; len := len m |}.
Definition set_len (n : Z) (m : lru) : lru :=
  {| cap := cap m; map_ := map_ m; nodes := nodes m; free := free m; head := head m; tail := tail m; len := n |}.

(** [LruMap::new]: [None] is the panic on a capacity that collides with
    [NIL]. *)
Definition LruMap_new (c : Z) : option lru :=
  let c := Z.max c 1 in
  if c <? NIL
  then Some {| cap := c; map_ := ∅; nodes := []; free := []; head := NIL; tail := NIL; len := 0 |}
  else None.

(** [LruMap::len] and [LruMap::is_empty]. *)
Definition LruMap_len (m : lru) : Z := len m.
Definition LruMap_is_empty (m : lru) : bool := len m =? 0.

(** [LruMap::clear]. *)
Definition LruMap_clear (m : lru) : lru :=
  {| cap := cap m; map_ := ∅; nodes := []; free := []; head := NIL; tail := NIL; len := 0 |}.

(** The active node of an index. *)
Definition node_at (ns : list (option (Node K V))) (idx : Z) : option (Node K V) :=
  match get ns idx with Some (Some n) => Some n | _ => None end.

(** [LruMap::node]: an inactive index panics. *)
Definition LruMap_node (m : lru) (idx : Z) : option (Node K V) := node_at (nodes m) idx.

(** [self.nodes[idx].as_mut().expect(..)] updated by [f]. *)
Definition update_node (f : Node K V → Node K V) (idx : Z) (m : lru) : option lru :=
  match LruMap_node m idx with
  | None => None
  | Some n =>
      match set_at (nodes m) idx (Some (f n)) with
      | None => None
      | Some ns => Some (set_nodes ns m)
      end
  end.

(** [LruMap::set_prev] and [LruMap::set_next]. *)
Definition LruMap_set_prev (idx p : Z) : lru → option lru :=
  update_node (λ n, set_links p (nnext n) n) idx.
Definition LruMap_set_next (idx n' : Z) : lru → option lru :=
  update_node (λ n, set_links (nprev n) n' n) idx.

(** The loop of [LruMap::find_index_with_hash]; the outer [None] is a panic or
    an exhausted fuel. *)
Fixpoint find_chain (fuel : nat) (ns : list (option (Node K V))) (index : Z) (k : K) :
    option (option Z) :=
  match fuel with
  | O => None
  | S fuel =>
      if index =? NIL then Some None
      else match node_at ns index with
           | None => None
           | Some n => if decide (nkey n = k) then Some (Some index)
                       else find_chain fuel ns (hash_next n) k
           end
  end.

(** [LruMap::find_index_with_hash]: a chain visits each active node at most
    once. *)
Definition LruMap_find_index_with_hash (m : lru) (hash : Z) (k : K) : option (option Z) :=
  match map_ m !! hash with
  | None => Some None
  | Some index => find_chain (S (length (nodes m))) (nodes m) index k
  end.

(** [LruMap::find_index]. *)
Definition LruMap_find_index (m : lru) (k : K) : option (option Z) :=
  LruMap_find_index_with_hash m (key_hash k) k.

(** [LruMap::contains_key]. *)
Definition LruMap_contains_key (m : lru) (k : K) : option bool :=
  match LruMap_find_index m k with
  | None => None
  | Some r => Some (bool_decide (is_Some r))
  end.

(** [LruMap::peek]. *)
Definition LruMap_peek (m : lru) (k : K) : option (option V) :=
  match LruMap_find_index m k with
  | None => None
  | Some None => Some None
  | Some (Some idx) => match LruMap_node m idx with None => None | Some n => Some (Some (nval n)) end
  end.

(** [LruMap::unlink]. *)
Definition LruMap_unlink (idx : Z) (m : lru) : option lru :=
  match LruMap_node m idx with
  | None => None
  | Some n =>
      let p := nprev n in
      let q := nnext n in
      match (if negb (p =? NIL) then LruMap_set_next p q m else Some (set_head q m)) with
      | None => None
      | Some m => if negb (q =? NIL) then LruMap_set_prev q p m else Some (set_tail p m)
      end
  end.

(** [LruMap::push_front]. *)
Definition LruMap_push_front (idx : Z) (m : lru) : option lru :=
  let old_head := head m in
  match LruMap_set_prev idx NIL m with
  | None => None
  | Some m =>
      match LruMap_set_next idx old_head m with
      | None => None
      | Some m =>
          match (if negb (old_head =? NIL) then LruMap_set_prev old_head idx m else Some m) with
          | None => None
          | Some m =>
              let m := set_head idx m in
              Some (if tail m =? NIL then set_tail idx m else m)
          end
      end
  end.

(** [LruMap::move_front]. *)
Definition LruMap_move_front (idx : Z) (m : lru) : option lru :=
  if head m =? idx then Some m
  else match LruMap_unlink idx m with
       | None => None
       | Some m => LruMap_push_front idx m
       end.

(** [LruMap::get]: the value and the map with the entry moved to the front. *)
Definition LruMap_get (k : K) (m : lru) : option (option V * lru) :=
  match LruMap_find_index m k with
  | None => None
  | Some None => Some (None, m)
  | Some (Some idx) =>
      match LruMap_move_front idx m with
      | None => None
      | Some m => match LruMap_node m idx with
                  | None => None
                  | Some n => Some (Some (nval n), m)
                  end
      end
  end.

(** [LruMap::get_mut], with the caller's use of the reference as a function. *)
Definition LruMap_get_mut (k : K) (f : V → V) (m : lru) : option (option V * lru) :=
  match LruMap_find_index m k with
  | None => None
  | Some None => Some (None, m)
  | Some (Some idx) =>
      match LruMap_move_front idx m with
      | None => None
      | Some m =>
          match LruMap_node m idx with
          | None => Some (None, m)
          | Some n => match update_node (set_val (f (nval n))) idx m with
                      | None => None
                      | Some m => Some (Some (nval n), m)
                      end
          end
      end
  end.

(** The search for the predecessor of [index] in [LruMap::remove_index]. *)
Fixpoint find_previous (fuel : nat) (ns : list (option (Node K V))) (previous index : Z) : option Z :=
  match fuel with
  | O => None
  | S fuel =>
      match node_at ns previous with
      | None => None
      | Some n =>
          if hash_next n =? NIL then None
          else if hash_next n =? index then Some previous
          else find_previous fuel ns (hash_next n) index
      end
  end.

(** [LruMap::remove_index]. *)
Definition LruMap_remove_index (index hash : Z) (m : lru) : option (Node K V * lru) :=
  match LruMap_node m index, map_ m !! hash with
  | Some n0, Some hd_ =>
      match
        (if hd_ =? index then
           Some (if hash_next n0 =? NIL then set_map (delete hash (map_ m)) m
                 else set_map (<[hash := hash_next n0]> (map_ m)) m)
         else
           match find_previous (S (length (nodes m))) (nodes m) hd_ index with
           | None => None
           | Some previous => update_node (set_hash_next (hash_next n0)) previous m
           end)
      with
      | None => None
      | Some m =>
          match LruMap_unlink index m with
          | None => None
          | Some m =>
              let m := set_len (len m - 1) m in
              let m := set_free (free m ++ [index]) m in
              match LruMap_node m index with
              | None => None
              | Some n => match set_at (nodes m) index None with
                          | None => None
                          | Some ns => Some (n, set_nodes ns m)
                          end
              end
          end
      end
  | _, _ => None
  end.

(** [LruMap::pop]. *)
Definition LruMap_pop (k : K) (m : lru) : option (option V * lru) :=
  let hash := key_hash k in
  match LruMap_find_index_with_hash m hash k with
  | None => None
  | Some None => Some (None, m)
  | Some (Some idx) =>
      match LruMap_remove_index idx hash m with
      | None => None
      | Some (n, m) => Some (Some (nval n), m)
      end
  end.

(** [LruMap::pop_lru]. *)
Definition LruMap_pop_lru (m : lru) : option (option (K * V) * lru) :=
  let t := tail m in
  if t =? NIL then Some (None, m)
  else match LruMap_node m t with
       | None => None
       | Some n =>
           match LruMap_remove_index t (key_hash (nkey n)) m with
           | None => None
           | Some (n, m) => Some (Some (nkey n, nval n), m)
           end
       end.

(** [LruMap::evict_lru]. *)
Definition LruMap_evict_lru (m : lru) : option lru :=
  match LruMap_pop_lru m with None => None | Some (_, m) => Some m end.

(** The free slots are used from the end of the vector: [Vec::pop]. *)
Definition vec_pop {A} (l : list A) : option (A * list A) :=
  match last l with Some a => Some (a, removelast l) | None => None end.

(** The slot that [LruMap::put] takes for a new node: a free one, or one more
    at the end of the arena. *)
Definition take_slot (n : Node K V) (m : lru) : option (Z * lru) :=
  match vec_pop (free m) with
  | Some (i, rest) =>
      match set_at (nodes m) i (Some n) with
      | None => None
      | Some ns => Some (i, set_nodes ns (set_free rest m))
      end
  | None =>
      if zlen (nodes m) <=? U32_MAX
      then Some (zlen (nodes m), set_nodes (nodes m ++ [Some n]) m)
      else None
  end.

(** The last part of [LruMap::put]: the new node takes a slot. *)
Definition put_node (k : K) (v : V) (hash : Z) (m : lru) : option lru :=
  match take_slot {| nkey := k; nval := v; nprev := NIL; nnext := NIL;
                     hash_next := default NIL (map_ m !! hash) |} m with
  | None => None
  | Some (idx, m) =>
      let m := set_map (<[hash := idx]> (map_ m)) m in
      let m := set_len (len m + 1) m in
      LruMap_push_front idx m
  end.

(** [LruMap::put].  [grow] is the answer of the allocator, should
    [try_grow_one] have to ask it. *)
Definition LruMap_put (grow : bool) (k : K) (v : V) (m : lru) : option lru :=
  let hash := key_hash k in
  match LruMap_find_index_with_hash m hash k with
  | None => None
  | Some (Some idx) =>
      match update_node (set_val v) idx m with
      | None => None
      | Some m => LruMap_move_front idx m
      end
  | Some None =>
      match (if cap m <=? len m then LruMap_evict_lru m else Some m) with
      | None => None
      | Some m =>
          if bool_decide (free m = []) && negb grow then
            match LruMap_evict_lru m with
            | None => None
            | Some m => if bool_decide (free m = []) then Some m else put_node k v hash m
            end
          else put_node k v hash m
      end
  end.

End Lru.
