(* ===== verification/LruMapSpec.v ===== *)
(** * The LRU map is a recency list ([onetdns-core/src/lrumap.rs])

    The arena with its two intrusive lists represents a list of distinct keys,
    most recent first, of at most [cap] entries.  Every operation of
    [LruMap.v] is shown to act on that list, and never to panic. *)

From S2P Require Import Prelude LruMap.

Section Spec.
Context {K V : Type} `{EqDecision K}.
Variable key_hash : K → Z.

Notation lru := (LruMap K V).
Notation store := (Z → option (Node K V)).

(** ** The doubly linked list *)

(** The nodes [l] are linked in order; the first one points back to [p], the
    last one forward to [q]. *)
Fixpoint seg (g : store) (p : Z) (l : list Z) (q : Z) : Prop :=
  match l with
  | [] => True
  | i :: l' => (∃ n, g i = Some n ∧ nprev n = p ∧ nnext n = List.hd q l') ∧ seg g i l' q
  end.

Lemma last_cons (l : list Z) (x d : Z) : List.last (x :: l) d = List.last l x.
Proof. revert x. induction l as [|y l IH]; intros x; [done|]. simpl in *. destruct l; done || apply IH. Qed.

Lemma last_app (l k : list Z) (d : Z) : List.last (l ++ k) d = List.last k (List.last l d).
Proof.
  revert d. induction l as [|x l IH]; intros d; [done|]. cbn [app]. by rewrite !last_cons, IH.
Qed.

Lemma seg_app g p a b q :
  seg g p (a ++ b) q ↔ seg g p a (List.hd q b) ∧ seg g (List.last a p) b q.
Proof.
  revert p. induction a as [|i a IH]; intros p; cbn [app seg]; [by simpl; tauto|].
  rewrite IH, last_cons. replace (List.hd q (a ++ b)) with (List.hd (List.hd q b) a) by by destruct a.
  tauto.
Qed.

Lemma seg_ext g g' p l q : (∀ j, j ∈ l → g' j = g j) → seg g p l q → seg g' p l q.
Proof.
  revert p. induction l as [|i l IH]; intros p Hg; cbn [seg]; [done|].
  intros [(n & Hn & ?) Hs]. split; [exists n; rewrite Hg by left; done|].
  apply IH; [|done]. intros j Hj. apply Hg. by right.
Qed.

Lemma seg_active g p l q i : seg g p l q → i ∈ l → is_Some (g i).
Proof.
  intros Hs Hi. revert p Hs. induction Hi as [i l|i j l _ IH]; intros p [(n & Hn & _) Hs]; [by eexists|].
  by eapply IH.
Qed.

(** Redirecting the last forward link or the first backward link. *)
Lemma seg_set_next g g' p a x q q' n :
  seg g p (a ++ [x]) q → x ∉ a → g x = Some n → g' x = Some (set_links (nprev n) q' n) →
  (∀ j, j ≠ x → g' j = g j) → seg g' p (a ++ [x]) q'.
Proof.
  intros [Ha [(n' & Hn' & Hp & _) _]]%seg_app Hx Hn Hx' Hg. apply seg_app. split.
  - eapply seg_ext; [|exact Ha]. intros j Hj. apply Hg. by intros ->.
  - split; [|done]. exists (set_links (nprev n) q' n). split_and!; try done. simpl. congruence.
Qed.

Lemma seg_set_prev g g' p p' y b q n :
  seg g p (y :: b) q → y ∉ b → g y = Some n → g' y = Some (set_links p' (nnext n) n) →
  (∀ j, j ≠ y → g' j = g j) → seg g' p' (y :: b) q.
Proof.
  intros [(n' & Hn' & _ & Hq) Hb] Hy Hn Hy' Hg. split.
  - exists (set_links p' (nnext n) n). split_and!; try done. simpl. congruence.
  - eapply seg_ext; [|exact Hb]. intros j Hj. apply Hg. by intros ->.
Qed.

(** ** The collision chains *)

(** From [start] the nodes [c] follow, and then comes [e]. *)
Fixpoint chain_to (g : store) (start : Z) (c : list Z) (e : Z) : Prop :=
  match c with
  | [] => start = e
  | i :: c' => start = i ∧ i ≠ NIL ∧ ∃ n, g i = Some n ∧ chain_to g (hash_next n) c' e
  end.

Definition chain (g : store) (start : Z) (c : list Z) : Prop := chain_to g start c NIL.

Lemma chain_to_app g s c1 c2 e :
  chain_to g s (c1 ++ c2) e ↔ ∃ mid, chain_to g s c1 mid ∧ chain_to g mid c2 e.
Proof.
  revert s. induction c1 as [|i c1 IH]; intros s; cbn [app chain_to]; [naive_solver|].
  setoid_rewrite IH. naive_solver.
Qed.

(** What the lists do not touch. *)
Definition core (n : Node K V) : K * V * Z := (nkey n, nval n, hash_next n).
Definition same_core (g g' : store) : Prop := ∀ j, core <$> g' j = core <$> g j.

Lemma same_core_some g g' j n : same_core g g' → g j = Some n → ∃ n', g' j = Some n' ∧ core n' = core n.
Proof. intros H Hn. specialize (H j). rewrite Hn in H. destruct (g' j) as [n'|]; [|done].
  exists n'. split; [done|]. simpl in H. congruence. Qed.

Lemma same_core_sym g g' : same_core g g' → same_core g' g.
Proof. intros H j. by rewrite H. Qed.

Lemma same_core_trans g1 g2 g3 : same_core g1 g2 → same_core g2 g3 → same_core g1 g3.
Proof. intros H1 H2 j. by rewrite H2, H1. Qed.

Lemma chain_core g g' s c e : same_core g g' → chain_to g s c e → chain_to g' s c e.
Proof.
  intros Hg. revert s. induction c as [|i c IH]; intros s; cbn [chain_to]; [done|].
  intros (-> & Hi & n & Hn & Hc). split_and!; try done.
  destruct (same_core_some _ _ _ _ Hg Hn) as (n' & Hn' & [= _ _ Hh]). exists n'. split; [done|].
  rewrite Hh. by apply IH.
Qed.

Lemma chain_ext g g' s c e : (∀ j, j ∈ c → g' j = g j) → chain_to g s c e → chain_to g' s c e.
Proof.
  revert s. induction c as [|i c IH]; intros s Hg; cbn [chain_to]; [done|].
  intros (-> & Hi & n & Hn & Hc). split_and!; try done. exists n. rewrite Hg by left. split; [done|].
  apply IH; [|done]. intros j Hj. apply Hg. by right.
Qed.

Lemma chain_active g s c e i : chain_to g s c e → i ∈ c → is_Some (g i).
Proof.
  intros Hs Hi. revert s Hs. induction Hi as [i c|i j c _ IH]; intros s (-> & _ & n & Hn & Hc); [by eexists|].
  by eapply IH.
Qed.

(** The end of a chain segment can be redirected at its last node. *)
Lemma chain_redirect g g' s c x e e' n :
  chain_to g s (c ++ [x]) e → x ∉ c → g x = Some n → g' x = Some (set_hash_next e' n) →
  (∀ j, j ≠ x → g' j = g j) → chain_to g' s (c ++ [x]) e'.
Proof.
  rewrite chain_to_app. intros (mid & Hc & (-> & Hx & n' & Hn' & He)) Hxc Hn Hx' Hg.
  apply chain_to_app. exists x. split.
  - eapply chain_ext; [|exact Hc]. intros j Hj. apply Hg. by intros ->.
  - split_and!; try done. by exists (set_hash_next e' n).
Qed.

(** ** The representation *)

Record rep (m : lru) (l : list Z) : Prop := {
  rep_seg : seg (node_at (nodes m)) NIL l NIL;
  rep_head : head m = List.hd NIL l;
  rep_tail : tail m = List.last l NIL;
  rep_nodup : NoDup l;
  rep_active : ∀ i, i ∈ l ↔ is_Some (node_at (nodes m) i);
  rep_free : ∀ i, i ∈ free m ↔ 0 ≤ i < zlen (nodes m) ∧ node_at (nodes m) i = None;
  rep_free_nodup : NoDup (free m);
  rep_len : len m = zlen l;
  rep_cap : zlen l ≤ cap m ∧ 1 ≤ cap m < NIL;
  rep_size : zlen (nodes m) ≤ cap m;
  rep_keys : ∀ i j n n', node_at (nodes m) i = Some n → node_at (nodes m) j = Some n' →
    nkey n = nkey n' → i = j;
  rep_chain : ∀ h, ∃ c, chain (node_at (nodes m)) (default NIL (map_ m !! h)) c ∧ NoDup c ∧
    ∀ i, i ∈ c ↔ ∃ n, node_at (nodes m) i = Some n ∧ key_hash (nkey n) = h;
  rep_map : ∀ h i, map_ m !! h = Some i → i ≠ NIL;
}.

(** The entries of the nodes [l]. *)
Definition holds (g : store) (l : list Z) (es : list (K * V)) : Prop :=
  Forall2 (λ i e, ∃ n, g i = Some n ∧ (nkey n, nval n) = e) l es.

(** The map [m] represents the recency list [es]. *)
Definition represents (m : lru) (es : list (K * V)) : Prop :=
  ∃ l, rep m l ∧ holds (node_at (nodes m)) l es.

(** *** Basic facts *)

Lemma node_at_range ns i n : node_at (K:=K) (V:=V) ns i = Some n → 0 ≤ i < zlen ns.
Proof. unfold node_at. destruct (get ns i) eqn:Hg; [|done]. intros _. by eapply get_Some_lt. Qed.

Lemma get_insert {A} (l : list A) i j x :
  0 ≤ i < zlen l → get (<[Z.to_nat i := x]> l) j = if decide (j = i) then Some x else get l j.
Proof.
  intros Hi. unfold get. destruct (decide (j = i)) as [->|Hne].
  - destruct (Z.ltb_spec i 0); [lia|]. apply list_lookup_insert_eq. unfold zlen in Hi. lia.
  - destruct (Z.ltb_spec j 0); [done|]. apply list_lookup_insert_ne. lia.
Qed.

Lemma set_node_spec ns i (x : option (Node K V)) :
  0 ≤ i < zlen ns → ∃ ns', set_at ns i x = Some ns' ∧ zlen ns' = zlen ns ∧
    ∀ j, node_at ns' j = if decide (j = i) then x else node_at ns j.
Proof.
  intros Hi. unfold set_at. rewrite (proj2 (Z.leb_le _ _)), (proj2 (Z.ltb_lt _ _)) by lia.
  eexists. split; [done|]. split; [by rewrite zlen_insert|]. intros j. unfold node_at.
  rewrite get_insert by done. destruct (decide (j = i)); [by destruct x|done].
Qed.

(** An update that panics on no active node. *)
Lemma update_node_spec f i (m : lru) n :
  node_at (nodes m) i = Some n →
  ∃ ns, update_node f i m = Some (set_nodes ns m) ∧ zlen ns = zlen (nodes m) ∧
    ∀ j, node_at ns j = if decide (j = i) then Some (f n) else node_at (nodes m) j.
Proof.
  intros Hn. unfold update_node, LruMap_node. rewrite Hn.
  destruct (set_node_spec (nodes m) i (Some (f n))) as (ns & -> & ? & ?); [by eapply node_at_range|].
  eauto.
Qed.

Lemma rep_range m l i : rep m l → i ∈ l → 0 ≤ i < NIL.
Proof.
  intros Hr Hi. apply (rep_active _ _ Hr) in Hi as [n Hn]. apply node_at_range in Hn.
  pose proof (rep_size _ _ Hr). pose proof (rep_cap _ _ Hr). lia.
Qed.

(** ** Moving nodes in the recency list *)

Definition links (m : lru) (l : list Z) : Prop :=
  seg (node_at (nodes m)) NIL l NIL ∧ head m = List.hd NIL l ∧ tail m = List.last l NIL.

(** Everything but the recency list is as before. *)
Definition same_rest (m m' : lru) : Prop :=
  cap m' = cap m ∧ map_ m' = map_ m ∧ free m' = free m ∧ len m' = len m ∧
  zlen (nodes m') = zlen (nodes m) ∧ same_core (node_at (nodes m)) (node_at (nodes m')).

Lemma same_rest_refl m : same_rest m m.
Proof. by split_and!. Qed.

Lemma same_rest_trans m1 m2 m3 : same_rest m1 m2 → same_rest m2 m3 → same_rest m1 m3.
Proof.
  intros (? & ? & ? & ? & ? & ?) (? & ? & ? & ? & ? & ?).
  split_and!; congruence || by eapply same_core_trans.
Qed.

Lemma set_links_core p q n : core (set_links p q n) = core n.
Proof. done. Qed.

(** One link is redirected. *)
Lemma set_link_spec f i (m : lru) n :
  node_at (nodes m) i = Some n → core (f n) = core n →
  ∃ m', update_node f i m = Some m' ∧ same_rest m m' ∧ head m' = head m ∧ tail m' = tail m ∧
    node_at (nodes m') i = Some (f n) ∧ ∀ j, j ≠ i → node_at (nodes m') j = node_at (nodes m) j.
Proof.
  intros Hn Hf. destruct (update_node_spec f i m n Hn) as (ns & -> & Hlen & Hns).
  exists (set_nodes ns m). split; [done|]. cbn [nodes set_nodes].
  split_and!; try done.
  - split_and!; try done. intros j. cbn [nodes set_nodes]. rewrite Hns. destruct (decide (j = i)) as [->|]; [|done].
    rewrite Hn. simpl. by rewrite Hf.
  - by rewrite Hns, decide_True.
  - intros j Hj. by rewrite Hns, decide_False.
Qed.

Lemma rev_case {A} (l : list A) : l = [] ∨ ∃ x k, l = k ++ [x].
Proof. induction l using rev_ind; eauto. Qed.

Lemma hd_nil (b : list Z) : (∀ j, j ∈ b → j ≠ NIL) → List.hd NIL b = NIL → b = [].
Proof. destruct b as [|y b]; [done|]. intros H Hy. exfalso. apply (H y); [by left|done]. Qed.

Lemma last_nil (a : list Z) : (∀ j, j ∈ a → j ≠ NIL) → List.last a NIL = NIL → a = [].
Proof.
  destruct (rev_case a) as [->|(y & a' & ->)]; [done|]. rewrite last_app. simpl.
  intros H Hy. exfalso. apply (H y); [set_solver|done].
Qed.

(** [unlink] takes a node out. *)
Lemma unlink_spec m a i b :
  links m (a ++ i :: b) → NoDup (a ++ i :: b) → (∀ j, j ∈ a ++ i :: b → j ≠ NIL) →
  ∃ m', LruMap_unlink i m = Some m' ∧ links m' (a ++ b) ∧ same_rest m m' ∧
    node_at (nodes m') i = node_at (nodes m) i.
Proof.
  intros (Hseg & Hh & Ht) Hnd Hnil. apply seg_app in Hseg as [Ha [(n & Hn & Hp & Hq) Hb]].
  apply NoDup_app in Hnd as (Hnda & Hab & [Hib Hndb]%NoDup_cons).
  assert (Hia : i ∉ a) by (intros Hi; apply (Hab i Hi); by left).
  unfold LruMap_unlink, LruMap_node. rewrite Hn, Hp, Hq. cbv zeta.
  (* the forward link of the predecessor *)
  assert (H1 : ∃ m1, (if negb (List.last a NIL =? NIL)
      then LruMap_set_next (List.last a NIL) (List.hd NIL b) m
      else Some (set_head (List.hd NIL b) m)) = Some m1 ∧
    seg (node_at (nodes m1)) NIL a (List.hd NIL b) ∧ seg (node_at (nodes m1)) i b NIL ∧
    head m1 = List.hd NIL (a ++ b) ∧ tail m1 = tail m ∧ same_rest m m1 ∧
    node_at (nodes m1) i = node_at (nodes m) i).
  { destruct (rev_case a) as [->|(x & a' & ->)].
    - simpl. eexists. split; [done|]. simpl. split_and!; try done.
    - rewrite last_app in *. cbn [List.last] in *.
      assert (Hx : x ≠ NIL) by (apply Hnil; set_solver).
      rewrite (proj2 (Z.eqb_neq _ _)) by done. cbn [negb].
      destruct (seg_active _ _ _ _ x Ha) as [nx Hnx]; [set_solver|].
      destruct (set_link_spec (λ n, set_links (nprev n) (List.hd NIL b) n) x m nx Hnx)
        as (m1 & Hm1 & Hrest & Hh1 & Ht1 & Hx1 & Hne); [done|].
      exists m1. split; [exact Hm1|]. apply NoDup_app in Hnda as (_ & Hax & _).
      split_and!; try done.
      + eapply seg_set_next; try done. intros Hxa. apply (Hax x Hxa). by left.
      + eapply seg_ext; [|exact Hb]. intros j Hj. apply Hne. intros ->.
        apply (Hab x); [set_solver|by right].
      + rewrite Hh1, Hh. by destruct a'.
      + apply Hne. intros ->. apply Hia. set_solver. }
  destruct H1 as (m1 & -> & Ha1 & Hb1 & Hh1 & Ht1 & Hr1 & Hi1).
  (* the backward link of the successor *)
  destruct b as [|y b].
  - cbn [List.hd] in *. rewrite Z.eqb_refl. cbn [negb]. eexists. split; [done|].
    rewrite app_nil_r in *. split_and!; try done. by rewrite <-Hn.
  - cbn [List.hd] in *. assert (Hy : y ≠ NIL) by (apply Hnil; set_solver).
    rewrite (proj2 (Z.eqb_neq _ _)) by done. cbn [negb].
    destruct (seg_active _ _ _ _ y Hb1) as [ny Hny]; [by left|].
    destruct (set_link_spec (λ n, set_links (List.last a NIL) (nnext n) n) y m1 ny Hny)
      as (m2 & Hm2 & Hrest & Hh2 & Ht2 & Hy2 & Hne); [done|].
    exists m2. split; [exact Hm2|]. apply NoDup_cons in Hndb as [Hyb _].
    assert (Hya : y ∉ a) by (intros Hya; apply (Hab y Hya); set_solver).
    split_and!; try done.
    + split_and!.
      * apply seg_app. split; [eapply seg_ext; [|exact Ha1]|].
        -- intros j Hj. apply Hne. by intros ->.
        -- eapply seg_set_prev; try done.
      * by rewrite Hh2.
      * rewrite Ht2, Ht1, Ht, !last_app, !last_cons. done.
    + by eapply same_rest_trans.
    + rewrite Hne; [congruence|]. intros ->. apply Hib. by left.
Qed.

(** [push_front] puts a node that is in no list in front. *)
Lemma push_front_spec m l i n :
  links m l → NoDup (i :: l) → (∀ j, j ∈ i :: l → j ≠ NIL) → node_at (nodes m) i = Some n →
  ∃ m', LruMap_push_front i m = Some m' ∧ links m' (i :: l) ∧ same_rest m m'.
Proof.
  intros (Hseg & Hh & Ht) [Hil Hnd]%NoDup_cons Hnil Hn. unfold LruMap_push_front. cbv zeta.
  destruct (set_link_spec (λ n, set_links NIL (nnext n) n) i m n Hn)
    as (m1 & Hm1 & Hr1 & Hh1 & Ht1 & Hi1 & Hne1); [done|].
  unfold LruMap_set_prev at 1. rewrite Hm1.
  destruct (set_link_spec (λ n, set_links (nprev n) (head m) n) i m1 _ Hi1)
    as (m2 & Hm2 & Hr2 & Hh2 & Ht2 & Hi2 & Hne2); [done|].
  unfold LruMap_set_next. rewrite Hm2.
  assert (H2 : seg (node_at (nodes m2)) NIL l NIL).
  { eapply seg_ext; [|exact Hseg]. intros j Hj. assert (j ≠ i) by (by intros ->).
    by rewrite Hne2, Hne1. }
  assert (Hr12 : same_rest m m2) by (by eapply same_rest_trans).
  rewrite Hh in *. destruct l as [|y l].
  - cbn [List.hd List.last] in *. rewrite Z.eqb_refl. cbn [negb].
    cbn [tail set_head]. rewrite Ht2, Ht1, Ht, Z.eqb_refl. eexists. split; [done|]. split; [|done].
    split_and!; try done. split; [|done]. eexists. split; [exact Hi2|done].
  - cbn [List.hd] in *. assert (Hy : y ≠ NIL) by (apply Hnil; set_solver).
    rewrite (proj2 (Z.eqb_neq _ _)) by done. cbn [negb].
    destruct (seg_active _ _ _ _ y H2) as [ny Hny]; [by left|].
    destruct (set_link_spec (λ n, set_links i (nnext n) n) y m2 ny Hny)
      as (m3 & Hm3 & Hr3 & Hh3 & Ht3 & Hy3 & Hne3); [done|].
    unfold LruMap_set_prev. rewrite Hm3. cbn [tail set_head].
    rewrite Ht3, Ht2, Ht1, Ht. apply NoDup_cons in Hnd as [Hyl _].
    assert (Hlast : List.last (y :: l) NIL ≠ NIL).
    { intros Hl. apply last_nil in Hl; [done|]. intros j Hj. apply Hnil. by right. }
    rewrite (proj2 (Z.eqb_neq _ _)) by done. eexists. split; [done|]. split; [|by eapply same_rest_trans].
    split_and!; cbn [nodes head tail set_head].
    + split.
      * eexists. split; [rewrite Hne3; [exact Hi2|]|done]. intros ->. apply Hil. by left.
      * eapply seg_set_prev; try done.
    + done.
    + rewrite Ht3, Ht2, Ht1, Ht. by rewrite !last_cons.
Qed.

Lemma move_front_spec m a i b :
  links m (a ++ i :: b) → NoDup (a ++ i :: b) → (∀ j, j ∈ a ++ i :: b → j ≠ NIL) →
  ∃ m', LruMap_move_front i m = Some m' ∧ links m' (i :: a ++ b) ∧ same_rest m m'.
Proof.
  intros Hl Hnd Hnil. unfold LruMap_move_front. destruct (head m =? i) eqn:Hhd; bool_prop.
  - exists m. split; [done|]. destruct a as [|x a]; [by split|].
    destruct Hl as (_ & Hh & _). simpl in Hh. subst. apply NoDup_cons in Hnd as [Hx _].
    exfalso. apply Hx. set_solver.
  - destruct (unlink_spec m a i b Hl Hnd Hnil) as (m1 & -> & Hl1 & Hr1 & Hi1).
    destruct Hl as (Hseg & _ & _).
    destruct (seg_active _ _ _ _ i Hseg) as [n Hn]; [set_solver|].
    apply NoDup_app in Hnd as (Hnda & Hab & [Hib Hndb]%NoDup_cons).
    destruct (push_front_spec m1 (a ++ b) i n Hl1) as (m2 & Hm2 & Hl2 & Hr2).
    + apply NoDup_cons. split.
      * rewrite elem_of_app. intros [Hi|Hi]; [|done]. apply (Hab i Hi). by left.
      * apply NoDup_app. split_and!; [done| |done]. intros j Hj Hjb. apply (Hab j Hj). by right.
    + intros j Hj. apply Hnil. set_solver.
    + by rewrite Hi1.
    + exists m2. split_and!; try done. by eapply same_rest_trans.
Qed.

(** ** Lookup *)

Lemma rep_links m m' l l' :
  rep m l → links m' l' → same_rest m m' → l ≡ₚ l' → rep m' l'.
Proof.
  intros [] (? & ? & ?) (Hc & Hm & Hf & Hl & Hz & Hcore) Hp.
  assert (Hsome : ∀ i, is_Some (node_at (nodes m') i) ↔ is_Some (node_at (nodes m) i)).
  { intros i. specialize (Hcore i). destruct (node_at (nodes m') i), (node_at (nodes m) i); naive_solver. }
  constructor; try done.
  - by rewrite <-Hp.
  - intros i. by rewrite Hsome, <-Hp.
  - intros i. by rewrite Hf, Hz, rep_free0, !eq_None_not_Some, Hsome.
  - by rewrite Hf.
  - rewrite Hl, rep_len0. unfold zlen. by rewrite Hp.
  - rewrite Hc. unfold zlen in *. by rewrite <-Hp.
  - by rewrite Hz, Hc.
  - intros i j n n' Hi Hj Hk. apply same_core_sym in Hcore.
    destruct (same_core_some _ _ _ _ Hcore Hi) as (n1 & Hn1 & [= Hk1 _ _]).
    destruct (same_core_some _ _ _ _ Hcore Hj) as (n2 & Hn2 & [= Hk2 _ _]).
    apply (rep_keys0 i j n1 n2); congruence.
  - intros h. destruct (rep_chain0 h) as (c & Hch & Hnd & Hin). exists c. rewrite Hm.
    split_and!; [by eapply chain_core|done|]. intros i. rewrite Hin. split.
    + intros (n & Hn & Hk). destruct (same_core_some _ _ _ _ Hcore Hn) as (n' & Hn' & [= Hk' _ _]).
      exists n'. split; [done|congruence].
    + intros (n & Hn & Hk). apply same_core_sym in Hcore.
      destruct (same_core_some _ _ _ _ Hcore Hn) as (n' & Hn' & [= Hk' _ _]).
      exists n'. split; [done|congruence].
  - by rewrite Hm.
Qed.

Lemma chain_length (ns : list (option (Node K V))) s c e :
  chain_to (node_at ns) s c e → NoDup c → (length c ≤ length ns)%nat.
Proof.
  intros Hc Hnd. apply NoDup_ListNoDup in Hnd.
  assert (Hincl : incl c (seqZ 0 (zlen ns))).
  { intros i Hi%list_elem_of_In. apply list_elem_of_In, elem_of_seqZ.
    destruct (chain_active _ _ _ _ _ Hc Hi) as [n Hn]. apply node_at_range in Hn. lia. }
  pose proof (NoDup_incl_length Hnd Hincl) as Hl. rewrite length_seqZ in Hl. unfold zlen in Hl. lia.
Qed.

(** The search through a chain finds the node with the key. *)
Lemma find_chain_spec ns k c : ∀ fuel s,
  chain_to (node_at ns) s c NIL → (length c < fuel)%nat →
  ∃ r, find_chain fuel ns s k = Some r ∧
    match r with
    | Some i => i ∈ c ∧ ∃ n, node_at ns i = Some n ∧ nkey n = k
    | None => ∀ i n, i ∈ c → node_at (K:=K) (V:=V) ns i = Some n → nkey n ≠ k
    end.
Proof.
  induction c as [|i c IH]; intros fuel s Hc Hf; (destruct fuel as [|fuel]; [simpl in Hf; lia|]);
    cbn [chain_to find_chain] in *.
  - subst s. rewrite Z.eqb_refl. exists None. split; [done|]. intros i n Hi. by apply elem_of_nil in Hi.
  - destruct Hc as (-> & Hi & n & Hn & Hc). rewrite (proj2 (Z.eqb_neq _ _)), Hn by done.
    destruct (decide (nkey n = k)) as [Hk|Hk].
    + exists (Some i). split; [done|]. split; [by left|by exists n].
    + destruct (IH fuel _ Hc ltac:(simpl in Hf; lia)) as (r & -> & Hr). exists r. split; [done|].
      destruct r as [j|].
      * destruct Hr as [? ?]. split; [by right|done].
      * intros j n' Hj Hn'. inversion Hj; subst; [congruence|]. by eapply Hr.
Qed.

Lemma find_index_spec m l k :
  rep m l →
  ∃ r, LruMap_find_index_with_hash m (key_hash k) k = Some r ∧
    match r with
    | Some i => i ∈ l ∧ ∃ n, node_at (nodes m) i = Some n ∧ nkey n = k
    | None => ∀ i n, node_at (nodes m) i = Some n → nkey n ≠ k
    end.
Proof.
  intros Hr. unfold LruMap_find_index_with_hash.
  destruct (rep_chain _ _ Hr (key_hash k)) as (c & Hc & Hnd & Hin).
  assert (Hall : ∀ i n, node_at (nodes m) i = Some n → nkey n = k → i ∈ c).
  { intros i n Hn Hk. apply Hin. exists n. by rewrite Hk. }
  destruct (map_ m !! key_hash k) as [s|] eqn:Hs; simpl in Hc.
  - destruct (find_chain_spec (nodes m) k c (S (length (nodes m))) s Hc) as (r & -> & Hres).
    { pose proof (chain_length _ _ _ _ Hc Hnd). lia. }
    exists r. split; [done|]. destruct r as [i|].
    + destruct Hres as [_ (n & Hn & Hk)]. split; [|by exists n].
      apply (rep_active _ _ Hr). by exists n.
    + intros i n Hn Hk. by apply (Hres i n (Hall i n Hn Hk) Hn).
  - destruct c as [|j c]; [|destruct Hc as (? & ? & _); congruence].
    exists None. split; [done|]. intros i n Hn Hk. pose proof (Hall i n Hn Hk) as H.
    by apply elem_of_nil in H.
Qed.

(** ** Removal *)

(** The search for the predecessor stops at the node before [i]. *)
Lemma find_previous_spec ns i c1 p : ∀ fuel s,
  chain_to (node_at (K:=K) (V:=V) ns) s (c1 ++ [p]) i → i ≠ NIL → i ∉ c1 ++ [p] →
  (length c1 < fuel)%nat → find_previous fuel ns s i = Some p.
Proof.
  induction c1 as [|x c1 IH]; intros fuel s Hc Hi Hnin Hf;
    (destruct fuel as [|fuel]; [simpl in Hf; lia|]); cbn [app chain_to find_previous] in *.
  - destruct Hc as (-> & _ & n & -> & ->). by rewrite (proj2 (Z.eqb_neq i NIL)), Z.eqb_refl.
  - destruct Hc as (-> & _ & n & -> & Hc).
    assert (Hnext : hash_next n ≠ NIL ∧ hash_next n ≠ i).
    { destruct c1 as [|y c1]; destruct Hc as (Hy & Hyn & _); rewrite Hy; (split; [done|]);
        intros ->; apply Hnin; set_solver. }
    rewrite !(proj2 (Z.eqb_neq _ _)) by apply Hnext.
    apply IH; [done|done|set_solver|simpl in Hf; lia].
Qed.

(** Everything but the collision links is as before. *)
Definition shape (n : Node K V) : K * V * Z * Z := (nkey n, nval n, nprev n, nnext n).
Definition same_shape (g g' : store) : Prop := ∀ j, shape <$> g' j = shape <$> g j.

Lemma same_shape_some g g' j n :
  same_shape g g' → g j = Some n → ∃ n', g' j = Some n' ∧ shape n' = shape n.
Proof.
  intros H Hn. specialize (H j). rewrite Hn in H. destruct (g' j) as [n'|]; [|done].
  exists n'. split; [done|]. simpl in H. congruence.
Qed.

Lemma seg_shape g g' p l q : same_shape g g' → seg g p l q → seg g' p l q.
Proof.
  intros Hg. revert p. induction l as [|i l IH]; intros p; cbn [seg]; [done|].
  intros [(n & Hn & Hp & Hq) Hs]. split; [|by apply IH].
  destruct (same_shape_some _ _ _ _ Hg Hn) as (n' & Hn' & [= _ _ ? ?]). exists n'. split_and!; congruence.
Qed.

(** The first half of [remove_index]: the node leaves its collision chain. *)
Definition unchain (index hash : Z) (n0 : Node K V) (hd_ : Z) (m : lru) : option lru :=
  if hd_ =? index then
    Some (if hash_next n0 =? NIL then set_map (delete hash (map_ m)) m
          else set_map (<[hash := hash_next n0]> (map_ m)) m)
  else
    match find_previous (S (length (nodes m))) (nodes m) hd_ index with
    | None => None
    | Some previous => update_node (set_hash_next (hash_next n0)) previous m
    end.

(** The chains of [m1] are those of [g] without [i]. *)
Definition chains_without (g : store) (i : Z) (m1 : lru) : Prop :=
  (∀ h, ∃ c, chain (node_at (nodes m1)) (default NIL (map_ m1 !! h)) c ∧ NoDup c ∧
     i ∉ c ∧ ∀ j, j ∈ c ↔ j ≠ i ∧ ∃ n, g j = Some n ∧ key_hash (nkey n) = h) ∧
  ∀ h j, map_ m1 !! h = Some j → j ≠ NIL.

Record unchained (m : lru) (i : Z) (n0 : Node K V) (m1 : lru) : Prop := {
  uc_rest : cap m1 = cap m ∧ free m1 = free m ∧ len m1 = len m ∧ head m1 = head m ∧
    tail m1 = tail m ∧ zlen (nodes m1) = zlen (nodes m);
  uc_shape : same_shape (node_at (nodes m)) (node_at (nodes m1));
  uc_node : node_at (nodes m1) i = Some n0;
  uc_chains : chains_without (node_at (nodes m)) i m1;
}.

(** A chain that does not pass through [x]. *)
Lemma other_chain m l h h' x n (c : list Z) :
  rep m l → node_at (nodes m) x = Some n → key_hash (nkey n) = h → h ≠ h' →
  (∀ i, i ∈ c ↔ ∃ n, node_at (nodes m) i = Some n ∧ key_hash (nkey n) = h') → x ∉ c.
Proof. intros _ Hx Hk Hne Hc Hxc. apply Hc in Hxc as (n' & Hn' & Hk'). simplify_eq. Qed.

Lemma unchain_head m l i n0 c2 :
  rep m l → node_at (nodes m) i = Some n0 →
  chain (node_at (nodes m)) i (i :: c2) → NoDup (i :: c2) →
  (∀ j, j ∈ i :: c2 ↔ ∃ n, node_at (nodes m) j = Some n ∧ key_hash (nkey n) = key_hash (nkey n0)) →
  ∀ m1, m1 = (if hash_next n0 =? NIL then set_map (delete (key_hash (nkey n0)) (map_ m)) m
              else set_map (<[key_hash (nkey n0) := hash_next n0]> (map_ m)) m) →
  unchained m i n0 m1.
Proof.
  intros Hr Hn (_ & _ & n' & Hn' & Hc2) [Hi2 Hnd]%NoDup_cons Hin m1 ->. simplify_eq.
  set (h := key_hash (nkey n0)) in *.
  assert (Hmap : ∀ h', default NIL
    (map_ (if hash_next n0 =? NIL then set_map (delete h (map_ m)) m
           else set_map (<[h := hash_next n0]> (map_ m)) m) !! h') =
    if decide (h' = h) then hash_next n0 else default NIL (map_ m !! h')).
  { intros h'. destruct (decide (h' = h)) as [->|Hne].
    - destruct (hash_next n0 =? NIL) eqn:E; bool_prop; simpl.
      + by rewrite lookup_delete_eq.
      + by rewrite lookup_insert_eq.
    - destruct (hash_next n0 =? NIL); simpl.
      + by rewrite lookup_delete_ne.
      + by rewrite lookup_insert_ne. }
  constructor.
  - by destruct (hash_next n0 =? NIL).
  - intros j. by destruct (hash_next n0 =? NIL).
  - by destruct (hash_next n0 =? NIL).
  - split.
    + intros h'. rewrite Hmap. destruct (decide (h' = h)) as [->|Hne].
      * exists c2. split_and!; [by destruct (hash_next n0 =? NIL)|done|done|].
        intros j. specialize (Hin j). rewrite elem_of_cons in Hin. split.
        -- intros Hj. split; [by intros ->|]. apply Hin. by right.
        -- intros [Hji Hk]. apply Hin in Hk as [?|?]; done.
      * destruct (rep_chain _ _ Hr h') as (c & Hc & Hndc & Hinc). exists c.
        assert (Hic : i ∉ c) by (by eapply (other_chain m l h h')).
        split_and!; [by destruct (hash_next n0 =? NIL)|done|done|].
        intros j. rewrite <-Hinc. split; [|by intros [_ ?]]. intros Hj. split; [by intros ->|done].
    + intros h' j. destruct (hash_next n0 =? NIL) eqn:E; bool_prop; simpl.
      * intros [_ ?]%lookup_delete_Some. by eapply rep_map.
      * intros [[<- <-]|[_ ?]]%lookup_insert_Some; [done|by eapply rep_map].
Qed.

Lemma unchain_inner m l i n0 c1 p c2 s np ns :
  rep m l → node_at (nodes m) i = Some n0 →
  map_ m !! key_hash (nkey n0) = Some s →
  chain (node_at (nodes m)) s ((c1 ++ [p]) ++ i :: c2) → NoDup ((c1 ++ [p]) ++ i :: c2) →
  (∀ j, j ∈ (c1 ++ [p]) ++ i :: c2 ↔
     ∃ n, node_at (nodes m) j = Some n ∧ key_hash (nkey n) = key_hash (nkey n0)) →
  node_at (nodes m) p = Some np → zlen ns = zlen (nodes m) →
  (∀ j, node_at ns j = if decide (j = p) then Some (set_hash_next (hash_next n0) np)
                       else node_at (nodes m) j) →
  unchained m i n0 (set_nodes ns m).
Proof.
  intros Hr Hn Hs Hc Hnd Hin Hp Hlen Hns.
  apply chain_to_app in Hc as (mid & Hc1 & (-> & Hi & n' & Hn' & Hc2)). simplify_eq.
  pose proof Hnd as Hnd0. apply NoDup_app in Hnd as (Hnd1 & Hd & [Hi2 Hnd2]%NoDup_cons).
  assert (Hpi : p ≠ i) by (intros ->; apply (Hd i); set_solver).
  assert (Hp2 : p ∉ c2) by (intros Hp2; apply (Hd p); set_solver).
  assert (Hp1 : p ∉ c1) by (apply NoDup_app in Hnd1 as (_ & Hd1 & _); intros H; apply (Hd1 p H); by left).
  set (h := key_hash (nkey n0)) in *.
  assert (Hkp : key_hash (nkey np) = h).
  { destruct (proj1 (Hin p)) as (n & Hnp & Hk); [set_solver|]. congruence. }
  assert (Hne : ∀ j, j ≠ p → node_at ns j = node_at (nodes m) j) by (intros j Hj; by rewrite Hns, decide_False).
  constructor; cbn [nodes set_nodes map_].
  - done.
  - intros j. cbn [nodes set_nodes]. rewrite Hns. destruct (decide (j = p)) as [->|]; [by rewrite Hp|done].
  - by rewrite Hne.
  - split; [|by intros h' j; apply (rep_map _ _ Hr)]. cbn [nodes set_nodes map_]. intros h'.
    destruct (decide (h' = h)) as [->|Hh].
    + rewrite Hs. exists ((c1 ++ [p]) ++ c2). simpl default. split_and!.
      * apply chain_to_app. exists (hash_next n0). split.
        -- eapply chain_redirect; try done. by rewrite Hns, decide_True.
        -- eapply chain_ext; [|exact Hc2]. intros j Hj. apply Hne. by intros ->.
      * apply NoDup_app. split_and!; [done| |done]. intros j Hj Hj2. apply (Hd j Hj). by right.
      * rewrite elem_of_app. intros [H|H]; [|done]. apply (Hd i H). by left.
      * intros j. specialize (Hin j).
        assert (Hsplit : j ∈ (c1 ++ [p]) ++ i :: c2 ↔ j ∈ (c1 ++ [p]) ++ c2 ∨ j = i) by set_solver.
        rewrite Hsplit in Hin. split.
        -- intros Hj. split; [|apply Hin; by left]. intros ->.
           apply elem_of_app in Hj as [Hj|Hj]; [|done]. apply (Hd i Hj). by left.
        -- intros [Hji Hk]. apply Hin in Hk as [?|?]; done.
    + destruct (rep_chain _ _ Hr h') as (c & Hc & Hndc & Hinc). exists c.
      assert (Hic : i ∉ c) by (by eapply (other_chain m l h h')).
      assert (Hpc : p ∉ c) by (by eapply (other_chain m l h h')).
      split_and!; [|done|done|].
      * eapply chain_ext; [|exact Hc]. intros j Hj. apply Hne. by intros ->.
      * intros j. rewrite <-Hinc. split; [|by intros [_ ?]]. intros Hj. split; [by intros ->|done].
Qed.

Lemma unchain_spec m l i n0 :
  rep m l → node_at (nodes m) i = Some n0 →
  ∃ s m1, map_ m !! key_hash (nkey n0) = Some s ∧
    unchain i (key_hash (nkey n0)) n0 s m = Some m1 ∧ unchained m i n0 m1.
Proof.
  intros Hr Hn. destruct (rep_chain _ _ Hr (key_hash (nkey n0))) as (c & Hc & Hnd & Hin).
  assert (Hic : i ∈ c) by (apply Hin; by exists n0).
  assert (Hi : i ≠ NIL).
  { assert (Hil : i ∈ l) by (apply (rep_active _ _ Hr); by eexists).
    pose proof (rep_range _ _ _ Hr Hil). lia. }
  destruct (map_ m !! key_hash (nkey n0)) as [s|] eqn:Hs; simpl in Hc.
  2:{ destruct c as [|j c]; [by apply elem_of_nil in Hic|]. destruct Hc as (Hj & Hjn & _). congruence. }
  apply list_elem_of_split in Hic as (c1 & c2 & ->). exists s.
  destruct (rev_case c1) as [->|(p & c1' & ->)].
  - simpl in Hc, Hnd, Hin. pose proof Hc as (-> & _).
    eexists. split; [done|]. unfold unchain. rewrite Z.eqb_refl. split; [done|].
    by eapply unchain_head.
  - destruct (chain_active _ _ _ _ p Hc) as [np Hp]; [set_solver|].
    destruct (update_node_spec (set_hash_next (hash_next n0)) p m np Hp) as (ns & Hupd & Hlen & Hns).
    exists (set_nodes ns m). split; [done|]. pose proof Hc as Hc'.
    apply chain_to_app in Hc' as (mid & Hc1 & (-> & _)).
    pose proof Hnd as Hnd'. apply NoDup_app in Hnd' as (Hnd1 & Hd & _).
    assert (Hsi : s ≠ i).
    { destruct c1' as [|x c1']; destruct Hc1 as (-> & _); intros ->; apply (Hd i); set_solver. }
    unfold unchain. rewrite (proj2 (Z.eqb_neq _ _)) by done.
    rewrite (find_previous_spec _ i c1' p).
    + rewrite Hupd. split; [done|]. by eapply unchain_inner.
    + done.
    + done.
    + intros H. apply (Hd i H). by left.
    + pose proof (chain_length _ _ _ _ Hc Hnd) as H. rewrite !length_app in H. simpl in H. lia.
Qed.

(** A node that is read back after two steps that keep keys and values. *)
Definition same_entry (n n' : Node K V) : Prop := nkey n' = nkey n ∧ nval n' = nval n.

(** The entries of all nodes but [i] are kept. *)
Definition entries_kept (i : Z) (g g' : store) : Prop :=
  ∀ j, j ≠ i → ∀ n, g j = Some n → ∃ n', g' j = Some n' ∧ same_entry n n'.

Lemma holds_kept g g' l es i : entries_kept i g g' → i ∉ l → holds g l es → holds g' l es.
Proof.
  intros Hk Hi H. induction H as [|j e l es (n & Hn & He) _ IH]; [constructor|].
  apply not_elem_of_cons in Hi as [Hij Hi]. constructor; [|by apply IH].
  destruct (Hk j (not_eq_sym Hij) n Hn) as (n' & Hn' & [Hk' Hv']). exists n'. split; [done|]. congruence.
Qed.

Lemma holds_ext g g' l es i : (∀ j, j ≠ i → g' j = g j) → i ∉ l → holds g l es → holds g' l es.
Proof.
  intros Hg. apply holds_kept. intros j Hj n Hn. exists n. rewrite Hg by done. by repeat split.
Qed.

(** [remove_index] takes the node out of both lists and frees its slot. *)
Lemma remove_index_spec m a i b n0 :
  rep m (a ++ i :: b) → node_at (nodes m) i = Some n0 →
  ∃ n m', LruMap_remove_index i (key_hash (nkey n0)) m = Some (n, m') ∧ same_entry n0 n ∧
    rep m' (a ++ b) ∧ entries_kept i (node_at (nodes m)) (node_at (nodes m')) ∧
    cap m' = cap m ∧ i ∈ free m'.
Proof.
  intros Hr Hn. pose proof Hr as [Hseg Hhd Htl Hnd Hact Hfree Hfnd Hlen Hcap Hsize Hkeys _ _].
  destruct (unchain_spec m _ i n0 Hr Hn)
    as (s & m1 & Hs & Hun & [(Hc1 & Hf1 & Hl1 & Hh1 & Ht1 & Hz1) Hsh Hn1 [Hch1 Hmap1]]).
  unfold LruMap_remove_index, LruMap_node. rewrite Hn, Hs.
  fold (unchain i (key_hash (nkey n0)) n0 s m). rewrite Hun.
  destruct (unlink_spec m1 a i b) as (m2 & -> & (Hseg2 & Hh2 & Ht2) & (Hc2 & Hm2 & Hf2 & Hl2 & Hz2 & Hcore2) & Hn2).
  { split_and!; [by eapply seg_shape|congruence|congruence]. }
  { done. }
  { intros j Hj. pose proof (rep_range _ _ _ Hr Hj). lia. }
  cbn [nodes set_free set_len free len]. rewrite Hn2, Hn1.
  assert (Hi : 0 ≤ i < zlen (nodes m2)).
  { rewrite Hz2, Hz1. by eapply node_at_range. }
  destruct (set_node_spec (nodes m2) i None Hi) as (ns & -> & Hzn & Hns).
  eexists _, _. split; [done|]. split; [done|].
  assert (Hnil : i ∉ a ++ b).
  { apply NoDup_app in Hnd as (_ & Hd & [Hib _]%NoDup_cons). rewrite elem_of_app.
    intros [Hia|]; [|done]. apply (Hd i Hia). by left. }
  (* the nodes that remain have the entries they had *)
  assert (Hkept : entries_kept i (node_at (nodes m)) (node_at ns)).
  { intros j Hj n Hjn. destruct (same_shape_some _ _ _ _ Hsh Hjn) as (n1 & Hj1 & [= Hk1 Hv1 _ _]).
    destruct (same_core_some _ _ _ _ Hcore2 Hj1) as (n2 & Hj2 & [= Hk2 Hv2 _]).
    exists n2. rewrite Hns, decide_False by done. split; [done|]. split; congruence. }
  assert (Hback : ∀ j n, node_at ns j = Some n → j ≠ i ∧ ∃ n', node_at (nodes m) j = Some n' ∧ same_entry n' n).
  { intros j n. rewrite Hns. destruct (decide (j = i)) as [|Hj]; [done|]. intros Hj2.
    pose proof (same_core_some _ _ _ _ (same_core_sym _ _ Hcore2) Hj2) as (n1 & Hj1 & [= Hk1 Hv1 _]).
    specialize (Hsh j). rewrite Hj1 in Hsh. destruct (node_at (nodes m) j) as [n'|] eqn:Hjm; [|done].
    simpl in Hsh. injection Hsh as Hk' Hv' _ _. split; [done|]. exists n'. split; [done|]. split; congruence. }
  assert (Hsome : ∀ j, is_Some (node_at ns j) ↔ j ≠ i ∧ is_Some (node_at (nodes m) j)).
  { intros j. split.
    - intros [n Hj]. destruct (Hback j n Hj) as (? & n' & ? & _). split; [done|by exists n'].
    - intros [Hj [n Hjn]]. destruct (Hkept j Hj n Hjn) as (n' & ? & _). by exists n'. }
  split; [|split_and!; [done| |]].
  2:{ cbn. congruence. }
  2:{ cbn. apply elem_of_app. right. by left. }
  pose proof (NoDup_app (a) (i :: b)) as Hndapp.
  constructor; cbn [nodes set_nodes set_free set_len map_ head tail free len cap].
  - eapply seg_ext; [|exact Hseg2]. intros j Hj. rewrite Hns, decide_False; [done|]. by intros ->.
  - done.
  - done.
  - apply Hndapp in Hnd as (Hnda & Hd & [_ Hndb]%NoDup_cons). apply NoDup_app.
    split_and!; [done| |done]. intros j Hj Hjb. apply (Hd j Hj). by right.
  - intros j. rewrite Hsome, <-Hact. split; [|set_solver]. intros Hj. split; [by intros ->|set_solver].
  - intros j. rewrite elem_of_app, list_elem_of_singleton, Hzn, Hz2, Hz1, Hf2, Hf1, Hfree.
    rewrite !eq_None_not_Some, Hsome. split.
    + intros [[? ?]| ->]; [split; [done|tauto]|]. split; [by eapply node_at_range|tauto].
    + intros [? Hj]. destruct (decide (j = i)); [by right|left]. split; [done|]. tauto.
  - rewrite Hf2, Hf1. apply NoDup_app. split_and!; [done| |apply NoDup_singleton].
    intros j Hj Hji%list_elem_of_singleton. subst j. apply Hfree in Hj as [_ Hj]. congruence.
  - rewrite Hl2, Hl1, Hlen, !zlen_app, zlen_cons. lia.
  - rewrite Hc2, Hc1. rewrite !zlen_app, zlen_cons in *. lia.
  - by rewrite Hzn, Hz2, Hz1, Hc2, Hc1.
  - intros j k n n' Hj Hk Heq. destruct (Hback _ _ Hj) as (_ & nj & Hnj & [? _]).
    destruct (Hback _ _ Hk) as (_ & nk & Hnk & [? _]). apply (Hkeys j k nj nk); congruence.
  - intros h. destruct (Hch1 h) as (c & Hc & Hndc & Hic & Hin). exists c. rewrite Hm2.
    split_and!; [|done|].
    + eapply chain_ext; [|eapply chain_core; [exact Hcore2|exact Hc]].
      intros j Hj. rewrite Hns, decide_False; [done|]. by intros ->.
    + intros j. rewrite Hin. split.
      * intros (Hj & n & Hjn & Hk). destruct (Hkept j Hj n Hjn) as (n' & ? & [Hk' _]). exists n'.
        split; [done|]. by rewrite Hk'.
      * intros (n & Hjn & Hk). destruct (Hback j n Hjn) as (Hj & n' & ? & [Hk' _]).
        split; [done|]. exists n'. split; [done|]. by rewrite <-Hk'.
  - rewrite Hm2. apply Hmap1.
Qed.

(** ** Insertion *)

(** Without free slots every slot of the arena holds a node. *)
Lemma full_arena m l : rep m l → free m = [] → zlen (nodes m) = zlen l.
Proof.
  intros [_ _ _ Hnd Hact Hfree _ _ _ _ _ _ _] Hf.
  assert (Hp : l ≡ₚ seqZ 0 (zlen (nodes m))).
  { apply NoDup_Permutation; [done|apply NoDup_seqZ|]. intros i. rewrite Hact, elem_of_seqZ. split.
    - intros [n Hn]. apply node_at_range in Hn. lia.
    - intros Hi. destruct (node_at (nodes m) i) eqn:Hn; [by eexists|].
      assert (Hin : i ∈ free m) by (apply Hfree; split; [lia|done]). rewrite Hf in Hin. by apply elem_of_nil in Hin. }
  apply Permutation_length in Hp. rewrite length_seqZ in Hp. unfold zlen in *. lia.
Qed.

Lemma vec_pop_spec {A} (l : list A) :
  match vec_pop l with
  | Some (x, r) => l = r ++ [x]
  | None => l = []
  end.
Proof.
  unfold vec_pop. destruct (rev_case l) as [->|(x & k & ->)]; [done|].
  by rewrite last_snoc, removelast_last.
Qed.

(** The slot that a new node takes. *)
Record slot_taken (m : lru) (n : Node K V) (i : Z) (m1 : lru) : Prop := {
  st_fresh : node_at (nodes m) i = None;
  st_nil : i ≠ NIL;
  st_node : ∀ j, node_at (nodes m1) j = if decide (j = i) then Some n else node_at (nodes m) j;
  st_free : ∀ j, j ∈ free m1 ↔ 0 ≤ j < zlen (nodes m1) ∧ node_at (nodes m1) j = None;
  st_free_nodup : NoDup (free m1);
  st_size : zlen (nodes m1) ≤ cap m;
  st_rest : cap m1 = cap m ∧ map_ m1 = map_ m ∧ len m1 = len m ∧ head m1 = head m ∧ tail m1 = tail m;
}.

Lemma node_at_snoc (ns : list (option (Node K V))) n j :
  node_at (ns ++ [Some n]) j = if decide (j = zlen ns) then Some n else node_at ns j.
Proof.
  unfold node_at. destruct (decide (j = zlen ns)) as [->|Hj]; [by rewrite get_app_mid|].
  destruct (Z.lt_ge_cases j (zlen ns)); [by rewrite get_app_l|].
  rewrite !get_None_ge; [done|lia|]. rewrite zlen_app, zlen_cons, zlen_nil. lia.
Qed.

Lemma take_slot_spec m l n :
  rep m l → zlen l < cap m → ∃ i m1, take_slot n m = Some (i, m1) ∧ slot_taken m n i m1.
Proof.
  intros Hr Hcap. unfold take_slot. pose proof (vec_pop_spec (free m)) as Hpop.
  pose proof (full_arena _ _ Hr) as Hfull. destruct Hr as [_ _ _ Hnd Hact Hfree Hfnd Hlen Hc Hsize _ _ _].
  destruct (vec_pop (free m)) as [[i rest]|].
  - assert (Hi : i ∈ free m) by (rewrite Hpop; set_solver). apply Hfree in Hi as [Hi Hnone].
    destruct (set_node_spec (nodes m) i (Some n) Hi) as (ns & -> & Hz & Hns).
    eexists _, _. split; [done|]. rewrite Hpop in Hfnd.
    apply NoDup_app in Hfnd as (Hndr & Hd & _).
    constructor; cbn [nodes set_nodes set_free free cap]; [done|lia|done| |done|lia|done].
    intros j. specialize (Hfree j). rewrite Hpop, elem_of_app, list_elem_of_singleton in Hfree.
    rewrite Hz, Hns. destruct (decide (j = i)) as [->|Hj]; [|tauto].
    split; [|by intros [_ ?]]. intros Hj. exfalso. apply (Hd i Hj). by left.
  - specialize (Hfull Hpop). assert (Hz : zlen (nodes m) < NIL) by lia. unfold NIL in *.
    rewrite (proj2 (Z.leb_le _ _)) by lia. eexists _, _. split; [done|].
    assert (Hnone : node_at (nodes m) (zlen (nodes m)) = None) by (unfold node_at; by rewrite get_None_ge).
    constructor; cbn [nodes set_nodes free cap]; [done|unfold NIL; lia|apply node_at_snoc| |done| |done].
    + intros j. specialize (Hfree j). rewrite node_at_snoc, zlen_app. change (zlen [Some n]) with 1.
      destruct (decide (j = zlen (nodes m))) as [->|].
      * split; [intros [? _]%Hfree; lia|by intros [_ ?]].
      * split; [intros [? ?]%Hfree; split; [lia|done]|]. intros [? ?]. apply Hfree. split; [lia|done].
    + rewrite zlen_app, zlen_cons, zlen_nil. lia.
Qed.

(** The new node heads its collision chain. *)
Lemma put_chains m l n i m1 h :
  rep m l → slot_taken m n i m1 → key_hash (nkey n) = h → hash_next n = default NIL (map_ m !! h) →
  ∀ h', ∃ c, chain (node_at (nodes m1)) (default NIL (<[h := i]> (map_ m) !! h')) c ∧ NoDup c ∧
    ∀ j, j ∈ c ↔ ∃ n', node_at (nodes m1) j = Some n' ∧ key_hash (nkey n') = h'.
Proof.
  intros Hr [Hnone Hnil Hnode _ _ _ _] Hk Hnext h'.
  destruct (rep_chain _ _ Hr h') as (c & Hc & Hnd & Hin).
  assert (Hic : i ∉ c) by (intros (n' & Hn' & _)%Hin; congruence).
  assert (Hc1 : chain (node_at (nodes m1)) (default NIL (map_ m !! h')) c).
  { eapply chain_ext; [|exact Hc]. intros j Hj. rewrite Hnode, decide_False; [done|]. by intros ->. }
  assert (Hold : ∀ j, j ≠ i → j ∈ c ↔ ∃ n', node_at (nodes m1) j = Some n' ∧ key_hash (nkey n') = h').
  { intros j Hj. rewrite Hin, Hnode, decide_False by done. done. }
  assert (Hi : node_at (nodes m1) i = Some n) by by rewrite Hnode, decide_True.
  destruct (decide (h' = h)) as [->|Hne].
  - exists (i :: c). rewrite lookup_insert_eq. cbn [default from_option id]. split_and!.
    + split_and!; [done|done|]. exists n. split; [done|]. by rewrite Hnext.
    + by apply NoDup_cons.
    + intros j. rewrite elem_of_cons. destruct (decide (j = i)) as [->|Hj].
      * split; [intros _; by exists n|by left].
      * rewrite <-Hold by done. tauto.
  - exists c. rewrite lookup_insert_ne by done. split_and!; [done|done|].
    intros j. destruct (decide (j = i)) as [->|Hj]; [|by apply Hold].
    split; [done|]. rewrite Hi. intros (n' & [= <-] & Hk'). congruence.
Qed.

(** [put_node] adds one node in front. *)
Lemma put_node_spec m l k v :
  rep m l → zlen l < cap m → (∀ j n, node_at (nodes m) j = Some n → nkey n ≠ k) →
  ∃ i n m', put_node k v (key_hash k) m = Some m' ∧ rep m' (i :: l) ∧ i ∉ l ∧
    node_at (nodes m') i = Some n ∧ (nkey n, nval n) = (k, v) ∧
    entries_kept i (node_at (nodes m)) (node_at (nodes m')) ∧ cap m' = cap m.
Proof.
  intros Hr Hcap Hk. unfold put_node.
  set (n := {| nkey := k; nval := v; nprev := NIL; nnext := NIL;
               hash_next := default NIL (map_ m !! key_hash k) |}).
  destruct (take_slot_spec m l n Hr Hcap) as (i & m1 & -> & Hst).
  pose proof (put_chains m l n i m1 (key_hash k) Hr Hst eq_refl eq_refl) as Hchains.
  destruct Hst as [Hnone Hnil Hnode Hfree Hfnd Hsize (Hc1 & Hm1 & Hl1 & Hh1 & Ht1)]. cbv zeta.
  set (m2 := set_len (len (set_map (<[key_hash k:=i]> (map_ m1)) m1) + 1)
               (set_map (<[key_hash k:=i]> (map_ m1)) m1)).
  pose proof Hr as [Hseg Hhd Htl Hnd Hact _ _ Hlen Hc _ Hkeys _ Hmap].
  assert (Hil : i ∉ l) by (intros [? ?]%Hact; congruence).
  assert (Hi : node_at (nodes m1) i = Some n) by by rewrite Hnode, decide_True.
  assert (Hne : ∀ j, j ≠ i → node_at (nodes m1) j = node_at (nodes m) j).
  { intros j Hj. by rewrite Hnode, decide_False. }
  destruct (push_front_spec m2 l i n) as (m3 & -> & (Hs3 & Hh3 & Ht3) & (Hc3 & Hm3 & Hf3 & Hl3 & Hz3 & Hcore)).
  { split_and!; cbn; [|congruence..]. eapply seg_ext; [|exact Hseg]. intros j Hj. apply Hne. by intros ->. }
  { by apply NoDup_cons. }
  { intros j Hj. inversion Hj; subst; [done|]. pose proof (rep_range m l j Hr ltac:(done)). lia. }
  { done. }
  cbn [nodes set_len set_map cap map_ free len m2] in *.
  assert (Hsome : ∀ j, is_Some (node_at (nodes m3) j) ↔ is_Some (node_at (nodes m1) j)).
  { intros j. specialize (Hcore j). destruct (node_at (nodes m3) j), (node_at (nodes m1) j); naive_solver. }
  destruct (same_core_some _ _ _ _ Hcore Hi) as (n3 & Hn3 & [= Hk3 Hv3 _]).
  exists i, n3, m3. split_and!; [done| |done|done|by rewrite Hk3, Hv3| |congruence].
  2:{ intros j Hj n' Hn'. rewrite <-(Hne j Hj) in Hn'.
      destruct (same_core_some _ _ _ _ Hcore Hn') as (n'' & ? & [= ? ? _]). exists n''. by split_and!. }
  assert (Hback : ∀ j n', node_at (nodes m3) j = Some n' → ∃ n'', node_at (nodes m1) j = Some n'' ∧ nkey n'' = nkey n').
  { intros j n' Hj. destruct (same_core_some _ _ _ _ (same_core_sym _ _ Hcore) Hj) as (n'' & ? & [= ? _ _]). eauto. }
  constructor.
  - done.
  - done.
  - done.
  - by apply NoDup_cons.
  - intros j. rewrite Hsome, elem_of_cons. destruct (decide (j = i)) as [->|Hj].
    + rewrite Hi. split; [by eexists|by left].
    + rewrite Hne, <-Hact by done. tauto.
  - intros j. rewrite Hf3, Hz3, Hfree, !eq_None_not_Some, Hsome. done.
  - by rewrite Hf3.
  - rewrite Hl3, Hl1, Hlen, zlen_cons. done.
  - rewrite zlen_cons, Hc3, Hc1. lia.
  - by rewrite Hz3, Hc3, Hc1.
  - intros j j' n1 n2 Hj Hj' Heq. destruct (Hback _ _ Hj) as (n1' & Hn1 & Hk1).
    destruct (Hback _ _ Hj') as (n2' & Hn2 & Hk2). rewrite Hnode in Hn1, Hn2.
    destruct (decide (j = i)) as [->|], (decide (j' = i)) as [->|]; [done|..].
    + simplify_eq. exfalso. apply (Hk j' n2' Hn2). simpl in *. congruence.
    + simplify_eq. exfalso. apply (Hk j n1' Hn1). simpl in *. congruence.
    + apply (Hkeys j j' n1' n2'); congruence.
  - intros h. rewrite Hm3, Hm1. destruct (Hchains h) as (c & Hch & Hndc & Hin). exists c.
    split_and!; [by eapply chain_core|done|]. intros j. rewrite Hin. split.
    + intros (n' & Hn' & Hk'). destruct (same_core_some _ _ _ _ Hcore Hn') as (n'' & ? & [= ? _ _]).
      exists n''. split; [done|]. congruence.
    + intros (n' & Hn' & Hk'). destruct (Hback _ _ Hn') as (n'' & ? & ?). exists n''. split; [done|]. congruence.
  - intros h j. rewrite Hm3, Hm1. intros [[<- <-]|[_ ?]]%lookup_insert_Some; [done|by eapply Hmap].
Qed.

(** ** The abstract map: a recency list *)

(** The value of a key in a recency list. *)
Fixpoint assoc (k : K) (es : list (K * V)) : option V :=
  match es with
  | [] => None
  | (k', v) :: es => if decide (k' = k) then Some v else assoc k es
  end.

(** The entries of other keys. *)
Definition without (k : K) (es : list (K * V)) : list (K * V) :=
  List.filter (λ e, bool_decide (e.1 ≠ k)) es.

(** The list after a use of [k] that left the value [v]. *)
Definition touch (k : K) (f : V → V) (es : list (K * V)) : list (K * V) :=
  match assoc k es with
  | Some v => (k, f v) :: without k es
  | None => es
  end.

(** Room for a new key: the oldest entry goes when the capacity is reached. *)
Definition make_room (c : Z) (es : list (K * V)) : list (K * V) :=
  if c <=? zlen es then removelast es else es.

(** What an insertion may leave.  When the allocator refuses to grow the arena
    one more entry may go, and an empty map may stay empty. *)
Inductive put_result (c : Z) (grow : bool) (k : K) (v : V) (es : list (K * V)) :
    list (K * V) → Prop :=
  | put_present v' : assoc k es = Some v' → put_result c grow k v es ((k, v) :: without k es)
  | put_new : assoc k es = None → put_result c grow k v es ((k, v) :: make_room c es)
  | put_evict : assoc k es = None → grow = false → make_room c es ≠ [] →
      put_result c grow k v es ((k, v) :: removelast (make_room c es))
  | put_dropped : assoc k es = None → grow = false → make_room c es = [] →
      put_result c grow k v es [].

(** *** Entries and nodes *)

Lemma holds_in g l es i : holds g l es → i ∈ l → ∃ n, g i = Some n ∧ (nkey n, nval n) ∈ es.
Proof.
  intros H Hi. apply list_elem_of_lookup in Hi as [x Hx].
  destruct (Forall2_lookup_l _ _ _ _ _ H Hx) as (e & He & n & Hn & Heq). exists n. split; [done|].
  apply list_elem_of_lookup. exists x. by rewrite Heq.
Qed.

Lemma holds_out g l es e : holds g l es → e ∈ es → ∃ i n, i ∈ l ∧ g i = Some n ∧ (nkey n, nval n) = e.
Proof.
  intros H Hi. apply list_elem_of_lookup in Hi as [x Hx].
  destruct (Forall2_lookup_r _ _ _ _ _ H Hx) as (i & He & n & Hn & Heq). exists i, n. split; [|done].
  apply list_elem_of_lookup. by exists x.
Qed.

Lemma holds_core g g' l es : same_core g g' → holds g l es → holds g' l es.
Proof.
  intros Hg H. eapply Forall2_impl; [exact H|]. intros i e (n & Hn & He).
  destruct (same_core_some _ _ _ _ Hg Hn) as (n' & ? & [= ? ? _]). exists n'. split; [done|congruence].
Qed.

Lemma holds_length g l es : holds g l es → zlen l = zlen es.
Proof. intros H%Forall2_length. unfold zlen. by rewrite H. Qed.

Lemma assoc_None k es : assoc k es = None ↔ ∀ v, (k, v) ∉ es.
Proof using Type.
  clear key_hash.
  induction es as [|[k' v'] es IH]; simpl.
  - split; [|done]. intros _ v Hv. by apply elem_of_nil in Hv.
  - destruct (decide (k' = k)) as [->|Hne].
    + split; [done|]. intros H. exfalso. apply (H v'). by left.
    + rewrite IH. split; intros H v; specialize (H v); rewrite elem_of_cons in *; [|tauto].
      intros [[= ? ?]|?]; [by subst|done].
Qed.

Lemma without_absent k es : assoc k es = None → without k es = es.
Proof using Type.
  clear key_hash.
  induction es as [|[k' v'] es IH]; simpl; [done|]. destruct (decide (k' = k)) as [|Hne]; [done|].
  intros H. rewrite bool_decide_true by done. by rewrite IH.
Qed.

Lemma without_app k ea eb : without k (ea ++ eb) = without k ea ++ without k eb.
Proof using Type. unfold without. induction ea as [|e ea IH]; simpl; [done|]. case_match; by rewrite IH. Qed.

Lemma assoc_app k ea eb : assoc k ea = None → assoc k (ea ++ eb) = assoc k eb.
Proof using Type. induction ea as [|[k' v'] ea IH]; simpl; [done|]. by destruct (decide (k' = k)). Qed.

(** The node of a key splits both lists. *)
Lemma holds_split m l es i n :
  rep m l → holds (node_at (nodes m)) l es → i ∈ l → node_at (nodes m) i = Some n →
  ∃ a b ea eb, l = a ++ i :: b ∧ es = ea ++ (nkey n, nval n) :: eb ∧
    holds (node_at (nodes m)) a ea ∧ holds (node_at (nodes m)) b eb ∧
    assoc (nkey n) ea = None ∧ assoc (nkey n) eb = None.
Proof.
  intros Hr Hh Hi Hn. apply list_elem_of_split in Hi as (a & b & ->).
  apply Forall2_app_inv_l in Hh as (ea & eb' & Ha & Hb & ->).
  apply Forall2_cons_inv_l in Hb as (e & eb & (n' & Hn' & <-) & Hb & ->).
  assert (n' = n) as -> by congruence.
  pose proof (rep_nodup _ _ Hr) as Hnd. apply NoDup_app in Hnd as (_ & Hab & [Hib _]%NoDup_cons).
  exists a, b, ea, eb. split_and!; try done; apply assoc_None; intros v Hv.
  - destruct (holds_out _ _ _ _ Ha Hv) as (j & nj & Hj & Hnj & [= Hk _]).
    rewrite (rep_keys _ _ Hr _ _ _ _ Hnj Hn Hk) in Hj. apply (Hab i Hj). by left.
  - destruct (holds_out _ _ _ _ Hb Hv) as (j & nj & Hj & Hnj & [= Hk _]).
    by rewrite (rep_keys _ _ Hr _ _ _ _ Hnj Hn Hk) in Hj.
Qed.

Lemma split_facts k v ea eb :
  assoc k ea = None → assoc k eb = None →
  assoc k (ea ++ (k, v) :: eb) = Some v ∧ without k (ea ++ (k, v) :: eb) = ea ++ eb.
Proof using Type.
  clear key_hash.
  intros Ha Hb. split.
  - rewrite assoc_app by done. simpl. by rewrite decide_True.
  - rewrite without_app. simpl. rewrite bool_decide_false by tauto. by rewrite !without_absent.
Qed.

(** What a search finds in the recency list. *)
Lemma find_index_holds m l es k :
  rep m l → holds (node_at (nodes m)) l es →
  (LruMap_find_index_with_hash m (key_hash k) k = Some None ∧ assoc k es = None ∧
     ∀ j n, node_at (nodes m) j = Some n → nkey n ≠ k) ∨
  (∃ i n a b ea eb, LruMap_find_index_with_hash m (key_hash k) k = Some (Some i) ∧
     node_at (nodes m) i = Some n ∧ nkey n = k ∧ l = a ++ i :: b ∧ es = ea ++ (k, nval n) :: eb ∧
     holds (node_at (nodes m)) a ea ∧ holds (node_at (nodes m)) b eb ∧
     assoc k es = Some (nval n) ∧ without k es = ea ++ eb).
Proof.
  intros Hr Hh. destruct (find_index_spec m l k Hr) as ([i|] & Hf & Hres).
  - right. destruct Hres as (Hi & n & Hn & <-).
    destruct (holds_split m l es i n Hr Hh Hi Hn) as (a & b & ea & eb & -> & -> & Ha & Hb & Hka & Hkb).
    destruct (split_facts (nkey n) (nval n) ea eb Hka Hkb) as [? ?].
    by exists i, n, a, b, ea, eb.
  - left. split_and!; [done| |done]. apply assoc_None. intros v Hv.
    destruct (holds_out _ _ _ _ Hh Hv) as (j & n & _ & Hn & [= Hk _]). by apply (Hres j n Hn).
Qed.

(** *** Writing a value *)

Lemma seg_links g g' p l q :
  (∀ j n, g j = Some n → ∃ n', g' j = Some n' ∧ nprev n' = nprev n ∧ nnext n' = nnext n) →
  seg g p l q → seg g' p l q.
Proof.
  intros Hg. revert p. induction l as [|i l IH]; intros p; cbn [seg]; [done|].
  intros [(n & Hn & Hp & Hq) Hs]. split; [|by apply IH].
  destruct (Hg _ _ Hn) as (n' & Hn' & ? & ?). exists n'. split_and!; congruence.
Qed.

Lemma chain_links g g' s c e :
  (∀ j n, g j = Some n → ∃ n', g' j = Some n' ∧ hash_next n' = hash_next n) →
  chain_to g s c e → chain_to g' s c e.
Proof.
  intros Hg. revert s. induction c as [|i c IH]; intros s; cbn [chain_to]; [done|].
  intros (-> & Hi & n & Hn & Hc). split_and!; try done.
  destruct (Hg _ _ Hn) as (n' & Hn' & Hh). exists n'. split; [done|]. rewrite Hh. by apply IH.
Qed.

Lemma set_val_rep m l i n v :
  rep m l → node_at (nodes m) i = Some n →
  ∃ m', update_node (set_val v) i m = Some m' ∧ rep m' l ∧ cap m' = cap m ∧
    node_at (nodes m') i = Some (set_val v n) ∧
    ∀ j, j ≠ i → node_at (nodes m') j = node_at (nodes m) j.
Proof.
  intros [Hseg Hhd Htl Hnd Hact Hfree Hfnd Hlen Hcap Hsize Hkeys Hch Hmap] Hn.
  destruct (update_node_spec (set_val v) i m n Hn) as (ns & -> & Hz & Hns).
  assert (Hfwd : ∀ j n', node_at (nodes m) j = Some n' → ∃ n'', node_at ns j = Some n'' ∧
    nkey n'' = nkey n' ∧ nprev n'' = nprev n' ∧ nnext n'' = nnext n' ∧ hash_next n'' = hash_next n').
  { intros j n' Hj. rewrite Hns. destruct (decide (j = i)) as [->|]; [|by exists n'].
    rewrite Hn in Hj. injection Hj as <-. by exists (set_val v n). }
  assert (Hback : ∀ j n'', node_at ns j = Some n'' → ∃ n', node_at (nodes m) j = Some n' ∧ nkey n'' = nkey n').
  { intros j n''. rewrite Hns. destruct (decide (j = i)) as [->|]; [|by exists n''].
    intros [= <-]. by exists n. }
  assert (Hsome : ∀ j, is_Some (node_at ns j) ↔ is_Some (node_at (nodes m) j)).
  { intros j. split; intros [x Hx]; [destruct (Hback _ _ Hx)|destruct (Hfwd _ _ Hx)]; naive_solver. }
  eexists. split; [done|]. split; [|split_and!; [done|by cbn; rewrite Hns, decide_True|]].
  2:{ intros j Hj. cbn. by rewrite Hns, decide_False. }
  constructor; cbn [nodes set_nodes map_ head tail free len cap]; try done.
  - eapply seg_links; [|exact Hseg]. intros j n' Hj. destruct (Hfwd _ _ Hj) as (n'' & ? & ? & ? & ? & ?). eauto.
  - intros j. by rewrite Hsome.
  - intros j. by rewrite Hfree, Hz, !eq_None_not_Some, Hsome.
  - by rewrite Hz.
  - intros j j' n1 n2 Hj Hj' Heq. destruct (Hback _ _ Hj) as (n1' & ? & ?), (Hback _ _ Hj') as (n2' & ? & ?).
    apply (Hkeys j j' n1' n2'); congruence.
  - intros h. destruct (Hch h) as (c & Hc & Hndc & Hin). exists c. split_and!; [|done|].
    + eapply chain_links; [|exact Hc]. intros j n' Hj. destruct (Hfwd _ _ Hj) as (n'' & ? & ? & ? & ? & ?). eauto.
    + intros j. rewrite Hin. split.
      * intros (n' & Hj & Hk). destruct (Hfwd _ _ Hj) as (n'' & ? & ? & _). exists n''. split; congruence.
      * intros (n' & Hj & Hk). destruct (Hback _ _ Hj) as (n'' & ? & ?). exists n''. split; congruence.
Qed.

(** *** The operations *)

Lemma move_front_rep m a i b :
  rep m (a ++ i :: b) →
  ∃ m', LruMap_move_front i m = Some m' ∧ rep m' (i :: a ++ b) ∧ cap m' = cap m ∧
    same_core (node_at (nodes m)) (node_at (nodes m')).
Proof.
  intros Hr. destruct (move_front_spec m a i b) as (m' & Hm' & Hl & Hrest).
  - by destruct Hr.
  - by destruct Hr.
  - intros j Hj. pose proof (rep_range _ _ _ Hr Hj). lia.
  - exists m'. split; [done|]. split; [eapply rep_links; try done|split; apply Hrest].
    apply Permutation_sym, Permutation_middle.
Qed.

(** A node that moves to the front takes its entry along. *)
Lemma move_front_holds m a i b ea eb n :
  rep m (a ++ i :: b) → node_at (nodes m) i = Some n →
  holds (node_at (nodes m)) a ea → holds (node_at (nodes m)) b eb →
  ∃ m' n', LruMap_move_front i m = Some m' ∧ cap m' = cap m ∧
    node_at (nodes m') i = Some n' ∧ nval n' = nval n ∧ rep m' (i :: a ++ b) ∧
    holds (node_at (nodes m')) (a ++ b) (ea ++ eb) ∧ nkey n' = nkey n.
Proof.
  intros Hr Hn Ha Hb. destruct (move_front_rep m a i b Hr) as (m' & Hm' & Hr' & Hc & Hcore).
  destruct (same_core_some _ _ _ _ Hcore Hn) as (n' & Hn' & [= Hk Hv _]).
  exists m', n'. split_and!; try done. apply Forall2_app; by eapply holds_core.
Qed.

Definition same_cap (m m' : lru) : Prop := cap m' = cap m.

Lemma get_spec m es k :
  represents m es →
  ∃ m', LruMap_get key_hash k m = Some (assoc k es, m') ∧ same_cap m m' ∧
    represents m' (touch k (λ v, v) es).
Proof.
  intros (l & Hr & Hh). unfold LruMap_get, LruMap_find_index, touch.
  destruct (find_index_holds m l es k Hr Hh)
    as [(-> & -> & _)|(i & n & a & b & ea & eb & -> & Hn & Hk & -> & Hes & Ha & Hb & -> & ->)].
  - exists m. split_and!; [done|done|by exists l].
  - destruct (move_front_holds m a i b ea eb n Hr Hn Ha Hb) as (m' & n' & -> & Hc & Hn' & Hv & Hr' & Hh' & Hk').
    unfold LruMap_node. rewrite Hn', Hv. exists m'. split_and!; [done|done|].
    exists (i :: a ++ b). split; [done|]. constructor; [|done]. exists n'. split; [done|congruence].
Qed.

Lemma get_mut_spec m es k f :
  represents m es →
  ∃ m', LruMap_get_mut key_hash k f m = Some (assoc k es, m') ∧ same_cap m m' ∧
    represents m' (touch k f es).
Proof.
  intros (l & Hr & Hh). unfold LruMap_get_mut, LruMap_find_index, touch.
  destruct (find_index_holds m l es k Hr Hh)
    as [(-> & -> & _)|(i & n & a & b & ea & eb & -> & Hn & Hk & -> & Hes & Ha & Hb & -> & ->)].
  - exists m. split_and!; [done|done|by exists l].
  - destruct (move_front_holds m a i b ea eb n Hr Hn Ha Hb) as (m1 & n' & -> & Hc & Hn' & Hv & Hr' & Hh' & Hk').
    unfold LruMap_node. rewrite Hn', Hv.
    destruct (set_val_rep m1 _ i n' (f (nval n)) Hr' Hn') as (m2 & -> & Hr2 & Hc2 & Hi2 & Hne).
    exists m2. split_and!; [done|unfold same_cap; congruence|].
    exists (i :: a ++ b). split; [done|]. constructor.
    + eexists. split; [exact Hi2|]. simpl. congruence.
    + pose proof (rep_nodup _ _ Hr2) as [Hi _]%NoDup_cons. by eapply holds_ext.
Qed.

Lemma peek_spec m es k : represents m es → LruMap_peek key_hash m k = Some (assoc k es).
Proof.
  intros (l & Hr & Hh). unfold LruMap_peek, LruMap_find_index, LruMap_node.
  destruct (find_index_holds m l es k Hr Hh)
    as [(-> & -> & _)|(i & n & a & b & ea & eb & -> & -> & _ & _ & _ & _ & _ & -> & _)]; done.
Qed.

Lemma contains_key_spec m es k :
  represents m es → LruMap_contains_key key_hash m k = Some (bool_decide (is_Some (assoc k es))).
Proof.
  intros (l & Hr & Hh). unfold LruMap_contains_key, LruMap_find_index.
  destruct (find_index_holds m l es k Hr Hh)
    as [(-> & -> & _)|(i & n & a & b & ea & eb & -> & _ & _ & _ & _ & _ & _ & -> & _)]; [done|].
  by rewrite !bool_decide_true by by eexists.
Qed.

Lemma pop_spec m es k :
  represents m es →
  ∃ m', LruMap_pop key_hash k m = Some (assoc k es, m') ∧ same_cap m m' ∧ represents m' (without k es).
Proof.
  intros (l & Hr & Hh). unfold LruMap_pop.
  destruct (find_index_holds m l es k Hr Hh)
    as [(-> & Hk & _)|(i & n & a & b & ea & eb & -> & Hn & <- & -> & Hes & Ha & Hb & -> & ->)].
  - exists m. rewrite Hk, without_absent by done. split_and!; [done|done|by exists l].
  - destruct (remove_index_spec m a i b n Hr Hn) as (n' & m' & -> & [_ Hv] & Hr' & Hkept & Hc & _).
    exists m'. rewrite Hv. split_and!; [done|done|]. exists (a ++ b). split; [done|].
    pose proof (rep_nodup _ _ Hr) as (_ & Hab & [Hib _]%NoDup_cons)%NoDup_app.
    apply Forall2_app; (eapply holds_kept; [exact Hkept| |done]); [|done].
    intros Hi. apply (Hab i Hi). by left.
Qed.

(** [pop_lru] and the eviction take the last entry; [evict_lru] leaves its slot
    free. *)
Lemma pop_lru_spec m es :
  represents m es →
  ∃ m', LruMap_pop_lru key_hash m = Some (last es, m') ∧ same_cap m m' ∧
    represents m' (removelast es) ∧ (es ≠ [] → free m' ≠ []).
Proof.
  intros (l & Hr & Hh). unfold LruMap_pop_lru. cbv zeta. rewrite (rep_tail _ _ Hr).
  destruct (rev_case l) as [->|(i & a & ->)].
  - apply Forall2_nil_inv_l in Hh as ->. exists m. split_and!; [done|done|exists []; split; [done|constructor]|done].
  - rewrite last_app. cbn [List.last].
    pose proof (rep_range m (a ++ [i]) i Hr ltac:(set_solver)) as Hi.
    rewrite (proj2 (Z.eqb_neq _ _)) by lia.
    apply Forall2_app_inv_l in Hh as (ea & eb & Ha & Hb & ->).
    apply Forall2_cons_inv_l in Hb as (e & eb' & (n & Hn & <-) & Hb & ->).
    apply Forall2_nil_inv_l in Hb as ->. unfold LruMap_node. rewrite Hn.
    destruct (remove_index_spec m a i [] n Hr Hn) as (n' & m' & -> & [Hk Hv] & Hr' & Hkept & Hc & Hf).
    exists m'. rewrite last_snoc, removelast_last, Hk, Hv. split_and!; [done|done| |].
    + exists a. rewrite app_nil_r in Hr'. split; [done|]. eapply holds_kept; [exact Hkept| |done].
      pose proof (rep_nodup _ _ Hr) as (_ & Hab & _)%NoDup_app. intros Hia. apply (Hab i Hia). by left.
    + intros _ Hnil. rewrite Hnil in Hf. by apply elem_of_nil in Hf.
Qed.

Lemma evict_lru_spec m es :
  represents m es →
  ∃ m', LruMap_evict_lru key_hash m = Some m' ∧ same_cap m m' ∧ represents m' (removelast es) ∧
    (es ≠ [] → free m' ≠ []).
Proof.
  intros H. unfold LruMap_evict_lru. destruct (pop_lru_spec m es H) as (m' & -> & ?). by exists m'.
Qed.

(** A new key is put in front of the list. *)
Lemma put_node_represents m es k v :
  represents m es → zlen es < cap m → assoc k es = None →
  ∃ m', put_node k v (key_hash k) m = Some m' ∧ same_cap m m' ∧ represents m' ((k, v) :: es).
Proof.
  intros (l & Hr & Hh) Hc Hk. rewrite <-(holds_length _ _ _ Hh) in Hc.
  destruct (put_node_spec m l k v Hr Hc) as (i & n & m' & Hm' & Hr' & Hil & Hn & He & Hkept & Hcap).
  { intros j n Hn Hkn. assert (Hj : j ∈ l) by (apply (rep_active _ _ Hr); by exists n).
    destruct (holds_in _ _ _ _ Hh Hj) as (n' & Hn' & Hin). assert (n' = n) as -> by congruence.
    subst k. by apply (proj1 (assoc_None _ _) Hk (nval n)). }
  exists m'. split_and!; [done|done|]. exists (i :: l). split; [done|].
  constructor; [by exists n|]. by eapply holds_kept.
Qed.

Lemma assoc_removelast k es : assoc k es = None → assoc k (removelast es) = None.
Proof using Type.
  clear key_hash.
  rewrite !assoc_None. intros H v Hv. apply (H v).
  destruct (rev_case es) as [->|(e & es' & ->)]; [done|]. rewrite removelast_last in Hv. set_solver.
Qed.

Lemma zlen_removelast {A} (l : list A) : zlen (removelast l) = Z.max 0 (zlen l - 1).
Proof.
  destruct (rev_case l) as [->|(e & k & ->)]; [done|]. rewrite removelast_last, zlen_app. change (zlen [e]) with 1.
  pose proof (zlen_nonneg k). lia.
Qed.

Lemma represents_cap m es : represents m es → zlen es ≤ cap m ∧ 1 ≤ cap m.
Proof. intros (l & Hr & Hh). rewrite <-(holds_length _ _ _ Hh). pose proof (rep_cap _ _ Hr). lia. Qed.

Lemma represents_len m es : represents m es → len m = zlen es.
Proof. intros (l & Hr & Hh). by rewrite (rep_len _ _ Hr), (holds_length _ _ _ Hh). Qed.

Lemma make_room_spec m es k :
  represents m es → assoc k es = None →
  ∃ m', (if cap m <=? len m then LruMap_evict_lru key_hash m else Some m) = Some m' ∧ same_cap m m' ∧
    represents m' (make_room (cap m) es) ∧ zlen (make_room (cap m) es) < cap m ∧
    assoc k (make_room (cap m) es) = None.
Proof.
  intros H Hk. unfold make_room. rewrite (represents_len m es H).
  destruct (represents_cap m es H) as [Hle Hpos].
  destruct (cap m <=? zlen es) eqn:Hc; bool_prop.
  - destruct (evict_lru_spec m es H) as (m' & -> & ? & ? & _). exists m'. split_and!; try done.
    + rewrite zlen_removelast. lia.
    + by apply assoc_removelast.
  - by exists m.
Qed.

Lemma put_spec m es grow k v :
  represents m es →
  ∃ m' es', LruMap_put key_hash grow k v m = Some m' ∧ same_cap m m' ∧ represents m' es' ∧
    put_result (cap m) grow k v es es'.
Proof.
  intros H. pose proof H as (l & Hr & Hh). unfold LruMap_put.
  destruct (find_index_holds m l es k Hr Hh)
    as [(-> & Hk & _)|(i & n & a & b & ea & eb & -> & Hn & Hk & -> & Hes & Ha & Hb & Hk' & Hw)].
  - destruct (make_room_spec m es k H Hk) as (m1 & -> & Hc1 & H1 & Hlt & Hk1).
    replace (cap m) with (cap m1) in Hlt at 2 by apply Hc1. destruct (bool_decide (free m1 = []) && negb grow) eqn:Hg.
    + apply andb_prop in Hg as [_ ->%negb_true_iff].
      destruct (evict_lru_spec m1 _ H1) as (m2 & -> & Hc2 & H2 & Hf2).
      case_bool_decide as Hfree2.
      * assert (Hnil : make_room (cap m) es = []).
        { destruct (make_room (cap m) es); [done|]. exfalso. by apply Hf2. }
        exists m2, []. rewrite Hnil in H2. split_and!; [done|unfold same_cap in *; congruence|done|].
        by apply put_dropped.
      * destruct (put_node_represents m2 _ k v H2) as (m3 & -> & Hc3 & H3).
        { rewrite zlen_removelast, Hc2. pose proof (zlen_nonneg (make_room (cap m) es)).
          pose proof (represents_cap _ _ H1). lia. }
        { by apply assoc_removelast. }
        eexists m3, _. split_and!; [done|unfold same_cap in *; congruence|exact H3|].
        destruct (decide (make_room (cap m) es = [])) as [Hnil|]; [|by apply put_evict].
        rewrite Hnil. simpl. rewrite <-Hnil. by apply put_new.
    + destruct (put_node_represents m1 _ k v H1 Hlt Hk1) as (m2 & -> & Hc2 & H2).
      eexists m2, _. split_and!; [done|unfold same_cap in *; congruence|exact H2|by apply put_new].
  - destruct (set_val_rep m _ i n v Hr Hn) as (m1 & -> & Hr1 & Hc1 & Hi1 & Hne).
    pose proof (rep_nodup _ _ Hr) as (_ & Hab & [Hib _]%NoDup_cons)%NoDup_app.
    assert (Hia : i ∉ a) by (intros Hi; apply (Hab i Hi); by left).
    destruct (move_front_holds m1 a i b ea eb _ Hr1 Hi1) as (m2 & n' & -> & Hc2 & Hn' & Hv & Hr' & Hh' & Hkn).
    { by eapply holds_ext. }
    { by eapply holds_ext. }
    exists m2, ((k, v) :: ea ++ eb). split_and!; [done|unfold same_cap; congruence| |].
    + exists (i :: a ++ b). split; [done|]. constructor; [|done]. exists n'. split; [done|].
      simpl in *. congruence.
    + rewrite <-Hw. by eapply put_present.
Qed.

(** ** Sequences of operations *)

Inductive lru_op :=
  | OGet (k : K)
  | OGetMut (k : K) (f : V → V)
  | OPeek (k : K)
  | OContains (k : K)
  | OPut (grow : bool) (k : K) (v : V)
  | OPop (k : K)
  | OPopLru
  | OClear
  | OLen.

Inductive lru_answer :=
  | AVal (v : option V)
  | ABool (b : bool)
  | AEntry (e : option (K * V))
  | ALen (n : Z)
  | AUnit.

(** One call on the arena; [None] is a panic. *)
Definition run_op (o : lru_op) (m : lru) : option (lru_answer * lru) :=
  match o with
  | OGet k => '(r, m) ← LruMap_get key_hash k m; Some (AVal r, m)
  | OGetMut k f => '(r, m) ← LruMap_get_mut key_hash k f m; Some (AVal r, m)
  | OPeek k => r ← LruMap_peek key_hash m k; Some (AVal r, m)
  | OContains k => r ← LruMap_contains_key key_hash m k; Some (ABool r, m)
  | OPut grow k v => m ← LruMap_put key_hash grow k v m; Some (AUnit, m)
  | OPop k => '(r, m) ← LruMap_pop key_hash k m; Some (AVal r, m)
  | OPopLru => '(r, m) ← LruMap_pop_lru key_hash m; Some (AEntry r, m)
  | OClear => Some (AUnit, LruMap_clear m)
  | OLen => Some (ALen (LruMap_len m), m)
  end.

(** The same call on the recency list. *)
Inductive spec_op (c : Z) : lru_op → list (K * V) → lru_answer → list (K * V) → Prop :=
  | spec_get k es : spec_op c (OGet k) es (AVal (assoc k es)) (touch k (λ v, v) es)
  | spec_get_mut k f es : spec_op c (OGetMut k f) es (AVal (assoc k es)) (touch k f es)
  | spec_peek k es : spec_op c (OPeek k) es (AVal (assoc k es)) es
  | spec_contains k es : spec_op c (OContains k) es (ABool (bool_decide (is_Some (assoc k es)))) es
  | spec_put grow k v es es' : put_result c grow k v es es' → spec_op c (OPut grow k v) es AUnit es'
  | spec_pop k es : spec_op c (OPop k) es (AVal (assoc k es)) (without k es)
  | spec_pop_lru es : spec_op c OPopLru es (AEntry (last es)) (removelast es)
  | spec_clear es : spec_op c OClear es AUnit []
  | spec_len es : spec_op c OLen es (ALen (zlen es)) es.

Fixpoint run_ops (os : list lru_op) (m : lru) : option (list lru_answer * lru) :=
  match os with
  | [] => Some ([], m)
  | o :: os => '(r, m) ← run_op o m; '(rs, m) ← run_ops os m; Some (r :: rs, m)
  end.

Inductive spec_ops (c : Z) : list lru_op → list (K * V) → list lru_answer → list (K * V) → Prop :=
  | spec_ops_nil es : spec_ops c [] es [] es
  | spec_ops_cons o os es r es1 rs es2 :
      spec_op c o es r es1 → spec_ops c os es1 rs es2 → spec_ops c (o :: os) es (r :: rs) es2.

Lemma empty_represents c :
  1 ≤ c < NIL →
  represents {| cap := c; map_ := ∅; nodes := []; free := []; head := NIL; tail := NIL; len := 0 |} [].
Proof.
  intros Hc. exists []. split; [|constructor].
  assert (Hn : ∀ i, node_at (K:=K) (V:=V) [] i = None).
  { intros i. unfold node_at, get. by destruct (i <? 0). }
  constructor; cbn [nodes free cap len head tail map_]; try done; try (by constructor).
  - intros i. rewrite Hn. split; [by intros ?%elem_of_nil|by intros [? ?]].
  - intros i. split; [by intros ?%elem_of_nil|]. unfold zlen. simpl. lia.
  - unfold zlen. simpl. lia.
  - unfold zlen. simpl. lia.
  - intros i j n n' Hi. by rewrite Hn in Hi.
  - intros h. exists []. rewrite lookup_empty. split_and!; [done|constructor|]. intros i. split.
    + by intros ?%elem_of_nil.
    + intros (n & Hi & _). by rewrite Hn in Hi.
Qed.

Lemma clear_represents m es : represents m es → represents (LruMap_clear m) [].
Proof. intros (l & Hr & _). apply empty_represents. apply (rep_cap _ _ Hr). Qed.

Lemma new_represents c m : LruMap_new (K:=K) (V:=V) c = Some m → cap m = Z.max c 1 ∧ represents m [].
Proof.
  unfold LruMap_new. cbv zeta. destruct (Z.ltb_spec (Z.max c 1) NIL) as [Hc|]; [|done].
  intros [= <-]. split; [done|]. apply empty_represents. lia.
Qed.

Lemma run_op_spec o m es :
  represents m es →
  ∃ r m' es', run_op o m = Some (r, m') ∧ same_cap m m' ∧ represents m' es' ∧
    spec_op (cap m) o es r es'.
Proof.
  intros H. destruct o; simpl.
  - destruct (get_spec m es k H) as (m' & -> & ? & ?). eexists _, m', _. by split_and!; [..|constructor].
  - destruct (get_mut_spec m es k f H) as (m' & -> & ? & ?). eexists _, m', _. by split_and!; [..|constructor].
  - rewrite (peek_spec m es k H). eexists _, m, es. by split_and!; [..|constructor].
  - rewrite (contains_key_spec m es k H). eexists _, m, es. by split_and!; [..|constructor].
  - destruct (put_spec m es grow k v H) as (m' & es' & -> & ? & ? & ?). eexists _, m', _. by split_and!; [..|constructor].
  - destruct (pop_spec m es k H) as (m' & -> & ? & ?). eexists _, m', _. by split_and!; [..|constructor].
  - destruct (pop_lru_spec m es H) as (m' & -> & ? & ? & _). eexists _, m', _. by split_and!; [..|constructor].
  - eexists _, _, _. split_and!; [done|done|by eapply clear_represents|constructor].
  - eexists _, m, es. split_and!; [done|done|done|]. unfold LruMap_len. rewrite (represents_len m es H). constructor.
Qed.

Lemma run_ops_spec os : ∀ m es,
  represents m es →
  ∃ rs m' es', run_ops os m = Some (rs, m') ∧ same_cap m m' ∧ represents m' es' ∧
    spec_ops (cap m) os es rs es'.
Proof.
  induction os as [|o os IH]; intros m es H; simpl.
  - eexists [], m, es. split_and!; [done|done|done|constructor].
  - destruct (run_op_spec o m es H) as (r & m1 & es1 & -> & Hc & H1 & Hs). simpl.
    destruct (IH m1 es1 H1) as (rs & m2 & es2 & -> & Hc2 & H2 & Hs2). simpl.
    eexists _, _, _. split_and!; [done|unfold same_cap in *; congruence|done|].
    econstructor; [done|]. by rewrite <-Hc.
Qed.

End Spec.
