(* ===== verification/Acl.v ===== *)
(** * Networks and access control
    ([onetdns-core/src/ipnet.rs], [onetdns-security/src/acl.rs], [subnet.rs])

    Addresses are the integers that [u32::from] and [u128::from] give.  Reading
    an address from text is the standard library's and a parameter here. *)

From S2P Require Import Prelude.

(** [std::net::IpAddr]. *)
Inductive IpAddr : Type :=
  | V4 (bits : Z)
  | V6 (bits : Z).

#[export] Instance IpAddr_eq_dec : EqDecision IpAddr.
Proof. solve_decision. Defined.

Definition addr_ok (a : IpAddr) : Prop :=
  match a with V4 b => 0 ≤ b < 2 ^ 32 | V6 b => 0 ≤ b < 2 ^ 128 end.

(** [struct IpNet]. *)
Record IpNet : Type := mkIpNet { network : IpAddr; prefix : Z }.

(** [v4_mask] and [v6_mask]; [<<] drops the bits beyond the width. *)
Definition v4_mask (p : Z) : Z :=
  if p =? 0 then 0 else if 32 <=? p then 2 ^ 32 - 1 else Z.shiftl (2 ^ 32 - 1) (32 - p) mod 2 ^ 32.
Definition v6_mask (p : Z) : Z :=
  if p =? 0 then 0 else if 128 <=? p then 2 ^ 128 - 1 else Z.shiftl (2 ^ 128 - 1) (128 - p) mod 2 ^ 128.

(** [IpNet::contains]. *)
Definition IpNet_contains (n : IpNet) (addr : IpAddr) : bool :=
  match network n, addr with
  | V4 net, V4 ip => let m := v4_mask (prefix n) in Z.land net m =? Z.land ip m
  | V6 net, V6 ip => let m := v6_mask (prefix n) in Z.land net m =? Z.land ip m
  | _, _ => false
  end.

(** [mask_addr]. *)
Definition mask_addr (addr : IpAddr) (p : Z) : IpAddr :=
  match addr with
  | V4 v4 => V4 (Z.land v4 (v4_mask p))
  | V6 v6 => V6 (Z.land v6 (v6_mask p))
  end.

(** [str::split_once('/')]. *)
Fixpoint split_slash (s : list Z) : option (list Z * list Z) :=
  match s with
  | [] => None
  | c :: s =>
      if c =? 47 then Some ([], s)
      else match split_slash s with Some (a, b) => Some (c :: a, b) | None => None end
  end.

(** [str::parse::<u8>]: an optional plus sign, then digits, at most 255. *)
Fixpoint parse_digits (s : list Z) (v : Z) : option Z :=
  match s with
  | [] => Some v
  | c :: s =>
      if (48 <=? c) && (c <=? 57) then
        let v := v * 10 + (c - 48) in
        if v <=? U8_MAX then parse_digits s v else None
      else None
  end.
Definition parse_u8 (s : list Z) : option Z :=
  match s with
  | [] => None
  | 43 :: [] => None
  | 43 :: s => parse_digits s 0
  | s => parse_digits s 0
  end.

Section FromStr.
(** [str::parse::<IpAddr>]. *)
Variable parse_addr : list Z → option IpAddr.

(** [IpNet::from_str]. *)
Definition IpNet_from_str (s : list Z) : option IpNet :=
  let '(addr_str, prefix_str) :=
    match split_slash s with Some (a, p) => (a, Some p) | None => (s, None) end in
  match parse_addr addr_str with
  | None => None
  | Some addr =>
      let max := match addr with V4 _ => 32 | V6 _ => 128 end in
      match match prefix_str with Some p => parse_u8 p | None => Some max end with
      | None => None
      | Some p => if max <? p then None else Some (mkIpNet (mask_addr addr p) p)
      end
  end.
End FromStr.

(** [enum AclDecision]. *)
Inductive AclDecision : Type := Allow | Deny.

(** What the access control reads of [struct ClientInfo]. *)
Record ClientInfo : Type := mkClientInfo { source_ip : IpAddr; client_id : option string }.

(** [struct IpAcl]. *)
Record IpAcl : Type := mkIpAcl {
  allow : list IpNet;
  deny : list IpNet;
  allow_ids : list string;
  deny_ids : list string;
  default_allow : bool;
}.

(** [IpAcl::new], [IpAcl::with_ids] and [IpAcl::allow_all]. *)
Definition IpAcl_new (al de : list IpNet) (d : bool) : IpAcl := mkIpAcl al de [] [] d.
Definition IpAcl_with_ids (a : IpAcl) (al de : list string) : IpAcl :=
  mkIpAcl (allow a) (deny a) al de (default_allow a).
Definition IpAcl_allow_all : IpAcl := IpAcl_new [] [] true.

(** [IpAcl::contained]. *)
Definition contained (nets : list IpNet) (ip : IpAddr) : bool := existsb (λ n, IpNet_contains n ip) nets.

Definition listed (ids : list string) (id : option string) : bool :=
  match id with Some id => existsb (λ x, bool_decide (x = id)) ids | None => false end.

(** [IpAcl::check]. *)
Definition IpAcl_check (a : IpAcl) (c : ClientInfo) : AclDecision :=
  let ip := source_ip c in
  let id := client_id c in
  if contained (deny a) ip then Deny
  else if listed (deny_ids a) id then Deny
  else if contained (allow a) ip then Allow
  else if listed (allow_ids a) id then Allow
  else if default_allow a then Allow else Deny.

(** [IpAcl::is_trivially_allow]. *)
Definition IpAcl_is_trivially_allow (a : IpAcl) : bool :=
  default_allow a && bool_decide (deny a = []) && bool_decide (deny_ids a = []).

(** The prefixes of [struct SubnetRateLimiter], as [SubnetRateLimiter::new]
    clamps them, and its [key]. *)
Record subnet_prefixes : Type := mkPrefixes { v4_prefix : Z; v6_prefix : Z }.
Definition subnet_new (p4 p6 : Z) : subnet_prefixes := mkPrefixes (Z.min p4 32) (Z.min p6 128).
Definition subnet_key (s : subnet_prefixes) (ip : IpAddr) : IpAddr :=
  match ip with
  | V4 v4 =>
      let mask := if v4_prefix s =? 0 then 0 else Z.shiftl (2 ^ 32 - 1) (32 - v4_prefix s) mod 2 ^ 32 in
      V4 (Z.land v4 mask)
  | V6 v6 =>
      let mask := if v6_prefix s =? 0 then 0 else Z.shiftl (2 ^ 128 - 1) (128 - v6_prefix s) mod 2 ^ 128 in
      V6 (Z.land v6 mask)
  end.

(** ** The masks *)

(** A mask of [p] leading ones out of [w]. *)
Lemma land_mask w p v :
  0 < w → 0 ≤ p ≤ w → 0 ≤ v < 2 ^ w →
  Z.land v (if p =? 0 then 0 else Z.shiftl (2 ^ w - 1) (w - p) mod 2 ^ w) = v / 2 ^ (w - p) * 2 ^ (w - p).
Proof.
  intros Hw Hp Hv. destruct (Z.eqb_spec p 0) as [->|Hne].
  - rewrite Z.land_0_r, Z.sub_0_r, Z.div_small by done. done.
  - apply Z.bits_inj'. intros k Hk. rewrite Z.land_spec.
    rewrite <-!Z.shiftl_mul_pow2, <-Z.shiftr_div_pow2, !Z.shiftl_spec by lia.
    replace (2 ^ w - 1) with (Z.ones w) by (rewrite Z.ones_equiv; lia).
    destruct (Z.lt_ge_cases k w) as [Hkw|Hkw].
    + rewrite Z.mod_pow2_bits_low, Z.shiftl_spec by lia.
      destruct (Z.lt_ge_cases k (w - p)).
      * rewrite !(Z.testbit_neg_r _ (k - (w - p))) by lia. apply andb_false_r.
      * rewrite Z.ones_spec_low, andb_true_r, Z.shiftr_spec by lia. f_equal. lia.
    + rewrite Z.mod_pow2_bits_high, andb_false_r by lia. rewrite Z.shiftr_spec by lia. symmetry.
      replace (k - (w - p) + (w - p)) with k by lia.
      rewrite <-(Z.mod_small v (2 ^ w)) by done. by rewrite Z.mod_pow2_bits_high by lia.
Qed.

Lemma v4_mask_spec p v : 0 ≤ p ≤ 32 → 0 ≤ v < 2 ^ 32 → Z.land v (v4_mask p) = v / 2 ^ (32 - p) * 2 ^ (32 - p).
Proof.
  intros Hp Hv. rewrite <-land_mask by lia. f_equal. unfold v4_mask. destruct (p =? 0); [done|].
  destruct (Z.leb_spec 32 p); [|done]. by replace p with 32 by lia.
Qed.

Lemma v6_mask_spec p v : 0 ≤ p ≤ 128 → 0 ≤ v < 2 ^ 128 → Z.land v (v6_mask p) = v / 2 ^ (128 - p) * 2 ^ (128 - p).
Proof.
  intros Hp Hv. rewrite <-land_mask by lia. f_equal. unfold v6_mask. destruct (p =? 0); [done|].
  destruct (Z.leb_spec 128 p); [|done]. by replace p with 128 by lia.
Qed.

(** The leading bits of an address. *)
Definition leading (p : Z) (a : IpAddr) : Z :=
  match a with V4 b => b / 2 ^ (32 - p) | V6 b => b / 2 ^ (128 - p) end.
Definition same_family (a b : IpAddr) : Prop :=
  match a, b with V4 _, V4 _ | V6 _, V6 _ => True | _, _ => False end.
Definition width (a : IpAddr) : Z := match a with V4 _ => 32 | V6 _ => 128 end.

Definition net_ok (n : IpNet) : Prop := addr_ok (network n) ∧ 0 ≤ prefix n ≤ width (network n).

Lemma mul_pow_inj a b n : 0 ≤ n → a * 2 ^ n = b * 2 ^ n ↔ a = b.
Proof. intros Hn. assert (0 < 2 ^ n) by (apply Z.pow_pos_nonneg; lia). split; [nia|by intros ->]. Qed.

Lemma contains_spec n a :
  net_ok n → addr_ok a →
  IpNet_contains n a = true ↔ same_family (network n) a ∧ leading (prefix n) (network n) = leading (prefix n) a.
Proof.
  destruct n as [[net|net] p], a as [ip|ip]; unfold net_ok, IpNet_contains; cbn [network prefix addr_ok width same_family leading];
    intros [Hn Hp] Ha; cbv zeta; [|split; [done|tauto]..|].
  - rewrite Z.eqb_eq, !v4_mask_spec, mul_pow_inj by lia. tauto.
  - rewrite Z.eqb_eq, !v6_mask_spec, mul_pow_inj by lia. tauto.
Qed.

Lemma mask_addr_ok a p :
  addr_ok a → 0 ≤ p ≤ width a →
  addr_ok (mask_addr a p) ∧ same_family (mask_addr a p) a ∧ leading p (mask_addr a p) = leading p a ∧
  mask_addr (mask_addr a p) p = mask_addr a p.
Proof.
  assert (H : ∀ w v, 0 ≤ p ≤ w → 0 ≤ v < 2 ^ w →
    0 ≤ v / 2 ^ (w - p) * 2 ^ (w - p) < 2 ^ w ∧ v / 2 ^ (w - p) * 2 ^ (w - p) / 2 ^ (w - p) = v / 2 ^ (w - p)).
  { intros w v Hp Hv. assert (0 < 2 ^ (w - p)) by (apply Z.pow_pos_nonneg; lia).
    rewrite Z.div_mul by lia. split; [|done]. pose proof (Z.div_mod v (2 ^ (w - p)) ltac:(lia)).
    pose proof (Z.mod_pos_bound v (2 ^ (w - p))). pose proof (Z.div_pos v (2 ^ (w - p))). nia. }
  destruct a as [v|v]; cbn [addr_ok width mask_addr same_family leading]; intros Ha Hp.
  - rewrite !v4_mask_spec by (try apply H; done || lia).
    destruct (H 32 v Hp Ha) as [H1 H2]. rewrite !H2. done.
  - rewrite !v6_mask_spec by (try apply H; done || lia).
    destruct (H 128 v Hp Ha) as [H1 H2]. rewrite !H2. done.
Qed.

Lemma parse_digits_range s : ∀ v r, 0 ≤ v → parse_digits s v = Some r → 0 ≤ r.
Proof.
  induction s as [|c s IH]; intros v r Hv; simpl; [by intros [= <-]|].
  destruct (_ && _) eqn:Hd; [|done]. bool_prop. destruct (_ <=? U8_MAX); [|done]. apply IH. lia.
Qed.

Lemma parse_u8_range s r : parse_u8 s = Some r → 0 ≤ r.
Proof.
  unfold parse_u8. destruct s as [|c s]; [done|].
  assert (H : ∀ l, parse_digits l 0 = Some r → 0 ≤ r) by (intros l; by apply parse_digits_range).
  intros Hs. repeat (case_match; try done); by eapply H.
Qed.

(** What is read is a network with its host bits cleared, which holds the
    address that was written. *)
Lemma from_str_spec parse_addr s n :
  (∀ t a, parse_addr t = Some a → addr_ok a) → IpNet_from_str parse_addr s = Some n →
  net_ok n ∧ mask_addr (network n) (prefix n) = network n ∧
  ∃ a, parse_addr (match split_slash s with Some (t, _) => t | None => s end) = Some a ∧ IpNet_contains n a = true.
Proof.
  intros Hpa. unfold IpNet_from_str.
  set (t := match split_slash s with Some (t, _) => t | None => s end).
  assert (Ht : (let '(addr_str, prefix_str) := match split_slash s with Some (a, p) => (a, Some p) | None => (s, None) end in
    addr_str) = t) by (unfold t; by destruct (split_slash s) as [[]|]).
  destruct (match split_slash s with Some (a, p) => (a, Some p) | None => (s, None) end) as [addr_str prefix_str].
  subst addr_str. destruct (parse_addr t) as [a|] eqn:Ha; [|done]. pose proof (Hpa _ _ Ha) as Hok. cbv zeta.
  change (match a with V4 _ => 32 | V6 _ => 128 end) with (width a).
  destruct (match prefix_str with Some p => parse_u8 p | None => Some (width a) end) as [p|] eqn:Hp; [|done].
  assert (Hp0 : 0 ≤ p).
  { destruct prefix_str; [by eapply parse_u8_range|]. injection Hp as <-. by destruct a. }
  destruct (Z.ltb_spec (width a) p); [done|]. intros [= <-].
  destruct (mask_addr_ok a p Hok ltac:(lia)) as (Hmo & Hfam & Hlead & Hidem).
  assert (Hw : width (mask_addr a p) = width a) by by destruct a.
  assert (Hnet : net_ok (mkIpNet (mask_addr a p) p)) by (split; [done|simpl; lia]).
  split; [done|]. split; [done|]. exists a. split; [done|]. by apply contains_spec.
Qed.

(** ** Decisions *)

Lemma check_spec a c :
  IpAcl_check a c = Allow ↔
  contained (deny a) (source_ip c) = false ∧ listed (deny_ids a) (client_id c) = false ∧
  (contained (allow a) (source_ip c) = true ∨ listed (allow_ids a) (client_id c) = true ∨ default_allow a = true).
Proof.
  unfold IpAcl_check. cbv zeta.
  destruct (contained (deny a) _), (listed (deny_ids a) _), (contained (allow a) _), (listed (allow_ids a) _), (default_allow a);
    naive_solver.
Qed.

Lemma subnet_key_mask p4 p6 ip :
  0 ≤ p4 → 0 ≤ p6 → addr_ok ip →
  subnet_key (subnet_new p4 p6) ip = mask_addr ip (match ip with V4 _ => Z.min p4 32 | V6 _ => Z.min p6 128 end).
Proof.
  intros H4 H6. destruct ip as [v|v]; cbn [addr_ok subnet_key subnet_new v4_prefix v6_prefix mask_addr]; intros Hv; cbv zeta.
  - rewrite v4_mask_spec, land_mask by lia. done.
  - rewrite v6_mask_spec, land_mask by lia. done.
Qed.
