(* ===== verification/Cookie.v ===== *)
(** * SipHash and DNS cookies ([onetdns-security/src/siphash.rs], [cookie.rs])

    [Siphash] is the keyed hash with its buffered tail, and the hash of a whole
    message that it computes however the message is cut.  The cookies of
    servers are the hash of the client's cookie, the time and the address: a
    server recognises its own and keeps nothing. *)

From S2P Require Import Prelude Acl.

(** [u64::from_le_bytes] and [u64::to_le_bytes]. *)
Fixpoint le_val (bs : list Z) : Z :=
  match bs with
  | [] => 0
  | b :: bs => Z.lor b (Z.shiftl (le_val bs) 8)
  end.
Definition u64_to_le (v : Z) : list Z := rev (u64_to_be v).

Module Siphash.

(** [u64::wrapping_add] and [u64::rotate_left]. *)
Definition wrapping_add (a b : Z) : Z := (a + b) mod 2 ^ 64.
Definition rotate_left (v n : Z) : Z := Z.lor (u64_shl v n) (Z.shiftr v (64 - n)).

(** The four words of the state that are mixed. *)
Definition words : Type := (Z * Z * Z * Z)%type.

(** [sipround]. *)
Definition sipround (s : words) : words :=
  let '(v0, v1, v2, v3) := s in
  let v0 := wrapping_add v0 v1 in
  let v1 := rotate_left v1 13 in
  let v1 := Z.lxor v1 v0 in
  let v0 := rotate_left v0 32 in
  let v2 := wrapping_add v2 v3 in
  let v3 := rotate_left v3 16 in
  let v3 := Z.lxor v3 v2 in
  let v0 := wrapping_add v0 v3 in
  let v3 := rotate_left v3 21 in
  let v3 := Z.lxor v3 v0 in
  let v2 := wrapping_add v2 v1 in
  let v1 := rotate_left v1 17 in
  let v1 := Z.lxor v1 v2 in
  let v2 := rotate_left v2 32 in
  (v0, v1, v2, v3).

(** [for _ in 0..n { sipround(..) }]. *)
Fixpoint siprounds (n : nat) (s : words) : words :=
  match n with O => s | S n => siprounds n (sipround s) end.

(** [struct SipHasher]; its parameters are those of [write] and [finish]. *)
Record SipHasher : Type := mkSipHasher {
  v0 : Z;
  v1 : Z;
  v2 : Z;
  v3 : Z;
  tail : Z;
  ntail : Z;
  total : Z;
}.

(** [SipHasher::new_with_keys]. *)
Definition new_with_keys (k0 k1 : Z) : SipHasher :=
  mkSipHasher (Z.lxor k0 0x736f6d6570736575) (Z.lxor k1 0x646f72616e646f6d)
              (Z.lxor k0 0x6c7967656e657261) (Z.lxor k1 0x7465646279746573) 0 0 0.

(** The octets of a block that is not full, shifted into place. *)
Fixpoint or_bytes (shift : Z) (bs : list Z) (acc : Z) : Z :=
  match bs with
  | [] => acc
  | b :: bs => or_bytes (shift + 8) bs (Z.lor acc (u64_shl b shift))
  end.

Section hasher.
(** The rounds of a block and of the end. *)
Context (C D : nat).

(** [SipHasher::compress]. *)
Definition compress (m : Z) (h : SipHasher) : SipHasher :=
  let '(w0, w1, w2, w3) := siprounds C (v0 h, v1 h, v2 h, Z.lxor (v3 h) m) in
  mkSipHasher (Z.lxor w0 m) w1 w2 w3 (tail h) (ntail h) (total h).

(** The loop over [chunks_exact(8)]. *)
Fixpoint compress_chunks (n : nat) (rest : list Z) (h : SipHasher) : SipHasher :=
  match n with
  | O => h
  | S n => compress_chunks n (drop 8 rest) (compress (le_val (take 8 rest)) h)
  end.

(** The second half of [SipHasher::write]: whole blocks, then the new tail. *)
Definition write_blocks (rest : list Z) (h : SipHasher) : SipHasher :=
  let nchunks := zlen rest / 8 in
  let h := compress_chunks (Z.to_nat nchunks) rest h in
  let leftover := drop (Z.to_nat (nchunks * 8)) rest in
  mkSipHasher (v0 h) (v1 h) (v2 h) (v3 h) (or_bytes 0 leftover 0) (zlen leftover) (total h).

(** [SipHasher::write]. *)
Definition write (msg : list Z) (h : SipHasher) : SipHasher :=
  let len := zlen msg in
  let h := mkSipHasher (v0 h) (v1 h) (v2 h) (v3 h) (tail h) (ntail h) ((total h + len) mod 2 ^ 64) in
  if negb (ntail h =? 0) then
    let needed := 8 - ntail h in
    let taken := Z.min needed len in
    let add := or_bytes (8 * ntail h) (take (Z.to_nat taken) msg) 0 in
    let t := Z.lor (tail h) add in
    if taken <? needed then
      mkSipHasher (v0 h) (v1 h) (v2 h) (v3 h) t (ntail h + taken) (total h)
    else
      let h := compress t h in
      write_blocks (drop (Z.to_nat taken) msg) (mkSipHasher (v0 h) (v1 h) (v2 h) (v3 h) 0 0 (total h))
  else write_blocks msg h.

(** [SipHasher::finish]. *)
Definition finish (h : SipHasher) : Z :=
  let b := Z.lor (u64_shl (Z.land (total h) 0xff) 56) (tail h) in
  let '(w0, w1, w2, w3) := siprounds C (v0 h, v1 h, v2 h, Z.lxor (v3 h) b) in
  let '(w0, w1, w2, w3) := siprounds D (Z.lxor w0 b, w1, Z.lxor w2 0xff, w3) in
  Z.lxor (Z.lxor (Z.lxor w0 w1) w2) w3.

(** ** The hash of a message

    The message, zeros up to seven octets of a block and its length in the
    eighth; the blocks are mixed in from the left. *)
Definition padded (m : list Z) : list Z :=
  m ++ replicate (7 - length m mod 8) 0 ++ [zlen m mod 256].

Fixpoint blocks (n : nat) (m : list Z) : list Z :=
  match n with O => [] | S n => le_val (take 8 m) :: blocks n (drop 8 m) end.

Definition mix (s : words) (m : Z) : words :=
  let '(w0, w1, w2, w3) := s in
  let '(w0, w1, w2, w3) := siprounds C (w0, w1, w2, Z.lxor w3 m) in
  (Z.lxor w0 m, w1, w2, w3).

Definition keyed (k0 k1 : Z) : words :=
  (Z.lxor k0 0x736f6d6570736575, Z.lxor k1 0x646f72616e646f6d,
   Z.lxor k0 0x6c7967656e657261, Z.lxor k1 0x7465646279746573).

Definition siphash (k0 k1 : Z) (m : list Z) : Z :=
  let '(w0, w1, w2, w3) := fold_left mix (blocks (S (length m / 8)) (padded m)) (keyed k0 k1) in
  let '(w0, w1, w2, w3) := siprounds D (w0, w1, Z.lxor w2 0xff, w3) in
  Z.lxor (Z.lxor (Z.lxor w0 w1) w2) w3.

End hasher.
End Siphash.

(** ** Little-endian words *)

Lemma le_val_cons b bs : is_u8 b → le_val (b :: bs) = b + 256 * le_val bs.
Proof.
  unfold is_u8, U8_MAX. intros Hb. cbn [le_val]. rewrite Z.lor_comm, lor_shiftl_add by lia. lia.
Qed.

Lemma le_val_bound bs : is_bytes bs → 0 ≤ le_val bs < 256 ^ zlen bs.
Proof.
  induction 1 as [|b bs Hb _ IH]; [by vm_compute|].
  rewrite le_val_cons, zlen_cons, Z.pow_add_r by (done || pose proof (zlen_nonneg bs); lia).
  unfold is_u8, U8_MAX in Hb. lia.
Qed.

Lemma le_val_app a b : is_bytes a → le_val (a ++ b) = le_val a + 256 ^ zlen a * le_val b.
Proof.
  induction 1 as [|x a Hx _ IH]; [change (256 ^ zlen []) with 1; cbn [app le_val]; lia|]. cbn [app]. rewrite !le_val_cons, IH, zlen_cons by done.
  rewrite Z.pow_add_r by (pose proof (zlen_nonneg a); lia). lia.
Qed.

Lemma le_val_zeros n : le_val (replicate n 0) = 0.
Proof. induction n as [|n IH]; [done|]. cbn [replicate le_val]. by rewrite IH. Qed.

Lemma zlen_u64_to_le v : zlen (u64_to_le v) = 8.
Proof. done. Qed.

Module SiphashSpec.
Import Siphash.

(** Octets that are or-ed in above the ones that are there add up. *)
Lemma or_bytes_spec bs : ∀ off acc,
  is_bytes bs → 0 ≤ off → off + zlen bs ≤ 8 → 0 ≤ acc < 256 ^ off →
  or_bytes (8 * off) bs acc = acc + 256 ^ off * le_val bs.
Proof.
  induction bs as [|b bs IH]; intros off acc Hbs Hoff Hlen Hacc; [cbn [or_bytes le_val]; lia|].
  inversion Hbs as [|? ? Hb Hbs']; subst. rewrite zlen_cons in Hlen. pose proof (zlen_nonneg bs).
  assert (Hp : 256 ^ off = 2 ^ (8 * off)) by (rewrite Z.pow_mul_r by lia; reflexivity).
  assert (Hmax : 256 ^ (off + 1) ≤ 256 ^ 8) by (apply Z.pow_le_mono_r; lia).
  rewrite Z.pow_add_r in Hmax by lia. pose proof Hb as Hb'. unfold is_u8, U8_MAX in Hb'.
  assert (Hshl : u64_shl b (8 * off) = Z.shiftl b (8 * off)).
  { unfold u64_shl. apply Z.mod_small. rewrite Z.shiftl_mul_pow2, <- Hp by lia. change (2 ^ 64) with (256 ^ 8). nia. }
  cbn [or_bytes]. rewrite Hshl, Z.lor_comm, lor_shiftl_add, <- Hp by lia.
  replace (8 * off + 8) with (8 * (off + 1)) by lia.
  rewrite IH, le_val_cons by (done || lia || (rewrite Z.pow_add_r by lia; nia)).
  rewrite Z.pow_add_r by lia. lia.
Qed.

Lemma blocks_app n k a b : length a = (8 * n)%nat → blocks (n + k) (a ++ b) = blocks n a ++ blocks k b.
Proof.
  revert a. induction n as [|n IH]; intros a Ha; [by destruct a|]. cbn [Nat.add blocks app].
  rewrite take_app_le, drop_app_le by lia. by rewrite IH by (rewrite length_drop; lia).
Qed.

Lemma blocks_take n m : blocks n (take (8 * n) m) = blocks n m.
Proof.
  revert m. induction n as [|n IH]; intros m; [done|]. cbn [blocks].
  rewrite take_take, skipn_firstn_comm. replace (8 `min` (8 * S n))%nat with 8%nat by lia.
  replace (8 * S n - 8)%nat with (8 * n)%nat by lia. by rewrite IH.
Qed.

Section hasher.
Context (C D : nat).

Definition state (h : SipHasher) : words := (v0 h, v1 h, v2 h, v3 h).

Lemma compress_state m h :
  state (compress C m h) = mix C (state h) m ∧ total (compress C m h) = total h.
Proof. unfold compress, mix, state. by destruct (siprounds C _) as [[[w0 w1] w2] w3]. Qed.

Lemma compress_chunks_state n : ∀ rest h,
  state (compress_chunks C n rest h) = fold_left (mix C) (blocks n rest) (state h)
  ∧ total (compress_chunks C n rest h) = total h.
Proof.
  induction n as [|n IH]; intros rest h; [done|]. cbn [compress_chunks blocks fold_left].
  destruct (IH (drop 8 rest) (compress C (le_val (take 8 rest)) h)) as [-> ->].
  by destruct (compress_state (le_val (take 8 rest)) h) as [-> ->].
Qed.

(** The hasher has taken in [m]: the whole blocks of [m] are mixed, the octets
    after them wait in the tail. *)
Definition absorbed (k0 k1 : Z) (m : list Z) (h : SipHasher) : Prop :=
  is_bytes m ∧ total h = zlen m mod 2 ^ 64 ∧
  ∃ n full part, m = full ++ part ∧ length full = (8 * n)%nat ∧ (length part < 8)%nat ∧
    state h = fold_left (mix C) (blocks n full) (keyed k0 k1) ∧ tail h = le_val part ∧ ntail h = zlen part.

Lemma absorbed_new k0 k1 : absorbed k0 k1 [] (new_with_keys k0 k1).
Proof. split; [by constructor|]. split; [done|]. exists O, [], []. split_and!; try done. simpl. lia. Qed.

(** Whole blocks and a tail, after whole blocks. *)
Lemma write_blocks_absorbed k0 k1 n full rest h :
  is_bytes (full ++ rest) → length full = (8 * n)%nat → state h = fold_left (mix C) (blocks n full) (keyed k0 k1) →
  total h = zlen (full ++ rest) mod 2 ^ 64 → absorbed k0 k1 (full ++ rest) (write_blocks C rest h).
Proof.
  intros Hb Hfull Hst Htot. unfold write_blocks.
  assert (Hq : Z.to_nat (zlen rest / 8) = (length rest / 8)%nat).
  { unfold zlen. change 8 with (Z.of_nat 8) at 1. by rewrite <- Nat2Z.inj_div, Nat2Z.id. }
  assert (Hq8 : Z.to_nat (zlen rest / 8 * 8) = (8 * (length rest / 8))%nat).
  { rewrite Z2Nat.inj_mul by (try apply Z.div_pos; unfold zlen; lia). rewrite Hq. lia. }
  rewrite Hq, Hq8. set (k := (length rest / 8)%nat). pose proof (Nat.div_mod_eq (length rest) 8) as Hdm. fold k in Hdm.
  pose proof (Nat.mod_upper_bound (length rest) 8 ltac:(done)) as Hmod.
  destruct (compress_chunks_state k rest h) as [Hcs Hct].
  split; [done|]. split; [by rewrite Hct|].
  exists (n + k)%nat, (full ++ take (8 * k) rest), (drop (8 * k) rest).
  assert (Hrest : is_bytes (drop (8 * k) rest)) by (apply Forall_drop; by apply Forall_app in Hb as [_ ?]).
  split_and!.
  - by rewrite <- app_assoc, take_drop.
  - rewrite length_app, length_take. lia.
  - rewrite length_drop. lia.
  - change (state _) with (state (compress_chunks C k rest h)). rewrite Hcs, Hst, blocks_app, fold_left_app by done.
    by rewrite blocks_take.
  - cbn [tail]. pose proof (or_bytes_spec (drop (8 * k) rest) 0 0 Hrest ltac:(lia)) as Hor.
    change (8 * 0) with 0 in Hor. change (256 ^ 0) with 1 in Hor. rewrite Hor; [lia| |lia]. unfold zlen. rewrite length_drop. lia.
  - done.
Qed.

(** One call, whatever the calls before it left in the tail. *)
Lemma write_absorbed k0 k1 m msg h :
  is_bytes msg → absorbed k0 k1 m h → absorbed k0 k1 (m ++ msg) (write C msg h).
Proof.
  intros Hmsg (Hm & Htot & n & full & part & -> & Hfull & Hpart & Hst & Htail & Hnt).
  assert (Hbytes : is_bytes ((full ++ part) ++ msg)) by (by apply Forall_app).
  assert (Htot' : (total h + zlen msg) mod 2 ^ 64 = zlen ((full ++ part) ++ msg) mod 2 ^ 64).
  { rewrite Htot, (zlen_app (full ++ part)). by rewrite Zplus_mod_idemp_l. }
  unfold write. cbn [ntail tail total v0 v1 v2 v3]. rewrite Hnt. destruct (Z.eqb_spec (zlen part) 0) as [Hz|Hnz]; cbn [negb].
  { destruct part; [|rewrite zlen_cons in Hz; pose proof (zlen_nonneg part); lia].
    rewrite app_nil_r in *. by apply (write_blocks_absorbed k0 k1 n). }
  assert (Hp : 0 < zlen part < 8) by (unfold zlen in *; lia). pose proof (zlen_nonneg msg).
  set (k := Z.min (8 - zlen part) (zlen msg)).
  assert (Hpb : is_bytes part) by (by apply Forall_app in Hm as [_ ?]).
  assert (Htake : is_bytes (take (Z.to_nat k) msg)) by (by apply Forall_take).
  assert (Hzt : zlen (take (Z.to_nat k) msg) = k) by (unfold zlen in *; rewrite length_take; lia).
  assert (Hlor : Z.lor (tail h) (or_bytes (8 * zlen part) (take (Z.to_nat k) msg) 0) = le_val (part ++ take (Z.to_nat k) msg)).
  { pose proof (le_val_bound part Hpb) as Hbound.
    assert (H256 : 256 ^ zlen part = 2 ^ (8 * zlen part)) by (rewrite Z.pow_mul_r by lia; reflexivity).
    rewrite Htail, (or_bytes_spec (take (Z.to_nat k) msg) (zlen part) 0) by (done || lia || (rewrite H256; lia)).
    rewrite le_val_app, Z.lor_comm, Z.add_0_l, Z.mul_comm, H256 by done.
    rewrite <- Z.shiftl_mul_pow2 by lia. rewrite lor_shiftl_add by (rewrite <- ?H256; lia).
    rewrite Z.shiftl_mul_pow2 by lia. lia. }
  destruct (Z.ltb_spec k (8 - zlen part)) as [Hk|Hk].
  - assert (Hall : take (Z.to_nat k) msg = msg) by (apply take_ge; unfold zlen in *; lia). rewrite Hall in *.
    split; [done|]. split; [done|]. exists n, full, (part ++ msg).
    split_and!; [by rewrite app_assoc|done| |done|done|cbn [ntail]; rewrite zlen_app; lia].
    rewrite length_app. unfold zlen in *. lia.
  - assert (Hsplit : (full ++ part) ++ msg = (full ++ part ++ take (Z.to_nat k) msg) ++ drop (Z.to_nat k) msg)
      by (rewrite <- !app_assoc; by rewrite (take_drop (Z.to_nat k) msg)).
    rewrite Hsplit in Hbytes, Htot' |- *. apply (write_blocks_absorbed k0 k1 (n + 1)); [done| | |].
    + rewrite !length_app, Hfull. unfold zlen in *. lia.
    + destruct (compress_state (Z.lor (tail h) (or_bytes (8 * zlen part) (take (Z.to_nat k) msg) 0))
        (mkSipHasher (v0 h) (v1 h) (v2 h) (v3 h) (tail h) (zlen part) ((total h + zlen msg) mod 2 ^ 64))) as [Hs _].
      etransitivity; [exact Hs|]. rewrite blocks_app, fold_left_app by done.
      change (state (mkSipHasher (v0 h) (v1 h) (v2 h) (v3 h) (tail h) (zlen part) ((total h + zlen msg) mod 2 ^ 64))) with (state h).
      rewrite Hst, Hlor. cbn [blocks fold_left]. rewrite (take_ge (part ++ _)); [done|]. rewrite length_app. unfold zlen in *. lia.
    + etransitivity; [|exact Htot'].
      by destruct (compress_state (Z.lor (tail h) (or_bytes (8 * zlen part) (take (Z.to_nat k) msg) 0))
        (mkSipHasher (v0 h) (v1 h) (v2 h) (v3 h) (tail h) (zlen part) ((total h + zlen msg) mod 2 ^ 64))) as [_ ?].
Qed.

Lemma writes_absorbed k0 k1 parts : ∀ m h,
  Forall is_bytes parts → absorbed k0 k1 m h →
  absorbed k0 k1 (m ++ concat parts) (fold_left (λ h p, write C p h) parts h).
Proof.
  induction parts as [|p parts IH]; intros m h Hp Hh; cbn [concat fold_left]; [by rewrite app_nil_r|].
  inversion Hp; subst. rewrite app_assoc. apply IH; [done|]. by apply write_absorbed.
Qed.

(** The value at the end is the hash of everything that was taken in. *)
Lemma finish_absorbed k0 k1 m h : absorbed k0 k1 m h → finish C D h = siphash C D k0 k1 m.
Proof.
  intros (Hm & Htot & n & full & part & -> & Hfull & Hpart & Hst & Htail & Hnt).
  assert (Hn : (length (full ++ part) / 8 = n)%nat).
  { rewrite length_app, Hfull. symmetry. apply (Nat.div_unique _ 8 n (length part)); lia. }
  assert (Hr : (length (full ++ part) mod 8 = length part)%nat).
  { rewrite length_app, Hfull. symmetry. apply (Nat.mod_unique _ 8 n (length part)); lia. }
  assert (Hpb : is_bytes part) by (by apply Forall_app in Hm as [_ ?]).
  unfold siphash, padded, finish. rewrite Hn, Hr. rewrite <- app_assoc.
  replace (S n) with (n + 1)%nat by lia. rewrite blocks_app, fold_left_app, <- Hst by done. cbn [blocks fold_left].
  set (last := part ++ replicate (7 - length part) 0 ++ [zlen (full ++ part) mod 256]).
  assert (Hlast : take 8 last = last).
  { apply take_ge. unfold last. rewrite !length_app, length_replicate. cbn [length]. lia. }
  rewrite Hlast. assert (Hb : Z.lor (u64_shl (Z.land (total h) 0xff) 56) (tail h) = le_val last).
  { rewrite land_255, Htot, <- Znumtheory.Zmod_div_mod by (try (exists (2 ^ 56)); lia).
    pose proof (Z.mod_pos_bound (zlen (full ++ part)) 256 ltac:(lia)) as Hl. set (l := zlen (full ++ part) mod 256) in *.
    pose proof (le_val_bound part Hpb) as Hbound.
    assert (Hpow : 256 ^ zlen part * 256 ^ (7 - zlen part) = 2 ^ 56).
    { rewrite <- Z.pow_add_r by (unfold zlen; lia). by replace (zlen part + (7 - zlen part)) with 7 by lia. }
    assert (0 < 256 ^ (7 - zlen part)) by (apply Z.pow_pos_nonneg; unfold zlen; lia).
    unfold u64_shl. rewrite Z.mod_small by (rewrite Z.shiftl_mul_pow2 by lia; lia).
    rewrite lor_shiftl_add by nia. rewrite Htail. unfold last. rewrite le_val_app by done.
    rewrite le_val_app by (apply Forall_replicate; by vm_compute). rewrite le_val_zeros. cbn [le_val].
    rewrite Z.shiftl_0_l, Z.lor_0_r.
    replace (zlen (replicate (7 - length part) 0)) with (7 - zlen part) by (unfold zlen; rewrite length_replicate; lia). nia. }
  rewrite Hb. unfold mix, state. destruct (siprounds C _) as [[[w0 w1] w2] w3]. done.
Qed.

(** A message in any pieces has the hash of the message. *)
Lemma siphash_pieces k0 k1 parts : Forall is_bytes parts →
  finish C D (fold_left (λ h p, write C p h) parts (new_with_keys k0 k1)) = siphash C D k0 k1 (concat parts).
Proof. intros H. apply finish_absorbed. apply (writes_absorbed k0 k1 parts []); [done|apply absorbed_new]. Qed.
End hasher.
End SiphashSpec.

(** ** DNS cookies *)

#[local] Open Scope outcome_scope.

Definition SERVER_COOKIE_LEN : Z := 16.
Definition COOKIE_VERSION : Z := 1.
Definition ACCEPT_PAST_SECS : Z := 3600.
Definition ACCEPT_FUTURE_SECS : Z := 300.
Definition SECRET_EPOCH_SECS : Z := 30 * 24 * 60 * 60.
Definition EPOCH_KEY_CONTEXT : list Z := as_bytes "OnetDNS DNS Cookie epoch key v1".

(** [struct CookieKeeper] and [struct CookieCheck]. *)
Record CookieKeeper : Type := mkKeeper { k0 : Z; k1 : Z; rotating : bool }.
Record CookieCheck : Type := mkCheck { client : list Z; valid : bool }.

(** [CookieKeeper::from_secret], of 16 octets, and [from_master_secret]. *)
Definition from_secret (secret : list Z) : CookieKeeper :=
  mkKeeper (le_val (take 8 secret)) (le_val (take 8 (drop 8 secret))) false.
Definition from_master_secret (secret : list Z) : CookieKeeper :=
  let keeper := from_secret secret in mkKeeper (k0 keeper) (k1 keeper) true.

(** [SipHasher24]. *)
Definition write24 : list Z → Siphash.SipHasher → Siphash.SipHasher := Siphash.write 2.
Definition finish24 : Siphash.SipHasher → Z := Siphash.finish 2 4.

(** [CookieKeeper::keys_at]. *)
Definition keys_at (k : CookieKeeper) (stamp : Z) : Z * Z :=
  if negb (rotating k) then (k0 k, k1 k)
  else
    let epoch := stamp / SECRET_EPOCH_SECS in
    let derive domain :=
      let h := Siphash.new_with_keys (k0 k) (k1 k) in
      let h := write24 EPOCH_KEY_CONTEXT h in
      let h := write24 (u32_to_be epoch) h in
      let h := write24 [domain] h in
      finish24 h in
    (derive 0, derive 1).

(** [Ipv4Addr::octets] and [Ipv6Addr::octets]. *)
Definition octets (ip : IpAddr) : list Z :=
  match ip with
  | V4 bits => u32_to_be bits
  | V6 bits => u64_to_be (bits / 2 ^ 64) ++ u64_to_be (bits mod 2 ^ 64)
  end.

(** [out[at..at + s.len()].copy_from_slice(s)]. *)
Definition splice (at_ : nat) (s out : list Z) : list Z := take at_ out ++ s ++ drop (at_ + length s) out.

(** [CookieKeeper::server_cookie_at]. *)
Definition server_cookie_at (k : CookieKeeper) (client_cookie : list Z) (ip : IpAddr) (stamp : Z) : list Z :=
  let out := replicate 16 0 in
  let out := <[0%nat := COOKIE_VERSION]> out in
  let out := splice 4 (u32_to_be stamp) out in
  let '(key0, key1) := keys_at k stamp in
  let h := Siphash.new_with_keys key0 key1 in
  let h := write24 client_cookie h in
  let h := write24 (take 8 out) h in
  let h := write24 (octets ip) h in
  splice 8 (u64_to_le (finish24 h)) out.

(** [CookieKeeper::server_cookie] and [response_cookie], at the time [now]. *)
Definition server_cookie (k : CookieKeeper) (client_cookie : list Z) (ip : IpAddr) (now : Z) : list Z :=
  server_cookie_at k client_cookie ip now.
Definition response_cookie (k : CookieKeeper) (client_cookie : list Z) (ip : IpAddr) (now : Z) : list Z :=
  client_cookie ++ server_cookie k client_cookie ip now.

(** [ct_eq]. *)
Fixpoint differences (a b : list Z) (d : Z) : Z :=
  match a, b with
  | x :: a, y :: b => differences a b (Z.lor d (Z.lxor x y))
  | _, _ => d
  end.
Definition ct_eq (a b : list Z) : bool :=
  if negb (zlen a =? zlen b) then false else differences a b 0 =? 0.

(** [now.wrapping_sub(stamp) as i32]. *)
Definition age_at (now stamp : Z) : Z :=
  let d := (now - stamp) mod 2 ^ 32 in if d <? 2 ^ 31 then d else d - 2 ^ 32.

(** [CookieKeeper::server_part_is_ours_at]; an index out of range panics. *)
Definition server_part_is_ours_at (k : CookieKeeper) (server client : list Z) (ip : IpAddr) (now : Z) : outcome unit bool :=
  if negb (zlen server =? SERVER_COOKIE_LEN) then Ok false else
  match get server 0 with
  | None => Panic
  | Some version =>
      if negb (version =? COOKIE_VERSION) then Ok false else
      match get_range server 4 8 with
      | None => Panic
      | Some s =>
          let stamp := be_val 0 s in
          let age := age_at now stamp in
          if negb ((- ACCEPT_FUTURE_SECS <=? age) && (age <=? ACCEPT_PAST_SECS)) then Ok false
          else Ok (ct_eq server (server_cookie_at k client ip stamp))
      end
  end.

(** [CookieKeeper::parse_and_validate_at]; [Err tt] is [None]. *)
Definition parse_and_validate_at (k : CookieKeeper) (cookie : list Z) (ip : IpAddr) (now : Z) : outcome unit CookieCheck :=
  if negb (zlen cookie =? 8) && negb ((16 <=? zlen cookie) && (zlen cookie <=? 40)) then Err tt else
  match get_range cookie 0 8, get_range cookie 8 (zlen cookie) with
  | Some client, Some server =>
      try! valid := server_part_is_ours_at k server client ip now in
      Ok (mkCheck client valid)
  | _, _ => Panic
  end.

(** ** What a genuine cookie is *)

(** The keys of a time: fixed, or derived from the secret for its thirty days. *)
Definition keys_for (k : CookieKeeper) (stamp : Z) : Z * Z :=
  if rotating k then
    let derive domain :=
      Siphash.siphash 2 4 (k0 k) (k1 k) (EPOCH_KEY_CONTEXT ++ u32_to_be (stamp / SECRET_EPOCH_SECS) ++ [domain]) in
    (derive 0, derive 1)
  else (k0 k, k1 k).

(** Version, three reserved octets, the time, and the hash of the client's
    cookie with these and the address. *)
Definition genuine (k : CookieKeeper) (client : list Z) (ip : IpAddr) (stamp : Z) : list Z :=
  let head := [COOKIE_VERSION; 0; 0; 0] ++ u32_to_be stamp in
  let '(key0, key1) := keys_for k stamp in
  head ++ u64_to_le (Siphash.siphash 2 4 key0 key1 (client ++ head ++ octets ip)).

(** A time no more than an hour before [now] and five minutes after it, on a
    clock of 32 bits. *)
Definition fresh (now stamp : Z) : Prop :=
  ∃ age, - ACCEPT_FUTURE_SECS ≤ age ≤ ACCEPT_PAST_SECS ∧ now = (stamp + age) mod 2 ^ 32.

Lemma genuine_bytes k client ip stamp : is_bytes (genuine k client ip stamp).
Proof.
  unfold genuine. destruct (keys_for k stamp). apply Forall_app. split.
  - apply (Forall_app_2 _ [_; _; _; _]); [by apply is_bytesb_ok|apply u32_to_be_bytes].
  - apply Forall_rev, u64_to_be_bytes.
Qed.

Lemma octets_bytes ip : is_bytes (octets ip).
Proof. destruct ip; [apply u32_to_be_bytes|apply Forall_app; split; apply u64_to_be_bytes]. Qed.

Lemma pieces24 key0 key1 a b c : is_bytes a → is_bytes b → is_bytes c →
  finish24 (write24 c (write24 b (write24 a (Siphash.new_with_keys key0 key1)))) = Siphash.siphash 2 4 key0 key1 (a ++ b ++ c).
Proof.
  intros Ha Hb Hc. apply SiphashSpec.finish_absorbed. rewrite app_assoc.
  do 2 (apply SiphashSpec.write_absorbed; [done|]).
  apply (SiphashSpec.write_absorbed 2 key0 key1 [] a); [done|apply SiphashSpec.absorbed_new].
Qed.

Lemma keys_at_spec k stamp : keys_at k stamp = keys_for k stamp.
Proof.
  unfold keys_at, keys_for. destruct (rotating k); [|done]. cbn [negb].
  by rewrite !pieces24 by (try apply u32_to_be_bytes; by apply is_bytesb_ok).
Qed.

Lemma server_cookie_at_spec k client ip stamp : is_bytes client →
  server_cookie_at k client ip stamp = genuine k client ip stamp.
Proof.
  intros Hc. unfold server_cookie_at, genuine. rewrite keys_at_spec. destruct (keys_for k stamp) as [key0 key1].
  rewrite pieces24; [done|done| |apply octets_bytes]. apply (Forall_app_2 _ [_; _; _; _]); [by apply is_bytesb_ok|apply u32_to_be_bytes].
Qed.

Lemma zlen_genuine k client ip stamp : zlen (genuine k client ip stamp) = 16.
Proof. unfold genuine. by destruct (keys_for k stamp). Qed.

Lemma differences_0 a : ∀ b d, zlen a = zlen b → 0 ≤ d → is_bytes a → is_bytes b →
  (differences a b d = 0 ↔ d = 0 ∧ a = b).
Proof.
  induction a as [|x a IH]; intros [|y b] d Hlen Hd Ha Hb; [by cbn; intuition|done..|].
  rewrite !zlen_cons in Hlen. inversion Ha as [|? ? Hx Ha']; subst. inversion Hb as [|? ? Hy Hb']; subst. unfold is_u8 in Hx, Hy.
  cbn [differences]. assert (0 ≤ Z.lxor x y) by (apply Z.lxor_nonneg; lia).
  rewrite IH by (done || lia || (apply Z.lor_nonneg; lia)). rewrite Z.lor_eq_0_iff, Z.lxor_eq_0_iff.
  split; [by intros [[-> ->] ->]|by intros [-> [= -> ->]]].
Qed.

Lemma ct_eq_spec a b : is_bytes a → is_bytes b → ct_eq a b = true ↔ a = b.
Proof.
  intros Ha Hb. unfold ct_eq. destruct (Z.eqb_spec (zlen a) (zlen b)) as [Hl|Hl]; cbn [negb].
  - rewrite Z.eqb_eq, differences_0 by (done || lia). by intuition.
  - split; [done|by intros ->].
Qed.

(** The window on the clock. *)
Lemma age_at_fresh now stamp : is_u32 now → is_u32 stamp →
  (- ACCEPT_FUTURE_SECS <=? age_at now stamp) && (age_at now stamp <=? ACCEPT_PAST_SECS) = true ↔ fresh now stamp.
Proof.
  unfold is_u32, U32_MAX, fresh, age_at, ACCEPT_FUTURE_SECS, ACCEPT_PAST_SECS. intros Hn Hs.
  rewrite andb_true_iff, !Z.leb_le. split.
  - intros Hage. eexists. split; [exact Hage|]. destruct (Z.ltb_spec ((now - stamp) mod 2 ^ 32) (2 ^ 31)); div_mod_lia.
  - intros (age & Hage & ->). destruct (Z.ltb_spec (((stamp + age) mod 2 ^ 32 - stamp) mod 2 ^ 32) (2 ^ 31)); div_mod_lia.
Qed.

(** The stamp that a server cookie carries. *)
Lemma genuine_stamp k client ip stamp : is_u32 stamp → ∃ s, get_range (genuine k client ip stamp) 4 8 = Some s ∧ be_val 0 s = stamp.
Proof.
  intros Hs. exists (u32_to_be stamp). split; [unfold genuine; by destruct (keys_for k stamp)|]. by rewrite be_val_u32 by done.
Qed.

Lemma be_val_4 s : is_bytes s → zlen s = 4 → is_u32 (be_val 0 s).
Proof. intros Hb Hl. pose proof (be_val_bound s 0 Hb ltac:(lia)) as H. rewrite Hl in H. unfold is_u32, U32_MAX. lia. Qed.

(** A server cookie is accepted exactly when the server would have given it to
    this address at a time that is still fresh. *)
Lemma server_part_spec k server client ip now : is_bytes server → is_bytes client → is_u32 now →
  ∃ b, server_part_is_ours_at k server client ip now = Ok b ∧
    (b = true ↔ ∃ stamp, is_u32 stamp ∧ fresh now stamp ∧ server = genuine k client ip stamp).
Proof.
  intros Hs Hc Hn. unfold server_part_is_ours_at, SERVER_COOKIE_LEN.
  destruct (Z.eqb_spec (zlen server) 16) as [Hl|Hl]; cbn [negb].
  2: { exists false. split; [done|]. split; [done|]. intros (stamp & _ & _ & ->). rewrite zlen_genuine in Hl. lia. }
  destruct (get_is_Some server 0) as [version Hv]; [lia|]. rewrite Hv.
  destruct (Z.eqb_spec version COOKIE_VERSION) as [->|Hne]; cbn [negb].
  2: { exists false. split; [done|]. split; [done|]. intros (stamp & _ & _ & ->). unfold genuine in Hv.
       destruct (keys_for k stamp). change (Some COOKIE_VERSION = Some version) in Hv. congruence. }
  rewrite get_range_is_Some by lia. set (s := take _ _).
  assert (Hs4 : get_range server 4 8 = Some s) by (by rewrite get_range_is_Some by lia). clearbody s.
  assert (Hst : is_u32 (be_val 0 s)).
  { apply be_val_4; [by apply (Forall_get_range is_u8 server 4 8)|]. apply get_range_Some in Hs4 as (_ & _ & _ & ->). lia. }
  assert (Hwhich : ∀ stamp, is_u32 stamp → server = genuine k client ip stamp → stamp = be_val 0 s).
  { intros stamp Hst' ->. destruct (genuine_stamp k client ip stamp Hst') as (s' & Hs' & <-). congruence. }
  destruct (_ && _) eqn:Hage; cbn [negb].
  - eexists. split; [done|]. apply (age_at_fresh now _ Hn Hst) in Hage. rewrite server_cookie_at_spec by done.
    rewrite ct_eq_spec by (done || apply genuine_bytes). split; [intros ->; by exists (be_val 0 s)|].
    intros (stamp & Hst' & _ & He). by rewrite <- (Hwhich stamp Hst' He).
  - exists false. split; [done|]. split; [done|]. intros (stamp & Hst' & Hf & He).
    rewrite (Hwhich stamp Hst' He) in Hf. apply (age_at_fresh now _ Hn Hst) in Hf. congruence.
Qed.

Lemma parse_and_validate_spec k cookie ip now : is_bytes cookie → is_u32 now →
  (zlen cookie = 8 ∨ 16 ≤ zlen cookie ≤ 40 →
   ∃ b, parse_and_validate_at k cookie ip now = Ok (mkCheck (take 8 cookie) b) ∧
     (b = true ↔ ∃ stamp, is_u32 stamp ∧ fresh now stamp ∧ cookie = take 8 cookie ++ genuine k (take 8 cookie) ip stamp)) ∧
  (¬ (zlen cookie = 8 ∨ 16 ≤ zlen cookie ≤ 40) → parse_and_validate_at k cookie ip now = Err tt).
Proof.
  intros Hb Hn. unfold parse_and_validate_at. destruct (Z.eqb_spec (zlen cookie) 8), (Z.leb_spec 16 (zlen cookie)), (Z.leb_spec (zlen cookie) 40);
    cbn [negb andb]; (split; intros Hlen; [try (exfalso; lia)|try (exfalso; lia); done]).
  all: rewrite !get_range_is_Some by lia; change (Z.to_nat (8 - 0)) with 8%nat; change (Z.to_nat 0) with 0%nat;
    rewrite drop_0, (take_ge (drop _ _)) by (rewrite length_drop; unfold zlen; lia); change (Z.to_nat 8) with 8%nat;
    destruct (server_part_spec k (drop 8 cookie) (take 8 cookie) ip now) as (b & -> & Hiff);
    [by apply Forall_drop|by apply Forall_take|done|];
    exists b; (split; [done|]); rewrite Hiff; f_equiv; intros stamp; (split; intros (? & ? & He); (split_and!; [done|done|]));
    [by rewrite <- He, take_drop|rewrite <- (take_drop 8 cookie) in He at 1; by apply app_inv_head in He].
Qed.

(** What the server gives out is accepted from the same address as long as it
    is fresh. *)
Lemma response_cookie_fresh k c ip issued now : is_bytes c → zlen c = 8 → is_u32 issued → is_u32 now →
  ∃ b, parse_and_validate_at k (response_cookie k c ip issued) ip now = Ok (mkCheck c b) ∧ (b = true ↔ fresh now issued).
Proof.
  intros Hc Hl Hi Hn. unfold response_cookie, server_cookie. rewrite server_cookie_at_spec by done.
  assert (Ht : take 8 (c ++ genuine k c ip issued) = c) by (apply take_app_length'; unfold zlen in Hl; lia).
  destruct (parse_and_validate_spec k (c ++ genuine k c ip issued) ip now) as [H _].
  - apply Forall_app. split; [done|apply genuine_bytes].
  - done.
  - destruct H as (b & Hp & Hb). { right. rewrite zlen_app, Hl, zlen_genuine. lia. }
    rewrite Ht in Hp, Hb. exists b. split; [done|]. rewrite Hb. split; [|by intros; exists issued].
    intros (stamp & Hst & Hf & He). apply app_inv_head in He.
    destruct (genuine_stamp k c ip issued Hi) as (s & Hs & <-), (genuine_stamp k c ip stamp Hst) as (s' & Hs' & <-).
    rewrite He in Hs. congruence.
Qed.
