(* ===== verification/CoreProps.v ===== *)
(** * Properties of the shared structures: the LRU map, access control, cookies

    The theorems of this file are stated for the definitions of [LruMap],
    [Acl] and [Cookie]; the lemmas of [LruMapSpec], [Acl] and [Cookie] carry
    their proofs. *)

From S2P Require Import Prelude LruMap LruMapSpec Acl.
From S2P Require Cookie.

(** ** The LRU map *)

(** The keys of a represented list are distinct. *)
Lemma represents_nodup {K V} `{EqDecision K} (h : K → Z) (m : LruMap K V) es :
  represents h m es → NoDup es.*1.
Proof.
  intros (l & Hr & Hh). apply NoDup_alt. intros x y k Hx Hy.
  apply list_lookup_fmap_Some in Hx as ([k1 v1] & -> & Hx). apply list_lookup_fmap_Some in Hy as ([k2 v2] & Hk & Hy).
  simpl in Hk. subst k2. destruct (Forall2_lookup_r _ _ _ _ _ Hh Hx) as (i & Hi & n & Hn & [= Hk1 _]).
  destruct (Forall2_lookup_r _ _ _ _ _ Hh Hy) as (j & Hj & n' & Hn' & [= Hk2 _]).
  assert (i = j) as -> by (apply (rep_keys _ _ _ Hr i j n n'); congruence).
  by eapply NoDup_lookup; [apply (rep_nodup _ _ _ Hr)| |].
Qed.

(** The value of a key in a list without its last entry. *)
Lemma assoc_removelast_last {K V} `{EqDecision K} (es : list (K * V)) k0 v0 k :
  NoDup (es ++ [(k0, v0)]).*1 → assoc k es = if decide (k = k0) then None else assoc k (es ++ [(k0, v0)]).
Proof.
  intros Hnd. destruct (decide (k = k0)) as [->|Hne].
  - apply assoc_None. intros v Hv. rewrite fmap_app in Hnd. apply NoDup_app in Hnd as (_ & Hd & _).
    apply (Hd k0); [|by left]. apply list_elem_of_fmap. by exists (k0, v).
  - destruct (assoc k es) as [v|] eqn:Hk.
    + clear Hnd. induction es as [|[k' v'] es IH]; simpl in *; [done|]. destruct (decide (k' = k)); [done|]. by apply IH.
    + rewrite assoc_app by done. simpl. by rewrite decide_False by done.
Qed.

(** C17. Whatever calls a program makes, the arena with its two intrusive lists
    behaves as a list of entries, most recent first, with distinct keys and no
    more entries than the capacity; no call panics. *)
Theorem lru_refines_recency_list {K V} `{EqDecision K} (key_hash : K → Z) (c : Z) (os : list (lru_op (K:=K) (V:=V))) m :
  LruMap_new c = Some m →
  ∃ rs m' es, run_ops key_hash os m = Some (rs, m') ∧ spec_ops (Z.max c 1) os [] rs es ∧
    LruMap_len m' = zlen es ∧ zlen es ≤ Z.max c 1 ∧ NoDup es.*1.
Proof.
  intros Hm. destruct (new_represents key_hash c m Hm) as [Hc Hr].
  destruct (run_ops_spec key_hash os m [] Hr) as (rs & m' & es & Hrun & Hcap & Hr' & Hs).
  exists rs, m', es. rewrite Hc in Hs. pose proof (represents_cap _ _ _ Hr') as [Hle _].
  unfold same_cap in Hcap. rewrite Hcap, Hc in Hle.
  split_and!; [done|done|by apply (represents_len key_hash)|done|by eapply represents_nodup].
Qed.

(** Three keys with one digest, in a map of capacity two. *)
Definition lru_script : list (lru_op (K:=Z) (V:=Z)) :=
  [OPut true 1 10; OPut true 2 20; OGet 1; OPut true 3 30; OPeek 2; OPop 1; OLen].

Lemma lru_refines_recency_list_witness :
  ∃ rs m' es, run_ops (λ _, 7) lru_script
      {| cap := 2; map_ := ∅; nodes := []; free := []; head := NIL; tail := NIL; len := 0 |} = Some (rs, m') ∧
    spec_ops (Z.max 2 1) lru_script [] rs es ∧ LruMap_len m' = zlen es ∧ zlen es ≤ Z.max 2 1 ∧ NoDup es.*1.
Proof. apply (lru_refines_recency_list (λ _, 7) 2 lru_script). vm_compute. reflexivity. Defined.

(** In a full map, a new key takes the place of the entry that [pop_lru]
    would give: it is found, that one is not, and every other key answers as
    before. *)
Theorem lru_put_evicts_oldest {K V} `{EqDecision K} (key_hash : K → Z) (c : Z) (os : list (lru_op (K:=K) (V:=V))) m0 rs m k v :
  LruMap_new c = Some m0 → run_ops key_hash os m0 = Some (rs, m) →
  LruMap_contains_key key_hash m k = Some false → LruMap_len m = cap m →
  ∃ k0 v0 m1 m', LruMap_pop_lru key_hash m = Some (Some (k0, v0), m1) ∧ LruMap_put key_hash true k v m = Some m' ∧
    LruMap_len m' = cap m ∧
    ∀ k', LruMap_peek key_hash m' k' =
      if decide (k' = k) then Some (Some v) else if decide (k' = k0) then Some None else LruMap_peek key_hash m k'.
Proof.
  intros Hnew Hrun Hk Hfull. destruct (new_represents key_hash c m0 Hnew) as [_ Hr0].
  destruct (run_ops_spec key_hash os m0 [] Hr0) as (rs' & m'' & es & Hrun' & _ & Hr & _).
  assert (m'' = m) as -> by congruence. pose proof (represents_nodup _ _ _ Hr) as Hnd.
  assert (Hnone : assoc k es = None).
  { rewrite (contains_key_spec key_hash m es k Hr) in Hk. destruct (assoc k es); [done|done]. }
  pose proof (represents_len _ _ _ Hr) as Hlen. pose proof (represents_cap _ _ _ Hr) as [_ Hpos].
  unfold LruMap_len in Hfull. destruct (rev_case es) as [->|([k0 v0] & es' & ->)]; [rewrite zlen_nil in Hlen; lia|].
  destruct (pop_lru_spec key_hash m _ Hr) as (m1 & Hpop & _). rewrite last_snoc in Hpop.
  destruct (put_spec key_hash m _ true k v Hr) as (m' & es2 & Hput & Hc' & Hr' & Hres).
  assert (es2 = (k, v) :: es') as ->.
  { inversion Hres; subst; try congruence. unfold make_room. rewrite (proj2 (Z.leb_le _ _)) by lia.
    by rewrite removelast_last. }
  exists k0, v0, m1, m'. split; [done|]. split; [done|]. split.
  - unfold LruMap_len. rewrite (represents_len _ _ _ Hr'), <-Hfull, Hlen, zlen_app, zlen_cons. done.
  - intros k'. rewrite (peek_spec key_hash m' _ k' Hr'), (peek_spec key_hash m _ k' Hr). simpl.
    destruct (decide (k = k')) as [->|Hne]; [by rewrite decide_True|]. rewrite (decide_False (P:=k' = k)) by done.
    rewrite (assoc_removelast_last es' k0 v0 k' Hnd). by destruct (decide (k' = k0)).
Qed.

Lemma lru_put_evicts_oldest_witness :
  ∃ k0 v0 m1 m', LruMap_pop_lru (λ _, 7)
      (default (LruMap_clear (mkLruMap 2 ∅ [] [] NIL NIL 0)) (snd <$> run_ops (λ _, 7) (take 3 lru_script) (mkLruMap 2 ∅ [] [] NIL NIL 0))) = Some (Some (k0, v0), m1) ∧
    LruMap_put (λ _, 7) true 3 30
      (default (LruMap_clear (mkLruMap 2 ∅ [] [] NIL NIL 0)) (snd <$> run_ops (λ _, 7) (take 3 lru_script) (mkLruMap 2 ∅ [] [] NIL NIL 0))) = Some m' ∧
    k0 = 2.
Proof.
  destruct (lru_put_evicts_oldest (λ _, 7) 2 (take 3 lru_script) (mkLruMap 2 ∅ [] [] NIL NIL 0)
    [AUnit; AUnit; AVal (Some 10)]
    (default (LruMap_clear (mkLruMap 2 ∅ [] [] NIL NIL 0)) (snd <$> run_ops (λ _, 7) (take 3 lru_script) (mkLruMap 2 ∅ [] [] NIL NIL 0)))
    3 30) as (k0 & v0 & m1 & m' & Hpop & Hput & _).
  - vm_compute. reflexivity.
  - vm_compute. reflexivity.
  - vm_compute. reflexivity.
  - vm_compute. reflexivity.
  - exists k0, v0, m1, m'. split; [exact Hpop|]. split; [exact Hput|]. revert Hpop. vm_compute. by intros [= <- _ _].
Defined.

(** ** Networks and access control *)

(** Dotted quads are read by the standard library; this reads "10.0.0.1" alone. *)
Definition ten_one : list Z := [49; 48; 46; 48; 46; 48; 46; 49].
Definition read_ten_one (s : list Z) : option IpAddr :=
  if bool_decide (s = ten_one) then Some (V4 (10 * 2 ^ 24 + 1)) else None.

(** A network that is read has a prefix within its family and no host bits
    set, so that equal networks are equal values; it holds the address that was
    written, and exactly the addresses of its family with the same leading
    bits. *)
Theorem ipnet_from_str_canonical parse_addr s n :
  (∀ t a, parse_addr t = Some a → addr_ok a) → IpNet_from_str parse_addr s = Some n →
  net_ok n ∧ mask_addr (network n) (prefix n) = network n ∧
  (∃ a, parse_addr (match split_slash s with Some (t, _) => t | None => s end) = Some a ∧ IpNet_contains n a = true) ∧
  ∀ a, addr_ok a → IpNet_contains n a = true ↔
    same_family (network n) a ∧ leading (prefix n) (network n) = leading (prefix n) a.
Proof.
  intros Hp Hn. destruct (from_str_spec parse_addr s n Hp Hn) as (Hok & Hmask & Ha).
  split_and!; [apply Hok..|done|done|]. intros a Haok. by apply contains_spec.
Qed.

(** "10.0.0.1/8" is 10.0.0.0/8. *)
Lemma ipnet_from_str_canonical_witness :
  IpNet_from_str read_ten_one (ten_one ++ [47; 56]) = Some (mkIpNet (V4 (10 * 2 ^ 24)) 8) ∧
  net_ok (mkIpNet (V4 (10 * 2 ^ 24)) 8).
Proof.
  split; [vm_compute; reflexivity|].
  apply (ipnet_from_str_canonical read_ten_one (ten_one ++ [47; 56])).
  - unfold read_ten_one. intros t a. destruct (bool_decide _); [|discriminate]. intros [= <-]. vm_compute. by split.
  - vm_compute. reflexivity.
Defined.

(** C22. A client is let in exactly when no denial names it and an allowance or
    the default does: denial wins in any order of the rules; and a list that
    calls itself trivially open refuses nobody. *)
Theorem acl_deny_wins a c :
  (IpAcl_check a c = Allow ↔
     contained (deny a) (source_ip c) = false ∧ listed (deny_ids a) (client_id c) = false ∧
     (contained (allow a) (source_ip c) = true ∨ listed (allow_ids a) (client_id c) = true ∨ default_allow a = true)) ∧
  (IpAcl_is_trivially_allow a = true → ∀ c', IpAcl_check a c' = Allow).
Proof.
  split; [apply check_spec|]. unfold IpAcl_is_trivially_allow. intros H c'. bool_prop.
  apply bool_decide_eq_true in H0, H1. apply check_spec. rewrite H0, H1. unfold listed.
  by destruct (client_id c'); split_and!; auto.
Qed.

Lemma acl_deny_wins_witness :
  IpAcl_check (IpAcl_new [mkIpNet (V4 (10 * 2 ^ 24)) 8] [mkIpNet (V4 (10 * 2 ^ 24 + 6 * 2 ^ 16)) 16] true)
    (mkClientInfo (V4 (10 * 2 ^ 24 + 6 * 2 ^ 16 + 9)) None) = Deny ∧
  IpAcl_check IpAcl_allow_all (mkClientInfo (V6 1) None) = Allow.
Proof.
  split; [vm_compute; reflexivity|].
  apply (proj2 (acl_deny_wins IpAcl_allow_all (mkClientInfo (V6 1) None))). vm_compute. reflexivity.
Defined.

(** The rate limiter's key is shared by exactly the addresses of one
    family with the same leading bits, whatever prefix lengths are configured. *)
Theorem subnet_shares_budget p4 p6 a b :
  is_u8 p4 → is_u8 p6 → addr_ok a → addr_ok b →
  subnet_key (subnet_new p4 p6) a = subnet_key (subnet_new p4 p6) b ↔
  same_family a b ∧ leading (match a with V4 _ => Z.min p4 32 | V6 _ => Z.min p6 128 end) a =
                    leading (match a with V4 _ => Z.min p4 32 | V6 _ => Z.min p6 128 end) b.
Proof.
  unfold is_u8, U8_MAX. intros H4 H6 Ha Hb. rewrite !subnet_key_mask by (done || lia).
  destruct a as [a|a], b as [b|b]; cbn [mask_addr same_family leading addr_ok] in *; [|by split; [|intros []]..|].
  - rewrite !v4_mask_spec by lia. rewrite <-(mul_pow_inj (a / _) _ (32 - Z.min p4 32)) by lia.
    split; [by intros [= ->]|by intros [_ ->]].
  - rewrite !v6_mask_spec by lia. rewrite <-(mul_pow_inj (a / _) _ (128 - Z.min p6 128)) by lia.
    split; [by intros [= ->]|by intros [_ ->]].
Qed.

Lemma subnet_shares_budget_witness :
  subnet_key (subnet_new 24 56) (V4 (203 * 2 ^ 24 + 1)) = subnet_key (subnet_new 24 56) (V4 (203 * 2 ^ 24 + 99)).
Proof.
  apply (subnet_shares_budget 24 56 (V4 (203 * 2 ^ 24 + 1)) (V4 (203 * 2 ^ 24 + 99)));
    vm_compute; split; reflexivity || discriminate || exact I.
Defined.

(** ** SipHash and cookies *)

(** C19. However a message is cut into pieces, empty ones included, feeding them
    to the hasher gives the SipHash of the whole message: its blocks of eight
    octets mixed in from the left, the last one filled with zeros and the
    length. *)
Theorem siphash_pieces_irrelevant (C D : nat) k0 k1 parts :
  Forall is_bytes parts →
  Cookie.Siphash.finish C D (fold_left (λ h p, Cookie.Siphash.write C p h) parts (Cookie.Siphash.new_with_keys k0 k1)) =
  Cookie.Siphash.siphash C D k0 k1 (concat parts).
Proof. apply Cookie.SiphashSpec.siphash_pieces. Qed.

(** The vector of fifteen octets of the SipHash paper, in four pieces. *)
Lemma siphash_pieces_irrelevant_witness :
  let key0 := Cookie.le_val [0; 1; 2; 3; 4; 5; 6; 7] in
  let key1 := Cookie.le_val [8; 9; 10; 11; 12; 13; 14; 15] in
  let parts := [[0; 1; 2]; []; [3; 4; 5; 6; 7; 8; 9; 10; 11]; [12; 13; 14]] in
  Cookie.Siphash.finish 2 4
    (fold_left (λ h p, Cookie.Siphash.write 2 p h) parts (Cookie.Siphash.new_with_keys key0 key1)) = 0xa129ca6149be45e5.
Proof.
  cbv zeta. etransitivity; [apply siphash_pieces_irrelevant|vm_compute; reflexivity].
  repeat (apply Forall_cons_2; [apply is_bytesb_ok; reflexivity|]). apply Forall_nil_2.
Defined.

(** C18. A cookie option of 8 or of 16 to 40 octets yields its first eight
    octets as the client's cookie and is valid exactly when the rest is what
    this server makes for them and this address at a time at most an hour ago
    or five minutes ahead, on a clock that wraps at 32 bits; other lengths are
    refused.  What the server sends out is valid exactly while it is that
    fresh. *)
Theorem cookie_valid_iff k cookie ip now :
  is_bytes cookie → is_u32 now →
  (zlen cookie = 8 ∨ 16 ≤ zlen cookie ≤ 40 →
   ∃ b, Cookie.parse_and_validate_at k cookie ip now = Ok (Cookie.mkCheck (take 8 cookie) b) ∧
     (b = true ↔ ∃ stamp, is_u32 stamp ∧ Cookie.fresh now stamp ∧
        cookie = take 8 cookie ++ Cookie.genuine k (take 8 cookie) ip stamp)) ∧
  (¬ (zlen cookie = 8 ∨ 16 ≤ zlen cookie ≤ 40) → Cookie.parse_and_validate_at k cookie ip now = Err tt) ∧
  (∀ c issued, is_bytes c → zlen c = 8 → is_u32 issued →
   ∃ b, Cookie.parse_and_validate_at k (Cookie.response_cookie k c ip issued) ip now = Ok (Cookie.mkCheck c b) ∧
     (b = true ↔ Cookie.fresh now issued)).
Proof.
  intros Hb Hn. destruct (Cookie.parse_and_validate_spec k cookie ip now Hb Hn) as [H1 H2].
  split_and!; [done|done|]. intros c issued Hc Hl Hi. by apply Cookie.response_cookie_fresh.
Qed.

(** The cookie of appendix A.1 of RFC 9018, an hour after it was made and a
    second later. *)
Definition rfc9018_secret : list Z :=
  [0xe5; 0xe9; 0x73; 0xe5; 0xa6; 0xb2; 0xa4; 0x3f; 0x48; 0xe7; 0xdc; 0x84; 0x9e; 0x37; 0xbf; 0xcf].
Definition rfc9018_cookie : list Z :=
  [0x24; 0x64; 0xc4; 0xab; 0xcf; 0x10; 0xc9; 0x57; 0x01; 0; 0; 0; 0x5c; 0xf7; 0x9f; 0x11; 0x1f; 0x81; 0x30; 0xc3; 0xee; 0xe2; 0x94; 0x80].
Definition rfc9018_client : IpAddr := V4 (198 * 2 ^ 24 + 51 * 2 ^ 16 + 100 * 2 ^ 8 + 100).

Lemma cookie_valid_iff_witness :
  ∃ b, Cookie.parse_and_validate_at (Cookie.from_secret rfc9018_secret) rfc9018_cookie rfc9018_client (1559731985 + 3600) =
         Ok (Cookie.mkCheck (take 8 rfc9018_cookie) b) ∧ b = true.
Proof.
  destruct (cookie_valid_iff (Cookie.from_secret rfc9018_secret) rfc9018_cookie rfc9018_client (1559731985 + 3600)) as (H & _).
  - apply is_bytesb_ok. reflexivity.
  - vm_compute. split; discriminate.
  - destruct H as (b & Hp & Hb); [right; vm_compute; split; discriminate|].
    exists b. split; [exact Hp|]. apply Hb. exists 1559731985. split; [vm_compute; split; discriminate|]. split.
    + exists 3600. vm_compute. split; [split; discriminate|reflexivity].
    + vm_compute. reflexivity.
Defined.
