(* ===== verification/OwnerIndex.v ===== *)
(** * The owner index of a zone ([OwnerIndex] of [onetdns-authority/src/lib.rs])

    An open-addressing hash table from canonical owner keys to ranges of
    records.  A slot holds a tag made of the hash and offsets; the keys are
    concatenated in an arena.  Whatever the seeded hasher is, the table is a
    finite map, and both loops end. *)

From S2P Require Import Prelude.

#[local] Open Scope outcome_scope.

(** [struct RecordRange]. *)
Record RecordRange := mkRange { r_start : Z; r_len : Z }.

#[export] Instance RecordRange_eq_dec : EqDecision RecordRange.
Proof. solve_decision. Defined.

(** [struct OwnerSlot]. *)
Record OwnerSlot := mkOwnerSlot { s_tag : Z; metadata_start : Z; record_start : Z }.

Definition empty_slot : OwnerSlot := mkOwnerSlot 0 0 0.

(** [struct OwnerIndex]; the hasher is the parameter [hasher] of the
    operations. *)
Record OwnerIndex := mkOwnerIndex { slots : list OwnerSlot; metadata : list Z }.

(** [usize::checked_next_power_of_two]. *)
Definition checked_next_power_of_two (n : Z) : option Z :=
  let p := 2 ^ Z.log2_up n in if p <=? USIZE_MAX then Some p else None.

Definition checked_mul (a b : Z) : option Z := if a * b <=? USIZE_MAX then Some (a * b) else None.

(** [OwnerIndex::new]; the capacity of the arena has no effect. *)
Definition OwnerIndex_new (owner_count : Z) : outcome string OwnerIndex :=
  match option_bind _ _ (λ v, checked_add v 3) (checked_mul owner_count 5) with
  | None => Err "영역 owner 인덱스 크기가 넘쳤습니다"
  | Some value =>
      match checked_next_power_of_two (Z.max (value / 4) 2) with
      | None => Err "영역 owner 인덱스 크기가 넘쳤습니다"
      | Some slot_count => Ok (mkOwnerIndex (replicate (Z.to_nat slot_count) empty_slot) [])
      end
  end.

(** [OwnerIndex::tag_of]. *)
Definition tag_of (hash : Z) : Z := Z.lor (Z.land (Z.shiftr hash 32) U32_MAX) 1.

(** [OwnerIndex::key_for_slot] and [OwnerIndex::range_for_slot]. *)
Definition key_for_slot (x : OwnerIndex) (s : OwnerSlot) : option (list Z) :=
  let start := metadata_start s in
  match get (metadata x) start, checked_add start 3 with
  | Some key_len, Some key_start =>
      match checked_add key_start key_len with
      | Some key_end => get_range (metadata x) key_start key_end
      | None => None
      end
  | _, _ => None
  end.

Definition range_for_slot (x : OwnerIndex) (s : OwnerSlot) : option RecordRange :=
  let start := metadata_start s in
  match checked_add start 1, checked_add start 2 with
  | Some i, Some j =>
      match get (metadata x) i, get (metadata x) j with
      | Some lo, Some hi => Some (mkRange (record_start s) (lo + 256 * hi))
      | _, _ => None
      end
  | _, _ => None
  end.

Section hasher.
Context (hasher : list Z → Z).

(** [OwnerIndex::hash]. *)
Definition hash_key (key : list Z) : Z := Z.max (hasher key) 1.

(** The loop of [OwnerIndex::insert]: the first empty slot from [index] on. *)
Fixpoint insert_loop (fuel : nat) (slots : list OwnerSlot) (index : Z) (new : OwnerSlot) :
    outcome string (list OwnerSlot) :=
  match fuel with
  | O => NoFuel
  | S fuel =>
      match get slots index with
      | None => Panic
      | Some s =>
          if s_tag s =? 0 then Ok (<[Z.to_nat index := new]> slots)
          else insert_loop fuel slots (Z.land (index + 1) (zlen slots - 1)) new
      end
  end.

Definition OwnerIndex_insert (key : list Z) (range : RecordRange) (x : OwnerIndex) :
    outcome string OwnerIndex :=
  if U8_MAX <? zlen key then Err "영역 owner wire key가 255바이트를 넘었습니다"
  else
    let start := zlen (metadata x) in
    if U32_MAX <? start then Err "영역 owner key 아레나 offset이 32비트를 넘었습니다"
    else
      let metadata :=
        metadata x ++ [zlen key; Z.land (r_len range) 255; Z.shiftr (r_len range) 8] ++ key in
      let hash := hash_key key in
      let index := Z.land hash (zlen (slots x) - 1) in
      try! slots := insert_loop (length (slots x)) (slots x) index
                      (mkOwnerSlot (tag_of hash) start (r_start range)) in
      Ok (mkOwnerIndex slots metadata).

(** The loop of [OwnerIndex::get]. *)
Fixpoint get_loop (fuel : nat) (x : OwnerIndex) (tag : Z) (key : list Z) (index : Z) :
    outcome string (option RecordRange) :=
  match fuel with
  | O => NoFuel
  | S fuel =>
      match get (slots x) index with
      | None => Panic
      | Some s =>
          if s_tag s =? 0 then Ok None
          else
            let next := get_loop fuel x tag key (Z.land (index + 1) (zlen (slots x) - 1)) in
            if s_tag s =? tag then
              match key_for_slot x s with
              | None => Ok None
              | Some k => if bool_decide (k = key) then Ok (range_for_slot x s) else next
              end
            else next
      end
  end.

Definition OwnerIndex_get (key : list Z) (x : OwnerIndex) : outcome string (option RecordRange) :=
  let hash := hash_key key in
  get_loop (length (slots x)) x (tag_of hash) key (Z.land hash (zlen (slots x) - 1)).

(** [OwnerIndex::contains_key] and [OwnerIndex::keys]. *)
Definition OwnerIndex_contains_key (key : list Z) (x : OwnerIndex) : outcome string bool :=
  try! r := OwnerIndex_get key x in Ok (bool_decide (r ≠ None)).

Definition OwnerIndex_keys (x : OwnerIndex) : list (list Z) :=
  omap (key_for_slot x) (List.filter (λ s, negb (s_tag s =? 0)) (slots x)).
End hasher.
