(* ===== verification/OwnerIndexSpec.v ===== *)
(** * The owner index is a finite map

    Linear probing over a table with a free slot: an entry is found by the
    probes that inserted it, and a key that was not inserted ends at a free
    slot. *)

From S2P Require Import Prelude OwnerIndex.

#[local] Open Scope outcome_scope.

(** The entry that a slot stands for. *)
Definition slot_entry (x : OwnerIndex) (s : OwnerSlot) : option (list Z * RecordRange) :=
  match key_for_slot x s, range_for_slot x s with
  | Some k, Some r => Some (k, r)
  | _, _ => None
  end.

(** The slot of the [j]-th probe from hash [h] in a table of [n] slots. *)
Definition probe (n h j : Z) : Z := (h + j) mod n.

Section hasher.
Context (hasher : list Z → Z).

Definition used (s : OwnerSlot) : bool := negb (s_tag s =? 0).

(** The table holds the entries [es]. *)
Record index_ok (x : OwnerIndex) (es : list (list Z * RecordRange)) : Prop := mkIndexOk {
  io_pow : ∃ k, 1 ≤ k ∧ zlen (slots x) = 2 ^ k;
  io_used : length (List.filter used (slots x)) = length es;
  io_slots : ∀ s, s ∈ slots x → used s = true →
    ∃ e, e ∈ es ∧ slot_entry x s = Some e;
  io_entries : ∀ e, e ∈ es → ∃ j s,
    0 ≤ j < zlen (slots x) ∧ get (slots x) (probe (zlen (slots x)) (hash_key hasher e.1) j) = Some s ∧
    s_tag s = tag_of (hash_key hasher e.1) ∧ slot_entry x s = Some e ∧
    ∀ i s', 0 ≤ i < j → get (slots x) (probe (zlen (slots x)) (hash_key hasher e.1) i) = Some s' → used s' = true;
  io_keys : NoDup es.*1;
  io_room : (length es < length (slots x))%nat;
}.

(** ** Probing *)

Lemma tag_of_used h s : s_tag s = tag_of h → used s = true.
Proof.
  unfold used, tag_of. intros ->. generalize (Z.land (Z.shiftr h 32) U32_MAX) as v. intros v.
  apply negb_true_iff, Z.eqb_neq. intros E.
  apply (f_equal (λ v, Z.testbit v 0)) in E. by rewrite Z.lor_spec, orb_true_r in E.
Qed.

Lemma land_probe n k h : 0 ≤ k → n = 2 ^ k → Z.land h (n - 1) = h mod n.
Proof.
  intros Hk ->. rewrite <- Z.land_ones by done. f_equal. rewrite Z.ones_equiv. lia.
Qed.

Lemma probe_range n h j : 0 < n → 0 ≤ probe n h j < n.
Proof. apply Z.mod_pos_bound. Qed.

Lemma probe_next n k h j : 0 ≤ k → n = 2 ^ k → Z.land (probe n h j + 1) (n - 1) = probe n h (j + 1).
Proof.
  intros Hk Hn. assert (0 < n) by (subst; apply Z.pow_pos_nonneg; lia).
  rewrite (land_probe n k) by done. unfold probe. rewrite Zplus_mod_idemp_l. f_equal. lia.
Qed.

(** Every slot is probed. *)
Lemma probe_covers n h p : 0 ≤ p < n → ∃ j, 0 ≤ j < n ∧ probe n h j = p.
Proof.
  intros Hp. exists ((p - h) mod n). split; [apply Z.mod_pos_bound; lia|].
  unfold probe. rewrite Zplus_mod_idemp_r. replace (h + (p - h)) with p by lia. by apply Z.mod_small.
Qed.

(** ** Free slots *)

Lemma filter_full {A} (f : A → bool) l : (length l ≤ length (List.filter f l))%nat → ∀ a, a ∈ l → f a = true.
Proof.
  induction l as [|b l IH]; intros Hl a Ha; [by apply not_elem_of_nil in Ha|].
  pose proof (List.filter_length_le f l) as Hle. simpl in Hl.
  destruct (f b) eqn:E; simpl in Hl; [|lia].
  apply elem_of_cons in Ha as [->|Ha]; [done|]. apply IH; [lia|done].
Qed.

Lemma free_slot x es h : index_ok x es →
  ∃ j s, 0 ≤ j < zlen (slots x) ∧ get (slots x) (probe (zlen (slots x)) h j) = Some s ∧ used s = false.
Proof.
  intros [_ Hu _ _ _ Hr]. destruct (forallb used (slots x)) eqn:Ef.
  - exfalso. assert (List.filter used (slots x) = slots x) as E.
    { clear -Ef. induction (slots x) as [|s l IH]; [done|]. simpl in *. apply andb_prop in Ef as [-> Ef].
      by rewrite IH. }
    rewrite E in Hu. lia.
  - assert (∃ s, s ∈ slots x ∧ used s = false) as (s & Hs & Es).
    { clear -Ef. induction (slots x) as [|s l IH]; [done|]. simpl in Ef. destruct (used s) eqn:E.
      - destruct (IH Ef) as (s' & ? & ?). exists s'. split; [by right|done].
      - exists s. split; [by left|done]. }
    apply list_elem_of_lookup in Hs as [i Hi]. pose proof (lookup_lt_Some _ _ _ Hi) as Hlt.
    destruct (probe_covers (zlen (slots x)) h (Z.of_nat i)) as (j & Hj & Ej); [unfold zlen; lia|].
    exists j, s. split; [done|]. rewrite Ej. split; [|done]. apply get_Some_lookup.
    split; [lia|]. by rewrite Nat2Z.id.
Qed.

(** ** Lookup *)

Lemma entry_unique (es : list (list Z * RecordRange)) e e' :
  NoDup es.*1 → e ∈ es → e' ∈ es → e.1 = e'.1 → e = e'.
Proof.
  intros Hnd [i Hi]%list_elem_of_lookup [j Hj]%list_elem_of_lookup Ek.
  assert (i = j) as ->; [|congruence].
  apply (NoDup_lookup _ _ _ e.1 Hnd); rewrite list_lookup_fmap; [by rewrite Hi|rewrite Hj; simpl; by f_equal].
Qed.

Section lookup.
Context (x : OwnerIndex) (es : list (list Z * RecordRange)) (Hok : index_ok x es).

Let n : Z := zlen (slots x).

Lemma index_pos : 0 < n.
Proof. destruct (io_pow _ _ Hok) as (k & Hk & E). unfold n. rewrite E. apply Z.pow_pos_nonneg; lia. Qed.

Lemma slot_there h j : ∃ s, get (slots x) (probe n h j) = Some s ∧ s ∈ slots x.
Proof.
  destruct (get_is_Some (slots x) (probe n h j)) as [s Hs]; [apply probe_range, index_pos|].
  exists s. split; [done|]. apply get_Some_lookup in Hs as [_ Hs]. by eapply list_elem_of_lookup_2.
Qed.

Lemma get_loop_step fuel tag key h j s e :
  get (slots x) (probe n h j) = Some s → used s = true → slot_entry x s = Some e →
  get_loop (S fuel) x tag key (probe n h j) =
    if (s_tag s =? tag) && bool_decide (e.1 = key) then Ok (Some e.2)
    else get_loop fuel x tag key (probe n h (j + 1)).
Proof.
  intros Hs Hu He. cbn [get_loop]. rewrite Hs. unfold used in Hu. apply negb_true_iff in Hu as ->.
  destruct (io_pow _ _ Hok) as (k & Hk & E). fold n.
  rewrite (probe_next n k) by (done || lia). unfold slot_entry in He.
  destruct (key_for_slot x s) as [ks|]; [|done]. destruct (range_for_slot x s); [|done].
  injection He as <-. simpl. by destruct (s_tag s =? tag), (bool_decide (ks = key)).
Qed.

Lemma get_loop_found e j0 s0 fuel : ∀ j,
  e ∈ es → 0 ≤ j ≤ j0 → get (slots x) (probe n (hash_key hasher e.1) j0) = Some s0 →
  s_tag s0 = tag_of (hash_key hasher e.1) → slot_entry x s0 = Some e →
  (∀ i s', 0 ≤ i < j0 → get (slots x) (probe n (hash_key hasher e.1) i) = Some s' → used s' = true) →
  (Z.to_nat (j0 - j) < fuel)%nat →
  get_loop fuel x (tag_of (hash_key hasher e.1)) e.1 (probe n (hash_key hasher e.1) j) = Ok (Some e.2).
Proof.
  induction fuel as [|fuel IH]; intros j He Hj H0 Ht0 He0 Hpath Hf; [lia|].
  destruct (decide (j = j0)) as [->|Hne].
  - assert (Hu0 : used s0 = true).
    { by eapply tag_of_used. }
    rewrite (get_loop_step _ _ _ _ _ _ _ H0 Hu0 He0), Ht0, Z.eqb_refl, bool_decide_eq_true_2; done.
  - destruct (slot_there (hash_key hasher e.1) j) as (s & Hs & Hin).
    assert (Hu : used s = true) by (apply (Hpath j); [lia|done]).
    destruct (io_slots _ _ Hok s Hin Hu) as (e' & He' & Hse).
    rewrite (get_loop_step _ _ _ _ _ _ _ Hs Hu Hse).
    destruct (_ && _) eqn:Eb; [|apply IH; try done; lia].
    apply andb_prop in Eb as [_ Ek]. apply bool_decide_eq_true in Ek. do 2 f_equal.
    assert (e' = e) as ->; [|done]. eapply entry_unique; [apply Hok|done..].
Qed.

Lemma get_loop_absent key j0 s0 fuel : ∀ j,
  key ∉ es.*1 → 0 ≤ j ≤ j0 → get (slots x) (probe n (hash_key hasher key) j0) = Some s0 → used s0 = false →
  (Z.to_nat (j0 - j) < fuel)%nat →
  get_loop fuel x (tag_of (hash_key hasher key)) key (probe n (hash_key hasher key) j) = Ok None.
Proof.
  induction fuel as [|fuel IH]; intros j Hk Hj H0 Hu0 Hf; [lia|].
  destruct (slot_there (hash_key hasher key) j) as (s & Hs & Hin). destruct (used s) eqn:Hu.
  - destruct (io_slots _ _ Hok s Hin Hu) as (e' & He' & Hse).
    rewrite (get_loop_step _ _ _ _ _ _ _ Hs Hu Hse). rewrite bool_decide_eq_false_2, andb_false_r.
    + assert (j ≠ j0) by (intros ->; congruence). apply IH; try done; lia.
    + intros <-. apply Hk. apply list_elem_of_fmap. eauto.
  - cbn [get_loop]. rewrite Hs. unfold used in Hu. apply negb_false_iff in Hu. by rewrite Hu.
Qed.

Lemma probe_0 h k : 0 ≤ k → n = 2 ^ k → Z.land h (n - 1) = probe n h 0.
Proof. intros. rewrite (land_probe n k) by done. unfold probe. by rewrite Z.add_0_r. Qed.

(** The range that was inserted for a key. *)
Definition entry_of (key : list Z) (es : list (list Z * RecordRange)) : option RecordRange :=
  (λ p, p.2.2) <$> list_find (λ e, e.1 = key) es.

(** [get] finds what was inserted, and nothing else. *)
Lemma OwnerIndex_get_spec key :
  OwnerIndex_get hasher key x = Ok (entry_of key es).
Proof.
  destruct (io_pow _ _ Hok) as (k & Hk & E). unfold OwnerIndex_get, entry_of. fold n in E |- *.
  rewrite (probe_0 _ k) by (done || lia).
  destruct (list_find (λ e, e.1 = key) es) as [[i e]|] eqn:Ef; simpl.
  - apply list_find_Some in Ef as (He & <- & _). apply list_elem_of_lookup_2 in He.
    destruct (io_entries _ _ Hok e He) as (j & s & Hj & Hs & Ht & Hse & Hpath).
    apply (get_loop_found e j s); try done; [lia|unfold zlen in Hj; lia].
  - apply list_find_None in Ef. destruct (free_slot x es (hash_key hasher key) Hok) as (j & s & Hj & Hs & Hu).
    apply (get_loop_absent key j s); try done; [|lia|unfold zlen in Hj; lia].
    intros (e & -> & He)%list_elem_of_fmap. rewrite Forall_forall in Ef. by apply (Ef e).
Qed.

(** ** Insertion *)
Lemma insert_loop_spec h new fuel j0 s0 : ∀ j,
  0 ≤ j ≤ j0 → get (slots x) (probe n h j0) = Some s0 → used s0 = false → (Z.to_nat (j0 - j) < fuel)%nat →
  ∃ j1 s1, j ≤ j1 ≤ j0 ∧ get (slots x) (probe n h j1) = Some s1 ∧ used s1 = false ∧
    (∀ i s', j ≤ i < j1 → get (slots x) (probe n h i) = Some s' → used s' = true) ∧
    insert_loop fuel (slots x) (probe n h j) new = Ok (<[Z.to_nat (probe n h j1) := new]> (slots x)).
Proof.
  destruct (io_pow _ _ Hok) as (k & Hk & E). fold n in E.
  induction fuel as [|fuel IH]; intros j Hj H0 Hu0 Hf; [lia|].
  destruct (slot_there h j) as (s & Hs & Hin). cbn [insert_loop]. rewrite Hs. destruct (used s) eqn:Hu.
  - assert (j ≠ j0) by (intros ->; congruence).
    destruct (IH (j + 1)) as (j1 & s1 & Hj1 & Hs1 & Hu1 & Hp & Hi); [lia|done|done|lia|].
    exists j1, s1. split_and!; [lia|lia|done|done| |].
    + intros i s' Hij Hs'. destruct (decide (i = j)) as [->|]; [congruence|]. apply (Hp i); [lia|done].
    + unfold used in Hu. apply negb_true_iff in Hu as ->. fold n. by rewrite (probe_next n k) by (done || lia).
  - exists j, s. split_and!; [lia|lia|done|done|lia|].
    unfold used in Hu. apply negb_false_iff in Hu. by rewrite Hu.
Qed.
End lookup.

(** The arena only grows: the entries of the slots stay. *)
Lemma get_range_grows {A} (l k : list A) a b y : get_range l a b = Some y → get_range (l ++ k) a b = Some y.
Proof.
  intros Hs. destruct (get_range_Some _ _ _ _ Hs) as (Ha & Hb & -> & _). pose proof (zlen_nonneg k).
  unfold get_range in *. rewrite zlen_app.
  destruct (Z.leb_spec 0 a), (Z.leb_spec a b), (Z.leb_spec b (zlen l + zlen k)); try lia; simpl.
  f_equal. unfold zlen in *. rewrite drop_app_le by lia. rewrite take_app_le; [done|]. rewrite length_drop. lia.
Qed.

Lemma slot_entry_grows ss ss' m k s e :
  slot_entry (mkOwnerIndex ss m) s = Some e → slot_entry (mkOwnerIndex ss' (m ++ k)) s = Some e.
Proof.
  unfold slot_entry, key_for_slot, range_for_slot. simpl.
  destruct (get m (metadata_start s)) eqn:E0; [|done]. rewrite (get_Some_app _ _ _ _ E0).
  destruct (checked_add (metadata_start s) 3); [|done]. destruct (checked_add _ z); [|done].
  destruct (get_range m _ _) eqn:Er; [|done]. rewrite (get_range_grows _ _ _ _ _ Er).
  destruct (checked_add (metadata_start s) 1), (checked_add (metadata_start s) 2); try done.
  destruct (get m z2) eqn:E1; [|done]. destruct (get m z3) eqn:E2; [|done].
  by rewrite (get_Some_app _ _ _ _ E1), (get_Some_app _ _ _ _ E2).
Qed.

Lemma slot_entry_new ss m key r t :
  zlen key ≤ U8_MAX → zlen m ≤ U32_MAX → is_u16 (r_len r) →
  slot_entry (mkOwnerIndex ss (m ++ [zlen key; Z.land (r_len r) 255; Z.shiftr (r_len r) 8] ++ key))
    (mkOwnerSlot t (zlen m) (r_start r)) = Some (key, r).
Proof.
  intros Hk Hm Hr. pose proof (zlen_nonneg m). pose proof (zlen_nonneg key).
  unfold slot_entry, key_for_slot, range_for_slot, checked_add. cbn [metadata_start record_start metadata].
  unfold U32_MAX, U8_MAX, USIZE_MAX in *.
  rewrite get_app_r, Z.sub_diag by lia. cbn [get Z.ltb Z.compare]. simpl (_ !! _).
  destruct (Z.leb_spec (zlen m + 3) 18446744073709551615); [|lia].
  destruct (Z.leb_spec (zlen m + 3 + zlen key) 18446744073709551615); [|lia].
  destruct (Z.leb_spec (zlen m + 1) 18446744073709551615); [|lia].
  destruct (Z.leb_spec (zlen m + 2) 18446744073709551615); [|lia].
  assert (get_range (m ++ [zlen key; Z.land (r_len r) 255; Z.shiftr (r_len r) 8] ++ key) (zlen m + 3)
    (zlen m + 3 + zlen key) = Some key) as ->.
  { set (three := [zlen key; Z.land (r_len r) 255; Z.shiftr (r_len r) 8]).
    replace (zlen m + 3) with (zlen (m ++ three)) by (rewrite zlen_app; reflexivity).
    pose proof (get_range_app (m ++ three) key []) as G. by rewrite app_nil_r, <- app_assoc in G. }
  rewrite (get_app_r m _ (zlen m + 1)), (get_app_r m _ (zlen m + 2)) by lia.
  replace (zlen m + 1 - zlen m) with 1 by lia. replace (zlen m + 2 - zlen m) with 2 by lia.
  change (get (_ ++ key) 1) with (Some (Z.land (r_len r) 255)).
  change (get (_ ++ key) 2) with (Some (Z.shiftr (r_len r) 8)). cbv iota beta.
  do 2 f_equal. destruct r as [st len]. cbn [r_start r_len]. f_equal.
  rewrite Z.shiftr_div_pow2 by lia. change 255 with (Z.ones 8). rewrite Z.land_ones by lia.
  pose proof (Z.div_mod len (2 ^ 8)). lia.
Qed.

(** Putting a used slot into a free place. *)
Lemma filter_insert_used (l : list OwnerSlot) i s s' :
  l !! i = Some s → used s = false → used s' = true →
  length (List.filter used (<[i := s']> l)) = S (length (List.filter used l)).
Proof.
  intros Hi Hs Hs'. rewrite <- (take_drop_middle l i s Hi) at 2.
  rewrite (insert_take_drop l i s') by (by eapply lookup_lt_Some).
  rewrite !List.filter_app, !length_app. simpl. rewrite Hs, Hs'. simpl. lia.
Qed.

(** The slots after an insertion. *)
Lemma get_insert_cases (l : list OwnerSlot) i new j s :
  0 ≤ i → get (<[Z.to_nat i := new]> l) j = Some s → (j = i ∧ s = new) ∨ (j ≠ i ∧ get l j = Some s).
Proof.
  intros Hi [Hj Hs]%get_Some_lookup. apply list_lookup_insert_Some in Hs as [(E & -> & _)|(Hne & Hs)].
  - left. split; [lia|done].
  - right. split; [intros ->; lia|]. by apply get_Some_lookup.
Qed.

Lemma get_insert_ne (l : list OwnerSlot) i new j :
  0 ≤ i → j ≠ i → get (<[Z.to_nat i := new]> l) j = get l j.
Proof.
  intros Hi Hne. unfold get. destruct (Z.ltb_spec j 0); [done|]. apply list_lookup_insert_ne. lia.
Qed.

Lemma get_insert_eq (l : list OwnerSlot) i new : 0 ≤ i < zlen l → get (<[Z.to_nat i := new]> l) i = Some new.
Proof.
  intros Hi. apply get_Some_lookup. split; [lia|]. apply list_lookup_insert_eq. unfold zlen in Hi. lia.
Qed.

(** The table with one more entry, at the place that the probes of its key
    reach first. *)
Section insert.
Context (x : OwnerIndex) (es : list (list Z * RecordRange)) (Hok : index_ok x es).
Context (key : list Z) (r : RecordRange) (m' : list Z) (new s1 : OwnerSlot) (j1 : Z).

Let N : Z := zlen (slots x).
Let p : Z := probe N (hash_key hasher key) j1.

Hypothesis Hk : key ∉ es.*1.
Hypothesis Hj1 : 0 ≤ j1 < N.
Hypothesis Hs1 : get (slots x) p = Some s1.
Hypothesis Hu1 : used s1 = false.
Hypothesis Hpath : ∀ i s', 0 ≤ i < j1 → get (slots x) (probe N (hash_key hasher key) i) = Some s' → used s' = true.
Hypothesis Htag : s_tag new = tag_of (hash_key hasher key).
Hypothesis Hnewe : ∀ ss, slot_entry (mkOwnerIndex ss m') new = Some (key, r).
Hypothesis Hold : ∀ ss s e, slot_entry x s = Some e → slot_entry (mkOwnerIndex ss m') s = Some e.
Hypothesis Hroom : (S (length es) < length (slots x))%nat.

Let x' : OwnerIndex := mkOwnerIndex (<[Z.to_nat p := new]> (slots x)) m'.

Lemma new_used : used new = true.
Proof. by eapply tag_of_used. Qed.

Lemma place_range : 0 ≤ p < N.
Proof. apply probe_range. unfold N in *. lia. Qed.

Lemma insert_entries e : e ∈ es ++ [(key, r)] → ∃ j s,
  0 ≤ j < N ∧ get (slots x') (probe N (hash_key hasher e.1) j) = Some s ∧
  s_tag s = tag_of (hash_key hasher e.1) ∧ slot_entry x' s = Some e ∧
  ∀ i s', 0 ≤ i < j → get (slots x') (probe N (hash_key hasher e.1) i) = Some s' → used s' = true.
Proof.
  pose proof place_range as Hp. intros [He|He%list_elem_of_singleton]%elem_of_app.
  - destruct (io_entries _ _ Hok e He) as (j & s & Hj & Hs & Ht & Hse & Hpt). exists j, s.
    fold N in Hj, Hs, Hpt. split_and!; [lia|lia| |done| |].
    + simpl. rewrite get_insert_ne; [done|lia|]. intros E. rewrite E, Hs1 in Hs. injection Hs as <-.
      by rewrite (tag_of_used _ _ Ht) in Hu1.
    + by apply Hold.
    + intros i s' Hi Hg. apply get_insert_cases in Hg as [(_ & ->)|(_ & Hg)]; [apply new_used|by eapply Hpt|lia].
  - subst e. exists j1, new. split_and!; [lia|lia|by apply get_insert_eq|done|apply Hnewe|].
    intros i s' Hi Hg. apply get_insert_cases in Hg as [(_ & ->)|(_ & Hg)]; [apply new_used|by eapply Hpath|lia].
Qed.

Lemma index_ok_insert : index_ok x' (es ++ [(key, r)]).
Proof.
  pose proof place_range as Hp. assert (HN : zlen (slots x') = N) by apply zlen_insert.
  constructor.
  - rewrite HN. apply Hok.
  - apply get_Some_lookup in Hs1 as [_ Hs]. simpl. rewrite (filter_insert_used _ _ s1) by (done || apply new_used).
    rewrite (io_used _ _ Hok), length_app. simpl. lia.
  - intros s Hs Hu. apply list_elem_of_lookup in Hs as [i Hi].
    apply list_lookup_insert_Some in Hi as [(_ & <- & _)|(_ & Hs)].
    + exists (key, r). split; [set_solver|]. apply Hnewe.
    + destruct (io_slots _ _ Hok s) as (e & He & Hse); [by eapply list_elem_of_lookup_2|done|].
      exists e. split; [set_solver|]. by apply Hold.
  - rewrite HN. apply insert_entries.
  - rewrite fmap_app. apply NoDup_app. split_and!; [apply Hok| |apply NoDup_singleton].
    intros k Hin ->%list_elem_of_singleton. done.
  - simpl. rewrite length_insert, length_app. simpl. lia.
Qed.
End insert.

Lemma OwnerIndex_insert_spec x es key r :
  index_ok x es → key ∉ es.*1 → zlen key ≤ U8_MAX → zlen (metadata x) ≤ U32_MAX → is_u16 (r_len r) →
  (S (length es) < length (slots x))%nat →
  ∃ x', OwnerIndex_insert hasher key r x = Ok x' ∧ index_ok x' (es ++ [(key, r)]) ∧
    length (slots x') = length (slots x) ∧ zlen (metadata x') = zlen (metadata x) + 3 + zlen key.
Proof.
  intros Hok Hk Hlen Hm Hr Hroom. destruct (io_pow _ _ Hok) as (k & Hkp & Epow).
  destruct (free_slot x es (hash_key hasher key) Hok) as (j0 & s0 & Hj0 & Hs0 & Hu0).
  set (new := mkOwnerSlot (tag_of (hash_key hasher key)) (zlen (metadata x)) (r_start r)).
  destruct (insert_loop_spec x es Hok (hash_key hasher key) new (length (slots x)) j0 s0 0)
    as (j1 & s1 & Hj1 & Hs1 & Hu1 & Hpath & Hi); [lia|done|done|unfold zlen in Hj0; lia|].
  set (m' := metadata x ++ [zlen key; Z.land (r_len r) 255; Z.shiftr (r_len r) 8] ++ key).
  eexists (mkOwnerIndex _ m'). split_and!.
  - unfold OwnerIndex_insert. destruct (Z.ltb_spec U8_MAX (zlen key)); [lia|].
    destruct (Z.ltb_spec U32_MAX (zlen (metadata x))); [lia|].
    rewrite (probe_0 x _ k) by (done || lia). fold new. rewrite Hi. done.
  - apply (index_ok_insert x es Hok key r m' new s1); try done; [lia| |].
    + intros ss. by apply slot_entry_new.
    + intros ss s e He. destruct x as [sx mx]. by eapply slot_entry_grows.
  - apply length_insert.
  - unfold m'. cbn [metadata]. rewrite !zlen_app. change (zlen [_; _; _]) with 3. lia.
Qed.

(** ** A new table *)
Lemma OwnerIndex_new_spec count :
  0 ≤ count ≤ U32_MAX → ∃ x, OwnerIndex_new count = Ok x ∧ index_ok x [] ∧
    count < zlen (slots x) ∧ metadata x = [].
Proof.
  intros Hc. unfold OwnerIndex_new, checked_mul, U32_MAX, USIZE_MAX in *.
  destruct (Z.leb_spec (count * 5) 18446744073709551615); [|lia]. simpl. unfold checked_add, USIZE_MAX.
  destruct (Z.leb_spec (count * 5 + 3) 18446744073709551615); [|lia].
  set (m := Z.max ((count * 5 + 3) / 4) 2). assert (Hm : 2 ≤ m ≤ 2 ^ 33).
  { unfold m. pose proof (Z.div_le_upper_bound (count * 5 + 3) 4 (2 ^ 33)). lia. }
  assert (Hcm : count < m).
  { unfold m. pose proof (Z.mul_div_le (count * 5 + 3) 4). pose proof (Z.mod_pos_bound (count * 5 + 3) 4).
    pose proof (Z.div_mod (count * 5 + 3) 4). lia. }
  pose proof (Z.log2_up_spec m ltac:(lia)) as [_ Hup].
  assert (1 ≤ Z.log2_up m ≤ 33) as Hlog.
  { split; [apply (Z.log2_up_le_mono 2); lia|]. rewrite <- (Z.log2_up_pow2 33) by lia.
    apply Z.log2_up_le_mono. lia. }
  assert (2 ^ Z.log2_up m ≤ 2 ^ 33) by (apply Z.pow_le_mono_r; lia).
  unfold checked_next_power_of_two, USIZE_MAX.
  destruct (Z.leb_spec (2 ^ Z.log2_up m) 18446744073709551615); [|lia].
  assert (Hlen : zlen (replicate (Z.to_nat (2 ^ Z.log2_up m)) empty_slot) = 2 ^ Z.log2_up m).
  { unfold zlen. rewrite length_replicate. lia. }
  eexists. split_and!; [done| |cbn [slots]; lia|done].
  assert (Hno : ∀ s, s ∈ replicate (Z.to_nat (2 ^ Z.log2_up m)) empty_slot → used s = false).
  { intros s Hs%elem_of_replicate. destruct Hs as [-> _]. done. }
  constructor; cbn [slots metadata].
  - exists (Z.log2_up m). split; [lia|done].
  - clear. by induction (Z.to_nat (2 ^ Z.log2_up m)).
  - intros s Hs Hu. by rewrite Hno in Hu.
  - intros e He. by apply not_elem_of_nil in He.
  - constructor.
  - unfold zlen in *. simpl. lia.
Qed.

(** The keys of the table, in some order. *)
Lemma OwnerIndex_keys_spec x es : index_ok x es → ∀ k, k ∈ OwnerIndex_keys x ↔ k ∈ es.*1.
Proof.
  intros Hok k. unfold OwnerIndex_keys. rewrite list_elem_of_omap. split.
  - intros (s & Hs & Hk). apply list_elem_of_In, List.filter_In in Hs as [Hs%list_elem_of_In Hu].
    destruct (io_slots _ _ Hok s Hs Hu) as (e & He & Hse). unfold slot_entry in Hse. rewrite Hk in Hse.
    destruct (range_for_slot x s); [|done]. injection Hse as <-. apply list_elem_of_fmap. by exists (k, r).
  - intros (e & -> & He)%list_elem_of_fmap. destruct (io_entries _ _ Hok e He) as (j & s & _ & Hs & Ht & Hse & _).
    exists s. apply get_Some_lookup in Hs as [_ Hs%list_elem_of_lookup_2]. split.
    + apply list_elem_of_In, List.filter_In. split; [by apply list_elem_of_In|]. by eapply tag_of_used.
    + unfold slot_entry in Hse. destruct (key_for_slot x s); [|done]. destruct (range_for_slot x s); [|done].
      by injection Hse as <-.
Qed.
End hasher.
