(* ===== verification/ZoneData.v ===== *)
(** * The data of a zone ([onetdns-authority/src/lib.rs])

    Canonical keys and their parents, the order of names, the packed form of
    records, and the groups of records of one owner that loading works on.
    The texts of errors leave out the names and limits that they quote. *)

From S2P Require Import Prelude NameTable Wire Writer Name RData.
From S2P Require Import Ttl OwnerIndex.

#[local] Open Scope outcome_scope.

(** ** Outcomes *)

(** The operations on names have errors of another type. *)
Definition lift_name {A} (o : outcome ProtoError A) : outcome string A :=
  match o with
  | Ok a => Ok a
  | Err e => Err (ProtoError_to_string e)
  | Panic => Panic
  | NoFuel => NoFuel
  end.

(** A loop that may fail. *)
Fixpoint ofold {A B} (f : B → A → outcome string B) (b : B) (l : list A) : outcome string B :=
  match l with
  | [] => Ok b
  | a :: l => try! b := f b a in ofold f b l
  end.

(** [a..=b] and [a..b]. *)
Definition zrange_to (a b : Z) : list Z := map (λ i, a + Z.of_nat i) (seq 0 (Z.to_nat (b + 1 - a))).
Definition zrange (a b : Z) : list Z := zrange_to a (b - 1).

(** ** Names and canonical keys *)

(** [canonical_key_into] with a buffer of 255 octets. *)
Definition key_of (n : Name) : outcome string (option (list Z)) :=
  lift_name (Name_canonical_key_into n (replicate 255 0)).

Definition parent_canonical_key (key : list Z) : option (list Z) :=
  match key with
  | [] => None
  | label_len :: _ =>
      if label_len =? 0 then None
      else get_range key (label_len + 1) (zlen key)
  end.

Definition suffix (n : Name) (labels : Z) : outcome string Name := lift_name (Name_suffix n labels).

Definition is_subdomain_or_eq (n zone : Name) : outcome string bool :=
  if Name_num_labels n <? Name_num_labels zone then Ok false
  else try! s := suffix n (Name_num_labels zone) in Ok (Name_eq_ignore_case s zone).

(** [Iterator::cmp] on octets. *)
Fixpoint bytes_cmp (a b : list Z) : comparison :=
  match a, b with
  | [], [] => Eq
  | [], _ => Lt
  | _, [] => Gt
  | x :: a, y :: b => match x ?= y with Eq => bytes_cmp a b | c => c end
  end.

(** The loop of [dnssec_name_cmp] over the labels from the last one; [Eq] also
    when one list ends first. *)
Fixpoint labels_cmp (a b : list (list Z)) : comparison :=
  match a, b with
  | x :: a, y :: b =>
      match bytes_cmp (map ascii_lower x) (map ascii_lower y) with
      | Eq => labels_cmp a b
      | c => c
      end
  | _, _ => Eq
  end.

Definition dnssec_name_cmp (left right : Name) : comparison :=
  match labels_cmp (rev (Labels_collect (Name_labels left))) (rev (Labels_collect (Name_labels right))) with
  | Eq => Name_num_labels left ?= Name_num_labels right
  | c => c
  end.

(** [prepend_wildcard]; [expect] panics on a name that is too long. *)
Definition prepend_wildcard (parent : Name) : outcome string Name :=
  match Name_from_labels ([42] :: Labels_collect (Name_labels parent)) with
  | Ok n => Ok n
  | Err _ | Panic => Panic
  | NoFuel => NoFuel
  end.

(** ** Packed records *)

Definition STORED_TAG_SHIFT : Z := 30.
Definition STORED_TAG_A : Z := 0.
Definition STORED_TAG_AAAA : Z := 1.
Definition STORED_TAG_OTHER : Z := 2.
Definition STORED_VALUE_MASK : Z := Z.shiftl 1 STORED_TAG_SHIFT - 1.
Definition STORED_TTL_MAX : Z := STORED_VALUE_MASK.

(** [struct StoredRecord]. *)
Record StoredRecord := mkStored { tagged : Z; payload : Z }.

(** The two arenas that packed records point into. *)
Record Arenas := mkArenas { aaaa_arena : list (list Z); other_arena : list Record_ }.

(** [StoredRecord::from_record]. *)
Definition from_record (rec : Record_) (ar : Arenas) : outcome string (StoredRecord * Arenas) :=
  let ttl := Z.min (ttl rec) STORED_TTL_MAX in
  match rdata rec with
  | RD_A address =>
      Ok (mkStored (Z.lor (Z.shiftl STORED_TAG_A STORED_TAG_SHIFT) ttl) (be_val 0 address), ar)
  | RD_Aaaa address =>
      let index := zlen (aaaa_arena ar) in
      if U32_MAX <? index then Err "AAAA 주소 아레나 offset이 32비트를 넘었습니다"
      else Ok (mkStored (Z.lor (Z.shiftl STORED_TAG_AAAA STORED_TAG_SHIFT) ttl) index,
               mkArenas (aaaa_arena ar ++ [address]) (other_arena ar))
  | _ =>
      let index := zlen (other_arena ar) in
      if U32_MAX <? index then Err "레코드 아레나 offset이 32비트를 넘었습니다"
      else Ok (mkStored (Z.lor (Z.shiftl STORED_TAG_OTHER STORED_TAG_SHIFT) (rtype rec)) index,
               mkArenas (aaaa_arena ar) (other_arena ar ++ [rec]))
  end.

(** [tag], [ttl], [rtype] and [full]. *)
Definition stored_tag (s : StoredRecord) : Z := Z.shiftr (tagged s) STORED_TAG_SHIFT.
Definition stored_ttl (s : StoredRecord) : Z := Z.land (tagged s) STORED_VALUE_MASK.

Definition stored_rtype (s : StoredRecord) : Z :=
  if stored_tag s =? STORED_TAG_A then TYPE_A
  else if stored_tag s =? STORED_TAG_AAAA then TYPE_AAAA
  else Z.land (Z.land (tagged s) STORED_VALUE_MASK) U16_MAX.

Definition stored_full (s : StoredRecord) (ar : Arenas) : option Record_ :=
  if stored_tag s =? STORED_TAG_OTHER then get (other_arena ar) (payload s) else None.

(** [StoredRecord::materialize]. *)
Definition materialize (s : StoredRecord) (owner : Name) (ar : Arenas) : option Record_ :=
  if stored_tag s =? STORED_TAG_A then
    Some (Record_new owner (stored_ttl s) (RD_A (u32_to_be (payload s))))
  else if stored_tag s =? STORED_TAG_AAAA then
    match get (aaaa_arena ar) (payload s) with
    | Some address => Some (Record_new owner (stored_ttl s) (RD_Aaaa address))
    | None => None
    end
  else get (other_arena ar) (payload s).

#[global] Arguments stored_tag : simpl never.
#[global] Arguments stored_rtype : simpl never.
#[global] Arguments materialize : simpl never.
#[global] Arguments stored_full : simpl never.

(** [slice::partition_point] of a slice that the predicate partitions. *)
Fixpoint partition_point {A} (p : A → bool) (l : list A) : nat :=
  match l with
  | a :: l => if p a then S (partition_point p l) else O
  | [] => O
  end.

(** [stored_rrset]. *)
Definition stored_rrset (records : list StoredRecord) (t : Z) : list StoredRecord :=
  match records, last records with
  | first :: _, Some lst =>
      if (stored_rtype first =? t) && ((zlen records =? 1) || (stored_rtype lst =? t)) then records
      else
        let start := partition_point (λ r, stored_rtype r <? t) records in
        let tail := drop start records in
        take (partition_point (λ r, stored_rtype r =? t) tail) tail
  | _, _ => records
  end.

(** ** Owner groups *)

(** [owner_group_end]: the records with the owner of the first one. *)
Fixpoint same_owner (owner : Name) (records : list Record_) : nat :=
  match records with
  | r :: records => if Name_eq_ignore_case (name r) owner then S (same_owner owner records) else O
  | [] => O
  end.

(** The loop over the groups of records with one owner, that loading goes
    through several times: where each group starts, and the group. *)
Fixpoint owner_groups (fuel : nat) (start : Z) (records : list Record_) : list (Z * list Record_) :=
  match fuel, records with
  | S fuel, r :: rest =>
      let count := same_owner (name r) rest in
      (start, r :: take count rest) ::
      owner_groups fuel (start + 1 + Z.of_nat count) (drop count rest)
  | _, _ => []
  end.

Definition groups_of (records : list Record_) : list (Z * list Record_) :=
  owner_groups (length records) 0 records.

(** [normalize_owner_group_ttls]. *)
Definition normalize_owner_group_ttls (records : list Record_) : list Record_ :=
  concat (map (λ g, normalize_ttls g.2) (groups_of records)).

Section encoder.
(** The seed of the compression table of [Writer::new]. *)
Context (hb : list Z → Z).

(** One group of [drop_duplicate_records]; [seen] holds the type, class and
    data of the records kept. *)
Fixpoint drop_seen (seen : list (Z * Z * list Z)) (records : list Record_) : list Record_ :=
  match records with
  | [] => []
  | r :: records =>
      let w := RData_encode (rdata r) (Writer_new hb) in
      match werror w with
      | Some _ => r :: drop_seen seen records
      | None =>
          let k := (rtype r, class r, wbuf w) in
          if bool_decide (k ∈ seen) then drop_seen seen records
          else r :: drop_seen (k :: seen) records
      end
  end.

Definition drop_duplicate_records (records : list Record_) : list Record_ :=
  concat (map (λ g, if 1 <? zlen g.2 then drop_seen [] g.2 else g.2) (groups_of records)).
End encoder.

Definition MAX_ZONE_RECORDS : Z := 1000000.
Definition MAX_OWNER_RECORDS : Z := 4096.

Section hasher.
Context (hasher : list Z → Z).

Definition key_of_group (g : list Record_) : outcome string (list Z) :=
  match g with
  | [] => Panic
  | r :: _ =>
      try! key := key_of (name r) in
      match key with
      | Some key => Ok key
      | None => Err "DNS owner 이름이 최대 wire 길이를 넘었습니다"
      end
  end.

(** [build_owner_index]: counting first, then inserting. *)
Definition count_group (counted : Z * Z) (g : Z * list Record_) : outcome string (Z * Z) :=
  let '(owner_count, metadata_len) := counted in
  if MAX_OWNER_RECORDS <? zlen g.2 then Err "한 이름에 등록된 레코드 수가 허용 한도를 넘었습니다"
  else
    try! key := key_of_group g.2 in
    match option_bind _ _ (checked_add metadata_len) (checked_add (zlen key) 3) with
    | Some metadata_len => Ok (owner_count + 1, metadata_len)
    | None => Err "영역 owner key 아레나 크기가 넘쳤습니다"
    end.

Definition insert_group (x : OwnerIndex) (g : Z * list Record_) : outcome string OwnerIndex :=
  try! key := key_of_group g.2 in
  if U32_MAX <? g.1 then Err "영역 레코드 아레나 offset이 32비트를 넘었습니다"
  else if U16_MAX <? zlen g.2 then Err "owner 레코드 수가 16비트를 넘었습니다"
  else OwnerIndex_insert hasher key (mkRange g.1 (zlen g.2)) x.

Definition build_owner_index (records : list Record_) : outcome string OwnerIndex :=
  let groups := groups_of records in
  try! (owner_count, _) := ofold count_group (0, 0) groups in
  try! index := OwnerIndex_new owner_count in
  ofold insert_group index groups.

(** [full_records_for_key] and [full_record_groups]. *)
Definition full_records_for_key (records : list Record_) (index : OwnerIndex) (key : list Z) :
    outcome string (option (list Record_)) :=
  try! range := OwnerIndex_get hasher key index in
  match range with
  | None => Ok None
  | Some r =>
      match checked_add (r_start r) (r_len r) with
      | Some end_ => Ok (get_range records (r_start r) end_)
      | None => Ok None
      end
  end.

Fixpoint groups_for_keys (records : list Record_) (index : OwnerIndex) (keys : list (list Z)) :
    outcome string (list (list Z * list Record_)) :=
  match keys with
  | [] => Ok []
  | key :: keys =>
      try! g := full_records_for_key records index key in
      try! gs := groups_for_keys records index keys in
      match g with
      | Some g => Ok ((key, g) :: gs)
      | None => Ok gs
      end
  end.

Definition full_record_groups (records : list Record_) (index : OwnerIndex) :
    outcome string (list (list Z * list Record_)) :=
  groups_for_keys records index (OwnerIndex_keys index).
End hasher.
