(* ===== verification/ZoneNames.v ===== *)
(** * Names as paths

    The zone code identifies a name by its canonical key and walks to the
    parent by cutting the first label off the key.  This file relates the keys
    to paths, the labels in lower case from the leaf to the root: a key stands
    for one path, the parent of a key is the key of the rest of its path, and
    the order of names is the lexicographic order of reversed paths. *)

From S2P Require Import Prelude NameTable Wire Writer Name Codec NameCodec NameText RData.
From S2P Require Import Ttl OwnerIndex ZoneData.

#[local] Open Scope outcome_scope.

(** A path: lower-case labels from the leaf to the root. *)
Notation Path := (list (list Z)).

Definition labels_of (n : Name) : list (list Z) := Labels_collect (Name_labels n).
Definition path (n : Name) : Path := labels_lower (labels_of n).

(** ** Well-formed names *)

Lemma name_wf_labels n : Name_wf n → labels_wf (labels_of n) ∧ n = mkName (labels_wire (labels_of n)).
Proof.
  intros (ls & Hls & ->)%Name_labels_of. unfold labels_of. by rewrite Name_labels_collect.
Qed.

Lemma name_of_labels_wf ls : labels_wf ls → Name_wf (mkName (labels_wire ls)).
Proof. by exists ls. Qed.

Lemma labels_of_wire ls : labels_wf ls → labels_of (mkName (labels_wire ls)) = ls.
Proof. apply Name_labels_collect. Qed.

Lemma num_labels_path n : Name_wf n → Name_num_labels n = zlen (path n).
Proof.
  intros Hn. destruct (name_wf_labels n Hn) as [Hls Hn']. rewrite Hn' at 1.
  rewrite Name_num_labels_wf. unfold path, labels_lower. by rewrite zlen_map.
Qed.

Lemma path_wf n : Name_wf n → labels_wf (path n).
Proof. intros Hn. apply labels_lower_wf, name_wf_labels, Hn. Qed.

Lemma eq_ignore_case_path n m : Name_wf n → Name_wf m → Name_eq_ignore_case n m = true ↔ path n = path m.
Proof.
  intros Hn Hm. destruct (name_wf_labels n Hn) as [Hl ->], (name_wf_labels m Hm) as [Hk ->].
  unfold path. rewrite !labels_of_wire by done. rewrite labels_lower_equiv by (apply Hl || apply Hk). done.
Qed.

(** A test on names as a test on paths. *)
Lemma eq_ignore_case_bool n m :
  Name_wf n → Name_wf m → Name_eq_ignore_case n m = bool_decide (path n = path m).
Proof. intros Hn Hm. apply eq_iff_eq_true. rewrite bool_decide_eq_true. by apply eq_ignore_case_path. Qed.

(** ** Keys *)

(** A path is in lower case. *)
Definition path_ok (p : list (list Z)) : Prop := labels_wf p ∧ labels_lower p = p.

Lemma labels_lower_idem ls : labels_lower (labels_lower ls) = labels_lower ls.
Proof.
  unfold labels_lower. rewrite map_map. apply map_ext. intros l. rewrite map_map. apply map_ext.
  intros b. destruct (decide (65 ≤ b ≤ 90)) as [Hu|Hn].
  - rewrite (ascii_lower_upper b) by done. apply ascii_lower_other. lia.
  - by rewrite !(ascii_lower_other b) by lia.
Qed.

Lemma path_path_ok n : Name_wf n → path_ok (path n).
Proof. intros Hn. split; [by apply path_wf|]. apply labels_lower_idem. Qed.

Lemma path_ok_tail l p : path_ok (l :: p) → path_ok p.
Proof. intros [Hwf Hl]. split; [by eapply labels_wf_tail|]. by injection Hl. Qed.

Lemma path_ok_suffix p q : q `suffix_of` p → path_ok p → path_ok q.
Proof. intros [k ->]. induction k as [|l k IH]; [done|]. intros H%path_ok_tail. by apply IH. Qed.

Lemma canonical_key_path n : Name_wf n → Name_canonical_key n = labels_key (path n).
Proof.
  intros Hn. destruct (name_wf_labels n Hn) as [Hls Hn']. rewrite Hn' at 1.
  rewrite canonical_key_labels by done. apply labels_lower_key. symmetry. apply labels_lower_idem.
Qed.

Lemma key_of_path n : Name_wf n → key_of n = Ok (Some (labels_key (path n))).
Proof.
  intros Hn. unfold key_of. destruct (name_wf_labels n Hn) as [Hls Hn']. rewrite Hn' at 1.
  rewrite canonical_key_into_ok; [|done|by vm_compute]. simpl. do 2 f_equal.
  apply labels_lower_key. symmetry. apply labels_lower_idem.
Qed.

Lemma path_key_inj p q : path_ok p → path_ok q → labels_key p = labels_key q → p = q.
Proof.
  intros [[Hp _] Ep] [[Hq _] Eq] E%labels_key_inj; [|done..]. by rewrite Ep, Eq in E.
Qed.

Lemma path_key_len p : path_ok p → zlen (labels_key p) ≤ U8_MAX.
Proof. intros [Hp _]. rewrite zlen_labels_key. apply labels_wf_max in Hp. unfold U8_MAX. lia. Qed.

(** ** Parents *)

Lemma parent_key_cons l p : path_ok (l :: p) → parent_canonical_key (labels_key (l :: p)) = Some (labels_key p).
Proof.
  intros [[Hl _] _]. apply Forall_cons in Hl as [[Hl _] _].
  unfold parent_canonical_key. rewrite labels_key_cons. simpl. rewrite (proj2 (Z.eqb_neq _ _)) by lia.
  change (zlen l :: map ascii_lower l ++ labels_key p) with ((zlen l :: map ascii_lower l) ++ labels_key p).
  replace (zlen l + 1) with (zlen (zlen l :: map ascii_lower l)) by by rewrite zlen_cons, zlen_map.
  rewrite <- (app_nil_r (labels_key p)) at 1. rewrite zlen_app. by apply get_range_app.
Qed.

Lemma parent_key_nil : parent_canonical_key (labels_key []) = None.
Proof. reflexivity. Qed.

(** ** Suffixes *)

(** The name of the last [k] labels. *)
Definition ancestor (n : Name) (k : nat) : Name :=
  mkName (labels_wire (drop (length (labels_of n) - k) (labels_of n))).

Lemma length_path n : length (path n) = length (labels_of n).
Proof. apply length_map. Qed.

Lemma labels_lower_drop k ls : labels_lower (drop k ls) = drop k (labels_lower ls).
Proof. symmetry. apply skipn_map. Qed.

Lemma labels_wf_drop k ls : labels_wf ls → labels_wf (drop k ls).
Proof. rewrite <- (take_drop k ls) at 1. apply labels_wf_suffix. Qed.

Lemma ancestor_wf n k : Name_wf n → Name_wf (ancestor n k).
Proof. intros Hn. apply name_of_labels_wf, labels_wf_drop, name_wf_labels, Hn. Qed.

Lemma path_ancestor n k : Name_wf n → path (ancestor n k) = drop (length (path n) - k) (path n).
Proof.
  intros Hn. unfold ancestor, path at 1. rewrite labels_of_wire by apply labels_wf_drop, name_wf_labels, Hn.
  by rewrite labels_lower_drop, length_path.
Qed.

Lemma suffix_ancestor n k : Name_wf n → 0 ≤ k → suffix n k = Ok (ancestor n (Z.to_nat k)).
Proof.
  intros Hn Hk. destruct (name_wf_labels n Hn) as [Hls Hn']. unfold suffix, ancestor.
  destruct (Name_suffix_spec (labels_of n) k Hk) as (ks & ms & E & Hms & Hs).
  rewrite Hn' at 1. rewrite Hs. simpl. do 3 f_equal. rewrite E. symmetry.
  assert (length ms = Nat.min (Z.to_nat k) (length (ks ++ ms))) as Hlen.
  { rewrite E in Hms. unfold zlen in Hms. lia. }
  apply drop_app_length'. rewrite length_app in Hlen |- *. lia.
Qed.

Lemma is_subdomain_path n z : Name_wf n → Name_wf z →
  is_subdomain_or_eq n z = Ok (bool_decide (path z `suffix_of` path n)).
Proof.
  intros Hn Hz. unfold is_subdomain_or_eq. rewrite !num_labels_path by done.
  assert (Hsuf : path z `suffix_of` path n ↔
    (length (path z) ≤ length (path n))%nat ∧ drop (length (path n) - length (path z)) (path n) = path z).
  { split.
    - intros [k Hk]. rewrite Hk, length_app. split; [lia|]. apply drop_app_length'. lia.
    - intros [Hle Hd]. rewrite <- Hd. apply suffix_drop. }
  destruct (Z.ltb_spec (zlen (path n)) (zlen (path z))) as [Hlt|Hge].
  - f_equal. symmetry. apply bool_decide_eq_false. rewrite Hsuf. unfold zlen in Hlt. lia.
  - rewrite suffix_ancestor by (done || apply zlen_nonneg). simpl. f_equal.
    rewrite eq_ignore_case_bool by (done || by apply ancestor_wf). apply bool_decide_ext.
    rewrite path_ancestor, Hsuf by done. unfold zlen in *. rewrite Nat2Z.id. split; [|tauto].
    intros E. split; [lia|done].
Qed.

(** ** The order of names *)

(** A comparison that is a strict total order. *)
Record cmp_laws {A} (c : A → A → comparison) : Prop := mkCmpLaws {
  cmp_eq : ∀ a b, c a b = Eq ↔ a = b;
  cmp_opp : ∀ a b, c b a = CompOpp (c a b);
  cmp_lt : ∀ a b d, c a b = Lt → c b d = Lt → c a d = Lt;
}.

(** Lexicographic comparison; a proper prefix comes first. *)
Fixpoint lex {A} (c : A → A → comparison) (a b : list A) : comparison :=
  match a, b with
  | [], [] => Eq
  | [], _ => Lt
  | _, [] => Gt
  | x :: a, y :: b => match c x y with Eq => lex c a b | d => d end
  end.

Lemma Z_cmp_laws : cmp_laws Z.compare.
Proof.
  constructor.
  - apply Z.compare_eq_iff.
  - intros a b. apply Z.compare_antisym.
  - intros a b d. rewrite !Z.compare_lt_iff. lia.
Qed.

Lemma lex_laws {A} (c : A → A → comparison) : cmp_laws c → cmp_laws (lex c).
Proof.
  intros [Heq Hopp Hlt]. constructor.
  - induction a as [|x a IH]; intros [|y b]; simpl; try done. destruct (c x y) eqn:E.
    + apply Heq in E as ->. rewrite IH. split; [by intros ->|by intros [= ->]].
    + split; [done|]. intros [= -> ->]. by rewrite (proj2 (Heq y y)) in E.
    + split; [done|]. intros [= -> ->]. by rewrite (proj2 (Heq y y)) in E.
  - induction a as [|x a IH]; intros [|y b]; simpl; try done. rewrite (Hopp x y), IH. by destruct (c x y).
  - induction a as [|x a IH]; intros [|y b] [|w d]; simpl; try done.
    destruct (c x y) eqn:E1; [apply Heq in E1 as ->| |done].
    + destruct (c y w) eqn:E2; [|done|done]. apply IH.
    + intros _. destruct (c y w) eqn:E2; [apply Heq in E2 as <-; by rewrite E1| |done].
      by rewrite (Hlt _ _ _ E1 E2).
Qed.

(** Names in the order of their reversed paths. *)
Definition path_cmp (p q : list (list Z)) : comparison := lex (lex Z.compare) (rev p) (rev q).

Lemma path_cmp_laws : cmp_laws path_cmp.
Proof.
  destruct (lex_laws _ (lex_laws _ Z_cmp_laws)) as [He Ho Hl]. constructor; unfold path_cmp.
  - intros p q. rewrite He. split; [|by intros ->]. intros E%(f_equal (@rev _)). by rewrite !rev_involutive in E.
  - intros p q. apply Ho.
  - intros p q r. apply Hl.
Qed.

Lemma bytes_cmp_lex a b : bytes_cmp a b = lex Z.compare a b.
Proof. revert b. induction a as [|x a IH]; intros [|y b]; simpl; try done. by rewrite IH. Qed.

Lemma labels_cmp_lex a b :
  match labels_cmp a b with Eq => zlen a ?= zlen b | c => c end
  = lex (lex Z.compare) (labels_lower a) (labels_lower b).
Proof.
  revert b. induction a as [|x a IH]; intros [|y b]; try done. cbn [labels_cmp labels_lower map lex].
  rewrite bytes_cmp_lex. destruct (lex _ _ _) eqn:E; try done. rewrite <- IH.
  destruct (labels_cmp a b); try done. rewrite !zlen_cons, !(Z.add_comm _ 1). apply Zcompare_plus_compat.
Qed.

Lemma dnssec_name_cmp_path n m : Name_wf n → Name_wf m → dnssec_name_cmp n m = path_cmp (path n) (path m).
Proof.
  intros Hn Hm. unfold dnssec_name_cmp, path_cmp, path, labels_lower. rewrite <- !map_rev.
  fold (labels_of n) (labels_of m). change (map (map ascii_lower)) with labels_lower.
  rewrite <- labels_cmp_lex. rewrite !num_labels_path by done. unfold path, labels_lower, zlen.
  by rewrite !length_map, !length_rev.
Qed.
