(* ===== verification/Zone.v ===== *)
(** * Zones: loading ([onetdns-authority/src/lib.rs])

    The checks of a zone's records ([validate_zone_records]) and the
    construction of a zone from a list of records ([Zone::from_flat_records],
    [Zone::from_records]).  The unstable sort of the standard library, which
    may put records that compare equal in any order, is an argument. *)

From S2P Require Import Prelude NameTable Wire Writer Name RData.
From S2P Require Import Ttl OwnerIndex ZoneData.

#[local] Open Scope outcome_scope.

Definition TYPE_DS : Z := 43.
Definition TYPE_RRSIG : Z := 46.
Definition TYPE_NSEC : Z := 47.
Definition TYPE_NSEC3 : Z := 50.
Definition TYPE_ANY : Z := 255.

(** ** NSEC3 parameters *)

(** The loop of [valid_type_bitmaps]; [previous] is -1 before the first
    window.  A window takes at least three octets. *)
Fixpoint bitmaps_loop (fuel : nat) (raw : list Z) (offset previous : Z) : outcome string bool :=
  match fuel with
  | O => NoFuel
  | S fuel =>
      if zlen raw <=? offset then Ok true
      else if zlen raw - offset <? 2 then Ok false
      else
        match get raw offset, get raw (offset + 1) with
        | Some window, Some len =>
            let offset := offset + 2 in
            if negb ((1 <=? len) && (len <=? 32)) || (zlen raw - offset <? len) || (window <=? previous)
            then Ok false
            else
              match get raw (offset + len - 1) with
              | None => Panic
              | Some b => if b =? 0 then Ok false else bitmaps_loop fuel raw (offset + len) window
              end
        | _, _ => Panic
        end
  end.

Definition valid_type_bitmaps (raw : list Z) : outcome string bool :=
  bitmaps_loop (S (length raw)) raw 0 (-1).

(** [is_sha1_nsec3_owner]. *)
Definition is_base32hex (b : Z) : bool :=
  is_ascii_digit b || ((65 <=? b) && (b <=? 86)) || ((97 <=? b) && (b <=? 118)).
Definition is_sha1_nsec3_owner (label : list Z) : bool :=
  (zlen label =? 32) && forallb is_base32hex label.

(** [struct Nsec3Metadata]. *)
Record Nsec3Metadata := mkNsec3 {
  hash_algorithm : Z;
  nsec3_flags : Z;
  iterations : Z;
  salt : list Z;
}.

(** [parse_nsec3_metadata]. *)
Definition parse_nsec3_metadata (rec : Record_) : outcome string Nsec3Metadata :=
  match rdata rec with
  | RD_Unknown 50 raw =>
      match raw with
      | algorithm :: flags :: it_hi :: it_lo :: salt_len :: _ :: _ =>
          let hash_len_offset := 5 + salt_len in
          if zlen raw <=? hash_len_offset then Err "잘린 NSEC3 salt"
          else
            match get raw hash_len_offset with
            | None => Panic
            | Some hash_len =>
                if negb (hash_len =? 20) then Err "NSEC3 SHA-1 next hash 길이는 20이어야 함"
                else
                  let bitmap_offset := hash_len_offset + (1 + hash_len) in
                  if zlen raw <? bitmap_offset then Err "잘린 NSEC3 next hash"
                  else
                    try! valid := valid_type_bitmaps (drop (Z.to_nat bitmap_offset) raw) in
                    if negb valid then Err "유효하지 않은 NSEC3 type bitmap"
                    else
                      match get_range raw 5 hash_len_offset with
                      | None => Panic
                      | Some salt => Ok (mkNsec3 algorithm flags (u16_from_be it_hi it_lo) salt)
                      end
            end
      | _ => Err "잘린 NSEC3 RDATA"
      end
  | _ => Err "NSEC3 record의 RDATA 형식이 잘못됨"
  end.

Definition Nsec3Parameters : Type := Z * Z * list Z.

(** One NSEC3 record of the loop of [validate_zone_records]. *)
Definition check_nsec3 (origin : Name) (parameters : option Nsec3Parameters) (rec : Record_) :
    outcome string (option Nsec3Parameters) :=
  try! metadata := parse_nsec3_metadata rec in
  if negb (hash_algorithm metadata =? 1) then Err "지원하지 않는 NSEC3 hash algorithm"
  else if negb (Z.land (nsec3_flags metadata) (Z.lxor 1 U8_MAX) =? 0) then Err "유효하지 않은 NSEC3 flags"
  else if negb (iterations metadata =? 0) then Err "NSEC3 iterations는 RFC 9276에 따라 0이어야 함"
  else
    let bad := Err "유효하지 않은 NSEC3 owner name" in
    if negb (Name_num_labels (name rec) =? Name_num_labels origin + 1) then bad
    else
      try! parent := suffix (name rec) (Name_num_labels origin) in
      if negb (Name_eq_ignore_case parent origin)
         || negb (match Labels_first (Name_labels (name rec)) with
                  | Some l => is_sha1_nsec3_owner l
                  | None => false
                  end)
      then bad
      else
        let own := (hash_algorithm metadata, iterations metadata, salt metadata) in
        match parameters with
        | Some expected =>
            if bool_decide (expected ≠ own)
            then Err "한 zone의 NSEC3 hash algorithm/iterations/salt가 서로 다름"
            else Ok parameters
        | None => Ok (Some own)
        end.

(** ** Checks of one owner *)

Definition of_rtype (t : Z) (rec : Record_) : bool := rtype rec =? t.

Definition check_cnames (records : list Record_) : outcome string unit :=
  let cnames := List.filter (of_rtype TYPE_CNAME) records in
  match cnames with
  | [] => Ok tt
  | first :: _ =>
      if existsb (λ r, negb (bool_decide (rdata r = rdata first)) || negb (ttl r =? ttl first)) cnames
      then Err "서로 다른 CNAME target"
      else if existsb (λ r, negb (bool_decide (rtype r ∈ [TYPE_CNAME; TYPE_RRSIG; TYPE_NSEC]))) records
      then Err "CNAME과 다른 데이터가 공존함"
      else Ok tt
  end.

Definition check_dnames (origin : Name) (records : list Record_) : outcome string unit :=
  match List.filter (of_rtype TYPE_DNAME) records with
  | [] => Ok tt
  | first :: rest =>
      if negb (zlen (first :: rest) =? 1) then Err "복수 DNAME"
      else if negb (Name_eq_ignore_case (name first) origin) && existsb (of_rtype TYPE_NS) records
      then Err "비-apex DNAME과 NS가 공존함"
      else Ok tt
  end.

Definition check_owner (origin : Name) (parameters : option Nsec3Parameters)
    (group : list Z * list Record_) : outcome string (option Nsec3Parameters) :=
  let records := group.2 in
  if existsb (λ r, negb (class r =? CLASS_IN)) records
  then Err "IN 이외 class의 권한 레코드는 지원하지 않음"
  else
    try! _ := check_cnames records in
    try! _ := check_dnames origin records in
    ofold (check_nsec3 origin) parameters (List.filter (of_rtype TYPE_NSEC3) records).

(** ** Checks across owners *)

(** The owner of a group; the groups of an index are not empty. *)
Definition group_name (group : list Z * list Record_) : outcome string Name :=
  match group.2 with
  | r :: _ => Ok (name r)
  | [] => Panic
  end.

Definition has_rtype (t : Z) (group : list Z * list Record_) : bool := existsb (of_rtype t) group.2.

Fixpoint dname_owner_keys (groups : list (list Z * list Record_)) : outcome string (list (list Z)) :=
  match groups with
  | [] => Ok []
  | g :: groups =>
      try! keys := dname_owner_keys groups in
      if has_rtype TYPE_DNAME g then
        try! owner := group_name g in Ok (Name_canonical_key owner :: keys)
      else Ok keys
  end.

Definition check_below_dname (origin : Name) (dname_owners : list (list Z)) (_ : unit)
    (g : list Z * list Record_) : outcome string unit :=
  try! owner := group_name g in
  ofold (λ _ labels,
      try! ancestor := suffix owner labels in
      if bool_decide (Name_canonical_key ancestor ∈ dname_owners)
      then Err "DNAME 아래 데이터가 존재함" else Ok tt)
    tt (zrange (Name_num_labels origin) (Name_num_labels owner)).

Section hasher.
Context (hasher : list Z → Z).

(** The CNAME target of an owner. *)
Definition cname_target (records : list Record_) : option Name :=
  match List.find (of_rtype TYPE_CNAME) records with
  | Some rec => match rdata rec with RD_Cname next => Some next | _ => None end
  | None => None
  end.

(** Following CNAMEs from [current]; 1 marks the names of the present path, 2
    those that are known to be sound.  Every round marks a new owner of the
    zone, or ends. *)
Fixpoint follow_cnames (fuel : nat) (records : list Record_) (index : OwnerIndex)
    (states : gmap (list Z) Z) (path : list (list Z)) (current : list Z) :
    outcome string (gmap (list Z) Z * list (list Z)) :=
  match fuel with
  | O => NoFuel
  | S fuel =>
      match states !! current with
      | Some 1 => Err "CNAME 순환"
      | Some 2 => Ok (states, path)
      | _ =>
          let states := <[current := 1]> states in
          let path := path ++ [current] in
          try! next_records := full_records_for_key hasher records index current in
          match next_records with
          | None => Ok (states, path)
          | Some next_records =>
              match cname_target next_records with
              | None => Ok (states, path)
              | Some next => follow_cnames fuel records index states path (Name_canonical_key next)
              end
          end
      end
  end.

Definition check_cname_chain (fuel : nat) (records : list Record_) (index : OwnerIndex)
    (states : gmap (list Z) Z) (g : list Z * list Record_) : outcome string (gmap (list Z) Z) :=
  if negb (has_rtype TYPE_CNAME g) then Ok states
  else if bool_decide (states !! g.1 = Some 2) then Ok states
  else
    try! (states, path) := follow_cnames fuel records index states [] g.1 in
    Ok (foldl (λ states name, <[name := 2]> states) states path).

Definition validate_zone_records (origin : Name) (records : list Record_) (index : OwnerIndex) :
    outcome string unit :=
  try! groups := full_record_groups hasher records index in
  try! _ := ofold (check_owner origin) None groups in
  try! dname_owners := dname_owner_keys groups in
  try! _ := ofold (check_below_dname origin dname_owners) tt groups in
  try! _ := ofold (check_cname_chain (2 + length records) records index) ∅ groups in
  Ok tt.
End hasher.

(** ** The zone *)

Definition NAME_EXISTS : Z := 1.
Definition NAME_HAS_WILDCARD : Z := 2.
Definition NAME_HAS_DNAME : Z := 4.

(** [struct RecordLocation]. *)
Record RecordLocation := mkLocation { l_owner : list Z; l_offset : Z }.

(** [struct Zone], less the transfer messages it keeps. *)
Record Zone := mkZone {
  origin : Name;
  soa : Soa;
  soa_ttl : Z;
  records : OwnerIndex;
  record_arena : list StoredRecord;
  arenas : Arenas;
  name_flags : gmap (list Z) Z;
  has_delegations : bool;
  simple_nxdomain : bool;
  denial_index : gmap Z (list RecordLocation);
}.

(** [entry(key).or_default() |= flag]. *)
Definition add_flag (flags : gmap (list Z) Z) (key : list Z) (flag : Z) : gmap (list Z) Z :=
  <[key := Z.lor (default 0 (flags !! key)) flag]> flags.

Section loading.
Context (hasher : list Z → Z).

(** The names between an owner and the origin exist. *)
Definition mark_name (index : OwnerIndex) (owner : Name) (flags : gmap (list Z) Z) (labels : Z) :
    outcome string (gmap (list Z) Z) :=
  try! s := suffix owner labels in
  try! key := key_of s in
  match key with
  | None => Err "DNS owner 이름이 최대 wire 길이를 넘었습니다"
  | Some key =>
      try! known := OwnerIndex_contains_key hasher key index in
      Ok (if known then flags else add_flag flags key NAME_EXISTS)
  end.

Definition mark_names (origin : Name) (index : OwnerIndex) (flags : gmap (list Z) Z)
    (g : list Z * list Record_) : outcome string (gmap (list Z) Z) :=
  try! owner := group_name g in
  ofold (mark_name index owner) flags (zrange_to (Name_num_labels origin) (Name_num_labels owner)).

Definition mark_special (flags : gmap (list Z) Z) (g : list Z * list Record_) :
    outcome string (gmap (list Z) Z) :=
  try! flags :=
    (if bool_decide (take 2 g.1 = [1; 42]) then
       match parent_canonical_key g.1 with
       | None => Err "wildcard owner에 부모 이름이 없습니다"
       | Some parent => Ok (add_flag flags parent NAME_HAS_WILDCARD)
       end
     else Ok flags) in
  Ok (if has_rtype TYPE_DNAME g then add_flag flags g.1 NAME_HAS_DNAME else flags).

(** The places of the records of type [t], in the order of the groups. *)
Fixpoint locations_in (t : Z) (key : list Z) (offset : Z) (records : list Record_) : list RecordLocation :=
  match records with
  | [] => []
  | r :: records =>
      (if rtype r =? t then [mkLocation key offset] else []) ++ locations_in t key (offset + 1) records
  end.

Definition locations_of (t : Z) (groups : list (list Z * list Record_)) : list RecordLocation :=
  concat (map (λ g, locations_in t g.1 0 g.2) groups).

(** [sort_by] of a slice: stable. *)
Fixpoint sorted_insert {A} (cmp : A → A → comparison) (a : A) (l : list A) : list A :=
  match l with
  | [] => [a]
  | b :: l =>
      match cmp a b with
      | Gt => b :: sorted_insert cmp a l
      | _ => a :: b :: l
      end
  end.

Definition sort_by {A} (cmp : A → A → comparison) (l : list A) : list A :=
  foldr (sorted_insert cmp) [] l.

(** The record at a location, as the comparator of the denial index reads it. *)
Definition located (records : list Record_) (index : OwnerIndex) (l : RecordLocation) :
    outcome string (RecordLocation * option Record_) :=
  try! owner := full_records_for_key hasher records index (l_owner l) in
  Ok (l, match owner with Some rs => get rs (l_offset l) | None => None end).

Definition location_cmp (left right : RecordLocation * option Record_) : comparison :=
  match left.2, right.2 with
  | Some l, Some r => dnssec_name_cmp (name l) (name r)
  | Some _, None => Gt
  | None, Some _ => Lt
  | None, None => Eq
  end.

Fixpoint omapM {A B} (f : A → outcome string B) (l : list A) : outcome string (list B) :=
  match l with
  | [] => Ok []
  | a :: l => try! b := f a in try! bs := omapM f l in Ok (b :: bs)
  end.

Definition denial_locations (records : list Record_) (index : OwnerIndex)
    (groups : list (list Z * list Record_)) (found : gmap Z (list RecordLocation)) (t : Z) :
    outcome string (gmap Z (list RecordLocation)) :=
  match locations_of t groups with
  | [] => Ok found
  | ls =>
      try! located := omapM (located records index) ls in
      Ok (<[t := map fst (sort_by location_cmp located)]> found)
  end.

(** The arena of packed records. *)
Definition pack_record (packed : list StoredRecord * Arenas) (rec : Record_) :
    outcome string (list StoredRecord * Arenas) :=
  try! (s, ar) := from_record rec packed.2 in Ok (packed.1 ++ [s], ar).

(** The order in which [from_flat_records] sorts. *)
Definition record_cmp (left right : Record_) : comparison :=
  match dnssec_name_cmp (name left) (name right) with
  | Eq => rtype left ?= rtype right
  | c => c
  end.

(** [sort_unstable_by], which may put records that compare equal in any
    order, and the seed of the table of [Writer::new]. *)
Context (sort_unstable : list Record_ → list Record_) (hb : list Z → Z).

Fixpoint all_inside (origin : Name) (records : list Record_) : outcome string bool :=
  match records with
  | [] => Ok true
  | r :: records =>
      try! inside := is_subdomain_or_eq (name r) origin in
      if inside then all_inside origin records else Ok false
  end.

(** [Zone::from_flat_records]. *)
Definition from_flat_records (origin : Name) (soa : Soa) (soa_ttl : Z) (full_records : list Record_) :
    outcome string Zone :=
  if MAX_ZONE_RECORDS <? zlen full_records then Err "영역 레코드 수가 허용 한도를 넘었습니다"
  else
    try! inside := all_inside origin full_records in
    if negb inside then Err "zone 밖 owner 또는 소유자 인덱스가 일치하지 않습니다"
    else
      let full_records :=
        drop_duplicate_records hb (normalize_owner_group_ttls (sort_unstable full_records)) in
      let soa_ttl := if MAX_TTL <? soa_ttl then 0 else soa_ttl in
      try! records := build_owner_index hasher full_records in
      try! origin_key := key_of origin in
      match origin_key with
      | None => Err "DNS zone origin이 최대 wire 길이를 넘었습니다"
      | Some origin_key =>
          try! apex := full_records_for_key hasher full_records records origin_key in
          if negb (match apex with Some apex => existsb (of_rtype TYPE_NS) apex | None => false end)
          then Err "zone apex NS가 없습니다"
          else
            try! _ := validate_zone_records hasher origin full_records records in
            try! groups := full_record_groups hasher full_records records in
            try! name_flags := ofold (mark_names origin records) ∅ groups in
            let has_delegations :=
              existsb (λ g, negb (bool_decide (g.1 = origin_key)) && has_rtype TYPE_NS g) groups in
            try! name_flags := ofold mark_special name_flags groups in
            let simple_nxdomain := negb has_delegations && bool_decide (name_flags = ∅) in
            try! denial_index :=
              ofold (denial_locations full_records records groups) ∅ [TYPE_NSEC; TYPE_NSEC3] in
            try! (record_arena, arenas) := ofold pack_record ([], mkArenas [] []) full_records in
            Ok (mkZone origin soa soa_ttl records record_arena arenas name_flags has_delegations
                  simple_nxdomain denial_index)
      end.

(** [retain] of [Zone::from_records]: the first SOA only. *)
Fixpoint keep_one_soa (kept : bool) (records : list Record_) : list Record_ :=
  match records with
  | [] => []
  | r :: records =>
      if rtype r =? TYPE_SOA then
        if kept then keep_one_soa kept records else r :: keep_one_soa true records
      else r :: keep_one_soa kept records
  end.

(** [Zone::from_records]. *)
Definition from_records (records : list Record_) : outcome string Zone :=
  if MAX_ZONE_RECORDS <? zlen records then Err "영역 레코드 수가 허용 한도를 넘었습니다"
  else
    let soa_records := List.filter (of_rtype TYPE_SOA) records in
    match soa_records with
    | [] => Err "AXFR 응답에 SOA 레코드가 없습니다"
    | soa_rec :: _ =>
        match rdata soa_rec with
        | RD_Soa own =>
            let origin := name soa_rec in
            if (2 <? zlen soa_records)
               || existsb (λ r, negb (Name_eq_ignore_case (name r) origin)
                                || negb (bool_decide (rdata r = rdata soa_rec))) soa_records
            then Err "AXFR에 서로 다른 SOA 또는 과도한 SOA가 존재함"
            else
              try! inside := all_inside origin records in
              if negb inside then Err "AXFR에 zone 밖 owner가 존재함"
              else if negb (existsb (λ r, Name_eq_ignore_case (name r) origin && of_rtype TYPE_NS r) records)
              then Err "zone apex NS가 없습니다"
              else from_flat_records origin own (ttl soa_rec) (keep_one_soa false records)
        | _ => Err "SOA RDATA 형식이 올바르지 않습니다"
        end
    end.
End loading.
