(* ===== verification/ZoneGroups.v ===== *)
(** * The records of a zone in order

    Sorting puts the records of one owner together, ordered by type.  The
    groups that loading walks through are then the records of each path, each
    path once, and levelling TTLs and dropping duplicates keep the order. *)

From S2P Require Import Prelude NameTable Wire Writer Name Codec NameCodec NameText RData.
From S2P Require Import Ttl OwnerIndex ZoneData ZoneNames Zone.
From stdpp Require Import sorting.

#[local] Open Scope Z_scope.
#[local] Open Scope outcome_scope.

(** A record as the parser returns it. *)
Definition zone_record (r : Record_) : Prop := record_wf r ∧ RData_record_type (rdata r) = rtype r.

Definition rpath (r : Record_) : list (list Z) := path (name r).

Definition rle (r s : Record_) : Prop := record_cmp r s ≠ Gt.

(** The records of one path. *)
Definition at_path (rs : list Record_) (p : list (list Z)) : list Record_ :=
  List.filter (λ r, bool_decide (rpath r = p)) rs.

Lemma zone_record_name r : zone_record r → Name_wf (name r).
Proof. intros [[H _] _]. exact H. Qed.
#[export] Hint Resolve zone_record_name : zone.

Lemma filter_none {A} (f : A → bool) l : (∀ a, a ∈ l → f a = false) → List.filter f l = [].
Proof.
  induction l as [|a l IH]; intros H; [done|]. simpl. rewrite H by by left. apply IH. intros b Hb. apply H. by right.
Qed.

Lemma filter_every {A} (f : A → bool) l : (∀ a, a ∈ l → f a = true) → List.filter f l = l.
Proof.
  induction l as [|a l IH]; intros H; [done|]. simpl. rewrite H by by left. f_equal. apply IH. intros b Hb. apply H. by right.
Qed.

Lemma elem_of_filter_list {A} (f : A → bool) l a : a ∈ List.filter f l ↔ a ∈ l ∧ f a = true.
Proof. rewrite !list_elem_of_In. apply List.filter_In. Qed.

Lemma elem_of_at_path rs p r : r ∈ at_path rs p ↔ r ∈ rs ∧ rpath r = p.
Proof. unfold at_path. by rewrite elem_of_filter_list, bool_decide_eq_true. Qed.

Lemma at_path_app rs ks p : at_path (rs ++ ks) p = at_path rs p ++ at_path ks p.
Proof. apply List.filter_app. Qed.

Lemma at_path_other rs p : (∀ r, r ∈ rs → rpath r ≠ p) → at_path rs p = [].
Proof. intros H. apply filter_none. intros r Hr. apply bool_decide_eq_false. by apply H. Qed.

Lemma at_path_same rs p : (∀ r, r ∈ rs → rpath r = p) → at_path rs p = rs.
Proof. intros H. apply filter_every. intros r Hr. apply bool_decide_eq_true. by apply H. Qed.

(** ** The order of records *)

Lemma record_cmp_path r s : zone_record r → zone_record s →
  record_cmp r s = match path_cmp (rpath r) (rpath s) with Eq => rtype r ?= rtype s | c => c end.
Proof. intros Hr Hs. unfold record_cmp. by rewrite dnssec_name_cmp_path by auto with zone. Qed.

(** Smaller records have a smaller path, or the same path and a smaller type. *)
Lemma rle_cases r s : zone_record r → zone_record s →
  rle r s ↔ path_cmp (rpath r) (rpath s) = Lt ∨ rpath r = rpath s ∧ rtype r ≤ rtype s.
Proof.
  intros Hr Hs. unfold rle. rewrite record_cmp_path by done.
  destruct (path_cmp (rpath r) (rpath s)) eqn:E.
  - apply path_cmp_laws in E. rewrite Z.compare_ngt_iff. split; [|intros [?|[_ ?]]; [done|lia]]. intros. right. split; [done|lia].
  - split; [by left|done].
  - split; [done|]. intros [?|[Hp _]]; [done|]. apply (cmp_eq _ path_cmp_laws) in Hp. congruence.
Qed.

Lemma path_cmp_Lt_ne p q : path_cmp p q = Lt → p ≠ q.
Proof. intros E ->. by rewrite (proj2 (cmp_eq _ path_cmp_laws q q)) in E. Qed.

(** What comes after a record of another path has another path. *)
Lemma rle_separates r s t : zone_record r → zone_record s → zone_record t →
  rle r s → rle s t → rpath s ≠ rpath r → rpath t ≠ rpath r.
Proof.
  intros Hr Hs Ht [Hrs|[? _]]%rle_cases Hst Hne; [|by auto|done|done].
  apply rle_cases in Hst as [Hst|[<- _]]; [|done|done|done].
  intros E. apply (path_cmp_Lt_ne (rpath r) (rpath t)); [|done]. by eapply (cmp_lt _ path_cmp_laws).
Qed.

(** ** Groups *)

Definition ordered (rs : list Record_) : Prop := Forall zone_record rs ∧ StronglySorted rle rs.

Lemma ordered_tail r rs : ordered (r :: rs) → ordered rs.
Proof. intros [[_ Hw]%Forall_cons [_ Hs]%StronglySorted_cons]. by split. Qed.

Lemma ordered_drop k rs : ordered rs → ordered (drop k rs).
Proof. revert rs. induction k as [|k IH]; intros [|r rs] H; try done. apply IH. by eapply ordered_tail. Qed.

Lemma ordered_skip r s rs : ordered (r :: s :: rs) → ordered (r :: rs).
Proof.
  intros [[Hr [_ Hw]%Forall_cons]%Forall_cons [[_ Hf]%Forall_cons [_ Hs]%StronglySorted_cons]%StronglySorted_cons].
  split; [by constructor|]. by constructor.
Qed.

Lemma same_owner_spec r rs : ordered (r :: rs) →
  let c := same_owner (name r) rs in
  (∀ s, s ∈ take c rs → rpath s = rpath r) ∧ (∀ s, s ∈ drop c rs → rpath s ≠ rpath r).
Proof.
  intros Ho. assert (Hr : zone_record r) by by destruct Ho as [[? _]%Forall_cons _].
  induction rs as [|s rs IH]; simpl; [split; intros s Hs; by apply elem_of_nil in Hs|].
  assert (Hs : zone_record s) by by destruct Ho as [[_ [? _]%Forall_cons]%Forall_cons _].
  rewrite eq_ignore_case_bool by auto with zone. case_bool_decide as E; simpl.
  - destruct (IH (ordered_skip _ _ _ Ho)) as [Ht Hd]. split; [|done].
    intros t [->|Hin]%elem_of_cons; [done|by apply Ht].
  - split; [intros t Ht; by apply elem_of_nil in Ht|]. intros t [->|Hin]%elem_of_cons; [done|].
    destruct Ho as [[_ [_ Hw]%Forall_cons]%Forall_cons [[Hrs _]%Forall_cons [Hst _]%StronglySorted_cons]%StronglySorted_cons].
    rewrite Forall_forall in Hst, Hw. apply (rle_separates r s t); auto.
Qed.

Definition gpath (g : Z * list Record_) : list (list Z) :=
  match g.2 with r :: _ => rpath r | [] => [] end.

(** A group of a list of records: the records of a path, where they stand. *)
Definition group_of (start : Z) (rs : list Record_) (g : Z * list Record_) : Prop :=
  g.2 ≠ [] ∧ g.2 = at_path rs (gpath g) ∧ ∃ pre post, rs = pre ++ g.2 ++ post ∧ g.1 = start + zlen pre.

Lemma group_of_here start r rs c :
  (∀ s, s ∈ take c rs → rpath s = rpath r) → (∀ s, s ∈ drop c rs → rpath s ≠ rpath r) →
  group_of start (r :: rs) (start, r :: take c rs).
Proof.
  intros Ht Hd. split; [done|]. split.
  - change (gpath _) with (rpath r). cbn [snd].
    transitivity (at_path ((r :: take c rs) ++ drop c rs) (rpath r)); [|simpl; by rewrite take_drop].
    rewrite at_path_app, (at_path_other (drop c rs)), app_nil_r by done.
    symmetry. apply at_path_same. intros s [->|Hs]%elem_of_cons; [done|by apply Ht].
  - exists [], (drop c rs). simpl. rewrite take_drop. split; [done|]. rewrite zlen_nil. lia.
Qed.

Lemma group_of_later start pre rs g :
  group_of (start + zlen pre) rs g →
  (∀ r, r ∈ pre → rpath r ≠ gpath g) → group_of start (pre ++ rs) g.
Proof.
  intros (Hne & Hg & p & q & E & Hst) Hd. split; [done|]. split.
  - rewrite at_path_app, (at_path_other pre) by done. done.
  - exists (pre ++ p), q. split; [by rewrite E, <- app_assoc|]. rewrite Hst, zlen_app. lia.
Qed.

Lemma gpath_in start rs g : group_of start rs g → ∃ r, r ∈ rs ∧ rpath r = gpath g.
Proof.
  intros (Hne & Hg & _). unfold gpath in *. destruct (g.2) as [|r l] eqn:E; [done|].
  exists r. assert (Hr : r ∈ at_path rs (rpath r)) by (rewrite <- Hg; by left).
  by apply elem_of_at_path in Hr.
Qed.

Lemma owner_groups_spec fuel start rs : (length rs ≤ fuel)%nat → ordered rs →
  let gs := owner_groups fuel start rs in
  concat (map snd gs) = rs ∧ NoDup (map gpath gs) ∧ ∀ g, g ∈ gs → group_of start rs g.
Proof.
  revert start rs. induction fuel as [|fuel IH]; intros start [|r rs] Hl Ho; simpl in Hl; try lia;
    try (split_and!; [done|constructor|intros g Hg; by apply elem_of_nil in Hg]).
  destruct (same_owner_spec r rs Ho) as [Ht Hd]. simpl. set (c := same_owner (name r) rs) in *.
  destruct (IH (start + 1 + Z.of_nat c) (drop c rs)) as (Hc & Hn & Hg).
  { rewrite length_drop. lia. }
  { by eapply ordered_drop, ordered_tail. }
  assert (Hc' : zlen (r :: take c rs) = 1 + Z.of_nat c ∨ drop c rs = []).
  { unfold zlen. simpl. rewrite length_take. destruct (decide (c ≤ length rs)%nat); [left; lia|right; apply drop_ge; lia]. }
  split_and!.
  - rewrite Hc. f_equal. apply take_drop.
  - apply NoDup_cons. split; [|done]. intros (g & E & Hin%Hg)%list_elem_of_fmap.
    destruct (gpath_in _ _ _ Hin) as (s & Hs & Es). apply (Hd s Hs). by rewrite Es, <- E.
  - intros g [->|Hin%Hg]%elem_of_cons; [by apply group_of_here|].
    destruct (gpath_in _ _ _ Hin) as (s & Hs & Es).
    rewrite <- (take_drop c rs). change (r :: take c rs ++ drop c rs) with ((r :: take c rs) ++ drop c rs).
    apply group_of_later.
    + destruct Hc' as [->|E]; [by rewrite Z.add_assoc|]. rewrite E in Hs. by apply elem_of_nil in Hs.
    + intros t Ht' E. apply (Hd s Hs). rewrite Es, <- E. apply elem_of_cons in Ht' as [->|Ht']; [done|by apply Ht].
Qed.

(** ** Levelling TTLs *)

(** The same record with another lifetime. *)
Definition same_but_ttl (r s : Record_) : Prop := ∃ t, is_u32 t ∧ s = set_ttl t r.

Lemma same_but_ttl_record r s : same_but_ttl r s → zone_record r → zone_record s.
Proof. intros (t & Ht & ->) [(?&?&?&?&?) ?]. split; [|done]. by split_and!. Qed.

Lemma rrset_min_u32 k rs t : Forall zone_record rs → rrset_min k (map clamp_ttl rs) = Some t → is_u32 t.
Proof.
  intros Hrs H. apply rrset_min_attained in H as (r & Hr & _ & <-).
  apply list_elem_of_fmap in Hr as (s & -> & Hs). rewrite Forall_forall in Hrs.
  destruct (Hrs s Hs) as [(_ & _ & _ & Ht & _) _]. unfold clamp_ttl. repeat case_match; done.
Qed.

Lemma levelled_same rs r : Forall zone_record rs → r ∈ rs → same_but_ttl r (levelled rs r).
Proof.
  intros Hrs Hr. unfold levelled. case_match.
  - exists (ttl r). rewrite set_ttl_id. split; [|done]. rewrite Forall_forall in Hrs. apply Hrs in Hr as [(_&_&_&?&_) _]. done.
  - eexists. split; [|done]. destruct (rrset_min _ _) eqn:E; [by eapply rrset_min_u32|done].
Qed.

Lemma Forall2_concat_map {A} (R : A → A → Prop) (f : list A → list A) (ls : list (list A)) :
  (∀ l, l ∈ ls → Forall2 R l (f l)) → Forall2 R (concat ls) (concat (map f ls)).
Proof.
  induction ls as [|l ls IH]; intros H; [constructor|]. simpl. apply Forall2_app; [apply H; by left|].
  apply IH. intros k Hk. apply H. by right.
Qed.

Lemma group_records rs g : ordered rs → g ∈ groups_of rs → ∀ r, r ∈ g.2 → r ∈ rs.
Proof.
  intros Ho Hg r Hr. destruct (owner_groups_spec (length rs) 0 rs) as (_ & _ & Hs); [done|done|].
  destruct (Hs g Hg) as (_ & Hat & _). rewrite Hat in Hr. by apply elem_of_at_path in Hr as [? _].
Qed.

Lemma groups_concat rs : ordered rs → concat (map snd (groups_of rs)) = rs.
Proof. intros Ho. by destruct (owner_groups_spec (length rs) 0 rs) as (? & _). Qed.

Lemma normalize_same rs : ordered rs → Forall2 same_but_ttl rs (normalize_owner_group_ttls rs).
Proof.
  intros Ho. rewrite <- (groups_concat rs Ho) at 1. unfold normalize_owner_group_ttls.
  rewrite <- (map_map snd normalize_ttls). apply Forall2_concat_map.
  intros l (g & -> & Hg)%list_elem_of_fmap. rewrite normalize_ttls_spec. apply Forall2_fmap_r, Forall_Forall2_diag.
  assert (Hz : Forall zone_record g.2).
  { destruct Ho as [Hz Hs]. apply Forall_forall. intros r Hr. rewrite Forall_forall in Hz. apply Hz.
    eapply group_records; [|done|done]. split; [by apply Forall_forall|done]. }
  apply Forall_forall. intros r Hr. by apply levelled_same.
Qed.

Lemma record_cmp_set_ttl t u r s : record_cmp (set_ttl t r) (set_ttl u s) = record_cmp r s.
Proof. done. Qed.

Lemma ordered_same rs ks : Forall2 same_but_ttl rs ks → ordered rs → ordered ks.
Proof.
  induction 1 as [|r k rs ks Hrk Hall IH]; intros Ho; [done|].
  destruct (IH (ordered_tail _ _ Ho)) as [Hz Hs].
  destruct Ho as [[Hr _]%Forall_cons [Hf _]%StronglySorted_cons]. split.
  - constructor; [by eapply same_but_ttl_record|done].
  - constructor; [done|]. destruct Hrk as (t & _ & ->). clear -Hall Hf.
    induction Hall as [|s k rs ks (u & _ & ->) _ IH]; [constructor|].
    apply Forall_cons in Hf as [? ?]. constructor; [done|by apply IH].
Qed.

(** ** Dropping duplicates *)

Lemma ordered_sublist rs ks : ks `sublist_of` rs → ordered rs → ordered ks.
Proof.
  induction 1 as [|r ks rs Hs IH|r ks rs Hs IH]; intros Ho; [done| |by eapply IH, ordered_tail].
  destruct (IH (ordered_tail _ _ Ho)) as [Hz Hss].
  destruct Ho as [[Hr _]%Forall_cons [Hf _]%StronglySorted_cons]. split; [by constructor|]. constructor; [done|].
  rewrite Forall_forall in Hf |- *. intros s Hin. apply Hf. by eapply elem_of_sublist.
Qed.

Section encoder.
Context (hb : list Z → Z).

Lemma drop_seen_sublist seen rs : drop_seen hb seen rs `sublist_of` rs.
Proof.
  revert seen. induction rs as [|r rs IH]; intros seen; simpl; [done|].
  repeat case_match; [by apply sublist_skip|by apply sublist_cons|by apply sublist_skip].
Qed.

Lemma sublist_concat_map {A} (f : list A → list A) (ls : list (list A)) :
  (∀ l, f l `sublist_of` l) → concat (map f ls) `sublist_of` concat ls.
Proof. intros H. induction ls as [|l ls IH]; simpl; [done|]. by apply sublist_app. Qed.

Lemma drop_duplicate_sublist rs : ordered rs → drop_duplicate_records hb rs `sublist_of` rs.
Proof.
  intros Ho. rewrite <- (groups_concat rs Ho) at 2. unfold drop_duplicate_records.
  rewrite <- (map_map snd (λ g, if 1 <? zlen g then drop_seen hb [] g else g)).
  apply sublist_concat_map. intros l. case_match; [apply drop_seen_sublist|done].
Qed.

(** What a dropped record repeats: its type, class and data. *)
Definition repeats (r s : Record_) : Prop :=
  rtype r = rtype s ∧ class r = class s ∧
  wbuf (RData_encode (rdata r) (Writer_new hb)) = wbuf (RData_encode (rdata s) (Writer_new hb)).

Lemma drop_seen_keeps seen rs r : r ∈ rs →
  (∃ s, s ∈ drop_seen hb seen rs ∧ (s = r ∨ repeats r s)) ∨
  (rtype r, class r, wbuf (RData_encode (rdata r) (Writer_new hb))) ∈ seen.
Proof.
  revert seen. induction rs as [|s rs IH]; intros seen Hr; simpl; [by apply elem_of_nil in Hr|].
  destruct (werror (RData_encode (rdata s) (Writer_new hb))) eqn:He.
  { apply elem_of_cons in Hr as [->|Hr]; [left; exists s; split; [by left|by left]|].
    destruct (IH seen Hr) as [(x & Hx & Ex)|Hin]; [left; exists x; by split; [right|]|by right]. }
  case_bool_decide as Hin; apply elem_of_cons in Hr as [->|Hr]; [by right|by apply IH|left; exists s; split; [by left|by left]|].
  set (k := (rtype s, class s, wbuf (RData_encode (rdata s) (Writer_new hb)))).
  destruct (IH (k :: seen) Hr) as [(x & Hx & Ex)|[Eq|Hin']%elem_of_cons].
  - left. exists x. split; [by right|done].
  - left. exists s. split; [by left|]. right. by injection Eq.
  - by right.
Qed.

Lemma drop_duplicate_keeps rs r : ordered rs → r ∈ rs →
  ∃ s, s ∈ drop_duplicate_records hb rs ∧ (s = r ∨ rpath r = rpath s ∧ repeats r s).
Proof.
  intros Ho Hr. rewrite <- (groups_concat rs Ho) in Hr.
  apply list_elem_of_In, in_concat in Hr as (l & Hl & Hr%list_elem_of_In).
  apply list_elem_of_In, list_elem_of_fmap in Hl as (g & -> & Hg).
  set (keep := λ g : Z * list Record_, if 1 <? zlen g.2 then drop_seen hb [] g.2 else g.2).
  assert (∃ s, s ∈ keep g ∧ (s = r ∨ repeats r s)) as (s & Hs & Hrs).
  { unfold keep. case_match; [|by exists r; split; [|left]].
    destruct (drop_seen_keeps [] g.2 r Hr) as [H'|H']; [done|by apply elem_of_nil in H']. }
  exists s. split.
  - apply list_elem_of_In, in_concat. exists (keep g). split; [|by apply list_elem_of_In]. by apply in_map, list_elem_of_In.
  - destruct Hrs as [->|Hrs]; [by left|right]. split; [|done].
    destruct (owner_groups_spec (length rs) 0 rs) as (_ & _ & Hsp); [done|done|].
    destruct (Hsp g Hg) as (_ & Hat & _).
    assert (∀ x, x ∈ g.2 → rpath x = gpath g) as Hp by (intros x; rewrite Hat; intros [_ H]%elem_of_at_path; done).
    rewrite (Hp r), (Hp s); [done| |done]. unfold keep in Hs. case_match; [|done].
    eapply elem_of_sublist; [done|]. apply drop_seen_sublist.
Qed.

(** The records that a zone is built from. *)
Definition cleaned (rs : list Record_) : list Record_ :=
  drop_duplicate_records hb (normalize_owner_group_ttls rs).

Lemma cleaned_ordered rs : ordered rs → ordered (cleaned rs).
Proof.
  intros Ho. pose proof (ordered_same _ _ (normalize_same _ Ho) Ho) as Hn.
  eapply ordered_sublist; [by apply drop_duplicate_sublist|done].
Qed.

(** Nothing is lost but lifetimes and repetitions, and nothing added. *)
Lemma cleaned_keeps rs r : ordered rs → r ∈ rs →
  ∃ s, s ∈ cleaned rs ∧ rpath s = rpath r ∧ repeats r s.
Proof.
  intros Ho Hr. pose proof (normalize_same _ Ho) as Hf. pose proof (ordered_same _ _ Hf Ho) as Hn.
  apply list_elem_of_lookup in Hr as [i Hi].
  destruct (Forall2_lookup_l _ _ _ _ _ Hf Hi) as (k & Hk%list_elem_of_lookup_2 & t & _ & ->).
  destruct (drop_duplicate_keeps _ _ Hn Hk) as (s & Hs & [->|(Hp & Hrep)]); eexists; (split; [done|]).
  - done.
  - by split.
Qed.

Lemma cleaned_source rs s : ordered rs → s ∈ cleaned rs → ∃ r, r ∈ rs ∧ same_but_ttl r s.
Proof.
  intros Ho Hs. pose proof (normalize_same _ Ho) as Hf. pose proof (ordered_same _ _ Hf Ho) as Hn.
  assert (Hin : s ∈ normalize_owner_group_ttls rs).
  { eapply elem_of_sublist; [done|]. by apply drop_duplicate_sublist. }
  apply list_elem_of_lookup in Hin as [i Hi].
  destruct (Forall2_lookup_r _ _ _ _ _ Hf Hi) as (r & Hr%list_elem_of_lookup_2 & Hrs). by exists r.
Qed.
End encoder.
