(* ===== verification/ZoneLoad.v ===== *)
(** * Building the index of a zone, and packed records

    The index that [build_owner_index] returns finds, for the key of a path,
    the records of that path, and walking through the index visits every path
    that has records.

    A record that was packed is read back with the owner it is asked for and
    its lifetime cut to 30 bits; the arenas only grow, so it stays so; and the
    packed RRset of a type is the part of the owner's records of that type. *)

From S2P Require Import Prelude NameTable Wire Writer Name Codec NameCodec NameText RData.
From S2P Require Import Ttl OwnerIndex OwnerIndexSpec ZoneData ZoneNames Zone ZoneGroups.
From stdpp Require Import sorting.

#[local] Open Scope Z_scope.
#[local] Open Scope outcome_scope.

(** ** Outcomes that are values or errors *)

Lemma yields_ofold {A B} (I : list A → B → Prop) (f : B → A → outcome string B) l b :
  I [] b → (∀ pre a post b, l = pre ++ a :: post → I pre b → yields (f b a) (I (pre ++ [a]))) →
  yields (ofold f b l) (I l).
Proof.
  intros H0 Hf. assert (∀ post pre b, l = pre ++ post → I pre b → yields (ofold f b post) (I l)) as H.
  { induction post as [|a post IH]; intros pre b' E Hi; simpl; [by rewrite E, app_nil_r|].
    eapply yields_obind; [eapply Hf; [exact E|exact Hi]|].
    intros b'' Hb. apply (IH (pre ++ [a])); [by rewrite <- app_assoc|done]. }
  by apply (H l []).
Qed.

Lemma elem_of_mid {A} (l pre post : list A) a : l = pre ++ a :: post → a ∈ l.
Proof. intros ->. apply elem_of_app. right. by left. Qed.

(** ** The entries of the index *)

Definition group_entry (g : Z * list Record_) : list Z * RecordRange :=
  (labels_key (gpath g), mkRange g.1 (zlen g.2)).

Lemma gpath_ok start rs g : Forall zone_record rs → group_of start rs g → path_ok (gpath g).
Proof.
  intros Hz (r & Hr & <-)%gpath_in. rewrite Forall_forall in Hz. apply path_path_ok. auto with zone.
Qed.

Lemma key_of_group_path start rs g : Forall zone_record rs → group_of start rs g →
  key_of_group g.2 = Ok (labels_key (gpath g)).
Proof.
  intros Hz Hg. pose proof (gpath_in _ _ _ Hg) as (s & Hs & _). destruct Hg as (Hne & Hat & _).
  unfold gpath in *. destruct (g.2) as [|r l] eqn:E; [done|]. simpl.
  assert (Hr : r ∈ rs) by (eapply elem_of_at_path; rewrite <- Hat; by left).
  rewrite Forall_forall in Hz. rewrite key_of_path by auto with zone. done.
Qed.

Lemma group_entries_NoDup (gs : list (Z * list Record_)) rs :
  Forall zone_record rs → (∀ g, g ∈ gs → group_of 0 rs g) → NoDup (map gpath gs) →
  NoDup (map group_entry gs).*1.
Proof.
  intros Hz. induction gs as [|g gs IH]; intros Hg Hnd; [constructor|]. simpl in *.
  apply NoDup_cons in Hnd as [Hnin Hnd]. apply NoDup_cons. split.
  - intros (e & Ee & (h & -> & Hh)%list_elem_of_fmap)%list_elem_of_fmap. simpl in Ee. apply Hnin.
    apply path_key_inj in Ee as ->.
    + by apply list_elem_of_fmap_2.
    + eapply gpath_ok; [done|]. apply Hg. by left.
    + eapply gpath_ok; [done|]. apply Hg. by right.
  - apply IH; [|done]. intros h Hh. apply Hg. by right.
Qed.

Lemma group_bounds rs g : group_of 0 rs g → 0 ≤ g.1 ∧ g.1 + zlen g.2 ≤ zlen rs.
Proof.
  intros (_ & _ & pre & post & E & ->). rewrite E, !zlen_app.
  pose proof (zlen_nonneg pre). pose proof (zlen_nonneg post). lia.
Qed.

Lemma groups_length rs : ordered rs → zlen (groups_of rs) ≤ zlen rs.
Proof.
  intros Ho. destruct (owner_groups_spec (length rs) 0 rs) as (Hc & _ & Hg); [done|done|]. fold (groups_of rs) in *.
  rewrite <- Hc at 2. clear Hc. induction (groups_of rs) as [|g gs IH]; [done|]. simpl.
  rewrite zlen_cons, zlen_app. assert (zlen gs ≤ zlen (concat (map snd gs))) by (apply IH; intros h Hh; apply Hg; by right).
  destruct (Hg g) as (Hne & _); [by left|]. destruct (g.2); [done|]. rewrite zlen_cons. pose proof (zlen_nonneg l). lia.
Qed.

Section hasher.
Context (hasher : list Z → Z) (rs : list Record_) (Ho : ordered rs) (Hlen : zlen rs ≤ MAX_ZONE_RECORDS).

Let gs := groups_of rs.

Lemma gs_spec : NoDup (map gpath gs) ∧ ∀ g, g ∈ gs → group_of 0 rs g.
Proof. destruct (owner_groups_spec (length rs) 0 rs) as (_ & Hn & Hg); [done|done|]. by split. Qed.

Lemma count_groups_spec :
  yields (ofold count_group (0, 0) gs) (λ '(n, _), n = zlen gs ∧ ∀ g, g ∈ gs → zlen g.2 ≤ MAX_OWNER_RECORDS).
Proof.
  eapply yields_weaken; [apply (yields_ofold (λ pre '(n, _), n = zlen pre ∧ ∀ g, g ∈ pre → zlen g.2 ≤ MAX_OWNER_RECORDS))|].
  - split; [done|]. intros g Hg. by apply elem_of_nil in Hg.
  - intros pre g post [n m] Hg%elem_of_mid [-> Hpre]. unfold count_group. case_match; [done|]. bool_prop.
    rewrite (key_of_group_path 0 rs) by (apply Ho || by apply gs_spec). simpl. case_match; [|done]. simpl.
    split; [by rewrite zlen_app, zlen_cons, zlen_nil|].
    intros h [Hh|Hh%list_elem_of_singleton]%elem_of_app; [by apply Hpre|by rewrite Hh].
  - intros [n m] H. exact H.
Qed.

Lemma build_owner_index_spec :
  yields (build_owner_index hasher rs) (λ x, index_ok hasher x (map group_entry gs)).
Proof.
  destruct gs_spec as [Hnd Hgs]. unfold build_owner_index. fold gs.
  eapply yields_obind; [apply count_groups_spec|]. intros [n m] [-> Hmax].
  pose proof (groups_length rs Ho) as Hn. fold gs in Hn. pose proof (zlen_nonneg gs).
  destruct (OwnerIndex_new_spec hasher (zlen gs)) as (x & -> & Hx & Hroom & Hmeta).
  { unfold MAX_ZONE_RECORDS, U32_MAX in *. lia. }
  cbn [obind]. eapply yields_weaken; [apply (yields_ofold (λ pre y, index_ok hasher y (map group_entry pre) ∧
    length (slots y) = length (slots x) ∧ zlen (metadata y) ≤ 258 * zlen pre))|by intros y (? & _)].
  - split_and!; [done|done|by rewrite Hmeta].
  - intros pre g post y E (Hy & Hsl & Hmd). pose proof (elem_of_mid _ _ _ _ E) as Hg.
    assert (Hok : path_ok (gpath g)) by (eapply gpath_ok; [apply Ho|by apply Hgs]).
    pose proof (path_key_len _ Hok) as Hkl. pose proof (group_bounds _ _ (Hgs g Hg)) as [Hb1 Hb2].
    pose proof (Hmax g Hg) as Hm. pose proof (zlen_nonneg g.2). assert (Hpre : zlen pre + 1 ≤ zlen gs).
    { rewrite E, zlen_app, zlen_cons. pose proof (zlen_nonneg post). lia. }
    unfold insert_group. rewrite (key_of_group_path 0 rs) by (apply Ho || by apply Hgs). cbn [obind].
    unfold MAX_ZONE_RECORDS, MAX_OWNER_RECORDS, U32_MAX, U16_MAX in *.
    rewrite (proj2 (Z.ltb_ge _ _)) by lia. rewrite (proj2 (Z.ltb_ge _ _)) by lia.
    destruct (OwnerIndex_insert_spec hasher y (map group_entry pre) (labels_key (gpath g)) (mkRange g.1 (zlen g.2)))
      as (y' & -> & Hy' & Hsl' & Hmd'); try done.
    + intros Hin. pose proof (group_entries_NoDup gs rs (proj1 Ho) Hgs Hnd) as Hd.
      rewrite E, map_app, fmap_app in Hd. apply NoDup_app in Hd as (_ & Hd & _). apply (Hd _ Hin). simpl. by left.
    + unfold U32_MAX. lia.
    + unfold is_u16, U16_MAX. simpl. lia.
    + unfold zlen in *. rewrite length_map. lia.
    + simpl. split_and!; [by rewrite map_app|by rewrite Hsl'|]. rewrite zlen_app, zlen_cons, zlen_nil. unfold U8_MAX in Hkl. lia.
Qed.
(** ** What the index finds *)

Lemma group_of_path p : at_path rs p ≠ [] → ∃ g, g ∈ gs ∧ gpath g = p ∧ g.2 = at_path rs p.
Proof.
  intros Hne. destruct (at_path rs p) as [|r l] eqn:E; [done|]. rewrite <- E. clear Hne.
  assert (Hr : r ∈ at_path rs p) by (rewrite E; by left). apply elem_of_at_path in Hr as [Hr Hp].
  rewrite <- (groups_concat rs Ho) in Hr. apply list_elem_of_In, in_concat in Hr as (k & Hk & Hr%list_elem_of_In).
  apply list_elem_of_In, list_elem_of_fmap in Hk as (g & -> & Hg).
  destruct gs_spec as [_ Hgs]. destruct (Hgs g Hg) as (Hne & Hat & _).
  assert (gpath g = p) as Hgp by (rewrite Hat in Hr; apply elem_of_at_path in Hr as [_ <-]; done).
  exists g. split_and!; [done|done|]. by rewrite Hat, Hgp.
Qed.

Section lookup.
Context (x : OwnerIndex) (Hx : index_ok hasher x (map group_entry gs)).

Lemma index_lookup p : path_ok p →
  at_path rs p = [] ∧ OwnerIndex_get hasher (labels_key p) x = Ok None ∨
  ∃ pre post, at_path rs p ≠ [] ∧ rs = pre ++ at_path rs p ++ post ∧
    OwnerIndex_get hasher (labels_key p) x = Ok (Some (mkRange (zlen pre) (zlen (at_path rs p)))).
Proof.
  intros Hp. destruct gs_spec as [_ Hgs]. rewrite (OwnerIndex_get_spec hasher x _ Hx).
  destruct (decide (at_path rs p = [])) as [En|Hne].
  - left. split; [done|]. f_equal. unfold entry_of. destruct (list_find _ _) as [[i e]|] eqn:Ef; [|done]. exfalso.
    apply list_find_Some in Ef as (He & Ek & _). apply list_elem_of_lookup_2, list_elem_of_fmap in He as (g & -> & Hg).
    simpl in Ek. apply path_key_inj in Ek; [|by eapply gpath_ok; [apply Ho|by apply Hgs]|done].
    destruct (Hgs g Hg) as (Hne & Hat & _). by rewrite Ek, En in Hat.
  - right. destruct (group_of_path p Hne) as (g & Hg & Hgp & Hat). destruct (Hgs g Hg) as (_ & _ & pre & post & E & Hst).
    exists pre, post. rewrite <- Hat. split_and!; [by rewrite Hat|done|]. f_equal. unfold entry_of.
    assert (He : (labels_key p, mkRange (zlen pre) (zlen g.2)) ∈ map group_entry gs).
    { apply list_elem_of_fmap. exists g. split; [|done]. unfold group_entry. by rewrite Hgp, Hst. }
    destruct (list_find _ _) as [[i e]|] eqn:Ef.
    + apply list_find_Some in Ef as (Hi%list_elem_of_lookup_2 & Ek & _). simpl. f_equal.
      by rewrite (entry_unique _ _ _ (io_keys _ _ _ Hx) Hi He Ek).
    + apply list_find_None in Ef. rewrite Forall_forall in Ef. by destruct (Ef _ He).
Qed.

(** The records of a path, if there are some. *)
Definition found (p : list (list Z)) : option (list Record_) :=
  if bool_decide (at_path rs p = []) then None else Some (at_path rs p).

Lemma slice_bounds (pre l post : list Record_) : rs = pre ++ l ++ post →
  checked_add (zlen pre) (zlen l) = Some (zlen pre + zlen l).
Proof.
  intros E. unfold checked_add. rewrite (proj2 (Z.leb_le _ _)); [done|].
  assert (zlen rs = zlen pre + zlen l + zlen post) as H by (rewrite E, !zlen_app; lia).
  pose proof (zlen_nonneg post). unfold MAX_ZONE_RECORDS, USIZE_MAX in *. lia.
Qed.

Lemma full_records_spec p : path_ok p → full_records_for_key hasher rs x (labels_key p) = Ok (found p).
Proof.
  intros Hp. unfold full_records_for_key, found.
  destruct (index_lookup p Hp) as [[E ->]|(pre & post & Hne & E & ->)]; cbn [obind r_start r_len].
  - by rewrite bool_decide_eq_true_2.
  - rewrite bool_decide_eq_false_2 by done. rewrite (slice_bounds _ _ _ E). f_equal. rewrite E at 1. apply get_range_app.
Qed.

Lemma index_contains_spec p : path_ok p →
  OwnerIndex_contains_key hasher (labels_key p) x = Ok (bool_decide (at_path rs p ≠ [])).
Proof.
  intros Hp. unfold OwnerIndex_contains_key.
  destruct (index_lookup p Hp) as [[E ->]|(pre & post & Hne & E & ->)]; cbn [obind]; f_equal; apply bool_decide_ext.
  - by rewrite E.
  - by split.
Qed.

Lemma index_keys_spec k : k ∈ OwnerIndex_keys x ↔ ∃ r, r ∈ rs ∧ k = labels_key (rpath r).
Proof.
  destruct gs_spec as [_ Hgs]. rewrite (OwnerIndex_keys_spec hasher x _ Hx). rewrite list_elem_of_fmap. split.
  - intros (e & -> & (g & -> & Hg)%list_elem_of_fmap). destruct (gpath_in _ _ _ (Hgs g Hg)) as (r & Hr & Er).
    exists r. split; [done|]. simpl. by rewrite Er.
  - intros (r & Hr & ->). destruct (group_of_path (rpath r)) as (g & Hg & Hgp & _).
    { intros E. assert (H : r ∈ at_path rs (rpath r)) by by apply elem_of_at_path. rewrite E in H. by apply elem_of_nil in H. }
    exists (group_entry g). split; [simpl; by rewrite Hgp|]. by apply list_elem_of_fmap_2.
Qed.

Lemma at_own_path r : r ∈ rs → r ∈ at_path rs (rpath r).
Proof. intros Hr. by apply elem_of_at_path. Qed.

Lemma groups_for_keys_spec ks : (∀ k, k ∈ ks → ∃ r, r ∈ rs ∧ k = labels_key (rpath r)) →
  ∃ gl, groups_for_keys hasher rs x ks = Ok gl ∧
    ∀ g, g ∈ gl ↔ ∃ r, r ∈ rs ∧ labels_key (rpath r) ∈ ks ∧ g = (labels_key (rpath r), at_path rs (rpath r)).
Proof.
  induction ks as [|k ks IH]; intros Hks.
  { exists []. split; [done|]. intros g. split; [by intros H%elem_of_nil|]. by intros (r & _ & H%elem_of_nil & _). }
  destruct (Hks k) as (r & Hr & ->); [by left|]. assert (Hz : zone_record r).
  { destruct Ho as [Hz _]. rewrite Forall_forall in Hz. by apply Hz. }
  destruct IH as (gl & Egl & Hgl); [intros k Hk; apply Hks; by right|].
  simpl. rewrite full_records_spec by (apply path_path_ok; auto with zone). simpl. rewrite Egl. simpl.
  unfold found. rewrite bool_decide_eq_false_2.
  2:{ intros E. pose proof (at_own_path r Hr) as H. rewrite E in H. by apply elem_of_nil in H. }
  eexists. split; [done|]. intros g. rewrite elem_of_cons. split.
  - intros [Hg|(s & Hs & Hin & Hg)%Hgl].
    + exists r. split_and!; [done|by left|done].
    + exists s. split_and!; [done|by right|done].
  - intros (s & Hs & [E|Hin]%elem_of_cons & Hg).
    + left. assert (Hzs : zone_record s) by (destruct Ho as [Hz' _]; rewrite Forall_forall in Hz'; by apply Hz').
      apply path_key_inj in E; [|apply path_path_ok; auto with zone..]. by rewrite Hg, E.
    + right. apply Hgl. by exists s.
Qed.

(** The walk through the index: every path with its records. *)
Lemma full_groups_spec : ∃ gl, full_record_groups hasher rs x = Ok gl ∧
  ∀ g, g ∈ gl ↔ ∃ r, r ∈ rs ∧ g = (labels_key (rpath r), at_path rs (rpath r)).
Proof.
  destruct (groups_for_keys_spec (OwnerIndex_keys x)) as (gl & E & Hgl); [intros k; apply index_keys_spec|].
  exists gl. split; [done|]. intros g. rewrite Hgl. split.
  - intros (r & Hr & _ & Hg). by exists r.
  - intros (r & Hr & Hg). exists r. split_and!; [done| |done]. apply index_keys_spec. by exists r.
Qed.
End lookup.
End hasher.

(** * Packed records *)

(** What [materialize] returns for a record: A and AAAA take the owner that is
    asked for, the others are kept whole. *)
Definition stamp (owner : Name) (r : Record_) : Record_ :=
  match rdata r with
  | RD_A _ | RD_Aaaa _ => Record_new owner (Z.min (ttl r) STORED_TTL_MAX) (rdata r)
  | _ => r
  end.

Definition kept_whole (r : Record_) : option Record_ :=
  match rdata r with
  | RD_A _ | RD_Aaaa _ => None
  | _ => Some r
  end.

(** The packed record [s] stands for [r]. *)
Definition packs (ar : Arenas) (r : Record_) (s : StoredRecord) : Prop :=
  stored_rtype s = rtype r ∧ (∀ owner, materialize s owner ar = Some (stamp owner r)) ∧
  stored_full s ar = kept_whole r.

(** ** The tagged word *)

Definition tagged_of (tag value : Z) : Z := Z.lor (Z.shiftl tag STORED_TAG_SHIFT) value.

Lemma tagged_of_val tag value : 0 ≤ value ≤ STORED_VALUE_MASK →
  tagged_of tag value = tag * 2 ^ 30 + value.
Proof.
  intros Hv. unfold tagged_of, STORED_TAG_SHIFT. change STORED_VALUE_MASK with (2 ^ 30 - 1) in Hv.
  rewrite lor_shiftl_add by lia. done.
Qed.

Lemma stored_tag_of tag value payload : 0 ≤ value ≤ STORED_VALUE_MASK →
  stored_tag (mkStored (tagged_of tag value) payload) = tag.
Proof.
  intros Hv. unfold stored_tag, STORED_TAG_SHIFT. simpl. rewrite tagged_of_val by done.
  change STORED_VALUE_MASK with (2 ^ 30 - 1) in Hv. rewrite Z.shiftr_div_pow2 by lia.
  rewrite Z.add_comm, Z.div_add by lia. rewrite Z.div_small; lia.
Qed.

Lemma stored_value_of tag value payload : 0 ≤ value ≤ STORED_VALUE_MASK →
  Z.land (tagged (mkStored (tagged_of tag value) payload)) STORED_VALUE_MASK = value.
Proof.
  intros Hv. simpl. rewrite tagged_of_val by done. change STORED_VALUE_MASK with (Z.ones 30) in *.
  rewrite Z.land_ones by lia. change (Z.ones 30) with (2 ^ 30 - 1) in Hv.
  rewrite Z.add_comm, Z.mod_add by lia. apply Z.mod_small. lia.
Qed.

Lemma u32_be_val a b c d : is_bytes [a; b; c; d] → u32_to_be (be_val 0 [a; b; c; d]) = [a; b; c; d].
Proof.
  intros H. apply Forall_cons in H as [Ha H]. apply Forall_cons in H as [Hb H].
  apply Forall_cons in H as [Hc H]. apply Forall_cons in H as [Hd _]. unfold is_u8, U8_MAX in *.
  unfold be_val, u32_to_be. simpl fold_left. rewrite !(land_ones_mod _ 8), !Z.shiftr_div_pow2 by done.
  repeat f_equal; div_mod_lia.
Qed.

(** ** One record *)

Lemma stored_rtype_other t p : 0 ≤ t ≤ STORED_VALUE_MASK → is_u16 t →
  stored_rtype (mkStored (tagged_of STORED_TAG_OTHER t) p) = t.
Proof.
  intros Ht Hu. unfold stored_rtype. rewrite stored_tag_of by done. simpl Z.eqb. cbn iota.
  rewrite stored_value_of by done. change U16_MAX with (Z.ones 16). rewrite Z.land_ones by lia.
  apply Z.mod_small. unfold is_u16, U16_MAX in Hu. lia.
Qed.

Lemma packs_other aa oo r : zone_record r → kept_whole r = Some r →
  (∀ owner, stamp owner r = r) →
  packs (mkArenas aa (oo ++ [r])) r (mkStored (tagged_of STORED_TAG_OTHER (rtype r)) (zlen oo)).
Proof.
  intros [(_ & Ht & _) _] Hk Hst. assert (Hm : 0 ≤ rtype r ≤ STORED_VALUE_MASK).
  { unfold is_u16, U16_MAX in Ht. change STORED_VALUE_MASK with (2 ^ 30 - 1). lia. }
  split_and!.
  - by apply stored_rtype_other.
  - intros owner. unfold materialize. rewrite stored_tag_of by done. simpl. rewrite get_app_mid. by rewrite Hst.
  - unfold stored_full. rewrite stored_tag_of by done. simpl. by rewrite get_app_mid, Hk.
Qed.

Lemma from_record_other r ar : kept_whole r = Some r →
  from_record r ar =
    (if U32_MAX <? zlen (other_arena ar) then Err "레코드 아레나 offset이 32비트를 넘었습니다"
     else Ok (mkStored (tagged_of STORED_TAG_OTHER (rtype r)) (zlen (other_arena ar)),
              mkArenas (aaaa_arena ar) (other_arena ar ++ [r]))).
Proof. unfold kept_whole, from_record. by destruct (rdata r). Qed.

Lemma packs_a r ar a : zone_record r → rdata r = RD_A a →
  packs ar r (mkStored (tagged_of STORED_TAG_A (Z.min (ttl r) STORED_TTL_MAX)) (be_val 0 a)).
Proof.
  intros [(_ & _ & _ & Httl & Hd) Htype] E. rewrite E in Hd, Htype. cbn in Hd, Htype. destruct Hd as [Hl Hb].
  set (v := Z.min (ttl r) STORED_TTL_MAX). assert (Hm : 0 ≤ v ≤ STORED_VALUE_MASK).
  { unfold v, is_u32, STORED_TTL_MAX in *. change STORED_VALUE_MASK with (2 ^ 30 - 1). lia. }
  unfold packs, stored_rtype, materialize, stored_full, stored_ttl, stamp, kept_whole.
  rewrite stored_tag_of, stored_value_of, E by done. split_and!; [done| |done]. intros owner.
  destruct (zlen_4 a Hl) as (x & y & z & w & ->). cbn [payload]. by rewrite u32_be_val.
Qed.

Lemma packs_aaaa r aa oo a : zone_record r → rdata r = RD_Aaaa a →
  packs (mkArenas (aa ++ [a]) oo) r
    (mkStored (tagged_of STORED_TAG_AAAA (Z.min (ttl r) STORED_TTL_MAX)) (zlen aa)).
Proof.
  intros [(_ & _ & _ & Httl & _) Htype] E. rewrite E in Htype.
  set (v := Z.min (ttl r) STORED_TTL_MAX). assert (Hm : 0 ≤ v ≤ STORED_VALUE_MASK).
  { unfold v, is_u32, STORED_TTL_MAX in *. change STORED_VALUE_MASK with (2 ^ 30 - 1). lia. }
  unfold packs, stored_rtype, materialize, stored_full, stored_ttl, stamp, kept_whole.
  rewrite stored_tag_of, stored_value_of, E by done. split_and!; [done| |done]. intros owner.
  cbn [payload aaaa_arena]. by rewrite get_app_mid.
Qed.

(** Packing and reading back. *)
Lemma from_record_spec r ar : zone_record r →
  yields (from_record r ar) (λ '(s, ar'), packs ar' r s ∧
    aaaa_arena ar `prefix_of` aaaa_arena ar' ∧ other_arena ar `prefix_of` other_arena ar').
Proof.
  intros Hz. destruct (kept_whole r) as [k|] eqn:Ek.
  - assert (k = r) as -> by (unfold kept_whole in Ek; destruct (rdata r); congruence).
    rewrite from_record_other by done. case_match; [done|]. cbn [yields].
    split_and!; [|done|by apply prefix_app_r]. apply packs_other; [done..|].
    intros owner. unfold stamp. unfold kept_whole in Ek. by destruct (rdata r).
  - unfold from_record. destruct (rdata r) as [a|a| | | | | | | | | | | | | | | |] eqn:E;
      unfold kept_whole in Ek; rewrite E in Ek; try done.
    + split_and!; [by apply packs_a|done|done].
    + case_match; [done|]. split_and!; [by apply packs_aaaa|by apply prefix_app_r|done].
Qed.

Lemma packs_grows ar ar' r s :
  aaaa_arena ar `prefix_of` aaaa_arena ar' → other_arena ar `prefix_of` other_arena ar' →
  packs ar r s → packs ar' r s.
Proof.
  intros [xa Ea] [xo Eo] (Ht & Hm & Hf). split_and!; [done| |].
  - intros owner. specialize (Hm owner). unfold materialize in *. destruct (_ =? _); [done|].
    destruct (_ =? _).
    + destruct (get (aaaa_arena ar) _) eqn:E; [|done]. rewrite Ea. by rewrite (get_Some_app _ _ _ _ E).
    + rewrite Eo. by apply get_Some_app.
  - unfold stored_full in *. destruct (stored_tag s =? STORED_TAG_OTHER) eqn:Etag; [|done].
    specialize (Hm Name_root). unfold materialize in Hm. apply Z.eqb_eq in Etag. rewrite Etag in Hm. simpl in Hm.
    rewrite <- Hf, Hm, Eo. by apply get_Some_app.
Qed.

(** The whole arena. *)
Lemma pack_records_spec rs : Forall zone_record rs →
  yields (ofold pack_record ([], mkArenas [] []) rs) (λ '(xs, ar), Forall2 (packs ar) rs xs).
Proof.
  intros Hz. eapply yields_weaken; [apply (yields_ofold (λ pre '(xs, ar), Forall2 (packs ar) pre xs))|].
  - constructor.
  - intros pre r post [xs ar] E%elem_of_mid Hpre. unfold pack_record. simpl.
    rewrite Forall_forall in Hz. eapply yields_obind; [apply from_record_spec; by apply Hz|].
    intros [s ar'] (Hs & Ha & Hb). simpl. apply Forall2_app; [|by constructor].
    eapply Forall2_impl; [done|]. intros x y. by apply packs_grows.
  - by intros [xs ar].
Qed.

(** ** RRsets *)

#[local] Opaque stored_rtype materialize.

Lemma packs_filter ar f rs xs : Forall2 (packs ar) rs xs →
  Forall2 (packs ar) (List.filter (λ r, f (rtype r)) rs) (List.filter (λ s, f (stored_rtype s)) xs).
Proof.
  induction 1 as [|r s rs xs (Ht & Hrest) Hf IH]; simpl; [done|]. rewrite Ht.
  destruct (f (rtype r)); [|done]. constructor; [by split|done].
Qed.

Lemma packs_materialize ar owner rs xs : Forall2 (packs ar) rs xs →
  omap (λ s, materialize s owner ar) xs = map (stamp owner) rs.
Proof. induction 1 as [|r s rs xs (_ & Hm & _) _ IH]; [done|]. cbn [omap list_omap map]. rewrite Hm. by f_equal. Qed.

(** On records ordered by type, the two partition points cut out a type. *)
Lemma partition_points (t : Z) xs :
  StronglySorted (λ s s', stored_rtype s ≤ stored_rtype s') xs →
  let tail := drop (partition_point (λ r, stored_rtype r <? t) xs) xs in
  take (partition_point (λ r, stored_rtype r =? t) tail) tail = List.filter (λ s, stored_rtype s =? t) xs.
Proof.
  induction 1 as [|x xs Hs IH Hf]; [done|]. simpl. destruct (Z.ltb_spec (stored_rtype x) t).
  { rewrite (proj2 (Z.eqb_neq _ _)) by lia. exact IH. }
  assert (Hge : ∀ s, s ∈ xs → t ≤ stored_rtype s).
  { rewrite Forall_forall in Hf. intros s Hin. specialize (Hf s Hin). lia. }
  assert (H0 : partition_point (λ r, stored_rtype r <? t) xs = O).
  { destruct xs as [|y xs]; [done|]. simpl. rewrite (proj2 (Z.ltb_ge _ _)); [done|]. apply Hge. by left. }
  rewrite H0 in IH. simpl in *. destruct (Z.eqb_spec (stored_rtype x) t) as [E|E]; simpl.
  - f_equal. exact IH.
  - symmetry. apply filter_none. intros s Hin. rewrite Forall_forall in Hf. specialize (Hf s Hin). apply Z.eqb_neq. lia.
Qed.

Lemma stored_rrset_filter (t : Z) xs :
  StronglySorted (λ s s', stored_rtype s ≤ stored_rtype s') xs →
  stored_rrset xs t = List.filter (λ s, stored_rtype s =? t) xs.
Proof.
  intros Hs. unfold stored_rrset. destruct xs as [|x xs]; [done|].
  destruct (last (x :: xs)) as [l|] eqn:El; [|apply last_None in El; done].
  destruct (_ && _) eqn:E; [|by apply partition_points].
  apply andb_prop in E as [Ex%Z.eqb_eq El']. symmetry. apply filter_every. intros s Hin. apply Z.eqb_eq.
  apply StronglySorted_cons in Hs as [Hf Hs]. rewrite Forall_forall in Hf.
  apply elem_of_cons in Hin as [->|Hin]; [done|]. specialize (Hf s Hin).
  apply orb_prop in El' as [H1%Z.eqb_eq|Hl%Z.eqb_eq].
  { destruct xs; [by apply elem_of_nil in Hin|]. rewrite !zlen_cons in H1. pose proof (zlen_nonneg xs). lia. }
  assert (stored_rtype s ≤ stored_rtype l); [|lia].
  apply last_Some in El as (k & Ek). destruct k as [|y k]; [injection Ek as -> ->; by apply elem_of_nil in Hin|].
  injection Ek as -> ->. apply elem_of_app in Hin as [Hin|Hin%list_elem_of_singleton]; [|by rewrite Hin].
  eapply (StronglySorted_app_1_elem_of _ _ _ s l) in Hs; [done|done|by left].
Qed.
