(* ===== verification/ZoneLoaded.v ===== *)
(** * A loaded zone

    What [Zone::from_flat_records] establishes: the index and the arena hold
    the records, the flags of a name say whether it is an empty non-terminal,
    has a wildcard child or a DNAME, and the records passed the checks. *)

From S2P Require Import Prelude NameTable Wire Writer Name Codec NameCodec NameText RData.
From S2P Require Import Ttl OwnerIndex OwnerIndexSpec ZoneData ZoneNames Zone ZoneGroups ZoneLoad.
From stdpp Require Import sorting.

#[local] Open Scope Z_scope.
#[local] Open Scope outcome_scope.

(** ** Flags *)

Definition bits (e w d : bool) : Z :=
  (if e then NAME_EXISTS else 0) + (if w then NAME_HAS_WILDCARD else 0) + (if d then NAME_HAS_DNAME else 0).

(** The flags of the key of a path say [E], [W] and [D] of the path. *)
Definition flags_are (flags : gmap (list Z) Z) (E W D : Path → Prop) : Prop :=
  ∀ p, path_ok p → ∃ e w d : bool,
    flags !! labels_key p = (if e || w || d then Some (bits e w d) else None) ∧
    (e = true ↔ E p) ∧ (w = true ↔ W p) ∧ (d = true ↔ D p).

Lemma flags_are_empty : flags_are ∅ (λ _, False) (λ _, False) (λ _, False).
Proof. intros p _. exists false, false, false. by rewrite lookup_empty. Qed.

Lemma flags_are_ext flags (E W D E' W' D' : Path → Prop) :
  flags_are flags E W D → (∀ p, path_ok p → E p ↔ E' p) → (∀ p, path_ok p → W p ↔ W' p) →
  (∀ p, path_ok p → D p ↔ D' p) → flags_are flags E' W' D'.
Proof.
  intros H HE HW HD p Hp. destruct (H p Hp) as (e & w & d & Hl & He & Hw & Hd). exists e, w, d.
  rewrite <- HE, <- HW, <- HD by done. by split_and!.
Qed.

Lemma add_flag_lookup flags q f p : path_ok p → path_ok q →
  add_flag flags (labels_key q) f !! labels_key p =
    (if bool_decide (p = q) then Some (Z.lor (default 0 (flags !! labels_key p)) f) else flags !! labels_key p).
Proof.
  intros Hp Hq. unfold add_flag. case_bool_decide as E.
  - rewrite E. by rewrite lookup_insert_eq.
  - apply lookup_insert_ne. intros Ek%path_key_inj; [|done..]. by rewrite Ek in E.
Qed.

Lemma add_exists flags E W D q : path_ok q → flags_are flags E W D →
  flags_are (add_flag flags (labels_key q) NAME_EXISTS) (λ p, E p ∨ p = q) W D.
Proof.
  intros Hq H p Hp. destruct (H p Hp) as (e & w & d & Hl & He & Hw & Hd).
  rewrite add_flag_lookup, Hl by done. case_bool_decide as Epq.
  - exists true, w, d. split_and!; [by destruct e, w, d|by split; [right|]|done|done].
  - exists e, w, d. split_and!; [done| |done|done]. rewrite He. tauto.
Qed.

Lemma add_wildcard flags E W D q : path_ok q → flags_are flags E W D →
  flags_are (add_flag flags (labels_key q) NAME_HAS_WILDCARD) E (λ p, W p ∨ p = q) D.
Proof.
  intros Hq H p Hp. destruct (H p Hp) as (e & w & d & Hl & He & Hw & Hd).
  rewrite add_flag_lookup, Hl by done. case_bool_decide as Epq.
  - exists e, true, d. split_and!; [by destruct e, w, d|done|by split; [right|]|done].
  - exists e, w, d. split_and!; [done|done| |done]. rewrite Hw. tauto.
Qed.

Lemma add_dname flags E W D q : path_ok q → flags_are flags E W D →
  flags_are (add_flag flags (labels_key q) NAME_HAS_DNAME) E W (λ p, D p ∨ p = q).
Proof.
  intros Hq H p Hp. destruct (H p Hp) as (e & w & d & Hl & He & Hw & Hd).
  rewrite add_flag_lookup, Hl by done. case_bool_decide as Epq.
  - exists e, w, true. split_and!; [by destruct e, w, d|done|done|by split; [right|]].
  - exists e, w, d. split_and!; [done|done|done|]. rewrite Hd. tauto.
Qed.

(** ** What the flags say of the records *)

(** A name that exists without records of its own. *)
Definition empty_node (rs : list Record_) (o : Name) (p : Path) : Prop :=
  at_path rs p = [] ∧ (path o `suffix_of` p) ∧ ∃ r, r ∈ rs ∧ p `suffix_of` rpath r.

Definition star : list Z := [42].

Definition has_wildcard_child (rs : list Record_) (p : Path) : Prop := ∃ r, r ∈ rs ∧ rpath r = star :: p.

Definition has_dname (rs : list Record_) (p : Path) : Prop :=
  ∃ r, r ∈ rs ∧ rpath r = p ∧ rtype r = TYPE_DNAME.

Section load.
Context (hasher : list Z → Z) (rs : list Record_) (o : Name).
Context (Ho : ordered rs) (Hlen : zlen rs ≤ MAX_ZONE_RECORDS) (Hon : Name_wf o).
Context (Hin : ∀ r, r ∈ rs → path o `suffix_of` rpath r).
Context (x : OwnerIndex) (Hx : index_ok hasher x (map group_entry (groups_of rs))).

(** A group as the walk through the index yields it. *)
Definition walk_group (g : list Z * list Record_) : Prop :=
  ∃ r, r ∈ rs ∧ g = (labels_key (rpath r), at_path rs (rpath r)).

Lemma rs_record r : r ∈ rs → zone_record r.
Proof. destruct Ho as [Hz _]. rewrite Forall_forall in Hz. apply Hz. Qed.

Lemma rs_path_ok r : r ∈ rs → path_ok (rpath r).
Proof. intros Hr. apply path_path_ok. apply zone_record_name. by apply rs_record. Qed.

Lemma group_name_spec r : r ∈ rs →
  ∃ n, group_name (labels_key (rpath r), at_path rs (rpath r)) = Ok n ∧ Name_wf n ∧ path n = rpath r.
Proof.
  intros Hr. pose proof (at_own_path rs r Hr) as Hat. unfold group_name. simpl.
  destruct (at_path rs (rpath r)) as [|s l] eqn:E; [by apply elem_of_nil in Hat|].
  assert (Hs : s ∈ at_path rs (rpath r)) by (rewrite E; by left). apply elem_of_at_path in Hs as [Hs Hp].
  exists (name s). split_and!; [done|by apply zone_record_name, rs_record|done].
Qed.

(** Marking the names between an owner and the origin. *)
Lemma mark_name_spec n flags E W D labels : Name_wf n → 0 ≤ labels → flags_are flags E W D →
  yields (mark_name hasher x n flags labels) (λ f, flags_are f
    (λ p, E p ∨ p = drop (length (path n) - Z.to_nat labels) (path n) ∧ at_path rs p = []) W D).
Proof.
  intros Hn Hl Hf. unfold mark_name. rewrite suffix_ancestor by done. cbn [obind].
  rewrite key_of_path by by apply ancestor_wf. cbn [obind].
  pose proof (path_path_ok _ (ancestor_wf n (Z.to_nat labels) Hn)) as Hok.
  rewrite path_ancestor in Hok |- * by done. set (q := drop _ _) in *.
  rewrite (index_contains_spec hasher rs Ho x Hx) by done. cbn [obind yields].
  case_bool_decide as Hq.
  - eapply flags_are_ext; [exact Hf| |done..]. intros p _. split; [by left|]. intros [?|[-> ?]]; done.
  - eapply flags_are_ext; [by apply add_exists| |done..]. intros p _.
    split; (intros [?|H]; [by left|right]); [|by destruct H]. by rewrite H.
Qed.

Lemma elem_of_zrange_to a b v : v ∈ zrange_to a b ↔ a ≤ v ≤ b.
Proof.
  unfold zrange_to. rewrite list_elem_of_fmap. split.
  - intros (i & -> & Hi%elem_of_seq). lia.
  - intros Hv. exists (Z.to_nat (v - a)). split; [lia|]. apply elem_of_seq. lia.
Qed.

Lemma suffix_drop_iff (p q : Path) : p `suffix_of` q ↔ (length p ≤ length q)%nat ∧ p = drop (length q - length p) q.
Proof.
  split.
  - intros [k ->]. rewrite length_app. split; [lia|]. symmetry. apply drop_app_length'. lia.
  - intros [_ ->]. apply suffix_drop.
Qed.

Lemma suffix_total (p q r : Path) : p `suffix_of` r → q `suffix_of` r → (length p ≤ length q)%nat → p `suffix_of` q.
Proof.
  intros [k ->] [l E] Hl. assert (Hlen' : length k = (length l + (length q - length p))%nat).
  { apply (f_equal length) in E. rewrite !length_app in E. lia. }
  exists (drop (length l) k). apply (f_equal (drop (length l))) in E.
  rewrite drop_app_le in E by lia. rewrite drop_app_length in E. done.
Qed.

Lemma mark_names_spec g flags E W D : walk_group g → flags_are flags E W D →
  yields (mark_names hasher o x flags g) (λ f, flags_are f
    (λ p, E p ∨ (∃ r, r ∈ g.2 ∧ p `suffix_of` rpath r) ∧ path o `suffix_of` p ∧ at_path rs p = []) W D).
Proof.
  intros (r & Hr & ->) Hf. destruct (group_name_spec r Hr) as (n & En & Hn & Hp).
  unfold mark_names. rewrite En. cbn [obind].
  eapply yields_weaken; [apply (yields_ofold (λ pre f, flags_are f
    (λ p, E p ∨ ∃ k, k ∈ pre ∧ p = drop (length (path n) - Z.to_nat k) (path n) ∧ at_path rs p = []) W D))|].
  - eapply flags_are_ext; [exact Hf| |done..]. intros p _. split; [by left|]. intros [?|(k & Hk & _)]; [done|by apply elem_of_nil in Hk].
  - intros pre k post f Hk%elem_of_mid Hpre. apply elem_of_zrange_to in Hk.
    assert (0 ≤ k) by (rewrite num_labels_path in Hk by done; pose proof (zlen_nonneg (path o)); lia).
    eapply yields_weaken; [by apply mark_name_spec|]. intros f' Hf'. cbn beta. eapply flags_are_ext; [exact Hf'| |done..].
    intros p _. cbn beta. split.
    + intros [[?|(j & Hj & Hj')]|H']; [by left|right; exists j; split; [by apply elem_of_app; left|done]|].
      right. exists k. split; [apply elem_of_app; right; by left|done].
    + intros [?|(j & [Hj|Hj%list_elem_of_singleton]%elem_of_app & Hj')]; [by left; left|left; right; by exists j|right].
      by rewrite Hj in Hj'.
  - intros f Hf'. cbn beta. eapply flags_are_ext; [exact Hf'| |done..]. intros p Hpok. cbn beta.
    rewrite !num_labels_path by done. split; (intros [?|H]; [by left|right]).
    + destruct H as (k & Hk%elem_of_zrange_to & -> & Hat). rewrite Hp in Hat, Hk |- *.
      split_and!; [|apply (suffix_total _ _ (rpath r)); [by apply Hin|apply suffix_drop|]|done].
      * exists r. split; [by apply at_own_path|apply suffix_drop].
      * rewrite length_drop. unfold zlen in Hk. lia.
    + destruct H as ((s & [Hs Es]%elem_of_at_path & Hps) & Hop & Hat). rewrite Es in Hps.
      apply suffix_drop_iff in Hps as [Hl Hd]. exists (zlen p). split_and!; [|by rewrite Hp; unfold zlen; rewrite Nat2Z.id|done].
      apply elem_of_zrange_to. apply suffix_length in Hop. rewrite Hp. unfold zlen. lia.
Qed.
(** Wildcards and DNAMEs. *)
Lemma star_key p : path_ok p → take 2 (labels_key p) = [1; 42] ↔ ∃ q, p = star :: q.
Proof.
  intros Hp. split.
  - destruct p as [|l q]; [done|]. destruct Hp as [[[[Hl _] _]%Forall_cons _] [= El _]].
    rewrite labels_key_cons, El. intros E. exists q. f_equal. unfold zlen in *.
    destruct l as [|b [|c l]]; simpl length in *; [lia| |].
    + by injection E as ->.
    + injection E as E _. lia.
  - by intros (q & ->).
Qed.

Lemma mark_special_spec g flags E W D : walk_group g → flags_are flags E W D →
  yields (mark_special flags g) (λ f, flags_are f E
    (λ p, W p ∨ ∃ r, r ∈ g.2 ∧ rpath r = star :: p)
    (λ p, D p ∨ ∃ r, r ∈ g.2 ∧ rpath r = p ∧ rtype r = TYPE_DNAME)).
Proof.
  intros (r & Hr & ->) Hf. pose proof (rs_path_ok r Hr) as Hok. unfold mark_special. simpl fst. simpl snd.
  eapply yields_obind with (P := λ f, flags_are f E (λ p, W p ∨ ∃ s, s ∈ at_path rs (rpath r) ∧ rpath s = star :: p) D).
  - case_bool_decide as Es.
    + apply star_key in Es as (q & Eq); [|done]. rewrite Eq in Hok |- *. rewrite parent_key_cons by done. simpl.
      apply path_ok_tail in Hok. eapply flags_are_ext; [by apply add_wildcard|done| |done].
      intros p _. split; (intros [?|H]; [by left|right]).
      * exists r. rewrite H. split; [rewrite <- Eq; by apply at_own_path|done].
      * destruct H as (s & [Hs Ep]%elem_of_at_path & Es). congruence.
    + simpl. eapply flags_are_ext; [exact Hf|done| |done]. intros p _. split; [by left|].
      intros [?|(s & [Hs Ep]%elem_of_at_path & Eq)]; [done|]. exfalso. apply Es, star_key; [done|]. exists p. congruence.
  - intros f Hf'. simpl. unfold has_rtype. simpl snd. destruct (existsb _ _) eqn:Ed.
    + apply existsb_exists in Ed as (s & [Hs Ep]%list_elem_of_In%elem_of_at_path & Et%Z.eqb_eq).
      eapply flags_are_ext; [by apply add_dname|done|done|]. intros p _. split; (intros [?|H]; [by left|right]).
      * exists s. rewrite H. split_and!; [by apply elem_of_at_path|done|done].
      * destruct H as (t & [_ Et']%elem_of_at_path & Ept & _). congruence.
    + eapply flags_are_ext; [exact Hf'|done|done|]. intros p _. split; [by left|].
      intros [?|(s & Hs & Ep & Et)]; [done|]. exfalso. apply not_true_iff_false in Ed. apply Ed, existsb_exists.
      exists s. split; [by apply list_elem_of_In|]. by apply Z.eqb_eq.
Qed.

(** ** The walks *)

Context (gl : list (list Z * list Record_)).
Context (Hgl : ∀ g, g ∈ gl ↔ ∃ r, r ∈ rs ∧ g = (labels_key (rpath r), at_path rs (rpath r))).

(** What some group of the walk has, some record has. *)
Lemma walk_records (P : Record_ → Prop) : (∃ g, g ∈ gl ∧ ∃ r, r ∈ g.2 ∧ P r) ↔ ∃ r, r ∈ rs ∧ P r.
Proof.
  split.
  - intros (g & (s & Hs & ->)%Hgl & r & [Hr _]%elem_of_at_path & HP). by exists r.
  - intros (r & Hr & HP). exists (labels_key (rpath r), at_path rs (rpath r)). split; [apply Hgl; by exists r|].
    exists r. split; [by apply at_own_path|done].
Qed.

Lemma walk_flags :
  yields (try! f := ofold (mark_names hasher o x) ∅ gl in ofold mark_special f gl)
    (λ f, flags_are f (empty_node rs o) (has_wildcard_child rs) (has_dname rs)).
Proof.
  eapply yields_obind; [apply (yields_ofold (λ pre f, flags_are f (λ p, ∃ g, g ∈ pre ∧
    (∃ r, r ∈ g.2 ∧ p `suffix_of` rpath r) ∧ path o `suffix_of` p ∧ at_path rs p = []) (λ _, False) (λ _, False)))|].
  - eapply flags_are_ext; [apply flags_are_empty| |done..]. intros p _. split; [done|]. by intros (g & Hg%elem_of_nil & _).
  - intros pre g post f Hg%elem_of_mid Hpre. eapply yields_weaken; [apply mark_names_spec; [by apply Hgl|exact Hpre]|].
    intros f' Hf'. eapply flags_are_ext; [exact Hf'| |done..]. intros p _. cbn beta. setoid_rewrite elem_of_app.
    setoid_rewrite list_elem_of_singleton. split.
    + intros [(h & Hh & H)|H]; [exists h; split; [by left|done]|exists g; split; [by right|done]].
    + intros (h & [Hh| ->] & H); [left; by exists h|by right].
  - intros f Hf. cbn beta in Hf. eapply yields_weaken; [apply (yields_ofold (λ pre f, flags_are f (empty_node rs o)
      (λ p, ∃ g, g ∈ pre ∧ ∃ r, r ∈ g.2 ∧ rpath r = star :: p)
      (λ p, ∃ g, g ∈ pre ∧ ∃ r, r ∈ g.2 ∧ rpath r = p ∧ rtype r = TYPE_DNAME)))|].
    + eapply flags_are_ext; [exact Hf| | |]; intros p _; cbn beta.
      * split.
        -- intros (g & Hg & He & Hop & Hat). split_and!; [done|done|]. apply walk_records. by exists g.
        -- intros (Hat & Hop & Hr). apply (walk_records (λ r, p `suffix_of` rpath r)) in Hr as (g & Hg & Hr). by exists g.
      * split; [done|]. by intros (g & Hg%elem_of_nil & _).
      * split; [done|]. by intros (g & Hg%elem_of_nil & _).
    + intros pre g post f' Hg%elem_of_mid Hpre. eapply yields_weaken; [apply mark_special_spec; [by apply Hgl|exact Hpre]|].
      intros f'' Hf''. eapply flags_are_ext; [exact Hf''|done| |]; intros p _; cbn beta; setoid_rewrite elem_of_app;
        setoid_rewrite list_elem_of_singleton; (split; [intros [(h & Hh & H)|H]; [exists h; split; [by left|done]|exists g; split; [by right|done]]
        |intros (h & [Hh| ->] & H); [left; by exists h|by right]]).
    + intros f' Hf'. eapply flags_are_ext; [exact Hf'|done| |]; intros p _; apply walk_records.
Qed.

(** Delegations: NS records below the apex. *)
Lemma walk_delegations :
  existsb (λ g, negb (bool_decide (g.1 = labels_key (path o))) && has_rtype TYPE_NS g) gl = true ↔
  ∃ r, r ∈ rs ∧ rpath r ≠ path o ∧ rtype r = TYPE_NS.
Proof.
  rewrite existsb_exists. rewrite <- walk_records. split.
  - intros (g & Hg%list_elem_of_In & [Hk Ht]%andb_prop). exists g. split; [done|].
    apply existsb_exists in Ht as (s & Hs%list_elem_of_In & Et%Z.eqb_eq). exists s. split_and!; [done| |done].
    apply Hgl in Hg as (r & Hr & ->). apply elem_of_at_path in Hs as [Hs ->]. intros E.
    apply negb_true_iff, bool_decide_eq_false in Hk. by rewrite E in Hk.
  - intros (g & Hg & s & Hs & Hp & Ht). exists g. split; [by apply list_elem_of_In|]. apply andb_true_intro. split.
    + apply negb_true_iff, bool_decide_eq_false. apply Hgl in Hg as (r & Hr & ->). apply elem_of_at_path in Hs as [Hs Es].
      simpl. intros E%path_key_inj; [congruence|by apply rs_path_ok|by apply path_path_ok].
    + apply existsb_exists. exists s. split; [by apply list_elem_of_In|]. by apply Z.eqb_eq.
Qed.
End load.
