(* ===== verification/ZoneChecks.v ===== *)
(** * The checks of a zone, and building it

    [validate_zone_records] ends on any records, and the records that it
    accepts are a zone: a CNAME stands alone, an owner has one DNAME and
    nothing below it, and following CNAMEs ends.

    [Zone::from_flat_records] returns on any parsed records, and the zone it
    builds holds the records it was given, sorted, with levelled lifetimes and
    without repetitions. *)

From S2P Require Import Prelude NameTable Wire Writer Name Codec NameCodec NameText RData.
From S2P Require Import Ttl OwnerIndex OwnerIndexSpec ZoneData ZoneNames Zone ZoneGroups ZoneLoad ZoneLoaded.
From stdpp Require Import sorting.

#[local] Open Scope Z_scope.
#[local] Open Scope outcome_scope.

(** ** NSEC3 *)

Lemma bitmaps_loop_total fuel raw offset previous : is_bytes raw → 0 ≤ offset →
  (Z.to_nat (zlen raw - offset) < fuel)%nat → ∃ b, bitmaps_loop fuel raw offset previous = Ok b.
Proof.
  intros Hb. revert offset previous. induction fuel as [|fuel IH]; intros offset previous Hp Hf; [lia|]. simpl.
  destruct (Z.leb_spec (zlen raw) offset); [by eexists|]. destruct (Z.ltb_spec (zlen raw - offset) 2); [by eexists|].
  destruct (get_is_Some raw offset) as (w & ->); [lia|]. destruct (get_is_Some raw (offset + 1)) as (len & El); [lia|].
  rewrite El. destruct (_ || _) eqn:E; [by eexists|]. apply orb_false_elim in E as [[E1 E2]%orb_false_elim _]. bool_prop.
  destruct (get_is_Some raw (offset + 2 + len - 1)) as (b & ->); [lia|]. destruct (b =? 0); [by eexists|]. apply IH; lia.
Qed.

Lemma valid_type_bitmaps_total raw : is_bytes raw → ∃ b, valid_type_bitmaps raw = Ok b.
Proof. intros Hb. apply bitmaps_loop_total; [done|lia|]. unfold zlen. lia. Qed.

Lemma parse_nsec3_total r : zone_record r → yields (parse_nsec3_metadata r) (λ _, True).
Proof.
  intros [(_ & _ & _ & _ & Hd) _]. unfold parse_nsec3_metadata. destruct (rdata r) as [ | | | | | | | | | | | | | | | | |t raw]; try done.
  simpl in Hd. destruct (decide (t = 50)) as [->|Ht]; [|by repeat case_match; try done; subst].
  destruct raw as [|a [|b [|c [|d [|sl [|y rest]]]]]] eqn:Eraw; try done. rewrite <- Eraw in *.
  assert (Hsl : 0 ≤ sl).
  { rewrite Eraw in Hd. do 4 apply Forall_cons in Hd as [_ Hd]. apply Forall_cons in Hd as [[? _] _]. done. }
  destruct (Z.leb_spec (zlen raw) (5 + sl)); [done|].
  destruct (get_is_Some raw (5 + sl)) as (hl & ->); [lia|]. destruct (Z.eqb_spec hl 20) as [->|]; [|done]. simpl negb. cbn iota.
  destruct (Z.ltb_spec (zlen raw) (5 + sl + (1 + 20))); [done|].
  destruct (valid_type_bitmaps_total (drop (Z.to_nat (5 + sl + (1 + 20))) raw)) as (v & ->); [by apply Forall_drop|].
  cbn [obind]. destruct v; [|done]. cbn [negb]. by rewrite get_range_is_Some by lia.
Qed.

Lemma check_nsec3_total o ps r : Name_wf o → zone_record r → yields (check_nsec3 o ps r) (λ _, True).
Proof.
  intros Ho Hr. unfold check_nsec3. eapply yields_obind; [by apply parse_nsec3_total|]. intros m _.
  do 3 (case_match; [done|]). case_match; [done|].
  rewrite suffix_ancestor by (auto with zone; rewrite num_labels_path by done; apply zlen_nonneg). cbn [obind].
  case_match; [done|]. destruct ps; [|done]. by destruct (bool_decide _).
Qed.

(** ** One owner *)

Lemma check_cnames_spec rs :
  yields (check_cnames rs) (λ _, ∀ c r, c ∈ rs → r ∈ rs → rtype c = TYPE_CNAME →
    rtype r ∈ [TYPE_CNAME; TYPE_RRSIG; TYPE_NSEC] ∧ (rtype r = TYPE_CNAME → rdata r = rdata c)).
Proof.
  unfold check_cnames. set (cs := List.filter _ rs).
  assert (Hcs : ∀ c, c ∈ cs ↔ c ∈ rs ∧ rtype c = TYPE_CNAME).
  { intros c. unfold cs. rewrite elem_of_filter_list. unfold of_rtype. by rewrite Z.eqb_eq. }
  clearbody cs. destruct cs as [|f cs]; [intros c r Hc _ Ht; by destruct (proj1 (elem_of_nil c) (proj2 (Hcs c) (conj Hc Ht)))|].
  destruct (existsb _ (f :: cs)) eqn:E1; [done|]. destruct (existsb _ rs) eqn:E2; [done|]. cbn [yields].
  assert (Hsame : ∀ c, c ∈ rs → rtype c = TYPE_CNAME → rdata c = rdata f).
  { intros c Hc Ht. destruct (decide (rdata c = rdata f)) as [|Hne]; [done|]. apply not_true_iff_false in E1 as [].
    apply existsb_exists. exists c. split; [apply list_elem_of_In, Hcs; by split|]. by rewrite bool_decide_eq_false_2. }
  intros c r Hc Hr Ht. split; [|intros Ht'; by rewrite (Hsame r), (Hsame c)].
  destruct (decide (rtype r ∈ [TYPE_CNAME; TYPE_RRSIG; TYPE_NSEC])) as [|Hne]; [done|]. apply not_true_iff_false in E2 as [].
  apply existsb_exists. exists r. split; [by apply list_elem_of_In|]. by rewrite bool_decide_eq_false_2.
Qed.

Lemma check_dnames_spec o rs :
  yields (check_dnames o rs) (λ _, ∀ d, d ∈ rs → rtype d = TYPE_DNAME → List.filter (of_rtype TYPE_DNAME) rs = [d]).
Proof.
  unfold check_dnames. assert (Hds : ∀ d, d ∈ List.filter (of_rtype TYPE_DNAME) rs ↔ d ∈ rs ∧ rtype d = TYPE_DNAME).
  { intros c. rewrite elem_of_filter_list. unfold of_rtype. by rewrite Z.eqb_eq. }
  destruct (List.filter _ rs) as [|f ds] eqn:E; [intros d Hd Ht; by destruct (proj1 (elem_of_nil d) (proj2 (Hds d) (conj Hd Ht)))|].
  destruct (Z.eqb_spec (zlen (f :: ds)) 1) as [H1|]; [|done]. simpl negb. cbn iota. case_match; [done|].
  assert (ds = []) as ->. { destruct ds; [done|]. rewrite !zlen_cons in H1. pose proof (zlen_nonneg ds). lia. }
  cbn [yields]. intros d Hd Ht. by rewrite (proj1 (list_elem_of_singleton _ _) (proj2 (Hds d) (conj Hd Ht))).
Qed.

(** What is checked of the records of one owner. *)
Definition owner_checked (rs : list Record_) : Prop :=
  (∀ r, r ∈ rs → class r = CLASS_IN) ∧
  (∀ c r, c ∈ rs → r ∈ rs → rtype c = TYPE_CNAME →
    rtype r ∈ [TYPE_CNAME; TYPE_RRSIG; TYPE_NSEC] ∧ (rtype r = TYPE_CNAME → rdata r = rdata c)) ∧
  (∀ d, d ∈ rs → rtype d = TYPE_DNAME → List.filter (of_rtype TYPE_DNAME) rs = [d]).

Lemma check_owner_spec o ps g : Name_wf o → Forall zone_record g.2 →
  yields (check_owner o ps g) (λ _, owner_checked g.2).
Proof.
  intros Ho Hz. unfold check_owner. destruct (existsb _ g.2) eqn:Ec; [done|].
  eapply yields_obind; [apply check_cnames_spec|]. intros [] Hc.
  eapply yields_obind; [apply check_dnames_spec|]. intros [] Hd.
  eapply yields_weaken; [apply (yields_ofold (λ _ _, True))|].
  - done.
  - intros pre r post q Hin%elem_of_mid _. apply elem_of_filter_list in Hin as [Hin _].
    rewrite Forall_forall in Hz. apply check_nsec3_total; [done|by apply Hz].
  - intros _ _. split_and!; [|done|done]. intros r Hr. destruct (decide (class r = CLASS_IN)) as [|Hne]; [done|].
    apply not_true_iff_false in Ec as []. apply existsb_exists. exists r. split; [by apply list_elem_of_In|].
    by rewrite (proj2 (Z.eqb_neq _ _)).
Qed.

(** ** Across owners *)

(** What following a CNAME leads to. *)
Definition cname_next (rs : list Record_) (p : Path) : option Path := path <$> cname_target (at_path rs p).

(** Following CNAMEs from the path ends. *)
Definition cname_ends (rs : list Record_) (p : Path) : Prop := Acc (λ q p, cname_next rs p = Some q) p.

(** The records of a zone that passed the checks. *)
Record checked (rs : list Record_) : Prop := mkChecked {
  chk_owner : ∀ r, r ∈ rs → owner_checked (at_path rs (rpath r));
  chk_below : ∀ d r, d ∈ rs → r ∈ rs → rtype d = TYPE_DNAME → rpath d `suffix_of` rpath r → rpath r = rpath d;
  chk_cnames : ∀ p, cname_ends rs p;
}.

Section checks.
Context (hasher : list Z → Z) (rs : list Record_) (o : Name).
Context (Ho : ordered rs) (Hlen : zlen rs ≤ MAX_ZONE_RECORDS) (Hon : Name_wf o).
Context (Hin : ∀ r, r ∈ rs → path o `suffix_of` rpath r).
Context (x : OwnerIndex) (Hx : index_ok hasher x (map group_entry (groups_of rs))).

Lemma cname_target_wf p n : cname_target (at_path rs p) = Some n → Name_wf n.
Proof.
  unfold cname_target. destruct (List.find _ _) as [r|] eqn:E; [|done]. apply find_some in E as [Hr _].
  apply list_elem_of_In, elem_of_at_path in Hr as [Hr _]. destruct (rs_record rs Ho r Hr) as [(_ & _ & _ & _ & Hd) _].
  destruct (rdata r); try done. by intros [= <-].
Qed.

Lemma cname_next_in p q : cname_next rs p = Some q → p ∈ map rpath rs.
Proof.
  unfold cname_next, cname_target. destruct (List.find _ _) as [r|] eqn:E; [|done]. intros _. apply find_some in E as [Hr _].
  apply list_elem_of_In, elem_of_at_path in Hr as [Hr <-]. by apply list_elem_of_fmap_2.
Qed.

(** *** CNAME chains *)

(** The marks: names known to be sound are; [vis] are the owners marked on the
    present path. *)
Definition marks_ok (states : gmap (list Z) Z) : Prop :=
  (∀ k v, states !! k = Some v → v = 1 ∨ v = 2) ∧
  (∀ p, path_ok p → states !! labels_key p = Some 2 → cname_ends rs p).

Lemma marks_ok_1 states k : marks_ok states → marks_ok (<[k := 1]> states).
Proof.
  intros [Hv Hs]. split.
  - intros k' v [[_ <-]|[_ ?]]%lookup_insert_Some; [by left|by eapply Hv].
  - intros p Hp [[_ ?]|[_ ?]]%lookup_insert_Some; [done|by apply Hs].
Qed.

Lemma found_next p : found rs p = None ∨ cname_target (at_path rs p) = None → cname_next rs p = None.
Proof.
  unfold found, cname_next. intros [H|H]; [|by rewrite H]. case_bool_decide as E; [|done]. by rewrite E.
Qed.

Lemma cname_ends_none p : cname_next rs p = None → cname_ends rs p.
Proof. intros E. constructor. intros q Hq. congruence. Qed.

Lemma follow_spec fuel states pth p vis :
  path_ok p → marks_ok states → NoDup vis → (∀ q, q ∈ vis → path_ok q ∧ q ∈ map rpath rs ∧ is_Some (states !! labels_key q)) →
  (length rs < fuel + length vis)%nat →
  yields (follow_cnames hasher fuel rs x states pth (labels_key p)) (λ '(states', pth'),
    marks_ok states' ∧ cname_ends rs p ∧ ∃ new, pth' = pth ++ map labels_key new ∧
      Forall (λ q, path_ok q ∧ cname_ends rs q) new).
Proof.
  revert states pth p vis. induction fuel as [|fuel IH]; intros states pth p vis Hp Hm Hnd Hvis Hf.
  { assert (length vis ≤ length (map rpath rs))%nat; [|rewrite length_map in *; lia].
    apply submseteq_length, NoDup_submseteq; [done|]. intros q Hq. by apply Hvis. }
  simpl. assert (Hgo : states !! labels_key p ≠ Some 1 → states !! labels_key p ≠ Some 2 →
    yields (try! next_records := full_records_for_key hasher rs x (labels_key p) in
      match next_records with
      | Some next_records =>
          match cname_target next_records with
          | Some next => follow_cnames hasher fuel rs x (<[labels_key p := 1]> states)
                           (pth ++ [labels_key p]) (Name_canonical_key next)
          | None => Ok (<[labels_key p := 1]> states, pth ++ [labels_key p])
          end
      | None => Ok (<[labels_key p := 1]> states, pth ++ [labels_key p])
      end) (λ '(states', pth'), marks_ok states' ∧ cname_ends rs p ∧ ∃ new, pth' = pth ++ map labels_key new ∧
        Forall (λ q, path_ok q ∧ cname_ends rs q) new)).
  { intros Hn1 Hn2. assert (Hnone : states !! labels_key p = None).
    { destruct (states !! labels_key p) as [v|] eqn:E; [|done]. by destruct (proj1 Hm _ _ E) as [->| ->]. }
    assert (Hstop : cname_next rs p = None → marks_ok (<[labels_key p := 1]> states) ∧ cname_ends rs p ∧
      ∃ new, pth ++ [labels_key p] = pth ++ map labels_key new ∧ Forall (λ q, path_ok q ∧ cname_ends rs q) new).
    { intros E%cname_ends_none. split_and!; [by apply marks_ok_1|done|]. exists [p]. split; [done|]. by apply Forall_singleton. }
    rewrite (full_records_spec hasher rs Ho Hlen x Hx p Hp). cbn [obind].
    destruct (found rs p) as [l|] eqn:Ef; [|apply Hstop, found_next; by left].
    assert (l = at_path rs p) as ->. { unfold found in Ef. case_bool_decide; congruence. }
    destruct (cname_target (at_path rs p)) as [n|] eqn:Et; [|apply Hstop, found_next; by right].
    pose proof (cname_target_wf _ _ Et) as Hn. rewrite canonical_key_path by done.
    assert (Hnext : cname_next rs p = Some (path n)) by (unfold cname_next; by rewrite Et).
    eapply yields_weaken; [apply (IH _ _ _ (p :: vis))|].
    - by apply path_path_ok.
    - by apply marks_ok_1.
    - apply NoDup_cons. split; [|done]. intros (_ & _ & [v Hv])%Hvis. congruence.
    - intros q [->|Hq]%elem_of_cons.
      + split_and!; [done|by eapply cname_next_in|]. rewrite lookup_insert_eq. by eexists.
      + destruct (Hvis q Hq) as (? & ? & Hs). split_and!; [done|done|].
        destruct (decide (labels_key p = labels_key q)) as [Ek|Ek]; [rewrite Ek, lookup_insert_eq; by eexists|by rewrite lookup_insert_ne].
    - simpl. lia.
    - intros [states' pth'] (Hm' & He & new & -> & Hnew).
      assert (Hep : cname_ends rs p).
      { constructor. intros q Hq. rewrite Hnext in Hq. by injection Hq as <-. }
      split_and!; [done|done|]. exists (p :: new). split; [by rewrite <- app_assoc|]. by apply Forall_cons. }
  destruct (states !! labels_key p) as [v|] eqn:Es; [|by apply Hgo].
  destruct (proj1 Hm _ _ Es) as [->| ->]; [done|]. cbn [yields]. split_and!; [done|by apply Hm|].
  exists []. split; [by rewrite app_nil_r|constructor].
Qed.

(** All the groups. *)
Context (gl : list (list Z * list Record_)).
Context (Hgl : ∀ g, g ∈ gl ↔ ∃ r, r ∈ rs ∧ g = (labels_key (rpath r), at_path rs (rpath r))).

Lemma marks_ok_2 states new : marks_ok states → Forall (λ q, path_ok q ∧ cname_ends rs q) new →
  marks_ok (foldl (λ states name, <[name := 2]> states) states (map labels_key new)).
Proof.
  intros Hm Hnew. revert states Hm. induction Hnew as [|q new [Hq He] _ IH]; intros states Hm; [done|].
  simpl. apply IH. destruct Hm as [Hv Hs]. split.
  - intros k v [[_ <-]|[_ ?]]%lookup_insert_Some; [by right|by eapply Hv].
  - intros p Hp [[E _]|[_ ?]]%lookup_insert_Some; [|by apply Hs]. by apply path_key_inj in E as <-.
Qed.

Lemma has_cname_iff p : has_rtype TYPE_CNAME (labels_key p, at_path rs p) = false → cname_next rs p = None.
Proof.
  unfold has_rtype, cname_next, cname_target. simpl. intros E. destruct (List.find _ _) as [r|] eqn:Ef; [|done].
  apply find_some in Ef as [Hr Ht]. apply not_true_iff_false in E as []. apply existsb_exists. by exists r.
Qed.

Lemma walk_chains :
  yields (ofold (check_cname_chain hasher (2 + length rs) rs x) ∅ gl) (λ _, ∀ p, cname_ends rs p).
Proof.
  eapply yields_weaken; [apply (yields_ofold (λ pre states, marks_ok states ∧
    ∀ p, (labels_key p, at_path rs p) ∈ pre → p ∈ map rpath rs → cname_ends rs p))|].
  - split; [split; [intros k v Hk|intros p _ Hk]; by rewrite lookup_empty in Hk|]. by intros p H%elem_of_nil.
  - intros pre g post states Hg%elem_of_mid [Hm Hpre]. apply Hgl in Hg as (r & Hr & ->).
    pose proof (rs_path_ok rs Ho r Hr) as Hok. unfold check_cname_chain.
    assert (Hnew : cname_ends rs (rpath r) → ∀ p, (labels_key p, at_path rs p) ∈ pre ++ [(labels_key (rpath r), at_path rs (rpath r))] →
      p ∈ map rpath rs → cname_ends rs p).
    { intros He p [H|[= Ek _]%list_elem_of_singleton]%elem_of_app Hp; [by apply Hpre|].
      apply list_elem_of_fmap in Hp as (s & -> & Hs). apply path_key_inj in Ek as ->; [done|by apply (rs_path_ok rs Ho)|done]. }
    destruct (has_rtype TYPE_CNAME _) eqn:Ec; cbn [negb].
    2:{ split; [done|]. apply Hnew. apply cname_ends_none. by apply has_cname_iff. }
    cbn [fst]. case_bool_decide as E2; [split; [done|]; apply Hnew, Hm; done|].
    eapply yields_obind; [apply (follow_spec _ _ _ _ [])|].
    + done.
    + done.
    + constructor.
    + by intros q H%elem_of_nil.
    + simpl. lia.
    + intros [states' pth'] (Hm' & He & new & -> & Hall). cbn [yields]. split; [by apply marks_ok_2|by apply Hnew].
  - intros states [_ H] p. destruct (cname_next rs p) as [q|] eqn:E; [|by apply cname_ends_none].
    apply cname_next_in in E as Hp. apply H; [|done]. apply list_elem_of_fmap in Hp as (r & -> & Hr).
    apply Hgl. by exists r.
Qed.

(** *** Nothing below a DNAME *)

Lemma dname_keys_spec l : (∀ g, g ∈ l → g ∈ gl) → ∃ ks, dname_owner_keys l = Ok ks ∧
  ∀ r, r ∈ rs → (labels_key (rpath r), at_path rs (rpath r)) ∈ l → rtype r = TYPE_DNAME → labels_key (rpath r) ∈ ks.
Proof.
  induction l as [|g l IH]; intros Hl; [exists []; split; [done|]; by intros r _ H%elem_of_nil|].
  destruct IH as (ks & E & Hks); [intros h Hh; apply Hl; by right|]. simpl. rewrite E. cbn [obind].
  destruct (proj1 (Hgl g) (Hl g (list_elem_of_here g l))) as (s & Hs & ->).
  destruct (group_name_spec rs Ho s Hs) as (n & En & Hn & Hp).
  destruct (has_rtype TYPE_DNAME _) eqn:Ed.
  - rewrite En. cbn [obind]. rewrite canonical_key_path, Hp by done. eexists. split; [done|].
    intros r Hr [[= -> _]|Hin']%elem_of_cons Ht; [by left|right; by apply Hks].
  - exists ks. split; [done|]. intros r Hr [[= Ek Eat]|Hin']%elem_of_cons Ht; [|by apply Hks].
    exfalso. apply not_true_iff_false in Ed as []. unfold has_rtype. simpl. rewrite <- Eat.
    apply existsb_exists. exists r. split; [by apply list_elem_of_In, at_own_path|by apply Z.eqb_eq].
Qed.

Lemma check_below_spec ks g : walk_group rs g →
  yields (check_below_dname o ks tt g) (λ _, ∀ r p, r ∈ g.2 →
    p `suffix_of` rpath r → path o `suffix_of` p → labels_key p ∈ ks → p = rpath r).
Proof.
  intros (s & Hs & ->). destruct (group_name_spec rs Ho s Hs) as (n & En & Hn & Hp).
  unfold check_below_dname. rewrite En. cbn [obind].
  eapply yields_weaken; [apply (yields_ofold (λ pre _, ∀ k, k ∈ pre →
    labels_key (drop (length (path n) - Z.to_nat k) (path n)) ∉ ks))|].
  - by intros k H%elem_of_nil.
  - intros pre k post [] Hk%elem_of_mid Hpre. apply elem_of_zrange_to in Hk.
    assert (0 ≤ k) by (rewrite num_labels_path in Hk by done; pose proof (zlen_nonneg (path o)); lia).
    rewrite suffix_ancestor by done. cbn [obind]. case_bool_decide as Hks; [done|]. cbn [yields].
    rewrite canonical_key_path, path_ancestor in Hks by (done || by apply ancestor_wf).
    intros j [Hj|Hj%list_elem_of_singleton]%elem_of_app; [by apply Hpre|by rewrite Hj].
  - intros u H r p [Hr Er]%elem_of_at_path Hps Hop Hk. rewrite Er in Hps |- *. rewrite Hp in H.
    apply suffix_drop_iff in Hps as Hd. destruct Hd as [Hle Hd].
    destruct (decide (length p = length (rpath s))) as [El|El]; [by rewrite Hd, El, Nat.sub_diag|].
    exfalso. apply (H (zlen p)); [|unfold zlen; by rewrite Nat2Z.id, <- Hd].
    apply elem_of_zrange_to. rewrite !num_labels_path, Hp by done. apply suffix_length in Hop. unfold zlen. lia.
Qed.

(** ** All the checks *)

Lemma walk_owners ps :
  yields (ofold (check_owner o) ps gl) (λ _, ∀ r, r ∈ rs → owner_checked (at_path rs (rpath r))).
Proof.
  eapply yields_weaken; [apply (yields_ofold (λ pre _, ∀ g, g ∈ pre → owner_checked g.2))|].
  - by intros g H%elem_of_nil.
  - intros pre g post q Hg%elem_of_mid Hpre. eapply yields_weaken; [apply check_owner_spec; [done|]|].
    + apply Hgl in Hg as (r & Hr & ->). apply Forall_forall. intros s [Hs _]%elem_of_at_path. by apply (rs_record rs Ho).
    + intros u Hc h [Hh|Hh%list_elem_of_singleton]%elem_of_app; [by apply Hpre|by rewrite Hh].
  - intros u H r Hr. apply (H (labels_key (rpath r), at_path rs (rpath r))). apply Hgl. by exists r.
Qed.

Lemma walk_checked (Egl : full_record_groups hasher rs x = Ok gl) :
  yields (validate_zone_records hasher o rs x) (λ _, checked rs).
Proof.
  unfold validate_zone_records. rewrite Egl. cbn [obind].
  eapply yields_obind; [apply walk_owners|]. intros ps Hown.
  destruct (dname_keys_spec gl) as (ks & -> & Hks); [done|]. cbn [obind].
  eapply yields_obind; [apply (yields_ofold (λ pre _, ∀ g, g ∈ pre → ∀ r p, r ∈ g.2 →
    p `suffix_of` rpath r → path o `suffix_of` p → labels_key p ∈ ks → p = rpath r))|].
  - by intros g H%elem_of_nil.
  - intros pre g post [] Hg%elem_of_mid Hpre. eapply yields_weaken; [apply check_below_spec; by apply Hgl|].
    intros u Hc h [Hh|Hh%list_elem_of_singleton]%elem_of_app; [by apply Hpre|by rewrite Hh].
  - intros [] Hb. eapply yields_obind; [apply walk_chains|]. intros states Hch. cbn [yields]. constructor; [done| |done].
    intros d r Hd Hr Ht Hs. symmetry.
    apply (Hb (labels_key (rpath r), at_path rs (rpath r))); [apply Hgl; by exists r|by apply at_own_path|done|by apply Hin|].
    apply Hks; [done| |done]. apply Hgl. by exists d.
Qed.
End checks.

(** * Building a zone *)

Section hasher.
Context (hasher : list Z → Z).

(** The zone [z] holds the records [rs]. *)
Record loaded (rs : list Record_) (z : Zone) : Prop := mkLoaded {
  ld_ordered : ordered rs;
  ld_len : zlen rs ≤ MAX_ZONE_RECORDS;
  ld_origin : Name_wf (origin z);
  ld_inside : ∀ r, r ∈ rs → path (origin z) `suffix_of` rpath r;
  ld_apex : ∃ r, r ∈ rs ∧ rpath r = path (origin z) ∧ rtype r = TYPE_NS;
  ld_index : index_ok hasher (records z) (map group_entry (groups_of rs));
  ld_packed : Forall2 (packs (arenas z)) rs (record_arena z);
  ld_flags : flags_are (name_flags z) (empty_node rs (origin z)) (has_wildcard_child rs) (has_dname rs);
  ld_delegations : has_delegations z = true ↔ ∃ r, r ∈ rs ∧ rpath r ≠ path (origin z) ∧ rtype r = TYPE_NS;
  ld_simple : simple_nxdomain z = negb (has_delegations z) && bool_decide (name_flags z = ∅);
  ld_checked : checked rs;
}.

Lemma all_inside_spec o rs : Name_wf o → Forall zone_record rs →
  ∃ b, all_inside o rs = Ok b ∧ (b = true ↔ ∀ r, r ∈ rs → path o `suffix_of` rpath r).
Proof.
  intros Ho. induction 1 as [|r rs Hr Hrs IH].
  { exists true. split; [done|]. split; [|done]. intros _ r H. by apply elem_of_nil in H. }
  destruct IH as (b & E & Hb). simpl. rewrite is_subdomain_path by auto with zone. cbn [obind]. fold (rpath r).
  case_bool_decide as Hs.
  - rewrite E. exists b. split; [done|]. rewrite Hb. split.
    + intros H s [->|Hs']%elem_of_cons; [done|by apply H].
    + intros H s Hs'. apply H. by right.
  - exists false. split; [done|]. split; [done|]. intros H. by destruct Hs; apply H; left.
Qed.

(** ** The denial index *)

Section denial.
Context (rs : list Record_) (Ho : ordered rs) (Hlen : zlen rs ≤ MAX_ZONE_RECORDS).
Context (x : OwnerIndex) (Hx : index_ok hasher x (map group_entry (groups_of rs))).

Lemma omapM_total {A B} (f : A → outcome string B) l :
  (∀ a, a ∈ l → ∃ b, f a = Ok b) → ∃ bs, omapM f l = Ok bs.
Proof.
  induction l as [|a l IH]; intros H; [by eexists|]. simpl. destruct (H a) as (b & ->); [by left|].
  destruct IH as (bs & ->); [intros c Hc; apply H; by right|]. by eexists.
Qed.

Lemma locations_in_owner t k off l loc : loc ∈ locations_in t k off l → l_owner loc = k.
Proof.
  revert off. induction l as [|r l IH]; intros off H; simpl in H; [by apply elem_of_nil in H|].
  apply elem_of_app in H as [H|H]; [|by eapply IH]. case_match; [|by apply elem_of_nil in H].
  apply list_elem_of_singleton in H. by subst.
Qed.

Lemma denial_total gl found_ t : (∀ g, g ∈ gl → walk_group rs g) →
  yields (denial_locations hasher rs x gl found_ t) (λ _, True).
Proof.
  intros Hgl. unfold denial_locations. set (ls := locations_of t gl). assert (Hls : ∀ l, l ∈ ls → ∃ r, r ∈ rs ∧ l_owner l = labels_key (rpath r)).
  { intros l (k & Hk & Hl%list_elem_of_In)%list_elem_of_In%in_concat. apply list_elem_of_In, list_elem_of_fmap in Hk as (g & -> & Hg).
    apply locations_in_owner in Hl as ->. destruct (Hgl g Hg) as (r & Hr & ->). by exists r. }
  clearbody ls. destruct ls as [|l ls]; [done|].
  destruct (omapM_total (located hasher rs x) (l :: ls)) as (bs & ->); [|done].
  intros a Ha. destruct (Hls a Ha) as (r & Hr & Er). unfold located. rewrite Er, (full_records_spec hasher rs Ho Hlen x Hx).
  - by eexists.
  - by apply (rs_path_ok rs Ho).
Qed.
End denial.

(** ** Loading *)

Section flat.
Context (sort : list Record_ → list Record_) (hb : list Z → Z).

Lemma cleaned_length rs : ordered rs → zlen (cleaned hb rs) ≤ zlen rs.
Proof.
  intros Ho. pose proof (normalize_same _ Ho) as Hf. pose proof (ordered_same _ _ Hf Ho) as Hn.
  apply Forall2_length in Hf. pose proof (sublist_length _ _ (drop_duplicate_sublist hb _ Hn)) as Hl. unfold cleaned, zlen. lia.
Qed.

Lemma from_flat_records_spec o own t input :
  Name_wf o → Forall zone_record input → sort input ≡ₚ input → StronglySorted rle (sort input) →
  yields (from_flat_records hasher sort hb o own t input)
    (λ z, loaded (cleaned hb (sort input)) z ∧ origin z = o ∧ soa z = own ∧
      soa_ttl z = if MAX_TTL <? t then 0 else t).
Proof.
  intros Hon Hz Hperm Hsort. unfold from_flat_records.
  destruct (Z.ltb_spec MAX_ZONE_RECORDS (zlen input)) as [|Hl]; [done|].
  destruct (all_inside_spec o input Hon Hz) as (b & -> & Hb). cbn [obind]. destruct b; [|done]. cbn [negb].
  assert (Ho0 : ordered (sort input)) by (split; [by rewrite Hperm|done]).
  pose proof (cleaned_ordered hb _ Ho0) as Ho. fold (cleaned hb (sort input)). set (rs := cleaned hb (sort input)) in *.
  assert (Hlen : zlen rs ≤ MAX_ZONE_RECORDS).
  { pose proof (cleaned_length _ Ho0) as Hc. apply Permutation_length in Hperm. unfold rs, zlen in *. lia. }
  assert (Hin : ∀ r, r ∈ rs → path o `suffix_of` rpath r).
  { intros r (s & Hs & t' & _ & ->)%cleaned_source; [|done]. rewrite Hperm in Hs. by apply (proj1 Hb eq_refl s). }
  eapply yields_obind; [by apply build_owner_index_spec|]. intros x Hx.
  rewrite key_of_path by done. cbn [obind].
  rewrite (full_records_spec hasher rs Ho Hlen x Hx) by by apply path_path_ok. cbn [obind].
  destruct (negb _) eqn:Hapex; [done|]. apply negb_false_iff in Hapex.
  destruct (full_groups_spec hasher rs Ho Hlen x Hx) as (gl & Egl & Hgl).
  eapply yields_obind; [by eapply (walk_checked hasher rs o)|]. intros u Hch. rewrite Egl. cbn [obind].
  pose proof (walk_flags hasher rs o Ho Hon Hin x Hx gl Hgl) as Hfl.
  destruct (ofold (mark_names hasher o x) ∅ gl) as [f1| | |] eqn:E1; try done. cbn [obind] in Hfl |- *.
  eapply yields_obind; [exact Hfl|]. intros f2 Hf2.
  eapply yields_obind; [apply (yields_ofold (λ _ _, True)); [done|]|].
  { intros pre tt post d _ _. apply denial_total; [done..|]. intros g Hg. by apply Hgl. }
  intros di _. eapply yields_obind; [apply pack_records_spec, Ho|]. intros [xs ar] Hp. cbn [yields].
  split_and!; [|done..]. constructor; simpl; try done.
  - unfold found in Hapex. case_bool_decide as E; [done|].
    apply existsb_exists in Hapex as (r & [Hr Hrp]%list_elem_of_In%elem_of_at_path & Ht%Z.eqb_eq). by exists r.
  - by apply (walk_delegations rs o Ho Hon gl Hgl).
Qed.
End flat.
End hasher.
