(* ===== verification/ZoneQuery.v ===== *)
(** * Zones: answering ([onetdns-authority/src/lib.rs])

    The lookups of a loaded zone, the order of the decisions of [Zone::query]
    (delegation, owner, DNAME, empty non-terminal, wildcard, absence), the
    chase of CNAMEs and the additional addresses, and the store of zones. *)

From S2P Require Import Prelude NameTable Wire Writer Name RData.
From S2P Require Import Ttl OwnerIndex ZoneData Zone.

#[local] Open Scope outcome_scope.

(** [struct Response]. *)
Record Response := mkResponse {
  rcode : Z;
  authoritative : bool;
  answers : list Record_;
  authority : list Record_;
  additional : list Record_;
}.

(** [enum ChaseEnd]. *)
Inductive ChaseEnd :=
  | Answered (additional : list Record_)
  | NoSuchName
  | NoData
  | Delegated (deleg : Name)
  | OutOfZone.

(** [soa_record] and [negative_soa_record]. *)
Definition soa_record (z : Zone) : Record_ := Record_new (origin z) (soa_ttl z) (RD_Soa (soa z)).

Definition negative_soa_record (z : Zone) : Record_ :=
  Record_new (origin z) (Z.min (soa_ttl z) (minimum (soa z))) (RD_Soa (soa z)).

(** The response to a name that exists, less the type. *)
Definition no_data (z : Zone) : Response := mkResponse 0 true [] [negative_soa_record z] [].
Definition no_name (z : Zone) : Response := mkResponse 3 true [] [negative_soa_record z] [].

(** [of_type]. *)
Definition of_type (z : Zone) (recs : list StoredRecord) (qtype : Z) (owner : Name) : list Record_ :=
  omap (λ r, materialize r owner (arenas z)) (stored_rrset recs qtype).

Definition is_none {A} (o : option A) : bool := match o with Some _ => false | None => true end.

Definition has_stored (t : Z) (recs : list StoredRecord) : bool :=
  existsb (λ r, stored_rtype r =? t) recs.

(** [Zone::contains]. *)
Definition contains (z : Zone) (qname : Name) : outcome string bool := is_subdomain_or_eq qname (origin z).

Section query.
Context (hasher : list Z → Z).

(** [Zone::records_for_key] and [Zone::owner]. *)
Definition records_for_key (z : Zone) (key : list Z) : outcome string (option (list StoredRecord)) :=
  try! range := OwnerIndex_get hasher key (records z) in
  match range with
  | None => Ok None
  | Some r =>
      match checked_add (r_start r) (r_len r) with
      | Some end_ => Ok (get_range (record_arena z) (r_start r) end_)
      | None => Ok None
      end
  end.

Definition owner (z : Zone) (n : Name) : outcome string (option (list StoredRecord)) :=
  try! key := key_of n in
  match key with
  | Some key => records_for_key z key
  | None => Ok None
  end.

(** The test of [node_exists] on a key, that [closest_encloser] and
    [simple_absent_for_key] repeat. *)
Definition key_exists (z : Zone) (key : list Z) : outcome string bool :=
  try! known := OwnerIndex_contains_key hasher key (records z) in
  Ok (known || match name_flags z !! key with
               | Some flags => negb (Z.land flags NAME_EXISTS =? 0)
               | None => false
               end).

(** [Zone::node_exists]. *)
Definition node_exists (z : Zone) (n : Name) : outcome string bool :=
  try! key := key_of n in
  match key with
  | Some key => key_exists z key
  | None => Ok false
  end.

(** The loop of [delegation_for]; [n] is the labels left below the origin. *)
Fixpoint delegation_loop (n : nat) (z : Zone) (key : list Z) (labels : Z) (delegation : option Z) :
    outcome string (option Z) :=
  match n with
  | O => Ok delegation
  | S n =>
      try! recs := records_for_key z key in
      let delegation :=
        match recs with
        | Some recs => if has_stored TYPE_NS recs then Some labels else delegation
        | None => delegation
        end in
      match parent_canonical_key key with
      | None => Ok None
      | Some key => delegation_loop n z key (labels - 1) delegation
      end
  end.

(** [Zone::delegation_for]. *)
Definition delegation_for (z : Zone) (qname : Name) : outcome string (option Name) :=
  if negb (has_delegations z) then Ok None
  else
    let on := Name_num_labels (origin z) in
    let qn := Name_num_labels qname in
    try! key := key_of qname in
    match key with
    | None => Ok None
    | Some key =>
        try! delegation := delegation_loop (Z.to_nat (qn - on)) z key qn None in
        match delegation with
        | None => Ok None
        | Some labels => try! s := suffix qname labels in Ok (Some s)
        end
    end.

(** [Zone::glue]. *)
Definition glue (z : Zone) (n : Name) : outcome string (list Record_) :=
  try! recs := owner z n in
  match recs with
  | Some recs => Ok (of_type z recs TYPE_A n ++ of_type z recs TYPE_AAAA n)
  | None => Ok []
  end.

(** [Zone::target_glue]. *)
Definition glue_target (r : Record_) : option (Name * option Z) :=
  match rdata r with
  | RD_Ns n | RD_Mx _ n => Some (n, None)
  | RD_Srv _ _ _ target => Some (target, None)
  | RD_Svcb _ target _ | RD_Https _ target _ =>
      Some (if Name_is_root target then name r else target, Some (rtype r))
  | _ => None
  end.

(** What one record not seen yet adds. *)
Definition glue_for (z : Zone) (r : Record_) (t : Name) (binding_type : option Z) :
    outcome string (list Record_) :=
  try! deleg := delegation_for z t in
  match deleg with
  | Some _ => Ok []
  | None =>
      try! addresses := glue z t in
      if Name_eq_ignore_case t (name r) then Ok addresses
      else
        try! recs := owner z t in
        match recs, binding_type with
        | Some recs, Some bt => Ok (addresses ++ of_type z recs bt t)
        | _, _ => Ok addresses
        end
  end.

Fixpoint target_glue_loop (z : Zone) (seen : list (list Z * option Z)) (recs : list Record_) :
    outcome string (list Record_) :=
  match recs with
  | [] => Ok []
  | r :: recs =>
      match glue_target r with
      | None => target_glue_loop z seen recs
      | Some (t, binding_type) =>
          let target_key := (Name_canonical_key t, binding_type) in
          if bool_decide (target_key ∈ seen) then target_glue_loop z seen recs
          else
            try! out := glue_for z r t binding_type in
            try! rest := target_glue_loop z (target_key :: seen) recs in
            Ok (out ++ rest)
      end
  end.

Definition target_glue (z : Zone) (recs : list Record_) : outcome string (list Record_) :=
  target_glue_loop z [] recs.

(** [Zone::referral]. *)
Fixpoint ns_glue (z : Zone) (ns : list Record_) : outcome string (list Record_) :=
  match ns with
  | [] => Ok []
  | r :: ns =>
      try! out := (match rdata r with RD_Ns target => glue z target | _ => Ok [] end) in
      try! rest := ns_glue z ns in
      Ok (out ++ rest)
  end.

Definition referral (z : Zone) (deleg : Name) : outcome string Response :=
  try! recs := owner z deleg in
  let recs := default [] recs in
  let ns := of_type z recs TYPE_NS deleg in
  let ds := of_type z recs TYPE_DS deleg in
  try! additional := ns_glue z ns in
  Ok (mkResponse 0 false [] (ns ++ ds) additional).

(** The loop of [closest_encloser]; it ends at the root at the latest. *)
Fixpoint encloser_loop (n : nat) (z : Zone) (qname : Name) (key : list Z) (labels : Z) :
    outcome string (option Name) :=
  try! exists_ := key_exists z key in
  if exists_ then try! s := suffix qname labels in Ok (Some s)
  else if labels =? Name_num_labels (origin z) then Ok None
  else
    match parent_canonical_key key with
    | None => Ok None
    | Some key =>
        match n with
        | O => NoFuel
        | S n => encloser_loop n z qname key (labels - 1)
        end
    end.

(** [Zone::closest_encloser]. *)
Definition closest_encloser (z : Zone) (qname : Name) : outcome string (option Name) :=
  try! key := key_of qname in
  match key with
  | None => Ok None
  | Some key => encloser_loop (length key) z qname key (Name_num_labels qname)
  end.

(** The wildcard that covers a name that does not exist, that
    [wildcard_records] and [wildcard] look for: its name and its records. *)
Definition wildcard_source (z : Zone) (qname : Name) :
    outcome string (option (Name * list StoredRecord)) :=
  try! closest := closest_encloser z qname in
  match closest with
  | None => Ok None
  | Some closest =>
      if Name_eq_ignore_case closest qname then Ok None
      else
        try! source := prepend_wildcard closest in
        try! recs := owner z source in
        match recs with
        | Some recs => Ok (Some (source, recs))
        | None => Ok None
        end
  end.

(** [Zone::wildcard_records]. *)
Definition wildcard_records (z : Zone) (qname : Name) : outcome string (option (list StoredRecord)) :=
  try! w := wildcard_source z qname in
  Ok (option_map snd w).

(** The records that the chase looks at for a name: its own, or those of the
    wildcard that covers it. *)
Inductive ChaseStep := ChaseRecords (recs : list StoredRecord) | ChaseStop (e : ChaseEnd).

Definition chase_records (z : Zone) (cur : Name) : outcome string ChaseStep :=
  try! recs := owner z cur in
  match recs with
  | Some recs => Ok (ChaseRecords recs)
  | None =>
      try! node := node_exists z cur in
      if node then Ok (ChaseStop NoData)
      else
        try! w := wildcard_records z cur in
        match w with
        | Some recs => Ok (ChaseRecords recs)
        | None => Ok (ChaseStop NoSuchName)
        end
  end.

(** [Zone::chase_cname]: at most [rounds] rounds; the answers so far are passed
    and returned. *)
Fixpoint chase_loop (rounds : nat) (z : Zone) (cur : Name) (qtype : Z) (answers : list Record_) :
    outcome string (ChaseEnd * list Record_) :=
  match rounds with
  | O => Ok (OutOfZone, answers)
  | S rounds =>
      try! inside := contains z cur in
      if negb inside then Ok (OutOfZone, answers)
      else
        try! deleg := delegation_for z cur in
        match deleg with
        | Some deleg => Ok (Delegated deleg, answers)
        | None =>
            try! step := chase_records z cur in
            match step with
            | ChaseStop e => Ok (e, answers)
            | ChaseRecords recs =>
                match of_type z recs qtype cur with
                | [] =>
                    match of_type z recs TYPE_CNAME cur with
                    | first :: _ =>
                        match rdata first with
                        | RD_Cname next => chase_loop rounds z next qtype (answers ++ [first])
                        | _ => Ok (NoData, answers)
                        end
                    | [] => Ok (NoData, answers)
                    end
                | exact =>
                    try! additional := target_glue z exact in
                    Ok (Answered additional, answers ++ exact)
                end
            end
        end
  end.

Definition CHASE_ROUNDS : nat := 8.

Definition chase_cname (z : Zone) (target : Name) (qtype : Z) (answers : list Record_) :
    outcome string (ChaseEnd * list Record_) :=
  chase_loop CHASE_ROUNDS z target qtype answers.

(** [Zone::cname_response]. *)
Definition cname_response (z : Zone) (answers : list Record_) (e : ChaseEnd) : outcome string Response :=
  match e with
  | Answered additional => Ok (mkResponse 0 true answers [] additional)
  | NoSuchName => Ok (mkResponse 3 true answers [negative_soa_record z] [])
  | NoData => Ok (mkResponse 0 true answers [negative_soa_record z] [])
  | Delegated deleg =>
      try! r := referral z deleg in
      Ok (mkResponse 0 true answers (authority r) (additional r))
  | OutOfZone => Ok (mkResponse 0 true answers [] [])
  end.

(** [Zone::answer_at]. *)
Definition answer_at (z : Zone) (qname : Name) (qtype : Z) (recs : list StoredRecord) :
    outcome string Response :=
  if qtype =? TYPE_ANY then
    Ok (mkResponse 0 true (omap (λ r, materialize r qname (arenas z)) recs) [] [])
  else
    match of_type z recs qtype qname with
    | [] =>
        if qtype =? TYPE_CNAME then Ok (no_data z)
        else
          match of_type z recs TYPE_CNAME qname with
          | cn :: _ =>
              match rdata cn with
              | RD_Cname target =>
                  try! (e, answers) := chase_cname z target qtype [cn] in
                  cname_response z answers e
              | _ => Ok (no_data z)
              end
          | [] => Ok (no_data z)
          end
    | exact =>
        try! additional := target_glue z exact in
        Ok (mkResponse 0 true exact [] additional)
    end.

(** The first DNAME of an owner. *)
Definition find_dname (z : Zone) (recs : list StoredRecord) : option Record_ :=
  head (omap (λ r, if stored_rtype r =? TYPE_DNAME then stored_full r (arenas z) else None) recs).

(** The answer of a DNAME [record] with the target [target_suffix], at the
    ancestor of [labels] labels. *)
Definition dname_answer (z : Zone) (qname : Name) (qtype labels : Z) (record : Record_)
    (target_suffix : Name) : outcome string Response :=
  let prefix_len := Name_num_labels qname - labels in
  let target_labels :=
    take (Z.to_nat prefix_len) (Labels_collect (Name_labels qname))
    ++ Labels_collect (Name_labels target_suffix) in
  match Name_from_labels target_labels with
  | Ok target =>
      let cname := Record_new qname (ttl record) (RD_Cname target) in
      let answers := [record; cname] in
      if qtype =? TYPE_CNAME then Ok (mkResponse 0 true answers [] [])
      else
        try! (e, answers) := chase_cname z target qtype answers in
        cname_response z answers e
  | Err _ => Ok (mkResponse 6 true [record] [] [])
  | Panic => Panic
  | NoFuel => NoFuel
  end.

(** The loop of [Zone::dname]. *)
Fixpoint dname_loop (n : nat) (z : Zone) (qname : Name) (qtype : Z) (key : list Z) (labels : Z) :
    outcome string (option Response) :=
  match n with
  | O => Ok None
  | S n =>
      match parent_canonical_key key with
      | None => Ok None
      | Some key =>
          let labels := labels - 1 in
          try! recs := records_for_key z key in
          match option_bind _ _ (find_dname z) recs with
          | Some record =>
              match rdata record with
              | RD_Dname target_suffix =>
                  try! r := dname_answer z qname qtype labels record target_suffix in
                  Ok (Some r)
              | _ => dname_loop n z qname qtype key labels
              end
          | None => dname_loop n z qname qtype key labels
          end
      end
  end.

Definition dname (z : Zone) (qname : Name) (qtype : Z) : outcome string (option Response) :=
  let labels := Name_num_labels qname in
  try! key := key_of qname in
  match key with
  | None => Ok None
  | Some key => dname_loop (Z.to_nat (labels - Name_num_labels (origin z))) z qname qtype key labels
  end.

(** [synthesize_owner] and [Zone::wildcard]. *)
Definition set_name (n : Name) (r : Record_) : Record_ :=
  mkRecord n (rtype r) (class r) (ttl r) (rdata r).

Definition synthesize_owner (resp : Response) (qname wildcard_source : Name) : Response :=
  mkResponse (rcode resp) (authoritative resp)
    (map (λ r, if Name_eq_ignore_case (name r) wildcard_source then set_name qname r else r) (answers resp))
    (authority resp) (additional resp).

Definition wildcard (z : Zone) (qname : Name) (qtype : Z) : outcome string (option Response) :=
  try! w := wildcard_source z qname in
  match w with
  | None => Ok None
  | Some (source, recs) =>
      try! resp := answer_at z qname qtype recs in
      Ok (Some (synthesize_owner resp qname source))
  end.

(** [Zone::query]. *)
Definition parent_side (qtype : Z) : bool :=
  bool_decide (qtype ∈ [TYPE_DS; TYPE_RRSIG; TYPE_NSEC; TYPE_NSEC3]).

Definition Zone_query (z : Zone) (qname : Name) (qtype : Z) : outcome string Response :=
  try! deleg := delegation_for z qname in
  match deleg with
  | Some deleg =>
      if Name_eq_ignore_case qname deleg && parent_side qtype then
        try! recs := owner z deleg in
        answer_at z qname qtype (default [] recs)
      else referral z deleg
  | None =>
      try! recs := owner z qname in
      match recs with
      | Some recs => answer_at z qname qtype recs
      | None =>
          try! d := dname z qname qtype in
          match d with
          | Some resp => Ok resp
          | None =>
              try! node := node_exists z qname in
              if node then Ok (no_data z)
              else
                try! w := wildcard z qname qtype in
                match w with
                | Some resp => Ok resp
                | None => Ok (no_name z)
                end
          end
      end
  end.
End query.

(** ** The store *)

(** [struct ZoneStore]; a zone is found by the key of its origin. *)
Record ZoneStore := mkZoneStore { zones : list Zone; zindex : gmap (list Z) Z }.

Definition ZoneStore_new : ZoneStore := mkZoneStore [] ∅.

(** [ZoneStore::add]; assigning out of range panics. *)
Definition ZoneStore_add (zone : Zone) (s : ZoneStore) : outcome string ZoneStore :=
  let key := Name_canonical_key (origin zone) in
  match zindex s !! key with
  | Some i =>
      match set_at (zones s) i zone with
      | Some zones => Ok (mkZoneStore zones (zindex s))
      | None => Panic
      end
  | None => Ok (mkZoneStore (zones s ++ [zone]) (<[key := zlen (zones s)]> (zindex s)))
  end.

(** [ZoneStore::zone_exact]. *)
Definition zone_exact (s : ZoneStore) (n : Name) : outcome string (option Zone) :=
  try! key := key_of n in
  match key with
  | None => Ok None
  | Some key => Ok (option_bind _ _ (get (zones s)) (zindex s !! key))
  end.

(** [ZoneStore::zone_for_key]: a parent key is shorter. *)
Fixpoint zone_for_key (fuel : nat) (s : ZoneStore) (key : list Z) : outcome string (option Zone) :=
  match zindex s !! key with
  | Some i => Ok (get (zones s) i)
  | None =>
      match parent_canonical_key key with
      | None => Ok None
      | Some key =>
          match fuel with
          | O => NoFuel
          | S fuel => zone_for_key fuel s key
          end
      end
  end.

(** [ZoneStore::zone_for]. *)
Definition zone_for (s : ZoneStore) (qname : Name) : outcome string (option Zone) :=
  try! key := key_of qname in
  match key with
  | None => Ok None
  | Some key => zone_for_key (length key) s key
  end.

(** [ZoneStore::query]. *)
Definition ZoneStore_query (hasher : list Z → Z) (s : ZoneStore) (qname : Name) (qtype : Z) :
    outcome string (option Response) :=
  try! zone := zone_for s qname in
  match zone with
  | None => Ok None
  | Some z => try! r := Zone_query hasher z qname qtype in Ok (Some r)
  end.
