(* ===== verification/ZoneSpec.v ===== *)
(** * The answer of a zone as a function of its records

    The specification of [Zone::query]: what it answers, read off the list of
    the records of the zone, without an index, packed records or flags.  A name
    exists when a record is at it or below it; the cut of a name is the highest
    owner of NS records between the origin and the name; the closest encloser
    is its longest ancestor that exists. *)

From S2P Require Import Prelude NameTable Wire Writer Name Codec NameCodec NameText RData.
From S2P Require Import Ttl OwnerIndex OwnerIndexSpec ZoneData ZoneNames Zone ZoneGroups ZoneLoad ZoneLoaded ZoneQuery.

#[local] Open Scope Z_scope.

Module Spec.
Section spec.
(** The records, the origin, and the SOA with its lifetime. *)
Context (rs : list Record_) (o : Name) (own : Soa) (t : Z).

Definition negative_soa : Record_ := Record_new o (Z.min t (minimum own)) (RD_Soa own).
Definition no_data : Response := mkResponse 0 true [] [negative_soa] [].
Definition no_name : Response := mkResponse 3 true [] [negative_soa] [].

(** The records of a path of one type, for an owner. *)
Definition rrset (p : Path) (owner : Name) (qtype : Z) : list Record_ :=
  map (stamp owner) (List.filter (of_rtype qtype) (at_path rs p)).

Definition owns (p : Path) : bool := bool_decide (at_path rs p ≠ []).

(** A record is at the path or below it. *)
Definition exists_ (p : Path) : bool :=
  bool_decide (path o `suffix_of` p) && existsb (λ r, bool_decide (p `suffix_of` rpath r)) rs.

Definition inside (n : Name) : bool := bool_decide (path o `suffix_of` path n).

Definition depth (n : Name) : nat := length (path n).

(** The labels of the ancestors of a name from the origin down, and back up. *)
Definition below_origin (n : Name) : list nat := seq (S (depth o)) (depth n - depth o).
Definition upwards (n : Name) : list nat := rev (seq (depth o) (S (depth n - depth o))).

(** The highest cut between the origin and the name. *)
Definition cut (n : Name) : option Name :=
  ancestor n <$> List.find (λ k, existsb (of_rtype TYPE_NS) (at_path rs (path (ancestor n k)))) (below_origin n).

(** The longest ancestor that exists. *)
Definition encloser (n : Name) : option Name :=
  ancestor n <$> List.find (λ k, exists_ (path (ancestor n k))) (upwards n).

(** The wildcard that covers a name. *)
Definition wild (n : Name) : option Path :=
  match encloser n with
  | Some c => if bool_decide (path c = path n) then None
              else if owns (star :: path c) then Some (star :: path c) else None
  | None => None
  end.

Definition glue (n : Name) : list Record_ := rrset (path n) n TYPE_A ++ rrset (path n) n TYPE_AAAA.

(** Additional addresses: once for every target and binding type. *)
Definition glue_for (r : Record_) (target : Name) (binding : option Z) : list Record_ :=
  match cut target with
  | Some _ => []
  | None =>
      glue target ++
      (if bool_decide (path target = rpath r) then []
       else match binding with Some bt => rrset (path target) target bt | None => [] end)
  end.

Fixpoint targets_glue (seen : list (Path * option Z)) (l : list Record_) : list Record_ :=
  match l with
  | [] => []
  | r :: l =>
      match glue_target r with
      | None => targets_glue seen l
      | Some (target, binding) =>
          if bool_decide ((path target, binding) ∈ seen) then targets_glue seen l
          else glue_for r target binding ++ targets_glue ((path target, binding) :: seen) l
      end
  end.

Definition ns_target (r : Record_) : list Record_ :=
  match rdata r with RD_Ns target => glue target | _ => [] end.

Definition referral (deleg : Name) : Response :=
  let ns := rrset (path deleg) deleg TYPE_NS in
  mkResponse 0 false [] (ns ++ rrset (path deleg) deleg TYPE_DS) (concat (map ns_target ns)).

(** Where the answer for a name is looked up while a CNAME is followed. *)
Definition source (n : Name) : option Path :=
  if owns (path n) then Some (path n) else if exists_ (path n) then None else wild n.

Fixpoint chase (rounds : nat) (n : Name) (qtype : Z) (answers : list Record_) : ChaseEnd * list Record_ :=
  match rounds with
  | O => (OutOfZone, answers)
  | S rounds =>
      if negb (inside n) then (OutOfZone, answers)
      else
        match cut n, source n with
        | Some deleg, _ => (Delegated deleg, answers)
        | None, None => (if exists_ (path n) then NoData else NoSuchName, answers)
        | None, Some p =>
            match rrset p n qtype, rrset p n TYPE_CNAME with
            | [], first :: _ =>
                match rdata first with
                | RD_Cname next => chase rounds next qtype (answers ++ [first])
                | _ => (NoData, answers)
                end
            | [], [] => (NoData, answers)
            | exact, _ => (Answered (targets_glue [] exact), answers ++ exact)
            end
        end
  end.

Definition chased (n : Name) (qtype : Z) (answers : list Record_) : Response :=
  let '(e, answers) := chase CHASE_ROUNDS n qtype answers in
  match e with
  | Answered additional => mkResponse 0 true answers [] additional
  | NoSuchName => mkResponse 3 true answers [negative_soa] []
  | NoData => mkResponse 0 true answers [negative_soa] []
  | Delegated deleg =>
      mkResponse 0 true answers (authority (referral deleg)) (additional (referral deleg))
  | OutOfZone => mkResponse 0 true answers [] []
  end.

(** The answer from the records at a path. *)
Definition answer (p : Path) (qname : Name) (qtype : Z) : Response :=
  if qtype =? TYPE_ANY then mkResponse 0 true (map (stamp qname) (at_path rs p)) [] []
  else
    match rrset p qname qtype with
    | [] =>
        if qtype =? TYPE_CNAME then no_data
        else
          match rrset p qname TYPE_CNAME with
          | cn :: _ => match rdata cn with RD_Cname target => chased target qtype [cn] | _ => no_data end
          | [] => no_data
          end
    | exact => mkResponse 0 true exact [] (targets_glue [] exact)
    end.

(** The DNAME of the nearest proper ancestor that has one, with its labels. *)
Definition dname_at (n : Name) (k : nat) : option (Record_ * Name) :=
  match List.filter (of_rtype TYPE_DNAME) (at_path rs (path (ancestor n k))) with
  | r :: _ => match rdata r with RD_Dname target => Some (r, target) | _ => None end
  | [] => None
  end.

Fixpoint first_dname (n : Name) (ks : list nat) : option (nat * Record_ * Name) :=
  match ks with
  | [] => None
  | k :: ks =>
      match dname_at n k with
      | Some (r, target) => Some (k, r, target)
      | None => first_dname n ks
      end
  end.

(** The name with the suffix of the DNAME's owner replaced by its target, when
    it is not too long. *)
Definition redirect (qname : Name) (k : nat) (target : Name) : option Name :=
  let labels := take (depth qname - k) (labels_of qname) ++ labels_of target in
  if bool_decide (zlen (body labels) < MAX_NAME_LEN) then Some (mkName (labels_wire labels)) else None.

Definition redirected (qname : Name) (qtype : Z) (k : nat) (r : Record_) (target : Name) : Response :=
  match redirect qname k target with
  | None => mkResponse 6 true [r] [] []
  | Some target =>
      let answers := [r; Record_new qname (ttl r) (RD_Cname target)] in
      if qtype =? TYPE_CNAME then mkResponse 0 true answers [] [] else chased target qtype answers
  end.

Definition dname (qname : Name) (qtype : Z) : option Response :=
  match first_dname qname (tail (upwards qname)) with
  | None => None
  | Some (k, r, target) => Some (redirected qname qtype k r target)
  end.

(** Records of the wildcard take the name that was asked for. *)
Definition rename (qname : Name) (p : Path) (r : Record_) : Record_ :=
  if bool_decide (rpath r = p) then set_name qname r else r.

Definition wildcard (qname : Name) (qtype : Z) : option Response :=
  match wild qname with
  | None => None
  | Some p =>
      let r := answer p qname qtype in
      Some (mkResponse (rcode r) (authoritative r) (map (rename qname p) (answers r)) (authority r) (additional r))
  end.

Definition query (qname : Name) (qtype : Z) : Response :=
  match cut qname with
  | Some deleg =>
      if bool_decide (path qname = path deleg) && parent_side qtype then answer (path deleg) qname qtype
      else referral deleg
  | None =>
      if owns (path qname) then answer (path qname) qname qtype
      else
        match dname qname qtype with
        | Some r => r
        | None =>
            if exists_ (path qname) then no_data
            else match wildcard qname qtype with Some r => r | None => no_name end
        end
  end.
End spec.
End Spec.
