(* ===== verification/ZoneRefine.v ===== *)
(** * A zone answers as its specification

    Lookup by lookup, the operations of a loaded zone return what the functions
    of [ZoneSpec] compute from the records; every one of them returns. *)

From S2P Require Import Prelude NameTable Wire Writer Name Codec NameCodec NameText RData.
From S2P Require Import Ttl OwnerIndex OwnerIndexSpec ZoneData ZoneNames Zone ZoneGroups ZoneLoad ZoneLoaded ZoneChecks ZoneQuery ZoneSpec.
From stdpp Require Import sorting.

#[local] Open Scope Z_scope.
#[local] Open Scope outcome_scope.

#[local] Opaque stored_rtype materialize.

Section refine.
Context (hasher : list Z → Z) (rs : list Record_) (z : Zone) (Hld : loaded hasher rs z).

#[local] Notation o := (origin z).
#[local] Notation own := (soa z).
#[local] Notation t := (soa_ttl z).

(** ** Records of a key *)

Lemma rs_zone_record r : r ∈ rs → zone_record r.
Proof. apply (rs_record rs). apply Hld. Qed.

(** Packed records that stand for the records of a path. *)
Definition slot (p : Path) (xs : list StoredRecord) : Prop := Forall2 (packs (arenas z)) (at_path rs p) xs.

Lemma slot_nil p : at_path rs p = [] → slot p [].
Proof. intros E. unfold slot. by rewrite E. Qed.

Lemma records_for_key_spec p : path_ok p →
  ∃ xs, records_for_key hasher z (labels_key p) =
    Ok (if bool_decide (at_path rs p = []) then None else Some xs) ∧ slot p xs.
Proof.
  intros Hp. unfold records_for_key.
  destruct (index_lookup hasher rs (ld_ordered _ _ _ Hld) _ (ld_index _ _ _ Hld) p Hp) as [[E ->]|(pre & post & Hne & E & ->)];
    cbn [obind r_start r_len].
  - exists []. rewrite bool_decide_eq_true_2 by done. split; [done|by apply slot_nil].
  - rewrite bool_decide_eq_false_2 by done. rewrite (slice_bounds rs (ld_len _ _ _ Hld) _ _ _ E).
    pose proof (ld_packed _ _ _ Hld) as Hpk. rewrite E in Hpk at 1.
    apply Forall2_app_inv_l in Hpk as (xpre & xrest & Hpre & Hrest & ->).
    apply Forall2_app_inv_l in Hrest as (xs & xpost & Hxs & _ & ->).
    apply Forall2_length in Hpre as Hl1. apply Forall2_length in Hxs as Hl2.
    exists xs. split; [|done]. f_equal. unfold zlen. rewrite Hl1, Hl2. apply get_range_app.
Qed.

Lemma owner_spec n : Name_wf n →
  ∃ xs, owner hasher z n = Ok (if bool_decide (at_path rs (path n) = []) then None else Some xs) ∧ slot (path n) xs.
Proof.
  intros Hn. unfold owner. rewrite key_of_path by done. cbn [obind]. apply records_for_key_spec. by apply path_path_ok.
Qed.

(** ** RRsets *)

Lemma at_path_sorted p : StronglySorted (λ r s, rtype r ≤ rtype s) (at_path rs p).
Proof.
  destruct (ld_ordered _ _ _ Hld) as [Hz Hs]. clear Hld. unfold at_path. induction Hs as [|r l Hs IH Hf]; [constructor|].
  apply Forall_cons in Hz as [Hr Hz]. simpl. case_bool_decide as Ep; [|by apply IH]. constructor; [by apply IH|].
  rewrite Forall_forall in Hf, Hz |- *. intros s [Hin Es]%elem_of_at_path.
  destruct (proj1 (rle_cases r s Hr (Hz s Hin)) (Hf s Hin)) as [H|[_ H]]; [|done].
  apply path_cmp_Lt_ne in H. congruence.
Qed.

Lemma slot_sorted p xs : slot p xs → StronglySorted (λ s s', stored_rtype s ≤ stored_rtype s') xs.
Proof.
  unfold slot. pose proof (at_path_sorted p) as Hs. revert xs. induction Hs as [|r l Hs IH Hf]; intros xs Hx.
  - apply Forall2_nil_inv_l in Hx as ->. constructor.
  - apply Forall2_cons_inv_l in Hx as (s & xs' & (Hrt & _) & Hxs & ->). constructor; [by apply IH|].
    apply Forall_forall. intros s' Hs'. apply list_elem_of_lookup in Hs' as [i Hi].
    destruct (Forall2_lookup_r _ _ _ _ _ Hxs Hi) as (r' & Hr'%list_elem_of_lookup_2 & Hrt' & _).
    rewrite Hrt, Hrt'. by apply (proj1 (Forall_forall _ _) Hf).
Qed.

Lemma of_type_spec p xs n qtype : slot p xs → of_type z xs qtype n = Spec.rrset rs p n qtype.
Proof.
  intros Hs. unfold of_type, Spec.rrset. rewrite stored_rrset_filter by by eapply slot_sorted.
  apply packs_materialize. by apply (packs_filter _ (λ t, t =? qtype)).
Qed.

Lemma slot_rrset_nil p n qtype : at_path rs p = [] → Spec.rrset rs p n qtype = [].
Proof. intros E. unfold Spec.rrset. by rewrite E. Qed.

Lemma has_stored_spec p xs qtype : slot p xs → has_stored qtype xs = existsb (of_rtype qtype) (at_path rs p).
Proof.
  unfold slot, has_stored. induction 1 as [|r s l xs (Ht & _) _ IH]; [done|]. cbn [existsb]. unfold of_rtype at 1. by rewrite Ht, IH.
Qed.

(** ** Existence *)

Lemma flag_exists p : path_ok p →
  match name_flags z !! labels_key p with
  | Some flags => negb (Z.land flags NAME_EXISTS =? 0)
  | None => false
  end = true ↔ empty_node rs o p.
Proof.
  intros Hp. destruct (ld_flags _ _ _ Hld p Hp) as (e & w & d & -> & He & _). rewrite <- He.
  by destruct e, w, d.
Qed.

Lemma key_exists_spec p : path_ok p → key_exists hasher z (labels_key p) = Ok (Spec.exists_ rs o p).
Proof.
  intros Hp. unfold key_exists.
  rewrite (index_contains_spec hasher rs (ld_ordered _ _ _ Hld) _ (ld_index _ _ _ Hld) p Hp). cbn [obind]. f_equal.
  apply eq_iff_eq_true. rewrite orb_true_iff, flag_exists by done. unfold Spec.exists_, empty_node.
  rewrite andb_true_iff, !bool_decide_eq_true, existsb_exists. split.
  - intros [Hne|(_ & Hop & r & Hr & Hs)].
    + destruct (at_path rs p) as [|r l] eqn:E; [done|].
      assert (Hr : r ∈ at_path rs p) by (rewrite E; by left). apply elem_of_at_path in Hr as [Hr <-].
      split; [by apply (ld_inside _ _ _ Hld)|]. exists r. split; [by apply list_elem_of_In|by apply bool_decide_eq_true].
    + split; [done|]. exists r. split; [by apply list_elem_of_In|by apply bool_decide_eq_true].
  - intros (Hop & r & Hr%list_elem_of_In & Hs%bool_decide_eq_true). destruct (decide (at_path rs p = [])); [right|by left].
    split_and!; [done|done|by exists r].
Qed.

Lemma node_exists_spec n : Name_wf n → node_exists hasher z n = Ok (Spec.exists_ rs o (path n)).
Proof.
  intros Hn. unfold node_exists. rewrite key_of_path by done. cbn [obind]. apply key_exists_spec. by apply path_path_ok.
Qed.

Lemma zone_contains_spec n : Name_wf n → contains z n = Ok (Spec.inside o n).
Proof. intros Hn. apply is_subdomain_path; [done|apply Hld]. Qed.
(** ** Walking up *)

Lemma find_app_ {A} (f : A → bool) l k :
  List.find f (l ++ k) = match List.find f l with Some a => Some a | None => List.find f k end.
Proof. induction l as [|a l IH]; [done|]. simpl. by destruct (f a). Qed.

Lemma length_path_ancestor n k : Name_wf n → (k ≤ length (path n))%nat → length (path (ancestor n k)) = k.
Proof. intros Hn Hk. rewrite path_ancestor, length_drop by done. lia. Qed.

Lemma ancestor_self n : Name_wf n → path (ancestor n (length (path n))) = path n.
Proof. intros Hn. by rewrite path_ancestor, Nat.sub_diag by done. Qed.

(** The key of an ancestor, and the key of the next one. *)
Definition akey (n : Name) (k : nat) : list Z := labels_key (path (ancestor n k)).

Lemma akey_self n : Name_wf n → labels_key (path n) = akey n (length (path n)).
Proof. intros Hn. unfold akey. by rewrite ancestor_self. Qed.

Lemma akey_ok n k : Name_wf n → path_ok (path (ancestor n k)).
Proof. intros Hn. by apply path_path_ok, ancestor_wf. Qed.

Lemma akey_parent n k : Name_wf n → (S k ≤ length (path n))%nat →
  parent_canonical_key (akey n (S k)) = Some (akey n k).
Proof.
  intros Hn Hk. unfold akey. pose proof (akey_ok n (S k) Hn) as Hok. rewrite !path_ancestor in * by done.
  destruct (lookup_lt_is_Some_2 (path n) (length (path n) - S k)) as [l Hl]; [lia|].
  rewrite (drop_S _ l) in * by done. replace (length (path n) - k)%nat with (S (length (path n) - S k)) by lia.
  by apply parent_key_cons.
Qed.

Lemma akey_records n k : Name_wf n → ∃ xs, records_for_key hasher z (akey n k) =
  Ok (if bool_decide (at_path rs (path (ancestor n k)) = []) then None else Some xs) ∧ slot (path (ancestor n k)) xs.
Proof. intros Hn. by apply records_for_key_spec, akey_ok. Qed.

Lemma akey_exists n k : Name_wf n → key_exists hasher z (akey n k) = Ok (Spec.exists_ rs o (path (ancestor n k))).
Proof. intros Hn. by apply key_exists_spec, akey_ok. Qed.

Definition cut_at (n : Name) (k : nat) : bool := existsb (of_rtype TYPE_NS) (at_path rs (path (ancestor n k))).

Lemma delegation_loop_spec n m k d : Name_wf n → (m ≤ k ≤ length (path n))%nat →
  delegation_loop hasher m z (akey n k) (Z.of_nat k) d =
    Ok (match List.find (cut_at n) (seq (S (k - m)) m) with Some j => Some (Z.of_nat j) | None => d end).
Proof.
  intros Hn. revert k d. induction m as [|m IH]; intros k d Hk; [done|].
  destruct k as [|k]; [lia|]. cbn [delegation_loop].
  destruct (akey_records n (S k) Hn) as (xs & -> & Hs). cbn [obind].
  assert (Hd : match (if bool_decide (at_path rs (path (ancestor n (S k))) = []) then None else Some xs) with
    | Some recs => if has_stored TYPE_NS recs then Some (Z.of_nat (S k)) else d
    | None => d end = if cut_at n (S k) then Some (Z.of_nat (S k)) else d).
  { unfold cut_at. case_bool_decide as E; [by rewrite E|]. by rewrite (has_stored_spec _ _ _ Hs). }
  rewrite Hd, akey_parent by (done || lia). replace (Z.of_nat (S k) - 1) with (Z.of_nat k) by lia.
  rewrite IH by lia. f_equal. rewrite seq_S, find_app_. replace (S (S k - S m)) with (S (k - m)) by lia.
  destruct (List.find _ _); [done|]. simpl. replace (S (k - m + m)) with (S k) by lia. by destruct (cut_at n (S k)).
Qed.

Lemma delegation_for_spec n : Name_wf n → delegation_for hasher z n = Ok (Spec.cut rs o n).
Proof.
  intros Hn. pose proof (ld_origin _ _ _ Hld) as Hno. unfold delegation_for, Spec.cut.
  destruct (has_delegations z) eqn:Ed; cbn [negb].
  - rewrite key_of_path by done. cbn [obind]. rewrite !num_labels_path by done. rewrite akey_self by done.
    unfold zlen. rewrite delegation_loop_spec by (done || lia). cbn [obind].
    replace (Z.to_nat (Z.of_nat (length (path n)) - Z.of_nat (length (path o)))) with (length (path n) - length (path o))%nat by lia.
    unfold Spec.below_origin, Spec.depth. change (λ k, existsb (of_rtype TYPE_NS) (at_path rs (path (ancestor n k)))) with (cut_at n).
    destruct (decide (length (path o) ≤ length (path n))%nat) as [Hle|Hgt].
    + replace (length (path n) - (length (path n) - length (path o)))%nat with (length (path o)) by lia.
      destruct (List.find _ _) as [j|]; [|done]. rewrite suffix_ancestor by (done || lia). cbn [obind]. by rewrite Nat2Z.id.
    + by replace (length (path n) - length (path o))%nat with O by lia.
  - f_equal. symmetry. destruct (List.find _ _) as [j|] eqn:Ej; [exfalso|done].
    apply find_some in Ej as [Hj Hc]. apply in_seq in Hj. unfold Spec.depth in Hj.
    apply existsb_exists in Hc as (r & [Hr Hp]%list_elem_of_In%elem_of_at_path & Ht%Z.eqb_eq).
    apply not_true_iff_false in Ed as []. apply (ld_delegations _ _ _ Hld). exists r. split_and!; [done| |done].
    intros E. apply (f_equal length) in E. rewrite Hp, length_path_ancestor in E by (done || lia). lia.
Qed.

(** The closest encloser of a name inside the zone. *)
Lemma encloser_loop_spec n m k : Name_wf n → (length (path o) ≤ k ≤ length (path n))%nat → (k - length (path o) ≤ m)%nat →
  encloser_loop hasher m z n (akey n k) (Z.of_nat k) =
    Ok (ancestor n <$> List.find (λ k, Spec.exists_ rs o (path (ancestor n k)))
      (rev (seq (length (path o)) (S (k - length (path o)))))).
Proof.
  intros Hn. pose proof (ld_origin _ _ _ Hld) as Hno. revert k. induction m as [|m IH]; intros k Hk Hm;
    (rewrite seq_S, rev_app_distr; replace (length (path o) + (k - length (path o)))%nat with k by lia; simpl;
     rewrite (akey_exists n k Hn); cbn [obind];
     destruct (Spec.exists_ _ _ _); [rewrite suffix_ancestor by (done || lia); cbn [obind]; by rewrite Nat2Z.id|];
     rewrite num_labels_path by done; unfold zlen; destruct (Z.eqb_spec (Z.of_nat k) (Z.of_nat (length (path o)))) as [E|E];
     [by replace (k - length (path o))%nat with O by lia|]); [lia|].
  destruct k as [|k]; [lia|]. rewrite akey_parent by (done || lia).
  replace (Z.of_nat (S k) - 1) with (Z.of_nat k) by lia. rewrite IH by lia.
  replace (S k - length (path o))%nat with (S (k - length (path o))) by lia. done.
Qed.

Lemma inside_depth n : Spec.inside o n = true → (length (path o) ≤ length (path n))%nat.
Proof. intros H%bool_decide_eq_true%suffix_length. done. Qed.

Lemma closest_encloser_spec n : Name_wf n → Spec.inside o n = true →
  closest_encloser hasher z n = Ok (Spec.encloser rs o n).
Proof.
  intros Hn Hi%inside_depth. unfold closest_encloser, Spec.encloser, Spec.upwards, Spec.depth.
  rewrite key_of_path by done. cbn [obind]. rewrite num_labels_path by done. rewrite (akey_self n) by done.
  unfold zlen. apply encloser_loop_spec; [done|lia|]. unfold akey. rewrite ancestor_self by done.
  assert (length (path n) ≤ length (labels_key (path n)))%nat; [|lia].
  pose proof (zlen_labels_key (path n)) as H. pose proof (body_length (path n)). unfold zlen in H. lia.
Qed.
(** ** Records of answers *)

(** The names in a record are well formed. *)
Definition rec_ok (r : Record_) : Prop := Name_wf (name r) ∧ rdata_wf (rdata r).

Lemma stamp_ok n r : Name_wf n → zone_record r → rec_ok (stamp n r).
Proof.
  intros Hn [(Hr & _ & _ & _ & Hd) _]. unfold stamp, rec_ok. destruct (rdata r) eqn:E; simpl; rewrite ?E; done.
Qed.

Lemma stamp_rtype n r : zone_record r → rtype (stamp n r) = rtype r.
Proof. intros [_ Ht]. unfold stamp. by destruct (rdata r). Qed.

Lemma rrset_ok p n qtype : Name_wf n → Forall rec_ok (Spec.rrset rs p n qtype).
Proof.
  intros Hn. apply Forall_forall. intros r (s & -> & [[Hs _]%elem_of_at_path _]%elem_of_filter_list)%list_elem_of_fmap.
  apply stamp_ok; [done|by apply rs_zone_record].
Qed.

Lemma of_type_default p xs n qtype : slot p xs →
  of_type z (default [] (if bool_decide (at_path rs p = []) then None else Some xs)) qtype n = Spec.rrset rs p n qtype.
Proof. intros Hs. apply of_type_spec. case_bool_decide; [by apply slot_nil|done]. Qed.

(** ** Additional records *)

Lemma glue_spec n : Name_wf n → glue hasher z n = Ok (Spec.glue rs n).
Proof.
  intros Hn. unfold glue, Spec.glue. destruct (owner_spec n Hn) as (xs & -> & Hs). cbn [obind].
  case_bool_decide as E; [by rewrite !slot_rrset_nil|]. by rewrite !(of_type_spec _ _ _ _ Hs).
Qed.

Lemma glue_target_wf r n b : rec_ok r → glue_target r = Some (n, b) → Name_wf n.
Proof.
  intros [Hn Hd]. unfold glue_target. destruct (rdata r); simpl in Hd; try done; intros [= <- <-]; try tauto; case_match; tauto.
Qed.

Lemma glue_for_spec r n b : rec_ok r → Name_wf n → glue_for hasher z r n b = Ok (Spec.glue_for rs o r n b).
Proof.
  intros [Hr _] Hn. unfold glue_for, Spec.glue_for. rewrite delegation_for_spec by done. cbn [obind].
  destruct (Spec.cut rs o n); [done|]. rewrite glue_spec by done. cbn [obind].
  rewrite eq_ignore_case_bool by done. fold (rpath r). destruct (bool_decide (path n = rpath r)); [by rewrite app_nil_r|].
  destruct (owner_spec n Hn) as (xs & -> & Hs). cbn [obind]. case_bool_decide as E.
  - destruct b; [by rewrite slot_rrset_nil, app_nil_r|by rewrite app_nil_r].
  - destruct b; [by rewrite (of_type_spec _ _ _ _ Hs)|by rewrite app_nil_r].
Qed.

Definition seen_key (e : Path * option Z) : list Z * option Z := (labels_key e.1, e.2).

Lemma seen_key_iff n b seen : Name_wf n → Forall (λ e, path_ok e.1) seen →
  bool_decide ((Name_canonical_key n, b) ∈ map seen_key seen) = bool_decide ((path n, b) ∈ seen).
Proof.
  intros Hn Hs. apply bool_decide_ext. rewrite canonical_key_path, list_elem_of_fmap by done. split.
  - intros ([p c] & [= Ek <-] & Hin). apply path_key_inj in Ek; [by rewrite Ek|by apply path_path_ok|].
    by apply (proj1 (Forall_forall _ _) Hs (p, b)).
  - intros Hin. by exists (path n, b).
Qed.

Lemma target_glue_loop_spec seen l : Forall (λ e, path_ok e.1) seen → Forall rec_ok l →
  target_glue_loop hasher z (map seen_key seen) l = Ok (Spec.targets_glue rs o seen l).
Proof.
  intros Hs Hl. revert seen Hs. induction Hl as [|r l Hr Hl IH]; intros seen Hs; [done|]. simpl.
  destruct (glue_target r) as [[n b]|] eqn:E; [|by apply IH]. pose proof (glue_target_wf _ _ _ Hr E) as Hn.
  rewrite seen_key_iff by done. destruct (bool_decide _); [by apply IH|].
  rewrite glue_for_spec by done. cbn [obind].
  assert (Hk : (Name_canonical_key n, b) :: map seen_key seen = map seen_key ((path n, b) :: seen)).
  { simpl. unfold seen_key at 2. simpl. by rewrite canonical_key_path. }
  rewrite Hk, IH; [done|]. constructor; [by apply path_path_ok|done].
Qed.

Lemma target_glue_spec l : Forall rec_ok l → target_glue hasher z l = Ok (Spec.targets_glue rs o [] l).
Proof. intros Hl. apply (target_glue_loop_spec []); [constructor|done]. Qed.

Lemma ns_glue_spec l : Forall rec_ok l → ns_glue hasher z l = Ok (concat (map (Spec.ns_target rs) l)).
Proof.
  induction 1 as [|r l [_ Hd] _ IH]; [done|]. simpl. unfold Spec.ns_target at 1.
  assert (match rdata r with RD_Ns target => glue hasher z target | _ => Ok [] end
    = Ok (match rdata r with RD_Ns target => Spec.glue rs target | _ => [] end)) as ->.
  { destruct (rdata r); try done. by apply glue_spec. }
  cbn [obind]. by rewrite IH.
Qed.

Lemma referral_spec n : Name_wf n → referral hasher z n = Ok (Spec.referral rs n).
Proof.
  intros Hn. unfold referral, Spec.referral. destruct (owner_spec n Hn) as (xs & -> & Hs). cbn [obind].
  rewrite !(of_type_default _ _ _ _ Hs). rewrite ns_glue_spec by by apply rrset_ok. done.
Qed.

(** ** Wildcards *)

Lemma encloser_ancestor n c : Spec.encloser rs o n = Some c →
  ∃ k, c = ancestor n k ∧ (k ≤ length (path n) ∨ k = length (path o))%nat.
Proof.
  unfold Spec.encloser, Spec.upwards, Spec.depth. destruct (List.find _ _) as [k|] eqn:E; [|done].
  intros [= <-]. exists k. split; [done|]. apply find_some in E as [Hk%in_rev%in_seq _]. lia.
Qed.

Lemma prepend_wildcard_spec n k : Name_wf n → (k < length (path n))%nat →
  ∃ src, prepend_wildcard (ancestor n k) = Ok src ∧ Name_wf src ∧ path src = star :: path (ancestor n k).
Proof.
  intros Hn Hk. destruct (name_wf_labels n Hn) as [[Hf Hz] _]. rewrite length_path in Hk.
  unfold prepend_wildcard. fold (labels_of (ancestor n k)). unfold ancestor at 1.
  rewrite labels_of_wire by by apply labels_wf_drop. set (d := (length (labels_of n) - k)%nat).
  assert (Hwf : labels_wf ([42] :: drop d (labels_of n))).
  { split; [constructor; [split; [by vm_compute|by repeat constructor]|by apply Forall_drop]|].
    rewrite <- (take_drop d (labels_of n)), body_app, zlen_app in Hz. rewrite body_cons, zlen_cons, zlen_app.
    assert (2 ≤ zlen (body (take d (labels_of n)))); [|change (zlen [42]) with 1; lia].
    destruct (labels_of n) as [|l ls] eqn:El; [simpl in Hk; lia|]. unfold d. simpl length in *.
    replace (S (length ls) - k)%nat with (S (length ls - k)) by lia. simpl take.
    apply Forall_cons in Hf as [[Hl _] _]. rewrite zlen_body_cons. pose proof (zlen_nonneg (body (take (length ls - k) ls))). lia. }
  rewrite Name_from_labels_wf by done. eexists. split; [done|]. split; [by apply name_of_labels_wf|].
  unfold path at 1. rewrite labels_of_wire by done. unfold path, ancestor. by rewrite labels_of_wire by by apply labels_wf_drop.
Qed.

Lemma wildcard_source_spec n : Name_wf n → Spec.inside o n = true →
  match Spec.wild rs o n with
  | None => wildcard_source hasher z n = Ok None
  | Some p => ∃ src xs, wildcard_source hasher z n = Ok (Some (src, xs)) ∧ Name_wf src ∧ path src = p ∧ slot p xs
  end.
Proof.
  intros Hn Hi. unfold wildcard_source, Spec.wild. rewrite closest_encloser_spec by done. cbn [obind].
  pose proof (inside_depth _ Hi) as Hdep.
  destruct (Spec.encloser rs o n) as [c|] eqn:Ec; [|done]. destruct (encloser_ancestor _ _ Ec) as (k & -> & Hk).
  assert (Hc : Name_wf (ancestor n k)) by by apply ancestor_wf.
  rewrite eq_ignore_case_bool by done. case_bool_decide as E; [done|].
  assert (k < length (path n))%nat as Hk'.
  { assert (k ≤ length (path n))%nat by (destruct Hk as [?|Hk]; [done|rewrite Hk; done]).
    destruct (decide (k = length (path n))) as [Ek|]; [|lia]. by rewrite Ek, ancestor_self in E. }
  destruct (prepend_wildcard_spec n k Hn Hk') as (src & -> & Hsrc & Hp). cbn [obind].
  destruct (owner_spec src Hsrc) as (xs & -> & Hs). cbn [obind]. rewrite Hp in Hs |- *. unfold Spec.owns.
  destruct (decide (at_path rs (star :: path (ancestor n k)) = [])) as [En|En].
  - rewrite (bool_decide_eq_false_2 (_ ≠ _)) by (intros H; by apply H). by rewrite bool_decide_eq_true_2.
  - rewrite (bool_decide_eq_true_2 (_ ≠ _)), bool_decide_eq_false_2 by done. by exists src, xs.
Qed.
(** ** Following CNAMEs *)

Lemma chase_records_spec n : Name_wf n → Spec.inside o n = true →
  match Spec.source rs o n with
  | Some p => ∃ xs, chase_records hasher z n = Ok (ChaseRecords xs) ∧ slot p xs
  | None => chase_records hasher z n = Ok (ChaseStop (if Spec.exists_ rs o (path n) then NoData else NoSuchName))
  end.
Proof.
  intros Hn Hi. unfold chase_records, Spec.source, Spec.owns. destruct (owner_spec n Hn) as (xs & -> & Hs). cbn [obind].
  destruct (decide (at_path rs (path n) = [])) as [En|En].
  - rewrite (bool_decide_eq_false_2 (_ ≠ _)) by (intros H; by apply H). rewrite bool_decide_eq_true_2 by done.
    rewrite node_exists_spec by done. cbn [obind]. destruct (Spec.exists_ rs o (path n)); [done|].
    pose proof (wildcard_source_spec n Hn Hi) as Hw. unfold wildcard_records. destruct (Spec.wild rs o n) as [p|].
    + destruct Hw as (src & ws & -> & _ & _ & Hws). by exists ws.
    + by rewrite Hw.
  - rewrite (bool_decide_eq_true_2 (_ ≠ _)), bool_decide_eq_false_2 by done. by exists xs.
Qed.

Lemma cname_wf l next first : Forall rec_ok (first :: l) → rdata first = RD_Cname next → Name_wf next.
Proof. intros [[_ Hd] _]%Forall_cons E. by rewrite E in Hd. Qed.

Lemma chase_loop_spec rounds n qtype ans : Name_wf n →
  chase_loop hasher rounds z n qtype ans = Ok (Spec.chase rs o rounds n qtype ans).
Proof.
  revert n ans. induction rounds as [|rounds IH]; intros n ans Hn; [done|]. cbn [chase_loop Spec.chase].
  rewrite zone_contains_spec by done. cbn [obind]. destruct (Spec.inside o n) eqn:Hi; [|done]. cbn [negb].
  rewrite delegation_for_spec by done. cbn [obind]. destruct (Spec.cut rs o n); [by destruct (Spec.source rs o n)|].
  pose proof (chase_records_spec n Hn Hi) as Hc. destruct (Spec.source rs o n) as [p|]; [|by rewrite Hc].
  destruct Hc as (xs & -> & Hs). cbn [obind]. rewrite !(of_type_spec _ _ _ _ Hs).
  pose proof (rrset_ok p n qtype Hn) as Hok. destruct (Spec.rrset rs p n qtype) as [|e es].
  - pose proof (rrset_ok p n TYPE_CNAME Hn) as Hck. destruct (Spec.rrset rs p n TYPE_CNAME) as [|c cs]; [done|].
    destruct (rdata c) eqn:Ec; try done. apply IH. by eapply cname_wf.
  - by rewrite target_glue_spec.
Qed.

Lemma find_cut_wf n d : Name_wf n → Spec.cut rs o n = Some d → Name_wf d.
Proof. intros Hn. unfold Spec.cut. destruct (List.find _ _); [|done]. intros [= <-]. by apply ancestor_wf. Qed.

Lemma chase_sound rounds n qtype ans : Name_wf n → Forall rec_ok ans →
  Forall rec_ok (Spec.chase rs o rounds n qtype ans).2 ∧
  ∀ d, (Spec.chase rs o rounds n qtype ans).1 = Delegated d → Name_wf d.
Proof.
  revert n ans. induction rounds as [|rounds IH]; intros n ans Hn Ha; [done|]. cbn [Spec.chase].
  destruct (negb _); [done|]. destruct (Spec.cut rs o n) as [d|] eqn:Ed.
  { split; [done|]. simpl. intros d' [= <-]. by eapply find_cut_wf. }
  destruct (Spec.source rs o n) as [p|]; [|split; [done|simpl; intros d; by case_match]].
  pose proof (rrset_ok p n qtype Hn) as Hok. destruct (Spec.rrset rs p n qtype) as [|e es].
  - pose proof (rrset_ok p n TYPE_CNAME Hn) as Hck. destruct (Spec.rrset rs p n TYPE_CNAME) as [|c cs]; [done|].
    destruct (rdata c) eqn:Ec; try done. apply IH; [by eapply cname_wf|]. apply Forall_app. split; [done|].
    apply Forall_cons in Hck as [? _]. by apply Forall_singleton.
  - split; [|done]. simpl. by apply Forall_app.
Qed.

Lemma chased_spec n qtype ans : Name_wf n → Forall rec_ok ans →
  (try! (e, answers) := chase_cname hasher z n qtype ans in cname_response hasher z answers e)
  = Ok (Spec.chased rs o own t n qtype ans).
Proof.
  intros Hn Ha. unfold chase_cname, Spec.chased. rewrite chase_loop_spec by done. cbn [obind].
  destruct (chase_sound CHASE_ROUNDS n qtype ans Hn Ha) as [_ Hd].
  destruct (Spec.chase rs o CHASE_ROUNDS n qtype ans) as [e l]. simpl in Hd.
  destruct e; try done. simpl. by rewrite referral_spec by by apply Hd.
Qed.

Lemma chased_ok n qtype ans : Name_wf n → Forall rec_ok ans → Forall rec_ok (answers (Spec.chased rs o own t n qtype ans)).
Proof.
  intros Hn Ha. unfold Spec.chased. destruct (chase_sound CHASE_ROUNDS n qtype ans Hn Ha) as [Hok _].
  destruct (Spec.chase rs o CHASE_ROUNDS n qtype ans) as [e l]. simpl in Hok. by destruct e.
Qed.

(** ** Answers *)

Lemma answer_at_spec p xs n qtype : Name_wf n → slot p xs →
  answer_at hasher z n qtype xs = Ok (Spec.answer rs o own t p n qtype).
Proof.
  intros Hn Hs. unfold answer_at, Spec.answer. destruct (qtype =? TYPE_ANY).
  { do 2 f_equal. by apply packs_materialize. }
  rewrite !(of_type_spec _ _ _ _ Hs). pose proof (rrset_ok p n qtype Hn) as Hok.
  destruct (Spec.rrset rs p n qtype) as [|e es]; [|by rewrite target_glue_spec].
  destruct (qtype =? TYPE_CNAME); [done|].
  pose proof (rrset_ok p n TYPE_CNAME Hn) as Hck. destruct (Spec.rrset rs p n TYPE_CNAME) as [|c cs]; [done|].
  destruct (rdata c) eqn:Ec; try done. apply chased_spec; [by eapply cname_wf|].
  apply Forall_cons in Hck as [? _]. by apply Forall_singleton.
Qed.

Lemma answer_ok p n qtype : Name_wf n → Forall rec_ok (answers (Spec.answer rs o own t p n qtype)).
Proof.
  intros Hn. unfold Spec.answer. destruct (qtype =? TYPE_ANY).
  { simpl. apply Forall_forall. intros r (s & -> & [Hs _]%elem_of_at_path)%list_elem_of_fmap.
    apply stamp_ok; [done|by apply rs_zone_record]. }
  pose proof (rrset_ok p n qtype Hn) as Hok. destruct (Spec.rrset rs p n qtype) as [|e es]; [|done].
  destruct (qtype =? TYPE_CNAME); [constructor|].
  pose proof (rrset_ok p n TYPE_CNAME Hn) as Hck. destruct (Spec.rrset rs p n TYPE_CNAME) as [|c cs]; [constructor|].
  destruct (rdata c) eqn:Ec; try constructor. apply chased_ok; [by eapply cname_wf|].
  apply Forall_cons in Hck as [? _]. by apply Forall_singleton.
Qed.

Lemma wildcard_spec n qtype : Name_wf n → Spec.inside o n = true →
  wildcard hasher z n qtype = Ok (Spec.wildcard rs o own t n qtype).
Proof.
  intros Hn Hi. pose proof (wildcard_source_spec n Hn Hi) as Hw. unfold wildcard, Spec.wildcard.
  destruct (Spec.wild rs o n) as [p|]; [|by rewrite Hw].
  destruct Hw as (src & xs & -> & Hsrc & Hp & Hs). cbn [obind]. rewrite (answer_at_spec p) by done. cbn [obind].
  unfold synthesize_owner. do 3 f_equal. apply map_ext_in. intros r Hr%list_elem_of_In.
  unfold Spec.rename, rpath. rewrite eq_ignore_case_bool, Hp; [done| |done].
  by apply (proj1 (Forall_forall _ _) (answer_ok p n qtype Hn) r Hr).
Qed.

(** ** DNAME *)

Lemma find_dname_spec p xs : slot p xs → find_dname z xs = head (List.filter (of_rtype TYPE_DNAME) (at_path rs p)).
Proof.
  unfold slot, find_dname. assert (Hz : Forall zone_record (at_path rs p)).
  { apply Forall_forall. intros r [Hr _]%elem_of_at_path. by apply rs_zone_record. }
  induction 1 as [|r s l xs (Ht & _ & Hf) _ IH]; [done|]. apply Forall_cons in Hz as [Hr Hz].
  cbn [omap list_omap List.filter]. unfold of_rtype at 1. rewrite Ht.
  destruct (Z.eqb_spec (rtype r) TYPE_DNAME) as [E|E]; [|by apply IH].
  rewrite Hf. assert (kept_whole r = Some r) as ->; [|done].
  destruct Hr as [_ Hrt]. unfold kept_whole. rewrite E in Hrt. by destruct (rdata r).
Qed.

Lemma from_labels_wf_iff ls : Forall label_wf ls → zlen (body ls) ≤ 1000 →
  Name_from_labels ls = Ok (mkName (labels_wire ls)) ∧ zlen (body ls) < MAX_NAME_LEN ∨
  (∃ e, Name_from_labels ls = Err e) ∧ ¬ zlen (body ls) < MAX_NAME_LEN.
Proof.
  intros Hf Hl. destruct (decide (zlen (body ls) < MAX_NAME_LEN)) as [Hs|Hs]; [left|right].
  - split; [|done]. apply Name_from_labels_wf. split; [done|lia].
  - split; [|done]. unfold Name_from_labels. rewrite from_labels_total_spec by (unfold USIZE_MAX; lia).
    rewrite (proj2 (forallb_forall _ _)).
    + cbn [obind]. case_match eqn:E; [by eexists|]. apply Z.ltb_ge in E. lia.
    + intros l Hin%list_elem_of_In. rewrite Forall_forall in Hf.
      destruct (Hf l Hin) as [[??] _]. by rewrite !(proj2 (Z.leb_le _ _)) by lia.
Qed.
Lemma body_take_le k ls : zlen (body (take k ls)) ≤ zlen (body ls).
Proof. rewrite <- (take_drop k ls) at 2. rewrite body_app, zlen_app. pose proof (zlen_nonneg (body (drop k ls))). lia. Qed.

Lemma dname_answer_spec n qtype k r target : Name_wf n → rec_ok r → Name_wf target → (k ≤ length (path n))%nat →
  dname_answer hasher z n qtype (Z.of_nat k) r target = Ok (Spec.redirected rs o own t n qtype k r target).
Proof.
  intros Hn Hr Ht Hk. unfold dname_answer, Spec.redirected, Spec.redirect, Spec.depth.
  rewrite num_labels_path by done. fold (labels_of n) (labels_of target). unfold zlen at 1.
  replace (Z.to_nat (Z.of_nat (length (path n)) - Z.of_nat k)) with (length (path n) - k)%nat by lia.
  set (ls := take _ _ ++ _). destruct (name_wf_labels n Hn) as [[Hf Hz] _], (name_wf_labels target Ht) as [[Hf' Hz'] _].
  assert (Hl : Forall label_wf ls) by (apply Forall_app; split; [by apply Forall_take|done]).
  destruct (from_labels_wf_iff ls Hl) as [[-> Hs]|[[e ->] Hs]].
  { unfold ls. rewrite body_app, zlen_app. pose proof (body_take_le (length (path n) - k) (labels_of n)).
    unfold MAX_NAME_LEN in *. lia. }
  - rewrite bool_decide_eq_true_2 by done. assert (Hw : Name_wf (mkName (labels_wire ls))).
    { apply name_of_labels_wf. split; [done|lia]. }
    destruct (qtype =? TYPE_CNAME); [done|]. apply chased_spec; [done|].
    apply Forall_cons. split; [done|]. apply Forall_singleton. by split.
  - by rewrite bool_decide_eq_false_2.
Qed.

Lemma dname_at_ok n k r target : Name_wf n → Spec.dname_at rs n k = Some (r, target) → rec_ok r ∧ Name_wf target ∧ rdata r = RD_Dname target.
Proof.
  intros Hn. unfold Spec.dname_at. destruct (List.filter _ _) as [|s l] eqn:E; [done|].
  assert (Hs : s ∈ List.filter (of_rtype TYPE_DNAME) (at_path rs (path (ancestor n k)))) by (rewrite E; by left).
  apply elem_of_filter_list in Hs as [[Hs _]%elem_of_at_path _]. destruct (rs_zone_record s Hs) as [(Hsn & _ & _ & _ & Hd) _].
  destruct (rdata s) eqn:Ed; try done. intros [= <- <-]. unfold rec_ok. by rewrite Ed.
Qed.

Definition dname_found (n : Name) (qtype : Z) (f : option (nat * Record_ * Name)) : option Response :=
  match f with Some (k, r, target) => Some (Spec.redirected rs o own t n qtype k r target) | None => None end.

Lemma dname_loop_spec n qtype m k : Name_wf n → (m ≤ k ≤ length (path n))%nat →
  dname_loop hasher m z n qtype (akey n k) (Z.of_nat k) =
    Ok (dname_found n qtype (Spec.first_dname rs n (rev (seq (k - m) m)))).
Proof.
  intros Hn. revert k. induction m as [|m IH]; intros k Hk; [done|]. destruct k as [|k]; [lia|]. cbn [dname_loop].
  rewrite akey_parent by (done || lia). replace (Z.of_nat (S k) - 1) with (Z.of_nat k) by lia.
  destruct (akey_records n k Hn) as (xs & -> & Hs). cbn [obind].
  rewrite seq_S, rev_app_distr. replace (S k - S m + m)%nat with k by lia. cbn [rev app Spec.first_dname].
  replace (S k - S m)%nat with (k - m)%nat by lia.
  assert (Hf : option_bind _ _ (find_dname z) (if bool_decide (at_path rs (path (ancestor n k)) = []) then None else Some xs)
    = head (List.filter (of_rtype TYPE_DNAME) (at_path rs (path (ancestor n k))))).
  { case_bool_decide as E; [by rewrite E|]. simpl. by apply find_dname_spec. }
  rewrite Hf. destruct (Spec.dname_at rs n k) as [[r target]|] eqn:Ed.
  - destruct (dname_at_ok _ _ _ _ Hn Ed) as (Hr & Ht & Hrd). unfold Spec.dname_at in Ed.
    destruct (List.filter _ _) as [|s l]; [done|]. simpl.
    assert (s = r) as -> by (destruct (rdata s); congruence). rewrite Hrd.
    by rewrite dname_answer_spec by (done || lia).
  - unfold Spec.dname_at in Ed. destruct (List.filter _ _) as [|s l]; simpl; [apply IH; lia|].
    destruct (rdata s); try done; apply IH; lia.
Qed.

Lemma dname_spec n qtype : Name_wf n → Spec.inside o n = true →
  dname hasher z n qtype = Ok (Spec.dname rs o own t n qtype).
Proof.
  intros Hn Hi%inside_depth. pose proof (ld_origin _ _ _ Hld) as Hno. unfold dname, Spec.dname. rewrite key_of_path by done. cbn [obind].
  rewrite !num_labels_path, akey_self by done. unfold zlen.
  replace (Z.to_nat (Z.of_nat (length (path n)) - Z.of_nat (length (path o)))) with (length (path n) - length (path o))%nat by lia.
  rewrite dname_loop_spec by (done || lia). f_equal. unfold Spec.upwards, Spec.depth.
  rewrite seq_S, rev_app_distr. cbn [rev app tail].
  by replace (length (path n) - (length (path n) - length (path o)))%nat with (length (path o)) by lia.
Qed.

(** ** Queries *)

Lemma query_spec n qtype : Name_wf n → Spec.inside o n = true →
  Zone_query hasher z n qtype = Ok (Spec.query rs o own t n qtype).
Proof.
  intros Hn Hi. unfold Zone_query, Spec.query. rewrite delegation_for_spec by done. cbn [obind].
  destruct (Spec.cut rs o n) as [d|] eqn:Ed.
  - pose proof (find_cut_wf _ _ Hn Ed) as Hd. rewrite eq_ignore_case_bool by done.
    destruct (_ && _); [|by apply referral_spec]. destruct (owner_spec d Hd) as (xs & -> & Hs). cbn [obind].
    apply answer_at_spec; [done|]. case_bool_decide as E; [by apply slot_nil|done].
  - destruct (owner_spec n Hn) as (xs & -> & Hs). cbn [obind]. unfold Spec.owns.
    destruct (decide (at_path rs (path n) = [])) as [En|En].
    + rewrite (bool_decide_eq_false_2 (_ ≠ _)) by (intros H; by apply H). rewrite bool_decide_eq_true_2 by done.
      rewrite dname_spec by done. cbn [obind]. destruct (Spec.dname _ _ _ _ _ _); [done|].
      rewrite node_exists_spec by done. cbn [obind]. destruct (Spec.exists_ _ _ _); [done|].
      rewrite wildcard_spec by done. cbn [obind]. by destruct (Spec.wildcard _ _ _ _ _ _).
    + rewrite (bool_decide_eq_true_2 (_ ≠ _)), bool_decide_eq_false_2 by done. by apply answer_at_spec.
Qed.
End refine.
