(* ===== verification/ZoneFacts.v ===== *)
(** * What the answers of a zone mean

    Consequences of the specification in terms of the records a zone was
    loaded from, and the store of zones. *)

From S2P Require Import Prelude NameTable Wire Writer Name Codec NameCodec NameText RData.
From S2P Require Import Ttl OwnerIndex OwnerIndexSpec ZoneData ZoneNames Zone ZoneGroups ZoneLoad ZoneLoaded ZoneChecks ZoneQuery ZoneSpec ZoneRefine.
From stdpp Require Import sorting.

#[local] Open Scope Z_scope.
#[local] Open Scope outcome_scope.

(** ** Zones from transfers *)

(** The order the sort of the standard library promises, on a list. *)
Definition sorts (sort : list Record_ → list Record_) (l : list Record_) : Prop :=
  sort l ≡ₚ l ∧ StronglySorted rle (sort l).

Lemma keep_one_soa_sublist b rs : keep_one_soa b rs `sublist_of` rs.
Proof.
  revert b. induction rs as [|r rs IH]; intros b; simpl; [done|].
  repeat case_match; first [by apply sublist_cons|by apply sublist_skip].
Qed.

(** Every record is kept, but for the second SOA. *)
Lemma keep_one_soa_other b rs r : r ∈ rs → rtype r ≠ TYPE_SOA → r ∈ keep_one_soa b rs.
Proof.
  revert b. induction rs as [|s rs IH]; intros b Hr Ht; simpl; [by apply elem_of_nil in Hr|].
  apply elem_of_cons in Hr as [<-|Hr].
  - rewrite (proj2 (Z.eqb_neq _ _)) by done. by left.
  - repeat case_match; try (right; by apply IH). by apply IH.
Qed.

(** The records a zone is loaded from. *)
Definition zone_records (hb : list Z → Z) (sort : list Record_ → list Record_) (input : list Record_) : list Record_ :=
  cleaned hb (sort (keep_one_soa false input)).

Section load.
Context (hasher : list Z → Z) (sort : list Record_ → list Record_) (hb : list Z → Z).

Lemma from_records_spec input :
  Forall zone_record input → sorts sort (keep_one_soa false input) →
  yields (from_records hasher sort hb input) (λ z, loaded hasher (zone_records hb sort input) z).
Proof.
  intros Hz [Hp Hs]. unfold from_records. case_match; [done|].
  destruct (List.filter (of_rtype TYPE_SOA) input) as [|soa_rec rest] eqn:Ef; [done|].
  assert (Hsoa : zone_record soa_rec).
  { rewrite Forall_forall in Hz. apply Hz. assert (soa_rec ∈ List.filter (of_rtype TYPE_SOA) input) as Hin by (rewrite Ef; by left).
    by apply elem_of_filter_list in Hin as [? _]. }
  destruct (rdata soa_rec); try done. case_match; [done|].
  destruct (all_inside_spec (name soa_rec) input) as (b & -> & _); [by apply zone_record_name|done|]. cbn [obind].
  destruct b; [|done]. cbn [negb]. case_match; [done|].
  eapply yields_weaken; [apply from_flat_records_spec|by intros z (? & _)].
  - by apply zone_record_name.
  - rewrite Forall_forall in Hz |- *. intros r Hr. apply Hz. eapply elem_of_sublist; [done|]. apply keep_one_soa_sublist.
  - done.
  - done.
Qed.

(** A record of the transfer is in the zone, up to its lifetime and repetitions. *)
Lemma zone_records_keep input r : Forall zone_record input → sorts sort (keep_one_soa false input) →
  r ∈ input → rtype r ≠ TYPE_SOA → ∃ s, s ∈ zone_records hb sort input ∧ rpath s = rpath r ∧ rtype s = rtype r.
Proof.
  intros Hz [Hp Hs] Hr Ht. destruct (cleaned_keeps hb (sort (keep_one_soa false input)) r) as (s & Hin & Hps & Hrep & _).
  - split; [|done]. rewrite Hp. rewrite Forall_forall in Hz |- *. intros s Hs'. apply Hz.
    eapply elem_of_sublist; [done|]. apply keep_one_soa_sublist.
  - rewrite Hp. by apply keep_one_soa_other.
  - by exists s.
Qed.
End load.

(** ** Denial and delegation *)

Section facts.
Context (hasher : list Z → Z) (rs : list Record_) (z : Zone) (Hld : loaded hasher rs z).

#[local] Notation o := (origin z).
#[local] Notation own := (soa z).
#[local] Notation t := (soa_ttl z).

Lemma chase_keeps k m q l : l ≠ [] → (Spec.chase rs o k m q l).2 ≠ [].
Proof.
  revert m l. induction k as [|k IH]; intros m l Hl; [done|]. simpl. destruct (negb _); [done|].
  assert (∀ l', l ++ l' ≠ []) as Ha by (by destruct l).
  repeat case_match; simpl; try done; try apply Ha; by apply IH.
Qed.

Lemma chased_keeps m q l : l ≠ [] → answers (Spec.chased rs o own t m q l) ≠ [].
Proof.
  intros Hl. unfold Spec.chased. pose proof (chase_keeps CHASE_ROUNDS m q l Hl) as H.
  destruct (Spec.chase _ _ _ _ _ _) as [e l']. simpl in H. by destruct e.
Qed.

Lemma answer_denies p m q : rcode (Spec.answer rs o own t p m q) = 3 → answers (Spec.answer rs o own t p m q) ≠ [].
Proof. unfold Spec.answer. repeat case_match; simpl; try done. intros _. by apply chased_keeps. Qed.

Lemma redirected_denies m q k r n : answers (Spec.redirected rs o own t m q k r n) ≠ [].
Proof. unfold Spec.redirected. repeat case_match; simpl; try done. by apply chased_keeps. Qed.

(** The names with records at them or below are not denied. *)
Lemma query_denies n qtype resp : Name_wf n → Spec.inside o n = true →
  Zone_query hasher z n qtype = Ok resp → rcode resp = 3 → answers resp = [] →
  ¬ ∃ r, r ∈ rs ∧ path n `suffix_of` rpath r.
Proof.
  intros Hn Hi. rewrite (query_spec hasher rs z Hld) by done. intros [= <-]. unfold Spec.query.
  destruct (Spec.cut _ _ _); [destruct (_ && _); [intros H3 H0; by apply answer_denies in H3|done]|].
  destruct (Spec.owns _ _); [intros H3 H0; by apply answer_denies in H3|].
  destruct (Spec.dname _ _ _ _ _ _) as [d|] eqn:Ed.
  { unfold Spec.dname in Ed. destruct (Spec.first_dname _ _ _) as [[[k r] tg]|]; [|done]. injection Ed as <-.
    intros _ H0. by apply redirected_denies in H0. }
  destruct (Spec.exists_ _ _ _) eqn:Ee; [done|]. intros _ _ (r & Hr & Hs).
  apply not_true_iff_false in Ee as []. apply andb_true_intro. split; [done|].
  apply existsb_exists. exists r. split; [by apply list_elem_of_In|]. by apply bool_decide_eq_true.
Qed.

(** The highest cut above a name. *)
Lemma find_seq_first (f : nat → bool) a m j i :
  List.find f (seq a m) = Some j → (a ≤ i < j)%nat → f i = false.
Proof.
  revert a. induction m as [|m IH]; intros a; simpl; [done|]. destruct (f a) eqn:E; [intros [= <-]; lia|].
  intros Hf Hi. destruct (decide (i = a)) as [->|]; [done|]. apply (IH (S a)); [done|lia].
Qed.

(** An owner of NS records below the apex, above a name. *)
Definition delegates (r : Record_) (n : Name) : Prop :=
  r ∈ rs ∧ rtype r = TYPE_NS ∧ rpath r ≠ path o ∧ rpath r `suffix_of` path n.

Lemma delegates_cut n r : Name_wf n → delegates r n →
  (length (path o) < length (rpath r) ≤ length (path n))%nat ∧
  existsb (of_rtype TYPE_NS) (at_path rs (path (ancestor n (length (rpath r))))) = true.
Proof.
  intros Hn (Hr & Ht & Hne & Hs). pose proof (ld_inside _ _ _ Hld r Hr) as Hi.
  apply suffix_drop_iff in Hs as [Hle Hd]. split.
  - split; [|done]. apply suffix_drop_iff in Hi as [Hl Hi].
    destruct (decide (length (path o) = length (rpath r))) as [E|]; [|lia]. by rewrite E, Nat.sub_diag in Hi.
  - apply existsb_exists. exists r. split; [|by apply Z.eqb_eq].
    apply list_elem_of_In, elem_of_at_path. split; [done|]. by rewrite path_ancestor.
Qed.

Lemma cut_found n r : Name_wf n → delegates r n →
  ∃ j, Spec.cut rs o n = Some (ancestor n j) ∧ (length (path o) < j ≤ length (rpath r))%nat.
Proof.
  intros Hn Hd. destruct (delegates_cut n r Hn Hd) as [Hl He]. unfold Spec.cut.
  destruct (List.find _ _) as [j|] eqn:Ef.
  - exists j. split; [done|]. apply find_some in Ef as Hj. destruct Hj as [Hj%in_seq _].
    destruct (decide (j ≤ length (rpath r))%nat) as [|Hgt]; [unfold Spec.depth in Hj; lia|].
    pose proof (find_seq_first _ _ _ _ (length (rpath r)) Ef) as Hf. rewrite Hf in He; [done|]. unfold Spec.depth. lia.
  - pose proof (find_none _ _ Ef (length (rpath r))) as Hf. simpl in Hf. rewrite Hf in He; [done|].
    apply in_seq. unfold Spec.depth. lia.
Qed.

(** Below a delegation the server refers, and does not answer. *)
Lemma query_refers n qtype r resp : Name_wf n → Spec.inside o n = true → delegates r n →
  rpath r ≠ path n ∨ parent_side qtype = false →
  Zone_query hasher z n qtype = Ok resp → authoritative resp = false ∧ answers resp = [].
Proof.
  intros Hn Hi Hd Hq. rewrite (query_spec hasher rs z Hld) by done. intros [= <-]. unfold Spec.query.
  destruct (cut_found n r Hn Hd) as (j & -> & Hj). case_bool_decide as Epd; [|done].
  destruct Hq as [Hq| ->]; [|done]. exfalso. apply Hq. destruct Hd as (_ & _ & _ & Hs).
  apply suffix_drop_iff in Hs as [Hle Hd]. apply (f_equal length) in Epd.
  rewrite length_path_ancestor in Epd by (done || lia). replace (length (rpath r)) with (length (path n)) in Hd by lia.
  by rewrite Nat.sub_diag in Hd.
Qed.
End facts.

(** ** The store is a map *)

(** The zone with the origin of a path. *)
Definition zone_at (s : ZoneStore) (p : Path) : option Zone :=
  option_bind _ _ (get (zones s)) (zindex s !! labels_key p).

Definition store_ok (s : ZoneStore) : Prop := ∀ k i, zindex s !! k = Some i →
  ∃ z, get (zones s) i = Some z ∧ Name_wf (origin z) ∧ k = labels_key (path (origin z)).

Lemma ZoneStore_new_ok : store_ok ZoneStore_new.
Proof. intros k i H. cbn in H. by rewrite lookup_empty in H. Qed.

Lemma ZoneStore_add_spec z s : Name_wf (origin z) → store_ok s →
  ∃ s', ZoneStore_add z s = Ok s' ∧ store_ok s' ∧
    ∀ p, path_ok p → zone_at s' p = if decide (p = path (origin z)) then Some z else zone_at s p.
Proof.
  intros Hz Hs. unfold ZoneStore_add. rewrite canonical_key_path by done.
  destruct (zindex s !! labels_key (path (origin z))) as [i|] eqn:Ei.
  - destruct (Hs _ _ Ei) as (y & Hy & Hyw & Ek). pose proof (get_Some_lt _ _ _ Hy) as Hlt.
    assert (Hset : set_at (zones s) i z = Some (<[Z.to_nat i := z]> (zones s))).
    { unfold set_at. rewrite (proj2 (Z.leb_le _ _)), (proj2 (Z.ltb_lt _ _)) by lia. done. }
    rewrite Hset. eexists. split; [done|].
    assert (Hsame : get (<[Z.to_nat i := z]> (zones s)) i = Some z).
    { apply get_Some_lookup. split; [lia|]. apply list_lookup_insert_eq. unfold zlen in Hlt. lia. }
    assert (Hother : ∀ j, j ≠ i → get (<[Z.to_nat i := z]> (zones s)) j = get (zones s) j).
    { intros j Hj. unfold get. destruct (Z.ltb_spec j 0); [done|]. apply list_lookup_insert_ne. lia. }
    split.
    + intros k j Hj. simpl in *. destruct (decide (j = i)) as [->|Hne].
      * exists z. split_and!; [done|done|]. destruct (Hs _ _ Hj) as (y' & Hy' & _ & ->).
        rewrite Hy in Hy'. injection Hy' as <-. done.
      * rewrite Hother by done. by apply Hs.
    + intros p Hp. unfold zone_at. simpl. case_decide as E; [by rewrite E, Ei|].
      destruct (zindex s !! labels_key p) as [j|] eqn:Ej; [|done]. simpl. apply Hother. intros ->.
      destruct (Hs _ _ Ej) as (y' & Hy' & _ & Ek'). rewrite Hy in Hy'. injection Hy' as <-.
      rewrite <- Ek in Ek'. apply path_key_inj in Ek'; [done|done|by apply path_path_ok].
  - eexists. split; [done|]. split.
    + intros k j Hkj. cbn [zindex zones] in *. apply lookup_insert_Some in Hkj as [[<- <-]|[Hne Hj]].
      * exists z. split_and!; [apply get_app_mid|done|done].
      * destruct (Hs _ _ Hj) as (y & Hy & ? & ?). exists y. split_and!; [by apply get_Some_app|done|done].
    + intros p Hp. unfold zone_at. simpl. case_decide as E.
      * rewrite E, lookup_insert_eq. simpl. apply get_app_mid.
      * rewrite lookup_insert_ne by (intros Ek%path_key_inj; [by rewrite Ek in E|by apply path_path_ok|done]).
        destruct (zindex s !! labels_key p) as [j|] eqn:Ej; [|done]. simpl.
        destruct (Hs _ _ Ej) as (y & Hy & _). rewrite Hy. by apply get_Some_app.
Qed.

(** The zones of the ancestors of a path, the longest first. *)
Fixpoint deepest (s : ZoneStore) (p : Path) : option Zone :=
  match zone_at s p with
  | Some z => Some z
  | None => match p with [] => None | _ :: p => deepest s p end
  end.

Lemma zone_for_key_spec fuel s p : store_ok s → path_ok p → (length p ≤ fuel)%nat →
  zone_for_key fuel s (labels_key p) = Ok (deepest s p).
Proof.
  intros Hs. assert (Hsome : ∀ q i, zindex s !! labels_key q = Some i →
    Ok (get (zones s) i) = Ok (E := string) (deepest s q)).
  { intros q i Ei. destruct (Hs _ _ Ei) as (z & Hz & _). assert (zone_at s q = Some z) as E.
    { unfold zone_at. by rewrite Ei. }
    rewrite Hz. destruct q; cbn [deepest]; by rewrite E. }
  assert (Hnone : ∀ q, zindex s !! labels_key q = None → zone_at s q = None).
  { intros q Ei. unfold zone_at. by rewrite Ei. }
  revert p. induction fuel as [|fuel IH]; intros [|l p] Hp Hf; simpl in Hf; try lia; cbn [zone_for_key];
    destruct (zindex s !! _) as [i|] eqn:Ei; try by apply Hsome.
  - cbn [deepest]. by rewrite Hnone, parent_key_nil.
  - cbn [deepest]. by rewrite Hnone, parent_key_nil.
  - rewrite parent_key_cons by done. cbn [deepest]. rewrite Hnone by done. apply IH; [by eapply path_ok_tail|lia].
Qed.

Lemma zone_for_spec s n : store_ok s → Name_wf n → zone_for s n = Ok (deepest s (path n)).
Proof.
  intros Hs Hn. unfold zone_for. rewrite key_of_path by done. cbn [obind].
  apply zone_for_key_spec; [done|by apply path_path_ok|].
  pose proof (zlen_labels_key (path n)) as H. pose proof (body_length (path n)). unfold zlen in H. lia.
Qed.

Lemma suffix_of_cons (l : list Z) (p q : Path) : q `suffix_of` l :: p → q = l :: p ∨ q `suffix_of` p.
Proof. intros [[|x k] E]; [by left|right]. injection E as _ ->. by exists k. Qed.

Lemma deepest_spec s p : store_ok s → path_ok p →
  match deepest s p with
  | Some z => ∃ q, zone_at s q = Some z ∧ q = path (origin z) ∧ q `suffix_of` p ∧
      ∀ q', q' `suffix_of` p → is_Some (zone_at s q') → q' `suffix_of` q
  | None => ∀ q', q' `suffix_of` p → zone_at s q' = None
  end.
Proof.
  intros Hs. assert (Hat : ∀ q z, path_ok q → zone_at s q = Some z → q = path (origin z)).
  { intros q z Hq. unfold zone_at. destruct (zindex s !! labels_key q) as [i|] eqn:Ei; [|done]. simpl.
    destruct (Hs _ _ Ei) as (z' & -> & Hz' & Ek). intros [= ->]. apply path_key_inj; [done|by apply path_path_ok|done]. }
  induction p as [|l p IH]; intros Hp; simpl.
  - destruct (zone_at s []) as [z|] eqn:E.
    + exists []. split_and!; [done|by apply Hat|done|]. by intros q' ->%suffix_nil_inv.
    + by intros q' ->%suffix_nil_inv.
  - destruct (zone_at s (l :: p)) as [z|] eqn:E; [exists (l :: p); split_and!; [done|by apply Hat|done|done]|].
    specialize (IH (path_ok_tail _ _ Hp)). destruct (deepest s p) as [z|].
    + destruct IH as (q & Hq & Eq & Hqs & Hmax). exists q. split_and!; [done|done|by apply suffix_cons_r|].
      intros q' [->|Hq']%suffix_of_cons Hsome; [rewrite E in Hsome; by destruct Hsome|by apply Hmax].
    + intros q' [->|Hq']%suffix_of_cons; [done|by apply IH].
Qed.
