(* ===== verification/AuthorityProps.v ===== *)
(** * Properties of the authoritative zones ([onetdns-authority])

    Loading a zone from the records of a transfer, and what its answers are:
    the statements the server relies on, each with a concrete instance, and
    two runs in which the code does less than its comments say. *)

From S2P Require Import Prelude NameTable Wire Writer Name Codec NameCodec NameText RData.
From S2P Require Import Ttl OwnerIndex OwnerIndexSpec ZoneData ZoneNames Zone ZoneGroups ZoneLoad ZoneLoaded ZoneChecks ZoneQuery ZoneSpec ZoneRefine ZoneFacts.
From stdpp Require Import sorting.

#[local] Open Scope Z_scope.
#[local] Open Scope outcome_scope.

(** ** A concrete zone *)

Definition toy_hasher (key : list Z) : Z := fold_left (λ h b, (h * 31 + b) mod 2 ^ 64) key 7.
Definition toy_seed (_ : list Z) : Z := 0.
Definition toy_sort : list Record_ → list Record_ := sort_by record_cmp.

Definition nm (ls : list (list Z)) : Name := mkName (labels_wire ls).

(** "example", "ns.example", "www.example", "alias.example", "w.example",
    "sub.example", "old.example". *)
Definition ex : list Z := [101; 120; 97; 109; 112; 108; 101].
Definition n_origin : Name := nm [ex].
Definition n_ns : Name := nm [[110; 115]; ex].
Definition n_www : Name := nm [[87; 119; 119]; ex].
Definition n_alias : Name := nm [[97; 108; 105; 97; 115]; ex].
Definition n_wild : Name := nm [[42]; [119]; ex].
Definition n_under_wild : Name := nm [[102; 111; 111]; [119]; ex].
Definition n_sub : Name := nm [[115; 117; 98]; ex].
Definition n_under_sub : Name := nm [[97]; [115; 117; 98]; ex].
Definition n_old : Name := nm [[111; 108; 100]; ex].

Definition toy_soa : Record_ := Record_new n_origin 3600 (RD_Soa (mkSoa n_ns n_ns 1 7200 3600 1209600 300)).

(** A transfer: the SOA first and last, delegations, a wildcard and a DNAME. *)
Definition toy_records : list Record_ :=
  [ toy_soa;
    Record_new n_www 300 (RD_A [192; 0; 2; 1]);
    Record_new n_alias 300 (RD_Cname n_under_wild);
    Record_new n_wild 300 (RD_Mx 10 n_www);
    Record_new n_origin 3600 (RD_Ns n_ns);
    Record_new n_ns 60 (RD_A [192; 0; 2; 53]);
    Record_new n_sub 300 (RD_Ns n_ns);
    Record_new n_under_sub 300 (RD_Ns n_ns);
    Record_new n_old 300 (RD_Dname n_sub);
    toy_soa ].

(** The same name in another case. *)
Definition n_WWW : Name := nm [[119; 119; 119]; [69; 120; 97; 109; 112; 108; 101]].

Lemma toy_records_ok : Forall zone_record toy_records.
Proof.
  repeat constructor; try reflexivity; try wf_name; try in_range; try (by apply is_bytesb_ok); by vm_compute.
Qed.

#[local] Instance comparison_eq_dec : EqDecision comparison.
Proof. solve_decision. Defined.

#[local] Instance rle_dec r s : Decision (rle r s).
Proof. unfold rle. apply _. Defined.

Lemma toy_sorts : sorts toy_sort (keep_one_soa false toy_records).
Proof.
  split.
  - apply (proj1 (bool_decide_eq_true _)). vm_compute. reflexivity.
  - apply (proj1 (bool_decide_eq_true _)). vm_compute. reflexivity.
Qed.

Definition toy_zone : outcome string Zone := from_records toy_hasher toy_sort toy_seed toy_records.

Example toy_zone_loads : match toy_zone with Ok z => has_delegations z | _ => false end = true.
Proof. vm_compute. reflexivity. Qed.

(** ** Loading *)

Section props.
Context (hasher : list Z → Z) (sort : list Record_ → list Record_) (hb : list Z → Z).


(** C8. A zone that was loaded answers every query for a name in it, and the
    answer is the one that [Spec.query] reads off the list of its records: the
    index, the packed arenas, the flags and the walks over keys implement that
    specification, and no query panics or loops. *)
Theorem zone_query_refines (input : list Record_) (z : Zone) (qname : Name) (qtype : Z) :
  Forall zone_record input → sorts sort (keep_one_soa false input) →
  from_records hasher sort hb input = Ok z →
  Name_wf qname → Spec.inside (origin z) qname = true →
  Zone_query hasher z qname qtype =
    Ok (Spec.query (zone_records hb sort input) (origin z) (soa z) (soa_ttl z) qname qtype).
Proof.
  intros Hz Hs E Hn Hi. pose proof (from_records_spec hasher sort hb input Hz Hs) as H. rewrite E in H.
  by apply query_spec.
Qed.

(** C14. The zone that was loaded is consistent, whatever was transferred: a
    CNAME stands alone (but for its signature and its denial) and all CNAMEs of
    an owner agree, an owner has one DNAME, there is nothing below a DNAME, and
    following CNAMEs inside the zone ends. *)
Theorem loaded_zone_consistent (input : list Record_) (z : Zone) :
  Forall zone_record input → sorts sort (keep_one_soa false input) →
  from_records hasher sort hb input = Ok z →
  let rs := zone_records hb sort input in
  (∀ c r, c ∈ rs → r ∈ rs → rpath r = rpath c → rtype c = TYPE_CNAME →
    rtype r ∈ [TYPE_CNAME; TYPE_RRSIG; TYPE_NSEC] ∧ (rtype r = TYPE_CNAME → rdata r = rdata c)) ∧
  (∀ d, d ∈ rs → rtype d = TYPE_DNAME → List.filter (of_rtype TYPE_DNAME) (at_path rs (rpath d)) = [d]) ∧
  (∀ d r, d ∈ rs → r ∈ rs → rtype d = TYPE_DNAME → rpath d `suffix_of` rpath r → rpath r = rpath d) ∧
  (∀ p, Acc (λ q p, cname_next rs p = Some q) p).
Proof.
  intros Hz Hs E rs. pose proof (from_records_spec hasher sort hb input Hz Hs) as H. rewrite E in H.
  destruct (ld_checked _ _ _ H) as [Ho Hb Hc]. fold rs in Ho, Hb, Hc. split_and!.
  - intros c r Hin Hr Ep Ht. destruct (Ho c Hin) as (_ & Hcn & _). apply Hcn; [by apply at_own_path|by apply elem_of_at_path|done].
  - intros d Hd Ht. destruct (Ho d Hd) as (_ & _ & Hdn). apply Hdn; [by apply at_own_path|done].
  - exact Hb.
  - exact Hc.
Qed.

(** ** Answers *)

(** C16. A name is denied only when it does not exist: when the answer to a
    query is NXDOMAIN with an empty answer section, the transfer had no record
    at that name or below it. *)
Theorem denied_name_absent (input : list Record_) (z : Zone) (qname : Name) (qtype : Z) (resp : Response) :
  Forall zone_record input → sorts sort (keep_one_soa false input) →
  from_records hasher sort hb input = Ok z →
  Name_wf qname → Spec.inside (origin z) qname = true →
  Zone_query hasher z qname qtype = Ok resp → rcode resp = 3 → answers resp = [] →
  Forall (λ r, rtype r = TYPE_SOA ∨ ¬ path qname `suffix_of` rpath r) input.
Proof.
  intros Hz Hs E Hn Hi Hq H3 Ha. apply Forall_forall. intros r Hr.
  destruct (decide (rtype r = TYPE_SOA)) as [|Ht]; [by left|right]. intros Hsuf. pose proof (from_records_spec hasher sort hb input Hz Hs) as H. rewrite E in H.
  destruct (zone_records_keep sort hb input r Hz Hs Hr Ht) as (s & Hin & Hp & _).
  apply (query_denies hasher _ z H qname qtype resp Hn Hi Hq H3 Ha). exists s. by rewrite Hp.
Qed.

(** C15. Below a delegation the server refers to the child and does not answer
    itself: for every owner of NS records below the apex, a query for a name
    below that owner (or at it, unless for a type that belongs to the parent)
    gets a response without the authority bit and without answers. *)
Theorem delegation_refers (input : list Record_) (z : Zone) (qname : Name) (qtype : Z) (resp : Response) (r : Record_) :
  Forall zone_record input → sorts sort (keep_one_soa false input) →
  from_records hasher sort hb input = Ok z →
  Name_wf qname → Spec.inside (origin z) qname = true →
  r ∈ input → rtype r = TYPE_NS → rpath r ≠ path (origin z) → rpath r `suffix_of` path qname →
  rpath r ≠ path qname ∨ parent_side qtype = false →
  Zone_query hasher z qname qtype = Ok resp → authoritative resp = false ∧ answers resp = [].
Proof.
  intros Hz Hs E Hn Hi Hr Ht Hne Hsuf Hq Hz'. pose proof (from_records_spec hasher sort hb input Hz Hs) as H. rewrite E in H.
  destruct (zone_records_keep sort hb input r Hz Hs Hr) as (s & Hin & Hp & Hts); [by rewrite Ht|].
  apply (query_refers hasher _ z H qname qtype s resp); try done; [|by rewrite Hp].
  unfold delegates. by rewrite Hp, Hts.
Qed.
End props.

(** The hypotheses of the theorems above for the concrete zone. *)
Ltac toy_input := apply toy_records_ok || apply toy_sorts || wf_name.


(** The zone of the instance, its value computed. *)
Definition toy_loaded : Zone :=
  Eval vm_compute in match toy_zone with Ok z => z | _ => mkZone Name_root (mkSoa Name_root Name_root 0 0 0 0 0) 0
    (mkOwnerIndex [] []) [] (mkArenas [] []) ∅ false false ∅ end.

Lemma toy_loads : from_records toy_hasher toy_sort toy_seed toy_records = Ok toy_loaded.
Proof. vm_compute. reflexivity. Qed.

Lemma zone_query_refines_witness :
  Zone_query toy_hasher toy_loaded n_WWW TYPE_A =
    Ok (Spec.query (zone_records toy_seed toy_sort toy_records) (origin toy_loaded) (soa toy_loaded) (soa_ttl toy_loaded) n_WWW TYPE_A).
Proof. apply (zone_query_refines _ _ _ toy_records); try toy_input; [apply toy_loads|by vm_compute]. Defined.

Lemma loaded_zone_consistent_witness :
  let rs := zone_records toy_seed toy_sort toy_records in
  (∀ c r, c ∈ rs → r ∈ rs → rpath r = rpath c → rtype c = TYPE_CNAME →
    rtype r ∈ [TYPE_CNAME; TYPE_RRSIG; TYPE_NSEC] ∧ (rtype r = TYPE_CNAME → rdata r = rdata c)) ∧
  (∀ d, d ∈ rs → rtype d = TYPE_DNAME → List.filter (of_rtype TYPE_DNAME) (at_path rs (rpath d)) = [d]) ∧
  (∀ d r, d ∈ rs → r ∈ rs → rtype d = TYPE_DNAME → rpath d `suffix_of` rpath r → rpath r = rpath d) ∧
  (∀ p, Acc (λ q p, cname_next rs p = Some q) p).
Proof. apply (loaded_zone_consistent toy_hasher toy_sort toy_seed toy_records toy_loaded); try toy_input. apply toy_loads. Defined.

(** "none.example" does not exist. *)
Definition n_none : Name := nm [[110; 111; 110; 101]; ex].
Definition toy_denial : Response :=
  mkResponse 3 true [] [negative_soa_record toy_loaded] [].

Lemma denied_name_absent_witness :
  Forall (λ r, rtype r = TYPE_SOA ∨ ¬ path n_none `suffix_of` rpath r) toy_records.
Proof.
  apply (denied_name_absent toy_hasher toy_sort toy_seed toy_records toy_loaded n_none TYPE_A toy_denial);
    try toy_input; by vm_compute.
Defined.

Definition toy_referral : Response :=
  mkResponse 0 false [] [Record_new n_sub 300 (RD_Ns n_ns)] [Record_new n_ns 60 (RD_A [192; 0; 2; 53])].

Lemma delegation_refers_witness : authoritative toy_referral = false ∧ answers toy_referral = [].
Proof.
  apply (delegation_refers toy_hasher toy_sort toy_seed toy_records toy_loaded n_under_sub TYPE_A toy_referral
    (Record_new n_sub 300 (RD_Ns n_ns))); try toy_input; try (by vm_compute).
  - do 6 right. left.
  - by exists [[97]].
  - by right.
Defined.

(** ** The store of zones *)

Lemma add_all_spec (zs : list Zone) : Forall (λ z, Name_wf (origin z)) zs →
  ∃ s, ofold (λ s z, ZoneStore_add z s) ZoneStore_new zs = Ok s ∧ store_ok s ∧
    ∀ p, path_ok p → zone_at s p = last (List.filter (λ z, bool_decide (path (origin z) = p)) zs).
Proof.
  intros Hz. assert (H : ∀ pre s, store_ok s →
    (∀ p, path_ok p → zone_at s p = last (List.filter (λ z, bool_decide (path (origin z) = p)) pre)) →
    ∃ s', ofold (λ s z, ZoneStore_add z s) s zs = Ok s' ∧ store_ok s' ∧
    ∀ p, path_ok p → zone_at s' p = last (List.filter (λ z, bool_decide (path (origin z) = p)) (pre ++ zs))).
  { induction Hz as [|z zs Hzw _ IH]; intros pre s Hs Hat; [exists s; by rewrite app_nil_r|].
    destruct (ZoneStore_add_spec z s Hzw Hs) as (s' & E & Hs' & Hat'). cbn [ofold]. rewrite E. cbn [obind].
    destruct (IH (pre ++ [z]) s' Hs') as (s'' & E' & Hs'' & Hat'').
    - intros p Hp. rewrite Hat', List.filter_app by done. cbn [List.filter]. case_decide as Ep.
      + rewrite bool_decide_eq_true_2 by done. by rewrite last_snoc.
      + rewrite bool_decide_eq_false_2 by (intros Ep'; by destruct Ep). by rewrite app_nil_r, Hat.
    - exists s''. rewrite <- app_assoc in Hat''. done. }
  destruct (H [] ZoneStore_new ZoneStore_new_ok) as (s & Hs); [|by exists s].
  intros p _. unfold zone_at. cbn. by rewrite lookup_empty.
Qed.

(** C35. The store finds the deepest zone: after any zones were added,
    [ZoneStore::zone_for] returns, and it finds the last zone added for the
    longest origin that the name is in, and none only when the name is in no
    zone. *)
Theorem zone_store_longest_match (zs : list Zone) (qname : Name) :
  Forall (λ z, Name_wf (origin z)) zs → Name_wf qname →
  ∃ s, ofold (λ s z, ZoneStore_add z s) ZoneStore_new zs = Ok s ∧
  ∃ found, zone_for s qname = Ok found ∧
  match found with
  | Some z => path (origin z) `suffix_of` path qname ∧
      last (List.filter (λ z', bool_decide (path (origin z') = path (origin z))) zs) = Some z ∧
      ∀ z', z' ∈ zs → path (origin z') `suffix_of` path qname → path (origin z') `suffix_of` path (origin z)
  | None => ∀ z', z' ∈ zs → ¬ path (origin z') `suffix_of` path qname
  end.
Proof.
  intros Hz Hn. destruct (add_all_spec zs Hz) as (s & E & Hs & Hat). exists s. split; [done|].
  rewrite zone_for_spec by done. eexists. split; [done|].
  assert (Hsome : ∀ z', z' ∈ zs → is_Some (zone_at s (path (origin z')))).
  { intros z' Hin. rewrite Hat by (apply path_path_ok; by apply (proj1 (Forall_forall _ _) Hz)).
    apply last_is_Some. intros E'. assert (Hin' : z' ∈ List.filter (λ z, bool_decide (path (origin z) = path (origin z'))) zs).
    { apply elem_of_filter_list. split; [done|]. by apply bool_decide_eq_true. }
    rewrite E' in Hin'. by apply elem_of_nil in Hin'. }
  pose proof (deepest_spec s (path qname) Hs (path_path_ok _ Hn)) as Hd. destruct (deepest s (path qname)) as [z|].
  - destruct Hd as (q & Hq & -> & Hsuf & Hmax). split_and!; [done| |].
    + rewrite <- Hat; [done|]. apply (path_ok_suffix _ _ Hsuf), path_path_ok, Hn.
    + intros z' Hin Hs'. apply Hmax; [done|by apply Hsome].
  - intros z' Hin Hs'. destruct (Hsome z' Hin) as [y Hy]. by rewrite (Hd _ Hs') in Hy.
Qed.

(** A zone with nothing but an origin. *)
Definition bare_zone (o : Name) : Zone :=
  mkZone o (mkSoa o o 0 0 0 0 0) 0 (mkOwnerIndex [] []) [] (mkArenas [] []) ∅ false false ∅.

Lemma zone_store_longest_match_witness :
  ∃ s, ofold (λ s z, ZoneStore_add z s) ZoneStore_new [bare_zone n_origin; bare_zone n_sub] = Ok s ∧
  ∃ found, zone_for s n_under_sub = Ok found ∧
  match found with
  | Some z => path (origin z) `suffix_of` path n_under_sub ∧
      last (List.filter (λ z', bool_decide (path (origin z') = path (origin z))) [bare_zone n_origin; bare_zone n_sub]) = Some z ∧
      ∀ z', z' ∈ [bare_zone n_origin; bare_zone n_sub] → path (origin z') `suffix_of` path n_under_sub →
        path (origin z') `suffix_of` path (origin z)
  | None => ∀ z', z' ∈ [bare_zone n_origin; bare_zone n_sub] → ¬ path (origin z') `suffix_of` path n_under_sub
  end.
Proof. apply zone_store_longest_match; [|wf_name]. apply Forall_cons. split; [wf_name|]. apply Forall_singleton. wf_name. Defined.

(** ** The index and the arenas *)

(** The owner index is a finite map, whatever its seeded hasher is: after
    [OwnerIndex::new] and any insertions of distinct keys within the limits it
    was sized for, [OwnerIndex::get] returns and finds exactly what was
    inserted under a key; probing never runs out of slots. *)
Theorem owner_index_is_a_map (hasher : list Z → Z) (es : list (list Z * RecordRange)) (key : list Z) :
  NoDup es.*1 → zlen es ≤ MAX_ZONE_RECORDS →
  Forall (λ e, zlen e.1 ≤ U8_MAX ∧ is_u16 (r_len e.2)) es →
  ∃ x, (try! x := OwnerIndex_new (zlen es) in ofold (λ x e, OwnerIndex_insert hasher e.1 e.2 x) x es) = Ok x ∧
    OwnerIndex_get hasher key x = Ok (entry_of key es).
Proof.
  intros Hnd Hl Hes. pose proof (zlen_nonneg es). unfold MAX_ZONE_RECORDS in Hl.
  destruct (OwnerIndex_new_spec hasher (zlen es)) as (x & -> & Hx & Hroom & Hmeta); [unfold U32_MAX; lia|]. cbn [obind].
  assert (Hins : ∀ post pre y, es = pre ++ post → index_ok hasher y pre → length (slots y) = length (slots x) →
    zlen (metadata y) ≤ 258 * zlen pre →
    ∃ y', ofold (λ x e, OwnerIndex_insert hasher e.1 e.2 x) y post = Ok y' ∧ index_ok hasher y' es).
  { induction post as [|e post IH]; intros pre y E Hy Hsl Hmd; [exists y; by rewrite E, app_nil_r|].
    rewrite Forall_forall in Hes. destruct (Hes e) as [Hk Hr]; [rewrite E; apply elem_of_app; right; by left|].
    assert (Hpre : zlen pre + 1 ≤ zlen es) by (rewrite E, zlen_app, zlen_cons; pose proof (zlen_nonneg post); lia).
    destruct (OwnerIndex_insert_spec hasher y pre e.1 e.2) as (y' & E' & Hy' & Hsl' & Hmd'); try done.
    - intros Hin. rewrite E, fmap_app in Hnd. apply NoDup_app in Hnd as (_ & Hd & _). apply (Hd _ Hin). by left.
    - unfold U32_MAX. lia.
    - unfold zlen in *. lia.
    - cbn [ofold]. rewrite E'. cbn [obind]. rewrite <- surjective_pairing in Hy'. apply (IH (pre ++ [e])).
      + by rewrite <- app_assoc.
      + done.
      + by rewrite Hsl'.
      + rewrite zlen_app, zlen_cons, zlen_nil. unfold U8_MAX in Hk. lia. }
  destruct (Hins es [] x) as (y & E & Hy); [done|done|done|by rewrite Hmeta|]. exists y. split; [done|].
  by apply OwnerIndex_get_spec.
Qed.

Lemma owner_index_is_a_map_witness :
  ∃ x, (try! x := OwnerIndex_new 2 in
        ofold (λ x e, OwnerIndex_insert toy_hasher e.1 e.2 x) x [([1; 97; 0], mkRange 0 3); ([0], mkRange 3 1)]) = Ok x ∧
    OwnerIndex_get toy_hasher [0] x = Ok (entry_of [0] [([1; 97; 0], mkRange 0 3); ([0], mkRange 3 1)]).
Proof.
  apply (owner_index_is_a_map toy_hasher [([1; 97; 0], mkRange 0 3); ([0], mkRange 3 1)] [0]).
  - apply (bool_decide_unpack _). by vm_compute.
  - by vm_compute.
  - repeat constructor; by vm_compute.
Defined.

(** A packed record is read back: once [StoredRecord::from_record] has
    stored a record in the arenas, and whatever is stored after it,
    [StoredRecord::rtype] is its type and [StoredRecord::materialize] returns
    its data, under the owner asked for and with its lifetime cut to 30 bits
    for an address, unchanged otherwise. *)
Theorem packed_record_roundtrip (r : Record_) (later : list Record_) (ar ar' ar'' : Arenas)
    (s : StoredRecord) (xs xs' : list StoredRecord) (owner : Name) :
  zone_record r → Forall zone_record later →
  from_record r ar = Ok (s, ar') → ofold pack_record (xs, ar') later = Ok (xs', ar'') →
  stored_rtype s = rtype r ∧ materialize s owner ar'' = Some (stamp owner r).
Proof.
  intros Hr Hl E E'. pose proof (from_record_spec r ar Hr) as H. rewrite E in H. destruct H as (Hp & _).
  assert (Hlate : yields (ofold pack_record (xs, ar') later) (λ '(_, a), packs a r s)).
  { apply (yields_ofold (λ _ '(_, a), packs a r s)); [done|]. intros pre r' post [ys a] Hin%elem_of_mid Hps.
    unfold pack_record. simpl. eapply yields_obind; [apply from_record_spec; by apply (proj1 (Forall_forall _ _) Hl)|].
    intros [s' a'] (_ & Ha & Hb). simpl. by eapply packs_grows. }
  rewrite E' in Hlate. destruct Hlate as (Ht & Hm & _). by split.
Qed.

Lemma packed_record_roundtrip_witness :
  stored_rtype (mkStored 300 3221225985) = TYPE_A ∧
  materialize (mkStored 300 3221225985) n_WWW (mkArenas [] [toy_soa]) =
    Some (Record_new n_WWW 300 (RD_A [192; 0; 2; 1])).
Proof.
  apply (packed_record_roundtrip (Record_new n_www 300 (RD_A [192; 0; 2; 1])) [toy_soa] (mkArenas [] []) (mkArenas [] [])
    (mkArenas [] [toy_soa]) (mkStored 300 3221225985) [] [mkStored 2147483654 0] n_WWW).
  - apply (proj1 (Forall_forall _ _) toy_records_ok). right. left.
  - apply Forall_singleton. apply (proj1 (Forall_forall _ _) toy_records_ok). left.
  - vm_compute. reflexivity.
  - vm_compute. reflexivity.
Defined.

(** ** What the comments say and the code does not *)

(** The comment of [wildcard_records] leaves it to the caller to put the name
    asked for on the records; [chase_cname] does so for addresses only.  The
    answer for the alias of a name below a wildcard ends with an MX record
    whose owner is the wildcard itself. *)
Example chase_keeps_wildcard_owner :
  match Zone_query toy_hasher toy_loaded n_alias 15 with
  | Ok resp => map (λ r, (name r, rtype r)) (answers resp)
  | _ => []
  end = [(n_alias, TYPE_CNAME); (n_wild, 15)].
Proof. vm_compute. reflexivity. Qed.

(** Asked for directly, the same record is renamed. *)
Example wildcard_renames :
  match Zone_query toy_hasher toy_loaded n_under_wild 15 with
  | Ok resp => map (λ r, (name r, rtype r)) (answers resp)
  | _ => []
  end = [(n_under_wild, 15)].
Proof. vm_compute. reflexivity. Qed.

(** The comment of [delegation_for] says that it returns the deepest cut; of
    the cuts at "sub.example" and "a.sub.example" it returns the upper one. *)
Example delegation_is_the_highest :
  delegation_for toy_hasher toy_loaded n_under_sub = Ok (Some n_sub).
Proof. vm_compute. reflexivity. Qed.
