(* ===== verification/Regex.v ===== *)
(** * The regular expressions of the filter ([onetdns-filter/src/regex.rs])

    The parser of patterns, the compiler to instructions and the machine that
    runs all threads of a program together over a reused scratch space.
    Indices into programs and inputs are [nat]; octets and counters are [Z]. *)

From S2P Require Import Prelude.

#[local] Open Scope outcome_scope.

(** ** Patterns *)

(** [enum Ast]. *)
Inductive Ast :=
  | Empty
  | Literal (b : Z)
  | AnyChar (dotall : bool)
  | Class_ (negated : bool) (ranges : list (Z * Z))
  | Concat (parts : list Ast)
  | Alt (branches : list Ast)
  | Repeat (node : Ast) (min : Z) (max : option Z)
  | StartAnchor (multiline : bool)
  | EndAnchor (multiline : bool)
  | WordBoundary (want : bool).

Definition MAX_REPEAT : Z := 1000.
Definition MAX_INSTS : Z := 200000.
Definition MAX_PARSE_DEPTH : Z := 200.

(** [struct Flags]. *)
Record Flags := mkFlags { ci : bool; dotall : bool; multiline : bool; extended : bool }.

(** [struct Parser]; its four flags are one field. *)
Record Parser := mkParser { text : list Z; pos : nat; depth : Z; flags : Flags }.

(** [Parser::new]. *)
Definition Parser_new (s : list Z) : Parser := mkParser s 0 0 (mkFlags false false false false).

Definition advance (n : nat) (p : Parser) : Parser := mkParser (text p) (pos p + n) (depth p) (flags p).
Definition set_pos (n : nat) (p : Parser) : Parser := mkParser (text p) n (depth p) (flags p).
Definition set_depth (d : Z) (p : Parser) : Parser := mkParser (text p) (pos p) d (flags p).
Definition restore (f : Flags) (p : Parser) : Parser := mkParser (text p) (pos p) (depth p) f.

(** [Parser::peek], [bump] and [eat]. *)
Definition peek (p : Parser) : option Z := text p !! pos p.
Definition bump (p : Parser) : option Z * Parser :=
  match peek p with
  | Some c => (Some c, advance 1 p)
  | None => (None, p)
  end.
Definition eat (b : Z) (p : Parser) : bool * Parser :=
  if bool_decide (peek p = Some b) then (true, advance 1 p) else (false, p).

(** [u8::is_ascii_whitespace], [is_ascii_digit] and [is_ascii_alphanumeric]. *)
Definition is_ascii_whitespace (b : Z) : bool := bool_decide (b ∈ [32; 9; 10; 12; 13]).
Definition is_digit (b : Z) : bool := (48 <=? b) && (b <=? 57).
Definition is_alphanumeric (b : Z) : bool :=
  is_digit b || ((65 <=? b) && (b <=? 90)) || ((97 <=? b) && (b <=? 122)).

(** The octets that [skip_x_ws] goes over; inside a comment up to its end. *)
Fixpoint skip_ws (comment : bool) (l : list Z) : nat :=
  match l with
  | [] => 0
  | c :: l =>
      if comment then S (skip_ws (negb (c =? 10)) l)
      else if c =? 35 then S (skip_ws true l)
      else if is_ascii_whitespace c then S (skip_ws false l)
      else 0
  end.

(** [Parser::skip_x_ws]. *)
Definition skip_x_ws (p : Parser) : Parser :=
  if extended (flags p) then advance (skip_ws false (drop (pos p) (text p))) p else p.

(** [u32::saturating_mul] and [saturating_add] in [parse_uint]. *)
Definition u32_digit (n c : Z) : Z := Z.min U32_MAX (Z.min U32_MAX (n * 10) + (c - 48)).

Fixpoint uint_loop (l : list Z) (n : Z) : Z * nat :=
  match l with
  | c :: l => if is_digit c then let '(n, k) := uint_loop l (u32_digit n c) in (n, S k) else (n, O)
  | [] => (n, O)
  end.

(** [Parser::parse_uint]. *)
Definition parse_uint (p : Parser) : option Z * Parser :=
  let '(n, k) := uint_loop (drop (pos p) (text p)) 0 in
  match k with
  | O => (None, p)
  | _ => (Some n, advance k p)
  end.

(** [Parser::try_parse_bounds]. *)
Definition try_parse_bounds (p : Parser) : outcome string (option (Z * option Z) * Parser) :=
  let '(_, p1) := bump p in
  let '(min, p2) := parse_uint p1 in
  match min with
  | None => Ok (None, set_pos (pos p) p2)
  | Some min =>
      let '(comma, p3) := eat 44 p2 in
      let upper :=
        if comma then
          if bool_decide (peek p3 = Some 125) then Some (None, p3)
          else let '(m, p4) := parse_uint p3 in
               match m with Some m => Some (Some m, p4) | None => None end
        else Some (Some min, p3) in
      match upper with
      | None => Ok (None, p)
      | Some (max, p4) =>
          let '(closed, p5) := eat 125 p4 in
          if negb closed then Ok (None, set_pos (pos p) p5)
          else if (MAX_REPEAT <? min) || match max with Some m => MAX_REPEAT <? m | None => false end
          then Err "정규식 반복 횟수가 허용 한도를 넘었습니다"
          else if match max with Some m => m <? min | None => false end then Err "반복 범위 역전"
          else Ok (Some (min, max), p5)
      end
  end.

(** [Parser::fold]. *)
Definition fold (p : Parser) (b : Z) : Z := if ci (flags p) then ascii_lower b else b.

(** ** Classes *)

Definition WORD_RANGES : list (Z * Z) := [(48, 57); (65, 90); (97, 122); (95, 95)].
Definition SPACE_RANGES : list (Z * Z) := [(9, 13); (32, 32)].
Definition DIGIT_RANGES : list (Z * Z) := [(48, 57)].

(** The stable [sort_by_key] of [complement_ranges]. *)
Fixpoint insert_range (r : Z * Z) (l : list (Z * Z)) : list (Z * Z) :=
  match l with
  | [] => [r]
  | s :: l => if s.1 <? r.1 then s :: insert_range r l else r :: s :: l
  end.

(** Its loop over the sorted ranges: the gaps, and the first octet after. *)
Fixpoint gaps (next : Z) (l : list (Z * Z)) : list (Z * Z) :=
  match l with
  | [] => if next <=? 255 then [(next, 255)] else []
  | (lo, hi) :: l =>
      (if next <? lo then [(next, lo - 1)] else [])
      ++ gaps (if next <? hi + 1 then hi + 1 else next) l
  end.

Definition complement_ranges (ranges : list (Z * Z)) : list (Z * Z) := gaps 0 (foldr insert_range [] ranges).

(** [Parser::push_class_range]: what is pushed. *)
Definition class_range (p : Parser) (lo hi : Z) : list (Z * Z) :=
  (lo, hi) ::
  (if ci (flags p) then
     (let ua := Z.max lo 65 in let ub := Z.min hi 90 in
      if ua <=? ub then [(ua + 32, ub + 32)] else []) ++
     (let la := Z.max lo 97 in let lb := Z.min hi 122 in
      if la <=? lb then [(la - 32, lb - 32)] else [])
   else []).

(** [Parser::class_atom]: an octet, or nothing when ranges were added. *)
Definition class_atom (ranges : list (Z * Z)) (p : Parser) :
    outcome string (option Z * list (Z * Z) * Parser) :=
  match bump p with
  | (None, _) => Err "닫히지 않은 문자 클래스"
  | (Some 92, p) =>
      match bump p with
      | (None, _) => Err "잘못된 이스케이프"
      | (Some e, p) =>
          if e =? 100 then Ok (None, ranges ++ DIGIT_RANGES, p)
          else if e =? 119 then Ok (None, ranges ++ WORD_RANGES, p)
          else if e =? 115 then Ok (None, ranges ++ SPACE_RANGES, p)
          else if e =? 68 then Ok (None, ranges ++ complement_ranges DIGIT_RANGES, p)
          else if e =? 87 then Ok (None, ranges ++ complement_ranges WORD_RANGES, p)
          else if e =? 83 then Ok (None, ranges ++ complement_ranges SPACE_RANGES, p)
          else if e =? 110 then Ok (Some 10, ranges, p)
          else if e =? 116 then Ok (Some 9, ranges, p)
          else if e =? 114 then Ok (Some 13, ranges, p)
          else if e =? 102 then Ok (Some 12, ranges, p)
          else if e =? 118 then Ok (Some 11, ranges, p)
          else if e =? 48 then Ok (Some 0, ranges, p)
          else if e =? 98 then Ok (Some 8, ranges, p)
          else Ok (Some e, ranges, p)
      end
  | (Some c, p) => Ok (Some c, ranges, p)
  end.

(** One item of a class. *)
Definition class_item (ranges : list (Z * Z)) (p : Parser) : outcome string (list (Z * Z) * Parser) :=
  try! (lo, ranges, p) := class_atom ranges p in
  match lo with
  | None => Ok (ranges, p)
  | Some lo =>
      if bool_decide (peek p = Some 45)
         && negb (bool_decide (text p !! S (pos p) = Some 93))
         && bool_decide (is_Some (text p !! S (pos p)))
      then
        try! (hi, ranges, p) := class_atom ranges (snd (bump p)) in
        match hi with
        | Some hi =>
            if lo <=? hi then Ok (ranges ++ class_range p lo hi, p)
            else Err "문자 클래스 범위 역전"
        | None => Ok (ranges ++ class_range p lo lo, p)
        end
      else Ok (ranges ++ class_range p lo lo, p)
  end.

Fixpoint class_loop (fuel : nat) (first : bool) (ranges : list (Z * Z)) (p : Parser) :
    outcome string (list (Z * Z) * Parser) :=
  match fuel with
  | O => NoFuel
  | S fuel =>
      match peek p with
      | None => Err "닫히지 않은 문자 클래스"
      | Some c =>
          if (c =? 93) && negb first then Ok (ranges, snd (bump p))
          else
            try! (ranges, p) := class_item ranges p in
            class_loop fuel false ranges p
      end
  end.

(** [Parser::parse_class]. *)
Definition parse_class (p : Parser) : outcome string (Ast * Parser) :=
  let '(negated, p) := eat 94 (snd (bump p)) in
  try! (ranges, p) := class_loop (S (length (text p))) true [] p in
  match ranges with
  | [] => Err "빈 문자 클래스"
  | _ => Ok (Class_ negated ranges, p)
  end.

(** [Parser::parse_escape]. *)
Definition parse_escape (p : Parser) : outcome string (Ast * Parser) :=
  match bump (snd (bump p)) with
  | (None, _) => Err "패턴 끝의 백슬래시"
  | (Some e, p) =>
      let a :=
        if e =? 100 then Class_ false DIGIT_RANGES
        else if e =? 68 then Class_ true DIGIT_RANGES
        else if e =? 119 then Class_ false WORD_RANGES
        else if e =? 87 then Class_ true WORD_RANGES
        else if e =? 115 then Class_ false SPACE_RANGES
        else if e =? 83 then Class_ true SPACE_RANGES
        else if e =? 98 then WordBoundary true
        else if e =? 66 then WordBoundary false
        else if e =? 110 then Literal 10
        else if e =? 116 then Literal 9
        else if e =? 114 then Literal 13
        else if e =? 102 then Literal 12
        else if e =? 118 then Literal 11
        else if e =? 48 then Literal 0
        else Literal (fold p e) in
      Ok (a, p)
  end.

(** ** Groups *)

Definition is_flag_char (c : Z) : bool := bool_decide (c ∈ [105; 115; 109; 120]).

(** [Parser::set_flag]. *)
Definition set_flag (c : Z) (on : bool) (p : Parser) : Parser :=
  let f := flags p in
  restore (if c =? 105 then mkFlags on (dotall f) (multiline f) (extended f)
           else if c =? 115 then mkFlags (ci f) on (multiline f) (extended f)
           else if c =? 109 then mkFlags (ci f) (dotall f) on (extended f)
           else if c =? 120 then mkFlags (ci f) (dotall f) (multiline f) on
           else f) p.

(** [Parser::parse_flag_group]: the flags to restore, or nothing for a group
    of flags alone. *)
Fixpoint flag_loop (fuel : nat) (negate : bool) (saved : Flags) (p : Parser) :
    outcome string (option Flags * Parser) :=
  match fuel with
  | O => NoFuel
  | S fuel =>
      match peek p with
      | Some c =>
          if (c =? 45) && negb negate then flag_loop fuel true saved (snd (bump p))
          else if is_flag_char c then flag_loop fuel negate saved (set_flag c (negb negate) (snd (bump p)))
          else if c =? 58 then Ok (Some saved, snd (bump p))
          else if c =? 41 then Ok (None, snd (bump p))
          else Err "지원하지 않는 그룹 플래그"
      | None => Err "지원하지 않는 그룹 플래그"
      end
  end.

Definition parse_flag_group (p : Parser) : outcome string (option Flags * Parser) :=
  flag_loop (S (length (text p))) false (flags p) p.

(** ** The recursive descent *)

Section descent.
  (** The call back into [parse_alt] inside a group. *)
  Variable alt : Parser → outcome string (Ast * Parser).

  (** The end of a group: its closing parenthesis. *)
Definition parse_group_inner (p : Parser) : outcome string (Ast * Parser) :=
    let p := snd (bump p) in
    let plain p :=
      try! (inner, p) := alt p in
      match eat 41 p with
      | (true, p) => Ok (inner, p)
      | (false, _) => Err "닫는 괄호가 없습니다"
      end in
    match eat 63 p with
    | (false, p) => plain p
    | (true, p) =>
        match peek p with
        | Some c =>
            if c =? 58 then plain (snd (bump p))
            else if (c =? 45) || is_flag_char c then
              try! (saved, p) := parse_flag_group p in
              match saved with
              | None => Ok (Empty, p)
              | Some saved =>
                  try! (inner, p) := alt p in
                  match eat 41 p with
                  | (true, p) => Ok (inner, restore saved p)
                  | (false, _) => Err "닫는 괄호가 없습니다"
                  end
              end
            else Err "지원하지 않는 (?...) 그룹"
        | None => Err "지원하지 않는 (?...) 그룹"
        end
    end.

  (** [Parser::parse_group]: the depth is checked on the way in. *)
Definition parse_group (p : Parser) : outcome string (Ast * Parser) :=
    let p := set_depth (depth p + 1) p in
    if MAX_PARSE_DEPTH <? depth p then Err "정규식 중첩이 너무 깊음"
    else
      try! (a, p) := parse_group_inner p in
      Ok (a, set_depth (depth p - 1) p).

  (** [Parser::parse_atom]. *)
Definition parse_atom (p : Parser) : outcome string (Ast * Parser) :=
    match peek p with
    | None => Ok (Empty, p)
    | Some c =>
        if c =? 40 then parse_group p
        else if c =? 91 then parse_class p
        else if c =? 46 then Ok (AnyChar (dotall (flags p)), snd (bump p))
        else if c =? 94 then Ok (StartAnchor (multiline (flags p)), snd (bump p))
        else if c =? 36 then Ok (EndAnchor (multiline (flags p)), snd (bump p))
        else if c =? 92 then parse_escape p
        else if bool_decide (c ∈ [42; 43; 63]) then Err "수량자 앞에 항이 없습니다"
        else Ok (Literal (fold p c), snd (bump p))
    end.

  (** [Parser::parse_repeat]. *)
Definition parse_repeat (p : Parser) : outcome string (Ast * Parser) :=
    try! (atom, p) := parse_atom p in
    let p := skip_x_ws p in
    let repeated min max p := Ok (Repeat atom min max, snd (eat 63 p)) in
    match peek p with
    | Some c =>
        if c =? 42 then repeated 0 None (snd (bump p))
        else if c =? 43 then repeated 1 None (snd (bump p))
        else if c =? 63 then repeated 0 (Some 1) (snd (bump p))
        else if c =? 123 then
          try! (bounds, p) := try_parse_bounds p in
          match bounds with
          | Some (min, max) => repeated min max p
          | None => Ok (atom, p)
          end
        else Ok (atom, p)
    | None => Ok (atom, p)
    end.

  (** [Parser::parse_concat]. *)
Fixpoint parse_concat (fuel : nat) (parts : list Ast) (p : Parser) : outcome string (Ast * Parser) :=
    match fuel with
    | O => NoFuel
    | S fuel =>
        let p := skip_x_ws p in
        let stop := match peek p with None => true | Some c => (c =? 124) || (c =? 41) end in
        if stop then
          match parts with
          | [] => Ok (Empty, p)
          | [a] => Ok (a, p)
          | _ => Ok (Concat parts, p)
          end
        else
          try! (a, p) := parse_repeat p in
          parse_concat fuel (parts ++ [a]) p
    end.

  (** The loop of [Parser::parse_alt] over the branches. *)
Fixpoint alt_loop (fuel : nat) (branches : list Ast) (p : Parser) : outcome string (Ast * Parser) :=
    match fuel with
    | O => NoFuel
    | S fuel =>
        match eat 124 p with
        | (true, p) =>
            try! (b, p) := parse_concat (S (length (text p))) [] p in
            alt_loop fuel (branches ++ [b]) p
        | (false, p) =>
            match branches with
            | [b] => Ok (b, p)
            | _ => Ok (Alt branches, p)
            end
        end
    end.
End descent.

(** [Parser::parse_alt]. Its fuel bounds the calls inside one another. *)
Fixpoint parse_alt (fuel : nat) (p : Parser) : outcome string (Ast * Parser) :=
  match fuel with
  | O => NoFuel
  | S fuel =>
      let rounds := S (length (text p)) in
      try! (first, p) := parse_concat (parse_alt fuel) rounds [] p in
      alt_loop (parse_alt fuel) rounds [first] p
  end.

(** One call for each level of groups that the depth limit allows. *)
Definition parse_fuel : nat := S (Z.to_nat MAX_PARSE_DEPTH).

(** [parse_pattern]. *)
Definition parse_pattern (pattern : list Z) : outcome string Ast :=
  try! (ast, p) := parse_alt parse_fuel (Parser_new pattern) in
  if bool_decide (pos p = length (text p)) then Ok ast else Err "예상치 못한 문자".
