(* ===== verification/RegexVm.v ===== *)
(** * The instructions of a filter expression and the machine that runs them

    The compiler of [onetdns-filter/src/regex.rs] with its back-patching, the
    sparse sets of threads with their 32-bit generation, and the run over an
    input. The thread-local scratch space is an argument and a result. *)

From S2P Require Import Prelude Regex.

#[local] Open Scope outcome_scope.

(** [enum Inst]. *)
Inductive Inst :=
  | Byte (b : Z)
  | Any (dotall : bool)
  | InClass (negated : bool) (ranges : list (Z * Z))
  | Match
  | Jmp (t : nat)
  | Split (a b : nat)
  | Start (multiline : bool)
  | AtEnd (multiline : bool)
  | Boundary (want : bool).

#[export] Instance Inst_eq_dec : EqDecision Inst.
Proof. solve_decision. Defined.

(** ** The compiler *)

(** [Compiler::emit]: the index of the instruction and the new program. *)
Definition emit (i : Inst) (c : list Inst) : outcome string (nat * list Inst) :=
  if MAX_INSTS <=? zlen c then Err "정규식이 너무 큼" else Ok (length c, c ++ [i]).

(** [Compiler::compile_repeat]: [min] copies of the node, *)
Fixpoint copies (n : nat) (node : list Inst → outcome string (list Inst)) (c : list Inst) :
    outcome string (list Inst) :=
  match n with
  | O => Ok c
  | S n => try! c := node c in copies n node c
  end.

(** the optional copies, with the splits to patch, *)
Fixpoint optionals (n : nat) (node : list Inst → outcome string (list Inst)) (splits : list nat)
    (c : list Inst) : outcome string (list nat * list Inst) :=
  match n with
  | O => Ok (splits, c)
  | S n =>
      try! (s, c) := emit (Split 0 0) c in
      let c := <[s := Split (length c) 0]> c in
      try! c := node c in
      optionals n node (splits ++ [s]) c
  end.

Fixpoint patch_splits (endd : nat) (splits : list nat) (c : list Inst) : list Inst :=
  match splits with
  | [] => c
  | s :: splits =>
      patch_splits endd splits
        (match c !! s with Some (Split a _) => <[s := Split a endd]> c | _ => c end)
  end.

(** and the loop of an unbounded repetition. *)
Definition compile_repeat (node : list Inst → outcome string (list Inst)) (min : Z) (max : option Z)
    (c : list Inst) : outcome string (list Inst) :=
  try! c := copies (Z.to_nat min) node c in
  match max with
  | None =>
      try! (l1, c) := emit (Split 0 0) c in
      let body := length c in
      try! c := node c in
      try! (_, c) := emit (Jmp l1) c in
      Ok (<[l1 := Split body (length c)]> c)
  | Some m =>
      try! (splits, c) := optionals (Z.to_nat (saturating_sub m min)) node [] c in
      Ok (patch_splits (length c) splits c)
  end.

Fixpoint patch_jmps (endd : nat) (jmps : list nat) (c : list Inst) : list Inst :=
  match jmps with
  | [] => c
  | j :: jmps => patch_jmps endd jmps (<[j := Jmp endd]> c)
  end.

Definition emit_one (i : Inst) (c : list Inst) : outcome string (list Inst) :=
  try! (_, c) := emit i c in Ok c.

Section lists.
  Variable node : Ast → list Inst → outcome string (list Inst).

  (** The parts of a concatenation. *)
Fixpoint compile_concat (parts : list Ast) (c : list Inst) : outcome string (list Inst) :=
    match parts with
    | [] => Ok c
    | p :: parts => try! c := node p c in compile_concat parts c
    end.

  (** The branches of an alternative; the last one has no split. *)
Fixpoint compile_alt (branches : list Ast) (jmps : list nat) (c : list Inst) : outcome string (list Inst) :=
    match branches with
    | [] => Ok (patch_jmps (length c) jmps c)
    | [b] =>
        try! c := node b c in
        Ok (patch_jmps (length c) jmps c)
    | b :: branches =>
        try! (split, c) := emit (Split 0 0) c in
        let l1 := length c in
        try! c := node b c in
        try! (j, c) := emit (Jmp 0) c in
        compile_alt branches (jmps ++ [j]) (<[split := Split l1 (length c)]> c)
    end.
End lists.

(** [Compiler::compile]. *)
Fixpoint compile (ast : Ast) (c : list Inst) : outcome string (list Inst) :=
  match ast with
  | Empty => Ok c
  | Literal b => emit_one (Byte b) c
  | AnyChar dotall => emit_one (Any dotall) c
  | Class_ negated ranges => emit_one (InClass negated ranges) c
  | StartAnchor multiline => emit_one (Start multiline) c
  | EndAnchor multiline => emit_one (AtEnd multiline) c
  | WordBoundary w => emit_one (Boundary w) c
  | Concat parts => compile_concat compile parts c
  | Alt branches => compile_alt compile branches [] c
  | Repeat node min max => compile_repeat (compile node) min max c
  end.

(** [is_start_anchored]. *)
Fixpoint is_start_anchored (ast : Ast) : bool :=
  match ast with
  | StartAnchor multiline => negb multiline
  | Concat parts =>
      (fix first (parts : list Ast) :=
         match parts with
         | [] => false
         | Empty :: parts => first parts
         | p :: _ => is_start_anchored p
         end) parts
  | Alt branches => negb (bool_decide (branches = [])) && forallb is_start_anchored branches
  | _ => false
  end.

(** [struct Prog]. *)
Record Prog := mkProg { insts : list Inst; start_anchored : bool }.

(** [compile_ast] and [compile_pattern]. *)
Definition compile_ast (ast : Ast) : outcome string Prog :=
  try! c := compile ast [] in
  try! (_, c) := emit Match c in
  Ok (mkProg c (is_start_anchored ast)).

Definition compile_pattern (pattern : list Z) : outcome string Prog :=
  try! ast := parse_pattern pattern in compile_ast ast.

(** ** Sets of threads *)

(** [struct SparseSet]. *)
Record SparseSet := mkSet { gen : list Z; cur : Z; dense : list nat }.

Definition SparseSet_new : SparseSet := mkSet [] 0 [].

(** [SparseSet::ensure]. *)
Definition ensure (n : nat) (s : SparseSet) : SparseSet :=
  mkSet (gen s ++ replicate (n - length (gen s)) 0) (cur s) (dense s).

(** [SparseSet::clear]; the generation wraps at 32 bits. *)
Definition clear (s : SparseSet) : SparseSet :=
  let cur := (cur s + 1) mod 2 ^ 32 in
  if cur =? 0 then mkSet (map (λ _, 0) (gen s)) 1 [] else mkSet (gen s) cur [].

(** [SparseSet::contains] and [insert]; out of range they panic. *)
Definition contains (s : SparseSet) (pc : nat) : outcome string bool :=
  match gen s !! pc with Some g => Ok (g =? cur s) | None => Panic end.

Definition insert (s : SparseSet) (pc : nat) : outcome string SparseSet :=
  match gen s !! pc with
  | Some _ => Ok (mkSet (<[pc := cur s]> (gen s)) (cur s) (dense s ++ [pc]))
  | None => Panic
  end.

(** ** The machine *)

(** [is_word] and [word_boundary]. *)
Definition is_word (b : Z) : bool := is_alphanumeric b || (b =? 95).

Definition word_boundary (input : list Z) (pos : nat) : bool :=
  let word i := match input !! i with Some b => is_word b | None => false end in
  let before := match pos with O => false | S i => word i end in
  negb (eqb before (word pos)).

(** The instructions that [add_thread] pushes, the next to be popped first. *)
Definition pushed (i : Inst) (pc pos : nat) (input : list Z) : list nat :=
  match i with
  | Jmp t => [t]
  | Split a b => [a; b]
  | Start multiline =>
      if (pos =? 0)%nat || (multiline && bool_decide (input !! pred pos = Some 10)) then [S pc] else []
  | AtEnd multiline =>
      if (pos =? length input)%nat || (multiline && bool_decide (input !! pos = Some 10))
      then [S pc] else []
  | Boundary want => if eqb (word_boundary input pos) want then [S pc] else []
  | _ => []
  end.

(** [Prog::add_thread]: the loop over the stack. *)
Fixpoint add_loop (fuel : nat) (prog : Prog) (pos : nat) (input : list Z) (stack : list nat)
    (s : SparseSet) : outcome string SparseSet :=
  match fuel with
  | O => NoFuel
  | S fuel =>
      match stack with
      | [] => Ok s
      | pc :: stack =>
          try! seen := contains s pc in
          if (seen : bool) then add_loop fuel prog pos input stack s
          else
            try! s := insert s pc in
            match insts prog !! pc with
            | None => Panic
            | Some i => add_loop fuel prog pos input (pushed i pc pos input ++ stack) s
            end
      end
  end.

(** An instruction is pushed for the start and at most twice for each thread
    that is added. *)
Definition add_thread (prog : Prog) (s : SparseSet) (pc pos : nat) (input : list Z) :
    outcome string SparseSet :=
  add_loop (2 * length (insts prog) + 2) prog pos input [pc] s.

(** What an instruction does with the octet at the position. *)
Definition eats (i : Inst) (byte : option Z) : bool :=
  match i, byte with
  | Byte b, Some c => c =? b
  | Any dotall, Some b => dotall || negb (b =? 10)
  | InClass negated ranges, Some b =>
      negb (eqb (existsb (λ r, (r.1 <=? b) && (b <=? r.2)) ranges) negated)
  | _, _ => false
  end.

(** The loop of [Prog::run] over the threads of one position: whether one
    matched, and the threads of the next position. *)
Fixpoint step_threads (prog : Prog) (input : list Z) (pos : nat) (threads : list nat) (nlist : SparseSet) :
    outcome string (bool * SparseSet) :=
  match threads with
  | [] => Ok (false, nlist)
  | pc :: threads =>
      match insts prog !! pc with
      | None => Panic
      | Some Match => Ok (true, nlist)
      | Some i =>
          try! nlist :=
            (if eats i (input !! pos) then add_thread prog nlist (S pc) (S pos) input else Ok nlist) in
          step_threads prog input pos threads nlist
      end
  end.

(** [struct Scratch]; its stack is cleared by every call of [add_thread]. *)
Record Scratch := mkScratch { clist : SparseSet; nlist : SparseSet }.

Definition Scratch_new : Scratch := mkScratch SparseSet_new SparseSet_new.

(** [Prog::run]: the loop over the positions from [pos] on, [rounds] of them. *)
Fixpoint run_loop (rounds : nat) (prog : Prog) (input : list Z) (pos : nat) (s : Scratch) :
    outcome string (bool * Scratch) :=
  match rounds with
  | O => Ok (false, s)
  | S rounds =>
      try! cl :=
        (if (pos =? 0)%nat || negb (start_anchored prog)
         then add_thread prog (clist s) 0 pos input else Ok (clist s)) in
      try! (matched, nl) := step_threads prog input pos (dense cl) (clear (nlist s)) in
      if (matched : bool) then Ok (true, mkScratch cl nl)
      else run_loop rounds prog input (S pos) (mkScratch nl cl)
  end.

Definition run (prog : Prog) (input : list Z) (s : Scratch) : outcome string (bool * Scratch) :=
  let n := length (insts prog) in
  run_loop (S (length input)) prog input 0 (mkScratch (clear (ensure n (clist s))) (ensure n (nlist s))).

(** [Regex::new]. *)
Definition Regex_new (pattern : list Z) : outcome string Prog := compile_pattern pattern.

(** [RegexSet::new] and [is_match]. *)
Fixpoint parse_all (patterns : list (list Z)) : outcome string (list Ast) :=
  match patterns with
  | [] => Ok []
  | p :: patterns =>
      try! a := parse_pattern p in
      try! l := parse_all patterns in
      Ok (a :: l)
  end.

Definition RegexSet_new (patterns : list (list Z)) : outcome string (option Prog) :=
  try! asts := parse_all patterns in
  match asts with
  | [] => Ok None
  | [a] => try! p := compile_ast a in Ok (Some p)
  | _ => try! p := compile_ast (Alt asts) in Ok (Some p)
  end.

Definition RegexSet_is_match (prog : option Prog) (input : list Z) (s : Scratch) :
    outcome string (bool * Scratch) :=
  match prog with
  | Some p => run p input s
  | None => Ok (false, s)
  end.
