(* ===== verification/RegexSem.v ===== *)
(** * What a filter expression matches, and the code its compiler generates

    [matches input a i j]: the expression [a] matches the octets of [input]
    from [i] up to [j]. [compile] is shown to append exactly [code], the pure
    description of the program of an expression with every jump in place. *)

From S2P Require Import Prelude Regex RegexVm.

#[local] Open Scope outcome_scope.

(** ** The meaning of an expression *)

Definition in_ranges (b : Z) (ranges : list (Z * Z)) : Prop :=
  Exists (λ r, r.1 ≤ b ≤ r.2) ranges.

Definition at_start (input : list Z) (multiline : bool) (i : nat) : Prop :=
  i = 0%nat ∨ (multiline = true ∧ ∃ k, i = S k ∧ input !! k = Some 10).

Definition at_end (input : list Z) (multiline : bool) (i : nat) : Prop :=
  i = length input ∨ (multiline = true ∧ input !! i = Some 10).

(** A word octet just before a position, and just at it. *)
Definition word_at (input : list Z) (i : nat) : Prop := ∃ b, input !! i = Some b ∧ is_word b = true.
Definition word_before (input : list Z) (i : nat) : Prop := ∃ k, i = S k ∧ word_at input k.

(** [n] rounds of a relation. *)
Fixpoint rounds (n : nat) (R : nat → nat → Prop) (i j : nat) : Prop :=
  match n with
  | O => i = j
  | S n => ∃ k, R i k ∧ rounds n R k j
  end.

Section lists.
  Variable m : Ast → nat → nat → Prop.

Fixpoint match_chain (parts : list Ast) (i j : nat) : Prop :=
    match parts with
    | [] => i = j
    | p :: parts => ∃ k, m p i k ∧ match_chain parts k j
    end.

Fixpoint match_some (branches : list Ast) (i j : nat) : Prop :=
    match branches with
    | [] => False
    | b :: branches => m b i j ∨ match_some branches i j
    end.
End lists.

Fixpoint matches (input : list Z) (a : Ast) (i j : nat) : Prop :=
  match a with
  | Empty => i = j
  | Literal b => input !! i = Some b ∧ j = S i
  | AnyChar dotall => ∃ b, input !! i = Some b ∧ (dotall = true ∨ b ≠ 10) ∧ j = S i
  | Class_ negated ranges =>
      ∃ b, input !! i = Some b ∧ (in_ranges b ranges ↔ negated = false) ∧ j = S i
  | Concat parts => match_chain (matches input) parts i j
  | Alt branches => match_some (matches input) branches i j
  | Repeat node min max =>
      ∃ n, min ≤ Z.of_nat n ∧ (∀ m, max = Some m → Z.of_nat n ≤ m) ∧ rounds n (matches input node) i j
  | StartAnchor multiline => at_start input multiline i ∧ i = j
  | EndAnchor multiline => at_end input multiline i ∧ i = j
  | WordBoundary want => (¬ (word_before input i ↔ word_at input i) ↔ want = true) ∧ i = j
  end.

(** The expressions the parser makes: alternatives are never empty and the
    bounds of a repetition are in order. *)
Definition all_of (P : Ast → Prop) : list Ast → Prop :=
  fix all l := match l with [] => True | a :: l => P a ∧ all l end.

Fixpoint ast_ok (a : Ast) : Prop :=
  match a with
  | Concat parts => all_of ast_ok parts
  | Alt branches => branches ≠ [] ∧ all_of ast_ok branches
  | Repeat node min max => 0 ≤ min ∧ (∀ m, max = Some m → min ≤ m) ∧ ast_ok node
  | _ => True
  end.

Lemma all_of_Forall P l : all_of P l ↔ Forall P l.
Proof. induction l as [|a l IH]; simpl; [by rewrite Forall_nil|by rewrite Forall_cons, IH]. Qed.

(** Induction over expressions with the parts of a list. *)
Definition Ast_ind' (P : Ast → Prop) (H0 : P Empty) (H1 : ∀ b, P (Literal b)) (H2 : ∀ d, P (AnyChar d))
    (H3 : ∀ n r, P (Class_ n r)) (H4 : ∀ l, Forall P l → P (Concat l)) (H5 : ∀ l, Forall P l → P (Alt l))
    (H6 : ∀ a m n, P a → P (Repeat a m n)) (H7 : ∀ m, P (StartAnchor m)) (H8 : ∀ m, P (EndAnchor m))
    (H9 : ∀ w, P (WordBoundary w)) : ∀ a, P a :=
  fix go a :=
    match a with
    | Empty => H0
    | Literal b => H1 b
    | AnyChar d => H2 d
    | Class_ n r => H3 n r
    | Concat l =>
        H4 l ((fix all (l : list Ast) : Forall P l :=
                 match l with [] => Forall_nil_2 P | a :: l => Forall_cons_2 P a l (go a) (all l) end) l)
    | Alt l =>
        H5 l ((fix all (l : list Ast) : Forall P l :=
                 match l with [] => Forall_nil_2 P | a :: l => Forall_cons_2 P a l (go a) (all l) end) l)
    | Repeat a m n => H6 a m n (go a)
    | StartAnchor m => H7 m
    | EndAnchor m => H8 m
    | WordBoundary w => H9 w
    end.

(** ** The code of an expression *)

Section lists_code.
  Variable size : Ast → nat.
  Variable code : Ast → nat → list Inst.

Fixpoint size_concat (l : list Ast) : nat :=
    match l with [] => 0 | a :: l => size a + size_concat l end.

Fixpoint size_alt (l : list Ast) : nat :=
    match l with [] => 0 | [a] => size a | a :: l => size a + 2 + size_alt l end.

Fixpoint code_concat (parts : list Ast) (base : nat) : list Inst :=
    match parts with
    | [] => []
    | p :: parts => code p base ++ code_concat parts (base + size p)
    end.

Fixpoint code_alt (endd : nat) (branches : list Ast) (base : nat) : list Inst :=
    match branches with
    | [] => []
    | [b] => code b base
    | b :: branches =>
        Split (S base) (S base + size b + 1) :: code b (S base)
        ++ Jmp endd :: code_alt endd branches (S base + size b + 1)
    end.
End lists_code.

Section repeats.
  Variable sz : nat.
  Variable node : nat → list Inst.

Fixpoint code_copies (n base : nat) : list Inst :=
    match n with
    | O => []
    | S n => node base ++ code_copies n (base + sz)
    end.

Fixpoint code_optionals (n endd base : nat) : list Inst :=
    match n with
    | O => []
    | S n => Split (S base) endd :: node (S base) ++ code_optionals n endd (S base + sz)
    end.

Definition code_star (base : nat) : list Inst :=
  Split (S base) (S base + sz + 1) :: node (S base) ++ [Jmp base].
End repeats.

(** The number of instructions of an expression. *)
Definition optional_count (min max : Z) : nat := Z.to_nat (saturating_sub max min).

Fixpoint size (a : Ast) : nat :=
  match a with
  | Empty => 0
  | Concat parts => size_concat size parts
  | Alt branches => size_alt size branches
  | Repeat node min max =>
      Z.to_nat min * size node
      + match max with
        | None => size node + 2
        | Some m => optional_count min m * (size node + 1)
        end
  | _ => 1
  end%nat.

(** The program of an expression whose first instruction is at [base]. *)
Fixpoint code (a : Ast) (base : nat) : list Inst :=
  match a with
  | Empty => []
  | Literal b => [Byte b]
  | AnyChar dotall => [Any dotall]
  | Class_ negated ranges => [InClass negated ranges]
  | StartAnchor multiline => [Start multiline]
  | EndAnchor multiline => [AtEnd multiline]
  | WordBoundary w => [Boundary w]
  | Concat parts => code_concat size code parts base
  | Alt branches => code_alt size code (base + size_alt size branches) branches base
  | Repeat node min max =>
      let base' := (base + Z.to_nat min * size node)%nat in
      code_copies (size node) (code node) (Z.to_nat min) base
      ++ match max with
         | None => code_star (size node) (code node) base'
         | Some m =>
             let n := optional_count min m in
             code_optionals (size node) (code node) n (base' + n * (size node + 1)) base'
         end
  end.

Lemma size_copies sz node n base : (∀ b, length (node b) = sz) → length (code_copies sz node n base) = (n * sz)%nat.
Proof. intros H. revert base. induction n; intros base; simpl; [done|]. rewrite length_app, H, IHn. lia. Qed.

Lemma size_optionals sz node n e base :
  (∀ b, length (node b) = sz) → length (code_optionals sz node n e base) = (n * (sz + 1))%nat.
Proof. intros H. revert base. induction n; intros base; simpl; [done|]. rewrite length_app, H, IHn. lia. Qed.

Lemma size_star sz node base : (∀ b, length (node b) = sz) → length (code_star sz node base) = (sz + 2)%nat.
Proof. intros H. unfold code_star. simpl. rewrite length_app, H. simpl. lia. Qed.

Lemma size_concat_ok l base :
  Forall (λ a, ∀ b, length (code a b) = size a) l → length (code_concat size code l base) = size_concat size l.
Proof. intros H. revert base. induction H as [|a l Ha _ IH]; intros base; simpl; [done|]. by rewrite length_app, Ha, IH. Qed.

Lemma size_alt_cons f a l : l ≠ [] → size_alt f (a :: l) = (f a + 2 + size_alt f l)%nat.
Proof. by destruct l. Qed.

Lemma code_alt_cons f g e a l base :
  l ≠ [] → code_alt f g e (a :: l) base
  = Split (S base) (S base + f a + 1) :: g a (S base) ++ Jmp e :: code_alt f g e l (S base + f a + 1).
Proof. by destruct l. Qed.

Lemma compile_alt_cons f a l jmps c :
  l ≠ [] → compile_alt f (a :: l) jmps c
  = try! (split, c) := emit (Split 0 0) c in
    let l1 := length c in
    try! c := f a c in
    try! (j, c) := emit (Jmp 0) c in
    compile_alt f l (jmps ++ [j]) (<[split := Split l1 (length c)]> c).
Proof. by destruct l. Qed.

Lemma size_alt_ok e l base :
  Forall (λ a, ∀ b, length (code a b) = size a) l → length (code_alt size code e l base) = size_alt size l.
Proof.
  intros H. revert base. induction H as [|a l Ha Hl IH]; intros base; [done|].
  destruct (decide (l = [])) as [->|Hn]; [apply Ha|].
  rewrite code_alt_cons, size_alt_cons by done. simpl. rewrite length_app, Ha. simpl. rewrite IH. lia.
Qed.

Lemma length_code a base : length (code a base) = size a.
Proof.
  revert base. induction a as [| | | |l IH|l IH|a mn mx IH| | |] using Ast_ind'; intros base; try done; simpl.
  - by apply size_concat_ok.
  - by apply size_alt_ok.
  - rewrite length_app, size_copies by done. destruct mx.
    + by rewrite size_optionals.
    + by rewrite size_star.
Qed.

(** ** The compiler generates the code *)

Definition too_big : string := "정규식이 너무 큼".

(** The program after [n] more instructions, [g] at its end, when they fit. *)
Definition emitted (n : nat) (g : nat → list Inst) (c : list Inst) : outcome string (list Inst) :=
  if zlen c + Z.of_nat n <=? MAX_INSTS then Ok (c ++ g (length c)) else Err too_big.

Definition generates (f : list Inst → outcome string (list Inst)) (n : nat) (g : nat → list Inst) : Prop :=
  (∀ b, length (g b) = n) ∧ ∀ c, zlen c ≤ MAX_INSTS → f c = emitted n g c.

Lemma obind_assoc {E A B C} (o : outcome E A) (f : A → outcome E B) (g : B → outcome E C) :
  obind (obind o f) g = obind o (λ a, obind (f a) g).
Proof. by destruct o. Qed.

Ltac fit := repeat match goal with |- context[?a <=? ?b] => destruct (Z.leb_spec a b) end; done || lia.

(** A generator followed by another computation. *)
Lemma generates_bind {B} f n g c (k : list Inst → outcome string B) (T : bool) (r : outcome string B) :
  generates f n g → zlen c ≤ MAX_INSTS → (T = true → zlen c + Z.of_nat n ≤ MAX_INSTS) →
  (zlen c + Z.of_nat n ≤ MAX_INSTS → k (c ++ g (length c)) = if T then r else Err too_big) →
  obind (f c) k = if T then r else Err too_big.
Proof.
  intros [_ Hf] Hc Hm Hk. rewrite Hf by done. unfold emitted. destruct (Z.leb_spec (zlen c + Z.of_nat n) MAX_INSTS).
  - by apply Hk.
  - destruct T; [lia|done].
Qed.

Lemma emit_bind {B} i c (k : nat * list Inst → outcome string B) (T : bool) (r : outcome string B) :
  (T = true → zlen c + 1 ≤ MAX_INSTS) →
  (zlen c + 1 ≤ MAX_INSTS → k (length c, c ++ [i]) = if T then r else Err too_big) →
  obind (emit i c) k = if T then r else Err too_big.
Proof.
  intros Hm Hk. unfold emit. destruct (Z.leb_spec MAX_INSTS (zlen c)); simpl.
  - destruct T; [lia|done].
  - apply Hk. lia.
Qed.

Lemma generates_one i : generates (emit_one i) 1 (λ _, [i]).
Proof.
  split; [done|]. intros c Hc. unfold emit_one, emitted. apply emit_bind; [intros; bool_prop; lia|]. intros H.
  destruct (Z.leb_spec (zlen c + Z.of_nat 1) MAX_INSTS); [done|lia].
Qed.

Lemma generates_copies f n g k : generates f n g → generates (copies k f) (k * n) (code_copies n g k).
Proof.
  intros Hf. split; [intros b; apply size_copies, Hf|]. induction k as [|k IH]; intros c Hc; simpl.
  { unfold emitted. destruct (Z.leb_spec (zlen c + Z.of_nat 0) MAX_INSTS); [by rewrite app_nil_r|lia]. }
  eapply generates_bind; [done|done|intros; bool_prop; lia|]. intros Hn. unfold zlen in *.
  rewrite IH; unfold emitted, zlen; rewrite length_app, (proj1 Hf); [|lia].
  rewrite <- app_assoc. by fit.
Qed.

Lemma generates_concat l :
  Forall (λ a, generates (compile a) (size a) (code a)) l →
  generates (compile_concat compile l) (size_concat size l) (code_concat size code l).
Proof.
  intros Hl. split.
  { intros b. apply size_concat_ok. eapply Forall_impl; [exact Hl|]. intros a H. apply H. }
  induction Hl as [|a l Ha Hl IH]; intros c Hc; simpl.
  { unfold emitted. destruct (Z.leb_spec (zlen c + Z.of_nat 0) MAX_INSTS); [by rewrite app_nil_r|lia]. }
  eapply generates_bind; [done|done|intros; bool_prop; lia|]. intros Hn. unfold zlen in *.
  rewrite IH; unfold emitted, zlen; rewrite length_app, (proj1 Ha); [|lia].
  rewrite <- app_assoc. by fit.
Qed.

(** *** Alternatives: the jumps to the end *)

Lemma insert_same_swap {A} (c : list A) x i j : <[i := x]> (<[j := x]> c) = <[j := x]> (<[i := x]> c).
Proof. destruct (decide (i = j)) as [->|Hn]; [done|]. by rewrite list_insert_insert_ne. Qed.

Lemma patch_jmps_snoc e js j c : patch_jmps e (js ++ [j]) c = patch_jmps e js (<[j := Jmp e]> c).
Proof. revert c. induction js as [|i js IH]; intros c; simpl; [done|]. by rewrite IH, insert_same_swap. Qed.

Lemma insert_at_length {A} (c k : list A) x y n : n = length c → <[n := x]> (c ++ y :: k) = c ++ x :: k.
Proof. intros ->. rewrite insert_app_r_alt by lia. by rewrite Nat.sub_diag. Qed.

Lemma alt_ok l : 
  Forall (λ a, generates (compile a) (size a) (code a)) l → ∀ jmps c, zlen c ≤ MAX_INSTS →
  compile_alt compile l jmps c
  = if zlen c + Z.of_nat (size_alt size l) <=? MAX_INSTS
    then (let e := length c + size_alt size l in Ok (patch_jmps e jmps (c ++ code_alt size code e l (length c))))%nat
    else Err too_big.
Proof.
  induction 1 as [|a l Ha Hl IH]; intros jmps c Hc.
  { simpl. rewrite Nat.add_0_r, app_nil_r. fit. }
  destruct (decide (l = [])) as [->|Hn].
  { simpl. eapply generates_bind; [done|done|intros; bool_prop; lia|]. intros Hs. rewrite length_app, (proj1 Ha). fit. }
  cbn zeta. rewrite compile_alt_cons, size_alt_cons, code_alt_cons by done. cbn zeta.
  set (e := (length c + (size a + 2 + size_alt size l))%nat).
  apply emit_bind; [intros; bool_prop; lia|]. intros H1.
  assert (Hs : ∀ b, zlen (code a b) = Z.of_nat (size a)) by (intros; unfold zlen; by rewrite (proj1 Ha)).
  eapply generates_bind; [done|autorewrite with zlen; lia| |]; autorewrite with zlen.
  { intros; bool_prop; lia. }
  rewrite last_length. intros H2. rewrite <- app_assoc. cbn [app].
  apply emit_bind; autorewrite with zlen; rewrite Hs; [intros; bool_prop; lia|].
  intros H3. rewrite <- app_assoc. cbn [app]. rewrite insert_at_length by done.
  assert (Hz : length (c ++ Split 0 0 :: code a (S (length c)) ++ [Jmp 0]) = (S (length c) + size a + 1)%nat).
  { rewrite length_app. simpl. rewrite length_app, (proj1 Ha). simpl. lia. }
  assert (Hj : length (c ++ Split 0 0 :: code a (S (length c))) = (S (length c) + size a)%nat).
  { rewrite length_app. simpl. rewrite (proj1 Ha). lia. }
  rewrite Hz, Hj.
  assert (Hq : ∀ i j, length (c ++ i :: code a (S (length c)) ++ [j]) = (S (length c) + size a + 1)%nat).
  { intros. rewrite length_app. simpl. rewrite length_app, (proj1 Ha). simpl. lia. }
  rewrite IH; unfold zlen; rewrite Hq; [|unfold zlen in *; lia].
  cbn zeta.
  replace (S (length c) + size a + 1 + size_alt size l)%nat with e by (unfold e; lia).
  rewrite patch_jmps_snoc, <- !app_assoc. cbn [app]. rewrite <- !app_assoc. cbn [app].
  rewrite app_comm_cons, app_assoc, insert_at_length by (rewrite <- Hj, !length_app; done).
  rewrite <- app_assoc. cbn [app]. unfold zlen in *.
  fit.
Qed.

(** *** Repetitions: the splits to the end *)

Definition patch_split (e s : nat) (c : list Inst) : list Inst :=
  match c !! s with Some (Split a _) => <[s := Split a e]> c | _ => c end.

Lemma patch_split_lookup e s c i :
  patch_split e s c !! i
  = if decide (i = s) then (match c !! i with Some (Split a _) => Some (Split a e) | o => o end) else c !! i.
Proof.
  unfold patch_split. destruct (decide (i = s)) as [->|Hn].
  - destruct (c !! s) as [[]|] eqn:E; try done. apply list_lookup_insert_eq. by eapply lookup_lt_Some.
  - destruct (c !! s) as [[]|]; try done. by apply list_lookup_insert_ne.
Qed.

Lemma patch_split_swap e s t c : patch_split e s (patch_split e t c) = patch_split e t (patch_split e s c).
Proof.
  apply list_eq. intros i. rewrite !patch_split_lookup. destruct (decide (i = s)), (decide (i = t)); done.
Qed.

Lemma patch_splits_snoc e ss s c : patch_splits e (ss ++ [s]) c = patch_splits e ss (patch_split e s c).
Proof.
  revert c. induction ss as [|t ss IH]; intros c; [done|].
  change (patch_splits e ((t :: ss) ++ [s]) c) with (patch_splits e (ss ++ [s]) (patch_split e t c)).
  by rewrite IH, patch_split_swap.
Qed.

Lemma patch_split_at e c a b k s : s = length c → patch_split e s (c ++ Split a b :: k) = c ++ Split a e :: k.
Proof.
  intros ->. unfold patch_split. rewrite list_lookup_middle by done. by apply insert_at_length.
Qed.

Lemma optionals_ok n f sz g (Hf : generates f sz g) splits c :
  zlen c ≤ MAX_INSTS →
  (try! (splits, c) := optionals n f splits c in Ok (patch_splits (length c) splits c))
  = if zlen c + Z.of_nat (n * (sz + 1)) <=? MAX_INSTS
    then Ok (patch_splits (length c + n * (sz + 1)) splits
               (c ++ code_optionals sz g n (length c + n * (sz + 1)) (length c)))
    else Err too_big.
Proof.
  revert splits c. induction n as [|n IH]; intros splits c Hc.
  { simpl. rewrite Nat.add_0_r, app_nil_r. fit. }
  simpl optionals. rewrite obind_assoc. apply emit_bind; [intros; bool_prop; lia|]. intros H1. cbn zeta.
  rewrite insert_at_length, last_length, obind_assoc by done.
  assert (Hs : ∀ b, zlen (g b) = Z.of_nat sz) by (intros; unfold zlen; by rewrite (proj1 Hf)).
  eapply generates_bind; [done|autorewrite with zlen; lia| |]; autorewrite with zlen.
  { intros; bool_prop; lia. }
  rewrite last_length. intros H2. rewrite <- app_assoc. cbn [app].
  assert (Hl : ∀ i, length (c ++ i :: g (S (length c))) = (S (length c) + sz)%nat).
  { intros. rewrite length_app. simpl. rewrite (proj1 Hf). lia. }
  rewrite IH by (unfold zlen in *; rewrite Hl; lia). unfold zlen. rewrite Hl.
  replace (S (length c) + sz + n * (sz + 1))%nat with (length c + S n * (sz + 1))%nat by lia.
  set (e := (length c + S n * (sz + 1))%nat).
  rewrite patch_splits_snoc, <- app_assoc. cbn [app code_optionals]. rewrite patch_split_at by done.
  replace (Z.of_nat (S (length c) + sz) + Z.of_nat (n * (sz + 1))) with (Z.of_nat (length c) + Z.of_nat (S n * (sz + 1))) by lia.
  done.
Qed.

Lemma star_ok f sz g (Hf : generates f sz g) c :
  zlen c ≤ MAX_INSTS →
  (try! (l1, c) := emit (Split 0 0) c in
   let body := length c in
   try! c := f c in
   try! (_, c) := emit (Jmp l1) c in
   Ok (<[l1 := Split body (length c)]> c)) = emitted (sz + 2) (code_star sz g) c.
Proof.
  intros Hc. unfold emitted. apply emit_bind; [intros; bool_prop; lia|]. intros H1. cbn zeta.
  rewrite last_length.
  assert (Hs : ∀ b, zlen (g b) = Z.of_nat sz) by (intros; unfold zlen; by rewrite (proj1 Hf)).
  eapply generates_bind; [done|autorewrite with zlen; lia| |]; autorewrite with zlen.
  { intros; bool_prop; lia. }
  rewrite last_length. intros H2. rewrite <- app_assoc. cbn [app].
  apply emit_bind; autorewrite with zlen; rewrite Hs; [intros; bool_prop; lia|].
  intros H3. rewrite <- app_assoc. cbn [app]. rewrite insert_at_length by done. unfold code_star.
  assert (Hz : length (c ++ Split 0 0 :: g (S (length c)) ++ [Jmp (length c)]) = (S (length c) + sz + 1)%nat).
  { rewrite length_app. simpl. rewrite length_app, (proj1 Hf). simpl. lia. }
  rewrite Hz. fit.
Qed.

Lemma repeat_ok f sz g min max (Hf : generates f sz g) c :
  zlen c ≤ MAX_INSTS →
  compile_repeat f min max c
  = emitted (Z.to_nat min * sz
             + match max with None => sz + 2 | Some m => optional_count min m * (sz + 1) end)
      (λ base, code_copies sz g (Z.to_nat min) base
               ++ let base' := (base + Z.to_nat min * sz)%nat in
                  match max with
                  | None => code_star sz g base'
                  | Some m => let n := optional_count min m in
                              code_optionals sz g n (base' + n * (sz + 1)) base'
                  end) c.
Proof.
  intros Hc. unfold compile_repeat, emitted.
  pose proof (generates_copies f sz g (Z.to_nat min) Hf) as Hk.
  eapply generates_bind; [exact Hk|done|intros; bool_prop; lia|]. intros H1.
  set (c' := c ++ _).
  assert (Hc' : length c' = (length c + Z.to_nat min * sz)%nat)
    by (unfold c'; rewrite length_app; by rewrite (proj1 Hk)).
  assert (zlen c' ≤ MAX_INSTS) by (unfold zlen in *; lia).
  destruct max as [m|].
  - etransitivity; [by apply (optionals_ok _ f sz g Hf)|]. fold (optional_count min m).
    unfold zlen in *. rewrite Hc'. unfold c'. rewrite <- app_assoc. fit.
  - etransitivity; [by apply (star_ok f sz g Hf)|]. unfold emitted.
    unfold zlen in *. rewrite Hc'. unfold c'. rewrite <- app_assoc. fit.
Qed.

(** The compiler appends exactly the code of the expression when it fits, and
    refuses otherwise. *)
Lemma compile_generates a : generates (compile a) (size a) (code a).
Proof.
  induction a as [| | | |l IH|l IH|a mn mx IH| | |] using Ast_ind'; try apply generates_one.
  - split; [done|]. intros c Hc. unfold emitted. simpl. rewrite app_nil_r. fit.
  - by apply generates_concat.
  - split; [intros; apply length_code|]. intros c Hc. simpl. rewrite alt_ok by done. done.
  - split; [intros; apply length_code|]. intros c Hc. simpl. by rewrite (repeat_ok _ _ _ _ _ IH).
Qed.
