(* ===== verification/RegexStep.v ===== *)
(** * The compiled program runs the expression

    The steps of one thread of the machine, and the correctness of the code:
    a thread goes from the start of the code of an expression to its end
    exactly over what the expression matches.

    The invariants of the sparse sets over reused scratch space, the closure
    that [add_thread] computes, and the run: it always answers, and it answers
    whether some thread of the program reaches its end. *)

From S2P Require Import Prelude Regex RegexVm RegexSem.

Section steps.
  Context (P : list Inst) (input : list Z).

  (** A thread is an instruction and a position. *)
Inductive vm_step : nat * nat → nat * nat → Prop :=
  | step_eps pc pos i t : P !! pc = Some i → t ∈ pushed i pc pos input → vm_step (pc, pos) (t, pos)
  | step_eat pc pos i : P !! pc = Some i → eats i (input !! pos) = true → vm_step (pc, pos) (S pc, S pos).

Lemma step_inv pc pos i s :
    P !! pc = Some i → vm_step (pc, pos) s →
    (∃ t, t ∈ pushed i pc pos input ∧ s = (t, pos)) ∨ (eats i (input !! pos) = true ∧ s = (S pc, S pos)).
Proof. intros Hi Hs. inversion Hs; simplify_eq; eauto. Qed.

Definition code_at (b : nat) (l : list Inst) : Prop := ∀ k x, l !! k = Some x → P !! (b + k)%nat = Some x.

Lemma code_at_app b l k : code_at b (l ++ k) → code_at b l ∧ code_at (b + length l) k.
Proof.
    intros H. split; intros n x Hx.
    - apply H. by apply lookup_app_l_Some.
    - rewrite <- Nat.add_assoc. apply H. rewrite lookup_app_r by lia. by rewrite Nat.add_comm, Nat.add_sub.
Qed.

Lemma code_at_cons b x l : code_at b (x :: l) → P !! b = Some x ∧ code_at (S b) l.
Proof.
    intros H. split; [rewrite <- (Nat.add_0_r b); by apply H|].
    intros n y Hy. rewrite Nat.add_succ_comm. by apply H.
Qed.

  (** A path from the start of a segment of the program to outside of it
      passes its end, over what [R] relates; and there is such a path. *)
Definition exits (b sz : nat) (R : nat → nat → Prop) : Prop :=
  ∀ n i m j, nsteps vm_step n (b, i) (m, j) → (m < b ∨ b + sz ≤ m)%nat →
  ∃ k n', (n' ≤ n)%nat ∧ R i k ∧ nsteps vm_step n' ((b + sz)%nat, k) (m, j).
Definition enters (b sz : nat) (R : nat → nat → Prop) : Prop :=
  ∀ i k, R i k → rtc vm_step (b, i) ((b + sz)%nat, k).
Definition segment (b sz : nat) (R : nat → nat → Prop) : Prop := exits b sz R ∧ enters b sz R.

Lemma segment_iff b sz R R' : segment b sz R → (∀ i k, R i k ↔ R' i k) → segment b sz R'.
Proof.
    intros [He Hn] HR. split.
    - intros n i m j H Hm. destruct (He n i m j H Hm) as (k & n' & ? & ? & ?). exists k, n'. by rewrite <- HR.
    - intros i k Hk. by apply Hn, HR.
Qed.

Lemma segment_empty b : segment b 0 eq.
Proof.
    split.
    - intros n i m j H _. exists i, n. by rewrite Nat.add_0_r.
    - intros i k ->. rewrite Nat.add_0_r. constructor.
Qed.

  (** The first vm_step of a path that leaves an instruction. *)
Lemma leaves n pc i m j : nsteps vm_step n (pc, i) (m, j) → m ≠ pc →
    ∃ n' s, n = S n' ∧ vm_step (pc, i) s ∧ nsteps vm_step n' s (m, j).
Proof. inversion 1; intros ?; simplify_eq. eauto. Qed.

Lemma segment_one b (R : nat → nat → Prop) :
    (∀ i s, vm_step (b, i) s ↔ ∃ j, s = (S b, j) ∧ R i j) → segment b 1 R.
Proof.
    intros HR. split.
    - intros n i m j H Hm. destruct (leaves _ _ _ _ _ H) as (n' & s & -> & Hs & H'); [lia|].
      apply HR in Hs as (k & -> & Hk). exists k, n'. split_and!; [lia|done|]. by rewrite Nat.add_1_r.
    - intros i k Hk. rewrite Nat.add_1_r. apply rtc_once, HR. eauto.
Qed.

Lemma segment_seq b n m R1 R2 :
    segment b n R1 → segment (b + n) m R2 → segment b (n + m) (λ i j, ∃ k, R1 i k ∧ R2 k j).
Proof.
    intros [E1 N1] [E2 N2]. split.
    - intros c i t j H Ht. destruct (E1 _ _ _ _ H) as (k & c1 & HleH1 & HRH1 & H1); [lia|].
      destruct (E2 _ _ _ _ H1) as (k2 & c2 & HleH2 & HRH2 & H2); [lia|]. exists k2, c2.
      rewrite Nat.add_assoc. split_and!; [lia|eauto|done].
    - intros i j (k & H1 & H2). rewrite Nat.add_assoc. etrans; [by apply N1|by apply N2].
Qed.

Lemma step_split b l1 l2 i s : P !! b = Some (Split l1 l2) → vm_step (b, i) s ↔ s = (l1, i) ∨ s = (l2, i).
Proof.
    intros Hb. split.
    - intros Hs. destruct (step_inv _ _ _ _ Hb Hs) as [(t & Ht & ->)|[? _]]; [|done].
      simpl in Ht. set_solver.
    - intros [->| ->]; (econstructor; [done|]; simpl; set_solver).
Qed.

Lemma step_jmp b t i s : P !! b = Some (Jmp t) → vm_step (b, i) s ↔ s = (t, i).
Proof.
    intros Hb. split.
    - intros Hs. destruct (step_inv _ _ _ _ Hb Hs) as [(t' & Ht & ->)|[? _]]; [|done].
      simpl in Ht. set_solver.
    - intros ->; (econstructor; [done|]; simpl; set_solver).
Qed.

Lemma segment_alt b n m e R1 R2 :
    P !! b = Some (Split (S b) (S b + n + 1)) → segment (S b) n R1 →
    P !! (S b + n)%nat = Some (Jmp e) → segment (S b + n + 1) m R2 → e = (S b + n + 1 + m)%nat →
    segment b (n + 2 + m) (λ i j, R1 i j ∨ R2 i j).
Proof.
    intros Hb [E1 N1] Hj [E2 N2] He.
    replace (b + (n + 2 + m))%nat with e in * by lia.
    assert (Heq : (b + (n + 2 + m))%nat = e) by lia. split.
    - intros c i t j H Ht. rewrite Heq in *.
      destruct (leaves _ _ _ _ _ H) as (c' & s & -> & Hs & H'); [lia|].
      apply (step_split _ _ _ _ _ Hb) in Hs as [->| ->].
      + destruct (E1 _ _ _ _ H') as (k & c1 & HleH1 & HRH1 & H1); [lia|].
        destruct (leaves _ _ _ _ _ H1) as (c2 & s & -> & Hs & H2); [lia|].
        apply (step_jmp _ _ _ _ Hj) in Hs as ->. exists k, c2. split_and!; [lia|by left|done].
      + destruct (E2 _ _ _ _ H') as (k & c1 & HleH1 & HRH1 & H1); [lia|].
        exists k, c1. rewrite <- He in H1. split_and!; [lia|by right|done].
    - intros i k Hk. rewrite Heq. destruct Hk as [Hk|Hk].
      + eapply rtc_l; [apply (step_split _ _ _ _ _ Hb); by left|].
        etrans; [by apply N1|]. by apply rtc_once, (step_jmp _ _ _ _ Hj).
      + eapply rtc_l; [apply (step_split _ _ _ _ _ Hb); by right|].
        rewrite He. by apply N2.
Qed.

Lemma segment_copies sz g (R : nat → nat → Prop) n b :
    (∀ b, length (g b) = sz) → (∀ b, code_at b (g b) → segment b sz R) →
    code_at b (code_copies sz g n b) → segment b (n * sz) (rounds n R).
Proof.
    intros Hl Hg. revert b. induction n as [|n IH]; intros b Hb; simpl.
    - apply segment_empty.
    - apply code_at_app in Hb as [H1 H2]. rewrite Hl in H2. by apply segment_seq; [apply Hg|apply IH].
Qed.

Lemma segment_optionals sz g (R : nat → nat → Prop) n e b :
    (∀ b, length (g b) = sz) → (∀ b, code_at b (g b) → segment b sz R) →
    code_at b (code_optionals sz g n e b) → e = (b + n * (sz + 1))%nat →
    segment b (n * (sz + 1)) (λ i j, ∃ k, (k ≤ n)%nat ∧ rounds k R i j).
Proof.
    intros Hl Hg. revert b. induction n as [|n IH]; intros b Hb He; simpl.
    { eapply segment_iff; [apply segment_empty|]. intros i k. split.
      - intros ->. exists 0%nat. by split; [lia|].
      - intros (c & ? & Hc). replace c with 0%nat in Hc by lia. done. }
    simpl in Hb. apply code_at_cons in Hb as [Hb Hc]. apply code_at_app in Hc as [H1 H2]. rewrite Hl in H2.
    destruct (Hg _ H1) as [E1 N1]. destruct (IH _ H2) as [E2 N2]; [lia|].
    assert (Heq : (b + (sz + 1 + n * (sz + 1)))%nat = e) by lia.
    assert (Heq' : (S b + sz + n * (sz + 1))%nat = e) by lia. split.
    - intros c i t j H Ht. rewrite Heq in *.
      destruct (leaves _ _ _ _ _ H) as (c' & s & -> & Hs & H'); [lia|].
      apply (step_split _ _ _ _ _ Hb) in Hs as [->| ->].
      + destruct (E1 _ _ _ _ H') as (k & c1 & HleHk & HRHk & Hk); [lia|].
        destruct (E2 _ _ _ _ Hk) as (k2 & c2 & Hle2 & (r & Hr1 & Hr2) & Hk2); [lia|].
        rewrite Heq' in Hk2. exists k2, c2. split_and!; [lia| |done].
        exists (S r). split; [lia|]. by exists k.
      + exists i, c'. split_and!; [lia| |done]. exists 0%nat. by split; [lia|].
    - intros i k (r & Hr & Hk). rewrite Heq. destruct r as [|r].
      + simpl in Hk. subst k. apply rtc_once, (step_split _ _ _ _ _ Hb). by right.
      + destruct Hk as (l & Hl1 & Hl2). eapply rtc_l; [apply (step_split _ _ _ _ _ Hb); by left|].
        etrans; [by apply N1|]. rewrite <- Heq'. apply N2. exists r. split; [lia|done].
Qed.

Lemma segment_star sz g (R : nat → nat → Prop) b :
    (∀ b, length (g b) = sz) → (∀ b, code_at b (g b) → segment b sz R) →
    code_at b (code_star sz g b) → segment b (sz + 2) (λ i j, ∃ k, rounds k R i j).
Proof.
    intros Hl Hg Hb. unfold code_star in Hb.
    apply code_at_cons in Hb as [Hb Hc]. apply code_at_app in Hc as [H1 H2]. rewrite Hl in H2.
    apply code_at_cons in H2 as [Hj _]. destruct (Hg _ H1) as [E1 N1].
    replace (S b + sz + 1)%nat with (b + (sz + 2))%nat in Hb by lia. split.
    - intros c. induction c as [c IH] using lt_wf_ind. intros i t j H Ht.
      destruct (leaves _ _ _ _ _ H) as (c' & s & -> & Hs & H'); [lia|].
      apply (step_split _ _ _ _ _ Hb) in Hs as [->| ->].
      + destruct (E1 _ _ _ _ H') as (k & c1 & Hle3 & Hk & H3); [lia|].
        destruct (leaves _ _ _ _ _ H3) as (c2 & s & -> & Hs & H4); [lia|].
        apply (step_jmp _ _ _ _ Hj) in Hs as ->.
        destruct (IH c2 ltac:(lia) _ _ _ H4) as (k2 & c3 & Hle5 & [r Hr] & H5); [lia|].
        exists k2, c3. split_and!; [lia| |done]. exists (S r), k. done.
      + exists i, c'. split_and!; [lia| |done]. by exists 0%nat.
    - intros i k [r Hr]. revert i Hr. induction r as [|r IH]; intros i Hr.
      + simpl in Hr. subst k. apply rtc_once, (step_split _ _ _ _ _ Hb). by right.
      + destruct Hr as (l & Hl1 & Hl2). eapply rtc_l; [apply (step_split _ _ _ _ _ Hb); by left|].
        etrans; [by apply N1|]. eapply rtc_l; [by apply (step_jmp _ _ _ _ Hj)|]. by apply IH.
Qed.
End steps.

(** ** The parts of a program *)

Lemma rounds_add n m R i j : rounds (n + m) R i j ↔ ∃ k, rounds n R i k ∧ rounds m R k j.
Proof.
  revert i. induction n as [|n IH]; intros i; simpl; [naive_solver|].
  setoid_rewrite IH. naive_solver.
Qed.

Lemma at_start_ok input m i :
  ((i =? 0)%nat || (m && bool_decide (input !! pred i = Some 10))) = true ↔ at_start input m i.
Proof.
  unfold at_start. rewrite orb_true_iff, andb_true_iff, bool_decide_eq_true, Nat.eqb_eq.
  destruct i as [|i]; simpl; [by naive_solver|]. split; [|by naive_solver].
  intros [?|[-> ?]]; [done|]. eauto.
Qed.

Lemma at_end_ok input m i :
  ((i =? length input)%nat || (m && bool_decide (input !! i = Some 10))) = true ↔ at_end input m i.
Proof. unfold at_end. by rewrite orb_true_iff, andb_true_iff, bool_decide_eq_true, Nat.eqb_eq. Qed.

Lemma boundary_ok input i w :
  eqb (word_boundary input i) w = true ↔ (¬ (word_before input i ↔ word_at input i) ↔ w = true).
Proof.
  set (word := λ i, match input !! i with Some b => is_word b | None => false end).
  assert (Hw : ∀ i, word_at input i ↔ word i = true).
  { intros k. unfold word_at, word. destruct (input !! k); naive_solver. }
  assert (Hb : word_before input i ↔ match i with O => false | S i => word i end = true).
  { unfold word_before. setoid_rewrite Hw. destruct i; naive_solver. }
  rewrite Hb, Hw. rewrite eqb_true_iff.
  change (word_boundary input i) with (negb (eqb (match i with O => false | S i => word i end) (word i))).
  destruct (match i with O => false | S i => word i end), (word i), w; simpl; naive_solver.
Qed.

Lemma in_ranges_ok ranges b :
  existsb (λ r, (r.1 <=? b) && (b <=? r.2)) ranges = true ↔ in_ranges b ranges.
Proof.
  unfold in_ranges. rewrite existsb_exists, Exists_exists. split; intros (r & Hr & H); exists r.
  - split; [by apply list_elem_of_In|]. bool_prop. lia.
  - split; [by apply list_elem_of_In|]. apply andb_true_iff. split; lia.
Qed.

Section program.
  Context (P : list Inst) (input : list Z).
  #[local] Notation vm_step := (vm_step P input).
  #[local] Notation segment := (segment P input).

Lemma segment_test b i (R : nat → Prop) (c : nat → bool) :
    P !! b = Some i → (∀ k, c k = true ↔ R k) →
    (∀ k, pushed i b k input = if c k then [S b] else []) → (∀ o, eats i o = false) →
    segment b 1 (λ i j, R i ∧ i = j).
Proof.
    intros Hb Hc Hp He. apply segment_one. intros k s. split.
    - intros Hs. destruct (step_inv _ _ _ _ _ _ Hb Hs) as [(t & Ht & ->)|[Hx _]]; [|by rewrite He in Hx].
      rewrite Hp in Ht. destruct (c k) eqn:E; [|set_solver].
      apply list_elem_of_singleton in Ht as ->. exists k. by rewrite <- Hc.
    - intros (j & -> & HR & <-). eapply step_eps; [done|]. rewrite Hp. apply Hc in HR as ->. set_solver.
Qed.

Lemma segment_eat b i (R : Z → Prop) :
    P !! b = Some i → (∀ k, pushed i b k input = []) → (∀ o, eats i o = true ↔ ∃ x, o = Some x ∧ R x) →
    segment b 1 (λ i j, ∃ x, input !! i = Some x ∧ R x ∧ j = S i).
Proof.
    intros Hb Hp He. apply segment_one. intros k s. split.
    - intros Hs. destruct (step_inv _ _ _ _ _ _ Hb Hs) as [(t & Ht & ->)|[Hx ->]].
      + rewrite Hp in Ht. set_solver.
      + apply He in Hx as (x & Hx & HR). eauto 10.
    - intros (j & -> & x & Hx & HR & ->). eapply step_eat; [done|]. apply He. eauto.
Qed.

Lemma segment_concat l b :
    Forall (λ a, ∀ b, code_at P b (code a b) → segment b (size a) (matches input a)) l →
    code_at P b (code_concat size code l b) → segment b (size_concat size l) (match_chain (matches input) l).
Proof.
    intros Hl. revert b. induction Hl as [|a l Ha Hl IH]; intros b Hb; simpl; [apply segment_empty|].
    apply code_at_app in Hb as [H1 H2]. rewrite length_code in H2. by apply segment_seq; [apply Ha|apply IH].
Qed.

Lemma segment_alts l e b :
    Forall (λ a, ∀ b, code_at P b (code a b) → segment b (size a) (matches input a)) l → l ≠ [] →
    code_at P b (code_alt size code e l b) → e = (b + size_alt size l)%nat →
    segment b (size_alt size l) (match_some (matches input) l).
Proof.
    intros Hl. revert b. induction Hl as [|a l Ha Hl IH]; intros b Hn Hb He; [done|].
    destruct (decide (l = [])) as [->|Hn'].
    { eapply segment_iff; [by apply Ha|]. simpl. naive_solver. }
    rewrite code_alt_cons in Hb by done. rewrite size_alt_cons in * by done.
    apply code_at_cons in Hb as [Hb Hc]. apply code_at_app in Hc as [H1 H2]. rewrite length_code in H2.
    apply code_at_cons in H2 as [Hj H2]. simpl match_some.
    eapply segment_alt; [done|by apply Ha|done| |]; [|lia].
    apply IH; [done| |lia]. by rewrite <- (Nat.add_1_r (S b + size a)) in H2.
Qed.

Lemma segment_compile a : ast_ok a → ∀ b, code_at P b (code a b) → segment b (size a) (matches input a).
Proof.
    induction a as [|x|d|neg r|l IH|l IH|a mn mx IH|m|m|w] using Ast_ind'; intros Hok b Hb; simpl in *.
    - apply segment_empty.
    - apply code_at_cons in Hb as [Hb _]. eapply segment_iff.
      { apply (segment_eat _ _ (λ y, y = x) Hb); [done|]. intros [y|]; simpl; [|naive_solver].
        rewrite Z.eqb_eq. naive_solver. }
      simpl. naive_solver.
    - apply code_at_cons in Hb as [Hb _]. eapply (segment_eat _ _ (λ y, _) Hb); [done|].
      intros [y|]; simpl; [|naive_solver]. rewrite orb_true_iff, negb_true_iff, Z.eqb_neq. naive_solver.
    - apply code_at_cons in Hb as [Hb _]. eapply (segment_eat _ _ (λ y, _) Hb); [done|].
      intros [y|]; simpl; [|naive_solver]. pose proof (in_ranges_ok r y) as H.
      destruct (existsb _ _), neg; simpl; naive_solver.
    - apply segment_concat; [|done]. apply all_of_Forall in Hok.
      rewrite Forall_forall in IH, Hok |- *. auto.
    - destruct Hok as [Hn Hok]. apply (segment_alts l (b + size_alt size l)); [|done..].
      apply all_of_Forall in Hok. rewrite Forall_forall in IH, Hok |- *. auto.
    - destruct Hok as (Hmn & Hmx & Hok). specialize (IH Hok).
      apply code_at_app in Hb as [H1 H2]. rewrite size_copies in H2 by apply length_code.
      pose proof (segment_copies _ _ _ _ _ _ _ (length_code a) IH H1) as S1.
      destruct mx as [m|].
      + specialize (Hmx m eq_refl).
        pose proof (segment_optionals _ _ _ _ _ _ _ _ (length_code a) IH H2 eq_refl) as S2.
        eapply segment_iff; [apply (segment_seq _ _ _ _ _ _ _ S1 S2)|]. intros i j. simpl. split.
        * intros (k & Hk & c & Hc & Hj). exists (Z.to_nat mn + c)%nat.
          unfold optional_count, saturating_sub in Hc. split_and!; [lia|intros ? [= <-]; lia|].
          apply rounds_add. eauto.
        * intros (n & Hn & Hm & HR). specialize (Hm m eq_refl).
          replace n with (Z.to_nat mn + (n - Z.to_nat mn))%nat in HR by lia.
          apply rounds_add in HR as (k & Hk & Hj). exists k. split; [done|]. eexists. split; [|done].
          unfold optional_count, saturating_sub. lia.
      + pose proof (segment_star _ _ _ _ _ _ (length_code a) IH H2) as S2.
        eapply segment_iff; [apply (segment_seq _ _ _ _ _ _ _ S1 S2)|]. intros i j. simpl. split.
        * intros (k & Hk & c & Hj). exists (Z.to_nat mn + c)%nat.
          split_and!; [lia|done|]. apply rounds_add. eauto.
        * intros (n & Hn & _ & HR). replace n with (Z.to_nat mn + (n - Z.to_nat mn))%nat in HR by lia.
          apply rounds_add in HR as (k & Hk & Hj). eauto.
    - apply code_at_cons in Hb as [Hb _]. eapply segment_test; [done|intros; apply at_start_ok|done|done].
    - apply code_at_cons in Hb as [Hb _]. eapply segment_test; [done|intros; apply at_end_ok|done|done].
    - apply code_at_cons in Hb as [Hb _]. eapply segment_test; [done|intros; apply boundary_ok|done|done].
Qed.
End program.

(** ** Where the instructions of a program lead *)

Definition targets (i : Inst) (pc : nat) : list nat :=
  match i with
  | Match => []
  | Jmp t => [t]
  | Split a b => [a; b]
  | _ => [S pc]
  end.

Lemma pushed_targets i pc pos input t : t ∈ pushed i pc pos input → t ∈ targets i pc.
Proof. destruct i; simpl; repeat case_match; set_solver. Qed.

Lemma eats_targets i pc o : eats i o = true → S pc ∈ targets i pc.
Proof. destruct i; simpl; done || set_solver. Qed.

(** Instructions from [b] on that are no [Match] and lead up to [e] at most. *)
Definition leads (b e : nat) (l : list Inst) : Prop :=
  ∀ k x, l !! k = Some x → x ≠ Match ∧ ∀ t, t ∈ targets x (b + k) → (t ≤ e)%nat.

Lemma leads_nil b e : leads b e [].
Proof. intros k x Hx. by rewrite lookup_nil in Hx. Qed.

Lemma leads_cons b e x l :
  x ≠ Match → (∀ t, t ∈ targets x b → (t ≤ e)%nat) → leads (S b) e l → leads b e (x :: l).
Proof.
  intros Hx Ht Hl k y Hy. destruct k as [|k].
  - injection Hy as <-. by rewrite Nat.add_0_r.
  - rewrite Nat.add_succ_r, <- Nat.add_succ_l. by apply Hl.
Qed.

Lemma leads_app b e l k : leads b e l → leads (b + length l) e k → leads b e (l ++ k).
Proof.
  intros Hl Hk n y Hy. apply lookup_app_Some in Hy as [Hy|[? Hy]]; [by apply Hl|].
  replace (b + n)%nat with (b + length l + (n - length l))%nat by lia. by apply Hk.
Qed.

Lemma leads_mono b e e' l : leads b e l → (e ≤ e')%nat → leads b e' l.
Proof. intros Hl He k x Hx. destruct (Hl k x Hx) as [? Ht]. split; [done|]. intros t Hin%Ht. lia. Qed.

Ltac in_targets :=
  let t := fresh in let H := fresh in
  simpl; intros t H; repeat (apply elem_of_cons in H as [->|H]); [lia..|by apply elem_of_nil in H].

Lemma leads_copies sz g n b e :
  (∀ b, length (g b) = sz) → (∀ b, leads b (b + sz) (g b)) → (b + n * sz ≤ e)%nat → leads b e (code_copies sz g n b).
Proof.
  intros Hl Hg. revert b. induction n as [|n IH]; intros b He; simpl; [apply leads_nil|].
  apply leads_app; [eapply leads_mono; [apply Hg|lia]|]. rewrite Hl. apply IH. lia.
Qed.

Lemma leads_optionals sz g n b e :
  (∀ b, length (g b) = sz) → (∀ b, leads b (b + sz) (g b)) → (b + n * (sz + 1) ≤ e)%nat →
  leads b e (code_optionals sz g n e b).
Proof.
  intros Hl Hg. revert b. induction n as [|n IH]; intros b He; simpl; [apply leads_nil|].
  apply leads_cons; [done|in_targets|]. apply leads_app; [eapply leads_mono; [apply Hg|lia]|].
  rewrite Hl. apply IH. lia.
Qed.

Lemma leads_alt e l b :
  Forall (λ a, ∀ b, leads b (b + size a) (code a b)) l → (b + size_alt size l ≤ e)%nat →
  leads b e (code_alt size code e l b).
Proof.
  intros Hl. revert b. induction Hl as [|a l Ha Hl IH]; intros b He; [apply leads_nil|].
  destruct (decide (l = [])) as [->|Hn]; [eapply leads_mono; [apply Ha|simpl in He; lia]|].
  rewrite code_alt_cons, size_alt_cons in * by done.
  apply leads_cons; [done|in_targets|]. apply leads_app; [eapply leads_mono; [apply Ha|lia]|].
  rewrite length_code. apply leads_cons; [done|in_targets|].
  rewrite <- (Nat.add_1_r (S b + size a)). apply IH. lia.
Qed.

Lemma leads_concat e l b :
  Forall (λ a, ∀ b, leads b (b + size a) (code a b)) l → (b + size_concat size l ≤ e)%nat →
  leads b e (code_concat size code l b).
Proof.
  intros Hl. revert b. induction Hl as [|a l Ha Hl IH]; intros b He; simpl in *; [apply leads_nil|].
  apply leads_app; [eapply leads_mono; [apply Ha|lia]|]. rewrite length_code. apply IH. lia.
Qed.

Lemma leads_code a b : leads b (b + size a) (code a b).
Proof.
  revert b. induction a as [|x|d|neg r|l IH|l IH|a mn mx IH|m|m|w] using Ast_ind'; intros b; simpl;
    try (apply leads_cons; [done|in_targets|apply leads_nil]).
  - apply leads_nil.
  - by apply leads_concat.
  - by apply leads_alt.
  - pose proof (length_code a). apply leads_app.
    { apply leads_copies; [done..|lia]. }
    rewrite size_copies by done. destruct mx as [m|].
    + eapply leads_mono; [apply leads_optionals; done|]. lia.
    + unfold code_star. apply leads_cons; [done|in_targets|].
      apply leads_app; [eapply leads_mono; [apply IH|lia]|]. apply leads_cons; [done|in_targets|apply leads_nil].
Qed.

(** ** Whole programs *)

Definition program (a : Ast) : list Inst := code a 0 ++ [Match].

Lemma length_program a : length (program a) = S (size a).
Proof. unfold program. rewrite last_length. by rewrite length_code. Qed.

Lemma program_match a k : program a !! k = Some Match ↔ k = size a.
Proof.
  unfold program. split.
  - intros [H|[H Hm]]%lookup_app_Some; [by apply leads_code in H as [? _]|].
    rewrite length_code in *. apply list_lookup_singleton_Some in Hm as [? _]. lia.
  - intros ->. apply list_lookup_middle. by rewrite length_code.
Qed.

(** Every jump of a program stays in it. *)
Definition prog_ok (P : list Inst) : Prop :=
  (0 < length P)%nat ∧ ∀ pc i t, P !! pc = Some i → t ∈ targets i pc → (t < length P)%nat.

Lemma program_ok a : prog_ok (program a).
Proof.
  split; [rewrite length_program; lia|]. intros pc i t [H|[_ H]]%lookup_app_Some Ht.
  - apply leads_code in H as [_ H]. apply H in Ht. rewrite length_program. lia.
  - apply list_lookup_singleton_Some in H as [_ <-]. by apply elem_of_nil in Ht.
Qed.

(** A thread of the program from [i] reaches its end at [j] exactly when the
    expression matches there. *)
Lemma program_matches input a i j :
  ast_ok a →
  (∃ m, program a !! m = Some Match ∧ rtc (vm_step (program a) input) (0%nat, i) (m, j)) ↔ matches input a i j.
Proof.
  intros Ha. destruct (segment_compile (program a) input a Ha 0) as [He Hn].
  { intros k x Hx. by apply lookup_app_l_Some. }
  simpl in *. split.
  - intros (m & ->%program_match & Hs). apply rtc_nsteps in Hs as [n Hs].
    destruct (He n i (size a) j Hs) as (k & n' & _ & Hk & Hs'); [simpl; lia|]. simpl in Hs'.
    inversion Hs' as [|? ? s ? Hx]; simplify_eq; [done|].
    exfalso. assert (Hm : program a !! size a = Some Match) by by apply program_match.
    destruct (step_inv _ _ _ _ _ _ Hm Hx) as [(t & Ht & _)|[? _]]; [|done]. by apply elem_of_nil in Ht.
  - intros Hm. exists (size a). split; [by apply program_match|]. by apply Hn.
Qed.

Lemma compile_ast_ok a :
  compile_ast a = if Z.of_nat (size a) + 1 <=? MAX_INSTS then Ok (mkProg (program a) (is_start_anchored a))
                  else Err too_big.
Proof.
  unfold compile_ast. eapply generates_bind; [apply compile_generates|unfold zlen, MAX_INSTS; simpl; lia| |].
  { intros; bool_prop; unfold zlen; simpl; lia. }
  unfold zlen at 1. simpl length. intros H1. rewrite app_nil_l. simpl length.
  assert (Hz : zlen (code a 0) = Z.of_nat (size a)) by (unfold zlen; by rewrite length_code).
  apply emit_bind; rewrite Hz; [intros; bool_prop; lia|]. intros H2. fit.
Qed.

(** An expression that is anchored at the start matches nowhere else. *)
Lemma anchored_ok input a i j : is_start_anchored a = true → matches input a i j → i = 0%nat.
Proof.
  revert i j. induction a as [|x|d|neg r|l IH|l IH|a mn mx IH|m|m|w] using Ast_ind'; intros i j Hs Hm; try done.
  - simpl in *. revert i Hm Hs. induction IH as [|a l Ha Hl IHl]; intros i Hm Hs; [done|].
    simpl in Hm. destruct Hm as (k & Hk & Hm). destruct a; try by apply (Ha _ _ Hs Hk).
    simpl in Hk. subst k. by apply (IHl _ Hm).
  - simpl in *. apply andb_true_iff in Hs as [_ Hs]. induction IH as [|a l Ha Hl IHl]; [done|].
    simpl in *. apply andb_true_iff in Hs as [H1 H2]. destruct Hm as [Hm|Hm]; [by eapply Ha|by apply IHl].
  - simpl in *. destruct m; [done|]. destruct Hm as [[?|[? _]] _]; done.
Qed.

Lemma rounds_bound R n i j b : (∀ i j, i ≤ b → R i j → i ≤ j ≤ b)%nat → (i ≤ b)%nat → rounds n R i j → (i ≤ j ≤ b)%nat.
Proof.
  intros HR. revert i. induction n as [|n IH]; intros i Hi; simpl; [intros ->; lia|].
  intros (k & Hk & Hj). apply HR in Hk; [|done]. apply IH in Hj; lia.
Qed.

(** A match ends after its start and within the input. *)
Lemma matches_bound input a i j : (i ≤ length input → matches input a i j → i ≤ j ≤ length input)%nat.
Proof.
  revert i j. induction a as [|x|d|neg r|l IH|l IH|a mn mx IH|m|m|w] using Ast_ind'; intros i j Hi Hm; simpl in Hm.
  - lia.
  - destruct Hm as [H%lookup_lt_Some ->]. lia.
  - destruct Hm as (x & H%lookup_lt_Some & _ & ->). lia.
  - destruct Hm as (x & H%lookup_lt_Some & _ & ->). lia.
  - revert i Hi Hm. induction IH as [|a l Ha Hl IHl]; intros i Hi Hm; simpl in Hm; [lia|].
    destruct Hm as (k & Hk & Hm). apply Ha in Hk; [|done]. apply IHl in Hm; lia.
  - induction IH as [|a l Ha Hl IHl]; simpl in Hm; [done|]. destruct Hm as [Hm|Hm]; auto.
  - destruct Hm as (n & _ & _ & Hn). eapply rounds_bound in Hn; [exact Hn|by auto|done].
  - lia.
  - lia.
  - lia.
Qed.

(** * The machine finds every match *)

(** ** Sparse sets *)

(** What any earlier use leaves behind: the marks are at most the generation. *)
Definition set_weak (s : SparseSet) : Prop :=
  0 ≤ cur s ≤ U32_MAX ∧ Forall (λ g, 0 ≤ g ≤ cur s) (gen s).

(** A set over [n] instructions: the marks of the current generation are the
    members. *)
Record set_ok (n : nat) (s : SparseSet) : Prop := {
  ok_weak : set_weak s;
  ok_size : (n ≤ length (gen s))%nat;
  ok_marks : ∀ pc g, gen s !! pc = Some g → g = cur s ↔ pc ∈ dense s;
  ok_nodup : NoDup (dense s);
  ok_range : Forall (λ pc, (pc < n)%nat) (dense s)
}.

Lemma ensure_weak n s : set_weak s → set_weak (ensure n s) ∧ (n ≤ length (gen (ensure n s)))%nat.
Proof.
  intros [Hc Hg]. unfold ensure, set_weak. simpl. split_and!; [lia..| |].
  - apply Forall_app. split; [done|]. apply Forall_replicate. lia.
  - rewrite length_app, length_replicate. lia.
Qed.

Lemma clear_ok n s : set_weak s → (n ≤ length (gen s))%nat → set_ok n (clear s) ∧ dense (clear s) = [].
Proof.
  intros [Hc Hg] Hn. unfold clear. unfold U32_MAX in *. destruct (Z.eqb_spec ((cur s + 1) mod 2 ^ 32) 0) as [E|E].
  - split; [|done]. split; simpl; [|by rewrite length_map| |by constructor..].
    + split; unfold U32_MAX; simpl; [lia|]. apply Forall_map, Forall_true. intros; simpl; lia.
    + intros pc g Hx. split; [|by intros ?%elem_of_nil].
      apply list_lookup_fmap_Some in Hx as (y & Hy & _). intros ->. done.
  - assert (Hm : (cur s + 1) mod 2 ^ 32 = cur s + 1).
    { destruct (decide (cur s + 1 = 2 ^ 32)) as [H|H]; [by rewrite H in E|]. apply Z.mod_small. lia. }
    rewrite Hm in *. split; [|done]. split; simpl; [|done| |by constructor..].
    + split; unfold U32_MAX; simpl.
      * assert ((cur s + 1) mod 2 ^ 32 < 2 ^ 32) by (apply Z.mod_pos_bound; lia). lia.
      * eapply Forall_impl; [exact Hg|]. simpl. lia.
    + intros pc g Hx. split; [|by intros ?%elem_of_nil]. intros ->.
      eapply Forall_lookup_1 in Hg; [|exact Hx]. simpl in Hg. lia.
Qed.

Lemma contains_ok n s pc : set_ok n s → (pc < n)%nat → contains s pc = Ok (bool_decide (pc ∈ dense s)).
Proof.
  intros Hs Hp. unfold contains. destruct (lookup_lt_is_Some_2 (gen s) pc) as [g Hg].
  { pose proof (ok_size _ _ Hs). lia. }
  rewrite Hg. f_equal. pose proof (ok_marks _ _ Hs pc g Hg). apply eq_bool_prop_intro.
  destruct (Z.eqb_spec g (cur s)), (bool_decide_reflect (pc ∈ dense s)); simpl; tauto.
Qed.

Lemma insert_ok n s pc :
  set_ok n s → (pc < n)%nat → pc ∉ dense s →
  ∃ s', insert s pc = Ok s' ∧ set_ok n s' ∧ dense s' = dense s ++ [pc].
Proof.
  intros Hs Hp Hd. unfold insert. destruct (lookup_lt_is_Some_2 (gen s) pc) as [g Hg].
  { pose proof (ok_size _ _ Hs). lia. }
  rewrite Hg. eexists. split_and!; [done| |done]. destruct (ok_weak _ _ Hs) as [Hc Hw]. split; simpl.
  - split; [done|]. simpl. apply Forall_insert; [done|]. simpl. lia.
  - rewrite length_insert. apply Hs.
  - intros q h Hq. rewrite elem_of_app, list_elem_of_singleton. destruct (decide (q = pc)) as [->|Hn].
    + rewrite list_lookup_insert_eq in Hq by (pose proof (ok_size _ _ Hs); lia). naive_solver.
    + rewrite list_lookup_insert_ne in Hq by done. rewrite (ok_marks _ _ Hs q h Hq). naive_solver.
  - apply NoDup_app. split_and!; [apply Hs| |apply NoDup_singleton]. intros x Hx ->%list_elem_of_singleton. done.
  - apply Forall_app. split; [apply Hs|]. by apply Forall_singleton.
Qed.

Lemma dense_bound n s : set_ok n s → (length (dense s) ≤ n)%nat.
Proof.
  intros Hs. rewrite <- (length_seq n 0). apply submseteq_length, NoDup_submseteq; [apply Hs|].
  intros x Hx. apply elem_of_seq. pose proof (ok_range _ _ Hs) as Hr. rewrite Forall_forall in Hr. apply Hr in Hx. lia.
Qed.

(** ** Threads at one position *)

Section machine.
  Context (prog : Prog) (input : list Z) (Hok : prog_ok (insts prog)).
  #[local] Notation n := (length (insts prog)).
  #[local] Notation vm_step := (vm_step (insts prog) input).

  (** The instructions that [add_thread] follows at a position. *)
Definition eps (pos : nat) (x y : nat) : Prop := ∃ i, insts prog !! x = Some i ∧ y ∈ pushed i x pos input.

Definition closed (pos : nat) (D : list nat) : Prop := ∀ x y, x ∈ D → eps pos x y → y ∈ D.

Lemma closed_rtc pos D x y : closed pos D → rtc (eps pos) x y → x ∈ D → y ∈ D.
Proof. intros Hc. induction 1; eauto. Qed.

Lemma eps_range pos x y : eps pos x y → (y < n)%nat.
Proof. intros (i & Hi & Hy). eapply Hok; [done|]. by eapply pushed_targets. Qed.

Lemma pushed_length i pc pos : (length (pushed i pc pos input) ≤ 2)%nat.
Proof. destruct i; simpl; repeat case_match; simpl; lia. Qed.

Lemma add_loop_ok pos fuel stack s :
    set_ok n s → Forall (λ x, (x < n)%nat) stack →
    (length stack + 2 * (n - length (dense s)) < fuel)%nat →
    (∀ x y, x ∈ dense s → eps pos x y → y ∈ dense s ∨ y ∈ stack) →
    ∃ s', add_loop fuel prog pos input stack s = Ok s' ∧ set_ok n s' ∧ closed pos (dense s')
          ∧ dense s ⊆ dense s' ∧ stack ⊆ dense s'
          ∧ ∀ x, x ∈ dense s' → x ∈ dense s ∨ ∃ y, y ∈ stack ∧ rtc (eps pos) y x.
Proof.
    revert stack s. induction fuel as [|fuel IH]; intros stack s Hs Hst Hf Hcl; [lia|]. simpl.
    destruct stack as [|pc stack].
    { exists s. split_and!; [done|done| |done|set_solver|auto]. intros x y Hx Hy.
      destruct (Hcl x y Hx Hy) as [?|?%elem_of_nil]; done. }
    apply Forall_cons in Hst as [Hpc Hst]. rewrite (contains_ok n) by done. simpl. case_bool_decide as Hin.
    - destruct (IH stack s) as (s' & -> & Hs' & Hc & Hd & Hi & Hx); [done|done|simpl in Hf; lia| |].
      { intros x y Hx Hy. destruct (Hcl x y Hx Hy) as [?|[->|?]%elem_of_cons]; auto. }
      exists s'. split_and!; [done|done|done|done|set_solver|].
      intros x [?|(y & ? & ?)]%Hx; [by left|]. right. exists y. split; [by right|done].
    - destruct (insert_ok n s pc Hs Hpc Hin) as (s1 & -> & Hs1 & Hd1). simpl.
      destruct (lookup_lt_is_Some_2 _ _ Hpc) as [i Hi]. rewrite Hi.
      pose proof (dense_bound _ _ Hs1) as Hb. rewrite Hd1, last_length in Hb.
      assert (He : ∀ y, y ∈ pushed i pc pos input → eps pos pc y) by (intros; by exists i).
      destruct (IH (pushed i pc pos input ++ stack) s1) as (s' & -> & Hs' & Hc & Hd & Hst' & Hx); [done| | | |].
      { apply Forall_app. split; [|done]. apply Forall_forall. intros y Hy. by eapply eps_range, He. }
      { rewrite length_app, Hd1, last_length. pose proof (pushed_length i pc pos). simpl in Hf. lia. }
      { intros x y Hx Hy. rewrite Hd1 in *. apply elem_of_app in Hx as [Hx|Hx].
        - destruct (Hcl x y Hx Hy) as [?|[->|?]%elem_of_cons]; set_solver.
        - apply list_elem_of_singleton in Hx as ->. right. destruct Hy as (i' & Hi' & Hy).
          rewrite Hi in Hi'. injection Hi' as <-. set_solver. }
      rewrite Hd1 in *. exists s'. split_and!; [done|done|done|set_solver|set_solver|].
      intros x [Hin'|(y & Hy & Hr)]%Hx.
      + apply elem_of_app in Hin' as [?| ->%list_elem_of_singleton]; [by left|]. right. exists pc. split; [by left|done].
      + right. apply elem_of_app in Hy as [Hy|Hy].
        * exists pc. split; [by left|]. eapply rtc_l; [by apply He|done].
        * exists y. split; [by right|done].
Qed.

  (** [add_thread] adds everything the instruction leads to. *)
Lemma add_thread_ok pos s pc :
    set_ok n s → closed pos (dense s) → (pc < n)%nat →
    ∃ s', add_thread prog s pc pos input = Ok s' ∧ set_ok n s' ∧ closed pos (dense s')
          ∧ ∀ x, x ∈ dense s' ↔ x ∈ dense s ∨ rtc (eps pos) pc x.
Proof.
    intros Hs Hc Hp. destruct (add_loop_ok pos (2 * n + 2) [pc] s) as (s' & H1 & H2 & H3 & H4 & H5 & H6);
      [done|by apply Forall_singleton|simpl; lia|by eauto|].
    exists s'. split_and!; [done..|]. intros x. split.
    - intros [?|(y & ->%list_elem_of_singleton & ?)]%H6; auto.
    - intros [?|?]; [by apply H4|]. eapply closed_rtc; [done..|]. set_solver.
Qed.

  (** The threads of the next position that those of [threads] lead to. *)
Definition next_thread (pos : nat) (threads : list nat) (x : nat) : Prop :=
  ∃ pc i, pc ∈ threads ∧ insts prog !! pc = Some i ∧ eats i (input !! pos) = true ∧ rtc (eps (S pos)) (S pc) x.

Lemma step_threads_ok pos threads nl :
    set_ok n nl → closed (S pos) (dense nl) → Forall (λ x, (x < n)%nat) threads →
    ∃ b nl', step_threads prog input pos threads nl = Ok (b, nl') ∧ set_ok n nl'
      ∧ (b = true ↔ ∃ pc, pc ∈ threads ∧ insts prog !! pc = Some Match)
      ∧ (b = false → closed (S pos) (dense nl')
         ∧ ∀ x, x ∈ dense nl' ↔ x ∈ dense nl ∨ next_thread pos threads x).
Proof.
    intros Hs Hc Ht. revert nl Hs Hc. induction Ht as [|pc threads Hpc Ht IH]; intros nl Hs Hc; simpl.
    { exists false, nl. split_and!; [done|done| |].
      - split; [done|]. by intros (pc & ?%elem_of_nil & _).
      - intros _. split; [done|]. intros x. split; [auto|]. intros [?|(? & ? & ?%elem_of_nil & _)]; done. }
    destruct (lookup_lt_is_Some_2 _ _ Hpc) as [i Hi]. rewrite Hi.
    destruct (decide (i = Match)) as [->|Hm].
    { exists true, nl. split_and!; [done|done| |done]. split; [|done]. intros _. exists pc. split; [by left|done]. }
    assert (∃ nl1, (if eats i (input !! pos) then add_thread prog nl (S pc) (S pos) input else Ok nl) = Ok nl1
      ∧ set_ok n nl1 ∧ closed (S pos) (dense nl1)
      ∧ ∀ x, x ∈ dense nl1 ↔ x ∈ dense nl ∨ (eats i (input !! pos) = true ∧ rtc (eps (S pos)) (S pc) x))
      as (nl1 & E & Hs1 & Hc1 & Hx1).
    { destruct (eats i (input !! pos)) eqn:Ee.
      - destruct (add_thread_ok (S pos) nl (S pc)) as (nl1 & H1 & H2 & H3 & H4); [done|done| |].
        { eapply Hok; [exact Hi|]. by eapply eats_targets. }
        exists nl1. split_and!; [done..|]. intros x. rewrite H4. naive_solver.
      - exists nl. split_and!; [done..|]. naive_solver. }
    destruct (IH nl1 Hs1 Hc1) as (b & nl' & H1 & H2 & H3 & H4). exists b, nl'.
    split_and!; [destruct i; try done; rewrite E; exact H1|done| |].
    - rewrite H3. split; intros (q & Hq & Hq').
      + exists q. split; [by right|done].
      + apply elem_of_cons in Hq as [->|Hq]; [congruence|eauto].
    - intros Hb. destruct (H4 Hb) as [Hc' Hx']. split; [done|]. intros x. rewrite Hx', Hx1. unfold next_thread.
      split.
      + intros [[?|[? ?]]|(q & j & ? & ? & ? & ?)]; [by left|right; exists pc, i|right; exists q, j]; set_solver.
      + intros [?|(q & j & Hq & Hj & He & Hr)]; [by auto|].
        apply elem_of_cons in Hq as [->|Hq]; [|right; by exists q, j].
        left. right. rewrite Hi in Hj. by injection Hj as <-.
Qed.

  (** *** Threads over the input *)

Lemma step_mono p q : rtc vm_step p q → (p.2 ≤ q.2)%nat.
Proof. induction 1 as [|p q r Hs _ IH]; [done|]. inversion Hs; subst; simpl in *; lia. Qed.

Lemma eps_step pos x y : rtc (eps pos) x y → rtc vm_step (x, pos) (y, pos).
Proof.
    induction 1 as [|x y z (i & Hi & Hy) _ IH]; [done|]. eapply rtc_l; [|exact IH]. by eapply step_eps.
Qed.

  (** A thread at the next position came through an octet. *)
Lemma step_next a i x pos :
    (i ≤ pos)%nat →
    rtc vm_step (a, i) (x, S pos)
    ↔ ∃ pc j, rtc vm_step (a, i) (pc, pos) ∧ insts prog !! pc = Some j ∧ eats j (input !! pos) = true
              ∧ rtc (eps (S pos)) (S pc) x.
Proof.
    intros Hi. split.
    - intros H. remember (x, S pos) as q eqn:E. revert x E.
      revert q H. apply (rtc_ind_r (λ q, ∀ x, q = (x, S pos) → _)); [intros x E; injection E; lia|].
      intros q r Hr Hs IH x E. subst r.
      inversion Hs as [pc ? j ? Hj Hx|pc ? j Hj He]; subst.
      + destruct (IH pc eq_refl) as (pc0 & j0 & ? & ? & ? & ?). exists pc0, j0. split_and!; [done..|].
        eapply rtc_r; [done|]. by exists j.
      + by exists pc, j.
    - intros (pc & j & H & Hj & He & Hx). etrans; [exact H|]. eapply rtc_l; [by eapply step_eat|]. by apply eps_step.
Qed.

Lemma step_here a x pos : rtc vm_step (a, pos) (x, pos) ↔ rtc (eps pos) a x.
Proof.
    split; [|apply eps_step]. intros H. remember (x, pos) as q eqn:E. revert x E.
    revert q H. apply (rtc_ind_r (λ q, ∀ x, q = (x, pos) → _)); [intros x E; by injection E as ->|].
    intros q r Hr Hs IH x E. subst r.
    inversion Hs as [pc ? j ? Hj Hx|pc ? j Hj He]; subst.
    - eapply rtc_r; [by apply IH|]. by exists j.
    - apply step_mono in Hr. simpl in Hr. lia.
Qed.

Definition allowed (i : nat) : Prop := i = 0%nat ∨ start_anchored prog = false.

  (** The threads at a position from the starts before [k]. *)
Definition live (k pos x : nat) : Prop := ∃ i, (i < k)%nat ∧ allowed i ∧ rtc vm_step (0%nat, i) (x, pos).

Lemma live_next pos threads x :
    (∀ y, y ∈ threads ↔ live (S pos) pos y) → next_thread pos threads x ↔ live (S pos) (S pos) x.
Proof.
    intros Ht. unfold next_thread, live. split.
    - intros (pc & j & Hp & Hj & He & Hr). apply Ht in Hp as (i & Hi & Ha & Hs). exists i.
      split_and!; [done..|]. apply step_next; [lia|]. eauto 10.
    - intros (i & Hi & Ha & Hs). apply step_next in Hs as (pc & j & H1 & H2 & H3 & H4); [|lia].
      exists pc, j. split_and!; [|done..]. apply Ht. by exists i.
Qed.

Lemma live_start pos x :
    live (S pos) pos x ↔ live pos pos x ∨ (allowed pos ∧ rtc (eps pos) 0%nat x).
Proof.
    unfold live. split.
    - intros (i & Hi & Ha & Hs). destruct (decide (i = pos)) as [->|Hn].
      + right. by rewrite <- step_here.
      + left. exists i. split_and!; [lia|done..].
    - intros [(i & Hi & Ha & Hs)|[Ha Hs]]; [exists i|exists pos]; split_and!; try done; try lia.
      by apply step_here.
Qed.

  (** Some thread of the program reaches its end at a position in a range. *)
Definition found (lo hi : nat) : Prop :=
  ∃ j m, (lo ≤ j < hi)%nat ∧ insts prog !! m = Some Match ∧ live (S j) j m.

Definition scratch_ok (s : Scratch) : Prop := set_weak (clist s) ∧ set_weak (nlist s).

Lemma run_loop_ok rounds pos s :
    set_ok n (clist s) → set_weak (nlist s) → (n ≤ length (gen (nlist s)))%nat →
    closed pos (dense (clist s)) → (∀ x, x ∈ dense (clist s) ↔ live pos pos x) →
    ∃ b s', run_loop rounds prog input pos s = Ok (b, s') ∧ scratch_ok s'
            ∧ (b = true ↔ found pos (pos + rounds)).
Proof.
    revert pos s. induction rounds as [|rounds IH]; intros pos s Hs Hw Hn Hc Hx; simpl.
    { exists false, s. split_and!; [done|split; [apply Hs|done]|]. split; [done|]. intros (j & m & ? & _). lia. }
    assert (∃ cl, (if (pos =? 0)%nat || negb (start_anchored prog) then add_thread prog (clist s) 0 pos input
                   else Ok (clist s)) = Ok cl
      ∧ set_ok n cl ∧ closed pos (dense cl) ∧ ∀ x, x ∈ dense cl ↔ live (S pos) pos x) as (cl & -> & Hs1 & Hc1 & Hx1).
    { assert (Ha : ((pos =? 0)%nat || negb (start_anchored prog)) = true ↔ allowed pos).
      { unfold allowed. by rewrite orb_true_iff, negb_true_iff, Nat.eqb_eq. }
      setoid_rewrite live_start. setoid_rewrite <- Hx. destruct (_ || _).
      - destruct (add_thread_ok pos (clist s) 0) as (cl & H1 & H2 & H3 & H4); [done|done|apply Hok|].
        exists cl. split_and!; [done..|]. intros x. rewrite H4. naive_solver.
      - exists (clist s). split_and!; [done..|]. naive_solver. }
    simpl. destruct (clear_ok n (nlist s) Hw Hn) as [Hcl Hd].
    destruct (step_threads_ok pos (dense cl) (clear (nlist s))) as (b & nl & -> & Hs2 & Hb & Hf).
    { done. } { rewrite Hd. intros x y ?%elem_of_nil. done. } { apply Hs1. }
    simpl. destruct b.
    - exists true, (mkScratch cl nl). split_and!; [done|by split; [apply Hs1|apply Hs2]|]. split; [|done].
      intros _. apply proj1 in Hb. destruct (Hb eq_refl) as (m & Hm & Hi). exists pos, m.
      split_and!; [lia|lia|done|by apply Hx1].
    - destruct (Hf eq_refl) as [Hc2 Hx2].
      destruct (IH (S pos) (mkScratch nl cl)) as (b & s' & H1 & H2 & H3); simpl.
      { done. } { apply Hs1. } { apply Hs1. } { done. }
      { intros x. rewrite Hx2, Hd, (live_next pos (dense cl) x Hx1). split; [by intros [?%elem_of_nil|?]|auto]. }
      exists b, s'. split_and!; [done..|]. rewrite H3. split.
      + intros (j & m & Hj & Hm & Hl). exists j, m. split_and!; [lia|lia|done..].
      + intros (j & m & Hj & Hm & Hl). exists j, m. split_and!; [|lia|done..].
        destruct (decide (j = pos)) as [->|]; [|lia]. exfalso.
        assert (false = true) by (apply Hb; exists m; split; [by apply Hx1|done]). done.
Qed.

Lemma run_ok s :
    scratch_ok s →
    ∃ b s', run prog input s = Ok (b, s') ∧ scratch_ok s' ∧ (b = true ↔ found 0 (S (length input))).
Proof.
    intros [Hcw Hnw]. unfold run. destruct (ensure_weak n _ Hcw) as [Hc1 Hc2].
    destruct (ensure_weak n _ Hnw) as [Hn1 Hn2]. destruct (clear_ok n _ Hc1 Hc2) as [Hs Hd].
    apply (run_loop_ok (S (length input)) 0); simpl; [done..| |].
    - rewrite Hd. intros x y ?%elem_of_nil. done.
    - rewrite Hd. intros x. split; [by intros ?%elem_of_nil|]. intros (i & ? & _). lia.
Qed.
End machine.

(** ** Compiled expressions *)

(** The scratch space of a thread at its start, and after any run. *)
Lemma scratch_new_ok : scratch_ok Scratch_new.
Proof. unfold scratch_ok, set_weak, U32_MAX. simpl. split_and!; (lia || constructor). Qed.

Lemma run_program a input s :
  ast_ok a → scratch_ok s →
  ∃ b s', run (mkProg (program a) (is_start_anchored a)) input s = Ok (b, s') ∧ scratch_ok s'
          ∧ (b = true ↔ ∃ i j, (i ≤ length input)%nat ∧ matches input a i j).
Proof.
  intros Ha Hs. set (p := mkProg _ _).
  destruct (run_ok p input (program_ok a) s Hs) as (b & s' & -> & Hs' & Hb). exists b, s'.
  split_and!; [done..|]. rewrite Hb. unfold found, live. split.
  - intros (j & m & Hj & Hm & i & Hi & _ & Hr). exists i, j. split; [lia|].
    apply program_matches; [done|]. by exists m.
  - intros (i & j & Hi & Hm). pose proof (matches_bound _ _ _ _ Hi Hm).
    pose proof Hm as (m & Hmm & Hr)%program_matches; [|done]. exists j, m. split_and!; [lia|lia|done|].
    exists i. split_and!; [lia| |done]. unfold allowed. simpl.
    destruct (is_start_anchored a) eqn:E; [left; by eapply anchored_ok|by right].
Qed.
