(* ===== verification/RegexParse.v ===== *)
(** * The parser of filter expressions answers; the octets of a class

    For every pattern the recursive descent returns an expression or an error
    within its fuel; what it returns is well formed and its height is bounded
    by the nesting limit, so the recursion of the compiler is bounded too.

    The complement of a list of ranges is exact, and a range of a
    case-insensitive class holds both cases of its letters. *)

From stdpp Require Import sorting.
From S2P Require Import Prelude Regex RegexVm RegexSem.

#[local] Open Scope Z_scope.

(** Levels of an expression. *)
Definition max_of (h : Ast → Z) : list Ast → Z :=
  fix go l := match l with [] => 0 | a :: l => Z.max (h a) (go l) end.

Fixpoint height (a : Ast) : Z :=
  match a with
  | Concat l | Alt l => 1 + max_of height l
  | Repeat a _ _ => 1 + height a
  | _ => 0
  end.

Lemma max_of_le h l b : 0 ≤ b → Forall (λ a, h a ≤ b) l → max_of h l ≤ b.
Proof. intros Hb. induction 1; simpl; lia. Qed.

(** ** What the parser keeps *)

Definition parser_ok (p : Parser) : Prop := (pos p ≤ length (text p))%nat ∧ 0 ≤ depth p ≤ MAX_PARSE_DEPTH.

(** Octets that are left. *)
Definition left (p : Parser) : nat := length (text p) - pos p.

(** A call goes forward in the same text and leaves the depth as it was. *)
Definition forward (p q : Parser) : Prop :=
  text q = text p ∧ depth q = depth p ∧ (pos p ≤ pos q ≤ length (text p))%nat.

Lemma forward_refl p : parser_ok p → forward p p.
Proof. intros [? ?]. split_and!; auto. Qed.

Lemma forward_trans p q r : forward p q → forward q r → forward p r.
Proof. intros (Ht & Hd & Hp) (Ht' & Hd' & Hp'). rewrite Ht in *. split_and!; [congruence..|lia|lia]. Qed.

Lemma forward_ok p q : parser_ok p → forward p q → parser_ok q.
Proof. intros [? ?] (Ht & Hd & ?). split; [rewrite Ht; lia|by rewrite Hd]. Qed.

Lemma forward_left p q : forward p q → (left q ≤ left p)%nat.
Proof. intros (Ht & _ & ?). unfold left. rewrite Ht. lia. Qed.

(** Strictly forward. *)
Definition ahead (p q : Parser) : Prop := forward p q ∧ (pos p < pos q)%nat.

Lemma ahead_left p q : ahead p q → (S (left q) ≤ left p)%nat.
Proof. intros [(Ht & _ & ?) ?]. unfold left. rewrite Ht. lia. Qed.

Lemma ahead_forward p q r : ahead p q → forward q r → ahead p r.
Proof. intros [H Hlt] H'. split; [by eapply forward_trans|]. destruct H' as (_ & _ & ?). lia. Qed.

Lemma peek_left p c : peek p = Some c → (pos p < length (text p))%nat.
Proof. apply lookup_lt_Some. Qed.

Lemma advance_forward n p : (pos p + n ≤ length (text p))%nat → forward p (advance n p).
Proof. intros. unfold forward, advance. simpl. split_and!; [done..|lia|lia]. Qed.

Lemma advance_ahead p c : peek p = Some c → ahead p (advance 1 p).
Proof. intros H%peek_left. split; [apply advance_forward; lia|simpl; lia]. Qed.

Lemma bump_ahead p c : peek p = Some c → bump p = (Some c, advance 1 p) ∧ ahead p (advance 1 p).
Proof. intros H. unfold bump. rewrite H. split; [done|by eapply advance_ahead]. Qed.

Lemma bump_forward p : parser_ok p → forward p (snd (bump p)).
Proof.
  intros Hp. unfold bump. destruct (peek p) eqn:E; [by apply advance_ahead in E as [? _]|by apply forward_refl].
Qed.

Lemma eat_forward p b : parser_ok p → forward p (snd (eat b p)).
Proof.
  intros Hp. unfold eat. case_bool_decide as E; [by apply advance_ahead in E as [? _]|by apply forward_refl].
Qed.

Lemma eat_true p b q : eat b p = (true, q) → ahead p q.
Proof. unfold eat. case_bool_decide as E; [|done]. intros [= <-]. by eapply advance_ahead. Qed.

Lemma eat_false p b q : eat b p = (false, q) → q = p.
Proof. unfold eat. case_bool_decide; congruence. Qed.

Lemma skip_ws_length c l : (skip_ws c l ≤ length l)%nat.
Proof.
  revert c. induction l as [|x l IH]; intros c; simpl; [lia|].
  destruct c; [specialize (IH (negb (x =? 10))); lia|].
  destruct (x =? 35); [specialize (IH true); lia|]. destruct (is_ascii_whitespace x); [specialize (IH false)|]; lia.
Qed.

Lemma skip_forward p : parser_ok p → forward p (skip_x_ws p).
Proof.
  intros Hp. unfold skip_x_ws. destruct (extended (flags p)); [|by apply forward_refl].
  apply advance_forward. pose proof (skip_ws_length false (drop (pos p) (text p))). rewrite length_drop in *.
  destruct Hp. lia.
Qed.

Lemma uint_loop_length l n : (snd (uint_loop l n) ≤ length l)%nat.
Proof.
  revert n. induction l as [|c l IH]; intros n; simpl; [lia|]. destruct (is_digit c); simpl; [|lia].
  specialize (IH (u32_digit n c)). destruct (uint_loop l _); simpl in *. lia.
Qed.

Lemma uint_loop_nonneg l n : 0 ≤ n → 0 ≤ fst (uint_loop l n).
Proof.
  revert n. induction l as [|c l IH]; intros n Hn; simpl; [done|]. destruct (is_digit c) eqn:E; simpl; [|done].
  assert (H : 0 ≤ u32_digit n c).
  { unfold is_digit in E. bool_prop. unfold u32_digit, U32_MAX. lia. }
  specialize (IH _ H). by destruct (uint_loop l _).
Qed.

Lemma parse_uint_ok p n q : parser_ok p → parse_uint p = (n, q) → forward p q ∧ ∀ v, n = Some v → 0 ≤ v.
Proof.
  intros Hp. unfold parse_uint.
  pose proof (uint_loop_length (drop (pos p) (text p)) 0) as Hl. rewrite length_drop in Hl.
  pose proof (uint_loop_nonneg (drop (pos p) (text p)) 0 ltac:(lia)) as Hn.
  destruct (uint_loop _ _) as [v k]. simpl in *. destruct k; intros [= <- <-].
  - split; [by apply forward_refl|done].
  - split; [|congruence]. apply advance_forward. destruct Hp. lia.
Qed.

(** ** Bounds and classes *)

Lemma try_parse_bounds_ok p :
  parser_ok p →
  yields (try_parse_bounds p)
    (λ '(b, q), forward p q ∧ ∀ mn mx, b = Some (mn, mx) → 0 ≤ mn ∧ ∀ m, mx = Some m → mn ≤ m).
Proof.
  intros Hp. unfold try_parse_bounds. destruct (bump p) as [o p1] eqn:E1.
  assert (H1 : forward p p1) by (pose proof (bump_forward p Hp) as H; by rewrite E1 in H).
  destruct (parse_uint p1) as [mn p2] eqn:E2.
  apply parse_uint_ok in E2 as [H2 Hmn]; [|by eapply forward_ok]. pose proof (forward_trans _ _ _ H1 H2) as H12.
  assert (Hback : forward p (set_pos (pos p) p2)).
  { destruct H12 as (Ht & Hd & _). unfold forward, set_pos. simpl. split_and!; [done..|lia|apply Hp]. }
  destruct mn as [mn|]; [|by split].
  specialize (Hmn mn eq_refl). destruct (eat 44 p2) as [comma p3] eqn:E3.
  assert (H3 : forward p p3).
  { pose proof (eat_forward p2 44 (forward_ok _ _ Hp H12)) as H. rewrite E3 in H. exact (forward_trans _ _ _ H12 H). }
  set (upper := if comma then _ else _).
  assert (Hu : ∀ mx p4, upper = Some (mx, p4) → forward p p4).
  { intros mx p4. unfold upper. destruct comma; [|congruence]. case_bool_decide; [congruence|].
    destruct (parse_uint p3) as [[m|] q] eqn:E; [|done].
    apply parse_uint_ok in E as [Hq _]; [|by eapply forward_ok]. intros [= <- <-]. exact (forward_trans _ _ _ H3 Hq). }
  destruct upper as [[mx p4]|]; [|split; [by apply forward_refl|done]].
  specialize (Hu _ _ eq_refl). destruct (eat 125 p4) as [closed p5] eqn:E5.
  assert (H5 : forward p p5).
  { pose proof (eat_forward p4 125 (forward_ok _ _ Hp Hu)) as H. rewrite E5 in H. exact (forward_trans _ _ _ Hu H). }
  destruct closed; simpl.
  2:{ split; [|done]. destruct H5 as (Ht & Hd & _). unfold forward, set_pos. simpl.
      split_and!; [done..|lia|apply Hp]. }
  destruct (_ || _); [done|]. destruct mx as [m|]; [destruct (Z.ltb_spec m mn); [done|]|].
  all: split; [done|]; intros ? ? [= <- <-]; split; [lia|]; intros ? [=]; lia.
Qed.

Lemma class_atom_ok rs p :
  parser_ok p → yields (class_atom rs p) (λ '(_, _, q), ahead p q).
Proof.
  intros Hp. unfold class_atom. destruct (peek p) as [c|] eqn:E; [|unfold bump; by rewrite E].
  destruct (bump_ahead p c E) as [-> Ha].
  assert (Hb : yields (match bump (advance 1 p) with
    | (None, _) => Err "x"%string
    | (Some e, q) => Ok q end) (λ q, ahead p q)).
  { unfold bump. destruct (peek (advance 1 p)) eqn:E'; [|done]. eapply ahead_forward; [exact Ha|].
    by apply advance_ahead in E' as [? _]. }
  destruct (decide (c = 92)) as [->|Hn].
  - destruct (bump (advance 1 p)) as [[e|] q]; simpl in *; [|done]. repeat case_match; done.
  - repeat case_match; simplify_eq; done.
Qed.

Lemma class_item_ok rs p :
  parser_ok p → yields (class_item rs p) (λ '(_, q), ahead p q).
Proof.
  intros Hp. unfold class_item. eapply yields_obind; [by apply class_atom_ok|]. intros [[lo rs'] q] Ha.
  destruct lo as [lo|]; [|done]. destruct (_ && _); [|done].
  assert (Hq : parser_ok q) by (eapply forward_ok, Ha; done). pose proof (bump_forward q Hq) as Hb.
  eapply yields_obind; [apply class_atom_ok; by eapply forward_ok|]. intros [[hi rs''] r] Hr.
  assert (ahead p r) by (eapply ahead_forward; [exact Ha|]; eapply forward_trans; [done|apply Hr]).
  destruct hi as [hi|]; [|done]. by destruct (lo <=? hi).
Qed.

Lemma class_loop_ok fuel first rs p :
  parser_ok p → (left p < fuel)%nat → yields (class_loop fuel first rs p) (λ '(_, q), forward p q).
Proof.
  revert first rs p. induction fuel as [|fuel IH]; intros first rs p Hp Hf; [lia|]. simpl.
  destruct (peek p); [|done]. destruct (_ && _); [by apply bump_forward|].
  eapply yields_obind; [by apply class_item_ok|]. intros [rs' q] Ha.
  eapply yields_weaken; [apply IH|].
  - eapply forward_ok, Ha; done.
  - apply ahead_left in Ha. lia.
  - intros [? r] Hr. eapply forward_trans; [apply Ha|done].
Qed.

Lemma left_length p : (left p ≤ length (text p))%nat.
Proof. unfold left. lia. Qed.

Lemma parse_class_ok p c :
  parser_ok p → peek p = Some c →
  yields (parse_class p) (λ '(a, q), ahead p q ∧ ast_ok a ∧ height a = 0).
Proof.
  intros Hp Hc. unfold parse_class. destruct (bump_ahead p c Hc) as [-> Ha]. cbn [snd].
  assert (Hp1 : parser_ok (advance 1 p)) by (eapply forward_ok, Ha; done).
  destruct (eat 94 (advance 1 p)) as [neg q] eqn:E.
  assert (Hq : forward (advance 1 p) q) by (pose proof (eat_forward _ 94 Hp1) as H; by rewrite E in H).
  assert (parser_ok q) by by eapply forward_ok.
  eapply yields_obind; [apply class_loop_ok; [done|pose proof (left_length q); lia]|].
  intros [rs r] Hr. destruct rs; [done|]. split; [|done].
  eapply ahead_forward; [exact Ha|]. by eapply forward_trans.
Qed.

Lemma parse_escape_ok p c :
  parser_ok p → peek p = Some c →
  yields (parse_escape p) (λ '(a, q), ahead p q ∧ ast_ok a ∧ height a = 0).
Proof.
  intros Hp Hc. unfold parse_escape. destruct (bump_ahead p c Hc) as [-> Ha]. simpl.
  unfold bump. destruct (peek (advance 1 p)) eqn:E'; [|done].
  assert (ahead p (advance 1 (advance 1 p))).
  { eapply ahead_forward; [exact Ha|]. by apply advance_ahead in E' as [? _]. }
  simpl. split; [done|]. repeat case_match; done.
Qed.

Lemma flag_loop_ok fuel neg saved p :
  parser_ok p → (left p < fuel)%nat → yields (flag_loop fuel neg saved p) (λ '(_, q), forward p q).
Proof.
  revert neg p. induction fuel as [|fuel IH]; intros neg p Hp Hf; [lia|]. simpl.
  destruct (peek p) as [c|] eqn:E; [|done]. destruct (bump_ahead p c E) as [-> Ha]. cbn [snd].
  assert (parser_ok (advance 1 p)) by (eapply forward_ok, Ha; done).
  pose proof (ahead_left _ _ Ha).
  assert (Hr : ∀ neg f, yields (flag_loop fuel neg saved (restore f (advance 1 p))) (λ '(_, q), forward p q)).
  { intros neg' f. eapply yields_weaken; [apply IH; [done|simpl; unfold left in *; simpl in *; lia]|].
    intros [? r] Hr. eapply forward_trans; [apply Ha|done]. }
  destruct (_ && _); [apply (Hr true (flags p))|]. destruct (is_flag_char c); [apply Hr|].
  destruct (c =? 58); [apply Ha|]. by destruct (c =? 41); [apply Ha|].
Qed.

(** ** The recursive descent *)

(** What a call at depth [d] returns: [c] levels above its groups. *)
Definition good (c d : Z) (a : Ast) : Prop := ast_ok a ∧ height a ≤ 3 * (MAX_PARSE_DEPTH - d) + c.

Lemma good_mono c c' d a : good c d a → c ≤ c' → good c' d a.
Proof. intros [? ?] ?. split; [done|lia]. Qed.

Lemma good_list c d l : 0 ≤ c → d ≤ MAX_PARSE_DEPTH → Forall (good c d) l →
  all_of ast_ok l ∧ max_of height l ≤ 3 * (MAX_PARSE_DEPTH - d) + c.
Proof.
  intros Hc Hd Hl. split.
  - apply all_of_Forall. eapply Forall_impl; [exact Hl|]. intros a H. apply H.
  - apply max_of_le; [lia|]. eapply Forall_impl; [exact Hl|]. intros a H. apply H.
Qed.

Definition parses (P : Parser → Parser → Prop) (c : Z) (p : Parser) (o : outcome string (Ast * Parser)) : Prop :=
  yields o (λ '(a, q), P p q ∧ good c (depth p) a).

Lemma good_leaf d a : d ≤ MAX_PARSE_DEPTH → ast_ok a → height a = 0 → good 0 d a.
Proof. intros ? ? H. split; [done|]. lia. Qed.

Section descent.
  Context (alt : Parser → outcome string (Ast * Parser)) (d : Z) (Hd : 0 ≤ d ≤ MAX_PARSE_DEPTH).

  (** The call back into [parse_alt] one level deeper is in order. *)
  Hypothesis Halt : d < MAX_PARSE_DEPTH → ∀ p, parser_ok p → depth p = d + 1 → parses forward 3 p (alt p).

Lemma parse_inner_ok p c :
    d < MAX_PARSE_DEPTH → parser_ok p → depth p = d + 1 → peek p = Some c → parses ahead 3 p (parse_group_inner alt p).
Proof.
    intros Hlt Hp Hdp Hc. unfold parse_group_inner. destruct (bump_ahead p c Hc) as [-> Ha]. cbn [snd].
    set (p1 := advance 1 p) in *.
    assert (Hclose : ∀ s fin, forward p1 s → (∀ q, parser_ok q → forward q (fin q)) →
      parses ahead 3 p (try! (inner, p) := alt s in
        match eat 41 p with (true, p) => Ok (inner, fin p) | (false, _) => Err "닫는 괄호가 없습니다"%string end)%outcome).
    { intros s fin Hs Hfin. pose proof (ahead_forward _ _ _ Ha Hs) as Hps.
      pose proof (forward_ok _ _ Hp (proj1 Hps)) as Hs'. pose proof Hps as [(_ & Hd' & _) _].
      eapply yields_obind; [apply Halt; [done|done|lia]|].
      intros [a q] [Hq Hg]. destruct (eat 41 q) as [[|] r] eqn:E; [|done]. apply eat_true in E as [E _].
      rewrite Hd' in Hg. split; [|done].
      apply (ahead_forward p s); [done|]. eapply forward_trans; [exact Hq|].
      eapply forward_trans; [exact E|]. apply Hfin. eapply forward_ok; [|exact E]. by eapply forward_ok; [|exact Hq]. }
    assert (Hp1 : parser_ok p1) by (eapply forward_ok; [|apply Ha]; done).
    destruct (eat 63 p1) as [[|] p2] eqn:E2.
    2:{ apply eat_false in E2 as ->. apply (Hclose p1 (λ q, q)); [by apply forward_refl|apply forward_refl]. }
    apply eat_true in E2 as [E2 _]. pose proof (forward_ok _ _ Hp1 E2) as Hp2.
    destruct (peek p2) as [x|] eqn:Ex; [|done]. destruct (x =? 58).
    { apply (Hclose _ (λ q, q)); [|apply forward_refl]. eapply forward_trans; [exact E2|by apply bump_forward]. }
    destruct (_ || _); [|done].
    eapply yields_obind; [apply flag_loop_ok; [done|pose proof (left_length p2); lia]|].
    intros [[saved|] q] Hq; pose proof (forward_trans _ _ _ E2 Hq) as H1q.
    - apply (Hclose q (restore saved)); [done|]. intros r Hr. by apply (forward_refl r).
    - split; [by eapply ahead_forward|]. eapply good_mono; [by apply good_leaf; [apply Hp|..]|lia].
Qed.

Lemma parse_group_ok p c : parser_ok p → depth p = d → peek p = Some c → parses ahead 0 p (parse_group alt p).
Proof.
    intros [Hp _] Hdp Hc. unfold parse_group. cbn zeta. cbn [depth set_depth].
    destruct (Z.ltb_spec MAX_PARSE_DEPTH (depth p + 1)); [done|].
    eapply yields_obind; [apply (parse_inner_ok (set_depth (depth p + 1) p) c)|].
    - lia.
    - split; simpl; [done|lia].
    - simpl. lia.
    - done.
    - intros [a q] [[(Ht & Hq & Hpos) Hlt] [Ha1 Ha2]]. simpl in *. split.
      + unfold ahead, forward. simpl. split_and!; [done|lia|lia|lia|done].
      + split; [done|]. lia.
Qed.

Lemma bump_peek p c : parser_ok p → peek p = Some c → ahead p (snd (bump p)).
Proof. intros Hp Hc. by destruct (bump_ahead p c Hc) as [-> ?]. Qed.

Lemma parse_atom_ok p c : parser_ok p → depth p = d → peek p = Some c → parses ahead 0 p (parse_atom alt p).
Proof.
    intros Hp Hdp Hc. unfold parse_atom. rewrite Hc. pose proof (bump_peek p c Hp Hc) as Ha.
    assert (Hleaf : ∀ o, yields o (λ '(a, q), ahead p q ∧ ast_ok a ∧ height a = 0) → parses ahead 0 p o).
    { intros o Ho. eapply yields_weaken; [exact Ho|]. intros [a q] (? & ? & ?). split; [done|].
      by apply good_leaf; [lia|..]. }
    destruct (c =? 40); [by eapply parse_group_ok|]. destruct (c =? 91); [by eapply Hleaf, parse_class_ok|].
    destruct (c =? 46); [by apply Hleaf|]. destruct (c =? 94); [by apply Hleaf|].
    destruct (c =? 36); [by apply Hleaf|]. destruct (c =? 92); [by eapply Hleaf, parse_escape_ok|].
    destruct (bool_decide _); [done|]. by apply Hleaf.
Qed.

Lemma parse_repeat_ok p c : parser_ok p → depth p = d → peek p = Some c → parses ahead 1 p (parse_repeat alt p).
Proof.
    intros Hp Hdp Hc. unfold parse_repeat. eapply yields_obind; [by eapply parse_atom_ok|].
    intros [a q] [Hq Ha]. pose proof (forward_ok _ _ Hp (proj1 Hq)) as Hq'.
    pose proof (skip_forward q Hq') as Hs. set (r := skip_x_ws q) in *.
    pose proof (ahead_forward _ _ _ Hq Hs) as Hr. pose proof (forward_ok _ _ Hp (proj1 Hr)) as Hr'.
    assert (Hplain : ∀ s, forward r s → parses ahead 1 p (Ok (a, s))).
    { intros s Hs'. split; [by eapply ahead_forward|]. eapply good_mono; [done|lia]. }
    assert (Hrep : ∀ mn mx s, forward r s → 0 ≤ mn → (∀ m, mx = Some m → mn ≤ m) →
      parses ahead 1 p (Ok (Repeat a mn mx, snd (eat 63 s)))).
    { intros mn mx s Hs' Hmn Hmx. split.
      - eapply ahead_forward; [exact Hr|]. eapply forward_trans; [done|]. apply eat_forward. by eapply forward_ok.
      - destruct Ha as [Ha1 Ha2]. split; simpl; [done|lia]. }
    cbn zeta. pose proof (forward_refl r Hr'). pose proof (bump_forward r Hr').
    destruct (peek r) as [x|] eqn:E; [|by apply Hplain].
    destruct (x =? 42); [by apply Hrep|]. destruct (x =? 43); [by apply Hrep|].
    destruct (x =? 63); [apply Hrep; [done..|intros ? [= <-]; lia]|].
    destruct (x =? 123); [|by apply Hplain].
    eapply yields_obind; [by apply try_parse_bounds_ok|]. intros [[[mn mx]|] s] [Hs' Hb]; [|by apply Hplain].
    destruct (Hb mn mx eq_refl). by apply Hrep.
Qed.

Lemma parse_concat_ok fuel l p :
    parser_ok p → depth p = d → Forall (good 1 d) l → (left p < fuel)%nat →
    parses forward 2 p (parse_concat alt fuel l p).
Proof.
    revert l p. induction fuel as [|fuel IH]; intros l p Hp Hdp Hl Hf; [lia|]. simpl.
    pose proof (skip_forward p Hp) as Hs. set (q := skip_x_ws p) in *.
    pose proof (forward_ok _ _ Hp Hs) as Hq. pose proof (forward_left _ _ Hs). pose proof Hs as (_ & Hdq & _).
    assert (Hend : parses forward 2 p (match l with [] => Ok (Empty, q) | [a] => Ok (a, q) | _ => Ok (Concat l, q) end)).
    { assert (parses forward 2 p (Ok (Concat l, q))).
      { split; [done|]. apply good_list in Hl as [H1 H2]; [|lia..]. split; simpl; [done|lia]. }
      destruct l as [|a [|b l]]; [|split; [done|]|done].
      - split; [done|]. eapply good_mono; [by apply good_leaf; [lia|..]|lia].
      - apply Forall_cons in Hl as [Ha _]. rewrite Hdp. by eapply good_mono; [done|lia]. }
    destruct (peek q) as [c|] eqn:E; [|done]. destruct (_ || _); [done|].
    eapply yields_obind; [eapply (parse_repeat_ok q c); [done|lia|done]|].
    intros [a r] [Hr Ha]. pose proof (ahead_left _ _ Hr) as Hlr. destruct Hr as [Hr _]. pose proof Hr as (_ & Hdr & _).
    eapply yields_weaken; [apply (IH (l ++ [a]) r)|].
    - by eapply forward_ok.
    - lia.
    - apply Forall_app. split; [done|]. apply Forall_singleton. by rewrite Hdq, Hdp in Ha.
    - lia.
    - intros [b s] [Hs' Hb]. rewrite Hdr, Hdq in Hb. split; [|done].
      eapply forward_trans; [done|]. by eapply forward_trans.
Qed.

Lemma alt_loop_ok fuel bs p :
    parser_ok p → depth p = d → bs ≠ [] → Forall (good 2 d) bs → (left p < fuel)%nat →
    parses forward 3 p (alt_loop alt fuel bs p).
Proof.
    revert bs p. induction fuel as [|fuel IH]; intros bs p Hp Hdp Hn Hbs Hf; [lia|]. cbn [alt_loop].
    destruct (eat 124 p) as [[|] q] eqn:E.
    - apply eat_true in E. pose proof (ahead_left _ _ E). destruct E as [E _]. pose proof E as (_ & Hdq & _).
      assert (Hq : parser_ok q) by by eapply forward_ok.
      eapply yields_obind; [apply parse_concat_ok; [done|lia|constructor|pose proof (left_length q); lia]|].
      intros [b r] [Hr Hb]. pose proof (forward_left _ _ Hr) as Hl. pose proof Hr as (_ & Hdr & _).
      eapply yields_weaken; [apply (IH (bs ++ [b]) r)|].
      + by eapply forward_ok.
      + lia.
      + by destruct bs.
      + apply Forall_app. split; [done|]. apply Forall_singleton. by rewrite Hdq, Hdp in Hb.
      + lia.
      + intros [a s] [Hs Ha]. rewrite Hdr, Hdq in Ha.
        split; [|done]. eapply forward_trans; [done|]. by eapply forward_trans.
    - apply eat_false in E as ->.
      assert (Hg : parses forward 3 p (Ok (Alt bs, p))).
      { split; [by apply forward_refl|]. apply good_list in Hbs as [H1 H2]; [|lia..]. split; simpl; [done|lia]. }
      destruct bs as [|b [|b' bs]]; [done| |done].
      split; [by apply forward_refl|]. apply Forall_cons in Hbs as [Hb _]. rewrite Hdp. by eapply good_mono; [done|lia].
Qed.
End descent.

(** The fuel covers the levels that the depth limit leaves. *)
Lemma parse_alt_ok fuel p :
  parser_ok p → MAX_PARSE_DEPTH - depth p < Z.of_nat fuel → parses forward 3 p (parse_alt fuel p).
Proof.
  revert p. induction fuel as [|fuel IH]; intros p Hp Hf; [destruct Hp; lia|]. cbn [parse_alt]. cbn zeta.
  assert (Halt : depth p < MAX_PARSE_DEPTH → ∀ q, parser_ok q → depth q = depth p + 1 →
    parses forward 3 q (parse_alt fuel q)) by (intros; apply IH; [done|lia]).
  pose proof Hp as [_ Hd]. pose proof (left_length p).
  eapply yields_obind; [apply (parse_concat_ok _ _ Hd Halt); [done|done|constructor|lia]|].
  intros [a q] [Hq Ha]. pose proof (forward_left _ _ Hq) as Hl. pose proof Hq as (_ & Hdq & _).
  eapply yields_weaken; [apply (alt_loop_ok _ _ Hd Halt)|].
  - by eapply forward_ok.
  - done.
  - done.
  - by apply Forall_singleton.
  - lia.
  - intros [b r] [Hr Hb]. rewrite Hdq in Hb. split; [by eapply forward_trans|done].
Qed.

(** The bound on the levels of a parsed pattern. *)
Definition MAX_HEIGHT : Z := 3 * MAX_PARSE_DEPTH + 3.

Lemma parse_pattern_ok s : yields (parse_pattern s) (λ a, ast_ok a ∧ height a ≤ MAX_HEIGHT).
Proof.
  unfold parse_pattern. eapply yields_obind; [apply parse_alt_ok|].
  - split; simpl; unfold MAX_PARSE_DEPTH; lia.
  - unfold parse_fuel, MAX_PARSE_DEPTH. simpl. lia.
  - intros [a p] [_ [Ha Hh]]. case_bool_decide; [|done]. split; [done|]. unfold MAX_HEIGHT. simpl in Hh. lia.
Qed.

(** * The octets of a class *)

Definition range_le (r s : Z * Z) : Prop := r.1 ≤ s.1.

Lemma insert_range_perm r l : insert_range r l ≡ₚ r :: l.
Proof.
  induction l as [|s l IH]; simpl; [done|]. destruct (s.1 <? r.1); [|done].
  rewrite IH. apply Permutation_swap.
Qed.

Lemma insert_range_sorted r l : StronglySorted range_le l → StronglySorted range_le (insert_range r l).
Proof.
  induction 1 as [|s l Hl IH Hs]; simpl; [by repeat constructor|].
  destruct (Z.ltb_spec s.1 r.1).
  - constructor; [done|]. rewrite insert_range_perm. constructor; [unfold range_le; lia|done].
  - constructor; [by constructor|]. constructor; [unfold range_le; lia|].
    eapply Forall_impl; [exact Hs|]. unfold range_le. intros. lia.
Qed.

Lemma sort_ranges_sorted l : StronglySorted range_le (foldr insert_range [] l).
Proof. induction l; simpl; [constructor|by apply insert_range_sorted]. Qed.

Lemma sort_ranges_perm l : foldr insert_range [] l ≡ₚ l.
Proof. induction l as [|r l IH]; simpl; [done|]. by rewrite insert_range_perm, IH. Qed.

Lemma in_ranges_perm b l k : l ≡ₚ k → in_ranges b l ↔ in_ranges b k.
Proof. intros H. unfold in_ranges. rewrite !Exists_exists. by setoid_rewrite H. Qed.

#[export] Instance in_ranges_dec b l : Decision (in_ranges b l).
Proof. unfold in_ranges. apply _. Defined.

Lemma in_ranges_nil b : in_ranges b [] ↔ False.
Proof. apply Exists_nil. Qed.

Lemma in_ranges_cons b r l : in_ranges b (r :: l) ↔ r.1 ≤ b ≤ r.2 ∨ in_ranges b l.
Proof. apply Exists_cons. Qed.

Lemma in_ranges_app b l k : in_ranges b (l ++ k) ↔ in_ranges b l ∨ in_ranges b k.
Proof. apply Exists_app. Qed.

Definition is_range (r : Z * Z) : Prop := is_u8 r.1 ∧ is_u8 r.2.

(** The gaps of sorted ranges from an octet on. *)
Lemma gaps_ok next l b :
  StronglySorted range_le l → Forall is_range l →
  in_ranges b (gaps next l) ↔ next ≤ b ≤ 255 ∧ ¬ in_ranges b l.
Proof.
  intros Hs. revert next. induction Hs as [|[lo hi] l Hs IH Hle]; intros next Hr; simpl.
  { rewrite in_ranges_nil. destruct (Z.leb_spec next 255); [rewrite in_ranges_cons|]; rewrite in_ranges_nil; simpl; lia. }
  apply Forall_cons in Hr as [[Hlo Hhi] Hr]. unfold is_u8, U8_MAX in *. simpl in *.
  rewrite in_ranges_app, IH, in_ranges_cons by done. simpl.
  assert (Hbelow : in_ranges b l → lo ≤ b).
  { unfold in_ranges. rewrite Exists_exists. intros (r & Hin & Hb). rewrite Forall_forall in Hle.
    apply Hle in Hin. unfold range_le in Hin. simpl in Hin. lia. }
  destruct (Z.ltb_spec next lo); [rewrite in_ranges_cons|]; rewrite in_ranges_nil; simpl;
    destruct (Z.ltb_spec next (hi + 1)); destruct (decide (in_ranges b l)) as [Hb|Hb];
    ((assert (E : in_ranges b l ↔ True) by tauto) || (assert (E : in_ranges b l ↔ False) by tauto));
    try specialize (Hbelow Hb); rewrite E; clear - Hbelow Hlo Hhi H H0; lia.
Qed.

Lemma complement_ok ranges b :
  Forall is_range ranges → in_ranges b (complement_ranges ranges) ↔ is_u8 b ∧ ¬ in_ranges b ranges.
Proof.
  intros Hr. unfold complement_ranges. rewrite gaps_ok; [|apply sort_ranges_sorted|by rewrite sort_ranges_perm].
  by rewrite (in_ranges_perm b _ _ (sort_ranges_perm ranges)).
Qed.

(** What a range of a class holds: with the flag, both cases of its letters. *)
Lemma class_range_ok p lo hi b :
  in_ranges b (class_range p lo hi)
  ↔ lo ≤ b ≤ hi
    ∨ (ci (flags p) = true
       ∧ ((97 ≤ b ≤ 122 ∧ lo ≤ b - 32 ≤ hi) ∨ (65 ≤ b ≤ 90 ∧ lo ≤ b + 32 ≤ hi))).
Proof.
  unfold class_range. rewrite in_ranges_cons. simpl. destruct (ci (flags p)).
  - rewrite in_ranges_app.
    destruct (Z.leb_spec (Z.max lo 65) (Z.min hi 90)), (Z.leb_spec (Z.max lo 97) (Z.min hi 122));
      rewrite ?in_ranges_cons, ?in_ranges_nil; simpl; intuition lia.
  - rewrite in_ranges_nil. intuition congruence.
Qed.
