(* ===== verification/FilterTable.v ===== *)
(** * The table of domains while lists are loaded ([onetdns-filter/src/table.rs])

    A chained hash table over an arena of keys: every entry points to the next
    older one of its bucket, removed entries are marked and unlinked.  Whatever
    the hasher is, the table is a list of distinct keys in the order in which
    they came, and the first of two rules for a name wins. *)

From S2P Require Import Prelude.

#[local] Open Scope outcome_scope.

Notation bytes := (list Z) (only parsing).

(** [NONE] and [DEAD]. *)
Definition NONE : Z := U32_MAX.
Definition DEAD : Z := U32_MAX.

(** [as u32]. *)
Definition as_u32 (v : Z) : Z := v mod 2 ^ 32.

(** [struct Entry]. *)
Record Entry : Type := mkEntry { start : Z; elen : Z; source : Z; next : Z }.

(** [struct DomainTable]; the hasher is a parameter of the operations. *)
Record DomainTable : Type := mkTable {
  text : bytes;
  entries : list Entry;
  buckets : list Z;
  live : Z;
  overflowed : bool
}.

Definition DomainTable_default : DomainTable := mkTable [] [] [] 0 false.

Definition set_next (n : Z) (e : Entry) : Entry := mkEntry (start e) (elen e) (source e) n.
Definition kill (e : Entry) : Entry := mkEntry (start e) DEAD (source e) (next e).
Definition set_buckets (b : list Z) (t : DomainTable) : DomainTable :=
  mkTable (text t) (entries t) b (live t) (overflowed t).

(** [arena_fits]. *)
Definition arena_fits (text_len key_len entry_count : Z) : bool :=
  match checked_add text_len key_len with Some e => e <=? U32_MAX | None => false end && (entry_count <? NONE).

(** [key_in]: a slice out of range is a panic. *)
Definition key_in {E} (text : bytes) (e : Entry) : outcome E bytes :=
  match get_range text (start e) (start e + elen e) with Some k => Ok k | None => Panic end.

(** [vec[i]] and [vec[i] = x]. *)
Definition at_ {E A} (l : list A) (i : Z) : outcome E A :=
  match get l i with Some x => Ok x | None => Panic end.
Definition put {E A} (l : list A) (i : Z) (x : A) : outcome E (list A) :=
  match set_at l i x with Some l => Ok l | None => Panic end.

(** [DomainTable::len] and [is_empty]. *)
Definition DomainTable_len (t : DomainTable) : Z := live t.
Definition DomainTable_is_empty (t : DomainTable) : bool := live t =? 0.

Section hasher.
Context (hasher : bytes → Z).

(** [DomainTable::slot]. *)
Definition slot (buckets : list Z) (key : bytes) : Z := Z.land (hasher key) (zlen buckets - 1).

(** The walk along a bucket to a key: the entry before it, its number and it. *)
Fixpoint find_key {E} (fuel : nat) (t : DomainTable) (key : bytes) (previous cursor : Z) :
    outcome E (option (Z * Z * Entry)) :=
  match fuel with
  | O => NoFuel
  | S fuel =>
      if cursor =? NONE then Ok None
      else
        try! e := at_ (entries t) cursor in
        try! found := (if elen e =? DEAD then Ok false
                       else try! k := key_in (text t) e in Ok (bool_decide (k = key))) in
        if (found : bool) then Ok (Some (previous, cursor, e)) else find_key fuel t key cursor (next e)
  end.

(** The loop of [DomainTable::rebuild_buckets]. *)
Fixpoint relink {E} (count : nat) (index : Z) (t : DomainTable) : outcome E DomainTable :=
  match count with
  | O => Ok t
  | S count =>
      try! e := at_ (entries t) index in
      if elen e =? DEAD then relink count (index + 1) t
      else
        try! k := key_in (text t) e in
        let s := slot (buckets t) k in
        try! b := at_ (buckets t) s in
        try! es := put (entries t) index (set_next b e) in
        try! bs := put (buckets t) s (as_u32 index) in
        relink count (index + 1) (mkTable (text t) es bs (live t) (overflowed t))
  end.

Definition rebuild_buckets {E} (len : Z) (t : DomainTable) : outcome E DomainTable :=
  relink (length (entries t)) 0 (set_buckets (replicate (Z.to_nat len) NONE) t).

(** [DomainTable::grow]. *)
Definition grow {E} (t : DomainTable) : outcome E DomainTable := rebuild_buckets (Z.max (zlen (buckets t) * 2) 64) t.

(** [usize::next_power_of_two], for numbers that have one. *)
Definition next_power_of_two (n : Z) : Z := 2 ^ Z.log2_up n.

(** [DomainTable::reserve]; the capacity of the entries has no effect. *)
Definition reserve {E} (additional : Z) (t : DomainTable) : outcome E DomainTable :=
  let wanted := Z.max (next_power_of_two (live t + additional)) 64 in
  if zlen (buckets t) <? wanted then rebuild_buckets wanted t else Ok t.

(** [DomainTable::insert_if_absent]: whether the key was inserted. *)
Definition insert_if_absent {E} (key : bytes) (src : Z) (t : DomainTable) : outcome E (bool * DomainTable) :=
  try! t := (if bool_decide (buckets t = []) then Ok (set_buckets (replicate 64 NONE) t)
             else if zlen (buckets t) <=? live t then grow t else Ok t) in
  let s := slot (buckets t) key in
  try! head := at_ (buckets t) s in
  try! found := find_key (S (length (entries t))) t key NONE head in
  match found with
  | Some _ => Ok (false, t)
  | None =>
      if negb (arena_fits (zlen (text t)) (zlen key) (zlen (entries t))) then
        Ok (false, mkTable (text t) (entries t) (buckets t) (live t) true)
      else
        let entry := mkEntry (as_u32 (zlen (text t))) (as_u32 (zlen key)) src head in
        let es := entries t ++ [entry] in
        try! bs := put (buckets t) s (as_u32 (zlen es - 1)) in
        Ok (true, mkTable (text t ++ key) es bs (live t + 1) (overflowed t))
  end.

(** [DomainTable::remove]; the count of live entries below zero is a panic. *)
Definition remove {E} (key : bytes) (t : DomainTable) : outcome E (bool * DomainTable) :=
  if bool_decide (buckets t = []) then Ok (false, t)
  else
    let s := slot (buckets t) key in
    try! head := at_ (buckets t) s in
    try! found := find_key (S (length (entries t))) t key NONE head in
    match found with
    | None => Ok (false, t)
    | Some (previous, cursor, entry) =>
        try! t := (if previous =? NONE then
                     try! bs := put (buckets t) s (next entry) in Ok (set_buckets bs t)
                   else
                     try! e := at_ (entries t) previous in
                     try! es := put (entries t) previous (set_next (next entry) e) in
                     Ok (mkTable (text t) es (buckets t) (live t) (overflowed t))) in
        try! e := at_ (entries t) cursor in
        try! es := put (entries t) cursor (kill e) in
        if live t <? 1 then Panic
        else Ok (true, mkTable (text t) es (buckets t) (live t - 1) (overflowed t))
    end.

(** [DomainTable::get_key_value]. *)
Definition get_key_value {E} (key : bytes) (t : DomainTable) : outcome E (option (bytes * Z)) :=
  if bool_decide (buckets t = []) then Ok None
  else
    try! head := at_ (buckets t) (slot (buckets t) key) in
    try! found := find_key (S (length (entries t))) t key NONE head in
    match found with
    | None => Ok None
    | Some (_, _, e) => try! k := key_in (text t) e in Ok (Some (k, source e))
    end.
End hasher.

(** [DomainTable::iter] and [SortedDomains::iter]. *)
Fixpoint keys_of {E} (text : bytes) (es : list Entry) : outcome E (list (bytes * Z)) :=
  match es with
  | [] => Ok []
  | e :: es => try! k := key_in text e in try! l := keys_of text es in Ok ((k, source e) :: l)
  end.

Definition alive (e : Entry) : bool := negb (elen e =? DEAD).
Definition iter {E} (t : DomainTable) : outcome E (list (bytes * Z)) := keys_of (text t) (List.filter alive (entries t)).

(** [struct SortedDomains] and [DomainTable::into_sorted]: the sort of the
    standard library is the parameter [sort]. *)
Record SortedDomains : Type := mkSorted { sd_text : bytes; sd_entries : list Entry }.

Definition into_sorted (sort : bytes → list Entry → list Entry) (t : DomainTable) : SortedDomains :=
  mkSorted (text t) (sort (text t) (List.filter alive (entries t))).

Definition SortedDomains_len (d : SortedDomains) : Z := zlen (sd_entries d).
Definition SortedDomains_iter {E} (d : SortedDomains) : outcome E (list (bytes * Z)) := keys_of (sd_text d) (sd_entries d).
