(* ===== verification/FilterTableSpec.v ===== *)
(** * The domain table is a list of distinct keys; its sequences of operations

    The chain of a bucket is determined by which entries are alive and by
    their slots: every entry points to the nearest older live entry of its
    bucket.  With that as the invariant each operation is one on the list of
    live keys.

    The table against its specification: the list of the rules in the order in
    which they came, together with what limits it (the octets and the entries
    that were ever stored, since neither is reused). *)

From Stdlib Require Import Sorted.
From S2P Require Import Prelude FilterTable.

#[local] Open Scope outcome_scope.

(** What the entries hold: a key with its source, or nothing. *)
Notation cells := (list (option (list Z * Z))) (only parsing).

(** The nearest entry before [b] in slot [s]. *)
Fixpoint before (sl : list Z → Z) (c : cells) (s : Z) (b : nat) : Z :=
  match b with
  | O => NONE
  | S b =>
      match c !! b with
      | Some (Some (k, _)) => if sl k =? s then Z.of_nat b else before sl c s b
      | _ => before sl c s b
      end
  end.

Definition holds_cell (c : cells) (i : nat) (k : list Z) (src : Z) : Prop := c !! i = Some (Some (k, src)).

Definition live_cells (c : cells) : list (list Z * Z) := omap id c.

Lemma before_lt sl c s b : before sl c s b = NONE ∨ 0 ≤ before sl c s b < Z.of_nat b.
Proof.
  induction b as [|b IH]; simpl; [by left|]. destruct (c !! b) as [[[k v]|]|]; try (destruct IH; [by left|right; lia]).
  destruct (sl k =? s); [right; lia|]. destruct IH; [by left|right; lia].
Qed.

(** What [before] finds, and that nothing is in between. *)
Lemma before_spec sl c s b :
  (before sl c s b = NONE ∧ ∀ i k v, (i < b)%nat → holds_cell c i k v → sl k ≠ s)
  ∨ ∃ i k v, before sl c s b = Z.of_nat i ∧ (i < b)%nat ∧ holds_cell c i k v ∧ sl k = s
      ∧ ∀ j k' v', (i < j < b)%nat → holds_cell c j k' v' → sl k' ≠ s.
Proof.
  induction b as [|b IH]; [left; split; [done|lia]|]. cbn [before].
  assert (Hskip : (∀ k v, holds_cell c b k v → sl k ≠ s) →
    (before sl c s b = NONE ∧ ∀ i k v, (i < S b)%nat → holds_cell c i k v → sl k ≠ s)
    ∨ ∃ i k v, before sl c s b = Z.of_nat i ∧ (i < S b)%nat ∧ holds_cell c i k v ∧ sl k = s
      ∧ ∀ j k' v', (i < j < S b)%nat → holds_cell c j k' v' → sl k' ≠ s).
  { intros Hb. destruct IH as [[-> H]|(i & k & v & -> & Hi & Hc & Hs & H)].
    - left. split; [done|]. intros i k v Hi. destruct (decide (i = b)) as [->|]; [apply Hb|apply H; lia].
    - right. exists i, k, v. split_and!; [done|lia|done|done|]. intros j k' v' Hj.
      destruct (decide (j = b)) as [->|]; [apply Hb|apply H; lia]. }
  destruct (c !! b) as [[[k v]|]|] eqn:E; try (apply Hskip; intros k' v' H'; unfold holds_cell in H'; congruence).
  destruct (Z.eqb_spec (sl k) s) as [Hs|Hs].
  - right. exists b, k, v. split_and!; [done|lia|done|done|lia].
  - apply Hskip. intros k' v' H'. unfold holds_cell in H'. congruence.
Qed.

Lemma before_ext sl sl' c c' s b :
  (∀ i, (i < b)%nat → c !! i = c' !! i) → (∀ k, sl k = sl' k) → before sl c s b = before sl' c' s b.
Proof.
  intros H Hs. induction b as [|b IH]; [done|]. cbn [before]. rewrite <- (H b) by lia. rewrite IH by (intros; apply H; lia).
  destruct (c !! b) as [[[k v]|]|]; [|done|done]. by rewrite Hs.
Qed.

(** Entry [i] goes: who pointed to it now points past it. *)
Lemma before_remove sl c s b i k v :
  holds_cell c i k v → Z.of_nat i < NONE →
  before sl (<[i := None]> c) s b = if before sl c s b =? Z.of_nat i then before sl c s i else before sl c s b.
Proof.
  intros Hi HN. assert (Hlt : (i < length c)%nat) by by eapply lookup_lt_Some.
  assert (Hself : (before sl c s i =? Z.of_nat i) = false).
  { apply Z.eqb_neq. destruct (before_lt sl c s i) as [->|H]; lia. }
  induction b as [|b IH]; cbn [before]; [by rewrite (proj2 (Z.eqb_neq NONE _)) by lia|].
  destruct (decide (b = i)) as [->|Hne].
  - rewrite list_lookup_insert_eq by done. unfold holds_cell in Hi. rewrite Hi.
    rewrite (before_ext sl sl (<[i:=None]> c) c) by (done || (intros; apply list_lookup_insert_ne; lia)).
    destruct (sl k =? s); [by rewrite Z.eqb_refl|by rewrite Hself].
  - rewrite list_lookup_insert_ne by done.
    destruct (c !! b) as [[[k' v']|]|]; [|done|done].
    destruct (sl k' =? s); [by rewrite (proj2 (Z.eqb_neq _ _)) by lia|done].
Qed.

(** Two entries that point to the same one are the same. *)
Lemma before_inj sl c s i j k v k' v' n :
  holds_cell c i k v → holds_cell c j k' v' → sl k = s → sl k' = s →
  before sl c s i = n → before sl c s j = n → n ≠ NONE → i = j.
Proof.
  intros Hi Hj Hk Hk' Hbi Hbj Hn. destruct (before_spec sl c s i) as [[? _]|(a & ka & va & Ea & Hai & Hca & Hsa & Ha)]; [congruence|].
  destruct (before_spec sl c s j) as [[? _]|(b & kb & vb & Eb & Hbj' & Hcb & Hsb & Hb)]; [congruence|].
  assert (a = b) by lia. subst b. destruct (lt_eq_lt_dec i j) as [[Hlt|]|Hlt]; [|done|].
  - exfalso. by eapply (Hb i); [lia|done|].
  - exfalso. by eapply (Ha j); [lia|done|].
Qed.

(** ** The invariant *)

(** A live entry holds its key, a dead one is marked. *)
Definition cell_ok (text : list Z) (o : option (option (list Z * Z))) (e : Entry) : Prop :=
  match o with
  | Some (Some (k, v)) => elen e ≠ DEAD ∧ get_range text (start e) (start e + elen e) = Some k ∧ source e = v
  | _ => elen e = DEAD
  end.

Section table.
Context (hasher : list Z → Z).

(** Buckets and entries point to where [before] says. *)
Definition links (c : cells) (b : list Z) (es : list Entry) (upto : nat) : Prop :=
  (∀ s, 0 ≤ s < zlen b → get b s = Some (before (slot hasher b) c s upto))
  ∧ ∀ i e k v, (i < upto)%nat → es !! i = Some e → holds_cell c i k v →
      next e = before (slot hasher b) c (slot hasher b k) i.

Record repr (c : cells) (t : DomainTable) : Prop := {
  rp_len : length c = length (entries t);
  rp_max : zlen (entries t) ≤ NONE;
  rp_text : zlen (text t) ≤ U32_MAX;
  rp_cell : ∀ i e, entries t !! i = Some e → cell_ok (text t) (c !! i) e;
  rp_keys : ∀ i j k v v', holds_cell c i k v → holds_cell c j k v' → i = j;
  rp_live : live t = zlen (live_cells c);
  rp_empty : buckets t = [] → c = [];
  rp_links : buckets t ≠ [] → links c (buckets t) (entries t) (length c)
}.

Lemma slot_range b key : b ≠ [] → 0 ≤ slot hasher b key < zlen b.
Proof.
  intros Hb. unfold slot. assert (1 ≤ zlen b) by (destruct b; [done|rewrite zlen_cons; pose proof (zlen_nonneg b); lia]).
  split; [apply Z.land_nonneg; lia|]. assert (Z.land (hasher key) (zlen b - 1) ≤ zlen b - 1); [|lia].
  destruct (decide (zlen b - 1 = 0)) as [->|Hne]; [by rewrite Z.land_0_r|].
  rewrite Z.land_comm. apply Z.ldiff_le; [lia|]. rewrite Z.ldiff_land. 
  apply Z.bits_inj'. intros n Hn. rewrite Z.bits_0, !Z.land_spec, Z.lnot_spec by done.
  destruct (Z.testbit (zlen b - 1) n), (Z.testbit (hasher key) n); done.
Qed.

Lemma at_lookup {E A} (l : list A) i x : l !! i = Some x → at_ (E:=E) l (Z.of_nat i) = Ok x.
Proof. intros H. unfold at_. rewrite (proj2 (get_Some_lookup l _ x)); [done|]. rewrite Nat2Z.id. by split; [lia|]. Qed.

Lemma put_lookup {E A} (l : list A) i x y : l !! i = Some x → put (E:=E) l (Z.of_nat i) y = Ok (<[i := y]> l).
Proof.
  intros H. unfold put, set_at. apply lookup_lt_Some in H. unfold zlen.
  rewrite (proj2 (Z.leb_le _ _)), (proj2 (Z.ltb_lt _ _)) by lia. by rewrite Nat2Z.id.
Qed.

Lemma cell_lookup c t i : repr c t → (i < length c)%nat → ∃ e, entries t !! i = Some e.
Proof. intros H Hi. rewrite (rp_len _ _ H) in Hi. by apply lookup_lt_is_Some_2. Qed.

(** The entry found, and the one from which the walk came to it. *)
Definition found_from (c : cells) (sl : list Z → Z) (s previous p : Z) (b i : nat) : Prop :=
  (p = previous ∧ before sl c s b = Z.of_nat i)
  ∨ ∃ j k v, p = Z.of_nat j ∧ (i < j < b)%nat ∧ holds_cell c j k v ∧ sl k = s ∧ before sl c s j = Z.of_nat i.

Lemma find_key_spec {E} c t key : repr c t → buckets t ≠ [] → let sl := slot hasher (buckets t) in
  ∀ fuel b previous, (b ≤ length c)%nat → (b < fuel)%nat →
  (∃ i v e p, (i < b)%nat ∧ holds_cell c i key v ∧ entries t !! i = Some e ∧ found_from c sl (sl key) previous p b i
     ∧ find_key (E:=E) fuel t key previous (before sl c (sl key) b) = Ok (Some (p, Z.of_nat i, e)))
  ∨ ((∀ i v, (i < b)%nat → ¬ holds_cell c i key v) ∧ find_key (E:=E) fuel t key previous (before sl c (sl key) b) = Ok None).
Proof.
  intros H Hb sl. pose proof (rp_links _ _ H Hb) as [_ Hl]. induction fuel as [|fuel IH]; intros b previous Hbl Hf; [lia|].
  cbn [find_key]. destruct (before_spec sl c (sl key) b) as [[E0 Hnone]|(i & k & v & E0 & Hi & Hc & Hs & Hbetween)].
  { right. rewrite E0, Z.eqb_refl. split; [|done]. intros i v Hi Hc. by eapply Hnone. }
  destruct (cell_lookup c t i H) as [e He]; [lia|]. pose proof (rp_max _ _ H) as Hmax.
  assert (Hlt : (i < length (entries t))%nat) by by eapply lookup_lt_Some.
  rewrite E0, (proj2 (Z.eqb_neq _ _)) by (unfold zlen in Hmax; lia). rewrite (at_lookup _ _ _ He). cbn [obind].
  pose proof (rp_cell _ _ H i e He) as Hcell. unfold cell_ok in Hcell. unfold holds_cell in Hc. rewrite Hc in Hcell.
  destruct Hcell as (Hd & Hk & Hsrc). rewrite (proj2 (Z.eqb_neq _ _)) by done. unfold key_in. rewrite Hk. cbn [obind].
  case_bool_decide as Hkey.
  - left. subst k. exists i, v, e, previous. split_and!; [done|done|done|by left|done].
  - rewrite (Hl i e k v) by (done || lia). fold sl. rewrite Hs.
    destruct (IH i (Z.of_nat i)) as [(j & v' & e' & p & Hj & Hcj & Hej & Hfrom & ->)|[Hno ->]]; [lia|lia| |].
    + left. exists j, v', e', p. split_and!; [lia|done|done| |done]. right.
      destruct Hfrom as [[-> Hbj]|(j' & k' & v'' & -> & Hj' & Hr)]; [by exists i, k, v; split_and!; [..|lia|lia| | |]|].
      exists j', k', v''. split_and!; [done|lia|lia|apply Hr..].
    + right. split; [|done]. intros j w Hjb Hcj. destruct (lt_eq_lt_dec j i) as [[Hlt'|Heq]|Hgt].
      * by eapply Hno.
      * subst j. unfold holds_cell in Hcj. congruence.
      * eapply Hbetween; [|exact Hcj|done]. lia.
Qed.

(** ** Rebuilding the buckets *)

(** The invariant without the links. *)
Record stored (c : cells) (t : DomainTable) : Prop := {
  st_len : length c = length (entries t);
  st_max : zlen (entries t) ≤ NONE;
  st_text : zlen (text t) ≤ U32_MAX;
  st_cell : ∀ i e, entries t !! i = Some e → cell_ok (text t) (c !! i) e;
  st_keys : ∀ i j k v v', holds_cell c i k v → holds_cell c j k v' → i = j;
  st_live : live t = zlen (live_cells c)
}.

Lemma repr_stored c t : repr c t → stored c t.
Proof. by intros []. Qed.

Lemma stored_repr c t :
  stored c t → buckets t ≠ [] → links c (buckets t) (entries t) (length c) → repr c t.
Proof. intros [] Hb Hl. by split. Qed.

Lemma links_extend c b es j :
  links c b es j → (∀ k v, ¬ holds_cell c j k v) → links c b es (S j).
Proof.
  intros [H1 H2] Hj. split.
  - intros s Hs. rewrite (H1 s Hs). f_equal. cbn [before]. destruct (c !! j) as [[[k v]|]|] eqn:E; [|done|done].
    by destruct (Hj k v).
  - intros i e k v Hi. destruct (decide (i = j)) as [->|]; [by intros _ ?%Hj|]. apply H2. lia.
Qed.

Lemma before_insert_neq sl c s b i o : (b ≤ i)%nat → before sl (<[i := o]> c) s b = before sl c s b.
Proof. intros H. apply before_ext; [|done]. intros j Hj. apply list_lookup_insert_ne. lia. Qed.

(** Entry [j] is linked in front of its bucket. *)
Lemma links_push c b es j e k v :
  b ≠ [] → links c b es j → es !! j = Some e → holds_cell c j k v → Z.of_nat j < NONE →
  let s := slot hasher b k in
  get b s = Some (before (slot hasher b) c s j)
  ∧ links c (<[Z.to_nat s := Z.of_nat j]> b) (<[j := set_next (before (slot hasher b) c s j) e]> es) (S j).
Proof.
  intros Hb [H1 H2] He Hc Hj s. pose proof (slot_range b k Hb) as Hs. fold s in Hs. split; [by apply H1|].
  assert (Hsl : ∀ k, slot hasher (<[Z.to_nat s := Z.of_nat j]> b) k = slot hasher b k)
    by (intros; unfold slot; by rewrite zlen_insert).
  assert (Hbf : ∀ s' n, before (slot hasher (<[Z.to_nat s := Z.of_nat j]> b)) c s' n = before (slot hasher b) c s' n)
    by (intros; apply before_ext; [done|apply Hsl]).
  split.
  - intros s' Hs'. rewrite zlen_insert in Hs'. rewrite Hbf. cbn [before]. unfold holds_cell in Hc. rewrite Hc. fold s.
    unfold get. rewrite (proj2 (Z.ltb_ge _ _)) by lia. destruct (Z.eqb_spec s s') as [<-|Hne].
    + apply list_lookup_insert_eq. unfold zlen in Hs. lia.
    + rewrite list_lookup_insert_ne by lia. specialize (H1 s' Hs'). unfold get in H1.
      by rewrite (proj2 (Z.ltb_ge _ _)) in H1 by lia.
  - intros i e' k' v' Hi He' Hc'. rewrite Hbf, Hsl. destruct (decide (i = j)) as [->|Hne].
    + rewrite list_lookup_insert_eq in He' by by eapply lookup_lt_Some. injection He' as <-.
      unfold holds_cell in *. assert (k' = k) as -> by congruence. done.
    + rewrite list_lookup_insert_ne in He' by done. eapply H2; [lia|done|done].
Qed.

Lemma stored_relink c t bs i e n :
  stored c t → entries t !! i = Some e →
  stored c (mkTable (text t) (<[i := set_next n e]> (entries t)) bs (live t) (overflowed t)).
Proof.
  intros H He. pose proof H as []. split; simpl; try done.
  - by rewrite length_insert.
  - by rewrite zlen_insert.
  - intros j e' He'. destruct (decide (j = i)) as [->|Hne].
    + rewrite list_lookup_insert_eq in He' by by eapply lookup_lt_Some. injection He' as <-. by apply (st_cell _ _ H i e He).
    + rewrite list_lookup_insert_ne in He' by done. by apply (st_cell _ _ H).
Qed.

Lemma relink_spec {E} c count : ∀ j t,
  stored c t → buckets t ≠ [] → links c (buckets t) (entries t) j → (j + count)%nat = length c →
  ∃ t', relink hasher (E:=E) count (Z.of_nat j) t = Ok t' ∧ repr c t' ∧ text t' = text t ∧ zlen (buckets t') = zlen (buckets t)
    ∧ overflowed t' = overflowed t.
Proof.
  induction count as [|count IH]; intros j t Hst Hb Hl Hj; cbn [relink].
  { exists t. split; [done|]. split_and!; [|done..]. apply stored_repr; [done|done|]. by replace (length c) with j by lia. }
  assert (Hlt : (j < length (entries t))%nat) by (rewrite <- (st_len _ _ Hst); lia).
  destruct (lookup_lt_is_Some_2 _ _ Hlt) as [e He]. rewrite (at_lookup _ _ _ He). cbn [obind].
  pose proof (st_cell _ _ Hst j e He) as Hcell. pose proof (st_max _ _ Hst) as Hmax. unfold zlen in Hmax.
  replace (Z.of_nat j + 1) with (Z.of_nat (S j)) by lia.
  destruct (c !! j) as [[[k v]|]|] eqn:Ec; simpl in Hcell.
  - destruct Hcell as (Hd & Hk & Hs). rewrite (proj2 (Z.eqb_neq _ _)) by done. unfold key_in. rewrite Hk. cbn [obind].
    destruct (links_push c (buckets t) (entries t) j e k v Hb Hl He Ec ltac:(lia)) as [Hget Hl'].
    pose proof (slot_range (buckets t) k Hb) as Hsl. set (s := slot hasher (buckets t) k) in *.
    unfold at_. rewrite Hget. cbn [obind]. rewrite (put_lookup _ _ _ _ He). cbn [obind].
    unfold put, set_at. rewrite (proj2 (Z.leb_le _ _)), (proj2 (Z.ltb_lt _ _)) by lia. cbn [andb obind].
    unfold as_u32. rewrite Z.mod_small by (unfold NONE, U32_MAX in Hmax; lia).
    destruct (IH (S j) (mkTable (text t) (<[j := set_next (before (slot hasher (buckets t)) c s j) e]> (entries t))
      (<[Z.to_nat s := Z.of_nat j]> (buckets t)) (live t) (overflowed t))) as (t' & Ht' & Hr & Htx & Hz & Ho).
    + by apply stored_relink.
    + simpl. intros E0. apply (f_equal length) in E0. rewrite length_insert in E0. by destruct (buckets t).
    + done.
    + lia.
    + exists t'. simpl in *. rewrite zlen_insert in Hz. done.
  - rewrite Hcell, Z.eqb_refl. apply IH; [done|done| |lia]. apply links_extend; [done|]. unfold holds_cell. congruence.
  - apply lookup_ge_None_1 in Ec. lia.
Qed.

Lemma links_empty c n es : links c (replicate n NONE) es 0.
Proof.
  split; [|lia]. intros s Hs. unfold zlen in Hs. rewrite length_replicate in Hs.
  apply get_Some_lookup. split; [lia|]. apply lookup_replicate_2. lia.
Qed.

Lemma rebuild_spec {E} c t n : stored c t → 1 ≤ n →
  ∃ t', rebuild_buckets hasher (E:=E) n t = Ok t' ∧ repr c t' ∧ text t' = text t ∧ zlen (buckets t') = n ∧ overflowed t' = overflowed t.
Proof.
  intros Hst Hn. unfold rebuild_buckets. rewrite <- (st_len _ _ Hst).
  assert (Hz : zlen (replicate (Z.to_nat n) NONE) = n) by (unfold zlen; rewrite length_replicate; lia).
  destruct (relink_spec (E:=E) c (length c) 0 (set_buckets (replicate (Z.to_nat n) NONE) t)) as (t' & Ht' & Hr & Htx & Hz' & Ho).
  - by destruct Hst.
  - simpl. intros E0. rewrite E0 in Hz. unfold zlen in Hz. simpl in Hz. lia.
  - apply links_empty.
  - done.
  - exists t'. simpl in *. by rewrite Hz' , Hz.
Qed.

(** ** The operations *)

Lemma live_cells_elem c k v : (k, v) ∈ live_cells c ↔ ∃ i, holds_cell c i k v.
Proof.
  unfold live_cells. rewrite list_elem_of_omap. split.
  - intros (o & [i Hi]%list_elem_of_lookup & Ho). exists i. unfold holds_cell. by rewrite Hi, <- Ho.
  - intros [i Hi]. exists (Some (k, v)). split; [by eapply list_elem_of_lookup_2|done].
Qed.

Lemma live_cells_app a b : live_cells (a ++ b) = live_cells a ++ live_cells b.
Proof. apply omap_app. Qed.

Lemma live_cells_keys c :
  (∀ i j k v v', holds_cell c i k v → holds_cell c j k v' → i = j) → NoDup (map fst (live_cells c)).
Proof.
  induction c as [|o c IH]; intros H; [constructor|].
  assert (Hc : NoDup (map fst (live_cells c))).
  { apply IH. intros i j k v v' Hi Hj. assert (S i = S j) by by eapply H. lia. }
  destruct o as [[k v]|]; [|done]. change (NoDup (k :: map fst (live_cells c))). constructor; [|done].
  intros ((k' & v') & -> & [i Hi]%live_cells_elem)%list_elem_of_fmap.
  assert (0%nat = S i) by by eapply (H 0%nat (S i)). done.
Qed.

(** The live keys and their sources. *)
Notation lookup_key key l := (List.find (λ p, bool_decide (fst p = key)) l).

Lemma lookup_key_Some (key : list Z) (l : list (list Z * Z)) v :
  NoDup (map fst l) → (key, v) ∈ l → lookup_key key l = Some (key, v).
Proof.
  induction l as [|[k w] l IH]; [by intros _ ?%elem_of_nil|]. intros Hnd [E|Hin]%elem_of_cons; simpl.
  - injection E as <- <-. by rewrite bool_decide_true.
  - apply NoDup_cons in Hnd as [Hni Hnd]. case_bool_decide as Hk; [|auto]. subst. destruct Hni.
    apply list_elem_of_fmap. by exists (key, v).
Qed.

Lemma lookup_key_None (key : list Z) (l : list (list Z * Z)) : (∀ v, (key, v) ∉ l) → lookup_key key l = None.
Proof.
  intros H. destruct (lookup_key key l) as [[k v]|] eqn:E; [|done]. apply find_some in E as [Hin Hk].
  case_bool_decide; [|done]. simpl in *. subst. apply list_elem_of_In in Hin. by destruct (H v).
Qed.

(** A search from the head of its bucket finds a key exactly if it is live. *)
Lemma find_head {E} c t key : repr c t → buckets t ≠ [] →
  ∃ head, at_ (E:=E) (buckets t) (slot hasher (buckets t) key) = Ok head
    ∧ head = before (slot hasher (buckets t)) c (slot hasher (buckets t) key) (length c)
    ∧ ((∃ i v e p, holds_cell c i key v ∧ entries t !! i = Some e
          ∧ found_from c (slot hasher (buckets t)) (slot hasher (buckets t) key) NONE p (length c) i
          ∧ find_key (E:=E) (S (length (entries t))) t key NONE head = Ok (Some (p, Z.of_nat i, e)))
       ∨ ((∀ v, (key, v) ∉ live_cells c) ∧ find_key (E:=E) (S (length (entries t))) t key NONE head = Ok None)).
Proof.
  intros H Hb. pose proof (rp_links _ _ H Hb) as [Hget _]. eexists. split_and!; [|done|].
  { unfold at_. by rewrite Hget by by apply slot_range. }
  destruct (find_key_spec (E:=E) c t key H Hb (S (length (entries t))) (length c) NONE) as [(i & v & e & p & Hi & Hr)|[Hno ->]];
    [lia|rewrite (rp_len _ _ H); lia| |].
  - left. by exists i, v, e, p.
  - right. split; [|done]. intros v [i Hi]%live_cells_elem. eapply Hno; [|done]. by eapply lookup_lt_Some.
Qed.

Lemma get_key_value_spec {E} c t key : repr c t →
  get_key_value hasher (E:=E) key t = Ok (lookup_key key (live_cells c)).
Proof.
  intros H. unfold get_key_value. pose proof (live_cells_keys c (rp_keys _ _ H)) as Hnd. case_bool_decide as Hb.
  { rewrite (rp_empty _ _ H Hb). done. }
  destruct (find_head (E:=E) c t key H Hb) as (head & -> & _ & [(i & v & e & p & Hc & He & _ & Hf)|[Hno Hf]]);
    cbn [obind]; rewrite Hf; cbn [obind].
  - pose proof (rp_cell _ _ H i e He) as Hcell. unfold holds_cell in Hc. rewrite Hc in Hcell.
    destruct Hcell as (_ & Hk & <-). unfold key_in. rewrite Hk. cbn [obind]. f_equal. symmetry. apply lookup_key_Some; [done|].
    apply live_cells_elem. by exists i.
  - f_equal. symmetry. by apply lookup_key_None.
Qed.

Lemma range_grow_app {A} (b r : list A) i j s : get_range b i j = Some s → get_range (b ++ r) i j = Some s.
Proof.
  intros H. apply (get_range_ext b); [done| |].
  - apply get_range_Some in H as (_ & Hj & _). rewrite zlen_app. pose proof (zlen_nonneg r). lia.
  - intros k Hk. apply get_range_Some in H as (Hij & Hj & _). apply get_app_l. lia.
Qed.

Lemma holds_app c k v i k' v' :
  holds_cell (c ++ [Some (k, v)]) i k' v' → holds_cell c i k' v' ∨ (i = length c ∧ k' = k ∧ v' = v).
Proof.
  unfold holds_cell. intros H. apply lookup_app_Some in H as [H|[Hle H]]; [by left|]. right.
  apply list_lookup_singleton_Some in H as [Hi [= <- <-]]. split_and!; [lia|done|done].
Qed.

(** A new key goes to the end, in front of its bucket. *)
Lemma push_repr {E} c t key src head :
  repr c t → buckets t ≠ [] → (∀ v, (key, v) ∉ live_cells c) → zlen key < U32_MAX →
  arena_fits (zlen (text t)) (zlen key) (zlen (entries t)) = true →
  head = before (slot hasher (buckets t)) c (slot hasher (buckets t) key) (length c) →
  ∃ t', (try! bs := put (E:=E) (buckets t) (slot hasher (buckets t) key)
            (as_u32 (zlen (entries t ++ [mkEntry (as_u32 (zlen (text t))) (as_u32 (zlen key)) src head]) - 1)) in
         Ok (true, mkTable (text t ++ key) (entries t ++ [mkEntry (as_u32 (zlen (text t))) (as_u32 (zlen key)) src head])
              bs (live t + 1) (overflowed t))) = Ok (true, t')
    ∧ repr (c ++ [Some (key, src)]) t' ∧ overflowed t' = overflowed t ∧ text t' = text t ++ key.
Proof.
  intros H Hb Hno Hkey Hfit Hhead. unfold arena_fits, checked_add in Hfit.
  destruct (zlen (text t) + zlen key <=? USIZE_MAX) eqn:E1; [|done]. bool_prop.
  pose proof (zlen_nonneg (text t)) as Ht0. pose proof (zlen_nonneg key) as Hk0. pose proof (zlen_nonneg (entries t)) as He0.
  pose proof (rp_len _ _ H) as Hlen. unfold NONE, U32_MAX in *.
  rewrite zlen_app. change (zlen [_]) with 1. unfold as_u32. rewrite !Z.mod_small by lia.
  replace (zlen (entries t) + 1 - 1) with (Z.of_nat (length c)) by (rewrite Hlen; unfold zlen; lia).
  pose proof (slot_range (buckets t) key Hb) as Hs. set (e := mkEntry (zlen (text t)) (zlen key) src head).
  set (s := slot hasher (buckets t) key) in *.
  unfold put, set_at. rewrite (proj2 (Z.leb_le _ _)), (proj2 (Z.ltb_lt _ _)) by lia. cbn [andb obind].
  eexists. split; [done|]. split; [|split; done].
  assert (Hlinks : links (c ++ [Some (key, src)]) (buckets t) (entries t ++ [e]) (length c)).
  { pose proof (rp_links _ _ H Hb) as [Hg Hn]. split.
    - intros s' Hs'. rewrite (Hg s' Hs'). f_equal. apply before_ext; [|done]. intros i Hi. by rewrite lookup_app_l by lia.
    - intros i e' k v Hi He' Hc. rewrite lookup_app_l in He' by lia. unfold holds_cell in Hc. rewrite lookup_app_l in Hc by lia.
      rewrite (Hn i e' k v Hi He' Hc). apply before_ext; [|done]. intros j Hj. by rewrite lookup_app_l by lia. }
  destruct (links_push _ _ _ (length c) e key src Hb Hlinks) as [_ Hl'].
  { rewrite lookup_app_r by lia. by rewrite Hlen, Nat.sub_diag. }
  { unfold holds_cell. rewrite lookup_app_r by lia. by rewrite Nat.sub_diag. }
  { unfold NONE, U32_MAX. rewrite Hlen. unfold zlen in *. lia. }
  split; simpl.
  - rewrite !length_app, Hlen. done.
  - rewrite zlen_app. change (zlen [e]) with 1. unfold NONE, U32_MAX. lia.
  - rewrite zlen_app. unfold U32_MAX. lia.
  - intros i e' He'. apply lookup_app_Some in He' as [He'|[Hi He']].
    + rewrite lookup_app_l by (rewrite Hlen; by eapply lookup_lt_Some). pose proof (rp_cell _ _ H i e' He') as Hc.
      unfold cell_ok in *. destruct (c !! i) as [[[k v]|]|]; [|done|done]. destruct Hc as (? & ? & ?). split_and!; [done| |done].
      by apply range_grow_app.
    + apply list_lookup_singleton_Some in He' as [Hi' <-]. replace i with (length c) by lia.
      rewrite lookup_app_r, Nat.sub_diag by lia. simpl. split_and!; [unfold DEAD, U32_MAX; lia| |done].
      pose proof (get_range_app (text t) key []) as Hg. by rewrite app_nil_r in Hg.
  - intros i j k v v' Hi Hj. apply holds_app in Hi as [Hi|(-> & -> & ->)]; apply holds_app in Hj as [Hj|(-> & Hj & ->)].
    + by eapply (rp_keys _ _ H).
    + subst k. destruct (Hno v). apply live_cells_elem. by exists i.
    + destruct (Hno v'). apply live_cells_elem. by exists j.
    + done.
  - rewrite live_cells_app, zlen_app, (rp_live _ _ H). done.
  - intros E0. apply (f_equal length) in E0. rewrite length_insert in E0. by destruct (buckets t).
  - intros _. rewrite length_app, Nat.add_1_r. rewrite (list_insert_id (entries t ++ [e])) in Hl'; [done|].
    rewrite lookup_app_r by lia. rewrite Hlen, Nat.sub_diag. simpl. f_equal. unfold set_next. unfold e at 2 3 4. simpl.
    f_equal. rewrite Hhead, <- Hlen. apply before_ext; [|done]. intros i Hi. by rewrite lookup_app_l by lia.
Qed.

(** Whether a key is inserted, and the list of keys after it. *)
Definition inserts (key : list Z) (src : Z) (c : cells) (t : DomainTable) : bool :=
  match lookup_key key (live_cells c) with
  | Some _ => false
  | None => arena_fits (zlen (text t)) (zlen key) (zlen (entries t))
  end.

Lemma table_insert_spec {E} c t key src : repr c t → zlen key < U32_MAX →
  ∃ t', insert_if_absent hasher (E:=E) key src t = Ok (inserts key src c t, t')
    ∧ repr (if inserts key src c t then c ++ [Some (key, src)] else c) t'
    ∧ zlen (text t') = zlen (text t) + (if inserts key src c t then zlen key else 0)
    ∧ overflowed t' = overflowed t || negb (inserts key src c t || bool_decide (is_Some (lookup_key key (live_cells c)))).
Proof.
  intros H Hkey. unfold insert_if_absent.
  assert (Hroom : ∃ t1, (if bool_decide (buckets t = []) then Ok (E:=E) (set_buckets (replicate 64 NONE) t)
      else if zlen (buckets t) <=? live t then grow hasher t else Ok t) = Ok t1
      ∧ repr c t1 ∧ buckets t1 ≠ [] ∧ text t1 = text t ∧ zlen (entries t1) = zlen (entries t) ∧ overflowed t1 = overflowed t).
  { case_bool_decide as Hb.
    - eexists. split; [done|]. pose proof (rp_empty _ _ H Hb) as ->. pose proof (repr_stored _ _ H) as Hst.
      split_and!; [|done..]. apply stored_repr; [by destruct Hst|done|]. apply (links_empty [] 64).
    - destruct (zlen (buckets t) <=? live t); [|by exists t].
      destruct (rebuild_spec (E:=E) c t (Z.max (zlen (buckets t) * 2) 64) (repr_stored _ _ H) ltac:(lia)) as (t1 & Ht1 & Hr & Htx & Hz & Ho).
      exists t1. split_and!; [done|done| |done| |done].
      + intros E0. rewrite E0, zlen_nil in Hz. lia.
      + unfold zlen. by rewrite <- (rp_len _ _ Hr), <- (rp_len _ _ H). }
  destruct Hroom as (t1 & -> & H1 & Hb & Htx & Hes & Hov). cbn [obind]. cbv zeta. unfold inserts. rewrite <- Htx, <- Hes, <- Hov.
  destruct (find_head (E:=E) c t1 key H1 Hb) as (head & -> & Hhead & [(i & v & e & p & Hc & He & _ & Hf)|[Hno Hf]]);
    cbn [obind]; rewrite Hf; cbn [obind].
  - rewrite (lookup_key_Some _ _ v); [|apply live_cells_keys, (rp_keys _ _ H)|apply live_cells_elem; by exists i].
    exists t1. rewrite bool_decide_true by by eexists. split_and!; [done|done|cbn; lia|]. by rewrite orb_false_r.
  - rewrite lookup_key_None by done. destruct (arena_fits _ _ _) eqn:Ef; cbn [negb]; clear Hf.
    + destruct (push_repr (E:=E) c t1 key src head H1 Hb Hno Hkey Ef Hhead) as (t' & Ht' & Hr & Ho & Htx').
      exists t'. split_and!; [done|done|by rewrite Htx', zlen_app|]. by rewrite Ho, orb_false_r.
    + eexists. split; [done|]. split; [by destruct H1|]. rewrite bool_decide_false by by intros [].
      split; [cbn; lia|by rewrite orb_true_r].
Qed.

(** ** Removal *)

Lemma holds_remove c i j k v : holds_cell (<[i := None]> c) j k v ↔ j ≠ i ∧ holds_cell c j k v.
Proof.
  unfold holds_cell. destruct (decide (j = i)) as [->|Hne].
  - split; [|tauto]. intros H. destruct (decide (i < length c)%nat).
    + by rewrite list_lookup_insert_eq in H by done.
    + rewrite lookup_ge_None_2 in H; [done|]. rewrite length_insert. lia.
  - rewrite list_lookup_insert_ne by done. tauto.
Qed.

Lemma live_cells_remove c i k v :
  holds_cell c i k v → (∀ i j k v v', holds_cell c i k v → holds_cell c j k v' → i = j) →
  live_cells (<[i := None]> c) = List.filter (λ p, negb (bool_decide (p.1 = k))) (live_cells c)
  ∧ zlen (live_cells (<[i := None]> c)) = zlen (live_cells c) - 1.
Proof.
  intros Hi Hu. assert (Hlt : (i < length c)%nat) by by eapply lookup_lt_Some.
  assert (Hc : live_cells c = live_cells (take i c) ++ (k, v) :: live_cells (drop (S i) c)).
  { rewrite <- (take_drop_middle c i _ Hi) at 1. by rewrite live_cells_app. }
  rewrite (insert_take_drop c i None), live_cells_app, Hc by done.
  assert (Hkeep : ∀ l, (∀ k' v', (k', v') ∈ live_cells l → k' ≠ k) →
    List.filter (λ p, negb (bool_decide (p.1 = k))) (live_cells l) = live_cells l).
  { intros l Hl. apply forallb_filter_id, forallb_forall. intros [k' v'] Hin%list_elem_of_In. rewrite bool_decide_false; [done|].
    by apply (Hl k' v'). }
  change (live_cells (None :: drop (S i) c)) with (live_cells (drop (S i) c)).
  rewrite List.filter_app. simpl. rewrite bool_decide_true by done. simpl. rewrite !Hkeep.
  - split; [done|]. rewrite !zlen_app, zlen_cons. lia.
  - intros k' v' [j Hj]%live_cells_elem ->. unfold holds_cell in Hj. rewrite lookup_drop in Hj.
    assert ((S i + j)%nat = i) by by eapply Hu. lia.
  - intros k' v' [j Hj]%live_cells_elem ->. unfold holds_cell in Hj. apply lookup_take_Some in Hj as [Hj Hji].
    assert (j = i) by by eapply Hu. lia.
Qed.

(** The links after entry [i] is unlinked from what pointed to it. *)
Lemma links_unlink c b es p i k v e :
  b ≠ [] → links c b es (length c) → length c = length es → holds_cell c i k v → es !! i = Some e → Z.of_nat i < NONE →
  let sl := slot hasher b in
  found_from c sl (sl k) NONE p (length c) i → (∀ j, p = Z.of_nat j → (j < length c)%nat → p ≠ NONE) →
  ∀ b' es', (if p =? NONE then b' = <[Z.to_nat (sl k) := next e]> b ∧ es' = es
     else b' = b ∧ ∃ j ej, p = Z.of_nat j ∧ es !! j = Some ej ∧ es' = <[j := set_next (next e) ej]> es) →
  links (<[i := None]> c) b' (<[i := kill e]> es') (length c).
Proof.
  intros Hb [Hg Hn] Hlen Hi He HN sl Hfrom Hp b' es' Hcase.
  assert (Hlt : (i < length c)%nat) by by eapply lookup_lt_Some.
  assert (Hnext : next e = before sl c (sl k) i) by by eapply Hn.
  assert (Hsl : ∀ k, slot hasher b' k = sl k).
  { intros k'. destruct (p =? NONE); destruct Hcase as [-> _]; [|done]. unfold slot, sl. by rewrite zlen_insert. }
  assert (Hz : zlen b' = zlen b) by (destruct (p =? NONE); destruct Hcase as [-> _]; [by rewrite zlen_insert|done]).
  assert (Hbf : ∀ s n, before (slot hasher b') (<[i := None]> c) s n
      = if before sl c s n =? Z.of_nat i then before sl c s i else before sl c s n).
  { intros s n. rewrite (before_ext _ sl _ (<[i := None]> c)) by done. by eapply before_remove. }
  (* what points to the entry is in its slot *)
  assert (Hslot : ∀ s n, before sl c s n = Z.of_nat i → s = sl k).
  { intros s n Hbn. destruct (before_spec sl c s n) as [[E0 _]|(a & ka & va & E0 & _ & Hca & Hs & _)]; [lia|].
    assert (a = i) as -> by lia. unfold holds_cell in *. congruence. }
  assert (Hhead : p = NONE → before sl c (sl k) (length c) = Z.of_nat i).
  { intros ->. destruct Hfrom as [[_ ?]|(j & kj & vj & E0 & Hj & Hcj & _)]; [done|]. destruct (Hp j); [done|lia|done]. }
  assert (Hpred : p ≠ NONE → ∃ j kj vj, p = Z.of_nat j ∧ (i < j)%nat ∧ holds_cell c j kj vj ∧ sl kj = sl k ∧ before sl c (sl k) j = Z.of_nat i).
  { intros Hne. destruct Hfrom as [[-> _]|(j & kj & vj & -> & Hj & Hcj & Hs & Hbj)]; [done|].
    exists j, kj, vj. split_and!; [done|lia|done|done|done]. }
  split.
  - intros s Hs. rewrite Hz in Hs. rewrite Hbf. specialize (Hg s Hs). fold sl in Hg.
    destruct (Z.eqb_spec (before sl c s (length c)) (Z.of_nat i)) as [Hhit|Hmiss].
    + assert (s = sl k) as -> by by eapply Hslot. destruct (Z.eqb_spec p NONE) as [Hpn|Hpn].
      * destruct Hcase as [-> _]. rewrite Hnext. unfold get. rewrite (proj2 (Z.ltb_ge _ _)) by lia.
        apply list_lookup_insert_eq. unfold zlen in Hs. lia.
      * exfalso. destruct (Hpred Hpn) as (j & kj & vj & -> & Hij & Hcj & Hskj & _).
        destruct (before_spec sl c (sl k) (length c)) as [[E0 _]|(a & ka & va & E0 & Ha & _ & _ & Hno)]; [lia|].
        eapply (Hno j); [|exact Hcj|done]. assert (j < length c)%nat by by eapply lookup_lt_Some. lia.
    + destruct (Z.eqb_spec p NONE) as [Hpn|Hpn]; destruct Hcase as [-> _]; [|done].
      assert (s ≠ sl k) by (intros ->; auto). unfold get in *. rewrite (proj2 (Z.ltb_ge _ _)) in * by lia.
      rewrite list_lookup_insert_ne; [done|]. pose proof (slot_range b k Hb : 0 ≤ sl k < zlen b). lia.
  - intros j ej kj vj Hj Hej Hcj. apply holds_remove in Hcj as [Hne Hcj]. rewrite Hbf, !Hsl.
    rewrite list_lookup_insert_ne in Hej by done.
    destruct (Z.eqb_spec (before sl c (sl kj) j) (Z.of_nat i)) as [Hhit|Hmiss].
    + assert (sl kj = sl k) as Hs by by eapply Hslot. destruct (Z.eqb_spec p NONE) as [Hpn|Hpn].
      * exfalso. specialize (Hhead Hpn). destruct (before_spec sl c (sl k) (length c)) as [[E0 _]|(a & ka & va & E0 & Ha & _ & _ & Hno)]; [lia|].
        assert (i < j)%nat. { destruct (before_lt sl c (sl kj) j); lia. } eapply (Hno j); [|exact Hcj|done]. lia.
      * destruct (Hpred Hpn) as (q & kq & vq & Hq & Hiq & Hcq & Hsq & Hbq). destruct Hcase as [_ (q' & eq & Hq' & Heq & ->)].
        assert (q' = q) as -> by lia. rewrite Hs in Hhit. assert (j = q) as -> by (eapply (before_inj sl c (sl k)); [exact Hcj|exact Hcq|done|done|done|done|lia]).
        rewrite list_lookup_insert_eq in Hej by by eapply lookup_lt_Some. injection Hej as <-. simpl. by rewrite Hnext, Hs.
    + assert (es !! j = Some ej) as Hej'.
      { destruct (Z.eqb_spec p NONE) as [Hpn|Hpn]; destruct Hcase as [_ Hes]; [by rewrite Hes in Hej|].
        destruct (Hpred Hpn) as (q & kq & vq & Hq & Hiq & Hcq & Hsq & Hbq). destruct Hes as (q' & eq & Hq' & Heq & ->).
        assert (q' = q) as -> by lia. destruct (decide (j = q)) as [->|Hjq]; [|by rewrite list_lookup_insert_ne in Hej by done].
        unfold holds_cell in *. assert (kj = kq) as -> by congruence. by rewrite Hsq in Hmiss. }
      by eapply Hn.
Qed.

Lemma remove_spec {E} c t key : repr c t →
  ∃ t' c', remove hasher (E:=E) key t = Ok (bool_decide (is_Some (lookup_key key (live_cells c))), t')
    ∧ repr c' t' ∧ live_cells c' = List.filter (λ p, negb (bool_decide (p.1 = key))) (live_cells c)
    ∧ length c' = length c ∧ text t' = text t ∧ overflowed t' = overflowed t.
Proof.
  intros H. unfold remove. pose proof (live_cells_keys c (rp_keys _ _ H)) as Hnd. case_bool_decide as Hb.
  { exists t, c. rewrite (rp_empty _ _ H Hb). split_and!; [done|by rewrite <- (rp_empty _ _ H Hb)|done..]. }
  destruct (find_head (E:=E) c t key H Hb) as (head & -> & Hhead & [(i & v & e & p & Hc & He & Hfrom & Hf)|[Hno Hf]]);
    cbn [obind]; rewrite Hf; cbn [obind].
  2: { exists t, c. rewrite lookup_key_None by done. split_and!; [done|done| |done..]. symmetry. apply forallb_filter_id, forallb_forall.
       intros [k' v'] Hin%list_elem_of_In. rewrite bool_decide_false; [done|]. simpl. intros ->. by destruct (Hno v'). }
  rewrite (lookup_key_Some _ _ v) by (done || (apply live_cells_elem; by exists i)). rewrite bool_decide_true by by eexists.
  pose proof (live_cells_remove c i key v Hc (rp_keys _ _ H)) as [Hlive Hcount].
  pose proof (rp_max _ _ H) as Hmax. pose proof (rp_len _ _ H) as Hlen. unfold zlen in Hmax.
  assert (Hlt : (i < length c)%nat) by by eapply lookup_lt_Some.
  assert (HN : ∀ j, (j < length c)%nat → Z.of_nat j ≠ NONE) by lia.
  set (s := slot hasher (buckets t) key) in *. pose proof (slot_range (buckets t) key Hb) as Hs. fold s in Hs.
  assert (Hunlink : ∃ b' es', (if p =? NONE then try! bs := put (E:=E) (buckets t) s (next e) in Ok (set_buckets bs t)
      else try! e0 := at_ (entries t) p in try! es := put (entries t) p (set_next (next e) e0) in
        Ok (mkTable (text t) es (buckets t) (live t) (overflowed t)))
      = Ok (mkTable (text t) es' b' (live t) (overflowed t))
      ∧ stored c (mkTable (text t) es' b' (live t) (overflowed t)) ∧ es' !! i = Some e
      ∧ (if p =? NONE then b' = <[Z.to_nat s := next e]> (buckets t) ∧ es' = entries t
         else b' = buckets t ∧ ∃ j ej, p = Z.of_nat j ∧ entries t !! j = Some ej ∧ es' = <[j := set_next (next e) ej]> (entries t))).
  { destruct (Z.eqb_spec p NONE) as [->|Hp].
    - unfold put, set_at. rewrite (proj2 (Z.leb_le _ _)), (proj2 (Z.ltb_lt _ _)) by lia. cbn [andb obind].
      eexists _, (entries t). split; [done|]. pose proof (repr_stored _ _ H) as []. split; [by split|done].
    - destruct Hfrom as [[-> _]|(j & kj & vj & -> & Hj & _)]; [done|].
      destruct (cell_lookup c t j H) as [ej Hej]; [lia|]. rewrite (at_lookup _ _ _ Hej). cbn [obind].
      rewrite (put_lookup _ _ _ _ Hej). cbn [obind]. eexists (buckets t), _. split; [done|]. split.
      + apply stored_relink; [by apply repr_stored|done].
      + rewrite list_lookup_insert_ne by lia. split; [done|]. split; [done|]. by exists j, ej. }
  destruct Hunlink as (b' & es' & -> & Hst & Hes' & Hcase). cbn [obind entries].
  rewrite (at_lookup _ _ _ Hes'). cbn [obind]. rewrite (put_lookup _ _ _ _ Hes'). cbn [obind text buckets live overflowed].
  assert (Hl1 : 1 ≤ live t).
  { rewrite (rp_live _ _ H). pose proof (zlen_nonneg (live_cells (<[i:=None]> c))). lia. }
  rewrite (proj2 (Z.ltb_ge _ _)) by lia. eexists _, (<[i := None]> c). split; [done|]. split; [|split_and!; [done|apply length_insert|done..]].
  assert (Hlinks : links (<[i := None]> c) b' (<[i := kill e]> es') (length c)).
  { eapply links_unlink; [exact Hb|by apply (rp_links _ _ H)|done|exact Hc|done|lia|exact Hfrom| |exact Hcase].
    intros j -> Hj. by apply HN. }
  apply stored_repr.
  - split; simpl.
    + rewrite !length_insert. apply (st_len _ _ Hst).
    + rewrite zlen_insert. apply (st_max _ _ Hst).
    + apply (st_text _ _ Hst).
    + intros j ej Hej. destruct (decide (j = i)) as [->|Hne].
      * simpl in Hej. rewrite list_lookup_insert_eq in Hej by by eapply lookup_lt_Some. injection Hej as <-.
        by rewrite list_lookup_insert_eq.
      * simpl in Hej. rewrite list_lookup_insert_ne in Hej by done. rewrite list_lookup_insert_ne by done. by apply (st_cell _ _ Hst).
    + intros j1 j2 k v1 v2 [_ H1]%holds_remove [_ H2]%holds_remove. by eapply (rp_keys _ _ H).
    + rewrite Hcount, (rp_live _ _ H). done.
  - simpl. destruct (p =? NONE); destruct Hcase as [-> _]; [|done]. intros E0. apply (f_equal length) in E0.
    rewrite length_insert in E0. by destruct (buckets t).
  - simpl. by rewrite length_insert.
Qed.

Lemma keys_of_live {E} text : ∀ es c,
  Forall2 (λ o e, cell_ok text (Some o) e) c es →
  keys_of (E:=E) text (List.filter alive es) = Ok (live_cells c).
Proof.
  induction 1 as [|o e c es Hoe _ IH]; [done|]. destruct o as [[k v]|]; simpl in Hoe.
  - destruct Hoe as (Hd & Hk & <-). cbn [List.filter].
    replace (alive e) with true by (unfold alive; by rewrite (proj2 (Z.eqb_neq _ _))). cbn [keys_of].
    unfold key_in. rewrite Hk. cbn [obind]. by rewrite IH.
  - cbn [List.filter]. replace (alive e) with false by (unfold alive; by rewrite Hoe, Z.eqb_refl). done.
Qed.

Lemma cells_Forall2 c t : stored c t → Forall2 (λ o e, cell_ok (text t) (Some o) e) c (entries t).
Proof.
  intros H. apply Forall2_same_length_lookup_2; [apply H|]. intros i o e Ho He.
  pose proof (st_cell _ _ H i e He) as Hc. by rewrite Ho in Hc.
Qed.

Lemma iter_spec {E} c t : repr c t → iter (E:=E) t = Ok (live_cells c).
Proof. intros H. by apply keys_of_live, cells_Forall2, repr_stored. Qed.

Lemma default_repr : repr [] DomainTable_default.
Proof.
  split; simpl; try done; try (intros; by apply elem_of_nil || lia).
Qed.

Lemma reserve_spec {E} c t n : repr c t → 0 ≤ n →
  ∃ t', reserve hasher (E:=E) n t = Ok t' ∧ repr c t' ∧ text t' = text t ∧ overflowed t' = overflowed t.
Proof.
  intros H Hn. unfold reserve. cbv zeta. destruct (_ <? _); [|by exists t].
  destruct (rebuild_spec (E:=E) c t (Z.max (next_power_of_two (live t + n)) 64) (repr_stored _ _ H)) as (t' & -> & Hr & Ht & _ & Ho);
    [lia|]. by exists t'.
Qed.
End table.

(** * Sequences of operations on the domain table *)

(** ** The specification *)

Record Rules : Type := mkRules { rules : list (list Z * Z); used : Z; stored_entries : Z; refused : bool }.

Definition no_rules : Rules := mkRules [] 0 0 false.

Definition rule_of (key : list Z) (l : list (list Z * Z)) : option (list Z * Z) :=
  List.find (λ p, bool_decide (p.1 = key)) l.

Inductive TableOp : Type :=
  | InsertIfAbsent (key : list Z) (src : Z)
  | Remove (key : list Z)
  | GetKeyValue (key : list Z)
  | Reserve (additional : Z).

Inductive Answer : Type :=
  | Inserted (b : bool)
  | Removed (b : bool)
  | Found (r : option (list Z * Z))
  | Reserved.

Definition spec_op (op : TableOp) (r : Rules) : Answer * Rules :=
  match op with
  | InsertIfAbsent key src =>
      match rule_of key (rules r) with
      | Some _ => (Inserted false, r)
      | None =>
          if arena_fits (used r) (zlen key) (stored_entries r)
          then (Inserted true, mkRules (rules r ++ [(key, src)]) (used r + zlen key) (stored_entries r + 1) (refused r))
          else (Inserted false, mkRules (rules r) (used r) (stored_entries r) true)
      end
  | Remove key =>
      (Removed (bool_decide (is_Some (rule_of key (rules r)))),
       mkRules (List.filter (λ p, negb (bool_decide (p.1 = key))) (rules r)) (used r) (stored_entries r) (refused r))
  | GetKeyValue key => (Found (rule_of key (rules r)), r)
  | Reserve _ => (Reserved, r)
  end.

Fixpoint spec_run (ops : list TableOp) (r : Rules) : list Answer * Rules :=
  match ops with
  | [] => ([], r)
  | op :: ops => let '(a, r) := spec_op op r in let '(l, r) := spec_run ops r in (a :: l, r)
  end.

(** ** The table *)

Definition table_op {E} (hasher : list Z → Z) (op : TableOp) (t : DomainTable) : outcome E (Answer * DomainTable) :=
  match op with
  | InsertIfAbsent key src => try! (b, t) := insert_if_absent hasher key src t in Ok (Inserted b, t)
  | Remove key => try! (b, t) := remove hasher key t in Ok (Removed b, t)
  | GetKeyValue key => try! r := get_key_value hasher key t in Ok (Found r, t)
  | Reserve n => try! t := reserve hasher n t in Ok (Reserved, t)
  end.

Fixpoint table_run {E} (hasher : list Z → Z) (ops : list TableOp) (t : DomainTable) : outcome E (list Answer * DomainTable) :=
  match ops with
  | [] => Ok ([], t)
  | op :: ops => try! (a, t) := table_op hasher op t in try! (l, t) := table_run hasher ops t in Ok (a :: l, t)
  end.

(** Keys are shorter than the mark of a removed entry. *)
Definition op_ok (op : TableOp) : Prop :=
  match op with
  | InsertIfAbsent key _ => zlen key < U32_MAX
  | Reserve n => 0 ≤ n
  | _ => True
  end.

(** ** The table implements the specification *)

Section hasher.
Context (hasher : list Z → Z).

Definition implements (r : Rules) (t : DomainTable) : Prop :=
  ∃ c, repr hasher c t ∧ live_cells c = rules r ∧ zlen (text t) = used r ∧ zlen c = stored_entries r ∧ overflowed t = refused r.

Lemma table_op_spec {E} op r t : implements r t → op_ok op →
  ∃ t', table_op (E:=E) hasher op t = Ok ((spec_op op r).1, t') ∧ implements (spec_op op r).2 t'.
Proof.
  intros (c & Hc & Hl & Hu & Hs & Ho) Hop. pose proof (rp_len _ _ _ Hc) as Hlen.
  assert (Hz : zlen (entries t) = zlen c) by (unfold zlen; lia). destruct op as [key src|key|key|n]; simpl in *.
  - destruct (table_insert_spec hasher (E:=E) c t key src Hc Hop) as (t' & -> & Hr & Htx & Hov). cbn [obind].
    unfold inserts in *. rewrite Hl, Hz, Hu, Hs in *. fold (rule_of key (rules r)) in *.
    destruct (rule_of key (rules r)) as [p|]; [|destruct (arena_fits _ _ _) eqn:Ef]; exists t'; (split; [done|]).
    + exists c. rewrite bool_decide_true, orb_false_r in Hov by by eexists. simpl. split_and!; [done|done|lia|done|congruence].
    + exists (c ++ [Some (key, src)]). simpl in *. rewrite orb_false_r in Hov.
      split_and!; [done|by rewrite live_cells_app, Hl|lia|by rewrite zlen_app, Hs|congruence].
    + exists c. rewrite bool_decide_false, orb_true_r in Hov by by intros []. split_and!; [done|done|simpl; lia|done|done].
  - destruct (remove_spec hasher (E:=E) c t key Hc) as (t' & c' & -> & Hr & Hl' & Hlc & Htx & Hov). cbn [obind].
    rewrite Hl in *. exists t'. split; [done|]. exists c'. simpl. rewrite Htx, Hov. unfold zlen in *. rewrite Hlc.
    split_and!; done.
  - rewrite (get_key_value_spec hasher (E:=E) c t key Hc), Hl. exists t. split; [done|]. by exists c.
  - destruct (reserve_spec hasher (E:=E) c t n Hc Hop) as (t' & -> & Hr & Htx & Hov). exists t'. split; [done|].
    exists c. rewrite Htx, Hov. done.
Qed.

Lemma table_run_spec {E} ops : ∀ r t, implements r t → Forall op_ok ops →
  ∃ t', table_run (E:=E) hasher ops t = Ok ((spec_run ops r).1, t') ∧ implements (spec_run ops r).2 t'.
Proof.
  induction ops as [|op ops IH]; intros r t Hi Hops; simpl; [by exists t|].
  apply Forall_cons in Hops as [Hop Hops]. destruct (table_op_spec (E:=E) op r t Hi Hop) as (t1 & -> & Hi1).
  destruct (spec_op op r) as [a r1]. simpl in *. destruct (IH r1 t1 Hi1 Hops) as (t2 & -> & Hi2).
  destruct (spec_run ops r1) as [l r2]. by exists t2.
Qed.

Lemma no_rules_implemented : implements no_rules DomainTable_default.
Proof. exists []. split_and!; [apply default_repr|done..]. Qed.

(** What the table shows of the rules. *)
Lemma implements_iter {E} r t : implements r t → iter (E:=E) t = Ok (rules r) ∧ DomainTable_len t = zlen (rules r)
  ∧ overflowed t = refused r ∧ NoDup (map fst (rules r)).
Proof.
  intros (c & Hc & Hl & _ & _ & Ho). rewrite (iter_spec hasher (E:=E) c t Hc). unfold DomainTable_len.
  rewrite (rp_live _ _ _ Hc), <- Hl. split_and!; [done|done|done|]. by apply live_cells_keys, (rp_keys _ _ _ Hc).
Qed.

(** ** The sorted list *)

Lemma keys_of_app {E} text (es es' : list Entry) l l' :
  keys_of (E:=E) text es = Ok l → keys_of (E:=E) text es' = Ok l' → keys_of (E:=E) text (es ++ es') = Ok (l ++ l').
Proof.
  revert l. induction es as [|e es IH]; intros l; simpl; [by intros [= <-]|]. destruct (key_in text e) as [k| | |]; try done.
  simpl. destruct (keys_of text es) as [l1| | |]; try done. intros [= <-] H. by rewrite (IH l1).
Qed.

Lemma keys_of_perm {E} text (es es' : list Entry) : es ≡ₚ es' → ∀ l, keys_of (E:=E) text es = Ok l →
  ∃ l', keys_of (E:=E) text es' = Ok l' ∧ l ≡ₚ l'.
Proof.
  induction 1 as [|e es es' _ IH|e1 e2 es|es1 es2 es3 _ IH1 _ IH2]; intros l; simpl.
  - intros [= <-]. by exists [].
  - destruct (key_in text e) as [k| | |]; try done. simpl. destruct (keys_of text es) as [l1| | |]; try done. intros [= <-].
    destruct (IH l1 eq_refl) as (l' & -> & Hp). eexists. split; [done|]. by rewrite Hp.
  - destruct (key_in text e2) as [k2| | |]; try done. destruct (key_in text e1) as [k1| | |]; try done. simpl.
    destruct (keys_of text es) as [l1| | |]; try done. intros [= <-]. eexists. split; [done|]. apply Permutation_swap.
  - intros H. destruct (IH1 l H) as (l2 & H2 & Hp2). destruct (IH2 l2 H2) as (l3 & H3 & Hp3). exists l3. split; [done|].
    by rewrite Hp2.
Qed.

(** A sort returns a permutation, ordered by the keys that the entries hold. *)
Definition sorts (order : list Z → list Z → Prop) (sort : list Z → list Entry → list Entry) : Prop :=
  ∀ text es l, keys_of (E:=unit) text es = Ok l →
    sort text es ≡ₚ es ∧ ∀ l', keys_of (E:=unit) text (sort text es) = Ok l' → StronglySorted order (map fst l').

Lemma into_sorted_spec order sort r t : sorts order sort → implements r t →
  ∃ l, SortedDomains_iter (E:=unit) (into_sorted sort t) = Ok l ∧ l ≡ₚ rules r ∧ StronglySorted order (map fst l)
    ∧ SortedDomains_len (into_sorted sort t) = zlen (rules r).
Proof.
  intros Hs Hi. destruct (implements_iter (E:=unit) r t Hi) as (Hit & _). unfold iter in Hit.
  destruct (Hs _ _ _ Hit) as [Hp Ho]. destruct (keys_of_perm (E:=unit) _ _ _ (symmetry Hp) _ Hit) as (l & Hl & Hpl).
  exists l. unfold SortedDomains_iter, SortedDomains_len, into_sorted. simpl. split_and!; [done|by symmetry|by apply Ho|].
  unfold zlen. rewrite Hp. f_equal. clear -Hit. revert Hit. generalize (rules r).
  induction (List.filter alive (entries t)) as [|e es IH]; intros l; simpl; [by intros [= <-]|].
  destruct (key_in (text t) e); try done. simpl. destruct (keys_of (text t) es) eqn:E; try done. intros [= <-].
  simpl. f_equal. by apply IH.
Qed.
End hasher.
