(* ===== verification/Dawg.v ===== *)
(** * The builder of the compact domain map ([onetdns-filter/src/compact.rs])

    Reversed domains in increasing order go into a minimal acyclic automaton:
    states in a reused vector, edges in an arena with a free list, a register of
    frozen states, the path of the last word; then the automaton is packed
    into arrays with the rank of every edge. *)

From S2P Require Import Prelude FilterTable.

#[local] Open Scope outcome_scope.

(** ** Packed states *)

Definition TERMINAL_BIT : Z := 2 ^ 31.
Definition EDGE_COUNT_MASK : Z := 2 ^ 31 - 1.

(** [struct PackedState]. *)
Record PackedState : Type := mkPacked { first_edge : Z; edge_count_and_terminal : Z }.

Definition PackedState_new (first_edge edge_count : Z) (terminal : bool) : PackedState :=
  mkPacked first_edge (Z.lor (as_u32 edge_count) (if terminal then TERMINAL_BIT else 0)).
Definition edge_count (s : PackedState) : Z := Z.land (edge_count_and_terminal s) EDGE_COUNT_MASK.
Definition packed_terminal (s : PackedState) : bool := negb (Z.land (edge_count_and_terminal s) TERMINAL_BIT =? 0).

(** ** The arena of edges *)

(** [struct EdgeArena]. *)
Record EdgeArena : Type := mkArena { label : list Z; target : list Z; enext : list Z; efree : Z; elive : Z }.

Definition EdgeArena_new : EdgeArena := mkArena [] [] [] NONE 0.

(** [EdgeArena::alloc]: the cell of the edge. *)
Definition alloc {E} (l t n : Z) (a : EdgeArena) : outcome E (Z * EdgeArena) :=
  if negb (efree a =? NONE) then
    let cell := efree a in
    try! free := at_ (enext a) cell in
    try! ls := put (label a) cell l in
    try! ts := put (target a) cell t in
    try! ns := put (enext a) cell n in
    Ok (as_u32 cell, mkArena ls ts ns free (elive a + 1))
  else
    Ok (as_u32 (zlen (label a)), mkArena (label a ++ [l]) (target a ++ [t]) (enext a ++ [n]) (efree a) (elive a + 1)).

(** The loop of [EdgeArena::release]. *)
Fixpoint release {E} (fuel : nat) (cursor : Z) (a : EdgeArena) : outcome E EdgeArena :=
  match fuel with
  | O => NoFuel
  | S fuel =>
      if cursor =? NONE then Ok a
      else if elive a <? 1 then Panic
      else
        try! following := at_ (enext a) cursor in
        try! ns := put (enext a) cursor (efree a) in
        release fuel following (mkArena (label a) (target a) ns cursor (elive a - 1))
  end.

(** ** The builder *)

(** [struct BuildState]. *)
Record BuildState : Type := mkState { terminal : bool; edge_head : Z; register_next : Z }.

Definition BuildState_new : BuildState := mkState false NONE NONE.

Definition set_terminal (s : BuildState) : BuildState := mkState true (edge_head s) (register_next s).
Definition set_head (h : Z) (s : BuildState) : BuildState := mkState (terminal s) h (register_next s).
Definition set_register_next (n : Z) (s : BuildState) : BuildState := mkState (terminal s) (edge_head s) n.

(** [struct DawgBuilder]; the lists [free] and [path] have their last element
    first. *)
Record DawgBuilder : Type := mkBuilder {
  states : list (option BuildState);
  free : list Z;
  edges : EdgeArena;
  register : list Z;
  registered : Z;
  path : list Z;
  previous : list Z
}.

(** [DawgBuilder::new]. *)
Definition DawgBuilder_new : DawgBuilder :=
  mkBuilder [Some BuildState_new] [] EdgeArena_new (replicate 1024 NONE) 0 [0] [].

Definition set_states (s : list (option BuildState)) (b : DawgBuilder) : DawgBuilder :=
  mkBuilder s (free b) (edges b) (register b) (registered b) (path b) (previous b).
Definition set_edges (a : EdgeArena) (b : DawgBuilder) : DawgBuilder :=
  mkBuilder (states b) (free b) a (register b) (registered b) (path b) (previous b).
Definition set_path (p : list Z) (b : DawgBuilder) : DawgBuilder :=
  mkBuilder (states b) (free b) (edges b) (register b) (registered b) p (previous b).

(** [DawgBuilder::state] and [state_mut]. *)
Definition state {E} (id : Z) (b : DawgBuilder) : outcome E BuildState :=
  match get (states b) id with Some (Some s) => Ok s | _ => Panic end.
Definition state_mut {E} (id : Z) (f : BuildState → BuildState) (b : DawgBuilder) : outcome E DawgBuilder :=
  try! s := state id b in
  try! ss := put (states b) id (Some (f s)) in
  Ok (set_states ss b).

(** [DawgBuilder::new_state]. *)
Definition new_state {E} (b : DawgBuilder) : outcome E (Z * DawgBuilder) :=
  match free b with
  | id :: rest =>
      try! ss := put (states b) id (Some BuildState_new) in
      Ok (id, mkBuilder ss rest (edges b) (register b) (registered b) (path b) (previous b))
  | [] => Ok (as_u32 (zlen (states b)), set_states (states b ++ [Some BuildState_new]) b)
  end.

(** [path[path.len() - 1]]. *)
Definition top {E} (b : DawgBuilder) : outcome E Z := match path b with p :: _ => Ok p | [] => Panic end.

(** The fuel of a walk along a chain of edges. *)
Definition edge_fuel (b : DawgBuilder) : nat := S (length (label (edges b))).

(** [DawgBuilder::states_equal]. *)
Fixpoint edges_equal {E} (fuel : nat) (a : EdgeArena) (left right : Z) : outcome E bool :=
  match fuel with
  | O => NoFuel
  | S fuel =>
      if negb (left =? NONE) && negb (right =? NONE) then
        try! ll := at_ (label a) left in
        try! lr := at_ (label a) right in
        if negb (ll =? lr) then Ok false
        else
          try! tl := at_ (target a) left in
          try! tr := at_ (target a) right in
          if negb (tl =? tr) then Ok false
          else
            try! nl := at_ (enext a) left in
            try! nr := at_ (enext a) right in
            edges_equal fuel a nl nr
      else Ok (left =? right)
  end.

Definition states_equal {E} (left right : Z) (b : DawgBuilder) : outcome E bool :=
  try! l := state left b in
  try! r := state right b in
  if negb (Bool.eqb (terminal l) (terminal r)) then Ok false
  else edges_equal (edge_fuel b) (edges b) (edge_head l) (edge_head r).

(** [DawgBuilder::state_hash]. *)
Definition FNV_PRIME : Z := 0x100000001b3.
Definition fnv (hash v : Z) : Z := (Z.lxor hash v * FNV_PRIME) mod 2 ^ 64.
Definition u32_to_le (v : Z) : list Z := [v mod 256; v / 256 mod 256; v / 65536 mod 256; v / 16777216 mod 256].

Fixpoint hash_edges {E} (fuel : nat) (a : EdgeArena) (cursor hash : Z) : outcome E Z :=
  match fuel with
  | O => NoFuel
  | S fuel =>
      if cursor =? NONE then Ok hash
      else
        try! l := at_ (label a) cursor in
        try! t := at_ (target a) cursor in
        try! n := at_ (enext a) cursor in
        hash_edges fuel a n (fold_left fnv (u32_to_le t) (fnv hash l))
  end.

Definition state_hash {E} (id : Z) (b : DawgBuilder) : outcome E Z :=
  try! s := state id b in
  hash_edges (edge_fuel b) (edges b) (edge_head s) (fnv 0xcbf29ce484222325 (if terminal s then 1 else 0)).

Definition bucket_of (hash : Z) (register : list Z) : Z := Z.land hash (zlen register - 1).

(** [DawgBuilder::grow_register]: one chain, then all of them. *)
Fixpoint regrow_chain {E} (fuel : nat) (cursor : Z) (b : DawgBuilder) : outcome E DawgBuilder :=
  match fuel with
  | O => NoFuel
  | S fuel =>
      if cursor =? NONE then Ok b
      else
        try! s := state cursor b in
        try! h := state_hash cursor b in
        let slot := bucket_of h (register b) in
        try! previous_head := at_ (register b) slot in
        try! b := state_mut cursor (set_register_next previous_head) b in
        try! bs := put (register b) slot cursor in
        regrow_chain fuel (register_next s) (mkBuilder (states b) (free b) (edges b) bs (registered b) (path b) (previous b))
  end.

Fixpoint regrow {E} (old : list Z) (b : DawgBuilder) : outcome E DawgBuilder :=
  match old with
  | [] => Ok b
  | head :: old => try! b := regrow_chain (S (length (states b))) head b in regrow old b
  end.

Definition grow_register {E} (b : DawgBuilder) : outcome E DawgBuilder :=
  regrow (register b)
    (mkBuilder (states b) (free b) (edges b) (replicate (length (register b) * 2) NONE) (registered b) (path b) (previous b)).

(** The search of [DawgBuilder::register_state] for an equal state. *)
Fixpoint find_equal {E} (fuel : nat) (id candidate : Z) (b : DawgBuilder) : outcome E (option Z) :=
  match fuel with
  | O => NoFuel
  | S fuel =>
      if candidate =? NONE then Ok None
      else
        try! same := states_equal id candidate b in
        if (same : bool) then Ok (Some candidate)
        else try! s := state candidate b in find_equal fuel id (register_next s) b
  end.

Definition register_state {E} (id : Z) (b : DawgBuilder) : outcome E (Z * DawgBuilder) :=
  try! hash := state_hash id b in
  try! candidate := at_ (register b) (bucket_of hash (register b)) in
  try! found := find_equal (S (length (states b))) id candidate b in
  match found with
  | Some candidate =>
      try! s := state id b in
      try! a := release (edge_fuel b) (edge_head s) (edges b) in
      try! ss := put (states b) id None in
      Ok (candidate, mkBuilder ss (id :: free b) a (register b) (registered b) (path b) (previous b))
  | None =>
      try! b := (if zlen (register b) <=? registered b then grow_register b else Ok b) in
      let slot := bucket_of hash (register b) in
      try! head := at_ (register b) slot in
      try! b := state_mut id (set_register_next head) b in
      try! bs := put (register b) slot id in
      Ok (id, mkBuilder (states b) (free b) (edges b) bs (registered b + 1) (path b) (previous b))
  end.

(** [DawgBuilder::minimize]. *)
Fixpoint minimize {E} (fuel : nat) (prefix_len : Z) (b : DawgBuilder) : outcome E DawgBuilder :=
  match fuel with
  | O => NoFuel
  | S fuel =>
      if prefix_len + 1 <? zlen (path b) then
        match path b with
        | [] => Panic
        | child :: rest =>
            try! (canonical, b) := register_state child (set_path rest b) in
            try! parent := top b in
            try! s := state parent b in
            let head := edge_head s in
            if negb (head =? NONE) then
              try! ts := put (target (edges b)) head canonical in
              let a := edges b in
              minimize fuel prefix_len (set_edges (mkArena (label a) ts (enext a) (efree a) (elive a)) b)
            else minimize fuel prefix_len b
        end
      else Ok b
  end.

Definition minimize_to {E} (prefix_len : Z) (b : DawgBuilder) : outcome E DawgBuilder :=
  minimize (S (length (path b))) prefix_len b.

(** The new states of [DawgBuilder::insert_reversed]. *)
Fixpoint add_labels {E} (labels : list Z) (b : DawgBuilder) : outcome E DawgBuilder :=
  match labels with
  | [] => Ok b
  | l :: labels =>
      try! (child, b) := new_state b in
      try! parent := top b in
      try! s := state parent b in
      try! (cell, a) := alloc l child (edge_head s) (edges b) in
      try! b := state_mut parent (set_head cell) (set_edges a b) in
      add_labels labels (set_path (child :: path b) b)
  end.

(** How many octets two words share from their start. *)
Fixpoint common_prefix (a b : list Z) : nat :=
  match a, b with
  | x :: a, y :: b => if x =? y then S (common_prefix a b) else O
  | _, _ => O
  end.

Definition insert_reversed {E} (domain : list Z) (b : DawgBuilder) : outcome E DawgBuilder :=
  let word := rev domain in
  let common := common_prefix (previous b) word in
  try! b := minimize_to (Z.of_nat common) b in
  try! b := add_labels (drop common word) b in
  try! id := top b in
  try! b := state_mut id set_terminal b in
  Ok (mkBuilder (states b) (free b) (edges b) (register b) (registered b) (path b) word).

(** [DawgBuilder::complete]. *)
Definition complete {E} (b : DawgBuilder) : outcome E DawgBuilder :=
  try! b := minimize_to 0 b in
  Ok (mkBuilder (states b) (free b) (edges b) [] (registered b) [] []).

(** [DawgBuilder::contains_reversed]. *)
Fixpoint find_edge {E} (fuel : nat) (a : EdgeArena) (l cursor : Z) : outcome E (option Z) :=
  match fuel with
  | O => NoFuel
  | S fuel =>
      if cursor =? NONE then Ok None
      else
        try! x := at_ (label a) cursor in
        if x =? l then try! t := at_ (target a) cursor in Ok (Some t)
        else try! n := at_ (enext a) cursor in find_edge fuel a l n
  end.

Fixpoint contains_from {E} (word : list Z) (id : Z) (b : DawgBuilder) : outcome E bool :=
  try! s := state id b in
  match word with
  | [] => Ok (terminal s)
  | l :: word =>
      try! next := find_edge (edge_fuel b) (edges b) l (edge_head s) in
      match next with
      | None => Ok false
      | Some next => contains_from word next b
      end
  end.

Definition contains_reversed {E} (domain : list Z) (b : DawgBuilder) : outcome E bool := contains_from (rev domain) 0 b.

(** ** Packing *)

(** [DawgBuilder::collect_edges]: the cells, oldest edge first. *)
Fixpoint chain {E} (fuel : nat) (a : EdgeArena) (cursor : Z) : outcome E (list Z) :=
  match fuel with
  | O => NoFuel
  | S fuel =>
      if cursor =? NONE then Ok []
      else try! n := at_ (enext a) cursor in try! l := chain fuel a n in Ok (cursor :: l)
  end.

Definition collect_edges {E} (id : Z) (b : DawgBuilder) : outcome E (list Z) :=
  try! s := state id b in
  try! l := chain (edge_fuel b) (edges b) (edge_head s) in
  Ok (rev l).

(** The arrays that [pack] fills: the numbers of the states, the states and
    the edges. *)
Record Packing : Type := mkPacking {
  remap : list Z;
  packed : list PackedState;
  next_state : Z;
  plabels : list Z;
  ptargets : list Z
}.

(** The edges of one state. *)
Fixpoint pack_edges {E} (a : EdgeArena) (cells : list Z) (p : Packing) : outcome E Packing :=
  match cells with
  | [] => Ok p
  | cell :: cells =>
      try! t := at_ (target a) cell in
      try! r := at_ (remap p) t in
      try! p := (if r =? NONE then
                   try! rm := put (remap p) t (next_state p) in
                   try! s := at_ (packed p) (next_state p) in
                   try! ss := put (packed p) (next_state p) (mkPacked t (edge_count_and_terminal s)) in
                   Ok (mkPacking rm ss (next_state p + 1) (plabels p) (ptargets p))
                 else Ok p) in
      try! l := at_ (label a) cell in
      try! r := at_ (remap p) t in
      pack_edges a cells (mkPacking (remap p) (packed p) (next_state p) (plabels p ++ [l]) (ptargets p ++ [r]))
  end.

Fixpoint pack_states {E} (fuel : nat) (b : DawgBuilder) (cursor : Z) (p : Packing) : outcome E Packing :=
  match fuel with
  | O => NoFuel
  | S fuel =>
      if cursor <? next_state p then
        try! s := at_ (packed p) cursor in
        let id := first_edge s in
        try! cells := collect_edges id b in
        try! bs := state id b in
        try! ss := put (packed p) cursor (PackedState_new (as_u32 (zlen (plabels p))) (zlen cells) (terminal bs)) in
        try! p := pack_edges (edges b) cells (mkPacking (remap p) ss (next_state p) (plabels p) (ptargets p)) in
        pack_states fuel b (cursor + 1) p
      else Ok p
  end.

(** [edge_targets[first..end]]. *)
Definition targets_of {E} (targets : list Z) (s : PackedState) : outcome E (list Z) :=
  match get_range targets (first_edge s) (first_edge s + edge_count s) with Some l => Ok l | None => Panic end.

(** The inner loops of [term_counts]. *)
Fixpoint push_uncounted {E} (counts targets : list Z) (stack : list (Z * bool)) : outcome E (list (Z * bool)) :=
  match targets with
  | [] => Ok stack
  | t :: targets =>
      try! c := at_ counts t in
      push_uncounted counts targets (if c =? NONE then (t, false) :: stack else stack)
  end.

Fixpoint sum_counts {E} (counts targets : list Z) (acc : Z) : outcome E Z :=
  match targets with
  | [] => Ok acc
  | t :: targets =>
      try! c := at_ counts t in
      if U64_MAX <? acc + c then Panic else sum_counts counts targets (acc + c)
  end.

(** [term_counts]; the stack has its top first. *)
Fixpoint count_loop {E} (fuel : nat) (ss : list PackedState) (targets counts : list Z) (stack : list (Z * bool)) :
    outcome E (list Z) :=
  match fuel with
  | O => NoFuel
  | S fuel =>
      match stack with
      | [] => Ok counts
      | (i, expanded) :: stack =>
          try! c := at_ counts i in
          if negb (c =? NONE) then count_loop fuel ss targets counts stack
          else
            try! s := at_ ss i in
            try! ts := targets_of targets s in
            if negb expanded then
              try! stack := push_uncounted counts ts ((i, true) :: stack) in
              count_loop fuel ss targets counts stack
            else
              try! n := sum_counts counts ts (if packed_terminal s then 1 else 0) in
              try! counts := put counts i (as_u32 n) in
              count_loop fuel ss targets counts stack
      end
  end.

Definition term_counts {E} (ss : list PackedState) (targets : list Z) : outcome E (list Z) :=
  count_loop (S (S (length ss + length targets))) ss targets (replicate (length ss) NONE) [(0, false)].

(** The outputs of the edges. *)
Fixpoint outputs_of {E} (counts targets : list Z) (output : Z) : outcome E (list Z) :=
  match targets with
  | [] => Ok []
  | t :: targets =>
      try! c := at_ counts t in
      if U32_MAX <? output + c then Panic
      else try! l := outputs_of counts targets (output + c) in Ok (output :: l)
  end.

Fixpoint edge_outputs_of {E} (counts targets : list Z) (ss : list PackedState) : outcome E (list Z) :=
  match ss with
  | [] => Ok []
  | s :: ss =>
      try! ts := targets_of targets s in
      try! o := outputs_of counts ts (if packed_terminal s then 1 else 0) in
      try! os := edge_outputs_of counts targets ss in
      Ok (o ++ os)
  end.

(** What [pack] returns. *)
Record Packed : Type := mkPackedArrays {
  p_states : list PackedState;
  p_labels : list Z;
  p_targets : list Z;
  p_outputs : list Z;
  root_terms : Z
}.

(** [DawgBuilder::pack]. *)
Definition pack {E} (root : Z) (b : DawgBuilder) : outcome E Packed :=
  let live_states := saturating_sub (zlen (states b)) (zlen (free b)) in
  let empty := PackedState_new 0 0 false in
  try! ss := put (replicate (Z.to_nat live_states) empty) 0 (mkPacked root (edge_count_and_terminal empty)) in
  try! rm := put (replicate (length (states b)) NONE) root 0 in
  try! p := pack_states (S (length (states b))) b 0 (mkPacking rm ss 1 [] []) in
  let ss := take (Z.to_nat (next_state p)) (packed p) in
  try! counts := (if bool_decide (ss = []) then Ok [] else term_counts ss (ptargets p)) in
  try! outputs := edge_outputs_of counts (ptargets p) ss in
  Ok (mkPackedArrays ss (plabels p) (ptargets p) outputs (match get counts 0 with Some c => c | None => 0 end)).

(** [DawgBuilder::finish_completed]. *)
Definition finish_completed {E} (b : DawgBuilder) : outcome E Packed := pack 0 b.

(** The loops over the sorted keys. *)
Fixpoint insert_all {E} (domains : list (list Z)) (b : DawgBuilder) : outcome E DawgBuilder :=
  match domains with
  | [] => Ok b
  | d :: domains => try! b := insert_reversed d b in insert_all domains b
  end.
