(* ===== verification/DawgRep.v ===== *)
(** * The graph in the builder's memory, and the operations on it

    Which graph the states and the arena of edges of a builder hold: every
    live state owns a chain of cells, the chains and the free list are
    disjoint.  Each operation on the memory is one on the graph.

    Each operation of the builder on its memory is one on the graph that the
    memory holds. *)

From S2P Require Import Prelude FilterTable FilterTableSpec Dawg.

#[local] Open Scope outcome_scope.

(** A state: whether words end here, and its edges, the newest first. *)
Notation node := (bool * list (Z * Z))%type (only parsing).
Notation graph := (gmap Z (bool * list (Z * Z))) (only parsing).

(** ** Chains *)

Fixpoint linked (next : list Z) (head : Z) (cs : list Z) : Prop :=
  match cs with
  | [] => head = NONE
  | c :: cs => head = c ∧ c ≠ NONE ∧ ∃ n, get next c = Some n ∧ linked next n cs
  end.

Lemma linked_frame next next' head cs :
  linked next head cs → (∀ c, c ∈ cs → get next' c = get next c) → linked next' head cs.
Proof.
  revert head. induction cs as [|c cs IH]; intros head; [done|]. intros (-> & Hc & n & Hn & Hl) Hf.
  split_and!; [done|done|]. exists n. rewrite Hf by by left. split; [done|]. apply IH; [done|]. intros d Hd. apply Hf. by right.
Qed.

Lemma linked_range next head cs c : linked next head cs → c ∈ cs → 0 ≤ c < zlen next.
Proof.
  revert head. induction cs as [|d cs IH]; intros head; [by intros _ ?%elem_of_nil|].
  intros (-> & _ & n & Hn & Hl) [->|Hin]%elem_of_cons; [by eapply get_Some_lt|by eapply IH].
Qed.

(** A chain without repetition is no longer than the arena. *)
Lemma range_length (l : list Z) n : NoDup l → (∀ c, c ∈ l → 0 ≤ c < n) → Z.of_nat (length l) ≤ Z.max 0 n.
Proof.
  intros Hnd Hr. assert (l ⊆ seqZ 0 n) as Hsub by (intros c Hc%Hr; apply elem_of_seqZ; lia).
  apply (NoDup_submseteq l) in Hsub; [|done]. apply submseteq_length in Hsub. rewrite length_seqZ in Hsub. lia.
Qed.

(** The edge in a cell. *)
Definition edge_at (a : EdgeArena) (c : Z) : Z * Z :=
  (match get (label a) c with Some l => l | None => 0 end, match get (target a) c with Some t => t | None => 0 end).

(** ** The arena *)

Record arena_ok (a : EdgeArena) (own : gmap Z (list Z)) (fs : list Z) : Prop := {
  ar_target : length (target a) = length (label a);
  ar_next : length (enext a) = length (label a);
  ar_max : zlen (label a) ≤ NONE;
  ar_free : linked (enext a) (efree a) fs;
  ar_free_nodup : NoDup fs;
  ar_own : ∀ id cs, own !! id = Some cs → NoDup cs ∧ ∀ c, c ∈ cs → 0 ≤ c < zlen (label a) ∧ c ∉ fs;
  ar_disjoint : ∀ i j cs ds c, own !! i = Some cs → own !! j = Some ds → i ≠ j → c ∈ cs → c ∉ ds;
  ar_live : elive a = zlen (label a) - zlen fs
}.

Lemma cell_at {E} a own fs c : arena_ok a own fs → 0 ≤ c < zlen (label a) →
  at_ (E:=E) (label a) c = Ok (edge_at a c).1 ∧ at_ (E:=E) (target a) c = Ok (edge_at a c).2.
Proof.
  intros H Hc. unfold at_, edge_at. simpl. destruct (get_is_Some (label a) c Hc) as [l ->].
  destruct (get_is_Some (target a) c) as [t ->]; [|done]. unfold zlen in *. by rewrite (ar_target _ _ _ H).
Qed.

Lemma at_get {E A} (l : list A) i x : get l i = Some x → at_ (E:=E) l i = Ok x.
Proof. unfold at_. by intros ->. Qed.

Lemma put_get {E A} (l : list A) i x : 0 ≤ i < zlen l → put (E:=E) l i x = Ok (<[Z.to_nat i := x]> l).
Proof. intros H. unfold put, set_at. by rewrite (proj2 (Z.leb_le _ _)), (proj2 (Z.ltb_lt _ _)) by lia. Qed.

Lemma get_put {A} (l : list A) i j x : 0 ≤ i < zlen l →
  get (<[Z.to_nat i := x]> l) j = if decide (j = i) then Some x else get l j.
Proof.
  intros Hi. unfold get. destruct (decide (j = i)) as [->|Hne].
  - rewrite (proj2 (Z.ltb_ge _ _)) by lia. apply list_lookup_insert_eq. unfold zlen in Hi. lia.
  - destruct (Z.ltb_spec j 0); [done|]. apply list_lookup_insert_ne. lia.
Qed.

Lemma get_push {A} (l : list A) x j : get (l ++ [x]) j = if decide (j = zlen l) then Some x else get l j.
Proof.
  destruct (decide (j = zlen l)) as [->|Hne]; [apply get_app_mid|].
  destruct (decide (j < zlen l)); [by apply get_app_l|]. rewrite get_None_ge by (rewrite zlen_app; change (zlen [x]) with 1; lia).
  symmetry. apply get_None_ge. lia.
Qed.

(** The chain of a state is walked within the fuel. *)
Lemma own_length a own fs id cs : arena_ok a own fs → own !! id = Some cs → (length cs ≤ length (label a))%nat.
Proof.
  intros H Ho. destruct (ar_own _ _ _ H id cs Ho) as [Hnd Hr].
  pose proof (range_length cs (zlen (label a)) Hnd ltac:(intros c Hc; by apply Hr)). unfold zlen in *. lia.
Qed.

Section walks.
  Context {E : Type} (a : EdgeArena) (own : gmap Z (list Z)) (fs : list Z).
  Hypothesis Ha : arena_ok a own fs.

Lemma edges_equal_spec fuel : ∀ l r cs ds,
  linked (enext a) l cs → linked (enext a) r ds →
  (∀ c, c ∈ cs ∨ c ∈ ds → 0 ≤ c < zlen (label a)) → (length cs < fuel)%nat →
  edges_equal (E:=E) fuel a l r = Ok (bool_decide (map (edge_at a) cs = map (edge_at a) ds)).
Proof using Ha.
  induction fuel as [|fuel IH]; intros l r cs ds Hl Hr Hrange Hf; [lia|]. cbn [edges_equal].
  destruct cs as [|c cs], ds as [|d ds]; simpl in Hl, Hr.
  - subst. rewrite Z.eqb_refl. cbn [negb andb]. by rewrite bool_decide_true.
  - subst l. destruct Hr as (-> & Hd & _). rewrite (Z.eqb_refl NONE). cbn [negb andb].
    rewrite (proj2 (Z.eqb_neq NONE d)) by done. by rewrite bool_decide_false.
  - subst r. destruct Hl as (-> & Hc & _). rewrite (Z.eqb_refl NONE), andb_false_r.
    rewrite (proj2 (Z.eqb_neq c NONE)) by done. by rewrite bool_decide_false.
  - destruct Hl as (-> & Hc & n & Hn & Hl), Hr as (-> & Hd & m & Hm & Hr).
    rewrite (proj2 (Z.eqb_neq c _)), (proj2 (Z.eqb_neq d _)) by done. cbn [negb andb map].
    destruct (cell_at (E:=E) a own fs c Ha) as [-> ->]; [apply Hrange; left; by left|].
    destruct (cell_at (E:=E) a own fs d Ha) as [-> ->]; [apply Hrange; right; by left|]. cbn [obind].
    destruct (Z.eqb_spec (edge_at a c).1 (edge_at a d).1) as [E1|E1]; cbn [negb].
    2: { rewrite bool_decide_false; [done|]. intros H. apply (f_equal head) in H. injection H as H _. by apply E1. }
    destruct (Z.eqb_spec (edge_at a c).2 (edge_at a d).2) as [E2|E2]; cbn [negb].
    2: { rewrite bool_decide_false; [done|]. intros H. apply (f_equal head) in H. injection H as _ H. by apply E2. }
    rewrite (at_get _ _ _ Hn), (at_get _ _ _ Hm). cbn [obind].
    rewrite (IH n m cs ds Hl Hr); [|intros e [He|He]; apply Hrange; [left|right]; by right|simpl in Hf; lia].
    f_equal. apply bool_decide_ext. assert (edge_at a c = edge_at a d) as -> by by apply injective_projections.
    split; [by intros ->|congruence].
Qed.

(** The first edge with a label. *)
Definition follow (es : list (Z * Z)) (l : Z) : option Z :=
  match List.find (λ e, e.1 =? l) es with Some e => Some e.2 | None => None end.

Lemma find_edge_spec fuel : ∀ head cs l,
  linked (enext a) head cs → (∀ c, c ∈ cs → 0 ≤ c < zlen (label a)) → (length cs < fuel)%nat →
  find_edge (E:=E) fuel a l head = Ok (follow (map (edge_at a) cs) l).
Proof using Ha.
  induction fuel as [|fuel IH]; intros head cs l Hl Hrange Hf; [lia|]. cbn [find_edge].
  destruct cs as [|c cs]; simpl in Hl; [subst; by rewrite Z.eqb_refl|]. destruct Hl as (-> & Hc & n & Hn & Hl).
  rewrite (proj2 (Z.eqb_neq c _)) by done. destruct (cell_at (E:=E) a own fs c Ha) as [-> ->]; [apply Hrange; by left|].
  cbn [obind]. unfold follow. cbn [map List.find]. destruct (_ =? l); [done|].
  rewrite (at_get _ _ _ Hn). cbn [obind]. apply IH; [done|intros d Hd; apply Hrange; by right|simpl in Hf; lia].
Qed.

Lemma chain_spec fuel : ∀ head cs,
  linked (enext a) head cs → (length cs < fuel)%nat → chain (E:=E) fuel a head = Ok cs.
Proof.
  induction fuel as [|fuel IH]; intros head cs Hl Hf; [lia|]. cbn [chain].
  destruct cs as [|c cs]; simpl in Hl; [subst; by rewrite Z.eqb_refl|]. destruct Hl as (-> & Hc & n & Hn & Hl).
  rewrite (proj2 (Z.eqb_neq c _)) by done. rewrite (at_get _ _ _ Hn). cbn [obind].
  rewrite (IH n cs Hl); [done|simpl in Hf; lia].
Qed.

Lemma hash_edges_total fuel : ∀ head cs h,
  linked (enext a) head cs → (∀ c, c ∈ cs → 0 ≤ c < zlen (label a)) → (length cs < fuel)%nat →
  ∃ h', hash_edges (E:=E) fuel a head h = Ok h'.
Proof using Ha.
  induction fuel as [|fuel IH]; intros head cs h Hl Hrange Hf; [lia|]. cbn [hash_edges].
  destruct cs as [|c cs]; simpl in Hl; [subst; rewrite Z.eqb_refl; by eexists|]. destruct Hl as (-> & Hc & n & Hn & Hl).
  rewrite (proj2 (Z.eqb_neq c _)) by done. destruct (cell_at (E:=E) a own fs c Ha) as [-> ->]; [apply Hrange; by left|].
  rewrite (at_get _ _ _ Hn). cbn [obind]. eapply IH; [done|intros d Hd; apply Hrange; by right|simpl in Hf; lia].
Qed.
End walks.

(** Freed cells go in front of the free list. *)
Lemma release_spec {E} fuel : ∀ a own fs head cs,
  arena_ok a own fs → linked (enext a) head cs → NoDup cs →
  (∀ c, c ∈ cs → 0 ≤ c < zlen (label a) ∧ c ∉ fs ∧ ∀ id ds, own !! id = Some ds → c ∉ ds) → (length cs < fuel)%nat →
  ∃ a' fs', release (E:=E) fuel head a = Ok a' ∧ arena_ok a' own fs' ∧ label a' = label a ∧ target a' = target a
    ∧ ∀ c, c ∉ cs → get (enext a') c = get (enext a) c.
Proof.
  induction fuel as [|fuel IH]; intros a own fs head cs Ha Hl Hnd Hcs Hf; [lia|]. cbn [release].
  destruct cs as [|c cs]; simpl in Hl; [subst; rewrite Z.eqb_refl; by exists a, fs|]. destruct Hl as (-> & Hc & n & Hn & Hl).
  rewrite (proj2 (Z.eqb_neq c _)) by done. destruct (Hcs c) as (Hrc & Hfc & Hoc); [by left|].
  apply NoDup_cons in Hnd as [Hni Hnd].
  assert (Hcount : Z.of_nat (length (c :: fs)) ≤ zlen (label a)).
  { pose proof (range_length (c :: fs) (zlen (label a))) as Hr. pose proof (zlen_nonneg (label a)).
    assert (Z.of_nat (length (c :: fs)) ≤ Z.max 0 (zlen (label a))); [|lia]. apply Hr; [by apply NoDup_cons; split; [|apply Ha]|].
    intros d [->|Hd]%elem_of_cons; [done|]. pose proof (linked_range _ _ _ _ (ar_free _ _ _ Ha) Hd) as Hd'.
    unfold zlen in *. by rewrite (ar_next _ _ _ Ha) in Hd'. }
  pose proof (ar_live _ _ _ Ha) as Hlive. simpl in Hcount. unfold zlen in Hlive.
  rewrite (proj2 (Z.ltb_ge _ _)) by (unfold zlen in *; lia).
  rewrite (at_get _ _ _ Hn). cbn [obind]. assert (Hrn : 0 ≤ c < zlen (enext a)) by by eapply get_Some_lt.
  rewrite put_get by done. cbn [obind].
  assert (Hframe : ∀ d, d ≠ c → get (<[Z.to_nat c := efree a]> (enext a)) d = get (enext a) d).
  { intros d Hd. rewrite get_put by done. by rewrite decide_False. }
  destruct (IH (mkArena (label a) (target a) (<[Z.to_nat c := efree a]> (enext a)) c (elive a - 1)) own (c :: fs) n cs)
    as (a' & fs' & -> & Ha' & Hlab & Htar & Hnext).
  - split; simpl; try apply Ha.
    + rewrite length_insert. apply Ha.
    + split_and!; [done|done|]. exists (efree a). rewrite get_put by done. rewrite decide_True by done. split; [done|].
      eapply linked_frame; [apply Ha|]. intros d Hd. apply Hframe. by intros ->.
    + apply NoDup_cons. split; [done|apply Ha].
    + intros id ds Hds. destruct (ar_own _ _ _ Ha id ds Hds) as [Hnd' Hr]. split; [done|]. intros d Hd.
      destruct (Hr d Hd) as [? ?]. split; [done|]. intros [->|?]%elem_of_cons; [by eapply Hoc|done].
    + rewrite zlen_cons. unfold zlen in *. lia.
  - eapply linked_frame; [done|]. intros d Hd. apply Hframe. by intros ->.
  - done.
  - intros d Hd. destruct (Hcs d) as (? & ? & ?); [by right|]. split; [done|]. split; [|done].
    by intros [->|?]%elem_of_cons.
  - simpl in Hf. lia.
  - exists a', fs'. split_and!; [done|done|done|done|]. intros d [Hd1 Hd2]%not_elem_of_cons. rewrite Hnext by done. by apply Hframe.
Qed.

(** A fresh cell. *)
Record fresh_cell (a a' : EdgeArena) (own : gmap Z (list Z)) (fs' : list Z) (c l t n : Z) : Prop := {
  fc_range : 0 ≤ c < zlen (label a') ∧ c ≠ NONE;
  fc_free : c ∉ fs';
  fc_own : ∀ id ds, own !! id = Some ds → c ∉ ds;
  fc_edge : edge_at a' c = (l, t);
  fc_next : get (enext a') c = Some n;
  fc_frame : ∀ d, d ≠ c → edge_at a' d = edge_at a d ∧ get (enext a') d = get (enext a) d;
  fc_length : zlen (label a) ≤ zlen (label a') ≤ zlen (label a) + 1
}.

Lemma alloc_spec {E} a own fs l t n :
  arena_ok a own fs → zlen (label a) < NONE →
  ∃ c a' fs', alloc (E:=E) l t n a = Ok (c, a') ∧ arena_ok a' own fs' ∧ fresh_cell a a' own fs' c l t n.
Proof.
  intros Ha Hmax. pose proof (ar_target _ _ _ Ha) as Ht. pose proof (ar_next _ _ _ Ha) as Hn. unfold alloc.
  destruct fs as [|c fs]; pose proof (ar_free _ _ _ Ha) as Hfree; simpl in Hfree.
  - rewrite Hfree, Z.eqb_refl. cbn [negb]. pose proof (zlen_nonneg (label a)).
    assert (zlen (label a) = zlen (target a) ∧ zlen (label a) = zlen (enext a)) as [Ezt Ezn] by (unfold zlen; lia).
    unfold as_u32. rewrite Z.mod_small by (unfold NONE, U32_MAX in Hmax; lia). eexists _, _, []. split; [done|].
    split; [|split; simpl].
    + split; simpl.
      * rewrite !length_app. simpl. lia.
      * rewrite !length_app. simpl. lia.
      * rewrite zlen_app. change (zlen [l]) with 1. lia.
      * done.
      * constructor.
      * intros id ds Hds. destruct (ar_own _ _ _ Ha id ds Hds) as [Hnd Hr]. split; [done|]. intros d Hd. destruct (Hr d Hd).
        rewrite zlen_app. change (zlen [l]) with 1. split; [lia|done].
      * apply Ha.
      * rewrite (ar_live _ _ _ Ha), zlen_app, zlen_nil. change (zlen [l]) with 1. lia.
    + rewrite zlen_app. change (zlen [l]) with 1. lia.
    + by intros ?%elem_of_nil.
    + intros id ds Hds Hin. apply (ar_own _ _ _ Ha id ds Hds) in Hin as [? _]. lia.
    + unfold edge_at. simpl. rewrite get_app_mid, Ezt, get_app_mid. done.
    + rewrite Ezn. apply get_app_mid.
    + intros d Hd. unfold edge_at. simpl. rewrite !get_push, <- Ezt, <- Ezn, !decide_False by done. done.
    + rewrite zlen_app. change (zlen [l]) with 1. lia.
  - destruct Hfree as (Ec & Hc & m & Hm & Hl). rewrite Ec, (proj2 (Z.eqb_neq c _)) by done. cbn [negb].
    assert (Hr : 0 ≤ c < zlen (enext a)) by by eapply get_Some_lt.
    assert (zlen (label a) = zlen (target a) ∧ zlen (label a) = zlen (enext a)) as [Ezt Ezn] by (unfold zlen; lia).
    rewrite (at_get _ _ _ Hm), !put_get by lia. cbn [obind]. unfold as_u32.
    rewrite Z.mod_small by (unfold NONE, U32_MAX in Hmax; lia). eexists c, _, fs. split; [done|].
    pose proof (ar_free_nodup _ _ _ Ha) as [Hni Hnd]%NoDup_cons.
    assert (Hown : ∀ id ds, own !! id = Some ds → c ∉ ds).
    { intros id ds Hds Hin. apply (ar_own _ _ _ Ha id ds Hds) in Hin as [_ Hnf]. apply Hnf. by left. }
    split; [|split; simpl].
    + split; simpl.
      * by rewrite !length_insert.
      * by rewrite !length_insert.
      * rewrite zlen_insert. lia.
      * eapply linked_frame; [done|]. intros d Hd. rewrite get_put by done. rewrite decide_False; [done|by intros ->].
      * done.
      * intros id ds Hds. destruct (ar_own _ _ _ Ha id ds Hds) as [Hnd' Hr']. split; [done|]. intros d Hd.
        destruct (Hr' d Hd) as [? Hnf]. rewrite zlen_insert. split; [done|]. intros ?. apply Hnf. by right.
      * apply Ha.
      * rewrite (ar_live _ _ _ Ha), zlen_insert, zlen_cons. lia.
    + rewrite zlen_insert. lia.
    + done.
    + done.
    + unfold edge_at. simpl. rewrite !get_put by lia. by rewrite !decide_True.
    + rewrite get_put by lia. by rewrite decide_True.
    + intros d Hd. unfold edge_at. simpl. rewrite !get_put by lia. by rewrite !decide_False.
    + rewrite zlen_insert. lia.
Qed.

(** A cell that is given to a state. *)
Lemma arena_give a own fs id c cs :
  arena_ok a own fs → own !! id = Some cs → 0 ≤ c < zlen (label a) → c ∉ fs → (∀ j ds, own !! j = Some ds → c ∉ ds) →
  arena_ok a (<[id := c :: cs]> own) fs.
Proof.
  intros Ha Ho Hc Hfc Hfree. split; try apply Ha.
  - intros j ds. destruct (decide (j = id)) as [->|Hne].
    + rewrite lookup_insert_eq. intros [= <-]. destruct (ar_own _ _ _ Ha id cs Ho) as [Hnd Hr]. split.
      * apply NoDup_cons. split; [by eapply Hfree|done].
      * intros d [->|Hd]%elem_of_cons; [done|auto].
    + rewrite lookup_insert_ne by done. apply Ha.
  - intros i j xs ys d. destruct (decide (i = id)) as [->|Hi], (decide (j = id)) as [->|Hj];
      rewrite ?lookup_insert_eq, ?lookup_insert_ne by done.
    + done.
    + intros [= <-] Hys Hne [->|Hd]%elem_of_cons; [by eapply Hfree|]. by eapply (ar_disjoint _ _ _ Ha id j).
    + intros Hxs [= <-] Hne Hd [->|Hd']%elem_of_cons; [by eapply Hfree|].
      by eapply (ar_disjoint _ _ _ Ha i id _ _ d).
    + intros Hxs Hys. by eapply (ar_disjoint _ _ _ Ha).
Qed.

Lemma arena_new a own fs id : arena_ok a own fs → own !! id = None → arena_ok a (<[id := []]> own) fs.
Proof.
  intros Ha Ho. split; try apply Ha.
  - intros j ds. destruct (decide (j = id)) as [->|Hne]; rewrite ?lookup_insert_eq, ?lookup_insert_ne by done.
    + intros [= <-]. split; [constructor|]. by intros d ?%elem_of_nil.
    + apply Ha.
  - intros i j xs ys d. destruct (decide (i = id)) as [->|Hi], (decide (j = id)) as [->|Hj];
      rewrite ?lookup_insert_eq, ?lookup_insert_ne by done.
    + done.
    + by intros [= <-] _ _ ?%elem_of_nil.
    + by intros _ [= <-] _ _ ?%elem_of_nil.
    + intros Hxs Hys. by eapply (ar_disjoint _ _ _ Ha).
Qed.

Lemma arena_delete a own fs id : arena_ok a own fs → arena_ok a (delete id own) fs.
Proof.
  intros Ha. split; try apply Ha.
  - intros j ds [_ Hds]%lookup_delete_Some. by apply (ar_own _ _ _ Ha j).
  - intros i j xs ys d [_ Hxs]%lookup_delete_Some [_ Hys]%lookup_delete_Some. by eapply (ar_disjoint _ _ _ Ha).
Qed.

(** ** The builder *)

(** What a slot of the vector of states holds. *)
Definition slot_ok (b : DawgBuilder) (g : graph) (own : gmap Z (list Z)) (id : Z) (o : option (option BuildState)) : Prop :=
  match o with
  | Some (Some s) =>
      ∃ cs, own !! id = Some cs ∧ linked (enext (edges b)) (edge_head s) cs
        ∧ g !! id = Some (terminal s, map (edge_at (edges b)) cs)
  | _ => own !! id = None ∧ g !! id = None
  end.

Record rep (b : DawgBuilder) (g : graph) (own : gmap Z (list Z)) (fs : list Z) : Prop := {
  rb_arena : arena_ok (edges b) own fs;
  rb_state : ∀ id, slot_ok b g own id (get (states b) id);
  rb_free_nodup : NoDup (free b);
  rb_free : ∀ id, id ∈ free b ↔ get (states b) id = Some None;
  rb_max : zlen (states b) ≤ NONE
}.

Lemma rep_lookup b g own fs id n : rep b g own fs → g !! id = Some n →
  ∃ s cs, get (states b) id = Some (Some s) ∧ own !! id = Some cs ∧ linked (enext (edges b)) (edge_head s) cs
    ∧ n = (terminal s, map (edge_at (edges b)) cs).
Proof.
  intros H Hg. pose proof (rb_state _ _ _ _ H id) as Hs. unfold slot_ok in Hs.
  destruct (get (states b) id) as [[s|]|]; [|destruct Hs; congruence..].
  destruct Hs as (cs & Ho & Hl & Hn). exists s, cs. by rewrite Hn in Hg; injection Hg as <-.
Qed.

Lemma state_get {E} b id s : get (states b) id = Some (Some s) → state (E:=E) id b = Ok s.
Proof. unfold state. by intros ->. Qed.

Lemma state_mut_get {E} b id s f : get (states b) id = Some (Some s) →
  state_mut (E:=E) id f b = Ok (set_states (<[Z.to_nat id := Some (f s)]> (states b)) b).
Proof.
  intros H. unfold state_mut. rewrite (state_get _ _ _ H). cbn [obind]. rewrite put_get by by eapply get_Some_lt. done.
Qed.

(** Two graphs in memory that differ in one state. *)
Lemma slot_ok_frame b b' g g' own own' id o :
  slot_ok b g own id o → own' !! id = own !! id → g' !! id = g !! id →
  (∀ cs c, own !! id = Some cs → c ∈ cs → edge_at (edges b') c = edge_at (edges b) c ∧ get (enext (edges b')) c = get (enext (edges b)) c) →
  slot_ok b' g' own' id o.
Proof.
  intros H Ho Hg Hf. unfold slot_ok in *. rewrite Ho, Hg. destruct o as [[s|]|]; [|done|done].
  destruct H as (cs & Hcs & Hl & Hn). exists cs. split; [done|]. split.
  - eapply linked_frame; [done|]. intros c Hc. by apply (Hf cs).
  - rewrite Hn. do 2 f_equal. apply map_ext_in. intros c Hc%list_elem_of_In. symmetry. by apply (Hf cs).
Qed.

(** * The builder's operations on the graph *)

Definition Rep (b : DawgBuilder) (g : graph) : Prop := ∃ own fs, rep b g own fs.

Lemma Rep_lookup b g id n : Rep b g → g !! id = Some n →
  ∃ s, get (states b) id = Some (Some s) ∧ terminal s = n.1.
Proof. intros (own & fs & H) Hg. destruct (rep_lookup _ _ _ _ _ _ H Hg) as (s & cs & Hs & _ & _ & ->). by exists s. Qed.

Lemma Rep_live b g id s : Rep b g → get (states b) id = Some (Some s) → ∃ n, g !! id = Some n.
Proof.
  intros (own & fs & H) Hs. pose proof (rb_state _ _ _ _ H id) as Hok. rewrite Hs in Hok.
  destruct Hok as (cs & _ & _ & Hg). eauto.
Qed.

Lemma Rep_range b g id n : Rep b g → g !! id = Some n → 0 ≤ id < zlen (states b) ∧ id ≠ NONE.
Proof.
  intros H Hg. destruct (Rep_lookup _ _ _ _ H Hg) as (s & Hs & _). apply get_Some_lt in Hs.
  destruct H as (own & fs & H). pose proof (rb_max _ _ _ _ H). lia.
Qed.

(** Nothing else of the builder matters for the graph. *)
Lemma Rep_frame b b' g : Rep b g → states b' = states b → free b' = free b → edges b' = edges b → Rep b' g.
Proof.
  intros (own & fs & H) Es Ef Ee. exists own, fs. destruct H. split; rewrite ?Es, ?Ef, ?Ee; try done.
  unfold slot_ok in *. by rewrite Ee.
Qed.

(** The fuel of a walk along the edges of a state. *)
Lemma own_fuel b g own fs id cs : rep b g own fs → own !! id = Some cs → (length cs < edge_fuel b)%nat.
Proof.
  intros H Ho. destruct (ar_own _ _ _ (rb_arena _ _ _ _ H) id cs Ho) as [Hnd Hr].
  pose proof (range_length cs (zlen (label (edges b))) Hnd ltac:(intros c Hc; by apply Hr)). unfold edge_fuel, zlen in *. lia.
Qed.

(** ** A new state *)

Lemma slot_new b b' g own fs id j o :
  rep b g own fs → edges b' = edges b → o = get (states b) j → j ≠ id →
  slot_ok b' (<[id := (false, [])]> g) (<[id := []]> own) j o.
Proof.
  intros H Ee -> Hj. eapply slot_ok_frame; [apply H|by rewrite lookup_insert_ne|by rewrite lookup_insert_ne|].
  intros. by rewrite Ee.
Qed.

Lemma new_state_spec {E} b g : Rep b g → zlen (states b) < NONE →
  ∃ id b', new_state (E:=E) b = Ok (id, b') ∧ g !! id = None ∧ Rep b' (<[id := (false, [])]> g)
    ∧ get (states b') id = Some (Some BuildState_new) ∧ (∀ j, j ≠ id → get (states b') j = get (states b) j)
    ∧ (∀ s, get (states b) id ≠ Some (Some s))
    ∧ zlen (states b) ≤ zlen (states b') ≤ zlen (states b) + 1
    ∧ edges b' = edges b ∧ register b' = register b ∧ registered b' = registered b ∧ path b' = path b ∧ previous b' = previous b.
Proof.
  intros (own & fs & H) Hmax. unfold new_state. destruct (free b) as [|id rest] eqn:Ef.
  - unfold as_u32. pose proof (zlen_nonneg (states b)). rewrite Z.mod_small by (unfold NONE, U32_MAX in Hmax; lia).
    set (id := zlen (states b)). assert (Hnone : get (states b) id = None) by (apply get_None_ge; lia).
    pose proof (rb_state _ _ _ _ H id) as Hs. rewrite Hnone in Hs. destruct Hs as [Ho Hg].
    eexists id, _. split; [done|]. split; [done|]. simpl. split; [|split_and!].
    + exists (<[id := []]> own), fs. split; simpl.
      * apply arena_new; [apply H|done].
      * intros j. rewrite get_push. case_decide as Hj.
        -- subst j. exists []. rewrite !lookup_insert_eq. done.
        -- by eapply slot_new.
      * apply H.
      * intros j. rewrite get_push. case_decide as Hj.
        -- subst j. rewrite Ef. split; [by intros ?%elem_of_nil|done].
        -- apply H.
      * rewrite zlen_app. change (zlen [_]) with 1. lia.
    + apply get_app_mid.
    + intros j Hj. rewrite get_push. by rewrite decide_False.
    + intros s. rewrite Hnone. done.
    + rewrite zlen_app. change (zlen [_]) with 1. lia.
    + rewrite zlen_app. change (zlen [_]) with 1. lia.
    + done.
    + done.
    + done.
    + done.
    + done.
  - assert (Hdead : get (states b) id = Some None) by (apply (rb_free _ _ _ _ H); rewrite Ef; by left).
    pose proof (get_Some_lt _ _ _ Hdead) as Hr. rewrite put_get by done. cbn [obind].
    pose proof (rb_state _ _ _ _ H id) as Hs. rewrite Hdead in Hs. destruct Hs as [Ho Hg].
    pose proof (rb_free_nodup _ _ _ _ H) as Hnd. rewrite Ef in Hnd. apply NoDup_cons in Hnd as [Hni Hnd].
    eexists id, _. split; [done|]. split; [done|]. simpl. split; [|split_and!].
    + exists (<[id := []]> own), fs. split; simpl.
      * apply arena_new; [apply H|done].
      * intros j. rewrite get_put by done. case_decide as Hj.
        -- subst j. exists []. rewrite !lookup_insert_eq. done.
        -- by eapply slot_new.
      * done.
      * intros j. rewrite get_put by done. case_decide as Hj.
        -- subst j. done.
        -- rewrite <- (rb_free _ _ _ _ H), Ef, elem_of_cons. naive_solver.
      * rewrite zlen_insert. lia.
    + rewrite get_put by done. by rewrite decide_True.
    + intros j Hj. rewrite get_put by done. by rewrite decide_False.
    + intros s. rewrite Hdead. done.
    + rewrite zlen_insert. lia.
    + rewrite zlen_insert. lia.
    + done.
    + done.
    + done.
    + done.
    + done.
Qed.

(** ** A change of one state *)

(** The state [id] gets other contents; its chain may have changed, the other
    chains have not. *)
Lemma rep_update b g own fs id s s' a' own' fs' cs :
  rep b g own fs → get (states b) id = Some (Some s) →
  arena_ok a' own' fs' → own' = <[id := cs]> own → linked (enext a') (edge_head s') cs →
  (∀ j ds c, own !! j = Some ds → j ≠ id → c ∈ ds → edge_at a' c = edge_at (edges b) c ∧ get (enext a') c = get (enext (edges b)) c) →
  rep (set_states (<[Z.to_nat id := Some s']> (states b)) (set_edges a' b))
    (<[id := (terminal s', map (edge_at a') cs)]> g) own' fs'.
Proof.
  intros H Hs Ha -> Hl Hf. pose proof (get_Some_lt _ _ _ Hs) as Hr. split; simpl; [done| | | |].
  - intros j. rewrite get_put by done. case_decide as Hj.
    + subst j. exists cs. by rewrite !lookup_insert_eq.
    + eapply slot_ok_frame; [apply H|by rewrite lookup_insert_ne|by rewrite lookup_insert_ne|]. intros ds c Hds Hc. by eapply Hf.
  - apply H.
  - intros j. rewrite get_put by done. case_decide as Hj; [|apply H]. subst j. split; [|done].
    intros Hin. apply (rb_free _ _ _ _ H) in Hin. congruence.
  - rewrite zlen_insert. apply H.
Qed.

Lemma Rep_set_terminal {E} b g id t es : Rep b g → g !! id = Some (t, es) →
  ∃ b', state_mut (E:=E) id set_terminal b = Ok b' ∧ Rep b' (<[id := (true, es)]> g)
    ∧ b' = set_states (states b') b ∧ zlen (states b') = zlen (states b)
    ∧ (∀ j s, get (states b) j = Some (Some s) → ∃ s', get (states b') j = Some (Some s') ∧ register_next s' = register_next s).
Proof.
  intros (own & fs & H) Hg. destruct (rep_lookup _ _ _ _ _ _ H Hg) as (s & cs & Hs & Ho & Hl & [= -> Hes]).
  rewrite (state_mut_get _ _ _ _ Hs). eexists. split; [done|]. simpl. split; [|split_and!].
  - exists own, fs.
    pose proof (rep_update b g own fs id s (set_terminal s) (edges b) own fs cs H Hs (rb_arena _ _ _ _ H)) as Hu.
    simpl in Hu. rewrite Hes. replace (set_edges (edges b) b) with b in Hu by by destruct b. apply Hu; [|done|done].
    by rewrite insert_id.
  - done.
  - apply zlen_insert.
  - intros j s1 Hj. rewrite get_put by by eapply get_Some_lt. case_decide; [|by exists s1]. subst j.
    rewrite Hs in Hj. injection Hj as <-. by exists (set_terminal s).
Qed.

Lemma Rep_set_register_next {E} b g id n r : Rep b g → g !! id = Some n →
  ∃ b', state_mut (E:=E) id (set_register_next r) b = Ok b' ∧ Rep b' g ∧ b' = set_states (states b') b
    ∧ zlen (states b') = zlen (states b)
    ∧ (∀ j, j ≠ id → get (states b') j = get (states b) j) ∧ ∃ s', get (states b') id = Some (Some s') ∧ register_next s' = r.
Proof.
  intros (own & fs & H) Hg. destruct (rep_lookup _ _ _ _ _ _ H Hg) as (s & cs & Hs & Ho & Hl & ->).
  rewrite (state_mut_get _ _ _ _ Hs). eexists. split; [done|]. simpl. split; [|split_and!].
  - exists own, fs.
    pose proof (rep_update b g own fs id s (set_register_next r s) (edges b) own fs cs H Hs (rb_arena _ _ _ _ H)) as Hu.
    simpl in Hu. replace (set_edges (edges b) b) with b in Hu by by destruct b.
    rewrite (insert_id g id) in Hu by done. apply Hu; [|done|done]. by rewrite insert_id.
  - done.
  - apply zlen_insert.
  - intros j Hj. rewrite get_put by by eapply get_Some_lt. by rewrite decide_False.
  - exists (set_register_next r s). rewrite get_put by by eapply get_Some_lt. by rewrite decide_True.
Qed.

(** What the owner of a cell knows of it. *)
Lemma own_cells b g own fs id cs : rep b g own fs → own !! id = Some cs →
  NoDup cs ∧ (∀ c, c ∈ cs → 0 ≤ c < zlen (label (edges b)) ∧ c ∉ fs)
  ∧ ∀ j ds c, own !! j = Some ds → j ≠ id → c ∈ ds → c ∉ cs.
Proof.
  intros H Ho. pose proof (rb_arena _ _ _ _ H) as Ha. destruct (ar_own _ _ _ Ha id cs Ho) as [Hnd Hr].
  split_and!; [done|done|]. intros j ds c Hds Hj Hc. by eapply (ar_disjoint _ _ _ Ha).
Qed.

Lemma Rep_add_edge {E} b g p t es l c s : Rep b g → g !! p = Some (t, es) → get (states b) p = Some (Some s) →
  zlen (label (edges b)) < NONE →
  ∃ cell a b', alloc (E:=E) l c (edge_head s) (edges b) = Ok (cell, a)
    ∧ state_mut (E:=E) p (set_head cell) (set_edges a b) = Ok b' ∧ Rep b' (<[p := (t, (l, c) :: es)]> g)
    ∧ b' = set_states (states b') (set_edges a b) ∧ zlen (states b') = zlen (states b)
    ∧ zlen (label a) ≤ zlen (label (edges b)) + 1
    ∧ (∀ j s, get (states b) j = Some (Some s) → ∃ s', get (states b') j = Some (Some s') ∧ register_next s' = register_next s).
Proof.
  intros (own & fs & H) Hg Hs Hmax. destruct (rep_lookup _ _ _ _ _ _ H Hg) as (s0 & cs & Hs0 & Ho & Hl & [= -> Hes]).
  assert (s0 = s) as -> by congruence. destruct (own_cells _ _ _ _ _ _ H Ho) as (Hnd & Hr & Hdis).
  destruct (alloc_spec (E:=E) (edges b) own fs l c (edge_head s) (rb_arena _ _ _ _ H) Hmax) as (cell & a & fs' & -> & Ha & Hc).
  eexists cell, a, _. split; [done|]. split; [by apply state_mut_get|].
  destruct Hc as [[Hcr HcN] Hcf Hco Hce Hcn Hframe Hlen]. simpl. split; [|split_and!].
  - exists (<[p := cell :: cs]> own), fs'.
    assert (Hdiff : ∀ d, d ∈ cs → d ≠ cell) by (intros d Hd ->; by eapply Hco).
    pose proof (rep_update b g own fs p s (set_head cell s) a (<[p := cell :: cs]> own) fs' (cell :: cs) H Hs) as Hu.
    replace ((l, c) :: es) with (map (edge_at a) (cell :: cs)).
    { apply Hu; [by apply arena_give|done| |].
      - simpl. split; [done|]. split; [done|]. exists (edge_head s). split; [done|].
        eapply linked_frame; [done|]. intros d Hd. by apply Hframe, Hdiff.
      - intros j ds d Hds Hj Hd. apply Hframe. intros ->. by eapply Hco. }
    simpl. rewrite Hce, Hes. f_equal. apply map_ext_in. intros d Hd%list_elem_of_In. by apply Hframe, Hdiff.
  - done.
  - apply zlen_insert.
  - lia.
  - intros j s1 Hj. rewrite get_put by by eapply get_Some_lt. case_decide; [|by exists s1]. subst j.
    rewrite Hs in Hj. injection Hj as <-. by exists (set_head cell s).
Qed.

(** The newest edge of a state gets another target. *)
Lemma Rep_set_target {E} b g p t l c es k s : Rep b g → g !! p = Some (t, (l, c) :: es) → get (states b) p = Some (Some s) →
  edge_head s ≠ NONE ∧
  ∃ ts, put (E:=E) (target (edges b)) (edge_head s) k = Ok ts
    ∧ Rep (set_edges (mkArena (label (edges b)) ts (enext (edges b)) (efree (edges b)) (elive (edges b))) b)
        (<[p := (t, (l, k) :: es)]> g).
Proof.
  intros (own & fs & H) Hg Hs. destruct (rep_lookup _ _ _ _ _ _ H Hg) as (s0 & cs & Hs0 & Ho & Hl & [= -> Hes]).
  assert (s0 = s) as -> by congruence. destruct (own_cells _ _ _ _ _ _ H Ho) as (Hnd & Hr & Hdis).
  destruct cs as [|h cs]; [done|]. simpl in Hl. destruct Hl as (Eh & HhN & n & Hn & Hl). rewrite Eh. split; [done|].
  pose proof (rb_arena _ _ _ _ H) as Ha. destruct (Hr h) as [Hhr Hhf]; [by left|].
  assert (Hht : 0 ≤ h < zlen (target (edges b))) by (unfold zlen in *; by rewrite (ar_target _ _ _ Ha)).
  rewrite put_get by done. eexists. split; [done|]. set (a' := mkArena _ _ _ _ _).
  apply NoDup_cons in Hnd as [Hni Hnd].
  assert (Hedge : ∀ d, d ≠ h → edge_at a' d = edge_at (edges b) d).
  { intros d Hd. unfold edge_at, a'. simpl. rewrite get_put by done. by rewrite decide_False. }
  assert (Heh : edge_at a' h = (l, k)).
  { unfold edge_at, a'. simpl. rewrite get_put, decide_True by done. simpl in Hes. injection Hes as Hl1 _ _. by rewrite Hl1. }
  exists own, fs.
  assert (Hu : rep (set_states (<[Z.to_nat p := Some s]> (states b)) (set_edges a' b))
    (<[p := (terminal s, map (edge_at a') (h :: cs))]> g) own fs).
  { eapply rep_update; [exact H|exact Hs| |by rewrite insert_id| |].
    - unfold a'. destruct Ha. split; simpl; try done. by rewrite length_insert.
    - simpl. split; [done|]. split; [done|]. by exists n.
    - intros j ds d Hds Hj Hd. split; [|done]. apply Hedge. intros ->. eapply (Hdis j); [done|done|done|by left]. }
  replace ((l, k) :: es) with (map (edge_at a') (h :: cs)).
  2: { cbn [map]. rewrite Heh. simpl in Hes. injection Hes as _ _ ->. f_equal. apply map_ext_in.
       intros d Hd%list_elem_of_In. apply Hedge. by intros ->. }
  replace (<[Z.to_nat p := Some s]> (states b)) with (states b) in Hu; [by destruct b|].
  symmetry. apply list_insert_id. by apply get_Some_lookup in Hs as [_ Hs].
Qed.

(** A state is dropped and its cells are freed. *)
Lemma Rep_delete {E} b g id n s : Rep b g → g !! id = Some n → get (states b) id = Some (Some s) →
  ∃ a ss, release (E:=E) (edge_fuel b) (edge_head s) (edges b) = Ok a ∧ put (E:=E) (states b) id None = Ok ss
    ∧ Rep (mkBuilder ss (id :: free b) a (register b) (registered b) (path b) (previous b)) (delete id g)
    ∧ zlen ss = zlen (states b) ∧ zlen (label a) = zlen (label (edges b)) ∧ get ss id = Some None
    ∧ ∀ j, j ≠ id → get ss j = get (states b) j.
Proof.
  intros (own & fs & H) Hg Hs. destruct (rep_lookup _ _ _ _ _ _ H Hg) as (s0 & cs & Hs0 & Ho & Hl & ->).
  assert (s0 = s) as -> by congruence. destruct (own_cells _ _ _ _ _ _ H Ho) as (Hnd & Hr & Hdis).
  assert (Ha' : arena_ok (edges b) (delete id own) fs) by apply arena_delete, H.
  destruct (release_spec (E:=E) (edge_fuel b) (edges b) (delete id own) fs (edge_head s) cs Ha' Hl Hnd)
    as (a & fs' & -> & Ha & Elab & Etar & Hframe).
  { intros c Hc. destruct (Hr c Hc) as [? ?]. split_and!; [lia..|done|]. intros j ds [Hj Hds]%lookup_delete_Some Hcd.
    by eapply (Hdis j). }
  { by eapply own_fuel. }
  pose proof (get_Some_lt _ _ _ Hs) as Hidr. rewrite put_get by done. eexists a, _. split; [done|]. split; [done|].
  assert (Hedge : ∀ d, edge_at a d = edge_at (edges b) d) by (intros; unfold edge_at; by rewrite Elab, Etar).
  split; [|split_and!].
  - exists (delete id own), fs'. split; simpl; [done| | | |].
    + intros j. rewrite get_put by done. case_decide as Hj.
      * subst j. split; apply lookup_delete_eq.
      * eapply slot_ok_frame; [apply H|by rewrite lookup_delete_ne|by rewrite lookup_delete_ne|].
        intros ds c Hds Hc. split; [apply Hedge|]. apply Hframe. by eapply (Hdis j).
    + constructor; [|apply H]. intros Hin. apply (rb_free _ _ _ _ H) in Hin. congruence.
    + intros j. rewrite get_put by done. case_decide as Hj.
      * subst j. split; [done|]. intros _. by left.
      * rewrite elem_of_cons, (rb_free _ _ _ _ H). naive_solver.
    + rewrite zlen_insert. apply H.
  - apply zlen_insert.
  - by rewrite Elab.
  - rewrite get_put by done. by rewrite decide_True.
  - intros j Hj. rewrite get_put by done. by rewrite decide_False.
Qed.
