(* ===== verification/DawgReg.v ===== *)
(** * The register of frozen states

    The register is a chained hash table over the states: every frozen state
    is in the chain of its hash, so a search finds the frozen state with the
    same contents if there is one, before and after the register grows. *)

From S2P Require Import Prelude FilterTable FilterTableSpec Dawg DawgRep.

#[local] Open Scope outcome_scope.

(** ** Hashes and equality of states *)

Definition hash_of (n : bool * list (Z * Z)) : Z :=
  fold_left (λ h e, fold_left fnv (u32_to_le e.2) (fnv h e.1)) n.2 (fnv 0xcbf29ce484222325 (if n.1 then 1 else 0)).

Lemma hash_edges_spec {E} a own fs (Ha : arena_ok a own fs) fuel : ∀ head cs h,
  linked (enext a) head cs → (∀ c, c ∈ cs → 0 ≤ c < zlen (label a)) → (length cs < fuel)%nat →
  hash_edges (E:=E) fuel a head h
  = Ok (fold_left (λ h e, fold_left fnv (u32_to_le e.2) (fnv h e.1)) (map (edge_at a) cs) h).
Proof.
  induction fuel as [|fuel IH]; intros head cs h Hl Hrange Hf; [lia|]. cbn [hash_edges].
  destruct cs as [|c cs]; simpl in Hl; [subst; by rewrite Z.eqb_refl|]. destruct Hl as (-> & Hc & n & Hn & Hl).
  rewrite (proj2 (Z.eqb_neq c _)) by done. destruct (cell_at (E:=E) a own fs c Ha) as [-> ->]; [apply Hrange; by left|].
  rewrite (at_get _ _ _ Hn). cbn [obind map fold_left].
  apply IH; [done|intros d Hd; apply Hrange; by right|simpl in Hf; lia].
Qed.

Lemma state_hash_spec {E} b g id n : Rep b g → g !! id = Some n → state_hash (E:=E) id b = Ok (hash_of n).
Proof.
  intros (own & fs & H) Hg. destruct (rep_lookup _ _ _ _ _ _ H Hg) as (s & cs & Hs & Ho & Hl & ->).
  destruct (own_cells _ _ _ _ _ _ H Ho) as (_ & Hr & _). unfold state_hash. rewrite (state_get _ _ _ Hs). cbn [obind].
  rewrite (hash_edges_spec (edges b) own fs (rb_arena _ _ _ _ H) _ _ cs); [done|done|apply Hr|by eapply own_fuel].
Qed.

Lemma states_equal_spec {E} b g x y m n : Rep b g → g !! x = Some m → g !! y = Some n →
  states_equal (E:=E) x y b = Ok (bool_decide (m = n)).
Proof.
  intros (own & fs & H) Hx Hy. destruct (rep_lookup _ _ _ _ _ _ H Hx) as (s & cs & Hs & Ho & Hl & ->).
  destruct (rep_lookup _ _ _ _ _ _ H Hy) as (s' & ds & Hs' & Ho' & Hl' & ->).
  destruct (own_cells _ _ _ _ _ _ H Ho) as (_ & Hr & _). destruct (own_cells _ _ _ _ _ _ H Ho') as (_ & Hr' & _).
  unfold states_equal. rewrite (state_get _ _ _ Hs), (state_get _ _ _ Hs'). cbn [obind].
  destruct (Bool.eqb (terminal s) (terminal s')) eqn:E1; cbn [negb].
  2: { rewrite bool_decide_false; [done|]. intros [= E2 _]. rewrite E2 in E1. by destruct (terminal s'). }
  apply Bool.eqb_prop in E1. rewrite (edges_equal_spec (edges b) own fs (rb_arena _ _ _ _ H) _ _ _ cs ds); [|done|done| |by eapply own_fuel].
  - f_equal. apply bool_decide_ext. rewrite E1. split; [by intros ->|by intros [= ->]].
  - intros c [Hc|Hc]; [by apply Hr|by apply Hr'].
Qed.

(** ** Chains *)

Definition next_of (o : option BuildState) : Z := match o with Some s => register_next s | None => NONE end.
Definition nexts (b : DawgBuilder) : list Z := next_of <$> states b.

Lemma get_nexts b id s : get (states b) id = Some (Some s) → get (nexts b) id = Some (register_next s).
Proof.
  intros H. apply get_Some_lookup in H as [H0 H]. apply get_Some_lookup. split; [done|]. unfold nexts.
  by rewrite list_lookup_fmap, H.
Qed.

Lemma get_nexts_eq b b' id : get (states b') id = get (states b) id → get (nexts b') id = get (nexts b) id.
Proof.
  unfold get, nexts. destruct (id <? 0); [done|]. rewrite !list_lookup_fmap. by intros ->.
Qed.

(** Every state of the chains is in the chain of its hash. *)
Record bucketed (nx regs : list Z) (g : gmap Z (bool * list (Z * Z))) (chains : list (list Z)) : Prop := {
  bk_links : Forall2 (linked nx) regs chains;
  bk_nodup : NoDup (concat chains);
  bk_slot : ∀ i cs c, chains !! i = Some cs → c ∈ cs → ∃ n, g !! c = Some n ∧ Z.of_nat i = bucket_of (hash_of n) regs
}.

Lemma bucket_range h regs : regs ≠ [] → 0 ≤ bucket_of h regs < zlen regs.
Proof. apply (slot_range (λ _, h) regs []). Qed.

Lemma elem_concat {A} (c : A) (ls : list (list A)) : c ∈ concat ls ↔ ∃ i l, ls !! i = Some l ∧ c ∈ l.
Proof.
  induction ls as [|l ls IH]; simpl.
  - split; [by intros ?%elem_of_nil|]. by intros (i & l & ? & _).
  - rewrite elem_of_app, IH. split.
    + intros [H|(i & k & Hi & Hk)]; [by exists 0%nat, l|by exists (S i), k].
    + intros ([|i] & k & Hi & Hk); [injection Hi as <-; by left|right; by exists i, k].
Qed.

Lemma concat_push {A} (c : A) ls i l : ls !! i = Some l → concat (<[i := c :: l]> ls) ≡ₚ c :: concat ls.
Proof.
  revert i. induction ls as [|k ls IH]; intros [|i]; simpl; [done|done|by intros [= ->]|]. intros Hi.
  rewrite (IH i Hi). symmetry. apply Permutation_middle.
Qed.

Lemma bucketed_graph nx nx' regs g g' chains :
  bucketed nx regs g chains →
  (∀ c, c ∈ concat chains → get nx' c = get nx c ∧ g' !! c = g !! c) → bucketed nx' regs g' chains.
Proof.
  intros [Hl Hn Hs] Hf. split; [|done|].
  - apply Forall2_same_length_lookup_2; [by eapply Forall2_length|]. intros i h cs Hh Hcs.
    pose proof (Forall2_lookup_lr _ _ _ _ _ _ Hl Hh Hcs) as Hlk. simpl in Hlk.
    eapply linked_frame; [exact Hlk|]. intros c Hc. apply Hf, elem_concat. by exists i, cs.
  - intros i cs c Hi Hc. rewrite (proj2 (Hf c ltac:(apply elem_concat; by exists i, cs))). by eapply Hs.
Qed.

(** A state goes in front of the chain of its hash. *)
Lemma bucketed_push nx nx' regs g chains c n :
  bucketed nx regs g chains → regs ≠ [] → g !! c = Some n → c ∉ concat chains → c ≠ NONE →
  (∀ d, d ≠ c → get nx' d = get nx d) →
  (∀ h, get regs (bucket_of (hash_of n) regs) = Some h → get nx' c = Some h) →
  ∃ cs, let s := Z.to_nat (bucket_of (hash_of n) regs) in
    chains !! s = Some cs ∧ bucketed nx' (<[s := c]> regs) g (<[s := c :: cs]> chains)
    ∧ concat (<[s := c :: cs]> chains) ≡ₚ c :: concat chains.
Proof.
  intros [Hl Hn Hs] Hr Hg Hc HcN Hf Hhead. pose proof (bucket_range (hash_of n) regs Hr) as Hb.
  set (z := bucket_of (hash_of n) regs) in *. cbv zeta. set (s := Z.to_nat z).
  assert (Hlt : (s < length chains)%nat) by (rewrite <- (Forall2_length _ _ _ Hl); unfold zlen in Hb; lia).
  destruct (lookup_lt_is_Some_2 _ _ Hlt) as [cs Hcs]. exists cs. split; [done|].
  pose proof (concat_push c chains s cs Hcs) as Hp. split; [|done]. split.
  - destruct (get_is_Some regs z Hb) as [h Hh]. specialize (Hhead h Hh).
    assert (Hne : ∀ i ds d, chains !! i = Some ds → d ∈ ds → d ≠ c).
    { intros i ds d Hi Hd ->. apply Hc, elem_concat. by exists i, ds. }
    apply Forall2_insert.
    + apply Forall2_same_length_lookup_2; [by eapply Forall2_length|]. intros i h' ds Hh' Hds.
      pose proof (Forall2_lookup_lr _ _ _ _ _ _ Hl Hh' Hds) as Hlk. simpl in Hlk.
      eapply linked_frame; [exact Hlk|]. intros d Hd. by eapply Hf, Hne.
    + simpl. split; [done|]. split; [done|]. exists h. split; [done|].
      apply get_Some_lookup in Hh as [_ Hh]. pose proof (Forall2_lookup_lr _ _ _ _ _ _ Hl Hh Hcs) as Hlk. simpl in Hlk.
      eapply linked_frame; [exact Hlk|]. intros d Hd. by eapply Hf, Hne.
  - rewrite Hp. by constructor.
  - assert (Hbk : ∀ h, bucket_of h (<[s:=c]> regs) = bucket_of h regs) by (intros; unfold bucket_of; by rewrite zlen_insert).
    intros i ds d Hi Hd. setoid_rewrite Hbk. destruct (decide (i = s)) as [->|Hne].
    + rewrite list_lookup_insert_eq in Hi by done. injection Hi as <-. apply elem_of_cons in Hd as [->|Hd]; [|by eapply Hs].
      exists n. split; [done|]. unfold s. fold z. lia.
    + rewrite list_lookup_insert_ne in Hi by done. by eapply Hs.
Qed.

Lemma bucketed_empty nx k g : (1 ≤ k)%nat → bucketed nx (replicate k NONE) g (replicate k []).
Proof.
  intros Hk. assert (Hc : concat (replicate k ([] : list Z)) = []) by (induction k; [done|]; simpl; by destruct k; [|apply IHk; lia]).
  split.
  - apply Forall2_same_length_lookup_2; [by rewrite !length_replicate|]. intros i h cs [-> _]%lookup_replicate [-> _]%lookup_replicate. done.
  - rewrite Hc. constructor.
  - intros i cs c [-> _]%lookup_replicate ?%elem_of_nil. done.
Qed.

(** ** Search *)

Lemma find_equal_spec {E} b g id n fuel : ∀ candidate cs,
  Rep b g → g !! id = Some n → linked (nexts b) candidate cs → (∀ c, c ∈ cs → is_Some (g !! c)) → (length cs < fuel)%nat →
  find_equal (E:=E) fuel id candidate b = Ok (List.find (λ c, bool_decide (g !! c = Some n)) cs).
Proof.
  induction fuel as [|fuel IH]; intros candidate cs H Hg Hl Hlive Hf; [lia|]. cbn [find_equal].
  destruct cs as [|c cs]; simpl in Hl; [subst; by rewrite Z.eqb_refl|]. destruct Hl as (-> & Hc & k & Hk & Hl).
  rewrite (proj2 (Z.eqb_neq c _)) by done. destruct (Hlive c) as [m Hm]; [by left|].
  rewrite (states_equal_spec (E:=E) b g id c n m H Hg Hm). cbn [obind List.find].
  rewrite (bool_decide_ext (n = m) (g !! c = Some n)) by (rewrite Hm; naive_solver).
  case_bool_decide as Heq; [done|]. destruct (Rep_lookup _ _ _ _ H Hm) as (s & Hs & _).
  rewrite (state_get _ _ _ Hs). cbn [obind]. rewrite (get_nexts _ _ _ Hs) in Hk. injection Hk as ->.
  apply IH; [done|done|done|intros d Hd; apply Hlive; by right|simpl in Hf; lia].
Qed.

(** ** Growth *)

(** Only links of the register differ. *)
Record relinked (b b' : DawgBuilder) : Prop := {
  rl_states : zlen (states b') = zlen (states b);
  rl_free : free b' = free b;
  rl_edges : edges b' = edges b;
  rl_register : zlen (register b') = zlen (register b);
  rl_registered : registered b' = registered b;
  rl_path : path b' = path b;
  rl_previous : previous b' = previous b
}.

Lemma relinked_trans b b' b'' : relinked b b' → relinked b' b'' → relinked b b''.
Proof. intros [] []. split; congruence. Qed.

(** One state moves to the front of its chain, as both the growth and the
    registration do. *)
Lemma link_state {E} b g chains c n :
  Rep b g → bucketed (nexts b) (register b) g chains → register b ≠ [] → g !! c = Some n → c ∉ concat chains →
  let s := bucket_of (hash_of n) (register b) in
  ∃ head b1 bs chains', at_ (E:=E) (register b) s = Ok head ∧ state_mut (E:=E) c (set_register_next head) b = Ok b1
    ∧ put (E:=E) (register b) s c = Ok bs
    ∧ register b1 = register b
    ∧ let b2 := mkBuilder (states b1) (free b1) (edges b1) bs (registered b1) (path b1) (previous b1) in
      Rep b2 g ∧ bucketed (nexts b2) bs g chains' ∧ concat chains' ≡ₚ c :: concat chains ∧ relinked b b2
      ∧ ∀ j, j ≠ c → get (nexts b2) j = get (nexts b) j.
Proof.
  intros H Hb Hne Hg Hc s. pose proof (bucket_range (hash_of n) _ Hne) as Hs. fold s in Hs.
  destruct (get_is_Some (register b) s Hs) as [head Hh].
  destruct (Rep_set_register_next (E:=E) b g c n head H Hg) as (b1 & Hm & H1 & Eb & Hz & Hf & s' & Hs' & Hr).
  destruct (bucketed_push (nexts b) (nexts b1) (register b) g chains c n Hb Hne Hg Hc) as (cs & _ & Hpush & Hp).
  - by eapply Rep_range.
  - intros d Hd. by apply get_nexts_eq, Hf.
  - intros h. fold s. rewrite Hh. intros [= <-]. by rewrite (get_nexts _ _ _ Hs'), Hr.
  - fold s in Hpush, Hp. eexists head, b1, _, _. split; [by apply at_get|]. split; [done|]. split; [by apply put_get|].
    rewrite Eb. simpl. split; [done|]. split; [|split; [exact Hpush|split; [done|]]].
    + eapply Rep_frame; [exact H1|done|by rewrite Eb|by rewrite Eb].
    + split; [|intros j Hj; by apply get_nexts_eq, Hf]. split; simpl; try done. apply zlen_insert.
Qed.

Lemma regrow_chain_spec {E} g fuel : ∀ cs cursor b new,
  Rep b g → linked (nexts b) cursor cs → bucketed (nexts b) (register b) g new → register b ≠ [] →
  NoDup (cs ++ concat new) → (∀ c, c ∈ cs → is_Some (g !! c)) → (length cs < fuel)%nat →
  ∃ b' new', regrow_chain (E:=E) fuel cursor b = Ok b' ∧ Rep b' g ∧ bucketed (nexts b') (register b') g new'
    ∧ concat new' ≡ₚ cs ++ concat new ∧ relinked b b' ∧ ∀ j, j ∉ cs → get (nexts b') j = get (nexts b) j.
Proof.
  induction fuel as [|fuel IH]; intros cs cursor b new H Hl Hb Hne Hnd Hlive Hf; [lia|]. cbn [regrow_chain].
  destruct cs as [|c cs]; simpl in Hl; [subst; rewrite Z.eqb_refl; by exists b, new|]. destruct Hl as (-> & Hc & k & Hk & Hl).
  rewrite (proj2 (Z.eqb_neq c _)) by done. destruct (Hlive c) as [n Hn]; [by left|].
  destruct (Rep_lookup _ _ _ _ H Hn) as (s & Hs & _). rewrite (state_get _ _ _ Hs). cbn [obind].
  rewrite (state_hash_spec b g c n H Hn). cbn [obind]. simpl in Hnd. apply NoDup_cons in Hnd as [Hni Hnd].
  apply not_elem_of_app in Hni as [Hni1 Hni2].
  destruct (link_state (E:=E) b g new c n H Hb Hne Hn Hni2) as (head & b1 & bs & new1 & -> & Hm & Hput & Ereg & H2 & Hb2 & Hp2 & Hr2 & Hf2).
  cbv zeta. cbn [obind]. rewrite Hm. cbn [obind]. rewrite Ereg, Hput. cbn [obind].
  rewrite (get_nexts _ _ _ Hs) in Hk. injection Hk as ->.
  set (b2 := mkBuilder _ _ _ bs _ _ _) in *.
  destruct (IH cs k b2 new1) as (b3 & new3 & -> & H3 & Hb3 & Hp3 & Hr3 & Hf3).
  - done.
  - eapply linked_frame; [done|]. intros d Hd. apply Hf2. by intros ->.
  - done.
  - intros E0. pose proof (rl_register _ _ Hr2) as Hz. rewrite E0 in Hz. destruct (register b); [done|].
    rewrite zlen_nil, zlen_cons in Hz. pose proof (zlen_nonneg l). lia.
  - rewrite Hp2. rewrite <- Permutation_middle. apply NoDup_cons. split; [by apply not_elem_of_app|done].
  - intros d Hd. apply Hlive. by right.
  - simpl in Hf. lia.
  - exists b3, new3. split_and!; [done|done|done| | |].
    + rewrite Hp3, Hp2. simpl. by rewrite <- Permutation_middle.
    + by eapply relinked_trans.
    + intros j [Hj1 Hj2]%not_elem_of_cons. rewrite Hf3 by done. by apply Hf2.
Qed.

Lemma live_length b g cs : Rep b g → NoDup cs → (∀ c, c ∈ cs → is_Some (g !! c)) → (length cs < S (length (states b)))%nat.
Proof.
  intros H Hnd Hlive. pose proof (range_length cs (zlen (states b)) Hnd) as Hr. unfold zlen in *.
  assert (Z.of_nat (length cs) ≤ Z.max 0 (Z.of_nat (length (states b)))); [|lia]. apply Hr.
  intros c Hc. destruct (Hlive c Hc) as [n Hn]. apply (Rep_range _ _ _ _ H Hn).
Qed.

Lemma regrow_spec {E} g old : ∀ olds b new,
  Rep b g → Forall2 (linked (nexts b)) old olds → bucketed (nexts b) (register b) g new → register b ≠ [] →
  NoDup (concat olds ++ concat new) → (∀ c, c ∈ concat olds → is_Some (g !! c)) →
  ∃ b' new', regrow (E:=E) old b = Ok b' ∧ Rep b' g ∧ bucketed (nexts b') (register b') g new'
    ∧ concat new' ≡ₚ concat olds ++ concat new ∧ relinked b b' ∧ ∀ j, j ∉ concat olds → get (nexts b') j = get (nexts b) j.
Proof.
  induction old as [|head old IH]; intros olds b new H Hl Hb Hne Hnd Hlive; cbn [regrow].
  { apply Forall2_nil_inv_l in Hl as ->. by exists b, new. }
  apply Forall2_cons_inv_l in Hl as (cs & olds' & Hcs & Hl & ->). cbn [concat] in *. rewrite <- app_assoc in Hnd.
  pose proof Hnd as Hnd0. apply NoDup_app in Hnd as (Hnd1 & Hdis & Hnd2). apply NoDup_app in Hnd2 as (Hnd2 & Hdis2 & Hnd3).
  destruct (regrow_chain_spec (E:=E) g (S (length (states b))) cs head b new) as (b1 & new1 & -> & H1 & Hb1 & Hp1 & Hr1 & Hf1);
    [done|done|done|done| | | |].
  - apply NoDup_app. split_and!; [done| |done]. intros c Hc Hc'. apply (Hdis c Hc). apply elem_of_app. by right.
  - intros c Hc. apply Hlive, elem_of_app. by left.
  - apply (live_length b g); [done|done|]. intros c Hc. apply Hlive, elem_of_app. by left.
  - cbn [obind]. destruct (IH olds' b1 new1) as (b2 & new2 & -> & H2 & Hb2 & Hp2 & Hr2 & Hf2).
    + done.
    + apply Forall2_same_length_lookup_2; [by eapply Forall2_length|]. intros i h ds Hh Hds.
      pose proof (Forall2_lookup_lr _ _ _ _ _ _ Hl Hh Hds) as Hlk. simpl in Hlk. eapply linked_frame; [exact Hlk|].
      intros d Hd. apply Hf1. intros Hd'. apply (Hdis d Hd'), elem_of_app. left. apply elem_concat. by exists i, ds.
    + done.
    + intros E0. pose proof (rl_register _ _ Hr1) as Hz. rewrite E0 in Hz. destruct (register b); [done|].
      rewrite zlen_nil, zlen_cons in Hz. pose proof (zlen_nonneg l). lia.
    + rewrite Hp1. rewrite (Permutation_app_comm cs), app_assoc, Permutation_app_comm. done.
    + intros c Hc. apply Hlive, elem_of_app. by right.
    + exists b2, new2. split_and!; [done|done|done| | |].
      * rewrite Hp2, Hp1. rewrite !app_assoc. by rewrite (Permutation_app_comm cs).
      * by eapply relinked_trans.
      * intros j [Hj1 Hj2]%not_elem_of_app. rewrite Hf2 by done. by apply Hf1.
Qed.

(** ** The register *)

Record registry (b : DawgBuilder) (g : gmap Z (bool * list (Z * Z))) (chains : list (list Z)) : Prop := {
  rg_bucketed : bucketed (nexts b) (register b) g chains;
  rg_count : registered b = zlen (concat chains);
  rg_some : register b ≠ []
}.

Lemma registry_live b g chains c : registry b g chains → c ∈ concat chains → is_Some (g !! c).
Proof.
  intros H (i & cs & Hi & Hc)%elem_concat. destruct (bk_slot _ _ _ _ (rg_bucketed _ _ _ H) i cs c Hi Hc) as (n & -> & _). by eexists.
Qed.

Lemma grow_register_spec {E} b g chains : Rep b g → registry b g chains →
  ∃ b' chains', grow_register (E:=E) b = Ok b' ∧ Rep b' g ∧ registry b' g chains' ∧ concat chains' ≡ₚ concat chains
    ∧ zlen (states b') = zlen (states b) ∧ free b' = free b ∧ edges b' = edges b ∧ path b' = path b ∧ previous b' = previous b.
Proof.
  intros H Hreg. pose proof Hreg as [Hb Hcount Hsome]. unfold grow_register.
  assert (Hlen : (1 ≤ length (register b))%nat) by (destruct (register b); [done|simpl; lia]).
  set (b0 := mkBuilder _ _ _ (replicate _ _) _ _ _). set (new := replicate (length (register b) * 2) ([] : list Z)).
  assert (Hc0 : concat new = []) by (unfold new; generalize (length (register b) * 2)%nat; intros k; induction k; done).
  destruct (regrow_spec (E:=E) g (register b) chains b0 new) as (b1 & new1 & Hrun & H1 & Hb1 & Hp1 & Hr1 & _).
  - eapply Rep_frame; [exact H|done..].
  - apply Hb.
  - apply bucketed_empty. lia.
  - simpl. destruct (length (register b)); [lia|done].
  - rewrite Hc0, app_nil_r. apply Hb.
  - intros c Hc. by eapply registry_live.
  - rewrite Hc0, app_nil_r in Hp1. exists b1, new1. rewrite Hrun.
    split_and!; [done|done| |done|apply Hr1|apply Hr1|apply Hr1|apply Hr1|apply Hr1]. split; [done| |].
    + rewrite (rl_registered _ _ Hr1). simpl. rewrite Hcount. unfold zlen. by rewrite Hp1.
    + intros E0. pose proof (rl_register _ _ Hr1) as Hz. rewrite E0, zlen_nil in Hz. unfold zlen in Hz. simpl in Hz.
      rewrite length_replicate in Hz. lia.
Qed.

(** What freezing a state leaves as it was. *)
Record freezes (b b' : DawgBuilder) : Prop := {
  fz_states : zlen (states b') = zlen (states b);
  fz_label : zlen (label (edges b')) = zlen (label (edges b));
  fz_path : path b' = path b;
  fz_previous : previous b' = previous b
}.

(** The search finds a frozen state with the same contents if there is one. *)
Lemma register_search {E} b g chains id n : Rep b g → registry b g chains → g !! id = Some n →
  ∃ candidate found, at_ (E:=E) (register b) (bucket_of (hash_of n) (register b)) = Ok candidate
    ∧ find_equal (E:=E) (S (length (states b))) id candidate b = Ok found
    ∧ match found with
      | Some k => k ∈ concat chains ∧ g !! k = Some n
      | None => ∀ k, k ∈ concat chains → g !! k ≠ Some n
      end.
Proof.
  intros H Hreg Hg. pose proof Hreg as [Hb Hcount Hsome]. pose proof (bucket_range (hash_of n) _ Hsome) as Hs.
  set (z := bucket_of (hash_of n) (register b)) in *. destruct (get_is_Some (register b) z Hs) as [head Hh].
  pose proof Hh as [_ Hh']%get_Some_lookup. destruct (Forall2_lookup_l _ _ _ _ _ (bk_links _ _ _ _ Hb) Hh') as (cs & Hcs & Hl).
  assert (Hin : ∀ c, c ∈ cs → c ∈ concat chains) by (intros c Hc; apply elem_concat; by exists (Z.to_nat z), cs).
  assert (Hlive : ∀ c, c ∈ cs → is_Some (g !! c)) by (intros c Hc; by eapply registry_live, Hin).
  eexists head, _. split; [by apply at_get|]. split.
  { apply (find_equal_spec b g id n _ _ cs); [done|done|done|done|]. apply (live_length b g); [done| |done].
    pose proof (bk_nodup _ _ _ _ Hb) as Hnd. clear -Hnd Hcs. revert Hcs Hnd. generalize (Z.to_nat z) as i. intros i.
    revert i. induction chains as [|k chains IH]; intros [|i]; simpl; try done.
    - intros [= ->] Hnd. by apply NoDup_app in Hnd as [? _].
    - intros Hi Hnd. apply NoDup_app in Hnd as (_ & _ & Hnd). by eapply IH. }
  destruct (List.find _ cs) as [k|] eqn:Ef.
  - apply find_some in Ef as [Hk He]. apply list_elem_of_In in Hk. split; [by apply Hin|]. by case_bool_decide.
  - intros k Hk He. apply elem_concat in Hk as (i & ds & Hi & Hk).
    destruct (bk_slot _ _ _ _ Hb i ds k Hi Hk) as (m & Hm & Hz). assert (m = n) as -> by congruence.
    assert (i = Z.to_nat z) as -> by (unfold z; lia). assert (ds = cs) as -> by congruence.
    pose proof (find_none _ _ Ef k (proj1 (list_elem_of_In _ _) Hk)) as Hf. simpl in Hf. by case_bool_decide.
Qed.

Lemma registry_graph b g g' chains : registry b g chains → (∀ c, c ∈ concat chains → g' !! c = g !! c) → registry b g' chains.
Proof.
  intros [Hb Hc Hs] Hf. split; [|done|done]. eapply bucketed_graph; [exact Hb|]. intros c Hin. split; [done|by apply Hf].
Qed.

Lemma register_state_spec {E} b g chains id n :
  Rep b g → registry b g chains → g !! id = Some n → id ∉ concat chains →
  ∃ k b', register_state (E:=E) id b = Ok (k, b') ∧ freezes b b' ∧
    ((k ∈ concat chains ∧ g !! k = Some n ∧ Rep b' (delete id g) ∧ registry b' (delete id g) chains)
     ∨ (k = id ∧ (∀ k, k ∈ concat chains → g !! k ≠ Some n) ∧ Rep b' g
        ∧ ∃ chains', registry b' g chains' ∧ concat chains' ≡ₚ id :: concat chains)).
Proof.
  intros H Hreg Hg Hid. unfold register_state. rewrite (state_hash_spec b g id n H Hg). cbn [obind].
  destruct (register_search (E:=E) b g chains id n H Hreg Hg) as (candidate & found & -> & Hfind & Hfound). cbn [obind].
  rewrite Hfind. cbn [obind]. destruct found as [k|].
  - destruct Hfound as [Hk Hgk]. destruct (Rep_lookup _ _ _ _ H Hg) as (s & Hs & _). rewrite (state_get _ _ _ Hs). cbn [obind].
    destruct (Rep_delete (E:=E) b g id n s H Hg Hs) as (a & ss & -> & Hput & H' & Hz & Hzl & Hid' & Hf). cbn [obind]. rewrite Hput.
    cbn [obind]. eexists k, _. split; [done|]. split; [by split|]. left. split_and!; [done|done|done|].
    destruct Hreg as [Hb Hc Hsome]. split; [|done|done]. simpl. eapply bucketed_graph; [exact Hb|].
    intros c Hc'. assert (c ≠ id) by by intros ->. split; [by apply get_nexts_eq, Hf|by rewrite lookup_delete_ne].
  - assert (Hgrow : ∃ b1 chains1, (if zlen (register b) <=? registered b then grow_register (E:=E) b else Ok b) = Ok b1
      ∧ Rep b1 g ∧ registry b1 g chains1 ∧ concat chains1 ≡ₚ concat chains ∧ freezes b b1).
    { destruct (_ <=? _); [|by exists b, chains].
      destruct (grow_register_spec (E:=E) b g chains H Hreg) as (b1 & chains1 & -> & H1 & Hr1 & Hp1 & Hz & Hfr & He & Hpa & Hpr).
      exists b1, chains1. split_and!; [done..|]. split; [done|by rewrite He|done|done]. }
    destruct Hgrow as (b1 & chains1 & -> & H1 & Hr1 & Hp1 & Hfz). cbn [obind]. pose proof Hr1 as [Hb1 Hc1 Hs1].
    assert (Hid1 : id ∉ concat chains1) by by rewrite Hp1.
    destruct (link_state (E:=E) b1 g chains1 id n H1 Hb1 Hs1 Hg Hid1) as (head & b2 & bs & chains2 & -> & Hm & Hput & Ereg & H2 & Hb2 & Hp2 & Hr2 & _).
    cbv zeta. cbn [obind]. rewrite Hm. cbn [obind]. rewrite Ereg, Hput. cbn [obind].
    pose proof (rl_registered _ _ Hr2) as Ecount. simpl in Ecount. eexists id, _. split; [done|]. split.
    + destruct Hfz, Hr2. simpl in *. split; simpl; [lia|congruence|congruence|congruence].
    + right. split_and!; [done|done|by eapply Rep_frame|]. exists chains2. split; [|by rewrite Hp2, Hp1].
      split; simpl; [done| |].
      * rewrite Ecount, Hc1. unfold zlen. rewrite Hp2. simpl. lia.
      * intros ->. pose proof (rl_register _ _ Hr2) as Hz. simpl in Hz. rewrite zlen_nil in Hz. destruct (register b1); [done|].
        rewrite zlen_cons in Hz. pose proof (zlen_nonneg l). lia.
Qed.
