(* ===== verification/DawgPath.v ===== *)
(** * Inserting words into the automaton

    The states of the last word form a path from the root whose newest edges
    lead along it; all other edges lead to frozen states.  Freezing the end of
    the path keeps the language, a new word adds exactly itself. *)

From S2P Require Import Prelude FilterTable FilterTableSpec Dawg DawgRep DawgReg.
From Stdlib Require Import Sorted.

#[local] Open Scope outcome_scope.

Notation graph := (gmap Z (bool * list (Z * Z))) (only parsing).

(** ** The language of a state *)

Fixpoint walk (g : graph) (x : Z) (w : list Z) : option Z :=
  match w with
  | [] => Some x
  | l :: w =>
      match g !! x with
      | Some (_, es) => match follow es l with Some y => walk g y w | None => None end
      | None => None
      end
  end.

Definition final (g : graph) (x : Z) : bool := match g !! x with Some (t, _) => t | None => false end.

Definition accepts (g : graph) (x : Z) (w : list Z) : bool :=
  match walk g x w with Some y => final g y | None => false end.

(** Edges lead to states. *)
Definition closed (g : graph) : Prop := ∀ x t es e, g !! x = Some (t, es) → e ∈ es → is_Some (g !! e.2).

Lemma follow_elem es l y : follow es l = Some y → (l, y) ∈ es.
Proof.
  unfold follow. destruct (List.find _ es) as [[l' y']|] eqn:E; [|done]. intros [= <-]. apply find_some in E as [Hin Hl].
  simpl in *. apply Z.eqb_eq in Hl as ->. by apply list_elem_of_In.
Qed.

Lemma follow_None es l : (∀ e, e ∈ es → e.1 ≠ l) → follow es l = None.
Proof.
  intros H. unfold follow. destruct (List.find _ es) as [e|] eqn:E; [|done]. apply find_some in E as [Hin Hl].
  apply Z.eqb_eq in Hl. by destruct (H e); [apply list_elem_of_In|].
Qed.

Lemma follow_map es l (f : Z → Z) : follow (map (λ e, (e.1, f e.2)) es) l = f <$> follow es l.
Proof. unfold follow. induction es as [|[x y] es IH]; [done|]. simpl. by destruct (x =? l). Qed.

Lemma closed_follow g x t es l y : closed g → g !! x = Some (t, es) → follow es l = Some y → is_Some (g !! y).
Proof. intros Hc Hx Hf%follow_elem. exact (Hc x t es (l, y) Hx Hf). Qed.

Lemma walk_live g x w y : closed g → is_Some (g !! x) → walk g x w = Some y → is_Some (g !! y).
Proof.
  intros Hc. revert x. induction w as [|l w IH]; intros x Hx; simpl; [by intros [= <-]|].
  destruct (g !! x) as [[t es]|] eqn:Ex; [|done]. destruct (follow es l) as [z|] eqn:Ef; [|done].
  apply IH. by eapply closed_follow.
Qed.

Lemma walk_app g x w1 w2 : walk g x (w1 ++ w2) = match walk g x w1 with Some y => walk g y w2 | None => None end.
Proof.
  revert x. induction w1 as [|l w1 IH]; intros x; simpl; [done|]. destruct (g !! x) as [[t es]|]; [|done].
  by destruct (follow es l).
Qed.

(** A map of states that keeps the contents keeps the language. *)
Lemma walk_hom g g' φ : closed g →
  (∀ x t es, g !! x = Some (t, es) → ∃ es', g' !! φ x = Some (t, es') ∧ ∀ l, follow es' l = φ <$> follow es l) →
  ∀ w x, is_Some (g !! x) → walk g' (φ x) w = φ <$> walk g x w ∧ accepts g' (φ x) w = accepts g x w.
Proof.
  intros Hc Hh. assert (Hw : ∀ w x, is_Some (g !! x) → walk g' (φ x) w = φ <$> walk g x w).
  { induction w as [|l w IH]; intros x Hx; [done|]. simpl. destruct Hx as [[t es] Hx]. destruct (Hh _ _ _ Hx) as (es' & -> & Hf).
    rewrite Hx, Hf. destruct (follow es l) as [y|] eqn:Ef; [|done]. simpl. apply IH. by eapply closed_follow. }
  intros w x Hx. split; [by apply Hw|]. unfold accepts. rewrite Hw by done. destruct (walk g x w) as [y|] eqn:Ey; [|done]. simpl.
  destruct (walk_live g x w y Hc Hx Ey) as [[t es] Hy]. unfold final. destruct (Hh _ _ _ Hy) as (es' & -> & _). by rewrite Hy.
Qed.

Lemma contains_from_spec {E} b g : Rep b g → closed g → ∀ w x, is_Some (g !! x) →
  contains_from (E:=E) w x b = Ok (accepts g x w).
Proof.
  intros H Hc. induction w as [|l w IH]; intros x [[t es] Hx]; cbn [contains_from].
  - destruct (Rep_lookup _ _ _ _ H Hx) as (s & Hs & Ht). rewrite (state_get _ _ _ Hs). cbn [obind].
    unfold accepts, final. simpl. by rewrite Hx, Ht.
  - pose proof H as (own & fs & Hr). destruct (rep_lookup _ _ _ _ _ _ Hr Hx) as (s & cs & Hs & Ho & Hl & [= _ Hes]).
    destruct (own_cells _ _ _ _ _ _ Hr Ho) as (_ & Hrange & _). rewrite (state_get _ _ _ Hs). cbn [obind].
    rewrite (find_edge_spec (edges b) own fs (rb_arena _ _ _ _ Hr) _ _ cs l);
      [|done|apply Hrange|by eapply own_fuel].
    cbn [obind]. rewrite <- Hes. unfold accepts. cbn [walk]. rewrite Hx. destruct (follow es l) as [y|] eqn:Ef; [|done].
    apply IH. by eapply closed_follow.
Qed.

(** ** The shape of the automaton while words come *)

(** Edges with falling labels to frozen states. *)
Definition edges_ok (F : list Z) (es : list (Z * Z)) : Prop :=
  StronglySorted (λ a b, b.1 < a.1) es ∧ ∀ e, e ∈ es → e.2 ∈ F.

(** The path, the last state first, with the labels that lead to it: the newest
    edge of every state leads to the next one. *)
Fixpoint spine (g : graph) (F : list Z) (path rw : list Z) : Prop :=
  match path, rw with
  | q :: [], [] => q = 0
  | q :: ((p :: _) as rest), l :: rw =>
      (∃ t es, g !! p = Some (t, (l, q) :: es) ∧ edges_ok F es ∧ ∀ e, e ∈ es → e.1 < l) ∧ spine g F rest rw
  | _, _ => False
  end.

Record shape (g : graph) (F path rw : list Z) : Prop := {
  sh_spine : spine g F path rw;
  sh_top : ∃ q rest t es, path = q :: rest ∧ g !! q = Some (t, es) ∧ edges_ok F es;
  sh_nodup : NoDup (path ++ F);
  sh_live : ∀ x, is_Some (g !! x) → x ∈ path ++ F;
  sh_frozen : ∀ f, f ∈ F → ∃ t es, g !! f = Some (t, es) ∧ edges_ok F es ∧ (t = true ∨ es ≠ []);
  sh_rank : ∃ ht : Z → nat, ∀ f t es e, f ∈ F → g !! f = Some (t, es) → e ∈ es → (ht e.2 < ht f)%nat;
  sh_distinct : ∀ x y n, x ∈ F → y ∈ F → g !! x = Some n → g !! y = Some n → x = y
}.

Lemma spine_frame g g' F F' q rest rw :
  spine g F (q :: rest) rw → (∀ x, x ∈ rest → g' !! x = g !! x) → (∀ f, f ∈ F → f ∈ F') → spine g' F' (q :: rest) rw.
Proof.
  revert q rw. induction rest as [|p rest IH]; intros q [|l rw]; simpl; try done.
  intros [(t & es & Hp & [Hs Hf] & Hl) Hsp] Hg HF. split.
  - exists t, es. rewrite Hg by by left. split_and!; [done|split; [done|auto]|done].
  - apply IH; [done|intros x Hx; apply Hg; by right|done].
Qed.

Lemma spine_root g F q rest rw : spine g F (q :: rest) rw → 0 ∈ q :: rest.
Proof.
  revert q rw. induction rest as [|p rest IH]; intros q [|l rw]; simpl; try done.
  - intros ->. by left.
  - intros [_ Hsp]. right. by eapply IH.
Qed.

(** What the states below the last one look like. *)
Lemma spine_node g F q rest rw x : spine g F (q :: rest) rw → x ∈ rest →
  ∃ l y t es, g !! x = Some (t, (l, y) :: es) ∧ y ∈ q :: rest ∧ edges_ok F es ∧ ∀ e, e ∈ es → e.1 < l.
Proof.
  revert q rw. induction rest as [|p rest IH]; intros q [|l rw]; simpl; try done; [by intros _ ?%elem_of_nil|].
  intros [(t & es & Hp & Hok & Hl) Hsp] [->|Hx]%elem_of_cons.
  - exists l, q, t, es. split_and!; [done|by left|done|done].
  - destruct (IH p rw Hsp Hx) as (l' & y & t' & es' & H1 & H2 & H3 & H4). exists l', y, t', es'. split_and!; [done|by right|done|done].
Qed.

Lemma spine_step g F q p rest rw : spine g F (q :: p :: rest) rw →
  ∃ l rw' t es, rw = l :: rw' ∧ g !! p = Some (t, (l, q) :: es) ∧ edges_ok F es ∧ (∀ e, e ∈ es → e.1 < l)
    ∧ spine g F (p :: rest) rw'.
Proof. destruct rw as [|l rw]; [done|]. intros [(t & es & ? & ? & ?) Hsp]. by exists l, rw, t, es. Qed.

(** Only the next state of the path has an edge to a state of the path. *)
Lemma spine_pred g F rest : ∀ pre q rw y l t es, NoDup (pre ++ q :: rest) → spine g F (pre ++ q :: rest) rw →
  y ∈ tail (pre ++ q :: rest) → g !! y = Some (t, (l, q) :: es) → ∃ r, rest = y :: r.
Proof.
  induction pre as [|a pre IH]; intros q rw y l t es Hnd Hsp Hy Hg.
  - simpl in *. destruct rest as [|p rest]; [by apply elem_of_nil in Hy|]. destruct rw as [|l' rw]; [done|].
    apply elem_of_cons in Hy as [->|Hy]; [by eexists|]. destruct Hsp as [_ Hsp].
    destruct (spine_node _ _ _ _ _ _ Hsp Hy) as (l1 & z & t1 & es1 & Hg1 & Hz & _). rewrite Hg1 in Hg. injection Hg as -> -> -> ->.
    by apply NoDup_cons in Hnd as [? _].
  - cbn [app tail] in *. apply NoDup_cons in Hnd as [Hni Hnd].
    assert (Hne : ∃ b r, pre ++ q :: rest = b :: r ∧ q ∈ b :: r).
    { destruct pre as [|b pre]; simpl; [exists q, rest; split; [done|by left]|]. exists b, (pre ++ q :: rest). split; [done|].
      right. apply elem_of_app. right. by left. }
    destruct Hne as (b & r & Eb & Hq). rewrite Eb in *. destruct (spine_step _ _ _ _ _ _ Hsp) as (l' & rw' & t1 & es1 & -> & Hb & _ & _ & Hsp').
    apply elem_of_cons in Hy as [->|Hy].
    + rewrite Hb in Hg. injection Hg as -> -> -> ->. by destruct Hni.
    + rewrite <- Eb in *. eapply (IH q rw' y); [done|done| |done]. by rewrite Eb.
Qed.

Lemma shape_node g F path rw x t es : shape g F path rw → g !! x = Some (t, es) →
  ∀ e, e ∈ es → e.2 ∈ path ++ F.
Proof.
  intros H Hx e He. destruct (sh_top _ _ _ _ H) as (q & rest & tq & eq & -> & Hq & Hok).
  destruct (decide (x ∈ F)) as [HF|HF].
  { destruct (sh_frozen _ _ _ _ H x HF) as (t' & es' & Hx' & [_ Hf] & _). assert (es' = es) as -> by congruence.
    apply elem_of_app. right. by apply Hf. }
  assert (Hin : x ∈ q :: rest).
  { pose proof (sh_live _ _ _ _ H x ltac:(by eexists)) as [?|?]%elem_of_app; done. }
  apply elem_of_cons in Hin as [->|Hin].
  - assert (eq = es) as -> by congruence. apply elem_of_app. right. by apply Hok.
  - destruct (spine_node _ _ _ _ _ _ (sh_spine _ _ _ _ H) Hin) as (l & y & t' & es' & Hx' & Hy & [_ Hf] & _).
    assert (es = (l, y) :: es') as -> by congruence. apply elem_of_app. apply elem_of_cons in He as [->|He]; [by left|right; by apply Hf].
Qed.

Lemma shape_live g F path rw x : shape g F path rw → x ∈ path ++ F → is_Some (g !! x).
Proof.
  intros H [Hx|Hx]%elem_of_app.
  - destruct (sh_top _ _ _ _ H) as (q & rest & tq & eq & -> & Hq & _). apply elem_of_cons in Hx as [->|Hx]; [by eexists|].
    destruct (spine_node _ _ _ _ _ _ (sh_spine _ _ _ _ H) Hx) as (l & y & t' & es' & -> & _). by eexists.
  - destruct (sh_frozen _ _ _ _ H x Hx) as (t & es & -> & _). by eexists.
Qed.

Lemma shape_closed g F path rw : shape g F path rw → closed g.
Proof. intros H x t es e Hx He. eapply shape_live; [done|]. by eapply shape_node. Qed.

Lemma edges_ok_perm F F' es : F ≡ₚ F' → edges_ok F es → edges_ok F' es.
Proof. intros HF [Hs Hf]. split; [done|]. intros e He. rewrite <- HF. auto. Qed.

Lemma shape_perm g F F' path rw : F ≡ₚ F' → shape g F path rw → shape g F' path rw.
Proof.
  intros HF H. pose proof (sh_top _ _ _ _ H) as (q & rest & t & es & -> & Hq & Hok). destruct H as [Hsp _ Hnd Hlive Hfr Hrk Hdi]. split.
  - eapply spine_frame; [exact Hsp|done|]. intros f. by rewrite HF.
  - exists q, rest, t, es. split_and!; [done|done|by eapply edges_ok_perm].
  - by rewrite <- HF.
  - intros x. rewrite <- HF. auto.
  - intros f. rewrite <- HF. intros Hf. destruct (Hfr f Hf) as (t' & es' & ? & ? & ?). exists t', es'.
    split_and!; [done|by eapply edges_ok_perm|done].
  - destruct Hrk as [ht Hht]. exists ht. intros f t' es' e. rewrite <- HF. apply Hht.
  - intros x y n. rewrite <- HF. apply Hdi.
Qed.

(** ** Freezing the last state *)

Lemma edges_ok_cons F es l y : edges_ok F es → y ∈ F → (∀ e, e ∈ es → e.1 < l) → edges_ok F ((l, y) :: es).
Proof.
  intros [Hs Hf] Hy Hl. split.
  - constructor; [done|]. apply Forall_forall. intros e He. by apply Hl.
  - intros e [->|He]%elem_of_cons; [done|by apply Hf].
Qed.

(** The last state is merged into a frozen one with the same contents. *)
Section merge.
Context (g : graph) (F rest rw : list Z) (c p k l : Z) (t : bool) (es : list (Z * Z)) (n : bool * list (Z * Z)).
Context (H : shape g F (c :: p :: rest) (l :: rw)).
Context (Hp : g !! p = Some (t, (l, c) :: es)) (Hc : g !! c = Some n) (Hk : k ∈ F) (Hgk : g !! k = Some n).

Definition merged : graph := <[p := (t, (l, k) :: es)]> (delete c g).

#[local] Lemma merge_apart : c ≠ p ∧ k ≠ c ∧ k ≠ p ∧ c ∉ rest ∧ p ∉ rest ∧ c ∉ F ∧ p ∉ F ∧ NoDup rest ∧ NoDup F ∧ (∀ x, x ∈ rest → x ∉ F).
Proof using H Hk.
  clear Hgk. pose proof (sh_nodup _ _ _ _ H) as Hnd. simpl in Hnd. rewrite !NoDup_cons, NoDup_app, !not_elem_of_cons, !not_elem_of_app in Hnd.
  destruct Hnd as ((H1 & H2 & H3) & (H4 & H5) & H6 & H7 & H8).
  split_and!; [done|by intros ->|by intros ->|done..].
Qed.

Lemma merged_other x : x ≠ c → x ≠ p → merged !! x = g !! x.
Proof. intros H1 H2. unfold merged. by rewrite lookup_insert_ne, lookup_delete_ne by done. Qed.

#[local] Lemma merge_parent : edges_ok F es ∧ ∀ e, e ∈ es → e.1 < l.
Proof using H Hp.
  pose proof (sh_spine _ _ _ _ H) as Hsp. simpl in Hsp. destruct Hsp as [(t' & es' & Hp' & Hok & Hl) _].
  assert (es' = es) as -> by congruence. done.
Qed.

Lemma merge_language w : accepts merged 0 w = accepts g 0 w.
Proof using All.
  destruct merge_apart as (Hcp & Hkc & Hkp & Hcr & Hpr & HcF & HpF & Hnr & HnF & HrF). destruct merge_parent as [[Hs Hf] Hl].
  set (φ := λ x, if decide (x = c) then k else x).
  assert (Hid : ∀ es : list (Z * Z), (∀ e, e ∈ es → e.2 ≠ c) → map (λ e, (e.1, φ e.2)) es = es).
  { intros es' He. rewrite <- (map_id es') at 2. apply map_ext_in. intros [x y] Hin%list_elem_of_In. unfold φ. simpl.
    specialize (He _ Hin). simpl in He. by rewrite decide_False. }
  assert (HF : ∀ es : list (Z * Z), (∀ e, e ∈ es → e.2 ∈ F) → ∀ e, e ∈ es → e.2 ≠ c) by (intros es' He e Hin Heq; apply HcF; rewrite <- Heq; auto).
  assert (H0 : φ 0 = 0 ∧ is_Some (g !! 0)).
  { pose proof (sh_spine _ _ _ _ H) as Hsp. assert (H0 : 0 ∈ p :: rest).
    { simpl in Hsp. by eapply spine_root, Hsp. }
    split.
    - unfold φ. rewrite decide_False; [done|]. intros Heq. rewrite Heq in H0. apply elem_of_cons in H0 as [?|?]; done.
    - eapply shape_live; [exact H|]. apply elem_of_app. left. by right. }
  destruct H0 as [E0 Hlive0]. rewrite <- E0 at 1. apply (walk_hom g merged φ); [by eapply shape_closed| |done].
  intros x tx ex Hx. exists (map (λ e, (e.1, φ e.2)) ex). split; [|intros; apply follow_map].
  destruct (decide (x = c)) as [->|Hxc]; [|destruct (decide (x = p)) as [->|Hxp]].
  - unfold φ at 1. rewrite decide_True by done. rewrite merged_other, Hgk by done. rewrite Hc in Hx. injection Hx as ->. f_equal. f_equal.
    symmetry. apply Hid, HF. destruct (sh_frozen _ _ _ _ H k Hk) as (t' & es' & Hk' & [_ Hf'] & _). by assert (es' = ex) as -> by congruence.
  - unfold φ at 1. rewrite decide_False by done. unfold merged. rewrite lookup_insert_eq. rewrite Hp in Hx. injection Hx as <- <-.
    cbn [map fst snd]. rewrite (Hid es) by (by apply HF). unfold φ. by rewrite decide_True.
  - unfold φ at 1. rewrite decide_False by done. rewrite merged_other by done. rewrite Hx. do 2 f_equal. symmetry. apply Hid.
    assert (Hin : x ∈ rest ∨ x ∈ F).
    { pose proof (sh_live _ _ _ _ H x ltac:(by eexists)) as Hin. simpl in Hin. rewrite !elem_of_cons, elem_of_app in Hin. naive_solver. }
    destruct Hin as [Hin|Hin].
    + pose proof (sh_spine _ _ _ _ H) as [_ Hsp]. destruct (spine_node _ _ _ _ _ _ Hsp Hin) as (lx & y & t' & es' & Hx' & Hy & [_ Hf'] & _).
      assert (ex = (lx, y) :: es') as -> by congruence. intros e [->|He]%elem_of_cons; [|by apply (HF es')].
      simpl. intros ->. apply elem_of_cons in Hy as [?|?]; done.
    + apply HF. destruct (sh_frozen _ _ _ _ H x Hin) as (t' & es' & Hx' & [_ Hf'] & _). by assert (es' = ex) as -> by congruence.
Qed.

Lemma merge_shape : shape merged F (p :: rest) rw.
Proof using All.
  destruct merge_apart as (Hcp & Hkc & Hkp & Hcr & Hpr & HcF & HpF & Hnr & HnF & HrF). destruct merge_parent as [Hok Hl].
  assert (HgF : ∀ f, f ∈ F → merged !! f = g !! f) by (intros f Hf; apply merged_other; by intros ->). split.
  - pose proof (sh_spine _ _ _ _ H) as [_ Hsp]. eapply spine_frame; [exact Hsp| |done]. intros x Hx. apply merged_other; by intros ->.
  - exists p, rest, t, ((l, k) :: es). split_and!; [done|apply lookup_insert_eq|by apply edges_ok_cons].
  - pose proof (sh_nodup _ _ _ _ H) as Hnd. simpl in Hnd. by apply NoDup_cons in Hnd as [_ Hnd].
  - intros x [n' Hx]. unfold merged in Hx. rewrite lookup_insert_Some in Hx. destruct Hx as [[<- _]|[Hpx Hx]]; [by left|].
    apply lookup_delete_Some in Hx as [Hcx Hx]. pose proof (sh_live _ _ _ _ H x ltac:(by eexists)) as Hin. simpl in Hin.
    apply elem_of_cons in Hin as [?|?]; [by subst|done].
  - intros f Hf. rewrite HgF by done. by apply (sh_frozen _ _ _ _ H).
  - destruct (sh_rank _ _ _ _ H) as [ht Hht]. exists ht. intros f tf ef e Hf. rewrite HgF by done. by apply Hht.
  - intros x y m Hx Hy. rewrite !HgF by done. by apply (sh_distinct _ _ _ _ H).
Qed.
End merge.

(** The last state joins the frozen ones. *)
Lemma freeze_shape g F c p rest l rw :
  shape g F (c :: p :: rest) (l :: rw) → (∀ k, k ∈ F → g !! k ≠ g !! c) →
  (∀ t es, g !! c = Some (t, es) → t = true ∨ es ≠ []) → shape g (c :: F) (p :: rest) rw.
Proof.
  intros H Hnew Huse. pose proof (sh_nodup _ _ _ _ H) as Hnd. simpl in Hnd.
  destruct (sh_top _ _ _ _ H) as (q & rest' & t & es & [= <- <-] & Hc & Hokc).
  pose proof (sh_spine _ _ _ _ H) as Hsp. simpl in Hsp. destruct Hsp as [(tp & ep & Hp & [Hsp1 Hsp2] & Hlp) Hsp].
  assert (Hup : ∀ es, edges_ok F es → edges_ok (c :: F) es) by (intros es' [? ?]; split; [done|intros e He; right; auto]).
  split.
  - eapply spine_frame; [exact Hsp|done|]. intros f Hf. by right.
  - exists p, rest, tp, ((l, c) :: ep). split_and!; [done|done|]. apply edges_ok_cons; [by apply Hup|by left|done].
  - rewrite <- Permutation_middle. done.
  - intros x Hx. rewrite <- Permutation_middle. by apply (sh_live _ _ _ _ H).
  - intros f [->|Hf]%elem_of_cons.
    + exists t, es. split_and!; [done|by apply Hup|by apply Huse].
    + destruct (sh_frozen _ _ _ _ H f Hf) as (tf & ef & ? & ? & ?). exists tf, ef. split_and!; [done|by apply Hup|done].
  - destruct (sh_rank _ _ _ _ H) as [ht Hht].
    assert (HcF : c ∉ F) by (apply NoDup_cons in Hnd as [Hni _]; rewrite not_elem_of_cons, not_elem_of_app in Hni; tauto).
    exists (λ x, if decide (x = c) then S (list_max (map (λ e, ht e.2) es)) else ht x).
    intros f tf ef e [->|Hf]%elem_of_cons Hgf He.
    + assert (ef = es) as -> by congruence. rewrite (decide_True (P:=c = c)) by done.
      assert (e.2 ∈ F) by by apply Hokc. rewrite decide_False by by intros E; rewrite E in *.
      pose proof (proj1 (list_max_le (map (λ e, ht e.2) es) _) (le_n _)) as Hm. rewrite Forall_forall in Hm.
      specialize (Hm (ht e.2)). lapply Hm; [lia|]. apply list_elem_of_fmap. by exists e.
    + destruct (sh_frozen _ _ _ _ H f Hf) as (t' & es' & Hf' & [_ Hok] & _). assert (es' = ef) as -> by congruence.
      rewrite !decide_False; [by eapply Hht| |]; intros E; apply HcF; rewrite <- E; auto.
  - intros x y n [->|Hx]%elem_of_cons [->|Hy]%elem_of_cons Hgx Hgy; [done| | |by eapply (sh_distinct _ _ _ _ H)].
    + destruct (Hnew y Hy). congruence.
    + destruct (Hnew x Hx). congruence.
Qed.

(** ** Words of the path *)

(** An edge to a state of the path is the newest one of a state below it. *)
Lemma shape_path_edge g F path rw y t es x q : shape g F path rw → g !! y = Some (t, es) → (x, q) ∈ es → q ∈ path →
  y ∈ tail path ∧ ∃ es', es = (x, q) :: es'.
Proof.
  intros H Hy Hin Hq. pose proof (sh_nodup _ _ _ _ H) as (_ & Hdis & _)%NoDup_app. pose proof (Hdis q Hq) as HqF.
  destruct (sh_top _ _ _ _ H) as (top & rest & tq & eq & -> & Htop & [_ Hok]).
  pose proof (sh_live _ _ _ _ H y ltac:(by eexists)) as [[->|Hp]%elem_of_cons|Hf]%elem_of_app.
  - assert (eq = es) as -> by congruence. by destruct HqF; apply (Hok (x, q)).
  - split; [done|]. destruct (spine_node _ _ _ _ _ _ (sh_spine _ _ _ _ H) Hp) as (l & z & t' & es' & Hy' & _ & [_ Hf] & _).
    assert (es = (l, z) :: es') as -> by congruence. apply elem_of_cons in Hin as [[= -> ->]|Hin]; [by eexists|].
    by destruct HqF; apply (Hf (x, q)).
  - destruct (sh_frozen _ _ _ _ H y Hf) as (t' & es' & Hy' & [_ Hok'] & _). assert (es' = es) as -> by congruence.
    by destruct HqF; apply (Hok' (x, q)).
Qed.

(** The only word to a state of the path is the one along the path. *)
Lemma shape_walk g F q rest rw w : shape g F (q :: rest) rw → walk g 0 w = Some q ↔ w = rev rw.
Proof.
  intros H. assert (Hsuf : ∀ rest' q' rw' pre, q :: rest = pre ++ q' :: rest' → spine g F (q' :: rest') rw' →
    ∀ w, walk g 0 w = Some q' ↔ w = rev rw').
  2: { apply (Hsuf rest q rw []); [done|apply H]. }
  pose proof (sh_nodup _ _ _ _ H) as Hnd. apply NoDup_app in Hnd as [Hnd _].
  induction rest' as [|p rest' IH]; intros q' [|l rw'] pre Epath Hsp w'; try done.
  - simpl in Hsp. subst q'. split; [|by intros ->]. destruct w' as [|x w' _] using rev_ind; [done|]. rewrite walk_app. simpl.
    destruct (walk g 0 w') as [y|] eqn:Ey; [|done]. destruct (g !! y) as [[t es]|] eqn:Hy; [|done].
    destruct (follow es x) as [z|] eqn:Ez; [|done]. intros [= ->]. apply follow_elem in Ez.
    destruct (shape_path_edge _ _ _ _ _ _ _ _ _ H Hy Ez) as [Hin [es' ->]].
    { rewrite Epath. apply elem_of_app. right. by left. }
    rewrite Epath in *. by destruct (spine_pred g F [] pre 0 rw y x t es' Hnd (sh_spine _ _ _ _ H) Hin Hy).
  - destruct Hsp as [(tp & ep & Hp & _) Hsp]. fold spine in Hsp.
    assert (Epath' : q :: rest = (pre ++ [q']) ++ p :: rest') by by rewrite Epath, <- app_assoc.
    pose proof (IH p rw' (pre ++ [q']) Epath' Hsp) as IHp. simpl rev. split.
    + destruct w' as [|x w' _] using rev_ind.
      { simpl. intros [= <-]. pose proof (spine_root _ _ _ _ _ Hsp) as H0. rewrite Epath in Hnd.
        apply NoDup_app in Hnd as (_ & _ & Hnd). by apply NoDup_cons in Hnd as [? _]. }
      rewrite walk_app. cbn [walk].
      destruct (walk g 0 w') as [y|] eqn:Ey; [|done]. destruct (g !! y) as [[t es]|] eqn:Hy; [|done].
      destruct (follow es x) as [z|] eqn:Ez; [|done]. intros [= ->]. apply follow_elem in Ez.
      destruct (shape_path_edge _ _ _ _ _ _ _ _ _ H Hy Ez) as [Hin [es' ->]].
      { rewrite Epath. apply elem_of_app. right. by left. }
      rewrite Epath in H, Hin, Hnd.
      destruct (spine_pred g F (p :: rest') pre q' rw y x t es' Hnd (sh_spine _ _ _ _ H) Hin Hy) as [r [= <- <-]].
      rewrite Hp in Hy. injection Hy as -> -> ->. by rewrite (proj1 (IHp w') Ey).
    + intros ->. rewrite walk_app, (proj2 (IHp _) eq_refl). cbn [walk]. rewrite Hp. unfold follow. simpl. by rewrite Z.eqb_refl.
Qed.

(** The path can be longer by a new state. *)
Lemma extend_shape g F q rest rw t es l c : shape g F (q :: rest) rw → g !! q = Some (t, es) → g !! c = None →
  (∀ e, e ∈ es → e.1 < l) →
  let g' := <[q := (t, (l, c) :: es)]> (<[c := (false, [])]> g) in
  shape g' F (c :: q :: rest) (l :: rw) ∧ ∀ w, accepts g' 0 w = accepts g 0 w.
Proof.
  intros H Hq Hc Hl g'. destruct (sh_top _ _ _ _ H) as (q' & rest' & t' & es' & [= <- <-] & Hq' & Hok).
  assert (t' = t ∧ es' = es) as [-> ->] by (split; congruence).
  assert (Hqc : q ≠ c) by (intros ->; congruence).
  assert (Hold : ∀ x, is_Some (g !! x) → x ≠ q → g' !! x = g !! x).
  { intros x [n Hx] Hxq. unfold g'. rewrite !lookup_insert_ne by (done || intros ->; congruence). done. }
  assert (Hcg : g' !! c = Some (false, [])) by (unfold g'; by rewrite lookup_insert_ne, lookup_insert_eq).
  assert (Hnew : c ∉ (q :: rest) ++ F) by (intros Hin; destruct (shape_live _ _ _ _ _ H Hin); congruence).
  pose proof (sh_nodup _ _ _ _ H) as Hnd. pose proof Hnd as Hnd'. simpl in Hnd'. apply NoDup_cons in Hnd' as [Hni _].
  rewrite not_elem_of_app in Hni. destruct Hni as [Hqr HqF].
  assert (HoldF : ∀ f, f ∈ F → g' !! f = g !! f).
  { intros f Hf. apply Hold; [eapply shape_live; [done|]; apply elem_of_app; by right|by intros ->]. }
  split.
  - split.
    + split.
      * exists t, es. split_and!; [apply lookup_insert_eq|done|done].
      * eapply spine_frame; [apply H| |done]. intros x Hx. apply Hold; [|by intros ->].
        eapply shape_live; [done|]. apply elem_of_app. left. by right.
    + exists c, (q :: rest), false, []. split_and!; [done|done|]. split; [constructor|by intros e ?%elem_of_nil].
    + simpl. by constructor.
    + intros x [n Hx]. unfold g' in Hx. rewrite !lookup_insert_Some in Hx. destruct Hx as [[<- _]|[_ [[<- _]|[_ Hx]]]].
      * right. by left.
      * by left.
      * right. apply (sh_live _ _ _ _ H). by eexists.
    + intros f Hf. rewrite HoldF by done. by apply (sh_frozen _ _ _ _ H).
    + destruct (sh_rank _ _ _ _ H) as [ht Hht]. exists ht. intros f tf ef e Hf. rewrite HoldF by done. by apply Hht.
    + intros x y m Hx Hy. rewrite !HoldF by done. by apply (sh_distinct _ _ _ _ H).
  - assert (Hw : ∀ w x, is_Some (g !! x) → walk g' x w = walk g x w ∨ (walk g x w = None ∧ walk g' x w = Some c)).
    { induction w as [|l' w IH]; intros x Hx; [by left|]. cbn [walk]. destruct (decide (x = q)) as [->|Hxq].
      - unfold g' at 1 3. rewrite lookup_insert_eq, Hq. unfold follow. cbn [List.find fst]. destruct (Z.eqb_spec l l') as [->|Hne].
        + cbn [snd]. assert (Hnone : List.find (λ e, e.1 =? l') es = None).
          { destruct (List.find _ es) as [e|] eqn:Ef; [|done]. apply find_some in Ef as [Hin He]. apply list_elem_of_In, Hl in Hin.
            apply Z.eqb_eq in He. lia. }
          rewrite Hnone. destruct w as [|x w]; [by right|]. left. cbn [walk]. rewrite Hcg. done.
        + fold (follow es l'). destruct (follow es l') as [y|] eqn:Ef; [|by left]. apply IH. eapply closed_follow; [by eapply shape_closed|done|done].
      - rewrite Hold by done. destruct (g !! x) as [[tx ex]|] eqn:Hgx; [|by left].
        destruct (follow ex l') as [y|] eqn:Ef; [|by left]. apply IH. eapply closed_follow; [by eapply shape_closed|done|done]. }
    assert (H0 : is_Some (g !! 0)).
    { eapply shape_live; [done|]. apply elem_of_app. left. eapply spine_root, H. }
    intros w. unfold accepts. destruct (Hw w 0 H0) as [->|[-> ->]].
    + destruct (walk g 0 w) as [y|] eqn:Ey; [|done]. unfold final. destruct (decide (y = q)) as [->|Hyq].
      * unfold g'. by rewrite lookup_insert_eq, Hq.
      * rewrite Hold; [done| |done]. eapply walk_live; [by eapply shape_closed|exact H0|done].
    + unfold final. by rewrite Hcg.
Qed.

(** The last state becomes terminal. *)
Lemma terminal_shape g F q rest rw t es : shape g F (q :: rest) rw → g !! q = Some (t, es) →
  let g' := <[q := (true, es)]> g in
  shape g' F (q :: rest) rw ∧ ∀ w, accepts g' 0 w = bool_decide (w = rev rw) || accepts g 0 w.
Proof.
  intros H Hq g'. destruct (sh_top _ _ _ _ H) as (q' & rest' & t' & es' & [= <- <-] & Hq' & Hok).
  assert (t' = t ∧ es' = es) as [-> ->] by (split; congruence).
  assert (Hold : ∀ x, x ≠ q → g' !! x = g !! x) by (intros x Hx; unfold g'; by rewrite lookup_insert_ne).
  pose proof (sh_nodup _ _ _ _ H) as Hnd. pose proof Hnd as Hnd'. simpl in Hnd'. apply NoDup_cons in Hnd' as [Hni _].
  rewrite not_elem_of_app in Hni. destruct Hni as [Hqr HqF].
  assert (HoldF : ∀ f, f ∈ F → g' !! f = g !! f) by (intros f Hf; apply Hold; by intros ->).
  split.
  - split.
    + eapply spine_frame; [apply H| |done]. intros x Hx. apply Hold. by intros ->.
    + exists q, rest, true, es. split_and!; [done|apply lookup_insert_eq|done].
    + done.
    + intros x [n Hx]. apply (sh_live _ _ _ _ H). unfold g' in Hx. rewrite lookup_insert_Some in Hx.
      destruct Hx as [[<- _]|[_ Hx]]; by eexists.
    + intros f Hf. rewrite HoldF by done. by apply (sh_frozen _ _ _ _ H).
    + destruct (sh_rank _ _ _ _ H) as [ht Hht]. exists ht. intros f tf ef e Hf. rewrite HoldF by done. by apply Hht.
    + intros x y m Hx Hy. rewrite !HoldF by done. by apply (sh_distinct _ _ _ _ H).
  - assert (Hw : ∀ w x, walk g' x w = walk g x w).
    { induction w as [|l w IH]; intros x; [done|]. cbn [walk]. destruct (decide (x = q)) as [->|Hxq].
      - unfold g' at 1. rewrite lookup_insert_eq, Hq. by destruct (follow es l).
      - rewrite Hold by done. destruct (g !! x) as [[tx ex]|]; [|done]. by destruct (follow ex l). }
    intros w. unfold accepts. rewrite Hw. pose proof (shape_walk _ _ _ _ _ w H) as Hpath.
    destruct (walk g 0 w) as [y|] eqn:Ey.
    + destruct (decide (y = q)) as [->|Hyq].
      * rewrite bool_decide_true by by apply Hpath. unfold final, g'. by rewrite lookup_insert_eq.
      * rewrite bool_decide_false by (intros Heq; apply Hpath in Heq; congruence). unfold final. by rewrite Hold.
    + rewrite bool_decide_false; [done|]. intros Heq. apply Hpath in Heq. congruence.
Qed.
