(* ===== verification/DawgBuild.v ===== *)
(** * The builder builds the automaton of its words

    Words that come in increasing order are accepted afterwards, and nothing
    else is; no index leaves its vector while they fit into 32 bits. *)

From stdpp Require Import sorting.
From S2P Require Import Prelude FilterTable FilterTableSpec Dawg DawgRep DawgReg DawgPath.

#[local] Open Scope Z_scope.
#[local] Open Scope outcome_scope.

Record zipper (b : DawgBuilder) (g : gmap Z (bool * list (Z * Z))) (chains : list (list Z)) (rw : list Z) : Prop := {
  z_rep : Rep b g;
  z_registry : registry b g chains;
  z_shape : shape g (concat chains) (path b) rw
}.

(** Nothing but the path and the contents has changed. *)
Record same_room (b b' : DawgBuilder) : Prop := {
  sr_states : zlen (states b') = zlen (states b);
  sr_label : zlen (label (edges b')) = zlen (label (edges b));
  sr_previous : previous b' = previous b
}.

Lemma same_room_trans b b' b'' : same_room b b' → same_room b' b'' → same_room b b''.
Proof. intros [] []. split; congruence. Qed.

Definition useful (b : DawgBuilder) (g : gmap Z (bool * list (Z * Z))) : Prop :=
  ∀ q rest t es, path b = q :: rest → g !! q = Some (t, es) → t = true ∨ es ≠ [].

Definition top_below (b : DawgBuilder) (g : gmap Z (bool * list (Z * Z))) (m : Z) : Prop :=
  ∀ q rest t es e, path b = q :: rest → g !! q = Some (t, es) → e ∈ es → e.1 < m.

Lemma registry_frame b b' g chains : registry b g chains →
  (∀ c, c ∈ concat chains → get (nexts b') c = get (nexts b) c) → register b' = register b → registered b' = registered b →
  registry b' g chains.
Proof.
  intros [Hb Hc Hs] Hn Er Ec. split; [rewrite Er|by rewrite Ec|by rewrite Er].
  eapply bucketed_graph; [exact Hb|]. intros c Hc'. split; [by apply Hn|done].
Qed.

(** ** Freezing the end of the path *)

Lemma path_pop_spec {E} fuel n b g chains c p rest l rw :
  zipper b g chains (l :: rw) → path b = c :: p :: rest → useful b g → n + 1 < zlen (path b) →
  ∃ b' g' chains' t es k, minimize (E:=E) (S fuel) n b = minimize fuel n b' ∧ zipper b' g' chains' rw ∧ path b' = p :: rest
    ∧ g' !! p = Some (t, (l, k) :: es) ∧ (∀ e, e ∈ es → e.1 < l) ∧ (∀ w, accepts g' 0 w = accepts g 0 w) ∧ same_room b b'.
Proof.
  intros [Hrep Hreg Hsh] Ep Huse Hn. cbn [minimize]. rewrite (proj2 (Z.ltb_lt _ _)) by done. rewrite Ep in *.
  destruct (sh_top _ _ _ _ Hsh) as (q & rest' & tc & ec & [= <- <-] & Hc & Hokc).
  destruct (sh_spine _ _ _ _ Hsh) as [(t & es & Hp & Hok & Hl) _].
  pose proof (sh_nodup _ _ _ _ Hsh) as Hnd. simpl in Hnd. rewrite !NoDup_cons, !not_elem_of_cons, !not_elem_of_app in Hnd.
  destruct Hnd as ((Hcp & Hcr & HcF) & (Hpr & HpF) & _).
  assert (Hrep0 : Rep (set_path (p :: rest) b) g) by (eapply Rep_frame; [exact Hrep|done..]).
  assert (Hreg0 : registry (set_path (p :: rest) b) g chains) by (eapply registry_frame; [exact Hreg|done..]).
  destruct (register_state_spec (E:=E) _ g chains c _ Hrep0 Hreg0 Hc HcF) as (k & b1 & -> & Hfz & Hcase).
  cbn [obind]. unfold top. rewrite (fz_path _ _ Hfz). cbn [path set_path obind].
  (* the parent's edge is redirected *)
  assert (Hredirect : ∀ g1 chains1, Rep b1 g1 → registry b1 g1 chains1 → g1 !! p = Some (t, (l, c) :: es) → p ∉ concat chains1 →
    ∃ b2, (try! s := state (E:=E) p b1 in if negb (edge_head s =? NONE) then try! ts := put (target (edges b1)) (edge_head s) k in
             minimize fuel n (set_edges (mkArena (label (edges b1)) ts (enext (edges b1)) (efree (edges b1)) (elive (edges b1))) b1)
           else minimize fuel n b1) = minimize fuel n b2
      ∧ Rep b2 (<[p := (t, (l, k) :: es)]> g1) ∧ registry b2 (<[p := (t, (l, k) :: es)]> g1) chains1 ∧ path b2 = p :: rest ∧ same_room b b2).
  { intros g1 chains1 H1 Hr1 Hp1 HpF1. destruct (Rep_lookup _ _ _ _ H1 Hp1) as (s & Hs & _). rewrite (state_get _ _ _ Hs). cbn [obind].
    destruct (Rep_set_target (E:=E) b1 g1 p t l c es k s H1 Hp1 Hs) as (Hh & ts & -> & H2). rewrite (proj2 (Z.eqb_neq _ _)) by done.
    cbn [negb obind]. eexists. split; [done|]. split; [exact H2|]. split; [|split].
    - eapply registry_graph; [eapply registry_frame; [exact Hr1|done..]|]. intros f Hf. rewrite lookup_insert_ne; [done|]. by intros ->.
    - simpl. apply Hfz.
    - destruct Hfz. simpl in *. by split. }
  destruct Hcase as [(Hk & Hgk & H1 & Hr1)|(-> & Hnew & H1 & chains1 & Hr1 & Hp1)].
  - assert (Hp1 : delete c g !! p = Some (t, (l, c) :: es)) by by rewrite lookup_delete_ne.
    destruct (Hredirect _ chains H1 Hr1 Hp1 HpF) as (b2 & Hrun & H2 & Hr2 & Hpa & Hsr).
    eexists b2, _, chains, t, es, k. split; [exact Hrun|].
    change (<[p := (t, (l, k) :: es)]> (delete c g)) with (merged g c p k l t es) in *.
    split; [|split_and!; [done|apply lookup_insert_eq|done| |done]].
    + split; [done|done|]. rewrite Hpa. by eapply merge_shape.
    + intros w. by eapply merge_language.
  - assert (HpF1 : p ∉ concat chains1) by (rewrite Hp1, not_elem_of_cons; done).
    destruct (Hredirect g chains1 H1 Hr1 Hp HpF1) as (b2 & Hrun & H2 & Hr2 & Hpa & Hsr).
    rewrite insert_id in H2, Hr2 by done. exists b2, g, chains1, t, es, c.
    split_and!; [exact Hrun| |done|done|done|done|done]. split; [done|done|]. rewrite Hpa.
    eapply shape_perm; [symmetry; exact Hp1|]. eapply freeze_shape; [exact Hsh| |].
    + intros k Hk. rewrite Hc. by apply Hnew.
    + intros t' es' Hc'. by eapply Huse.
Qed.

Lemma spine_length g F path rw : spine g F path rw → length path = S (length rw).
Proof.
  revert rw. induction path as [|q [|p rest] IH]; intros [|l rw]; simpl; try done. intros [_ Hsp].
  f_equal. exact (IH rw Hsp).
Qed.

Lemma zipper_length b g chains rw : zipper b g chains rw → zlen (path b) = zlen rw + 1.
Proof. intros H. pose proof (spine_length _ _ _ _ (sh_spine _ _ _ _ (z_shape _ _ _ _ H))). unfold zlen. lia. Qed.

Lemma minimize_spec {E} s : ∀ fuel b g chains rw,
  zipper b g chains (s ++ rw) → (s = [] ∨ useful b g) → (length s < fuel)%nat →
  ∃ b' g' chains', minimize (E:=E) fuel (zlen rw) b = Ok b' ∧ zipper b' g' chains' rw ∧ (∀ w, accepts g' 0 w = accepts g 0 w)
    ∧ same_room b b' ∧ (s = [] → b' = b ∧ g' = g) ∧ (s ≠ [] → useful b' g')
    ∧ ∀ m, match last s with Some l => l < m | None => top_below b g m end → top_below b' g' m.
Proof.
  induction s as [|l s IH]; intros fuel b g chains rw Hz Huse Hf.
  - destruct fuel as [|fuel]; [lia|]. pose proof (zipper_length _ _ _ _ Hz) as Hlen. simpl in *. cbn [minimize].
    rewrite (proj2 (Z.ltb_ge _ _)) by lia. exists b, g, chains. split_and!; [done|done|done|by split|done|done|done].
  - destruct fuel as [|fuel]; [lia|]. destruct Huse as [?|Huse]; [done|].
    assert (Hpath : ∃ c p rest, path b = c :: p :: rest).
    { pose proof (spine_length _ _ _ _ (sh_spine _ _ _ _ (z_shape _ _ _ _ Hz))) as Hl. destruct (path b) as [|c [|p rest]]; [done|done|by eexists _, _, _]. }
    destruct Hpath as (c & p & rest & Ep).
    destruct (path_pop_spec (E:=E) fuel (zlen rw) b g chains c p rest l (s ++ rw) Hz Ep Huse)
      as (b1 & g1 & chains1 & t & es & k & -> & Hz1 & Ep1 & Hp1 & Hl1 & Hacc & Hsr).
    { rewrite (zipper_length _ _ _ _ Hz), zlen_app, zlen_cons. pose proof (zlen_nonneg s). lia. }
    assert (Huse1 : useful b1 g1).
    { intros q r t' es' Eq Hq. rewrite Ep1 in Eq. injection Eq as <- <-. rewrite Hp1 in Hq. injection Hq as <- <-. by right. }
    destruct (IH fuel b1 g1 chains1 rw Hz1 (or_intror Huse1)) as (b2 & g2 & chains2 & -> & Hz2 & Hacc2 & Hsr2 & Hnil & Huse2 & Htop).
    { simpl in Hf. lia. }
    exists b2, g2, chains2. split_and!; [done|done|intros w; by rewrite Hacc2|by eapply same_room_trans|done| |].
    + intros _. destruct s; [|by apply Huse2]. destruct (Hnil eq_refl) as [-> ->]. done.
    + intros m Hm. apply Htop. destruct s as [|x s].
      2: { rewrite last_cons_cons in Hm. destruct (last (x :: s)) eqn:El; [done|]. by apply last_None in El. }
      simpl in Hm |- *.
      intros q r t' es' e Eq Hq He. rewrite Ep1 in Eq. injection Eq as <- <-. rewrite Hp1 in Hq. injection Hq as <- <-.
      apply elem_of_cons in He as [->|He]; [done|]. specialize (Hl1 e He). lia.
Qed.

(** ** A word *)

Lemma add_labels_spec {E} labels : ∀ b g chains rw,
  zipper b g chains rw → match labels with [] => True | l :: _ => top_below b g l end →
  zlen (states b) + zlen labels ≤ NONE → zlen (label (edges b)) + zlen labels ≤ NONE →
  ∃ b' g', add_labels (E:=E) labels b = Ok b' ∧ zipper b' g' chains (rev labels ++ rw) ∧ (∀ w, accepts g' 0 w = accepts g 0 w)
    ∧ zlen (states b') ≤ zlen (states b) + zlen labels ∧ zlen (label (edges b')) ≤ zlen (label (edges b)) + zlen labels
    ∧ previous b' = previous b ∧ (labels = [] → g' = g ∧ b' = b)
    ∧ (labels ≠ [] → ∀ q rest t es, path b' = q :: rest → g' !! q = Some (t, es) → es = []).
Proof.
  induction labels as [|l labels IH]; intros b g chains rw Hz Htop Hs Hl; cbn [add_labels].
  { exists b, g. split_and!; [done|done|done|rewrite zlen_nil; lia|rewrite zlen_nil; lia|done|done|done]. }
  rewrite zlen_cons in *. pose proof (zlen_nonneg labels). destruct Hz as [Hrep Hreg Hsh].
  destruct (new_state_spec (E:=E) b g Hrep) as (c & b1 & -> & Hc & H1 & Hc1 & Hf1 & Hc0 & Hz1 & He1 & Er1 & Ec1 & Ep1 & Epr1); [lia|].
  cbn [obind]. destruct (sh_top _ _ _ _ Hsh) as (q & rest & t & es & Ep & Hq & Hok).
  assert (Hqc : q ≠ c) by (intros ->; congruence).
  assert (Hq1 : <[c := (false, [])]> g !! q = Some (t, es)) by by rewrite lookup_insert_ne.
  unfold top. rewrite Ep1, Ep. cbn [obind]. destruct (Rep_lookup _ _ _ _ H1 Hq1) as (s & Hs1 & _).
  rewrite (state_get _ _ _ Hs1). cbn [obind].
  destruct (Rep_add_edge (E:=E) b1 _ q t es l c s H1 Hq1 Hs1) as (cell & a & b2 & -> & Hm & H2 & Eb2 & Hz2 & Hl2 & Hn2); [rewrite He1; lia|].
  cbn [obind]. rewrite Hm. cbn [obind]. rewrite He1 in Hl2.
  rewrite Ep in Hsh. destruct (extend_shape g (concat chains) q rest rw t es l c Hsh Hq Hc) as [Hsh' Hacc].
  { intros e He. by eapply Htop. }
  set (g' := <[q := (t, (l, c) :: es)]> (<[c := (false, [])]> g)) in *.
  assert (Hpath : path b2 = q :: rest) by (rewrite Eb2; simpl; by rewrite Ep1).
  assert (HcF : ∀ f, f ∈ concat chains → f ≠ c ∧ f ≠ q).
  { pose proof (sh_nodup _ _ _ _ Hsh') as Hnd. simpl in Hnd. rewrite !NoDup_cons, !not_elem_of_cons, !not_elem_of_app in Hnd.
    destruct Hnd as ((_ & _ & HcF) & (_ & HqF) & _). intros f Hf. split; by intros ->. }
  assert (Hz' : zipper (set_path (c :: path b2) b2) g' chains (l :: rw)).
  { split.
    - by eapply Rep_frame.
    - eapply registry_graph.
      + eapply registry_frame; [exact Hreg| | |].
        * intros f Hf. destruct (HcF f Hf) as [Hfc Hfq]. destruct (registry_live _ _ _ _ Hreg Hf) as [n Hn].
          destruct (Rep_lookup _ _ _ _ Hrep Hn) as (sf & Hsf & _). rewrite (get_nexts _ _ _ Hsf).
          destruct (Hn2 f sf) as (sf' & Hsf' & Hnx); [by rewrite Hf1|]. rewrite <- Hnx. by apply get_nexts.
        * rewrite Eb2. simpl. done.
        * rewrite Eb2. simpl. done.
      + intros f Hf. destruct (HcF f Hf) as [Hfc Hfq]. unfold g'. by rewrite !lookup_insert_ne.
    - simpl. by rewrite Hpath. }
  destruct (IH _ g' chains (l :: rw) Hz') as (b3 & g3 & -> & Hz3 & Hacc3 & Hst3 & Hla3 & Hpr3 & Hnil3 & Hcons3).
  - destruct labels as [|l' labels]; [done|]. intros q' r' t' es' e [= <- <-] Hq' He. unfold g' in Hq'.
    rewrite lookup_insert_ne, lookup_insert_eq in Hq' by done. injection Hq' as <- <-. by apply elem_of_nil in He.
  - simpl. lia.
  - simpl. rewrite Eb2. simpl. lia.
  - simpl in *. rewrite Eb2 in Hla3, Hpr3. simpl in *. exists b3, g3. split_and!; [done| | |lia|lia|by rewrite Hpr3|done|].
    + by rewrite <- app_assoc.
    + intros w. by rewrite Hacc3, Hacc.
    + intros _. destruct labels as [|l' labels]; [|by apply Hcons3]. destruct (Hnil3 eq_refl) as [-> ->]. cbn [path set_path].
      intros q' r' t' es' [= <- <-] Hq'. unfold g' in Hq'. rewrite lookup_insert_ne, lookup_insert_eq in Hq' by done.
      by injection Hq' as <- <-.
Qed.

(** ** Words in order *)

(** The order of slices of octets. *)
Fixpoint lex_lt (a b : list Z) : bool :=
  match a, b with
  | _, [] => false
  | [], _ :: _ => true
  | x :: a, y :: b => (x <? y) || ((x =? y) && lex_lt a b)
  end.

Definition total (ws : list (list Z)) : Z := zlen (concat ws).

Lemma total_snoc ws w : total (ws ++ [w]) = total ws + zlen w.
Proof. unfold total. rewrite concat_app, zlen_app. simpl. by rewrite app_nil_r. Qed.

(** Two words split where they first differ. *)
Lemma common_prefix_split p : ∀ w, ∃ cp sp sw, p = cp ++ sp ∧ w = cp ++ sw ∧ common_prefix p w = length cp
  ∧ (lex_lt p w = true → ∃ y sw', sw = y :: sw' ∧ match sp with x :: _ => x < y | [] => True end).
Proof.
  induction p as [|x p IH]; intros [|y w]; simpl.
  - by exists [], [], [].
  - exists [], [], (y :: w). split_and!; [done|done|done|]. intros _. by exists y, w.
  - by exists [], (x :: p), [].
  - destruct (Z.eqb_spec x y) as [->|Hne].
    + destruct (IH w) as (cp & sp & sw & -> & -> & Hc & Hlt). exists (y :: cp), sp, sw. split_and!; [done|done|simpl; by rewrite Hc|].
      rewrite Z.ltb_irrefl. simpl. done.
    + exists [], (x :: p), (y :: w). split_and!; [done|done|done|]. rewrite orb_false_r. intros Hlt%Z.ltb_lt. by exists y, w.
Qed.

Record built (b : DawgBuilder) (g : gmap Z (bool * list (Z * Z))) (chains : list (list Z)) (ws : list (list Z)) : Prop := {
  bt_zipper : zipper b g chains (rev (previous b));
  bt_previous : previous b = default [] (last ws);
  bt_leaf : ∀ q rest t es, path b = q :: rest → g !! q = Some (t, es) → es = [] ∧ (ws ≠ [] → t = true);
  bt_words : ∀ w, accepts g 0 w = bool_decide (w ∈ ws);
  bt_states : zlen (states b) ≤ total ws + 1;
  bt_edges : zlen (label (edges b)) ≤ total ws
}.

Lemma insert_reversed_spec {E} domain b g chains ws :
  built b g chains ws → (∀ w, last ws = Some w → lex_lt w (rev domain) = true) → total (ws ++ [rev domain]) < NONE →
  ∃ b' g' chains', insert_reversed (E:=E) domain b = Ok b' ∧ built b' g' chains' (ws ++ [rev domain]).
Proof.
  intros [Hz Hprev Hleaf Hlang Hst Hed] Hord Htot. unfold insert_reversed. cbv zeta. set (w := rev domain) in *.
  rewrite total_snoc in Htot.
  destruct (common_prefix_split (previous b) w) as (cp & sp & sw & Ep & Ew & -> & Hlt).
  change (Z.of_nat (length cp)) with (zlen cp). replace (zlen cp) with (zlen (rev cp)) by (unfold zlen; by rewrite length_rev).
  assert (Hord' : sp = [] ∧ ws = [] ∨ ∃ y sw', sw = y :: sw' ∧ match sp with x :: _ => x < y | [] => True end).
  { destruct (last ws) as [v|] eqn:El.
    - right. apply Hlt. rewrite Hprev. simpl. by apply Hord.
    - left. apply last_None in El as ->. simpl in Hprev. rewrite Hprev in Ep. by destruct cp, sp. }
  assert (Hz' : zipper b g chains (rev sp ++ rev cp)) by (rewrite <- rev_app_distr, <- Ep; done).
  unfold minimize_to. destruct (minimize_spec (E:=E) (rev sp) (S (length (path b))) b g chains (rev cp) Hz')
    as (b1 & g1 & chains1 & -> & Hz1 & Hacc1 & Hsr1 & Hnil1 & _ & Htop1).
  { destruct sp as [|x sp]; [by left|]. right. intros q rest t es Eq Hq. destruct Hord' as [[? _]|(y & sw' & _ & Hx)]; [done|].
    left. apply (Hleaf q rest t es Eq Hq). intros ->. simpl in Hprev. rewrite Hprev in Ep. by destruct cp. }
  { pose proof (zipper_length _ _ _ _ Hz) as Hlen. rewrite Ep, rev_app_distr, zlen_app in Hlen. unfold zlen in Hlen. lia. }
  cbn [obind]. rewrite Ew, drop_app_length.
  assert (Hlen : zlen w = zlen cp + zlen sw) by by rewrite Ew, zlen_app. pose proof (zlen_nonneg cp).
  destruct (add_labels_spec (E:=E) sw b1 g1 chains1 (rev cp) Hz1) as (b2 & g2 & -> & Hz2 & Hacc2 & Hst2 & Hla2 & Hpr2 & Hnil2 & Hcons2).
  { destruct Hord' as [[-> ->]|(y & sw' & -> & Hx)].
    - destruct sw as [|y sw]; [done|]. intros q rest t es e Eq Hq He. destruct (Hnil1 eq_refl) as [-> ->].
      destruct (Hleaf q rest t es Eq Hq) as [-> _]. by apply elem_of_nil in He.
    - apply Htop1. destruct sp as [|x sp]; simpl.
      + intros q rest t es e Eq Hq He. destruct (Hleaf q rest t es Eq Hq) as [-> _]. by apply elem_of_nil in He.
      + by rewrite last_snoc. }
  { rewrite (sr_states _ _ Hsr1). lia. }
  { rewrite (sr_label _ _ Hsr1). lia. }
  cbn [obind]. destruct Hz2 as [Hrep2 Hreg2 Hsh2]. rewrite <- rev_app_distr, <- Ew in Hsh2.
  destruct (sh_top _ _ _ _ Hsh2) as (q & rest & t & es & Epath & Hq & _). unfold top. rewrite Epath. cbn [obind].
  destruct (Rep_set_terminal (E:=E) b2 g2 q t es Hrep2 Hq) as (b3 & -> & Hrep3 & Eb3 & Hst3 & Hn3). cbn [obind].
  rewrite Epath in Hsh2. destruct (terminal_shape _ _ _ _ _ t es Hsh2 Hq) as [Hsh3 Hacc3].
  eexists _, _, chains1. split; [done|]. rewrite Eb3. split; simpl.
  - split.
    + eapply Rep_frame; [exact Hrep3|done|by rewrite Eb3|by rewrite Eb3].
    + eapply registry_graph; [eapply registry_frame; [exact Hreg2| |done|done]|].
      * intros f Hf. destruct (registry_live _ _ _ _ Hreg2 Hf) as [n Hn].
        destruct (Rep_lookup _ _ _ _ Hrep2 Hn) as (sf & Hsf & _). rewrite (get_nexts _ _ _ Hsf).
        destruct (Hn3 f sf Hsf) as (sf' & Hsf' & Hnx). rewrite <- Hnx. by apply get_nexts.
      * intros f Hf. rewrite lookup_insert_ne; [done|]. intros ->. pose proof (sh_nodup _ _ _ _ Hsh2) as Hnd.
        apply NoDup_cons in Hnd as [Hni _]. apply Hni, elem_of_app. by right.
    + simpl. by rewrite Epath, <- Ew.
  - by rewrite last_snoc, <- Ew.
  - intros q' rest' t' es' Eq Hq'. rewrite Epath in Eq. injection Eq as <- <-. rewrite lookup_insert_eq in Hq'.
    injection Hq' as <- <-. split; [|done]. destruct Hord' as [[-> ->]|(y & sw' & -> & _)].
    + destruct sw as [|y sw]; [|by eapply Hcons2]. destruct (Hnil2 eq_refl) as [-> ->]. destruct (Hnil1 eq_refl) as [-> ->].
      by apply (Hleaf _ _ _ _ Epath Hq).
    + by eapply Hcons2.
  - intros v. rewrite Hacc3, Hacc2, Hacc1, Hlang, rev_involutive. rewrite <- Ew.
    destruct (decide (v = w)) as [->|Hne].
    + rewrite (bool_decide_true (w = w)) by done. symmetry. apply bool_decide_true, elem_of_app. right. by left.
    + rewrite (bool_decide_false (v = w)) by done. apply bool_decide_ext. rewrite elem_of_app, list_elem_of_singleton. naive_solver.
  - rewrite total_snoc, <- Ew. rewrite (sr_states _ _ Hsr1) in Hst2. lia.
  - rewrite total_snoc, <- Ew. rewrite (sr_label _ _ Hsr1) in Hla2. lia.
Qed.

(** ** All words *)


Lemma new_built : built DawgBuilder_new {[0 := (false, [])]} (replicate 1024 []) [].
Proof.
  split.
  - split.
    + exists {[0 := []]}, []. split; simpl.
      * split; simpl; try done.
        -- constructor.
        -- intros id cs. rewrite lookup_singleton_Some. intros [_ <-]. split; [constructor|by intros c ?%elem_of_nil].
        -- intros i j cs ds c. rewrite !lookup_singleton_Some. intros [<- _] [<- _]. done.
      * intros id. destruct (decide (id = 0)) as [->|Hne].
        -- simpl. exists []. rewrite !lookup_singleton_eq. done.
        -- assert (get [Some BuildState_new] id = None) as ->; [|simpl; by rewrite !lookup_singleton_ne].
           unfold get. destruct (Z.ltb_spec id 0); [done|]. apply lookup_ge_None_2. simpl. lia.
      * constructor.
      * intros id. split; [by intros ?%elem_of_nil|]. unfold get. destruct (id <? 0); [done|]. by destruct (Z.to_nat id).
      * vm_compute. discriminate.
    + split.
      * apply bucketed_empty. lia.
      * done.
      * done.
    + change (concat (replicate 1024 ([] : list Z))) with ([] : list Z). split; simpl.
      * done.
      * exists 0, [], false, []. split_and!; [done|by rewrite lookup_singleton_eq|]. split; [constructor|by intros e ?%elem_of_nil].
      * apply NoDup_singleton.
      * intros x [n Hx]. apply lookup_singleton_Some in Hx as [<- _]. by left.
      * by intros f ?%elem_of_nil.
      * exists (λ _, 0%nat). by intros f t es e ?%elem_of_nil.
      * by intros x y n ?%elem_of_nil.
  - done.
  - intros q rest t es [= <- <-]. rewrite lookup_singleton_Some. intros [_ [= <- <-]]. split; [done|by intros []].
  - intros w. rewrite bool_decide_false by apply not_elem_of_nil. unfold accepts. destruct w as [|l w]; simpl; [done|].
    by rewrite lookup_singleton_eq.
  - simpl. unfold total. simpl. done.
  - done.
Qed.

Lemma insert_all_spec {E} (domains : list (list Z)) : ∀ b g chains ws,
  built b g chains ws → StronglySorted (λ a b, lex_lt a b = true) (ws ++ map (@rev Z) domains) →
  total (ws ++ map (@rev Z) domains) < NONE →
  ∃ b' g' chains', insert_all (E:=E) domains b = Ok b' ∧ built b' g' chains' (ws ++ map (@rev Z) domains).
Proof.
  induction domains as [|d domains IH]; intros b g chains ws Hb Hs Ht; cbn [insert_all map].
  { rewrite app_nil_r. by exists b, g, chains. }
  assert (Hf : ∀ v, last ws = Some v → lex_lt v (rev d) = true).
  { intros v (ws' & ->)%last_Some. eapply (StronglySorted_app_1_elem_of (λ a b, lex_lt a b = true)); [exact Hs| |by left].
    apply elem_of_app. right. by left. }
  assert (Eapp : ws ++ rev d :: map (@rev Z) domains = (ws ++ [rev d]) ++ map (@rev Z) domains) by by rewrite <- app_assoc.
  cbn [map] in Hs, Ht. rewrite Eapp in *.
  destruct (insert_reversed_spec (E:=E) d b g chains ws Hb Hf) as (b1 & g1 & chains1 & -> & Hb1).
  - unfold total in *. rewrite concat_app, zlen_app in Ht. pose proof (zlen_nonneg (concat (map (@rev Z) domains))). lia.
  - cbn [obind]. by apply (IH b1 g1 chains1 _ Hb1).
Qed.

(** The finished automaton: the root and frozen states only. *)
Lemma complete_spec {E} b g chains ws : built b g chains ws →
  ∃ b' g' F, complete (E:=E) b = Ok b' ∧ Rep b' g' ∧ shape g' F [0] [] ∧ (∀ w, accepts g' 0 w = bool_decide (w ∈ ws))
    ∧ zlen (states b') ≤ total ws + 1 ∧ zlen (label (edges b')) ≤ total ws.
Proof.
  intros [Hz Hprev Hleaf Hlang Hst Hed]. unfold complete, minimize_to.
  pose proof (zipper_length _ _ _ _ Hz) as Hlen. rewrite <- (app_nil_r (rev (previous b))) in Hz.
  destruct (minimize_spec (E:=E) (rev (previous b)) (S (length (path b))) b g chains [] Hz)
    as (b1 & g1 & chains1 & Hrun & Hz1 & Hacc1 & Hsr1 & _).
  { destruct (previous b) as [|x p] eqn:Ep; [by left|]. right. intros q rest t es Eq Hq. left. apply (Hleaf q rest t es Eq Hq).
    intros ->. done. }
  { unfold zlen in Hlen. lia. }
  rewrite zlen_nil in Hrun. rewrite Hrun. cbn [obind]. destruct Hz1 as [Hrep1 Hreg1 Hsh1].
  eexists _, g1, (concat chains1). split; [done|]. split; [by eapply Rep_frame|]. simpl. destruct Hsr1 as [Es El _].
  split_and!; [|intros w; by rewrite Hacc1|lia|lia].
  destruct (sh_top _ _ _ _ Hsh1) as (q & rest & t & es & Epath & _). pose proof (sh_spine _ _ _ _ Hsh1) as Hsp.
  rewrite Epath in *. destruct rest; [|done]. simpl in Hsp. by subst q.
Qed.
