(* ===== verification/DawgWords.v ===== *)
(** * The words of an automaton in order

    The finished automaton has no cycles, so its words are a list; with the
    labels of every state in order the list is sorted, and no two frozen states
    have the same words. *)

From stdpp Require Import sorting.
From S2P Require Import Prelude FilterTableSpec Dawg DawgRep DawgReg DawgPath DawgBuild.

#[local] Open Scope Z_scope.

Notation graph := (gmap Z (bool * list (Z * Z))) (only parsing).

(** Ranks fall along edges: there is no cycle. *)
Definition ranked (g : graph) (ht : Z → nat) : Prop :=
  ∀ x t es e, g !! x = Some (t, es) → e ∈ es → (ht e.2 < ht x)%nat.

Lemma shape_done g F : shape g F [0] [] →
  (∃ ht, ranked g ht) ∧ ∀ x t es, g !! x = Some (t, es) → (x = 0 ∨ x ∈ F) ∧ edges_ok F es ∧ (x ∈ F → t = true ∨ es ≠ []).
Proof.
  intros H. destruct (sh_top _ _ _ _ H) as (q & rest & t0 & e0 & [= <- <-] & H0 & Hok0).
  pose proof (sh_nodup _ _ _ _ H) as Hnd. simpl in Hnd. apply NoDup_cons in Hnd as [H0F _].
  assert (Hall : ∀ x t es, g !! x = Some (t, es) → (x = 0 ∨ x ∈ F) ∧ edges_ok F es ∧ (x ∈ F → t = true ∨ es ≠ [])).
  { intros x t es Hx. pose proof (sh_live _ _ _ _ H x ltac:(by eexists)) as Hin. apply elem_of_cons in Hin as [->|Hf].
    - assert (t0 = t ∧ e0 = es) as [-> ->] by (split; congruence). split; [by left|]. split; [done|done].
    - destruct (sh_frozen _ _ _ _ H x Hf) as (t' & es' & Hx' & Hok & Hu). assert (t' = t ∧ es' = es) as [-> ->] by (split; congruence).
      split; [by right|]. split; [done|done]. }
  split; [|done]. destruct (sh_rank _ _ _ _ H) as [ht Hht].
  exists (λ x, if decide (x = 0) then S (list_max (map (λ e, ht e.2) e0)) else ht x).
  intros x t es e Hx He. destruct (Hall x t es Hx) as (Hin & [_ Hf] & _). specialize (Hf e He).
  rewrite (decide_False (P:=e.2 = 0)) by by intros E; rewrite E in Hf.
  case_decide as Hx0.
  - subst x. assert (e0 = es) as -> by congruence.
    pose proof (proj1 (list_max_le (map (λ e, ht e.2) es) _) (le_n _)) as Hm. rewrite Forall_forall in Hm.
    specialize (Hm (ht e.2)). lapply Hm; [lia|]. apply list_elem_of_fmap. by exists e.
  - destruct Hin as [?|Hin]; [done|]. by eapply Hht.
Qed.

(** ** Following labels *)

Lemma follow_unique es l y : NoDup (map fst es) → (l, y) ∈ es → follow es l = Some y.
Proof.
  unfold follow. induction es as [|[x z] es IH]; [by intros _ ?%elem_of_nil|]. simpl. intros Hnd.
  apply NoDup_cons in Hnd as [Hni Hnd]. intros [[= -> ->]|Hin]%elem_of_cons; [by rewrite Z.eqb_refl|].
  rewrite (proj2 (Z.eqb_neq _ _)); [by apply IH|]. intros ->. apply Hni, list_elem_of_fmap. by exists (l, y).
Qed.

Lemma follow_rev es l : NoDup (map fst es) → follow (rev es) l = follow es l.
Proof.
  intros Hnd. destruct (follow es l) as [y|] eqn:E.
  - apply follow_elem in E. apply follow_unique.
    + rewrite map_rev. by rewrite <- Permutation_rev.
    + by rewrite <- Permutation_rev.
  - apply follow_None. intros [l' y] Hin. rewrite <- Permutation_rev in Hin. simpl. intros ->.
    apply follow_unique in Hin; [congruence|done].
Qed.

Lemma sorted_labels es : StronglySorted (λ a b : Z * Z, b.1 < a.1) es → NoDup (map fst es).
Proof.
  induction 1 as [|e es Hs IH Hf]; [constructor|]. constructor; [|done].
  intros (e' & E & Hin)%list_elem_of_fmap. rewrite Forall_forall in Hf. specialize (Hf _ Hin). lia.
Qed.

Lemma rising_labels es : StronglySorted (λ a b : Z * Z, a.1 < b.1) es → NoDup (map fst es).
Proof.
  induction 1 as [|e es Hs IH Hf]; [constructor|]. constructor; [|done].
  intros (e' & E & Hin)%list_elem_of_fmap. rewrite Forall_forall in Hf. specialize (Hf _ Hin). lia.
Qed.

Lemma accepts_cons g x t es l y w : g !! x = Some (t, es) → follow es l = Some y → accepts g x (l :: w) = accepts g y w.
Proof. intros Hx Hf. unfold accepts. simpl. by rewrite Hx, Hf. Qed.

Lemma accepts_nil g x t es : g !! x = Some (t, es) → accepts g x [] = t.
Proof. intros Hx. unfold accepts, final. simpl. by rewrite Hx. Qed.

Lemma accepts_cons_inv g x t es l w : g !! x = Some (t, es) → accepts g x (l :: w) = true →
  ∃ y, follow es l = Some y ∧ accepts g y w = true.
Proof. intros Hx. unfold accepts. simpl. rewrite Hx. destruct (follow es l) as [y|]; [|done]. by exists y. Qed.

(** ** The automaton is minimal *)

Section done.
Context (g : graph) (F : list Z) (H : shape g F [0] []).

Lemma useful_accepts x : x ∈ F → ∃ w, accepts g x w = true.
Proof using H.
  destruct (shape_done _ _ H) as [[ht Hht] Hall].
  assert (Hn : ∀ n x, (ht x < n)%nat → x ∈ F → ∃ w, accepts g x w = true); [|intros Hx; apply (Hn (S (ht x))); [lia|done]].
  induction n as [|n IH]; intros y Hy HyF; [lia|].
  destruct (sh_frozen _ _ _ _ H y HyF) as (t & es & Hgy & [Hs Hf] & Hu). destruct t.
  - exists []. by eapply accepts_nil.
  - destruct Hu as [?|Hu]; [done|]. destruct es as [|[l z] es]; [done|].
    destruct (IH z) as [w Hw]; [|apply (Hf (l, z)); by left|].
    + specialize (Hht y false _ (l, z) Hgy ltac:(by left)). simpl in Hht. lia.
    + exists (l :: w). rewrite (accepts_cons g y false ((l, z) :: es) l z w Hgy); [done|]. unfold follow. simpl. by rewrite Z.eqb_refl.
Qed.

(** The edges of two frozen states with the same words lead to states with the
    same words. *)
Lemma same_words_edge x y t es t' es' l z :
  g !! x = Some (t, es) → g !! y = Some (t', es') → x ∈ F → y ∈ F → (∀ w, accepts g x w = accepts g y w) → (l, z) ∈ es →
  ∃ z', (l, z') ∈ es' ∧ z ∈ F ∧ z' ∈ F ∧ ∀ w, accepts g z w = accepts g z' w.
Proof using H.
  intros Hx Hy HxF HyF Heq Hin. destruct (shape_done _ _ H) as [_ Hall].
  destruct (Hall x t es Hx) as (_ & [Hs Hf] & _). destruct (Hall y t' es' Hy) as (_ & [Hs' Hf'] & _).
  assert (HzF : z ∈ F) by apply (Hf _ Hin). destruct (useful_accepts z HzF) as [w Hw].
  pose proof (follow_unique es l z (sorted_labels _ Hs) Hin) as Hfo.
  pose proof (Heq (l :: w)) as Hlw. rewrite (accepts_cons g x t es l z w Hx Hfo), Hw in Hlw.
  destruct (accepts_cons_inv g y t' es' l w Hy (eq_sym Hlw)) as (z' & Hfo' & _). exists z'.
  pose proof (follow_elem _ _ _ Hfo') as Hin'. split_and!; [done|done|apply (Hf' _ Hin')|].
  intros v. by rewrite <- (accepts_cons g x t es l z v Hx Hfo), <- (accepts_cons g y t' es' l z' v Hy Hfo').
Qed.

Lemma frozen_minimal x y : x ∈ F → y ∈ F → (∀ w, accepts g x w = accepts g y w) → x = y.
Proof using H.
  destruct (shape_done _ _ H) as [[ht Hht] Hall].
  assert (Hn : ∀ n x y, (ht x < n)%nat → x ∈ F → y ∈ F → (∀ w, accepts g x w = accepts g y w) → x = y).
  2: { intros HxF HyF. by eapply (Hn (S (ht x))); [lia|done|done]. }
  clear x y. induction n as [|n IH]; intros x y Hlt HxF HyF Heq; [lia|].
  destruct (sh_frozen _ _ _ _ H x HxF) as (t & es & Hx & [Hs Hf] & _).
  destruct (sh_frozen _ _ _ _ H y HyF) as (t' & es' & Hy & [Hs' Hf'] & _).
  assert (t = t') as ->.
  { rewrite <- (accepts_nil g x t es Hx), <- (accepts_nil g y t' es' Hy). apply Heq. }
  assert (es = es') as ->; [|by eapply (sh_distinct _ _ _ _ H)].
  assert (Hsub : ∀ e, e ∈ es → e ∈ es').
  { intros [l z] Hin. destruct (same_words_edge x y _ _ _ _ l z Hx Hy HxF HyF Heq Hin) as (z' & Hin' & HzF & HzF' & Hz).
    assert (z = z') as ->; [|done]. apply (IH z z'); [|done|done|done]. specialize (Hht x t' es _ Hx Hin). simpl in Hht. lia. }
  assert (Hsub' : ∀ e, e ∈ es' → e ∈ es).
  { intros [l z'] Hin'. destruct (same_words_edge y x _ _ _ _ l z' Hy Hx HyF HxF (λ w, eq_sym (Heq w)) Hin') as (z & Hin & HzF' & HzF & Hz).
    assert (z = z') as ->; [|done]. apply (IH z z'); [|done|done|done].
    specialize (Hht x t' es _ Hx Hin). simpl in Hht. lia. }
  eapply (StronglySorted_unique_strong (λ a b : Z * Z, b.1 < a.1)); [|exact Hs|exact Hs'|].
  - intros a b _ _ Hab Hba. lia.
  - apply NoDup_Permutation.
    + eapply (NoDup_fmap_1 fst). by apply sorted_labels.
    + eapply (NoDup_fmap_1 fst). by apply sorted_labels.
    + intros e. split; auto.
Qed.
End done.

(** ** The order of words *)

Lemma lex_lt_irrefl a : lex_lt a a = false.
Proof. induction a as [|x a IH]; simpl; [done|]. by rewrite Z.ltb_irrefl, Z.eqb_refl, IH. Qed.

Lemma lex_lt_cons x a b : lex_lt (x :: a) (x :: b) = lex_lt a b.
Proof. simpl. by rewrite Z.ltb_irrefl, Z.eqb_refl. Qed.

Lemma lex_lt_trans a : ∀ b c, lex_lt a b = true → lex_lt b c = true → lex_lt a c = true.
Proof.
  induction a as [|x a IH]; intros [|y b] [|z c]; simpl; try done. rewrite !orb_true_iff, !andb_true_iff, !Z.ltb_lt, !Z.eqb_eq.
  intros [?|[-> H1]] [?|[-> H2]]; [left; lia|by left|by left|]. right. split; [done|]. by eapply IH.
Qed.

Notation lex := (λ a b, lex_lt a b = true).

Lemma lex_NoDup l : StronglySorted lex l → NoDup l.
Proof.
  induction 1 as [|w l Hs IH Hf]; [constructor|]. constructor; [|done]. intros Hin. rewrite Forall_forall in Hf.
  specialize (Hf w Hin). simpl in Hf. by rewrite lex_lt_irrefl in Hf.
Qed.

(** Sorted lists with the same words are equal. *)
Lemma lex_unique l k : StronglySorted lex l → StronglySorted lex k → (∀ w, w ∈ l ↔ w ∈ k) → l = k.
Proof.
  intros Hl Hk Heq. eapply (StronglySorted_unique_strong lex); [|exact Hl|exact Hk|].
  - intros a b _ _ Hab Hba. pose proof (lex_lt_trans _ _ _ Hab Hba) as Haa. by rewrite lex_lt_irrefl in Haa.
  - apply NoDup_Permutation; [by apply lex_NoDup|by apply lex_NoDup|done].
Qed.

(** ** The words of a state *)

Definition word_list (n : bool * list (Z * Z)) (rest : Z → list (list Z)) : list (list Z) :=
  (if n.1 then [[]] else []) ++ concat (map (λ e, map (cons e.1) (rest e.2)) n.2).

Fixpoint words (h : nat) (g : graph) (x : Z) : list (list Z) :=
  match h with
  | O => []
  | S h => match g !! x with Some n => word_list n (words h g) | None => [] end
  end.

(** Labels rise along the edges of every state. *)
Definition rising (g : graph) : Prop := ∀ x t es, g !! x = Some (t, es) → StronglySorted (λ a b : Z * Z, a.1 < b.1) es.

Lemma elem_word_list t es rest l w : (l :: w) ∈ word_list (t, es) rest ↔ ∃ y, (l, y) ∈ es ∧ w ∈ rest y.
Proof.
  unfold word_list. simpl. rewrite elem_of_app, elem_concat. split.
  - intros [Hin|(i & ws & Hi & Hin)].
    + destruct t; [|by apply elem_of_nil in Hin]. by apply list_elem_of_singleton in Hin.
    + apply list_elem_of_lookup_2 in Hi. apply list_elem_of_fmap in Hi as ([l' y] & -> & He).
      apply list_elem_of_fmap in Hin as (w' & [= -> ->] & Hw). by exists y.
  - intros (y & He & Hw). right. apply (list_elem_of_fmap_2 (λ e, map (cons e.1) (rest e.2))) in He.
    apply list_elem_of_lookup in He as [i Hi]. exists i, (map (cons l) (rest y)). split; [exact Hi|].
    by apply list_elem_of_fmap_2.
Qed.

Lemma elem_word_list_nil t es rest : [] ∈ word_list (t, es) rest ↔ t = true.
Proof.
  unfold word_list. simpl. rewrite elem_of_app, elem_concat. split.
  - intros [Hin|(i & ws & Hi & Hin)]; [destruct t; [done|by apply elem_of_nil in Hin]|].
    apply list_elem_of_lookup_2 in Hi. apply list_elem_of_fmap in Hi as ([l' y] & -> & He).
    by apply list_elem_of_fmap in Hin as (w' & ? & _).
  - intros ->. left. by left.
Qed.

Section words.
Context (g : graph) (ht : Z → nat) (Hr : ranked g ht) (Hi : rising g).

Lemma words_accepts h : ∀ x w, (ht x < h)%nat → w ∈ words h g x ↔ accepts g x w = true.
Proof using Hr Hi.
  induction h as [|h IH]; intros x w Hx; [lia|]. cbn [words]. destruct (g !! x) as [[t es]|] eqn:Eg.
  2: { rewrite elem_of_nil. split; [done|]. unfold accepts, final. destruct w; simpl; by rewrite Eg. }
  destruct w as [|l w].
  - rewrite elem_word_list_nil. by rewrite (accepts_nil g x t es Eg).
  - rewrite elem_word_list. pose proof (rising_labels _ (Hi x t es Eg)) as Hnd. split.
    + intros (y & He & Hw). pose proof (follow_unique es l y Hnd He) as Hf. rewrite (accepts_cons g x t es l y w Eg Hf).
      apply (IH y w); [|done]. specialize (Hr x t es _ Eg He). simpl in Hr. lia.
    + intros Ha. destruct (accepts_cons_inv g x t es l w Eg Ha) as (y & Hf & Hy). exists y. pose proof (follow_elem _ _ _ Hf) as He.
      split; [done|]. apply (IH y w); [|done]. specialize (Hr x t es _ Eg He). simpl in Hr. lia.
Qed.

Lemma words_fuel h : ∀ h' x, (ht x < h)%nat → (ht x < h')%nat → words h g x = words h' g x.
Proof using Hr.
  induction h as [|h IH]; intros [|h'] x Hh Hh'; [lia..|]. cbn [words]. destruct (g !! x) as [[t es]|] eqn:Eg; [|done].
  unfold word_list. f_equal. f_equal. apply map_ext_in. intros e He%list_elem_of_In. f_equal. simpl in He.
  specialize (Hr x t es e Eg He). apply IH; lia.
Qed.

Lemma words_eq h x n : g !! x = Some n → (ht x < h)%nat → words h g x = word_list n (words h g).
Proof using Hr.
  intros Hx Hh. destruct h as [|h]; [lia|]. cbn [words]. rewrite Hx. destruct n as [t es]. unfold word_list. f_equal. f_equal.
  apply map_ext_in. intros e He%list_elem_of_In. f_equal. simpl in He. pose proof (Hr x t es e Hx He). apply (words_fuel h (S h)); lia.
Qed.

Lemma word_list_sorted t es rest : StronglySorted (λ a b : Z * Z, a.1 < b.1) es → (∀ e, e ∈ es → StronglySorted lex (rest e.2)) →
  StronglySorted lex (word_list (t, es) rest).
Proof using.
  clear. intros Hs Hrest. unfold word_list. simpl. assert (Hc : StronglySorted lex (concat (map (λ e, map (cons e.1) (rest e.2)) es))
    ∧ ∀ w, w ∈ concat (map (λ e, map (cons e.1) (rest e.2)) es) → ∃ e v, e ∈ es ∧ w = e.1 :: v).
  { induction Hs as [|[l y] es Hs IH Hf]; simpl; [split; [constructor|by intros w ?%elem_of_nil]|].
    destruct IH as [IH1 IH2]; [intros e He; apply Hrest; by right|]. split.
    - apply StronglySorted_app. split_and!; [|
        |done].
      + intros w1 w2 Hw1 Hw2. apply list_elem_of_fmap in Hw1 as (v1 & -> & _). destruct (IH2 _ Hw2) as (e & v & He & ->).
        rewrite Forall_forall in Hf. specialize (Hf _ He). simpl in *. by rewrite (proj2 (Z.ltb_lt _ _)).
      + specialize (Hrest (l, y) ltac:(by left)). simpl in Hrest. clear -Hrest. induction Hrest as [|w ws Hs IH Hf]; [constructor|].
        simpl. constructor; [done|]. apply Forall_fmap. eapply Forall_impl; [exact Hf|]. intros v Hv. unfold compose. by rewrite lex_lt_cons.
    - intros w [Hw|Hw]%elem_of_app.
      + apply list_elem_of_fmap in Hw as (v & -> & _). exists (l, y), v. split; [by left|done].
      + destruct (IH2 w Hw) as (e & v & He & ->). exists e, v. split; [by right|done]. }
  destruct Hc as [Hc Hall]. destruct t; [|done]. simpl. constructor; [done|]. apply Forall_forall. intros w Hw.
  destruct (Hall w Hw) as (e & v & _ & ->). done.
Qed.

Lemma words_sorted h : ∀ x, StronglySorted lex (words h g x).
Proof using Hi.
  induction h as [|h IH]; intros x; cbn [words]; [constructor|]. destruct (g !! x) as [[t es]|] eqn:Eg; [|constructor].
  apply word_list_sorted; [by eapply Hi|]. intros e _. apply IH.
Qed.

(** ** Ranks *)

(** The rank of a word: the words that the edges passed by lead to. *)
Fixpoint skip (n : Z → Z) (es : list (Z * Z)) (l acc : Z) : option (Z * Z) :=
  match es with
  | [] => None
  | e :: es => if e.1 =? l then Some (e.2, acc) else skip n es l (acc + n e.2)
  end.

Fixpoint rank (n : Z → Z) (x : Z) (w : list Z) {struct w} : option Z :=
  match w with
  | [] => Some 0
  | l :: w =>
      match (g : graph) !! x with
      | Some (t, es) =>
          match skip n es l (if (t : bool) then 1 else 0) with
          | Some (y, out) => match rank n y w with Some r => Some (out + r) | None => None end
          | None => None
          end
      | None => None
      end
  end.

Lemma skip_spec (n : Z → Z) (rest : Z → list (list Z)) es l : ∀ acc y, (∀ e, e ∈ es → n e.2 = zlen (rest e.2)) → follow es l = Some y →
  ∃ pre es', es = pre ++ (l, y) :: es'
    ∧ skip n es l acc = Some (y, acc + zlen (concat (map (λ e : Z * Z, map (cons e.1) (rest e.2)) pre) : list (list Z))).
Proof using.
  clear. induction es as [|[x z] es IH]; intros acc y Hn; unfold follow; simpl; [done|]. destruct (Z.eqb_spec x l) as [->|Hne].
  - intros [= ->]. exists [], es. split; [done|]. simpl. by rewrite zlen_nil, Z.add_0_r.
  - intros Hf. destruct (IH (acc + n z) y) as (pre & es' & -> & Hs); [intros e He; apply Hn; by right|exact Hf|].
    exists ((x, z) :: pre), es'. split; [done|]. rewrite Hs. do 2 f_equal. simpl. rewrite zlen_app, zlen_map.
    pose proof (Hn (x, z) ltac:(by left)) as Hxz. simpl in Hxz. lia.
Qed.

Lemma get_app_shift {A} (l k : list A) i : 0 ≤ i → get (l ++ k) (zlen l + i) = get k i.
Proof using. clear. intros Hi'. rewrite get_app_r by lia. f_equal. lia. Qed.

Lemma rank_spec n w : ∀ x h, (∀ y, is_Some (g !! y) → n y = zlen (words (S (ht y)) g y)) → closed g → (ht x < h)%nat →
  accepts g x w = true → ∃ r, rank n x w = Some r ∧ 0 ≤ r ∧ get (words h g x) r = Some w.
Proof using Hr Hi.
  induction w as [|l w IH]; intros x h Hn Hc Hh Ha; simpl.
  - exists 0. split_and!; [done|done|]. unfold accepts, final in Ha. simpl in Ha. destruct (g !! x) as [[t es]|] eqn:Eg; [|done]. subst t.
    rewrite (words_eq h x _ Eg Hh). done.
  - destruct (g !! x) as [[t es]|] eqn:Eg; [|unfold accepts in Ha; simpl in Ha; by rewrite Eg in Ha].
    destruct (accepts_cons_inv g x t es l w Eg Ha) as (y & Hf & Hy).
    assert (Hrest : ∀ e, e ∈ es → n e.2 = zlen (words h g e.2)).
    { intros e He. rewrite Hn by by eapply Hc. f_equal. pose proof (Hr x t es e Eg He). apply words_fuel; lia. }
    destruct (skip_spec n (words h g) es l (if t then 1 else 0) y Hrest Hf) as (pre & es' & Ees & ->).
    pose proof (Hr x t es (l, y) Eg (follow_elem _ _ _ Hf)) as Hyx. simpl in Hyx.
    destruct (IH y h Hn Hc ltac:(lia) Hy) as (r & -> & Hr0 & Hget). eexists. split; [done|].
    pose proof (zlen_nonneg (concat (map (λ e : Z * Z, map (cons e.1) (words h g e.2)) pre))) as H0.
    split; [destruct t; lia|]. rewrite (words_eq h x _ Eg Hh). unfold word_list. cbn [fst snd].
    replace ((if t then 1 else 0) + _ + r) with (zlen (if t then [[]] else [] : list (list Z)) + (zlen (concat (map (λ e : Z * Z, map (cons e.1) (words h g e.2)) pre)) + r))
      by (destruct t; rewrite ?zlen_cons, ?zlen_nil; lia).
    rewrite get_app_shift by lia. rewrite Ees, map_app, concat_app. rewrite get_app_shift by done. cbn [map concat fst snd].
    apply get_Some_app. apply get_Some_lookup in Hget as [_ Hget]. apply get_Some_lookup. split; [done|].
    change (map (cons l)) with (fmap (M:=list) (cons l)). rewrite list_lookup_fmap. by rewrite Hget.
Qed.
End words.
