(* ===== verification/DawgPack.v ===== *)
(** * Packing keeps the automaton; counting the words of its states

    The states are numbered in the order in which a walk in breadth finds
    them; the arrays are the states with their edges, the labels rising, and
    every target is the number of the state that the edge leads to.

    The counts are found without recursion: a state is visited twice, before
    and after the states its edges lead to.  Every state gets the number of
    its words, every edge the number of the words before it. *)

From stdpp Require Import sorting.
From S2P Require Import Prelude FilterTable FilterTableSpec Dawg DawgRep DawgReg DawgPath DawgBuild DawgWords.

#[local] Open Scope Z_scope.
#[local] Open Scope outcome_scope.

Notation node := (bool * list (Z * Z))%type (only parsing).
Notation graph := (gmap Z (bool * list (Z * Z))) (only parsing).

(** ** Numbers *)

(** The number of a state in the order, or the mark of none. *)
Definition number (order : list Z) (x : Z) : Z :=
  match list_find (x =.) order with Some (i, _) => Z.of_nat i | None => NONE end.

Lemma number_Some order x i : NoDup order → order !! i = Some x → number order x = Z.of_nat i.
Proof.
  intros Hnd Hi. unfold number. destruct (list_find (x =.) order) as [[j y]|] eqn:E.
  - apply list_find_Some in E as (Hj & -> & _). by rewrite (NoDup_lookup _ _ _ _ Hnd Hj Hi).
  - apply list_find_None in E. rewrite Forall_forall in E. destruct (E x); [by eapply list_elem_of_lookup_2|done].
Qed.

Lemma number_None order x : x ∉ order → number order x = NONE.
Proof.
  intros Hx. unfold number. destruct (list_find (x =.) order) as [[j y]|] eqn:E; [|done].
  apply list_find_Some in E as (Hj & -> & _). destruct Hx. by eapply list_elem_of_lookup_2.
Qed.

Lemma number_cases order x : NoDup order → zlen order ≤ NONE →
  (∃ i, order !! i = Some x ∧ number order x = Z.of_nat i ∧ number order x ≠ NONE) ∨ (x ∉ order ∧ number order x = NONE).
Proof.
  intros Hnd Hmax. destruct (decide (x ∈ order)) as [Hin|Hni]; [left|right; split; [done|by apply number_None]].
  apply list_elem_of_lookup in Hin as [i Hi]. exists i. rewrite (number_Some _ _ _ Hnd Hi). split_and!; [done|done|].
  apply lookup_lt_Some in Hi. unfold zlen in Hmax. lia.
Qed.

(** Edges with numbers for targets. *)
Definition numbered (order : list Z) (es es' : list (Z * Z)) : Prop :=
  Forall2 (λ e e', e.1 = e'.1 ∧ get order e'.2 = Some e.2) es es'.

Lemma numbered_grow order new es es' : numbered order es es' → numbered (order ++ new) es es'.
Proof. intros H. eapply Forall2_impl; [exact H|]. intros e e' [H1 H2]. split; [done|by apply get_Some_app]. Qed.

(** ** One state *)

Lemma collect_spec {E} b g x t es : Rep b g → g !! x = Some (t, es) →
  ∃ s cells, state (E:=E) x b = Ok s ∧ terminal s = t ∧ collect_edges (E:=E) x b = Ok cells
    ∧ map (edge_at (edges b)) cells = rev es
    ∧ ∀ c, c ∈ cells → at_ (E:=E) (label (edges b)) c = Ok (edge_at (edges b) c).1
        ∧ at_ (E:=E) (target (edges b)) c = Ok (edge_at (edges b) c).2.
Proof.
  intros (own & fs & H) Hx. destruct (rep_lookup _ _ _ _ _ _ H Hx) as (s & cs & Hs & Ho & Hl & [= -> ->]).
  exists s, (rev cs). rewrite (state_get _ _ _ Hs). split_and!; [done|done| | |].
  - unfold collect_edges. rewrite (state_get _ _ _ Hs). cbn [obind]. rewrite (chain_spec (edges b) _ _ cs); [done|done|by eapply own_fuel].
  - by rewrite map_rev.
  - intros c Hc. rewrite <- Permutation_rev in Hc. destruct (own_cells _ _ _ _ _ _ H Ho) as (_ & Hr & _).
    eapply cell_at; [apply H|]. by apply Hr.
Qed.

(** The states found so far. *)
Record front (order : list Z) (limit : Z) (p : Packing) : Prop := {
  fr_nodup : NoDup order;
  fr_next : next_state p = zlen order;
  fr_remap : zlen (remap p) = limit;
  fr_number : ∀ x, 0 ≤ x < limit → get (remap p) x = Some (number order x)
}.

Lemma get_replicate {A} (n : Z) (x : A) i : 0 ≤ i < n → get (replicate (Z.to_nat n) x) i = Some x.
Proof. intros Hi. apply get_Some_lookup. split; [lia|]. apply lookup_replicate_2. lia. Qed.

Lemma number_snoc order x y : NoDup (order ++ [x]) →
  number (order ++ [x]) y = if decide (y = x) then zlen order else number order y.
Proof.
  intros Hnd. pose proof Hnd as (Hnd1 & Hx & _)%NoDup_app. case_decide as Hd.
  - subst y. rewrite (number_Some _ _ (length order) Hnd); [done|]. by rewrite lookup_app_r, Nat.sub_diag by lia.
  - destruct (decide (y ∈ order)) as [Hin|Hni].
    + apply list_elem_of_lookup in Hin as [i Hi]. rewrite (number_Some _ _ _ Hnd1 Hi). apply (number_Some _ _ _ Hnd).
      by apply lookup_app_l_Some.
    + rewrite !number_None; [done|done|]. rewrite elem_of_app, list_elem_of_singleton. tauto.
Qed.

Section pack.
Context {E : Type} (a : EdgeArena) (limit room : Z) (P : Z → Prop).
Context (HP : ∀ x, P x → 0 ≤ x < limit) (Hlimit : 0 ≤ limit ≤ NONE).
Context (Hroom : ∀ order, NoDup order → Forall P order → zlen order ≤ room).

(** What packing the edges of a state adds. *)
Record packs_edges (order : list Z) (es : list (Z * Z)) (p p' : Packing) (new : list Z) (cur : list (Z * Z)) : Prop := {
  pe_front : front (order ++ new) limit p';
  pe_new : Forall P new;
  pe_edges : numbered (order ++ new) es cur;
  pe_labels : plabels p' = plabels p ++ map fst cur;
  pe_targets : ptargets p' = ptargets p ++ map snd cur;
  pe_length : length (packed p') = length (packed p);
  pe_old : ∀ i, (i < length order)%nat → packed p' !! i = packed p !! i;
  pe_todo : ∀ i x, (order ++ new) !! i = Some x → (length order ≤ i)%nat → first_edge <$> packed p' !! i = Some x
}.

Lemma order_limit order : NoDup order → Forall P order → zlen order ≤ limit.
Proof using HP Hlimit.
  intros Hnd Hf. pose proof (range_length order limit Hnd) as Hr. rewrite Forall_forall in Hf.
  specialize (Hr ltac:(intros c Hc; by apply HP, Hf)). unfold zlen. lia.
Qed.

(** A target that has no number yet gets the next one. *)
Lemma number_target order p t : front order limit p → Forall P order → zlen (packed p) = room → P t →
  ∃ r p1, get (remap p) t = Some r
    ∧ (if r =? NONE then
         try! rm := put (E:=E) (remap p) t (next_state p) in
         try! s := at_ (packed p) (next_state p) in
         try! ss := put (packed p) (next_state p) (mkPacked t (edge_count_and_terminal s)) in
         Ok (mkPacking rm ss (next_state p + 1) (plabels p) (ptargets p))
       else Ok p) = Ok p1
    ∧ plabels p1 = plabels p ∧ ptargets p1 = ptargets p ∧ length (packed p1) = length (packed p)
    ∧ ∃ new, front (order ++ new) limit p1 ∧ (new = [] ∧ p1 = p ∨ new = [t] ∧ first_edge <$> packed p1 !! length order = Some t)
      ∧ (∀ i, (i < length order)%nat → packed p1 !! i = packed p !! i)
      ∧ ∃ k, get (remap p1) t = Some k ∧ get (order ++ new) k = Some t.
Proof using HP Hlimit Hroom.
  intros [Hnd Hnext Hre Hnum] Hf Hlen Ht. pose proof (HP t Ht) as Htr. exists (number order t).
  assert (Hmax : zlen order ≤ NONE) by (pose proof (order_limit order Hnd Hf); lia).
  destruct (number_cases order t Hnd Hmax) as [(i & Hi & En & Hne)|[Hni En]].
  - exists p. split; [by apply Hnum|]. rewrite (proj2 (Z.eqb_neq _ _)) by done. split_and!; [done..|].
    exists []. rewrite app_nil_r. split_and!; [by split|by left|done|]. exists (Z.of_nat i). rewrite Hnum, En by done.
    split; [done|]. apply get_Some_lookup. split; [lia|]. by rewrite Nat2Z.id.
  - assert (Hnd' : NoDup (order ++ [t])).
    { apply NoDup_app. split_and!; [done| |apply NoDup_singleton]. intros y Hy ->%list_elem_of_singleton. done. }
    pose proof (Hroom _ Hnd' ltac:(apply Forall_app; by split; [|constructor])) as Hr. rewrite zlen_app in Hr. change (zlen [t]) with 1 in Hr.
    assert (Hnr : 0 ≤ next_state p < zlen (packed p)) by (rewrite Hnext; pose proof (zlen_nonneg order); lia).
    destruct (get_is_Some (packed p) (next_state p) Hnr) as [s Hs].
    eexists. split; [by apply Hnum|]. rewrite En, Z.eqb_refl. rewrite put_get by lia. cbn [obind]. rewrite (at_get _ _ _ Hs). cbn [obind].
    rewrite put_get by done. cbn [obind]. split; [done|]. cbn [plabels ptargets packed remap]. split_and!; [done|done|apply length_insert|].
    exists [t]. split_and!.
    + split; cbn [next_state remap]; [done|rewrite zlen_app, Hnext; done|by rewrite zlen_insert|].
      intros x Hx. rewrite get_put by lia. rewrite number_snoc by done. rewrite Hnext. case_decide; [done|]. by apply Hnum.
    + right. split; [done|]. cbn [packed]. rewrite Hnext. unfold zlen in *. rewrite Nat2Z.id.
      rewrite list_lookup_insert_eq by lia. done.
    + intros i Hi. cbn [packed]. apply list_lookup_insert_ne. rewrite Hnext. unfold zlen. lia.
    + exists (zlen order). cbn [remap]. rewrite get_put by lia. rewrite decide_True by done. rewrite Hnext. split; [done|].
      apply get_app_mid.
Qed.

Lemma pack_edges_spec cells : ∀ order p,
  front order limit p → Forall P order → zlen (packed p) = room →
  (∀ c, c ∈ cells → at_ (E:=E) (label a) c = Ok (edge_at a c).1 ∧ at_ (E:=E) (target a) c = Ok (edge_at a c).2 ∧ P (edge_at a c).2) →
  ∃ p' new cur, pack_edges (E:=E) a cells p = Ok p' ∧ packs_edges order (map (edge_at a) cells) p p' new cur.
Proof using HP Hlimit Hroom.
  induction cells as [|c cells IH]; intros order p Hfr Hf Hlen Hc; cbn [pack_edges].
  - exists p, [], []. split; [done|]. split; rewrite ?app_nil_r; try done.
    { constructor. }
    intros i x Hi Hle. apply lookup_lt_Some in Hi. lia.
  - destruct (Hc c ltac:(by left)) as (Hlab & Htar & Ht). rewrite Htar. cbn [obind].
    destruct (number_target order p (edge_at a c).2 Hfr Hf Hlen Ht) as (r & p1 & Hr & Hstep & El & Et & Elen & new1 & Hfr1 & Hnew1 & Hold1 & k & Hk & Hok).
    rewrite (at_get _ _ _ Hr). cbn [obind]. rewrite Hstep. cbn [obind]. rewrite Hlab. cbn [obind]. rewrite (at_get _ _ _ Hk). cbn [obind].
    set (p2 := mkPacking _ _ _ _ _).
    assert (HP1 : Forall P new1) by (destruct Hnew1 as [[-> _]|[-> _]]; [constructor|by constructor]).
    destruct (IH (order ++ new1) p2) as (p' & new & cur & -> & [Hfr' Hnew Hnum Hlabs Htars Hlen' Hold Htodo]).
    + by destruct Hfr1.
    + by apply Forall_app.
    + unfold zlen in *. by rewrite <- Hlen, <- Elen.
    + intros d Hd. apply Hc. by right.
    + exists p', (new1 ++ new), (((edge_at a c).1, k) :: cur). split; [done|].
      assert (Ea : order ++ new1 ++ new = (order ++ new1) ++ new) by apply app_assoc. split; rewrite ?Ea.
      * done.
      * by apply Forall_app.
      * constructor; [|done]. split; [done|]. simpl. by apply get_Some_app.
      * rewrite Hlabs. unfold p2. cbn [plabels map fst]. by rewrite El, <- app_assoc.
      * rewrite Htars. unfold p2. cbn [ptargets map snd]. by rewrite Et, <- app_assoc.
      * by rewrite Hlen', <- Elen.
      * intros i Hi. rewrite Hold by (rewrite length_app; lia). unfold p2. cbn [packed]. by apply Hold1.
      * intros i x Hi Hle. rewrite length_app in Htodo. destruct (decide (length order + length new1 ≤ i)%nat) as [Hge|Hlt].
        -- by apply Htodo.
        -- assert (Hi' : (i < length (order ++ new1))%nat) by (rewrite length_app; lia).
           rewrite Hold by done. unfold p2. cbn [packed]. destruct Hnew1 as [[-> _]|[-> Hfirst]].
           ++ rewrite length_app in Hi'. simpl in Hi'. lia.
           ++ assert (i = length order) as -> by (rewrite length_app in Hi'; simpl in Hi'; lia).
              rewrite Hfirst. rewrite <- app_assoc, lookup_app_r, Nat.sub_diag in Hi by lia. exact Hi.
Qed.

(** ** All states *)

Context (b : DawgBuilder) (g : graph) (Hrep : Rep b g) (Ha : edges b = a).
Context (HPg : ∀ x, P x → ∃ t es, g !! x = Some (t, es) ∧ ∀ e, e ∈ es → P e.2).

Definition degree (x : Z) : Z := match g !! x with Some (_, es) => zlen es | None => 0 end.
Context (Hdegree : ∀ order, NoDup order → Forall P order → foldr Z.add 0 (map degree order) ≤ NONE).

Fixpoint flat_states (first : Z) (A : list node) : list PackedState :=
  match A with
  | [] => []
  | n :: A => PackedState_new first (zlen n.2) n.1 :: flat_states (first + zlen n.2) A
  end.

Definition flat_labels (A : list node) : list Z := concat (map (λ n, map fst n.2) A).
Definition flat_targets (A : list node) : list Z := concat (map (λ n, map snd n.2) A).

Lemma flat_labels_app A B : flat_labels (A ++ B) = flat_labels A ++ flat_labels B.
Proof using. unfold flat_labels. by rewrite map_app, concat_app. Qed.

Lemma flat_targets_app A B : flat_targets (A ++ B) = flat_targets A ++ flat_targets B.
Proof using. unfold flat_targets. by rewrite map_app, concat_app. Qed.

Lemma flat_states_app A : ∀ first B, flat_states first (A ++ B) = flat_states first A ++ flat_states (first + zlen (flat_labels A)) B.
Proof using.
  induction A as [|n A IH]; intros first B; simpl.
  - unfold flat_labels. simpl. by rewrite zlen_nil, Z.add_0_r.
  - rewrite IH. unfold flat_labels. simpl. rewrite zlen_app, zlen_map. do 2 f_equal. f_equal. lia.
Qed.

Lemma flat_states_length A : ∀ first, length (flat_states first A) = length A.
Proof using. induction A as [|n A IH]; intros first; simpl; [done|by rewrite IH]. Qed.

Record progress (order : list Z) (done : list node) (p : Packing) : Prop := {
  pr_front : front order limit p;
  pr_order : Forall P order;
  pr_room : zlen (packed p) = room;
  pr_labels : plabels p = flat_labels done;
  pr_targets : ptargets p = flat_targets done;
  pr_done : ∀ i n, done !! i = Some n → ∃ x es, order !! i = Some x ∧ g !! x = Some (n.1, es) ∧ numbered order (rev es) n.2;
  pr_states : ∀ i, (i < length done)%nat → packed p !! i = flat_states 0 done !! i;
  pr_todo : ∀ i x, order !! i = Some x → (length done ≤ i)%nat → first_edge <$> packed p !! i = Some x;
  pr_le : (length done ≤ length order)%nat
}.

(** The edges of the finished states are those of the first states found. *)
Lemma progress_labels order done p : progress order done p →
  zlen (flat_labels done) = foldr Z.add 0 (map degree (take (length done) order)).
Proof using.
  intros [_ _ _ _ _ Hdone _ _ Hle].
  assert (Hd : ∀ i n, done !! i = Some n → ∃ x, order !! i = Some x ∧ degree x = zlen n.2).
  { intros i n Hi. destruct (Hdone i n Hi) as (x & es & Hx & Hg & Hnum). exists x. split; [done|]. unfold degree. rewrite Hg.
    apply Forall2_length in Hnum. rewrite length_rev in Hnum. unfold zlen. lia. }
  clear Hdone. revert order Hd Hle. induction done as [|n done IH]; intros order Hd Hle; [done|].
  destruct order as [|x order]; [simpl in Hle; lia|]. destruct (Hd 0%nat n eq_refl) as (y & [= <-] & Hdeg).
  unfold flat_labels. simpl. rewrite zlen_app, zlen_map, Hdeg. f_equal. apply IH; [|simpl in Hle; lia].
  intros i m Hi. by apply (Hd (S i)).
Qed.

Lemma take_bound order done p : progress order done p → zlen (flat_labels done) ≤ NONE.
Proof using Hdegree.
  intros H. rewrite (progress_labels _ _ _ H). pose proof (fr_nodup _ _ _ (pr_front _ _ _ H)) as Hnd. apply Hdegree.
  - rewrite <- (take_drop (length done) order) in Hnd. by apply NoDup_app in Hnd as [? _].
  - apply Forall_take, H.
Qed.

Lemma pack_states_spec fuel : ∀ order done p,
  progress order done p → limit - zlen done < Z.of_nat fuel →
  ∃ order' done' p', pack_states (E:=E) fuel b (zlen done) p = Ok p' ∧ progress order' done' p' ∧ length done' = length order'
    ∧ ∃ new, order' = order ++ new.
Proof using HP Hlimit Hroom Hrep Ha HPg Hdegree.
  induction fuel as [|fuel IH]; intros order done p H Hf; pose proof H as [Hfr HPo Hlen Hlab Htar Hdone Hst Htodo Hle].
  { pose proof (order_limit order (fr_nodup _ _ _ Hfr) HPo) as Ho. unfold zlen in *. lia. }
  cbn [pack_states]. rewrite (fr_next _ _ _ Hfr). destruct (Z.ltb_spec (zlen done) (zlen order)) as [Hlt|Hge].
  2: { exists order, done, p. split_and!; [done|done|unfold zlen in Hge; lia|]. exists []. by rewrite app_nil_r. }
  destruct (get_is_Some order (zlen done)) as [x Hx]; [pose proof (zlen_nonneg done); lia|].
  apply get_Some_lookup in Hx as [_ Hx]. unfold zlen in Hx at 1. rewrite Nat2Z.id in Hx.
  pose proof (Htodo _ x Hx ltac:(lia)) as Hs. destruct (packed p !! length done) as [s|] eqn:Es; [|done]. injection Hs as Hs.
  pose proof (at_lookup (E:=E) _ _ _ Es) as Hat. change (Z.of_nat (length done)) with (zlen done) in Hat. rewrite Hat. cbn [obind]. rewrite Hs.
  rewrite Forall_forall in HPo. assert (HPx : P x) by (apply HPo; by eapply list_elem_of_lookup_2).
  destruct (HPg x HPx) as (t & es & Hg & HPes).
  destruct (collect_spec (E:=E) b g x t es Hrep Hg) as (bs & cells & Hbs & Ht & -> & Hcells & Hc). cbn [obind]. rewrite ?Hbs. cbn [obind].
  pose proof (put_lookup (E:=E) _ _ _ (PackedState_new (as_u32 (zlen (plabels p))) (zlen cells) (terminal bs)) Es) as Hput.
  change (Z.of_nat (length done)) with (zlen done) in Hput. rewrite Hput. cbn [obind]. clear Hat Hput.
  set (s' := PackedState_new _ _ _). set (p1 := mkPacking _ _ _ _ _).
  rewrite Ha in Hc, Hcells |- *.
  destruct (pack_edges_spec cells order p1) as (p2 & new & cur & -> & [Hfr2 HPn Hnum Hl2 Ht2 Hlen2 Hold2 Htodo2]).
  { by destruct Hfr. }
  { by apply Forall_forall. }
  { unfold p1. cbn [packed]. by rewrite zlen_insert. }
  { intros c Hin. destruct (Hc c Hin) as [H1 H2]. split_and!; [done|done|]. apply HPes. rewrite (Permutation_rev es), <- Hcells.
    by apply list_elem_of_fmap_2. }
  cbn [obind]. rewrite Hcells in Hnum.
  assert (Hcount : zlen cells = zlen cur).
  { apply Forall2_length in Hnum. rewrite <- Hcells, length_map in Hnum. unfold zlen. lia. }
  assert (H' : progress (order ++ new) (done ++ [(t, cur)]) p2).
  { split.
    - done.
    - apply Forall_app. split; [by apply Forall_forall|done].
    - unfold zlen in *. rewrite Hlen2. unfold p1. cbn [packed]. by rewrite length_insert.
    - rewrite Hl2. unfold p1. cbn [plabels]. rewrite Hlab, flat_labels_app. unfold flat_labels at 3. simpl. by rewrite app_nil_r.
    - rewrite Ht2. unfold p1. cbn [ptargets]. rewrite Htar, flat_targets_app. unfold flat_targets at 3. simpl. by rewrite app_nil_r.
    - intros i n Hi. apply lookup_app_Some in Hi as [Hi|[Hi' Hi]].
      + destruct (Hdone i n Hi) as (y & es' & Hy & Hgy & Hny). exists y, es'. split_and!; [by apply lookup_app_l_Some|done|by apply numbered_grow].
      + apply list_lookup_singleton_Some in Hi as [Hi <-]. exists x, es. assert (i = length done) as -> by lia.
        split_and!; [by apply lookup_app_l_Some|done|done].
    - intros i Hi. rewrite length_app in Hi. simpl in Hi. rewrite flat_states_app.
      assert (Hio : (i < length order)%nat) by (unfold zlen in Hlt; lia). rewrite Hold2 by done. unfold p1. cbn [packed].
      destruct (decide (i = length done)) as [->|Hne].
      + rewrite list_lookup_insert_eq by by eapply lookup_lt_Some. rewrite lookup_app_r by (rewrite flat_states_length; lia).
        rewrite flat_states_length, Nat.sub_diag. simpl. f_equal. unfold s'. rewrite Hcount, Ht, Hlab. f_equal. unfold as_u32.
        pose proof (take_bound _ _ _ H). pose proof (zlen_nonneg (flat_labels done)). apply Z.mod_small. unfold NONE, U32_MAX in *. lia.
      + rewrite list_lookup_insert_ne by done. rewrite lookup_app_l by (rewrite flat_states_length; lia). apply Hst. lia.
    - intros i y Hi Hle'. rewrite length_app in Hle'. simpl in Hle'. destruct (decide (length order ≤ i)%nat) as [Hge|Hlt'].
      + by apply Htodo2.
      + rewrite lookup_app_l in Hi by lia. rewrite Hold2 by lia. unfold p1. cbn [packed]. rewrite list_lookup_insert_ne by lia.
        apply Htodo; [done|lia].
    - rewrite !length_app. unfold zlen in Hlt. simpl. lia. }
  destruct (IH _ _ _ H') as (order' & done' & p' & Hrun & H'' & Heq & new' & Enew).
  { rewrite zlen_app. change (zlen [_]) with 1. lia. }
  rewrite zlen_app in Hrun. change (zlen [_]) with 1 in Hrun. exists order', done', p'. rewrite Hrun.
  split_and!; [done|done|done|]. exists (new ++ new'). by rewrite Enew, app_assoc.
Qed.
End pack.

(** * Counting the words of packed states *)

(** The packed states as a graph. *)
Definition graph_of (A : list node) : gmap Z node := map_seqZ 0 A.

Lemma graph_of_get A i : graph_of A !! i = get A i.
Proof.
  unfold graph_of. destruct (map_seqZ 0 A !! i) as [n|] eqn:En.
  - apply lookup_map_seqZ_Some in En as [Hi Hn]. symmetry. apply get_Some_lookup. rewrite Z.sub_0_r in Hn. done.
  - symmetry. destruct (get A i) as [n|] eqn:Eg; [|done]. apply get_Some_lookup in Eg as [Hi Hn].
    assert ((map_seqZ 0 A : gmap Z node) !! i = Some n); [|congruence]. apply lookup_map_seqZ_Some. by rewrite Z.sub_0_r.
Qed.

(** ** Reading the arrays *)

Lemma testbit_small x n : 0 ≤ x < 2 ^ n → 0 ≤ n → Z.testbit x n = false.
Proof. intros Hx Hn. apply Z.testbit_false; [done|]. by rewrite Z.div_small. Qed.

Lemma packed_parts first n t : 0 ≤ n < 2 ^ 31 →
  edge_count (PackedState_new first n t) = n ∧ packed_terminal (PackedState_new first n t) = t.
Proof.
  intros Hn. unfold PackedState_new, edge_count, packed_terminal, as_u32. cbn [edge_count_and_terminal].
  rewrite Z.mod_small by lia. unfold EDGE_COUNT_MASK, TERMINAL_BIT. split.
  - rewrite (land_ones_mod _ 31) by done. destruct t; [|rewrite Z.lor_0_r; by apply Z.mod_small].
    rewrite <- (Z.land_ones _ 31) by done. rewrite Z.land_lor_distr_l. rewrite !Z.land_ones by done.
    rewrite Z.mod_small by done. rewrite Z.mod_same by done. apply Z.lor_0_r.
  - destruct t.
    + rewrite Z.land_lor_distr_l, Z.land_diag. rewrite (proj2 (Z.eqb_neq _ _)); [done|]. intros E.
      apply Z.lor_eq_0_iff in E as [_ E]. done.
    + rewrite Z.lor_0_r. apply negb_false_iff, Z.eqb_eq. apply Z.bits_inj'. intros k Hk. rewrite Z.bits_0, Z.land_spec.
      rewrite Z.pow2_bits_eqb by done. destruct (Z.eqb_spec 31 k) as [<-|?]; [|apply andb_false_r].
      rewrite testbit_small by lia. done.
Qed.

Definition small (A : list node) : Prop := ∀ i n, A !! i = Some n → zlen n.2 < 2 ^ 31.

Lemma flat_get {E} A i n : small A → A !! i = Some n →
  ∃ s, get (flat_states 0 A) (Z.of_nat i) = Some s ∧ targets_of (E:=E) (flat_targets A) s = Ok (map snd n.2)
    ∧ packed_terminal s = n.1 ∧ edge_count s = zlen n.2
    ∧ get_range (flat_labels A) (first_edge s) (first_edge s + edge_count s) = Some (map fst n.2).
Proof.
  intros Hsm Hi. pose proof (Hsm i n Hi) as Hn. pose proof (zlen_nonneg n.2) as Hn0.
  apply list_elem_of_split_length in Hi as (A1 & A2 & -> & ->). rewrite flat_states_app. simpl.
  destruct (packed_parts (0 + zlen (flat_labels A1)) (zlen n.2) n.1 (conj Hn0 Hn)) as [Ec Et].
  eexists. split; [|split; [|split; [exact Et|split; [exact Ec|]]]].
  - rewrite <- (flat_states_length A1 0). apply get_app_mid.
  - unfold targets_of. rewrite Ec. cbn [first_edge PackedState_new].
    assert (zlen (flat_labels A1) = zlen (flat_targets A1)) as Elen.
    { clear. induction A1 as [|m A1 IH]; [done|]. unfold flat_labels, flat_targets in *. simpl. rewrite !zlen_app, !zlen_map. lia. }
    rewrite Z.add_0_l, Elen, flat_targets_app. unfold flat_targets at 2. simpl.
    pose proof (get_range_app (flat_targets A1) (map snd n.2) (flat_targets A2)) as Hr. rewrite zlen_map in Hr.
    unfold flat_targets at 2 in Hr. by rewrite Hr.
  - rewrite Ec. cbn [first_edge PackedState_new]. rewrite Z.add_0_l, flat_labels_app. unfold flat_labels at 2. simpl.
    pose proof (get_range_app (flat_labels A1) (map fst n.2) (flat_labels A2)) as Hr. rewrite zlen_map in Hr.
    exact Hr.
Qed.

(** ** The visit in depth *)

Section counts.
Context {E : Type} (A : list node) (ht : Z → nat) (Hr : ranked (graph_of A) ht) (Hc : closed (graph_of A)) (Hsm : small A).

Definition count_of (x : Z) : Z := zlen (words (S (ht x)) (graph_of A) x).
Context (Hmax : ∀ x, is_Some (graph_of A !! x) → count_of x < NONE).

Lemma count_of_eq x (t : bool) (es : list (Z * Z)) : graph_of A !! x = Some (t, es) →
  count_of x = (if t then 1 else 0) + foldr Z.add 0 (map (λ e, count_of e.2) es).
Proof using Hr.
  intros Hx. unfold count_of at 1. rewrite (words_eq _ ht Hr (S (ht x)) x _ Hx) by lia. unfold word_list. cbn [fst snd].
  rewrite zlen_app. f_equal; [by destruct t|].
  assert (Hlt : ∀ e, e ∈ es → (ht e.2 < S (ht x))%nat) by (intros e He; pose proof (Hr x t es e Hx He); lia).
  clear Hx. revert Hlt. generalize (S (ht x)). intros h Hlt.
  induction es as [|e es IH]; [done|]. simpl. rewrite zlen_app, zlen_map. f_equal.
  - unfold count_of. f_equal. apply (words_fuel _ ht Hr); [apply Hlt; by left|lia].
  - apply IH. intros e' He'. apply Hlt. by right.
Qed.

Definition counts_ok (cs : list Z) : Prop :=
  length cs = length A ∧ (∀ i v, cs !! i = Some v → v = NONE ∨ v = count_of (Z.of_nat i))
  ∧ ∀ i v t es e, cs !! i = Some v → v ≠ NONE → A !! i = Some (t, es) → e ∈ es → ∃ w, get cs e.2 = Some w ∧ w ≠ NONE.

Definition grows (cs cs' : list Z) : Prop := ∀ i v, cs !! i = Some v → v ≠ NONE → cs' !! i = Some v.

(** What the states without a count may still cost. *)
Fixpoint cost (A : list node) (cs : list Z) : nat :=
  match A, cs with
  | n :: A, c :: cs => ((if (c =? NONE)%Z then S (length n.2) else 0) + cost A cs)%nat
  | _, _ => 0%nat
  end.

Lemma cost_insert B : ∀ cs i n v, B !! i = Some n → cs !! i = Some NONE → v ≠ NONE →
  cost B cs = (S (length n.2) + cost B (<[i := v]> cs))%nat.
Proof using.
  clear. induction B as [|m B IH]; intros [|c cs] [|i] n v; simpl; try done.
  - intros [= ->] [= ->] Hv. by rewrite Z.eqb_refl, (proj2 (Z.eqb_neq _ _)) by done.
  - intros Hi Hcs Hv. rewrite (IH cs i n v Hi Hcs Hv). lia.
Qed.

Lemma push_spec cs ts : (∀ t, t ∈ ts → 0 ≤ t < zlen cs) →
  ∃ l, (∀ stack, push_uncounted (E:=E) cs ts stack = Ok (map (λ t, (t, false)) l ++ stack)) ∧ (length l ≤ length ts)%nat ∧ (∀ t, t ∈ l → t ∈ ts)
    ∧ ∀ t, t ∈ ts → t ∈ l ∨ ∃ v, get cs t = Some v ∧ v ≠ NONE.
Proof using.
  clear. induction ts as [|t ts IH]; intros Ht; cbn [push_uncounted].
  - exists []. split_and!; [done|done|done|]. by intros t ?%elem_of_nil.
  - destruct (get_is_Some cs t) as [c Hcs]; [apply Ht; by left|].
    destruct IH as (l & Hrun & Hl & Hsub & Hall); [intros u Hu; apply Ht; by right|].
    destruct (Z.eqb_spec c NONE) as [->|Hne].
    + exists (l ++ [t]). split_and!.
      * intros stack. rewrite (at_get _ _ _ Hcs). cbn [obind]. rewrite Z.eqb_refl, Hrun, map_app, <- app_assoc. done.
      * rewrite length_app. simpl. lia.
      * intros u [Hu|Hu%list_elem_of_singleton]%elem_of_app; [right; auto|subst; by left].
      * intros u [->|Hu]%elem_of_cons; [left; apply elem_of_app; right; by left|].
        destruct (Hall u Hu) as [?|?]; [left; apply elem_of_app; by left|by right].
    + exists l. split_and!; [|simpl; lia|intros u Hu; right; auto|].
      * intros stack. rewrite (at_get _ _ _ Hcs). cbn [obind]. by rewrite (proj2 (Z.eqb_neq _ _)), Hrun.
      * intros u [->|Hu]%elem_of_cons; [right; by exists c|auto].
Qed.

Lemma sum_spec cs (es : list (Z * Z)) : ∀ acc, (∀ e, e ∈ es → get cs e.2 = Some (count_of e.2)) → 0 ≤ acc →
  acc + foldr Z.add 0 (map (λ e, count_of e.2) es) ≤ U64_MAX →
  sum_counts (E:=E) cs (map snd es) acc = Ok (acc + foldr Z.add 0 (map (λ e, count_of e.2) es)).
Proof using.
  clear. induction es as [|e es IH]; intros acc Hcs H0 Hle; cbn [map sum_counts foldr] in *; [by rewrite Z.add_0_r|].
  rewrite (at_get _ _ _ (Hcs e ltac:(by left))). cbn [obind].
  assert (0 ≤ foldr Z.add 0 (map (λ e, count_of e.2) es)).
  { clear. induction es as [|e es IH]; simpl; [done|]. pose proof (zlen_nonneg (words (S (ht e.2)) (graph_of A) e.2)).
    unfold count_of at 1. lia. }
  pose proof (zlen_nonneg (words (S (ht e.2)) (graph_of A) e.2)) as Hc0. fold (count_of e.2) in Hc0.
  rewrite (proj2 (Z.ltb_ge _ _)) by lia. rewrite IH; [f_equal; lia| |lia|lia]. intros e' He'. apply Hcs. by right.
Qed.

Lemma nonneg_sum (es : list (Z * Z)) : 0 ≤ foldr Z.add 0 (map (λ e, count_of e.2) es).
Proof using.
  clear. induction es as [|e es IH]; simpl; [done|]. pose proof (zlen_nonneg (words (S (ht e.2)) (graph_of A) e.2)).
  unfold count_of at 1. lia.
Qed.

Lemma node_at x t es : graph_of A !! x = Some (t, es) →
  ∃ i, x = Z.of_nat i ∧ A !! i = Some (t, es).
Proof using. clear. rewrite graph_of_get. intros [Hx Hg]%get_Some_lookup. exists (Z.to_nat x). split; [lia|done]. Qed.

(** What a stretch of the loop does, whatever is below on the stack. *)
Definition runs (cs : list Z) (entries : list (Z * bool)) (cs' : list Z) (bound : nat) : Prop :=
  ∃ k, (∀ stack fuel, count_loop (E:=E) (k + fuel) (flat_states 0 A) (flat_targets A) cs (entries ++ stack)
      = count_loop fuel (flat_states 0 A) (flat_targets A) cs' stack)
    ∧ counts_ok cs' ∧ grows cs cs' ∧ (k + cost A cs' ≤ bound + cost A cs)%nat.

(** States that are not below keep their counts. *)
Definition keeps_above (n : nat) (cs cs' : list Z) : Prop := ∀ i, (n < ht (Z.of_nat i))%nat → cs' !! i = cs !! i.

Definition visits (x : Z) : Prop :=
  ∀ cs, counts_ok cs → ∃ cs', runs cs [(x, false)] cs' 1 ∧ keeps_above (ht x) cs cs' ∧ get cs' x = Some (count_of x).

Lemma grows_get cs cs' x v : grows cs cs' → get cs x = Some v → v ≠ NONE → get cs' x = Some v.
Proof using. clear. intros H [Hx Hg]%get_Some_lookup Hv. apply get_Some_lookup. split; [done|]. by apply H. Qed.

Lemma visit_all n l : ∀ cs, (∀ t, t ∈ l → visits t ∧ count_of t ≠ NONE ∧ (ht t < n)%nat) → counts_ok cs →
  ∃ cs', runs cs (map (λ t, (t, false)) l) cs' (length l) ∧ (∀ i, (n ≤ ht (Z.of_nat i))%nat → cs' !! i = cs !! i)
    ∧ ∀ t, t ∈ l → get cs' t = Some (count_of t).
Proof using.
  clear. induction l as [|t l IH]; intros cs Hl Hok.
  - exists cs. split; [|split; [done|by intros t ?%elem_of_nil]]. exists 0%nat. split; [done|]. split; [done|]. split; [by intros i v Hi|simpl; lia].
  - destruct (Hl t ltac:(by left)) as (Hvis & Hne & Hlt). destruct (Hvis cs Hok) as (cs1 & (k1 & Hk1 & Hok1 & Hg1 & Hc1) & Hkeep1 & Ht1).
    destruct (IH cs1 (λ u Hu, Hl u (list_elem_of_further u t l Hu)) Hok1) as (cs2 & (k2 & Hk2 & Hok2 & Hg2 & Hc2) & Hkeep2 & Hall).
    exists cs2. split; [|split].
    + exists (k1 + k2)%nat. split_and!; [|done| |simpl; lia].
      * intros stack fuel. rewrite <- Nat.add_assoc. cbn [map app]. rewrite <- (Hk2 stack fuel).
        apply (Hk1 (map (λ t, (t, false)) l ++ stack)).
      * intros i v Hi Hv. apply Hg2; [|done]. by apply Hg1.
    + intros i Hi. rewrite Hkeep2 by done. apply Hkeep1. lia.
    + intros u [->|Hu]%elem_of_cons; [by eapply grows_get|by apply Hall].
Qed.

Lemma visit_state m : ∀ x, (ht x < m)%nat → is_Some (graph_of A !! x) → visits x.
Proof using Hr Hc Hsm Hmax.
  induction m as [|m IH]; intros x Hm [[t es] Hx] cs Hok; [lia|]. pose proof Hok as (Hlen & Hval & Hkids).
  destruct (node_at x t es Hx) as (i & -> & Hi). assert (Hii : (i < length cs)%nat) by (rewrite Hlen; by eapply lookup_lt_Some).
  destruct (lookup_lt_is_Some_2 _ _ Hii) as [v Hv]. destruct (flat_get (E:=E) A i (t, es) Hsm Hi) as (s & Hs & Hts & Hterm & _).
  cbn [fst snd] in *. pose proof (Hmax (Z.of_nat i) ltac:(by eexists)) as Hcount.
  assert (Hget : ∀ (cs : list Z) v, cs !! i = Some v → get cs (Z.of_nat i) = Some v).
  { intros cs0 v0 H0. apply get_Some_lookup. rewrite Nat2Z.id. split; [lia|done]. }
  destruct (decide (v = NONE)) as [->|Hvn].
  2: { exists cs. destruct (Hval i v Hv) as [?|Heq]; [done|]. split; [|split; [done|rewrite (Hget _ _ Hv); congruence]].
       exists 1%nat. split; [|split; [done|split; [by intros j w Hj|simpl; lia]]]. intros stack fuel. cbn [Nat.add count_loop app].
       rewrite (at_lookup _ _ _ Hv). cbn [obind]. by rewrite (proj2 (Z.eqb_neq _ _)). }
  assert (Htargets : ∀ u, u ∈ map snd es → 0 ≤ u < zlen cs ∧ visits u ∧ count_of u ≠ NONE ∧ (ht u < ht (Z.of_nat i))%nat).
  { intros u Hu. apply list_elem_of_fmap in Hu as (e & -> & He). pose proof (Hc _ t es e Hx He) as Hlive. pose proof (Hr _ t es e Hx He) as Hlt.
    split; [|split; [|split]].
    - destruct Hlive as [n Hn]. rewrite graph_of_get in Hn. apply get_Some_lt in Hn. unfold zlen in *. lia.
    - apply IH; [lia|done].
    - pose proof (Hmax e.2 Hlive). lia.
    - done. }
  destruct (push_spec cs (map snd es) ltac:(intros; by apply Htargets)) as (l & Hpush & Hll & Hsub & Hall).
  rewrite length_map in Hll.
  destruct (visit_all (ht (Z.of_nat i)) l cs) as (cs1 & (k1 & Hk1 & (Hlen1 & Hval1 & Hkids1) & Hg1 & Hc1) & Hkeep1 & Hgot).
  { intros u Hu. by apply Htargets, Hsub. }
  { done. }
  assert (Hv1 : cs1 !! i = Some NONE) by (rewrite Hkeep1 by lia; done).
  assert (Hdone : ∀ e, e ∈ es → get cs1 e.2 = Some (count_of e.2)).
  { intros e He. destruct (Hall e.2) as [Hin|(w & Hw & Hwn)]; [by apply list_elem_of_fmap_2|by apply Hgot|].
    eapply grows_get; [exact Hg1| |].
    - pose proof Hw as [Hx0 Hw']%get_Some_lookup. destruct (Hval _ _ Hw') as [?|Heq]; [done|].
      rewrite Hw. f_equal. rewrite Heq. f_equal. lia.
    - by apply (Htargets e.2), list_elem_of_fmap_2. }
  assert (Hsum : sum_counts (E:=E) cs1 (map snd es) (if t then 1 else 0) = Ok (count_of (Z.of_nat i))).
  { rewrite (count_of_eq _ t es Hx). apply sum_spec.
    - done.
    - by destruct t.
    - rewrite <- (count_of_eq _ t es Hx). unfold NONE, U32_MAX, U64_MAX in *. lia. }
  exists (<[i := count_of (Z.of_nat i)]> cs1). split; [|split].
  - exists (S (k1 + 1))%nat. split; [|split; [|split]].
    + intros stack fuel. cbn [Nat.add count_loop app]. rewrite (at_lookup _ _ _ Hv). cbn [obind]. rewrite Z.eqb_refl. cbn [negb].
      rewrite (at_get _ _ _ Hs). cbn [obind]. rewrite Hts. cbn [obind]. rewrite Hpush. cbn [obind].
      rewrite <- Nat.add_assoc, Hk1. cbn [Nat.add count_loop].
      rewrite (at_lookup _ _ _ Hv1). cbn [obind]. rewrite Z.eqb_refl. cbn [negb]. rewrite (at_get _ _ _ Hs). cbn [obind]. rewrite Hts.
      cbn [obind]. rewrite Hterm, Hsum. cbn [obind]. rewrite (put_lookup _ _ _ _ Hv1). cbn [obind]. unfold as_u32.
      rewrite Z.mod_small; [done|]. unfold count_of in *. pose proof (zlen_nonneg (words (S (ht (Z.of_nat i))) (graph_of A) (Z.of_nat i))).
      unfold NONE, U32_MAX in Hcount. lia.
    + assert (Hup : ∀ u w, get cs1 u = Some w → w ≠ NONE →
        ∃ w', get (<[i := count_of (Z.of_nat i)]> cs1) u = Some w' ∧ w' ≠ NONE).
      { intros u w Hu Hw. exists w. split; [|done]. apply get_Some_lookup in Hu as [H0 Hu]. apply get_Some_lookup. split; [done|].
        rewrite list_lookup_insert_ne; [done|]. intros E0. rewrite <- E0 in Hu. congruence. }
      split; [by rewrite length_insert|split].
      * intros j w. destruct (decide (j = i)) as [->|Hne].
        -- rewrite list_lookup_insert_eq by by eapply lookup_lt_Some. intros [= <-]. by right.
        -- rewrite list_lookup_insert_ne by done. apply Hval1.
      * intros j w tj ej e Hj Hw Hnode He. destruct (decide (j = i)) as [->|Hne].
        -- assert (ej = es) as -> by congruence. eapply Hup; [by apply Hdone|]. by apply (Htargets e.2), list_elem_of_fmap_2.
        -- rewrite list_lookup_insert_ne in Hj by done. destruct (Hkids1 j w tj ej e Hj Hw Hnode He) as (w' & Hw' & Hwn'). by eapply Hup.
    + intros j w Hj Hw. destruct (decide (j = i)) as [->|Hne]; [congruence|]. rewrite list_lookup_insert_ne by done. by apply Hg1.
    + rewrite (cost_insert A cs1 i (t, es) (count_of (Z.of_nat i)) Hi Hv1) in Hc1 by lia. cbn [snd] in Hc1. lia.
  - intros j Hj. rewrite list_lookup_insert_ne by (intros ->; lia). apply Hkeep1. lia.
  - apply Hget, list_lookup_insert_eq. by eapply lookup_lt_Some.
Qed.

Lemma term_counts_spec : is_Some (graph_of A !! 0) →
  ∃ cs, term_counts (E:=E) (flat_states 0 A) (flat_targets A) = Ok cs ∧ get cs 0 = Some (count_of 0)
    ∧ ∀ w x, walk (graph_of A) 0 w = Some x → get cs x = Some (count_of x).
Proof using Hr Hc Hsm Hmax.
  intros H0. unfold term_counts. rewrite flat_states_length.
  assert (Hok : counts_ok (replicate (length A) NONE)).
  { split; [apply length_replicate|split]; [intros i v [-> _]%lookup_replicate; by left|]. by intros i v t es e [-> _]%lookup_replicate. }
  destruct (visit_state (S (ht 0)) 0 (le_n _) H0 _ Hok) as (cs & (k & Hk & Hok' & _ & Hcost) & _ & Hget).
  assert (Hbound : ∀ B, cost B (replicate (length B) NONE) = (length B + length (flat_targets B))%nat).
  { clear. induction B as [|n B IH]; [done|]. cbn [length replicate cost]. rewrite Z.eqb_refl, IH. unfold flat_targets. simpl.
    rewrite length_app, length_map. lia. }
  rewrite Hbound in Hcost. exists cs. split; [|split; [done|]].
  2: { pose proof (Hmax 0 H0) as Hm0. destruct Hok' as (Hlen & Hval & Hkids).
       intros w. induction w as [|l w IH] using rev_ind; intros x; [by intros [= <-]|]. rewrite walk_app. cbn [walk].
       destruct (walk (graph_of A) 0 w) as [y|] eqn:Ey; [|done]. destruct (graph_of A !! y) as [[t es]|] eqn:Hy; [|done].
       destruct (follow es l) as [z|] eqn:Ef; [|done]. intros [= ->]. apply follow_elem in Ef.
       pose proof (Hmax y ltac:(by eexists)) as Hmy. destruct (node_at y t es Hy) as (i & -> & Hi).
       specialize (IH _ eq_refl). apply get_Some_lookup in IH as [_ IH]. rewrite Nat2Z.id in IH.
       destruct (Hkids i _ t es (l, x) IH ltac:(lia) Hi Ef) as (v & Hv & Hvn). cbn [snd] in Hv. rewrite Hv.
       apply get_Some_lookup in Hv as [Hx0 Hv]. destruct (Hval _ _ Hv) as [?|Heq]; [done|]. rewrite Heq. do 2 f_equal. lia. }
  replace (S (S (length A + length (flat_targets A)))) with (k + S (S (length A + length (flat_targets A)) - k))%nat by lia.
  rewrite (Hk [] _). done.
Qed.
End counts.
