(* ===== verification/DawgRank.v ===== *)
(** * The packed automaton gives every word its rank

    Packing the automaton of a sorted list of words gives arrays in which
    following a word and adding the outputs of the edges yields the position
    of the word in the list. *)

From stdpp Require Import sorting.
From S2P Require Import Prelude FilterTable FilterTableSpec Dawg DawgRep DawgReg DawgPath DawgBuild DawgWords DawgPack.

#[local] Open Scope Z_scope.
#[local] Open Scope outcome_scope.

Notation node := (bool * list (Z * Z))%type (only parsing).
Notation graph := (gmap Z (bool * list (Z * Z))) (only parsing).

(** ** Outputs *)

Fixpoint prefix_sums (n : Z → Z) (acc : Z) (es : list (Z * Z)) : list Z :=
  match es with
  | [] => []
  | e :: es => acc :: prefix_sums n (acc + n e.2) es
  end.

Definition flat_outputs (n : Z → Z) (A : list node) : list Z :=
  concat (map (λ m : node, prefix_sums n (if m.1 then 1 else 0) m.2) A).

Lemma outputs_spec {E} n cs (es : list (Z * Z)) : ∀ acc, (∀ e, e ∈ es → get cs e.2 = Some (n e.2) ∧ 0 ≤ n e.2) →
  acc + foldr Z.add 0 (map (λ e, n e.2) es) ≤ U32_MAX →
  outputs_of (E:=E) cs (map snd es) acc = Ok (prefix_sums n acc es).
Proof.
  induction es as [|e es IH]; intros acc Hcs Hle; [done|]. cbn [map outputs_of prefix_sums foldr] in *.
  destruct (Hcs e ltac:(by left)) as [Hc H0]. rewrite (at_get _ _ _ Hc). cbn [obind].
  assert (0 ≤ foldr Z.add 0 (map (λ e, n e.2) es)).
  { clear -Hcs. induction es as [|e' es IH]; simpl; [done|]. destruct (Hcs e' ltac:(right; by left)).
    assert (0 ≤ foldr Z.add 0 (map (λ e, n e.2) es)); [|lia]. apply IH. intros x [->|Hx]%elem_of_cons; apply Hcs; [by left|right; by right]. }
  rewrite (proj2 (Z.ltb_ge _ _)) by lia. rewrite IH; [done| |lia]. intros e' He'. apply Hcs. by right.
Qed.

Lemma edge_outputs_spec {E} n cs A : small A →
  (∀ i (m : node) e, A !! i = Some m → e ∈ m.2 → get cs e.2 = Some (n e.2) ∧ 0 ≤ n e.2) →
  (∀ i (m : node), A !! i = Some m → (if m.1 then 1 else 0) + foldr Z.add 0 (map (λ e, n e.2) m.2) ≤ U32_MAX) →
  edge_outputs_of (E:=E) cs (flat_targets A) (flat_states 0 A) = Ok (flat_outputs n A).
Proof.
  intros Hsm Hcs Hle. assert (Hgen : ∀ B A1, A = A1 ++ B →
    edge_outputs_of (E:=E) cs (flat_targets A) (flat_states (zlen (flat_labels A1)) B) = Ok (flat_outputs n B)).
  2: { by apply (Hgen A []). }
  induction B as [|m B IH]; intros A1 EA; [done|]. cbn [flat_states edge_outputs_of].
  assert (Hi : A !! length A1 = Some m) by (rewrite EA, lookup_app_r, Nat.sub_diag by lia; done).
  destruct (flat_get (E:=E) A (length A1) m Hsm Hi) as (s & Hs & Hts & Ht & _).
  assert (s = PackedState_new (zlen (flat_labels A1)) (zlen m.2) m.1) as ->.
  { apply get_Some_lookup in Hs as [_ Hs]. rewrite Nat2Z.id, EA, flat_states_app, lookup_app_r in Hs by (rewrite flat_states_length; lia).
    rewrite flat_states_length, Nat.sub_diag in Hs. simpl in Hs. by injection Hs as <-. }
  rewrite Hts. cbn [obind]. rewrite Ht. rewrite (outputs_spec n cs m.2); [|intros e He; by eapply Hcs|by eapply Hle]. cbn [obind].
  specialize (IH (A1 ++ [m])). rewrite flat_labels_app, zlen_app in IH.
  replace (zlen (flat_labels [m])) with (zlen m.2) in IH by (unfold flat_labels; simpl; by rewrite app_nil_r, zlen_map).
  rewrite IH by (by rewrite <- app_assoc). done.
Qed.

(** ** Words that pass through a state *)

Section language.
Context (g : graph) (ht : Z → nat) (Hr : ranked g ht) (Hi : rising g) (ws : list (list Z)).
Context (Hacc : ∀ w, accepts g 0 w = bool_decide (w ∈ ws)).

(** A state has no more words than the root. *)
Lemma words_bound v x h : walk g 0 v = Some x → (ht x < h)%nat → zlen (words h g x) ≤ zlen ws.
Proof using Hr Hi Hacc.
  intros Hv Hh. unfold zlen. apply inj_le. rewrite <- (length_map (app v)). apply submseteq_length, NoDup_submseteq.
  - apply NoDup_fmap; [|apply lex_NoDup, words_sorted, Hi]. intros w1 w2. by apply app_inv_head.
  - intros w (u & -> & Hu)%list_elem_of_fmap. apply (words_accepts g ht Hr Hi h x u Hh) in Hu.
    assert (accepts g 0 (v ++ u) = true) as Ha by (unfold accepts in *; by rewrite walk_app, Hv).
    rewrite Hacc in Ha. by apply bool_decide_eq_true in Ha.
Qed.

Lemma words_root h : (ht 0 < h)%nat → StronglySorted (λ a b, lex_lt a b = true) ws → words h g 0 = ws.
Proof using Hr Hi Hacc.
  intros Hh Hs. apply lex_unique; [by apply words_sorted|done|]. intros w. rewrite (words_accepts g ht Hr Hi h 0 w Hh), Hacc.
  apply bool_decide_eq_true.
Qed.
End language.

(** ** Packing the finished automaton *)

Section finished.
Context (b : DawgBuilder) (g : graph) (F : list Z) (ws : list (list Z)).
Context (Hrep : Rep b g) (Hsh : shape g F [0] []) (Hacc : ∀ w, accepts g 0 w = bool_decide (w ∈ ws)).
Context (Hsort : StronglySorted (λ a b, lex_lt a b = true) ws) (Hbytes : Forall is_bytes ws) (Hmany : zlen ws < NONE).

Definition reached (x : Z) : Prop := is_Some (g !! x) ∧ ∃ v, walk g 0 v = Some x.

Lemma root_reached : reached 0.
Proof using Hsh.
  split; [|by exists []]. destruct (sh_top _ _ _ _ Hsh) as (q & rest & t & es & [= <- <-] & Hq & _). by eexists.
Qed.

Lemma reached_edge x t es e : reached x → g !! x = Some (t, es) → e ∈ es → reached e.2 ∧ is_u8 e.1.
Proof using Hsh Hacc Hbytes.
  intros [_ [v Hv]] Hx He. destruct (shape_done _ _ Hsh) as [_ Hall]. destruct (Hall x t es Hx) as (_ & [Hs Hf] & _).
  pose proof (Hf e He) as HeF. assert (Hfo : follow es e.1 = Some e.2).
  { apply follow_unique; [by apply sorted_labels|]. by destruct e. }
  assert (Hve : walk g 0 (v ++ [e.1]) = Some e.2) by (rewrite walk_app, Hv; simpl; by rewrite Hx, Hfo).
  split.
  - split; [|by exists (v ++ [e.1])]. eapply shape_closed; [exact Hsh|exact Hx|done].
  - destruct (useful_accepts g F Hsh e.2 HeF) as [u Hu].
    assert (accepts g 0 ((v ++ [e.1]) ++ u) = true) as Ha by (unfold accepts in *; by rewrite walk_app, Hve).
    rewrite Hacc in Ha. apply bool_decide_eq_true in Ha. rewrite Forall_forall in Hbytes. pose proof (Hbytes _ Ha) as Hw. unfold is_bytes in Hw. rewrite !Forall_app in Hw.
    destruct Hw as [[_ Hw] _]. by apply Forall_cons in Hw as [Hw _].
Qed.

Lemma reached_range x : reached x → 0 ≤ x < zlen (states b).
Proof using Hrep. intros [[n Hx] _]. by apply (Rep_range _ _ _ _ Hrep Hx). Qed.

(** The states found never outnumber the live ones. *)
Lemma reached_room order : NoDup order → Forall reached order → zlen order ≤ saturating_sub (zlen (states b)) (zlen (free b)).
Proof using Hrep.
  intros Hnd Hf. destruct Hrep as (own & fs & H). pose proof (range_length (order ++ free b) (zlen (states b))) as Hr.
  rewrite length_app in Hr. pose proof (zlen_nonneg (states b)). rewrite Forall_forall in Hf.
  assert (Hlt : ∀ x, x ∈ order ++ free b → 0 ≤ x < zlen (states b)).
  { intros x [Hx|Hx]%elem_of_app; [by apply reached_range, Hf|]. apply (rb_free _ _ _ _ H) in Hx. by eapply get_Some_lt. }
  specialize (Hr ltac:(apply NoDup_app; split_and!; [done| |apply H];
    intros x Hx Hfree; apply (rb_free _ _ _ _ H) in Hfree; destruct (Hf x Hx) as [[n Hn] _];
    destruct (rep_lookup _ _ _ _ _ _ H Hn) as (s & cs & Hs & _); congruence) Hlt).
  clear Hmany. unfold saturating_sub, zlen in *. lia.
Qed.

Lemma reached_degrees order : NoDup order → Forall reached order → foldr Z.add 0 (map (degree g) order) ≤ NONE.
Proof using Hrep.
  intros Hnd Hf. destruct Hrep as (own & fs & H). pose proof (rb_arena _ _ _ _ H) as Ha.
  set (cells := λ x, default [] (own !! x)).
  assert (Hown : ∀ x, reached x → ∃ cs, own !! x = Some cs ∧ degree g x = zlen cs).
  { intros x [[n Hn] _]. destruct (rep_lookup _ _ _ _ _ _ H Hn) as (s & cs & _ & Ho & _ & ->). exists cs. split; [done|].
    unfold degree. rewrite Hn. by rewrite zlen_map. }
  assert (Hsum : foldr Z.add 0 (map (degree g) order) = zlen (concat (map cells order))).
  { clear Hnd. induction Hf as [|x order Hx Hf IH]; [done|]. simpl. rewrite zlen_app, IH. destruct (Hown x Hx) as (cs & Ho & ->).
    unfold cells at 2. by rewrite Ho. }
  assert (Hdis : NoDup (concat (map cells order)) ∧ ∀ c, c ∈ concat (map cells order) → ∃ x cs, x ∈ order ∧ own !! x = Some cs ∧ c ∈ cs).
  { clear Hsum. induction Hf as [|x order Hx Hf IH]; simpl; [split; [constructor|by intros c ?%elem_of_nil]|].
    apply NoDup_cons in Hnd as [Hni Hnd]. destruct (IH Hnd) as [IH1 IH2]. destruct (Hown x Hx) as (cs & Ho & _). unfold cells at 1 3. rewrite Ho. simpl.
    split.
    - apply NoDup_app. split_and!; [by apply (ar_own _ _ _ Ha x cs Ho)| |done]. intros c Hc Hin.
      destruct (IH2 c Hin) as (y & ds & Hy & Hds & Hcd). eapply (ar_disjoint _ _ _ Ha x y cs ds c Ho Hds); [by intros ->|done|done].
    - intros c [Hc|Hc]%elem_of_app; [by exists x, cs; split; [left|]|]. destruct (IH2 c Hc) as (y & ds & Hy & Hds & Hcd).
      exists y, ds. split; [by right|done]. }
  destruct Hdis as [Hd1 Hd2]. rewrite Hsum.
  pose proof (range_length (concat (map cells order)) (zlen (label (edges b))) Hd1) as Hr.
  specialize (Hr ltac:(intros c Hc; destruct (Hd2 c Hc) as (x & cs & _ & Ho & Hcs); by apply (ar_own _ _ _ Ha x cs Ho))).
  pose proof (ar_max _ _ _ Ha). pose proof (zlen_nonneg (label (edges b))). clear Hmany. unfold zlen in *. lia.
Qed.

(** The packed states are the reached ones. *)
Definition iso (order : list Z) (A : list node) : Prop :=
  length A = length order ∧ NoDup order ∧ order !! 0%nat = Some 0
  ∧ ∀ i n, A !! i = Some n → ∃ x es, order !! i = Some x ∧ reached x ∧ g !! x = Some (n.1, es) ∧ numbered order (rev es) n.2.

Lemma pack_arrays {E} : ∃ order A p,
  (try! ss := put (E:=E) (replicate (Z.to_nat (saturating_sub (zlen (states b)) (zlen (free b)))) (PackedState_new 0 0 false)) 0
     (mkPacked 0 (edge_count_and_terminal (PackedState_new 0 0 false))) in
   try! rm := put (replicate (length (states b)) NONE) 0 0 in
   pack_states (S (length (states b))) b 0 (mkPacking rm ss 1 [] [])) = Ok p
  ∧ iso order A ∧ take (Z.to_nat (next_state p)) (packed p) = flat_states 0 A
  ∧ plabels p = flat_labels A ∧ ptargets p = flat_targets A.
Proof using All.
  pose proof root_reached as H0. pose proof (reached_range 0 H0) as H0r. set (room := saturating_sub _ _).
  pose proof (reached_room [0] (NoDup_singleton 0) ltac:(by constructor)) as Hroom0. fold room in Hroom0. change (zlen [0]) with 1 in Hroom0.
  assert (Hmax : zlen (states b) ≤ NONE) by (destruct Hrep as (own & fs & H); apply H).
  rewrite put_get by (unfold zlen; rewrite length_replicate; lia). cbn [obind].
  rewrite put_get by (unfold zlen in *; rewrite length_replicate; lia). cbn [obind].
  set (p0 := mkPacking _ _ _ _ _).
  assert (Hpr : progress (zlen (states b)) room reached g [0] [] p0).
  { split.
    - split; [apply NoDup_singleton|done|unfold p0; cbn [remap]; rewrite zlen_insert; unfold zlen; by rewrite length_replicate|].
      intros x Hx. unfold p0. cbn [remap]. assert (Hrep0 : length (states b) = Z.to_nat (zlen (states b))) by (unfold zlen; lia).
      rewrite Hrep0, get_put by (unfold zlen; rewrite length_replicate; unfold zlen in *; lia). rewrite get_replicate by done.
      case_decide as Hd; [by subst|]. rewrite number_None; [done|]. by intros ?%list_elem_of_singleton.
    - by constructor.
    - unfold p0. cbn [packed]. rewrite zlen_insert. unfold zlen. rewrite length_replicate. lia.
    - done.
    - done.
    - done.
    - simpl. intros i Hi. lia.
    - intros i x Hi _. apply list_lookup_singleton_Some in Hi as [-> <-]. unfold p0. cbn [packed]. change (Z.to_nat 0) with 0%nat.
      rewrite list_lookup_insert_eq by (rewrite length_replicate; lia). done.
    - simpl. lia. }
  destruct (pack_states_spec (E:=E) (edges b) (zlen (states b)) room reached reached_range (conj (zlen_nonneg _) Hmax) reached_room b g Hrep eq_refl)
    with (fuel := S (length (states b))) (order := [0]) (done := [] : list node) (p := p0) as (order & A & p & Hrun & Hprog & Hlen & new & Enew).
  - intros x Hx. pose proof Hx as [[[t es] Hn] _]. exists t, es. split; [done|]. intros e He. by eapply reached_edge.
  - apply reached_degrees.
  - done.
  - change (zlen []) with 0. unfold zlen. lia.
  - change (zlen ([] : list node)) with 0 in Hrun. rewrite Hrun. exists order, A, p. split; [done|].
    pose proof Hprog as [Hfr HPo Hlenp Hlab Htar Hdone Hst _ _]. split; [|split; [|split; [done|done]]].
    + split_and!; [done|apply Hfr|by rewrite Enew|]. intros i n Hi. destruct (Hdone i n Hi) as (x & es & Hx & Hg & Hnum).
      exists x, es. split; [done|]. split; [|done]. rewrite Forall_forall in HPo. apply HPo. by eapply list_elem_of_lookup_2.
    + rewrite (fr_next _ _ _ Hfr). unfold zlen. rewrite Nat2Z.id, <- Hlen. apply list_eq. intros i.
      destruct (decide (i < length A)%nat) as [Hi|Hi].
      * rewrite lookup_take_lt by done. by apply Hst.
      * rewrite lookup_take_ge by lia. symmetry. apply lookup_ge_None_2. rewrite flat_states_length. lia.
Qed.

(** ** The packed graph *)

Lemma numbered_follow order es es' l : numbered order es es' →
  follow es l = (λ j, default 0 (get order j)) <$> follow es' l.
Proof using.
  clear. unfold follow. induction 1 as [|[x y] [x' j] es es' [Hl Ht] _ IH]; [done|]. simpl in *. subst x'.
  destruct (x =? l); [|done]. simpl. by rewrite Ht.
Qed.

Lemma numbered_labels order es es' : numbered order es es' → map fst es' = map fst es.
Proof using. clear. induction 1 as [|e e' es es' [Hl _] _ IH]; [done|]. simpl. by rewrite Hl, IH. Qed.

Lemma rising_fst (es es' : list (Z * Z)) : map fst es' = map fst es →
  StronglySorted (λ a b : Z * Z, a.1 < b.1) es → StronglySorted (λ a b : Z * Z, a.1 < b.1) es'.
Proof using.
  clear. intros Hm Hs. revert es' Hm. induction Hs as [|e es Hs IH Hf]; intros [|e' es'] Hm; try done; [constructor|].
  simpl in Hm. injection Hm as H1 H2. constructor; [by apply IH|]. apply Forall_forall. intros x Hx.
  assert (x.1 ∈ map fst es) as Hin by (rewrite <- H2; by apply list_elem_of_fmap_2). apply list_elem_of_fmap in Hin as (y & Hxy & Hy).
  rewrite Forall_forall in Hf. specialize (Hf y Hy). lia.
Qed.

Lemma rev_rising (es : list (Z * Z)) : StronglySorted (λ a b : Z * Z, b.1 < a.1) es → StronglySorted (λ a b : Z * Z, a.1 < b.1) (rev es).
Proof using.
  clear. induction 1 as [|e es Hs IH Hf]; [constructor|]. simpl. apply StronglySorted_app. split_and!; [|done|repeat constructor].
  intros x y Hx ->%list_elem_of_singleton. rewrite <- Permutation_rev in Hx. rewrite Forall_forall in Hf. by apply Hf.
Qed.

(** What the packed states are worth. *)
Record packed_ok (A : list node) (ht : Z → nat) : Prop := {
  po_small : small A;
  po_rising : rising (graph_of A);
  po_closed : closed (graph_of A);
  po_ranked : ranked (graph_of A) ht;
  po_root : is_Some (graph_of A !! 0);
  po_words : ∀ w, accepts (graph_of A) 0 w = bool_decide (w ∈ ws);
  po_reached : ∀ x, is_Some (graph_of A !! x) → ∃ v, walk (graph_of A) 0 v = Some x;
  po_labels : ∀ i n e, A !! i = Some n → e ∈ n.2 → is_u8 e.1;
  po_useful : ∀ x, is_Some (graph_of A !! x) → x ≠ 0 → ∃ w, accepts (graph_of A) x w = true;
  po_length : zlen A ≤ NONE
}.

Lemma iso_packed order A : iso order A → ∃ ht, packed_ok A ht.
Proof using All.
  intros (Hlen & Hnd & H0 & Hall). destruct (shape_done _ _ Hsh) as [[ht Hht] Hshape].
  set (φ := λ j, default 0 (get order j)).
  assert (Hnode : ∀ i n, graph_of A !! i = Some n → ∃ x es, get order i = Some x ∧ reached x ∧ g !! x = Some (n.1, es)
    ∧ numbered order (rev es) n.2 ∧ StronglySorted (λ a b : Z * Z, b.1 < a.1) es).
  { intros i n Hi. rewrite graph_of_get in Hi. apply get_Some_lookup in Hi as [Hi0 Hi]. destruct (Hall _ n Hi) as (x & es & Hx & Hre & Hg & Hnum).
    exists x, es. split; [by apply get_Some_lookup|]. split; [done|]. split; [done|]. split; [done|].
    by destruct (Hshape x n.1 es Hg) as (_ & [? _] & _). }
  assert (Hlive : ∀ j x, get order j = Some x → is_Some (graph_of A !! j)).
  { intros j x Hj. apply get_Some_lt in Hj. destruct (get_is_Some A j) as [n Hn]; [unfold zlen in *; lia|]. rewrite graph_of_get. by eexists. }
  assert (Hclosed : closed (graph_of A)).
  { intros x t es e Hx He. destruct (Hnode x _ Hx) as (y & es' & _ & _ & _ & Hnum & _). apply list_elem_of_lookup in He as [k Hk].
    destruct (Forall2_lookup_r _ _ _ _ _ Hnum Hk) as (e' & _ & [_ Ht]). by eapply Hlive. }
  assert (Hhom : ∀ x t es, graph_of A !! x = Some (t, es) → ∃ es', g !! φ x = Some (t, es') ∧ ∀ l, follow es' l = φ <$> follow es l).
  { intros x t es Hx. destruct (Hnode x _ Hx) as (y & es' & Hy & _ & Hg & Hnum & Hs). exists es'. unfold φ at 1. rewrite Hy. split; [done|].
    intros l. pose proof (numbered_follow _ _ _ l Hnum) as Hf. cbn [snd] in Hf. fold φ in Hf. rewrite <- Hf. symmetry.
    apply follow_rev. by apply sorted_labels. }
  assert (Hroot : is_Some (graph_of A !! 0)) by (apply (Hlive 0 0); by apply get_Some_lookup).
  assert (Eφ : φ 0 = 0) by (unfold φ; assert (get order 0 = Some 0) as -> by (by apply get_Some_lookup); done).
  assert (Hu8 : ∀ x n es, reached x → g !! x = Some (n, es) → ∀ e, e ∈ es → is_u8 e.1) by (intros x n es Hx Hg e He; by eapply reached_edge).
  exists (λ j, ht (φ j)). split.
  - intros i n Hi. destruct (Hall i n Hi) as (x & es & _ & Hre & Hg & Hnum). destruct (Hshape x n.1 es Hg) as (_ & [Hs _] & _).
    pose proof (range_length (map fst es) 256 (sorted_labels _ Hs)) as Hr.
    specialize (Hr ltac:(intros c Hc; apply list_elem_of_fmap in Hc as (e & -> & He); pose proof (Hu8 _ _ _ Hre Hg e He) as He8; unfold is_u8, U8_MAX in He8; lia)).
    apply Forall2_length in Hnum. rewrite length_rev in Hnum. rewrite length_map in Hr. unfold zlen. lia.
  - intros x t es Hx. destruct (Hnode x _ Hx) as (y & es' & _ & _ & _ & Hnum & Hs). eapply rising_fst; [by eapply numbered_labels|].
    by apply rev_rising.
  - done.
  - intros x t es e Hx He. destruct (Hnode x _ Hx) as (y & es' & Hy & _ & Hg & Hnum & _). unfold φ. rewrite Hy. simpl.
    apply list_elem_of_lookup in He as [k Hk]. destruct (Forall2_lookup_r _ _ _ _ _ Hnum Hk) as (e' & Hk' & [_ ->]). simpl.
    eapply Hht; [exact Hg|]. rewrite (Permutation_rev es'). by eapply list_elem_of_lookup_2.
  - done.
  - intros w. rewrite <- Hacc. destruct (walk_hom (graph_of A) g φ Hclosed Hhom w 0 Hroot) as [_ Ha]. by rewrite Eφ in Ha.
  - intros x [n Hx]. destruct (Hnode x _ Hx) as (y & es & Hy & [_ [v Hv]] & _). exists v.
    destruct (walk_hom (graph_of A) g φ Hclosed Hhom v 0 Hroot) as [Hw _]. rewrite Eφ, Hv in Hw.
    destruct (walk (graph_of A) 0 v) as [j|] eqn:Ej; [|done]. simpl in Hw. injection Hw as Hw. f_equal.
    destruct (walk_live _ _ _ _ Hclosed Hroot Ej) as [m Hm]. destruct (Hnode j m Hm) as (z & es' & Hz & _). unfold φ in Hw. rewrite Hz in Hw.
    simpl in Hw. subst z. apply get_Some_lookup in Hy as [Hx0 Hy]. apply get_Some_lookup in Hz as [Hj0 Hz].
    pose proof (NoDup_lookup _ _ _ _ Hnd Hy Hz). lia.
  - intros i n e Hi He. destruct (Hall i n Hi) as (x & es & _ & Hre & Hg & Hnum).
    assert (e.1 ∈ map fst (rev es)) as Hin by (rewrite <- (numbered_labels _ _ _ Hnum); by apply list_elem_of_fmap_2).
    apply list_elem_of_fmap in Hin as (e' & -> & He'). rewrite <- Permutation_rev in He'. by eapply Hu8.
  - intros x Hx Hx0. pose proof Hx as [n Hn]. destruct (Hnode x n Hn) as (y & es & Hy & _ & Hg & _).
    destruct (Hshape y n.1 es Hg) as ([->|HyF] & _).
    { apply get_Some_lookup in Hy as [Hx1 Hy]. pose proof (NoDup_lookup _ _ _ _ Hnd Hy H0). lia. }
    destruct (useful_accepts g F Hsh y HyF) as [w Hw]. exists w. destruct (walk_hom (graph_of A) g φ Hclosed Hhom w x Hx) as [_ Ha].
    rewrite <- Hw, <- Ha. f_equal. unfold φ. by rewrite Hy.
  - assert (Hf : Forall reached order).
    { apply Forall_forall. intros x Hx. apply list_elem_of_lookup in Hx as [i Hi]. assert (Hlt : (i < length A)%nat) by (rewrite Hlen; by eapply lookup_lt_Some).
      destruct (lookup_lt_is_Some_2 _ _ Hlt) as [n Hn]. destruct (Hall i n Hn) as (y & es & Hy & Hre & _). congruence. }
    pose proof (order_limit (zlen (states b)) reached reached_range) as Ho. destruct Hrep as (own & fs & H).
    specialize (Ho (conj (zlen_nonneg _) (rb_max _ _ _ _ H)) order Hnd Hf). pose proof (rb_max _ _ _ _ H). unfold zlen in *. lia.
Qed.

Lemma pack_spec {E} : ∃ A ht, packed_ok A ht
  ∧ pack (E:=E) 0 b = Ok (mkPackedArrays (flat_states 0 A) (flat_labels A) (flat_targets A) (flat_outputs (count_of A ht) A) (zlen ws)).
Proof using All.
  destruct (pack_arrays (E:=E)) as (order & A & p & Hrun & Hiso & Hss & Hlab & Htar). destruct (iso_packed order A Hiso) as [ht Hok].
  exists A, ht. split; [done|]. destruct Hok as [Hsm Hri Hcl Hra Hroot Hwords Hre _ _ _].
  assert (Hcount : ∀ x, is_Some (graph_of A !! x) → count_of A ht x ≤ zlen ws).
  { intros x Hx. destruct (Hre x Hx) as [v Hv]. eapply (words_bound _ ht Hra Hri ws Hwords v); [exact Hv|lia]. }
  assert (Hcount0 : count_of A ht 0 = zlen ws) by (unfold count_of; rewrite (words_root _ ht Hra Hri ws Hwords (S (ht 0))); [done|lia|done]).
  destruct (term_counts_spec (E:=E) A ht Hra Hcl Hsm) as (cs & Hcs & Hcs0 & Hcsall); [|done|].
  { intros x Hx. pose proof (Hcount x Hx). lia. }
  unfold pack. cbv zeta.
  assert (Hpack : ∀ k : Packing → outcome E Packed, (try! ss := put (E:=E) (replicate (Z.to_nat (saturating_sub (zlen (states b)) (zlen (free b)))) (PackedState_new 0 0 false)) 0
     (mkPacked 0 (edge_count_and_terminal (PackedState_new 0 0 false))) in
   try! rm := put (replicate (length (states b)) NONE) 0 0 in
   try! p := pack_states (S (length (states b))) b 0 (mkPacking rm ss 1 [] []) in k p) = k p).
  { intros k. revert Hrun. destruct (put _ 0 (mkPacked _ _)) as [ss| | |]; cbn [obind]; try done.
    destruct (put _ 0 0) as [rm| | |]; cbn [obind]; try done. by intros ->. }
  rewrite Hpack, Hss, Htar, Hlab.
  assert (flat_states 0 A ≠ []) as Hne.
  { destruct Hroot as [n Hn]. rewrite graph_of_get in Hn. destruct A; [done|]. done. }
  rewrite bool_decide_false by done. rewrite Hcs. cbn [obind].
  assert (Hlive : ∀ i m e, A !! i = Some m → e ∈ m.2 → is_Some (graph_of A !! e.2)).
  { intros i m e Hi He. eapply (Hcl (Z.of_nat i) m.1 m.2); [|done]. rewrite graph_of_get. destruct m. apply get_Some_lookup.
    rewrite Nat2Z.id. split; [lia|done]. }
  rewrite (edge_outputs_spec (count_of A ht) cs A Hsm).
  - cbn [obind]. rewrite Hcs0, Hcount0. done.
  - intros i m e Hi He. pose proof (Hlive i m e Hi He) as Hx. destruct (Hre _ Hx) as [v Hv]. split; [by eapply Hcsall|apply zlen_nonneg].
  - intros i m Hi. assert (Hx : graph_of A !! Z.of_nat i = Some (m.1, m.2)).
    { rewrite graph_of_get. destruct m. apply get_Some_lookup. rewrite Nat2Z.id. split; [lia|done]. }
    rewrite <- (count_of_eq A ht Hra _ _ _ Hx). pose proof (Hcount _ ltac:(by eexists)). unfold NONE in *. lia.
Qed.
End finished.
