(* ===== verification/Compact.v ===== *)
(** * The compact domain map ([onetdns-filter/src/compact.rs])

    A sorted table of domains becomes an automaton in flat arrays, with the
    chains of states that do not branch folded into the edge before them.
    Lookups follow a name from its end and add up the outputs of the edges: the
    sum is the position of the rule. *)

From S2P Require Import Prelude FilterTable Dawg.

#[local] Open Scope outcome_scope.

Notation bytes := (list Z) (only parsing).

(** [MAX_EDGE_TAIL]. *)
Definition MAX_EDGE_TAIL : Z := 255.

(** ** Sources *)

(** [enum SourceTable]. *)
Inductive SourceTable : Type :=
  | Empty
  | Uniform (value len : Z)
  | U8 (values : list Z)
  | U16 (values : list Z)
  | Dense (values : list Z).

(** [as u8] and [as u16]. *)
Definition as_u8 (v : Z) : Z := v mod 2 ^ 8.
Definition as_u16 (v : Z) : Z := v mod 2 ^ 16.

(** [SourceTable::from_vec]. *)
Definition from_vec (values : list Z) : SourceTable :=
  match values with
  | [] => Empty
  | value :: _ =>
      if forallb (λ c, c =? value) values then Uniform value (as_u32 (zlen values))
      else if forallb (λ c, (c =? U32_MAX) || (c <? U8_MAX)) values
        then U8 (map (λ c, if c =? U32_MAX then U8_MAX else as_u8 c) values)
      else if forallb (λ c, (c =? U32_MAX) || (c <? U16_MAX)) values
        then U16 (map (λ c, if c =? U32_MAX then U16_MAX else as_u16 c) values)
      else Dense values
  end.

(** [SourceTable::len], [is_empty] and [get]. *)
Definition SourceTable_len (s : SourceTable) : Z :=
  match s with
  | Empty => 0
  | Uniform _ len => len
  | U8 values | U16 values | Dense values => zlen values
  end.

Definition SourceTable_is_empty (s : SourceTable) : bool := SourceTable_len s =? 0.

Definition SourceTable_get (index : Z) (s : SourceTable) : option Z :=
  match s with
  | Empty => None
  | Uniform value len => if index <? len then Some value else None
  | U8 values => match get values index with Some v => Some (if v =? U8_MAX then U32_MAX else v) | None => None end
  | U16 values => match get values index with Some v => Some (if v =? U16_MAX then U32_MAX else v) | None => None end
  | Dense values => get values index
  end.

(** [collect_sources]: the loop and what is made of its result. *)
Fixpoint collect (uniform : option (Z * Z)) (dense : list Z) (sources : list Z) : option (Z * Z) * list Z :=
  match sources with
  | [] => (uniform, dense)
  | s :: sources =>
      match uniform with
      | None => collect (Some (s, 1)) dense sources
      | Some (value, count) =>
          if bool_decide (dense = []) && (value =? s) then collect (Some (value, count + 1)) dense sources
          else if bool_decide (dense = []) then collect uniform (replicate (Z.to_nat count) value ++ [s]) sources
          else collect uniform (dense ++ [s]) sources
      end
  end.

Definition collect_sources {E} (sources : list Z) : outcome E SourceTable :=
  match collect None [] sources with
  | (uniform, []) => match uniform with Some (value, len) => Ok (Uniform value (as_u32 len)) | None => Panic end
  | (_, dense) => Ok (from_vec dense)
  end.

(** ** The map *)

(** [struct CompactDomainMap]. *)
Record CompactDomainMap : Type := mkMap {
  state_edges : list Z;
  state_terminal : list Z;
  edge_labels : bytes;
  edge_targets : list Z;
  edge_outputs : list Z;
  edge_tails : list Z;
  tail_bytes : bytes;
  sources : SourceTable
}.

Definition CompactDomainMap_default : CompactDomainMap := mkMap [] [] [] [] [] [] [] Empty.

(** [state_count], [terminal], [state] and [edge_tail]. *)
Definition state_count (m : CompactDomainMap) : Z := saturating_sub (zlen (state_edges m)) 1.

Definition map_terminal (index : Z) (m : CompactDomainMap) : bool :=
  match get (state_terminal m) (index / 64) with
  | Some word => Z.testbit word (index mod 64)
  | None => false
  end.

Definition map_state (index : Z) (m : CompactDomainMap) : option PackedState :=
  match get (state_edges m) index, get (state_edges m) (index + 1) with
  | Some first, Some last =>
      match checked_sub last first with
      | Some count => Some (PackedState_new first count (map_terminal index m))
      | None => None
      end
  | _, _ => None
  end.

Definition edge_tail (edge : Z) (m : CompactDomainMap) : option bytes :=
  match get (edge_tails m) edge with
  | None => None
  | Some start =>
      if start =? 0 then Some []
      else match get (tail_bytes m) start with
           | None => None
           | Some length => get_range (tail_bytes m) (start + 1) (start + 1 + length)
           end
  end.

(** [len], [is_empty] and [source]. *)
Definition map_len (m : CompactDomainMap) : Z := SourceTable_len (sources m).
Definition map_is_empty (m : CompactDomainMap) : bool := SourceTable_is_empty (sources m).
Definition map_source (index : Z) (m : CompactDomainMap) : option Z := SourceTable_get index (sources m).

(** ** Folding chains *)

(** [usize::div_ceil]. *)
Definition div_ceil (a b : Z) : Z := (a + b - 1) / b.

(** [struct CollapsedArrays]. *)
Record CollapsedArrays : Type := mkCollapsed {
  ca_state_edges : list Z;
  ca_state_terminal : list Z;
  ca_edge_labels : list Z;
  ca_edge_targets : list Z;
  ca_edge_outputs : list Z;
  ca_edge_tails : list Z;
  ca_tail_bytes : list Z
}.

Section collapse.
Context (ss : list PackedState) (labels targets outputs : list Z).

(** The closure [passthrough]. *)
Definition passthrough {E} (index : Z) : outcome E bool :=
  if index =? 0 then Ok false
  else
    try! s := at_ ss index in
    if (edge_count s =? 1) && negb (packed_terminal s) then try! o := at_ outputs (first_edge s) in Ok (o =? 0)
    else Ok false.

Fixpoint keep_all {E} (indices : list nat) : outcome E (list bool) :=
  match indices with
  | [] => Ok []
  | i :: indices => try! p := passthrough (Z.of_nat i) in try! l := keep_all indices in Ok (negb p :: l)
  end.

(** The walk along states that are not kept. *)
Fixpoint tail_walk {E} (fuel : nat) (keep : list bool) (walk length : Z) : outcome E (Z * Z) :=
  match fuel with
  | O => NoFuel
  | S fuel =>
      try! k := at_ keep walk in
      if negb k && (length <? MAX_EDGE_TAIL) then
        try! s := at_ ss walk in
        try! next := at_ targets (first_edge s) in
        tail_walk fuel keep next (length + 1)
      else Ok (walk, length)
  end.

Definition walk_from {E} (keep : list bool) (entry : Z) : outcome E (Z * Z) := tail_walk 256 keep entry 0.

(** The states where a walk stops at its limit are kept; [pending] has its last
    element first. *)
Fixpoint mark_edges {E} (count : nat) (edge : Z) (keep : list bool) (pending : list Z) : outcome E (list bool * list Z) :=
  match count with
  | O => Ok (keep, pending)
  | S count =>
      try! entry := at_ targets edge in
      try! (walk, _) := walk_from keep entry in
      try! k := at_ keep walk in
      if (k : bool) then mark_edges count (edge + 1) keep pending
      else try! keep := put keep walk true in mark_edges count (edge + 1) keep (walk :: pending)
  end.

Fixpoint mark {E} (fuel : nat) (keep : list bool) (pending : list Z) : outcome E (list bool) :=
  match fuel with
  | O => NoFuel
  | S fuel =>
      match pending with
      | [] => Ok keep
      | index :: pending =>
          try! s := at_ ss index in
          try! (keep, pending) := mark_edges (Z.to_nat (edge_count s)) (first_edge s) keep pending in
          mark fuel keep pending
      end
  end.

Fixpoint kept_indices (index : Z) (keep : list bool) : list Z :=
  match keep with
  | [] => []
  | k :: keep => if k then index :: kept_indices (index + 1) keep else kept_indices (index + 1) keep
  end.

(** The new numbers. *)
Fixpoint new_ids (kept : Z) (keep : list bool) : list Z :=
  match keep with
  | [] => []
  | k :: keep => if k then kept :: new_ids (kept + 1) keep else NONE :: new_ids kept keep
  end.

(** The arrays while they are filled. *)
Record Emitted : Type := mkEmitted {
  c_labels : list Z;
  c_targets : list Z;
  c_outputs : list Z;
  c_tails : list Z;
  c_tail_bytes : list Z;
  tail_at : list Z
}.

(** The letters of a chain. *)
Fixpoint chain_letters {E} (length : nat) (cursor : Z) : outcome E (list Z) :=
  match length with
  | O => Ok []
  | S length =>
      try! s := at_ ss cursor in
      try! l := at_ labels (first_edge s) in
      try! next := at_ targets (first_edge s) in
      try! ls := chain_letters length next in
      Ok (l :: ls)
  end.

(** The tail of one edge: the new arrays and where the tail starts. *)
Definition emit_tail {E} (entry length : Z) (tails_bytes tail_at : list Z) : outcome E (Z * list Z * list Z) :=
  if length =? 0 then Ok (0, tails_bytes, tail_at)
  else
    try! known := at_ tail_at entry in
    if negb (known =? NONE) then Ok (known, tails_bytes, tail_at)
    else
      let start := as_u32 (zlen tails_bytes) in
      try! tail_at := put tail_at entry start in
      try! letters := chain_letters (Z.to_nat length) entry in
      Ok (start, tails_bytes ++ as_u8 length :: letters, tail_at).

Fixpoint emit_edges {E} (count : nat) (edge : Z) (keep : list bool) (ids : list Z) (e : Emitted) : outcome E Emitted :=
  match count with
  | O => Ok e
  | S count =>
      try! l := at_ labels edge in
      try! o := at_ outputs edge in
      try! entry := at_ targets edge in
      try! (walk, length) := walk_from keep entry in
      try! (start, bs, at_tail) := emit_tail entry length (c_tail_bytes e) (tail_at e) in
      try! t := at_ ids walk in
      emit_edges count (edge + 1) keep ids
        (mkEmitted (c_labels e ++ [l]) (c_targets e ++ [t]) (c_outputs e ++ [o]) (c_tails e ++ [start]) bs at_tail)
  end.

(** [terminal_bits[id / 64] |= 1 << (id % 64)]. *)
Definition set_bit {E} (id : Z) (bits : list Z) : outcome E (list Z) :=
  try! word := at_ bits (id / 64) in
  put bits (id / 64) (Z.lor word (2 ^ (id mod 64))).

Fixpoint emit_states {E} (indices : list nat) (keep : list bool) (ids edges bits : list Z) (e : Emitted) :
    outcome E (list Z * list Z * Emitted) :=
  match indices with
  | [] => Ok (edges, bits, e)
  | i :: indices =>
      try! k := at_ keep (Z.of_nat i) in
      if negb k then emit_states indices keep ids edges bits e
      else
        try! id := at_ ids (Z.of_nat i) in
        try! s := at_ ss (Z.of_nat i) in
        try! bits := (if packed_terminal s then set_bit id bits else Ok bits) in
        let edges := edges ++ [as_u32 (zlen (c_labels e))] in
        try! e := emit_edges (Z.to_nat (edge_count s)) (first_edge s) keep ids e in
        emit_states indices keep ids edges bits e
  end.

(** [collapse_chains]. *)
Definition collapse_chains {E} : outcome E CollapsedArrays :=
  try! keep := keep_all (seq 0 (length ss)) in
  try! keep := mark (S (length ss)) keep (rev (kept_indices 0 keep)) in
  let ids := new_ids 0 keep in
  let kept := zlen (kept_indices 0 keep) in
  let bits := replicate (Z.to_nat (div_ceil kept 64)) 0 in
  try! (edges, bits, e) :=
    emit_states (seq 0 (length ss)) keep ids [] bits (mkEmitted [] [] [] [] [0] (replicate (length ss) NONE)) in
  Ok (mkCollapsed (edges ++ [as_u32 (zlen (c_labels e))]) bits (c_labels e) (c_targets e) (c_outputs e) (c_tails e) (c_tail_bytes e)).
End collapse.

(** ** Building a map from a table *)

(** [reverse_cmp]: the octets are compared from the end. *)
Fixpoint octets_cmp (a b : list Z) : comparison :=
  match a, b with
  | [], [] => Eq
  | [], _ :: _ => Lt
  | _ :: _, [] => Gt
  | x :: a, y :: b => match x ?= y with Eq => octets_cmp a b | c => c end
  end.

Definition reverse_cmp (left right : bytes) : comparison := octets_cmp (rev left) (rev right).

(** [str::is_char_boundary], and [str::get] at a range. *)
Definition is_char_boundary (s : bytes) (i : Z) : bool :=
  (i =? 0) || match get s i with Some b => negb ((128 <=? b) && (b <? 192)) | None => i =? zlen s end.
Definition str_get (s : bytes) (a b : Z) : option bytes :=
  if (a <=? b) && is_char_boundary s a && is_char_boundary s b then get_range s a b else None.

(** [staging_beats_direct]; the sizes are [u64]. *)
Definition staging_beats_direct (sample_bytes sample_entries entries total_bytes : Z) : bool :=
  let estimated_builder := div_ceil (saturating_mul sample_bytes entries) (Z.max sample_entries 1) in
  let staged_input := saturating_add total_bytes (saturating_mul (saturating_add entries 1) 4) in
  staged_input <? estimated_builder.

Definition SAMPLE_ENTRIES : Z := 32 * 1024.

(** The automaton of the first keys. *)
Definition sample_automaton {E} (count : nat) (sorted : SortedDomains) : outcome E Packed :=
  try! l := keys_of (sd_text sorted) (take count (sd_entries sorted)) in
  try! sample := insert_all (map fst l) DawgBuilder_new in
  try! sample := complete sample in
  finish_completed sample.

(** [staging_reduces_peak]; a packed state has eight octets. *)
Definition staging_reduces_peak {E} (sorted : SortedDomains) (total_bytes : Z) : outcome E bool :=
  if SortedDomains_len sorted <=? SAMPLE_ENTRIES then Ok false
  else
    try! p := sample_automaton (Z.to_nat SAMPLE_ENTRIES) sorted in
    let sample_bytes := zlen (p_states p) * 8 + zlen (p_labels p) + zlen (p_targets p) * 4 + zlen (p_outputs p) * 4 in
    Ok (staging_beats_direct sample_bytes SAMPLE_ENTRIES (SortedDomains_len sorted) total_bytes).

(** The sum of the lengths of the keys. *)
Fixpoint total_len {E} (text : bytes) (es : list Entry) (total : Z) : outcome E (option Z) :=
  match es with
  | [] => Ok (Some total)
  | e :: es =>
      try! k := key_in text e in
      match checked_add total (zlen k) with None => Ok None | Some total => total_len text es total end
  end.

(** The staged input: the offsets and the text. *)
Fixpoint stage_keys (keys : list bytes) (domains : bytes) : list Z * bytes :=
  match keys with
  | [] => ([as_u32 (zlen domains)], domains)
  | k :: keys => let '(offsets, text) := stage_keys keys (domains ++ k) in (as_u32 (zlen domains) :: offsets, text)
  end.

(** [&domains.as_bytes()[start..end]]. *)
Definition slice {E} (s : bytes) (a b : Z) : outcome E bytes :=
  match get_range s a b with Some k => Ok k | None => Panic end.

Fixpoint insert_windows {E} (domains : bytes) (offsets : list Z) (b : DawgBuilder) : outcome E DawgBuilder :=
  match offsets with
  | start :: ((fin :: _) as rest) =>
      try! k := slice domains start fin in
      try! b := insert_reversed k b in
      insert_windows domains rest b
  | _ => Ok b
  end.

Fixpoint contains_windows {E} (domains : bytes) (offsets : list Z) (b : DawgBuilder) : outcome E bool :=
  match offsets with
  | start :: ((fin :: _) as rest) =>
      try! k := slice domains start fin in
      try! c := contains_reversed k b in
      if (c : bool) then contains_windows domains rest b else Ok false
  | _ => Ok true
  end.

Fixpoint contains_all {E} (keys : list bytes) (b : DawgBuilder) : outcome E bool :=
  match keys with
  | [] => Ok true
  | k :: keys => try! c := contains_reversed k b in if (c : bool) then contains_all keys b else Ok false
  end.

Section table.
Context (hasher : bytes → Z) (sort : bytes → list Entry → list Entry).

(** [rebuild_input_table]. *)
Fixpoint rebuild_windows {E} (domains : bytes) (offsets : list Z) (index : Z) (s : SourceTable) (t : DomainTable) :
    outcome E DomainTable :=
  match offsets with
  | start :: ((fin :: _) as rest) =>
      try! t := (match str_get domains start fin with
                 | None => Ok t
                 | Some key =>
                     match SourceTable_get index s with
                     | None => Ok t
                     | Some src => try! (_, t) := insert_if_absent hasher key src t in Ok t
                     end
                 end) in
      rebuild_windows domains rest (index + 1) s t
  | _ => Ok t
  end.

Definition rebuild_input_table {E} (domains : bytes) (offsets : list Z) (s : SourceTable) : outcome E DomainTable :=
  try! t := reserve hasher (saturating_sub (zlen offsets) 1) DomainTable_default in
  rebuild_windows domains offsets 0 s t.

Fixpoint insert_entries {E} (l : list (bytes * Z)) (t : DomainTable) : outcome E DomainTable :=
  match l with
  | [] => Ok t
  | (k, src) :: l => try! (_, t) := insert_if_absent hasher k src t in insert_entries l t
  end.

(** The builder with all keys; a table when it does not contain them. *)
Definition build_staged (l : list (bytes * Z)) (s : SourceTable) : outcome DomainTable DawgBuilder :=
  let '(offsets, domains) := stage_keys (map fst l) [] in
  try! b := insert_windows domains offsets DawgBuilder_new in
  try! b := complete b in
  try! c := contains_windows domains offsets b in
  if (c : bool) then Ok b else try! t := rebuild_input_table domains offsets s in Err t.

Definition build_direct (l : list (bytes * Z)) : outcome DomainTable DawgBuilder :=
  try! b := insert_all (map fst l) DawgBuilder_new in
  try! b := complete b in
  try! c := contains_all (map fst l) b in
  if (c : bool) then Ok b
  else
    try! t := reserve hasher (zlen l) DomainTable_default in
    try! t := insert_entries l t in
    Err t.

(** [CompactDomainMap::try_from_table]. *)
Definition try_from_table (t : DomainTable) : outcome DomainTable CompactDomainMap :=
  if DomainTable_is_empty t then Ok CompactDomainMap_default
  else
    try! total := total_len (text t) (List.filter alive (entries t)) 0 in
    match total with
    | None => Err t
    | Some total_bytes =>
        if (U32_MAX <? DomainTable_len t) || (U32_MAX <=? total_bytes) then Err t
        else
          let sorted := into_sorted sort t in
          try! l := SortedDomains_iter sorted in
          try! sources := collect_sources (map snd l) in
          try! stage := staging_reduces_peak sorted total_bytes in
          try! b := (if (stage : bool) then build_staged l sources else build_direct l) in
          try! p := finish_completed b in
          if negb (root_terms p =? as_u32 (SourceTable_len sources)) then Panic
          else
            try! c := collapse_chains (p_states p) (p_labels p) (p_targets p) (p_outputs p) in
            Ok (mkMap (ca_state_edges c) (ca_state_terminal c) (ca_edge_labels c) (ca_edge_targets c) (ca_edge_outputs c)
                  (ca_edge_tails c) (ca_tail_bytes c) sources)
    end.
End table.

(** ** Lookups *)

(** [struct CompactMatch]. *)
Record CompactMatch : Type := mkMatch { m_key : bytes; m_index : Z }.

(** [matched_entry]. *)
Definition matched_entry (rank : Z) (key : bytes) (m : CompactDomainMap) : option CompactMatch :=
  match SourceTable_get rank (sources m) with Some _ => Some (mkMatch key rank) | None => None end.

(** The octet that comes after [eaten] octets from the end. *)
Definition octet_before (bs : bytes) (eaten : Z) : option Z :=
  match checked_sub (zlen bs) (eaten + 1) with Some i => get bs i | None => None end.

(** [Iterator::position]. *)
Fixpoint position (label : Z) (labels : list Z) : option Z :=
  match labels with
  | [] => None
  | l :: labels => if l =? label then Some 0 else match position label labels with Some i => Some (i + 1) | None => None end
  end.

Fixpoint eat_tail (bs : bytes) (tail : list Z) (eaten : Z) : option Z :=
  match tail with
  | [] => Some eaten
  | expected :: tail =>
      match octet_before bs eaten with
      | Some b => if b =? expected then eat_tail bs tail (eaten + 1) else None
      | None => None
      end
  end.

Section lookup.
(** [slice::binary_search] of the standard library. *)
Context (binary_search : list Z → Z → option Z) (m : CompactDomainMap).

Definition label_position (label : Z) (labels : list Z) : option Z :=
  match labels with
  | [] => None
  | [l] => if l =? label then Some 0 else None
  | _ => if zlen labels <=? 8 then position label labels else binary_search labels label
  end.

(** The edge by which [step] leaves a state, and the octets eaten after it. *)
Definition step_edge (state_index : Z) (bs : bytes) (eaten : Z) : option (Z * Z) :=
  match get (state_edges m) state_index, get (state_edges m) (state_index + 1) with
  | Some first, Some fin =>
      match get_range (edge_labels m) first fin, octet_before bs eaten with
      | Some labels, Some label =>
          match label_position label labels with
          | Some pos =>
              match edge_tail (first + pos) m with
              | Some tail =>
                  match eat_tail bs tail (eaten + 1) with Some eaten => Some (first + pos, eaten) | None => None end
              | None => None
              end
          | None => None
          end
      | _, _ => None
      end
  | _, _ => None
  end.

(** [CompactDomainMap::step]: the next state, the rank and the octets eaten. *)
Definition step {E} (state_index rank : Z) (bs : bytes) (eaten : Z) : outcome E (option (Z * Z * Z)) :=
  match step_edge state_index bs eaten with
  | None => Ok None
  | Some (edge, eaten) =>
      match get (edge_outputs m) edge with
      | None => Ok None
      | Some output =>
          if U32_MAX <? rank + output then Panic
          else
            match get (edge_targets m) edge with
            | None => Ok None
            | Some target => Ok (Some (target, rank + output, eaten))
            end
      end
  end.

(** [CompactDomainMap::lookup_exact]. *)
Fixpoint exact_loop {E} (fuel : nat) (bs : bytes) (state rank eaten : Z) : outcome E (option (Z * Z)) :=
  match fuel with
  | O => NoFuel
  | S fuel =>
      if eaten <? zlen bs then
        try! next := step state rank bs eaten in
        match next with
        | None => Ok None
        | Some (state, rank, eaten) => exact_loop fuel bs state rank eaten
        end
      else Ok (Some (state, rank))
  end.

Definition lookup_exact {E} (domain : bytes) : outcome E (option CompactMatch) :=
  if state_count m =? 0 then Ok None
  else
    try! r := exact_loop (S (length domain)) domain 0 0 0 in
    match r with
    | None => Ok None
    | Some (state, rank) => if map_terminal state m then Ok (matched_entry rank domain m) else Ok None
    end.

(** [CompactDomainMap::lookup_suffix]. *)
Fixpoint suffix_loop {E} (fuel : nat) (bs : bytes) (state rank consumed : Z) (matched : option (Z * Z)) :
    outcome E (option (Z * Z)) :=
  match fuel with
  | O => NoFuel
  | S fuel =>
      if consumed <? zlen bs then
        try! next := step state rank bs consumed in
        match next with
        | None => Ok matched
        | Some (state, rank, consumed) =>
            if zlen bs <? consumed then Panic
            else
              let remaining := zlen bs - consumed in
              try! label_boundary := (if remaining =? 0 then Ok true
                                      else try! b := at_ bs (remaining - 1) in Ok (b =? 46)) in
              suffix_loop fuel bs state rank consumed
                (if (label_boundary : bool) && map_terminal state m then Some (rank, remaining) else matched)
        end
      else Ok matched
  end.

Definition lookup_suffix {E} (domain : bytes) : outcome E (option CompactMatch) :=
  if state_count m =? 0 then Ok None
  else
    try! matched := suffix_loop (S (length domain)) domain 0 0 0 None in
    match matched with
    | None => Ok None
    | Some (rank, start) =>
        match str_get domain start (zlen domain) with
        | None => Ok None
        | Some key => Ok (matched_entry rank key m)
        end
    end.
End lookup.
