(* ===== verification/CompactChains.v ===== *)
(** * Which states the compact map keeps

    A state is passed through when it is not the root, no word ends there and
    it has one edge.  The marking keeps the others, and some of these so that
    every chain of states that are not kept ends within 255 letters.

    For every state that is kept: where its edges start, whether a word ends
    there, and for every edge the first letter, the letters after it, the
    output and the number of the next state that is kept. *)

From S2P Require Import Prelude FilterTable FilterTableSpec Dawg DawgRep DawgReg DawgPath DawgBuild DawgWords DawgPack DawgRank Compact.

#[local] Open Scope outcome_scope.

Notation node := (bool * list (Z * Z))%type (only parsing).

(** ** The arrays of the packed states *)

Lemma concat_get {B} (f : node → list B) A i m j : get A i = Some m → 0 ≤ j < zlen (f m) →
  get (concat (map f A)) (zlen (concat (map f (take (Z.to_nat i) A))) + j) = get (f m) j.
Proof.
  intros [Hi Hm]%get_Some_lookup Hj. apply list_elem_of_split_length in Hm as (A1 & A2 & -> & Hl).
  rewrite Hl, take_app_length. rewrite map_app, concat_app, get_app_shift by lia. cbn [map concat]. apply get_app_l. lia.
Qed.

Lemma prefix_sums_length n acc es : zlen (prefix_sums n acc es) = zlen es.
Proof. revert acc. induction es as [|e es IH]; intros acc; simpl; [done|]. by rewrite !zlen_cons, IH. Qed.

(** Where the edges of a state start. *)
Definition offset (A : list node) (i : Z) : Z := zlen (concat (map (λ m : node, m.2) (take (Z.to_nat i) A))).

(** The outputs of the edges of a state. *)
Definition outs (n : Z → Z) (m : node) : list Z := prefix_sums n (if m.1 then 1 else 0) m.2.

Lemma concat_map_length {B} (f : node → list B) A : (∀ m : node, zlen (f m) = zlen m.2) →
  zlen (concat (map f A)) = zlen (concat (map (λ m : node, m.2) A)).
Proof. intros Hf. induction A as [|m A IH]; simpl; [done|]. by rewrite !zlen_app, Hf, IH. Qed.

Lemma packed_state A n i m : small A → get A i = Some m →
  ∃ s, get (flat_states 0 A) i = Some s ∧ first_edge s = offset A i ∧ edge_count s = zlen m.2 ∧ packed_terminal s = m.1
    ∧ ∀ j e, get m.2 j = Some e →
        get (flat_labels A) (offset A i + j) = Some e.1 ∧ get (flat_targets A) (offset A i + j) = Some e.2
        ∧ get (flat_outputs n A) (offset A i + j) = get (outs n m) j.
Proof.
  intros Hsm Hi. pose proof Hi as [Hi0 Hm]%get_Some_lookup. pose proof (Hsm _ _ Hm) as Hsz. pose proof (zlen_nonneg m.2) as H0.
  exists (PackedState_new (offset A i) (zlen m.2) m.1). destruct (packed_parts (offset A i) (zlen m.2) m.1 (conj H0 Hsz)) as [Ec Et].
  split; [|split_and!; [done|exact Ec|exact Et|]].
  - apply get_Some_lookup. split; [done|]. pose proof Hm as Hm'. apply list_elem_of_split_length in Hm' as (A1 & A2 & EA & Hl).
    unfold offset. rewrite Hl, EA, take_app_length, flat_states_app. rewrite lookup_app_r; rewrite flat_states_length; [|lia].
    rewrite Nat.sub_diag. simpl. do 2 f_equal. unfold flat_labels. apply concat_map_length. intros k. apply zlen_map.
  - intros j e Hj. pose proof (get_Some_lt _ _ _ Hj) as Hlt. unfold flat_labels, flat_targets, flat_outputs.
    assert (Eoff : ∀ B (f : node → list B), (∀ m : node, zlen (f m) = zlen m.2) →
      offset A i = zlen (concat (map f (take (Z.to_nat i) A)))) by (intros B f Hf; symmetry; by apply concat_map_length).
    split_and!.
    + rewrite (Eoff _ (λ n : node, map fst n.2)) by (intros; apply zlen_map). rewrite (concat_get _ A i m) by (rewrite ?zlen_map; done).
      apply get_Some_lookup in Hj as [Hj0 Hj]. apply get_Some_lookup. split; [done|]. change (map fst m.2) with (fst <$> m.2).
      by rewrite list_lookup_fmap, Hj.
    + rewrite (Eoff _ (λ n : node, map snd n.2)) by (intros; apply zlen_map). rewrite (concat_get _ A i m) by (rewrite ?zlen_map; done).
      apply get_Some_lookup in Hj as [Hj0 Hj]. apply get_Some_lookup. split; [done|]. change (map snd m.2) with (snd <$> m.2).
      by rewrite list_lookup_fmap, Hj.
    + rewrite (Eoff _ (outs n)) by (intros; apply prefix_sums_length). apply (concat_get (outs n)); [done|].
      unfold outs. by rewrite prefix_sums_length.
Qed.

(** ** Chains *)

Section chains.
Context (A : list node) (ht : Z → nat) (n : Z → Z).
Context (Hsm : small A) (Hc : closed (graph_of A)) (Hrk : ranked (graph_of A) ht).
Notation g := (graph_of A).
Notation ss := (flat_states 0 A).
Notation labels := (flat_labels A).
Notation targets := (flat_targets A).
Notation outputs := (flat_outputs n A).

(** States that are passed through. *)
Definition passes (x : Z) : bool :=
  match get A x with Some (false, [_]) => negb (x =? 0) | _ => false end.

Lemma passes_inv x : passes x = true → ∃ l y, get A x = Some (false, [(l, y)]) ∧ x ≠ 0.
Proof using.
  unfold passes. destruct (get A x) as [[[] [|[l y] [|]]]|]; try done. intros H. bool_prop. by exists l, y.
Qed.

Lemma ss_length : length ss = length A.
Proof using. apply flat_states_length. Qed.

Lemma edge_live x m e : get A x = Some m → e ∈ m.2 → ∃ m', get A e.2 = Some m'.
Proof using Hc.
  intros Hx He. destruct m as [t es]. rewrite <- graph_of_get in Hx. destruct (Hc x t es e Hx He) as [m' Hm]. rewrite graph_of_get in Hm.
  by exists m'.
Qed.

Lemma passthrough_spec {E} x m : get A x = Some m → passthrough (E:=E) ss outputs x = Ok (passes x).
Proof using Hsm.
  intros Hx. unfold passthrough, passes. rewrite Hx. destruct (Z.eqb_spec x 0) as [->|Hx0].
  { by destruct m as [[] [|? [|]]]. }
  destruct (packed_state A n x m Hsm Hx) as (s & Hs & Hf & Hcnt & Ht & He). rewrite (at_get _ _ _ Hs). cbn [obind]. rewrite Hcnt, Ht.
  destruct m as [t es]. cbn [fst snd] in *. destruct es as [|e [|e' es]].
  - by destruct t.
  - destruct t; [done|]. cbn [negb andb]. change (zlen [e] =? 1) with true. destruct (He 0 e eq_refl) as (_ & _ & Ho).
    rewrite Z.add_0_r in Ho. rewrite Hf, (at_get _ _ _ Ho). done.
  - rewrite (proj2 (Z.eqb_neq _ _)); [by destruct t|]. rewrite !zlen_cons. pose proof (zlen_nonneg es). lia.
Qed.

Definition keep0 : list bool := map (λ i, negb (passes (Z.of_nat i))) (seq 0 (length A)).

Lemma keep_all_spec {E} : keep_all (E:=E) ss outputs (seq 0 (length ss)) = Ok keep0.
Proof using Hsm.
  rewrite ss_length. unfold keep0. assert (H : ∀ l, (∀ i, i ∈ l → (i < length A)%nat) →
    keep_all (E:=E) ss outputs l = Ok (map (λ i, negb (passes (Z.of_nat i))) l)).
  { induction l as [|i l IH]; intros Hl; [done|]. cbn [keep_all map]. destruct (lookup_lt_is_Some_2 A i) as [m Hm]; [apply Hl; by left|].
    rewrite (passthrough_spec _ m) by (apply get_Some_lookup; rewrite Nat2Z.id; split; [lia|done]). cbn [obind].
    rewrite IH; [done|]. intros j Hj. apply Hl. by right. }
  apply H. intros i Hi. apply elem_of_seq in Hi. lia.
Qed.

(** The letters of the chain from a state and where it ends. *)
Fixpoint chase (keep : list bool) (fuel : nat) (x : Z) : list Z * Z :=
  match fuel with
  | O => ([], x)
  | S fuel =>
      match get keep x, get A x with
      | Some false, Some (_, (l, y) :: _) => (l :: (chase keep fuel y).1, (chase keep fuel y).2)
      | _, _ => ([], x)
      end
  end.

(** With the length that the map allows. *)
Definition chain_of (keep : list bool) (x : Z) : list Z * Z := chase keep (Z.to_nat MAX_EDGE_TAIL) x.

Lemma chain_of_eq keep x : chain_of keep x = chase keep (Z.to_nat MAX_EDGE_TAIL) x.
Proof using. done. Qed.

#[global] Opaque chain_of.

(** What is not kept is passed through. *)
Record covers (keep : list bool) : Prop := {
  cv_length : length keep = length A;
  cv_passes : ∀ x, get keep x = Some false → passes x = true
}.

Lemma keep0_get x b : get keep0 x = Some b → b = negb (passes x).
Proof using.
  intros [H0 H]%get_Some_lookup. unfold keep0 in H. change (map (λ i : nat, negb (passes (Z.of_nat i))) (seq 0 (length A)))
    with ((λ i : nat, negb (passes (Z.of_nat i))) <$> seq 0 (length A)) in H. apply list_lookup_fmap_Some in H as (i & -> & Hi).
  apply lookup_seq in Hi as [-> _]. do 2 f_equal. lia.
Qed.

Lemma keep0_covers : covers keep0.
Proof using.
  split; [unfold keep0; by rewrite length_map, length_seq|]. intros x H. apply keep0_get in H. by destruct (passes x).
Qed.

Lemma covers_get keep x m : covers keep → get A x = Some m → ∃ k, get keep x = Some k.
Proof using. intros [Hl _] Hx. apply get_is_Some. apply get_Some_lt in Hx. unfold zlen in *. lia. Qed.

Lemma covers_inv keep x : covers keep → get keep x = Some false → ∃ l y, get A x = Some (false, [(l, y)]) ∧ x ≠ 0.
Proof using. intros Hk Hx. by apply passes_inv, (cv_passes _ Hk). Qed.

Lemma covers_root keep m : covers keep → get A 0 = Some m → get keep 0 = Some true.
Proof using.
  intros Hk Hm. destruct (covers_get keep 0 m Hk Hm) as [[] H]; [done|]. by destruct (covers_inv _ _ Hk H) as (? & ? & _ & ?).
Qed.

(** A chain read from the arrays. *)
Lemma pass_arrays {E} x l y : get A x = Some (false, [(l, y)]) →
  ∃ s, at_ (E:=E) ss x = Ok s ∧ at_ (E:=E) targets (first_edge s) = Ok y ∧ at_ (E:=E) labels (first_edge s) = Ok l
    ∧ ∃ m, get A y = Some m.
Proof using Hsm Hc.
  intros Hx. destruct (packed_state A (λ _, 0) x _ Hsm Hx) as (s & Hs & Hf & _ & _ & He). exists s.
  destruct (He 0 (l, y) eq_refl) as (Hl & Ht & _). rewrite Z.add_0_r in Hl, Ht. rewrite Hf. split_and!; try by apply at_get.
  eapply (edge_live x _ (l, y)); [exact Hx|by left].
Qed.

Lemma chase_length keep fuel : ∀ x, zlen (chase keep fuel x).1 ≤ Z.of_nat fuel.
Proof using.
  induction fuel as [|fuel IH]; intros x; simpl; [done|].
  destruct (get keep x) as [[]|]; destruct (get A x) as [[t [|[l y] es]]|]; cbn [fst]; rewrite ?zlen_cons, ?zlen_nil; try lia.
  specialize (IH y). lia.
Qed.

Lemma chase_live keep fuel : ∀ x m, get A x = Some m → ∃ m', get A (chase keep fuel x).2 = Some m'.
Proof using Hc.
  induction fuel as [|fuel IH]; intros x m Hx; simpl; [by eexists|]. rewrite Hx.
  destruct (get keep x) as [[]|]; [by eexists| |by eexists]. destruct m as [t [|[l y] es]]; [by eexists|]. cbn [snd].
  destruct (edge_live x _ (l, y) Hx) as [m' Hy]; [by left|]. by apply (IH y m').
Qed.

Lemma tail_walk_spec {E} keep : covers keep → ∀ fuel x m len, get A x = Some m → 0 ≤ len → len + Z.of_nat fuel = MAX_EDGE_TAIL →
  tail_walk (E:=E) ss targets (S fuel) keep x len
    = Ok ((chase keep fuel x).2, len + zlen (chase keep fuel x).1).
Proof using Hsm Hc.
  intros Hk. induction fuel as [|fuel IH]; intros x m len Hx Hl Hf; destruct (covers_get keep x m Hk Hx) as [k Hkx].
  - cbn [tail_walk chase]. rewrite (at_get _ _ _ Hkx). cbn [obind fst snd]. rewrite (proj2 (Z.ltb_ge _ _)) by lia.
    rewrite andb_false_r. unfold zlen. simpl. by rewrite Z.add_0_r.
  - cbn [chase]. remember (S fuel) as fu eqn:Efu. cbn [tail_walk]. rewrite (at_get _ _ _ Hkx), Hkx, Hx. cbn [obind].
    rewrite (proj2 (Z.ltb_lt _ _)) by lia. rewrite andb_true_r. destruct k; cbn [negb].
    + cbn [fst snd]. unfold zlen. simpl. by rewrite Z.add_0_r.
    + destruct (covers_inv _ _ Hk Hkx) as (l & y & Hx' & _). assert (m = (false, [(l, y)])) as -> by congruence. cbn [fst snd].
      destruct (pass_arrays (E:=E) x l y Hx) as (s & -> & Ht & _ & m' & Hy). cbn [obind]. rewrite Ht. cbn [obind]. subst fu.
      rewrite (IH y m') by (done || lia). rewrite zlen_cons. do 2 f_equal. lia.
Qed.

Lemma walk_from_spec {E} keep x m : covers keep → get A x = Some m →
  walk_from (E:=E) ss targets keep x = Ok ((chain_of keep x).2, zlen (chain_of keep x).1).
Proof using Hsm Hc.
  intros Hk Hx. unfold walk_from. change 256%nat with (S (Z.to_nat MAX_EDGE_TAIL)). rewrite chain_of_eq.
  by rewrite (tail_walk_spec keep Hk _ x m 0 Hx).
Qed.

Lemma chain_letters_spec {E} keep : covers keep → ∀ fuel x,
  chain_letters (E:=E) ss labels targets (Z.to_nat (zlen (chase keep fuel x).1)) x = Ok (chase keep fuel x).1.
Proof using Hsm Hc.
  intros Hk. induction fuel as [|fuel IH]; intros x; simpl; [done|].
  destruct (get keep x) as [[]|] eqn:Ek; [done| |done]. destruct (covers_inv _ _ Hk Ek) as (l & y & Hx & _). rewrite Hx. cbn [fst].
  rewrite zlen_cons, Z2Nat.inj_add, Nat.add_1_r by (pose proof (zlen_nonneg (chase keep fuel y).1); lia). cbn [chain_letters].
  destruct (pass_arrays (E:=E) x l y Hx) as (s & -> & Ht & Hl & _). cbn [obind]. rewrite Hl, Ht. cbn [obind]. by rewrite IH.
Qed.

Lemma chain_live keep x m : get A x = Some m → ∃ m', get A (chain_of keep x).2 = Some m'.
Proof using Hc. rewrite chain_of_eq. apply chase_live. Qed.

Lemma chain_of_length keep x : zlen (chain_of keep x).1 ≤ MAX_EDGE_TAIL.
Proof using. rewrite chain_of_eq. apply chase_length. Qed.

Lemma chain_of_letters {E} keep x : covers keep →
  chain_letters (E:=E) ss labels targets (Z.to_nat (zlen (chain_of keep x).1)) x = Ok (chain_of keep x).1.
Proof using Hsm Hc. intros Hk. rewrite chain_of_eq. by apply chain_letters_spec. Qed.

(** ** Marking *)

Definition grows_to (keep keep' : list bool) : Prop :=
  length keep' = length keep ∧ ∀ x, get keep x = Some true → get keep' x = Some true.

Lemma grows_to_trans keep1 keep2 keep3 : grows_to keep1 keep2 → grows_to keep2 keep3 → grows_to keep1 keep3.
Proof using. intros [H1 H2] [H3 H4]. split; [lia|]. auto. Qed.

Lemma grows_covers keep keep' : covers keep → grows_to keep keep' → covers keep'.
Proof using.
  intros [Hl Hp] [Hl' Hg]. split; [lia|]. intros x Hx. apply Hp. destruct (get_is_Some keep x) as [[] Hk].
  - apply get_Some_lt in Hx. unfold zlen in *. lia.
  - apply Hg in Hk. congruence.
  - done.
Qed.

(** The chain from a state ends in a state that is kept. *)
Definition settled (keep : list bool) (x : Z) : Prop := get keep (chain_of keep x).2 = Some true.

Lemma chase_grows keep keep' : covers keep → grows_to keep keep' → ∀ fuel x,
  get keep' (chase keep fuel x).2 = Some true → get keep' (chase keep' fuel x).2 = Some true.
Proof using.
  intros Hk [Hl Hg]. induction fuel as [|fuel IH]; intros x; simpl; [done|].
  destruct (get keep x) as [[]|] eqn:Ek.
  - intros _. pose proof (Hg _ Ek) as Hx. rewrite Hx. done.
  - destruct (covers_inv _ _ Hk Ek) as (l & y & Hx & _). rewrite Hx. cbn [snd]. intros H.
    destruct (get keep' x) as [[]|] eqn:Ek'; cbn [snd]; [done|by apply IH|].
    apply get_Some_lt in Ek. destruct (get_is_Some keep' x); [unfold zlen in *; lia|congruence].
  - cbn [snd]. intros H. by rewrite H.
Qed.

Lemma chain_grows keep keep' x : covers keep → grows_to keep keep' →
  get keep' (chain_of keep x).2 = Some true → settled keep' x.
Proof using. intros Hk Hg. unfold settled. rewrite !chain_of_eq. by apply chase_grows. Qed.

Lemma settled_grows keep keep' x : covers keep → grows_to keep keep' → settled keep x → settled keep' x.
Proof using. intros Hk Hg Hs. apply (chain_grows keep keep' x Hk Hg), Hg, Hs. Qed.

Definition unkept (keep : list bool) : nat := length (List.filter negb keep).

Lemma unkept_set keep x : get keep x = Some false → S (unkept (<[Z.to_nat x := true]> keep)) = unkept keep.
Proof using.
  intros [Hx H]%get_Some_lookup. apply list_elem_of_split_length in H as (k1 & k2 & -> & ->). unfold unkept.
  rewrite insert_app_r_alt by lia. rewrite Nat.sub_diag. simpl. rewrite !List.filter_app, !length_app. simpl. lia.
Qed.

Lemma grows_set keep x : get keep x = Some false → grows_to keep (<[Z.to_nat x := true]> keep).
Proof using.
  intros Hx. split; [by rewrite length_insert|]. intros y Hy. rewrite get_put by by eapply get_Some_lt. by destruct (decide (y = x)).
Qed.

Lemma mark_edges_spec {E} (es : list (Z * Z)) : ∀ edge keep pending, covers keep →
  (∀ j e, get es j = Some e → get targets (edge + j) = Some e.2 ∧ ∃ m, get A e.2 = Some m) →
  ∃ keep' new, mark_edges (E:=E) ss targets (length es) edge keep pending = Ok (keep', new ++ pending)
    ∧ grows_to keep keep' ∧ (unkept keep' + length new = unkept keep)%nat
    ∧ (∀ e, e ∈ es → settled keep' e.2)
    ∧ (∀ x, get keep' x = Some true → get keep x = Some true ∨ x ∈ new) ∧ ∀ x, x ∈ new → get keep' x = Some true.
Proof using Hsm Hc.
  induction es as [|e es IH]; intros edge keep pending Hk He; cbn [mark_edges length].
  { exists keep, []. split_and!; [done|done|simpl; lia|by intros e ?%elem_of_nil|by left|by intros e ?%elem_of_nil]. }
  destruct (He 0 e eq_refl) as (Ht & m & Hm). rewrite Z.add_0_r in Ht. rewrite (at_get _ _ _ Ht). cbn [obind].
  rewrite (walk_from_spec (E:=E) keep e.2 m Hk Hm). cbn [obind]. set (z := (chain_of keep e.2).2).
  destruct (chain_live keep e.2 m Hm) as [mz Hz]. fold z in Hz. destruct (covers_get keep z mz Hk Hz) as [k Hkz].
  rewrite (at_get _ _ _ Hkz). cbn [obind].
  assert (He' : ∀ j e', get es j = Some e' → get targets (edge + 1 + j) = Some e'.2 ∧ ∃ m, get A e'.2 = Some m).
  { intros j e' Hj. pose proof (get_Some_lt _ _ _ Hj). replace (edge + 1 + j) with (edge + (j + 1)) by lia. apply He.
    rewrite get_cons_pos by lia. by rewrite Z.add_simpl_r. }
  destruct k.
  - destruct (IH (edge + 1) keep pending Hk He') as (keep' & new & -> & Hg & Hn & Hs & Hnew & Hin). exists keep', new.
    split_and!; [done|done|done| |done|done]. intros e' [->|He1]%elem_of_cons; [|by apply Hs]. by apply (settled_grows keep keep').
  - rewrite put_get by by eapply get_Some_lt. cbn [obind]. pose proof (grows_set keep z Hkz) as Hg1.
    pose proof (grows_covers _ _ Hk Hg1) as Hk1. set (keep1 := <[Z.to_nat z := true]> keep) in *.
    destruct (IH (edge + 1) keep1 (z :: pending) Hk1 He') as (keep' & new & -> & Hg & Hn & Hs & Hnew & Hin).
    exists keep', (new ++ [z]). rewrite <- app_assoc. split_and!; [done|by eapply grows_to_trans| | | |].
    + pose proof (unkept_set keep z Hkz) as Hu. fold keep1 in Hu. rewrite length_app. simpl. lia.
    + intros e' [->|He1]%elem_of_cons; [|by apply Hs].
      apply (settled_grows keep1 keep' _ Hk1 Hg).
      assert (Hz1 : get keep1 z = Some true).
      { unfold keep1. rewrite get_put by by eapply get_Some_lt. by rewrite decide_True. }
      by apply (chain_grows keep keep1 _ Hk Hg1).
    + intros x Hx. destruct (Hnew x Hx) as [H1|H1]; [|right; apply elem_of_app; by left].
      unfold keep1 in H1. rewrite get_put in H1 by by eapply get_Some_lt. destruct (decide (x = z)); [|by left].
      subst. right. apply elem_of_app. right. by left.
    + intros x [Hx|Hx]%elem_of_app; [by apply Hin|]. apply list_elem_of_singleton in Hx as ->. apply Hg. unfold keep1.
      rewrite get_put by by eapply get_Some_lt. by rewrite decide_True.
Qed.

Lemma mark_spec {E} fuel : ∀ keep pending, covers keep →
  (∀ x, x ∈ pending → get keep x = Some true) →
  (∀ x (m : node) (e : Z * Z), get keep x = Some true → x ∉ pending → get A x = Some m → e ∈ m.2 → settled keep e.2) →
  (unkept keep + length pending < fuel)%nat →
  ∃ keep', mark (E:=E) ss targets fuel keep pending = Ok keep' ∧ covers keep'
    ∧ ∀ x (m : node) (e : Z * Z), get keep' x = Some true → get A x = Some m → e ∈ m.2 → settled keep' e.2.
Proof using Hsm Hc.
  induction fuel as [|fuel IH]; intros keep pending Hk Hp Hs Hf; [lia|]. cbn [mark]. destruct pending as [|x pending].
  { exists keep. split_and!; [done|done|]. intros x m e Hx. apply Hs; [done|]. apply not_elem_of_nil. }
  assert (Hx : get keep x = Some true) by (apply Hp; by left). destruct (get_is_Some A x) as [m Hm].
  { apply get_Some_lt in Hx. pose proof (cv_length _ Hk). unfold zlen in *. lia. }
  destruct (packed_state A (λ _, 0) x m Hsm Hm) as (s & Hss & Hfst & Hcnt & _ & He). rewrite (at_get _ _ _ Hss). cbn [obind].
  rewrite Hcnt, Hfst. unfold zlen. rewrite Nat2Z.id.
  destruct (mark_edges_spec (E:=E) m.2 (offset A x) keep pending Hk) as (keep' & new & -> & Hg & Hn & Hset & Hnew & Hin0).
  { intros j e Hj. split; [by apply He|]. eapply edge_live; [exact Hm|]. apply get_Some_lookup in Hj as [_ Hj]. by eapply list_elem_of_lookup_2. }
  cbn [obind]. pose proof (grows_covers _ _ Hk Hg) as Hk'. apply IH; [done| | |].
  - intros y [Hy|Hy]%elem_of_app; [by apply Hin0|]. apply Hg, Hp. by right.
  - intros y my e Hy Hny Hmy Hin. rewrite not_elem_of_app in Hny. destruct Hny as [Hny1 Hny2].
    destruct (Hnew y Hy) as [Hy0|?]; [|done]. destruct (decide (y = x)) as [->|Hne].
    + apply Hset. congruence.
    + apply (settled_grows keep keep' _ Hk Hg). apply (Hs y my); [done| |done|done]. by rewrite not_elem_of_cons.
  - rewrite length_app. cbn [length] in Hf. lia.
Qed.

(** ** The numbers of the states that are kept *)

Lemma kept_elem keep : ∀ i x, x ∈ kept_indices i keep ↔ get keep (x - i) = Some true.
Proof using.
  induction keep as [|k keep IH]; intros i x; simpl.
  - split; [by intros ?%elem_of_nil|]. intros [_ H]%get_Some_lookup. by rewrite lookup_nil in H.
  - assert (Hr : get (k :: keep) (x - i) = Some true ↔ (x = i ∧ k = true) ∨ get keep (x - (i + 1)) = Some true).
    { destruct (Ztrichotomy x i) as [Hlt|[->|Hgt]].
      - unfold get. rewrite !(proj2 (Z.ltb_lt _ _)) by lia. split; [done|]. intros [[? _]|]; [lia|done].
      - rewrite Z.sub_diag. unfold get at 2. rewrite (proj2 (Z.ltb_lt _ _)) by lia. change (get (k :: keep) 0) with (Some k).
        split; [intros [= ->]; by left|]. intros [[_ ->]|]; done.
      - rewrite get_cons_pos by lia. replace (x - i - 1) with (x - (i + 1)) by lia. split; [by right|]. intros [[? _]|]; [lia|done]. }
    rewrite Hr, <- IH. clear. destruct k; [rewrite elem_of_cons; tauto|]. split; [by right|]. by intros [[_ ?]|?].
Qed.

Lemma kept_unkept keep : ∀ i, (unkept keep + length (kept_indices i keep) = length keep)%nat.
Proof using.
  unfold unkept. induction keep as [|k keep IH]; intros i; simpl; [done|]. specialize (IH (i + 1)). destruct k; simpl; lia.
Qed.

Record marked (keep : list bool) : Prop := {
  mk_covers : covers keep;
  mk_settled : ∀ x (m : node) (e : Z * Z), get keep x = Some true → get A x = Some m → e ∈ m.2 → settled keep e.2
}.

Lemma marked_spec {E} : ∃ keep, marked keep
  ∧ mark (E:=E) ss targets (S (length ss)) keep0 (rev (kept_indices 0 keep0)) = Ok keep.
Proof using Hsm Hc.
  destruct (mark_spec (E:=E) (S (length ss)) keep0 (rev (kept_indices 0 keep0)) keep0_covers) as (keep & Hrun & Hk & Hs).
  - intros x. rewrite <- Permutation_rev, kept_elem. by rewrite Z.sub_0_r.
  - intros x m e Hx Hni. rewrite <- Permutation_rev, kept_elem, Z.sub_0_r in Hni. done.
  - rewrite length_rev, (kept_unkept keep0 0), (cv_length _ keep0_covers), ss_length. lia.
  - exists keep. split; [by split|done].
Qed.
End chains.

(** ** Words along the edges of the map *)

Section hops.
Context (A : list node) (ht : Z → nat) (keep : list bool).
Context (Hc : closed (graph_of A)) (Hrk : ranked (graph_of A) ht) (Hm : marked A keep).
Notation g := (graph_of A).
Notation chase := (chase A keep).
Notation chain_of := (chain_of A keep).

Definition kept (x : Z) : Prop := get keep x = Some true.

(** One edge of the map: the letters after the first and the next state. *)
Definition hop (x l : Z) : option (list Z * Z) :=
  match get A x with
  | Some (_, es) => match follow es l with Some y => Some (chain_of y) | None => None end
  | None => None
  end.

Lemma hop_kept x l ls z : kept x → hop x l = Some (ls, z) → kept z.
Proof using Hm.
  unfold hop. intros Hx. destruct (get A x) as [[t es]|] eqn:Ex; [|done]. destruct (follow es l) as [y|] eqn:Ef; [|done].
  intros H. apply (inj Some) in H. pose proof (mk_settled _ _ Hm x _ (l, y) Hx Ex (follow_elem _ _ _ Ef)) as Hs. unfold settled in Hs. cbn [snd] in Hs. by rewrite H in Hs.
Qed.

(** A chain reads its letters, and nothing else passes it. *)
Lemma chase_walk fuel : ∀ y m w, get A y = Some m →
  walk g y ((chase fuel y).1 ++ w) = walk g (chase fuel y).2 w.
Proof using Hm.
  induction fuel as [|fuel IH]; intros y m w Hy; simpl; [done|]. rewrite Hy.
  destruct (get keep y) as [[]|] eqn:Ek; [by destruct m as [? [|[]]]| |by destruct m as [? [|[]]]].
  destruct (covers_inv _ _ _ (mk_covers _ _ Hm) Ek) as (l & z & Hy' & _). assert (m = (false, [(l, z)])) as -> by congruence.
  cbn [fst snd app walk]. rewrite graph_of_get, Hy. unfold follow. simpl. rewrite Z.eqb_refl. simpl.
  destruct (get A z) as [mz|] eqn:Ez; [by eapply IH|]. clear IH. destruct fuel; simpl; [done|]. rewrite Ez. by destruct (get keep z) as [[]|].
Qed.

Lemma chase_other fuel : ∀ y m w, get A y = Some m → kept (chase fuel y).2 → ¬ (chase fuel y).1 `prefix_of` w →
  walk g y w = None ∨ ∃ x, walk g y w = Some x ∧ get keep x = Some false.
Proof using Hm Hc.
  induction fuel as [|fuel IH]; intros y m w Hy Hz Hp; simpl in *; [destruct Hp; apply prefix_nil|]. rewrite Hy in *.
  destruct (get keep y) as [[]|] eqn:Ek; [destruct Hp; apply prefix_nil| |destruct Hp; apply prefix_nil].
  destruct (covers_inv _ _ _ (mk_covers _ _ Hm) Ek) as (l & z & Hy' & _). assert (m = (false, [(l, z)])) as -> by congruence.
  cbn [fst snd] in *. destruct w as [|l' w]; [right; by exists y|]. simpl. rewrite graph_of_get, Hy. unfold follow. simpl.
  destruct (Z.eqb_spec l l') as [->|Hne]; simpl; [|by left].
  destruct (edge_live A Hc y _ (l', z) Hy) as [mz Hmz]; [by left|]. apply (IH z mz w Hmz Hz). intros Hq. apply Hp. by apply prefix_cons.
Qed.

Lemma chain_walk y m w : get A y = Some m → walk g y ((chain_of y).1 ++ w) = walk g (chain_of y).2 w.
Proof using Hm. rewrite chain_of_eq. apply chase_walk. Qed.

Lemma chain_other y m w : get A y = Some m → kept (chain_of y).2 → ¬ (chain_of y).1 `prefix_of` w →
  walk g y w = None ∨ ∃ x, walk g y w = Some x ∧ get keep x = Some false.
Proof using Hm Hc. rewrite chain_of_eq. apply chase_other. Qed.

(** A word as a sequence of edges of the map. *)
Inductive trav : Z → list (Z * Z) → list Z → Z → Prop :=
  | trav_nil x : trav x [] [] x
  | trav_cons x l ls z qs w y : hop x l = Some (ls, z) → trav z qs w y → trav x ((x, l) :: qs) (l :: ls ++ w) y.

Lemma trav_det x qs w y : trav x qs w y → ∀ qs' y', trav x qs' w y' → qs = qs'.
Proof using.
  induction 1 as [x|x l ls z qs w y Hh _ IH]; intros qs' y' H'; inversion H'; subst; [done|].
  assert (ls0 = ls ∧ z0 = z) as [-> ->] by (split; congruence). f_equal.
  match goal with H : _ ++ _ = _ ++ _ |- _ => apply app_inv_head in H as -> end. by eapply IH.
Qed.

Lemma trav_app x qs w y qs' w' y' : trav x qs w y → trav y qs' w' y' → trav x (qs ++ qs') (w ++ w') y'.
Proof using.
  induction 1 as [x|x l ls z qs w y Hh _ IH]; intros H'; [done|]. simpl. rewrite <- app_assoc. by eapply trav_cons; [|apply IH].
Qed.

Lemma walk_hop x l w : walk g x (l :: w) = match get A x with Some (_, es) => match follow es l with Some y => walk g y w | None => None end | None => None end.
Proof using. simpl. by rewrite graph_of_get. Qed.

Lemma trav_exists k : ∀ x w y, (length w < k)%nat → kept x → kept y → walk g x w = Some y → ∃ qs, trav x qs w y.
Proof using Hm Hc.
  induction k as [|k IH]; intros x w y Hk Hx Hy Hw; [lia|]. destruct w as [|l w].
  { simpl in Hw. injection Hw as ->. exists []. constructor. }
  rewrite walk_hop in Hw. destruct (get A x) as [[t es]|] eqn:Ex; [|done]. destruct (follow es l) as [u|] eqn:Ef; [|done].
  destruct (edge_live A Hc x _ (l, u) Ex (follow_elem _ _ _ Ef)) as [mu Hu]. cbn [snd] in Hu.
  assert (Hh : hop x l = Some (chain_of u)) by (unfold hop; by rewrite Ex, Ef).
  pose proof (chain_walk u mu) as Hcw. pose proof (chain_other u mu w Hu) as Hco.
  destruct (chain_of u) as [ls z] eqn:Ec. cbn [fst snd] in *. pose proof (hop_kept x l ls z Hx Hh) as Hz.
  destruct (decide (ls `prefix_of` w)) as [[w' ->]|Hn].
  - rewrite (Hcw _ Hu) in Hw. rewrite !length_cons, length_app in Hk. destruct (IH z w' y) as [qs Hq]; [lia|done|done|done|].
    exists ((x, l) :: qs). by econstructor.
  - destruct (Hco Hz Hn) as [?|(v & Hv & Hkv)]; [congruence|]. unfold kept in Hy. congruence.
Qed.

(** The octets that an edge stands for. *)
Definition cost (q : Z * Z) : Z := match hop q.1 q.2 with Some (ls, _) => zlen ls + 1 | None => 0 end.
Definition costs (qs : list (Z * Z)) : Z := foldr Z.add 0 (map cost qs).

Lemma cost_nonneg q : 0 ≤ cost q.
Proof using. unfold cost. destruct (hop _ _) as [[ls ?]|]; [|done]. pose proof (zlen_nonneg ls). lia. Qed.

Lemma costs_app qs qs' : costs (qs ++ qs') = costs qs + costs qs'.
Proof using. unfold costs. induction qs as [|q qs IH]; simpl; [done|]. lia. Qed.

Lemma trav_costs x qs w y : trav x qs w y → costs qs = zlen w.
Proof using.
  induction 1 as [x|x l ls z qs w y Hh _ IH]; [done|]. change (costs ((x, l) :: qs)) with (cost (x, l) + costs qs). rewrite IH.
  unfold cost. simpl. rewrite Hh, zlen_cons, zlen_app. lia.
Qed.

Lemma costs_nonneg qs : 0 ≤ costs qs.
Proof using. induction qs as [|q qs IH]; [done|]. change (costs (q :: qs)) with (cost q + costs qs). pose proof (cost_nonneg q). lia. Qed.

Lemma costs_perm qs qs' : qs ≡ₚ qs' → costs qs = costs qs'.
Proof using.
  induction 1 as [|q qs qs' _ IH|q q' qs|qs1 qs2 qs3 _ IH1 _ IH2]; [done| | |congruence].
  - change (cost q + costs qs = cost q + costs qs'). lia.
  - change (cost q' + (cost q + costs qs) = cost q + (cost q' + costs qs)). lia.
Qed.

Lemma costs_submseteq qs qs' : qs ⊆+ qs' → costs qs ≤ costs qs'.
Proof using.
  intros (k & Hk)%submseteq_Permutation. rewrite (costs_perm _ _ Hk), costs_app. pose proof (costs_nonneg k). lia.
Qed.

(** Ranks fall along words. *)
Lemma walk_falls x w y : walk g x w = Some y → (ht y ≤ ht x)%nat ∧ (w ≠ [] → ht y < ht x)%nat.
Proof using Hrk.
  revert x. induction w as [|l w IH]; intros x; simpl; [intros [= ->]; by split|]. destruct (g !! x) as [[t es]|] eqn:Ex; [|done].
  destruct (follow es l) as [z|] eqn:Ef; [|done]. intros Hw. destruct (IH z Hw) as [H1 _].
  pose proof (Hrk x t es (l, z) Ex (follow_elem _ _ _ Ef)) as H. simpl in H. split; [lia|]. intros _. lia.
Qed.

Section words.
Context (ws : list (list Z)).
Context (Hws : ∀ w, accepts g 0 w = bool_decide (w ∈ ws)) (Hroot : is_Some (g !! 0)).
Context (Hre : ∀ x, is_Some (g !! x) → ∃ v, walk g 0 v = Some x).
Context (Huse : ∀ x, is_Some (g !! x) → x ≠ 0 → ∃ w, accepts g x w = true).

Lemma final_kept y : final g y = true → kept y.
Proof using Hm.
  unfold final. rewrite graph_of_get. destruct (get A y) as [[t es]|] eqn:Ey; [|done]. intros ->.
  destruct (covers_get _ _ _ _ (mk_covers _ _ Hm) Ey) as [[] Hk]; [done|].
  destruct (covers_inv _ _ _ (mk_covers _ _ Hm) Hk) as (l & z & Hy & _). congruence.
Qed.

Lemma root_kept : kept 0.
Proof using Hm Hroot. destruct Hroot as [m H0]. rewrite graph_of_get in H0. eapply covers_root; [apply Hm|done]. Qed.

(** Every letter of an edge is a letter of a word. *)
Lemma edges_cost qs : NoDup qs → (∀ x l, (x, l) ∈ qs → kept x ∧ is_Some (hop x l)) → costs qs ≤ total ws.
Proof using All.
  intros Hnd Hqs. assert (Hall : ∀ w, w ∈ ws → ∃ q y, trav 0 q w y).
  { intros w Hw. apply (bool_decide_eq_true (w ∈ ws)) in Hw. rewrite <- Hws in Hw. unfold accepts in Hw.
    destruct (walk g 0 w) as [y|] eqn:Ew; [|done]. destruct (trav_exists (S (length w)) 0 w y) as [q Hq]; [lia|apply root_kept|by apply final_kept|done|].
    by exists q, y. }
  assert (∃ qss, Forall2 (λ w q, ∃ y, trav 0 q w y) ws qss) as [qss Hqss].
  { clear -Hall. induction ws as [|w l IH]; [by exists []|]. destruct IH as [qss H]; [intros v Hv; apply Hall; by right|].
    destruct (Hall w) as (q & y & Hq); [by left|]. exists (q :: qss). constructor; [by exists y|done]. }
  assert (Htot : costs (concat qss) = total ws).
  { clear -Hqss. unfold total. induction Hqss as [|w q l qss [y Hq] _ IH]; [done|]. simpl. rewrite costs_app, zlen_app, IH.
    by rewrite (trav_costs _ _ _ _ Hq). }
  rewrite <- Htot. apply costs_submseteq, NoDup_submseteq; [done|]. intros [x l] Hin. destruct (Hqs x l Hin) as [Hx [[ls z] Hh]].
  pose proof (hop_kept x l ls z Hx Hh) as Hz.
  assert (Hgx : is_Some (g !! x)).
  { rewrite graph_of_get. unfold hop in Hh. destruct (get A x); [by eexists|done]. }
  destruct (Hre x Hgx) as [v Hv]. destruct (trav_exists (S (length v)) 0 v x) as [q1 Hq1]; [lia|apply root_kept|done|done|].
  assert (Hzw : walk g 0 (v ++ l :: ls) = Some z).
  { rewrite walk_app, Hv, walk_hop. unfold hop in Hh. destruct (get A x) as [[t es]|] eqn:Ex; [|done].
    destruct (follow es l) as [u|] eqn:Ef; [|done]. apply (inj Some) in Hh. destruct (edge_live A Hc x _ (l, u) Ex (follow_elem _ _ _ Ef)) as [mu Hu].
    pose proof (chain_walk u mu [] Hu) as Hw. rewrite Hh in Hw. cbn [fst snd] in Hw. by rewrite app_nil_r in Hw. }
  pose proof (walk_live _ _ _ _ Hc Hroot Hzw) as Hgz. pose proof (walk_falls _ _ _ Hzw) as [_ Hf].
  specialize (Hf ltac:(by destruct v)). destruct (Huse z Hgz) as [u Hu]; [intros ->; lia|]. unfold accepts in Hu.
  destruct (walk g z u) as [y|] eqn:Eu; [|done]. destruct (trav_exists (S (length u)) z u y) as [q2 Hq2]; [lia|done|by apply final_kept|done|].
  pose proof (trav_app _ _ _ _ _ _ _ Hq1 (trav_cons x l ls z q2 u y Hh Hq2)) as Ht.
  assert (Hw : v ++ l :: ls ++ u ∈ ws).
  { apply (bool_decide_eq_true (_ ∈ ws)). rewrite <- Hws. unfold accepts.
    replace (v ++ l :: ls ++ u) with ((v ++ l :: ls) ++ u) by (by rewrite <- app_assoc). by rewrite walk_app, Hzw, Eu. }
  apply list_elem_of_lookup in Hw as [i Hi]. destruct (Forall2_lookup_l _ _ _ _ _ Hqss Hi) as (q & Hq & y' & Hty).
  rewrite <- (trav_det _ _ _ _ Ht _ _ Hty) in Hq. apply elem_concat. exists i, (q1 ++ (x, l) :: q2). split; [done|].
  apply elem_of_app. right. by left.
Qed.
End words.
End hops.

(** * What the folded arrays hold *)

(** ** Numbers *)

Lemma kept_app k1 : ∀ i k2, kept_indices i (k1 ++ k2) = kept_indices i k1 ++ kept_indices (i + zlen k1) k2.
Proof.
  induction k1 as [|k k1 IH]; intros i k2; simpl; [by rewrite Z.add_0_r|]. rewrite IH, zlen_cons.
  replace (i + 1 + zlen k1) with (i + (zlen k1 + 1)) by lia. by destruct k.
Qed.

Lemma new_ids_get keep : ∀ j p, get keep p = Some true →
  get (new_ids j keep) p = Some (j + zlen (kept_indices 0 (take (Z.to_nat p) keep))).
Proof.
  assert (Hgen : ∀ i j p, get keep p = Some true →
    get (new_ids j keep) p = Some (j + zlen (kept_indices i (take (Z.to_nat p) keep)))); [|intros j p; apply Hgen].
  induction keep as [|k keep IH]; intros i j p Hp; [by apply get_Some_lookup in Hp as [_ ?]|].
  destruct (Z.eq_dec p 0) as [->|Hp0].
  - change (Some k = Some true) in Hp. injection Hp as ->. simpl. unfold zlen. simpl. by rewrite Z.add_0_r.
  - pose proof (get_Some_lt _ _ _ Hp) as Hlt. rewrite get_cons_pos in Hp by lia.
    replace (Z.to_nat p) with (S (Z.to_nat (p - 1))) by lia. cbn [take kept_indices new_ids].
    destruct k; rewrite get_cons_pos by lia; rewrite (IH (i + 1) _ _ Hp); rewrite ?zlen_cons; f_equal; lia.
Qed.

Lemma kept_split keep p : get keep p = Some true →
  kept_indices 0 keep = kept_indices 0 (take (Z.to_nat p) keep) ++ p :: kept_indices (p + 1) (drop (S (Z.to_nat p)) keep).
Proof.
  intros [Hp H]%get_Some_lookup. rewrite <- (take_drop (Z.to_nat p) keep) at 1. rewrite kept_app.
  pose proof (lookup_lt_Some _ _ _ H) as Hlt. rewrite (drop_S _ _ _ H). cbn [kept_indices].
  assert (0 + zlen (take (Z.to_nat p) keep) = p) as -> by (unfold zlen; rewrite length_take; lia). done.
Qed.

Lemma new_id keep p : get keep p = Some true →
  ∃ k, get (new_ids 0 keep) p = Some k ∧ get (kept_indices 0 keep) k = Some p.
Proof.
  intros H. eexists. split; [by apply new_ids_get|]. rewrite (kept_split _ _ H), Z.add_0_l. apply get_app_mid.
Qed.

(** ** Bits *)

Definition bit (bits : list Z) (k : Z) : bool :=
  match get bits (k / 64) with Some word => Z.testbit word (k mod 64) | None => false end.

Lemma set_bit_spec {E} bits id : 0 ≤ id → id / 64 < zlen bits →
  ∃ bits', set_bit (E:=E) id bits = Ok bits' ∧ zlen bits' = zlen bits
    ∧ ∀ k, 0 ≤ k → bit bits' k = bit bits k || (k =? id).
Proof.
  intros H0 Hlt. assert (Hd : 0 ≤ id / 64) by (apply Z.div_pos; lia). destruct (get_is_Some bits (id / 64)) as [w Hw]; [lia|].
  unfold set_bit. rewrite (at_get _ _ _ Hw). cbn [obind]. rewrite put_get by lia. eexists. split; [done|].
  split; [apply zlen_insert|]. intros k Hk. unfold bit. rewrite get_put by lia.
  pose proof (Z.mod_pos_bound k 64 ltac:(lia)). pose proof (Z.mod_pos_bound id 64 ltac:(lia)).
  pose proof (Z.div_mod k 64 ltac:(lia)). pose proof (Z.div_mod id 64 ltac:(lia)). destruct (decide _) as [Hd'|Hd'].
  - rewrite Hd', Hw, Z.lor_spec, Z.pow2_bits_eqb by lia. f_equal. apply eq_true_iff_eq. rewrite !Z.eqb_eq. lia.
  - rewrite (proj2 (Z.eqb_neq k id)); [by rewrite orb_false_r|]. intros ->. done.
Qed.

(** ** The tails *)

Definition tail_ok (bs : list Z) (s : Z) (ls : list Z) : Prop :=
  (s = 0 ∧ ls = []) ∨ (0 < s ∧ get bs s = Some (zlen ls) ∧ get_range bs (s + 1) (s + 1 + zlen ls) = Some ls).

Lemma tail_ok_app bs bs' s ls : tail_ok bs s ls → tail_ok (bs ++ bs') s ls.
Proof.
  intros [?|(H0 & Hg & Hr)]; [by left|]. right. split; [done|]. split; [by apply get_Some_app|].
  pose proof (get_range_Some _ _ _ _ Hr) as (_ & Hle & _). eapply get_range_ext; [exact Hr| |].
  - rewrite zlen_app. pose proof (zlen_nonneg bs'). lia.
  - intros i Hi. apply get_app_l. lia.
Qed.

Lemma tail_ok_new bs ls : bs ≠ [] → tail_ok (bs ++ zlen ls :: ls) (zlen bs) ls.
Proof.
  intros Hne. right. split; [destruct bs; [done|]; rewrite zlen_cons; pose proof (zlen_nonneg bs); lia|].
  split; [apply get_app_mid|]. pose proof (get_range_app (bs ++ [zlen ls]) ls []) as H.
  rewrite app_nil_r, <- app_assoc, zlen_app in H. exact H.
Qed.

(** ** Emitting *)

Section emit.
Context (A : list node) (n : Z → Z) (keep : list bool).
Context (Hsm : small A) (Hc : closed (graph_of A)) (Hm : marked A keep).
Notation ss := (flat_states 0 A).
Notation labels := (flat_labels A).
Notation targets := (flat_targets A).
Notation outputs := (flat_outputs n A).
Notation K := (kept_indices 0 keep).
Notation chain_of x := (chain_of A keep x).

(** Edges with their outputs. *)
Notation edge3 := (Z * Z * Z)%type (only parsing).

Definition edges3 (x : Z) : list edge3 :=
  match get A x with Some m => zip m.2 (outs n m) | None => [] end.

Definition weight (es : list edge3) : Z := foldr Z.add 0 (map (λ q : edge3, zlen (chain_of q.1.2).1 + 1) es).

Lemma weight_app es es' : weight (es ++ es') = weight es + weight es'.
Proof using. unfold weight. induction es as [|q es IH]; simpl; [done|]. lia. Qed.

Lemma weight_length es : zlen es ≤ weight es.
Proof using.
  induction es as [|q es IH]; [done|]. rewrite zlen_cons. change (weight (q :: es)) with (zlen (chain_of q.1.2).1 + 1 + weight es).
  pose proof (zlen_nonneg (chain_of q.1.2).1). lia.
Qed.

Record emitted (done : list edge3) (e : Emitted) : Prop := {
  em_labels : c_labels e = map (λ q : edge3, q.1.1) done;
  em_outputs : c_outputs e = map snd done;
  em_targets : Forall2 (λ (q : edge3) t, get K t = Some (chain_of q.1.2).2) done (c_targets e);
  em_tails : Forall2 (λ (q : edge3) s, tail_ok (c_tail_bytes e) s (chain_of q.1.2).1) done (c_tails e);
  em_at_length : zlen (tail_at e) = zlen A;
  em_at : ∀ x s, get (tail_at e) x = Some s → s = NONE ∨ tail_ok (c_tail_bytes e) s (chain_of x).1;
  em_bytes : 1 ≤ zlen (c_tail_bytes e) ≤ 1 + weight done
}.

(** What an edge needs. *)
Definition edge_ready (edge : Z) (q : edge3) : Prop :=
  get labels edge = Some q.1.1 ∧ get targets edge = Some q.1.2 ∧ get outputs edge = Some q.2
  ∧ (∃ m, get A q.1.2 = Some m) ∧ get keep (chain_of q.1.2).2 = Some true.

Lemma as_u32_small v : 0 ≤ v ≤ U32_MAX → as_u32 v = v.
Proof using. intros H. unfold as_u32. apply Z.mod_small. unfold U32_MAX in H. lia. Qed.

Lemma emit_tail_spec {E} x m bs at_ : get A x = Some m → bs ≠ [] → zlen at_ = zlen A →
  (∀ y s, get at_ y = Some s → s = NONE ∨ tail_ok bs s (chain_of y).1) →
  (0 < zlen (chain_of x).1 → zlen bs < NONE) →
  ∃ s new at', emit_tail (E:=E) ss labels targets x (zlen (chain_of x).1) bs at_ = Ok (s, bs ++ new, at')
    ∧ tail_ok (bs ++ new) s (chain_of x).1 ∧ zlen at' = zlen A
    ∧ (∀ y s, get at' y = Some s → s = NONE ∨ tail_ok (bs ++ new) s (chain_of y).1)
    ∧ zlen new ≤ zlen (chain_of x).1 + 1.
Proof using Hsm Hc Hm.
  intros Hx Hne Hlen Hat Hroom. pose proof (zlen_nonneg (chain_of x).1) as Hl0. unfold emit_tail.
  destruct (Z.eqb_spec (zlen (chain_of x).1) 0) as [Ez|Ez].
  { exists 0, [], at_. rewrite app_nil_r. split_and!; [done| |done|done|unfold zlen; simpl; lia].
    left. split; [done|]. destruct (chain_of x).1; [done|]. unfold zlen in Ez. simpl in Ez. lia. }
  destruct (get_is_Some at_ x) as [known Hk]; [apply get_Some_lt in Hx; lia|]. rewrite (at_get _ _ _ Hk). cbn [obind].
  destruct (Z.eqb_spec known NONE) as [->|Hkn]; cbn [negb].
  2: { exists known, [], at_. rewrite app_nil_r. destruct (Hat x known Hk) as [?|Hok]; [done|].
       split_and!; [done|done|done|done|unfold zlen at 1; simpl; lia]. }
  rewrite put_get by by eapply get_Some_lt. cbn [obind].
  rewrite (chain_of_letters A Hsm Hc keep x (mk_covers _ _ Hm)). cbn [obind].
  pose proof (zlen_nonneg bs). rewrite (as_u32_small (zlen bs)) by (unfold NONE in *; lia).
  assert (as_u8 (zlen (chain_of x).1) = zlen (chain_of x).1) as ->.
  { unfold as_u8. apply Z.mod_small. pose proof (chain_of_length A keep x). unfold MAX_EDGE_TAIL in *. lia. }
  eexists _, (_ :: _), _. split; [done|]. pose proof (tail_ok_new bs (chain_of x).1 Hne) as Hok. split; [done|].
  split; [by rewrite zlen_insert|]. split; [|by rewrite zlen_cons].
  intros y s. rewrite get_put by by eapply get_Some_lt. destruct (decide (y = x)) as [->|_]; [intros [= <-]; by right|].
  intros Hs. destruct (Hat y s Hs) as [?|?]; [by left|]. right. by apply tail_ok_app.
Qed.

Lemma emit_edges_spec {E} es : ∀ edge done e, emitted done e →
  (∀ j q, get es j = Some q → edge_ready (edge + j) q) → weight (done ++ es) < NONE →
  ∃ e', emit_edges (E:=E) ss labels targets outputs (length es) edge keep (new_ids 0 keep) e = Ok e' ∧ emitted (done ++ es) e'.
Proof using Hsm Hc Hm.
  induction es as [|q es IH]; intros edge done e He Hes Hw; cbn [emit_edges length].
  { exists e. by rewrite app_nil_r. }
  destruct (Hes 0 q eq_refl) as (Hl & Ht & Ho & (m & Hy) & Hk). rewrite Z.add_0_r in Hl, Ht, Ho.
  rewrite (at_get _ _ _ Hl), (at_get _ _ _ Ho), (at_get _ _ _ Ht). cbn [obind].
  rewrite (walk_from_spec A Hsm Hc keep q.1.2 m (mk_covers _ _ Hm) Hy). cbn [obind].
  destruct He as [El Eo Et Ea Hal Hat Hb].
  assert (Hws : weight (done ++ q :: es) = weight done + (zlen (chain_of q.1.2).1 + 1) + weight es).
  { rewrite weight_app. change (weight (q :: es)) with (zlen (chain_of q.1.2).1 + 1 + weight es). lia. }
  pose proof (weight_length es) as Hwe. pose proof (zlen_nonneg es) as H0es.
  destruct (emit_tail_spec (E:=E) q.1.2 m (c_tail_bytes e) (tail_at e) Hy) as (s & new & at' & -> & Hs & Hal' & Hat' & Hnew); [|done|done|lia|].
  { intros E0. rewrite E0 in Hb. unfold zlen in Hb. simpl in Hb. lia. }
  cbn [obind]. destruct (new_id keep _ Hk) as (k & Hid & HK). rewrite (at_get _ _ _ Hid). cbn [obind].
  destruct (IH (edge + 1) (done ++ [q]) (mkEmitted (c_labels e ++ [q.1.1]) (c_targets e ++ [k]) (c_outputs e ++ [q.2]) (c_tails e ++ [s])
    (c_tail_bytes e ++ new) at')) as (e' & Hrun & He').
  - split; cbn [c_labels c_outputs c_targets c_tails c_tail_bytes tail_at].
    + by rewrite El, map_app.
    + by rewrite Eo, map_app.
    + apply Forall2_app; [done|]. by constructor.
    + apply Forall2_app; [|by constructor]. eapply Forall2_impl; [exact Ea|]. intros. by apply tail_ok_app.
    + done.
    + done.
    + rewrite zlen_app, weight_app. change (weight [q]) with (zlen (chain_of q.1.2).1 + 1 + 0). pose proof (zlen_nonneg new). lia.
  - intros j q' Hj. pose proof (get_Some_lt _ _ _ Hj). replace (edge + 1 + j) with (edge + (j + 1)) by lia. apply Hes.
    rewrite get_cons_pos by lia. by rewrite Z.add_simpl_r.
  - by rewrite <- app_assoc.
  - exists e'. split; [exact Hrun|]. by rewrite <- app_assoc in He'.
Qed.

(** ** All states *)

Notation flat K' := (concat (map edges3 K')).

(** Where the edges of every state start. *)
Fixpoint starts (acc : Z) (K' : list Z) : list Z :=
  match K' with [] => [] | x :: K' => acc :: starts (acc + zlen (edges3 x)) K' end.

Lemma starts_app K1 : ∀ acc K2, starts acc (K1 ++ K2) = starts acc K1 ++ starts (acc + zlen (flat K1)) K2.
Proof using.
  induction K1 as [|x K1 IH]; intros acc K2; simpl; [by rewrite Z.add_0_r|]. rewrite IH, zlen_app. do 3 f_equal. lia.
Qed.

Lemma starts_length acc K' : length (starts acc K') = length K'.
Proof using. revert acc. induction K' as [|x K' IH]; intros acc; simpl; [done|by rewrite IH]. Qed.

Lemma starts_get K1 x K2 : get (starts 0 (K1 ++ x :: K2) ++ [zlen (flat (K1 ++ x :: K2))]) (zlen K1) = Some (zlen (flat K1))
  ∧ get (starts 0 (K1 ++ x :: K2) ++ [zlen (flat (K1 ++ x :: K2))]) (zlen K1 + 1) = Some (zlen (flat K1) + zlen (edges3 x)).
Proof using.
  rewrite starts_app, <- app_assoc. assert (El : zlen K1 = zlen (starts 0 K1)) by (unfold zlen; by rewrite starts_length).
  rewrite El. split.
  - replace (zlen (starts 0 K1)) with (zlen (starts 0 K1) + 0) by lia. rewrite get_app_shift by lia. simpl. unfold get. simpl. f_equal; lia.
  - rewrite get_app_shift by lia. simpl. rewrite get_cons_pos by lia. change (1 - 1) with 0.
    destruct K2 as [|y K2]; cbn [starts app]; rewrite get_cons_0; [|by rewrite Z.add_0_l].
    rewrite map_app, concat_app, zlen_app. cbn [map concat]. by rewrite app_nil_r.
Qed.

(** Which of the states that were seen are terminal. *)
Definition final_of (x : Z) : bool := match get A x with Some m => m.1 | None => false end.

Definition bits_ok (K' bits : list Z) : Prop :=
  zlen bits = div_ceil (zlen K) 64
  ∧ ∀ k, 0 ≤ k → bit bits k = match get K' k with Some x => final_of x | None => false end.

Lemma bits_step {E} K1 x bits : bits_ok K1 bits → zlen K1 < zlen K →
  ∃ bits', (if final_of x then set_bit (E:=E) (zlen K1) bits else Ok bits) = Ok bits' ∧ bits_ok (K1 ++ [x]) bits'.
Proof using.
  intros [Hl Hb] Hlt. pose proof (zlen_nonneg K1).
  assert (Hget : ∀ k, 0 ≤ k → get (K1 ++ [x]) k = if k =? zlen K1 then Some x else get K1 k).
  { intros k Hk. destruct (Z.eqb_spec k (zlen K1)) as [->|Hne]; [apply get_app_mid|].
    destruct (decide (k < zlen K1)); [by apply get_app_l|]. rewrite !get_None_ge; [done| |rewrite zlen_app; unfold zlen at 2; simpl]; lia. }
  assert (Hnone : get K1 (zlen K1) = None) by (apply get_None_ge; lia).
  destruct (final_of x) eqn:Ef.
  - destruct (set_bit_spec (E:=E) bits (zlen K1)) as (bits' & -> & Hl' & Hb'); [done| |].
    { rewrite Hl. unfold div_ceil. apply Z.div_lt_upper_bound; [done|]. pose proof (Z.div_mod (zlen K + 64 - 1) 64 ltac:(lia)).
      pose proof (Z.mod_pos_bound (zlen K + 64 - 1) 64 ltac:(lia)). lia. }
    exists bits'. split; [done|]. split; [lia|]. intros k Hk. rewrite (Hb' k Hk), (Hb k Hk), (Hget k Hk).
    destruct (Z.eqb_spec k (zlen K1)) as [->|_]; [by rewrite Ef, orb_true_r|]. by rewrite orb_false_r.
  - exists bits. split; [done|]. split; [done|]. intros k Hk. rewrite (Hb k Hk), (Hget k Hk).
    destruct (Z.eqb_spec k (zlen K1)) as [->|_]; [|done]. by rewrite Hnone, Ef.
Qed.

Lemma edges3_get x m j : get A x = Some m → get (edges3 x) j = match get m.2 j, get (outs n m) j with Some e, Some o => Some (e, o) | _, _ => None end.
Proof using.
  intros Hx. unfold edges3. rewrite Hx. unfold get. destruct (Z.ltb_spec j 0); [done|]. rewrite lookup_zip_with.
  by destruct (m.2 !! _), (outs n m !! _).
Qed.

Lemma edges3_length x m : get A x = Some m → zlen (edges3 x) = zlen m.2.
Proof using.
  intros Hx. unfold edges3. rewrite Hx. pose proof (prefix_sums_length n (if m.1 then 1 else 0) m.2) as Hl.
  unfold zlen in *. rewrite length_zip_with_l_eq; [done|]. unfold outs. lia.
Qed.

Lemma edges3_ready x m j q : get A x = Some m → get keep x = Some true → get (edges3 x) j = Some q → edge_ready (offset A x + j) q.
Proof using Hsm Hc Hm.
  intros Hx Hk. rewrite (edges3_get x m j Hx). destruct (get m.2 j) as [e|] eqn:Ee; [|done]. destruct (get (outs n m) j) as [o|] eqn:Eo; [|done].
  intros [= <-]. destruct (packed_state A n x m Hsm Hx) as (s & _ & _ & _ & _ & He). destruct (He j e Ee) as (Hl & Ht & Ho).
  pose proof Ee as [_ Hin]%get_Some_lookup. apply list_elem_of_lookup_2 in Hin. unfold edge_ready. cbn [fst snd].
  split_and!; [done|done|by rewrite Ho|by eapply edge_live|]. by eapply (mk_settled _ _ Hm).
Qed.

Context (Hroom : weight (flat K) < NONE).

Lemma weight_prefix K1 K2 : K = K1 ++ K2 → weight (flat K1) < NONE.
Proof using Hroom.
  intros EK. rewrite EK, map_app, concat_app, weight_app in Hroom. pose proof (weight_length (flat K2)). pose proof (zlen_nonneg (flat K2)). lia.
Qed.

Lemma emit_states_spec {E} r : ∀ i edges bits e, (i + r = length A)%nat →
  edges = starts 0 (kept_indices 0 (take i keep)) → bits_ok (kept_indices 0 (take i keep)) bits →
  emitted (flat (kept_indices 0 (take i keep))) e →
  ∃ bits' e', emit_states (E:=E) ss labels targets outputs (seq i r) keep (new_ids 0 keep) edges bits e = Ok (starts 0 K, bits', e')
    ∧ bits_ok K bits' ∧ emitted (flat K) e'.
Proof using Hsm Hc Hm Hroom.
  induction r as [|r IH]; intros i edges bits e Hir -> Hb He; cbn [emit_states seq].
  { assert (take i keep = keep) as Et by (apply take_ge; pose proof (cv_length _ _ (mk_covers _ _ Hm)); lia). rewrite Et in *. by exists bits, e. }
  destruct (lookup_lt_is_Some_2 A i) as [m Hmi]; [lia|]. assert (Hx : get A (Z.of_nat i) = Some m) by (apply get_Some_lookup; rewrite Nat2Z.id; split; [lia|done]).
  destruct (covers_get _ _ _ _ (mk_covers _ _ Hm) Hx) as [k Hk]. rewrite (at_get _ _ _ Hk). cbn [obind].
  pose proof Hk as [_ Hki]%get_Some_lookup. rewrite Nat2Z.id in Hki. pose proof (take_S_r _ _ _ Hki) as Etake.
  assert (Enext : kept_indices 0 (take (S i) keep) = kept_indices 0 (take i keep) ++ if k then [Z.of_nat i] else []).
  { rewrite Etake, kept_app. pose proof (lookup_lt_Some _ _ _ Hki). cbn [kept_indices].
    assert (0 + zlen (take i keep) = Z.of_nat i) as -> by (unfold zlen; rewrite length_take; lia). by destruct k. }
  destruct k; cbn [negb].
  2: { rewrite app_nil_r in Enext. rewrite <- Enext in *. apply (IH (S i)); [lia|done|done|done]. }
  pose proof (kept_split keep (Z.of_nat i) Hk) as Esplit. rewrite Nat2Z.id in Esplit.
  rewrite (at_get _ _ _ (new_ids_get keep 0 _ Hk)). cbn [obind]. rewrite Nat2Z.id, Z.add_0_l.
  set (K1 := kept_indices 0 (take i keep)) in *. destruct (packed_state A n _ m Hsm Hx) as (s & Hs & Hfst & Hcnt & Hter & _).
  rewrite (at_get _ _ _ Hs). cbn [obind]. assert (packed_terminal s = final_of (Z.of_nat i)) as -> by (unfold final_of; by rewrite Hx).
  destruct (bits_step (E:=E) K1 (Z.of_nat i) bits Hb) as (bits1 & -> & Hb1).
  { rewrite Esplit, zlen_app, zlen_cons. pose proof (zlen_nonneg (kept_indices (Z.of_nat i + 1) (drop (S i) keep))). lia. }
  cbn [obind]. pose proof (weight_prefix (K1 ++ [Z.of_nat i]) _ ltac:(rewrite Esplit, <- app_assoc; reflexivity)) as Hw1.
  rewrite map_app, concat_app in Hw1. cbn [map concat] in Hw1. rewrite app_nil_r in Hw1.
  rewrite Hfst, Hcnt, <- (edges3_length _ m Hx).
  assert (Z.to_nat (zlen (edges3 (Z.of_nat i))) = length (edges3 (Z.of_nat i))) as -> by (unfold zlen; apply Nat2Z.id).
  destruct (emit_edges_spec (E:=E) (edges3 (Z.of_nat i)) (offset A (Z.of_nat i)) (flat K1) e He) as (e1 & -> & He1);
    [intros j q; by apply (edges3_ready _ m)|exact Hw1|]. cbn [obind].
  apply (IH (S i)); [lia| | |].
  - rewrite Enext, starts_app. cbn [starts]. do 2 f_equal. rewrite (em_labels _ _ He), zlen_map. apply as_u32_small.
    pose proof (zlen_nonneg (flat K1)). rewrite weight_app in Hw1. pose proof (weight_length (flat K1)). pose proof (weight_length (edges3 (Z.of_nat i))).
    pose proof (zlen_nonneg (edges3 (Z.of_nat i))). unfold NONE in *. lia.
  - by rewrite Enext.
  - rewrite Enext, map_app, concat_app. cbn [map concat]. by rewrite app_nil_r.
Qed.

(** ** The folded arrays *)

Record folded (c : CollapsedArrays) : Prop := {
  fo_count : zlen (ca_state_edges c) = zlen K + 1;
  fo_state : ∀ k x t es, get K k = Some x → get A x = Some (t, es) →
    ∃ f, get (ca_state_edges c) k = Some f ∧ get (ca_state_edges c) (k + 1) = Some (f + zlen es)
      ∧ bit (ca_state_terminal c) k = t ∧ get_range (ca_edge_labels c) f (f + zlen es) = Some (map fst es)
      ∧ ∀ j l y, get es j = Some (l, y) →
          (∃ s, get (ca_edge_tails c) (f + j) = Some s ∧ tail_ok (ca_tail_bytes c) s (chain_of y).1)
          ∧ get (ca_edge_outputs c) (f + j) = get (outs n (t, es)) j
          ∧ ∃ k', get (ca_edge_targets c) (f + j) = Some k' ∧ get K k' = Some (chain_of y).2
}.

Lemma flat_edges K1 x K2 j : 0 ≤ j < zlen (edges3 x) → get (flat (K1 ++ x :: K2)) (zlen (flat K1) + j) = get (edges3 x) j.
Proof using. intros Hj. rewrite map_app, concat_app, get_app_shift by lia. cbn [map concat]. apply get_app_l. lia. Qed.

Lemma get_map {B C} (f : B → C) l j : get (map f l) j = match get l j with Some x => Some (f x) | None => None end.
Proof using.
  unfold get. destruct (Z.ltb_spec j 0); [done|]. change (map f l) with (f <$> l). rewrite list_lookup_fmap. by destruct (l !! _).
Qed.

Lemma collapse_spec {E} :
  keep_all (E:=E) ss outputs (seq 0 (length ss)) = Ok (keep0 A) →
  mark (E:=E) ss targets (S (length ss)) (keep0 A) (rev (kept_indices 0 (keep0 A))) = Ok keep →
  ∃ c, collapse_chains (E:=E) ss labels targets outputs = Ok c ∧ folded c.
Proof using Hsm Hc Hm Hroom.
  intros Hka Hmk. unfold collapse_chains. rewrite Hka. cbn [obind]. rewrite Hmk. cbn [obind]. rewrite ss_length.
  assert (Hpos : 0 ≤ div_ceil (zlen K) 64) by (unfold div_ceil; apply Z.div_pos; pose proof (zlen_nonneg K); lia).
  destruct (emit_states_spec (E:=E) (length A) 0 [] (replicate (Z.to_nat (div_ceil (zlen K) 64)) 0)
    (mkEmitted [] [] [] [] [0] (replicate (length A) NONE))) as (bits & e & -> & [_ Hb] & He).
  - lia.
  - done.
  - split; [unfold zlen at 1; rewrite length_replicate; lia|]. intros k Hk. unfold bit.
    assert (∀ w, get (replicate (Z.to_nat (div_ceil (zlen K) 64)) 0) (k / 64) = Some w → w = 0) as Hrep.
    { intros w [_ Hw]%get_Some_lookup. by apply lookup_replicate in Hw as [-> _]. }
    destruct (get (replicate _ 0) _) as [w|]; [rewrite (Hrep w eq_refl), Z.bits_0|]; unfold get; simpl; by destruct (k <? 0), (Z.to_nat k).
  - split; simpl; [done|done|constructor|constructor|unfold zlen; by rewrite length_replicate| |unfold zlen; simpl; unfold weight; simpl; lia].
    intros x s [_ Hs]%get_Some_lookup. apply lookup_replicate in Hs as [-> _]. by left.
  - cbn [obind]. eexists. split; [done|]. destruct He as [El Eo Et Ea _ _ _]. rewrite El, Eo, zlen_map.
    rewrite (as_u32_small (zlen (flat K))).
    2: { pose proof (zlen_nonneg (flat K)). pose proof (weight_length (flat K)). unfold NONE in *. lia. }
    split; cbn [ca_state_edges ca_state_terminal ca_edge_labels ca_edge_targets ca_edge_outputs ca_edge_tails ca_tail_bytes].
    + rewrite zlen_app. unfold zlen at 1. by rewrite starts_length.
    + intros k x t es HK Hx. pose proof HK as [Hk0 HKl]%get_Some_lookup. apply list_elem_of_split_length in HKl as (K1 & K2 & EK & Hlen).
      assert (k = zlen K1) as -> by (unfold zlen; lia). rewrite EK. destruct (starts_get K1 x K2) as [H1 H2]. exists (zlen (flat K1)).
      pose proof (edges3_length x _ Hx) as Hle. cbn [snd] in Hle. rewrite <- Hle.
      split; [exact H1|]. split; [exact H2|]. split; [|split].
      * rewrite (Hb _ Hk0), HK. unfold final_of. by rewrite Hx.
      * rewrite map_app, concat_app, map_app. cbn [map concat]. rewrite map_app.
        pose proof (get_range_app (map (λ q : edge3, q.1.1) (flat K1)) (map (λ q : edge3, q.1.1) (edges3 x)) (map (λ q : edge3, q.1.1) (flat K2))) as Hr.
        rewrite !zlen_map in Hr. rewrite Hr. f_equal. unfold edges3. rewrite Hx. cbn [snd].
        pose proof (prefix_sums_length n (if t then 1 else 0) es) as Hpl. unfold outs. cbn [fst snd].
        rewrite <- (map_map (λ q : edge3, q.1) fst). f_equal. change (map (λ q : edge3, q.1)) with (fmap (M:=list) (λ q : edge3, q.1)).
        apply fst_zip. unfold zlen in Hpl. lia.
      * intros j l y Hj. pose proof (get_Some_lt _ _ _ Hj) as Hlt. rewrite <- Hle in Hlt. pose proof (flat_edges K1 x K2 j Hlt) as Hfe.
        rewrite <- EK in Hfe. destruct (get_is_Some (edges3 x) j Hlt) as [q Hq]. rewrite Hq in Hfe. rewrite (edges3_get x _ j Hx) in Hq. cbn [snd] in Hq.
        rewrite Hj in Hq. destruct (get (outs n (t, es)) j) as [o|] eqn:Eo'; [|done]. injection Hq as <-.
        apply get_Some_lookup in Hfe as [Hf0 Hfe]. rewrite <- EK. split_and!.
        -- destruct (Forall2_lookup_l _ _ _ _ _ Ea Hfe) as (s & Hs & Hok). exists s. split; [by apply get_Some_lookup|exact Hok].
        -- rewrite get_map. unfold get. rewrite (proj2 (Z.ltb_ge _ _)) by lia. by rewrite Hfe.
        -- destruct (Forall2_lookup_l _ _ _ _ _ Et Hfe) as (k' & Hk' & HKk). exists k'. split; [by apply get_Some_lookup|exact HKk].
Qed.
End emit.
