(* ===== verification/CompactLookup.v ===== *)
(** * Lookups in the compact map

    A lookup follows the name from its end along the edges of the map; the sum
    of the outputs is the position of the word in the sorted list. *)

From stdpp Require Import sorting.
From S2P Require Import Prelude FilterTable FilterTableSpec Dawg DawgRep DawgReg DawgPath DawgBuild DawgWords DawgPack DawgRank.
From S2P Require Import Compact CompactChains.

#[local] Open Scope Z_scope.
#[local] Open Scope outcome_scope.

Notation node := (bool * list (Z * Z))%type (only parsing).

(** ** Reading a name from its end *)

Lemma octet_before_rev bs i : 0 ≤ i → octet_before bs i = get (rev bs) i.
Proof.
  intros Hi. unfold octet_before, checked_sub. rewrite rev_alt. change (rev_append bs []) with (reverse bs).
  destruct (Z.leb_spec (i + 1) (zlen bs)).
  - unfold get. rewrite (proj2 (Z.ltb_ge _ _)), (proj2 (Z.ltb_ge i 0)) by lia. unfold zlen in *. rewrite reverse_lookup by lia. f_equal. lia.
  - symmetry. apply get_None_ge. unfold zlen in *. rewrite length_reverse. lia.
Qed.

Lemma octet_after (v w : list Z) l bs : rev bs = v ++ l :: w → octet_before bs (zlen v) = Some l.
Proof. intros E. rewrite octet_before_rev, E by apply zlen_nonneg. apply get_app_mid. Qed.

Lemma octet_end v bs : rev bs = v → octet_before bs (zlen v) = None.
Proof. intros <-. rewrite octet_before_rev by apply zlen_nonneg. apply get_None_ge. lia. Qed.

Lemma zlen_snoc {B} (v : list B) x : zlen (v ++ [x]) = zlen v + 1.
Proof. by rewrite zlen_app. Qed.

Lemma eat_tail_prefix ls : ∀ v w bs, rev bs = v ++ ls ++ w → eat_tail bs ls (zlen v) = Some (zlen v + zlen ls).
Proof.
  induction ls as [|l ls IH]; intros v w bs E; simpl; [by rewrite zlen_nil, Z.add_0_r|].
  rewrite (octet_after v (ls ++ w) l bs E), Z.eqb_refl. replace (zlen v + 1) with (zlen (v ++ [l])) by apply zlen_snoc.
  rewrite (IH (v ++ [l]) w bs) by by rewrite <- app_assoc. rewrite zlen_snoc, zlen_cons. f_equal. lia.
Qed.

Lemma eat_tail_other ls : ∀ v w bs, rev bs = v ++ w → ¬ ls `prefix_of` w → eat_tail bs ls (zlen v) = None.
Proof.
  induction ls as [|l ls IH]; intros v w bs E Hn; simpl; [destruct Hn; apply prefix_nil|].
  destruct w as [|l' w]; [rewrite app_nil_r in E; by rewrite octet_end|]. rewrite (octet_after v w l' bs E).
  destruct (Z.eqb_spec l' l) as [->|]; [|done]. replace (zlen v + 1) with (zlen (v ++ [l])) by apply zlen_snoc.
  apply (IH _ w); [by rewrite <- app_assoc|]. intros Hp. apply Hn. by apply prefix_cons.
Qed.

(** ** Finding a label *)

(** What the standard library says of [binary_search] on a sorted slice
    without repetitions. *)
Definition searches (binary_search : list Z → Z → option Z) : Prop :=
  ∀ l x, StronglySorted Z.lt l →
    match binary_search l x with Some i => get l i = Some x | None => x ∉ l end.

Lemma position_finds x l : match position x l with Some i => get l i = Some x | None => x ∉ l end.
Proof.
  induction l as [|y l IH]; simpl; [apply not_elem_of_nil|]. destruct (Z.eqb_spec y x) as [->|Hne]; [done|].
  destruct (position x l) as [i|].
  - pose proof (get_Some_lt _ _ _ IH). rewrite get_cons_pos by lia. by rewrite Z.add_simpl_r.
  - rewrite not_elem_of_cons. by split; [intros ->|].
Qed.

Lemma label_position_spec binary_search x l : searches binary_search → StronglySorted Z.lt l →
  match label_position binary_search x l with Some i => get l i = Some x | None => x ∉ l end.
Proof.
  intros Hb Hs. unfold label_position. destruct l as [|y [|z l]]; [apply not_elem_of_nil| |].
  - destruct (Z.eqb_spec y x) as [->|Hne]; [done|]. rewrite not_elem_of_cons. split; [by intros ->|apply not_elem_of_nil].
  - destruct (_ <=? 8); [apply position_finds|by apply Hb].
Qed.

Lemma rising_map es : StronglySorted (λ a b : Z * Z, a.1 < b.1) es → StronglySorted Z.lt (map fst es).
Proof. induction 1 as [|e es _ IH Hf]; simpl; [constructor|]. constructor; [done|]. by apply Forall_fmap. Qed.

(** ** Ranks *)

Section ranks.
Context (A : list node) (ht : Z → nat) (keep : list bool) (ws : list (list Z)).
Context (Hok : packed_ok ws A ht) (Hm : marked A keep).
Context (Hsort : StronglySorted (λ a b, lex_lt a b = true) ws) (Hmany : zlen ws < NONE).
Notation g := (graph_of A).
Notation n := (count_of A ht).
Notation K := (kept_indices 0 keep).
Notation rank := (rank g n).

Lemma skip_outs es l y j : ∀ acc, StronglySorted (λ a b : Z * Z, a.1 < b.1) es → get es j = Some (l, y) →
  ∃ o, get (prefix_sums n acc es) j = Some o ∧ skip n es l acc = Some (y, o).
Proof using.
  revert j. induction es as [|e es IH]; intros j acc Hs Hj; [by apply get_Some_lookup in Hj as [_ ?]|].
  apply StronglySorted_inv in Hs as [Hs Hf]. destruct (Z.eq_dec j 0) as [->|Hj0].
  - injection Hj as ->. exists acc. split; [done|]. simpl. by rewrite Z.eqb_refl.
  - pose proof (get_Some_lt _ _ _ Hj). rewrite get_cons_pos in Hj by lia. destruct (IH (j - 1) (acc + n e.2) Hs Hj) as (o & Ho & Hk).
    exists o. cbn [prefix_sums skip]. rewrite get_cons_pos by lia. split; [done|]. rewrite Forall_forall in Hf.
    apply get_Some_lookup in Hj as [_ Hj]. apply list_elem_of_lookup_2 in Hj. specialize (Hf _ Hj). simpl in Hf.
    by rewrite (proj2 (Z.eqb_neq _ _)) by lia.
Qed.

Lemma skip_follow es l : ∀ acc, follow es l = None → skip n es l acc = None.
Proof using.
  unfold follow. induction es as [|e es IH]; intros acc; simpl; [done|]. destruct (e.1 =? l); [done|]. apply IH.
Qed.

Lemma rank_app w1 : ∀ x y w2, walk g x w1 = Some y →
  rank x (w1 ++ w2) = match rank x w1, rank y w2 with Some a, Some b => Some (a + b) | _, _ => None end.
Proof using.
  induction w1 as [|l w1 IH]; intros x y w2; simpl; [intros [= ->]; by destruct (rank y w2)|].
  destruct (g !! x) as [[t es]|]; [|done]. destruct (follow es l) as [z|] eqn:Ef; [|done]. intros Hw.
  destruct (skip n es l _) as [[z' o]|] eqn:Es; [|done].
  assert (z' = z) as ->.
  { revert Es Ef. unfold follow. generalize (if t then 1 else 0). clear. induction es as [|e es IH]; intros acc; simpl; [done|].
    destruct (e.1 =? l); [congruence|apply IH]. }
  rewrite (IH z y w2 Hw). destruct (rank z w1), (rank y w2); [f_equal; lia|done..].
Qed.

Lemma chase_rank fuel : ∀ y m w, get A y = Some m → rank y ((chase A keep fuel y).1 ++ w) = rank (chase A keep fuel y).2 w.
Proof using Hm Hok.
  pose proof (po_closed _ _ _ Hok) as Hc.
  induction fuel as [|fuel IH]; intros y m w Hy; simpl; [done|]. rewrite Hy.
  destruct (get keep y) as [[]|] eqn:Ek; [by destruct m as [? [|[]]]| |by destruct m as [? [|[]]]].
  destruct (covers_inv _ _ _ (mk_covers _ _ Hm) Ek) as (l & z & Hy' & _). assert (m = (false, [(l, z)])) as -> by congruence.
  destruct (edge_live A Hc y _ (l, z) Hy) as [mz Hz]; [by left|].
  cbn [fst snd app DawgWords.rank]. rewrite graph_of_get, Hy. simpl. rewrite Z.eqb_refl. rewrite (IH z mz w Hz).
  by destruct (rank _ w).
Qed.

Lemma chain_rank y m w : get A y = Some m → rank y ((chain_of A keep y).1 ++ w) = rank (chain_of A keep y).2 w.
Proof using Hm Hok. rewrite chain_of_eq. apply chase_rank. Qed.

Lemma rank_word w : w ∈ ws → ∃ r, rank 0 w = Some r ∧ 0 ≤ r ∧ get ws r = Some w.
Proof using Hok Hsort.
  intros Hw. pose proof (po_words _ _ _ Hok w) as Ha. rewrite bool_decide_true in Ha by done.
  destruct (rank_spec g ht (po_ranked _ _ _ Hok) (po_rising _ _ _ Hok) n w 0 (S (ht 0))) as (r & Hr & H0 & Hget); [done|apply Hok|lia|done|].
  exists r. split_and!; [done|done|]. by rewrite (words_root g ht (po_ranked _ _ _ Hok) (po_rising _ _ _ Hok) ws (po_words _ _ _ Hok)) in Hget by (done || lia).
Qed.

Lemma skip_nonneg es l : ∀ acc y o, skip n es l acc = Some (y, o) → 0 ≤ acc → 0 ≤ o.
Proof using.
  induction es as [|e es IH]; intros acc y o; simpl; [done|]. destruct (e.1 =? l); [by intros [= _ <-]|].
  intros Hs H. apply (IH _ _ _ Hs). pose proof (zlen_nonneg (words (S (ht e.2)) g e.2)). unfold count_of. lia.
Qed.

Lemma rank_nonneg v : ∀ x r, rank x v = Some r → 0 ≤ r.
Proof using.
  induction v as [|l v IH]; intros x r; simpl; [by intros [= <-]|]. destruct (g !! x) as [[t es]|]; [|done].
  destruct (skip n es l _) as [[y o]|] eqn:Es; [|done]. destruct (rank y v) as [ry|] eqn:Ey; [|done]. intros [= <-].
  pose proof (IH y ry Ey). apply skip_nonneg in Es; [lia|by destruct t].
Qed.

(** The rank of a part of a word is not negative and in range. *)
Lemma rank_part v x r : walk g 0 v = Some x → x ≠ 0 → rank 0 v = Some r → 0 ≤ r < zlen ws.
Proof using Hok Hsort.
  intros Hv Hx Hr. pose proof (walk_live _ _ _ _ (po_closed _ _ _ Hok) (po_root _ _ _ Hok) Hv) as Hgx.
  destruct (po_useful _ _ _ Hok x Hgx Hx) as [u Hu].
  assert (Hw : v ++ u ∈ ws).
  { apply (bool_decide_eq_true (_ ∈ ws)). rewrite <- (po_words _ _ _ Hok). unfold accepts in *. by rewrite walk_app, Hv. }
  destruct (rank_word _ Hw) as (r' & Hr' & H0 & Hget). rewrite (rank_app v 0 x u Hv), Hr in Hr'.
  destruct (rank_spec g ht (po_ranked _ _ _ Hok) (po_rising _ _ _ Hok) n u x (S (ht x))) as (ru & Hru & H0u & _); [done|apply Hok|lia|done|].
  rewrite Hru in Hr'. injection Hr' as <-. apply get_Some_lt in Hget. pose proof (rank_nonneg v 0 r Hr).
  pose proof (rank_nonneg u x ru Hru). lia.
Qed.
End ranks.

(** ** Steps *)

Section lookup.
Context (A : list node) (ht : Z → nat) (keep : list bool) (ws : list (list Z)).
Context (Hok : packed_ok ws A ht) (Hm : marked A keep).
Context (Hsort : StronglySorted (λ a b, lex_lt a b = true) ws) (Hmany : zlen ws < NONE).
Context (binary_search : list Z → Z → option Z) (Hsearch : searches binary_search).
Context (m : CompactDomainMap).
Notation g := (graph_of A).
Notation K := (kept_indices 0 keep).
Notation rank := (rank g (count_of A ht)).
Notation chain_of := (chain_of A keep).

Definition arrays_of : CollapsedArrays :=
  mkCollapsed (state_edges m) (state_terminal m) (edge_labels m) (edge_targets m) (edge_outputs m) (edge_tails m) (tail_bytes m).

Context (Hf : folded A (count_of A ht) keep arrays_of).

Lemma map_tail edge s ls : get (edge_tails m) edge = Some s → tail_ok (tail_bytes m) s ls → edge_tail edge m = Some ls.
Proof using.
  intros Hs Ht. unfold edge_tail. rewrite Hs. destruct Ht as [[-> ->]|(H0 & Hg & Hr)]; [done|].
  rewrite (proj2 (Z.eqb_neq _ _)), Hg by lia. exact Hr.
Qed.

Lemma kept_get k x : get K k = Some x → kept keep x.
Proof using. intros [_ H]%get_Some_lookup. apply list_elem_of_lookup_2, kept_elem in H. by rewrite Z.sub_0_r in H. Qed.

Lemma map_terminal_final k x mx : get K k = Some x → get A x = Some mx → map_terminal k m = final g x.
Proof using Hf.
  intros HK Hx. destruct mx as [t es]. destruct (fo_state _ _ _ _ Hf k x t es HK Hx) as (f & _ & _ & Ht & _).
  unfold final. rewrite graph_of_get, Hx, <- Ht. unfold map_terminal, bit, arrays_of. simpl. done.
Qed.

(** A word that is accepted after a letter goes along an edge of the map. *)
Lemma accepts_hop x t es l q : kept keep x → get A x = Some (t, es) → accepts g x (l :: q) = true →
  ∃ y my, follow es l = Some y ∧ get A y = Some my ∧ (chain_of y).1 `prefix_of` q.
Proof using Hok Hm.
  intros Hk Hx Ha. unfold accepts in Ha. rewrite (walk_hop A x l q), Hx in Ha. destruct (follow es l) as [y|] eqn:Ef; [|done].
  destruct (edge_live A (po_closed _ _ _ Hok) x _ (l, y) Hx (follow_elem _ _ _ Ef)) as [my Hy]. cbn [snd] in Hy.
  exists y, my. split; [done|]. split; [done|]. destruct (decide ((chain_of y).1 `prefix_of` q)) as [|Hn]; [done|exfalso].
  pose proof (mk_settled _ _ Hm x _ (l, y) Hk Hx (follow_elem _ _ _ Ef)) as Hz.
  destruct (chain_other A keep (po_closed _ _ _ Hok) Hm y my q Hy Hz Hn) as [E|(u & E & Hu)]; rewrite E in Ha; [done|].
  apply (final_kept A keep Hm) in Ha. unfold kept in Ha. congruence.
Qed.

(** What is found where a name is read up to a state of the map. *)
Record at_state (v : list Z) (k r x : Z) : Prop := {
  as_state : get K k = Some x;
  as_walk : walk g 0 v = Some x;
  as_rank : rank 0 v = Some r
}.

Lemma at_root : at_state [] 0 0 0.
Proof using Hok Hm.
  destruct (po_root _ _ _ Hok) as [mx Hx]. rewrite graph_of_get in Hx. pose proof (covers_root _ _ _ (mk_covers _ _ Hm) Hx) as H0.
  split; [|done|done]. rewrite (kept_split keep 0 H0). done.
Qed.

Lemma step_edge_spec bs v w l k x t es : rev bs = v ++ l :: w → get K k = Some x → get A x = Some (t, es) →
  match follow es l with
  | None => step_edge binary_search m k bs (zlen v) = None
  | Some y =>
      (¬ (chain_of y).1 `prefix_of` w → step_edge binary_search m k bs (zlen v) = None)
      ∧ ((chain_of y).1 `prefix_of` w → ∃ edge o k', step_edge binary_search m k bs (zlen v) = Some (edge, zlen v + 1 + zlen (chain_of y).1)
          ∧ get (edge_outputs m) edge = Some o ∧ get (edge_targets m) edge = Some k' ∧ get K k' = Some (chain_of y).2
          ∧ skip (count_of A ht) es l (if t then 1 else 0) = Some (y, o))
  end.
Proof using Hok Hsearch Hf.
  intros E HK Hx. destruct (fo_state _ _ _ _ Hf k x t es HK Hx) as (f & Hf1 & Hf2 & _ & Hl & He). cbn in Hf1, Hf2, Hl, He.
  unfold step_edge. rewrite Hf1, Hf2, Hl, (octet_after v w l bs E).
  assert (Hr : StronglySorted (λ a b : Z * Z, a.1 < b.1) es) by (eapply (po_rising _ _ _ Hok x t); by rewrite graph_of_get).
  pose proof (label_position_spec binary_search l (map fst es) Hsearch (rising_map _ Hr)) as Hp.
  destruct (label_position binary_search l (map fst es)) as [j|].
  - apply get_Some_lookup in Hp as [Hj0 Hp]. change (map fst es) with (fst <$> es) in Hp. apply list_lookup_fmap_Some in Hp as ([l' y] & -> & Hj).
    cbn [fst] in *. assert (Hgj : get es j = Some (l', y)) by by apply get_Some_lookup.
    rewrite (follow_unique es l' y (rising_labels _ Hr)) by by eapply list_elem_of_lookup_2.
    destruct (He j l' y Hgj) as ((s & Hs & Hts) & Ho & k' & Hk' & HKk). rewrite (map_tail _ _ _ Hs Hts).
    assert (E' : rev bs = (v ++ [l']) ++ w) by by rewrite <- app_assoc. rewrite <- (zlen_snoc v l'). split.
    + intros Hn. by rewrite (eat_tail_other _ _ _ _ E' Hn).
    + intros [w' ->]. rewrite (eat_tail_prefix _ _ _ _ E').
      destruct (skip_outs A ht es l' y j (if t then 1 else 0) Hr Hgj) as (o & Hgo & Hsk). exists (f + j), o, k'.
      split_and!; [done|by rewrite Ho|done|done|done].
  - rewrite (follow_None es l); [done|]. intros e He' Hel. apply Hp. apply list_elem_of_fmap. by exists e.
Qed.

(** One step goes to the next state of the map, and no word ends before it. *)
Definition none_before (x : Z) (w : list Z) (len : Z) : Prop :=
  ∀ q, q `prefix_of` w → q ≠ [] → zlen q < len → accepts g x q = false.

Lemma step_spec {E} bs v w l k r x mx : rev bs = v ++ l :: w → at_state v k r x → get A x = Some mx →
  ∃ res, step (E:=E) binary_search m k r bs (zlen v) = Ok res
    ∧ match res with
      | None => none_before x (l :: w) (zlen (l :: w) + 1)
      | Some (k', r', eaten) =>
          ∃ v' w' z mz, rev bs = v' ++ w' ∧ eaten = zlen v' ∧ zlen v < zlen v' ∧ at_state v' k' r' z ∧ get A z = Some mz
            ∧ none_before x (l :: w) (zlen v' - zlen v)
      end.
Proof using Hok Hm Hsort Hmany Hsearch Hf.
  intros E0 [HK Hv Hr] Hx. destruct mx as [t es]. pose proof (step_edge_spec bs v w l k x t es E0 HK Hx) as Hs.
  pose proof (kept_get k x HK) as Hkx.
  assert (Hnone : ∀ len, (∀ y, follow es l = Some y → ∀ q, (chain_of y).1 `prefix_of` q → q `prefix_of` w → len ≤ zlen q + 1) → none_before x (l :: w) len).
  { intros len Hq q Hp Hne Hlt. destruct (accepts g x q) eqn:Ea; [|done]. destruct q as [|l' q]; [done|].
    apply prefix_cons_inv_1 in Hp as Hl. subst l'. apply prefix_cons_inv_2 in Hp.
    destruct (accepts_hop x t es l q Hkx Hx Ea) as (y & my & Hfo & _ & Hpre). specialize (Hq y Hfo q Hpre Hp). rewrite zlen_cons in Hlt. lia. }
  unfold step. destruct (follow es l) as [y|] eqn:Ef.
  2: { rewrite Hs. exists None. split; [done|]. by apply Hnone. }
  destruct Hs as [Hs1 Hs2]. destruct (decide ((chain_of y).1 `prefix_of` w)) as [Hp|Hn].
  2: { rewrite (Hs1 Hn). exists None. split; [done|]. apply Hnone. intros y' [= <-] q H1 H2. destruct Hn. by etrans. }
  destruct (Hs2 Hp) as (edge & o & k' & -> & -> & -> & HK' & Hsk). destruct Hp as [w' ->].
  destruct (edge_live A (po_closed _ _ _ Hok) x _ (l, y) Hx (follow_elem _ _ _ Ef)) as [my Hy]. cbn [snd] in Hy.
  destruct (chain_live A (po_closed _ _ _ Hok) keep y my Hy) as [mz Hz]. set (ls := (chain_of y).1) in *. set (z := (chain_of y).2) in *.
  assert (Hwz : walk g x (l :: ls) = Some z).
  { rewrite walk_hop, Hx, Ef. pose proof (chain_walk A keep Hm y my [] Hy) as Hcw. by rewrite app_nil_r in Hcw. }
  assert (Hrz : rank x (l :: ls) = Some o).
  { simpl. rewrite graph_of_get, Hx, Hsk. pose proof (chain_rank A ht keep ws Hok Hm y my [] Hy) as Hcr. rewrite app_nil_r in Hcr.
    fold ls z in Hcr. rewrite Hcr. simpl. by rewrite Z.add_0_r. }
  assert (Has : at_state (v ++ l :: ls) k' (r + o) z).
  { split; [done|by rewrite walk_app, Hv|]. by rewrite (rank_app A ht v 0 x _ Hv), Hr, Hrz. }
  assert (Hz0 : z ≠ 0).
  { intros Ez. pose proof (walk_falls A ht (po_ranked _ _ _ Hok) _ _ _ (as_walk _ _ _ _ Has)) as [_ Hfl].
    rewrite Ez in Hfl. specialize (Hfl ltac:(by destruct v)). lia. }
  pose proof (rank_part A ht ws Hok Hsort _ _ _ (as_walk _ _ _ _ Has) Hz0 (as_rank _ _ _ _ Has)) as Hrng.
  rewrite (proj2 (Z.ltb_ge _ _)) by (unfold NONE in *; lia). eexists. split; [done|]. cbn.
  assert (Hlen : zlen v + 1 + zlen ls = zlen (v ++ l :: ls)) by (rewrite zlen_app, zlen_cons; lia).
  exists (v ++ l :: ls), w', z, mz. split_and!; [|done| |done|done|].
  - rewrite E0. by rewrite <- app_assoc.
  - pose proof (zlen_nonneg ls). lia.
  - apply Hnone. intros y' [= <-] q Hq _. fold ls in Hq. apply prefix_length in Hq. unfold zlen in *. lia.
Qed.

(** ** The exact lookup *)

Lemma accepts_at v k r x u : at_state v k r x → accepts g 0 (v ++ u) = accepts g x u.
Proof using. intros [_ Hv _]. unfold accepts. by rewrite walk_app, Hv. Qed.

Lemma exact_loop_spec {E} bs fuel : ∀ v w k r x mx, rev bs = v ++ w → at_state v k r x → get A x = Some mx → (length w < fuel)%nat →
  ∃ res, exact_loop (E:=E) binary_search m fuel bs k r (zlen v) = Ok res
    ∧ match res with
      | None => accepts g 0 (rev bs) = false
      | Some (k', r') => ∃ y my, at_state (rev bs) k' r' y ∧ get A y = Some my
      end.
Proof using Hok Hm Hsort Hmany Hsearch Hf.
  assert (Hlen : ∀ v w, rev bs = v ++ w → zlen bs = zlen v + zlen w) by (intros v w E0; rewrite <- zlen_app, <- E0; unfold zlen; by rewrite length_rev).
  induction fuel as [|fuel IH]; intros v w k r x mx E0 Has Hx Hfu; [lia|]. cbn [exact_loop]. pose proof (Hlen _ _ E0) as Hl.
  destruct w as [|l w].
  - rewrite app_nil_r in E0. subst v. rewrite (proj2 (Z.ltb_ge _ _)) by (unfold zlen in *; simpl in *; lia). eexists. split; [done|]. cbn. by exists x, mx.
  - rewrite (proj2 (Z.ltb_lt _ _)) by (rewrite zlen_cons in Hl; pose proof (zlen_nonneg w); lia).
    destruct (step_spec (E:=E) bs v w l k r x mx E0 Has Hx) as (res & -> & Hres). cbn [obind].
    destruct res as [[[k' r'] eaten]|].
    + destruct Hres as (v' & w' & z & mz & E1 & -> & Hlt & Has' & Hz & _). pose proof (Hlen _ _ E1) as Hl'.
      apply (IH v' w' k' r' z mz E1 Has' Hz). unfold zlen in *. simpl in *. lia.
    + eexists. split; [done|]. cbn. rewrite E0, (accepts_at v k r x _ Has). apply Hres; [done|done|lia].
Qed.

Context (Hsrc : SourceTable_len (sources m) = zlen ws).
Context (Hget : ∀ i, 0 ≤ i < zlen ws → is_Some (SourceTable_get i (sources m))).

Lemma some_state : (state_count m =? 0) = false.
Proof using Hok Hm Hf.
  apply Z.eqb_neq. unfold state_count, saturating_sub. pose proof (fo_count _ _ _ _ Hf) as Hcnt. cbn in Hcnt. rewrite Hcnt.
  pose proof (as_state _ _ _ _ at_root) as H0. apply get_Some_lt in H0. lia.
Qed.

Lemma matched_spec r w key : get ws r = Some w → matched_entry r key m = Some (mkMatch key r).
Proof using Hget.
  intros Hr. unfold matched_entry. destruct (Hget r) as [s ->]; [by eapply get_Some_lt|done].
Qed.

Lemma at_word w k r x mx : at_state w k r x → get A x = Some mx → map_terminal k m = bool_decide (w ∈ ws) ∧ (w ∈ ws → get ws r = Some w).
Proof using Hok Hsort Hf.
  intros Has Hx. split.
  - rewrite (map_terminal_final k x mx (as_state _ _ _ _ Has) Hx), <- (po_words _ _ _ Hok). unfold accepts. by rewrite (as_walk _ _ _ _ Has).
  - intros Hw. destruct (rank_word A ht ws Hok Hsort w Hw) as (r' & Hr' & _ & Hg). rewrite (as_rank _ _ _ _ Has) in Hr'. congruence.
Qed.

Lemma lookup_exact_spec {E} d :
  (rev d ∈ ws → ∃ r, get ws r = Some (rev d) ∧ lookup_exact (E:=E) binary_search m d = Ok (Some (mkMatch d r)))
  ∧ (rev d ∉ ws → lookup_exact (E:=E) binary_search m d = Ok None).
Proof using All.
  unfold lookup_exact. rewrite some_state. pose proof at_root as H0. destruct (po_root _ _ _ Hok) as [mx Hx]. rewrite graph_of_get in Hx.
  destruct (exact_loop_spec (E:=E) d (S (length d)) [] (rev d) 0 0 0 mx eq_refl H0 Hx) as (res & Hrun & Hres); [rewrite length_rev; lia|].
  change (zlen []) with 0 in Hrun. rewrite Hrun. cbn [obind]. destruct res as [[k r]|].
  - destruct Hres as (y & my & Has & Hy). destruct (at_word _ _ _ _ _ Has Hy) as [-> Hg]. split.
    + intros Hw. rewrite bool_decide_true by done. exists r. split; [by apply Hg|]. by rewrite (matched_spec r (rev d)) by by apply Hg.
    + intros Hw. by rewrite bool_decide_false by done.
  - rewrite (po_words _ _ _ Hok) in Hres. apply bool_decide_eq_false in Hres. split; [done|]. done.
Qed.

(** ** The suffix lookup *)

(** What is left in front of a match: nothing, or a dot. *)
Definition boundary (s : list Z) : Prop := s = [] ∨ ∃ s', s = 46 :: s'.

Definition candidate (w p s : list Z) : Prop := w = p ++ s ∧ p ≠ [] ∧ p ∈ ws ∧ boundary s.

(** The longest candidate of at most [len] octets. *)
Definition best (w : list Z) (len : Z) (matched : option (Z * Z)) : Prop :=
  match matched with
  | None => ∀ p s, candidate w p s → zlen p ≤ len → False
  | Some (r, rem) => ∃ p s, candidate w p s ∧ zlen p ≤ len ∧ get ws r = Some p ∧ rem = zlen s
      ∧ ∀ p' s', candidate w p' s' → zlen p' ≤ len → zlen p' ≤ zlen p
  end.

Lemma best_skip w len len' matched : best w len matched → len ≤ len' →
  (∀ p s, candidate w p s → len < zlen p ≤ len' → False) → best w len' matched.
Proof using.
  intros Hb Hle Hno. assert (Hc : ∀ p s, candidate w p s → zlen p ≤ len' → zlen p ≤ len).
  { intros p s Hc Hl. destruct (Z.le_gt_cases (zlen p) len); [done|]. exfalso. apply (Hno p s Hc). lia. }
  destruct matched as [[r rem]|]; simpl in *.
  - destruct Hb as (p & s & Hcp & Hlp & Hr & -> & Hmax). exists p, s. split_and!; [done|lia|done|done|]. intros p' s' Hc' Hl'.
    apply (Hmax p' s' Hc'). by eapply Hc.
  - intros p s Hc' Hl'. apply (Hb p s Hc'). by eapply Hc.
Qed.

Lemma none_before_skip v w k r x len p s : at_state v k r x → none_before x w len → candidate (v ++ w) p s →
  zlen v < zlen p < zlen v + len → False.
Proof using Hok.
  intros Has Hn (E0 & _ & Hp & _) Hlt. apply app_eq_inv in E0 as [(q & -> & Hw)|(q & -> & Hw)].
  { rewrite zlen_app in Hlt. pose proof (zlen_nonneg q). lia. }
  assert (q ≠ []) as Hq by (intros ->; rewrite app_nil_r in Hlt; lia). rewrite zlen_app in Hlt.
  pose proof (Hn q ltac:(by exists s) Hq ltac:(lia)) as Ha. rewrite <- (accepts_at v k r x q Has), (po_words _ _ _ Hok) in Ha.
  by apply bool_decide_eq_false in Ha.
Qed.

Lemma boundary_at bs v w : rev bs = v ++ w →
  (zlen bs - zlen v =? 0) = bool_decide (w = [])
  ∧ (w ≠ [] → ∃ b, get bs (zlen bs - zlen v - 1) = Some b ∧ ((b =? 46) = true ↔ ∃ w', w = 46 :: w')).
Proof using.
  intros E0. assert (Hl : zlen bs = zlen v + zlen w) by (rewrite <- zlen_app, <- E0; unfold zlen; by rewrite length_rev).
  rewrite Hl. replace (zlen v + zlen w - zlen v) with (zlen w) by lia. destruct w as [|l w].
  - split; [done|]. done.
  - rewrite zlen_cons in *. pose proof (zlen_nonneg w). split.
    { rewrite bool_decide_false by done. apply Z.eqb_neq. lia. }
    intros _. exists l. pose proof (octet_after v w l bs E0) as Ho. unfold octet_before, checked_sub in Ho. rewrite Hl in Ho.
    pose proof (zlen_nonneg v). rewrite (proj2 (Z.leb_le _ _)) in Ho by lia. split; [rewrite <- Ho; f_equal; lia|].
    rewrite Z.eqb_eq. split; [intros ->; by exists w|]. by intros (w' & [= -> _]).
Qed.

Lemma suffix_loop_spec {E} bs fuel : ∀ v w k r x mx matched, rev bs = v ++ w → at_state v k r x → get A x = Some mx →
  (length w < fuel)%nat → best (rev bs) (zlen v) matched →
  ∃ res, suffix_loop (E:=E) binary_search m fuel bs k r (zlen v) matched = Ok res ∧ best (rev bs) (zlen bs) res.
Proof using Hok Hm Hsort Hmany Hsearch Hf.
  assert (Hlen : ∀ v w, rev bs = v ++ w → zlen bs = zlen v + zlen w) by (intros v w E0; rewrite <- zlen_app, <- E0; unfold zlen; by rewrite length_rev).
  induction fuel as [|fuel IH]; intros v w k r x mx matched E0 Has Hx Hfu Hb; [lia|]. cbn [suffix_loop]. pose proof (Hlen _ _ E0) as Hl.
  destruct w as [|l w].
  { change (zlen []) with 0 in Hl. rewrite (proj2 (Z.ltb_ge _ _)) by lia. exists matched. split; [done|]. by rewrite Hl, Z.add_0_r. }
  rewrite (proj2 (Z.ltb_lt _ _)) by (rewrite zlen_cons in Hl; pose proof (zlen_nonneg w); lia).
  destruct (step_spec (E:=E) bs v w l k r x mx E0 Has Hx) as (res & -> & Hres). cbn [obind].
  destruct res as [[[k' r'] eaten]|].
  2: { exists matched. split; [done|]. eapply best_skip; [exact Hb|pose proof (zlen_nonneg (l :: w)); lia|]. intros p s Hc Hp. rewrite E0 in Hc.
       eapply (none_before_skip v (l :: w) k r x _ p s Has Hres Hc). lia. }
  destruct Hres as (v' & w' & z & mz & E1 & -> & Hlt & Has' & Hz & Hnone). pose proof (Hlen _ _ E1) as Hl'.
  rewrite (proj2 (Z.ltb_ge _ _)) by (pose proof (zlen_nonneg w'); lia). destruct (boundary_at bs v' w' E1) as [-> Hbd].
  assert (Hb' : best (rev bs) (zlen v' - 1) matched).
  { eapply best_skip; [exact Hb|lia|]. intros p s Hc Hp. rewrite E0 in Hc. eapply (none_before_skip v (l :: w) k r x _ p s Has Hnone Hc). lia. }
  assert (Hbnd : ∃ b : bool, (if bool_decide (w' = []) then Ok true else try! b := at_ bs (zlen bs - zlen v' - 1) in Ok (b =? 46)) = Ok (E:=E) b
    ∧ (b = true ↔ boundary w')).
  { case_bool_decide as Hw; [exists true; split; [done|]; by split; [left|]|]. destruct (Hbd Hw) as (c & Hc & Hc46).
    rewrite (at_get _ _ _ Hc). cbn [obind]. exists (c =? 46). split; [done|]. rewrite Hc46. unfold boundary. split; [by right|]. by intros [?|?]. }
  destruct Hbnd as (b & -> & Hbw). cbn [obind]. destruct (at_word _ _ _ _ _ Has' Hz) as [-> Hget'].
  apply (IH v' w' k' r' z mz); [done|done|done|unfold zlen in *; simpl in *; lia|].
  assert (Honly : ∀ p s, candidate (rev bs) p s → zlen p = zlen v' → p = v' ∧ s = w').
  { intros p s (E2 & _) Hp. rewrite E1 in E2. symmetry in E2. apply app_inj_1 in E2; [done|]. unfold zlen in Hp. lia. }
  assert (Hne : v' ≠ []) by (intros ->; change (zlen []) with 0 in Hlt; pose proof (zlen_nonneg v); lia).
  destruct (b && bool_decide (v' ∈ ws)) eqn:Eb.
  - apply andb_prop in Eb as [Hb1 Hb2]. apply bool_decide_eq_true in Hb2. cbn. exists v', w'. split_and!.
    + split_and!; [done|done|done|by apply Hbw].
    + lia.
    + by apply Hget'.
    + lia.
    + done.
  - eapply best_skip; [exact Hb'|lia|]. intros p s Hc Hp. destruct (Honly p s Hc) as [-> ->]; [lia|]. destruct Hc as (_ & _ & Hin & Hbo).
    apply andb_false_iff in Eb as [->|Eb]; [by apply Hbw in Hbo|]. by apply bool_decide_eq_false in Eb.
Qed.

(** A name covers another: it is the other, or what follows a dot there. *)
Definition covers_name (key d : list Z) : Prop := key ≠ [] ∧ (d = key ∨ ∃ front, d = front ++ 46 :: key).

(** In a text, what follows an octet of ASCII starts a character. *)
Definition text_ok (d : list Z) : Prop :=
  ∀ i b c, get d i = Some b → b < 128 → get d (i + 1) = Some c → ¬ 128 ≤ c < 192.

Lemma ascii_text_ok d : forallb (λ b, b <? 128) d = true → text_ok d.
Proof using.
  rewrite forallb_forall. intros H i b c _ _ [_ Hc]%get_Some_lookup. apply list_elem_of_lookup_2, list_elem_of_In, H in Hc. bool_prop. lia.
Qed.

Lemma candidate_covers d p s : candidate (rev d) p s ↔ rev p ∈ map (@rev Z) ws ∧ covers_name (rev p) d ∧ d = rev s ++ rev p.
Proof using.
  assert (Hin : rev p ∈ map (@rev Z) ws ↔ p ∈ ws).
  { rewrite list_elem_of_fmap. split; [|by eauto]. intros (q & Hq & Hw). rewrite <- (rev_involutive p), Hq, rev_involutive. done. }
  assert (Hr : rev d = p ++ s ↔ d = rev s ++ rev p).
  { rewrite <- rev_app_distr. split; [intros <-; by rewrite rev_involutive|intros ->; by rewrite rev_involutive]. }
  assert (Hp : rev p ≠ [] ↔ p ≠ []).
  { split; [intros H ->; done|]. intros H E0. apply H. by rewrite <- (rev_involutive p), E0. }
  unfold candidate, covers_name. rewrite Hin, Hp, Hr. split.
  - intros (-> & Hne & Hw & Hb). split_and!; [done|done| |done]. destruct Hb as [->|(s' & ->)]; [by left|]. right. exists (rev s'). simpl. by rewrite <- app_assoc.
  - intros (Hw & [Hne Hc] & Hd). split_and!; [done|done|done|]. destruct Hc as [Hc|(front & Hc)]; rewrite Hd in Hc.
    + left. apply (f_equal length) in Hc. rewrite length_app in Hc. destruct s; [done|]. simpl in Hc. rewrite length_app in Hc. simpl in Hc. lia.
    + right. replace (front ++ 46 :: rev p) with ((front ++ [46]) ++ rev p) in Hc by by rewrite <- app_assoc. apply app_inv_tail in Hc.
      exists (rev front). rewrite <- (rev_involutive s), Hc, rev_app_distr. done.
Qed.

Lemma str_get_suffix d s p : text_ok d → d = rev s ++ rev p → boundary s → str_get d (zlen s) (zlen d) = Some (rev p).
Proof using.
  intros Ht Hd Hb. assert (Hls : zlen (rev s) = zlen s) by (unfold zlen; by rewrite length_rev).
  assert (Hr : get_range d (zlen s) (zlen d) = Some (rev p)).
  { pose proof (get_range_app (rev s) (rev p) []) as H. rewrite app_nil_r, <- zlen_app, <- Hd, Hls in H. done. }
  pose proof (get_range_Some _ _ _ _ Hr) as (Hle & _). unfold str_get. rewrite (proj2 (Z.leb_le _ _)) by lia.
  assert (is_char_boundary d (zlen d) = true) as ->.
  { unfold is_char_boundary. rewrite get_None_ge by lia. by rewrite Z.eqb_refl, orb_true_r. }
  assert (is_char_boundary d (zlen s) = true) as ->; [|done]. unfold is_char_boundary. destruct Hb as [->|(s' & ->)]; [done|].
  apply orb_true_iff. right. rewrite zlen_cons. destruct (get d (zlen s' + 1)) as [c|] eqn:Ec.
  - assert (H46 : get d (zlen s') = Some 46).
    { rewrite Hd. simpl. rewrite <- app_assoc. assert (zlen s' = zlen (rev s')) as -> by (unfold zlen; by rewrite length_rev). apply get_app_mid. }
    pose proof (Ht _ _ _ H46 ltac:(lia) Ec) as Hc. apply negb_true_iff, andb_false_iff. rewrite Z.leb_gt, Z.ltb_ge. lia.
  - apply Z.eqb_eq. rewrite zlen_cons in Hle. destruct (Z.eq_dec (zlen s' + 1) (zlen d)); [done|].
    destruct (get_is_Some d (zlen s' + 1)); [pose proof (zlen_nonneg s'); lia|congruence].
Qed.

Lemma lookup_suffix_spec {E} d : text_ok d →
  ∃ res, lookup_suffix (E:=E) binary_search m d = Ok res
    ∧ match res with
      | Some (mkMatch key i) => covers_name key d ∧ get (map (@rev Z) ws) i = Some key
          ∧ ∀ key', key' ∈ map (@rev Z) ws → covers_name key' d → zlen key' ≤ zlen key
      | None => ∀ key', key' ∈ map (@rev Z) ws → ¬ covers_name key' d
      end.
Proof using All.
  intros Ht. unfold lookup_suffix. rewrite some_state. pose proof at_root as H0. destruct (po_root _ _ _ Hok) as [mx Hx]. rewrite graph_of_get in Hx.
  destruct (suffix_loop_spec (E:=E) d (S (length d)) [] (rev d) 0 0 0 mx None eq_refl H0 Hx) as (res & Hrun & Hbest); [rewrite length_rev; lia| |].
  { intros p s (_ & Hne & _) Hl. destruct p; [done|]. rewrite zlen_cons in Hl. change (zlen []) with 0 in Hl. pose proof (zlen_nonneg p). lia. }
  change (zlen []) with 0 in Hrun. rewrite Hrun. cbn [obind].
  assert (Hall : ∀ key, key ∈ map (@rev Z) ws → covers_name key d → ∃ s, candidate (rev d) (rev key) s ∧ zlen (rev key) ≤ zlen d ∧ zlen (rev key) = zlen key).
  { intros key Hin Hc. assert (Hl : zlen (rev key) = zlen key) by (unfold zlen; by rewrite length_rev). destruct Hc as [Hne Hc].
    assert (∃ front, d = front ++ key) as [front Hd].
    { destruct Hc as [->|(front & ->)]; [by exists []|]. exists (front ++ [46]). by rewrite <- app_assoc. }
    exists (rev front). split; [|split; [|done]].
    - rewrite candidate_covers, !rev_involutive. split_and!; [done|by split|done].
    - rewrite Hl, Hd, zlen_app. pose proof (zlen_nonneg front). lia. }
  destruct res as [[r rem]|].
  - destruct Hbest as (p & s & Hc & _ & Hr & -> & Hmax). pose proof Hc as (_ & _ & _ & Hb). apply candidate_covers in Hc as (Hin & Hcov & Hd).
    rewrite (str_get_suffix d s p Ht Hd Hb), (matched_spec r p _ Hr). eexists. split; [done|]. cbn. split_and!; [done| |].
    + apply get_Some_lookup in Hr as [? Hr]. apply get_Some_lookup. split; [done|]. change (map (@rev Z) ws) with (rev (A:=Z) <$> ws). by rewrite list_lookup_fmap, Hr.
    + intros key' Hk Hck. destruct (Hall key' Hk Hck) as (s' & Hc' & Hl & El). specialize (Hmax _ _ Hc' Hl). rewrite El in Hmax.
      assert (zlen (rev p) = zlen p) by (unfold zlen; by rewrite length_rev). lia.
  - eexists. split; [done|]. cbn. intros key' Hk Hck. destruct (Hall key' Hk Hck) as (s' & Hc' & Hl & _). by eapply Hbest.
Qed.
End lookup.
