(* ===== verification/CompactBuild.v ===== *)
(** * A compact map is built from every table

    From the rules of a table to the map: the sources in the order of the
    keys, the builder with all keys by either way of feeding it, the packed
    automaton and its folded form. *)

From stdpp Require Import sorting.
From S2P Require Import Prelude FilterTable FilterTableSpec Dawg DawgRep DawgReg DawgPath DawgBuild DawgWords DawgPack DawgRank.
From S2P Require Import Compact CompactChains CompactLookup.

#[local] Open Scope Z_scope.
#[local] Open Scope outcome_scope.

Notation node := (bool * list (Z * Z))%type (only parsing).
Notation lex := (λ a b, lex_lt a b = true).

(** ** Sources *)

Lemma get_map_Some {B C} (f : B → C) l i : get (map f l) i = f <$> get l i.
Proof. unfold get. destruct (i <? 0); [done|]. change (map f l) with (f <$> l). apply list_lookup_fmap. Qed.

(** Numbers narrowed with the mark of none read as they were. *)
Lemma narrow_get (mark : Z) vs i : 0 ≤ mark → forallb (λ c, (c =? U32_MAX) || (c <? mark)) vs = true → Forall is_u32 vs →
  ∀ narrow, (∀ v, 0 ≤ v < mark → narrow v = v) →
  match get (map (λ c, if c =? U32_MAX then mark else narrow c) vs) i with Some v => Some (if v =? mark then U32_MAX else v) | None => None end
  = get vs i.
Proof.
  intros Hmk Hall Hu narrow Hn. rewrite get_map_Some. destruct (get vs i) as [v|] eqn:Ev; [|done]. simpl. f_equal.
  pose proof (Forall_get _ _ _ _ Hu Ev) as Hv. rewrite forallb_forall in Hall. apply get_Some_lookup in Ev as [_ Ev].
  apply list_elem_of_lookup_2, list_elem_of_In, Hall in Ev. destruct (Z.eqb_spec v U32_MAX) as [E|Hne]; [by rewrite Z.eqb_refl|].
  simpl in Ev. apply Z.ltb_lt in Ev. destruct Hv. rewrite Hn by lia. by rewrite (proj2 (Z.eqb_neq _ _)) by lia.
Qed.

Lemma from_vec_spec vs : Forall is_u32 vs → zlen vs ≤ U32_MAX →
  SourceTable_len (from_vec vs) = zlen vs ∧ ∀ i, 0 ≤ i < zlen vs → SourceTable_get i (from_vec vs) = get vs i.
Proof.
  intros Hu Hl. unfold from_vec. destruct vs as [|value vs0]; [split; [done|]; intros i Hi; change (zlen []) with 0 in Hi; lia|]. set (vs := value :: vs0) in *. clearbody vs.
  destruct (forallb (λ c, c =? value) vs) eqn:E1; [|destruct (forallb (λ c, (c =? U32_MAX) || (c <? U8_MAX)) vs) eqn:E2;
    [|destruct (forallb (λ c, (c =? U32_MAX) || (c <? U16_MAX)) vs) eqn:E3]]; simpl.
  - rewrite as_u32_small by (pose proof (zlen_nonneg vs); lia). split; [done|]. intros i Hi. rewrite (proj2 (Z.ltb_lt _ _)) by lia.
    destruct (get_is_Some vs i Hi) as [v Hv]. rewrite Hv. rewrite forallb_forall in E1. apply get_Some_lookup in Hv as [_ Hv].
    apply list_elem_of_lookup_2, list_elem_of_In, E1 in Hv. by apply Z.eqb_eq in Hv as ->.
  - rewrite zlen_map. split; [done|]. intros i _. apply narrow_get; [done|done|done|]. intros v Hv. unfold as_u8. apply Z.mod_small. unfold U8_MAX in Hv. lia.
  - rewrite zlen_map. split; [done|]. intros i _. apply narrow_get; [done|done|done|]. intros v Hv. unfold as_u16. apply Z.mod_small. unfold U16_MAX in Hv. lia.
  - done.
Qed.

(** What [collect] has seen: equal values, or a list of all of them. *)
Lemma collect_seen vs : ∀ pre uniform dense,
  (dense = [] ∧ match uniform with None => pre = [] | Some (v, c) => pre = replicate (Z.to_nat c) v ∧ 1 ≤ c end)
  ∨ (dense = pre ∧ pre ≠ [] ∧ uniform ≠ None) →
  match collect uniform dense vs with
  | (Some (v, c), []) => pre ++ vs = replicate (Z.to_nat c) v ∧ 1 ≤ c
  | (None, []) => pre ++ vs = []
  | (_, d) => d = pre ++ vs
  end.
Proof.
  induction vs as [|s vs IH]; intros pre uniform dense H; simpl.
  - rewrite app_nil_r. destruct H as [[-> H]|(-> & Hne & Hu)].
    + destruct uniform as [[v c]|]; done.
    + destruct uniform as [[v c]|]; [|done]. by destruct pre.
  - replace (pre ++ s :: vs) with ((pre ++ [s]) ++ vs) by by rewrite <- app_assoc.
    destruct H as [[-> H]|(-> & Hne & Hu)].
    + destruct uniform as [[v c]|].
      * destruct H as [-> Hc]. rewrite bool_decide_true by done. cbn [andb].
        assert (Hrep : Z.to_nat (c + 1) = (Z.to_nat c + 1)%nat) by lia. destruct (Z.eqb_spec v s) as [->|Hvs].
        -- apply IH. left. split; [done|]. split; [|lia]. by rewrite Hrep, replicate_add.
        -- apply IH. right. split; [done|]. split; [|done]. by destruct (replicate (Z.to_nat c) v).
      * subst pre. apply IH. left. by split.
    + destruct uniform as [[v c]|]; [|done]. rewrite bool_decide_false by done. cbn [andb]. apply IH. right. split; [done|].
      split; [|done]. by destruct pre.
Qed.

Lemma collect_sources_spec {E} vs : vs ≠ [] → Forall is_u32 vs → zlen vs ≤ U32_MAX →
  ∃ s, collect_sources (E:=E) vs = Ok s ∧ SourceTable_len s = zlen vs ∧ ∀ i, 0 ≤ i < zlen vs → SourceTable_get i s = get vs i.
Proof.
  intros Hne Hu Hl. unfold collect_sources. pose proof (collect_seen vs [] None [] (or_introl (conj eq_refl eq_refl))) as H.
  rewrite app_nil_l in H. destruct (collect None [] vs) as [uniform [|d dense]].
  - destruct uniform as [[v c]|]; [|done]. destruct H as [Hvs Hc]. eexists. split; [done|]. simpl.
    assert (Hz : zlen vs = c) by (rewrite Hvs; unfold zlen; rewrite length_replicate; lia). rewrite as_u32_small by lia.
    split; [done|]. intros i Hi. rewrite (proj2 (Z.ltb_lt _ _)) by lia. rewrite Hvs. symmetry. apply get_replicate. lia.
  - assert (vs = d :: dense) as Hvs by (destruct uniform as [[v c]|]; done). rewrite <- Hvs. pose proof (from_vec_spec vs Hu Hl) as Hfv.
    exists (from_vec vs). split; [by destruct uniform as [[? ?]|]|exact Hfv].
Qed.

(** ** The builder *)

Section keys.
Context (keys : list (list Z)).
Context (Hsort : StronglySorted lex (map (@rev Z) keys)) (Htot : total (map (@rev Z) keys) < U32_MAX).
Notation ws := (map (@rev Z) keys).

Record finished (b : DawgBuilder) : Prop := {
  fi_contains : ∀ E d, contains_reversed (E:=E) d b = Ok (bool_decide (d ∈ keys));
  fi_packed : Forall is_bytes ws → zlen ws < NONE → ∀ E, ∃ A ht, packed_ok ws A ht
    ∧ finish_completed (E:=E) b = Ok (mkPackedArrays (flat_states 0 A) (flat_labels A) (flat_targets A) (flat_outputs (count_of A ht) A) (zlen ws))
}.

Lemma builder_spec {E} : ∃ b1 b2, insert_all (E:=E) keys DawgBuilder_new = Ok b1 ∧ complete (E:=E) b1 = Ok b2 ∧ finished b2.
Proof using Hsort Htot.
  destruct (insert_all_spec (E:=E) keys _ _ _ [] new_built Hsort Htot) as (b & g & chains & Hrun & Hb). rewrite app_nil_l in *.
  destruct (complete_spec (E:=E) b g chains _ Hb) as (b' & g' & F & Hc & Hrep & Hsh & Hlang & _). exists b, b'. split; [done|]. split; [done|].
  split.
  - intros E' d. unfold contains_reversed. rewrite (contains_from_spec b' g' Hrep (shape_closed _ _ _ _ Hsh)).
    + rewrite Hlang. f_equal. apply bool_decide_ext. rewrite list_elem_of_fmap. split; [|by eauto].
      intros (d' & Hd & Hin). rewrite <- (rev_involutive d), Hd, rev_involutive. done.
    + eapply shape_live; [exact Hsh|]. by left.
  - intros Hby Hmany E'. exact (pack_spec (E:=E') b' g' F ws Hrep Hsh Hlang Hsort Hby Hmany).
Qed.

Lemma contains_all_spec {E} b l : finished b → (∀ k, k ∈ l → k ∈ keys) → contains_all (E:=E) l b = Ok true.
Proof using.
  intros Hb. induction l as [|k l IH]; intros Hl; simpl; [done|]. rewrite (fi_contains _ Hb). cbn [obind].
  rewrite bool_decide_true by (apply Hl; by left). apply IH. intros x Hx. apply Hl. by right.
Qed.
End keys.

(** ** The staged input *)

Lemma stage_keys_spec keys : ∀ d text offsets, stage_keys keys d = (offsets, text) → zlen text ≤ U32_MAX →
  text = d ++ concat keys ∧ (∃ rest, offsets = zlen d :: rest)
  ∧ (∀ E b, insert_windows (E:=E) text offsets b = insert_all keys b)
  ∧ (∀ E b, contains_windows (E:=E) text offsets b = contains_all keys b).
Proof.
  induction keys as [|k keys IH]; intros d text offsets; simpl.
  - intros [= <- <-] Hl. rewrite app_nil_r. split; [done|]. rewrite as_u32_small by (pose proof (zlen_nonneg d); lia). split; [by eexists|done].
  - destruct (stage_keys keys (d ++ k)) as [o tx] eqn:Es. intros [= <- <-] Hl. destruct (IH _ _ _ Es Hl) as (Etx & (rest & Eo) & Hi & Hc).
    rewrite <- app_assoc in Etx. split; [done|]. subst o.
    assert (Hd : as_u32 (zlen d) = zlen d).
    { apply as_u32_small. pose proof (zlen_nonneg d). rewrite Etx, zlen_app in Hl. pose proof (zlen_nonneg (k ++ concat keys)). lia. }
    rewrite Hd. split; [by eexists|]. assert (Hsl : ∀ E, slice (E:=E) tx (zlen d) (zlen (d ++ k)) = Ok k).
    { intros E. unfold slice. rewrite Etx, zlen_app. by rewrite get_range_app. }
    split; intros E b.
    + specialize (Hi E). cbn [insert_windows] in *. rewrite Hsl. cbn [obind]. destruct (insert_reversed k b) as [b'| | |]; [|done..]. apply Hi.
    + specialize (Hc E). cbn [contains_windows contains_all] in *. rewrite Hsl. cbn [obind].
      destruct (contains_reversed k b) as [[]| | |]; [|done..]. apply Hc.
Qed.

(** ** The folded automaton *)

Lemma octet_words ws : Forall is_bytes ws → NoDup ws → zlen ws ≤ 257 + total ws / 2.
Proof.
  intros Hb Hnd. set (short := λ w : list Z, (length w <=? 1)%nat).
  assert (Hs : zlen (List.filter short ws) ≤ 257).
  { assert (List.filter short ws ⊆ [] :: map (λ n, [Z.of_nat n]) (seq 0 256)) as Hsub.
    { intros w [Hw Hl]%list_elem_of_In%filter_In. apply list_elem_of_In in Hw. rewrite Forall_forall in Hb. specialize (Hb w Hw). unfold short in Hl.
      apply Nat.leb_le in Hl. destruct w as [|x [|]]; [by left| |simpl in Hl; lia]. right. apply list_elem_of_fmap.
      apply Forall_cons in Hb as [Hx _]. unfold is_u8, U8_MAX in Hx. exists (Z.to_nat x). split; [f_equal; lia|]. apply elem_of_seq. lia. }
    apply NoDup_submseteq in Hsub; [|by apply NoDup_ListNoDup, List.NoDup_filter, NoDup_ListNoDup].
    apply submseteq_length in Hsub. unfold zlen. simpl in Hsub. lia. }
  assert (Hl : zlen ws = zlen (List.filter short ws) + zlen (List.filter (λ w, negb (short w)) ws)
    ∧ 2 * zlen (List.filter (λ w, negb (short w)) ws) ≤ total ws).
  { clear. unfold total. induction ws as [|w ws [IH1 IH2]]; [done|]. simpl. rewrite zlen_cons, zlen_app. unfold short in *.
    destruct (Nat.leb_spec (length w) 1); simpl; rewrite ?zlen_cons; pose proof (zlen_nonneg w); unfold zlen in *; lia. }
  destruct Hl as [-> Hl]. pose proof (Z.div_le_lower_bound (total ws) 2 _ ltac:(lia) Hl). lia.
Qed.

Section fold.
Context (A : list node) (ht : Z → nat) (ws : list (list Z)) (keep : list bool).
Context (Hok : packed_ok ws A ht) (Hm : marked A keep) (Htot : total ws < NONE).
Notation K := (kept_indices 0 keep).

(** The edges of the map, by their states and letters. *)
Definition letters (x : Z) : list (Z * Z) := match get A x with Some (_, es) => map (λ e, (x, e.1)) es | None => [] end.

Lemma letters_weight x : weight A keep (edges3 A (count_of A ht) x) = costs A keep (letters x).
Proof using Hok.
  unfold edges3, letters. destruct (get A x) as [[t es]|] eqn:Ex; [|done].
  assert (Hr : StronglySorted (λ a b : Z * Z, a.1 < b.1) es) by (eapply (po_rising _ _ _ Hok x t); by rewrite graph_of_get).
  assert (Hin : ∀ e, e ∈ es → cost A keep (x, e.1) = zlen (chain_of A keep e.2).1 + 1).
  { intros [l y] He. unfold cost, hop. cbn [fst snd]. rewrite Ex, (follow_unique es l y (rising_labels _ Hr) He).
    by destruct (chain_of A keep y) as [ls z]. }
  unfold outs. cbn [fst snd]. clear Hr Ex. generalize (if t then 1 else 0). revert Hin. induction es as [|e es IH]; intros Hin acc; [done|].
  cbn [prefix_sums zip zip_with map]. unfold weight, costs. cbn [map foldr fst snd].
  fold (weight A keep (zip es (prefix_sums (count_of A ht) (acc + count_of A ht e.2) es))). fold (costs A keep (map (λ e : Z * Z, (x, e.1)) es)).
  rewrite IH by (intros e' He'; apply Hin; by right). rewrite (Hin e) by by left. done.
Qed.

Lemma kept_NoDup k : ∀ i, NoDup (kept_indices i k).
Proof using.
  clear. induction k as [|b k IH]; intros i; simpl; [constructor|]. destruct b; [|apply IH]. constructor; [|apply IH].
  rewrite kept_elem. intros H. apply get_Some_lt in H. lia.
Qed.

Lemma letters_NoDup l : NoDup l → NoDup (concat (map letters l)).
Proof using Hok.
  induction 1 as [|x l Hx _ IH]; simpl; [constructor|]. apply NoDup_app. split_and!; [| |done].
  - unfold letters. destruct (get A x) as [[t es]|] eqn:Ex; [|constructor].
    assert (Hr : StronglySorted (λ a b : Z * Z, a.1 < b.1) es) by (eapply (po_rising _ _ _ Hok x t); by rewrite graph_of_get).
    rewrite <- (map_map fst (pair x)). apply NoDup_fmap; [by intros ? ? [= ->]|]. by apply rising_labels.
  - intros [y l'] Hy Hl. assert (y = x) as ->.
    { unfold letters in Hy. destruct (get A x) as [[t es]|]; [|by apply elem_of_nil in Hy]. by apply list_elem_of_fmap in Hy as (e & [= -> ->] & _). }
    apply elem_concat in Hl as (i & ls & Hi & Hin). apply list_elem_of_lookup_2 in Hi. apply list_elem_of_fmap in Hi as (z & -> & Hz).
    unfold letters in Hin. destruct (get A z) as [[t es]|]; [|by apply elem_of_nil in Hin]. apply list_elem_of_fmap in Hin as (e & [= -> ->] & _). done.
Qed.

Lemma fold_room : weight A keep (concat (map (edges3 A (count_of A ht)) K)) < NONE.
Proof using All.
  assert (Hw : ∀ l, weight A keep (concat (map (edges3 A (count_of A ht)) l)) = costs A keep (concat (map letters l))).
  { induction l as [|x l IH]; [done|]. cbn [map concat]. by rewrite weight_app, costs_app, letters_weight, IH. }
  rewrite Hw. pose proof (edges_cost A ht keep (po_closed _ _ _ Hok) (po_ranked _ _ _ Hok) Hm ws (po_words _ _ _ Hok) (po_root _ _ _ Hok)
    (po_reached _ _ _ Hok) (po_useful _ _ _ Hok) (concat (map letters K)) (letters_NoDup K (kept_NoDup keep 0))) as Hc.
  apply Z.le_lt_trans with (total ws); [|done]. apply Hc. intros x l Hin. apply elem_concat in Hin as (i & ls & Hi & Hin). apply list_elem_of_lookup_2 in Hi.
  apply list_elem_of_fmap in Hi as (y & -> & Hy). unfold letters in Hin. destruct (get A y) as [[t es]|] eqn:Ey; [|by apply elem_of_nil in Hin].
  apply list_elem_of_fmap in Hin as (e & [= -> ->] & He). apply kept_elem in Hy. rewrite Z.sub_0_r in Hy. split; [done|].
  unfold hop. rewrite Ey. assert (Hr : StronglySorted (λ a b : Z * Z, a.1 < b.1) es) by (eapply (po_rising _ _ _ Hok y t); by rewrite graph_of_get).
  rewrite (follow_unique es e.1 e.2 (rising_labels _ Hr)); [by eexists|by destruct e].
Qed.
End fold.

Lemma collapse_total {E} A ht ws : packed_ok ws A ht → total ws < NONE →
  ∃ keep c, marked A keep ∧ folded A (count_of A ht) keep c
    ∧ collapse_chains (E:=E) (flat_states 0 A) (flat_labels A) (flat_targets A) (flat_outputs (count_of A ht) A) = Ok c.
Proof.
  intros Hok Htot. pose proof (po_small _ _ _ Hok) as Hsm. pose proof (po_closed _ _ _ Hok) as Hc.
  destruct (marked_spec (E:=E) A Hsm Hc) as (keep & Hm & Hrun).
  destruct (collapse_spec (E:=E) A (count_of A ht) keep Hsm Hc Hm (fold_room A ht ws keep Hok Hm Htot)) as (c & Hcol & Hf);
    [by apply keep_all_spec|done|]. by exists keep, c.
Qed.

(** ** The order of the keys *)

Definition reversed_le (a b : list Z) : Prop := reverse_cmp a b ≠ Gt.

Lemma octets_cmp_lt a : ∀ b, octets_cmp a b ≠ Gt → a ≠ b → lex_lt a b = true.
Proof.
  induction a as [|x a IH]; intros [|y b]; simpl; try done. destruct (Z.compare_spec x y) as [->|Hlt|Hgt]; [|intros _ _|done].
  - intros H Hne. rewrite Z.ltb_irrefl, Z.eqb_refl. apply IH; [done|congruence].
  - by rewrite (proj2 (Z.ltb_lt _ _)).
Qed.

Lemma reversed_sorted ks : NoDup ks → StronglySorted reversed_le ks → StronglySorted lex (map (@rev Z) ks).
Proof.
  intros Hnd Hs. induction Hs as [|k ks _ IH Hf]; simpl; [constructor|]. apply NoDup_cons in Hnd as [Hk Hnd].
  constructor; [by apply IH|]. apply Forall_forall. intros w (k' & -> & Hk')%list_elem_of_fmap. rewrite Forall_forall in Hf.
  apply octets_cmp_lt; [by apply (Hf k')|]. intros E. apply Hk. rewrite <- (rev_involutive k), E, rev_involutive. done.
Qed.

Lemma total_rev ks : total (map (@rev Z) ks) = total ks.
Proof. unfold total. induction ks as [|k ks IH]; [done|]. simpl. rewrite !zlen_app, IH. f_equal. unfold zlen. by rewrite length_rev. Qed.

Lemma total_perm ks ks' : ks ≡ₚ ks' → total ks = total ks'.
Proof.
  unfold total. induction 1 as [|k ks ks' _ IH|k k' ks|ks1 ks2 ks3 _ IH1 _ IH2]; simpl; rewrite ?zlen_app; [done|lia|lia|congruence].
Qed.

Lemma total_nonneg ks : 0 ≤ total ks.
Proof. apply zlen_nonneg. Qed.

(** ** Tables *)

Lemma keys_of_error {E E'} text es l : keys_of (E:=E) text es = Ok l → keys_of (E:=E') text es = Ok l.
Proof.
  revert l. induction es as [|e es IH]; intros l; simpl; [by intros [= ->]|]. unfold key_in.
  destruct (get_range _ _ _); [|done]. simpl. destruct (keys_of (E:=E) text es) as [l1| | |]; try done. simpl. intros [= <-]. by rewrite (IH l1).
Qed.

Lemma keys_of_take {E} text es l k : keys_of (E:=E) text es = Ok l → keys_of (E:=E) text (take k es) = Ok (take k l).
Proof.
  revert l k. induction es as [|e es IH]; intros l [|k]; simpl; [by intros [= <-]|by intros [= <-]|done|].
  destruct (key_in text e); try done. simpl. destruct (keys_of text es) as [l1| | |] eqn:El; try done. intros [= <-]. by rewrite (IH l1 k).
Qed.

Lemma total_len_spec {E} text es l acc : keys_of (E:=E) text es = Ok l → 0 ≤ acc →
  ∃ r, total_len (E:=E) text es acc = Ok r
    ∧ match r with Some v => v = acc + total (map fst l) | None => USIZE_MAX < acc + total (map fst l) end.
Proof.
  revert l acc. induction es as [|e es IH]; intros l acc; simpl; [intros [= <-] _; exists (Some acc); split; [done|by rewrite Z.add_0_r]|].
  destruct (key_in text e) as [k| | |]; try done. simpl. destruct (keys_of text es) as [l1| | |]; try done. intros [= <-] Ha.
  assert (Ht : total (map fst ((k, source e) :: l1)) = zlen k + total (map fst l1)) by (unfold total; simpl; by rewrite zlen_app).
  rewrite Ht. pose proof (total_nonneg (map fst l1)). pose proof (zlen_nonneg k). unfold checked_add.
  destruct (Z.leb_spec (acc + zlen k) USIZE_MAX).
  - destruct (IH l1 (acc + zlen k) eq_refl ltac:(lia)) as (r & -> & Hr). exists r. split; [done|]. destruct r; lia.
  - exists None. split; [done|]. lia.
Qed.

Lemma total_take ks k : total (take k ks) ≤ total ks.
Proof.
  rewrite <- (take_drop k ks) at 2. unfold total. rewrite concat_app, zlen_app. pose proof (zlen_nonneg (concat (drop k ks))). lia.
Qed.

Lemma sample_total {E} sorted l k : SortedDomains_iter (E:=E) sorted = Ok l →
  StronglySorted lex (map (@rev Z) (map fst l)) → total (map (@rev Z) (map fst l)) < U32_MAX →
  Forall is_bytes (map (@rev Z) (map fst l)) → zlen l < NONE →
  ∃ p, sample_automaton (E:=E) k sorted = Ok p.
Proof.
  intros Hl Hs Ht Hb Hn. unfold sample_automaton. rewrite (keys_of_take _ _ _ _ Hl). cbn [obind].
  assert (Etake : map (@rev Z) (map fst (take k l)) = take k (map (@rev Z) (map fst l))) by by rewrite <- !fmap_take.
  destruct (builder_spec (map fst (take k l))) with (E := E) as (b1 & b2 & -> & Hc & Hfi).
  - rewrite Etake. eapply StronglySorted_app_1_l. rewrite take_drop. exact Hs.
  - rewrite Etake. pose proof (total_take (map (@rev Z) (map fst l)) k). lia.
  - cbn [obind]. rewrite Hc. cbn [obind]. destruct (fi_packed _ _ Hfi) with (E := E) as (A & ht & _ & ->).
    + rewrite Etake. by apply Forall_take.
    + rewrite Etake. unfold zlen in *. rewrite length_take, !length_map. lia.
    + by eexists.
Qed.

Lemma staging_total {E} sorted l bytes : SortedDomains_iter (E:=E) sorted = Ok l →
  StronglySorted lex (map (@rev Z) (map fst l)) → total (map (@rev Z) (map fst l)) < U32_MAX →
  Forall is_bytes (map (@rev Z) (map fst l)) → zlen l < NONE →
  ∃ b, staging_reduces_peak (E:=E) sorted bytes = Ok b.
Proof.
  intros Hl Hs Ht Hb Hn. unfold staging_reduces_peak. destruct (_ <=? _); [by eexists|].
  generalize (Z.to_nat SAMPLE_ENTRIES). intros k. destruct (sample_total sorted l k Hl Hs Ht Hb Hn) as [p ->]. cbn [obind]. by eexists.
Qed.

(** Types of the rules: octets and 32-bit sources. *)
Definition rule_typed (p : list Z * Z) : Prop := is_bytes p.1 ∧ is_u32 p.2.

Section table.
Context (hasher : list Z → Z) (sort : list Z → list Entry → list Entry).

(** Both ways of feeding the builder end with a builder that has all keys. *)
Lemma built_either l s (stage : bool) : StronglySorted lex (map (@rev Z) (map fst l)) → total (map (@rev Z) (map fst l)) < U32_MAX →
  ∃ b, (if stage then build_staged hasher l s else build_direct hasher l) = Ok b ∧ finished (map fst l) b.
Proof.
  intros Hs Ht. destruct (builder_spec (map fst l) Hs Ht (E:=DomainTable)) as (b1 & b2 & Hrun & Hc & Hfi). exists b2. split; [|done].
  pose proof (contains_all_spec (map fst l) (E:=DomainTable) b2 (map fst l) Hfi (λ k Hk, Hk)) as Hca.
  destruct stage; [unfold build_staged|unfold build_direct; by rewrite Hrun; cbn [obind]; rewrite Hc; cbn [obind]; rewrite Hca].
  destruct (stage_keys (map fst l) []) as [offsets text] eqn:Es.
  assert (Htx : zlen text ≤ U32_MAX).
  { assert (text = concat (map fst l)) as ->.
    { clear -Es. rewrite <- (app_nil_l (concat (map fst l))). revert Es. generalize (map fst l), (@nil Z). clear l. intros ks. revert offsets text.
      induction ks as [|k ks IH]; intros offsets text d; simpl; [intros [= _ <-]; by rewrite app_nil_r|].
      destruct (stage_keys ks (d ++ k)) as [o tx] eqn:E. intros [= _ <-]. rewrite (IH _ _ _ E). by rewrite <- app_assoc. }
    rewrite total_rev in Ht. unfold total in Ht. lia. }
  destruct (stage_keys_spec _ _ _ _ Es Htx) as (_ & _ & Hi & Hcw). rewrite Hi, Hrun. cbn [obind]. rewrite Hc. cbn [obind].
  by rewrite Hcw, Hca.
Qed.

(** What a map shows of the words [ws] with their sources. *)
Record map_of (l : list (list Z * Z)) (m : CompactDomainMap) : Prop := {
  mo_len : map_len m = zlen l;
  mo_source : ∀ i p, get l i = Some p → map_source i m = Some p.2;
  mo_exact : ∀ E bs d, searches bs →
    (∀ src, (d, src) ∈ l → ∃ i, get l i = Some (d, src) ∧ lookup_exact (E:=E) bs m d = Ok (Some (mkMatch d i)))
    ∧ (d ∉ map fst l → lookup_exact (E:=E) bs m d = Ok None);
  mo_suffix : ∀ E bs d, searches bs → text_ok d → ∃ res, lookup_suffix (E:=E) bs m d = Ok res
    ∧ match res with
      | Some (mkMatch key i) => covers_name key d ∧ (∃ src, get l i = Some (key, src))
          ∧ ∀ key', key' ∈ map fst l → covers_name key' d → zlen key' ≤ zlen key
      | None => ∀ key', key' ∈ map fst l → ¬ covers_name key' d
      end
}.

Lemma map_of_nil : map_of [] CompactDomainMap_default.
Proof.
  split.
  - done.
  - intros i p [_ H]%get_Some_lookup. by rewrite lookup_nil in H.
  - intros E bs d _. split; [by intros src ?%elem_of_nil|done].
  - intros E bs d _ _. exists None. split; [done|]. by intros key ?%elem_of_nil.
Qed.

Lemma get_fst l i k : get (map fst l) i = Some k → ∃ src : Z, get l i = Some (k : list Z, src).
Proof.
  rewrite get_map_Some. destruct (get l i) as [[k' src]|]; [|done]. intros [= ->]. by exists src.
Qed.

(** The folded automaton of the sorted keys with their sources. *)
Lemma folded_map_of l A ht keep m : NoDup (map fst l) →
  let ws := map (@rev Z) (map fst l) in
  StronglySorted lex ws → zlen ws < NONE → packed_ok ws A ht → marked A keep → folded A (count_of A ht) keep (arrays_of m) →
  SourceTable_len (sources m) = zlen l → (∀ i, 0 ≤ i < zlen l → SourceTable_get i (sources m) = get (map snd l) i) →
  map_of l m.
Proof.
  intros Hnd' ws Hs' Hmany Hok Hm Hfm Hsl Hsg. assert (Hlw : zlen ws = zlen l) by (unfold ws; by rewrite !zlen_map).
  assert (Hsrc : SourceTable_len (sources m) = zlen ws) by lia.
  assert (Hget : ∀ i, 0 ≤ i < zlen ws → is_Some (SourceTable_get i (sources m))).
  { intros i Hri. rewrite Hsg by lia. apply get_is_Some. rewrite zlen_map. lia. }
  assert (Hinv : map (@rev Z) ws = map fst l).
  { unfold ws. rewrite map_map. rewrite <- (map_id (map fst l)) at 2. apply map_ext. intros k. apply rev_involutive. }
  split.
  - done.
  - intros i p Hp'. pose proof (get_Some_lt _ _ _ Hp'). unfold map_source. rewrite Hsg by lia. by rewrite get_map_Some, Hp'.
  - intros E bs d Hbs. destruct (lookup_exact_spec A ht keep ws Hok Hm Hs' Hmany bs Hbs m Hfm Hsrc Hget (E:=E) d) as [H1 H2].
    assert (Hin : rev d ∈ ws ↔ d ∈ map fst l).
    { rewrite <- Hinv. rewrite list_elem_of_fmap. split; [intros H; exists (rev d); split; [by rewrite rev_involutive|done]|].
      intros (w & -> & Hw). by rewrite rev_involutive. }
    split; [|intros Hd; apply H2; by rewrite Hin].
    intros s Hd. destruct H1 as (i & Hgi & Hrun); [apply Hin, list_elem_of_fmap; by exists (d, s)|]. exists i. split; [|done].
    assert (Hgk : get (map fst l) i = Some d) by (rewrite <- Hinv, get_map_Some, Hgi; simpl; by rewrite rev_involutive).
    destruct (get_fst l i d Hgk) as [s' Hs2]. rewrite Hs2. do 2 f_equal.
    apply list_elem_of_lookup in Hd as [j Hj]. apply get_Some_lookup in Hs2 as [_ Hs2].
    assert (Z.to_nat i = j) as E1.
    { apply (NoDup_lookup (map fst l) _ _ d Hnd'); change (map fst l) with (fst <$> l); by rewrite list_lookup_fmap, ?Hs2, ?Hj. }
    rewrite E1 in Hs2. congruence.
  - intros E bs d Hbs Htx. destruct (lookup_suffix_spec A ht keep ws Hok Hm Hs' Hmany bs Hbs m Hfm Hsrc Hget (E:=E) d Htx) as (res & Hrun & Hres).
    rewrite Hinv in Hres. exists res. split; [done|]. destruct res as [[key i]|]; [|done]. destruct Hres as (Hc & Hgk & Hmax).
    split; [done|]. split; [by apply get_fst|done].
Qed.

Lemma try_from_table_spec r t l : implements hasher r t → rules r ≠ [] → Forall rule_typed (rules r) →
  SortedDomains_iter (E:=unit) (into_sorted sort t) = Ok l → l ≡ₚ rules r → StronglySorted reversed_le (map fst l) →
  total (map fst (rules r)) < U32_MAX →
  ∃ m, try_from_table hasher sort t = Ok m ∧ map_of l m.
Proof.
  intros Hi Hne Hty Hl Hp Hs Ht. destruct (implements_iter hasher (E:=DomainTable) r t Hi) as (Hit & Hlen & _ & Hnd).
  assert (Hnd' : NoDup (map fst l)) by by rewrite Hp.
  pose proof (reversed_sorted _ Hnd' Hs) as Hs'. set (ws := map (@rev Z) (map fst l)) in *.
  assert (Htw : total ws < U32_MAX) by (unfold ws; rewrite total_rev; by rewrite (total_perm (map fst l) (map fst (rules r))) by by rewrite Hp).
  assert (Hty' : Forall rule_typed l) by by rewrite Hp.
  assert (Hby : Forall is_bytes ws).
  { unfold ws. rewrite !Forall_fmap. eapply Forall_impl; [exact Hty'|]. intros p [Hb _]. unfold compose. unfold is_bytes. by apply Forall_rev. }
  assert (Hlw : zlen ws = zlen l) by (unfold ws; by rewrite !zlen_map).
  assert (Hmany : zlen ws < NONE).
  { assert (NoDup ws) as Hndw by by apply lex_NoDup. pose proof (octet_words ws Hby Hndw) as Ho. unfold NONE, U32_MAX in *.
    pose proof (Z.div_lt_upper_bound (total ws) 2 2147483648 ltac:(lia) ltac:(lia)). lia. }
  assert (Hlr : zlen l = zlen (rules r)) by (unfold zlen; by rewrite Hp).
  assert (Hln : l ≠ []) by (intros ->; by apply Permutation_nil in Hp).
  unfold try_from_table, DomainTable_is_empty. unfold DomainTable_len in Hlen. rewrite Hlen.
  rewrite (proj2 (Z.eqb_neq _ _)) by (destruct (rules r); [done|rewrite zlen_cons; pose proof (zlen_nonneg l0); lia]).
  unfold iter in Hit. destruct (total_len_spec (E:=DomainTable) _ _ _ 0 Hit ltac:(lia)) as (tot & -> & Htot). cbn [obind].
  destruct tot as [tot|]; [|unfold USIZE_MAX, U32_MAX in *; lia]. unfold DomainTable_len. rewrite Hlen.
  rewrite (proj2 (Z.ltb_ge _ _)), (proj2 (Z.leb_gt _ _)) by (unfold NONE in *; lia). cbn [orb].
  assert (Hsi : SortedDomains_iter (E:=DomainTable) (into_sorted sort t) = Ok l) by by apply (keys_of_error (E:=unit)).
  rewrite Hsi. cbn [obind].
  destruct (collect_sources_spec (E:=DomainTable) (map snd l)) as (src & -> & Hsl & Hsg).
  { by destruct l. }
  { apply Forall_fmap. eapply Forall_impl; [exact Hty'|]. by intros p [_ ?]. }
  { rewrite zlen_map. unfold NONE in *. lia. }
  rewrite zlen_map in Hsl, Hsg. cbn [obind].
  destruct (staging_total (E:=DomainTable) _ l tot Hsi Hs' Htw Hby) as (stage & ->); [lia|]. cbn [obind].
  destruct (built_either l src stage Hs' Htw) as (b & -> & Hfi). cbn [obind].
  destruct (fi_packed _ _ Hfi Hby Hmany DomainTable) as (A & ht & Hok & ->). cbn [obind root_terms p_states p_labels p_targets p_outputs].
  fold ws. rewrite Hsl, as_u32_small by (pose proof (zlen_nonneg l); unfold NONE in *; lia). rewrite Hlw, Z.eqb_refl. cbn [negb].
  destruct (collapse_total (E:=DomainTable) A ht ws Hok Htw) as (keep & c & Hm & Hf & ->). cbn [obind]. eexists. split; [done|].
  apply (folded_map_of l A ht keep _ Hnd'); [done|done|done|done|by destruct c|done|done].
Qed.

(** A table that is too large comes back. *)
Lemma try_from_table_large r t : implements hasher r t → U32_MAX ≤ total (map fst (rules r)) → try_from_table hasher sort t = Err t.
Proof.
  intros Hi Ht. destruct (implements_iter hasher (E:=DomainTable) r t Hi) as (Hit & Hlen & _ & _).
  unfold try_from_table, DomainTable_is_empty. unfold DomainTable_len in Hlen. rewrite Hlen.
  assert (rules r ≠ []) as Hne by (intros Er; rewrite Er in Ht; unfold total in Ht; simpl in Ht; unfold zlen, U32_MAX in Ht; simpl in Ht; lia).
  rewrite (proj2 (Z.eqb_neq _ _)) by (destruct (rules r); [done|rewrite zlen_cons; pose proof (zlen_nonneg l); lia]).
  unfold iter in Hit. destruct (total_len_spec (E:=DomainTable) _ _ _ 0 Hit ltac:(lia)) as (tot & -> & Htot). cbn [obind].
  destruct tot as [tot|]; [|done]. rewrite (proj2 (Z.leb_le U32_MAX tot)) by lia. by rewrite orb_true_r.
Qed.

(** Every table whose keys fit has a map. *)
Lemma table_map r t : sorts reversed_le sort → implements hasher r t → Forall rule_typed (rules r) → total (map fst (rules r)) < U32_MAX →
  ∃ m l, try_from_table hasher sort t = Ok m ∧ l ≡ₚ rules r ∧ NoDup (map fst l) ∧ map_of l m.
Proof.
  intros Hs Hi Hty Ht. destruct (implements_iter hasher (E:=unit) r t Hi) as (_ & Hlen & _ & Hnd). destruct (rules r) as [|p rs] eqn:Er.
  - exists CompactDomainMap_default, []. unfold try_from_table, DomainTable_is_empty. unfold DomainTable_len in Hlen. rewrite Hlen.
    split_and!; [done|done|constructor|apply map_of_nil].
  - rewrite <- Er in *. destruct (into_sorted_spec hasher reversed_le sort r t Hs Hi) as (l & Hl & Hp & Ho & _).
    destruct (try_from_table_spec r t l Hi) as (m & Hm & Hmo); [by rewrite Er|done..|]. exists m, l. split_and!; [done|done|by rewrite Hp|done].
Qed.

Lemma unique_rule (l : list (list Z * Z)) key src src' : NoDup (map fst l) → (key, src) ∈ l → (key, src') ∈ l → src = src'.
Proof.
  intros Hnd [i Hi]%list_elem_of_lookup [j Hj]%list_elem_of_lookup.
  assert (i = j) as ->; [|congruence]. apply (NoDup_lookup (map fst l) _ _ key Hnd);
    change (map fst l) with (fst <$> l); by rewrite list_lookup_fmap, ?Hi, ?Hj.
Qed.
End table.
