(* ===== verification/FilterProps.v ===== *)
(** * The properties of filtering *)

From stdpp Require Import sorting.
From S2P Require Import Prelude Regex RegexVm RegexSem RegexStep RegexParse FilterTable FilterTableSpec Dawg DawgRep DawgReg DawgPath DawgBuild DawgWords.
From S2P Require Import DawgPack DawgRank Compact CompactLookup CompactBuild.

#[local] Open Scope Z_scope.
#[local] Open Scope outcome_scope.

(** ** Regular expressions *)

Lemma Regex_new_ok pattern :
  Regex_new pattern
  = try! a := parse_pattern pattern in
    if Z.of_nat (size a) + 1 <=? MAX_INSTS then Ok (mkProg (program a) (is_start_anchored a)) else Err too_big.
Proof.
  unfold Regex_new, compile_pattern. destruct (parse_pattern pattern); simpl; try done. apply compile_ast_ok.
Qed.

Lemma compile_ast_Ok a prog : compile_ast a = Ok prog → prog = mkProg (program a) (is_start_anchored a).
Proof. rewrite compile_ast_ok. case_match; congruence. Qed.

Definition example_pattern : list Z := as_bytes "^(.+\.)?ads[0-9]{1,2}\.net$".
Definition used_scratch : Scratch := mkScratch (mkSet [U32_MAX; 3; 0] U32_MAX [0%nat]) (mkSet [] 0 []).

(** C9. For every pattern that compiles, over every input and whatever scratch
    space earlier runs left behind, with generations about to wrap: the machine
    returns, leaves usable scratch space, and answers true exactly when the
    parsed expression matches the input somewhere. *)
Theorem regex_matches pattern prog input s :
  Regex_new pattern = Ok prog → scratch_ok s →
  ∃ ast b s', parse_pattern pattern = Ok ast ∧ run prog input s = Ok (b, s') ∧ scratch_ok s'
    ∧ (b = true ↔ ∃ i j, (i ≤ j ≤ length input)%nat ∧ matches input ast i j).
Proof.
  unfold Regex_new, compile_pattern. intros Hp Hs. pose proof (parse_pattern_ok pattern) as Ha.
  destruct (parse_pattern pattern) as [a| | |]; try done. simpl in *.
  apply compile_ast_Ok in Hp as ->.
  destruct (run_program a input s) as (b & s' & -> & Hs' & Hb); [apply Ha|done|].
  exists a, b, s'. split_and!; [done..|]. rewrite Hb. split; intros (i & j & Hi & Hm); exists i, j.
  - split; [|done]. pose proof (matches_bound _ _ _ _ Hi Hm). lia.
  - split; [lia|done].
Qed.

Lemma used_scratch_ok : scratch_ok used_scratch.
Proof. unfold scratch_ok, set_weak, used_scratch, U32_MAX. simpl. repeat (constructor || lia). Qed.

Lemma regex_matches_witness :
  ∃ ast i j, parse_pattern example_pattern = Ok ast ∧ matches (as_bytes "x.ads12.net") ast i j.
Proof.
  destruct (Regex_new example_pattern) as [prog| | |] eqn:E; [|vm_compute in E; discriminate..].
  destruct (regex_matches example_pattern prog (as_bytes "x.ads12.net") used_scratch E used_scratch_ok)
    as (ast & b & s' & Hp & Hr & _ & Hb).
  vm_compute in E. injection E as <-. vm_compute in Hr. injection Hr as <- _.
  destruct (proj1 Hb eq_refl) as (i & j & _ & Hm). exists ast, i, j. split; [exact Hp|exact Hm].
Defined.

(** Compiling a pattern always returns. It is an error exactly when the
    pattern does not parse or its program would pass the instruction limit; a
    program is never longer than the limit, its jumps stay inside it, and the
    nesting of the parsed expression is bounded by the depth limit. *)
Theorem regex_new_total pattern :
  match Regex_new pattern with
  | Ok prog =>
      ∃ ast, parse_pattern pattern = Ok ast ∧ insts prog = program ast ∧ zlen (insts prog) ≤ MAX_INSTS
        ∧ prog_ok (insts prog) ∧ ast_ok ast ∧ height ast ≤ MAX_HEIGHT
  | Err e =>
      parse_pattern pattern = Err e
      ∨ ∃ ast, parse_pattern pattern = Ok ast ∧ e = too_big ∧ MAX_INSTS < zlen (program ast)
  | Panic | NoFuel => False
  end.
Proof.
  rewrite Regex_new_ok. pose proof (parse_pattern_ok pattern) as Ha.
  destruct (parse_pattern pattern) as [a|e| |]; simpl in *; [|by left|done..].
  assert (Hz : zlen (program a) = Z.of_nat (size a) + 1) by (unfold zlen; rewrite length_program; lia).
  destruct (Z.leb_spec (Z.of_nat (size a) + 1) MAX_INSTS).
  - exists a. simpl. split_and!; [done|done|lia|apply program_ok|apply Ha|apply Ha].
  - right. exists a. split_and!; [done..|lia].
Qed.

Lemma parse_all_ok ps :
  yields (parse_all ps) (λ l, Forall2 (λ p a, parse_pattern p = Ok a) ps l ∧ all_of ast_ok l).
Proof.
  induction ps as [|p ps IH]; simpl; [done|]. pose proof (parse_pattern_ok p) as Hp.
  destruct (parse_pattern p) as [a| | |] eqn:E; simpl in *; try done.
  eapply yields_obind; [exact IH|]. intros l [Hl Ho]. split; [by constructor|]. split; [apply Hp|done].
Qed.

Lemma match_some_Exists input l i j : match_some (matches input) l i j ↔ Exists (λ a, matches input a i j) l.
Proof. induction l as [|a l IH]; simpl; [by rewrite Exists_nil|by rewrite Exists_cons, IH]. Qed.

(** A set of patterns that compiles, whatever its size, matches an input
    exactly when one of its patterns does; the empty set matches nothing. *)
Theorem regex_set_any patterns set input s :
  RegexSet_new patterns = Ok set → scratch_ok s →
  ∃ asts b s', Forall2 (λ p a, parse_pattern p = Ok a) patterns asts
    ∧ RegexSet_is_match set input s = Ok (b, s') ∧ scratch_ok s'
    ∧ (b = true ↔ ∃ a i j, a ∈ asts ∧ (i ≤ length input)%nat ∧ matches input a i j).
Proof.
  unfold RegexSet_new. intros Hn Hs. pose proof (parse_all_ok patterns) as Hp.
  destruct (parse_all patterns) as [asts| | |]; try done. simpl in *. destruct Hp as [Hp Ho].
  assert (Hrun : ∀ a, ast_ok a → set = Some (mkProg (program a) (is_start_anchored a)) →
    (∀ i j, matches input a i j ↔ Exists (λ a, matches input a i j) asts) →
    ∃ b s', RegexSet_is_match set input s = Ok (b, s') ∧ scratch_ok s'
      ∧ (b = true ↔ ∃ a i j, a ∈ asts ∧ (i ≤ length input)%nat ∧ matches input a i j)).
  { intros a Ha -> He. destruct (run_program a input s Ha Hs) as (b & s' & Hr & Hs' & Hb).
    exists b, s'. split_and!; [done..|]. rewrite Hb. setoid_rewrite He. setoid_rewrite Exists_exists.
    naive_solver. }
  exists asts. destruct asts as [|a [|a' asts]].
  - injection Hn as <-. exists false, s. split_and!; [done..|]. split; [done|]. by intros (? & ? & ? & ?%elem_of_nil & _).
  - destruct (compile_ast a) as [p| | |] eqn:E; try done. injection Hn as <-. apply compile_ast_Ok in E as ->.
    destruct (Hrun a) as (b & s' & H); [apply Ho|done| |by exists b, s'].
    intros i j. rewrite Exists_cons, Exists_nil. tauto.
  - destruct (compile_ast (Alt (a :: a' :: asts))) as [p| | |] eqn:E; try done.
    injection Hn as <-. apply compile_ast_Ok in E as ->.
    destruct (Hrun (Alt (a :: a' :: asts))) as (b & s' & H); [by split|done| |by exists b, s'].
    intros i j. apply match_some_Exists.
Qed.

Definition example_set : list (list Z) := map as_bytes ["ads"; "^trk"; "tracker$"]%string.

Lemma regex_set_any_witness :
  ∃ asts a i j, Forall2 (λ p a, parse_pattern p = Ok a) example_set asts ∧ a ∈ asts
    ∧ matches (as_bytes "foo.tracker") a i j.
Proof.
  destruct (RegexSet_new example_set) as [set| | |] eqn:E; [|vm_compute in E; discriminate..].
  destruct (regex_set_any example_set set (as_bytes "foo.tracker") used_scratch E used_scratch_ok)
    as (asts & b & s' & Hp & Hr & _ & Hb).
  vm_compute in E. injection E as <-. vm_compute in Hr. injection Hr as <- _.
  destruct (proj1 Hb eq_refl) as (a & i & j & Ha & _ & Hm). exists asts, a, i, j. split; [exact Hp|split; [exact Ha|exact Hm]].
Defined.

(** The complement of the ranges of a class holds exactly the octets that
    none of the ranges holds. *)
Theorem complement_exact ranges b :
  Forall is_range ranges →
  Exists (λ r, r.1 ≤ b ≤ r.2) (complement_ranges ranges) ↔ is_u8 b ∧ ¬ Exists (λ r, r.1 ≤ b ≤ r.2) ranges.
Proof. apply complement_ok. Qed.

Lemma complement_exact_witness :
  Forall is_range WORD_RANGES
  ∧ (Exists (λ r, r.1 ≤ 94 ≤ r.2) (complement_ranges WORD_RANGES)
     ↔ is_u8 94 ∧ ¬ Exists (λ r, r.1 ≤ 94 ≤ r.2) WORD_RANGES).
Proof.
  assert (H : Forall is_range WORD_RANGES) by (repeat constructor; vm_compute; discriminate).
  split; [exact H|exact (complement_exact WORD_RANGES 94 H)].
Defined.

(** A flag that is set inside a plain group is still set after the group: the
    [B] of [((?i)a)B] is folded, so the expression is the one of [ab]. *)
Example flags_leave_group :
  parse_pattern (as_bytes "((?i)a)B") = Ok (Concat [Concat [Regex.Empty; Literal 97]; Literal 98]).
Proof. vm_compute. reflexivity. Qed.

(** ** The domain table *)

(** C10. Whatever the hash function does, any sequence of insertions, removals,
    lookups and reservations gives the answers of the list of rules: the first
    of two rules for a name wins, a removed name can come again, what does not
    fit into 32-bit positions is refused and noted, and growing loses nothing.
    The table then holds those rules, no name twice, and the sorted list given
    to the automaton builder is a sorted permutation of them. *)
Theorem domain_table_refines hasher ops order sort :
  Forall op_ok ops → sorts order sort →
  let (answers, r) := spec_run ops no_rules in
  ∃ t l, table_run (E:=unit) hasher ops DomainTable_default = Ok (answers, t)
    ∧ iter (E:=unit) t = Ok (rules r) ∧ DomainTable_len t = zlen (rules r) ∧ overflowed t = refused r
    ∧ NoDup (map fst (rules r))
    ∧ SortedDomains_iter (E:=unit) (into_sorted sort t) = Ok l ∧ l ≡ₚ rules r ∧ StronglySorted order (map fst l).
Proof.
  intros Hops Hs. destruct (table_run_spec hasher (E:=unit) ops _ _ (no_rules_implemented hasher) Hops) as (t & Ht & Hi).
  destruct (spec_run ops no_rules) as [answers r]. simpl in *. destruct (implements_iter hasher (E:=unit) r t Hi) as (H1 & H2 & H3 & H4).
  destruct (into_sorted_spec hasher order sort r t Hs Hi) as (l & Hl & Hp & Ho & _).
  exists t, l. split_and!; done.
Qed.

(** A sort of the entries by their keys read from the back, as the builder of
    the compact map asks for. *)
Definition key_or_nil (text : list Z) (e : Entry) : list Z :=
  match key_in (E:=unit) text e with Ok k => k | _ => [] end.

Definition entry_le (text : list Z) (a b : Entry) : Prop := reversed_le (key_or_nil text a) (key_or_nil text b).

#[global] Instance entry_le_dec text a b : Decision (entry_le text a b) := decide (¬ reverse_cmp _ _ = Gt).

Definition sort_entries (text : list Z) (es : list Entry) : list Entry := merge_sort (entry_le text) es.

Lemma octets_cmp_trans a : ∀ b c, octets_cmp a b ≠ Gt → octets_cmp b c ≠ Gt → octets_cmp a c ≠ Gt.
Proof.
  induction a as [|x a IH]; intros [|y b] [|z c]; simpl; try done.
  destruct (Z.compare_spec x y), (Z.compare_spec y z), (Z.compare_spec x z); subst; try done; try lia. apply IH.
Qed.

Lemma octets_cmp_total a : ∀ b, octets_cmp a b ≠ Gt ∨ octets_cmp b a ≠ Gt.
Proof.
  induction a as [|x a IH]; intros [|y b]; simpl; try (by left); try (by right).
  destruct (Z.compare_spec x y), (Z.compare_spec y x); subst; try lia; try (by left); try (by right). apply IH.
Qed.

Lemma sort_entries_sorts : sorts reversed_le sort_entries.
Proof.
  intros text es l _. split; [apply merge_sort_Permutation|].
  assert (Hs : StronglySorted (entry_le text) (sort_entries text es)).
  { apply StronglySorted_merge_sort.
    - intros a b c. apply octets_cmp_trans.
    - intros a b. apply octets_cmp_total. }
  induction Hs as [|e es' Hs IH Hf]; intros l'; simpl; [intros [= <-]; constructor|].
  destruct (key_in text e) as [k| | |] eqn:Ek; try done. simpl. destruct (keys_of text es') as [l1| | |] eqn:El; try done.
  intros [= <-]. simpl. constructor; [by apply IH|]. clear IH Hs. revert l1 El.
  induction Hf as [|e' es' He _ IH]; intros l1; simpl; [intros [= <-]; constructor|].
  destruct (key_in text e') as [k'| | |] eqn:Ek'; try done. simpl. destruct (keys_of text es') as [l2| | |]; try done.
  intros [= <-]. simpl. constructor; [|by apply IH]. unfold entry_le, key_or_nil in He. by rewrite Ek, Ek' in He.
Qed.

Definition example_ops : list TableOp :=
  [Reserve 3; InsertIfAbsent (as_bytes "ads.net") 1; InsertIfAbsent (as_bytes "b.org") 2; InsertIfAbsent (as_bytes "ads.net") 3;
   Remove (as_bytes "ads.net"); Remove (as_bytes "x.y"); InsertIfAbsent (as_bytes "ads.net") 4; GetKeyValue (as_bytes "ads.net")].

(** All keys of a length share a bucket. *)
Lemma domain_table_refines_witness :
  ∃ t l, table_run (E:=unit) zlen example_ops DomainTable_default
      = Ok ([Reserved; Inserted true; Inserted true; Inserted false; Removed true; Removed false; Inserted true;
             Found (Some (as_bytes "ads.net", 4))], t)
    ∧ SortedDomains_iter (E:=unit) (into_sorted sort_entries t) = Ok l
    ∧ l ≡ₚ [(as_bytes "b.org", 2); (as_bytes "ads.net", 4)].
Proof.
  assert (Hops : Forall op_ok example_ops) by (repeat constructor; vm_compute; (reflexivity || discriminate)).
  pose proof (domain_table_refines zlen example_ops reversed_le sort_entries Hops sort_entries_sorts) as H.
  destruct (spec_run example_ops no_rules) as [answers r] eqn:E. vm_compute in E. injection E as <- <-.
  destruct H as (t & l & Ht & _ & _ & _ & _ & Hl & Hp & _). exists t, l. split; [exact Ht|split; [exact Hl|exact Hp]].
Defined.

(** ** The automaton of the domains *)

(** C11. Distinct names that come in the order of their reversed octets and fit
    into 32-bit positions: the builder returns, its automaton contains exactly
    those names, and it is minimal: no two states besides the root accept the
    same words. *)
Theorem dawg_exact_and_minimal domains :
  StronglySorted (λ a b, lex_lt a b = true) (map (@rev Z) domains) → total (map (@rev Z) domains) < U32_MAX →
  ∃ b, (try! b := insert_all (E:=unit) domains DawgBuilder_new in complete b) = Ok b
    ∧ (∀ d, contains_reversed (E:=unit) d b = Ok (bool_decide (d ∈ domains)))
    ∧ ∀ x y s t, x ≠ 0 → y ≠ 0 → get (states b) x = Some (Some s) → get (states b) y = Some (Some t) →
        (∀ w, contains_from (E:=unit) w x b = contains_from (E:=unit) w y b) → x = y.
Proof.
  intros Hs Ht. destruct (insert_all_spec (E:=unit) domains _ _ _ [] new_built Hs Ht) as (b & g & chains & -> & Hb). cbn [obind].
  destruct (complete_spec (E:=unit) b g chains _ Hb) as (b' & g' & F & -> & Hrep & Hsh & Hlang & _). exists b'. split; [done|].
  pose proof (shape_closed _ _ _ _ Hsh) as Hcl. split.
  - intros d. unfold contains_reversed. rewrite (contains_from_spec b' g' Hrep Hcl).
    + rewrite Hlang. f_equal. apply bool_decide_ext. rewrite app_nil_l, list_elem_of_fmap. split; [|by eauto].
      intros (d' & Hd & Hin). rewrite <- (rev_involutive d), Hd, rev_involutive. done.
    + eapply shape_live; [exact Hsh|]. by left.
  - intros x y s t Hx Hy Hgx Hgy Heq. destruct (Rep_live _ _ _ _ Hrep Hgx) as [[tx ex] Hnx], (Rep_live _ _ _ _ Hrep Hgy) as [[ty ey] Hny].
    destruct (shape_done _ _ Hsh) as [_ Hall].
    destruct (Hall x tx ex Hnx) as [[?|HxF] _]; [done|]. destruct (Hall y ty ey Hny) as [[?|HyF] _]; [done|].
    apply (frozen_minimal g' F Hsh); [done|done|]. intros w. specialize (Heq w).
    rewrite !(contains_from_spec b' g' Hrep Hcl) in Heq by by eexists. by injection Heq.
Qed.

Definition example_domains : list (list Z) := map as_bytes ["x.org"; "b.net"; "ads.net"; "x.ads.net"]%string.

Lemma dawg_exact_and_minimal_witness :
  ∃ b, (try! b := insert_all (E:=unit) example_domains DawgBuilder_new in complete b) = Ok b
    ∧ contains_reversed (E:=unit) (as_bytes "ads.net") b = Ok true ∧ contains_reversed (E:=unit) (as_bytes "s.net") b = Ok false.
Proof.
  assert (Hs : StronglySorted (λ a b, lex_lt a b = true) (map (@rev Z) example_domains)) by (repeat constructor).
  destruct (dawg_exact_and_minimal example_domains Hs ltac:(vm_compute; reflexivity)) as (b & Hrun & Hin & _).
  exists b. split; [exact Hrun|]. split; rewrite Hin; vm_compute; reflexivity.
Defined.

(** ** The compact map *)

Definition op_typed (op : TableOp) : Prop :=
  match op with InsertIfAbsent key src => is_bytes key ∧ is_u32 src | _ => True end.

Lemma rules_typed ops : Forall op_typed ops → ∀ r, Forall rule_typed (rules r) → Forall rule_typed (rules (spec_run ops r).2).
Proof.
  induction 1 as [|op ops Hop _ IH]; intros r Hr; [done|]. cbn [spec_run].
  assert (H1 : Forall rule_typed (rules (spec_op op r).2)).
  { destruct op as [key src|key|key|n]; simpl; [| |done..]; [|apply Forall_forall; intros p [Hp _]%list_elem_of_In%filter_In; apply list_elem_of_In in Hp; by eapply Forall_forall].
    destruct (rule_of key (rules r)); [done|]. destruct (arena_fits _ _ _); [|done]. apply Forall_app. by split; [|constructor]. }
  destruct (spec_op op r) as [a r1]. specialize (IH r1 H1). by destruct (spec_run ops r1).
Qed.

Lemma rule_of_Some key l p : rule_of key l = Some p → p ∈ l ∧ p.1 = key.
Proof. intros H. apply find_some in H as [Hin Hk]. apply bool_decide_eq_true in Hk. by rewrite list_elem_of_In. Qed.

Lemma rule_of_None key l : rule_of key l = None ↔ key ∉ map fst l.
Proof.
  unfold rule_of. split.
  - intros H (p & -> & Hp)%list_elem_of_fmap. apply list_elem_of_In in Hp. pose proof (find_none _ _ H p Hp) as Hn. simpl in Hn.
    by rewrite bool_decide_true in Hn.
  - intros H. destruct (List.find _ l) as [p|] eqn:E; [|done]. apply find_some in E as [Hin Hk]. apply bool_decide_eq_true in Hk as <-.
    destruct H. apply list_elem_of_fmap. exists p. by rewrite list_elem_of_In.
Qed.

(** C12. The compact map of a table answers as its rules do.  After any
    sequence of operations on a table whose names together are shorter than
    32-bit positions reach, building the map succeeds, whichever way the
    builder is fed.  An exact lookup finds a name exactly when it has a rule,
    with a number under which the map gives the source of the rule; a suffix
    lookup returns the longest name with a rule that is the queried one or
    follows a dot in it, and nothing when there is none.  A table with longer
    names comes back unchanged. *)
Theorem compact_map_refines hasher ops sort search :
  Forall op_ok ops → Forall op_typed ops → sorts reversed_le sort → searches search →
  ∃ answers t, table_run (E:=unit) hasher ops DomainTable_default = Ok (answers, t)
    ∧ let l := rules (spec_run ops no_rules).2 in
      (U32_MAX ≤ total (map fst l) → try_from_table hasher sort t = Err t)
    ∧ (total (map fst l) < U32_MAX → ∃ m, try_from_table hasher sort t = Ok m ∧ map_len m = zlen l
        ∧ (∀ d, match rule_of d l with
                | Some (_, src) => ∃ i, lookup_exact (E:=unit) search m d = Ok (Some (mkMatch d i)) ∧ map_source i m = Some src
                | None => lookup_exact (E:=unit) search m d = Ok None
                end)
        ∧ ∀ d, text_ok d → ∃ res, lookup_suffix (E:=unit) search m d = Ok res
            ∧ match res with
              | Some (mkMatch key i) => covers_name key d ∧ (∃ src, rule_of key l = Some (key, src) ∧ map_source i m = Some src)
                  ∧ ∀ key', covers_name key' d → rule_of key' l ≠ None → zlen key' ≤ zlen key
              | None => ∀ key', covers_name key' d → rule_of key' l = None
              end).
Proof.
  intros Hops Hty Hs Hb. destruct (table_run_spec hasher (E:=unit) ops _ _ (no_rules_implemented hasher) Hops) as (t & Ht & Hi).
  exists (spec_run ops no_rules).1, t. split; [done|]. pose proof (rules_typed ops Hty no_rules (Forall_nil_2 _)) as Hrt.
  set (r := (spec_run ops no_rules).2) in *. cbv zeta. split; [by apply try_from_table_large|]. intros Htot.
  destruct (table_map hasher sort r t Hs Hi Hrt Htot) as (m & l & Hm & Hp & Hnd & Hmo). exists m. split; [done|].
  assert (Hin : ∀ key, rule_of key (rules r) = None ↔ key ∉ map fst l) by (intros key; rewrite rule_of_None; by rewrite <- Hp).
  assert (Hrule : ∀ key src, (key, src) ∈ l → rule_of key (rules r) = Some (key, src)).
  { intros key src Hk. destruct (rule_of key (rules r)) as [[k s]|] eqn:E.
    - apply rule_of_Some in E as [E Ek]. simpl in Ek. subst k. rewrite <- Hp in E. do 2 f_equal. by eapply (unique_rule l).
    - exfalso. apply Hin in E. apply E, list_elem_of_fmap. by exists (key, src). }
  split; [rewrite (mo_len _ _ Hmo); unfold zlen; by rewrite Hp|]. split.
  - intros d. destruct (mo_exact _ _ Hmo unit search d Hb) as [H1 H2]. destruct (rule_of d (rules r)) as [[k src]|] eqn:E.
    + apply rule_of_Some in E as [E Ek]. simpl in Ek. subst k. rewrite <- Hp in E. destruct (H1 src E) as (i & Hg & Hl). exists i. split; [done|].
      by apply (mo_source _ _ Hmo) in Hg.
    + apply H2. by apply Hin.
  - intros d Hd. destruct (mo_suffix _ _ Hmo unit search d Hb Hd) as (res & Hl & Hres). exists res. split; [done|].
    destruct res as [[key i]|].
    + destruct Hres as (Hc & (src & Hg) & Hmax). split; [done|]. split.
      * exists src. split; [|by apply (mo_source _ _ Hmo) in Hg]. apply Hrule. apply get_Some_lookup in Hg as [_ Hg]. by eapply list_elem_of_lookup_2.
      * intros key' Hc' Hr. apply Hmax; [|done]. destruct (decide (key' ∈ map fst l)) as [|Hn]; [done|]. by apply Hin in Hn.
    + intros key' Hc. apply Hin. intros Hk. by apply (Hres key' Hk).
Qed.

Lemma position_searches : searches (λ l x, position x l).
Proof. intros l x _. apply position_finds. Qed.

(** A name with a chain longer than an edge of the map can hold, a shared
    suffix, and three widths of sources. *)
Definition compact_ops : list TableOp :=
  [InsertIfAbsent (as_bytes "ads.example.com") 1; InsertIfAbsent (as_bytes "example.com") 7;
   InsertIfAbsent (as_bytes "tracker.b.org") 300; InsertIfAbsent (as_bytes "example.com") 9;
   InsertIfAbsent (repeat 97 300 ++ as_bytes ".net") 70000; Remove (as_bytes "b.org")].

Lemma compact_map_refines_witness :
  ∃ answers t m, table_run (E:=unit) zlen compact_ops DomainTable_default = Ok (answers, t)
    ∧ try_from_table zlen sort_entries t = Ok m ∧ map_len m = 4
    ∧ (∃ i, lookup_exact (E:=unit) (λ l x, position x l) m (as_bytes "example.com") = Ok (Some (mkMatch (as_bytes "example.com") i))
         ∧ map_source i m = Some 7)
    ∧ lookup_exact (E:=unit) (λ l x, position x l) m (as_bytes "le.com") = Ok None
    ∧ ∃ key i, lookup_suffix (E:=unit) (λ l x, position x l) m (as_bytes "www.example.com") = Ok (Some (mkMatch key i))
        ∧ covers_name key (as_bytes "www.example.com") ∧ 11 ≤ zlen key.
Proof.
  assert (Hops : Forall op_ok compact_ops) by (repeat constructor; vm_compute; (reflexivity || discriminate)).
  assert (Hty : Forall op_typed compact_ops).
  { repeat constructor; try (apply is_bytesb_ok; vm_compute; reflexivity); vm_compute; discriminate. }
  destruct (compact_map_refines zlen compact_ops sort_entries (λ l x, position x l) Hops Hty sort_entries_sorts position_searches)
    as (answers & t & Hrun & _ & Hok). exists answers, t. destruct Hok as (m & Hm & Hlen & Hex & Hsuf).
  { vm_compute. reflexivity. }
  exists m. split; [exact Hrun|]. split; [exact Hm|]. split; [rewrite Hlen; vm_compute; reflexivity|].
  assert (E1 : rule_of (as_bytes "example.com") (rules (spec_run compact_ops no_rules).2) = Some (as_bytes "example.com", 7)) by (vm_compute; reflexivity).
  assert (E2 : rule_of (as_bytes "le.com") (rules (spec_run compact_ops no_rules).2) = None) by (vm_compute; reflexivity).
  pose proof (Hex (as_bytes "example.com")) as H1. rewrite E1 in H1. pose proof (Hex (as_bytes "le.com")) as H2. rewrite E2 in H2.
  split; [exact H1|split; [exact H2|]].
  destruct (Hsuf (as_bytes "www.example.com")) as (res & Hl & Hres); [apply ascii_text_ok; vm_compute; reflexivity|].
  assert (Hc : covers_name (as_bytes "example.com") (as_bytes "www.example.com")).
  { split; [discriminate|]. right. exists (as_bytes "www"). vm_compute. reflexivity. }
  destruct res as [[key i]|].
  - exists key, i. split; [exact Hl|]. destruct Hres as (Hk & _ & Hmax). split; [exact Hk|].
    assert (Hlen2 : zlen (as_bytes "example.com") = 11) by (vm_compute; reflexivity). rewrite <- Hlen2.
    apply Hmax; [exact Hc|]. rewrite E1. discriminate.
  - exfalso. specialize (Hres _ Hc). rewrite E1 in Hres. discriminate.
Defined.
