(* ===== verification/Varint.v ===== *)
(** * QUIC variable-length integers ([onetdns-quic/src/varint.rs])

    The two top bits of the first octet give the length.  Reading accepts every
    length; writing chooses the shortest one. *)

From S2P Require Import Prelude.

(** The octets [1 .. len] of [read]; [get] fails past the end of the buffer. *)
Fixpoint read_octets (n : nat) (i : Z) (buf : list Z) (val : Z) : option Z :=
  match n with
  | O => Some val
  | S n =>
      match get buf i with
      | None => None
      | Some b => read_octets n (i + 1) buf (Z.lor (u64_shl val 8) b)
      end
  end.

(** [varint::read]. *)
Definition read (buf : list Z) : option (Z * Z) :=
  match get buf 0 with
  | None => None
  | Some first =>
      let len := Z.shiftl 1 (Z.shiftr first 6) in
      match read_octets (Z.to_nat (len - 1)) 1 buf (Z.land first 63) with
      | None => None
      | Some val => Some (val, len)
      end
  end.

(** [varint::write]: the octets appended to [out]. *)
Definition write (v : Z) : list Z :=
  if v <? 2 ^ 6 then [v mod 2 ^ 8]
  else if v <? 2 ^ 14 then u16_to_be (Z.lor (v mod 2 ^ 16) 0x4000)
  else if v <? 2 ^ 30 then u32_to_be (Z.lor (v mod 2 ^ 32) 0x80000000)
  else u64_to_be (Z.lor v 0xc000000000000000).

(** [varint::len]. *)
Definition len (v : Z) : Z :=
  if v <? 2 ^ 6 then 1 else if v <? 2 ^ 14 then 2 else if v <? 2 ^ 30 then 4 else 8.

(** ** Lemmas *)

Lemma shl8_lor val b : 0 ≤ val < 2 ^ 56 → is_u8 b → Z.lor (u64_shl val 8) b = val * 256 + b.
Proof.
  unfold is_u8, U8_MAX. intros Hv Hb. unfold u64_shl. rewrite Z.mod_small.
  - by rewrite lor_shiftl_add by lia.
  - rewrite Z.shiftl_mul_pow2 by lia. lia.
Qed.

(** The octets after the first, read in order. *)
Lemma read_octets_spec bs : ∀ pre post val,
  is_bytes bs → 0 ≤ val → (val + 1) * 256 ^ zlen bs ≤ 2 ^ 64 →
  read_octets (length bs) (zlen pre) (pre ++ bs ++ post) val = Some (be_val val bs).
Proof.
  induction bs as [|b bs IH]; intros pre post val Hb Hv Hmax; [done|].
  inversion Hb as [|? ? Hb1 Hbs]; subst. pose proof Hb1 as Hb1'. unfold is_u8, U8_MAX in Hb1'.
  rewrite zlen_cons, Z.pow_add_r in Hmax by (pose proof (zlen_nonneg bs); lia).
  assert (Hpos : 0 < 256 ^ zlen bs) by (apply Z.pow_pos_nonneg; [lia|apply zlen_nonneg]).
  cbn [length read_octets app]. rewrite get_app_mid.
  rewrite shl8_lor by (done || nia).
  replace (zlen pre + 1) with (zlen (pre ++ [b])) by (rewrite zlen_app; reflexivity).
  replace (pre ++ b :: bs ++ post) with ((pre ++ [b]) ++ bs ++ post) by (by rewrite <-app_assoc).
  rewrite IH; [done|done|lia|]. nia.
Qed.

(** Reading one encoding: [first] carries the length and the top bits. *)
Lemma read_spec first bs post :
  is_u8 first → is_bytes bs → Z.shiftl 1 (Z.shiftr first 6) = zlen bs + 1 →
  (Z.land first 63 + 1) * 256 ^ zlen bs ≤ 2 ^ 64 →
  read (first :: bs ++ post) = Some (be_val (Z.land first 63) bs, zlen bs + 1).
Proof.
  intros Hf Hb Hl Hmax. unfold read. rewrite get_cons_0, Hl.
  replace (Z.to_nat (zlen bs + 1 - 1)) with (length bs) by (unfold zlen; lia).
  pose proof (read_octets_spec bs [first] post (Z.land first 63) Hb) as H.
  change ([first] ++ bs ++ post) with (first :: bs ++ post) in H. change (zlen [first]) with 1 in H.
  rewrite H; [done| |done]. apply Z.land_nonneg. right. lia.
Qed.

Lemma lor_add_disjoint a b n : 0 ≤ n → 0 ≤ b < 2 ^ n → a mod 2 ^ n = 0 → Z.lor b a = a + b.
Proof.
  intros Hn Hb Ha. rewrite Z.lor_comm. rewrite (Z.div_mod a (2 ^ n)) at 1 by lia.
  rewrite Ha, Z.add_0_r, (Z.mul_comm (2 ^ n)), <-Z.shiftl_mul_pow2 by done.
  rewrite lor_shiftl_add by done. rewrite (Z.div_mod a (2 ^ n)) at 2 by lia. lia.
Qed.

Lemma write_bytes v : 0 ≤ v → is_bytes (write v).
Proof.
  intros Hv. unfold write. destruct (Z.ltb_spec v (2 ^ 6)); [|repeat case_match].
  - repeat constructor; unfold U8_MAX; div_mod_lia.
  - apply u16_to_be_bytes.
  - apply u32_to_be_bytes.
  - apply u64_to_be_bytes.
Qed.

Lemma zlen_write v : zlen (write v) = len v.
Proof. unfold write, len. by repeat case_match. Qed.

Lemma len_pos v : 1 ≤ len v ≤ 8.
Proof. unfold len. repeat case_match; lia. Qed.

(** A number below [64 * 256^k] written with length code [t] reads back. *)
Lemma read_be t first bs v post :
  is_bytes (first :: bs) → zlen bs ≤ 7 → Z.shiftl 1 t = zlen bs + 1 → 0 ≤ t →
  be_val 0 (first :: bs) = t * 64 * 256 ^ zlen bs + v → 0 ≤ v < 64 * 256 ^ zlen bs →
  read (first :: bs ++ post) = Some (v, zlen bs + 1).
Proof.
  intros Hb Hlen Ht Ht0 Hval Hv. inversion Hb as [|? ? Hf Hbs]; subst.
  change (be_val 0 (first :: bs)) with (be_val first bs) in Hval. rewrite be_val_shift in Hval.
  pose proof (be_val_bound bs 0 Hbs ltac:(lia)) as Hbound. pose proof (zlen_nonneg bs).
  assert (Hpos : 0 < 256 ^ zlen bs) by (apply Z.pow_pos_nonneg; lia).
  assert (Hmax : 64 * 256 ^ zlen bs ≤ 2 ^ 62).
  { change (2 ^ 62) with (64 * 256 ^ 7). apply Z.mul_le_mono_nonneg_l; [lia|].
    apply Z.pow_le_mono_r; lia. }
  unfold is_u8, U8_MAX in Hf.
  assert (Hdiv : first / 64 = t ∧ first mod 64 = (v - be_val 0 bs) / 256 ^ zlen bs ∧
    (first mod 64) * 256 ^ zlen bs + be_val 0 bs = v).
  { assert (Hm : v - be_val 0 bs = (first - t * 64) * 256 ^ zlen bs) by nia.
    assert (Hr : 0 ≤ first - t * 64 < 64) by nia.
    assert (first / 64 = t) by (symmetry; apply (Z.div_unique _ _ _ (first - t * 64)); lia).
    assert (first mod 64 = first - t * 64) by (symmetry; apply (Z.mod_unique _ _ t); lia).
    rewrite Hm, Z.div_mul by lia. split_and!; [done|done|lia]. }
  destruct Hdiv as (Hd & _ & Hv').
  assert (Hland : Z.land first 63 = first mod 64) by (by rewrite (land_ones_mod first 6)).
  rewrite read_spec.
  - do 2 f_equal. by rewrite Hland, be_val_shift.
  - done.
  - done.
  - rewrite Z.shiftr_div_pow2 by lia. change (2 ^ 6) with 64. by rewrite Hd.
  - rewrite Hland. assert (first mod 64 < 64) by (apply Z.mod_pos_bound; lia). nia.
Qed.

Lemma lor_top v m n : 0 ≤ n → 0 ≤ v < 2 ^ n → m mod 2 ^ n = 0 → Z.lor v m = m + v.
Proof. intros. by apply lor_add_disjoint with n. Qed.

(** What is written reads back; beyond 62 bits the top two bits are lost. *)
Lemma read_write v post : is_u64 v → read (write v ++ post) = Some (v mod 2 ^ 62, len v).
Proof.
  unfold is_u64, U64_MAX. intros Hv. unfold write, len.
  destruct (Z.ltb_spec v (2 ^ 6)); [|destruct (Z.ltb_spec v (2 ^ 14)); [|destruct (Z.ltb_spec v (2 ^ 30))]].
  - rewrite (Z.mod_small v (2 ^ 8)), (Z.mod_small v (2 ^ 62)) by lia. apply (read_be 0 _ []); try done; change (zlen (@nil Z)) with 0; [|cbn; lia..].
    apply Forall_singleton. unfold is_u8, U8_MAX. lia.
  - rewrite (Z.mod_small v (2 ^ 62)), (Z.mod_small v (2 ^ 16)), (lor_top v _ 14) by (done || lia).
    pose proof (be_val_u16 0 (16384 + v)) as Hval. unfold is_u16, U16_MAX in Hval.
    pose proof (u16_to_be_bytes (16384 + v)) as Hb. unfold u16_to_be in *. cbn [app].
    apply (read_be 1 _ [_]); try done; change (zlen [_]) with 1; first [rewrite Hval; lia | lia].
  - rewrite (Z.mod_small v (2 ^ 62)), (Z.mod_small v (2 ^ 32)), (lor_top v _ 30) by (done || lia).
    pose proof (be_val_u32 0 (2147483648 + v)) as Hval. unfold is_u32, U32_MAX in Hval.
    pose proof (u32_to_be_bytes (2147483648 + v)) as Hb. unfold u32_to_be in *. cbn [app].
    apply (read_be 2 _ [_; _; _]); try done; change (zlen [_; _; _]) with 3; first [rewrite Hval; lia | lia].
  - assert (Hlor : Z.lor v 0xc000000000000000 = 0xc000000000000000 + v mod 2 ^ 62).
    { rewrite (Z.div_mod v (2 ^ 62)) at 1 by lia. set (r := v mod 2 ^ 62). set (q := v / 2 ^ 62).
      assert (Hr : 0 ≤ r < 2 ^ 62) by (apply Z.mod_pos_bound; lia).
      assert (Hq : 0 ≤ q < 4) by (unfold q; split; [apply Z.div_pos|apply Z.div_lt_upper_bound]; lia).
      rewrite (Z.mul_comm (2 ^ 62)), <-lor_shiftl_add by lia. rewrite <-Z.lor_assoc, (Z.lor_comm r), Z.lor_assoc.
      replace (Z.lor (Z.shiftl q 62) 0xc000000000000000) with 0xc000000000000000.
      - rewrite Z.lor_comm. by apply (lor_top r _ 62).
      - assert (q = 0 ∨ q = 1 ∨ q = 2 ∨ q = 3) as [->|[->|[->| ->]]] by lia; reflexivity. }
    rewrite Hlor. set (r := v mod 2 ^ 62). assert (Hr : 0 ≤ r < 2 ^ 62) by (apply Z.mod_pos_bound; lia).
    pose proof (be_val_u64 0 (0xc000000000000000 + r)) as Hval. unfold is_u64, U64_MAX in Hval.
    pose proof (u64_to_be_bytes (0xc000000000000000 + r)) as Hb. unfold u64_to_be, u32_to_be in *. cbn [app] in *.
    apply (read_be 3 _ [_; _; _; _; _; _; _]); try done; change (zlen [_; _; _; _; _; _; _]) with 7; first [rewrite Hval; lia | lia].
Qed.

(** [write] takes the shortest form: no encoding of the value is shorter. *)
Lemma read_octets_bound n : ∀ i buf val r,
  is_bytes buf → 0 ≤ val → (val + 1) * 256 ^ Z.of_nat n ≤ 2 ^ 64 →
  read_octets n i buf val = Some r → 0 ≤ r < (val + 1) * 256 ^ Z.of_nat n.
Proof.
  induction n as [|n IH]; intros i buf val r Hb Hv Hmax; cbn [read_octets]; [intros [= <-]; lia|].
  destruct (get buf i) as [b|] eqn:Hg; [|done]. pose proof (Forall_get _ _ _ _ Hb Hg) as Hb8.
  rewrite Nat2Z.inj_succ, Z.pow_succ_r in * by lia.
  assert (Hpos : 0 < 256 ^ Z.of_nat n) by (apply Z.pow_pos_nonneg; lia).
  rewrite shl8_lor by (done || nia). unfold is_u8, U8_MAX in Hb8.
  intros H. apply IH in H; [nia|done|lia|nia].
Qed.

Lemma read_octets_len n : ∀ i buf val r,
  read_octets n i buf val = Some r → 0 ≤ i → n = O ∨ i + Z.of_nat n ≤ zlen buf.
Proof.
  induction n as [|n IH]; intros i buf val r; cbn [read_octets]; [by left|].
  destruct (get buf i) as [b|] eqn:Hg; [|done]. intros H Hi. right.
  pose proof (get_Some_lt _ _ _ Hg). destruct (IH _ _ _ _ H ltac:(lia)) as [->|]; lia.
Qed.

Lemma read_bounds buf v n :
  is_bytes buf → read buf = Some (v, n) → 1 ≤ n ≤ 8 ∧ n ≤ zlen buf ∧ 0 ≤ v < 2 ^ (8 * n - 2).
Proof.
  intros Hb. unfold read. destruct (get buf 0) as [first|] eqn:Hg; [|done]. cbv zeta.
  pose proof (Forall_get _ _ _ _ Hb Hg) as Hf. unfold is_u8, U8_MAX in Hf.
  rewrite Z.shiftr_div_pow2 by lia. change (2 ^ 6) with 64.
  assert (Hq : 0 ≤ first / 64 < 4) by div_mod_lia.
  rewrite (land_ones_mod first 6) by done. change (2 ^ 6) with 64.
  assert (Hm : 0 ≤ first mod 64 < 64) by (apply Z.mod_pos_bound; lia).
  destruct (read_octets _ _ _ _) as [r|] eqn:Hr; [|done]. intros [= <- <-].
  pose proof (read_octets_len _ _ _ _ _ Hr ltac:(lia)) as Hlen.
  assert (Hl : 1 ≤ zlen buf) by (apply get_Some_lt in Hg; lia).
  set (n := Z.shiftl 1 (first / 64)) in *.
  assert (Hn : n = 1 ∨ n = 2 ∨ n = 4 ∨ n = 8).
  { assert (Hcase : first / 64 = 0 ∨ first / 64 = 1 ∨ first / 64 = 2 ∨ first / 64 = 3) by lia.
    unfold n. destruct Hcase as [E|[E|[E|E]]]; rewrite E; vm_compute; tauto. }
  assert (Hpow : 64 * 256 ^ (n - 1) = 2 ^ (8 * n - 2) ∧ 64 * 256 ^ (n - 1) ≤ 2 ^ 64).
  { destruct Hn as [->|[->|[->| ->]]]; cbn; lia. }
  assert (Hpos : 0 < 256 ^ (n - 1)) by (apply Z.pow_pos_nonneg; lia).
  apply read_octets_bound in Hr; [|done|lia|]; rewrite Z2Nat.id in * by lia; nia.
Qed.

Lemma write_shortest buf v n : is_bytes buf → read buf = Some (v, n) → len v ≤ n.
Proof.
  intros Hb H. destruct (read_bounds buf v n Hb H) as (Hn & _ & Hv). unfold read in H.
  destruct (get buf 0) as [first|] eqn:Hg; [|done]. cbv zeta in H.
  destruct (read_octets _ _ _ _); [|done]. injection H as _ Hn'.
  pose proof (Forall_get _ _ _ _ Hb Hg) as Hf. unfold is_u8, U8_MAX in Hf.
  rewrite Z.shiftr_div_pow2 in Hn' by lia. change (2 ^ 6) with 64 in Hn'.
  assert (Hq : 0 ≤ first / 64 < 4) by div_mod_lia.
  assert (Hcase : first / 64 = 0 ∨ first / 64 = 1 ∨ first / 64 = 2 ∨ first / 64 = 3) by lia.
  unfold len. destruct Hcase as [E|[E|[E|E]]]; rewrite E in Hn'; vm_compute in Hn'; subst n; cbn in Hv;
    repeat match goal with |- context [?a <? ?b] => destruct (Z.ltb_spec a b) end; cbn in *; lia.
Qed.
