(* ===== verification/QuicFrame.v ===== *)
(** * QUIC frames ([onetdns-quic/src/frame.rs])

    The body of a packet is a sequence of frames.  [None] of the source is
    [Err tt] here, so that the panics of slicing stay visible. *)

From S2P Require Import Prelude.
From S2P Require Varint.

Open Scope outcome_scope.

(** [usize] is 64 bits wide, so [usize::try_from] on a [u64] is the identity. *)
Definition MAX_PARSED_FRAMES : Z := 1024.
Definition MAX_PARSED_ACK_RANGES : Z := 256.

(** Frame types. *)
Definition PADDING : Z := 0x00.
Definition PING : Z := 0x01.
Definition ACK : Z := 0x02.
Definition ACK_ECN : Z := 0x03.
Definition RESET_STREAM : Z := 0x04.
Definition STOP_SENDING : Z := 0x05.
Definition CRYPTO : Z := 0x06.
Definition NEW_TOKEN : Z := 0x07.
Definition STREAM : Z := 0x08.
Definition MAX_DATA : Z := 0x10.
Definition MAX_STREAM_DATA : Z := 0x11.
Definition MAX_STREAMS_BIDI : Z := 0x12.
Definition MAX_STREAMS_UNI : Z := 0x13.
Definition DATA_BLOCKED : Z := 0x14.
Definition STREAM_DATA_BLOCKED : Z := 0x15.
Definition STREAMS_BLOCKED_BIDI : Z := 0x16.
Definition STREAMS_BLOCKED_UNI : Z := 0x17.
Definition NEW_CONNECTION_ID : Z := 0x18.
Definition RETIRE_CONNECTION_ID : Z := 0x19.
Definition PATH_CHALLENGE : Z := 0x1a.
Definition PATH_RESPONSE : Z := 0x1b.
Definition CONNECTION_CLOSE : Z := 0x1c.
Definition CONNECTION_CLOSE_APP : Z := 0x1d.
Definition HANDSHAKE_DONE : Z := 0x1e.

(** [enum Frame]. *)
Inductive Frame : Type :=
  | Padding (n : Z)
  | Ping
  | Ack (largest delay first_range : Z) (ranges : list (Z * Z))
  | Crypto (offset : Z) (data : list Z)
  | Stream (id offset : Z) (fin : bool) (data : list Z)
  | ResetStream (id error_code final_size : Z)
  | StopSending (id error_code : Z)
  | MaxData (v : Z)
  | MaxStreamData (id max : Z)
  | MaxStreams (uni : bool) (max : Z)
  | ConnectionClose (error_code : Z) (frame_type : option Z) (reason : list Z)
  | HandshakeDone
  | PathChallenge (d : list Z)
  | PathResponse (d : list Z)
  | Other (t : Z).

(** [struct Cursor]. *)
Record Cursor : Type := mkCursor { cb : list Z; cpos : Z }.

Definition res (A : Type) : Type := outcome unit (A * Cursor).

Definition of_option {A} (o : option A) : outcome unit A :=
  match o with Some a => Ok a | None => Err tt end.

(** [Cursor::vi]. *)
Definition vi (c : Cursor) : res Z :=
  try! s := of_option (get_range (cb c) (cpos c) (zlen (cb c))) in
  try! (v, n) := of_option (Varint.read s) in
  Ok (v, mkCursor (cb c) (cpos c + n)).

(** [Cursor::take]. *)
Definition take (n : Z) (c : Cursor) : res (list Z) :=
  try! end_ := of_option (checked_add (cpos c) n) in
  try! s := of_option (get_range (cb c) (cpos c) end_) in
  Ok (s, mkCursor (cb c) (cpos c + n)).

(** [Cursor::rest]: the slice panics when the position is past the end. *)
Definition rest (c : Cursor) : res (list Z) :=
  match get_range (cb c) (cpos c) (zlen (cb c)) with
  | Some s => Ok (s, mkCursor (cb c) (zlen (cb c)))
  | None => Panic
  end.

(** [Cursor::empty]. *)
Definition empty (c : Cursor) : bool := zlen (cb c) <=? cpos c.

(** The zeros that follow a PADDING frame, counted by the inner loop. *)
Fixpoint zeros (l : list Z) : Z :=
  match l with
  | b :: l => if b =? 0 then 1 + zeros l else 0
  | [] => 0
  end.

(** The ranges of an ACK frame. *)
Fixpoint parse_ranges (count : nat) (c : Cursor) : res (list (Z * Z)) :=
  match count with
  | O => Ok ([], c)
  | S count =>
      try! (gap, c) := vi c in
      try! (len, c) := vi c in
      try! (rs, c) := parse_ranges count c in
      Ok ((gap, len) :: rs, c)
  end.

Definition parse_ack (t : Z) (c : Cursor) : res Frame :=
  try! (largest, c) := vi c in
  try! (delay, c) := vi c in
  try! (count, c) := vi c in
  if MAX_PARSED_ACK_RANGES <? count then Err tt else
  try! (first_range, c) := vi c in
  try! (ranges, c) := parse_ranges (Z.to_nat count) c in
  try! (_, c) := (if t =? ACK_ECN then
                    try! (_, c) := vi c in
                    try! (_, c) := vi c in
                    try! (_, c) := vi c in
                    Ok (tt, c)
                  else Ok (tt, c)) in
  Ok (Ack largest delay first_range ranges, c).

Definition parse_stream (t : Z) (c : Cursor) : res Frame :=
  try! (id, c) := vi c in
  try! (offset, c) := (if negb (Z.land t 0x04 =? 0) then vi c else Ok (0, c)) in
  let fin := negb (Z.land t 0x01 =? 0) in
  try! (data, c) := (if negb (Z.land t 0x02 =? 0)
                     then try! (len, c) := vi c in take len c
                     else rest c) in
  Ok (Stream id offset fin data, c).

Definition parse_close (t : Z) (c : Cursor) : res Frame :=
  try! (error_code, c) := vi c in
  try! (frame_type, c) := (if t =? CONNECTION_CLOSE
                           then try! (v, c) := vi c in Ok (Some v, c)
                           else Ok (None, c)) in
  try! (len, c) := vi c in
  try! (reason, c) := take len c in
  Ok (ConnectionClose error_code frame_type reason, c).

Definition parse_new_connection_id (t : Z) (c : Cursor) : res Frame :=
  try! (sequence, c) := vi c in
  try! (retire_prior_to, c) := vi c in
  if sequence <? retire_prior_to then Err tt else
  try! cid_len := of_option (get (cb c) (cpos c)) in
  let c := mkCursor (cb c) (cpos c + 1) in
  if negb ((1 <=? cid_len) && (cid_len <=? 20)) then Err tt else
  try! (_, c) := take cid_len c in
  try! (_, c) := take 16 c in
  Ok (Other t, c).

(** The body of the loop of [parse], after the frame type. *)
Definition parse_frame (t : Z) (c : Cursor) : res Frame :=
  if t =? PADDING then
    let n := zeros (drop (Z.to_nat (cpos c)) (cb c)) in
    Ok (Padding (1 + n), mkCursor (cb c) (cpos c + n))
  else if t =? PING then Ok (Ping, c)
  else if (t =? ACK) || (t =? ACK_ECN) then parse_ack t c
  else if t =? CRYPTO then
    try! (offset, c) := vi c in
    try! (len, c) := vi c in
    try! (data, c) := take len c in
    Ok (Crypto offset data, c)
  else if (STREAM <=? t) && (t <=? STREAM + 7) then parse_stream t c
  else if t =? MAX_DATA then try! (v, c) := vi c in Ok (MaxData v, c)
  else if t =? MAX_STREAM_DATA then
    try! (id, c) := vi c in
    try! (max, c) := vi c in
    Ok (MaxStreamData id max, c)
  else if t =? MAX_STREAMS_BIDI then try! (max, c) := vi c in Ok (MaxStreams false max, c)
  else if t =? MAX_STREAMS_UNI then try! (max, c) := vi c in Ok (MaxStreams true max, c)
  else if (t =? CONNECTION_CLOSE) || (t =? CONNECTION_CLOSE_APP) then parse_close t c
  else if t =? HANDSHAKE_DONE then Ok (HandshakeDone, c)
  else if t =? RESET_STREAM then
    try! (id, c) := vi c in
    try! (error_code, c) := vi c in
    try! (final_size, c) := vi c in
    Ok (ResetStream id error_code final_size, c)
  else if t =? STOP_SENDING then
    try! (id, c) := vi c in
    try! (error_code, c) := vi c in
    Ok (StopSending id error_code, c)
  else if t =? NEW_TOKEN then
    try! (len, c) := vi c in
    if len =? 0 then Err tt else
    try! (_, c) := take len c in
    Ok (Other t, c)
  else if t =? DATA_BLOCKED then try! (_, c) := vi c in Ok (Other t, c)
  else if t =? STREAM_DATA_BLOCKED then
    try! (_, c) := vi c in
    try! (_, c) := vi c in
    Ok (Other t, c)
  else if (t =? STREAMS_BLOCKED_BIDI) || (t =? STREAMS_BLOCKED_UNI) then
    try! (_, c) := vi c in Ok (Other t, c)
  else if t =? NEW_CONNECTION_ID then parse_new_connection_id t c
  else if t =? RETIRE_CONNECTION_ID then try! (_, c) := vi c in Ok (Other t, c)
  else if t =? PATH_CHALLENGE then try! (d, c) := take 8 c in Ok (PathChallenge d, c)
  else if t =? PATH_RESPONSE then try! (d, c) := take 8 c in Ok (PathResponse d, c)
  else Err tt.

(** The loop of [parse]; [n] is the number of frames read so far. *)
Fixpoint parse_loop (fuel : nat) (n : Z) (c : Cursor) : outcome unit (list Frame) :=
  match fuel with
  | O => NoFuel
  | S fuel =>
      if empty c then Ok []
      else if MAX_PARSED_FRAMES <=? n then Err tt
      else
        try! (t, c) := vi c in
        try! (f, c) := parse_frame t c in
        try! fs := parse_loop fuel (n + 1) c in
        Ok (f :: fs)
  end.

(** [frame::parse]: one iteration more than the frames that are allowed. *)
Definition parse (buf : list Z) : outcome unit (list Frame) :=
  parse_loop (S (S (Z.to_nat MAX_PARSED_FRAMES))) 0 (mkCursor buf 0).

Definition write_ranges (ranges : list (Z * Z)) : list Z :=
  concat (map (λ '(gap, len), Varint.write gap ++ Varint.write len) ranges).

(** [frame::encode]: the octets appended to [out]. *)
Definition encode (f : Frame) : list Z :=
  match f with
  | Padding n => replicate (Z.to_nat n) 0
  | Ping => Varint.write PING
  | HandshakeDone => Varint.write HANDSHAKE_DONE
  | Crypto offset data =>
      Varint.write CRYPTO ++ Varint.write offset ++ Varint.write (zlen data) ++ data
  | Stream id offset fin data =>
      let t := Z.lor STREAM 0x02 in
      let t := if negb (offset =? 0) then Z.lor t 0x04 else t in
      let t := if fin then Z.lor t 0x01 else t in
      Varint.write t ++ Varint.write id ++
      (if negb (offset =? 0) then Varint.write offset else []) ++
      Varint.write (zlen data) ++ data
  | ResetStream id error_code final_size =>
      Varint.write RESET_STREAM ++ Varint.write id ++ Varint.write error_code ++ Varint.write final_size
  | StopSending id error_code =>
      Varint.write STOP_SENDING ++ Varint.write id ++ Varint.write error_code
  | Ack largest delay first_range ranges =>
      Varint.write ACK ++ Varint.write largest ++ Varint.write delay ++
      Varint.write (zlen ranges) ++ Varint.write first_range ++ write_ranges ranges
  | MaxData v => Varint.write MAX_DATA ++ Varint.write v
  | MaxStreamData id max => Varint.write MAX_STREAM_DATA ++ Varint.write id ++ Varint.write max
  | MaxStreams uni max =>
      Varint.write (if uni then MAX_STREAMS_UNI else MAX_STREAMS_BIDI) ++ Varint.write max
  | ConnectionClose error_code frame_type reason =>
      Varint.write (match frame_type with Some _ => CONNECTION_CLOSE | None => CONNECTION_CLOSE_APP end) ++
      Varint.write error_code ++
      match frame_type with Some ft => Varint.write ft | None => [] end ++
      Varint.write (zlen reason) ++ reason
  | PathChallenge d => Varint.write PATH_CHALLENGE ++ d
  | PathResponse d => Varint.write PATH_RESPONSE ++ d
  | Other _ => []
  end.

(** ** Parsing is total and bounded *)

Definition at_ (c : Cursor) : Prop := is_bytes (cb c) ∧ 0 ≤ cpos c ≤ zlen (cb c) ∧ zlen (cb c) ≤ USIZE_MAX.

(** A reading step neither panics nor leaves the buffer; its value and the
    number of octets it took satisfy [P]. *)
Definition reads {A} (P : A → Z → Prop) (c : Cursor) (r : res A) : Prop :=
  match r with
  | Ok (a, c') => cb c' = cb c ∧ cpos c ≤ cpos c' ≤ zlen (cb c) ∧ P a (cpos c' - cpos c)
  | Err _ => True
  | Panic | NoFuel => False
  end.

Lemma reads_at {A} (P : A → Z → Prop) c a c' : at_ c → reads P c (Ok (a, c')) → at_ c'.
Proof. unfold at_. intros (Hb & Hp & Hz) (Hc & Hr & _). rewrite Hc. split_and!; [done|lia|lia|done]. Qed.

Lemma reads_bind {A B} (P : A → Z → Prop) (Q : B → Z → Prop) c (m : res A) (k : A → Cursor → res B) :
  at_ c → reads P c m →
  (∀ a c', at_ c' → cb c' = cb c → cpos c ≤ cpos c' → P a (cpos c' - cpos c) →
     reads (λ b n, Q b (cpos c' - cpos c + n)) c' (k a c')) →
  reads Q c (try! (a, c') := m in k a c').
Proof.
  intros Hat Hm Hk. destruct m as [[a c']| | |]; simpl; try done.
  pose proof (reads_at _ _ _ _ Hat Hm) as Hat'. destruct Hm as (Hc & Hp & HP).
  specialize (Hk a c' Hat' Hc ltac:(lia) HP). destruct (k a c') as [[b c'']| | |]; simpl in *; try done.
  destruct Hk as (Hc' & Hp' & HQ). rewrite Hc in *. split_and!; [done|lia|lia|].
  by replace (cpos c'' - cpos c) with (cpos c' - cpos c + (cpos c'' - cpos c')) by lia.
Qed.

Lemma reads_ret {A} (P : A → Z → Prop) c a : at_ c → P a 0 → reads P c (Ok (a, c)).
Proof. intros (_ & ? & _) HP. simpl. rewrite Z.sub_diag. split_and!; done || lia. Qed.

(** The cursor has moved on to [c']. *)
Lemma reads_advance {A} (Q : A → Z → Prop) c c' r :
  cb c' = cb c → cpos c ≤ cpos c' → reads (λ b n, Q b (cpos c' - cpos c + n)) c' r → reads Q c r.
Proof.
  intros Hc Hp. destruct r as [[b c'']| | |]; simpl; try done. rewrite Hc. intros (? & ? & HQ).
  split_and!; [done|lia|lia|]. by replace (cpos c'' - cpos c) with (cpos c' - cpos c + (cpos c'' - cpos c')) by lia.
Qed.

Lemma reads_weaken {A} (P Q : A → Z → Prop) c r :
  (∀ a n, 0 ≤ n → P a n → Q a n) → reads P c r → reads Q c r.
Proof.
  intros H. destruct r as [[a c']| | |]; simpl; try done. intros (? & ? & HP). split_and!; [done|lia|lia|].
  apply H; [lia|done].
Qed.

Lemma at_range c : at_ c → get_range (cb c) (cpos c) (zlen (cb c)) = Some (drop (Z.to_nat (cpos c)) (cb c)).
Proof.
  intros (_ & Hp & _). rewrite get_range_is_Some by lia. f_equal. apply take_ge.
  rewrite length_drop. unfold zlen. lia.
Qed.

Lemma zlen_drop {A} n (l : list A) : 0 ≤ n ≤ zlen l → zlen (drop (Z.to_nat n) l) = zlen l - n.
Proof. unfold zlen. rewrite length_drop. lia. Qed.

Lemma vi_reads c : at_ c → reads (λ v n, 0 ≤ v ∧ 1 ≤ n) c (vi c).
Proof.
  intros Hat. unfold vi. rewrite at_range by done. simpl.
  destruct Hat as (Hb & Hp & _). set (s := drop _ _).
  destruct (Varint.read s) as [[v n]|] eqn:Hr; simpl; [|done].
  apply Varint.read_bounds in Hr as (Hn & Hl & Hv); [|by apply Forall_drop].
  unfold s in Hl. rewrite zlen_drop in Hl by done. split_and!; [done|lia..].
Qed.

Lemma take_reads n c : at_ c → 0 ≤ n → reads (λ s k, zlen s = n ∧ k = n) c (take n c).
Proof.
  intros (Hb & Hp & Hz) Hn. unfold take, checked_add.
  destruct (Z.leb_spec (cpos c + n) USIZE_MAX); simpl; [|done].
  destruct (get_range _ _ _) as [s|] eqn:Hs; simpl; [|done].
  apply get_range_Some in Hs as (? & ? & _ & Hl). split_and!; [done|lia..].
Qed.

Lemma rest_reads c : at_ c → reads (λ s k, zlen s = k) c (rest c).
Proof.
  intros Hat. unfold rest. rewrite at_range by done. destruct Hat as (_ & Hp & _). simpl.
  split_and!; [done|lia..|]. by rewrite zlen_drop.
Qed.

Lemma zeros_bound l : 0 ≤ zeros l ≤ zlen l.
Proof. induction l as [|b l IH]; simpl; [by cbn|]. rewrite zlen_cons. destruct (b =? 0); pose proof (zlen_nonneg l); lia. Qed.

(** What a frame carries. *)
Definition frame_weight (f : Frame) : Z :=
  match f with
  | Padding n => n
  | Ack _ _ _ ranges => 2 * zlen ranges
  | Crypto _ data | Stream _ _ _ data => zlen data
  | ConnectionClose _ _ reason => zlen reason
  | PathChallenge d | PathResponse d => zlen d
  | _ => 0
  end.

Lemma ranges_reads count : ∀ c, at_ c → reads (λ rs k, zlen rs = Z.of_nat count ∧ 2 * zlen rs ≤ k) c (parse_ranges count c).
Proof.
  induction count as [|count IH]; intros c Hat; cbn [parse_ranges].
  - by apply reads_ret.
  - eapply reads_bind; [done|by apply vi_reads|]. intros gap c1 Hat1 _ _ [_ H1].
    eapply reads_bind; [done|by apply vi_reads|]. intros len c2 Hat2 _ _ [_ H2].
    eapply reads_bind; [done|by apply IH|]. intros rs c3 Hat3 _ _ [H3 H4].
    apply reads_ret; [done|]. rewrite zlen_cons. lia.
Qed.

(** The steps of the frame parsers, one after another. *)
Ltac reads_vi := eapply reads_bind; [done|by apply vi_reads|]; intros ? ? ? ? ? [? ?]; cbv beta.
Ltac reads_take := eapply reads_bind; [done|apply take_reads; [done|lia]|]; intros ? ? ? ? ? [? ?]; cbv beta.
Ltac reads_done := apply reads_ret; [done|simpl frame_weight; lia].

Lemma parse_ack_reads t c : at_ c → reads (λ f k, frame_weight f ≤ k + 1) c (parse_ack t c).
Proof.
  intros Hat. unfold parse_ack. do 3 reads_vi. destruct (_ <? _); [done|]. reads_vi.
  eapply reads_bind; [done|by apply ranges_reads|]. intros rs c5 ? ? ? [? ?].
  eapply reads_bind with (P := λ _ _, True); [done| |intros ? ? ? ? ? _; reads_done].
  destruct (t =? ACK_ECN); [do 3 reads_vi|]; by apply reads_ret.
Qed.

Lemma parse_stream_reads t c : at_ c → reads (λ f k, frame_weight f ≤ k + 1) c (parse_stream t c).
Proof.
  intros Hat. unfold parse_stream. reads_vi.
  eapply reads_bind; [done| |].
  { instantiate (1 := λ _ _, True). destruct (negb _); [|by apply reads_ret].
    eapply reads_weaken; [|by apply vi_reads]. done. }
  intros offset c2 ? ? ? _. cbv zeta.
  eapply reads_bind with (P := λ s k, zlen s ≤ k); [done| |].
  - destruct (negb _); [reads_vi|]; eapply reads_weaken; [|by apply take_reads| |by apply rest_reads]; simpl; lia.
  - intros data c3 ? ? ? ?. reads_done.
Qed.

Lemma parse_close_reads t c : at_ c → reads (λ f k, frame_weight f ≤ k + 1) c (parse_close t c).
Proof.
  intros Hat. unfold parse_close. reads_vi.
  eapply reads_bind; [done| |].
  { instantiate (1 := λ _ _, True). destruct (_ =? _); [|by apply reads_ret].
    reads_vi. by apply reads_ret. }
  intros ft c2 ? ? ? _. reads_vi. reads_take. reads_done.
Qed.

Lemma parse_new_connection_id_reads t c :
  at_ c → reads (λ f k, frame_weight f ≤ k + 1) c (parse_new_connection_id t c).
Proof.
  intros Hat. unfold parse_new_connection_id. do 2 reads_vi. destruct (_ <? _); [done|].
  destruct (get _ _) as [l|] eqn:Hg; simpl; [|done].
  destruct (negb _) eqn:Hl; [done|]. bool_prop. pose proof (get_Some_lt _ _ _ Hg).
  match goal with |- reads _ ?c (obind (take _ ?c') _) => apply (reads_advance _ c c'); [done|simpl; lia|] end.
  set (c1 := mkCursor _ _). assert (at_ c1).
  { unfold at_ in *. simpl. intuition lia. }
  match goal with H : get (cb ?c') _ = _ |- _ => assert (cpos c1 = cpos c' + 1) by done end.
  do 2 reads_take. reads_done.
Qed.

(** Every frame is read without a panic, and carries no more than it took. *)
Lemma parse_frame_reads t c : at_ c → reads (λ f k, frame_weight f ≤ k + 1) c (parse_frame t c).
Proof.
  intros Hat. unfold parse_frame.
  destruct (t =? PADDING).
  { pose proof Hat as (_ & Hp & _). cbv zeta. pose proof (zeros_bound (drop (Z.to_nat (cpos c)) (cb c))) as Hz.
    rewrite zlen_drop in Hz by done. simpl. split_and!; [done|lia..]. }
  destruct (t =? PING); [reads_done|].
  destruct ((t =? ACK) || _); [by apply parse_ack_reads|].
  destruct (t =? CRYPTO); [do 2 reads_vi; reads_take; reads_done|].
  destruct ((STREAM <=? t) && _); [by apply parse_stream_reads|].
  destruct (t =? MAX_DATA); [reads_vi; reads_done|].
  destruct (t =? MAX_STREAM_DATA); [do 2 reads_vi; reads_done|].
  destruct (t =? MAX_STREAMS_BIDI); [reads_vi; reads_done|].
  destruct (t =? MAX_STREAMS_UNI); [reads_vi; reads_done|].
  destruct ((t =? CONNECTION_CLOSE) || _); [by apply parse_close_reads|].
  destruct (t =? HANDSHAKE_DONE); [reads_done|].
  destruct (t =? RESET_STREAM); [do 3 reads_vi; reads_done|].
  destruct (t =? STOP_SENDING); [do 2 reads_vi; reads_done|].
  destruct (t =? NEW_TOKEN); [reads_vi; destruct (_ =? 0); [done|reads_take; reads_done]|].
  destruct (t =? DATA_BLOCKED); [reads_vi; reads_done|].
  destruct (t =? STREAM_DATA_BLOCKED); [do 2 reads_vi; reads_done|].
  destruct ((t =? STREAMS_BLOCKED_BIDI) || _); [reads_vi; reads_done|].
  destruct (t =? NEW_CONNECTION_ID); [by apply parse_new_connection_id_reads|].
  destruct (t =? RETIRE_CONNECTION_ID); [reads_vi; reads_done|].
  destruct (t =? PATH_CHALLENGE); [reads_take; reads_done|].
  destruct (t =? PATH_RESPONSE); [reads_take; reads_done|].
  done.
Qed.

Definition frames_weight (fs : list Frame) : Z := foldr (λ f n, frame_weight f + n) 0 fs.

Lemma parse_loop_total fuel : ∀ n c,
  at_ c → 0 ≤ n ≤ MAX_PARSED_FRAMES → MAX_PARSED_FRAMES - n + 1 < Z.of_nat fuel →
  match parse_loop fuel n c with
  | Ok fs => zlen fs + n ≤ MAX_PARSED_FRAMES ∧ frames_weight fs ≤ zlen (cb c) - cpos c
  | Err _ => True
  | Panic | NoFuel => False
  end.
Proof.
  induction fuel as [|fuel IH]; intros n c Hat Hn Hf; [lia|]. cbn [parse_loop].
  destruct (empty c) eqn:He.
  { unfold empty in He. bool_prop. pose proof Hat as (_ & ? & _). split; [rewrite zlen_nil|simpl]; lia. }
  destruct (Z.leb_spec MAX_PARSED_FRAMES n) as [|Hlt]; [done|].
  pose proof (vi_reads c Hat) as Hv. destruct (vi c) as [[t c1]| | |]; simpl; try done.
  pose proof (reads_at _ _ _ _ Hat Hv) as Hat1. destruct Hv as (Hc1 & Hp1 & Ht & Hk).
  pose proof (parse_frame_reads t c1 Hat1) as Hfr. destruct (parse_frame t c1) as [[f c2]| | |]; simpl; try done.
  pose proof (reads_at _ _ _ _ Hat1 Hfr) as Hat2. destruct Hfr as (Hc2 & Hp2 & Hw).
  specialize (IH (n + 1) c2 Hat2 ltac:(lia) ltac:(lia)).
  destruct (parse_loop fuel (n + 1) c2) as [fs| | |]; simpl; try done.
  destruct IH as [IH1 IH2]. rewrite zlen_cons. rewrite Hc2, Hc1 in *. lia.
Qed.

Lemma parse_total_lemma buf :
  is_bytes buf → zlen buf ≤ USIZE_MAX →
  match parse buf with
  | Ok fs => zlen fs ≤ MAX_PARSED_FRAMES ∧ frames_weight fs ≤ zlen buf
  | Err _ => True
  | Panic | NoFuel => False
  end.
Proof.
  intros Hb Hz. pose proof (zlen_nonneg buf).
  pose proof (parse_loop_total (S (S (Z.to_nat MAX_PARSED_FRAMES))) 0 (mkCursor buf 0)) as Hl.
  assert (Hat : at_ (mkCursor buf 0)) by (split_and!; simpl; [done|lia|lia|done]).
  assert (Hmax : MAX_PARSED_FRAMES = 1024) by done. unfold parse.
  specialize (Hl Hat ltac:(lia) ltac:(lia)).
  destruct (parse_loop _ _ _); simpl in *; try done. lia.
Qed.

(** ** What is encoded is parsed back *)

(** The values that a QUIC integer can hold. *)
Definition is_vi (v : Z) : Prop := 0 ≤ v < 2 ^ 62.

(** The frames that an endpoint may send. *)
Definition frame_ok (f : Frame) : Prop :=
  match f with
  | Padding n => 1 ≤ n
  | Ping | HandshakeDone => True
  | Ack largest delay first_range ranges =>
      is_vi largest ∧ is_vi delay ∧ is_vi first_range ∧ zlen ranges ≤ MAX_PARSED_ACK_RANGES ∧
      Forall (λ r, is_vi r.1 ∧ is_vi r.2) ranges
  | Crypto offset data => is_vi offset ∧ is_vi (zlen data)
  | Stream id offset _ data => is_vi id ∧ is_vi offset ∧ is_vi (zlen data)
  | ResetStream id error_code final_size => is_vi id ∧ is_vi error_code ∧ is_vi final_size
  | StopSending id error_code => is_vi id ∧ is_vi error_code
  | MaxData v => is_vi v
  | MaxStreamData id max => is_vi id ∧ is_vi max
  | MaxStreams _ max => is_vi max
  | ConnectionClose error_code frame_type reason =>
      is_vi error_code ∧ match frame_type with Some ft => is_vi ft | None => True end ∧ is_vi (zlen reason)
  | PathChallenge d | PathResponse d => zlen d = 8
  | Other _ => False
  end.

(** Two PADDING frames in a row are one. *)
Fixpoint no_double_padding (fs : list Frame) : Prop :=
  match fs with
  | Padding _ :: ((Padding _ :: _) as fs') => False
  | _ :: fs' => no_double_padding fs'
  | [] => True
  end.

Definition encode_all (fs : list Frame) : list Z := concat (map encode fs).

(** The octets that are left at the cursor. *)
Definition rem (c : Cursor) (s : list Z) : Prop :=
  0 ≤ cpos c ∧ zlen (cb c) ≤ USIZE_MAX ∧ ∃ pre, zlen pre = cpos c ∧ cb c = pre ++ s.

(** A read succeeds with [a] and leaves [s]. *)
Definition gives {A} (r : res A) (a : A) (s : list Z) : Prop := ∃ c', r = Ok (a, c') ∧ rem c' s.

Lemma rem_step c x s :
  rem c (x ++ s) → rem (mkCursor (cb c) (cpos c + zlen x)) s ∧
  get_range (cb c) (cpos c) (cpos c + zlen x) = Some x ∧ cpos c + zlen x ≤ zlen (cb c).
Proof.
  intros (Hp & Hz & pre & Hpre & Hc). pose proof (zlen_nonneg x). pose proof (zlen_nonneg s). split_and!.
  - unfold rem. simpl. split_and!; [lia|done|]. exists (pre ++ x). rewrite zlen_app, Hpre. split; [done|]. by rewrite Hc, app_assoc.
  - rewrite Hc, <-Hpre. apply get_range_app.
  - rewrite Hc, !zlen_app. lia.
Qed.

Lemma vi_gives c v s : is_vi v → rem c (Varint.write v ++ s) → gives (vi c) v s.
Proof.
  intros Hv Hr. destruct (rem_step c _ s Hr) as (Hr' & _ & _).
  destruct Hr as (Hp & Hz & pre & Hpre & Hc). unfold vi, gives.
  assert (Hg : get_range (cb c) (cpos c) (zlen (cb c)) = Some (Varint.write v ++ s)).
  { rewrite Hc, <-Hpre, (zlen_app pre). rewrite <-(app_nil_r (Varint.write v ++ s)) at 1. apply get_range_app. }
  rewrite Hg. cbn [of_option obind].
  unfold is_vi in Hv. rewrite Varint.read_write by (unfold is_u64, U64_MAX; lia).
  rewrite Z.mod_small by lia. cbn [of_option obind]. eexists. split; [done|]. by rewrite <-Varint.zlen_write.
Qed.

Lemma take_gives c x s : rem c (x ++ s) → gives (take (zlen x) c) x s.
Proof.
  intros Hr. destruct (rem_step c _ s Hr) as (Hr' & Hg & Hl). destruct Hr as (_ & Hz & _).
  unfold take, checked_add, gives. rewrite (proj2 (Z.leb_le _ _)) by lia. cbn [of_option obind].
  rewrite Hg. cbn [of_option obind]. by eexists.
Qed.

Lemma gives_bind {A B} (m : res A) a s (k : A → Cursor → res B) b s' :
  gives m a s → (∀ c, rem c s → gives (k a c) b s') → gives (try! (x, c) := m in k x c) b s'.
Proof. intros (c & -> & Hr) Hk. simpl. by apply Hk. Qed.

Lemma gives_ret {A} c (a : A) s : rem c s → gives (Ok (a, c)) a s.
Proof. intros Hr. by exists c. Qed.

Ltac gives_vi := rewrite <-?app_assoc; eapply gives_bind; [apply vi_gives; [|eassumption]|intros ? ?; cbv beta].
Ltac gives_take := rewrite <-?app_assoc; eapply gives_bind; [apply take_gives; eassumption|intros ? ?; cbv beta].

Lemma ranges_gives ranges : ∀ c s,
  Forall (λ r, is_vi r.1 ∧ is_vi r.2) ranges → rem c (write_ranges ranges ++ s) →
  gives (parse_ranges (length ranges) c) ranges s.
Proof.
  induction ranges as [|[gap len] rs IH]; intros c s Hv Hr; cbn [length parse_ranges].
  - by apply gives_ret.
  - inversion Hv as [|? ? [Hg Hl] Hrs]; subst. unfold write_ranges in Hr. cbn [map concat] in Hr.
    rewrite <-!app_assoc in Hr. gives_vi; [done|]. gives_vi; [done|].
    eapply gives_bind; [by apply IH|]. intros c3 Hr3. by apply gives_ret.
Qed.

(** The frame type is a closed number: the dispatch computes. *)
Ltac dispatch :=
  unfold parse_frame, PADDING, PING, ACK, ACK_ECN, RESET_STREAM, STOP_SENDING, CRYPTO, NEW_TOKEN, STREAM,
    MAX_DATA, MAX_STREAM_DATA, MAX_STREAMS_BIDI, MAX_STREAMS_UNI, CONNECTION_CLOSE, CONNECTION_CLOSE_APP,
    HANDSHAKE_DONE, DATA_BLOCKED, STREAM_DATA_BLOCKED, STREAMS_BLOCKED_BIDI, STREAMS_BLOCKED_UNI,
    NEW_CONNECTION_ID, RETIRE_CONNECTION_ID, PATH_CHALLENGE, PATH_RESPONSE;
  cbn [Z.eqb Pos.eqb orb andb Z.leb Z.compare Pos.compare Pos.compare_cont Z.add Pos.add Pos.succ].
Ltac gives_type :=
  rewrite <-?app_assoc in *; eapply gives_bind; [apply vi_gives; [|eassumption]; vm_compute; by split|];
  intros ? ?; cbv beta; dispatch.
Ltac gives_done := by apply gives_ret.

Lemma zeros_replicate n s : head s ≠ Some 0 → zeros (replicate n 0 ++ s) = Z.of_nat n.
Proof.
  intros Hs. induction n as [|n IH]; simpl.
  - destruct s as [|b s]; [done|]. simpl in *. destruct (Z.eqb_spec b 0); [congruence|done].
  - rewrite IH. lia.
Qed.

Lemma rem_drop c s : rem c s → drop (Z.to_nat (cpos c)) (cb c) = s.
Proof. intros (_ & _ & pre & Hpre & ->). rewrite <-Hpre. unfold zlen. by rewrite Nat2Z.id, drop_app_length. Qed.

Definition read_typed (c : Cursor) : res Frame := try! (t, c) := vi c in parse_frame t c.

Lemma padding_gives n c s :
  1 ≤ n → head s ≠ Some 0 → rem c (replicate (Z.to_nat n) 0 ++ s) → gives (read_typed c) (Padding n) s.
Proof.
  intros Hn Hs Hr. unfold read_typed.
  replace (Z.to_nat n) with (S (Z.to_nat (n - 1))) in Hr by lia.
  change (replicate (S (Z.to_nat (n - 1))) 0 ++ s) with (Varint.write 0 ++ replicate (Z.to_nat (n - 1)) 0 ++ s) in Hr.
  eapply gives_bind; [apply vi_gives; [|exact Hr]; vm_compute; by split|]. intros c1 Hr1. cbv beta. dispatch.
  pose proof (rem_drop _ _ Hr1) as Hd. rewrite Hd, zeros_replicate by done. cbv zeta.
  destruct (rem_step c1 _ s Hr1) as (Hr2 & _). replace (zlen (replicate _ _)) with (n - 1) in Hr2.
  - rewrite Z2Nat.id by lia. replace (1 + (n - 1)) with n by lia. by apply gives_ret.
  - unfold zlen. rewrite length_replicate. lia.
Qed.

Lemma ack_gives largest delay first_range ranges c s :
  frame_ok (Ack largest delay first_range ranges) → rem c (encode (Ack largest delay first_range ranges) ++ s) →
  gives (read_typed c) (Ack largest delay first_range ranges) s.
Proof.
  intros (? & ? & ? & Hc & Hrs) Hr. unfold encode in Hr. unfold read_typed. gives_type.
  unfold parse_ack. gives_vi; [done|]. gives_vi; [done|]. gives_vi.
  { unfold is_vi, MAX_PARSED_ACK_RANGES in *. pose proof (zlen_nonneg ranges). lia. }
  rewrite (proj2 (Z.ltb_ge _ _)) by done. gives_vi; [done|].
  eapply gives_bind; [unfold zlen; rewrite Nat2Z.id; by apply ranges_gives|]. intros c5 Hr5. cbn [obind].
  eapply gives_bind; [by apply gives_ret|]. intros. gives_done.
Qed.

Lemma stream_gives id offset fin data c s :
  frame_ok (Stream id offset fin data) → rem c (encode (Stream id offset fin data) ++ s) →
  gives (read_typed c) (Stream id offset fin data) s.
Proof.
  intros (? & ? & ?) Hr. unfold encode in Hr. cbv zeta in Hr. unfold read_typed.
  destruct (Z.eqb_spec offset 0) as [->|Ho]; cbn [negb] in Hr; destruct fin;
    match type of Hr with rem _ ((Varint.write ?t ++ _) ++ _) =>
      let t' := eval vm_compute in t in change t with t' in Hr end;
    rewrite ?app_nil_l in Hr; gives_type; unfold parse_stream; (gives_vi; [done|]);
    cbn [Z.land Pos.land Pos.Ndouble Pos.Nsucc_double Z.of_N Z.eqb negb];
    try (eapply gives_bind; [apply vi_gives; [|eassumption]; done|intros ? ?]);
    try (eapply gives_bind; [apply gives_ret; eassumption|intros ? ?]);
    cbv zeta; cbn [Z.land Pos.land Pos.Ndouble Pos.Nsucc_double Z.of_N Z.eqb negb];
    (eapply gives_bind; [|intros ? ?; gives_done]); (gives_vi; [done|]); by apply take_gives.
Qed.

Lemma close_gives error_code ft reason c s :
  frame_ok (ConnectionClose error_code ft reason) → rem c (encode (ConnectionClose error_code ft reason) ++ s) →
  gives (read_typed c) (ConnectionClose error_code ft reason) s.
Proof.
  intros (? & ? & ?) Hr. unfold encode in Hr. unfold read_typed.
  destruct ft as [ft|]; rewrite ?app_nil_l in Hr; gives_type; unfold parse_close; (gives_vi; [done|]);
    cbn [Z.eqb Pos.eqb CONNECTION_CLOSE];
    try (eapply gives_bind; [eapply gives_bind; [apply vi_gives; [|eassumption]; done|intros ? ?; gives_done]|intros ? ?]);
    try (eapply gives_bind; [apply gives_ret; eassumption|intros ? ?]);
    (gives_vi; [done|]); gives_take; gives_done.
Qed.

Definition is_padding (f : Frame) : bool := match f with Padding _ => true | _ => false end.

(** Each frame is read back, whatever follows. *)
Lemma frame_gives f c s :
  frame_ok f → (is_padding f = true → head s ≠ Some 0) → rem c (encode f ++ s) → gives (read_typed c) f s.
Proof.
  intros Hok Hs Hr. destruct f.
  - by apply padding_gives; [done|apply Hs|].
  - unfold encode in Hr. unfold read_typed. gives_type. gives_done.
  - by apply ack_gives.
  - destruct Hok. unfold encode in Hr. unfold read_typed. gives_type.
    gives_vi; [done|]. gives_vi; [done|]. gives_take. gives_done.
  - by apply stream_gives.
  - destruct Hok as (? & ? & ?). unfold encode in Hr. unfold read_typed. gives_type.
    gives_vi; [done|]. gives_vi; [done|]. gives_vi; [done|]. gives_done.
  - destruct Hok. unfold encode in Hr. unfold read_typed. gives_type.
    gives_vi; [done|]. gives_vi; [done|]. gives_done.
  - unfold encode in Hr. unfold read_typed. gives_type. gives_vi; [done|]. gives_done.
  - destruct Hok. unfold encode in Hr. unfold read_typed. gives_type.
    gives_vi; [done|]. gives_vi; [done|]. gives_done.
  - unfold encode in Hr. unfold read_typed. destruct uni; gives_type; (gives_vi; [done|]); gives_done.
  - by apply close_gives.
  - unfold encode in Hr. unfold read_typed. gives_type. gives_done.
  - simpl in Hok. unfold encode in Hr. unfold read_typed. gives_type.
    eapply gives_bind; [rewrite <-Hok; by apply take_gives|intros; gives_done].
  - simpl in Hok. unfold encode in Hr. unfold read_typed. gives_type.
    eapply gives_bind; [rewrite <-Hok; by apply take_gives|intros; gives_done].
  - done.
Qed.

(** The first octet of a frame that is not padding is its type. *)
Lemma write_head t : 0 < t < 64 → ∃ l, Varint.write t = t :: l.
Proof.
  intros Ht. unfold Varint.write. rewrite (proj2 (Z.ltb_lt _ _)) by lia. rewrite Z.mod_small by lia. by eexists.
Qed.

Lemma encode_head f s : frame_ok f → is_padding f = false → ∃ b l, encode f ++ s = b :: l ∧ b ≠ 0.
Proof.
  intros Hok Hp.
  assert (H : ∃ t l, 0 < t < 64 ∧ encode f = Varint.write t ++ l).
  { destruct f; try done; unfold encode; cbv zeta;
      try (eexists _, _; split; [|reflexivity]; by vm_compute).
    - eexists PING, []. by split.
    - eexists _, _. split; [|reflexivity]. by destruct (negb _), fin; vm_compute.
    - eexists _, _. split; [|reflexivity]. by destruct uni; vm_compute.
    - eexists _, _. split; [|reflexivity]. by destruct frame_type; vm_compute.
    - eexists HANDSHAKE_DONE, []. by split. }
  destruct H as (t & l & Ht & ->). destruct (write_head t Ht) as (l' & ->). simpl. eexists t, _. split; [done|lia].
Qed.

Lemma encode_all_head f fs :
  Forall frame_ok (f :: fs) → no_double_padding (f :: fs) → is_padding f = true → head (encode_all fs) ≠ Some 0.
Proof.
  intros Hok Hnd Hp. destruct f; try done. destruct fs as [|f' fs]; [done|].
  assert (Hp' : is_padding f' = false) by (by destruct f'). unfold encode_all. cbn [map concat].
  apply Forall_cons in Hok as [_ [Hf' _]%Forall_cons].
  destruct (encode_head f' (concat (map encode fs)) Hf' Hp') as (b & l & -> & Hb). simpl. congruence.
Qed.

Lemma no_double_padding_tail f fs : no_double_padding (f :: fs) → no_double_padding fs.
Proof. destruct f; try done. by destruct fs as [|[] fs]. Qed.

Lemma encode_nonempty f : frame_ok f → 1 ≤ zlen (encode f).
Proof.
  intros Hok. destruct (is_padding f) eqn:Hp.
  - destruct f; try done. simpl in *. unfold zlen. rewrite length_replicate. lia.
  - destruct (encode_head f [] Hok Hp) as (b & l & H & _). rewrite app_nil_r in H. rewrite H, zlen_cons.
    pose proof (zlen_nonneg l). lia.
Qed.

Lemma parse_loop_reads fs : ∀ fuel n c,
  Forall frame_ok fs → no_double_padding fs → n + zlen fs ≤ MAX_PARSED_FRAMES →
  (length fs < fuel)%nat → rem c (encode_all fs) → parse_loop fuel n c = Ok fs.
Proof.
  induction fs as [|f fs IH]; intros fuel n c Hok Hnd Hn Hf Hr;
    (destruct fuel as [|fuel]; [simpl in Hf; lia|]); cbn [parse_loop]; destruct Hr as (Hp & Hz & pre & Hpre & Hc).
  - unfold empty. rewrite (proj2 (Z.leb_le _ _)); [done|]. rewrite Hc, app_nil_r. lia.
  - apply Forall_cons in Hok as Hok'. destruct Hok' as [Hf1 Hok'].
    rewrite zlen_cons in Hn. pose proof (zlen_nonneg fs). pose proof (encode_nonempty f Hf1).
    unfold encode_all in Hc. cbn [map concat] in Hc. fold (encode_all fs) in Hc.
    unfold empty. rewrite (proj2 (Z.leb_gt _ _)).
    2:{ rewrite Hc, !zlen_app. pose proof (zlen_nonneg (encode_all fs)). lia. }
    rewrite (proj2 (Z.leb_gt _ _)) by lia.
    destruct (frame_gives f c (encode_all fs) Hf1) as (c' & Hread & Hr').
    { by apply encode_all_head. }
    { split_and!; [done|done|]. by exists pre. }
    unfold read_typed in Hread. destruct (vi c) as [[t c1]| | |]; try done. cbn [obind] in *.
    rewrite Hread. cbn [obind]. rewrite IH; [done|done|by eapply no_double_padding_tail|lia|simpl in Hf; lia|done].
Qed.

Lemma parse_encode_lemma fs :
  Forall frame_ok fs → no_double_padding fs → zlen fs ≤ MAX_PARSED_FRAMES → zlen (encode_all fs) ≤ USIZE_MAX →
  parse (encode_all fs) = Ok fs.
Proof.
  intros Hok Hnd Hn Hz. apply parse_loop_reads; try done.
  - unfold zlen in Hn. lia.
  - split_and!; [done|done|]. exists []. by split.
Qed.
