(* ===== verification/QuicPacket.v ===== *)
(** * QUIC packets ([onetdns-quic/src/packet.rs], [Aead] of [protect.rs])

    Headers of long and short packets, the truncated packet number, and the two
    layers of protection over them.  The ciphers are other packages: encryption,
    decryption and the mask of a sample are parameters.  [None] of the source is
    [Err tt]; a slice or an index out of range is [Panic]. *)

From S2P Require Import Prelude.
From S2P Require Varint.

#[local] Open Scope outcome_scope.

Definition VERSION_1 : Z := 1.
Definition INITIAL : Z := 0.
Definition ZERO_RTT : Z := 1.
Definition HANDSHAKE : Z := 2.
Definition RETRY : Z := 3.

(** [enum Aead] and [struct PacketKeys]. *)
Inductive Aead : Type := Aes128Gcm | Aes256Gcm | ChaCha20Poly1305.
Record PacketKeys : Type := mkKeys { key : list Z; iv : list Z; hp : list Z }.

(** [struct LongPacket], [struct ShortPacket] and [struct LongHeader]. *)
Record LongPacket : Type := mkLong {
  lp_ptype : Z;
  lp_version : Z;
  lp_dcid : list Z;
  lp_scid : list Z;
  lp_token : list Z;
  lp_pn : Z;
  lp_payload : list Z;
  consumed : Z;
}.
Record ShortPacket : Type := mkShort { sp_dcid : list Z; sp_pn : Z; sp_payload : list Z }.
Record LongHeader : Type := mkHeader {
  lh_ptype : Z;
  lh_version : Z;
  lh_dcid : list Z;
  lh_scid : list Z;
  lh_token : list Z;
  pn_offset : Z;
  end_ : Z;
}.

(** [?] on an [Option], and the panic of an access out of range. *)
Definition ok_or {A} (o : option A) : outcome unit A := match o with Some a => Ok a | None => Err tt end.
Definition or_panic {A} (o : option A) : outcome unit A := match o with Some a => Ok a | None => Panic end.

(** [out[at..at + s.len()].copy_from_slice(s)]. *)
Definition copy_at (out : list Z) (at_ : Z) (s : list Z) : outcome unit (list Z) :=
  if (0 <=? at_) && (at_ + zlen s <=? zlen out)
  then Ok (take (Z.to_nat at_) out ++ s ++ drop (Z.to_nat (at_ + zlen s)) out) else Panic.

(** [destination_connection_id]. *)
Definition destination_connection_id (pkt : list Z) (short_cid_len : Z) : outcome unit (list Z) :=
  try! first := ok_or (get pkt 0) in
  if Z.land first 0x40 =? 0 then Err tt else
  if negb (Z.land first 0x80 =? 0) then
    if zlen pkt <? 6 then Err tt else
    try! len := ok_or (get pkt 5) in
    if 20 <? len then Err tt else
    try! e := ok_or (checked_add 6 len) in
    ok_or (get_range pkt 6 e)
  else
    if (short_cid_len =? 0) || (20 <? short_cid_len) then Err tt else
    try! e := ok_or (checked_add 1 short_cid_len) in
    ok_or (get_range pkt 1 e).

(** [is_initial_packet]. *)
Definition is_initial_packet (pkt : list Z) : bool :=
  match get pkt 0 with
  | Some first => (Z.land first 0xc0 =? 0xc0) && (Z.shiftr (Z.land first 0x30) 4 =? INITIAL)
  | None => false
  end &&
  match get_range pkt 1 5 with
  | Some v => bool_decide (v = u32_to_be VERSION_1)
  | None => false
  end.

(** [+] and [!] on a [u64] of a release build. *)
Definition u64_add (a b : Z) : Z := (a + b) mod 2 ^ 64.
Definition u64_not (a : Z) : Z := U64_MAX - a.

(** [decode_pn]. *)
Definition decode_pn (largest_pn truncated pn_nbits : Z) : Z :=
  let pn_win := u64_shl 1 pn_nbits in
  let pn_hwin := pn_win / 2 in
  let pn_mask := pn_win - 1 in
  let expected := u64_add largest_pn 1 in
  let candidate := Z.lor (Z.land expected (u64_not pn_mask)) truncated in
  if (u64_add candidate pn_hwin <=? expected) && (u64_add candidate pn_win <? 2 ^ 62) then u64_add candidate pn_win
  else if (u64_add expected pn_hwin <? candidate) && (pn_win <=? candidate) then candidate - pn_win
  else candidate.

(** [Aead::nonce]: the last eight octets of the base with the packet number. *)
Definition nonce (iv : list Z) (pn : Z) : outcome unit (list Z) :=
  try! n := or_panic (get_range iv 0 12) in
  Ok (take 4 n ++ zip_with Z.lxor (drop 4 n) (u64_to_be pn)).

(** [pkt[pn_offset + i] ^= mask[1 + i]] for the octets of the packet number. *)
Fixpoint mask_pn (n : nat) (i offset : Z) (mask pkt : list Z) : outcome unit (list Z) :=
  match n with
  | O => Ok pkt
  | S n =>
      try! m := or_panic (get mask (1 + i)) in
      try! b := or_panic (get pkt (offset + i)) in
      try! pkt := or_panic (set_at pkt (offset + i) (Z.lxor b m)) in
      mask_pn n (i + 1) offset mask pkt
  end.

(** The end of [protect_long] and [protect_short]: the bits [low] of the first
    octet and the packet number are masked. *)
Definition mask_header (low offset pn_len : Z) (mask pkt : list Z) : outcome unit (list Z) :=
  try! m := or_panic (get mask 0) in
  try! b := or_panic (get pkt 0) in
  try! pkt := or_panic (set_at pkt 0 (Z.lxor b (Z.land m low))) in
  mask_pn (Z.to_nat pn_len) 0 offset mask pkt.

(** [apply_header_protection], with a mask of five octets: at most four octets
    of the number are masked. *)
Definition apply_header_protection (first : Z) (pn_bytes mask : list Z) (long_header : bool) : outcome unit (Z * list Z) :=
  let low := if long_header then 0x0f else 0x1f in
  try! m := or_panic (get mask 0) in
  Ok (Z.lxor first (Z.land m low), zip_with Z.lxor (take 4 pn_bytes) (drop 1 mask) ++ drop 4 pn_bytes).

(** [plaintext.resize(plaintext.len().max(4 - pn_len), 0)]. *)
Definition pad_payload (pn_len : Z) (payload : list Z) : list Z :=
  payload ++ replicate (Z.to_nat (Z.max (zlen payload) (saturating_sub 4 pn_len) - zlen payload)) 0.

(** The last [pn_len] octets of a packet number. *)
Definition pn_bytes (pn pn_len : Z) : list Z := drop (Z.to_nat (8 - pn_len)) (u64_to_be pn).

(** [parse_long_header]. *)
Definition parse_long_header (pkt : list Z) : outcome unit LongHeader :=
  try! first := ok_or (get pkt 0) in
  if Z.land first 0x80 =? 0 then Err tt else
  let ptype_val := Z.shiftr (Z.land first 0x30) 4 in
  if ptype_val =? RETRY then Err tt else
  let pos := 1 in
  try! v := ok_or (get_range pkt pos (pos + 4)) in
  let version := be_val 0 v in
  let pos := pos + 4 in
  try! dcid_len := ok_or (get pkt pos) in
  if 20 <? dcid_len then Err tt else
  let pos := pos + 1 in
  try! dcid := ok_or (get_range pkt pos (pos + dcid_len)) in
  let pos := pos + dcid_len in
  try! scid_len := ok_or (get pkt pos) in
  if 20 <? scid_len then Err tt else
  let pos := pos + 1 in
  try! scid := ok_or (get_range pkt pos (pos + scid_len)) in
  let pos := pos + scid_len in
  try! (token, pos) :=
    (if ptype_val =? INITIAL then
       try! s := ok_or (get_range pkt pos (zlen pkt)) in
       try! (tl, n) := ok_or (Varint.read s) in
       if 256 <? tl then Err tt else
       let pos := pos + n in
       try! t := ok_or (get_range pkt pos (pos + tl)) in
       Ok (t, pos + tl)
     else Ok ([], pos)) in
  try! s := ok_or (get_range pkt pos (zlen pkt)) in
  try! (length, n) := ok_or (Varint.read s) in
  let pos := pos + n in
  try! e := ok_or (checked_add pos length) in
  if zlen pkt <? e then Err tt else
  Ok (mkHeader ptype_val version dcid scid token pos e).

(** [long_packet_len]. *)
Definition long_packet_len (pkt : list Z) : outcome unit Z :=
  try! header := parse_long_header pkt in Ok (end_ header).

(** The loop of [unmask_pn]: the octets of the number and their value. *)
Fixpoint unmask_loop (n : nat) (i offset : Z) (pkt mask : list Z) (truncated : Z) (bs : list Z) : outcome unit (Z * list Z) :=
  match n with
  | O => Ok (truncated, bs)
  | S n =>
      try! b := ok_or (get pkt (offset + i)) in
      try! m := or_panic (get mask (1 + i)) in
      try! bs := or_panic (set_at bs i (Z.lxor b m)) in
      unmask_loop n (i + 1) offset pkt mask (Z.lor (u64_shl truncated 8) (Z.lxor b m)) bs
  end.

(** [unmask_pn]. *)
Definition unmask_pn (pkt : list Z) (offset pn_len : Z) (mask : list Z) (largest_pn : Z) : outcome unit (Z * list Z) :=
  try! (truncated, bs) := unmask_loop (Z.to_nat pn_len) 0 offset pkt mask 0 [0; 0; 0; 0] in
  Ok (decode_pn largest_pn truncated (pn_len * 8), bs).

Section ciphers.
(** [encrypt] and [decrypt] of an AEAD: key, nonce, additional data, text;
    the five octets of [Aead::header_mask]: key, sample. *)
Context (encrypt : Aead → list Z → list Z → list Z → list Z → list Z).
Context (decrypt : Aead → list Z → list Z → list Z → list Z → option (list Z)).
Context (header_mask : Aead → list Z → list Z → list Z).

(** [Aead::seal] and [Aead::open]. *)
Definition seal (a : Aead) (key iv : list Z) (pn : Z) (aad plaintext : list Z) : outcome unit (list Z) :=
  try! n := nonce iv pn in Ok (encrypt a key n aad plaintext).
Definition open (a : Aead) (key iv : list Z) (pn : Z) (aad ciphertext : list Z) : outcome unit (list Z) :=
  try! n := nonce iv pn in ok_or (decrypt a key n aad ciphertext).

(** [protect_long]. *)
Definition protect_long (a : Aead) (keys : PacketKeys) (ptype_val : Z) (dcid scid token : list Z) (pn pn_len : Z)
    (payload : list Z) : outcome unit (list Z) :=
  if negb ((1 <=? pn_len) && (pn_len <=? 4)) || (20 <? zlen dcid) || (20 <? zlen scid) || (256 <? zlen token) then Ok [] else
  let first := Z.lor (Z.lor 0xc0 (Z.shiftl ptype_val 4 mod 2 ^ 8)) (pn_len - 1) in
  let pkt := [first] ++ u32_to_be VERSION_1 ++ [zlen dcid mod 2 ^ 8] ++ dcid ++ [zlen scid mod 2 ^ 8] ++ scid in
  let pkt := if ptype_val =? INITIAL then pkt ++ Varint.write (zlen token) ++ token else pkt in
  let plaintext := pad_payload pn_len payload in
  let pkt := pkt ++ Varint.write (pn_len + zlen plaintext + 16) in
  let offset := zlen pkt in
  let pkt := pkt ++ pn_bytes pn pn_len in
  let aad := pkt in
  try! ct := seal a (key keys) (iv keys) pn aad plaintext in
  let pkt := pkt ++ ct in
  try! sample := or_panic (get_range pkt (offset + 4) (offset + 20)) in
  let mask := header_mask a (hp keys) sample in
  mask_header 0x0f offset pn_len mask pkt.

(** [protect_initial]. *)
Definition protect_initial (a : Aead) (keys : PacketKeys) (dcid scid token : list Z) (pn pn_len : Z) (payload : list Z) :
    outcome unit (list Z) :=
  protect_long a keys INITIAL dcid scid token pn pn_len payload.

(** [protect_short]. *)
Definition protect_short (a : Aead) (keys : PacketKeys) (dcid : list Z) (pn pn_len : Z) (payload : list Z) (key_phase : bool) :
    outcome unit (list Z) :=
  if negb ((1 <=? pn_len) && (pn_len <=? 4)) || (20 <? zlen dcid) then Ok [] else
  let first := Z.lor (Z.lor 0x40 (if key_phase then 0x04 else 0)) (pn_len - 1) in
  let pkt := [first] ++ dcid in
  let offset := zlen pkt in
  let pkt := pkt ++ pn_bytes pn pn_len in
  let aad := pkt in
  let plaintext := pad_payload pn_len payload in
  try! ct := seal a (key keys) (iv keys) pn aad plaintext in
  let pkt := pkt ++ ct in
  try! sample := or_panic (get_range pkt (offset + 4) (offset + 20)) in
  let mask := header_mask a (hp keys) sample in
  mask_header 0x1f offset pn_len mask pkt.

(** [unprotect_long]. *)
Definition unprotect_long (a : Aead) (keys : PacketKeys) (pkt : list Z) (largest_pn : Z) : outcome unit LongPacket :=
  try! h := parse_long_header pkt in
  let offset := pn_offset h in
  try! first0 := or_panic (get pkt 0) in
  try! sample := ok_or (get_range pkt (offset + 4) (offset + 4 + 16)) in
  let mask := header_mask a (hp keys) sample in
  try! m := or_panic (get mask 0) in
  let first := Z.lxor first0 (Z.land m 0x0f) in
  let pn_len := Z.land first 0x03 + 1 in
  try! (pn, bs) := unmask_pn pkt offset pn_len mask largest_pn in
  try! aad := ok_or (get_range pkt 0 (offset + pn_len)) in
  try! aad := or_panic (set_at aad 0 first) in
  try! bs := or_panic (get_range bs 0 pn_len) in
  try! aad := copy_at aad offset bs in
  try! ct := ok_or (get_range pkt (offset + pn_len) (end_ h)) in
  try! payload := open a (key keys) (iv keys) pn aad ct in
  Ok (mkLong (lh_ptype h) (lh_version h) (lh_dcid h) (lh_scid h) (lh_token h) pn payload (end_ h)).

(** [unprotect_short]: the packet and whether the phase of the keys changed. *)
Definition unprotect_short (a : Aead) (keys : PacketKeys) (alt_keys : option PacketKeys) (expected_phase : bool) (pkt : list Z)
    (dcid_len largest_pn : Z) : outcome unit (ShortPacket * bool) :=
  try! first0 := ok_or (get pkt 0) in
  if negb (Z.land first0 0x80 =? 0) then Err tt else
  try! dcid := ok_or (get_range pkt 1 (1 + dcid_len)) in
  let offset := 1 + dcid_len in
  try! sample := ok_or (get_range pkt (offset + 4) (offset + 4 + 16)) in
  let mask := header_mask a (hp keys) sample in
  try! m := or_panic (get mask 0) in
  let first := Z.lxor first0 (Z.land m 0x1f) in
  let pn_len := Z.land first 0x03 + 1 in
  let key_phase := negb (Z.land first 0x04 =? 0) in
  try! (pn, bs) := unmask_pn pkt offset pn_len mask largest_pn in
  try! aad := ok_or (get_range pkt 0 (offset + pn_len)) in
  try! aad := or_panic (set_at aad 0 first) in
  try! bs := or_panic (get_range bs 0 pn_len) in
  try! aad := copy_at aad offset bs in
  try! ct := ok_or (get_range pkt (offset + pn_len) (zlen pkt)) in
  let phase_changed := negb (Bool.eqb key_phase expected_phase) in
  try! pk := (if phase_changed then ok_or alt_keys else Ok keys) in
  try! payload := open a (key pk) (iv pk) pn aad ct in
  Ok (mkShort dcid pn payload, phase_changed).

(** [unprotect_initial]. *)
Definition unprotect_initial (a : Aead) (keys : PacketKeys) (pkt : list Z) : outcome unit (Z * list Z) :=
  try! lp := unprotect_long a keys pkt 0 in Ok (lp_pn lp, lp_payload lp).

End ciphers.

(** ** Packet numbers *)

(** The number nearest to the one expected: what is decoded from the low bits
    of [pn] is [pn], when it is in the window of half their range around it. *)
Lemma decode_pn_spec largest pn n : 1 ≤ n ≤ 4 → 0 ≤ largest < 2 ^ 62 → 0 ≤ pn < 2 ^ 62 →
  largest + 1 - 2 ^ (8 * n - 1) < pn ≤ largest + 1 + 2 ^ (8 * n - 1) →
  decode_pn largest (pn mod 2 ^ (8 * n)) (n * 8) = pn.
Proof.
  intros Hn Hl Hp Hw. unfold decode_pn, u64_add, u64_not, u64_shl.
  rewrite (Z.mod_small (largest + 1)) by lia. rewrite Z.shiftl_1_l, (Z.mul_comm n 8).
  assert (Hpow : 2 ^ (8 * n) = 2 * 2 ^ (8 * n - 1)) by (rewrite <- Z.pow_succ_r by lia; f_equal; lia).
  assert (H32 : 2 ^ (8 * n) ≤ 2 ^ 32) by (apply Z.pow_le_mono_r; lia).
  assert (Hpos : 0 < 2 ^ (8 * n - 1)) by (apply Z.pow_pos_nonneg; lia).
  rewrite (Z.mod_small (2 ^ (8 * n))) by lia.
  assert (Hcand : Z.lor (Z.land (largest + 1) (U64_MAX - (2 ^ (8 * n) - 1))) (pn mod 2 ^ (8 * n)) =
    (largest + 1) / 2 ^ (8 * n) * 2 ^ (8 * n) + pn mod 2 ^ (8 * n)).
  { rewrite <- lor_shiftl_add by (try apply Z.mod_pos_bound; lia). f_equal.
    assert (1 ≤ n ∧ (n = 1 ∨ n = 2 ∨ n = 3 ∨ n = 4)) as [_ Hcase] by lia.
    apply Z.bits_inj'. intros k Hk. rewrite Z.land_spec.
    replace (U64_MAX - (2 ^ (8 * n) - 1)) with (Z.shiftl (Z.ones (64 - 8 * n)) (8 * n))
      by (destruct Hcase as [->|[->|[->| ->]]]; reflexivity).
    destruct (Z.ltb_spec k (8 * n)) as [Hlt|Hge].
    - rewrite !Z.shiftl_spec_low by lia. apply andb_false_r.
    - rewrite !Z.shiftl_spec_high, Z.div_pow2_bits by lia. replace (k - 8 * n + 8 * n) with k by lia.
      destruct (Z.ltb_spec k 64) as [H64|H64].
      + rewrite Z.ones_spec_low by lia. apply andb_true_r.
      + rewrite Z.ones_spec_high by lia. rewrite andb_false_r. symmetry.
        apply Z.bits_above_log2; [lia|]. apply Z.log2_lt_pow2; [lia|].
        assert (2 ^ 63 ≤ 2 ^ k) by (apply Z.pow_le_mono_r; lia). lia. }
  rewrite Hcand. set (W := 2 ^ (8 * n)) in *. set (h := 2 ^ (8 * n - 1)) in *.
  replace (W / 2) with h by (rewrite Hpow, Z.mul_comm, Z.div_mul by lia; done).
  pose proof (Z.div_mod (largest + 1) W ltac:(lia)) as H1. pose proof (Z.mod_pos_bound (largest + 1) W ltac:(lia)).
  pose proof (Z.div_mod pn W ltac:(lia)) as H2. pose proof (Z.mod_pos_bound pn W ltac:(lia)).
  set (q := (largest + 1) / W) in *. set (p := pn / W) in *. set (r := (largest + 1) mod W) in *. set (t := pn mod W) in *.
  assert (Hpq : p = q - 1 ∨ p = q ∨ p = q + 1) by nia. assert (0 ≤ q) by (apply Z.div_pos; lia).
  assert (0 ≤ p) by (apply Z.div_pos; lia). assert (0 ≤ q * W + t < 2 ^ 63) by nia.
  rewrite !Z.mod_small by lia.
  destruct (Z.leb_spec (q * W + t + h) (largest + 1)), (Z.ltb_spec (q * W + t + W) (2 ^ 62)),
    (Z.ltb_spec (largest + 1 + h) (q * W + t)), (Z.leb_spec W (q * W + t)); cbn [andb];
    destruct Hpq as [Hpq|[Hpq|Hpq]]; rewrite Hpq in *; nia.
Qed.

Lemma be_val_pn_bytes pn n : 1 ≤ n ≤ 4 → 0 ≤ pn < 2 ^ 64 → be_val 0 (pn_bytes pn n) = pn mod 2 ^ (8 * n).
Proof.
  intros Hn Hp. unfold pn_bytes.
  pose proof (be_val_u64 0 pn ltac:(unfold is_u64, U64_MAX; lia)) as Hv.
  pose proof (u64_to_be_bytes pn) as Hb. set (l := u64_to_be pn) in *.
  assert (Hl : zlen l = 8) by done. rewrite <- (take_drop (Z.to_nat (8 - n)) l), be_val_app, be_val_shift in Hv.
  assert (Hz : zlen (drop (Z.to_nat (8 - n)) l) = n) by (unfold zlen in *; rewrite length_drop; lia). rewrite Hz in Hv.
  pose proof (be_val_bound (drop (Z.to_nat (8 - n)) l) 0 ltac:(by apply Forall_drop) ltac:(lia)) as Hbd. rewrite Hz in Hbd.
  rewrite (Z.pow_mul_r 2 8) by lia. change (2 ^ 8) with 256.
  apply (Z.mod_unique _ _ (be_val 0 (take (Z.to_nat (8 - n)) l))); lia.
Qed.

Lemma pn_bytes_length pn n : 1 ≤ n ≤ 4 → zlen (pn_bytes pn n) = n ∧ is_bytes (pn_bytes pn n).
Proof.
  intros Hn. split; [|apply Forall_drop, u64_to_be_bytes]. unfold pn_bytes, zlen. rewrite length_drop.
  change (length (u64_to_be pn)) with 8%nat. lia.
Qed.

(** ** Nonces *)

Lemma nonce_ok iv pn : 12 ≤ zlen iv → ∃ n, nonce iv pn = Ok n ∧ zlen n = 12.
Proof.
  intros Hl. unfold nonce. rewrite get_range_is_Some by lia. eexists. split; [done|].
  unfold zlen in *. rewrite length_app, length_zip_with, length_drop, !length_take, length_drop.
  change (length (u64_to_be pn)) with 8%nat. lia.
Qed.

Lemma lxor_cancel_list a : ∀ b c, length b = length c → (length c ≤ length a)%nat →
  zip_with Z.lxor a b = zip_with Z.lxor a c → b = c.
Proof.
  induction a as [|x a IH]; intros [|y b] [|z c] Hl Hc; cbn in *; try done; try lia.
  intros [= Hx Hr]. f_equal; [|apply IH; [lia|lia|done]].
  apply (f_equal (Z.lxor x)) in Hx. by rewrite <- !Z.lxor_assoc, Z.lxor_nilpotent, !Z.lxor_0_l in Hx.
Qed.

(** Under one base no two packet numbers have the same nonce. *)
Lemma nonce_inj iv a b : 12 ≤ zlen iv → is_u64 a → is_u64 b → nonce iv a = nonce iv b → a = b.
Proof.
  intros Hl Ha Hb. unfold nonce. rewrite get_range_is_Some by lia. cbn [or_panic obind]. intros [= H].
  apply app_inv_head in H. apply lxor_cancel_list in H; [|done|].
  - rewrite <- (Z.add_0_l a), <- (Z.mul_0_l (2 ^ 64)), <- (be_val_u64 0 a), H, be_val_u64 by done. done.
  - rewrite length_drop, length_take, length_drop. change (length (u64_to_be b)) with 8%nat. unfold zlen in Hl. lia.
Qed.

(** ** Masks *)

Lemma unmask_mask (x m : list Z) : (length x ≤ length m)%nat → zip_with Z.lxor (zip_with Z.lxor x m) m = x.
Proof.
  revert m. induction x as [|a x IH]; intros [|b m] Hl; cbn in *; try done; [lia|].
  rewrite Z.lxor_assoc, Z.lxor_nilpotent, Z.lxor_0_r. f_equal. apply IH. lia.
Qed.

(** Header protection is its own inverse. *)
Lemma apply_header_protection_twice first pn mask long : zlen mask = 5 →
  ∃ f p, apply_header_protection first pn mask long = Ok (f, p) ∧ apply_header_protection f p mask long = Ok (first, pn).
Proof.
  intros Hm. unfold apply_header_protection. destruct (get_is_Some mask 0) as [m ->]; [lia|]. cbn [or_panic obind].
  eexists _, _. split; [done|]. rewrite Z.lxor_assoc, Z.lxor_nilpotent, Z.lxor_0_r. do 2 f_equal.
  set (x := take 4 pn). set (y := drop 4 pn). set (ms := drop 1 mask).
  assert (Hms : length ms = 4%nat) by (unfold ms, zlen in *; rewrite length_drop; lia).
  assert (Hx : (length x ≤ 4)%nat) by (unfold x; rewrite length_take; lia).
  assert (Hz : length (zip_with Z.lxor x ms) = length x) by (rewrite length_zip_with; lia).
  assert (Hy : (length x < 4)%nat → y = []) by (unfold x, y; rewrite length_take; intros; apply drop_ge; lia).
  assert (Hsplit : take 4 (zip_with Z.lxor x ms ++ y) = zip_with Z.lxor x ms ∧ drop 4 (zip_with Z.lxor x ms ++ y) = y).
  { destruct (decide (length x < 4)%nat) as [Hlt|].
    - rewrite (Hy Hlt), app_nil_r, take_ge, drop_ge by lia. done.
    - rewrite take_app_length', drop_app_length' by lia. done. }
  destruct Hsplit as [-> ->]. rewrite unmask_mask by lia. unfold x, y. apply take_drop.
Qed.

Lemma set_at_mid {A} (pre post : list A) x y : set_at (pre ++ x :: post) (zlen pre) y = Some (pre ++ y :: post).
Proof.
  unfold set_at. pose proof (zlen_nonneg pre). pose proof (zlen_nonneg post).
  rewrite zlen_app, zlen_cons, (proj2 (Z.leb_le _ _)), (proj2 (Z.ltb_lt _ _)) by lia. cbn [andb].
  f_equal. unfold zlen. rewrite Nat2Z.id. by rewrite insert_app_r_alt, Nat.sub_diag by lia.
Qed.

Lemma mask_pn_spec x : ∀ i offset pre post (mask ms : list Z),
  zlen pre = offset + i → 0 ≤ i → drop (Z.to_nat (1 + i)) mask = ms → (length x ≤ length ms)%nat →
  mask_pn (length x) i offset mask (pre ++ x ++ post) = Ok (pre ++ zip_with Z.lxor x ms ++ post).
Proof.
  induction x as [|b x IH]; intros i offset pre post mask ms Hp Hi Hm Hl; [done|]. cbn [length mask_pn].
  destruct ms as [|m ms]; [cbn in Hl; lia|].
  assert (Hg : get mask (1 + i) = Some m).
  { apply get_Some_lookup. split; [lia|]. rewrite <- (Nat.add_0_r (Z.to_nat (1 + i))), <- lookup_drop. by rewrite Hm. }
  rewrite Hg. cbn [or_panic obind app zip_with]. rewrite <- Hp, get_app_mid. cbn [or_panic obind].
  rewrite set_at_mid. cbn [or_panic obind].
  replace (pre ++ Z.lxor b m :: x ++ post) with ((pre ++ [Z.lxor b m]) ++ x ++ post) by (by rewrite <- app_assoc).
  rewrite (IH (i + 1) offset (pre ++ [Z.lxor b m]) post mask ms).
  - by rewrite <- app_assoc.
  - rewrite zlen_app, zlen_cons, zlen_nil. lia.
  - lia.
  - replace (Z.to_nat (1 + (i + 1))) with (Z.to_nat (1 + i) + 1)%nat by lia. by rewrite <- drop_drop, Hm.
  - cbn in Hl. lia.
Qed.

Lemma mask_header_spec low first mid x post m0 (ms : list Z) : zlen x ≤ zlen ms →
  mask_header low (zlen mid + 1) (zlen x) (m0 :: ms) (first :: mid ++ x ++ post) =
  Ok (Z.lxor first (Z.land m0 low) :: mid ++ zip_with Z.lxor x ms ++ post).
Proof.
  intros Hl. unfold mask_header. rewrite !get_cons_0. cbn [or_panic obind].
  rewrite (set_at_mid [] (mid ++ x ++ post) first _). cbn [or_panic obind app].
  pose proof (mask_pn_spec x 0 (zlen mid + 1) (Z.lxor first (Z.land m0 low) :: mid) post (m0 :: ms) ms) as H.
  cbn [app] in H. replace (Z.to_nat (zlen x)) with (length x) by (unfold zlen; lia). apply H; [rewrite zlen_cons; lia|lia|done|unfold zlen in Hl; lia].
Qed.

Lemma unmask_loop_spec x : ∀ i offset pre post (mask ms : list Z) (val : Z) done_ left_,
  zlen pre = offset + i → 0 ≤ i → drop (Z.to_nat (1 + i)) mask = ms → (length x ≤ length ms)%nat →
  is_bytes (zip_with Z.lxor x ms) → 0 ≤ val → (val + 1) * 256 ^ zlen x ≤ 2 ^ 64 →
  zlen done_ = i → (length x ≤ length left_)%nat →
  unmask_loop (length x) i offset (pre ++ x ++ post) mask val (done_ ++ left_) =
  Ok (be_val val (zip_with Z.lxor x ms), done_ ++ zip_with Z.lxor x ms ++ drop (length x) left_).
Proof.
  induction x as [|b x IH]; intros i offset pre post mask ms val done_ left_ Hp Hi Hm Hl Hb Hv Hmax Hd Hleft; [done|].
  cbn [length unmask_loop]. destruct ms as [|m ms]; [cbn in Hl; lia|]. destruct left_ as [|l0 left_]; [cbn in Hleft; lia|].
  assert (Hg : get mask (1 + i) = Some m).
  { apply get_Some_lookup. split; [lia|]. rewrite <- (Nat.add_0_r (Z.to_nat (1 + i))), <- lookup_drop. by rewrite Hm. }
  rewrite Hg. cbn [app zip_with] in *. rewrite <- Hp, get_app_mid. cbn [ok_or or_panic obind].
  rewrite <- Hd, set_at_mid, Hd. cbn [or_panic obind]. apply Forall_cons in Hb as [Hb1 Hb2].
  rewrite zlen_cons, Z.pow_add_r in Hmax by (pose proof (zlen_nonneg x); lia).
  assert (0 < 256 ^ zlen x) by (apply Z.pow_pos_nonneg; [lia|apply zlen_nonneg]). pose proof Hb1 as Hb1'. unfold is_u8, U8_MAX in Hb1'.
  rewrite Varint.shl8_lor by (done || nia).
  replace (pre ++ b :: x ++ post) with ((pre ++ [b]) ++ x ++ post) by (by rewrite <- app_assoc).
  replace (done_ ++ Z.lxor b m :: left_) with ((done_ ++ [Z.lxor b m]) ++ left_) by (by rewrite <- app_assoc).
  rewrite (IH (i + 1) offset (pre ++ [b]) post mask ms).
  - rewrite <- app_assoc. done.
  - rewrite zlen_app, zlen_cons, zlen_nil. lia.
  - lia.
  - replace (Z.to_nat (1 + (i + 1))) with (Z.to_nat (1 + i) + 1)%nat by lia. by rewrite <- drop_drop, Hm.
  - cbn in Hl. lia.
  - done.
  - lia.
  - nia.
  - rewrite zlen_app, zlen_cons, zlen_nil. lia.
  - cbn in Hleft. lia.
Qed.

(** ** Long headers *)

(** What stands between the source identifier and the length. *)
Definition token_field (t : Z) (token tok : list Z) : Prop :=
  (t = INITIAL ∧ zlen token ≤ 256 ∧ tok = Varint.write (zlen token) ++ token) ∨ (t ≠ INITIAL ∧ token = [] ∧ tok = []).

Lemma read_write_small v post : 0 ≤ v < 2 ^ 62 → Varint.read (Varint.write v ++ post) = Some (v, zlen (Varint.write v)).
Proof.
  intros Hv. rewrite Varint.read_write by (unfold is_u64, U64_MAX; lia). by rewrite Z.mod_small, Varint.zlen_write by lia.
Qed.

Lemma parse_long_header_spec first v dcid scid token tok L body pkt :
  pkt = first :: v ++ zlen dcid :: dcid ++ zlen scid :: scid ++ tok ++ Varint.write L ++ body →
  let t := Z.shiftr (Z.land first 0x30) 4 in
  Z.land first 0x80 ≠ 0 → t ≠ RETRY → zlen v = 4 → zlen dcid ≤ 20 → zlen scid ≤ 20 → token_field t token tok →
  0 ≤ L < 2 ^ 62 → L ≤ zlen body → zlen pkt ≤ USIZE_MAX →
  parse_long_header pkt =
  Ok (mkHeader t (be_val 0 v) dcid scid token (zlen pkt - zlen body) (zlen pkt - zlen body + L)).
Proof.
  intros Hpkt t H80 Hretry Hv Hdl Hsl Htok HL Hbody Hmax. unfold parse_long_header.
  assert (H0 : here pkt 0 (first :: v ++ zlen dcid :: dcid ++ zlen scid :: scid ++ tok ++ Varint.write L ++ body))
    by (rewrite Hpkt; apply here_0).
  rewrite (here_get _ _ _ _ H0). cbn [ok_or obind]. rewrite (proj2 (Z.eqb_neq _ _) H80). fold t.
  rewrite (proj2 (Z.eqb_neq _ _) Hretry). apply here_next in H0. change (0 + 1) with 1 in H0.
  pose proof (here_range _ _ _ _ H0) as Hr. rewrite Hv in Hr. rewrite Hr. cbn [ok_or obind].
  apply here_skip in H0. rewrite Hv in H0.
  rewrite (here_get _ _ _ _ H0). cbn [ok_or obind]. rewrite (proj2 (Z.ltb_ge _ _) Hdl). apply here_next in H0.
  rewrite (here_range _ _ _ _ H0). cbn [ok_or obind]. apply here_skip in H0.
  rewrite (here_get _ _ _ _ H0). cbn [ok_or obind]. rewrite (proj2 (Z.ltb_ge _ _) Hsl). apply here_next in H0.
  rewrite (here_range _ _ _ _ H0). cbn [ok_or obind]. apply here_skip in H0.
  set (pos := 1 + 4 + 1 + zlen dcid + 1 + zlen scid) in *.
  assert (Htl : ∀ (k : list Z * Z → outcome unit LongHeader),
    obind (if t =? INITIAL then
       try! s := ok_or (get_range pkt pos (zlen pkt)) in
       try! (tl, n) := ok_or (Varint.read s) in
       if 256 <? tl then Err tt else
       try! t := ok_or (get_range pkt (pos + n) (pos + n + tl)) in
       Ok (t, pos + n + tl)
     else Ok ([], pos)) k = k (token, pos + zlen tok)).
  { intros k. destruct Htok as [(Ht & Hlen & ->)|(Ht & -> & ->)].
    - rewrite (proj2 (Z.eqb_eq _ _) Ht). rewrite (here_rest _ _ _ H0), <- app_assoc. cbn [ok_or obind].
      pose proof (zlen_nonneg token). rewrite read_write_small by lia. cbn [ok_or obind]. rewrite (proj2 (Z.ltb_ge _ _) Hlen).
      rewrite <- app_assoc in H0. apply here_skip in H0. rewrite (here_range _ _ _ _ H0). cbn [ok_or obind].
      by rewrite zlen_app, Z.add_assoc.
    - by rewrite (proj2 (Z.eqb_neq _ _) Ht), zlen_nil, Z.add_0_r. }
  rewrite Htl. apply here_skip in H0. set (pos' := pos + zlen tok) in *. clear Htl.
  rewrite (here_rest _ _ _ H0). cbn [ok_or obind]. rewrite read_write_small by lia. cbn [ok_or obind].
  apply here_skip in H0. apply here_len in H0 as [Hlen _]. unfold checked_add.
  rewrite (proj2 (Z.leb_le _ _)) by lia. cbn [ok_or obind]. rewrite (proj2 (Z.ltb_ge _ _)) by lia.
  do 2 f_equal; lia.
Qed.

(** The first octet: its kind and, once unmasked, the length of the number. *)
Lemma long_first t n m : 0 ≤ t ≤ 2 → 1 ≤ n ≤ 4 →
  let first := Z.lor (Z.lor 0xc0 (Z.shiftl t 4 mod 2 ^ 8)) (n - 1) in
  let masked := Z.lxor first (Z.land m 0x0f) in
  Z.land masked 0x80 ≠ 0 ∧ Z.shiftr (Z.land masked 0x30) 4 = t ∧ Z.lxor masked (Z.land m 0x0f) = first ∧ Z.land first 3 + 1 = n.
Proof.
  intros Ht Hn. cbv zeta. rewrite Z.lxor_assoc, Z.lxor_nilpotent, Z.lxor_0_r.
  assert (Hm : 0 ≤ Z.land m 15 < 16) by (rewrite (land_ones_mod m 4) by done; apply Z.mod_pos_bound; lia).
  set (x := Z.land m 15) in *. clearbody x.
  assert (Hall : forallb (λ t, forallb (λ n, forallb (λ x,
    let first := Z.lor (Z.lor 0xc0 (Z.shiftl t 4 mod 2 ^ 8)) (n - 1) in
    negb (Z.land (Z.lxor first x) 0x80 =? 0) && (Z.shiftr (Z.land (Z.lxor first x) 0x30) 4 =? t) && (Z.land first 3 + 1 =? n))
    (map Z.of_nat (seq 0 16))) (map Z.of_nat (seq 1 4))) (map Z.of_nat (seq 0 3)) = true) by (vm_compute; reflexivity).
  assert (Hin : ∀ a b v, Z.of_nat a ≤ v < Z.of_nat a + Z.of_nat b → In v (map Z.of_nat (seq a b))).
  { intros a b v Hv. apply in_map_iff. exists (Z.to_nat v). split; [lia|]. apply in_seq. lia. }
  rewrite forallb_forall in Hall. specialize (Hall t (Hin 0%nat 3%nat t ltac:(lia))).
  rewrite forallb_forall in Hall. specialize (Hall n (Hin 1%nat 4%nat n ltac:(lia))).
  rewrite forallb_forall in Hall. specialize (Hall x (Hin 0%nat 16%nat x ltac:(lia))).
  cbv zeta in Hall. bool_prop. by split_and!.
Qed.

Lemma short_first (phase : bool) n m : 1 ≤ n ≤ 4 →
  let first := Z.lor (Z.lor 0x40 (if phase then 0x04 else 0)) (n - 1) in
  let masked := Z.lxor first (Z.land m 0x1f) in
  Z.land masked 0x80 = 0 ∧ Z.lxor masked (Z.land m 0x1f) = first ∧ Z.land first 3 + 1 = n ∧ negb (Z.land first 0x04 =? 0) = phase.
Proof.
  intros Hn. cbv zeta. rewrite Z.lxor_assoc, Z.lxor_nilpotent, Z.lxor_0_r.
  assert (Hm : 0 ≤ Z.land m 31 < 32) by (rewrite (land_ones_mod m 5) by done; apply Z.mod_pos_bound; lia).
  set (x := Z.land m 31) in *. clearbody x.
  assert (Hall : forallb (λ p : bool, forallb (λ n, forallb (λ x,
    let first := Z.lor (Z.lor 0x40 (if p then 0x04 else 0)) (n - 1) in
    (Z.land (Z.lxor first x) 0x80 =? 0) && (Z.land first 3 + 1 =? n) && Bool.eqb (negb (Z.land first 0x04 =? 0)) p)
    (map Z.of_nat (seq 0 32))) (map Z.of_nat (seq 1 4))) [true; false] = true) by (vm_compute; reflexivity).
  assert (Hin : ∀ a b v, Z.of_nat a ≤ v < Z.of_nat a + Z.of_nat b → In v (map Z.of_nat (seq a b))).
  { intros a b v Hv. apply in_map_iff. exists (Z.to_nat v). split; [lia|]. apply in_seq. lia. }
  rewrite forallb_forall in Hall. specialize (Hall phase ltac:(destruct phase; [by left|by right; left])).
  rewrite forallb_forall in Hall. specialize (Hall n (Hin 1%nat 4%nat n ltac:(lia))).
  rewrite forallb_forall in Hall. specialize (Hall x (Hin 0%nat 32%nat x ltac:(lia))).
  cbv zeta in Hall. bool_prop. split_and!; [done|done|done|]. by apply eqb_prop.
Qed.

(** ** Removing the protection *)

(** The sample does not reach the octets that are masked. *)
Lemma sample_spec (head y ct post : list Z) : 1 ≤ zlen y ≤ 4 → 20 - zlen y ≤ zlen ct →
  get_range (head ++ y ++ ct ++ post) (zlen head + 4) (zlen head + 20) =
  Some (take 16 (drop (Z.to_nat (4 - zlen y)) ct)).
Proof.
  intros Hy Hct. set (c1 := take (Z.to_nat (4 - zlen y)) ct). set (s := take 16 _).
  assert (Hc1 : zlen c1 = 4 - zlen y) by (unfold c1, zlen in *; rewrite length_take; lia).
  assert (Hs : zlen s = 16) by (unfold s, zlen in *; rewrite length_take, length_drop; lia).
  assert (Hsplit : head ++ y ++ ct ++ post = (head ++ y ++ c1) ++ s ++ drop 16 (drop (Z.to_nat (4 - zlen y)) ct) ++ post).
  { rewrite <- !app_assoc. do 2 f_equal. rewrite (app_assoc s), <- (take_drop (Z.to_nat (4 - zlen y)) ct) at 1.
    rewrite <- app_assoc. f_equal. f_equal. unfold s. by rewrite take_drop. }
  rewrite Hsplit. pose proof (get_range_app (head ++ y ++ c1) s (drop 16 (drop (Z.to_nat (4 - zlen y)) ct) ++ post)) as H.
  rewrite !zlen_app, Hc1, Hs in H. rewrite <- H. f_equal; lia.
Qed.

(** The additional data: the header as it was before the masks. *)
Lemma aad_spec {A} masked first (mid y x post bs : list Z) n (k : list Z → outcome unit A) : zlen y = n → zlen x = n → zlen bs = 4 → n ≤ 4 →
  take (length x) bs = x →
  (try! aad := ok_or (get_range (masked :: mid ++ y ++ post) 0 (zlen mid + 1 + n)) in
   try! aad := or_panic (set_at aad 0 first) in
   try! bs := or_panic (get_range bs 0 n) in
   try! aad := copy_at aad (zlen mid + 1) bs in k aad) = k (first :: mid ++ x).
Proof.
  intros Hy Hxn Hbs H4 Htake. subst n. rename Hxn into Hxy.
  assert (Hg : get_range (masked :: mid ++ y ++ post) 0 (zlen mid + 1 + zlen y) = Some (masked :: mid ++ y)).
  { pose proof (get_range_app [] (masked :: mid ++ y) post) as H. rewrite zlen_nil, zlen_cons, zlen_app in H.
    cbn [app] in H. rewrite <- app_assoc in H. rewrite <- H. f_equal; lia. }
  rewrite Hg. cbn [ok_or obind]. pose proof (set_at_mid [] (mid ++ y) masked first) as Hset. cbn [app] in Hset. change (zlen []) with 0 in Hset.
  rewrite Hset. cbn [or_panic obind].
  pose proof (zlen_nonneg y). rewrite get_range_is_Some by lia. change (Z.to_nat 0) with 0%nat. rewrite drop_0.
  replace (Z.to_nat (zlen y - 0)) with (length x) by (unfold zlen in *; lia). rewrite Htake. cbn [or_panic obind].
  unfold copy_at. pose proof (zlen_nonneg mid). rewrite zlen_cons, zlen_app.
  rewrite (proj2 (Z.leb_le 0 _)), (proj2 (Z.leb_le _ _)) by lia. cbn [andb obind]. f_equal.
  replace (Z.to_nat (zlen mid + 1)) with (S (length mid)) by (unfold zlen; lia).
  replace (Z.to_nat (zlen mid + 1 + zlen x)) with (S (length mid + length y)) by (unfold zlen in *; lia).
  cbn [take drop app]. rewrite take_app_length, <- length_app, drop_ge by done. by rewrite app_nil_r.
Qed.

Lemma unmask_pn_spec masked mid x post m0 ms largest pn n : x = pn_bytes pn n → 1 ≤ n ≤ 4 → zlen ms = 4 →
  0 ≤ largest < 2 ^ 62 → 0 ≤ pn < 2 ^ 62 → largest + 1 - 2 ^ (8 * n - 1) < pn ≤ largest + 1 + 2 ^ (8 * n - 1) →
  unmask_pn (masked :: mid ++ zip_with Z.lxor x ms ++ post) (zlen mid + 1) n (m0 :: ms) largest =
  Ok (pn, x ++ drop (length x) [0; 0; 0; 0]).
Proof.
  intros Hx Hn Hms Hl Hp Hw. destruct (pn_bytes_length pn n Hn) as [Hxl Hxb]. rewrite <- Hx in Hxl, Hxb.
  set (y := zip_with Z.lxor x ms). assert (Hyl : length y = length x) by (unfold y; rewrite length_zip_with; unfold zlen in *; lia).
  assert (Hyx : zip_with Z.lxor y ms = x) by (apply unmask_mask; unfold zlen in *; lia).
  unfold unmask_pn. pose proof (unmask_loop_spec y 0 (zlen mid + 1) (masked :: mid) post (m0 :: ms) ms 0 [] [0; 0; 0; 0]) as H.
  rewrite Hyx in H. cbn [app] in H. replace (Z.to_nat n) with (length y) by (unfold zlen in Hxl; lia). rewrite H.
  - cbn [obind]. rewrite Hyl, Hx, be_val_pn_bytes, decode_pn_spec by lia. done.
  - rewrite zlen_cons. lia.
  - lia.
  - done.
  - unfold zlen in *. lia.
  - done.
  - lia.
  - assert (zlen y = n) as -> by (unfold zlen in *; lia). change (2 ^ 64) with (256 ^ 8).
    rewrite Z.mul_1_l. apply Z.pow_le_mono_r; lia.
  - done.
  - cbn. unfold zlen in *. lia.
Qed.

Section ciphers.
Context (encrypt : Aead → list Z → list Z → list Z → list Z → list Z).
Context (decrypt : Aead → list Z → list Z → list Z → list Z → option (list Z)).
Context (header_mask : Aead → list Z → list Z → list Z).

(** What the ciphers promise: decryption undoes encryption, the tag has 16
    octets, and a mask has five. *)
Record cipher_laws : Prop := {
  law_open : ∀ a k n aad m, decrypt a k n aad (encrypt a k n aad m) = Some m;
  law_tag : ∀ a k n aad m, zlen (encrypt a k n aad m) = zlen m + 16;
  law_mask : ∀ a k s, zlen s = 16 → zlen (header_mask a k s) = 5;
}.

Context (laws : cipher_laws).

Lemma mask_cons a k s : zlen s = 16 → ∃ m0 ms, header_mask a k s = m0 :: ms ∧ zlen ms = 4.
Proof.
  intros Hs. pose proof (law_mask laws a k s Hs) as H. destruct (header_mask a k s) as [|m0 ms]; [rewrite zlen_nil in H; lia|].
  exists m0, ms. split; [done|]. rewrite zlen_cons in H. lia.
Qed.

Lemma pad_payload_length n p : zlen p ≤ zlen (pad_payload n p) ∧ 4 - n ≤ zlen (pad_payload n p).
Proof. unfold pad_payload, saturating_sub. rewrite zlen_app. unfold zlen. rewrite length_replicate. lia. Qed.

(** The packets that an endpoint makes: everything before the number, the
    number masked, the text, and the first octet masked. *)
Lemma protect_end a keys head mid pn n low payload : 1 ≤ n ≤ 4 → 12 ≤ zlen (iv keys) →
  ∃ nc m0 ms ct, nonce (iv keys) pn = Ok nc
    ∧ ct = encrypt a (key keys) nc (head :: mid ++ pn_bytes pn n) (pad_payload n payload)
    ∧ header_mask a (hp keys) (take 16 (drop (Z.to_nat (4 - n)) ct)) = m0 :: ms ∧ zlen ms = 4
    ∧ zlen ct = zlen (pad_payload n payload) + 16
    ∧ (let pkt := head :: mid in
       let offset := zlen pkt in
       let pkt := pkt ++ pn_bytes pn n in
       try! ct := seal encrypt a (key keys) (iv keys) pn pkt (pad_payload n payload) in
       let pkt := pkt ++ ct in
       try! sample := or_panic (get_range pkt (offset + 4) (offset + 20)) in
       mask_header low offset n (header_mask a (hp keys) sample) pkt) =
      Ok (Z.lxor head (Z.land m0 low) :: mid ++ zip_with Z.lxor (pn_bytes pn n) ms ++ ct).
Proof.
  intros Hn Hiv. destruct (nonce_ok (iv keys) pn Hiv) as (nc & Hnc & _).
  set (ct := encrypt a (key keys) nc (head :: mid ++ pn_bytes pn n) (pad_payload n payload)).
  assert (Hct : zlen ct = zlen (pad_payload n payload) + 16) by apply (law_tag laws).
  destruct (pad_payload_length n payload) as [_ Hpad]. destruct (pn_bytes_length pn n Hn) as [Hx _].
  destruct (mask_cons a (hp keys) (take 16 (drop (Z.to_nat (4 - n)) ct))) as (m0 & ms & Hm & Hms).
  { unfold zlen in *. rewrite length_take, length_drop. lia. }
  exists nc, m0, ms, ct. split_and!; try done. cbv zeta. unfold seal. rewrite Hnc. cbn [obind app]. fold ct.
  rewrite zlen_cons. pose proof (sample_spec (head :: mid) (pn_bytes pn n) ct []) as Hs.
  rewrite Hx, app_nil_r, zlen_cons in Hs. cbn [app] in Hs. rewrite <- app_assoc, Hs by lia. cbn [or_panic obind].
  rewrite Hm. pose proof (mask_header_spec low head mid (pn_bytes pn n) ct m0 ms) as He. rewrite Hx in He. apply He. lia.
Qed.

(** A long packet reads back, whatever follows it in the datagram. *)
Lemma unprotect_protect_long a keys t dcid scid token pn n payload largest rest :
  0 ≤ t ≤ 2 → 1 ≤ n ≤ 4 → zlen dcid ≤ 20 → zlen scid ≤ 20 → zlen token ≤ 256 → 12 ≤ zlen (iv keys) →
  0 ≤ largest < 2 ^ 62 → 0 ≤ pn < 2 ^ 62 → largest + 1 - 2 ^ (8 * n - 1) < pn ≤ largest + 1 + 2 ^ (8 * n - 1) →
  zlen payload + zlen rest ≤ 2 ^ 61 →
  ∃ pkt, protect_long encrypt header_mask a keys t dcid scid token pn n payload = Ok pkt ∧
    unprotect_long decrypt header_mask a keys (pkt ++ rest) largest =
    Ok (mkLong t VERSION_1 dcid scid (if t =? INITIAL then token else []) pn (pad_payload n payload) (zlen pkt)).
Proof.
  intros Ht Hn Hd Hs Htok Hiv Hl Hp Hw Hsz. unfold protect_long.
  rewrite (proj2 (Z.leb_le 1 n)), (proj2 (Z.leb_le n 4)), !(proj2 (Z.ltb_ge _ _)) by lia. cbn [negb andb orb].
  pose proof (zlen_nonneg dcid). pose proof (zlen_nonneg scid). pose proof (zlen_nonneg token). pose proof (zlen_nonneg rest).
  rewrite (Z.mod_small (zlen dcid)), (Z.mod_small (zlen scid)) by lia.
  set (first := Z.lor (Z.lor 0xc0 _) (n - 1)). set (L := n + zlen (pad_payload n payload) + 16).
  set (tok := if t =? INITIAL then Varint.write (zlen token) ++ token else []).
  set (mid := u32_to_be VERSION_1 ++ zlen dcid :: dcid ++ zlen scid :: scid ++ tok ++ Varint.write L).
  assert (Hhead : (if t =? INITIAL then
      ([first] ++ u32_to_be VERSION_1 ++ [zlen dcid] ++ dcid ++ [zlen scid] ++ scid) ++ Varint.write (zlen token) ++ token
      else [first] ++ u32_to_be VERSION_1 ++ [zlen dcid] ++ dcid ++ [zlen scid] ++ scid) ++ Varint.write L = first :: mid).
  { unfold mid, tok. destruct (t =? INITIAL); cbn [app]; by rewrite <- ?app_assoc; cbn [app]; rewrite <- ?app_assoc; cbn [app]; rewrite <- ?app_assoc. }
  rewrite Hhead. destruct (protect_end a keys first mid pn n 0x0f payload Hn Hiv) as (nc & m0 & ms & ct & Hnc & Hcte & Hm & Hms & Hct & He).
  cbv zeta in He |- *. rewrite He. eexists. split; [done|].
  destruct (pad_payload_length n payload) as [Hpl Hpad]. destruct (pn_bytes_length pn n Hn) as [Hx Hxb].
  set (x := pn_bytes pn n) in *. set (y := zip_with Z.lxor x ms).
  assert (Hy : zlen y = n) by (unfold y, zlen in *; rewrite length_zip_with; lia).
  destruct (long_first t n m0 Ht Hn) as (H80 & Hty & Hback & Hlen). fold first in H80, Hty, Hback, Hlen.
  set (masked := Z.lxor first (Z.land m0 15)) in *.
  assert (Hpkt : (masked :: mid ++ y ++ ct) ++ rest = masked :: u32_to_be VERSION_1 ++ zlen dcid :: dcid ++ zlen scid :: scid ++ tok ++ Varint.write L ++ (y ++ ct ++ rest)).
  { unfold mid. cbn [app]. rewrite <- !app_assoc. cbn [app]. by rewrite <- !app_assoc; cbn [app]; rewrite <- !app_assoc. }
  set (pkt := (masked :: mid ++ y ++ ct) ++ rest) in *.
  assert (Hshape : pkt = masked :: mid ++ y ++ ct ++ rest) by (unfold pkt; cbn [app]; by rewrite <- !app_assoc).
  pose proof (parse_long_header_spec masked (u32_to_be VERSION_1) dcid scid (if t =? INITIAL then token else []) tok L
    (y ++ ct ++ rest) pkt Hpkt) as Hparse. cbv zeta in Hparse. rewrite Hty in Hparse.
  assert (Hmid : zlen mid ≤ 400).
  { unfold mid. rewrite !zlen_app, zlen_cons, zlen_app, zlen_cons, !zlen_app, Varint.zlen_write. pose proof (Varint.len_pos L).
    assert (zlen tok ≤ 264) by (unfold tok; destruct (t =? INITIAL); [rewrite zlen_app, Varint.zlen_write; pose proof (Varint.len_pos (zlen token)); lia|rewrite zlen_nil; lia]).
    change (zlen (u32_to_be VERSION_1)) with 4. lia. }
  assert (Hpadle : zlen (pad_payload n payload) ≤ zlen payload + 4).
  { unfold pad_payload, saturating_sub. rewrite zlen_app. unfold zlen. rewrite length_replicate. lia. }
  assert (Hlen' : zlen pkt = zlen mid + 1 + zlen (y ++ ct ++ rest)) by (rewrite Hshape, zlen_cons, zlen_app; lia).
  assert (Hbody : zlen (y ++ ct ++ rest) = L + zlen rest) by (rewrite !zlen_app, Hy, Hct; unfold L; lia).
  pose proof (zlen_nonneg payload). pose proof (zlen_nonneg mid).
  unfold unprotect_long. rewrite Hparse; clear Hparse; [|done|unfold RETRY; lia|done|done|done| |unfold L in *; lia|lia|unfold USIZE_MAX, L in *; lia].
  2: { unfold token_field, tok. destruct (Z.eqb_spec t INITIAL); [by left|by right]. }
  replace (zlen pkt - zlen (y ++ ct ++ rest)) with (zlen mid + 1) by lia.
  cbn [obind pn_offset end_ lh_ptype lh_version lh_dcid lh_scid lh_token]. rewrite Hshape, get_cons_0. cbn [or_panic obind].
  pose proof (sample_spec (masked :: mid) y ct rest) as Hsample. rewrite zlen_cons, Hy in Hsample. cbn [app] in Hsample.
  replace (zlen mid + 1 + 4 + 16) with (zlen mid + 1 + 20) by lia. rewrite Hsample by lia. cbn [ok_or obind].
  rewrite Hm, get_cons_0. cbn [or_panic obind]. rewrite Hback, Hlen.
  pose proof (unmask_pn_spec masked mid x (ct ++ rest) m0 ms largest pn n eq_refl Hn Hms Hl Hp Hw) as Hun. fold y in Hun.
  rewrite Hun. cbn [obind].
  rewrite (aad_spec masked first mid y x (ct ++ rest) (x ++ drop (length x) [0; 0; 0; 0]) n);
    [|done|done|unfold zlen in *; rewrite length_app, length_drop; cbn; lia|lia|apply take_app_length].
  assert (Hget : get_range (masked :: mid ++ y ++ ct ++ rest) (zlen mid + 1 + n) (zlen mid + 1 + L) = Some ct).
  { pose proof (get_range_app (masked :: mid ++ y) ct rest) as Hg. cbn [app] in Hg. rewrite <- app_assoc, zlen_cons, zlen_app, Hy in Hg.
    rewrite <- Hg. f_equal; unfold L; lia. }
  rewrite Hget. cbn [ok_or obind]. unfold open. rewrite Hnc. cbn [obind]. rewrite Hcte, (law_open laws). cbn [ok_or obind].
  do 2 f_equal. rewrite zlen_cons, !zlen_app, <- Hcte, Hct, Hy. unfold L. lia.
Qed.

(** A short packet reads back: with the keys at hand when its phase is the one
    expected, with the next ones, under the same header key, when it is not. *)
Lemma unprotect_protect_short a sk keys alt expected dcid pn n payload phase largest :
  1 ≤ n ≤ 4 → zlen dcid ≤ 20 → 12 ≤ zlen (iv sk) →
  (if Bool.eqb phase expected then keys = sk else alt = Some sk ∧ hp keys = hp sk) →
  0 ≤ largest < 2 ^ 62 → 0 ≤ pn < 2 ^ 62 → largest + 1 - 2 ^ (8 * n - 1) < pn ≤ largest + 1 + 2 ^ (8 * n - 1) →
  ∃ pkt, protect_short encrypt header_mask a sk dcid pn n payload phase = Ok pkt ∧
    unprotect_short decrypt header_mask a keys alt expected pkt (zlen dcid) largest =
    Ok (mkShort dcid pn (pad_payload n payload), negb (Bool.eqb phase expected)).
Proof.
  intros Hn Hd Hiv Hkeys Hl Hp Hw. unfold protect_short.
  rewrite (proj2 (Z.leb_le 1 n)), (proj2 (Z.leb_le n 4)), (proj2 (Z.ltb_ge _ _)) by lia. cbn [negb andb orb].
  set (first := Z.lor (Z.lor 0x40 _) (n - 1)).
  destruct (protect_end a sk first dcid pn n 0x1f payload Hn Hiv) as (nc & m0 & ms & ct & Hnc & Hcte & Hm & Hms & Hct & He).
  cbv zeta in He |- *. cbn [app] in He |- *. rewrite He. eexists. split; [done|].
  destruct (pad_payload_length n payload) as [Hpl Hpad]. destruct (pn_bytes_length pn n Hn) as [Hx Hxb].
  set (x := pn_bytes pn n) in *. set (y := zip_with Z.lxor x ms).
  assert (Hy : zlen y = n) by (unfold y, zlen in *; rewrite length_zip_with; lia).
  destruct (short_first phase n m0 Hn) as (H80 & Hback & Hlen & Hphase). fold first in H80, Hback, Hlen, Hphase.
  set (masked := Z.lxor first (Z.land m0 31)) in *. unfold unprotect_short. rewrite get_cons_0. cbn [ok_or obind].
  rewrite H80. cbn [Z.eqb negb].
  pose proof (get_range_app [masked] dcid (y ++ ct)) as Hg. change (zlen [masked]) with 1 in Hg. cbn [app] in Hg. rewrite Hg. cbn [ok_or obind].
  assert (Hhp : hp keys = hp sk) by (destruct (Bool.eqb phase expected); [by rewrite Hkeys|apply Hkeys]). rewrite Hhp.
  replace (1 + zlen dcid) with (zlen dcid + 1) by lia.
  pose proof (sample_spec (masked :: dcid) y ct []) as Hsample. rewrite app_nil_r, zlen_cons, Hy in Hsample. cbn [app] in Hsample.
  replace (zlen dcid + 1 + 4 + 16) with (zlen dcid + 1 + 20) by lia. rewrite Hsample by lia. cbn [ok_or obind].
  rewrite Hm, get_cons_0. cbn [or_panic obind]. rewrite Hback, Hlen, Hphase.
  pose proof (unmask_pn_spec masked dcid x ct m0 ms largest pn n eq_refl Hn Hms Hl Hp Hw) as Hun. fold y in Hun.
  rewrite Hun. cbn [obind].
  rewrite (aad_spec masked first dcid y x ct (x ++ drop (length x) [0; 0; 0; 0]) n);
    [|done|done|unfold zlen in *; rewrite length_app, length_drop; cbn; lia|lia|apply take_app_length].
  assert (Hrest : here (masked :: dcid ++ y ++ ct) (zlen dcid + 1 + n) ct).
  { exists (masked :: dcid ++ y). rewrite zlen_cons, zlen_app, Hy. split; [cbn [app]; by rewrite <- app_assoc|lia]. }
  rewrite (here_rest _ _ _ Hrest). cbn [ok_or obind].
  assert (Hpk : (if negb (Bool.eqb phase expected) then ok_or alt else Ok keys) = Ok sk).
  { destruct (Bool.eqb phase expected); cbn [negb]; [by rewrite Hkeys|by rewrite (proj1 Hkeys)]. }
  rewrite Hpk. cbn [obind]. unfold open. rewrite Hnc. cbn [obind]. by rewrite Hcte, (law_open laws).
Qed.

(** ** Any octets *)

Lemma unmask_loop_yields n : ∀ i offset pkt mask val bs,
  0 ≤ i → i + Z.of_nat n ≤ 4 → zlen mask = 5 → zlen bs = 4 →
  yields (unmask_loop n i offset pkt mask val bs) (λ r, zlen r.2 = 4).
Proof.
  induction n as [|n IH]; intros i offset pkt mask val bs Hi Hn Hm Hb; [done|]. cbn [unmask_loop].
  destruct (get pkt (offset + i)) as [b|]; [|done]. cbn [ok_or obind].
  destruct (get_is_Some mask (1 + i)) as [m ->]; [lia|]. cbn [or_panic obind].
  unfold set_at at 1. rewrite (proj2 (Z.leb_le 0 i)), (proj2 (Z.ltb_lt i _)) by lia. cbn [andb or_panic obind].
  apply IH; [lia|lia|done|by rewrite zlen_insert].
Qed.

(** From the mask on: the number, the header without its masks, the text. *)
Lemma unmasked_yields {A} offset first pkt mask largest e (k : Z → list Z → list Z → outcome unit A) (P : A → Prop) :
  0 ≤ offset → zlen mask = 5 → (∀ pn aad ct, yields (k pn aad ct) P) →
  let pn_len := Z.land first 0x03 + 1 in
  yields (try! (pn, bs) := unmask_pn pkt offset pn_len mask largest in
          try! aad := ok_or (get_range pkt 0 (offset + pn_len)) in
          try! aad := or_panic (set_at aad 0 first) in
          try! bs := or_panic (get_range bs 0 pn_len) in
          try! aad := copy_at aad offset bs in
          try! ct := ok_or (get_range pkt (offset + pn_len) e) in k pn aad ct) P.
Proof.
  intros Hoff Hm Hk pn_len. assert (Hpn : 1 ≤ pn_len ≤ 4).
  { unfold pn_len. rewrite (land_ones_mod first 2) by done. pose proof (Z.mod_pos_bound first (2 ^ 2)). lia. }
  clearbody pn_len. unfold unmask_pn.
  pose proof (unmask_loop_yields (Z.to_nat pn_len) 0 offset pkt mask 0 [0; 0; 0; 0] ltac:(lia) ltac:(lia) Hm eq_refl) as Hu.
  destruct (unmask_loop _ _ _ _ _ _ _) as [[v bs]|[]| |]; try done. cbn [obind]. simpl in Hu.
  destruct (get_range pkt 0 (offset + pn_len)) as [aad|] eqn:Haad; [|done]. cbn [ok_or obind].
  apply get_range_Some in Haad as (_ & _ & _ & Hal).
  unfold set_at at 1. rewrite (proj2 (Z.leb_le 0 0)), (proj2 (Z.ltb_lt 0 _)) by lia. cbn [andb or_panic obind].
  rewrite get_range_is_Some by lia. cbn [or_panic obind]. unfold copy_at.
  assert (Hz : zlen (take (Z.to_nat (pn_len - 0)) (drop (Z.to_nat 0) bs)) = pn_len).
  { unfold zlen in *. rewrite length_take, length_drop. lia. }
  rewrite Hz, zlen_insert, (proj2 (Z.leb_le 0 offset)), (proj2 (Z.leb_le _ _)) by lia. cbn [andb obind].
  destruct (get_range pkt (offset + pn_len) e) as [ct|]; [|done]. apply Hk.
Qed.

Lemma open_yields {A} a keys pn aad ct (k : list Z → outcome unit A) (P : A → Prop) : 12 ≤ zlen (iv keys) →
  (∀ payload, yields (k payload) P) → yields (try! payload := open decrypt a (key keys) (iv keys) pn aad ct in k payload) P.
Proof.
  intros Hiv Hk. unfold open. destruct (nonce_ok (iv keys) pn Hiv) as (nc & -> & _). cbn [obind].
  destruct (decrypt _ _ _ _ _); [|done]. apply Hk.
Qed.
End ciphers.

(** What a header that is read promises: the identifiers are short, and the
    packet ends within the datagram. *)
Definition header_ok (pkt : list Z) (h : LongHeader) : Prop :=
  zlen (lh_dcid h) ≤ 20 ∧ zlen (lh_scid h) ≤ 20 ∧ zlen (lh_token h) ≤ 256 ∧ 0 ≤ lh_ptype h < RETRY
  ∧ 0 < pn_offset h ≤ end_ h ∧ end_ h ≤ zlen pkt.

Lemma parse_long_header_yields pkt : is_bytes pkt → yields (parse_long_header pkt) (header_ok pkt).
Proof.
  intros Hb. unfold parse_long_header. destruct (get pkt 0) as [first|] eqn:Hf; [|done]. cbn [ok_or obind].
  destruct (Z.eqb_spec (Z.land first 0x80) 0); [done|].
  pose proof (Forall_get _ _ _ _ Hb Hf) as Hf8.
  assert (Hty : 0 ≤ Z.shiftr (Z.land first 0x30) 4 < 4).
  { assert (Hu : ∀ b, is_u8 b → (0 <=? Z.shiftr (Z.land b 0x30) 4) && (Z.shiftr (Z.land b 0x30) 4 <? 4) = true)
      by (apply u8_forall; by vm_compute). specialize (Hu _ Hf8). bool_prop. lia. }
  set (t := Z.shiftr _ 4) in *. clearbody t. destruct (Z.eqb_spec t RETRY) as [|Hne]; [done|].
  change (1 + 4) with 5. destruct (get_range pkt 1 5) as [v|]; [|done]. cbn [ok_or obind].
  destruct (get pkt 5) as [dl|] eqn:Hdl; [|done]. cbn [ok_or obind]. pose proof (Forall_get _ _ _ _ Hb Hdl) as Hd8. unfold is_u8 in Hd8.
  destruct (Z.ltb_spec 20 dl); [done|]. change (5 + 1) with 6.
  destruct (get_range pkt 6 (6 + dl)) as [dcid|] eqn:Hdc; [|done]. cbn [ok_or obind].
  apply get_range_Some in Hdc as (_ & _ & _ & Hdcl).
  destruct (get pkt (6 + dl)) as [sl|] eqn:Hsl; [|done]. cbn [ok_or obind]. pose proof (Forall_get _ _ _ _ Hb Hsl) as Hs8. unfold is_u8 in Hs8.
  destruct (Z.ltb_spec 20 sl); [done|].
  destruct (get_range pkt (6 + dl + 1) (6 + dl + 1 + sl)) as [scid|] eqn:Hsc; [|done]. cbn [ok_or obind].
  apply get_range_Some in Hsc as (_ & _ & _ & Hscl). set (pos := 6 + dl + 1 + sl).
  assert (Htok : yields (if t =? INITIAL then
       try! s := ok_or (get_range pkt pos (zlen pkt)) in
       try! (tl, n) := ok_or (Varint.read s) in
       if 256 <? tl then Err tt else
       try! t := ok_or (get_range pkt (pos + n) (pos + n + tl)) in
       Ok (t, pos + n + tl)
     else Ok ([], pos)) (λ r : list Z * Z, zlen r.1 ≤ 256 ∧ pos ≤ r.2)).
  { destruct (t =? INITIAL); [|simpl; rewrite zlen_nil; lia].
    destruct (get_range pkt pos (zlen pkt)) as [s|] eqn:Hs; [|done]. cbn [ok_or obind].
    pose proof (Forall_get_range _ _ _ _ _ Hb Hs) as Hsb.
    destruct (Varint.read s) as [[tl n0]|] eqn:Hr; [|done]. cbn [ok_or obind]. apply Varint.read_bounds in Hr as (Hn0 & _ & Htl); [|done].
    destruct (Z.ltb_spec 256 tl); [done|]. destruct (get_range pkt (pos + n0) (pos + n0 + tl)) as [tk|] eqn:Ht; [|done].
    apply get_range_Some in Ht as (_ & _ & _ & Htk). simpl. lia. }
  eapply yields_obind; [exact Htok|]. intros [token p] [Htk Hp]. simpl in Htk, Hp.
  destruct (get_range pkt p (zlen pkt)) as [s|] eqn:Hs; [|done]. cbn [ok_or obind].
  pose proof (Forall_get_range _ _ _ _ _ Hb Hs) as Hsb.
  destruct (Varint.read s) as [[L n0]|] eqn:Hr; [|done]. cbn [ok_or obind]. apply Varint.read_bounds in Hr as (Hn0 & _ & HL); [|done].
  destruct (checked_add (p + n0) L) as [e|] eqn:He; [|done]. apply checked_add_Some in He as [-> _]. cbn [ok_or obind].
  destruct (Z.ltb_spec (zlen pkt) (p + n0 + L)); [done|]. unfold header_ok, RETRY in *. simpl. unfold pos in *. lia.
Qed.

Section total.
Context (encrypt : Aead → list Z → list Z → list Z → list Z → list Z).
Context (decrypt : Aead → list Z → list Z → list Z → list Z → option (list Z)).
Context (header_mask : Aead → list Z → list Z → list Z).
Context (laws : cipher_laws encrypt decrypt header_mask).

Lemma unprotect_long_yields a keys pkt largest : is_bytes pkt → 12 ≤ zlen (iv keys) →
  yields (unprotect_long decrypt header_mask a keys pkt largest)
    (λ p, zlen (lp_dcid p) ≤ 20 ∧ zlen (lp_scid p) ≤ 20 ∧ zlen (lp_token p) ≤ 256 ∧ lp_ptype p ≠ RETRY ∧ 0 < consumed p ≤ zlen pkt).
Proof.
  intros Hb Hiv. unfold unprotect_long. eapply yields_obind; [by apply parse_long_header_yields|].
  intros h (Hd & Hs & Ht & Hty & Hoff & Hend). destruct (get_is_Some pkt 0) as [first0 ->]; [lia|]. cbn [or_panic obind].
  destruct (get_range pkt _ _) as [sample|] eqn:Hsam; [|done]. cbn [ok_or obind].
  apply get_range_Some in Hsam as (_ & _ & _ & Hl).
  assert (Hm : zlen (header_mask a (hp keys) sample) = 5) by (apply (law_mask _ _ _ laws); lia).
  destruct (get_is_Some (header_mask a (hp keys) sample) 0) as [m ->]; [lia|]. cbn [or_panic obind].
  apply unmasked_yields; [lia|done|]. intros pn aad ct. apply open_yields; [done|]. intros payload. simpl. lia.
Qed.

Lemma unprotect_short_yields a keys alt expected pkt dcid_len largest : is_bytes pkt → 0 ≤ dcid_len → 12 ≤ zlen (iv keys) →
  (∀ k, alt = Some k → 12 ≤ zlen (iv k)) →
  yields (unprotect_short decrypt header_mask a keys alt expected pkt dcid_len largest) (λ p, zlen (sp_dcid p.1) = dcid_len).
Proof.
  intros Hb Hdl Hiv Halt. unfold unprotect_short. destruct (get pkt 0) as [first0|]; [|done]. cbn [ok_or obind].
  destruct (negb _); [done|]. destruct (get_range pkt 1 (1 + dcid_len)) as [dcid|] eqn:Hd; [|done]. cbn [ok_or obind].
  apply get_range_Some in Hd as (_ & _ & _ & Hd).
  destruct (get_range pkt _ _) as [sample|] eqn:Hsam; [|done]. cbn [ok_or obind].
  apply get_range_Some in Hsam as (_ & _ & _ & Hl).
  assert (Hm : zlen (header_mask a (hp keys) sample) = 5) by (apply (law_mask _ _ _ laws); lia).
  destruct (get_is_Some (header_mask a (hp keys) sample) 0) as [m ->]; [lia|]. cbn [or_panic obind].
  apply unmasked_yields; [lia|done|]. intros pn aad ct. destruct (negb (Bool.eqb _ _)).
  - destruct alt as [k|]; [|done]. cbn [ok_or obind]. apply open_yields; [by apply Halt|]. intros payload. simpl. lia.
  - cbn [obind]. apply open_yields; [done|]. intros payload. simpl. lia.
Qed.
End total.
