(* ===== verification/QuicHandshake.v ===== *)
(** * QUIC: transport parameters and address validation
    ([onetdns-quic/src/params.rs], [retry.rs])

    The limits that two endpoints tell each other, and the tokens by which a
    server recognises that a client has its address.  [None] of the source is
    [Err tt].  SHA-256 and the AEAD of the integrity tag are other packages and
    parameters here. *)

From S2P Require Import Prelude Acl QuicPacket.
From S2P Require Varint Cookie.

#[local] Open Scope outcome_scope.

(** ** Transport parameters *)

Module Params.

Definition ORIGINAL_DESTINATION_CONNECTION_ID : Z := 0x00.
Definition MAX_IDLE_TIMEOUT : Z := 0x01.
Definition STATELESS_RESET_TOKEN : Z := 0x02.
Definition MAX_UDP_PAYLOAD_SIZE : Z := 0x03.
Definition INITIAL_MAX_DATA : Z := 0x04.
Definition INITIAL_MAX_STREAM_DATA_BIDI_LOCAL : Z := 0x05.
Definition INITIAL_MAX_STREAM_DATA_BIDI_REMOTE : Z := 0x06.
Definition INITIAL_MAX_STREAM_DATA_UNI : Z := 0x07.
Definition INITIAL_MAX_STREAMS_BIDI : Z := 0x08.
Definition INITIAL_MAX_STREAMS_UNI : Z := 0x09.
Definition ACK_DELAY_EXPONENT : Z := 0x0a.
Definition MAX_ACK_DELAY : Z := 0x0b.
Definition DISABLE_ACTIVE_MIGRATION : Z := 0x0c.
Definition ACTIVE_CONNECTION_ID_LIMIT : Z := 0x0e.
Definition INITIAL_SOURCE_CONNECTION_ID : Z := 0x0f.
Definition RETRY_SOURCE_CONNECTION_ID : Z := 0x10.

(** [struct TransportParams]. *)
Record TransportParams : Type := mkParams {
  original_destination_connection_id : option (list Z);
  initial_source_connection_id : option (list Z);
  retry_source_connection_id : option (list Z);
  stateless_reset_token : option (list Z);
  max_idle_timeout : Z;
  max_udp_payload_size : Z;
  initial_max_data : Z;
  initial_max_stream_data_bidi_local : Z;
  initial_max_stream_data_bidi_remote : Z;
  initial_max_stream_data_uni : Z;
  initial_max_streams_bidi : Z;
  initial_max_streams_uni : Z;
  ack_delay_exponent : Z;
  max_ack_delay : Z;
  active_connection_id_limit : Z;
  disable_active_migration : bool;
}.

(** [TransportParams::default] and [server_defaults]. *)
Definition default_params : TransportParams :=
  mkParams None None None None 0 65527 0 0 0 0 0 0 3 25 2 false.
Definition server_defaults : TransportParams :=
  mkParams None None None None 30000 65527 (2 ^ 20) (2 ^ 18) (2 ^ 18) (2 ^ 18) 128 16 3 25 2 true.

(** Assignments to one field. *)
Definition set_original_destination_connection_id (v : option (list Z)) (p : TransportParams) : TransportParams :=
  mkParams v (initial_source_connection_id p) (retry_source_connection_id p) (stateless_reset_token p) (max_idle_timeout p) (max_udp_payload_size p) (initial_max_data p) (initial_max_stream_data_bidi_local p) (initial_max_stream_data_bidi_remote p) (initial_max_stream_data_uni p) (initial_max_streams_bidi p) (initial_max_streams_uni p) (ack_delay_exponent p) (max_ack_delay p) (active_connection_id_limit p) (disable_active_migration p).
Definition set_initial_source_connection_id (v : option (list Z)) (p : TransportParams) : TransportParams :=
  mkParams (original_destination_connection_id p) v (retry_source_connection_id p) (stateless_reset_token p) (max_idle_timeout p) (max_udp_payload_size p) (initial_max_data p) (initial_max_stream_data_bidi_local p) (initial_max_stream_data_bidi_remote p) (initial_max_stream_data_uni p) (initial_max_streams_bidi p) (initial_max_streams_uni p) (ack_delay_exponent p) (max_ack_delay p) (active_connection_id_limit p) (disable_active_migration p).
Definition set_retry_source_connection_id (v : option (list Z)) (p : TransportParams) : TransportParams :=
  mkParams (original_destination_connection_id p) (initial_source_connection_id p) v (stateless_reset_token p) (max_idle_timeout p) (max_udp_payload_size p) (initial_max_data p) (initial_max_stream_data_bidi_local p) (initial_max_stream_data_bidi_remote p) (initial_max_stream_data_uni p) (initial_max_streams_bidi p) (initial_max_streams_uni p) (ack_delay_exponent p) (max_ack_delay p) (active_connection_id_limit p) (disable_active_migration p).
Definition set_stateless_reset_token (v : option (list Z)) (p : TransportParams) : TransportParams :=
  mkParams (original_destination_connection_id p) (initial_source_connection_id p) (retry_source_connection_id p) v (max_idle_timeout p) (max_udp_payload_size p) (initial_max_data p) (initial_max_stream_data_bidi_local p) (initial_max_stream_data_bidi_remote p) (initial_max_stream_data_uni p) (initial_max_streams_bidi p) (initial_max_streams_uni p) (ack_delay_exponent p) (max_ack_delay p) (active_connection_id_limit p) (disable_active_migration p).
Definition set_max_idle_timeout (v : Z) (p : TransportParams) : TransportParams :=
  mkParams (original_destination_connection_id p) (initial_source_connection_id p) (retry_source_connection_id p) (stateless_reset_token p) v (max_udp_payload_size p) (initial_max_data p) (initial_max_stream_data_bidi_local p) (initial_max_stream_data_bidi_remote p) (initial_max_stream_data_uni p) (initial_max_streams_bidi p) (initial_max_streams_uni p) (ack_delay_exponent p) (max_ack_delay p) (active_connection_id_limit p) (disable_active_migration p).
Definition set_max_udp_payload_size (v : Z) (p : TransportParams) : TransportParams :=
  mkParams (original_destination_connection_id p) (initial_source_connection_id p) (retry_source_connection_id p) (stateless_reset_token p) (max_idle_timeout p) v (initial_max_data p) (initial_max_stream_data_bidi_local p) (initial_max_stream_data_bidi_remote p) (initial_max_stream_data_uni p) (initial_max_streams_bidi p) (initial_max_streams_uni p) (ack_delay_exponent p) (max_ack_delay p) (active_connection_id_limit p) (disable_active_migration p).
Definition set_initial_max_data (v : Z) (p : TransportParams) : TransportParams :=
  mkParams (original_destination_connection_id p) (initial_source_connection_id p) (retry_source_connection_id p) (stateless_reset_token p) (max_idle_timeout p) (max_udp_payload_size p) v (initial_max_stream_data_bidi_local p) (initial_max_stream_data_bidi_remote p) (initial_max_stream_data_uni p) (initial_max_streams_bidi p) (initial_max_streams_uni p) (ack_delay_exponent p) (max_ack_delay p) (active_connection_id_limit p) (disable_active_migration p).
Definition set_initial_max_stream_data_bidi_local (v : Z) (p : TransportParams) : TransportParams :=
  mkParams (original_destination_connection_id p) (initial_source_connection_id p) (retry_source_connection_id p) (stateless_reset_token p) (max_idle_timeout p) (max_udp_payload_size p) (initial_max_data p) v (initial_max_stream_data_bidi_remote p) (initial_max_stream_data_uni p) (initial_max_streams_bidi p) (initial_max_streams_uni p) (ack_delay_exponent p) (max_ack_delay p) (active_connection_id_limit p) (disable_active_migration p).
Definition set_initial_max_stream_data_bidi_remote (v : Z) (p : TransportParams) : TransportParams :=
  mkParams (original_destination_connection_id p) (initial_source_connection_id p) (retry_source_connection_id p) (stateless_reset_token p) (max_idle_timeout p) (max_udp_payload_size p) (initial_max_data p) (initial_max_stream_data_bidi_local p) v (initial_max_stream_data_uni p) (initial_max_streams_bidi p) (initial_max_streams_uni p) (ack_delay_exponent p) (max_ack_delay p) (active_connection_id_limit p) (disable_active_migration p).
Definition set_initial_max_stream_data_uni (v : Z) (p : TransportParams) : TransportParams :=
  mkParams (original_destination_connection_id p) (initial_source_connection_id p) (retry_source_connection_id p) (stateless_reset_token p) (max_idle_timeout p) (max_udp_payload_size p) (initial_max_data p) (initial_max_stream_data_bidi_local p) (initial_max_stream_data_bidi_remote p) v (initial_max_streams_bidi p) (initial_max_streams_uni p) (ack_delay_exponent p) (max_ack_delay p) (active_connection_id_limit p) (disable_active_migration p).
Definition set_initial_max_streams_bidi (v : Z) (p : TransportParams) : TransportParams :=
  mkParams (original_destination_connection_id p) (initial_source_connection_id p) (retry_source_connection_id p) (stateless_reset_token p) (max_idle_timeout p) (max_udp_payload_size p) (initial_max_data p) (initial_max_stream_data_bidi_local p) (initial_max_stream_data_bidi_remote p) (initial_max_stream_data_uni p) v (initial_max_streams_uni p) (ack_delay_exponent p) (max_ack_delay p) (active_connection_id_limit p) (disable_active_migration p).
Definition set_initial_max_streams_uni (v : Z) (p : TransportParams) : TransportParams :=
  mkParams (original_destination_connection_id p) (initial_source_connection_id p) (retry_source_connection_id p) (stateless_reset_token p) (max_idle_timeout p) (max_udp_payload_size p) (initial_max_data p) (initial_max_stream_data_bidi_local p) (initial_max_stream_data_bidi_remote p) (initial_max_stream_data_uni p) (initial_max_streams_bidi p) v (ack_delay_exponent p) (max_ack_delay p) (active_connection_id_limit p) (disable_active_migration p).
Definition set_ack_delay_exponent (v : Z) (p : TransportParams) : TransportParams :=
  mkParams (original_destination_connection_id p) (initial_source_connection_id p) (retry_source_connection_id p) (stateless_reset_token p) (max_idle_timeout p) (max_udp_payload_size p) (initial_max_data p) (initial_max_stream_data_bidi_local p) (initial_max_stream_data_bidi_remote p) (initial_max_stream_data_uni p) (initial_max_streams_bidi p) (initial_max_streams_uni p) v (max_ack_delay p) (active_connection_id_limit p) (disable_active_migration p).
Definition set_max_ack_delay (v : Z) (p : TransportParams) : TransportParams :=
  mkParams (original_destination_connection_id p) (initial_source_connection_id p) (retry_source_connection_id p) (stateless_reset_token p) (max_idle_timeout p) (max_udp_payload_size p) (initial_max_data p) (initial_max_stream_data_bidi_local p) (initial_max_stream_data_bidi_remote p) (initial_max_stream_data_uni p) (initial_max_streams_bidi p) (initial_max_streams_uni p) (ack_delay_exponent p) v (active_connection_id_limit p) (disable_active_migration p).
Definition set_active_connection_id_limit (v : Z) (p : TransportParams) : TransportParams :=
  mkParams (original_destination_connection_id p) (initial_source_connection_id p) (retry_source_connection_id p) (stateless_reset_token p) (max_idle_timeout p) (max_udp_payload_size p) (initial_max_data p) (initial_max_stream_data_bidi_local p) (initial_max_stream_data_bidi_remote p) (initial_max_stream_data_uni p) (initial_max_streams_bidi p) (initial_max_streams_uni p) (ack_delay_exponent p) (max_ack_delay p) v (disable_active_migration p).
Definition set_disable_active_migration (v : bool) (p : TransportParams) : TransportParams :=
  mkParams (original_destination_connection_id p) (initial_source_connection_id p) (retry_source_connection_id p) (stateless_reset_token p) (max_idle_timeout p) (max_udp_payload_size p) (initial_max_data p) (initial_max_stream_data_bidi_local p) (initial_max_stream_data_bidi_remote p) (initial_max_stream_data_uni p) (initial_max_streams_bidi p) (initial_max_streams_uni p) (ack_delay_exponent p) (max_ack_delay p) (active_connection_id_limit p) v.

(** [put_int] and [put_bytes]: what they append. *)
Definition put_int (pid value : Z) : list Z := Varint.write pid ++ Varint.write (Varint.len value) ++ Varint.write value.
Definition put_bytes (pid : Z) (value : list Z) : list Z := Varint.write pid ++ Varint.write (zlen value) ++ value.

Definition put_some (pid : Z) (o : option (list Z)) : list Z := match o with Some c => put_bytes pid c | None => [] end.

(** [TransportParams::encode]. *)
Definition encode (p : TransportParams) : list Z :=
  put_some ORIGINAL_DESTINATION_CONNECTION_ID (original_destination_connection_id p) ++
  put_some INITIAL_SOURCE_CONNECTION_ID (initial_source_connection_id p) ++
  put_some RETRY_SOURCE_CONNECTION_ID (retry_source_connection_id p) ++
  put_some STATELESS_RESET_TOKEN (stateless_reset_token p) ++
  put_int MAX_IDLE_TIMEOUT (max_idle_timeout p) ++
  put_int MAX_UDP_PAYLOAD_SIZE (max_udp_payload_size p) ++
  put_int INITIAL_MAX_DATA (initial_max_data p) ++
  put_int INITIAL_MAX_STREAM_DATA_BIDI_LOCAL (initial_max_stream_data_bidi_local p) ++
  put_int INITIAL_MAX_STREAM_DATA_BIDI_REMOTE (initial_max_stream_data_bidi_remote p) ++
  put_int INITIAL_MAX_STREAM_DATA_UNI (initial_max_stream_data_uni p) ++
  put_int INITIAL_MAX_STREAMS_BIDI (initial_max_streams_bidi p) ++
  put_int INITIAL_MAX_STREAMS_UNI (initial_max_streams_uni p) ++
  put_int ACK_DELAY_EXPONENT (ack_delay_exponent p) ++
  put_int MAX_ACK_DELAY (max_ack_delay p) ++
  put_int ACTIVE_CONNECTION_ID_LIMIT (active_connection_id_limit p) ++
  (if disable_active_migration p then Varint.write DISABLE_ACTIVE_MIGRATION ++ Varint.write 0 else []).

Definition MAX_CID_LEN : Z := 20.
Definition MAX_STREAMS : Z := 2 ^ 20.
Definition MAX_FLOW_CREDIT : Z := 2 ^ 40.
Definition MAX_STREAMS_LIMIT : Z := 2 ^ 60.

(** The closures [as_int] and [cid] of [decode]. *)
Definition as_int (value : list Z) : outcome unit Z :=
  try! (v, consumed) := ok_or (Varint.read value) in
  if consumed =? zlen value then Ok v else Err tt.
Definition cid (value : list Z) : outcome unit (list Z) :=
  if zlen value <=? MAX_CID_LEN then Ok value else Err tt.

(** The [match] on the number of a parameter. *)
Definition apply_param (pid : Z) (value : list Z) (p : TransportParams) : outcome unit TransportParams :=
  if pid =? ORIGINAL_DESTINATION_CONNECTION_ID then try! c := cid value in Ok (set_original_destination_connection_id (Some c) p) else
  if pid =? INITIAL_SOURCE_CONNECTION_ID then try! c := cid value in Ok (set_initial_source_connection_id (Some c) p) else
  if pid =? RETRY_SOURCE_CONNECTION_ID then try! c := cid value in Ok (set_retry_source_connection_id (Some c) p) else
  if pid =? STATELESS_RESET_TOKEN then if zlen value =? 16 then Ok (set_stateless_reset_token (Some value) p) else Err tt else
  if pid =? MAX_IDLE_TIMEOUT then try! v := as_int value in Ok (set_max_idle_timeout v p) else
  if pid =? MAX_UDP_PAYLOAD_SIZE then 
    try! v := as_int value in
    if negb ((1200 <=? v) && (v <=? 65527)) then Err tt else Ok (set_max_udp_payload_size v p)
  else
  if pid =? INITIAL_MAX_DATA then 
    try! v := as_int value in Ok (set_initial_max_data (Z.min v MAX_FLOW_CREDIT) p)
  else
  if pid =? INITIAL_MAX_STREAM_DATA_BIDI_LOCAL then 
    try! v := as_int value in Ok (set_initial_max_stream_data_bidi_local (Z.min v MAX_FLOW_CREDIT) p)
  else
  if pid =? INITIAL_MAX_STREAM_DATA_BIDI_REMOTE then 
    try! v := as_int value in Ok (set_initial_max_stream_data_bidi_remote (Z.min v MAX_FLOW_CREDIT) p)
  else
  if pid =? INITIAL_MAX_STREAM_DATA_UNI then 
    try! v := as_int value in Ok (set_initial_max_stream_data_uni (Z.min v MAX_FLOW_CREDIT) p)
  else
  if pid =? INITIAL_MAX_STREAMS_BIDI then 
    try! v := as_int value in
    if MAX_STREAMS_LIMIT <? v then Err tt else Ok (set_initial_max_streams_bidi (Z.min v MAX_STREAMS) p)
  else
  if pid =? INITIAL_MAX_STREAMS_UNI then 
    try! v := as_int value in
    if MAX_STREAMS_LIMIT <? v then Err tt else Ok (set_initial_max_streams_uni (Z.min v MAX_STREAMS) p)
  else
  if pid =? ACK_DELAY_EXPONENT then 
    try! v := as_int value in if 20 <? v then Err tt else Ok (set_ack_delay_exponent v p)
  else
  if pid =? MAX_ACK_DELAY then 
    try! v := as_int value in if 2 ^ 14 <=? v then Err tt else Ok (set_max_ack_delay v p)
  else
  if pid =? ACTIVE_CONNECTION_ID_LIMIT then 
    try! v := as_int value in
    if negb ((2 <=? v) && (v <=? 2 ^ 20)) then Err tt else Ok (set_active_connection_id_limit v p)
  else
  if pid =? DISABLE_ACTIVE_MIGRATION then 
    if negb (zlen value =? 0) then Err tt else Ok (set_disable_active_migration true p)
  else
  Ok p.

(** The loop of [TransportParams::decode]: the numbers seen, and the position. *)
Fixpoint decode_loop (fuel : nat) (buf : list Z) (pos : Z) (seen : list Z) (p : TransportParams) : outcome unit TransportParams :=
  if negb (pos <? zlen buf) then Ok p else
  match fuel with
  | O => NoFuel
  | S fuel =>
      try! s := ok_or (get_range buf pos (zlen buf)) in
      try! (pid, n) := ok_or (Varint.read s) in
      try! pos := ok_or (checked_add pos n) in
      if bool_decide (pid ∈ seen) then Err tt else
      try! s := ok_or (get_range buf pos (zlen buf)) in
      try! (len, n) := ok_or (Varint.read s) in
      try! pos := ok_or (checked_add pos n) in
      try! e := ok_or (checked_add pos len) in
      try! value := ok_or (get_range buf pos e) in
      try! p := apply_param pid value p in
      decode_loop fuel buf e (pid :: seen) p
  end.

(** [TransportParams::decode]; a round takes at least one octet. *)
Definition decode (buf : list Z) : outcome unit TransportParams := decode_loop (length buf) buf 0 [] default_params.

End Params.

(** ** Retry: tokens and packets *)

Module Retry.

Definition TOKEN_VERSION : Z := 1.
Definition TOKEN_TTL_SECS : Z := 30.
Definition TOKEN_TAG_LEN : Z := 16.
Definition RETRY_INTEGRITY_KEY : list Z :=
  [0xbe; 0x0c; 0x69; 0x0b; 0x9f; 0x66; 0x57; 0x5a; 0x1d; 0x76; 0x6b; 0x54; 0xe3; 0x68; 0xc8; 0x4e].
Definition RETRY_INTEGRITY_NONCE : list Z :=
  [0x46; 0x15; 0x99; 0xd3; 0x5d; 0x63; 0x2b; 0xf2; 0x23; 0x98; 0x25; 0xbb].

(** [struct InitialHeader]. *)
Record InitialHeader : Type := mkInitial { ih_dcid : list Z; ih_scid : list Z; ih_token : list Z }.

(** [encode_ip] and [decode_ip]. *)
Definition encode_ip (ip : IpAddr) : list Z :=
  match ip with V4 _ => 4 :: Cookie.octets ip | V6 _ => 6 :: Cookie.octets ip end.
Definition decode_ip (input : list Z) : outcome unit (IpAddr * Z) :=
  try! kind := ok_or (get input 0) in
  if kind =? 4 then try! s := ok_or (get_range input 1 5) in Ok (V4 (be_val 0 s), 5)
  else if kind =? 6 then try! s := ok_or (get_range input 1 17) in Ok (V6 (be_val 0 s), 17)
  else Err tt.

(** [parse_initial_header]. *)
Definition parse_initial_header (packet : list Z) : outcome unit InitialHeader :=
  try! first := ok_or (get packet 0) in
  if negb (Z.land first 0xc0 =? 0xc0) || negb (Z.shiftr (Z.land first 0x30) 4 =? INITIAL) then Err tt else
  try! v := ok_or (get_range packet 1 5) in
  if negb (bool_decide (v = u32_to_be VERSION_1)) then Err tt else
  let pos := 5 in
  try! dcid_len := ok_or (get packet pos) in
  let pos := pos + 1 in
  if (dcid_len =? 0) || (20 <? dcid_len) then Err tt else
  try! dcid := ok_or (get_range packet pos (pos + dcid_len)) in
  let pos := pos + dcid_len in
  try! scid_len := ok_or (get packet pos) in
  let pos := pos + 1 in
  if 20 <? scid_len then Err tt else
  try! scid := ok_or (get_range packet pos (pos + scid_len)) in
  let pos := pos + scid_len in
  try! s := ok_or (get_range packet pos (zlen packet)) in
  try! (token_len, used) := ok_or (Varint.read s) in
  if 256 <? token_len then Err tt else
  let pos := pos + used in
  try! token := ok_or (get_range packet pos (pos + token_len)) in
  Ok (mkInitial dcid scid token).

Section hash.
(** [Sha256::digest], and the encryption of an AEAD as in [QuicPacket]. *)
Context (sha256 : list Z → list Z).
Context (encrypt : Aead → list Z → list Z → list Z → list Z → list Z).

(** [hmac_sha256]; feeding the hash in pieces is hashing them together. *)
Definition hmac_sha256 (key data : list Z) : list Z :=
  let block := if 64 <? zlen key then sha256 key ++ replicate 32 0 else key ++ replicate (64 - length key) 0 in
  let inner_pad := zip_with Z.lxor (replicate 64 0x36) block in
  let outer_pad := zip_with Z.lxor (replicate 64 0x5c) block in
  let inner := sha256 (inner_pad ++ data) in
  sha256 (outer_pad ++ inner).

(** [RetryKey::issue], of a key of 32 octets. *)
Definition issue (key : list Z) (ip : IpAddr) (odcid retry_scid : list Z) (now : Z) : outcome unit (list Z) :=
  let token := [TOKEN_VERSION] ++ u64_to_be now ++ encode_ip ip ++ [zlen odcid mod 2 ^ 8] ++ odcid ++
    [zlen retry_scid mod 2 ^ 8] ++ retry_scid in
  let tag := hmac_sha256 key token in
  try! tag := or_panic (get_range tag 0 TOKEN_TAG_LEN) in
  Ok (token ++ tag).

(** [RetryKey::validate]. *)
Definition validate (key token : list Z) (ip : IpAddr) (dcid : list Z) (now : Z) : outcome unit (list Z) :=
  if zlen token <? 1 + 8 + 1 + 4 + 1 + 1 + TOKEN_TAG_LEN then Err tt else
  try! at_ := ok_or (checked_sub (zlen token) TOKEN_TAG_LEN) in
  try! body := or_panic (get_range token 0 at_) in
  try! tag := or_panic (get_range token at_ (zlen token)) in
  let expected := hmac_sha256 key body in
  try! expected := or_panic (get_range expected 0 TOKEN_TAG_LEN) in
  if negb (Cookie.ct_eq tag expected) then Err tt else
  let pos := 0 in
  try! version := ok_or (get body pos) in
  if negb (version =? TOKEN_VERSION) then Err tt else
  let pos := pos + 1 in
  try! s := ok_or (get_range body pos (pos + 8)) in
  let issued := be_val 0 s in
  let pos := pos + 8 in
  if (saturating_add now 5 <? issued) || (TOKEN_TTL_SECS <? saturating_sub now issued) then Err tt else
  try! s := ok_or (get_range body pos (zlen body)) in
  try! (bound_ip, used) := decode_ip s in
  let pos := pos + used in
  if negb (bool_decide (bound_ip = ip)) then Err tt else
  try! odcid_len := ok_or (get body pos) in
  let pos := pos + 1 in
  if (odcid_len =? 0) || (20 <? odcid_len) then Err tt else
  try! odcid := ok_or (get_range body pos (pos + odcid_len)) in
  let pos := pos + odcid_len in
  try! retry_len := ok_or (get body pos) in
  let pos := pos + 1 in
  if (retry_len =? 0) || (20 <? retry_len) || negb (pos + retry_len =? zlen body) then Err tt else
  try! retry := ok_or (get_range body pos (pos + retry_len)) in
  if negb (Cookie.ct_eq retry dcid) then Err tt else Ok odcid.

(** The tag of [build_retry] and [verify_integrity]: the packet number is 0. *)
Definition integrity_tag (odcid packet : list Z) : outcome unit (list Z) :=
  let aad := [zlen odcid mod 2 ^ 8] ++ odcid ++ packet in
  seal encrypt Aes128Gcm RETRY_INTEGRITY_KEY RETRY_INTEGRITY_NONCE 0 aad [].

(** [build_retry]. *)
Definition build_retry (odcid client_scid retry_scid token : list Z) : outcome unit (list Z) :=
  let packet := [0xf0] ++ u32_to_be VERSION_1 ++ [zlen client_scid mod 2 ^ 8] ++ client_scid ++
    [zlen retry_scid mod 2 ^ 8] ++ retry_scid ++ token in
  try! tag := integrity_tag odcid packet in
  Ok (packet ++ tag).

(** [verify_integrity]. *)
Definition verify_integrity (odcid packet : list Z) : outcome unit bool :=
  if zlen packet <? 16 then Ok false else
  try! body := or_panic (get_range packet 0 (zlen packet - 16)) in
  try! tag := or_panic (get_range packet (zlen packet - 16) (zlen packet)) in
  try! expected := integrity_tag odcid body in
  Ok (Cookie.ct_eq tag expected).

End hash.
End Retry.

(** ** Transport parameters: lemmas *)

Module ParamsSpec.
Import Params.

(** A parameter as it is written, and a list of them as it is read. *)
Definition raw (e : Z * list Z) : list Z := put_bytes e.1 e.2.

Fixpoint apply_all (es : list (Z * list Z)) (p : TransportParams) : outcome unit TransportParams :=
  match es with
  | [] => Ok p
  | (pid, value) :: es => try! p := apply_param pid value p in apply_all es p
  end.

Definition some_entry (pid : Z) (o : option (list Z)) : list (Z * list Z) := match o with Some c => [(pid, c)] | None => [] end.

(** The parameters of [encode], in its order. *)
Definition entries (p : TransportParams) : list (Z * list Z) :=
  some_entry ORIGINAL_DESTINATION_CONNECTION_ID (original_destination_connection_id p) ++
  some_entry INITIAL_SOURCE_CONNECTION_ID (initial_source_connection_id p) ++
  some_entry RETRY_SOURCE_CONNECTION_ID (retry_source_connection_id p) ++
  some_entry STATELESS_RESET_TOKEN (stateless_reset_token p) ++
  [(MAX_IDLE_TIMEOUT, Varint.write (max_idle_timeout p));
   (MAX_UDP_PAYLOAD_SIZE, Varint.write (max_udp_payload_size p));
   (INITIAL_MAX_DATA, Varint.write (initial_max_data p));
   (INITIAL_MAX_STREAM_DATA_BIDI_LOCAL, Varint.write (initial_max_stream_data_bidi_local p));
   (INITIAL_MAX_STREAM_DATA_BIDI_REMOTE, Varint.write (initial_max_stream_data_bidi_remote p));
   (INITIAL_MAX_STREAM_DATA_UNI, Varint.write (initial_max_stream_data_uni p));
   (INITIAL_MAX_STREAMS_BIDI, Varint.write (initial_max_streams_bidi p));
   (INITIAL_MAX_STREAMS_UNI, Varint.write (initial_max_streams_uni p));
   (ACK_DELAY_EXPONENT, Varint.write (ack_delay_exponent p));
   (MAX_ACK_DELAY, Varint.write (max_ack_delay p));
   (ACTIVE_CONNECTION_ID_LIMIT, Varint.write (active_connection_id_limit p))] ++
  (if disable_active_migration p then [(DISABLE_ACTIVE_MIGRATION, [])] else []).

Lemma put_int_raw pid v : put_int pid v = raw (pid, Varint.write v).
Proof. unfold put_int, raw, put_bytes. simpl. by rewrite Varint.zlen_write. Qed.

Lemma put_some_raw pid o : put_some pid o = concat (map raw (some_entry pid o)).
Proof. destruct o as [c|]; [|done]. simpl. by rewrite app_nil_r. Qed.

Lemma encode_entries p : encode p = concat (map raw (entries p)).
Proof.
  unfold encode, entries. rewrite !map_app, !concat_app, !put_some_raw, !put_int_raw. do 4 f_equal.
  cbn [map concat]. rewrite <- !app_assoc. do 11 f_equal. by destruct (disable_active_migration p).
Qed.

(** The limits of the fields, as they are when parameters have been read. *)
Definition cid_ok (o : option (list Z)) : Prop := ∀ c, o = Some c → zlen c ≤ MAX_CID_LEN.
Record params_ok (p : TransportParams) : Prop := mkOk {
  ok_odcid : cid_ok (original_destination_connection_id p);
  ok_iscid : cid_ok (initial_source_connection_id p);
  ok_rscid : cid_ok (retry_source_connection_id p);
  ok_token : ∀ t, stateless_reset_token p = Some t → zlen t = 16;
  ok_idle : 0 ≤ max_idle_timeout p < 2 ^ 62;
  ok_udp : 1200 ≤ max_udp_payload_size p ≤ 65527;
  ok_data : 0 ≤ initial_max_data p ≤ MAX_FLOW_CREDIT;
  ok_local : 0 ≤ initial_max_stream_data_bidi_local p ≤ MAX_FLOW_CREDIT;
  ok_remote : 0 ≤ initial_max_stream_data_bidi_remote p ≤ MAX_FLOW_CREDIT;
  ok_uni : 0 ≤ initial_max_stream_data_uni p ≤ MAX_FLOW_CREDIT;
  ok_sbidi : 0 ≤ initial_max_streams_bidi p ≤ MAX_STREAMS;
  ok_suni : 0 ≤ initial_max_streams_uni p ≤ MAX_STREAMS;
  ok_exponent : 0 ≤ ack_delay_exponent p ≤ 20;
  ok_delay : 0 ≤ max_ack_delay p < 2 ^ 14;
  ok_limit : 2 ≤ active_connection_id_limit p ≤ 2 ^ 20;
}.

Lemma default_params_ok : params_ok default_params.
Proof. split; try done; cbn; unfold MAX_FLOW_CREDIT, MAX_STREAMS; lia. Qed.

(** A whole list of parameters with distinct numbers is read as it stands. *)
Lemma decode_entries es : ∀ fuel buf pos seen p,
  here buf pos (concat (map raw es)) → zlen buf ≤ USIZE_MAX → (length es ≤ fuel)%nat →
  Forall (λ e, 0 ≤ e.1 < 2 ^ 62 ∧ zlen e.2 < 2 ^ 62) es → NoDup (map fst es) → (∀ e, e ∈ es → e.1 ∉ seen) →
  decode_loop fuel buf pos seen p = apply_all es p.
Proof.
  induction es as [|[pid value] es IH]; intros fuel buf pos seen p Hh Hmax Hf Hes Hnd Hseen.
  - apply here_len in Hh as [Hl _]. change (zlen (concat (map raw []))) with 0 in Hl. destruct fuel; cbn [decode_loop]; by rewrite (proj2 (Z.ltb_ge _ _)) by lia.
  - cbn [map concat] in Hh. unfold raw at 1, put_bytes in Hh. cbn [fst snd] in Hh. rewrite <- !app_assoc in Hh.
    destruct fuel as [|fuel]; [cbn in Hf; lia|]. cbn [decode_loop apply_all].
    apply Forall_cons in Hes as [[Hpid Hv] Hes]. cbn [fst snd] in Hpid, Hv.
    pose proof (here_len _ _ _ Hh) as [Hl Hp0]. rewrite !zlen_app, !Varint.zlen_write in Hl.
    pose proof (Varint.len_pos pid). pose proof (Varint.len_pos (zlen value)). pose proof (zlen_nonneg value).
    pose proof (zlen_nonneg (concat (map raw es))).
    rewrite (proj2 (Z.ltb_lt _ _)) by lia. cbn [negb]. rewrite (here_rest _ _ _ Hh). cbn [ok_or obind].
    rewrite read_write_small by lia. cbn [ok_or obind]. unfold checked_add. rewrite Varint.zlen_write.
    rewrite (proj2 (Z.leb_le _ _)) by lia. cbn [ok_or obind].
    rewrite bool_decide_eq_false_2 by (apply (Hseen (pid, value)); by left).
    apply here_skip in Hh. rewrite Varint.zlen_write in Hh. rewrite (here_rest _ _ _ Hh). cbn [ok_or obind].
    rewrite read_write_small by lia. cbn [ok_or obind]. rewrite Varint.zlen_write, (proj2 (Z.leb_le _ _)) by lia. cbn [ok_or obind].
    rewrite (proj2 (Z.leb_le _ _)) by lia. cbn [ok_or obind].
    apply here_skip in Hh. rewrite Varint.zlen_write in Hh. rewrite (here_range _ _ _ _ Hh). cbn [ok_or obind].
    destruct (apply_param pid value p) as [p'|[]| |]; try done. cbn [obind]. apply here_skip in Hh.
    cbn [map fst] in Hnd. apply NoDup_cons in Hnd as [Hni Hnd]. apply IH; [done|done|cbn in Hf; lia|done|done|].
    intros e He [Heq|Hin]%elem_of_cons; [|by apply (Hseen e); [right|]].
    apply Hni. rewrite <- Heq. by apply list_elem_of_fmap_2.
Qed.

Lemma as_int_write v : 0 ≤ v < 2 ^ 62 → as_int (Varint.write v) = Ok v.
Proof.
  intros Hv. unfold as_int. pose proof (read_write_small v [] Hv) as H. rewrite app_nil_r in H. rewrite H. cbn [ok_or obind].
  by rewrite Z.eqb_refl.
Qed.

Lemma cid_some c o : cid_ok o → o = Some c → cid c = Ok c.
Proof. intros Ho ->. unfold cid. by rewrite (proj2 (Z.leb_le _ _)) by (by apply Ho). Qed.
End ParamsSpec.

Module ParamsTotal.
Import Params ParamsSpec.

Lemma apply_all_app a : ∀ b p, apply_all (a ++ b) p = (try! p := apply_all a p in apply_all b p).
Proof.
  induction a as [|[pid v] a IH]; intros b p; [done|]. cbn [app apply_all].
  destruct (apply_param pid v p) as [p'|[]| |]; try done. apply IH.
Qed.

(** A field that is absent keeps its default. *)
Lemma apply_some pid o (set : option (list Z) → TransportParams → TransportParams) p :
  (∀ c, o = Some c → apply_param pid c p = Ok (set (Some c) p)) → set None p = p →
  apply_all (some_entry pid o) p = Ok (set o p).
Proof. intros Hc Hn. destruct o as [c|]; [|by rewrite Hn]. simpl. by rewrite Hc. Qed.

(** The case of a parameter, picked by its number. *)
Ltac param_case :=
  cbv beta delta [apply_param ORIGINAL_DESTINATION_CONNECTION_ID MAX_IDLE_TIMEOUT STATELESS_RESET_TOKEN MAX_UDP_PAYLOAD_SIZE INITIAL_MAX_DATA
    INITIAL_MAX_STREAM_DATA_BIDI_LOCAL INITIAL_MAX_STREAM_DATA_BIDI_REMOTE INITIAL_MAX_STREAM_DATA_UNI INITIAL_MAX_STREAMS_BIDI
    INITIAL_MAX_STREAMS_UNI ACK_DELAY_EXPONENT MAX_ACK_DELAY DISABLE_ACTIVE_MIGRATION ACTIVE_CONNECTION_ID_LIMIT
    INITIAL_SOURCE_CONNECTION_ID RETRY_SOURCE_CONNECTION_ID]; cbn [Z.eqb Pos.eqb].

(** An integer within the limits of its field is taken as it is. *)
Ltac int_case :=
  intros; param_case; rewrite as_int_write by (unfold MAX_FLOW_CREDIT, MAX_STREAMS in *; lia); cbn [obind];
  repeat match goal with
  | |- context [?a <=? ?b] => first [rewrite (proj2 (Z.leb_le a b)) by lia|rewrite (proj2 (Z.leb_gt a b)) by lia]
  | |- context [?a <? ?b] => rewrite (proj2 (Z.ltb_ge a b)) by (unfold MAX_STREAMS, MAX_STREAMS_LIMIT in *; lia)
  end; rewrite ?Z.min_l by lia; reflexivity.

Lemma written_max_idle_timeout v p : 0 ≤ v < 2 ^ 62 → apply_param MAX_IDLE_TIMEOUT (Varint.write v) p = Ok (set_max_idle_timeout v p).
Proof. int_case. Qed.
Lemma written_max_udp_payload_size v p : 1200 ≤ v ≤ 65527 → apply_param MAX_UDP_PAYLOAD_SIZE (Varint.write v) p = Ok (set_max_udp_payload_size v p).
Proof. int_case. Qed.
Lemma written_initial_max_data v p : 0 ≤ v ≤ MAX_FLOW_CREDIT → apply_param INITIAL_MAX_DATA (Varint.write v) p = Ok (set_initial_max_data v p).
Proof. int_case. Qed.
Lemma written_initial_max_stream_data_bidi_local v p : 0 ≤ v ≤ MAX_FLOW_CREDIT → apply_param INITIAL_MAX_STREAM_DATA_BIDI_LOCAL (Varint.write v) p = Ok (set_initial_max_stream_data_bidi_local v p).
Proof. int_case. Qed.
Lemma written_initial_max_stream_data_bidi_remote v p : 0 ≤ v ≤ MAX_FLOW_CREDIT → apply_param INITIAL_MAX_STREAM_DATA_BIDI_REMOTE (Varint.write v) p = Ok (set_initial_max_stream_data_bidi_remote v p).
Proof. int_case. Qed.
Lemma written_initial_max_stream_data_uni v p : 0 ≤ v ≤ MAX_FLOW_CREDIT → apply_param INITIAL_MAX_STREAM_DATA_UNI (Varint.write v) p = Ok (set_initial_max_stream_data_uni v p).
Proof. int_case. Qed.
Lemma written_initial_max_streams_bidi v p : 0 ≤ v ≤ MAX_STREAMS → apply_param INITIAL_MAX_STREAMS_BIDI (Varint.write v) p = Ok (set_initial_max_streams_bidi v p).
Proof. int_case. Qed.
Lemma written_initial_max_streams_uni v p : 0 ≤ v ≤ MAX_STREAMS → apply_param INITIAL_MAX_STREAMS_UNI (Varint.write v) p = Ok (set_initial_max_streams_uni v p).
Proof. int_case. Qed.
Lemma written_ack_delay_exponent v p : 0 ≤ v ≤ 20 → apply_param ACK_DELAY_EXPONENT (Varint.write v) p = Ok (set_ack_delay_exponent v p).
Proof. int_case. Qed.
Lemma written_max_ack_delay v p : 0 ≤ v < 2 ^ 14 → apply_param MAX_ACK_DELAY (Varint.write v) p = Ok (set_max_ack_delay v p).
Proof. int_case. Qed.
Lemma written_active_connection_id_limit v p : 2 ≤ v ≤ 2 ^ 20 → apply_param ACTIVE_CONNECTION_ID_LIMIT (Varint.write v) p = Ok (set_active_connection_id_limit v p).
Proof. int_case. Qed.

(** What is written is read back. *)
Lemma apply_entries p : params_ok p → apply_all (entries p) default_params = Ok p.
Proof.
  intros [Ho Hi Hr Ht Hidle Hudp Hdata Hl Hrm Hu Hsb Hsu He Hd Hlim]. unfold entries.
  rewrite apply_all_app, (apply_some _ _ set_original_destination_connection_id) by
    (try done; intros c Hc; param_case; by rewrite (cid_some c _ Ho Hc)). cbn [obind].
  rewrite apply_all_app, (apply_some _ _ set_initial_source_connection_id) by
    (try done; intros c Hc; param_case; by rewrite (cid_some c _ Hi Hc)). cbn [obind].
  rewrite apply_all_app, (apply_some _ _ set_retry_source_connection_id) by
    (try done; intros c Hc; param_case; by rewrite (cid_some c _ Hr Hc)). cbn [obind].
  rewrite apply_all_app, (apply_some _ _ set_stateless_reset_token) by
    (try done; intros c Hc; param_case; by rewrite (Ht c Hc)). cbn [obind app apply_all].
  rewrite written_max_idle_timeout by done. cbn [obind].
  rewrite written_max_udp_payload_size by done. cbn [obind].
  rewrite written_initial_max_data by done. cbn [obind].
  rewrite written_initial_max_stream_data_bidi_local by done. cbn [obind].
  rewrite written_initial_max_stream_data_bidi_remote by done. cbn [obind].
  rewrite written_initial_max_stream_data_uni by done. cbn [obind].
  rewrite written_initial_max_streams_bidi by done. cbn [obind].
  rewrite written_initial_max_streams_uni by done. cbn [obind].
  rewrite written_ack_delay_exponent by done. cbn [obind].
  rewrite written_max_ack_delay by done. cbn [obind].
  rewrite written_active_connection_id_limit by done. cbn [obind].
  destruct p as [o i r t idle udp data l rm u sb su e d lim mig]. by destruct mig.
Qed.

Lemma as_int_yields value : is_bytes value → yields (as_int value) (λ v, 0 ≤ v < 2 ^ 62).
Proof.
  intros Hb. unfold as_int. destruct (Varint.read value) as [[v n]|] eqn:Hr; [|done]. cbn [ok_or obind].
  apply Varint.read_bounds in Hr as (Hn & _ & Hv); [|done]. destruct (n =? zlen value); [|done]. simpl.
  assert (2 ^ (8 * n - 2) ≤ 2 ^ 62) by (apply Z.pow_le_mono_r; lia). lia.
Qed.

Lemma as_int_then {A} value (k : Z → outcome unit A) P : is_bytes value → (∀ v, 0 ≤ v < 2 ^ 62 → yields (k v) P) →
  yields (try! v := as_int value in k v) P.
Proof. intros Hb Hk. eapply yields_obind; [by apply as_int_yields|]. exact Hk. Qed.

Lemma cid_then {A} value (k : list Z → outcome unit A) P : (zlen value ≤ MAX_CID_LEN → yields (k value) P) →
  yields (try! c := cid value in k c) P.
Proof. intros Hk. unfold cid. destruct (Z.leb_spec (zlen value) MAX_CID_LEN); [by apply Hk|done]. Qed.

(** Whatever a parameter says, the fields stay within their limits. *)
Lemma apply_param_ok pid value p : is_bytes value → params_ok p → yields (apply_param pid value p) params_ok.
Proof.
  intros Hb Hp. destruct Hp. unfold apply_param.
  repeat match goal with
  | |- yields (if pid =? ?k then _ else _) _ => destruct (pid =? k)
  | |- yields (try! v := as_int value in _) _ => apply as_int_then; [done|]; intros v Hv
  | |- yields (try! c := cid value in _) _ => apply cid_then; intros Hc
  | |- yields (if ?a <=? ?b then _ else _) _ => destruct (Z.leb_spec a b)
  | |- yields (if ?a <? ?b then _ else _) _ => destruct (Z.ltb_spec a b)
  | |- yields (if negb ((?a <=? ?b) && (?c <=? ?d)) then _ else _) _ => destruct (Z.leb_spec a b), (Z.leb_spec c d); cbn [negb andb]
  | |- yields (if negb (?a =? ?b) then _ else _) _ => destruct (Z.eqb_spec a b); cbn [negb]
  | |- yields (if ?a =? ?b then _ else _) _ => destruct (Z.eqb_spec a b)
  | |- yields (Err _) _ => exact I
  | |- yields (Ok _) _ => split; simpl; unfold MAX_FLOW_CREDIT, MAX_STREAMS, cid_ok in *; first [assumption|by intros ? [= <-]|lia]
  end.
Qed.

(** Reading ends within its fuel, and what it gives is within the limits. *)
Lemma decode_loop_yields fuel : ∀ buf pos seen p,
  is_bytes buf → 0 ≤ pos → zlen buf - pos ≤ Z.of_nat fuel → params_ok p → yields (decode_loop fuel buf pos seen p) params_ok.
Proof.
  induction fuel as [|fuel IH]; intros buf pos seen p Hb Hpos Hf Hp; cbn [decode_loop].
  { by rewrite (proj2 (Z.ltb_ge _ _)) by lia. }
  destruct (Z.ltb_spec pos (zlen buf)); [|done]. cbn [negb].
  destruct (get_range buf pos (zlen buf)) as [s|] eqn:Hs; [|done]. cbn [ok_or obind].
  pose proof (Forall_get_range _ _ _ _ _ Hb Hs) as Hsb.
  destruct (Varint.read s) as [[pid n]|] eqn:Hr; [|done]. cbn [ok_or obind]. apply Varint.read_bounds in Hr as (Hn & _ & _); [|done].
  destruct (checked_add pos n) as [pos1|] eqn:H1; [|done]. apply checked_add_Some in H1 as [-> _]. cbn [ok_or obind].
  destruct (bool_decide _); [done|].
  destruct (get_range buf (pos + n) (zlen buf)) as [s'|] eqn:Hs'; [|done]. cbn [ok_or obind].
  pose proof (Forall_get_range _ _ _ _ _ Hb Hs') as Hsb'.
  destruct (Varint.read s') as [[len n']|] eqn:Hr; [|done]. cbn [ok_or obind]. apply Varint.read_bounds in Hr as (Hn' & _ & Hlen); [|done].
  destruct (checked_add (pos + n) n') as [pos2|] eqn:H2; [|done]. apply checked_add_Some in H2 as [-> _]. cbn [ok_or obind].
  destruct (checked_add (pos + n + n') len) as [e|] eqn:H3; [|done]. apply checked_add_Some in H3 as [-> _]. cbn [ok_or obind].
  destruct (get_range buf (pos + n + n') (pos + n + n' + len)) as [value|] eqn:Hv; [|done]. cbn [ok_or obind].
  pose proof (Forall_get_range _ _ _ _ _ Hb Hv) as Hvb.
  eapply yields_obind; [by apply apply_param_ok|]. intros p' Hp'. apply IH; [done|lia|lia|done].
Qed.

(** A number that comes twice is refused. *)
Lemma decode_duplicate es : ∀ fuel buf pos seen p,
  here buf pos (concat (map raw es)) → zlen buf ≤ USIZE_MAX → (length es ≤ fuel)%nat →
  Forall (λ e, 0 ≤ e.1 < 2 ^ 62 ∧ zlen e.2 < 2 ^ 62 ∧ is_bytes e.2) es → params_ok p → ¬ (NoDup (map fst es) ∧ ∀ e, e ∈ es → e.1 ∉ seen) →
  decode_loop fuel buf pos seen p = Err tt.
Proof.
  induction es as [|[pid value] es IH]; intros fuel buf pos seen p Hh Hmax Hf Hes Hp Hdup.
  { exfalso. apply Hdup. split; [constructor|]. intros e He. by apply not_elem_of_nil in He. }
  cbn [map concat] in Hh. unfold raw at 1, put_bytes in Hh. cbn [fst snd] in Hh. rewrite <- !app_assoc in Hh.
  destruct fuel as [|fuel]; [cbn in Hf; lia|]. cbn [decode_loop].
  apply Forall_cons in Hes as [(Hpid & Hv & Hvb) Hes]. cbn [fst snd] in Hpid, Hv, Hvb.
  pose proof (here_len _ _ _ Hh) as [Hl Hp0]. rewrite !zlen_app, !Varint.zlen_write in Hl.
  pose proof (Varint.len_pos pid). pose proof (Varint.len_pos (zlen value)). pose proof (zlen_nonneg value).
  pose proof (zlen_nonneg (concat (map raw es))).
  rewrite (proj2 (Z.ltb_lt _ _)) by lia. cbn [negb]. rewrite (here_rest _ _ _ Hh). cbn [ok_or obind].
  rewrite read_write_small by lia. cbn [ok_or obind]. unfold checked_add. rewrite Varint.zlen_write.
  rewrite (proj2 (Z.leb_le _ _)) by lia. cbn [ok_or obind].
  destruct (bool_decide (pid ∈ seen)) eqn:Hin; [done|]. apply bool_decide_eq_false in Hin.
  apply here_skip in Hh. rewrite Varint.zlen_write in Hh. rewrite (here_rest _ _ _ Hh). cbn [ok_or obind].
  rewrite read_write_small by lia. cbn [ok_or obind]. rewrite Varint.zlen_write, (proj2 (Z.leb_le _ _)) by lia. cbn [ok_or obind].
  rewrite (proj2 (Z.leb_le _ _)) by lia. cbn [ok_or obind].
  apply here_skip in Hh. rewrite Varint.zlen_write in Hh. rewrite (here_range _ _ _ _ Hh). cbn [ok_or obind].
  pose proof (apply_param_ok pid value p Hvb Hp) as Ha.
  destruct (apply_param pid value p) as [p'|[]| |]; try done. cbn [obind]. apply here_skip in Hh.
  apply IH; [done|done|cbn in Hf; lia|done|done|]. intros [Hnd Hns]. apply Hdup. cbn [map fst]. split.
  - apply NoDup_cons. split; [|done]. intros (e & He1 & He2)%list_elem_of_fmap. apply (Hns e He2). rewrite <- He1. by left.
  - intros e [->|He]%elem_of_cons; [done|]. intros Hs. apply (Hns e He). by right.
Qed.

Lemma zlen_some_entry pid o : cid_ok o → zlen (concat (map raw (some_entry pid o))) ≤ 36.
Proof.
  intros Ho. destruct o as [c|]; [|by vm_compute]. specialize (Ho c eq_refl). unfold MAX_CID_LEN in Ho. simpl. unfold raw, put_bytes. simpl.
  rewrite app_nil_r, !zlen_app, !Varint.zlen_write. pose proof (Varint.len_pos pid). pose proof (Varint.len_pos (zlen c)). lia.
Qed.

Lemma zlen_put_int pid v : zlen (put_int pid v) ≤ 24.
Proof.
  unfold put_int. rewrite !zlen_app, !Varint.zlen_write.
  pose proof (Varint.len_pos pid). pose proof (Varint.len_pos v). pose proof (Varint.len_pos (Varint.len v)). lia.
Qed.

Lemma encode_fits p : params_ok p → zlen (encode p) ≤ USIZE_MAX.
Proof.
  intros Hp. unfold encode. rewrite !zlen_app, !put_some_raw.
  pose proof (zlen_some_entry ORIGINAL_DESTINATION_CONNECTION_ID _ (ok_odcid _ Hp)).
  pose proof (zlen_some_entry INITIAL_SOURCE_CONNECTION_ID _ (ok_iscid _ Hp)).
  pose proof (zlen_some_entry RETRY_SOURCE_CONNECTION_ID _ (ok_rscid _ Hp)).
  assert (Ht : cid_ok (stateless_reset_token p)) by (intros c Hc; rewrite (ok_token _ Hp c Hc); unfold MAX_CID_LEN; lia).
  pose proof (zlen_some_entry STATELESS_RESET_TOKEN _ Ht).
  repeat match goal with |- context [zlen (put_int ?a ?b)] => pose proof (zlen_put_int a b); generalize dependent (zlen (put_int a b)); intros end.
  assert (zlen (if disable_active_migration p then Varint.write DISABLE_ACTIVE_MIGRATION ++ Varint.write 0 else []) ≤ 2)
    by (destruct (disable_active_migration p); vm_compute; discriminate).
  unfold USIZE_MAX. lia.
Qed.

Lemma entries_ok p : params_ok p → Forall (λ e, 0 ≤ e.1 < 2 ^ 62 ∧ zlen e.2 < 2 ^ 62) (entries p) ∧ NoDup (map fst (entries p)).
Proof.
  intros Hp. assert (Ht : cid_ok (stateless_reset_token p)) by (intros c Hc; rewrite (ok_token _ Hp c Hc); unfold MAX_CID_LEN; lia).
  assert (Hsome : ∀ pid o, 0 ≤ pid < 2 ^ 62 → cid_ok o → Forall (λ e : Z * list Z, 0 ≤ e.1 < 2 ^ 62 ∧ zlen e.2 < 2 ^ 62) (some_entry pid o)).
  { intros pid o Hpid Ho. destruct o as [c|]; [|by constructor]. apply Forall_singleton. simpl. specialize (Ho c eq_refl). unfold MAX_CID_LEN in Ho. lia. }
  assert (Hint : ∀ pid v, 0 ≤ pid < 2 ^ 62 → 0 ≤ (pid, Varint.write v).1 < 2 ^ 62 ∧ zlen (pid, Varint.write v).2 < 2 ^ 62).
  { intros pid v Hpid. cbn [fst snd]. rewrite Varint.zlen_write. pose proof (Varint.len_pos v). lia. }
  split.
  - unfold entries. repeat (apply Forall_app; split); try (apply Hsome; [by vm_compute|by (apply Hp || done)]).
    + repeat (apply Forall_cons; split; [apply Hint; by vm_compute|]). by apply Forall_nil.
    + destruct (disable_active_migration p); [|by constructor]. apply Forall_singleton. by vm_compute.
  - unfold entries. destruct (original_destination_connection_id p), (initial_source_connection_id p), (retry_source_connection_id p),
      (stateless_reset_token p), (disable_active_migration p); cbn [some_entry app map fst];
      refine (bool_decide_eq_true_1 _ _); vm_compute; reflexivity.
Qed.

Lemma raw_pos e : 2 ≤ zlen (raw e).
Proof.
  destruct e as [pid v]. unfold raw, put_bytes. cbn [fst snd]. rewrite !zlen_app, !Varint.zlen_write.
  pose proof (Varint.len_pos pid). pose proof (Varint.len_pos (zlen v)). pose proof (zlen_nonneg v). lia.
Qed.

Lemma raw_length es : (length es ≤ length (concat (map raw es)))%nat.
Proof.
  induction es as [|e es IH]; [done|]. cbn [map concat length]. rewrite length_app. pose proof (raw_pos e). unfold zlen in *. lia.
Qed.

Lemma decode_encode p : params_ok p → decode (encode p) = Ok p.
Proof.
  intros Hp. unfold decode. destruct (entries_ok p Hp) as [He Hnd]. rewrite decode_entries with (es := entries p).
  - by apply apply_entries.
  - rewrite encode_entries. apply here_0.
  - by apply encode_fits.
  - rewrite encode_entries. apply raw_length.
  - done.
  - done.
  - intros e _. apply not_elem_of_nil.
Qed.
End ParamsTotal.

(** ** Retry: lemmas *)

Module RetrySpec.
Import Retry.

(** Big-endian octets of one length are determined by their value. *)
Lemma be_val_inj a : ∀ b, is_bytes a → is_bytes b → zlen a = zlen b → be_val 0 a = be_val 0 b → a = b.
Proof.
  induction a as [|x a IH]; intros [|y b] Ha Hb Hl Hv; [done..|]. rewrite !zlen_cons in Hl.
  apply Forall_cons in Ha as [Hx Ha]. apply Forall_cons in Hb as [Hy Hb].
  change (be_val 0 (x :: a)) with (be_val x a) in Hv. change (be_val 0 (y :: b)) with (be_val y b) in Hv.
  rewrite (be_val_shift a x), (be_val_shift b y) in Hv.
  pose proof (be_val_bound a 0 Ha ltac:(lia)). pose proof (be_val_bound b 0 Hb ltac:(lia)).
  assert (Hab : zlen a = zlen b) by lia. rewrite Hab in *. set (P := 256 ^ zlen b) in *. clearbody P.
  assert (x = y) as -> by nia. f_equal. apply IH; [done|done|done|lia].
Qed.

Lemma octets_be_val s ip : is_bytes s → (zlen s = 4 ∧ ip = V4 (be_val 0 s)) ∨ (zlen s = 16 ∧ ip = V6 (be_val 0 s)) → Cookie.octets ip = s.
Proof.
  intros Hb H. pose proof (be_val_bound s 0 Hb ltac:(lia)) as Hbd. destruct H as [[Hl ->]|[Hl ->]]; rewrite Hl in Hbd; cbn [Cookie.octets].
  - apply be_val_inj; [apply u32_to_be_bytes|done|by rewrite Hl|]. by rewrite be_val_u32 by (unfold is_u32, U32_MAX; lia).
  - apply be_val_inj; [apply Forall_app; split; apply u64_to_be_bytes|done|by rewrite Hl|].
    rewrite be_val_app, !be_val_u64 by (unfold is_u64, U64_MAX; div_mod_lia). div_mod_lia.
Qed.

Lemma be_val_octets ip : addr_ok ip → match ip with V4 b | V6 b => be_val 0 (Cookie.octets ip) = b end.
Proof.
  destruct ip as [b|b]; cbn [addr_ok Cookie.octets]; intros Hb.
  - by rewrite be_val_u32 by (unfold is_u32, U32_MAX; lia).
  - rewrite be_val_app, !be_val_u64 by (unfold is_u64, U64_MAX; div_mod_lia). div_mod_lia.
Qed.

Lemma decode_encode_ip ip s : addr_ok ip → decode_ip (encode_ip ip ++ s) = Ok (ip, zlen (encode_ip ip)).
Proof.
  intros Hip. pose proof (be_val_octets ip Hip) as Hv. destruct ip as [b|b]; unfold decode_ip, encode_ip;
    cbn [app]; rewrite get_cons_0; cbn [ok_or obind Z.eqb Pos.eqb].
  - pose proof (get_range_app [4] (Cookie.octets (V4 b)) s) as H. change (zlen [4] + zlen (Cookie.octets (V4 b))) with 5 in H.
    change (zlen [4]) with 1 in H. cbn [app] in H. rewrite H. cbn [ok_or obind]. by rewrite Hv.
  - pose proof (get_range_app [6] (Cookie.octets (V6 b)) s) as H. change (zlen [6] + zlen (Cookie.octets (V6 b))) with 17 in H.
    change (zlen [6]) with 1 in H. cbn [app] in H. rewrite H. cbn [ok_or obind]. by rewrite Hv.
Qed.

Lemma decode_ip_inv s ip used : is_bytes s → decode_ip s = Ok (ip, used) → ∃ rest, s = encode_ip ip ++ rest ∧ used = zlen (encode_ip ip).
Proof.
  intros Hb. unfold decode_ip. destruct s as [|kind s]; [done|]. rewrite get_cons_0. cbn [ok_or obind].
  pose proof (drop_get_range (kind :: s) 1 5) as H4. pose proof (drop_get_range (kind :: s) 1 17) as H6.
  change (drop (Z.to_nat 1) (kind :: s)) with s in H4, H6.
  destruct (Z.eqb_spec kind 4) as [->|_]; [|destruct (Z.eqb_spec kind 6) as [->|_]; [|done]].
  - destruct (get_range _ 1 5) as [a|] eqn:Ha; [|done]. cbn [ok_or obind]. intros [= <- <-].
    specialize (H4 a eq_refl). pose proof (Forall_get_range _ _ _ _ _ Hb Ha) as Hab. apply get_range_Some in Ha as (_ & _ & _ & Hl).
    pose proof (octets_be_val a (V4 (be_val 0 a)) Hab ltac:(by left)) as Ho. unfold encode_ip. rewrite Ho.
    eexists. split; [cbn [app]; by rewrite <- H4|]. by rewrite zlen_cons, Hl.
  - destruct (get_range _ 1 17) as [a|] eqn:Ha; [|done]. cbn [ok_or obind]. intros [= <- <-].
    specialize (H6 a eq_refl). pose proof (Forall_get_range _ _ _ _ _ Hb Ha) as Hab. apply get_range_Some in Ha as (_ & _ & _ & Hl).
    pose proof (octets_be_val a (V6 (be_val 0 a)) Hab ltac:(by right)) as Ho. unfold encode_ip. rewrite Ho.
    eexists. split; [cbn [app]; by rewrite <- H6|]. by rewrite zlen_cons, Hl.
Qed.

Lemma decode_ip_returns s : returns (decode_ip s).
Proof.
  unfold decode_ip. destruct (get s 0) as [k|]; [|done]. cbn [ok_or obind]. destruct (k =? 4); [by destruct (get_range s 1 5)|].
  destruct (k =? 6); [by destruct (get_range s 1 17)|done].
Qed.

(** A position after a read: what was read stands there, the rest follows. *)
Lemma here_get_inv {A} (l : list A) pos s x : here l pos s → get l pos = Some x → ∃ s', s = x :: s'.
Proof.
  intros (pre & -> & ->) Hg. rewrite get_app_r, Z.sub_diag in Hg by lia. destruct s as [|y s]; [done|]. injection Hg as ->. by exists s.
Qed.

Lemma here_range_inv {A} (l : list A) pos n s a : here l pos s → get_range l pos (pos + n) = Some a → ∃ s', s = a ++ s' ∧ zlen a = n.
Proof.
  intros (pre & -> & ->) Hg. pose proof (drop_get_range _ _ _ _ Hg) as Hd. apply get_range_Some in Hg as (_ & _ & _ & Hl).
  replace (Z.to_nat (zlen pre)) with (length pre) in Hd by (unfold zlen; lia). rewrite drop_app_length in Hd.
  eexists. split; [exact Hd|lia].
Qed.

(** What [issue] writes before the tag. *)
Definition token_body (ip : IpAddr) (odcid retry : list Z) (issued : Z) : list Z :=
  [TOKEN_VERSION] ++ u64_to_be issued ++ encode_ip ip ++ [zlen odcid] ++ odcid ++ [zlen retry] ++ retry.

(** The times at which a token is taken: at most thirty seconds after it was
    issued, or five before. *)
Definition token_fresh (now issued : Z) : Prop := is_u64 issued ∧ issued ≤ now + 5 ∧ now - issued ≤ TOKEN_TTL_SECS.

Section hash.
Context (sha256 : list Z → list Z).
Context (sha_len : ∀ m, zlen (sha256 m) = 32) (sha_bytes : ∀ m, is_bytes (sha256 m)).

Lemma hmac_tag key m : ∃ tag, get_range (hmac_sha256 sha256 key m) 0 TOKEN_TAG_LEN = Some tag ∧ zlen tag = 16 ∧ is_bytes tag.
Proof.
  unfold hmac_sha256. set (h := sha256 (_ ++ sha256 _)). assert (Hl : zlen h = 32) by apply sha_len.
  unfold TOKEN_TAG_LEN. rewrite get_range_is_Some by lia. eexists. split; [done|]. split.
  - unfold zlen in *. rewrite length_take, length_drop. lia.
  - apply Forall_take, Forall_drop, sha_bytes.
Qed.

Lemma issue_body key ip odcid retry issued : zlen odcid ≤ 20 → zlen retry ≤ 20 →
  ∃ tag, get_range (hmac_sha256 sha256 key (token_body ip odcid retry issued)) 0 TOKEN_TAG_LEN = Some tag ∧
    issue sha256 key ip odcid retry issued = Ok (token_body ip odcid retry issued ++ tag).
Proof.
  intros Ho Hr. destruct (hmac_tag key (token_body ip odcid retry issued)) as (tag & Ht & _). exists tag. split; [done|].
  unfold issue. pose proof (zlen_nonneg odcid). pose proof (zlen_nonneg retry). rewrite !Z.mod_small by lia.
  change ([TOKEN_VERSION] ++ _) with (token_body ip odcid retry issued). by rewrite Ht.
Qed.

Lemma fresh_test now issued : is_u64 now → is_u64 issued →
  (saturating_add now 5 <? issued) || (TOKEN_TTL_SECS <? saturating_sub now issued) = false ↔ token_fresh now issued.
Proof.
  unfold is_u64, U64_MAX, saturating_add, saturating_sub, token_fresh, is_u64, TOKEN_TTL_SECS, USIZE_MAX, U64_MAX. intros Hn Hi.
  rewrite orb_false_iff, !Z.ltb_ge. lia.
Qed.
End hash.

(** The part of [validate] behind the tag. *)
Definition read_body (body : list Z) (ip : IpAddr) (dcid : list Z) (now : Z) : outcome unit (list Z) :=
  let pos := 0 in
  try! version := ok_or (get body pos) in
  if negb (version =? TOKEN_VERSION) then Err tt else
  let pos := pos + 1 in
  try! s := ok_or (get_range body pos (pos + 8)) in
  let issued := be_val 0 s in
  let pos := pos + 8 in
  if (saturating_add now 5 <? issued) || (TOKEN_TTL_SECS <? saturating_sub now issued) then Err tt else
  try! s := ok_or (get_range body pos (zlen body)) in
  try! (bound_ip, used) := decode_ip s in
  let pos := pos + used in
  if negb (bool_decide (bound_ip = ip)) then Err tt else
  try! odcid_len := ok_or (get body pos) in
  let pos := pos + 1 in
  if (odcid_len =? 0) || (20 <? odcid_len) then Err tt else
  try! odcid := ok_or (get_range body pos (pos + odcid_len)) in
  let pos := pos + odcid_len in
  try! retry_len := ok_or (get body pos) in
  let pos := pos + 1 in
  if (retry_len =? 0) || (20 <? retry_len) || negb (pos + retry_len =? zlen body) then Err tt else
  try! retry := ok_or (get_range body pos (pos + retry_len)) in
  if negb (Cookie.ct_eq retry dcid) then Err tt else Ok odcid.

Definition cid_sized (c : list Z) : Prop := 1 ≤ zlen c ≤ 20.

Lemma read_body_complete ip odcid dcid issued now : addr_ok ip → is_bytes dcid → cid_sized odcid → cid_sized dcid →
  is_u64 now → token_fresh now issued → read_body (token_body ip odcid dcid issued) ip dcid now = Ok odcid.
Proof.
  intros Hip Hdb Ho Hd Hn Hf. pose proof Hf as [Hi _]. unfold cid_sized in Ho, Hd. unfold read_body, token_body.
  set (body := [TOKEN_VERSION] ++ _). assert (H : here body 0 body) by apply here_0. unfold body in H at 2. cbn [app] in H.
  rewrite (here_get _ _ _ _ H). cbn [ok_or obind Z.eqb Pos.eqb TOKEN_VERSION negb]. apply here_next in H.
  pose proof (here_range _ _ _ _ H) as Hr. change (zlen (u64_to_be issued)) with 8 in Hr. rewrite Hr. cbn [ok_or obind].
  assert (Hv : be_val 0 (u64_to_be issued) = issued) by (by rewrite be_val_u64 by done). rewrite Hv.
  rewrite (proj2 (fresh_test now issued Hn Hi) Hf). apply here_skip in H. change (zlen (u64_to_be issued)) with 8 in H.
  rewrite (here_rest _ _ _ H). cbn [ok_or obind]. rewrite decode_encode_ip by done. cbn [obind].
  rewrite bool_decide_eq_true_2 by done. cbn [negb]. apply here_skip in H. rewrite (here_get _ _ _ _ H). cbn [ok_or obind].
  rewrite (proj2 (Z.eqb_neq _ _)), (proj2 (Z.ltb_ge _ _)) by lia. cbn [orb]. apply here_next in H.
  rewrite (here_range _ _ _ _ H). cbn [ok_or obind]. apply here_skip in H. rewrite (here_get _ _ _ _ H). cbn [ok_or obind].
  apply here_next in H. pose proof (here_len _ _ _ H) as [Hlen _].
  rewrite (proj2 (Z.eqb_neq (zlen dcid) 0)), (proj2 (Z.ltb_ge _ _)), (proj2 (Z.eqb_eq _ (zlen body))) by lia. cbn [orb negb].
  pose proof H as H'. rewrite <- (app_nil_r dcid) in H'. rewrite (here_range _ _ _ _ H'). cbn [ok_or obind].
  by rewrite (proj2 (Cookie.ct_eq_spec dcid dcid Hdb Hdb)).
Qed.

Lemma read_body_sound body ip dcid now : is_bytes body → is_bytes dcid → is_u64 now →
  yields (read_body body ip dcid now) (λ odcid, cid_sized odcid ∧ cid_sized dcid ∧
    ∃ issued, token_fresh now issued ∧ body = token_body ip odcid dcid issued).
Proof.
  intros Hb Hdb Hn. unfold read_body. assert (H : here body 0 body) by apply here_0.
  destruct (get body 0) as [version|] eqn:Hg; [|done]. cbn [ok_or obind].
  destruct (here_get_inv _ _ _ _ H Hg) as [s1 Hs1]. rewrite Hs1 in H at 2. apply here_next in H.
  destruct (Z.eqb_spec version TOKEN_VERSION) as [->|]; [|done]. cbn [negb].
  destruct (get_range body (0 + 1) (0 + 1 + 8)) as [a|] eqn:Ha; [|done]. cbn [ok_or obind].
  destruct (here_range_inv _ _ _ _ _ H Ha) as (s2 & Hs2 & Hal). pose proof (Forall_get_range _ _ _ _ _ Hb Ha) as Hab.
  rewrite Hs2 in H. apply here_skip in H. rewrite Hal in H.
  assert (Hi : is_u64 (be_val 0 a)) by (pose proof (be_val_bound a 0 Hab ltac:(lia)) as Hbd; rewrite Hal in Hbd; unfold is_u64, U64_MAX; lia).
  destruct (_ || _) eqn:Hfr; [done|]. apply fresh_test in Hfr; [|done|done].
  rewrite (here_rest _ _ _ H). cbn [ok_or obind].
  assert (Hb2 : is_bytes s2). { rewrite Hs1, Hs2 in Hb. apply Forall_cons in Hb as [_ Hb]. by apply Forall_app in Hb as [_ Hb]. }
  pose proof (decode_ip_returns s2) as Hret. destruct (decode_ip s2) as [[ip' used]|[]| |] eqn:Hip; try done. cbn [obind].
  destruct (decode_ip_inv _ _ _ Hb2 Hip) as (s3 & Hs3 & ->). destruct (bool_decide (ip' = ip)) eqn:He; [|done].
  apply bool_decide_eq_true in He as ->. cbn [negb]. rewrite Hs3 in H. apply here_skip in H.
  match goal with |- context [get body ?p] => destruct (get body p) as [ol|] eqn:Hol; [|done] end. cbn [ok_or obind].
  destruct (here_get_inv _ _ _ _ H Hol) as [s4 Hs4]. rewrite Hs4 in H. apply here_next in H.
  destruct (Z.eqb_spec ol 0), (Z.ltb_spec 20 ol); cbn [orb]; try done.
  match goal with |- context [get_range body ?p ?q] => destruct (get_range body p q) as [odcid|] eqn:Hod; [|done] end. cbn [ok_or obind].
  destruct (here_range_inv _ _ _ _ _ H Hod) as (s5 & Hs5 & Hodl). rewrite Hs5 in H. apply here_skip in H. rewrite Hodl in H.
  match goal with |- context [get body ?p] => destruct (get body p) as [rl|] eqn:Hrl; [|done] end. cbn [ok_or obind].
  destruct (here_get_inv _ _ _ _ H Hrl) as [s6 Hs6]. rewrite Hs6 in H. apply here_next in H.
  pose proof (here_len _ _ _ H) as [Hlen _].
  destruct (Z.eqb_spec rl 0), (Z.ltb_spec 20 rl), (Z.eqb_spec (0 + 1 + 8 + zlen (encode_ip ip) + 1 + ol + 1 + rl) (zlen body)); cbn [orb negb]; try done.
  match goal with |- context [get_range body ?p ?q] => destruct (get_range body p q) as [retry|] eqn:Hre; [|done] end. cbn [ok_or obind].
  destruct (here_range_inv _ _ _ _ _ H Hre) as (s7 & Hs7 & Hrel). pose proof (Forall_get_range _ _ _ _ _ Hb Hre) as Hreb.
  destruct (Cookie.ct_eq retry dcid) eqn:Hct; [|done]. cbn [negb]. apply Cookie.ct_eq_spec in Hct as ->; [|done|done]. simpl.
  pose proof (zlen_nonneg odcid). pose proof (zlen_nonneg dcid).
  assert (s7 = []) as ->. { destruct s7 as [|z s7]; [done|]. rewrite Hs7, zlen_app, zlen_cons in Hlen. pose proof (zlen_nonneg s7). lia. }
  unfold cid_sized. split; [lia|]. split; [lia|]. exists (be_val 0 a). split; [done|]. unfold token_body.
  assert (u64_to_be (be_val 0 a) = a) as ->.
  { apply be_val_inj; [apply u64_to_be_bytes|done|by rewrite Hal|]. by rewrite be_val_u64 by done. }
  rewrite Hs1, Hs2, Hs3, Hs4, Hs5, Hs6, Hs7, app_nil_r, Hodl, Hrel. done.
Qed.

Section hash.
Context (sha256 : list Z → list Z).
Context (sha_len : ∀ m, zlen (sha256 m) = 32) (sha_bytes : ∀ m, is_bytes (sha256 m)).

(** A token is accepted exactly when it is the one that this key gives to the
    address and the identifiers, at a time that is fresh. *)
Lemma validate_spec key token ip dcid now : is_bytes token → is_bytes dcid → addr_ok ip → is_u64 now →
  returns (validate sha256 key token ip dcid now) ∧
  ∀ odcid, validate sha256 key token ip dcid now = Ok odcid ↔
    cid_sized odcid ∧ cid_sized dcid ∧ ∃ issued, token_fresh now issued ∧ issue sha256 key ip odcid dcid issued = Ok token.
Proof.
  intros Hb Hdb Hip Hn.
  assert (Hissued : ∀ odcid issued, cid_sized odcid → cid_sized dcid → issue sha256 key ip odcid dcid issued = Ok token →
    ∃ tag, token = token_body ip odcid dcid issued ++ tag ∧ zlen tag = 16 ∧
      get_range (hmac_sha256 sha256 key (token_body ip odcid dcid issued)) 0 TOKEN_TAG_LEN = Some tag).
  { intros odcid issued [_ Ho] [_ Hd] Hi. destruct (issue_body sha256 sha_len sha_bytes key ip odcid dcid issued Ho Hd) as (tag & Ht & Hi').
    exists tag. rewrite Hi in Hi'. injection Hi' as ->. split; [done|]. split; [|done]. apply get_range_Some in Ht as (_ & _ & _ & ->). reflexivity. }
  unfold validate. destruct (Z.ltb_spec (zlen token) (1 + 8 + 1 + 4 + 1 + 1 + TOKEN_TAG_LEN)) as [Hshort|Hlong]; unfold TOKEN_TAG_LEN in *.
  { split; [done|]. intros odcid. split; [done|]. intros (Ho & Hd & issued & _ & Hi). destruct (Hissued _ _ Ho Hd Hi) as (tag & -> & Ht & _).
    rewrite zlen_app in Hshort. unfold token_body in Hshort. rewrite !zlen_app, Ht in Hshort. unfold cid_sized in *.
    change (zlen [TOKEN_VERSION]) with 1 in Hshort. change (zlen (u64_to_be issued)) with 8 in Hshort.
    change (zlen [zlen odcid]) with 1 in Hshort. change (zlen [zlen dcid]) with 1 in Hshort.
    assert (5 ≤ zlen (encode_ip ip)) by (destruct ip; unfold encode_ip; rewrite zlen_cons; vm_compute; discriminate). lia. }
  unfold checked_sub. rewrite (proj2 (Z.leb_le 16 _)) by lia. cbn [ok_or obind].
  set (at_ := zlen token - 16). assert (Hat : at_ = zlen token - 16) by done.
  destruct (get_range token 0 at_) as [body|] eqn:Hbody; [|rewrite get_range_is_Some in Hbody by lia; done]. cbn [or_panic obind].
  destruct (get_range token at_ (zlen token)) as [tag|] eqn:Htag; [|rewrite get_range_is_Some in Htag by lia; done]. cbn [or_panic obind].
  pose proof (Forall_get_range _ _ _ _ _ Hb Hbody) as Hbb. pose proof (Forall_get_range _ _ _ _ _ Hb Htag) as Htb.
  assert (Hsplit : token = body ++ tag).
  { pose proof (drop_get_range _ _ _ _ Hbody) as H1. pose proof (drop_get_range _ _ _ _ Htag) as H2. change (Z.to_nat 0) with 0%nat in H1. rewrite drop_0 in H1.
    rewrite H1, H2, (drop_ge token) by (unfold zlen; lia). by rewrite app_nil_r. }
  assert (Htl : zlen tag = 16) by (apply get_range_Some in Htag as (_ & _ & _ & ->); lia).
  destruct (hmac_tag sha256 sha_len sha_bytes key body) as (expected & He & Hel & Heb). unfold TOKEN_TAG_LEN in He. rewrite He. cbn [or_panic obind].
  destruct (Cookie.ct_eq tag expected) eqn:Hct; cbn [negb].
  - apply Cookie.ct_eq_spec in Hct; [|done|done]. subst expected. pose proof (read_body_sound body ip dcid now Hbb Hdb Hn) as Hs.
    match goal with |- returns ?r ∧ _ => change r with (read_body body ip dcid now) end.
    split; [by destruct (read_body body ip dcid now)|]. intros odcid. split.
    + intros Hr. rewrite Hr in Hs. destruct Hs as (Ho & Hd & issued & Hf & ->). split; [done|]. split; [done|]. exists issued. split; [done|].
      destruct (issue_body sha256 sha_len sha_bytes key ip odcid dcid issued) as (tag' & Ht' & ->); [apply Ho|apply Hd|].
      unfold TOKEN_TAG_LEN in Ht'. rewrite Hsplit. congruence.
    + intros (Ho & Hd & issued & Hf & Hi). destruct (Hissued _ _ Ho Hd Hi) as (tag' & Ht' & Hl' & _).
      rewrite Hsplit in Ht'. apply app_inj_2 in Ht' as [-> _]; [by apply read_body_complete|unfold zlen in *; lia].
  - split; [done|]. intros odcid. split; [done|]. intros (Ho & Hd & issued & Hf & Hi).
    destruct (Hissued _ _ Ho Hd Hi) as (tag' & Ht' & Hl' & Hg'). exfalso.
    rewrite Hsplit in Ht'. apply app_inj_2 in Ht' as [-> ->]; [|unfold zlen in *; lia].
    assert (tag' = expected) as -> by congruence. by rewrite (proj2 (Cookie.ct_eq_spec expected expected Heb Heb)) in Hct.
Qed.
End hash.
End RetrySpec.

(** ** Retry packets *)

Module RetryPackets.
Import Retry.

Section tag.
Context (encrypt : Aead → list Z → list Z → list Z → list Z → list Z).
Context (tag_len : ∀ a k n aad, zlen (encrypt a k n aad []) = 16) (tag_bytes : ∀ a k n aad, is_bytes (encrypt a k n aad [])).

Lemma integrity_tag_ok odcid packet : ∃ tag, integrity_tag encrypt odcid packet = Ok tag ∧ zlen tag = 16 ∧ is_bytes tag.
Proof. unfold integrity_tag, seal. destruct (nonce_ok RETRY_INTEGRITY_NONCE 0) as (n & -> & _); [by vm_compute|]. by eexists. Qed.

(** A packet passes exactly when it ends in the tag of what is before it and
    of the identifier the client chose first. *)
Lemma verify_integrity_spec odcid packet : is_bytes packet →
  ∃ b, verify_integrity encrypt odcid packet = Ok b ∧
    (b = true ↔ ∃ body tag, packet = body ++ tag ∧ integrity_tag encrypt odcid body = Ok tag).
Proof.
  intros Hb. unfold verify_integrity. destruct (Z.ltb_spec (zlen packet) 16) as [Hs|Hl].
  { exists false. split; [done|]. split; [done|]. intros (body & tag & -> & Ht). destruct (integrity_tag_ok odcid body) as (tag' & Ht' & Hlen & _).
    assert (tag' = tag) as -> by congruence. rewrite zlen_app in Hs. pose proof (zlen_nonneg body). lia. }
  rewrite !get_range_is_Some by lia. cbn [or_panic obind]. change (Z.to_nat 0) with 0%nat. rewrite drop_0, Z.sub_0_r.
  set (body := take _ packet). rewrite (take_ge (drop _ packet)) by (rewrite length_drop; unfold zlen; lia). set (tag := drop _ packet).
  assert (Hsplit : packet = body ++ tag) by (unfold body, tag; by rewrite take_drop).
  assert (Htl : zlen tag = 16) by (unfold tag, zlen in *; rewrite length_drop; lia).
  destruct (integrity_tag_ok odcid body) as (expected & He & Hel & Heb). rewrite He. cbn [obind]. eexists. split; [done|].
  rewrite Cookie.ct_eq_spec; [|by apply Forall_drop|done]. split; [intros ->; by exists body, expected|].
  intros (body' & tag' & Hp & Ht'). destruct (integrity_tag_ok odcid body') as (t2 & Ht2 & Hl2 & _). assert (t2 = tag') as -> by congruence.
  rewrite Hsplit in Hp. apply app_inj_2 in Hp as [-> ->]; [congruence|unfold zlen in *; lia].
Qed.

Lemma build_retry_verifies odcid client_scid retry_scid token :
  is_bytes odcid → is_bytes client_scid → is_bytes retry_scid → is_bytes token →
  ∃ packet, build_retry encrypt odcid client_scid retry_scid token = Ok packet ∧ verify_integrity encrypt odcid packet = Ok true.
Proof.
  intros Ho Hc Hr Ht. unfold build_retry. set (body := [0xf0] ++ _). assert (Hbody : is_bytes body).
  { unfold body. repeat (apply Forall_app; split); try done; try apply u32_to_be_bytes; apply Forall_singleton; unfold is_u8, U8_MAX;
      [lia|div_mod_lia|div_mod_lia]. }
  destruct (integrity_tag_ok odcid body) as (tag & Hg & Hl & Hb). rewrite Hg. cbn [obind]. eexists. split; [done|].
  destruct (verify_integrity_spec odcid (body ++ tag)) as (b & -> & Hiff); [by apply Forall_app|]. f_equal. apply Hiff. by exists body, tag.
Qed.
End tag.

(** The two readers of an Initial header agree. *)
Lemma parse_initial_agrees packet h l : parse_initial_header packet = Ok h → parse_long_header packet = Ok l →
  lh_ptype l = INITIAL ∧ lh_version l = VERSION_1 ∧ lh_dcid l = ih_dcid h ∧ lh_scid l = ih_scid h ∧ lh_token l = ih_token h.
Proof.
  unfold parse_initial_header, parse_long_header. destruct (get packet 0) as [first|]; [|done]. cbn [ok_or obind].
  destruct (Z.land first 0xc0 =? 0xc0); [|done]. cbn [negb orb].
  destruct (Z.eqb_spec (Z.shiftr (Z.land first 0x30) 4) INITIAL) as [->|]; [|done]. cbn [negb].
  change (1 + 4) with 5. destruct (get_range packet 1 5) as [v|]; [|done]. cbn [ok_or obind].
  destruct (bool_decide (v = u32_to_be VERSION_1)) eqn:Hv; [|done]. apply bool_decide_eq_true in Hv as ->. cbn [negb].
  destruct (get packet 5) as [dl|]; [|done]. cbn [ok_or obind]. destruct (dl =? 0); [done|]. destruct (20 <? dl); [done|]. cbn [orb].
  destruct (get_range packet (5 + 1) (5 + 1 + dl)) as [dcid|]; [|done]. cbn [ok_or obind].
  destruct (get packet (5 + 1 + dl)) as [sl|]; [|done]. cbn [ok_or obind]. destruct (20 <? sl); [done|].
  destruct (get_range packet (5 + 1 + dl + 1) (5 + 1 + dl + 1 + sl)) as [scid|]; [|done]. cbn [ok_or obind Z.eqb INITIAL].
  destruct (get_range packet (5 + 1 + dl + 1 + sl) (zlen packet)) as [s|]; [|done]. cbn [ok_or obind].
  destruct (Varint.read s) as [[tl n]|]; [|done]. cbn [ok_or obind]. destruct (256 <? tl); [done|].
  destruct (get_range packet (5 + 1 + dl + 1 + sl + n) (5 + 1 + dl + 1 + sl + n + tl)) as [t|]; [|done]. cbn [ok_or obind]. intros [= <-].
  destruct (Z.land first 0x80 =? 0); [done|]. change (0 =? RETRY) with false. cbn iota.
  destruct (get_range packet _ (zlen packet)) as [s2|]; [|done]. cbn [ok_or obind]. destruct (Varint.read s2) as [[L n2]|]; [|done]. cbn [ok_or obind].
  destruct (checked_add _ _) as [e|]; [|done]. cbn [ok_or obind]. destruct (zlen packet <? e); [done|]. intros [= <-].
  by split_and!.
Qed.
End RetryPackets.
