(* ===== verification/Huffman.v ===== *)
(** * The HPACK Huffman code ([onetdns-http2/src/huffman.rs])

    [CODES] is the table of the source.  The trie is built from it as the
    source builds it, and decoding follows the bits of the input through it. *)

From S2P Require Import Prelude.
From S2P Require Import Varint.

(** [CODES]: code and number of bits of each symbol; the last one is EOS. *)
Definition CODES : list (Z * Z) :=
  [(0x1ff8, 13); (0x7fffd8, 23); (0xfffffe2, 28); (0xfffffe3, 28); (0xfffffe4, 28); (0xfffffe5, 28);
   (0xfffffe6, 28); (0xfffffe7, 28); (0xfffffe8, 28); (0xffffea, 24); (0x3ffffffc, 30); (0xfffffe9, 28);
   (0xfffffea, 28); (0x3ffffffd, 30); (0xfffffeb, 28); (0xfffffec, 28); (0xfffffed, 28); (0xfffffee, 28);
   (0xfffffef, 28); (0xffffff0, 28); (0xffffff1, 28); (0xffffff2, 28); (0x3ffffffe, 30); (0xffffff3, 28);
   (0xffffff4, 28); (0xffffff5, 28); (0xffffff6, 28); (0xffffff7, 28); (0xffffff8, 28); (0xffffff9, 28);
   (0xffffffa, 28); (0xffffffb, 28); (0x14, 6); (0x3f8, 10); (0x3f9, 10); (0xffa, 12);
   (0x1ff9, 13); (0x15, 6); (0xf8, 8); (0x7fa, 11); (0x3fa, 10); (0x3fb, 10);
   (0xf9, 8); (0x7fb, 11); (0xfa, 8); (0x16, 6); (0x17, 6); (0x18, 6);
   (0x0, 5); (0x1, 5); (0x2, 5); (0x19, 6); (0x1a, 6); (0x1b, 6);
   (0x1c, 6); (0x1d, 6); (0x1e, 6); (0x1f, 6); (0x5c, 7); (0xfb, 8);
   (0x7ffc, 15); (0x20, 6); (0xffb, 12); (0x3fc, 10); (0x1ffa, 13); (0x21, 6);
   (0x5d, 7); (0x5e, 7); (0x5f, 7); (0x60, 7); (0x61, 7); (0x62, 7);
   (0x63, 7); (0x64, 7); (0x65, 7); (0x66, 7); (0x67, 7); (0x68, 7);
   (0x69, 7); (0x6a, 7); (0x6b, 7); (0x6c, 7); (0x6d, 7); (0x6e, 7);
   (0x6f, 7); (0x70, 7); (0x71, 7); (0x72, 7); (0xfc, 8); (0x73, 7);
   (0xfd, 8); (0x1ffb, 13); (0x7fff0, 19); (0x1ffc, 13); (0x3ffc, 14); (0x22, 6);
   (0x7ffd, 15); (0x3, 5); (0x23, 6); (0x4, 5); (0x24, 6); (0x5, 5);
   (0x25, 6); (0x26, 6); (0x27, 6); (0x6, 5); (0x74, 7); (0x75, 7);
   (0x28, 6); (0x29, 6); (0x2a, 6); (0x7, 5); (0x2b, 6); (0x76, 7);
   (0x2c, 6); (0x8, 5); (0x9, 5); (0x2d, 6); (0x77, 7); (0x78, 7);
   (0x79, 7); (0x7a, 7); (0x7b, 7); (0x7ffe, 15); (0x7fc, 11); (0x3ffd, 14);
   (0x1ffd, 13); (0xffffffc, 28); (0xfffe6, 20); (0x3fffd2, 22); (0xfffe7, 20); (0xfffe8, 20);
   (0x3fffd3, 22); (0x3fffd4, 22); (0x3fffd5, 22); (0x7fffd9, 23); (0x3fffd6, 22); (0x7fffda, 23);
   (0x7fffdb, 23); (0x7fffdc, 23); (0x7fffdd, 23); (0x7fffde, 23); (0xffffeb, 24); (0x7fffdf, 23);
   (0xffffec, 24); (0xffffed, 24); (0x3fffd7, 22); (0x7fffe0, 23); (0xffffee, 24); (0x7fffe1, 23);
   (0x7fffe2, 23); (0x7fffe3, 23); (0x7fffe4, 23); (0x1fffdc, 21); (0x3fffd8, 22); (0x7fffe5, 23);
   (0x3fffd9, 22); (0x7fffe6, 23); (0x7fffe7, 23); (0xffffef, 24); (0x3fffda, 22); (0x1fffdd, 21);
   (0xfffe9, 20); (0x3fffdb, 22); (0x3fffdc, 22); (0x7fffe8, 23); (0x7fffe9, 23); (0x1fffde, 21);
   (0x7fffea, 23); (0x3fffdd, 22); (0x3fffde, 22); (0xfffff0, 24); (0x1fffdf, 21); (0x3fffdf, 22);
   (0x7fffeb, 23); (0x7fffec, 23); (0x1fffe0, 21); (0x1fffe1, 21); (0x3fffe0, 22); (0x1fffe2, 21);
   (0x7fffed, 23); (0x3fffe1, 22); (0x7fffee, 23); (0x7fffef, 23); (0xfffea, 20); (0x3fffe2, 22);
   (0x3fffe3, 22); (0x3fffe4, 22); (0x7ffff0, 23); (0x3fffe5, 22); (0x3fffe6, 22); (0x7ffff1, 23);
   (0x3ffffe0, 26); (0x3ffffe1, 26); (0xfffeb, 20); (0x7fff1, 19); (0x3fffe7, 22); (0x7ffff2, 23);
   (0x3fffe8, 22); (0x1ffffec, 25); (0x3ffffe2, 26); (0x3ffffe3, 26); (0x3ffffe4, 26); (0x7ffffde, 27);
   (0x7ffffdf, 27); (0x3ffffe5, 26); (0xfffff1, 24); (0x1ffffed, 25); (0x7fff2, 19); (0x1fffe3, 21);
   (0x3ffffe6, 26); (0x7ffffe0, 27); (0x7ffffe1, 27); (0x3ffffe7, 26); (0x7ffffe2, 27); (0xfffff2, 24);
   (0x1fffe4, 21); (0x1fffe5, 21); (0x3ffffe8, 26); (0x3ffffe9, 26); (0xffffffd, 28); (0x7ffffe3, 27);
   (0x7ffffe4, 27); (0x7ffffe5, 27); (0xfffec, 20); (0xfffff3, 24); (0xfffed, 20); (0x1fffe6, 21);
   (0x3fffe9, 22); (0x1fffe7, 21); (0x1fffe8, 21); (0x7ffff3, 23); (0x3fffea, 22); (0x3fffeb, 22);
   (0x1ffffee, 25); (0x1ffffef, 25); (0xfffff4, 24); (0xfffff5, 24); (0x3ffffea, 26); (0x7ffff4, 23);
   (0x3ffffeb, 26); (0x7ffffe6, 27); (0x3ffffec, 26); (0x3ffffed, 26); (0x7ffffe7, 27); (0x7ffffe8, 27);
   (0x7ffffe9, 27); (0x7ffffea, 27); (0x7ffffeb, 27); (0xffffffe, 28); (0x7ffffec, 27); (0x7ffffed, 27);
   (0x7ffffee, 27); (0x7ffffef, 27); (0x7fffff0, 27); (0x3ffffee, 26); (0x3fffffff, 30)].

(** [struct Trie]: the two branches of a node and the symbol it ends. *)
Record Trie : Type := mkTrie {
  nodes : list (option Z * option Z);
  sym : list (option Z);
}.

(** [t.nodes[node][bit]]. *)
Definition branch (bit : Z) (n : option Z * option Z) : option Z := if bit =? 0 then n.1 else n.2.
Definition set_branch (bit : Z) (new : Z) (n : option Z * option Z) : option Z * option Z :=
  if bit =? 0 then (Some new, n.2) else (n.1, Some new).

(** The bits [i-1 .. 0] of a code, followed and extended in the trie; [None]
    is an index out of range. *)
Fixpoint build_code (i : nat) (code node : Z) (t : Trie) : option (Z * Trie) :=
  match i with
  | O => Some (node, t)
  | S i =>
      let bit := Z.land (Z.shiftr code (Z.of_nat i)) 1 in
      match get (nodes t) node with
      | None => None
      | Some nd =>
          match branch bit nd with
          | Some n => build_code i code n t
          | None =>
              let new := zlen (nodes t) in
              match set_at (nodes t ++ [(None, None)]) node (set_branch bit new nd) with
              | None => None
              | Some ns => build_code i code new (mkTrie ns (sym t ++ [None]))
              end
          end
      end
  end.

Fixpoint build_codes (s : Z) (codes : list (Z * Z)) (t : Trie) : option Trie :=
  match codes with
  | [] => Some t
  | (code, bits) :: codes =>
      match build_code (Z.to_nat bits) code 0 t with
      | None => None
      | Some (node, t) =>
          match set_at (sym t) node (Some s) with
          | None => None
          | Some sy => build_codes (s + 1) codes (mkTrie (nodes t) sy)
          end
      end
  end.

(** [Trie::build]. *)
Definition Trie_build : option Trie := build_codes 0 CODES (mkTrie [(None, None)] [None]).

(** [TRIE]: the trie is built once and shared. *)
Definition TRIE : Trie := Eval vm_compute in default (mkTrie [] []) Trie_build.

(** The variables of the loop of [decode]. *)
Record decoding : Type := mkDecoding { out : list Z; node : Z; tail_bits : Z; tail_value : Z }.

(** The body of the inner loop, for one bit; [Err] is the [None] of the
    source. *)
Definition decode_bit (max_output : Z) (st : decoding) (bit : Z) : outcome unit decoding :=
  match get (nodes TRIE) (node st) with
  | None => Panic
  | Some nd =>
      match branch bit nd with
      | None => Err tt
      | Some n =>
          let tb := Z.min U8_MAX (tail_bits st + 1) in
          let tv := Z.lor (Z.shiftl (tail_value st) 1 mod 2 ^ 8) bit in
          match get (sym TRIE) n with
          | None => Panic
          | Some None => Ok (mkDecoding (out st) n tb tv)
          | Some (Some symbol) =>
              if symbol =? 256 then Err tt
              else
                let o := out st ++ [symbol mod 2 ^ 8] in
                if max_output <? zlen o then Err tt else Ok (mkDecoding o 0 0 0)
          end
      end
  end.

Fixpoint decode_bits (max_output : Z) (bits : list Z) (st : decoding) : outcome unit decoding :=
  match bits with
  | [] => Ok st
  | b :: bits => obind (decode_bit max_output st b) (decode_bits max_output bits)
  end.

(** The bits of an octet, from the top. *)
Definition byte_bits (byte : Z) : list Z := map (λ i, Z.land (Z.shiftr byte i) 1) [7; 6; 5; 4; 3; 2; 1; 0].

Fixpoint decode_bytes (max_output : Z) (input : list Z) (st : decoding) : outcome unit decoding :=
  match input with
  | [] => Ok st
  | byte :: input => obind (decode_bits max_output (byte_bits byte) st) (decode_bytes max_output input)
  end.

(** [huffman::decode]. *)
Definition decode (input : list Z) : outcome unit (list Z) :=
  let max_output := saturating_add (saturating_mul (zlen input) 2) 16 in
  obind (decode_bytes max_output input (mkDecoding [] 0 0 0)) (λ st,
    if negb (node st =? 0) then
      if (tail_bits st =? 0) || (7 <? tail_bits st) then Err tt
      else if negb (tail_value st =? Z.shiftl 1 (tail_bits st) - 1) then Err tt
      else Ok (out st)
    else Ok (out st)).

(** The variables of the loop of [encode]. *)
Record encoding : Type := mkEncoding { eout : list Z; acc : Z; nbits : Z }.

(** [while nbits >= 8]. *)
Fixpoint flush (fuel : nat) (st : encoding) : option encoding :=
  if 8 <=? nbits st then
    match fuel with
    | O => None
    | S fuel =>
        let n := nbits st - 8 in
        flush fuel (mkEncoding (eout st ++ [Z.shiftr (acc st) n mod 2 ^ 8]) (acc st) n)
    end
  else Some st.

(** One octet of the input: at most 37 bits are pending. *)
Definition encode_byte (byte : Z) (st : encoding) : option encoding :=
  match get CODES byte with
  | None => None
  | Some (code, bits) =>
      match flush 4 (mkEncoding (eout st) (Z.lor (u64_shl (acc st) bits) code) (nbits st + bits)) with
      | None => None
      | Some st =>
          Some (mkEncoding (eout st)
            (if nbits st =? 0 then 0 else Z.land (acc st) (Z.shiftl 1 (nbits st) - 1)) (nbits st))
      end
  end.

Fixpoint encode_bytes (input : list Z) (st : encoding) : option encoding :=
  match input with
  | [] => Some st
  | byte :: input => match encode_byte byte st with None => None | Some st => encode_bytes input st end
  end.

(** [huffman::encode]; [None] is a panic, or an exhausted fuel. *)
Definition encode (input : list Z) : option (list Z) :=
  match encode_bytes input (mkEncoding [] 0 0) with
  | None => None
  | Some st =>
      if 0 <? nbits st then
        let pad := 8 - nbits st in
        let a := Z.lor (u64_shl (acc st) pad) (Z.shiftl 1 pad - 1) in
        Some (eout st ++ [a mod 2 ^ 8])
      else Some (eout st)
  end.

Example rfc_c41 :
  encode [119; 119; 119; 46; 101; 120; 97; 109; 112; 108; 101; 46; 99; 111; 109] =
  Some [0xf1; 0xe3; 0xc2; 0xe5; 0xf2; 0x3a; 0x6b; 0xa0; 0xab; 0x90; 0xf4; 0xff].
Proof. reflexivity. Qed.

Example rfc_c41_decode :
  decode [0xf1; 0xe3; 0xc2; 0xe5; 0xf2; 0x3a; 0x6b; 0xa0; 0xab; 0x90; 0xf4; 0xff] =
  Ok [119; 119; 119; 46; 101; 120; 97; 109; 112; 108; 101; 46; 99; 111; 109].
Proof. reflexivity. Qed.

(** ** Bits *)

(** The low [n] bits of [v], from the top. *)
Fixpoint bits (n : nat) (v : Z) : list Z :=
  match n with
  | O => []
  | S n => Z.land (Z.shiftr v (Z.of_nat n)) 1 :: bits n v
  end.

Definition bytes_bits (l : list Z) : list Z := concat (map (bits 8) l).

Lemma land_1_mod a : Z.land a 1 = a mod 2.
Proof. by apply (land_ones_mod a 1). Qed.

Lemma bits_mod n v : bits n (v mod 2 ^ Z.of_nat n) = bits n v.
Proof.
  assert (H : ∀ m, (n ≤ m)%nat → bits n (v mod 2 ^ Z.of_nat m) = bits n v).
  { induction n as [|n IH]; intros m Hm; cbn [bits]; [done|]. rewrite IH by lia. f_equal.
    rewrite !land_1_mod, !Z.shiftr_div_pow2 by lia.
    replace (2 ^ Z.of_nat m) with (2 ^ (Z.of_nat n + 1) * 2 ^ (Z.of_nat m - Z.of_nat n - 1))
      by (rewrite <-Z.pow_add_r by lia; f_equal; lia).
    rewrite Z.rem_mul_r by lia. rewrite Z.pow_add_r by lia. change (2 ^ 1) with 2.
    set (p := 2 ^ Z.of_nat n). assert (0 < p) by (apply Z.pow_pos_nonneg; lia).
    set (q := (v / (p * 2)) mod _). replace (v mod (p * 2) + p * 2 * q) with (v mod (p * 2) + (2 * q) * p) by lia.
    rewrite Z.div_add by lia. rewrite (Z.mul_comm 2 q), Z_mod_plus_full.
    rewrite Z.rem_mul_r by lia. rewrite (Z.mul_comm p (_ mod 2)), Z.div_add by lia.
    rewrite Z.div_small by (apply Z.mod_pos_bound; lia). by rewrite Z.add_0_l, Z.mod_mod by lia. }
  by apply H.
Qed.

Lemma bits_app a b v : bits (a + b) v = bits a (Z.shiftr v (Z.of_nat b)) ++ bits b v.
Proof.
  induction a as [|a IH]; cbn [Nat.add bits app]; [done|]. rewrite IH, Z.shiftr_shiftr by lia.
  do 3 f_equal. lia.
Qed.

Lemma bits_length n v : length (bits n v) = n.
Proof. induction n; simpl; congruence. Qed.

Lemma bytes_bits_app l k : bytes_bits (l ++ k) = bytes_bits l ++ bytes_bits k.
Proof. unfold bytes_bits. by rewrite map_app, concat_app. Qed.

Lemma bits8_mod v : bits 8 (v mod 2 ^ 8) = bits 8 v.
Proof. apply (bits_mod 8). Qed.

(** ** The encoder *)

Definition code_bits (s : Z) : list Z :=
  match get CODES s with Some (code, n) => bits (Z.to_nat n) code | None => [] end.

Definition text_bits (input : list Z) : list Z := concat (map code_bits input).

(** What [encode] has written and what is pending, as bits. *)
Definition written (st : encoding) : list Z := bytes_bits (eout st) ++ bits (Z.to_nat (nbits st)) (acc st).

Lemma flush_spec fuel : ∀ st,
  0 ≤ nbits st → nbits st < 8 * (Z.of_nat fuel + 1) →
  ∃ st', flush fuel st = Some st' ∧ 0 ≤ nbits st' < 8 ∧ acc st' = acc st ∧ written st' = written st ∧
    (is_bytes (eout st) → is_bytes (eout st')).
Proof.
  induction fuel as [|fuel IH]; intros st Hn Hf; cbn [flush].
  - destruct (Z.leb_spec 8 (nbits st)); [lia|]. exists st. split_and!; done || lia.
  - destruct (Z.leb_spec 8 (nbits st)) as [H8|]; [|exists st; split_and!; done || lia]. cbv zeta.
    destruct (IH (mkEncoding (eout st ++ [Z.shiftr (acc st) (nbits st - 8) mod 2 ^ 8]) (acc st) (nbits st - 8)))
      as (st' & -> & Hn' & Ha & Hw & Hb); [simpl; lia|simpl; lia|].
    exists st'. split_and!; [done|lia|lia|done| |].
    + rewrite Hw. unfold written. cbn [eout acc nbits]. rewrite bytes_bits_app, <-app_assoc. f_equal.
      replace (Z.to_nat (nbits st)) with (8 + Z.to_nat (nbits st - 8))%nat by lia. rewrite bits_app.
      unfold bytes_bits. cbn [map concat]. rewrite app_nil_r, bits8_mod, Z2Nat.id by lia. done.
    + intros H. apply Hb. apply Forall_app. split; [done|]. apply Forall_singleton. unfold is_u8, U8_MAX.
      pose proof (Z.mod_pos_bound (Z.shiftr (acc st) (nbits st - 8)) (2 ^ 8)). lia.
Qed.

(** The codes are between 5 and 30 bits long and fit their length. *)
Lemma codes_ok s : is_u8 s → ∃ code n, get CODES s = Some (code, n) ∧ 5 ≤ n ≤ 30 ∧ 0 ≤ code < 2 ^ n.
Proof.
  intros Hs.
  pose proof (u8_forall (λ s, match get CODES s with
    | Some (code, n) => (5 <=? n) && (n <=? 30) && (0 <=? code) && (code <? 2 ^ n) | None => false end)) as H.
  specialize (H ltac:(by vm_compute) s Hs). simpl in H.
  destruct (get CODES s) as [[code n]|]; [|done]. exists code, n. bool_prop. split_and!; done || lia.
Qed.

Lemma encode_byte_spec s st :
  is_u8 s → 0 ≤ nbits st < 8 → 0 ≤ acc st < 2 ^ nbits st →
  ∃ st', encode_byte s st = Some st' ∧ 0 ≤ nbits st' < 8 ∧ 0 ≤ acc st' < 2 ^ nbits st' ∧
    written st' = written st ++ code_bits s ∧ (is_bytes (eout st) → is_bytes (eout st')).
Proof.
  intros Hs Hn Ha. destruct (codes_ok s Hs) as (code & n & Hc & Hnb & Hcode).
  unfold encode_byte, code_bits. rewrite Hc.
  assert (Hpow : 2 ^ nbits st ≤ 2 ^ 7) by (apply Z.pow_le_mono_r; lia).
  assert (Hshl : u64_shl (acc st) n = acc st * 2 ^ n).
  { unfold u64_shl. rewrite Z.shiftl_mul_pow2 by lia. apply Z.mod_small.
    assert (2 ^ n ≤ 2 ^ 30) by (apply Z.pow_le_mono_r; lia). nia. }
  rewrite Hshl, <-Z.shiftl_mul_pow2, lor_shiftl_add by lia.
  destruct (flush_spec 4 (mkEncoding (eout st) (acc st * 2 ^ n + code) (nbits st + n)))
    as (st' & -> & Hn' & Ha' & Hw & Hb); [simpl; lia|simpl; lia|]. cbn [eout acc nbits] in *.
  assert (Hmask : (if nbits st' =? 0 then 0 else Z.land (acc st') (Z.shiftl 1 (nbits st') - 1)) =
    acc st' mod 2 ^ nbits st').
  { destruct (Z.eqb_spec (nbits st') 0) as [->|]; [by rewrite Z.mod_1_r|].
    rewrite Z.shiftl_mul_pow2, Z.mul_1_l by lia. apply land_ones_mod; [lia|done]. }
  eexists. split; [done|]. cbn [eout acc nbits]. rewrite Hmask. split_and!; [lia..| | | |done].
  - apply Z.mod_pos_bound. lia.
  - apply Z.mod_pos_bound. lia.
  - transitivity (written st').
    + unfold written. cbn [eout acc nbits]. f_equal.
      rewrite <-(bits_mod _ (acc st')), Z2Nat.id by lia. done.
    + rewrite Hw. unfold written. cbn [eout acc nbits]. rewrite <-app_assoc. f_equal.
      rewrite Z2Nat.inj_add, bits_app by lia. f_equal.
      * f_equal. rewrite Z2Nat.id, Z.shiftr_div_pow2, Z.div_add_l, Z.div_small by lia. lia.
      * rewrite <-(bits_mod _ (_ + _)), Z2Nat.id by lia.
        by rewrite Z.add_comm, Z_mod_plus_full, Z.mod_small by lia.
Qed.

Lemma encode_bytes_spec input : ∀ st,
  is_bytes input → 0 ≤ nbits st < 8 → 0 ≤ acc st < 2 ^ nbits st → is_bytes (eout st) →
  ∃ st', encode_bytes input st = Some st' ∧ 0 ≤ nbits st' < 8 ∧ 0 ≤ acc st' < 2 ^ nbits st' ∧
    written st' = written st ++ text_bits input ∧ is_bytes (eout st').
Proof.
  induction input as [|s input IH]; intros st Hi Hn Ha Hb; cbn [encode_bytes].
  - exists st. rewrite app_nil_r. split_and!; done || lia.
  - apply Forall_cons in Hi as [Hs Hi].
    destruct (encode_byte_spec s st Hs Hn Ha) as (st1 & -> & Hn1 & Ha1 & Hw1 & Hb1).
    destruct (IH st1 Hi Hn1 Ha1 (Hb1 Hb)) as (st2 & -> & Hn2 & Ha2 & Hw2 & Hb2).
    exists st2. split_and!; [done|lia..| |done].
    rewrite Hw2, Hw1. unfold text_bits. cbn [map concat]. by rewrite app_assoc.
Qed.

(** The output is the bits of the codes, filled up with ones. *)
Lemma encode_spec input :
  is_bytes input →
  ∃ o k, encode input = Some o ∧ (k < 8)%nat ∧ bytes_bits o = text_bits input ++ bits k (2 ^ Z.of_nat k - 1) ∧
    is_bytes o.
Proof.
  intros Hi. unfold encode.
  destruct (encode_bytes_spec input (mkEncoding [] 0 0) Hi) as (st & -> & Hn & Ha & Hw & Hb);
    [simpl; lia|simpl; lia|constructor|].
  change (written (mkEncoding [] 0 0)) with (@nil Z) in Hw. rewrite app_nil_l in Hw.
  destruct (Z.ltb_spec 0 (nbits st)).
  - set (pad := 8 - nbits st). exists (eout st ++ [Z.lor (u64_shl (acc st) pad) (Z.shiftl 1 pad - 1) mod 2 ^ 8]), (Z.to_nat pad).
    assert (Hpow : 2 ^ nbits st * 2 ^ pad = 2 ^ 8) by (rewrite <-Z.pow_add_r by lia; f_equal; lia).
    assert (0 < 2 ^ pad) by (apply Z.pow_pos_nonneg; lia).
    assert (Hshl : u64_shl (acc st) pad = acc st * 2 ^ pad).
    { unfold u64_shl. rewrite Z.shiftl_mul_pow2 by lia. apply Z.mod_small. nia. }
    rewrite Hshl, (Z.shiftl_mul_pow2 1), Z.mul_1_l, <-Z.shiftl_mul_pow2, lor_shiftl_add by lia.
    split_and!; [done|lia| |].
    + rewrite bytes_bits_app, <-Hw. unfold written. rewrite <-app_assoc. f_equal.
      unfold bytes_bits. cbn [map concat]. rewrite app_nil_r, bits8_mod, Z2Nat.id by lia.
      replace 8%nat with (Z.to_nat (nbits st) + Z.to_nat pad)%nat by lia. rewrite bits_app. f_equal.
      * f_equal. rewrite Z2Nat.id, Z.shiftr_div_pow2, Z.div_add_l, Z.div_small by lia. lia.
      * rewrite <-(bits_mod _ (_ + _)), Z2Nat.id by lia.
        by rewrite Z.add_comm, Z_mod_plus_full, Z.mod_small by lia.
    + apply Forall_app. split; [done|]. apply Forall_singleton. unfold is_u8, U8_MAX.
      pose proof (Z.mod_pos_bound (acc st * 2 ^ pad + (2 ^ pad - 1)) (2 ^ 8)). lia.
  - exists (eout st), 0%nat. split_and!; [done|lia| |done]. rewrite <-Hw. unfold written.
    replace (Z.to_nat (nbits st)) with 0%nat by lia. cbn [bits]. by rewrite !app_nil_r.
Qed.

(** ** The decoder *)

Lemma decode_bits_app mx b c st :
  decode_bits mx (b ++ c) st = obind (decode_bits mx b st) (decode_bits mx c).
Proof.
  revert st. induction b as [|x b IH]; intros st; simpl; [done|].
  destruct (decode_bit mx st x); simpl; done || apply IH.
Qed.

Lemma decode_bytes_bits mx l : ∀ st, decode_bytes mx l st = decode_bits mx (bytes_bits l) st.
Proof.
  induction l as [|b l IH]; intros st; cbn [decode_bytes]; [done|].
  unfold bytes_bits. cbn [map concat]. rewrite decode_bits_app. change (byte_bits b) with (bits 8 b).
  destruct (decode_bits mx (bits 8 b) st); cbn [obind]; done || apply IH.
Qed.

(** From [node] the bits lead to the symbol [s], and to no symbol before. *)
Fixpoint leads (node : Z) (bs : list Z) (s : Z) : bool :=
  match bs with
  | [] => false
  | b :: bs' =>
      match get (nodes TRIE) node with
      | None => false
      | Some nd =>
          match branch b nd with
          | None => false
          | Some n =>
              match get (sym TRIE) n with
              | None => false
              | Some None => leads n bs' s
              | Some (Some s') => (s' =? s) && match bs' with [] => true | _ => false end
              end
          end
      end
  end.

Lemma leads_decode mx s bs : ∀ st,
  leads (node st) bs s = true → is_u8 s → zlen (out st) + 1 ≤ mx →
  decode_bits mx bs st = Ok (mkDecoding (out st ++ [s]) 0 0 0).
Proof.
  induction bs as [|b bs IH]; intros st Hl Hs Hm; cbn [leads decode_bits] in *; [done|]. unfold decode_bit.
  destruct (get (nodes TRIE) (node st)) as [nd|]; [|done]. destruct (branch b nd) as [n|]; [|done]. cbv zeta.
  destruct (get (sym TRIE) n) as [[s'|]|]; [| |done].
  - apply andb_prop in Hl as [->%Z.eqb_eq Hbs]. destruct bs; [|done]. unfold is_u8, U8_MAX in Hs.
    rewrite (proj2 (Z.eqb_neq _ _)), Z.mod_small by lia. rewrite zlen_app. change (zlen [s]) with 1.
    rewrite (proj2 (Z.ltb_ge _ _)) by lia. done.
  - cbn [obind]. rewrite IH; done.
Qed.

(** Every code of an octet leads from the root to its symbol. *)
Lemma code_leads s : is_u8 s → leads 0 (code_bits s) s = true.
Proof. revert s. apply (u8_forall (λ s, leads 0 (code_bits s) s)). by vm_compute. Qed.

Lemma text_decode mx input : ∀ o,
  is_bytes input → zlen o + zlen input ≤ mx →
  decode_bits mx (text_bits input) (mkDecoding o 0 0 0) = Ok (mkDecoding (o ++ input) 0 0 0).
Proof.
  induction input as [|s input IH]; intros o Hi Hm.
  - by rewrite app_nil_r.
  - apply Forall_cons in Hi as [Hs Hi]. rewrite zlen_cons in Hm. pose proof (zlen_nonneg input).
    unfold text_bits. cbn [map concat]. rewrite decode_bits_app.
    rewrite (leads_decode mx s); [|by apply code_leads|done|simpl; lia]. cbn [obind out].
    fold (text_bits input). rewrite IH; [|done|rewrite zlen_app; change (zlen [s]) with 1; lia].
    by rewrite <-app_assoc.
Qed.

(** Fewer than eight ones from the root end in no symbol. *)
Lemma padding_decode mx o k :
  (k < 8)%nat → ∃ n, decode_bits mx (bits k (2 ^ Z.of_nat k - 1)) (mkDecoding o 0 0 0) =
    Ok (mkDecoding o n (Z.of_nat k) (2 ^ Z.of_nat k - 1)) ∧ (n = 0 ↔ k = O).
Proof.
  intros Hk. do 8 (destruct k as [|k]; [eexists; split; [reflexivity|]; done|]). lia.
Qed.

Lemma text_bits_length input : is_bytes input → 5 * zlen input ≤ zlen (text_bits input).
Proof.
  induction input as [|s input IH]; intros Hi; [done|]. apply Forall_cons in Hi as [Hs Hi].
  unfold text_bits. cbn [map concat]. rewrite zlen_cons, zlen_app. fold (text_bits input).
  destruct (codes_ok s Hs) as (code & n & Hc & Hn & _). unfold code_bits. rewrite Hc.
  specialize (IH Hi). unfold zlen at 2. rewrite bits_length. lia.
Qed.

Lemma bytes_bits_length l : zlen (bytes_bits l) = 8 * zlen l.
Proof.
  induction l as [|b l IH]; [done|]. unfold bytes_bits. cbn [map concat].
  rewrite zlen_app, zlen_cons. fold (bytes_bits l). rewrite IH. unfold zlen at 1. rewrite bits_length. lia.
Qed.

Lemma decode_encode_lemma input :
  is_bytes input → zlen input ≤ USIZE_MAX → ∃ o, encode input = Some o ∧ decode o = Ok input ∧ is_bytes o.
Proof.
  intros Hi Hz. destruct (encode_spec input Hi) as (o & k & Ho & Hk & Hbits & Hb). exists o.
  split; [done|]. split; [|done]. unfold decode. cbv zeta. set (mx := saturating_add _ _).
  assert (Hmx : zlen input ≤ mx).
  { pose proof (text_bits_length input Hi). pose proof (bytes_bits_length o) as Hl.
    rewrite Hbits, zlen_app in Hl. unfold zlen at 2 in Hl. rewrite bits_length in Hl.
    pose proof (zlen_nonneg input). unfold mx, saturating_add, saturating_mul. lia. }
  rewrite decode_bytes_bits, Hbits, decode_bits_app, text_decode by (rewrite ?zlen_nil; done || lia).
  cbn [obind app]. destruct (padding_decode mx input k Hk) as (n & -> & Hn). cbn [obind node tail_bits tail_value out].
  destruct (Z.eqb_spec n 0) as [|Hne]; cbn [negb]; [done|].
  assert (k ≠ O) by tauto. rewrite (proj2 (Z.eqb_neq _ _)), (proj2 (Z.ltb_ge _ _)) by lia. cbn [orb].
  rewrite Z.shiftl_mul_pow2, Z.mul_1_l, Z.eqb_refl by lia. done.
Qed.

(** *** No index of the decoder is out of range *)

Lemma Trie_build_TRIE : Trie_build = Some TRIE.
Proof. by vm_compute. Qed.

(** The branches stay in the trie. *)
Lemma trie_closed n nd b m :
  get (nodes TRIE) n = Some nd → branch b nd = Some m →
  (∃ nd', get (nodes TRIE) m = Some nd') ∧ (∃ s, get (sym TRIE) m = Some s).
Proof.
  assert (H : forallb (λ nd : option Z * option Z,
    let ok := λ m, match m with Some m => (0 <=? m) && (m <? zlen (nodes TRIE)) && (m <? zlen (sym TRIE)) | None => true end in
    ok nd.1 && ok nd.2) (nodes TRIE) = true) by by vm_compute.
  rewrite forallb_forall in H. intros [_ Hn]%get_Some_lookup Hb.
  assert (Hin : In nd (nodes TRIE)) by (apply list_elem_of_In; by eapply list_elem_of_lookup_2).
  specialize (H nd Hin). cbv zeta in H. apply andb_prop in H as [H1 H2]. unfold branch in Hb.
  assert (Hm : 0 ≤ m < zlen (nodes TRIE) ∧ m < zlen (sym TRIE)).
  { destruct (b =? 0); rewrite Hb in *; bool_prop; lia. }
  split; apply get_is_Some; lia.
Qed.

Lemma decode_bit_safe mx st b nd :
  get (nodes TRIE) (node st) = Some nd → 0 ≤ mx →
  match decode_bit mx st b with
  | Ok st' => (∃ nd', get (nodes TRIE) (node st') = Some nd') ∧ (zlen (out st) ≤ mx → zlen (out st') ≤ mx) ∧
              (is_bytes (out st) → is_bytes (out st'))
  | Err _ => True
  | _ => False
  end.
Proof.
  intros Hn Hmx. unfold decode_bit. rewrite Hn. destruct (branch b nd) as [n|] eqn:Hb; [|done].
  destruct (trie_closed _ _ _ _ Hn Hb) as [Hn' [s Hs]]. rewrite Hs. destruct s as [s|]; cbv zeta.
  - destruct (s =? 256); [done|]. destruct (Z.ltb_spec mx (zlen (out st ++ [s mod 2 ^ 8]))); [done|].
    cbn [node out]. split_and!; [by apply get_is_Some; vm_compute|done|]. intros H'. apply Forall_app. split; [done|].
    apply Forall_singleton. unfold is_u8, U8_MAX. pose proof (Z.mod_pos_bound s (2 ^ 8)). lia.
  - done.
Qed.

Lemma decode_bits_safe mx bs : ∀ st,
  (∃ nd, get (nodes TRIE) (node st) = Some nd) → 0 ≤ mx → zlen (out st) ≤ mx → is_bytes (out st) →
  match decode_bits mx bs st with
  | Ok st' => zlen (out st') ≤ mx ∧ is_bytes (out st')
  | Err _ => True
  | _ => False
  end.
Proof.
  induction bs as [|b bs IH]; intros st [nd Hn] Hmx Ho Hb; cbn [decode_bits]; [done|].
  pose proof (decode_bit_safe mx st b nd Hn Hmx) as H. destruct (decode_bit mx st b) as [st'| | |]; cbn [obind]; try done.
  destruct H as (? & ? & ?). apply IH; auto.
Qed.

Lemma decode_total_lemma input :
  match decode input with
  | Ok o => zlen o ≤ saturating_add (saturating_mul (zlen input) 2) 16 ∧ is_bytes o
  | Err _ => True
  | _ => False
  end.
Proof.
  unfold decode. cbv zeta. rewrite decode_bytes_bits. pose proof (zlen_nonneg input).
  assert (Hmx : 0 ≤ saturating_add (saturating_mul (zlen input) 2) 16) by (unfold saturating_add, saturating_mul, USIZE_MAX; lia).
  pose proof (decode_bits_safe (saturating_add (saturating_mul (zlen input) 2) 16) (bytes_bits input) (mkDecoding [] 0 0 0)) as Hs.
  specialize (Hs ltac:(by apply get_is_Some; vm_compute) Hmx ltac:(simpl; done) ltac:(constructor)).
  destruct (decode_bits _ _ _) as [st| | |]; cbn [obind]; try done.
  destruct (negb (node st =? 0)); [|done]. destruct (_ || _); [done|]. by destruct (negb _).
Qed.
