(* ===== verification/Hpack.v ===== *)
(** * HPACK header compression ([onetdns-http2/src/hpack.rs])

    Integers, strings, the decoder with its dynamic table, and the encoder of
    responses.  An error of the decoder carries the table it leaves. *)

From S2P Require Import Prelude.
From S2P Require Import Varint.
From S2P Require Huffman.

Open Scope outcome_scope.

Definition MAX_DECODED_HEADER_LIST : Z := 32 * 1024.

(** [STATIC]. *)
Definition STATIC : list (string * string) :=
  [(":authority", EmptyString);
   (":method", "GET");
   (":method", "POST");
   (":path", "/");
   (":path", "/index.html");
   (":scheme", "http");
   (":scheme", "https");
   (":status", "200");
   (":status", "204");
   (":status", "206");
   (":status", "304");
   (":status", "400");
   (":status", "404");
   (":status", "500");
   ("accept-charset", EmptyString);
   ("accept-encoding", "gzip, deflate");
   ("accept-language", EmptyString);
   ("accept-ranges", EmptyString);
   ("accept", EmptyString);
   ("access-control-allow-origin", EmptyString);
   ("age", EmptyString);
   ("allow", EmptyString);
   ("authorization", EmptyString);
   ("cache-control", EmptyString);
   ("content-disposition", EmptyString);
   ("content-encoding", EmptyString);
   ("content-language", EmptyString);
   ("content-length", EmptyString);
   ("content-location", EmptyString);
   ("content-range", EmptyString);
   ("content-type", EmptyString);
   ("cookie", EmptyString);
   ("date", EmptyString);
   ("etag", EmptyString);
   ("expect", EmptyString);
   ("expires", EmptyString);
   ("from", EmptyString);
   ("host", EmptyString);
   ("if-match", EmptyString);
   ("if-modified-since", EmptyString);
   ("if-none-match", EmptyString);
   ("if-range", EmptyString);
   ("if-unmodified-since", EmptyString);
   ("last-modified", EmptyString);
   ("link", EmptyString);
   ("location", EmptyString);
   ("max-forwards", EmptyString);
   ("proxy-authenticate", EmptyString);
   ("proxy-authorization", EmptyString);
   ("range", EmptyString);
   ("referer", EmptyString);
   ("refresh", EmptyString);
   ("retry-after", EmptyString);
   ("server", EmptyString);
   ("set-cookie", EmptyString);
   ("strict-transport-security", EmptyString);
   ("transfer-encoding", EmptyString);
   ("user-agent", EmptyString);
   ("vary", EmptyString);
   ("via", EmptyString);
   ("www-authenticate", EmptyString)]%string.

(** The static table as octets. *)
Definition STATIC_BYTES : list (list Z * list Z) :=
  Eval vm_compute in map (λ '(n, v), (as_bytes n, as_bytes v)) STATIC.

(** The loop of [decode_int]; [m] grows by 7 and stops past 63. *)
Fixpoint decode_int_loop (fuel : nat) (buf : list Z) (value m i : Z) : option (Z * Z) :=
  match fuel with
  | O => None
  | S fuel =>
      match get buf i with
      | None => None
      | Some b =>
          let i := i + 1 in
          let low := Z.land b 0x7f in
          if (64 <=? m) || (Z.shiftr U64_MAX m <? low) then None
          else
            let value := value + u64_shl low m in
            if U64_MAX <? value then None
            else
              let m := m + 7 in
              if Z.land b 0x80 =? 0 then Some (value, i)
              else if 63 <? m then None
              else decode_int_loop fuel buf value m i
      end
  end.

(** [decode_int]: ten continuation octets at most. *)
Definition decode_int (buf : list Z) (prefix_bits : Z) : option (Z * Z) :=
  if negb ((1 <=? prefix_bits) && (prefix_bits <=? 8)) then None
  else
    let mask := Z.shiftl 1 prefix_bits - 1 in
    match get buf 0 with
    | None => None
    | Some first =>
        let value := Z.land first mask in
        if value <? mask then Some (value, 1)
        else decode_int_loop 11 buf value 0 1
    end.

(** [while v >= 128] of [encode_int]. *)
Fixpoint encode_int_loop (fuel : nat) (v : Z) : option (list Z) :=
  match fuel with
  | O => None
  | S fuel =>
      if 128 <=? v then
        match encode_int_loop fuel (Z.shiftr v 7) with
        | None => None
        | Some out => Some (Z.lor (Z.land (v mod 2 ^ 8) 0x7f) 0x80 :: out)
        end
      else Some [v mod 2 ^ 8]
  end.

(** [encode_int]: the octets appended to [out]; [None] is an exhausted fuel. *)
Definition encode_int (value prefix_bits first_high : Z) : option (list Z) :=
  let mask := Z.shiftl 1 prefix_bits - 1 in
  if value <? mask then Some [Z.lor first_high (value mod 2 ^ 8)]
  else
    match encode_int_loop 10 (value - mask) with
    | None => None
    | Some out => Some (Z.lor first_high (mask mod 2 ^ 8) :: out)
    end.

(** [decode_string]. *)
Definition decode_string (buf : list Z) : outcome unit (list Z * Z) :=
  match get buf 0 with
  | None => Err tt
  | Some first =>
      let huff := negb (Z.land first 0x80 =? 0) in
      match decode_int buf 7 with
      | None => Err tt
      | Some (len, n) =>
          match checked_add n len with
          | None => Err tt
          | Some end_ =>
              match get_range buf n end_ with
              | None => Err tt
              | Some raw =>
                  try! s := (if huff then Huffman.decode raw else Ok raw) in
                  Ok (s, end_)
              end
          end
      end
  end.

(** [encode_string]. *)
Definition encode_string (s : list Z) (use_huffman : bool) : option (list Z) :=
  let plain := n ← encode_int (zlen s) 7 0x0; Some (n ++ s) in
  if use_huffman && forallb (λ b, b <? 128) s then
    enc ← Huffman.encode s;
    if zlen enc <? zlen s then n ← encode_int (zlen enc) 7 0x80; Some (n ++ enc)
    else plain
  else plain.

(** [struct Decoder]; the newest entry comes first. *)
Record Decoder : Type := mkDecoder {
  dynamic : list (list Z * list Z);
  size : Z;
  max_size : Z;
  allowed_max_size : Z;
}.

(** [entry_size]. *)
Definition entry_size (n v : list Z) : Z := zlen n + zlen v + 32.

(** [Decoder::new]. *)
Definition Decoder_new (m : Z) : Decoder := mkDecoder [] 0 m m.

(** [Decoder::lookup]. *)
Definition Decoder_lookup (d : Decoder) (index : Z) : option (list Z * list Z) :=
  if index =? 0 then None
  else if index <=? zlen STATIC_BYTES then get STATIC_BYTES (index - 1)
  else get (dynamic d) (index - zlen STATIC_BYTES - 1).

(** [Decoder::evict]: [None] is a subtraction below zero. *)
Fixpoint evict_loop (fuel : nat) (d : Decoder) : option Decoder :=
  if max_size d <? size d then
    match fuel with
    | O => None
    | S fuel =>
        match last (dynamic d) with
        | Some (n, v) =>
            if size d <? entry_size n v then None
            else evict_loop fuel (mkDecoder (removelast (dynamic d)) (size d - entry_size n v) (max_size d) (allowed_max_size d))
        | None => Some d
        end
    end
  else Some d.

Definition Decoder_evict (d : Decoder) : option Decoder := evict_loop (S (length (dynamic d))) d.

(** [Decoder::insert]: [None] also when the size overflows. *)
Definition Decoder_insert (d : Decoder) (name value : list Z) : option Decoder :=
  let es := entry_size name value in
  match checked_add (size d) es with
  | None => None
  | Some sz => Decoder_evict (mkDecoder ((name, value) :: dynamic d) sz (max_size d) (allowed_max_size d))
  end.

(** [Decoder::set_max]. *)
Definition Decoder_set_max (d : Decoder) (m : Z) : option (bool * Decoder) :=
  if allowed_max_size d <? m then Some (false, d)
  else match Decoder_evict (mkDecoder (dynamic d) (size d) m (allowed_max_size d)) with
       | None => None
       | Some d => Some (true, d)
       end.

(** The slice [&buf[n..]]. *)
Definition slice_from {E} (buf : list Z) (n : Z) : outcome E (list Z) :=
  match get_range buf n (zlen buf) with Some s => Ok s | None => Panic end.

(** [Decoder::read_literal]. *)
Definition read_literal (d : Decoder) (buf : list Z) (prefix_bits : Z) : outcome unit (list Z * list Z * Z) :=
  match decode_int buf prefix_bits with
  | None => Err tt
  | Some (name_idx, pos) =>
      try! (name, pos) :=
        (if name_idx =? 0 then
           try! b := slice_from buf pos in
           try! (n, used) := decode_string b in
           Ok (n, pos + used)
         else match Decoder_lookup d name_idx with
              | None => Err tt
              | Some (n, _) => Ok (n, pos)
              end) in
      try! b := slice_from buf pos in
      try! (value, used) := decode_string b in
      Ok (name, value, pos + used)
  end.

(** The closure [account] of [decode]. *)
Definition account (decoded_size : Z) (name value : list Z) : option Z :=
  match checked_add decoded_size (zlen name + zlen value + 32) with
  | None => None
  | Some s => if s <=? MAX_DECODED_HEADER_LIST then Some s else None
  end.

(** The variables of the loop of [Decoder::decode]. *)
Record block : Type := mkBlock {
  bdec : Decoder;
  bout : list (list Z * list Z);
  decoded_size : Z;
  size_updates : Z;
  first_size_update : option Z;
}.

(** The errors of a step, with the table as the step leaves it. *)
Definition fail {A B} (d : Decoder) (o : outcome unit A) : outcome Decoder B :=
  match o with Ok _ | Err _ => Err d | Panic => Panic | NoFuel => NoFuel end.

Definition lift {A B} (d : Decoder) (o : outcome unit A) (k : A → outcome Decoder B) : outcome Decoder B :=
  match o with Ok a => k a | Err _ => Err d | Panic => Panic | NoFuel => NoFuel end.

(** A header field joins the list. *)
Definition emit (b : block) (d : Decoder) (sz : Z) (name value : list Z) : block :=
  mkBlock d (bout b ++ [(name, value)]) sz (size_updates b) (first_size_update b).

(** One iteration of the loop: the new variables and the octets consumed. *)
Definition decode_step (first : Z) (buf : list Z) (b : block) : outcome Decoder (block * Z) :=
  let d := bdec b in
  if negb (Z.land first 0x80 =? 0) then
    match decode_int buf 7 with
    | None => Err d
    | Some (idx, n) =>
        match Decoder_lookup d idx with
        | None => Err d
        | Some (name, value) =>
            match account (decoded_size b) name value with
            | None => Err d
            | Some sz => Ok (emit b d sz name value, n)
            end
        end
    end
  else if negb (Z.land first 0x40 =? 0) then
    lift d (read_literal d buf 6) (λ '(name, value, consumed),
      match account (decoded_size b) name value with
      | None => Err d
      | Some sz =>
          match Decoder_insert d name value with
          | None => Panic
          | Some d => Ok (emit b d sz name value, consumed)
          end
      end)
  else if negb (Z.land first 0x20 =? 0) then
    match decode_int buf 5 with
    | None => Err d
    | Some (new_size, n) =>
        if negb (bool_decide (bout b = [])) || (2 <=? size_updates b) ||
           match first_size_update b with Some first => new_size <? first | None => false end
        then Err d
        else match Decoder_set_max d new_size with
             | None => Panic
             | Some (false, d) => Err d
             | Some (true, d) =>
                 Ok (mkBlock d (bout b) (decoded_size b) (size_updates b + 1)
                       (Some (default new_size (first_size_update b))), n)
             end
    end
  else
    lift d (read_literal d buf 4) (λ '(name, value, consumed),
      match account (decoded_size b) name value with
      | None => Err d
      | Some sz => Ok (emit b d sz name value, consumed)
      end).

Fixpoint decode_loop (fuel : nat) (buf : list Z) (b : block) : outcome Decoder block :=
  match fuel with
  | O => NoFuel
  | S fuel =>
      match get buf 0 with
      | None => Ok b
      | Some first =>
          try! (b, n) := decode_step first buf b in
          try! buf := slice_from buf n in
          decode_loop fuel buf b
      end
  end.

(** [Decoder::decode]: the header list and the table, or the table alone. *)
Definition Decoder_decode (d : Decoder) (buf : list Z) : outcome Decoder (list (list Z * list Z) * Decoder) :=
  try! b := decode_loop (S (length buf)) buf (mkBlock d [] 0 0 None) in
  Ok (bout b, bdec b).

(** [Iterator::position]. *)
Fixpoint position {A} (p : A → bool) (l : list A) : option Z :=
  match l with
  | [] => None
  | x :: l => if p x then Some 0 else match position p l with Some i => Some (i + 1) | None => None end
  end.

(** The body of the loop of [encode_response]. *)
Definition encode_header (h : list Z * list Z) : option (list Z) :=
  let '(name, value) := h in
  match position (λ '(n, v), bool_decide (n = name) && bool_decide (v = value)) STATIC_BYTES with
  | Some i => encode_int (i + 1) 7 0x80
  | None =>
      match position (λ '(n, _), bool_decide (n = name)) STATIC_BYTES with
      | Some i => a ← encode_int (i + 1) 4 0x00; b ← encode_string value true; Some (a ++ b)
      | None => a ← encode_string name true; b ← encode_string value true; Some (0x00 :: a ++ b)
      end
  end.

(** [encode_response]. *)
Fixpoint encode_response (headers : list (list Z * list Z)) : option (list Z) :=
  match headers with
  | [] => Some []
  | h :: headers => a ← encode_header h; b ← encode_response headers; Some (a ++ b)
  end.

(** ** Integers *)

Lemma octet_facts b :
  is_u8 b → (Z.land b 0x7f = b mod 128) ∧ (Z.land b 0x80 =? 0) = (b <? 128).
Proof.
  intros Hb. split; [by apply (land_ones_mod b 7)|].
  apply eqb_prop. revert b Hb. apply (u8_forall (λ b, Bool.eqb _ _)). by vm_compute.
Qed.

Lemma continuation_octet v : 0 ≤ v → Z.lor (Z.land (v mod 2 ^ 8) 0x7f) 0x80 = 128 + v mod 128.
Proof.
  intros Hv. rewrite (land_ones_mod _ 7) by done. change (2 ^ 7) with 128.
  replace ((v mod 2 ^ 8) mod 128) with (v mod 128).
  - rewrite Z.lor_comm. apply (lor_shiftl_add 1 (v mod 128) 7); [lia|]. apply Z.mod_pos_bound. lia.
  - change (2 ^ 8) with (128 * 2). rewrite Z.rem_mul_r by lia.
    rewrite (Z.mul_comm 128 (_ mod 2)), Z_mod_plus_full, Z.mod_mod by lia. done.
Qed.

Lemma encode_int_loop_total fuel : ∀ v,
  0 ≤ v < 2 ^ (7 * Z.of_nat fuel) → (0 < fuel)%nat →
  ∃ o, encode_int_loop fuel v = Some o ∧ (length o ≤ fuel)%nat ∧ 1 ≤ zlen o ∧ is_bytes o.
Proof.
  induction fuel as [|fuel IH]; intros v Hv Hf; [lia|]. cbn [encode_int_loop].
  assert (Hmod : ∀ a, is_u8 (a mod 2 ^ 8)).
  { intros a. unfold is_u8, U8_MAX. pose proof (Z.mod_pos_bound a (2 ^ 8)). lia. }
  destruct (Z.leb_spec 128 v) as [Hbig|].
  - replace (7 * Z.of_nat (S fuel)) with (7 + 7 * Z.of_nat fuel) in Hv by lia.
    rewrite Z.pow_add_r in Hv by lia. change (2 ^ 7) with 128 in Hv.
    destruct (IH (Z.shiftr v 7)) as (o & -> & Ho & H1 & Hb).
    + rewrite Z.shiftr_div_pow2 by lia. change (2 ^ 7) with 128. split; [apply Z.div_pos; lia|].
      apply Z.div_lt_upper_bound; lia.
    + destruct fuel; [simpl in Hv; lia|lia].
    + eexists. split; [done|]. split_and!; [simpl; lia|rewrite zlen_cons; lia|].
      constructor; [|done]. rewrite continuation_octet by lia. unfold is_u8, U8_MAX.
      pose proof (Z.mod_pos_bound v 128). lia.
  - eexists. split; [done|]. split_and!; [simpl; lia|done|]. constructor; [apply Hmod|constructor].
Qed.

(** What the loops write and read. *)
Lemma int_loop_roundtrip fuel : ∀ v o fuel' pre rest value m,
  encode_int_loop fuel v = Some o → 0 ≤ v → 0 ≤ m ≤ 63 → 0 ≤ value → value + v * 2 ^ m ≤ U64_MAX →
  (length o ≤ fuel')%nat →
  decode_int_loop fuel' (pre ++ o ++ rest) value m (zlen pre) = Some (value + v * 2 ^ m, zlen pre + zlen o).
Proof.
  induction fuel as [|fuel IH]; intros v o fuel' pre rest value m Ho Hv Hm Hval Hmax Hf; [done|].
  cbn [encode_int_loop] in Ho. assert (Hpm : 0 < 2 ^ m) by (apply Z.pow_pos_nonneg; lia).
  assert (Hshr : ∀ low, 0 ≤ low → low * 2 ^ m ≤ U64_MAX →
    (64 <=? m) || (Z.shiftr U64_MAX m <? low) = false ∧ u64_shl low m = low * 2 ^ m).
  { intros low Hlow Hl. split.
    - rewrite (proj2 (Z.leb_gt _ _)), (proj2 (Z.ltb_ge _ _)); [done| |lia].
      rewrite Z.shiftr_div_pow2 by lia. apply Z.div_le_lower_bound; lia.
    - unfold u64_shl. rewrite Z.shiftl_mul_pow2 by lia. apply Z.mod_small. unfold U64_MAX in Hl. nia. }
  destruct (Z.leb_spec 128 v) as [Hbig|Hsmall].
  - destruct (encode_int_loop fuel (Z.shiftr v 7)) as [o'|] eqn:Ho'; [|done]. injection Ho as <-.
    destruct fuel' as [|fuel']; [simpl in Hf; lia|]. cbn [app decode_int_loop]. rewrite get_app_mid. cbv zeta.
    rewrite continuation_octet by lia. pose proof (Z.mod_pos_bound v 128 ltac:(lia)) as Hr.
    pose proof (Z.div_mod v 128 ltac:(lia)) as Hdm.
    destruct (octet_facts (128 + v mod 128)) as [-> ->]; [unfold is_u8, U8_MAX; lia|].
    replace ((128 + v mod 128) mod 128) with (v mod 128) by (apply (Z.mod_unique _ _ 1); lia).
    rewrite (proj2 (Z.ltb_ge (128 + v mod 128) 128)) by lia.
    destruct (Hshr (v mod 128)) as [-> ->]; [lia|nia|].
    rewrite (proj2 (Z.ltb_ge U64_MAX _)) by nia.
    assert (Hm7 : m + 7 ≤ 63).
    { destruct (Z.le_gt_cases (m + 7) 63); [done|]. exfalso. assert (2 ^ 57 ≤ 2 ^ m) by (apply Z.pow_le_mono_r; lia).
      unfold U64_MAX in Hmax. nia. }
    rewrite (proj2 (Z.ltb_ge 63 _)) by lia.
    rewrite Z.shiftr_div_pow2 in Ho' by lia. change (2 ^ 7) with 128 in Ho'.
    replace (pre ++ (128 + v mod 128) :: o' ++ rest) with ((pre ++ [128 + v mod 128]) ++ o' ++ rest) by (by rewrite <-app_assoc).
    replace (zlen pre + 1) with (zlen (pre ++ [128 + v mod 128])) by (rewrite zlen_app; reflexivity).
    assert (Hp7 : 2 ^ (m + 7) = 2 ^ m * 128) by (rewrite Z.pow_add_r by lia; done).
    rewrite (IH (v / 128) o' fuel'); [|done|apply Z.div_pos; lia|lia|nia| |simpl in Hf; lia].
    + rewrite zlen_app. change (zlen [128 + v mod 128]) with 1. rewrite zlen_cons. f_equal. f_equal; [|lia].
      rewrite Hp7. nia.
    + rewrite Hp7. nia.
  - injection Ho as <-. destruct fuel' as [|fuel']; [simpl in Hf; lia|]. cbn [app decode_int_loop].
    rewrite get_app_mid. cbv zeta. rewrite Z.mod_small by lia.
    destruct (octet_facts v) as [-> ->]; [unfold is_u8, U8_MAX; lia|]. rewrite Z.mod_small by lia.
    rewrite (proj2 (Z.ltb_lt v 128)) by lia. destruct (Hshr v) as [-> ->]; [lia|nia|].
    rewrite (proj2 (Z.ltb_ge U64_MAX _)) by nia. done.
Qed.

Lemma lor_prefix hi x p : 0 ≤ p → hi mod 2 ^ p = 0 → 0 ≤ x < 2 ^ p → Z.lor hi x = hi + x.
Proof. intros Hp Hhi Hx. rewrite Z.lor_comm. by apply lor_add_disjoint with p. Qed.

(** The first octet of an encoded integer, and its decoding. *)
Lemma int_roundtrip v p hi :
  1 ≤ p ≤ 8 → 0 ≤ v ≤ U64_MAX → is_u8 hi → hi mod 2 ^ p = 0 →
  ∃ x o, encode_int v p hi = Some (hi + x :: o) ∧ 0 ≤ x < 2 ^ p ∧ (is_bytes (hi + x :: o) ∧ zlen o ≤ 10) ∧
    (∀ rest, decode_int ((hi + x :: o) ++ rest) p = Some (v, zlen (hi + x :: o))) ∧
    (v < 2 ^ p - 1 → x = v ∧ o = []).
Proof.
  intros Hp Hv Hhi Hmod. unfold encode_int. cbv zeta. rewrite Z.shiftl_mul_pow2, Z.mul_1_l by lia.
  assert (Hpow : 2 ≤ 2 ^ p ≤ 256).
  { split; [apply (Z.pow_le_mono_r 2 1); lia|apply (Z.pow_le_mono_r 2 p 8); lia]. }
  assert (Hu8 : ∀ x, 0 ≤ x < 2 ^ p → is_u8 (hi + x)).
  { intros x Hx. unfold is_u8, U8_MAX in *. split; [lia|].
    assert (256 mod 2 ^ p = 0) as H256.
    { change 256 with (2 ^ 8). replace (2 ^ 8) with (2 ^ (8 - p) * 2 ^ p) by (rewrite <-Z.pow_add_r by lia; f_equal; lia).
      apply Z.mod_mul. lia. }
    pose proof (Z.div_mod hi (2 ^ p) ltac:(lia)). pose proof (Z.div_mod 256 (2 ^ p) ltac:(lia)).
    assert (hi / 2 ^ p < 256 / 2 ^ p) by nia. nia. }
  assert (Hdec : ∀ x o rest, 0 ≤ x < 2 ^ p → decode_int ((hi + x :: o) ++ rest) p =
    if x <? 2 ^ p - 1 then Some (x, 1) else decode_int_loop 11 ((hi + x :: o) ++ rest) x 0 1).
  { intros x o rest Hx. unfold decode_int.
    rewrite (proj2 (Z.leb_le 1 p)), (proj2 (Z.leb_le p 8)) by lia. cbn [andb negb]. cbv zeta.
    cbn [app]. rewrite get_cons_0, Z.shiftl_mul_pow2, Z.mul_1_l by lia.
    rewrite (land_ones_mod _ p) by lia. rewrite Z.add_mod, Hmod, Z.add_0_l, Z.mod_mod, (Z.mod_small x) by lia. done. }
  destruct (Z.ltb_spec v (2 ^ p - 1)) as [Hsmall|Hbig].
  - rewrite Z.mod_small, (lor_prefix hi v p) by lia. exists v, []. split_and!; [done|lia|lia| |done| |done].
    + constructor; [apply Hu8; lia|constructor].
    + intros rest. rewrite Hdec by lia. by rewrite (proj2 (Z.ltb_lt _ _)) by lia.
  - destruct (encode_int_loop_total 10 (v - (2 ^ p - 1))) as (o & Ho & Hlen & _ & Hb); [unfold U64_MAX in Hv; lia|lia|].
    rewrite Ho, Z.mod_small, (lor_prefix hi (2 ^ p - 1) p) by lia. exists (2 ^ p - 1), o.
    split_and!; [done|lia|lia| |unfold zlen; lia| |lia].
    + constructor; [apply Hu8; lia|done].
    + intros rest. rewrite Hdec by lia. rewrite (proj2 (Z.ltb_ge _ _)) by lia.
      pose proof (int_loop_roundtrip 10 (v - (2 ^ p - 1)) o 11 [hi + (2 ^ p - 1)] rest (2 ^ p - 1) 0 Ho) as H.
      change (2 ^ 0) with 1 in H. change (zlen [hi + (2 ^ p - 1)]) with 1 in H.
      change ([hi + (2 ^ p - 1)] ++ o ++ rest) with ((hi + (2 ^ p - 1) :: o) ++ rest) in H.
      rewrite H by lia. rewrite zlen_cons. do 2 f_equal; lia.
Qed.

(** ** Strings *)

Lemma decode_string_huff s enc o rest :
  is_u8 128 → zlen o + zlen enc + zlen rest ≤ USIZE_MAX →
  ∀ x o', o = 128 + x :: o' → 0 ≤ x < 2 ^ 7 → (∀ r, decode_int (o ++ r) 7 = Some (zlen enc, zlen o)) →
  Huffman.decode enc = Ok s →
  decode_string (o ++ enc ++ rest) = Ok (s, zlen o + zlen enc).
Proof.
  intros _ Hz x o' -> Hx Hdec Hs. unfold decode_string. rewrite Hdec. cbn [app]. rewrite get_cons_0.
  change (2 ^ 7) with 128 in Hx. destruct (octet_facts (128 + x)) as [_ ->]; [unfold is_u8, U8_MAX; lia|].
  rewrite (proj2 (Z.ltb_ge _ _)) by lia. cbn [negb]. cbv zeta. unfold checked_add.
  pose proof (zlen_nonneg rest). rewrite (proj2 (Z.leb_le _ _)) by lia.
  change ((128 + x) :: o' ++ enc ++ rest) with ((128 + x :: o') ++ enc ++ rest).
  by rewrite get_range_app, Hs.
Qed.

Lemma decode_string_plain s o rest :
  zlen o + zlen s + zlen rest ≤ USIZE_MAX →
  ∀ x o', o = 0 + x :: o' → 0 ≤ x < 2 ^ 7 → (∀ r, decode_int (o ++ r) 7 = Some (zlen s, zlen o)) →
  decode_string (o ++ s ++ rest) = Ok (s, zlen o + zlen s).
Proof.
  intros Hz x o' -> Hx Hdec. unfold decode_string. rewrite Hdec. cbn [app]. rewrite get_cons_0.
  change (2 ^ 7) with 128 in Hx. destruct (octet_facts (0 + x)) as [_ ->]; [unfold is_u8, U8_MAX; lia|].
  rewrite (proj2 (Z.ltb_lt _ _)) by lia. cbn [negb]. cbv zeta. unfold checked_add.
  pose proof (zlen_nonneg rest). rewrite (proj2 (Z.leb_le _ _)) by lia.
  change ((0 + x) :: o' ++ s ++ rest) with ((0 + x :: o') ++ s ++ rest).
  by rewrite get_range_app.
Qed.

Lemma string_roundtrip s h :
  is_bytes s → zlen s ≤ USIZE_MAX →
  ∃ o, encode_string s h = Some o ∧ 1 ≤ zlen o ≤ zlen s + 11 ∧ is_bytes o ∧
    ∀ rest, zlen o + zlen rest ≤ USIZE_MAX → decode_string (o ++ rest) = Ok (s, zlen o).
Proof.
  intros Hs Hz. unfold encode_string. cbv zeta. pose proof (zlen_nonneg s).
  assert (Hplain : ∃ o, (n ← encode_int (zlen s) 7 0; Some (n ++ s)) = Some o ∧ 1 ≤ zlen o ≤ zlen s + 11 ∧ is_bytes o ∧
    ∀ rest, zlen o + zlen rest ≤ USIZE_MAX → decode_string (o ++ rest) = Ok (s, zlen o)).
  { destruct (int_roundtrip (zlen s) 7 0) as (x & o & -> & Hx & [Hb Hol] & Hdec & _);
      [lia|unfold USIZE_MAX, U64_MAX in *; lia|by vm_compute|done|].
    exists ((0 + x :: o) ++ s). cbn [mbind option_bind]. pose proof (zlen_nonneg o).
    split_and!; [done|rewrite zlen_app, zlen_cons; lia|rewrite zlen_app, zlen_cons; lia|by apply Forall_app|].
    intros rest Hr. rewrite zlen_app in *. rewrite <-app_assoc.
    eapply decode_string_plain; [lia|done|done|done]. }
  destruct (h && _); [|done].
  destruct (Huffman.decode_encode_lemma s Hs Hz) as (enc & Henc & Hd & Hbe). rewrite Henc. cbn [mbind option_bind].
  destruct (Z.ltb_spec (zlen enc) (zlen s)); [|done]. pose proof (zlen_nonneg enc).
  destruct (int_roundtrip (zlen enc) 7 128) as (x & o & -> & Hx & [Hb Hol] & Hdec & _);
    [lia|unfold USIZE_MAX, U64_MAX in *; lia|by vm_compute|done|].
  exists ((128 + x :: o) ++ enc). cbn [mbind option_bind]. pose proof (zlen_nonneg o).
  split_and!; [done|rewrite zlen_app, zlen_cons; lia|rewrite zlen_app, zlen_cons; lia|by apply Forall_app|].
  intros rest Hr. rewrite zlen_app in *. rewrite <-app_assoc.
  eapply decode_string_huff; [by vm_compute|lia|done|done|done|done].
Qed.

(** ** Responses *)

Lemma position_spec {A} (p : A → bool) l i : position p l = Some i → ∃ x, get l i = Some x ∧ p x = true.
Proof.
  revert i. induction l as [|y l IH]; intros i; simpl; [done|]. destruct (p y) eqn:Hy.
  - intros [= <-]. by exists y.
  - destruct (position p l) as [j|]; [|done]. intros [= <-]. destruct (IH j eq_refl) as (x & Hx & Hp).
    exists x. pose proof (get_Some_lt _ _ _ Hx). rewrite get_cons_pos by lia. by replace (j + 1 - 1) with j by lia.
Qed.

Lemma lookup_static d i x : get STATIC_BYTES i = Some x → Decoder_lookup d (i + 1) = Some x.
Proof.
  intros Hx. pose proof (get_Some_lt _ _ _ Hx). unfold Decoder_lookup.
  rewrite (proj2 (Z.eqb_neq _ _)), (proj2 (Z.leb_le _ _)) by lia. by replace (i + 1 - 1) with i by lia.
Qed.

Lemma slice_from_app {E} (a b : list Z) : slice_from (E:=E) (a ++ b) (zlen a) = Ok b.
Proof.
  unfold slice_from. rewrite zlen_app. rewrite <-(app_nil_r b) at 1. by rewrite get_range_app.
Qed.

(** A header as the decoder accounts it. *)
Definition header_size (h : list Z * list Z) : Z := zlen h.1 + zlen h.2 + 32.
Definition headers_size (hs : list (list Z * list Z)) : Z := foldr (λ h n, header_size h + n) 0 hs.
Definition header_bytes (h : list Z * list Z) : Prop := is_bytes h.1 ∧ is_bytes h.2.

Lemma account_ok sz n v : sz + header_size (n, v) ≤ MAX_DECODED_HEADER_LIST → account sz n v = Some (sz + header_size (n, v)).
Proof.
  unfold header_size, MAX_DECODED_HEADER_LIST, account, checked_add. simpl. intros H.
  rewrite !(proj2 (Z.leb_le _ _)) by (unfold USIZE_MAX; lia). rewrite (proj2 (Z.leb_le _ _)) by (unfold MAX_DECODED_HEADER_LIST; lia). done.
Qed.

(** The three leading bits of an octet below 16. *)
Lemma literal_octet x : 0 ≤ x < 16 → Z.land x 0x80 = 0 ∧ Z.land x 0x40 = 0 ∧ Z.land x 0x20 = 0.
Proof.
  intros Hx. assert (H : forallb (λ n, (Z.land (Z.of_nat n) 0x80 =? 0) && (Z.land (Z.of_nat n) 0x40 =? 0) &&
    (Z.land (Z.of_nat n) 0x20 =? 0)) (seq 0 16) = true) by by vm_compute.
  rewrite forallb_forall in H. specialize (H (Z.to_nat x) ltac:(apply in_seq; lia)).
  rewrite Z2Nat.id in H by lia. bool_prop. done.
Qed.

Lemma header_size_pos h : 32 ≤ header_size h.
Proof. unfold header_size. pose proof (zlen_nonneg h.1). pose proof (zlen_nonneg h.2). lia. Qed.

Lemma headers_size_nonneg hs : 0 ≤ headers_size hs.
Proof. induction hs as [|h hs IH]; simpl; [lia|]. pose proof (header_size_pos h). lia. Qed.

(** One header of a response is decoded to itself. *)
Lemma header_roundtrip h :
  header_bytes h → header_size h ≤ MAX_DECODED_HEADER_LIST →
  ∃ first o, encode_header h = Some (first :: o) ∧ (is_bytes (first :: o) ∧ zlen (first :: o) ≤ header_size h) ∧
    ∀ rest b, zlen (first :: o) + zlen rest ≤ USIZE_MAX → decoded_size b + header_size h ≤ MAX_DECODED_HEADER_LIST →
      decode_step first ((first :: o) ++ rest) b =
      Ok (emit b (bdec b) (decoded_size b + header_size h) h.1 h.2, zlen (first :: o)).
Proof.
  destruct h as [name value]. intros [Hn Hv] Hsz. unfold encode_header.
  assert (Hlen : zlen name ≤ USIZE_MAX ∧ zlen value ≤ USIZE_MAX).
  { unfold header_size, MAX_DECODED_HEADER_LIST in Hsz. simpl in *. unfold USIZE_MAX.
    pose proof (zlen_nonneg name). pose proof (zlen_nonneg value). lia. }
  destruct (string_roundtrip name true Hn ltac:(lia)) as (on & Hon & Hon1 & Hnb & Hdn).
  destruct (string_roundtrip value true Hv ltac:(lia)) as (ov & Hov & Hov1 & Hvb & Hdv).
  rewrite Hon, Hov. simpl fst. simpl snd in *.
  assert (Hstatic : zlen STATIC_BYTES = 61) by done.
  destruct (position _ STATIC_BYTES) as [i|] eqn:Hp1;
    [|clear Hp1; destruct (position _ STATIC_BYTES) as [i|] eqn:Hp2].
  - apply position_spec in Hp1 as ([n v] & Hx & Heq). bool_prop.
    pose proof (get_Some_lt _ _ _ Hx) as Hi. apply bool_decide_eq_true in H as ->. apply bool_decide_eq_true in H0 as ->.
    destruct (int_roundtrip (i + 1) 7 128) as (x & o & -> & Hxr & [Hb Hol] & Hdec & _);
      [lia|unfold U64_MAX; lia|by vm_compute|done|].
    pose proof (zlen_nonneg name). pose proof (zlen_nonneg value).
    eexists _, o. split_and!; [done|done|rewrite zlen_cons; unfold header_size; simpl; lia|]. intros rest b _ Hacc. unfold decode_step. cbv zeta.
    change (2 ^ 7) with 128 in Hxr. destruct (octet_facts (128 + x)) as [_ ->]; [unfold is_u8, U8_MAX; lia|].
    rewrite (proj2 (Z.ltb_ge _ _)) by lia. cbn [negb]. rewrite Hdec, (lookup_static _ _ _ Hx), account_ok by done. done.
  - apply position_spec in Hp2 as ([n v] & Hx & Heq). apply bool_decide_eq_true in Heq as ->.
    pose proof (get_Some_lt _ _ _ Hx) as Hi.
    destruct (int_roundtrip (i + 1) 4 0) as (x & o & -> & Hxr & [Hb Hol] & Hdec & _);
      [lia|unfold U64_MAX; lia|by vm_compute|done|]. cbn [mbind option_bind app].
    eexists _, (o ++ ov). pose proof (zlen_nonneg name).
    split_and!; [done|by apply (Forall_app _ (0 + x :: o))|
      rewrite zlen_cons, zlen_app; unfold header_size; simpl; lia|].
    intros rest b Hr Hacc. unfold decode_step. cbv zeta. change (2 ^ 4) with 16 in Hxr.
    destruct (literal_octet x Hxr) as (H1 & H2 & H3). rewrite Z.add_0_l in *. rewrite H1, H2, H3. cbn [Z.eqb negb].
    unfold read_literal. cbn [app].
    replace (x :: (o ++ ov) ++ rest) with ((x :: o) ++ (ov ++ rest)) by (cbn [app]; by rewrite <-app_assoc).
    rewrite Hdec, (proj2 (Z.eqb_neq _ _)), (lookup_static _ _ _ Hx) by lia. cbn [obind].
    rewrite slice_from_app. cbn [obind]. rewrite zlen_cons, zlen_app in Hr. pose proof (zlen_nonneg o).
    rewrite Hdv by lia. cbn [obind lift]. rewrite account_ok by done. do 2 f_equal.
    rewrite !zlen_cons, zlen_app. lia.
  - cbn [mbind option_bind]. eexists 0, (on ++ ov). split_and!; [done| | |].
    { constructor; [by vm_compute|by apply Forall_app]. }
    { rewrite zlen_cons, zlen_app. unfold header_size. simpl. lia. }
    intros rest b Hr Hacc. unfold decode_step. cbv zeta. change (Z.land 0 _) with 0. cbn [Z.eqb negb].
    unfold read_literal. change (decode_int ((0 :: on ++ ov) ++ rest) 4) with (Some (0, 1)). cbv iota beta.
    change (0 =? 0) with true. cbv iota.
    change ((0 :: on ++ ov) ++ rest) with ([0] ++ ((on ++ ov) ++ rest)).
    change 1 with (zlen [0]) at 1. rewrite slice_from_app. cbn [obind]. rewrite <-app_assoc.
    rewrite zlen_cons, zlen_app in Hr. rewrite Hdn by (rewrite zlen_app; lia). cbn [obind].
    replace (1 + zlen on) with (zlen ([0] ++ on)) by (by rewrite zlen_app).
    change ([0] ++ on ++ ov ++ rest) with (([0] ++ on) ++ ov ++ rest).
    rewrite slice_from_app. cbn [obind]. rewrite Hdv by lia. cbn [obind lift]. rewrite account_ok by done.
    do 2 f_equal. rewrite zlen_app. change (zlen [0]) with 1. rewrite zlen_cons, zlen_app. lia.
Qed.

Lemma response_loop hs : ∀ o fuel b,
  Forall header_bytes hs → encode_response hs = Some o → (length o < fuel)%nat → zlen o ≤ USIZE_MAX →
  0 ≤ decoded_size b → decoded_size b + headers_size hs ≤ MAX_DECODED_HEADER_LIST →
  decode_loop fuel o b =
    Ok (mkBlock (bdec b) (bout b ++ hs) (decoded_size b + headers_size hs) (size_updates b) (first_size_update b)).
Proof.
  induction hs as [|h hs IH]; intros o fuel b Hb Ho Hf Hz Hd Hs;
    (destruct fuel as [|fuel]; [lia|]); cbn [encode_response] in Ho; cbn [decode_loop].
  - injection Ho as <-. simpl. rewrite app_nil_r, Z.add_0_r. by destruct b.
  - apply Forall_cons in Hb as [Hb1 Hb]. cbn [headers_size foldr] in Hs. fold (headers_size hs) in Hs.
    pose proof (headers_size_nonneg hs). pose proof (header_size_pos h).
    destruct (header_roundtrip h Hb1 ltac:(lia)) as (first & oh & Hoh & _ & Hstep).
    rewrite Hoh in Ho. cbn [mbind option_bind] in Ho.
    destruct (encode_response hs) as [o'|] eqn:Ho'; [|done]. cbn [mbind option_bind] in Ho. injection Ho as <-.
    cbn [app] in Hf, Hz |- *. rewrite get_cons_0. change (first :: oh ++ o') with ((first :: oh) ++ o') in *.
    rewrite zlen_app in Hz. rewrite Hstep by lia. cbn [obind]. rewrite slice_from_app. cbn [obind].
    rewrite (IH o' fuel); [|done|done|rewrite length_app in Hf; simpl in Hf; lia|pose proof (zlen_nonneg (first :: oh)); lia|simpl; lia|simpl; lia].
    cbn [emit bdec bout decoded_size size_updates first_size_update headers_size foldr].
    rewrite <-app_assoc. destruct h as [hn hv]. simpl app. fold (headers_size hs). f_equal. f_equal. simpl. lia.
Qed.

Lemma encode_response_total hs :
  Forall header_bytes hs → headers_size hs ≤ MAX_DECODED_HEADER_LIST →
  ∃ o, encode_response hs = Some o ∧ zlen o ≤ headers_size hs ∧ is_bytes o.
Proof.
  induction hs as [|h hs IH]; intros Hb Hs; [exists []; split_and!; [done|done|constructor]|].
  apply Forall_cons in Hb as [Hh Hb]. cbn [headers_size foldr] in *. fold (headers_size hs) in *.
  pose proof (headers_size_nonneg hs). pose proof (header_size_pos h).
  destruct (header_roundtrip h Hh ltac:(lia)) as (first & oh & Hoh & [Hob Hol] & _).
  destruct (IH Hb ltac:(lia)) as (o' & Ho' & Hl' & Hb'). cbn [encode_response]. rewrite Hoh, Ho'.
  eexists. split; [done|]. split; [|by apply (Forall_app _ (first :: oh))].
  rewrite (zlen_app (first :: oh)). lia.
Qed.

Lemma response_roundtrip_lemma d hs :
  Forall header_bytes hs → headers_size hs ≤ MAX_DECODED_HEADER_LIST →
  ∃ o, encode_response hs = Some o ∧ Decoder_decode d o = Ok (hs, d).
Proof.
  intros Hb Hs. destruct (encode_response_total hs Hb Hs) as (o & Ho & Hl & _). exists o. split; [done|].
  unfold Decoder_decode. rewrite (response_loop hs o); [done|done|done|lia| |simpl; lia|simpl; lia].
  unfold MAX_DECODED_HEADER_LIST, USIZE_MAX in *. lia.
Qed.

(** ** The dynamic table on any input *)

Definition table_size (t : list (list Z * list Z)) : Z := headers_size t.

(** The accounted size is that of the entries, and within the limits. *)
Record dec_ok (d : Decoder) : Prop := {
  ok_size : size d = table_size (dynamic d);
  ok_max : size d ≤ max_size d ≤ allowed_max_size d;
  ok_room : allowed_max_size d + MAX_DECODED_HEADER_LIST ≤ USIZE_MAX;
}.

Lemma headers_size_app a b : headers_size (a ++ b) = headers_size a + headers_size b.
Proof. induction a as [|h a IH]; simpl; [done|]. rewrite IH. lia. Qed.

(** Eviction drops entries from the old end, until the size fits; it stops at
    once when the size fits already. *)
Lemma evict_loop_spec fuel : ∀ d,
  size d = table_size (dynamic d) → 0 ≤ max_size d → (length (dynamic d) < fuel)%nat →
  ∃ t, evict_loop fuel d = Some (mkDecoder t (table_size t) (max_size d) (allowed_max_size d)) ∧
    table_size t ≤ max_size d ∧ (∃ old, dynamic d = t ++ old) ∧
    (size d ≤ max_size d → t = dynamic d).
Proof.
  induction fuel as [|fuel IH]; intros [t sz mx al] Hs Hm Hf; cbn [size dynamic max_size allowed_max_size] in *; [lia|].
  cbn [evict_loop size dynamic max_size allowed_max_size]. destruct (Z.ltb_spec mx sz) as [Hbig|Hfit].
  - induction t as [|[n v] t _] using rev_ind; [unfold table_size in Hs; simpl in Hs; lia|].
    rewrite last_snoc, removelast_last. subst sz. unfold table_size in *. rewrite headers_size_app in *.
    pose proof (headers_size_nonneg t) as Hpos.
    assert (Hentry : headers_size [(n, v)] = entry_size n v) by (unfold headers_size, header_size, entry_size; simpl; lia).
    rewrite Hentry in *. rewrite (proj2 (Z.ltb_ge _ _)) by lia.
    destruct (IH (mkDecoder t (headers_size t + entry_size n v - entry_size n v) mx al)) as (t' & -> & Ht' & [old Hold] & _);
      cbn [size dynamic max_size allowed_max_size] in *; [lia|lia|rewrite length_app in Hf; simpl in Hf; lia|].
    exists t'. split_and!; [done|done|exists (old ++ [(n, v)]); by rewrite Hold, app_assoc|lia].
  - exists t. split_and!; [by rewrite Hs|lia|by exists []; rewrite app_nil_r|done].
Qed.

Lemma insert_spec d n v :
  dec_ok d → header_size (n, v) ≤ MAX_DECODED_HEADER_LIST →
  ∃ d', Decoder_insert d n v = Some d' ∧ dec_ok d' ∧ allowed_max_size d' = allowed_max_size d ∧
    max_size d' = max_size d ∧ (∃ old, (n, v) :: dynamic d = dynamic d' ++ old) ∧
    (table_size ((n, v) :: dynamic d) ≤ max_size d → dynamic d' = (n, v) :: dynamic d).
Proof.
  intros [Hs Hm Hr] Hh. unfold Decoder_insert. cbv zeta. unfold checked_add.
  assert (He : entry_size n v = header_size (n, v)) by done. pose proof (header_size_pos (n, v)).
  rewrite (proj2 (Z.leb_le _ _)) by lia. unfold Decoder_evict.
  pose proof (headers_size_nonneg (dynamic d)). unfold table_size in *.
  destruct (evict_loop_spec (S (length ((n, v) :: dynamic d))) (mkDecoder ((n, v) :: dynamic d) (size d + entry_size n v) (max_size d) (allowed_max_size d)))
    as (t & Hev & Ht & Hold & Hkeep); cbn [size dynamic max_size allowed_max_size] in *.
  - rewrite Hs. unfold table_size. cbn [headers_size foldr]. fold (headers_size (dynamic d)). lia.
  - lia.
  - lia.
  - eexists. split; [exact Hev|]. cbn [allowed_max_size max_size dynamic]. split_and!; try done.
    + constructor; cbn [size dynamic max_size allowed_max_size]; [done|lia|done].
    + intros Hfit. apply Hkeep. rewrite Hs. cbn [headers_size foldr] in Hfit. fold (headers_size (dynamic d)) in Hfit. lia.
Qed.

Lemma set_max_spec d m :
  dec_ok d → 0 ≤ m →
  ∃ ok d', Decoder_set_max d m = Some (ok, d') ∧ dec_ok d' ∧ allowed_max_size d' = allowed_max_size d ∧
    (ok = (m <=? allowed_max_size d)) ∧ (ok = false → d' = d).
Proof.
  intros Hd Hm. pose proof Hd as [Hs Hx Hr]. unfold Decoder_set_max. destruct (Z.ltb_spec (allowed_max_size d) m).
  - exists false, d. split_and!; try done. by rewrite (proj2 (Z.leb_gt _ _)) by lia.
  - unfold Decoder_evict.
    destruct (evict_loop_spec (S (length (dynamic d))) (mkDecoder (dynamic d) (size d) m (allowed_max_size d)))
      as (t & Hev & Ht & _); cbn [size dynamic max_size allowed_max_size] in *; [done|lia|lia|].
    rewrite Hev. eexists true, _. split; [done|]. split_and!; try done.
    by rewrite (proj2 (Z.leb_le _ _)) by lia.
Qed.

Lemma decode_int_loop_bounds fuel : ∀ buf value m i v n,
  is_bytes buf → 0 ≤ i → 0 ≤ m → 0 ≤ value → decode_int_loop fuel buf value m i = Some (v, n) →
  i + 1 ≤ n ≤ zlen buf ∧ 0 ≤ v ≤ U64_MAX.
Proof.
  induction fuel as [|fuel IH]; intros buf value m i v n Hb Hi Hm Hv; cbn [decode_int_loop]; [done|].
  destruct (get buf i) as [b|] eqn:Hg; [|done]. pose proof (get_Some_lt _ _ _ Hg). cbv zeta.
  destruct (_ || _); [done|].
  assert (0 ≤ u64_shl (Z.land b 127) m) by (unfold u64_shl; apply Z.mod_pos_bound; lia).
  destruct (Z.ltb_spec U64_MAX (value + u64_shl (Z.land b 127) m)); [done|].
  destruct (_ =? 0); [intros [= <- <-]; lia|]. destruct (_ <? _); [done|].
  intros H'. apply IH in H'; [lia|done|lia..].
Qed.

Lemma decode_int_bounds buf p v n :
  is_bytes buf → decode_int buf p = Some (v, n) → 1 ≤ n ≤ zlen buf ∧ 0 ≤ v ≤ U64_MAX.
Proof.
  intros Hb. unfold decode_int. destruct (negb _) eqn:Hp; [done|]. bool_prop. cbv zeta.
  destruct (get buf 0) as [first|] eqn:Hg; [|done]. pose proof (get_Some_lt _ _ _ Hg).
  pose proof (Forall_get _ _ _ _ Hb Hg) as Hf. unfold is_u8, U8_MAX in Hf.
  assert (Hmask : 0 ≤ Z.land first (Z.shiftl 1 p - 1) ≤ 255).
  { rewrite Z.shiftl_mul_pow2, Z.mul_1_l by lia. rewrite (land_ones_mod _ p) by lia.
    assert (0 < 2 ^ p) by (apply Z.pow_pos_nonneg; lia).
    pose proof (Z.mod_pos_bound first (2 ^ p)). pose proof (Z.mod_le first (2 ^ p)). lia. }
  destruct (_ <? _).
  - intros [= <- <-]. unfold U64_MAX. lia.
  - intros H'. apply decode_int_loop_bounds in H'; [lia|done|lia..].
Qed.

Lemma decode_string_safe buf :
  is_bytes buf →
  match decode_string buf with Ok (_, e) => 1 ≤ e ≤ zlen buf | Err _ => True | _ => False end.
Proof.
  intros Hb. unfold decode_string. destruct (get buf 0) as [first|]; [|done]. cbv zeta.
  destruct (decode_int buf 7) as [[len n]|] eqn:Hi; [|done].
  destruct (decode_int_bounds _ _ _ _ Hb Hi) as [Hn Hl].
  destruct (checked_add n len) as [e|] eqn:He; [|done]. unfold checked_add in He.
  destruct (_ <=? _); [|done]. injection He as <-.
  destruct (get_range buf n (n + len)) as [raw|] eqn:Hr; [|done].
  apply get_range_Some in Hr as (? & ? & _). destruct (negb _); cbn [obind]; [|lia].
  pose proof (Huffman.decode_total_lemma raw) as Hd. destruct (Huffman.decode raw); cbn [obind]; done || lia.
Qed.

Lemma slice_from_ok {E} buf n : 0 ≤ n ≤ zlen buf → slice_from (E:=E) buf n = Ok (drop (Z.to_nat n) buf).
Proof.
  intros Hn. unfold slice_from. rewrite get_range_is_Some by lia. f_equal. apply take_ge.
  rewrite length_drop. unfold zlen. lia.
Qed.

Lemma read_literal_safe d buf p :
  is_bytes buf →
  match read_literal d buf p with Ok (_, _, e) => 1 ≤ e ≤ zlen buf | Err _ => True | _ => False end.
Proof.
  intros Hb. unfold read_literal. destruct (decode_int buf p) as [[idx pos]|] eqn:Hi; [|done].
  destruct (decode_int_bounds _ _ _ _ Hb Hi) as [Hn Hl].
  assert (Hdrop : ∀ k, 0 ≤ k ≤ zlen buf → is_bytes (drop (Z.to_nat k) buf) ∧ zlen (drop (Z.to_nat k) buf) = zlen buf - k).
  { intros k Hk. split; [by apply Forall_drop|]. unfold zlen. rewrite length_drop. unfold zlen in Hk. lia. }
  set (nm := if idx =? 0 then _ else _).
  assert (Hnm : match nm with Ok (_, q) => 1 ≤ q ≤ zlen buf | Err _ => True | _ => False end).
  { unfold nm. destruct (idx =? 0).
    - rewrite slice_from_ok by lia. cbn [obind]. destruct (Hdrop pos ltac:(lia)) as [Hb' Hl'].
      pose proof (decode_string_safe _ Hb') as Hs. destruct (decode_string _) as [[n u]| | |]; cbn [obind]; done || lia.
    - destruct (Decoder_lookup d idx) as [[n ?]|]; done || lia. }
  destruct nm as [[name q]| | |]; cbn [obind]; try done.
  rewrite slice_from_ok by lia. cbn [obind]. destruct (Hdrop q ltac:(lia)) as [Hb' Hl'].
  pose proof (decode_string_safe _ Hb') as Hs. destruct (decode_string _) as [[n u]| | |]; cbn [obind]; done || lia.
Qed.

(** The state between two headers of a block. *)
Record block_ok (d0 : Decoder) (b : block) : Prop := {
  bk_dec : dec_ok (bdec b);
  bk_allowed : allowed_max_size (bdec b) = allowed_max_size d0;
  bk_size : headers_size (bout b) = decoded_size b;
  bk_max : 0 ≤ decoded_size b ≤ MAX_DECODED_HEADER_LIST;
}.

Definition table_kept (d0 d : Decoder) : Prop := dec_ok d ∧ allowed_max_size d = allowed_max_size d0.

Lemma account_spec sz n v sz' :
  account sz n v = Some sz' → sz' = sz + header_size (n, v) ∧ sz' ≤ MAX_DECODED_HEADER_LIST.
Proof.
  unfold account, checked_add. destruct (_ <=? USIZE_MAX); [|done]. destruct (Z.leb_spec (sz + (zlen n + zlen v + 32)) MAX_DECODED_HEADER_LIST); [|done].
  intros [= <-]. split; [done|lia].
Qed.

Lemma emit_ok d0 b d sz n v :
  block_ok d0 b → dec_ok d → allowed_max_size d = allowed_max_size d0 → account (decoded_size b) n v = Some sz →
  block_ok d0 (emit b d sz n v).
Proof.
  intros [_ _ Hs Hm] Hd Ha Hacc. apply account_spec in Hacc as [-> Hle]. pose proof (header_size_pos (n, v)).
  constructor; cbn [emit bdec bout decoded_size]; [done|done| |lia]. rewrite headers_size_app, Hs. simpl. lia.
Qed.

Lemma decode_step_safe d0 first buf b :
  is_bytes buf → block_ok d0 b →
  match decode_step first buf b with
  | Ok (b', n) => block_ok d0 b' ∧ 1 ≤ n ≤ zlen buf
  | Err d => table_kept d0 d
  | _ => False
  end.
Proof.
  intros Hb Hok. pose proof Hok as [Hd Ha Hs Hm]. unfold decode_step. cbv zeta.
  assert (Herr : table_kept d0 (bdec b)) by done.
  destruct (negb _); [|destruct (negb _); [|destruct (negb _)]].
  - destruct (decode_int buf 7) as [[idx n]|] eqn:Hi; [|done]. destruct (decode_int_bounds _ _ _ _ Hb Hi) as [Hn _].
    destruct (Decoder_lookup _ idx) as [[name value]|]; [|done].
    destruct (account _ name value) as [sz|] eqn:Hacc; [|done]. split; [by eapply emit_ok|done].
  - pose proof (read_literal_safe (bdec b) buf 6 Hb) as Hl.
    destruct (read_literal (bdec b) buf 6) as [[[name value] n]| | |]; cbn [lift]; try done.
    destruct (account _ name value) as [sz|] eqn:Hacc; [|done]. pose proof (account_spec _ _ _ _ Hacc) as [Hsz Hle].
    destruct (insert_spec (bdec b) name value Hd ltac:(lia)) as (d' & -> & Hd' & Ha' & _).
    split; [eapply emit_ok; try done; congruence|done].
  - destruct (decode_int buf 5) as [[m n]|] eqn:Hi; [|done]. destruct (decode_int_bounds _ _ _ _ Hb Hi) as [Hn Hmr].
    destruct (_ || _); [done|].
    destruct (set_max_spec (bdec b) m Hd ltac:(lia)) as (ok & d' & -> & Hd' & Ha' & _ & Hf).
    destruct ok; [|by rewrite Hf]. split; [|done]. constructor; cbn [bdec bout decoded_size]; done || congruence.
  - pose proof (read_literal_safe (bdec b) buf 4 Hb) as Hl.
    destruct (read_literal (bdec b) buf 4) as [[[name value] n]| | |]; cbn [lift]; try done.
    destruct (account _ name value) as [sz|] eqn:Hacc; [|done]. split; [by eapply emit_ok|done].
Qed.

Lemma decode_loop_safe d0 fuel : ∀ buf b,
  is_bytes buf → block_ok d0 b → (length buf < fuel)%nat →
  match decode_loop fuel buf b with
  | Ok b' => block_ok d0 b'
  | Err d => table_kept d0 d
  | _ => False
  end.
Proof.
  induction fuel as [|fuel IH]; intros buf b Hb Hok Hf; cbn [decode_loop]; [lia|].
  destruct (get buf 0) as [first|]; [|done].
  pose proof (decode_step_safe d0 first buf b Hb Hok) as Hs.
  destruct (decode_step first buf b) as [[b' n]| | |]; cbn [obind]; try done. destruct Hs as [Hok' Hn].
  rewrite slice_from_ok by lia. cbn [obind]. apply IH; [by apply Forall_drop|done|].
  rewrite length_drop. unfold zlen in Hn. lia.
Qed.

Lemma Decoder_decode_safe d buf :
  is_bytes buf → dec_ok d →
  match Decoder_decode d buf with
  | Ok (hs, d') => table_kept d d' ∧ headers_size hs ≤ MAX_DECODED_HEADER_LIST
  | Err d' => table_kept d d'
  | _ => False
  end.
Proof.
  intros Hb Hd. unfold Decoder_decode.
  pose proof (decode_loop_safe d (S (length buf)) buf (mkBlock d [] 0 0 None) Hb) as Hl.
  assert (Hok : block_ok d (mkBlock d [] 0 0 None)) by (constructor; simpl; done).
  specialize (Hl Hok ltac:(lia)). destruct (decode_loop _ _ _) as [b| | |]; cbn [obind]; try done.
  destruct Hl as [? ? Hs Hm]. split; [done|lia].
Qed.
