(* ===== verification/H2Frame.v ===== *)
(** * HTTP/2 frames and header fields
    ([onetdns-http2/src/frame.rs], [wire.rs], [lib.rs])

    The nine octets of a frame header, reading and writing frames, the removal
    of padding, and the test of a header field. *)

From S2P Require Import Prelude.

Open Scope outcome_scope.

Definition FRAME_HEADER_LEN : Z := 9.
Definition DEFAULT_MAX_FRAME : Z := 16384.

(** Frame flags. *)
Definition PADDED : Z := 0x8.
Definition PRIORITY : Z := 0x20.

(** [enum H2Error]. *)
Inductive H2Error : Type := Io | Protocol | Closed | BadStatus.

(** [struct FrameHeader]. *)
Record FrameHeader : Type := mkFrameHeader {
  fh_length : Z;
  frame_type : Z;
  fh_flags : Z;
  stream_id : Z;
}.

(** [u32::from_be_bytes]. *)
Definition u32_from_be (a b c d : Z) : Z := Z.lor (Z.shiftl (u16_from_be a b) 16) (u16_from_be c d).

(** [FrameHeader::parse]: every index is below the checked length. *)
Definition FrameHeader_parse (b : list Z) : option FrameHeader :=
  if zlen b <? FRAME_HEADER_LEN then None
  else match b with
       | b0 :: b1 :: b2 :: b3 :: b4 :: b5 :: b6 :: b7 :: b8 :: _ =>
           Some {| fh_length := u32_from_be 0 b0 b1 b2; frame_type := b3; fh_flags := b4;
                   stream_id := Z.land (u32_from_be b5 b6 b7 b8) 0x7fffffff |}
       | _ => None
       end.

(** [FrameHeader::encode]. *)
Definition FrameHeader_encode (h : FrameHeader) : list Z :=
  drop 1 (u32_to_be (fh_length h)) ++ [frame_type h; fh_flags h] ++ u32_to_be (Z.land (stream_id h) 0x7fffffff).

(** [FrameHeader::has_flag]. *)
Definition has_flag (h : FrameHeader) (f : Z) : bool := negb (Z.land (fh_flags h) f =? 0).

(** [write_frame]: the octets appended to [out]. *)
Definition write_frame (ty fl sid : Z) (payload : list Z) : list Z :=
  FrameHeader_encode {| fh_length := zlen payload mod 2 ^ 32; frame_type := ty; fh_flags := fl; stream_id := sid |} ++ payload.

(** [wire::read_exact] and [wire::read_frame] on a stream that holds the
    octets [s] and then ends. *)
Definition read_exact (n : Z) (s : list Z) : outcome H2Error (list Z * list Z) :=
  if n <=? zlen s then Ok (take (Z.to_nat n) s, drop (Z.to_nat n) s) else Err Closed.

Definition read_frame (s : list Z) : outcome H2Error (FrameHeader * list Z * list Z) :=
  try! (hdr, s) := read_exact FRAME_HEADER_LEN s in
  match FrameHeader_parse hdr with
  | None => Err Protocol
  | Some h =>
      if DEFAULT_MAX_FRAME <? fh_length h then Err Protocol
      else
        try! (payload, s) := read_exact (fh_length h) s in
        Ok (h, payload, s)
  end.

(** [wire::strip_headers]. *)
Definition strip_headers (payload : list Z) (fl : Z) : outcome H2Error (list Z) :=
  try! (p, pad) :=
    (if negb (Z.land fl PADDED =? 0) then
       match payload with [] => Err Protocol | first :: p => Ok (p, first) end
     else Ok (payload, 0)) in
  try! p :=
    (if negb (Z.land fl PRIORITY =? 0) then
       if zlen p <? 5 then Err Protocol else Ok (drop 5 p)
     else Ok p) in
  if zlen p <? pad then Err Protocol
  else match get_range p 0 (zlen p - pad) with Some s => Ok s | None => Panic end.

(** [wire::strip_padding]. *)
Definition strip_padding (payload : list Z) (fl : Z) : outcome H2Error (list Z) :=
  if Z.land fl PADDED =? 0 then Ok payload
  else match payload with
       | [] => Err Protocol
       | pad :: body =>
           if zlen body <? pad then Err Protocol
           else match get_range body 0 (zlen body - pad) with Some s => Ok s | None => Panic end
       end.

(** The token characters besides letters and digits. *)
Definition TOKEN_MARKS : list Z :=
  [33; 35; 36; 37; 38; 39; 42; 43; 45; 46; 94; 95; 96; 124; 126].

Definition is_token_byte (b : Z) : bool :=
  (97 <=? b) && (b <=? 122) || (48 <=? b) && (b <=? 57) || existsb (Z.eqb b) TOKEN_MARKS.

(** [name.strip_prefix(b":")]. *)
Definition strip_colon (name : list Z) : list Z :=
  match name with 58 :: t => t | _ => name end.

(** [valid_header_field]. *)
Definition valid_header_field (name value : list Z) : bool :=
  let token := strip_colon name in
  if bool_decide (token = []) || negb (forallb is_token_byte token) then false
  else if bool_decide (name ≠ token) && existsb (Z.eqb 58) (drop 1 name) then false
  else
    negb (existsb (λ b, (b =? 0) || (b =? 13) || (b =? 10)) value) &&
    negb (match head value with Some b => (b =? 32) || (b =? 9) | None => false end) &&
    negb (match last value with Some b => (b =? 32) || (b =? 9) | None => false end).

(** ** Round trips *)

Lemma u32_from_to_be v : is_u32 v →
  ∃ a b c d, u32_to_be v = [a; b; c; d] ∧ u32_from_be a b c d = v ∧ Forall is_u8 [a; b; c; d].
Proof.
  intros Hv. pose proof (u32_to_be_bytes v) as Hb. rewrite u32_to_be_split in * by done.
  unfold is_u32, U32_MAX in Hv.
  rewrite !u16_to_be_val in * by (unfold is_u16, U16_MAX; div_mod_lia). cbn [app] in *.
  eexists _, _, _, _. split; [done|]. split; [|done]. unfold u32_from_be.
  rewrite !u16_be_roundtrip by (unfold is_u16, U16_MAX; div_mod_lia).
  rewrite lor_shiftl_add by div_mod_lia. div_mod_lia.
Qed.

Lemma header_parse_encode h rest :
  0 ≤ fh_length h < 2 ^ 24 → is_u32 (stream_id h) →
  FrameHeader_parse (FrameHeader_encode h ++ rest) =
  Some {| fh_length := fh_length h; frame_type := frame_type h; fh_flags := fh_flags h;
          stream_id := stream_id h mod 2 ^ 31 |}.
Proof.
  intros Hl Hs. unfold FrameHeader_encode.
  assert (Hmask : ∀ x, Z.land x 0x7fffffff = x mod 2 ^ 31) by (intros x; by apply (land_ones_mod x 31)).
  rewrite Hmask. unfold is_u32, U32_MAX in *.
  destruct (u32_from_to_be (fh_length h)) as (a & b & c & d & Hle & Hlv & Hlb); [unfold is_u32, U32_MAX; lia|].
  destruct (u32_from_to_be (stream_id h mod 2 ^ 31)) as (a' & b' & c' & d' & -> & Hsv & _);
    [unfold is_u32, U32_MAX; pose proof (Z.mod_pos_bound (stream_id h) (2 ^ 31)); lia|].
  assert (Ha : a = 0).
  { unfold u32_to_be in Hle. injection Hle as <- _ _ _. by rewrite Z.shiftr_div_pow2, Z.div_small by lia. }
  subst a. rewrite Hle. simpl drop. cbn [app]. unfold FrameHeader_parse.
  rewrite (proj2 (Z.ltb_ge _ _)).
  2:{ rewrite !zlen_cons. unfold FRAME_HEADER_LEN. pose proof (zlen_nonneg rest). lia. }
  cbn [frame_type fh_flags]. rewrite Hlv, Hsv, Hmask, Z.mod_mod by lia. done.
Qed.

Lemma zlen_encode h : zlen (FrameHeader_encode h) = FRAME_HEADER_LEN.
Proof. reflexivity. Qed.

Lemma read_write_frame ty fl sid payload rest :
  zlen payload ≤ DEFAULT_MAX_FRAME → is_u32 sid →
  read_frame (write_frame ty fl sid payload ++ rest) =
  Ok ({| fh_length := zlen payload; frame_type := ty; fh_flags := fl; stream_id := sid mod 2 ^ 31 |}, payload, rest).
Proof.
  unfold DEFAULT_MAX_FRAME. intros Hp Hs. pose proof (zlen_nonneg payload). pose proof (zlen_nonneg rest).
  unfold write_frame. rewrite Z.mod_small by lia. set (h := mkFrameHeader _ _ _ _).
  assert (Hread : ∀ a b, read_exact (zlen a) (a ++ b) = Ok (a, b)).
  { intros a b. unfold read_exact. pose proof (zlen_nonneg b). rewrite (proj2 (Z.leb_le _ _)) by (rewrite zlen_app; lia).
    unfold zlen. by rewrite Nat2Z.id, take_app_length, drop_app_length. }
  unfold read_frame. rewrite <-(zlen_encode h), <-app_assoc, Hread. cbn [obind].
  rewrite <-(app_nil_r (FrameHeader_encode h)), header_parse_encode; [|simpl; lia|done].
  cbn [fh_length frame_type fh_flags stream_id h]. unfold DEFAULT_MAX_FRAME.
  rewrite (proj2 (Z.ltb_ge _ _)) by lia. by rewrite Hread.
Qed.


(** ** Totality and bounds *)

Lemma u32_from_be_u32 a b c d : is_u8 a → is_u8 b → is_u8 c → is_u8 d → is_u32 (u32_from_be a b c d).
Proof.
  intros Ha Hb Hc Hd. pose proof (u16_from_be_u16 a b Ha Hb) as H1. pose proof (u16_from_be_u16 c d Hc Hd) as H2.
  unfold u32_from_be, is_u16, is_u32, U16_MAX, U32_MAX in *. rewrite lor_shiftl_add by lia. lia.
Qed.

Lemma header_parse_spec b h :
  is_bytes b → FrameHeader_parse b = Some h → is_u32 (fh_length h) ∧ 0 ≤ stream_id h < 2 ^ 31.
Proof.
  intros Hb. unfold FrameHeader_parse. destruct (_ <? _); [done|].
  do 9 (destruct b as [|? b]; [done|]). intros [= <-]. cbn [fh_length stream_id].
  unfold is_bytes in Hb. repeat match goal with H : Forall is_u8 (_ :: _) |- _ => apply Forall_cons in H as [? H] end.
  split; [apply u32_from_be_u32; try done; by vm_compute|]. rewrite (land_ones_mod _ 31) by done. apply Z.mod_pos_bound. lia.
Qed.

(** The length of a frame is checked before its payload is taken. *)
Lemma read_frame_bounds s :
  is_bytes s →
  match read_frame s with
  | Ok (h, p, rest) => zlen p = fh_length h ∧ zlen p ≤ DEFAULT_MAX_FRAME ∧ FRAME_HEADER_LEN + zlen p + zlen rest = zlen s
  | Err e => e = Closed ∨ e = Protocol
  | _ => False
  end.
Proof.
  intros Hb. unfold read_frame, read_exact. destruct (Z.leb_spec FRAME_HEADER_LEN (zlen s)) as [H9|]; cbn [obind]; [|by left].
  unfold FRAME_HEADER_LEN in *. destruct (FrameHeader_parse _) as [h|] eqn:Hh; [|by right].
  apply header_parse_spec in Hh as [Hl _]; [|by apply Forall_take]. unfold is_u32 in Hl.
  destruct (Z.ltb_spec DEFAULT_MAX_FRAME (fh_length h)); [by right|].
  destruct (Z.leb_spec (fh_length h) (zlen (drop (Z.to_nat 9) s))) as [Hd|]; cbn [obind]; [|by left].
  unfold zlen in *. rewrite length_take, !length_drop in *. lia.
Qed.

Lemma get_range_take {A} (l : list A) n : 0 ≤ n ≤ zlen l → get_range l 0 n = Some (take (Z.to_nat n) l).
Proof. intros Hn. rewrite get_range_is_Some by lia. by rewrite Z.sub_0_r. Qed.

(** Padding and the priority field are removed, whatever the flags. *)
Lemma strip_headers_spec fl prio block padding :
  (if Z.land fl PRIORITY =? 0 then prio = [] else zlen prio = 5) →
  strip_headers ((if Z.land fl PADDED =? 0 then [] else [zlen padding]) ++ prio ++ block ++
                 (if Z.land fl PADDED =? 0 then [] else padding)) fl = Ok block.
Proof.
  intros Hprio. unfold strip_headers. pose proof (zlen_nonneg block). pose proof (zlen_nonneg padding).
  assert (Hdrop : ∀ l : list Z, (if negb (Z.land fl PRIORITY =? 0)
      then if zlen (prio ++ l) <? 5 then Err Protocol else Ok (drop 5 (prio ++ l)) else Ok (prio ++ l)) = Ok (E:=H2Error) l).
  { intros l. pose proof (zlen_nonneg l). destruct (Z.land fl PRIORITY =? 0); cbn [negb]; [by subst|].
    rewrite (proj2 (Z.ltb_ge _ _)) by (rewrite zlen_app; lia). f_equal. apply drop_app_length'. unfold zlen in Hprio. lia. }
  destruct (Z.land fl PADDED =? 0); cbn [negb obind app]; rewrite Hdrop; cbn [obind].
  - rewrite app_nil_r, Z.sub_0_r, (proj2 (Z.ltb_ge _ _)), get_range_take by lia.
    unfold zlen. by rewrite Nat2Z.id, firstn_all.
  - rewrite zlen_app, (proj2 (Z.ltb_ge _ _)), get_range_take by (rewrite ?zlen_app; lia).
    replace (zlen block + zlen padding - zlen padding) with (zlen block) by lia.
    unfold zlen. by rewrite Nat2Z.id, take_app_length.
Qed.

(** A pad length that exceeds the payload is refused, not subtracted. *)
Lemma strip_headers_total payload fl :
  is_bytes payload → match strip_headers payload fl with Ok s => zlen s ≤ zlen payload | Err e => e = Protocol | _ => False end.
Proof.
  intros Hb. unfold strip_headers.
  set (m := if negb (Z.land fl PADDED =? 0) then _ else _).
  assert (Hm : match m with Ok (p, pad) => 0 ≤ pad ∧ zlen p ≤ zlen payload | Err e => e = Protocol | _ => False end).
  { unfold m. destruct (negb _); [|by split]. destruct payload as [|first p]; [done|].
    apply Forall_cons in Hb as [[? _] _]. rewrite zlen_cons. lia. }
  destruct m as [[p pad]| | |]; cbn [obind]; try done. destruct Hm as [Hpad Hp].
  set (q := if negb (Z.land fl PRIORITY =? 0) then _ else _).
  assert (Hq : match q with Ok p' => zlen p' ≤ zlen p | Err e => e = Protocol | _ => False end).
  { unfold q. destruct (negb _); [|done]. destruct (_ <? 5); [done|]. unfold zlen. rewrite length_drop. lia. }
  destruct q as [p'| | |]; cbn [obind]; try done. destruct (Z.ltb_spec (zlen p') pad); [done|].
  rewrite get_range_take by lia. unfold zlen in *. rewrite length_take. lia.
Qed.

(** ** Header fields *)

Lemma valid_header_field_spec name value :
  valid_header_field name value = true →
  (∀ b, b ∈ value → b ≠ 0 ∧ b ≠ 13 ∧ b ≠ 10) ∧
  (∃ t, (name = t ∨ name = 58 :: t) ∧ t ≠ [] ∧ ∀ b, b ∈ t → is_token_byte b = true).
Proof.
  unfold valid_header_field. cbv zeta. destruct (_ || _) eqn:Ht; [done|]. destruct (_ && existsb _ _); [done|].
  intros Hv. apply andb_prop in Hv as [Hv _]. apply andb_prop in Hv as [Hv _]. apply negb_true_iff in Hv.
  apply orb_false_elim in Ht as [Hnil Htok]. apply bool_decide_eq_false in Hnil. apply negb_false_iff in Htok.
  split.
  - intros b Hb. assert (H : (b =? 0) || (b =? 13) || (b =? 10) = false).
    { apply not_true_is_false. intros Hbad. assert (Hex : existsb (λ b, (b =? 0) || (b =? 13) || (b =? 10)) value = true).
      { apply existsb_exists. exists b. split; [by apply list_elem_of_In|done]. }
      congruence. }
    bool_prop. done.
  - exists (strip_colon name). split_and!; [|done|].
    + unfold strip_colon. repeat case_match; subst; auto.
    + rewrite forallb_forall in Htok. intros b Hb. apply Htok. by apply list_elem_of_In.
Qed.
