(* ===== verification/Qpack.v ===== *)
(** * QPACK ([onetdns-quic/src/qpack.rs])

    Header compression over unordered streams: the static table, integers and
    strings of complete and of partial buffers, the dynamic table, the decoder
    with its two instruction streams and the encoder.  An insertion counter
    stays below [2^64] in any run and is not wrapped. *)

From S2P Require Import Prelude Varint.
From S2P Require Huffman Hpack.

#[local] Open Scope outcome_scope.

Notation bytes := (list Z) (only parsing).
Notation header := (list Z * list Z)%type (only parsing).

(** [STATIC]. *)
Definition STATIC : list (string * string) :=
  [(":authority", EmptyString);
   (":path", "/");
   ("age", "0");
   ("content-disposition", EmptyString);
   ("content-length", "0");
   ("cookie", EmptyString);
   ("date", EmptyString);
   ("etag", EmptyString);
   ("if-modified-since", EmptyString);
   ("if-none-match", EmptyString);
   ("last-modified", EmptyString);
   ("link", EmptyString);
   ("location", EmptyString);
   ("referer", EmptyString);
   ("set-cookie", EmptyString);
   (":method", "CONNECT");
   (":method", "DELETE");
   (":method", "GET");
   (":method", "HEAD");
   (":method", "OPTIONS");
   (":method", "POST");
   (":method", "PUT");
   (":scheme", "http");
   (":scheme", "https");
   (":status", "103");
   (":status", "200");
   (":status", "304");
   (":status", "404");
   (":status", "503");
   ("accept", "*/*");
   ("accept", "application/dns-message");
   ("accept-encoding", "gzip, deflate, br");
   ("accept-ranges", "bytes");
   ("access-control-allow-headers", "cache-control");
   ("access-control-allow-headers", "content-type");
   ("access-control-allow-origin", "*");
   ("cache-control", "max-age=0");
   ("cache-control", "max-age=2592000");
   ("cache-control", "max-age=604800");
   ("cache-control", "no-cache");
   ("cache-control", "no-store");
   ("cache-control", "public, max-age=31536000");
   ("content-encoding", "br");
   ("content-encoding", "gzip");
   ("content-type", "application/dns-message");
   ("content-type", "application/javascript");
   ("content-type", "application/json");
   ("content-type", "application/x-www-form-urlencoded");
   ("content-type", "image/gif");
   ("content-type", "image/jpeg");
   ("content-type", "image/png");
   ("content-type", "text/css");
   ("content-type", "text/html; charset=utf-8");
   ("content-type", "text/plain");
   ("content-type", "text/plain;charset=utf-8");
   ("range", "bytes=0-");
   ("strict-transport-security", "max-age=31536000");
   ("strict-transport-security", "max-age=31536000; includesubdomains");
   ("strict-transport-security", "max-age=31536000; includesubdomains; preload");
   ("vary", "accept-encoding");
   ("vary", "origin");
   ("x-content-type-options", "nosniff");
   ("x-xss-protection", "1; mode=block");
   (":status", "100");
   (":status", "204");
   (":status", "206");
   (":status", "302");
   (":status", "400");
   (":status", "403");
   (":status", "421");
   (":status", "425");
   (":status", "500");
   ("accept-language", EmptyString);
   ("access-control-allow-credentials", "FALSE");
   ("access-control-allow-credentials", "TRUE");
   ("access-control-allow-headers", "*");
   ("access-control-allow-methods", "get");
   ("access-control-allow-methods", "get, post, options");
   ("access-control-allow-methods", "options");
   ("access-control-expose-headers", "content-length");
   ("access-control-request-headers", "content-type");
   ("access-control-request-method", "get");
   ("access-control-request-method", "post");
   ("alt-svc", "clear");
   ("authorization", EmptyString);
   ("content-security-policy", "script-src 'none'; object-src 'none'; base-uri 'none'");
   ("early-data", "1");
   ("expect-ct", EmptyString);
   ("forwarded", EmptyString);
   ("if-range", EmptyString);
   ("origin", EmptyString);
   ("purpose", "prefetch");
   ("server", EmptyString);
   ("timing-allow-origin", "*");
   ("upgrade-insecure-requests", "1");
   ("user-agent", EmptyString);
   ("x-forwarded-for", EmptyString);
   ("x-frame-options", "deny");
   ("x-frame-options", "sameorigin")].

Definition STATIC_BYTES : list header :=
  Eval vm_compute in map (λ '(n, v), (as_bytes n, as_bytes v)) STATIC.

(** [static_entry], [static_find] and [static_find_name]. *)
Definition static_entry (idx : Z) : option header := get STATIC_BYTES idx.
Definition static_find (name value : bytes) : option Z :=
  Hpack.position (λ '(n, v), bool_decide (n = name) && bool_decide (v = value)) STATIC_BYTES.
Definition static_find_name (name : bytes) : option Z :=
  Hpack.position (λ '(n, _), bool_decide (n = name)) STATIC_BYTES.

(** ** Integers and strings *)

(** The loop of [read_int] over the octets after the first: nine at most. *)
Fixpoint read_int_loop (fuel : nat) (buf : bytes) (pos val m : Z) : outcome unit (Z * Z) :=
  match fuel with
  | O => NoFuel
  | S fuel =>
      match get buf pos with
      | None => Err tt
      | Some b =>
          let low := Z.land b 0x7f in
          if (64 <=? m) || (Z.shiftr U64_MAX m <? low) then Err tt
          else
            let val := val + u64_shl low m in
            if U64_MAX <? val then Err tt
            else if Z.land b 0x80 =? 0 then Ok (val, pos + 1)
            else if 62 <? m + 7 then Err tt
            else read_int_loop fuel buf (pos + 1) val (m + 7)
      end
  end.

(** [read_int]: the value and the position after it. *)
Definition read_int (buf : bytes) (pos prefix_bits : Z) : outcome unit (Z * Z) :=
  if negb ((1 <=? prefix_bits) && (prefix_bits <=? 8)) then Err tt
  else
    let mask := Z.shiftl 1 prefix_bits - 1 in
    match get buf pos with
    | None => Err tt
    | Some first =>
        let val := Z.land first mask in
        if val <? mask then Ok (val, pos + 1) else read_int_loop 10 buf (pos + 1) val 0
    end.

(** A slice [pos .. pos + len] of the buffer. *)
Definition slice (buf : bytes) (pos len : Z) : option (bytes * Z) :=
  match checked_add pos len with
  | None => None
  | Some end_ => match get_range buf pos end_ with Some s => Some (s, end_) | None => None end
  end.

(** [read_string]. *)
Definition read_string (buf : bytes) (pos : Z) : outcome unit (bytes * Z) :=
  match get buf pos with
  | None => Err tt
  | Some b =>
      let huff := negb (Z.land b 0x80 =? 0) in
      try! (len, pos) := read_int buf pos 7 in
      match slice buf pos len with
      | None => Err tt
      | Some (s, end_) =>
          if huff then try! s := Huffman.decode s in Ok (s, end_) else Ok (s, end_)
      end
  end.

(** [enum StreamParse]; [Crashed] is a panic or an exhausted fuel. *)
Inductive StreamParse (A : Type) : Type :=
  | Done (a : A)
  | Incomplete
  | Invalid
  | Crashed.
Arguments Done {A} a.
Arguments Incomplete {A}.
Arguments Invalid {A}.
Arguments Crashed {A}.

(** [read_stream_int]. *)
Fixpoint stream_int_loop (fuel : nat) (buf : bytes) (pos val m : Z) : StreamParse (Z * Z) :=
  match fuel with
  | O => Crashed
  | S fuel =>
      match get buf pos with
      | None => Incomplete
      | Some b =>
          let low := Z.land b 0x7f in
          if (64 <=? m) || (Z.shiftr U64_MAX m <? low) then Invalid
          else
            let val := val + u64_shl low m in
            if U64_MAX <? val then Invalid
            else if Z.land b 0x80 =? 0 then Done (val, pos + 1)
            else if 62 <? m + 7 then Invalid
            else stream_int_loop fuel buf (pos + 1) val (m + 7)
      end
  end.

Definition read_stream_int (buf : bytes) (pos prefix_bits : Z) : StreamParse (Z * Z) :=
  if negb ((1 <=? prefix_bits) && (prefix_bits <=? 8)) then Invalid
  else
    let mask := Z.shiftl 1 prefix_bits - 1 in
    match get buf pos with
    | None => Incomplete
    | Some first =>
        let val := Z.land first mask in
        if val <? mask then Done (val, pos + 1) else stream_int_loop 10 buf (pos + 1) val 0
    end.

Definition huffman_stream (s : bytes) : StreamParse bytes :=
  match Huffman.decode s with
  | Ok s => Done s
  | Err _ => Invalid
  | Panic | NoFuel => Crashed
  end.

(** [read_stream_string]. *)
Definition read_stream_string (buf : bytes) (pos : Z) : StreamParse (bytes * Z) :=
  match get buf pos with
  | None => Incomplete
  | Some first =>
      let huff := negb (Z.land first 0x80 =? 0) in
      match read_stream_int buf pos 7 with
      | Done (len, pos) =>
          match checked_add pos len with
          | None => Invalid
          | Some end_ =>
              match get_range buf pos end_ with
              | None => Incomplete
              | Some s =>
                  if huff then
                    match huffman_stream s with
                    | Done s => Done (s, end_)
                    | Incomplete => Incomplete
                    | Invalid => Invalid
                    | Crashed => Crashed
                    end
                  else Done (s, end_)
              end
          end
      | Incomplete => Incomplete
      | Invalid => Invalid
      | Crashed => Crashed
      end
  end.

(** [push_int]: the octets appended; the loop has ten rounds at most. *)
Definition push_int {E} (val prefix_bits flags : Z) : outcome E bytes :=
  let mask := Z.shiftl 1 prefix_bits - 1 in
  if val <? mask then Ok [Z.lor flags (val mod 2 ^ 8)]
  else match Hpack.encode_int_loop 10 (val - mask) with
       | Some out => Ok (Z.lor flags (mask mod 2 ^ 8) :: out)
       | None => NoFuel
       end.

(** [push_string]. *)
Definition push_string {E} (s : bytes) : outcome E bytes :=
  try! n := push_int (zlen s) 7 0x00 in Ok (n ++ s).

(** ** Field sections without a dynamic table *)

Definition ENTRY_OVERHEAD : Z := 32.
Definition MAX_SECTION_SIZE : Z := 32 * 1024.
Definition MAX_SECTION_FIELDS : Z := 128.

(** The closure [add]: the new size. *)
Definition add_field (decoded_size : Z) (out : list header) (h : header) : option Z :=
  match checked_add decoded_size (zlen h.1 + zlen h.2 + ENTRY_OVERHEAD) with
  | Some n => if (n <=? MAX_SECTION_SIZE) && (zlen out <? MAX_SECTION_FIELDS) then Some n else None
  | None => None
  end.

(** A literal name, of which the first octet has the length in three bits. *)
Definition read_literal_name (b : Z) (buf : bytes) (pos : Z) : outcome unit (bytes * Z) :=
  let huff := negb (Z.land b 0x08 =? 0) in
  try! (nlen, pos) := read_int buf pos 3 in
  match slice buf pos nlen with
  | None => Err tt
  | Some (nbytes, end_) =>
      if huff then try! name := Huffman.decode nbytes in Ok (name, end_) else Ok (nbytes, end_)
  end.

Definition from_option {A} (o : option A) : outcome unit A :=
  match o with Some a => Ok a | None => Err tt end.

(** One field line of [decode_field_section]. *)
Definition static_field (buf : bytes) (pos b : Z) : outcome unit (header * Z) :=
  if negb (Z.land b 0x80 =? 0) then
    let is_static := negb (Z.land b 0x40 =? 0) in
    try! (idx, pos) := read_int buf pos 6 in
    if negb is_static then Err tt
    else try! h := from_option (static_entry idx) in Ok (h, pos)
  else if negb (Z.land b 0x40 =? 0) then
    let is_static := negb (Z.land b 0x10 =? 0) in
    try! (idx, pos) := read_int buf pos 4 in
    try! (value, pos) := read_string buf pos in
    if negb is_static then Err tt
    else try! h := from_option (static_entry idx) in Ok ((h.1, value), pos)
  else if negb (Z.land b 0x20 =? 0) then
    try! (name, pos) := read_literal_name b buf pos in
    try! (value, pos) := read_string buf pos in
    Ok ((name, value), pos)
  else Err tt.

(** The loop over the field lines, for either decoder. *)
Fixpoint fields_loop (fuel : nat) (field : Z → Z → outcome unit (header * Z)) (buf : bytes) (pos : Z)
    (decoded_size : Z) (out : list header) : outcome unit (list header) :=
  match fuel with
  | O => NoFuel
  | S fuel =>
      match get buf pos with
      | None => Ok out
      | Some b =>
          try! (h, pos) := field pos b in
          match add_field decoded_size out h with
          | None => Err tt
          | Some n => fields_loop fuel field buf pos n (out ++ [h])
          end
      end
  end.

(** [decode_field_section]. *)
Definition decode_field_section (buf : bytes) : outcome unit (list header) :=
  try! (ric, pos) := read_int buf 0 8 in
  if negb (ric =? 0) then Err tt
  else
    try! (_, pos) := read_int buf pos 7 in
    fields_loop (S (length buf)) (static_field buf) buf pos 0 [].

(** [doh_response_headers] and [doh_post_request_headers]. *)
Definition prefix_bytes : bytes := [0x00; 0x00].
Definition doh_response_headers : bytes := prefix_bytes ++ [Z.lor 0xC0 25; Z.lor 0xC0 44].
Definition doh_post_request_headers (authority path : bytes) (content_len : Z) : outcome unit bytes :=
  try! a := push_string authority in
  try! p := push_string path in
  try! l := push_string (as_bytes (pretty content_len)) in
  Ok (prefix_bytes ++ [Z.lor 0xC0 20; Z.lor 0xC0 23; 0x50] ++ a ++ [0x51] ++ p ++ [Z.lor 0xC0 44; 0x54] ++ l).

(** ** The dynamic table *)

(** [struct DynamicTable]; the oldest entry comes first. *)
Record DynamicTable : Type := mkTable {
  entries : list header;
  insert_count : Z;
  capacity : Z;
  tsize : Z
}.

Definition DynamicTable_default : DynamicTable := mkTable [] 0 0 0.

(** [DynamicTable::entry_size]. *)
Definition entry_size (h : header) : Z := zlen h.1 + zlen h.2 + ENTRY_OVERHEAD.

(** [DynamicTable::evict_oldest]; a size below zero is a panic. *)
Definition evict_oldest {E} (t : DynamicTable) : outcome E DynamicTable :=
  match entries t with
  | [] => Ok t
  | h :: es =>
      if tsize t <? entry_size h then Panic
      else Ok (mkTable es (insert_count t) (capacity t) (tsize t - entry_size h))
  end.

(** [DynamicTable::set_capacity]. *)
Fixpoint shrink {E} (fuel : nat) (t : DynamicTable) : outcome E DynamicTable :=
  match fuel with
  | O => NoFuel
  | S fuel =>
      if capacity t <? tsize t then try! t := evict_oldest t in shrink fuel t else Ok t
  end.

Definition set_capacity {E} (cap : Z) (t : DynamicTable) : outcome E DynamicTable :=
  shrink (S (length (entries t))) (mkTable (entries t) (insert_count t) cap (tsize t)).

(** [self.size.checked_add(es).is_none_or(|n| n > self.capacity)]. *)
Definition too_full (es : Z) (t : DynamicTable) : bool :=
  match checked_add (tsize t) es with Some n => capacity t <? n | None => true end.

Definition push_back (h : header) (t : DynamicTable) : DynamicTable :=
  mkTable (entries t ++ [h]) (insert_count t + 1) (capacity t) (tsize t + entry_size h).

(** [DynamicTable::insert]: whether the entry was inserted. *)
Fixpoint make_room {E} (fuel : nat) (es : Z) (t : DynamicTable) : outcome E (bool * DynamicTable) :=
  match fuel with
  | O => NoFuel
  | S fuel =>
      if too_full es t then
        try! t := evict_oldest t in
        match entries t with
        | [] => if too_full es t then Ok (false, t) else make_room fuel es t
        | _ => make_room fuel es t
        end
      else Ok (true, t)
  end.

Definition insert {E} (h : header) (t : DynamicTable) : outcome E (bool * DynamicTable) :=
  let es := entry_size h in
  if capacity t <? es then Ok (false, t)
  else
    try! (room, t) := make_room (S (S (length (entries t)))) es t in
    if (room : bool) then Ok (true, push_back h t) else Ok (false, t).

(** [DynamicTable::insert_no_evict]. *)
Definition insert_no_evict (h : header) (t : DynamicTable) : bool * DynamicTable :=
  if too_full (entry_size h) t then (false, t) else (true, push_back h t).

(** [DynamicTable::get_abs]. *)
Definition oldest (t : DynamicTable) : Z := insert_count t - zlen (entries t).
Definition get_abs (t : DynamicTable) (abs : Z) : option header :=
  if (abs <? oldest t) || (insert_count t <=? abs) then None else get (entries t) (abs - oldest t).

(** [DynamicTable::find]: the newest equal entry. *)
Fixpoint find_last (h : header) (i : Z) (l : list header) : option Z :=
  match l with
  | [] => None
  | x :: l =>
      match find_last h (i + 1) l with
      | Some j => Some j
      | None => if bool_decide (x = h) then Some i else None
      end
  end.

Definition find (h : header) (t : DynamicTable) : option Z := find_last h (oldest t) (entries t).

(** ** The decoder *)

(** [struct Decoder]. *)
Record Decoder : Type := mkDecoder {
  table : DynamicTable;
  max_capacity : Z;
  enc_buf : bytes;
  out : bytes
}.

(** [Decoder::new]. *)
Definition Decoder_new (max_capacity : Z) : Decoder := mkDecoder DynamicTable_default max_capacity [] [].

Definition set_table (t : DynamicTable) (d : Decoder) : Decoder := mkDecoder t (max_capacity d) (enc_buf d) (out d).

(** [base.checked_sub(1 + idx)]. *)
Definition back_from {E} (e : E) (base idx : Z) : outcome E Z :=
  if U64_MAX <? 1 + idx then Panic
  else match checked_sub base (1 + idx) with Some abs => Ok abs | None => Err e end.

Definition or_err {E A} (e : E) (o : option A) : outcome E A :=
  match o with Some a => Ok a | None => Err e end.

(** An instruction is read, is incomplete ([Ok None]) or is an error, with the
    table as it leaves it. *)
Definition instr : Type := outcome DynamicTable (option (DynamicTable * Z)).

(** The macro [stream_value!]. *)
Definition stream_value {A} (t : DynamicTable) (s : StreamParse A) (k : A → instr) : instr :=
  match s with
  | Done a => k a
  | Incomplete => Ok None
  | Invalid => Err t
  | Crashed => Panic
  end.

(** The insertion that ends an instruction. *)
Definition insert_instr (h : header) (t : DynamicTable) (pos : Z) : instr :=
  try! (inserted, t) := insert h t in
  if (inserted : bool) then Ok (Some (t, pos)) else Err t.

(** The closure of [Decoder::on_encoder_stream]. *)
Definition instruction (max_capacity : Z) (buf : bytes) (pos b : Z) (t : DynamicTable) : instr :=
  if negb (Z.land b 0x80 =? 0) then
    let is_static := negb (Z.land b 0x40 =? 0) in
    stream_value t (read_stream_int buf pos 6) (λ '(idx, pos),
    stream_value t (read_stream_string buf pos) (λ '(value, pos),
      try! name :=
        (if is_static then try! h := or_err t (static_entry idx) in Ok h.1
         else
           try! abs := back_from t (insert_count t) idx in
           try! h := or_err t (get_abs t abs) in
           Ok h.1) in
      insert_instr (name, value) t pos))
  else if negb (Z.land b 0x40 =? 0) then
    let huff := negb (Z.land b 0x20 =? 0) in
    stream_value t (read_stream_int buf pos 5) (λ '(nlen, pos),
      match checked_add pos nlen with
      | None => Err t
      | Some end_ =>
          match get_range buf pos end_ with
          | None => Ok None
          | Some nbytes =>
              stream_value t (if huff then huffman_stream nbytes else Done nbytes) (λ name,
              stream_value t (read_stream_string buf end_) (λ '(value, pos),
                insert_instr (name, value) t pos))
          end
      end)
  else if negb (Z.land b 0x20 =? 0) then
    stream_value t (read_stream_int buf pos 5) (λ '(cap, pos),
      if max_capacity <? cap then Err t
      else try! t := set_capacity cap t in Ok (Some (t, pos)))
  else
    stream_value t (read_stream_int buf pos 5) (λ '(idx, pos),
      try! abs := back_from t (insert_count t) idx in
      try! h := or_err t (get_abs t abs) in
      insert_instr h t pos).

(** The loop over the buffered instructions: the table and what is left. *)
Fixpoint instructions (fuel : nat) (max_capacity : Z) (buf : bytes) (consumed : Z) (t : DynamicTable) :
    outcome DynamicTable (DynamicTable * bytes) :=
  match fuel with
  | O => NoFuel
  | S fuel =>
      match get buf consumed with
      | None => Ok (t, [])
      | Some b =>
          try! r := instruction max_capacity buf consumed b t in
          match r with
          | Some (t, pos) => instructions fuel max_capacity buf pos t
          | None => Ok (t, drop (Z.to_nat consumed) buf)
          end
      end
  end.

Definition MAX_ENCODER_BUFFER : Z := 64 * 1024.

(** [Decoder::on_encoder_stream]; an error carries the decoder it leaves. *)
Definition on_encoder_stream (data : bytes) (d : Decoder) : outcome Decoder Decoder :=
  if MAX_ENCODER_BUFFER <? zlen (enc_buf d) + zlen data then
    Err (mkDecoder (table d) (max_capacity d) [] (out d))
  else
    let buf := enc_buf d ++ data in
    match instructions (S (length buf)) (max_capacity d) buf 0 (table d) with
    | Ok (t, rest) =>
        let inserted := insert_count t - insert_count (table d) in
        try! ack := (if 0 <? inserted then push_int inserted 6 0x00 else Ok []) in
        Ok (mkDecoder t (max_capacity d) rest (out d ++ ack))
    | Err t => Err (mkDecoder t (max_capacity d) [] (out d))
    | Panic => Panic
    | NoFuel => NoFuel
    end.

(** [enum DecodeResult]; an error is [Err]. *)
Inductive DecodeResult : Type :=
  | Headers (l : list header)
  | Blocked.

(** The required insert count of [Decoder::decode_field_section]. *)
Definition required_count (max_capacity insert_count enc_ric : Z) : outcome unit Z :=
  if enc_ric =? 0 then Ok 0
  else
    let max_entries := max_capacity / ENTRY_OVERHEAD in
    if max_entries =? 0 then Err tt
    else
      let full_range := 2 * max_entries in
      if full_range <? enc_ric then Err tt
      else
        let max_value := insert_count + max_entries in
        let max_wrapped := max_value / full_range * full_range in
        let ric := max_wrapped + enc_ric - 1 in
        try! ric := (if max_value <? ric then if ric <=? full_range then Err tt else Ok (ric - full_range)
                     else Ok ric) in
        if ric =? 0 then Err tt else Ok ric.

(** One field line of [Decoder::decode_field_section]. *)
Definition dynamic_field (t : DynamicTable) (base : Z) (buf : bytes) (pos b : Z) : outcome unit (header * Z) :=
  if negb (Z.land b 0x80 =? 0) then
    let is_static := negb (Z.land b 0x40 =? 0) in
    try! (idx, pos) := read_int buf pos 6 in
    if is_static then try! h := from_option (static_entry idx) in Ok (h, pos)
    else
      try! abs := back_from tt base idx in
      try! h := from_option (get_abs t abs) in
      Ok (h, pos)
  else if negb (Z.land b 0x40 =? 0) then
    let is_static := negb (Z.land b 0x10 =? 0) in
    try! (idx, pos) := read_int buf pos 4 in
    try! (value, pos) := read_string buf pos in
    if is_static then try! h := from_option (static_entry idx) in Ok ((h.1, value), pos)
    else
      try! abs := back_from tt base idx in
      try! h := from_option (get_abs t abs) in
      Ok ((h.1, value), pos)
  else if negb (Z.land b 0x20 =? 0) then
    try! (name, pos) := read_literal_name b buf pos in
    try! (value, pos) := read_string buf pos in
    Ok ((name, value), pos)
  else if negb (Z.land b 0x10 =? 0) then
    try! (idx, pos) := read_int buf pos 4 in
    try! abs := from_option (checked_add base idx) in
    try! h := from_option (get_abs t abs) in
    Ok (h, pos)
  else
    try! (idx, pos) := read_int buf pos 3 in
    try! (value, pos) := read_string buf pos in
    try! abs := from_option (checked_add base idx) in
    try! h := from_option (get_abs t abs) in
    Ok ((h.1, value), pos).

(** [Decoder::decode_field_section]. *)
Definition Decoder_decode_field_section (stream_id : Z) (buf : bytes) (d : Decoder) :
    outcome unit (DecodeResult * Decoder) :=
  let t := table d in
  try! (enc_ric, pos) := read_int buf 0 8 in
  try! ric := required_count (max_capacity d) (insert_count t) enc_ric in
  if insert_count t <? ric then Ok (Blocked, d)
  else
    match get buf pos with
    | None => Err tt
    | Some sb =>
        let sign := negb (Z.land sb 0x80 =? 0) in
        try! (delta, pos) := read_int buf pos 7 in
        try! base := (if sign then back_from tt ric delta else from_option (checked_add ric delta)) in
        try! l := fields_loop (S (length buf)) (dynamic_field t base buf) buf pos 0 [] in
        try! ack := (if 0 <? ric then push_int stream_id 7 0x80 else Ok []) in
        Ok (Headers l, mkDecoder t (max_capacity d) (enc_buf d) (out d ++ ack))
    end.

(** [Decoder::take_decoder_stream] and [restore_decoder_stream]. *)
Definition take_decoder_stream (d : Decoder) : bytes * Decoder :=
  (out d, mkDecoder (table d) (max_capacity d) (enc_buf d) []).
Definition restore_decoder_stream (data : bytes) (d : Decoder) : Decoder :=
  mkDecoder (table d) (max_capacity d) (enc_buf d) (data ++ out d).

(** ** The encoder *)

(** [struct Encoder]. *)
Record Encoder : Type := mkEncoder {
  etable : DynamicTable;
  peer_max_capacity : Z;
  capacity_sent : bool;
  known_received : Z;
  eout : bytes;
  dec_buf : bytes
}.

Definition OUR_MAX_CAPACITY : Z := 4096.

(** [Encoder::new]. *)
Definition Encoder_new : Encoder := mkEncoder DynamicTable_default 0 false 0 [] [].

Definition set_etable (t : DynamicTable) (more : bytes) (e : Encoder) : Encoder :=
  mkEncoder t (peer_max_capacity e) (capacity_sent e) (known_received e) (eout e ++ more) (dec_buf e).
Definition set_dec_buf (b : bytes) (e : Encoder) : Encoder :=
  mkEncoder (etable e) (peer_max_capacity e) (capacity_sent e) (known_received e) (eout e) b.
Definition set_known_received (n : Z) (e : Encoder) : Encoder :=
  mkEncoder (etable e) (peer_max_capacity e) (capacity_sent e) n (eout e) (dec_buf e).

(** [Encoder::set_peer_max_capacity]. *)
Definition set_peer_max_capacity (cap : Z) (e : Encoder) : outcome unit Encoder :=
  let e := mkEncoder (etable e) cap (capacity_sent e) (known_received e) (eout e) (dec_buf e) in
  let ours := Z.min cap OUR_MAX_CAPACITY in
  if (0 <? ours) && negb (capacity_sent e) then
    try! i := push_int ours 5 0x20 in
    try! t := set_capacity ours (etable e) in
    Ok (mkEncoder t cap true (known_received e) (eout e ++ i) (dec_buf e))
  else Ok e.

Definition MAX_DECODER_BUFFER : Z := 64 * 1024.

(** The loop of [Encoder::on_decoder_stream]; an error carries the encoder. *)
Fixpoint acknowledgements (fuel : nat) (pos : Z) (e : Encoder) : outcome Encoder Encoder :=
  match fuel with
  | O => NoFuel
  | S fuel =>
      match get (dec_buf e) pos with
      | None => Ok (set_dec_buf [] e)
      | Some b =>
          let decoder_int bits k :=
            match read_stream_int (dec_buf e) pos bits with
            | Done (v, pos) => k v pos
            | Incomplete => Ok (set_dec_buf (drop (Z.to_nat pos) (dec_buf e)) e)
            | Invalid => Err (set_dec_buf [] e)
            | Crashed => Panic
            end in
          if negb (Z.land b 0x80 =? 0) then decoder_int 7 (λ _ pos, acknowledgements fuel pos e)
          else if negb (Z.land b 0x40 =? 0) then decoder_int 6 (λ _ pos, acknowledgements fuel pos e)
          else
            decoder_int 6 (λ inc pos,
              if U64_MAX <? known_received e + inc then Err e
              else if (inc =? 0) || (insert_count (etable e) <? known_received e + inc) then Err e
              else acknowledgements fuel pos (set_known_received (known_received e + inc) e))
      end
  end.

(** [Encoder::on_decoder_stream]. *)
Definition on_decoder_stream (data : bytes) (e : Encoder) : outcome Encoder Encoder :=
  if MAX_DECODER_BUFFER <? zlen (dec_buf e) + zlen data then Err (set_dec_buf [] e)
  else
    let e := set_dec_buf (dec_buf e ++ data) e in
    acknowledgements (S (length (dec_buf e))) 0 e.

(** [enum FieldPlan]. *)
Inductive FieldPlan : Type :=
  | Static (idx : Z)
  | Dynamic (abs : Z)
  | LiteralNameRef (idx : Z) (value : bytes)
  | Literal (name value : bytes).

Definition literal_plan (h : header) : FieldPlan :=
  match static_find_name h.1 with
  | Some nidx => LiteralNameRef nidx h.2
  | None => Literal h.1 h.2
  end.

(** The instruction that inserts a header. *)
Definition insert_instruction (h : header) : outcome unit bytes :=
  try! n := (match static_find_name h.1 with
             | Some nidx => push_int nidx 6 0xC0
             | None => try! n := push_int (zlen h.1) 5 0x40 in Ok (n ++ h.1)
             end) in
  try! v := push_string h.2 in
  Ok (n ++ v).

(** One header of [Encoder::encode_field_section]. *)
Definition plan_field (h : header) (e : Encoder) : outcome unit (FieldPlan * Encoder) :=
  match static_find h.1 h.2 with
  | Some idx => Ok (Static idx, e)
  | None =>
      if 0 <? capacity (etable e) then
        match find h (etable e) with
        | Some abs =>
            if abs <? known_received e then Ok (Dynamic abs, e) else Ok (literal_plan h, e)
        | None =>
            match insert_no_evict h (etable e) with
            | (true, t) =>
                try! i := insert_instruction h in
                Ok (literal_plan h, set_etable t i e)
            | (false, _) => Ok (literal_plan h, e)
            end
        end
      else Ok (literal_plan h, e)
  end.

Fixpoint plan_fields (hs : list header) (e : Encoder) : outcome unit (list FieldPlan * Encoder) :=
  match hs with
  | [] => Ok ([], e)
  | h :: hs =>
      try! (p, e) := plan_field h e in
      try! (ps, e) := plan_fields hs e in
      Ok (p :: ps, e)
  end.

(** The required insert count of a plan. *)
Definition plan_count (ps : list FieldPlan) : Z :=
  foldr (λ p n, match p with Dynamic abs => Z.max (abs + 1) n | _ => n end) 0 ps.

(** The octets of a field line. *)
Definition write_field (base : Z) (p : FieldPlan) : outcome unit bytes :=
  match p with
  | Static idx => push_int idx 6 0xC0
  | Dynamic abs => if base - 1 <? abs then Panic else push_int (base - 1 - abs) 6 0x80
  | LiteralNameRef nidx value =>
      try! n := push_int nidx 4 0x50 in
      try! v := push_string value in
      Ok (n ++ v)
  | Literal name value =>
      try! n := push_int (zlen name) 3 0x20 in
      try! v := push_string value in
      Ok (n ++ name ++ v)
  end.

Fixpoint write_fields (base : Z) (ps : list FieldPlan) : outcome unit bytes :=
  match ps with
  | [] => Ok []
  | p :: ps =>
      try! a := write_field base p in
      try! b := write_fields base ps in
      Ok (a ++ b)
  end.

(** The encoded required insert count; a remainder by zero is a panic. *)
Definition encoded_count (peer_max_capacity ric : Z) : outcome unit Z :=
  if ric =? 0 then Ok 0
  else
    let max_entries := peer_max_capacity / ENTRY_OVERHEAD in
    if max_entries =? 0 then Panic else Ok (ric mod (2 * max_entries) + 1).

(** [Encoder::encode_field_section]: the section, the instructions for the
    encoder stream and the encoder. *)
Definition encode_field_section (hs : list header) (e : Encoder) : outcome unit (bytes * bytes * Encoder) :=
  try! (plan, e) := plan_fields hs e in
  let base := insert_count (etable e) in
  let ric := plan_count plan in
  try! enc_ric := encoded_count (peer_max_capacity e) ric in
  try! a := push_int enc_ric 8 0x00 in
  try! b := (if ric <=? base then push_int (base - ric) 7 0x00 else push_int (ric - base - 1) 7 0x80) in
  try! l := write_fields base plan in
  Ok (a ++ b ++ l, eout e, mkEncoder (etable e) (peer_max_capacity e) (capacity_sent e) (known_received e) [] (dec_buf e)).

(** [Encoder::restore_encoder_stream]. *)
Definition restore_encoder_stream (data : bytes) (e : Encoder) : Encoder :=
  mkEncoder (etable e) (peer_max_capacity e) (capacity_sent e) (known_received e) (data ++ eout e) (dec_buf e).
