(* ===== verification/QpackCodec.v ===== *)
(** * QPACK integers, strings and lines: writing, reading, and partial buffers

    What [push_int] and [push_string] write is read back by both readers, and
    the stream readers ask for more exactly while the octets are missing.

    The instructions of the encoder stream applied to a table without
    evictions, whole and cut anywhere; the lines of a field section. *)

From S2P Require Import Prelude Varint Qpack.
From S2P Require Huffman Hpack.

#[local] Open Scope outcome_scope.

(** ** Buffers that grow *)

Lemma get_past {A} (b : list A) i : zlen b ≤ i → get b i = None.
Proof. apply get_None_ge. Qed.

(** A stream reader: what it reads depends on the octets up to where it ends,
    and it asks for more when they are not there. *)
Definition streams {A} (f : list Z → StreamParse (A * Z)) (pos : Z) : Prop :=
  ∀ b r v p, f (b ++ r) = Done (v, p) → pos < zlen b →
  pos < p ∧ (p ≤ zlen b → f b = Done (v, p)) ∧ (zlen b < p → f b = Incomplete).

Lemma stream_int_loop_streams fuel val m pos b r v p :
  stream_int_loop fuel (b ++ r) pos val m = Done (v, p) → pos ≤ zlen b →
  pos < p ∧ (p ≤ zlen b → stream_int_loop fuel b pos val m = Done (v, p))
  ∧ (zlen b < p → stream_int_loop fuel b pos val m = Incomplete).
Proof.
  revert val m pos. induction fuel as [|fuel IH]; intros val m pos; [done|]. cbn [stream_int_loop].
  intros H Hp. destruct (decide (pos < zlen b)) as [Hlt|Hge].
  - rewrite get_app_l in H by done. destruct (get b pos) as [x|]; [|done].
    destruct (_ || _); [done|]. cbv zeta in *. destruct (_ <? _); [done|].
    destruct (_ =? 0); [injection H as <- <-; split_and!; [lia|done|lia]|].
    destruct (62 <? m + 7); [done|]. apply IH in H as (H1 & H2 & H3); [|lia]. split_and!; [lia|done|done].
  - assert (zlen b < p).
    { rewrite get_app_r in H by lia. destruct (get r _) as [x|]; [|done]. destruct (_ || _); [done|]. cbv zeta in *.
      destruct (_ <? _); [done|]. destruct (_ =? 0); [injection H as <- <-; lia|]. destruct (62 <? m + 7); [done|].
      clear - H Hge. assert (∀ fuel val m pos, stream_int_loop fuel (b ++ r) pos val m = Done (v, p) → pos < p) as Hgt.
      { clear. induction fuel as [|fuel IH]; intros val m pos; [done|]. cbn [stream_int_loop].
        destruct (get _ _); [|done]. destruct (_ || _); [done|]. cbv zeta. destruct (_ <? _); [done|].
        destruct (_ =? 0); [intros [= <- <-]; lia|]. destruct (62 <? m + 7); [done|]. intros H%IH. lia. }
      apply Hgt in H. lia. }
    rewrite (get_past b) by lia. split_and!; [lia|lia|done].
Qed.

Lemma read_stream_int_streams pos n : 0 ≤ pos → streams (λ b, read_stream_int b pos n) pos.
Proof.
  intros Hp b r v p. unfold read_stream_int. destruct (negb _); [done|]. cbv zeta. intros H Hlt.
  rewrite get_app_l in H by done. destruct (get b pos) as [x|]; [|done].
  destruct (_ <? _); [injection H as <- <-; split_and!; [lia|done|lia]|].
  apply stream_int_loop_streams in H as (H1 & H2 & H3); [|lia]. split_and!; [lia|done|done].
Qed.

Lemma read_stream_int_pos buf pos n v p : read_stream_int buf pos n = Done (v, p) → 0 ≤ pos → pos < p ≤ zlen buf.
Proof.
  intros H Hp. assert (pos < zlen buf) as Hlt.
  { unfold read_stream_int in H. destruct (negb _); [done|]. cbv zeta in H.
    destruct (get buf pos) as [x|] eqn:E; [|done]. apply get_Some_lt in E. lia. }
  split; [by eapply (read_stream_int_streams pos n Hp buf []); [rewrite app_nil_r|]|].
  destruct (decide (p ≤ zlen buf)) as [|Hn]; [done|]. exfalso.
  destruct (read_stream_int_streams pos n Hp buf [] v p) as (_ & _ & H3); [by rewrite app_nil_r|done|].
  rewrite H3 in H by lia. done.
Qed.

(** A range of the longer buffer. *)
Lemma get_range_grow {A} (b r : list A) i j s :
  get_range (b ++ r) i j = Some s →
  (j ≤ zlen b → get_range b i j = Some s) ∧ (zlen b < j → get_range b i j = None).
Proof.
  intros H. split; intros Hj.
  - eapply get_range_ext; [exact H|done|]. intros k Hk. by rewrite get_app_l by lia.
  - unfold get_range. rewrite (proj2 (Z.leb_gt j (zlen b))) by done. by rewrite andb_false_r.
Qed.

Lemma read_stream_string_streams pos : 0 ≤ pos → streams (λ b, read_stream_string b pos) pos.
Proof.
  intros Hp b r v p. unfold read_stream_string. intros H Hlt. rewrite get_app_l in H by done.
  destruct (get b pos) as [x|]; [|done]. cbv zeta in *.
  destruct (read_stream_int (b ++ r) pos 7) as [[len q]| | |] eqn:E; try done.
  destruct (read_stream_int_streams pos 7 Hp b r len q E Hlt) as (H1 & H2 & H3).
  destruct (checked_add q len) as [e|] eqn:Ee; [|done].
  destruct (get_range (b ++ r) q e) as [s|] eqn:Er; [|done].
  pose proof (get_range_Some _ _ _ _ Er) as (Hqe & _).
  assert (p = e) as ->.
  { destruct (negb _); [|by injection H]. destruct (huffman_stream s); try done. by injection H. }
  destruct (get_range_grow _ _ _ _ _ Er) as [H4 H5]. split_and!; [lia| |].
  - intros He. rewrite H2 by lia. by rewrite Ee, H4.
  - intros He. destruct (decide (q ≤ zlen b)).
    + rewrite H2 by lia. by rewrite Ee, H5.
    + by rewrite H3 by lia.
Qed.

(** ** The readers of complete buffers *)

Lemma read_int_loop_stream fuel buf pos val m v p :
  stream_int_loop fuel buf pos val m = Done (v, p) → read_int_loop fuel buf pos val m = Ok (v, p).
Proof.
  revert val m pos. induction fuel as [|fuel IH]; intros val m pos; [done|]. cbn [stream_int_loop read_int_loop].
  destruct (get buf pos); [|done]. destruct (_ || _); [done|]. cbv zeta. destruct (_ <? _); [done|].
  destruct (_ =? 0); [congruence|]. destruct (62 <? m + 7); [done|]. apply IH.
Qed.

Lemma read_int_stream buf pos n v p : read_stream_int buf pos n = Done (v, p) → read_int buf pos n = Ok (v, p).
Proof.
  unfold read_stream_int, read_int. destruct (negb _); [done|]. cbv zeta. destruct (get buf pos); [|done].
  destruct (_ <? _); [congruence|]. apply read_int_loop_stream.
Qed.

Lemma read_string_stream buf pos s p :
  read_stream_string buf pos = Done (s, p) → read_string buf pos = Ok (s, p).
Proof.
  unfold read_stream_string, read_string. destruct (get buf pos); [|done]. cbv zeta.
  destruct (read_stream_int buf pos 7) as [[len q]| | |] eqn:E; try done. apply read_int_stream in E as ->.
  cbn [obind]. unfold slice. destruct (checked_add q len) as [e|]; [|done].
  destruct (get_range buf q e) as [x|]; [|done]. destruct (negb _); [|congruence].
  unfold huffman_stream. destruct (Huffman.decode x); try done. simpl. by intros [= -> ->].
Qed.

(** ** Integers *)

Definition MAX_INT : Z := 2 ^ 62.

(** The octets that the loops write are read back. *)
Lemma stream_loop_roundtrip fuel : ∀ v o fuel' pre rest val m,
  Hpack.encode_int_loop fuel v = Some o → 0 ≤ v → 0 ≤ m ≤ 62 → v * 2 ^ m < 2 ^ 63 → 0 ≤ val →
  val + v * 2 ^ m ≤ U64_MAX → (length o ≤ fuel')%nat →
  stream_int_loop fuel' (pre ++ o ++ rest) (zlen pre) val m = Done (val + v * 2 ^ m, zlen pre + zlen o).
Proof.
  induction fuel as [|fuel IH]; intros v o fuel' pre rest val m Ho Hv Hm H63 Hval Hmax Hf; [done|].
  cbn [Hpack.encode_int_loop] in Ho. assert (Hpm : 0 < 2 ^ m) by (apply Z.pow_pos_nonneg; lia).
  assert (Hshr : ∀ low, 0 ≤ low → low * 2 ^ m < 2 ^ 63 →
    (64 <=? m) || (Z.shiftr U64_MAX m <? low) = false ∧ u64_shl low m = low * 2 ^ m).
  { intros low Hlow Hl. split.
    - rewrite (proj2 (Z.leb_gt _ _)), (proj2 (Z.ltb_ge _ _)); [done| |lia].
      rewrite Z.shiftr_div_pow2 by lia. apply Z.div_le_lower_bound; unfold U64_MAX; lia.
    - unfold u64_shl. rewrite Z.shiftl_mul_pow2 by lia. apply Z.mod_small. nia. }
  destruct (Z.leb_spec 128 v) as [Hbig|Hsmall].
  - destruct (Hpack.encode_int_loop fuel (Z.shiftr v 7)) as [o'|] eqn:Ho'; [|done]. injection Ho as <-.
    destruct fuel' as [|fuel']; [simpl in Hf; lia|]. cbn [app stream_int_loop]. rewrite get_app_mid. cbv zeta.
    rewrite Hpack.continuation_octet by lia. pose proof (Z.mod_pos_bound v 128 ltac:(lia)) as Hr.
    pose proof (Z.div_mod v 128 ltac:(lia)) as Hdm.
    destruct (Hpack.octet_facts (128 + v mod 128)) as [-> ->]; [unfold is_u8, U8_MAX; lia|].
    replace ((128 + v mod 128) mod 128) with (v mod 128) by (apply (Z.mod_unique _ _ 1); lia).
    rewrite (proj2 (Z.ltb_ge (128 + v mod 128) 128)) by lia.
    destruct (Hshr (v mod 128)) as [-> ->]; [lia|nia|].
    rewrite (proj2 (Z.ltb_ge U64_MAX _)) by nia.
    assert (Hm7 : m + 7 ≤ 62).
    { destruct (Z.le_gt_cases (m + 7) 62); [done|]. exfalso. assert (2 ^ 56 ≤ 2 ^ m) by (apply Z.pow_le_mono_r; lia). nia. }
    rewrite (proj2 (Z.ltb_ge 62 _)) by lia.
    rewrite Z.shiftr_div_pow2 in Ho' by lia. change (2 ^ 7) with 128 in Ho'.
    replace (pre ++ (128 + v mod 128) :: o' ++ rest) with ((pre ++ [128 + v mod 128]) ++ o' ++ rest) by (by rewrite <-app_assoc).
    replace (zlen pre + 1) with (zlen (pre ++ [128 + v mod 128])) by (rewrite zlen_app; reflexivity).
    assert (Hp7 : 2 ^ (m + 7) = 2 ^ m * 128) by (rewrite Z.pow_add_r by lia; done).
    rewrite (IH (v / 128) o' fuel'); [|done|apply Z.div_pos; lia|lia|nia|nia|nia|simpl in Hf; lia].
    autorewrite with zlen. do 2 f_equal; [|lia]. rewrite Hp7. nia.
  - injection Ho as <-. destruct fuel' as [|fuel']; [simpl in Hf; lia|]. cbn [app stream_int_loop].
    rewrite get_app_mid. cbv zeta. rewrite Z.mod_small by lia.
    destruct (Hpack.octet_facts v) as [-> ->]; [unfold is_u8, U8_MAX; lia|]. rewrite Z.mod_small by lia.
    rewrite (proj2 (Z.ltb_lt v 128)) by lia. destruct (Hshr v) as [-> ->]; [lia|nia|].
    rewrite (proj2 (Z.ltb_ge U64_MAX _)) by nia. done.
Qed.

(** An octet whose high bits are [hi] over a prefix of [p] bits. *)
Lemma prefix_octet hi p x :
  0 ≤ p ≤ 8 → is_u8 hi → hi mod 2 ^ p = 0 → 0 ≤ x < 2 ^ p → is_u8 (hi + x).
Proof.
  intros Hp Hhi Hmod Hx. unfold is_u8, U8_MAX in *. split; [lia|].
  assert (Hpow : 0 < 2 ^ p) by (apply Z.pow_pos_nonneg; lia).
  pose proof (Z.div_mod hi (2 ^ p) ltac:(lia)) as Hd. rewrite Hmod in Hd.
  replace 255 with (2 ^ p * 2 ^ (8 - p) - 1) by (rewrite <- Z.pow_add_r by lia; by replace (p + (8 - p)) with 8 by lia).
  assert (hi / 2 ^ p < 2 ^ (8 - p)).
  { apply Z.div_lt_upper_bound; [lia|]. rewrite <- Z.pow_add_r by lia. replace (p + (8 - p)) with 8 by lia. lia. }
  nia.
Qed.

(** What an integer with a prefix of [p] bits below the flags [hi] looks like
    in a buffer. *)
Definition reads_int (o : list Z) (v p hi : Z) : Prop :=
  is_bytes o ∧ (∃ x o', o = hi + x :: o' ∧ 0 ≤ x < 2 ^ p ∧ zlen o' ≤ 10)
  ∧ ∀ pre rest, read_stream_int (pre ++ o ++ rest) (zlen pre) p = Done (v, zlen pre + zlen o).

Lemma push_int_ok {E} v p hi :
  1 ≤ p ≤ 8 → 0 ≤ v < MAX_INT → is_u8 hi → hi mod 2 ^ p = 0 →
  ∃ o, push_int (E:=E) v p hi = Ok o ∧ reads_int o v p hi.
Proof.
  unfold MAX_INT. intros Hp Hv Hhi Hmod. unfold push_int. cbv zeta. rewrite Z.shiftl_mul_pow2, Z.mul_1_l by lia.
  assert (Hpow : 2 ≤ 2 ^ p ≤ 256).
  { split; [apply (Z.pow_le_mono_r 2 1); lia|apply (Z.pow_le_mono_r 2 p 8); lia]. }
  assert (Hu8 : ∀ x, 0 ≤ x < 2 ^ p → is_u8 (hi + x)) by (intros; apply (prefix_octet hi p); done || lia).
  assert (Hdec : ∀ x o pre rest, 0 ≤ x < 2 ^ p → read_stream_int (pre ++ (hi + x :: o) ++ rest) (zlen pre) p =
    if x <? 2 ^ p - 1 then Done (x, zlen pre + 1)
    else stream_int_loop 10 (pre ++ (hi + x :: o) ++ rest) (zlen pre + 1) x 0).
  { intros x o pre rest Hx. unfold read_stream_int.
    rewrite (proj2 (Z.leb_le 1 p)), (proj2 (Z.leb_le p 8)) by lia. cbn [andb negb]. cbv zeta.
    cbn [app]. rewrite get_app_mid, Z.shiftl_mul_pow2, Z.mul_1_l by lia.
    rewrite (land_ones_mod _ p) by lia. rewrite Z.add_mod, Hmod, Z.add_0_l, Z.mod_mod, (Z.mod_small x) by lia. done. }
  destruct (Z.ltb_spec v (2 ^ p - 1)) as [Hsmall|Hbig].
  - rewrite Z.mod_small, (Hpack.lor_prefix hi v p) by lia. eexists. split; [done|]. split_and!.
    + constructor; [apply Hu8; lia|constructor].
    + exists v, []. split_and!; [done|lia|lia|done].
    + intros pre rest. rewrite Hdec by lia. by rewrite (proj2 (Z.ltb_lt _ _)) by lia.
  - destruct (Hpack.encode_int_loop_total 10 (v - (2 ^ p - 1))) as (o & Ho & Hlen & _ & Hb); [lia|lia|].
    rewrite Ho, Z.mod_small, (Hpack.lor_prefix hi (2 ^ p - 1) p) by lia. eexists. split; [done|]. split_and!.
    + constructor; [apply Hu8; lia|done].
    + exists (2 ^ p - 1), o. split_and!; [done|lia|lia|unfold zlen; lia].
    + intros pre rest. rewrite Hdec by lia. rewrite (proj2 (Z.ltb_ge _ _)) by lia.
      pose proof (stream_loop_roundtrip 10 (v - (2 ^ p - 1)) o 10 (pre ++ [hi + (2 ^ p - 1)]) rest (2 ^ p - 1) 0 Ho) as H.
      change (2 ^ 0) with 1 in H. rewrite <- app_assoc in H. cbn [app] in *. autorewrite with zlen in *. rewrite Z.add_0_l in H.
      rewrite H by (unfold U64_MAX; lia). do 2 f_equal; lia.
Qed.

(** ** Strings *)

Definition reads_string (o s : list Z) : Prop :=
  is_bytes o ∧ 1 ≤ zlen o ≤ zlen s + 11
  ∧ ∀ pre rest, zlen pre + zlen o + zlen rest ≤ USIZE_MAX →
    read_stream_string (pre ++ o ++ rest) (zlen pre) = Done (s, zlen pre + zlen o).

Lemma push_string_ok {E} s :
  is_bytes s → zlen s < MAX_INT → ∃ o, push_string (E:=E) s = Ok o ∧ reads_string o s.
Proof.
  intros Hs Hz. pose proof (zlen_nonneg s). unfold push_string.
  destruct (push_int_ok (E:=E) (zlen s) 7 0) as (n & -> & Hb & (x & n' & -> & Hx & Hl) & Hr); [lia|lia|by vm_compute|done|].
  cbn [obind]. eexists. split; [done|]. pose proof (zlen_nonneg n'). split_and!.
  - by apply Forall_app.
  - autorewrite with zlen. lia.
  - autorewrite with zlen. lia.
  - intros pre rest Hmax. unfold read_stream_string. change (2 ^ 7) with 128 in Hx.
    rewrite <- app_assoc. rewrite Hr. cbn [app]. rewrite get_app_mid.
    destruct (Hpack.octet_facts (0 + x)) as [_ ->]; [unfold is_u8, U8_MAX; lia|].
    rewrite (proj2 (Z.ltb_lt _ _)) by lia. cbn [negb]. cbv zeta.
    autorewrite with zlen in *. pose proof (zlen_nonneg rest). pose proof (zlen_nonneg pre).
    unfold checked_add. rewrite (proj2 (Z.leb_le _ _)) by lia.
    change (pre ++ (0 + x) :: n' ++ s ++ rest) with (pre ++ ((0 + x) :: n') ++ s ++ rest).
    rewrite app_assoc. replace (zlen pre + (zlen n' + 1)) with (zlen (pre ++ 0 + x :: n')) by (autorewrite with zlen; lia).
    rewrite get_range_app. do 2 f_equal. autorewrite with zlen. lia.
Qed.

(** * QPACK instructions and field lines are read as they are written *)

(** ** The first octet of a line or an instruction *)

Lemma range_forall (P : Z → bool) lo n :
  forallb (λ k, P (lo + Z.of_nat k)) (seq 0 n) = true → ∀ x, 0 ≤ x < Z.of_nat n → P (lo + x) = true.
Proof.
  rewrite forallb_forall. intros H x Hx. rewrite <- (Z2Nat.id x) by lia. apply H, in_seq. lia.
Qed.

(** The tests of a first octet, for the masks [0x80], [0x40], [0x20], [0x10]
    and [0x08]. *)
Definition tests (b : Z) : list bool := map (λ m, Z.land b m =? 0) [0x80; 0x40; 0x20; 0x10; 0x08].

Definition tests_are (expected : list (option bool)) (b : Z) : bool :=
  forallb (λ '(t, e), match e with Some x => Bool.eqb t x | None => true end) (zip (tests b) expected).

Ltac octet H x :=
  let T := fresh "T" in
  match type of H with 0 ≤ x < ?n => pose proof H as T end.

Lemma octet_tests lo n e x :
  forallb (λ k, tests_are e (lo + Z.of_nat k)) (seq 0 n) = true → 0 ≤ x < Z.of_nat n → tests_are e (lo + x) = true.
Proof. intros H. by apply (range_forall (tests_are e)). Qed.

Lemma octet_C0 x : 0 ≤ x < 64 → (Z.land (0xC0 + x) 0x80 =? 0) = false ∧ (Z.land (0xC0 + x) 0x40 =? 0) = false.
Proof.
  intros Hx. pose proof (octet_tests 0xC0 64 [Some false; Some false] x eq_refl Hx) as H.
  unfold tests_are in H. cbn [tests map zip zip_with forallb] in H. bool_prop. split; by apply eqb_prop.
Qed.

Lemma octet_80 x : 0 ≤ x < 64 → (Z.land (0x80 + x) 0x80 =? 0) = false ∧ (Z.land (0x80 + x) 0x40 =? 0) = true.
Proof.
  intros Hx. pose proof (octet_tests 0x80 64 [Some false; Some true] x eq_refl Hx) as H.
  unfold tests_are in H. cbn [tests map zip zip_with forallb] in H. bool_prop. split; by apply eqb_prop.
Qed.

Lemma octet_50 x : 0 ≤ x < 16 →
  (Z.land (0x50 + x) 0x80 =? 0) = true ∧ (Z.land (0x50 + x) 0x40 =? 0) = false ∧ (Z.land (0x50 + x) 0x10 =? 0) = false.
Proof.
  intros Hx. pose proof (octet_tests 0x50 16 [Some true; Some false; None; Some false] x eq_refl Hx) as H.
  unfold tests_are in H. cbn [tests map zip zip_with forallb] in H. bool_prop. split_and!; by apply eqb_prop.
Qed.

Lemma octet_20 x : 0 ≤ x < 8 →
  (Z.land (0x20 + x) 0x80 =? 0) = true ∧ (Z.land (0x20 + x) 0x40 =? 0) = true
  ∧ (Z.land (0x20 + x) 0x20 =? 0) = false ∧ (Z.land (0x20 + x) 0x08 =? 0) = true.
Proof.
  intros Hx. pose proof (octet_tests 0x20 8 [Some true; Some true; Some false; None; Some true] x eq_refl Hx) as H.
  unfold tests_are in H. cbn [tests map zip zip_with forallb] in H. bool_prop. split_and!; by apply eqb_prop.
Qed.

Lemma octet_20_cap x : 0 ≤ x < 32 →
  (Z.land (0x20 + x) 0x80 =? 0) = true ∧ (Z.land (0x20 + x) 0x40 =? 0) = true ∧ (Z.land (0x20 + x) 0x20 =? 0) = false.
Proof.
  intros Hx. pose proof (octet_tests 0x20 32 [Some true; Some true; Some false] x eq_refl Hx) as H.
  unfold tests_are in H. cbn [tests map zip zip_with forallb] in H. bool_prop. split_and!; by apply eqb_prop.
Qed.

Lemma octet_40 x : 0 ≤ x < 32 →
  (Z.land (0x40 + x) 0x80 =? 0) = true ∧ (Z.land (0x40 + x) 0x40 =? 0) = false ∧ (Z.land (0x40 + x) 0x20 =? 0) = true.
Proof.
  intros Hx. pose proof (octet_tests 0x40 32 [Some true; Some false; Some true] x eq_refl Hx) as H.
  unfold tests_are in H. cbn [tests map zip zip_with forallb] in H. bool_prop. split_and!; by apply eqb_prop.
Qed.

Lemma octet_00 x : 0 ≤ x < 64 → (Z.land (0 + x) 0x80 =? 0) = true ∧ (Z.land (0 + x) 0x40 =? 0) = true.
Proof.
  intros Hx. pose proof (octet_tests 0 64 [Some true; Some true] x eq_refl Hx) as H.
  unfold tests_are in H. cbn [tests map zip zip_with forallb] in H. bool_prop. split; by apply eqb_prop.
Qed.

(** ** The static table *)

Lemma static_find_entry n v i : static_find n v = Some i → static_entry i = Some (n, v).
Proof.
  intros H. apply Hpack.position_spec in H as ([a b] & Hx & Hp). apply andb_true_iff in Hp as [Ha Hb].
  apply bool_decide_eq_true in Ha as ->. by apply bool_decide_eq_true in Hb as ->.
Qed.

Lemma static_find_name_entry n i : static_find_name n = Some i → ∃ v, static_entry i = Some (n, v).
Proof.
  intros H. apply Hpack.position_spec in H as ([a b] & Hx & Hp). apply bool_decide_eq_true in Hp as ->. by exists b.
Qed.

Lemma static_entry_small i h : static_entry i = Some h → 0 ≤ i < 99.
Proof. intros H. apply get_Some_lt in H. by change (zlen STATIC_BYTES) with 99 in H. Qed.

(** ** A table that never evicts *)

Definition total_size (l : list header) : Z := foldr (λ h n, entry_size h + n) 0 l.

Lemma entry_size_pos h : 32 ≤ entry_size h.
Proof. unfold entry_size, ENTRY_OVERHEAD. pose proof (zlen_nonneg h.1). pose proof (zlen_nonneg h.2). lia. Qed.

Lemma total_size_app a b : total_size (a ++ b) = total_size a + total_size b.
Proof. unfold total_size. induction a as [|h a IH]; simpl; [done|]. lia. Qed.

Lemma total_size_length l : 32 * zlen l ≤ total_size l.
Proof.
  induction l as [|h l IH]; [done|]. rewrite zlen_cons. pose proof (entry_size_pos h). simpl. lia.
Qed.

(** [limit] bounds the capacity of both tables. *)
Record whole (limit : Z) (t : DynamicTable) : Prop := {
  wh_count : insert_count t = zlen (entries t);
  wh_size : tsize t = total_size (entries t);
  wh_capacity : tsize t ≤ capacity t ≤ limit
}.

Lemma whole_get limit t abs : whole limit t → get_abs t abs = if abs <? 0 then None else get (entries t) abs.
Proof.
  intros H. unfold get_abs, oldest. rewrite (wh_count _ _ H), Z.sub_diag, Z.sub_0_r.
  destruct (Z.ltb_spec abs 0); [done|]. simpl. destruct (Z.leb_spec (zlen (entries t)) abs); [|done].
  symmetry. by apply get_None_ge.
Qed.

Lemma push_back_whole limit t h : whole limit t → tsize t + entry_size h ≤ capacity t → whole limit (push_back h t).
Proof.
  intros H Hfit. split; simpl.
  - rewrite zlen_app, (wh_count _ _ H). done.
  - rewrite total_size_app, (wh_size _ _ H). simpl. lia.
  - pose proof (wh_capacity _ _ H). pose proof (entry_size_pos h). lia.
Qed.

Lemma too_full_fits limit t es :
  whole limit t → limit ≤ USIZE_MAX → 0 ≤ es → too_full es t = (capacity t <? tsize t + es).
Proof.
  intros H Hl He. unfold too_full, checked_add. pose proof (wh_capacity _ _ H).
  destruct (Z.leb_spec (tsize t + es) USIZE_MAX); [done|]. symmetry. apply Z.ltb_lt. lia.
Qed.

Lemma insert_whole {E} limit t h :
  whole limit t → limit ≤ USIZE_MAX → tsize t + entry_size h ≤ capacity t →
  insert (E:=E) h t = Ok (true, push_back h t).
Proof.
  intros H Hl Hfit. unfold insert. pose proof (entry_size_pos h). pose proof (wh_size _ _ H).
  assert (0 ≤ tsize t) by (pose proof (total_size_length (entries t)); pose proof (zlen_nonneg (entries t)); lia).
  rewrite (proj2 (Z.ltb_ge _ _)) by lia. cbn [make_room].
  rewrite (too_full_fits limit) by (done || lia). by rewrite (proj2 (Z.ltb_ge _ _)) by lia.
Qed.

(** ** Instructions *)

Inductive op :=
  | OpCapacity (c : Z)
  | OpInsert (h : header).

Definition apply_op (o : op) (t : DynamicTable) : DynamicTable :=
  match o with
  | OpCapacity c => mkTable (entries t) (insert_count t) c (tsize t)
  | OpInsert h => push_back h t
  end.

Definition op_ok (limit : Z) (o : op) (t : DynamicTable) : Prop :=
  match o with
  | OpCapacity c => tsize t ≤ c ≤ limit
  | OpInsert h => tsize t + entry_size h ≤ capacity t ∧ Hpack.header_bytes h
  end.

Definition op_bytes (o : op) : outcome unit (list Z) :=
  match o with
  | OpCapacity c => push_int c 5 0x20
  | OpInsert h => insert_instruction h
  end.

Lemma apply_op_whole limit o t : whole limit t → op_ok limit o t → whole limit (apply_op o t).
Proof.
  intros H Ho. destruct o as [c|h]; [|by apply push_back_whole; [|apply Ho]].
  split; simpl; [apply H|apply H|apply Ho].
Qed.

(** The octets of an instruction do it, wherever they are in the buffer. *)
Definition does (limit : Z) (o : op) (i : list Z) : Prop :=
  1 ≤ zlen i ∧ ∀ mc pre rest t b,
    whole limit t → op_ok limit o t → limit ≤ mc → get i 0 = Some b → zlen pre + zlen i + zlen rest ≤ USIZE_MAX →
    instruction mc (pre ++ i ++ rest) (zlen pre) b t = Ok (Some (apply_op o t, zlen pre + zlen i)).

Lemma capacity_does limit c :
  0 ≤ c < MAX_INT → limit ≤ USIZE_MAX →
  ∃ i, op_bytes (OpCapacity c) = Ok i ∧ zlen i ≤ 11 ∧ does limit (OpCapacity c) i.
Proof.
  intros Hc Hl. simpl. destruct (push_int_ok (E:=unit) c 5 0x20) as (i & -> & _ & (x & i' & Hi & Hx & Hlen) & Hr);
    [lia|done|by vm_compute|done|].
  exists i. split; [done|]. pose proof (zlen_nonneg i'). assert (Hz : zlen i = zlen i' + 1) by (subst; apply zlen_cons).
  split; [lia|]. split; [lia|]. intros mc pre rest t b Ht Ho Hmc Hb Hmax. unfold instruction.
  assert (b = 0x20 + x) as -> by (subst i; by injection Hb).
  change (2 ^ 5) with 32 in Hx. destruct (octet_20_cap x Hx) as (-> & -> & ->). cbn [negb].
  rewrite Hr. cbn [stream_value]. simpl in Ho. rewrite (proj2 (Z.ltb_ge mc c)) by lia.
  unfold set_capacity. simpl. rewrite (proj2 (Z.ltb_ge c (tsize t))) by lia. done.
Qed.

Lemma insert_does limit h :
  Hpack.header_bytes h → entry_size h ≤ limit → limit < MAX_INT →
  ∃ i, op_bytes (OpInsert h) = Ok i ∧ zlen i ≤ entry_size h + 22 ∧ does limit (OpInsert h) i.
Proof.
  intros [Hn Hv] Hs Hl. simpl. unfold insert_instruction.
  assert (Hl' : limit ≤ USIZE_MAX) by (unfold MAX_INT, USIZE_MAX in *; lia).
  pose proof (zlen_nonneg h.1) as Hn0. pose proof (zlen_nonneg h.2) as Hv0. unfold entry_size, ENTRY_OVERHEAD in Hs.
  destruct (push_string_ok (E:=unit) h.2 Hv) as (v & Ev & Hvb & Hvl & Hvr); [lia|].
  assert (Hdone : ∀ limit t p, whole limit t → limit ≤ USIZE_MAX → op_ok limit (OpInsert h) t →
    insert_instr h t p = Ok (Some (push_back h t, p))).
  { intros limit' t p Ht Hl'' [Hfit _]. unfold insert_instr. by rewrite (insert_whole limit') by done. }
  destruct (static_find_name h.1) as [idx|] eqn:Ef.
  - apply static_find_name_entry in Ef as [v0 Ef]. pose proof (static_entry_small _ _ Ef).
    destruct (push_int_ok (E:=unit) idx 6 0xC0) as (n & -> & _ & (x & n' & Hi & Hx & Hlen) & Hr);
      [lia|unfold MAX_INT; lia|by vm_compute|done|].
    cbn [obind]. rewrite Ev. cbn [obind]. exists (n ++ v). split; [done|]. pose proof (zlen_nonneg n').
    assert (Hz : zlen n = zlen n' + 1) by (subst; apply zlen_cons).
    split; [rewrite zlen_app; unfold entry_size, ENTRY_OVERHEAD; lia|]. split; [rewrite zlen_app; lia|].
    intros mc pre rest t b Ht Ho Hmc Hb Hmax. unfold instruction.
    assert (b = 0xC0 + x) as -> by (subst n; by injection Hb).
    change (2 ^ 6) with 64 in Hx. destruct (octet_C0 x Hx) as (-> & ->). cbn [negb].
    rewrite <- app_assoc. rewrite Hr. cbn [stream_value]. rewrite zlen_app in Hmax.
    rewrite app_assoc. replace (zlen pre + zlen n) with (zlen (pre ++ n)) by apply zlen_app.
    rewrite Hvr by (rewrite zlen_app; lia). cbn [stream_value]. rewrite Ef. cbn [or_err obind fst].
    rewrite <- surjective_pairing, (Hdone limit) by done. by rewrite !zlen_app, Z.add_assoc.
  - destruct (push_int_ok (E:=unit) (zlen h.1) 5 0x40) as (n & -> & _ & (x & n' & Hi & Hx & Hlen) & Hr);
      [lia|lia|by vm_compute|done|].
    cbn [obind]. rewrite Ev. cbn [obind]. exists ((n ++ h.1) ++ v). split; [done|]. pose proof (zlen_nonneg n').
    assert (Hz : zlen n = zlen n' + 1) by (subst; apply zlen_cons).
    split; [rewrite !zlen_app; unfold entry_size, ENTRY_OVERHEAD; lia|]. split; [rewrite !zlen_app; lia|].
    intros mc pre rest t b Ht Ho Hmc Hb Hmax. unfold instruction.
    assert (b = 0x40 + x) as -> by (subst n; by injection Hb).
    change (2 ^ 5) with 32 in Hx. destruct (octet_40 x Hx) as (-> & -> & ->). cbn [negb].
    rewrite <- !app_assoc. rewrite Hr. cbn [stream_value]. rewrite !zlen_app in Hmax. pose proof (zlen_nonneg rest).
    unfold checked_add. rewrite (proj2 (Z.leb_le _ _)) by lia.
    rewrite (app_assoc pre n). replace (zlen pre + zlen n) with (zlen (pre ++ n)) by apply zlen_app.
    rewrite get_range_app. cbn [stream_value].
    rewrite app_assoc. replace (zlen (pre ++ n) + zlen h.1) with (zlen ((pre ++ n) ++ h.1)) by apply zlen_app.
    rewrite Hvr by (rewrite !zlen_app; lia). cbn [stream_value].
    rewrite <- surjective_pairing, (Hdone limit) by done. rewrite !zlen_app. do 3 f_equal. lia.
Qed.

(** ** Instructions that are cut *)

(** What a continuation needs of the position it is given. *)
Definition cut (r : instr) (rb : instr) (pos : Z) (b : list Z) : Prop :=
  ∀ t' p, r = Ok (Some (t', p)) →
  pos ≤ p ∧ (p ≤ zlen b → rb = Ok (Some (t', p))) ∧ (zlen b < p → rb = Ok None).

(** A read and its continuation over a buffer and its start. *)
Lemma stream_value_cut {A} (f : list Z → StreamParse (A * Z)) (k kb : A * Z → instr) t pos b r :
  streams f pos → pos < zlen b →
  (∀ v q, pos < q → q ≤ zlen b → cut (k (v, q)) (kb (v, q)) q b) →
  (∀ v q t' p, pos < q → k (v, q) = Ok (Some (t', p)) → q ≤ p) →
  cut (stream_value t (f (b ++ r)) k) (stream_value t (f b) kb) pos b.
Proof.
  intros Hf Hlt Hk Hmono t' p H. destruct (f (b ++ r)) as [[v q]| | |] eqn:E; try done. simpl in H.
  destruct (Hf b r v q E Hlt) as (H1 & H2 & H3). pose proof (Hmono _ _ _ _ H1 H) as H4.
  split_and!; [lia| |].
  - intros Hp. rewrite H2 by lia. simpl. by apply (Hk v q H1 ltac:(lia) t' p H).
  - intros Hp. destruct (decide (q ≤ zlen b)) as [Hq|Hq].
    + rewrite H2 by done. simpl. by apply (Hk v q H1 Hq t' p H).
    + by rewrite H3 by lia.
Qed.

Lemma cut_same r pos b : (∀ t' p, r = Ok (Some (t', p)) → p = pos) → pos ≤ zlen b → cut r r pos b.
Proof. intros H Hp t' p Hr. rewrite (H _ _ Hr). split_and!; [lia|by rewrite <- (H _ _ Hr)|lia]. Qed.

Lemma insert_instr_pos h t pos t' p : insert_instr h t pos = Ok (Some (t', p)) → p = pos.
Proof. unfold insert_instr. destruct (insert h t) as [[[] t1]| | |]; simpl; congruence. Qed.

(** Reading a string at the end of the buffer waits for more. *)
Lemma read_stream_string_end b pos : zlen b ≤ pos → read_stream_string b pos = Incomplete.
Proof. intros H. unfold read_stream_string. by rewrite get_past. Qed.

Lemma string_cut (k : bytes * Z → instr) t pos b r :
  0 ≤ pos ≤ zlen b → (∀ v q t' p, k (v, q) = Ok (Some (t', p)) → p = q) →
  cut (stream_value t (read_stream_string (b ++ r) pos) k) (stream_value t (read_stream_string b pos) k) pos b.
Proof.
  intros Hp Hk. destruct (decide (pos < zlen b)) as [Hlt|Hge].
  - apply (stream_value_cut (λ b, read_stream_string b pos)); [by apply read_stream_string_streams; lia|done| |].
    + intros v q H1 H2. apply cut_same; [eauto|done].
    + intros v q t' p H1 H. by rewrite (Hk _ _ _ _ H).
  - intros t' p H. rewrite (read_stream_string_end b) by lia.
    destruct (read_stream_string (b ++ r) pos) as [[v q]| | |] eqn:E; try done. simpl in H.
    pose proof (Hk _ _ _ _ H) as ->. apply read_string_stream in E as E'.
    destruct (read_stream_string_streams pos (proj1 Hp) (b ++ r) [] v q) as (H1 & _); [by rewrite app_nil_r| |].
    + unfold read_stream_string in E. destruct (get (b ++ r) pos) as [x|] eqn:Ex; [|done]. apply get_Some_lt in Ex. lia.
    + split_and!; [lia|lia|done].
Qed.

Lemma string_mono (k : bytes * Z → instr) t pos buf t' p :
  0 ≤ pos → (∀ v q t' p, k (v, q) = Ok (Some (t', p)) → p = q) →
  stream_value t (read_stream_string buf pos) k = Ok (Some (t', p)) → pos < p.
Proof.
  intros Hp Hk H. destruct (read_stream_string buf pos) as [[v q]| | |] eqn:E; try done. simpl in H.
  pose proof (Hk _ _ _ _ H) as ->.
  destruct (read_stream_string_streams pos Hp buf [] v q) as (H1 & _); [by rewrite app_nil_r| |done].
  unfold read_stream_string in E. destruct (get buf pos) as [x|] eqn:Ex; [|done]. apply get_Some_lt in Ex. lia.
Qed.

Lemma name_insert_pos {A} (o : outcome DynamicTable A) (f : A → header) t q t' p :
  obind o (λ n, insert_instr (f n) t q) = Ok (Some (t', p)) → p = q.
Proof. destruct o; try done. apply insert_instr_pos. Qed.

Lemma instruction_cut mc x t pos b r :
  0 ≤ pos < zlen b → cut (instruction mc (b ++ r) pos x t) (instruction mc b pos x t) pos b.
Proof.
  intros Hp. unfold instruction. destruct (negb (Z.land x 128 =? 0)).
  { apply (stream_value_cut (λ b, read_stream_int b pos 6)); [apply read_stream_int_streams; lia|lia| |].
    - intros v q H1 H2. apply string_cut; [lia|]. intros n q' t' p. apply name_insert_pos.
    - intros v q t' p H1 H. apply string_mono in H; [lia|lia|]. intros n q' t'' p'. apply name_insert_pos. }
  destruct (negb (Z.land x 64 =? 0)).
  { apply (stream_value_cut (λ b, read_stream_int b pos 5)); [apply read_stream_int_streams; lia|lia| |].
    - intros v q H1 H2. cbn beta iota. destruct (checked_add q v) as [e|]; [|by intros ? ?].
      destruct (get_range (b ++ r) q e) as [s|] eqn:Er; [|by intros ? ?].
      pose proof (get_range_Some _ _ _ _ Er) as (Hqe & _). destruct (get_range_grow _ _ _ _ _ Er) as [H4 H5].
      assert (Hk : ∀ n v q' t' p, insert_instr (n, v) t q' = Ok (Some (t', p)) → p = q') by (intros *; apply insert_instr_pos).
      intros t' p H. destruct (if negb _ then _ else _) as [n| | |] eqn:En; try done. cbn [stream_value] in *.
      destruct (decide (e ≤ zlen b)) as [He|He].
      + rewrite H4 by done. rewrite En. cbn [stream_value].
        eapply (string_cut _ t e b r) in H as (Ha & Hb & Hc); [split_and!; [lia|exact Hb|exact Hc]|lia|eauto].
      + rewrite H5 by lia. apply string_mono in H; [|lia|eauto]. split_and!; [lia|lia|done].
    - intros v q t' p H1. cbn beta iota. destruct (checked_add q v) as [e|]; [|done].
      destruct (get_range (b ++ r) q e) as [s|] eqn:Er; [|done].
      pose proof (get_range_Some _ _ _ _ Er) as (Hqe & _).
      destruct (if negb _ then _ else _) as [n| | |]; try done. cbn [stream_value]. intros H.
      apply string_mono in H; [lia|lia|]. intros *. apply insert_instr_pos. }
  destruct (negb (Z.land x 32 =? 0)).
  { apply (stream_value_cut (λ b, read_stream_int b pos 5)); [apply read_stream_int_streams; lia|lia| |].
    - intros v q H1 H2. apply cut_same; [|done]. intros t' p. destruct (_ <? _); [done|].
      destruct (set_capacity v t); simpl; congruence.
    - intros v q t' p H1. destruct (_ <? _); [done|]. destruct (set_capacity v t); simpl; [|done..].
      intros [= <- <-]. lia. }
  apply (stream_value_cut (λ b, read_stream_int b pos 5)); [apply read_stream_int_streams; lia|lia| |].
  - intros v q H1 H2. apply cut_same; [|done]. intros t' p. destruct (back_from _ _ _); try done. simpl.
    destruct (or_err _ _); try done. apply insert_instr_pos.
  - intros v q t' p H1. destruct (back_from _ _ _); try done. simpl. destruct (or_err _ _); try done. simpl.
    intros H%insert_instr_pos. lia.
Qed.

(** ** The encoder stream *)

Fixpoint apply_ops (os : list op) (t : DynamicTable) : DynamicTable :=
  match os with [] => t | o :: os => apply_ops os (apply_op o t) end.

(** A list of instructions that fits a table, and its octets. *)
Fixpoint ops_ok (limit : Z) (os : list op) (t : DynamicTable) : Prop :=
  match os with
  | [] => True
  | o :: os => op_ok limit o t ∧ (∃ i, op_bytes o = Ok i ∧ zlen i ≤ limit + 22 ∧ does limit o i) ∧ ops_ok limit os (apply_op o t)
  end.

Fixpoint ops_bytes (os : list op) : outcome unit (list Z) :=
  match os with
  | [] => Ok []
  | o :: os => try! i := op_bytes o in try! r := ops_bytes os in Ok (i ++ r)
  end.

Lemma ops_bytes_total limit os t : ops_ok limit os t → ∃ r, ops_bytes os = Ok r.
Proof.
  revert t. induction os as [|o os IH]; intros t; [by eexists|].
  intros (_ & (i & Hi & _) & (r & Hr)%IH). simpl. rewrite Hi. simpl. rewrite Hr. by eexists.
Qed.

Lemma ops_bytes_app a b : ops_bytes (a ++ b) = try! x := ops_bytes a in try! y := ops_bytes b in Ok (x ++ y).
Proof.
  induction a as [|o a IH]; simpl; [by destruct (ops_bytes b)|]. rewrite IH. destruct (op_bytes o); try done. simpl.
  destruct (ops_bytes a); try done. simpl. destruct (ops_bytes b); try done. simpl. by rewrite app_assoc.
Qed.

Lemma apply_ops_app a b t : apply_ops (a ++ b) t = apply_ops b (apply_ops a t).
Proof. revert t. induction a; intros t; simpl; auto. Qed.

Lemma ops_ok_app limit a b t : ops_ok limit (a ++ b) t ↔ ops_ok limit a t ∧ ops_ok limit b (apply_ops a t).
Proof. revert t. induction a as [|o a IH]; intros t; simpl; [tauto|]. rewrite IH. tauto. Qed.

Lemma apply_ops_whole limit os t : whole limit t → ops_ok limit os t → whole limit (apply_ops os t).
Proof.
  revert t. induction os as [|o os IH]; intros t Ht; [done|]. intros (Ho & _ & Hos). simpl.
  apply IH; [by apply apply_op_whole|done].
Qed.

(** The loop does the whole instructions in its buffer and keeps the rest. *)
Lemma instructions_ok limit mc os : limit ≤ mc → ∀ fuel pre buf future t,
  whole limit t → ops_ok limit os t → ops_bytes os = Ok (buf ++ future) →
  zlen pre + zlen buf + zlen future ≤ USIZE_MAX → (length buf < fuel)%nat →
  ∃ a c rest, os = a ++ c ∧ instructions fuel mc (pre ++ buf) (zlen pre) t = Ok (apply_ops a t, rest)
    ∧ ops_bytes c = Ok (rest ++ future) ∧ zlen rest ≤ limit + 22.
Proof.
  intros Hmc. induction os as [|o os IH]; intros fuel pre buf future t Ht Hok Hb Hmax Hf.
  { injection Hb as Hb. symmetry in Hb. apply app_nil in Hb as [-> ->]. exists [], [], [].
    destruct fuel as [|fuel]; [lia|]. simpl. rewrite app_nil_r, get_past by lia.
    pose proof (wh_capacity _ _ Ht). pose proof (wh_size _ _ Ht). pose proof (total_size_length (entries t)).
    pose proof (zlen_nonneg (entries t)). split_and!; [done..|unfold zlen; simpl; lia]. }
  destruct Hok as (Ho & (i & Hi & Hil & Hi1 & Hdo) & Hos). simpl in Hb. rewrite Hi in Hb. cbn [obind] in Hb.
  destruct (ops_bytes os) as [tail| | |] eqn:Et; try done. cbn [obind] in Hb. injection Hb as Hb.
  pose proof (zlen_nonneg future). pose proof (zlen_nonneg buf). pose proof (zlen_nonneg pre).
  destruct fuel as [|fuel]; [lia|]. cbn [instructions].
  destruct buf as [|x buf'] eqn:Ebuf.
  { rewrite app_nil_r, get_past by lia. exists [], (o :: os), []. split_and!; [done|done| |unfold zlen; simpl; lia].
    simpl. rewrite Hi. simpl. rewrite Et. simpl. by f_equal. }
  rewrite get_app_mid. rewrite <- Ebuf in *.
  assert (1 ≤ zlen buf) by (rewrite Ebuf, zlen_cons; pose proof (zlen_nonneg buf'); lia).
  assert (Hx : get buf 0 = Some x) by by subst.
  assert (Hi0 : get i 0 = Some x).
  { rewrite <- (get_app_l i tail) by lia. rewrite Hb. by subst. }
  pose proof (zlen_nonneg tail) as Htl. assert (Hlen : zlen i + zlen tail = zlen buf + zlen future).
  { rewrite <- !zlen_app. by rewrite Hb. }
  pose proof (Hdo mc pre tail t x Ht Ho Hmc Hi0 ltac:(lia)) as Hins. rewrite Hb in Hins.
  destruct (decide (zlen i ≤ zlen buf)) as [Hle|Hgt].
  - (* the whole instruction is there *)
    assert (∃ buf2, buf = i ++ buf2 ∧ tail = buf2 ++ future) as (buf2 & E1 & E2).
    { apply app_eq_inv in Hb as [(k & -> & ->)|(k & -> & ->)]; [|by exists k].
      rewrite zlen_app in Hle. pose proof (zlen_nonneg k). assert (zlen k = 0) by lia. destruct k; [|rewrite zlen_cons in *; pose proof (zlen_nonneg k); lia].
      exists []. by rewrite !app_nil_r. }
    assert (Hb2 : zlen buf = zlen i + zlen buf2) by (rewrite E1; apply zlen_app).
    destruct (instruction_cut mc x t (zlen pre) (pre ++ buf) future) with (t' := apply_op o t) (p := zlen pre + zlen i)
      as (_ & Hsome & _); [rewrite zlen_app; lia|by rewrite <- app_assoc|].
    rewrite Hsome by (rewrite zlen_app; lia). cbn [obind]. rewrite E1, app_assoc.
    replace (zlen pre + zlen i) with (zlen (pre ++ i)) by apply zlen_app.
    subst tail. destruct (IH fuel (pre ++ i) buf2 future (apply_op o t)) as (a & c & rest & Ha & Hr & Hc & Hl).
    + by apply apply_op_whole.
    + done.
    + done.
    + rewrite zlen_app. lia.
    + unfold zlen in *. lia.
    + exists (o :: a), c, rest. split_and!; [by rewrite Ha|exact Hr|done|done].
  - (* it is cut *)
    destruct (instruction_cut mc x t (zlen pre) (pre ++ buf) future) with (t' := apply_op o t) (p := zlen pre + zlen i)
      as (_ & _ & Hnone); [rewrite zlen_app; lia|by rewrite <- app_assoc|].
    rewrite Hnone by (rewrite zlen_app; lia). cbn [obind]. exists [], (o :: os), buf. split_and!; [done| | |lia].
    + simpl. do 2 f_equal. unfold zlen. rewrite Nat2Z.id. apply drop_app_length.
    + simpl. rewrite Hi. simpl. rewrite Et. simpl. by f_equal.
Qed.

(** ** Field lines *)

(** The header that a plan stands for, over the entries [L] of the encoder. *)
Definition denotes (L : list header) (p : FieldPlan) (h : header) : Prop :=
  match p with
  | Static i => static_entry i = Some h
  | Dynamic abs => get L abs = Some h
  | LiteralNameRef i v => (∃ v0, static_entry i = Some (h.1, v0)) ∧ v = h.2
  | Literal n v => h = (n, v)
  end.

(** A plan refers only to entries below [n]. *)
Definition refers_below (n : Z) (p : FieldPlan) : Prop :=
  match p with Dynamic abs => 0 ≤ abs < n | _ => True end.

Definition line_ok (limit : Z) (h : header) : Prop := Hpack.header_bytes h ∧ entry_size h ≤ limit.

(** The line of a plan, read with a table that has the entries it refers to. *)
Lemma write_field_ok L base p h limit :
  denotes L p h → line_ok limit h → limit < MAX_INT → zlen L < MAX_INT → refers_below base p → 0 ≤ base < MAX_INT →
  ∃ o, write_field base p = Ok o ∧ 1 ≤ zlen o ≤ entry_size h + 22 ∧
    ∀ t pre rest b, zlen pre + zlen o + zlen rest ≤ USIZE_MAX → get o 0 = Some b →
      (∀ abs, p = Dynamic abs → get_abs t abs = Some h) →
      dynamic_field t base (pre ++ o ++ rest) (zlen pre) b = Ok (h, zlen pre + zlen o).
Proof.
  intros Hd [[Hhn Hhv] Hsz] Hlim HL Hbelow Hbase.
  unfold entry_size, ENTRY_OVERHEAD in *. pose proof (zlen_nonneg h.1). pose proof (zlen_nonneg h.2).
  destruct p as [i|abs|i v|n v]; simpl in Hd, Hbelow |- *.
  - pose proof (static_entry_small _ _ Hd).
    destruct (push_int_ok (E:=unit) i 6 0xC0) as (o & -> & _ & (x & o' & Hi & Hx & Hlen) & Hr);
      [lia|unfold MAX_INT; lia|by vm_compute|done|].
    exists o. pose proof (zlen_nonneg o'). assert (Hz : zlen o = zlen o' + 1) by (subst; apply zlen_cons).
    split_and!; [done|lia..|]. intros t pre rest b _ Hb _. unfold dynamic_field.
    assert (b = 0xC0 + x) as -> by (subst o; by injection Hb).
    change (2 ^ 6) with 64 in Hx. destruct (octet_C0 x Hx) as (-> & ->). cbn [negb].
    rewrite (read_int_stream _ _ _ _ _ (Hr pre rest)). simpl. by rewrite Hd.
  - rewrite (proj2 (Z.ltb_ge _ _)) by lia.
    destruct (push_int_ok (E:=unit) (base - 1 - abs) 6 0x80) as (o & -> & _ & (x & o' & Hi & Hx & Hlen) & Hr);
      [lia|lia|by vm_compute|done|].
    exists o. pose proof (zlen_nonneg o'). assert (Hz : zlen o = zlen o' + 1) by (subst; apply zlen_cons).
    split_and!; [done|lia..|]. intros t pre rest b _ Hb Hget. unfold dynamic_field.
    assert (b = 0x80 + x) as -> by (subst o; by injection Hb).
    change (2 ^ 6) with 64 in Hx. destruct (octet_80 x Hx) as (-> & ->). cbn [negb].
    rewrite (read_int_stream _ _ _ _ _ (Hr pre rest)). cbn [obind]. unfold back_from, checked_sub, MAX_INT, U64_MAX in *.
    rewrite (proj2 (Z.ltb_ge _ _)), (proj2 (Z.leb_le _ _)) by lia. cbn [obind].
    replace (base - (1 + (base - 1 - abs))) with abs by lia. by rewrite (Hget abs eq_refl).
  - destruct Hd as [[v0 Hd] ->]. pose proof (static_entry_small _ _ Hd).
    destruct (push_int_ok (E:=unit) i 4 0x50) as (n & -> & _ & (x & o' & Hi & Hx & Hlen) & Hr);
      [lia|unfold MAX_INT; lia|by vm_compute|done|].
    destruct (push_string_ok (E:=unit) h.2 Hhv) as (v & Ev & _ & Hvl & Hvr); [lia|].
    cbn [obind]. rewrite Ev. cbn [obind]. exists (n ++ v). pose proof (zlen_nonneg o').
    assert (Hz : zlen n = zlen o' + 1) by (subst; apply zlen_cons).
    split_and!; [done|rewrite zlen_app; lia..|]. intros t pre rest b Hmax Hb _. unfold dynamic_field.
    assert (b = 0x50 + x) as -> by (subst n; by injection Hb).
    change (2 ^ 4) with 16 in Hx. destruct (octet_50 x Hx) as (-> & -> & ->). cbn [negb].
    rewrite <- app_assoc, (read_int_stream _ _ _ _ _ (Hr pre (v ++ rest))). cbn [obind]. rewrite zlen_app in Hmax.
    rewrite app_assoc. replace (zlen pre + zlen n) with (zlen (pre ++ n)) by apply zlen_app.
    rewrite (read_string_stream _ _ _ _ (Hvr (pre ++ n) rest ltac:(rewrite zlen_app; lia))). cbn [obind]. rewrite Hd. cbn [from_option obind fst].
    rewrite <- surjective_pairing, !zlen_app. do 2 f_equal. lia.
  - subst h. cbn [fst snd] in *.
    destruct (push_int_ok (E:=unit) (zlen n) 3 0x20) as (m & -> & _ & (x & o' & Hi & Hx & Hlen) & Hr);
      [lia|lia|by vm_compute|done|].
    destruct (push_string_ok (E:=unit) v Hhv) as (w & Ew & _ & Hwl & Hwr); [lia|].
    cbn [obind]. rewrite Ew. cbn [obind]. exists (m ++ n ++ w). pose proof (zlen_nonneg o').
    assert (Hz : zlen m = zlen o' + 1) by (subst; apply zlen_cons).
    split_and!; [done|rewrite !zlen_app; lia..|]. intros t pre rest b Hmax Hb _. unfold dynamic_field.
    assert (b = 0x20 + x) as -> by (subst m; by injection Hb).
    change (2 ^ 3) with 8 in Hx. destruct (octet_20 x Hx) as (-> & -> & -> & Hhuff). cbn [negb].
    unfold read_literal_name. rewrite Hhuff. cbn [negb]. cbv zeta. rewrite <- !app_assoc.
    rewrite (read_int_stream _ _ _ _ _ (Hr pre (n ++ w ++ rest))). cbn [obind]. rewrite !zlen_app in Hmax.
    pose proof (zlen_nonneg rest). unfold slice, checked_add. rewrite (proj2 (Z.leb_le _ _)) by lia.
    rewrite (app_assoc pre m). replace (zlen pre + zlen m) with (zlen (pre ++ m)) by apply zlen_app.
    rewrite get_range_app. cbn [obind].
    rewrite app_assoc. replace (zlen (pre ++ m) + zlen n) with (zlen ((pre ++ m) ++ n)) by apply zlen_app.
    rewrite (read_string_stream _ _ _ _ (Hwr ((pre ++ m) ++ n) rest ltac:(rewrite !zlen_app; lia))). cbn [obind].
    rewrite !zlen_app. do 2 f_equal. lia.
Qed.

Lemma add_field_ok n out h :
  0 ≤ n → n + entry_size h ≤ MAX_SECTION_SIZE → zlen out < MAX_SECTION_FIELDS →
  add_field n out h = Some (n + entry_size h).
Proof.
  unfold entry_size. intros Hn Hs Ho. unfold add_field, checked_add. pose proof (zlen_nonneg h.1). pose proof (zlen_nonneg h.2).
  unfold MAX_SECTION_SIZE, USIZE_MAX in *. rewrite (proj2 (Z.leb_le _ _)) by lia.
  rewrite (proj2 (Z.leb_le _ _)), (proj2 (Z.ltb_lt _ _)) by lia. done.
Qed.

(** All the lines of a section. *)
Lemma write_fields_ok L base limit ps hs :
  Forall2 (denotes L) ps hs → Forall (line_ok limit) hs → limit < MAX_INT → zlen L < MAX_INT →
  Forall (refers_below base) ps → 0 ≤ base < MAX_INT →
  ∃ o, write_fields base ps = Ok o ∧ zlen o ≤ 2 * total_size hs ∧
    ∀ t pre fuel n out, zlen pre + zlen o ≤ USIZE_MAX → (length o < fuel)%nat →
      (∀ abs h, Dynamic abs ∈ ps → get L abs = Some h → get_abs t abs = Some h) →
      0 ≤ n → n + total_size hs ≤ MAX_SECTION_SIZE → zlen out + zlen hs ≤ MAX_SECTION_FIELDS →
      fields_loop fuel (dynamic_field t base (pre ++ o)) (pre ++ o) (zlen pre) n out = Ok (out ++ hs).
Proof.
  intros Hd Hl Hlim HL Hb Hbase. induction Hd as [|p h ps hs Hp Hd IH].
  { exists []. split; [done|]. split; [done|]. intros t pre fuel n out _ Hf _ _ _ _. destruct fuel; [lia|]. simpl.
    rewrite app_nil_r, get_past by lia. by rewrite app_nil_r. }
  apply Forall_cons in Hl as [Hl1 Hl], Hb as [Hb1 Hb]. destruct (IH Hl Hb) as (o & Ho & Hol & Hr).
  destruct (write_field_ok L base p h limit) as (a & Ha & Ha1 & Hread); [done..|].
  simpl. rewrite Ha. cbn [obind]. rewrite Ho. cbn [obind]. exists (a ++ o). split; [done|].
  split; [pose proof (entry_size_pos h); rewrite zlen_app; simpl; lia|].
  intros t pre fuel n out Hmax Hf Hget Hn Hsize Hcount. rewrite zlen_app, zlen_cons in *. simpl in Hsize.
  destruct fuel as [|fuel]; [lia|]. cbn [fields_loop]. pose proof (zlen_nonneg o).
  destruct (get_is_Some a 0) as [b Hab]; [lia|].
  assert (get (pre ++ a ++ o) (zlen pre) = Some b) as ->.
  { rewrite get_app_r, Z.sub_diag by lia. by rewrite get_app_l by lia. }
  rewrite Hread; [|lia|done|intros abs ->; apply Hget; [by left|done]]. cbn [obind].
  assert (0 ≤ total_size hs) by (pose proof (total_size_length hs); pose proof (zlen_nonneg hs); lia).
  pose proof (zlen_nonneg hs). rewrite add_field_ok by lia.
  rewrite app_assoc. replace (zlen pre + zlen a) with (zlen (pre ++ a)) by apply zlen_app.
  pose proof (entry_size_pos h).
  rewrite Hr; [by rewrite <- app_assoc| | |intros; apply Hget; [by right|done]|lia|lia|].
  - rewrite zlen_app. lia.
  - rewrite length_app in Hf. unfold zlen in Ha1. lia.
  - rewrite zlen_app. change (zlen [h]) with 1. lia.
Qed.
