(* ===== verification/QpackSync.v ===== *)
(** * Two QPACK endpoints over two ordered streams

    One side's encoder and the other side's decoder, the instructions in
    flight between them, cut anywhere, and the sections the encoder has sent:
    the invariant that keeps the two tables in step. *)

From S2P Require Import Prelude Varint Qpack QpackCodec.
From S2P Require Huffman Hpack.

#[local] Open Scope outcome_scope.

(** ** Plans *)

Lemma find_last_get h l : ∀ i j, find_last h i l = Some j → i ≤ j ∧ get l (j - i) = Some h.
Proof.
  induction l as [|x l IH]; intros i j; simpl; [done|].
  destruct (find_last h (i + 1) l) as [k|] eqn:E.
  - intros [= <-]. apply IH in E as [H1 H2]. split; [lia|]. rewrite get_cons_pos by lia.
    by replace (k - i - 1) with (k - (i + 1)) by lia.
  - case_bool_decide; [|done]. intros [= <-]. rewrite Z.sub_diag. subst. by split; [lia|].
Qed.

Lemma find_get limit t h abs : whole limit t → find h t = Some abs → 0 ≤ abs ∧ get (entries t) abs = Some h.
Proof.
  intros Ht H. unfold find, oldest in H. rewrite (wh_count _ _ Ht), Z.sub_diag in H.
  apply find_last_get in H. by rewrite Z.sub_0_r in H.
Qed.

Lemma literal_plan_denotes L h : denotes L (literal_plan h) h.
Proof.
  unfold literal_plan. destruct (static_find_name h.1) as [i|] eqn:E; simpl.
  - split; [by apply static_find_name_entry|done].
  - by destruct h.
Qed.

Lemma literal_plan_refers n h : refers_below n (literal_plan h).
Proof. unfold literal_plan. by destruct (static_find_name h.1). Qed.

Lemma denotes_app L k p h : denotes L p h → denotes (L ++ k) p h.
Proof. destruct p; simpl; try done. apply get_Some_app. Qed.

Lemma plan_count_nonneg ps : 0 ≤ plan_count ps.
Proof. unfold plan_count. induction ps as [|p ps IH]; simpl; [lia|]. destruct p; lia. Qed.

Lemma plan_count_below n ps : 0 ≤ n → Forall (refers_below n) ps → plan_count ps ≤ n.
Proof. intros Hn. unfold plan_count. induction 1 as [|p ps Hp _ IH]; simpl; [lia|]. destruct p; simpl in Hp; lia. Qed.

Lemma plan_count_member ps abs : Dynamic abs ∈ ps → abs < plan_count ps.
Proof.
  unfold plan_count. induction ps as [|p ps IH]; [by intros ?%elem_of_nil|].
  intros [<-|H]%elem_of_cons; simpl; [lia|]. apply IH in H. destruct p; lia.
Qed.

Lemma refers_plan_count n ps : Forall (refers_below n) ps → Forall (refers_below (plan_count ps)) ps.
Proof.
  intros H. apply Forall_forall. intros p Hp. rewrite Forall_forall in H. specialize (H _ Hp).
  destruct p; try done. simpl in *. apply plan_count_member in Hp. lia.
Qed.

(** Everything of an encoder but its table and its pending instructions. *)
Definition same_encoder (e e' : Encoder) : Prop :=
  peer_max_capacity e' = peer_max_capacity e ∧ capacity_sent e' = capacity_sent e
  ∧ known_received e' = known_received e ∧ dec_buf e' = dec_buf e.

(** The encoder after some insertions that its pending octets ask for. *)
Record grows (limit : Z) (e e' : Encoder) (os : list op) (r : list Z) : Prop := {
  gr_same : same_encoder e e';
  gr_out : eout e' = eout e ++ r;
  gr_bytes : ops_bytes os = Ok r;
  gr_ok : ops_ok limit os (etable e);
  gr_apply : apply_ops os (etable e) = etable e';
  gr_entries : ∃ more, entries (etable e') = entries (etable e) ++ more;
  gr_length : zlen r ≤ 2 * (tsize (etable e') - tsize (etable e));
  gr_capacity : capacity (etable e') = capacity (etable e)
}.

Lemma grows_encoder_refl limit e : grows limit e e [] [].
Proof.
  split; try done.
  - by rewrite app_nil_r.
  - exists []. by rewrite app_nil_r.
  - rewrite zlen_nil. lia.
Qed.

Lemma same_encoder_trans e f g : same_encoder e f → same_encoder f g → same_encoder e g.
Proof. intros (E1 & E2 & E3 & E4) (F1 & F2 & F3 & F4). unfold same_encoder. by rewrite F1, F2, F3, F4. Qed.

Lemma grows_encoder_trans limit e f g os os' r r' :
  grows limit e f os r → grows limit f g os' r' → grows limit e g (os ++ os') (r ++ r').
Proof.
  intros H1 H2. destruct (gr_entries _ _ _ _ _ H1) as [m1 Hm1], (gr_entries _ _ _ _ _ H2) as [m2 Hm2]. split.
  - eapply same_encoder_trans; [apply H1|apply H2].
  - by rewrite (gr_out _ _ _ _ _ H2), (gr_out _ _ _ _ _ H1), app_assoc.
  - rewrite ops_bytes_app, (gr_bytes _ _ _ _ _ H1). cbn [obind]. by rewrite (gr_bytes _ _ _ _ _ H2).
  - apply ops_ok_app. split; [apply H1|]. rewrite (gr_apply _ _ _ _ _ H1). apply H2.
  - by rewrite apply_ops_app, (gr_apply _ _ _ _ _ H1), (gr_apply _ _ _ _ _ H2).
  - exists (m1 ++ m2). by rewrite Hm2, Hm1, app_assoc.
  - rewrite zlen_app. pose proof (gr_length _ _ _ _ _ H1). pose proof (gr_length _ _ _ _ _ H2). lia.
  - by rewrite (gr_capacity _ _ _ _ _ H2), (gr_capacity _ _ _ _ _ H1).
Qed.

Lemma plan_field_ok limit h e :
  limit < MAX_INT → whole limit (etable e) → Hpack.header_bytes h →
  ∃ p e' os r, plan_field h e = Ok (p, e') ∧ grows limit e e' os r
    ∧ denotes (entries (etable e')) p h ∧ refers_below (known_received e) p.
Proof.
  intros Hlim Ht Hh. unfold plan_field.
  assert (Hsame : ∀ p, denotes (entries (etable e)) p h → refers_below (known_received e) p →
    ∃ p' e' os r, Ok (p, e) = Ok (E:=unit) (p', e') ∧ grows limit e e' os r
    ∧ denotes (entries (etable e')) p' h ∧ refers_below (known_received e) p').
  { intros p H1 H2. exists p, e, [], []. split_and!; [done|apply grows_encoder_refl|done|done]. }
  destruct (static_find h.1 h.2) as [i|] eqn:Es.
  { apply Hsame; [|done]. apply static_find_entry in Es. simpl. by destruct h. }
  assert (Hlit := Hsame _ (literal_plan_denotes _ h) (literal_plan_refers _ h)).
  destruct (0 <? capacity (etable e)); [|done].
  destruct (find h (etable e)) as [abs|] eqn:Ef.
  { destruct (Z.ltb_spec abs (known_received e)); [|done]. apply (find_get limit) in Ef as [H1 H2]; [|done].
    apply Hsame; [done|simpl; lia]. }
  unfold insert_no_evict. pose proof (entry_size_pos h). pose proof (wh_capacity _ _ Ht) as Hcap.
  rewrite (too_full_fits limit) by (done || lia || (unfold MAX_INT, USIZE_MAX in *; lia)).
  destruct (Z.ltb_spec (capacity (etable e)) (tsize (etable e) + entry_size h)) as [|Hfit]; [done|].
  pose proof (wh_size _ _ Ht). pose proof (total_size_length (entries (etable e))). pose proof (zlen_nonneg (entries (etable e))).
  destruct (insert_does limit h) as (i & Hi & Hil & Hdo); [done|lia|done|]. simpl in Hi. rewrite Hi. cbn [obind].
  eexists _, _, [OpInsert h], i. split_and!; [done| |apply literal_plan_denotes|apply literal_plan_refers].
  split; simpl.
  - done.
  - done.
  - rewrite Hi. simpl. by rewrite app_nil_r.
  - split_and!; [done|done| |done]. exists i. split_and!; [done|lia|apply Hdo..].
  - done.
  - by exists [h].
  - lia.
  - done.
Qed.

Lemma plan_fields_ok limit hs e :
  limit < MAX_INT → whole limit (etable e) → Forall Hpack.header_bytes hs →
  ∃ ps e' os r, plan_fields hs e = Ok (ps, e') ∧ grows limit e e' os r
    ∧ Forall2 (denotes (entries (etable e'))) ps hs ∧ Forall (refers_below (known_received e)) ps.
Proof.
  intros Hlim. revert e. induction hs as [|h hs IH]; intros e Ht Hh.
  { exists [], e, [], []. split_and!; [done|apply grows_encoder_refl|constructor|constructor]. }
  apply Forall_cons in Hh as [Hh Hhs].
  destruct (plan_field_ok limit h e) as (p & e1 & os1 & r1 & Hp & G1 & Hd1 & Hr1); [done..|].
  destruct (IH e1) as (ps & e2 & os2 & r2 & Hps & G2 & Hd2 & Hr2); [|done|].
  { rewrite <- (gr_apply _ _ _ _ _ G1). apply apply_ops_whole; [done|apply G1]. }
  exists (p :: ps), e2, (os1 ++ os2), (r1 ++ r2). simpl. rewrite Hp. cbn [obind]. rewrite Hps. cbn [obind].
  pose proof (gr_same _ _ _ _ _ G1) as (_ & _ & Hk & _). destruct (gr_entries _ _ _ _ _ G2) as [m Hm].
  split_and!; [done|by eapply grows_encoder_trans| |].
  - constructor; [rewrite Hm; by apply denotes_app|done].
  - constructor; [done|]. by rewrite Hk in Hr2.
Qed.

(** ** Acknowledgements *)

Inductive ack :=
  | AckInsert (n : Z)
  | AckSection (id : Z).

Definition ack_ok (a : ack) : Prop :=
  match a with AckInsert n => 0 < n < MAX_INT | AckSection id => 0 ≤ id < MAX_INT end.

Definition ack_bytes (a : ack) : outcome Decoder (list Z) :=
  match a with AckInsert n => push_int n 6 0x00 | AckSection id => push_int id 7 0x80 end.

Fixpoint acks_bytes (l : list ack) : outcome Decoder (list Z) :=
  match l with
  | [] => Ok []
  | a :: l => try! i := ack_bytes a in try! r := acks_bytes l in Ok (i ++ r)
  end.

Definition acks_sum (l : list ack) : Z :=
  foldr (λ a n, match a with AckInsert k => k + n | AckSection _ => n end) 0 l.

Lemma acks_sum_app a b : acks_sum (a ++ b) = acks_sum a + acks_sum b.
Proof. unfold acks_sum. induction a as [|[] a IH]; simpl; lia. Qed.

Lemma acks_bytes_app a b : acks_bytes (a ++ b) = try! x := acks_bytes a in try! y := acks_bytes b in Ok (x ++ y).
Proof.
  induction a as [|o a IH]; simpl; [by destruct (acks_bytes b)|]. rewrite IH. destruct (ack_bytes o); try done. simpl.
  destruct (acks_bytes a); try done. simpl. destruct (acks_bytes b); try done. simpl. by rewrite app_assoc.
Qed.

Lemma acks_sum_nonneg l : Forall ack_ok l → 0 ≤ acks_sum l.
Proof. unfold acks_sum. induction 1 as [|[] l Ha _ IH]; simpl in *; lia. Qed.

Lemma octet_80_7 x : 0 ≤ x < 128 → (Z.land (0x80 + x) 0x80 =? 0) = false.
Proof.
  intros Hx. pose proof (octet_tests 0x80 128 [Some false] x eq_refl Hx) as H.
  unfold tests_are in H. cbn [tests map zip zip_with forallb] in H. bool_prop. by apply eqb_prop.
Qed.

(** The bits of the integer of an acknowledgement, and its first octet. *)
Definition ack_bits (a : ack) : Z := match a with AckInsert _ => 6 | AckSection _ => 7 end.
Definition ack_value (a : ack) : Z := match a with AckInsert n => n | AckSection id => id end.

Lemma ack_bytes_ok a :
  ack_ok a → ∃ i x i', ack_bytes a = Ok i ∧ i = x :: i' ∧ zlen i ≤ 11 ∧
    (Z.land x 0x80 =? 0) = match a with AckInsert _ => true | AckSection _ => false end ∧
    (∀ n, a = AckInsert n → (Z.land x 0x40 =? 0) = true) ∧
    ∀ pre rest, read_stream_int (pre ++ i ++ rest) (zlen pre) (ack_bits a) = Done (ack_value a, zlen pre + zlen i).
Proof.
  intros Ha. destruct a as [n|id]; simpl in *.
  - destruct (push_int_ok (E:=Decoder) n 6 0) as (i & -> & _ & (x & i' & -> & Hx & Hl) & Hr); [lia|lia|by vm_compute|done|].
    change (2 ^ 6) with 64 in Hx. destruct (octet_00 x Hx). eexists _, _, i'. split_and!; [done|done|rewrite zlen_cons; lia|done|done|done].
  - destruct (push_int_ok (E:=Decoder) id 7 0x80) as (i & -> & _ & (x & i' & -> & Hx & Hl) & Hr); [lia|lia|by vm_compute|done|].
    change (2 ^ 7) with 128 in Hx. pose proof (octet_80_7 x Hx). eexists _, _, i'. split_and!; [done|done|rewrite zlen_cons; lia|done|done|done].
Qed.

(** The loop counts the whole acknowledgements and keeps the rest. *)
Lemma acknowledgements_ok l : Forall ack_ok l → ∀ fuel pre buf future e,
  dec_buf e = pre ++ buf → acks_bytes l = Ok (buf ++ future) → (length buf < fuel)%nat →
  0 ≤ known_received e → known_received e + acks_sum l ≤ insert_count (etable e) → insert_count (etable e) ≤ U64_MAX →
  ∃ a c rest, l = a ++ c ∧ acknowledgements fuel (zlen pre) e
      = Ok (set_dec_buf rest (set_known_received (known_received e + acks_sum a) e))
    ∧ acks_bytes c = Ok (rest ++ future) ∧ zlen rest ≤ 11.
Proof.
  induction 1 as [|o l Ho Hl IH]; intros fuel pre buf future e He Hb Hf Hk Hsum Hmax.
  { injection Hb as Hb. symmetry in Hb. apply app_nil in Hb as [-> ->]. exists [], [], [].
    destruct fuel as [|fuel]; [lia|]. cbn [acknowledgements]. rewrite app_nil_r in He. rewrite He, get_past by lia.
    split_and!; [done| |done|done]. simpl. rewrite Z.add_0_r. by destruct e. }
  destruct (ack_bytes_ok o Ho) as (i & x & i' & Hi & Hxi & Hil & H80 & H40 & Hr).
  simpl in Hb. rewrite Hi in Hb. cbn [obind] in Hb.
  destruct (acks_bytes l) as [tail| | |] eqn:Et; try done. cbn [obind] in Hb. injection Hb as Hb.
  assert (Hi1 : 1 ≤ zlen i) by (rewrite Hxi, zlen_cons; pose proof (zlen_nonneg i'); lia).
  destruct fuel as [|fuel]; [lia|]. cbn [acknowledgements]. rewrite He.
  destruct buf as [|y buf'] eqn:Ebuf.
  { rewrite app_nil_r, get_past by lia. exists [], (o :: l), []. split_and!; [done| | |done].
    - simpl. rewrite Z.add_0_r. by destruct e.
    - simpl. rewrite Hi. simpl. rewrite Et. simpl. by f_equal. }
  rewrite get_app_mid. rewrite <- Ebuf in *. assert (y = x) as ->.
  { subst. simpl in Hb. by injection Hb. }
  assert (Hblen : 1 ≤ zlen buf) by (rewrite Ebuf, zlen_cons; pose proof (zlen_nonneg buf'); lia).
  assert (Hsum1 : 0 ≤ acks_sum l) by by apply acks_sum_nonneg.
  pose proof (Hr pre tail) as Hr'. rewrite Hb, app_assoc in Hr'.
  destruct (read_stream_int_streams (zlen pre) (ack_bits o) (zlen_nonneg pre) (pre ++ buf) future _ _ Hr')
    as (_ & Hsome & Hnone); [rewrite zlen_app; lia|]. rewrite zlen_app in Hsome, Hnone.
  destruct (decide (zlen i ≤ zlen buf)) as [Hle|Hgt].
  - assert (∃ buf2, buf = i ++ buf2 ∧ tail = buf2 ++ future) as (buf2 & E1 & E2).
    { apply app_eq_inv in Hb as [(k & -> & ->)|(k & -> & ->)]; [|by exists k].
      rewrite zlen_app in Hle. pose proof (zlen_nonneg k). assert (zlen k = 0) by lia.
      destruct k; [|rewrite zlen_cons in *; pose proof (zlen_nonneg k); lia]. exists []. by rewrite !app_nil_r. }
    rewrite E1 in He. rewrite app_assoc in He. subst tail.
    assert (Hf2 : (length buf2 < fuel)%nat) by (apply (f_equal length) in E1; rewrite length_app in E1; unfold zlen in Hi1; lia).
    destruct o as [n|id]; simpl in H80, Hsome, Hsum, Ho.
    + rewrite H80, (H40 n eq_refl). cbn [negb]. rewrite Hsome by lia.
      rewrite (proj2 (Z.ltb_ge _ _)) by lia. rewrite (proj2 (Z.eqb_neq _ _)), (proj2 (Z.ltb_ge _ _)) by lia. cbn [orb].
      destruct (IH fuel (pre ++ i) buf2 future (set_known_received (known_received e + n) e)) as (a & c & rest & Ha & Hres & Hc & Hz);
        [done|done|done|simpl; lia|simpl; lia|done|].
      exists (AckInsert n :: a), c, rest. split_and!; [by rewrite Ha| |done|done].
      replace (zlen pre + zlen i) with (zlen (pre ++ i)) by apply zlen_app. rewrite Hres. simpl. by rewrite Z.add_assoc.
    + rewrite H80. cbn [negb]. rewrite Hsome by lia.
      destruct (IH fuel (pre ++ i) buf2 future e) as (a & c & rest & Ha & Hres & Hc & Hz); [done..|].
      exists (AckSection id :: a), c, rest. split_and!; [by rewrite Ha| |done|done].
      replace (zlen pre + zlen i) with (zlen (pre ++ i)) by apply zlen_app. by rewrite Hres.
  - exists [], (o :: l), buf. split_and!; [done| | |lia].
    + assert (Hd : drop (Z.to_nat (zlen pre)) (pre ++ buf) = buf).
      { unfold zlen. rewrite Nat2Z.id. apply drop_app_length. }
      assert (He' : set_known_received (known_received e + acks_sum []) e = e)
        by (simpl; rewrite Z.add_0_r; by destruct e).
      rewrite He'. destruct o as [n|id]; simpl in H80, Hnone.
      * rewrite H80, (H40 n eq_refl). cbn [negb]. rewrite Hnone by lia. by rewrite Hd.
      * rewrite H80. cbn [negb]. rewrite Hnone by lia. by rewrite Hd.
    + simpl. rewrite Hi. simpl. rewrite Et. simpl. by f_equal.
Qed.

(** ** The system *)

(** One encoder, the decoder at its peer, the octets in flight on the two
    instruction streams, and the sections that were sent with their headers. *)
Record sys : Type := mkSys {
  enc : Encoder;
  dec : Decoder;
  to_dec : list Z;
  to_enc : list Z;
  sent : list (list Z * list header)
}.

(** The header lists that both sides accept. *)
Definition acceptable (hs : list header) : Prop :=
  Forall Hpack.header_bytes hs ∧ total_size hs ≤ MAX_SECTION_SIZE ∧ zlen hs ≤ MAX_SECTION_FIELDS.

Section system.
  (** The capacity the peer announced, and the one its decoder was made with. *)
  Context (cap mc : Z).

Definition start : sys := mkSys Encoder_new (Decoder_new mc) [] [] [].

Inductive qpack_step : sys → sys → Prop :=
  | q_settings s e :
      set_peer_max_capacity cap (enc s) = Ok e →
      qpack_step s (mkSys e (dec s) (to_dec s) (to_enc s) (sent s))
  | q_encode s hs section ins e :
      acceptable hs → encode_field_section hs (enc s) = Ok (section, ins, e) →
      qpack_step s (mkSys e (dec s) (to_dec s ++ ins) (to_enc s) ((section, hs) :: sent s))
  | q_unsent s hs section ins e :
      acceptable hs → encode_field_section hs (enc s) = Ok (section, ins, e) →
      qpack_step s (mkSys (restore_encoder_stream ins e) (dec s) (to_dec s) (to_enc s) (sent s))
  | q_insert s chunk rest d :
      to_dec s = chunk ++ rest → on_encoder_stream chunk (dec s) = Ok d →
      qpack_step s (mkSys (enc s) d rest (to_enc s) (sent s))
  | q_decode s id section hs r d :
      (section, hs) ∈ sent s → 0 ≤ id < MAX_INT → Decoder_decode_field_section id section (dec s) = Ok (r, d) →
      qpack_step s (mkSys (enc s) d (to_dec s) (to_enc s) (sent s))
  | q_flush s out d :
      take_decoder_stream (dec s) = (out, d) →
      qpack_step s (mkSys (enc s) d (to_dec s) (to_enc s ++ out) (sent s))
  | q_ack s chunk rest e :
      to_enc s = chunk ++ rest → zlen chunk ≤ MAX_DECODER_BUFFER - 11 →
      on_decoder_stream chunk (enc s) = Ok e →
      qpack_step s (mkSys e (dec s) (to_dec s) rest (sent s)).

(** A section that the decoder will read, now and later. *)
Definition section_ok (s : sys) (x : list Z * list header) : Prop :=
  ∃ ps base a b l, let n := plan_count ps in
    x.1 = a ++ b ++ l
    ∧ push_int (E:=unit) (if n =? 0 then 0 else n + 1) 8 0x00 = Ok a
    ∧ push_int (E:=unit) (base - n) 7 0x00 = Ok b
    ∧ write_fields base ps = Ok l
    ∧ n ≤ known_received (enc s) ∧ n ≤ base < 2 ^ 61
    ∧ Forall2 (denotes (entries (etable (enc s)))) ps x.2 ∧ Forall (refers_below n) ps
    ∧ acceptable x.2.

Definition limit : Z := Z.min cap OUR_MAX_CAPACITY.

Record sync (s : sys) : Prop := {
  sy_enc : whole limit (etable (enc s));
  sy_dec : whole limit (table (dec s));
  sy_mc : max_capacity (dec s) = mc;
  sy_sent : if capacity_sent (enc s) then peer_max_capacity (enc s) = cap ∧ capacity (etable (enc s)) = limit
            else capacity (etable (enc s)) = 0;
  sy_ops : ∃ os, ops_bytes os = Ok (enc_buf (dec s) ++ to_dec s ++ eout (enc s))
                 ∧ ops_ok limit os (table (dec s)) ∧ apply_ops os (table (dec s)) = etable (enc s);
  sy_buf : zlen (enc_buf (dec s)) ≤ limit + 22;
  sy_pending : zlen (enc_buf (dec s) ++ to_dec s ++ eout (enc s))
               ≤ (if capacity_sent (enc s) then 11 else 0) + 2 * tsize (etable (enc s));
  sy_acks : ∃ l, acks_bytes l = Ok (dec_buf (enc s) ++ to_enc s ++ out (dec s)) ∧ Forall ack_ok l
                 ∧ known_received (enc s) + acks_sum l = insert_count (table (dec s));
  sy_known : 0 ≤ known_received (enc s);
  sy_dec_buf : zlen (dec_buf (enc s)) ≤ 11;
  sy_sections : Forall (section_ok s) (sent s)
}.
End system.
