(* ===== verification/QpackRun.v ===== *)
(** * The QPACK tables stay in step

    Every step of the two endpoints keeps the invariant [sync], and in it no
    step fails and every section reads back as the headers it was made of.

    Neither the instruction stream nor a field section makes the decoder
    panic or loop, and its table never outgrows the capacity it announced. *)

From S2P Require Import Prelude Varint Qpack QpackCodec QpackSync.
From S2P Require Huffman Hpack.

#[local] Open Scope outcome_scope.

Lemma apply_ops_entries os t : ∃ more, entries (apply_ops os t) = entries t ++ more.
Proof.
  revert t. induction os as [|o os IH]; intros t; simpl; [by exists []; rewrite app_nil_r|].
  destruct (IH (apply_op o t)) as [m ->]. destruct o as [c|h]; simpl; [by exists m|].
  exists ([h] ++ m). by rewrite app_assoc.
Qed.

Lemma whole_length limit t : whole limit t → 0 ≤ zlen (entries t) ∧ 32 * zlen (entries t) ≤ tsize t ∧ tsize t ≤ limit.
Proof.
  intros H. pose proof (wh_capacity _ _ H). rewrite (wh_size _ _ H). pose proof (total_size_length (entries t)).
  pose proof (zlen_nonneg (entries t)). rewrite (wh_size _ _ H) in *. lia.
Qed.

(** ** The required insert count *)

Lemma encoded_count_ok cap n : 0 ≤ n ≤ cap / 32 → encoded_count cap n = Ok (if n =? 0 then 0 else n + 1).
Proof.
  intros Hn. unfold encoded_count, ENTRY_OVERHEAD. destruct (Z.eqb_spec n 0); [done|].
  rewrite (proj2 (Z.eqb_neq _ _)) by lia. by rewrite Z.mod_small by lia.
Qed.

(** The decoder finds the count again while no table holds more entries than
    the smaller capacity allows. *)
Lemma required_count_ok mc ic n :
  0 ≤ n ≤ ic → ic ≤ mc / 32 → required_count mc ic (if n =? 0 then 0 else n + 1) = Ok n.
Proof.
  intros Hn Hic. unfold required_count, ENTRY_OVERHEAD. destruct (Z.eqb_spec n 0) as [->|Hn0]; [done|].
  cbv zeta. set (m := mc / 32) in *. rewrite (proj2 (Z.eqb_neq _ _)), (proj2 (Z.eqb_neq m 0)) by lia.
  rewrite (proj2 (Z.ltb_ge _ _)) by lia.
  destruct (decide (ic < m)) as [Hlt|Hge].
  - rewrite (Z.div_small (ic + m)) by lia. rewrite (proj2 (Z.ltb_ge _ _)) by lia. cbn [obind].
    rewrite (proj2 (Z.eqb_neq _ _)) by lia. f_equal. lia.
  - replace (ic + m) with (1 * (2 * m)) by lia. rewrite Z.div_mul by lia.
    rewrite (proj2 (Z.ltb_lt _ _)), (proj2 (Z.leb_gt _ _)) by lia. cbn [obind].
    rewrite (proj2 (Z.eqb_neq _ _)) by lia. f_equal. lia.
Qed.

(** The acknowledgement of some insertions, none for none. *)
Lemma increment_ack k : 0 ≤ k < MAX_INT →
  ∃ i l, (if 0 <? k then push_int (E:=Decoder) k 6 0 else Ok []) = Ok i
    ∧ acks_bytes l = Ok i ∧ Forall ack_ok l ∧ acks_sum l = k.
Proof.
  intros Hk. destruct (Z.ltb_spec 0 k) as [Hpos|Hzero].
  - destruct (push_int_ok (E:=Decoder) k 6 0) as (i & Hi & _); [lia|lia|by vm_compute|done|].
    exists i, [AckInsert k]. simpl. rewrite Hi. simpl. rewrite app_nil_r.
    split_and!; [done|done|repeat constructor; simpl; lia|lia].
  - exists [], []. split_and!; [done|done|constructor|simpl; lia].
Qed.

Lemma octet_00_7 x : 0 ≤ x < 128 → (Z.land (0 + x) 0x80 =? 0) = true.
Proof.
  intros Hx. pose proof (octet_tests 0 128 [Some true] x eq_refl Hx) as H.
  unfold tests_are in H. cbn [tests map zip zip_with forallb] in H. bool_prop. by apply eqb_prop.
Qed.

(** The two integers before the field lines. *)
Lemma prefix_read n base a b :
  0 ≤ n ≤ base → base < 2 ^ 61 →
  push_int (E:=unit) (if n =? 0 then 0 else n + 1) 8 0x00 = Ok a → push_int (E:=unit) (base - n) 7 0x00 = Ok b →
  zlen a ≤ 11 ∧ zlen b ≤ 11 ∧ ∀ l,
    read_int (a ++ b ++ l) 0 8 = Ok (if n =? 0 then 0 else n + 1, zlen a)
    ∧ ∃ y, get (a ++ b ++ l) (zlen a) = Some y ∧ (Z.land y 0x80 =? 0) = true
      ∧ read_int (a ++ b ++ l) (zlen a) 7 = Ok (base - n, zlen (a ++ b)).
Proof.
  intros Hn Hbase Ha Hb.
  destruct (push_int_ok (E:=unit) (if n =? 0 then 0 else n + 1) 8 0x00) as (a' & Ha' & _ & (x & a2 & Hax & _ & Hal) & Hra);
    [lia|unfold MAX_INT; destruct (n =? 0); lia|by vm_compute|done|]. assert (a' = a) as -> by congruence.
  destruct (push_int_ok (E:=unit) (base - n) 7 0x00) as (b' & Hb' & _ & (y & b2 & Hby & Hy & Hbl) & Hrb);
    [lia|unfold MAX_INT; lia|by vm_compute|done|]. assert (b' = b) as -> by congruence.
  split; [rewrite Hax, zlen_cons; lia|]. split; [rewrite Hby, zlen_cons; lia|]. intros l. split.
  - pose proof (read_int_stream _ _ _ _ _ (Hra [] (b ++ l))) as Ea. by rewrite zlen_nil, Z.add_0_l in Ea.
  - exists (0 + y). split_and!; [|by apply octet_00_7|].
    + rewrite get_app_r, Z.sub_diag by lia. by rewrite Hby.
    + rewrite zlen_app. apply read_int_stream, Hrb.
Qed.

Lemma push_int_any {E F} v p hi o : push_int (E:=E) v p hi = Ok o → push_int (E:=F) v p hi = Ok o.
Proof.
  unfold push_int. cbv zeta. destruct (_ <? _); [by intros [= <-]|].
  destruct (Hpack.encode_int_loop _ _); [by intros [= <-]|done].
Qed.

Section steps.
  Context (cap mc : Z).
  Hypothesis Hcap : 0 ≤ cap ≤ mc.
  Hypothesis Hmc : mc < MAX_INT.

  Notation limit := (limit cap).
  Notation sync := (sync cap mc).

Lemma limit_bounds : 0 ≤ limit ≤ 4096 ∧ limit ≤ mc ∧ limit < MAX_INT ∧ limit ≤ USIZE_MAX.
Proof using Hcap. unfold QpackSync.limit, OUR_MAX_CAPACITY, MAX_INT, USIZE_MAX. lia. Qed.

Lemma start_sync : sync (start mc).
Proof using Hcap.
  pose proof limit_bounds. assert (whole limit DynamicTable_default) by (split; simpl; try done; lia).
  split; simpl; try done; try constructor; try (rewrite ?zlen_nil; lia).
  - by exists [].
  - by exists [].
Qed.

(** What the decoder's table is to the encoder's. *)
Lemma sync_prefix s : sync s → ∃ more, entries (etable (enc s)) = entries (table (dec s)) ++ more.
Proof. intros H. destruct (sy_ops _ _ _ H) as (os & _ & _ & <-). apply apply_ops_entries. Qed.

Lemma sync_known s : sync s →
  0 ≤ known_received (enc s) ≤ zlen (entries (table (dec s)))
  ∧ zlen (entries (table (dec s))) ≤ zlen (entries (etable (enc s))).
Proof.
  intros H. destruct (sync_prefix s H) as [more ->]. rewrite zlen_app. pose proof (zlen_nonneg more).
  destruct (sy_acks _ _ _ H) as (l & _ & Hl & Hsum). pose proof (acks_sum_nonneg l Hl). pose proof (sy_known _ _ _ H).
  rewrite (wh_count _ _ (sy_dec _ _ _ H)) in Hsum. lia.
Qed.

Lemma section_ok_mono s s' x :
  section_ok s x → known_received (enc s) ≤ known_received (enc s') →
  (∃ more, entries (etable (enc s')) = entries (etable (enc s)) ++ more) → section_ok s' x.
Proof.
  intros (ps & base & a & b & l & Hx & Ha & Hb & Hl & Hk & Hbase & Hd & Hr & Hacc) Hle [more Hm].
  exists ps, base, a, b, l. split_and!; try done; try lia.
  rewrite Hm. eapply Forall2_impl; [done|]. intros p h. apply denotes_app.
Qed.

Lemma sections_mono s s' l :
  Forall (section_ok s) l → known_received (enc s) ≤ known_received (enc s') →
  (∃ more, entries (etable (enc s')) = entries (etable (enc s)) ++ more) → Forall (section_ok s') l.
Proof. intros H Hk Hm. eapply Forall_impl; [done|]. intros x Hx. by eapply section_ok_mono. Qed.

Lemma sections_same s s' l :
  Forall (section_ok s) l → enc s' = enc s → Forall (section_ok s') l.
Proof. intros H He. eapply sections_mono; [done| |]; rewrite He; [lia|exists []; by rewrite app_nil_r]. Qed.

(** ** The settings *)

Lemma settings_sync s : sync s →
  ∃ e, set_peer_max_capacity cap (enc s) = Ok e ∧ sync (mkSys e (dec s) (to_dec s) (to_enc s) (sent s)).
Proof using All.
  intros H. pose proof limit_bounds. unfold set_peer_max_capacity. cbv zeta. simpl. change (Z.min cap OUR_MAX_CAPACITY) with limit.
  pose proof (sy_sent _ _ _ H) as Hsent.
  destruct ((0 <? limit) && negb (capacity_sent (enc s))) eqn:E.
  - apply andb_true_iff in E as [E1%Z.ltb_lt E2]. destruct (capacity_sent (enc s)) eqn:Ec; [done|].
    destruct (capacity_does limit limit) as (i & Hi & Hil & Hdo); [lia|lia|]. simpl in Hi. rewrite Hi. cbn [obind].
    pose proof (sy_enc _ _ _ H) as Ht. pose proof (wh_capacity _ _ Ht). pose proof (whole_length _ _ Ht).
    unfold set_capacity. cbn [shrink capacity tsize]. rewrite (proj2 (Z.ltb_ge _ _)) by lia. cbn [obind].
    eexists. split; [done|]. destruct H as [He Hd Hm Hs (os & Hob & Hok & Happ) Hbuf Hpend Hacks Hknown Hdb Hsec].
    rewrite Ec in Hpend. split; simpl; try done.
    + split; simpl; [apply He|apply He|lia].
    + exists (os ++ [OpCapacity limit]). split_and!.
      * rewrite ops_bytes_app, Hob. cbn [obind]. simpl. rewrite Hi. simpl. by rewrite app_nil_r, !app_assoc.
      * apply ops_ok_app. split; [done|]. rewrite Happ. simpl. split; [lia|]. split; [|done].
        exists i. by split_and!; [|lia|].
      * rewrite apply_ops_app, Happ. done.
    + rewrite !app_assoc in *. rewrite zlen_app. lia.
  - eexists. split; [done|]. destruct H as [He Hd Hm Hs Hops Hbuf Hpend Hacks Hknown Hdb Hsec].
    split; simpl; try done. destruct (capacity_sent (enc s)); [|done]. by destruct Hs.
Qed.

(** ** The encoder *)

(** An encoder that grew without sending anything yet. *)
Lemma grown_sync s e os r : sync s → grows limit (enc s) e os r →
  sync (mkSys e (dec s) (to_dec s) (to_enc s) (sent s)).
Proof using All.
  intros H G. destruct H as [He Hd Hm Hs (os0 & Hob & Hok & Happ) Hbuf Hpend Hacks Hknown Hdb Hsec].
  destruct G as [(G1 & G2 & G3 & G4) Gout Gbytes Gok Gapply Gent Glen Gcap].
  split; simpl; rewrite ?G1, ?G2, ?G3, ?G4, ?Gcap; try done.
  - rewrite <- Gapply. by apply apply_ops_whole.
  - exists (os0 ++ os). split_and!.
    + rewrite ops_bytes_app, Hob, Gout. cbn [obind]. rewrite Gbytes. cbn [obind]. by rewrite !app_assoc.
    + apply ops_ok_app. by rewrite Happ.
    + by rewrite apply_ops_app, Happ.
  - rewrite Gout, !app_assoc, zlen_app. rewrite !app_assoc in Hpend. lia.
  - eapply sections_mono; [done|simpl; lia|done].
Qed.

(** The pending octets move to the stream. *)
Lemma sent_sync s : sync s →
  let e := enc s in
  sync (mkSys (mkEncoder (etable e) (peer_max_capacity e) (capacity_sent e) (known_received e) [] (dec_buf e))
    (dec s) (to_dec s ++ eout e) (to_enc s) (sent s)).
Proof.
  intros [He Hd Hm Hs Hops Hbuf Hpend Hacks Hknown Hdb Hsec]. split; simpl; by rewrite ?app_nil_r.
Qed.

Lemma restore_sent e :
  restore_encoder_stream (eout e)
    (mkEncoder (etable e) (peer_max_capacity e) (capacity_sent e) (known_received e) [] (dec_buf e)) = e.
Proof. unfold restore_encoder_stream. simpl. rewrite app_nil_r. by destruct e. Qed.

Lemma section_sync s section hs : sync s → section_ok s (section, hs) →
  sync (mkSys (enc s) (dec s) (to_dec s) (to_enc s) ((section, hs) :: sent s)).
Proof.
  intros [He Hd Hm Hs Hops Hbuf Hpend Hacks Hknown Hdb Hsec] Hx. split; simpl; try done.
  apply (sections_same s); [|done]. by constructor.
Qed.

Lemma acceptable_lines hs : acceptable hs → Forall (line_ok MAX_SECTION_SIZE) hs.
Proof.
  intros (Hb & Hs & _). revert Hb Hs. generalize MAX_SECTION_SIZE. intros n Hb. revert n.
  induction Hb as [|h hs Hh _ IH]; intros n Hs; constructor; simpl in *.
  - split; [done|]. pose proof (total_size_length hs). pose proof (zlen_nonneg hs). lia.
  - apply IH. pose proof (entry_size_pos h). lia.
Qed.

(** The count that a plan needs fits the entries the peer can hold. *)
Lemma plan_bounds s ps : sync s → Forall (refers_below (known_received (enc s))) ps →
  0 ≤ plan_count ps ≤ known_received (enc s) ∧ plan_count ps ≤ insert_count (etable (enc s)) < 2 ^ 61
  ∧ plan_count ps ≤ cap / 32 ∧ (plan_count ps ≠ 0 → peer_max_capacity (enc s) = cap).
Proof using All.
  intros H Hr. pose proof limit_bounds as Hl. pose proof (sync_known s H) as Hk. pose proof (whole_length _ _ (sy_enc _ _ _ H)) as Hz.
  pose proof (plan_count_nonneg ps). apply plan_count_below in Hr; [|lia]. rewrite (wh_count _ _ (sy_enc _ _ _ H)).
  unfold MAX_INT in *. repeat split; try lia.
  - apply Z.div_le_lower_bound; [lia|]. unfold QpackSync.limit in *. lia.
  - intros Hne. pose proof (sy_sent _ _ _ H) as Hs. destruct (capacity_sent (enc s)); [apply Hs|].
    pose proof (wh_capacity _ _ (sy_enc _ _ _ H)). lia.
Qed.

Lemma encode_sync s hs : sync s → acceptable hs →
  ∃ section ins e, encode_field_section hs (enc s) = Ok (section, ins, e)
    ∧ sync (mkSys e (dec s) (to_dec s ++ ins) (to_enc s) ((section, hs) :: sent s))
    ∧ sync (mkSys (restore_encoder_stream ins e) (dec s) (to_dec s) (to_enc s) (sent s)).
Proof using All.
  intros H Hacc. pose proof limit_bounds as Hl.
  destruct (plan_fields_ok limit hs (enc s)) as (ps & e & os & r & Hps & G & Hd & Hr); [lia|apply H|apply Hacc|].
  pose proof (grown_sync s e os r H G) as H1.
  pose proof (gr_same _ _ _ _ _ G) as (_ & _ & Hkr & _). rewrite <- Hkr in Hr.
  destruct (plan_bounds _ ps H1 Hr) as (Hn & Hic & Hcount & Hpeer). simpl in *.
  set (n := plan_count ps) in *. unfold encode_field_section. rewrite Hps. cbn [obind]. cbv zeta. fold n.
  assert (encoded_count (peer_max_capacity e) n = Ok (if n =? 0 then 0 else n + 1)) as ->.
  { destruct (Z.eqb_spec n 0) as [->|Hne]; [done|]. rewrite Hpeer, encoded_count_ok by (done || lia).
    by rewrite (proj2 (Z.eqb_neq _ _)). }
  cbn [obind].
  destruct (push_int_ok (E:=unit) (if n =? 0 then 0 else n + 1) 8 0x00) as (a & Ha & _);
    [lia|pose proof (Z.mul_div_le cap 32); unfold MAX_INT in *; destruct (n =? 0); lia|by vm_compute|done|].
  destruct (push_int_ok (E:=unit) (insert_count (etable e) - n) 7 0x00) as (b & Hb & _); [lia|unfold MAX_INT; lia|by vm_compute|done|].
  pose proof (sync_known _ H1) as Hz. pose proof (whole_length _ _ (sy_enc _ _ _ H1)) as Hlen. simpl in Hz, Hlen.
  assert (Hbelow : Forall (refers_below n) ps) by by eapply refers_plan_count.
  destruct (write_fields_ok (entries (etable e)) (insert_count (etable e)) MAX_SECTION_SIZE ps hs) as (l & Hwl & _);
    [done|by apply acceptable_lines|done|lia| |unfold MAX_INT; lia|].
  { eapply Forall_impl; [exact Hbelow|]. intros p. destruct p; simpl; lia. }
  rewrite Ha. cbn [obind]. rewrite (proj2 (Z.leb_le _ _)), Hb by lia. cbn [obind]. rewrite Hwl. cbn [obind].
  eexists _, _, _. split; [done|]. rewrite restore_sent. split; [|done].
  apply sent_sync in H1. cbv zeta in H1. simpl in H1. apply (section_sync _ (a ++ b ++ l) hs) in H1; [done|].
  exists ps, (insert_count (etable e)), a, b, l. fold n. split_and!; simpl; try done; lia.
Qed.

(** ** The decoder *)

Lemma insert_sync s chunk rest : sync s → to_dec s = chunk ++ rest →
  ∃ d, on_encoder_stream chunk (dec s) = Ok d ∧ sync (mkSys (enc s) d rest (to_enc s) (sent s)).
Proof using All.
  intros H Hc. pose proof limit_bounds as Hl. pose proof (whole_length _ _ (sy_enc _ _ _ H)) as Hel.
  destruct H as [He Hd Hm Hs (os & Hob & Hok & Happ) Hbuf Hpend Hacks Hknown Hdb Hsec].
  rewrite Hc, <- app_assoc in *.
  assert (Hlen : zlen (enc_buf (dec s)) + zlen chunk + zlen (rest ++ eout (enc s)) ≤ 8203).
  { rewrite !zlen_app in Hpend. rewrite zlen_app. destruct (capacity_sent (enc s)); lia. }
  pose proof (zlen_nonneg (rest ++ eout (enc s))). pose proof (zlen_nonneg (enc_buf (dec s))).
  unfold on_encoder_stream, MAX_ENCODER_BUFFER. rewrite (proj2 (Z.ltb_ge _ _)) by lia. cbv zeta.
  rewrite app_assoc in Hob.
  destruct (instructions_ok limit mc os) with (fuel := S (length (enc_buf (dec s) ++ chunk))) (pre := @nil Z)
    (buf := enc_buf (dec s) ++ chunk) (future := rest ++ eout (enc s)) (t := table (dec s))
    as (a & c & left & Hos & Hrun & Hleft & Hll); [lia|done|done|done| |lia|].
  { rewrite zlen_nil, zlen_app. unfold USIZE_MAX. lia. }
  cbn [app zlen length] in Hrun. change (zlen []) with 0 in Hrun. rewrite Hm, Hrun. clear Hrun.
  subst os. apply ops_ok_app in Hok as [Hoka Hokc]. rewrite apply_ops_app in Happ.
  pose proof (apply_ops_whole _ _ _ Hd Hoka) as Hw. set (t := apply_ops a (table (dec s))) in *.
  destruct (apply_ops_entries a (table (dec s))) as [more Hmore]. fold t in Hmore.
  pose proof (f_equal zlen Hmore) as Hz. rewrite zlen_app in Hz. pose proof (zlen_nonneg more).
  pose proof (whole_length _ _ Hw) as Hwl. rewrite (wh_count _ _ Hd), (wh_count _ _ Hw).
  pose proof (zlen_nonneg (entries (table (dec s)))).
  destruct (increment_ack (zlen (entries t) - zlen (entries (table (dec s))))) as (i & l' & -> & Hib & Hiok & Hisum);
    [unfold MAX_INT in *; lia|].
  cbn [obind]. eexists. split; [done|].
  destruct Hacks as (l & Hlb & Hlok & Hsum). rewrite (wh_count _ _ Hd) in Hsum.
  split; simpl; try done.
  - by exists c.
  - rewrite ops_bytes_app, Hleft in Hob. destruct (ops_bytes a) as [x| | |]; try done. injection Hob as Hob.
    apply (f_equal zlen) in Hob. rewrite !zlen_app in *. pose proof (zlen_nonneg x). lia.
  - exists (l ++ l'). rewrite acks_bytes_app, Hlb. cbn [obind]. rewrite Hib. cbn [obind]. split_and!.
    + by rewrite !app_assoc.
    + by apply Forall_app.
    + rewrite acks_sum_app, (wh_count _ _ Hw). lia.
Qed.

(** An acknowledgement more on the way to the encoder. *)
Lemma acked_sync s i l : sync s → acks_bytes l = Ok i → Forall ack_ok l → acks_sum l = 0 →
  let d := dec s in
  sync (mkSys (enc s) (mkDecoder (table d) (max_capacity d) (enc_buf d) (out d ++ i)) (to_dec s) (to_enc s) (sent s)).
Proof.
  intros [He Hd Hm Hs Hops Hbuf Hpend (l0 & Hb & Hok & Hsum) Hknown Hdb Hsec] Hi Hl H0.
  split; simpl; try done. exists (l0 ++ l). rewrite acks_bytes_app, Hb. cbn [obind]. rewrite Hi. cbn [obind].
  split_and!; [by rewrite !app_assoc|by apply Forall_app|]. rewrite acks_sum_app. lia.
Qed.

(** A section reads back with any table that has the entries it needs. *)
Lemma section_read s section hs id : sync s → (section, hs) ∈ sent s → 0 ≤ id < MAX_INT →
  ∃ n i, 0 ≤ n ∧ (if 0 <? n then push_int (E:=unit) id 7 0x80 else Ok []) = Ok i ∧
    let d := dec s in
    Decoder_decode_field_section id section d
    = Ok (Headers hs, mkDecoder (table d) (max_capacity d) (enc_buf d) (out d ++ i)).
Proof using All.
  intros H Hin Hid. pose proof limit_bounds as Hl. pose proof (sync_known s H) as Hk.
  pose proof (whole_length _ _ (sy_dec _ _ _ H)) as Hdl. pose proof (whole_length _ _ (sy_enc _ _ _ H)) as Hel.
  pose proof (sy_sections _ _ _ H) as Hsec. rewrite Forall_forall in Hsec. apply Hsec in Hin. clear Hsec.
  destruct Hin as (ps & base & a & b & l & Hx & Ha & Hb & Hwl & Hn & Hbase & Hd & Hr & Hacc).
  set (n := plan_count ps) in *. simpl in Hx, Hd, Hacc. subst section.
  pose proof (plan_count_nonneg ps : 0 ≤ n) as Hn0.
  destruct (prefix_read n base a b) as (Hal & Hbl & Hpre); [lia|lia|done|done|].
  destruct (Hpre l) as (Ea & y & Ey & Hy & Eb).
  destruct (write_fields_ok (entries (etable (enc s))) base MAX_SECTION_SIZE ps hs) as (l' & Hl' & Hll & Hread);
    [done|by apply acceptable_lines|done|unfold MAX_INT in *; lia| |unfold MAX_INT; lia|].
  { eapply Forall_impl; [exact Hr|]. intros p. destruct p; simpl; lia. }
  assert (l' = l) as -> by congruence. destruct Hacc as (_ & Hsize & Hcount). unfold MAX_SECTION_SIZE in Hsize.
  assert (Hack : ∃ i, (if 0 <? n then push_int (E:=unit) id 7 0x80 else Ok []) = Ok i).
  { destruct (0 <? n); [|by eexists]. destruct (push_int_ok (E:=unit) id 7 0x80) as (i & Hi & _); [lia|done|by vm_compute|done|].
    by exists i. }
  destruct Hack as [i Hi]. exists n, i. split; [done|]. split; [done|]. cbv zeta. unfold Decoder_decode_field_section. cbv zeta.
  rewrite Ea. cbn [obind]. rewrite (wh_count _ _ (sy_dec _ _ _ H)), (sy_mc _ _ _ H), required_count_ok;
    [|lia|apply Z.div_le_lower_bound; lia]. cbn [obind]. rewrite (proj2 (Z.ltb_ge _ _)) by lia.
  rewrite Ey, Eb. cbn [obind]. rewrite Hy. cbn [negb].
  unfold checked_add. rewrite (proj2 (Z.leb_le _ _)) by (unfold MAX_INT, USIZE_MAX in *; lia). cbn [from_option obind].
  replace (n + (base - n)) with base by lia. rewrite app_assoc, Hread; cycle 1.
  - rewrite zlen_app. unfold USIZE_MAX. lia.
  - rewrite !length_app. lia.
  - intros abs h Hp Hget. rewrite (whole_get _ _ _ (sy_dec _ _ _ H)). rewrite Forall_forall in Hr. specialize (Hr _ Hp).
    simpl in Hr. rewrite (proj2 (Z.ltb_ge _ _)) by lia. destruct (sync_prefix s H) as [more Hmore].
    rewrite Hmore, get_app_l in Hget by lia. done.
  - done.
  - unfold MAX_SECTION_SIZE. lia.
  - by rewrite zlen_nil.
  - cbn [obind]. by rewrite Hi.
Qed.

Lemma decode_sync s section hs id : sync s → (section, hs) ∈ sent s → 0 ≤ id < MAX_INT →
  ∃ d, Decoder_decode_field_section id section (dec s) = Ok (Headers hs, d)
    ∧ sync (mkSys (enc s) d (to_dec s) (to_enc s) (sent s)).
Proof using All.
  intros H Hin Hid. destruct (section_read s section hs id H Hin Hid) as (n & i & Hn & Hi & ->).
  eexists. split; [done|]. destruct (0 <? n).
  - apply (acked_sync s i [AckSection id]); [done| | |done].
    + simpl. rewrite (push_int_any _ _ _ _ Hi). simpl. by rewrite app_nil_r.
    + by apply Forall_singleton.
  - injection Hi as <-. by apply (acked_sync s [] []).
Qed.

Lemma flush_sync s : sync s →
  let '(o, d) := take_decoder_stream (dec s) in
  sync (mkSys (enc s) d (to_dec s) (to_enc s ++ o) (sent s)).
Proof.
  intros [He Hd Hm Hs Hops Hbuf Hpend (l & Hb & Hok & Hsum) Hknown Hdb Hsec]. simpl. split; simpl; try done.
  exists l. by rewrite app_nil_r.
Qed.

(** ** The acknowledgements *)

Lemma ack_sync s chunk rest : sync s → to_enc s = chunk ++ rest → zlen chunk ≤ MAX_DECODER_BUFFER - 11 →
  ∃ e, on_decoder_stream chunk (enc s) = Ok e ∧ sync (mkSys e (dec s) (to_dec s) rest (sent s)).
Proof using All.
  intros H Hc Hz. pose proof (sync_known s H) as Hk. pose proof (whole_length _ _ (sy_enc _ _ _ H)) as Hel.
  pose proof limit_bounds as Hl.
  destruct H as [He Hd Hm Hs Hops Hbuf Hpend (l & Hb & Hok & Hsum) Hknown Hdb Hsec].
  unfold on_decoder_stream. rewrite (proj2 (Z.ltb_ge _ _)) by lia. cbv zeta.
  rewrite Hc in Hb. rewrite <- app_assoc, app_assoc in Hb. rewrite (wh_count _ _ Hd) in Hsum.
  destruct (acknowledgements_ok l Hok) with (fuel := S (length (dec_buf (enc s) ++ chunk))) (pre := @nil Z)
    (buf := dec_buf (enc s) ++ chunk) (future := rest ++ out (dec s)) (e := set_dec_buf (dec_buf (enc s) ++ chunk) (enc s))
    as (a & c & left & Hac & Hrun & Hleft & Hll); [done|done|lia|done| | |];
    [simpl; rewrite (wh_count _ _ He); lia|simpl; rewrite (wh_count _ _ He); unfold U64_MAX; lia|].
  change (zlen []) with 0 in Hrun. cbn [set_dec_buf dec_buf] in *. rewrite Hrun. eexists. split; [done|].
  subst l. apply Forall_app in Hok as [Ha Hcok]. rewrite acks_sum_app in Hsum. pose proof (acks_sum_nonneg a Ha).
  split; simpl; try done; try lia.
  - exists c. split_and!; [done|done|]. rewrite (wh_count _ _ Hd). lia.
  - eapply sections_mono; [done|simpl; lia|]. exists []. by rewrite app_nil_r.
Qed.

Lemma step_sync s s' : sync s → qpack_step cap s s' → sync s'.
Proof using All.
  intros H Hstep. destruct Hstep as [s e He|s hs sec ins e Hacc He|s hs sec ins e Hacc He|s chunk rest d Hc Hd
    |s id sec hs r d Hin Hid Hd|s o d Ht|s chunk rest e Hc Hz He].
  - destruct (settings_sync s H) as (e' & He' & Hs). by replace e with e' by congruence.
  - destruct (encode_sync s hs H Hacc) as (sec' & ins' & e' & He' & Hs & _).
    by replace sec with sec' in * by congruence; replace ins with ins' by congruence; replace e with e' by congruence.
  - destruct (encode_sync s hs H Hacc) as (sec' & ins' & e' & He' & _ & Hs).
    by replace ins with ins' by congruence; replace e with e' by congruence.
  - destruct (insert_sync s chunk rest H Hc) as (d' & Hd' & Hs). by replace d with d' by congruence.
  - destruct (decode_sync s sec hs id H Hin Hid) as (d' & Hd' & Hs). by replace d with d' by congruence.
  - pose proof (flush_sync s H) as Hs. by rewrite Ht in Hs.
  - destruct (ack_sync s chunk rest H Hc Hz) as (e' & He' & Hs). by replace e with e' by congruence.
Qed.

Lemma reachable_sync s : rtc (qpack_step cap) (start mc) s → sync s.
Proof using All.
  intros H. apply (rtc_ind_r (R:=qpack_step cap) sync (start mc)); [apply start_sync| |done].
  intros x y _ Hxy Hx. by apply (step_sync x).
Qed.
End steps.

(** * The QPACK decoder on any octets *)

(** ** Integers and strings *)

Lemma land_7f b : 0 ≤ Z.land b 0x7f ≤ 127.
Proof.
  assert (Z.land b 0x7f = b mod 2 ^ 7) as -> by apply (Z.land_ones b 7 ltac:(lia)).
  pose proof (Z.mod_pos_bound b (2 ^ 7)). lia.
Qed.

(** The largest value that is read. *)
Definition INT_BOUND : Z := 254 + 2 ^ 63.

(** The fuel of ten rounds is enough. *)
Lemma stream_int_loop_safe fuel : ∀ k buf pos val,
  0 ≤ k ≤ 8 → 9 ≤ k + Z.of_nat fuel → 0 ≤ val ≤ 254 + 2 ^ (7 * k) →
  match stream_int_loop fuel buf pos val (7 * k) with
  | Done (v, _) => 0 ≤ v ≤ INT_BOUND
  | Crashed => False
  | _ => True
  end.
Proof.
  induction fuel as [|fuel IH]; intros k buf pos val Hk Hf Hv; [lia|]. cbn [stream_int_loop].
  destruct (get buf pos) as [b|]; [|done]. destruct (_ || _); [done|]. cbv zeta.
  destruct (_ <? _); [done|]. pose proof (land_7f b) as Hb.
  assert (Hlow : 0 ≤ u64_shl (Z.land b 0x7f) (7 * k) ≤ 127 * 2 ^ (7 * k)).
  { unfold u64_shl. rewrite Z.shiftl_mul_pow2 by lia. assert (0 < 2 ^ (7 * k)) by (apply Z.pow_pos_nonneg; lia).
    pose proof (Z.mod_pos_bound (Z.land b 0x7f * 2 ^ (7 * k)) (2 ^ 64)).
    pose proof (Z.mod_le (Z.land b 0x7f * 2 ^ (7 * k)) (2 ^ 64)). nia. }
  assert (H7 : 2 ^ (7 * (k + 1)) = 128 * 2 ^ (7 * k))
    by (rewrite Z.mul_add_distr_l, Z.pow_add_r by lia; lia).
  destruct (_ =? 0).
  - assert (2 ^ (7 * (k + 1)) ≤ 2 ^ 63) by (apply Z.pow_le_mono_r; lia). unfold INT_BOUND. lia.
  - destruct (Z.ltb_spec 62 (7 * k + 7)); [done|]. replace (7 * k + 7) with (7 * (k + 1)) by lia. apply IH; lia.
Qed.

Lemma read_stream_int_safe buf pos n :
  match read_stream_int buf pos n with
  | Done (v, _) => 0 ≤ v ≤ INT_BOUND
  | Crashed => False
  | _ => True
  end.
Proof.
  unfold read_stream_int. destruct (negb _) eqn:E; [done|]. bool_prop. cbv zeta.
  destruct (get buf pos) as [b|]; [|done]. rewrite Z.shiftl_1_l.
  assert (Hm : 0 ≤ Z.land b (2 ^ n - 1) ≤ 255).
  { replace (2 ^ n - 1) with (Z.ones n) by (rewrite Z.ones_equiv; lia). rewrite Z.land_ones by lia. pose proof (Z.mod_pos_bound b (2 ^ n)).
    assert (0 < 2 ^ n ≤ 2 ^ 8) by (split; [apply Z.pow_pos_nonneg; lia|apply Z.pow_le_mono_r; lia]). lia. }
  destruct (_ <? _); [unfold INT_BOUND; lia|]. apply (stream_int_loop_safe 10 0); [lia|lia|]. change (7 * 0) with 0. lia.
Qed.

(** The two readers of integers differ only in what a missing octet is. *)
Definition settled {A} (s : StreamParse A) : outcome unit A :=
  match s with Done a => Ok a | Incomplete | Invalid => Err tt | Crashed => NoFuel end.

Lemma read_int_settled buf pos n : read_int buf pos n = settled (read_stream_int buf pos n).
Proof.
  unfold read_int, read_stream_int. destruct (negb _); [done|]. cbv zeta. destruct (get buf pos); [|done].
  destruct (_ <? _); [done|]. generalize (pos + 1), (Z.land z (Z.shiftl 1 n - 1)), 0, 10%nat. clear.
  intros pos val m fuel. revert pos val m. induction fuel as [|fuel IH]; intros pos val m; [done|]. cbn [read_int_loop stream_int_loop].
  destruct (get buf pos); [|done]. destruct (_ || _); [done|]. cbv zeta. destruct (_ <? _); [done|].
  destruct (_ =? 0); [done|]. destruct (62 <? m + 7); [done|]. apply IH.
Qed.

(** An integer and the position after it, or an error. *)
Lemma read_int_safe buf pos n : 0 ≤ pos →
  match read_int buf pos n with
  | Ok (v, p) => 0 ≤ v ≤ INT_BOUND ∧ pos < p ≤ zlen buf
  | Err _ => True
  | _ => False
  end.
Proof.
  intros Hp. rewrite read_int_settled. pose proof (read_stream_int_safe buf pos n) as H.
  destruct (read_stream_int buf pos n) as [[v p]| | |] eqn:E; try done. split; [done|]. by eapply read_stream_int_pos.
Qed.

Lemma slice_Some buf pos len s e : slice buf pos len = Some (s, e) → 0 ≤ len → pos ≤ e ≤ zlen buf.
Proof.
  unfold slice. intros H Hl. destruct (checked_add pos len) as [x|] eqn:E; [|done].
  destruct (get_range buf pos x) eqn:G; [|done]. injection H as _ <-. apply checked_add_Some in E as [-> _].
  unfold get_range in G. destruct (_ && _) eqn:B; [|done]. bool_prop. lia.
Qed.

Lemma read_string_safe buf pos : 0 ≤ pos →
  match read_string buf pos with Ok (_, p) => pos < p ≤ zlen buf | Err _ => True | _ => False end.
Proof.
  intros Hp. unfold read_string. destruct (get buf pos); [|done]. pose proof (read_int_safe buf pos 7 Hp) as H.
  destruct (read_int buf pos 7) as [[v p]| | |]; try done. cbn [obind]. destruct H as [Hv Hpp].
  destruct (slice buf p v) as [[s e]|] eqn:E; [|done]. apply slice_Some in E; [|lia].
  destruct (negb _); [|lia]. pose proof (Huffman.decode_total_lemma s) as Hd.
  destruct (Huffman.decode s); try done. cbn [obind]. lia.
Qed.

Lemma huffman_stream_safe s : huffman_stream s ≠ Crashed.
Proof. unfold huffman_stream. pose proof (Huffman.decode_total_lemma s). by destruct (Huffman.decode s). Qed.

Lemma read_stream_string_safe buf pos : read_stream_string buf pos ≠ Crashed.
Proof.
  unfold read_stream_string. destruct (get buf pos); [|done]. pose proof (read_stream_int_safe buf pos 7) as H.
  destruct (read_stream_int buf pos 7) as [[v p]| | |]; try done. destruct (checked_add p v); [|done].
  destruct (get_range buf p z0) as [s|]; [|done]. destruct (negb _); [|done].
  pose proof (huffman_stream_safe s). by destruct (huffman_stream s).
Qed.

Lemma read_literal_name_safe b buf pos : 0 ≤ pos →
  match read_literal_name b buf pos with Ok (_, p) => pos < p ≤ zlen buf | Err _ => True | _ => False end.
Proof.
  intros Hp. unfold read_literal_name. pose proof (read_int_safe buf pos 3 Hp) as H.
  destruct (read_int buf pos 3) as [[v p]| | |]; try done. cbn [obind]. destruct H as [Hv Hpp].
  destruct (slice buf p v) as [[s e]|] eqn:E; [|done]. apply slice_Some in E; [|lia].
  destruct (negb _); [|lia]. pose proof (Huffman.decode_total_lemma s) as Hd.
  destruct (Huffman.decode s); try done. cbn [obind]. lia.
Qed.

(** ** The table *)

(** A table with a capacity of at most [mc]. *)
Record table_ok (mc : Z) (t : DynamicTable) : Prop := {
  to_size : tsize t = total_size (entries t);
  to_fits : tsize t ≤ capacity t ≤ mc;
  to_count : zlen (entries t) ≤ insert_count t
}.

Lemma total_size_nonneg l : 0 ≤ total_size l.
Proof. pose proof (total_size_length l). pose proof (zlen_nonneg l). lia. Qed.

(** Some of the oldest entries are gone. *)
Definition evicted (t t' : DynamicTable) : Prop :=
  (∃ gone, entries t = gone ++ entries t') ∧ insert_count t' = insert_count t ∧ capacity t' = capacity t
  ∧ tsize t' = total_size (entries t').

Lemma evicted_refl t : tsize t = total_size (entries t) → evicted t t.
Proof. intros H. split_and!; try done. by exists []. Qed.

Lemma evicted_trans a b c : evicted a b → evicted b c → evicted a c.
Proof.
  intros ((g1 & E1) & I1 & C1 & _) ((g2 & E2) & I2 & C2 & S2). split_and!; [|congruence|congruence|done].
  exists (g1 ++ g2). by rewrite E1, E2, app_assoc.
Qed.

Lemma evicted_length t t' : evicted t t' → zlen (entries t') ≤ zlen (entries t).
Proof. intros ((g & ->) & _). rewrite zlen_app. pose proof (zlen_nonneg g). lia. Qed.

Lemma evict_oldest_ok {E} t :
  tsize t = total_size (entries t) →
  ∃ t', evict_oldest (E:=E) t = Ok t' ∧ evicted t t' ∧ length (entries t') = pred (length (entries t)).
Proof.
  intros H. unfold evict_oldest. destruct (entries t) as [|h es] eqn:Ee.
  - exists t. split_and!; [done|by apply evicted_refl; rewrite Ee|by rewrite Ee].
  - simpl in H. pose proof (total_size_nonneg es). rewrite (proj2 (Z.ltb_ge _ _)) by lia.
    eexists. split; [done|]. split; [|done]. split_and!; simpl; [|done|done|lia]. exists [h]. by rewrite Ee.
Qed.

(** Shrinking stops with a table that fits. *)
Lemma shrink_ok {E} fuel : ∀ t,
  tsize t = total_size (entries t) → 0 ≤ capacity t → (length (entries t) < fuel)%nat →
  ∃ t', shrink (E:=E) fuel t = Ok t' ∧ evicted t t' ∧ tsize t' ≤ capacity t'.
Proof.
  induction fuel as [|fuel IH]; intros t Hs Hc Hf; [lia|]. cbn [shrink].
  destruct (Z.ltb_spec (capacity t) (tsize t)) as [Hlt|Hge].
  - destruct (evict_oldest_ok (E:=E) t Hs) as (t1 & -> & H1 & Hl). cbn [obind].
    assert (entries t ≠ []) by (intros E0; rewrite E0 in Hs; simpl in Hs; lia).
    destruct (IH t1) as (t2 & -> & H2 & Hfit).
    + apply H1.
    + destruct H1 as (_ & _ & -> & _). done.
    + destruct (entries t); [done|]. simpl in *. lia.
    + exists t2. split_and!; [done|by eapply evicted_trans|done].
  - exists t. split_and!; [done|by apply evicted_refl|done].
Qed.

Lemma set_capacity_ok {E} mc t cap :
  table_ok mc t → 0 ≤ cap ≤ mc → ∃ t', set_capacity (E:=E) cap t = Ok t' ∧ table_ok mc t' ∧ insert_count t' = insert_count t.
Proof.
  intros H Hc. unfold set_capacity.
  destruct (shrink_ok (E:=E) (S (length (entries t))) (mkTable (entries t) (insert_count t) cap (tsize t))) as (t' & -> & He & Hf);
    [apply H|simpl; lia|simpl; lia|].
  exists t'. pose proof (evicted_length _ _ He) as Hl. destruct He as (_ & Hi & Hcap & Hs). simpl in *.
  split_and!; [done| |done]. pose proof (to_count _ _ H). split; [done|lia|lia].
Qed.

(** Room is made for an entry that the capacity allows. *)
Lemma make_room_ok {E} fuel es : ∀ t,
  tsize t = total_size (entries t) → 0 ≤ es ≤ capacity t → capacity t ≤ USIZE_MAX → (S (length (entries t)) < fuel)%nat →
  ∃ t', make_room (E:=E) fuel es t = Ok (true, t') ∧ evicted t t' ∧ tsize t' + es ≤ capacity t'.
Proof.
  induction fuel as [|fuel IH]; intros t Hs Hes Hc Hf; [lia|]. cbn [make_room].
  pose proof (total_size_nonneg (entries t)).
  destruct (too_full es t) eqn:Ef.
  - destruct (evict_oldest_ok (E:=E) t Hs) as (t1 & -> & H1 & Hl). cbn [obind].
    assert (entries t ≠ []) as Hne.
    { intros E0. rewrite E0 in Hs. simpl in Hs. unfold too_full, checked_add in Ef. rewrite Hs in Ef.
      rewrite (proj2 (Z.leb_le _ _)) in Ef by lia. apply Z.ltb_lt in Ef. lia. }
    assert (Hc1 : capacity t1 = capacity t) by apply H1. assert (Hs1 : tsize t1 = total_size (entries t1)) by apply H1.
    assert (Hgo : ∃ t', make_room (E:=E) fuel es t1 = Ok (true, t') ∧ evicted t t' ∧ tsize t' + es ≤ capacity t').
    { destruct (IH t1) as (t2 & -> & H2 & Hfit); [done|lia|lia|destruct (entries t); [done|simpl in *; lia]|].
      exists t2. split_and!; [done|by eapply evicted_trans|done]. }
    destruct (entries t1) eqn:E1; [|done].
    destruct (too_full es t1) eqn:Ef1; [|done]. exfalso. simpl in Hs1. unfold too_full, checked_add in Ef1.
    rewrite Hs1, (proj2 (Z.leb_le _ _)) in Ef1 by lia. apply Z.ltb_lt in Ef1. lia.
  - exists t. split_and!; [done|by apply evicted_refl|]. unfold too_full, checked_add in Ef.
    destruct (_ <=? _); [|done]. apply Z.ltb_ge in Ef. lia.
Qed.

(** An insertion keeps the table, and one that fails leaves it alone. *)
Lemma table_insert_ok {E} mc h t :
  table_ok mc t → mc ≤ USIZE_MAX →
  ∃ b t', insert (E:=E) h t = Ok (b, t') ∧ table_ok mc t' ∧ insert_count t' = insert_count t + (if b : bool then 1 else 0).
Proof.
  intros H Hmc. unfold insert. cbv zeta. pose proof (entry_size_pos h) as Hpos. pose proof (to_fits _ _ H) as Hfit.
  destruct (Z.ltb_spec (capacity t) (entry_size h)) as [Hbig|Hok].
  { exists false, t. split_and!; [done|done|lia]. }
  destruct (make_room_ok (E:=E) (S (S (length (entries t)))) (entry_size h) t) as (t' & -> & He & Hf);
    [apply H|lia|lia|lia|]. cbn [obind]. exists true, (push_back h t').
  pose proof (evicted_length _ _ He) as Hl. destruct He as (_ & Hi & Hcap & Hs). pose proof (to_count _ _ H).
  split_and!; [done| |simpl; lia]. split; simpl.
  - rewrite total_size_app. simpl. lia.
  - lia.
  - rewrite zlen_app. change (zlen [h]) with 1. lia.
Qed.

(** ** Instructions *)

Lemma back_from_safe {E} (e : E) base idx :
  0 ≤ idx ≤ INT_BOUND → match back_from e base idx with Ok _ | Err _ => True | _ => False end.
Proof.
  unfold INT_BOUND. intros H. unfold back_from, U64_MAX. rewrite (proj2 (Z.ltb_ge _ _)) by lia. by destruct (checked_sub _ _).
Qed.

(** An instruction that is read ends after where it starts. *)
Definition instr_safe (mc : Z) (buf : list Z) (pos : Z) (t : DynamicTable) (r : instr) : Prop :=
  match r with
  | Ok None => True
  | Ok (Some (t', p)) =>
      table_ok mc t' ∧ pos < p ≤ zlen buf ∧ insert_count t ≤ insert_count t' ≤ insert_count t + 1
  | Err t' => table_ok mc t'
  | Panic | NoFuel => False
  end.

Section instruction.
  Context (mc : Z) (buf : list Z) (t : DynamicTable).
  Hypothesis Ht : table_ok mc t.
  Hypothesis Hmc : mc ≤ USIZE_MAX.

Lemma insert_instr_safe pos h p : pos < p ≤ zlen buf → instr_safe mc buf pos t (insert_instr h t p).
Proof using Ht Hmc.
  intros Hp. unfold insert_instr. destruct (table_insert_ok (E:=DynamicTable) mc h t Ht Hmc) as (b & t' & -> & Ht' & Hi).
  cbn [obind]. destruct b; simpl; [split_and!; done || lia|done].
Qed.

Lemma int_value_safe pos q n k :
  0 ≤ pos ≤ q → (∀ v p, 0 ≤ v ≤ INT_BOUND → pos < p ≤ zlen buf → instr_safe mc buf pos t (k (v, p))) →
  instr_safe mc buf pos t (stream_value t (read_stream_int buf q n) k).
Proof using Ht.
  intros Hq Hk. pose proof (read_stream_int_safe buf q n) as H.
  destruct (read_stream_int buf q n) as [[v p]| | |] eqn:E; try done.
  apply read_stream_int_pos in E; [|lia]. apply Hk; [done|lia].
Qed.

Lemma string_value_safe pos q k :
  0 ≤ pos ≤ q → (∀ s p, pos < p ≤ zlen buf → instr_safe mc buf pos t (k (s, p))) →
  instr_safe mc buf pos t (stream_value t (read_stream_string buf q) k).
Proof using Ht.
  intros Hq Hk. pose proof (read_stream_string_safe buf q) as H.
  destruct (read_stream_string buf q) as [[s p]| | |] eqn:E; try done.
  apply read_string_stream in E. pose proof (read_string_safe buf q) as Hs. rewrite E in Hs. apply Hk. lia.
Qed.

(** A name or entry that is looked up from the end of the table. *)
Lemma lookup_safe {A} pos idx (f : header → A) (k : A → instr) :
  0 ≤ idx ≤ INT_BOUND → (∀ a, instr_safe mc buf pos t (k a)) →
  instr_safe mc buf pos t
    (try! a := (try! abs := back_from t (insert_count t) idx in try! h := or_err t (get_abs t abs) in Ok (f h)) in k a).
Proof using Ht.
  intros Hi Hk. pose proof (back_from_safe t (insert_count t) idx Hi) as H. unfold back_from in *.
  destruct (U64_MAX <? 1 + idx); [done|]. destruct (checked_sub _ _) as [abs|]; [|done]. cbn [obind].
  destruct (get_abs t abs); [|done]. cbn [or_err obind]. apply Hk.
Qed.

Lemma instruction_safe pos b : 0 ≤ pos → instr_safe mc buf pos t (instruction mc buf pos b t).
Proof using Ht Hmc.
  intros Hp. unfold instruction. destruct (negb (Z.land b 0x80 =? 0)).
  { apply int_value_safe; [lia|]. intros idx p Hidx Hpp. apply string_value_safe; [lia|]. intros v q Hq.
    destruct (negb (Z.land b 0x40 =? 0)).
    - destruct (static_entry idx); [|done]. by apply insert_instr_safe.
    - apply (lookup_safe pos idx fst); [done|]. intros n. by apply insert_instr_safe. }
  destruct (negb (Z.land b 0x40 =? 0)).
  { apply int_value_safe; [lia|]. intros n p Hn Hpp. destruct (checked_add p n) as [e|] eqn:Ee; [|done].
    apply checked_add_Some in Ee as [-> _]. destruct (get_range buf p (p + n)) as [s|]; [|done].
    assert (Hs : (if negb (Z.land b 0x20 =? 0) then huffman_stream s else Done s) ≠ Crashed)
      by (destruct (negb _); [apply huffman_stream_safe|done]).
    destruct (if negb (Z.land b 0x20 =? 0) then _ else _) as [name| | |]; try done. cbn [stream_value].
    apply string_value_safe; [lia|]. intros v q Hq. by apply insert_instr_safe. }
  destruct (negb (Z.land b 0x20 =? 0)).
  { apply int_value_safe; [lia|]. intros c p Hc Hpp. destruct (Z.ltb_spec mc c); [done|].
    destruct (set_capacity_ok (E:=DynamicTable) mc t c Ht) as (t' & -> & Ht' & Hi); [lia|]. simpl. split_and!; done || lia. }
  apply int_value_safe; [lia|]. intros idx p Hidx Hpp. pose proof (back_from_safe t (insert_count t) idx Hidx) as H.
  unfold back_from in *. destruct (U64_MAX <? 1 + idx); [done|]. destruct (checked_sub _ _) as [abs|]; [|done]. cbn [obind].
  destruct (get_abs t abs); [|done]. by apply insert_instr_safe.
Qed.
End instruction.

Lemma instructions_safe mc buf : mc ≤ USIZE_MAX → ∀ fuel pos t,
  table_ok mc t → 0 ≤ pos ≤ zlen buf → zlen buf - pos < Z.of_nat fuel →
  match instructions fuel mc buf pos t with
  | Ok (t', rest) => table_ok mc t' ∧ insert_count t ≤ insert_count t' ≤ insert_count t + (zlen buf - pos) ∧ zlen rest ≤ zlen buf
  | Err t' => table_ok mc t'
  | Panic | NoFuel => False
  end.
Proof.
  intros Hmc. induction fuel as [|fuel IH]; intros pos t Ht Hp Hf; [lia|]. cbn [instructions].
  destruct (get buf pos) as [b|] eqn:Eb; [|split_and!; [done|lia|lia|apply zlen_nonneg]].
  apply get_Some_lt in Eb. pose proof (instruction_safe mc buf t Ht Hmc pos b ltac:(lia)) as H.
  destruct (instruction mc buf pos b t) as [[[t' p]|]|t'| |]; cbn [obind]; simpl in H; try done.
  - destruct H as (Ht' & Hpp & Hi). pose proof (IH p t' Ht' ltac:(lia) ltac:(lia)) as H'.
    destruct (instructions fuel mc buf p t') as [[t'' rest]|t''| |]; try done.
    destruct H' as (H1 & H2 & H3). split_and!; done || lia.
  - split_and!; [done|lia|lia|]. unfold zlen. rewrite length_drop. lia.
Qed.

(** What the decoder keeps to, whatever it is sent. *)
Record dec_ok (d : Decoder) : Prop := {
  do_table : table_ok (max_capacity d) (table d);
  do_max : max_capacity d ≤ USIZE_MAX;
  do_buf : zlen (enc_buf d) ≤ MAX_ENCODER_BUFFER
}.

Lemma Decoder_new_ok mc : 0 ≤ mc ≤ USIZE_MAX → dec_ok (Decoder_new mc).
Proof. intros H. split; simpl; [split; simpl; done || lia|lia|done]. Qed.

Lemma on_encoder_stream_safe data d :
  dec_ok d →
  match on_encoder_stream data d with
  | Ok d' | Err d' => dec_ok d' ∧ max_capacity d' = max_capacity d
  | Panic | NoFuel => False
  end.
Proof.
  intros [Ht Hm Hb]. unfold on_encoder_stream. destruct (Z.ltb_spec MAX_ENCODER_BUFFER (zlen (enc_buf d) + zlen data)) as [|Hz].
  { split; [|done]. split; simpl; done. }
  cbv zeta. set (buf := enc_buf d ++ data). assert (Hbuf : zlen buf ≤ MAX_ENCODER_BUFFER) by (unfold buf; rewrite zlen_app; lia).
  pose proof (zlen_nonneg buf).
  pose proof (instructions_safe (max_capacity d) buf Hm (S (length buf)) 0 (table d) Ht) as H0.
  destruct (instructions _ _ _ _ _) as [[t rest]|t| |].
  - destruct H0 as (H1 & H2 & H3); [lia|unfold zlen; lia|]. unfold MAX_ENCODER_BUFFER in *.
    assert (∃ ack, (if 0 <? insert_count t - insert_count (table d)
      then push_int (E:=Decoder) (insert_count t - insert_count (table d)) 6 0 else Ok []) = Ok ack) as [ack ->].
    { destruct (0 <? _); [|by eexists].
      destruct (push_int_ok (E:=Decoder) (insert_count t - insert_count (table d)) 6 0) as (i & Hi & _);
        [lia|unfold MAX_INT; lia|by vm_compute|done|]. by exists i. }
    cbn [obind]. split; [|done]. split; simpl; [done|done|unfold MAX_ENCODER_BUFFER; lia].
  - split; [|done]. split; simpl; [apply H0; [lia|unfold zlen; lia]|done|done].
  - apply H0; [lia|unfold zlen; lia].
  - apply H0; [lia|unfold zlen; lia].
Qed.

(** ** Field sections *)

(** One field line ends after where it starts. *)
Definition field_safe (buf : list Z) (pos : Z) (r : outcome unit (header * Z)) : Prop :=
  match r with Ok (_, p) => pos < p ≤ zlen buf | Err _ => True | Panic | NoFuel => False end.

Lemma dynamic_field_safe t base buf pos b : 0 ≤ pos → field_safe buf pos (dynamic_field t base buf pos b).
Proof.
  intros Hp. unfold dynamic_field.
  assert (Hint : ∀ n (k : Z * Z → outcome unit (header * Z)),
    (∀ v p, 0 ≤ v ≤ INT_BOUND → pos < p ≤ zlen buf → field_safe buf pos (k (v, p))) →
    field_safe buf pos (obind (read_int buf pos n) k)).
  { intros n k Hk. pose proof (read_int_safe buf pos n Hp) as H.
    destruct (read_int buf pos n) as [[v p]| | |]; try done. destruct H. by apply Hk. }
  assert (Hstr : ∀ q (k : list Z * Z → outcome unit (header * Z)), pos < q →
    (∀ s p, pos < p ≤ zlen buf → field_safe buf pos (k (s, p))) → field_safe buf pos (obind (read_string buf q) k)).
  { intros q k Hq Hk. pose proof (read_string_safe buf q ltac:(lia)) as H.
    destruct (read_string buf q) as [[s p]| | |]; try done. apply Hk. lia. }
  assert (Hopt : ∀ {A} (o : option A) (k : A → outcome unit (header * Z)),
    (∀ a, field_safe buf pos (k a)) → field_safe buf pos (obind (from_option o) k)).
  { intros A o k Hk. destruct o; [apply Hk|done]. }
  assert (Hback : ∀ idx (k : Z → outcome unit (header * Z)), 0 ≤ idx ≤ INT_BOUND →
    (∀ a, field_safe buf pos (k a)) → field_safe buf pos (obind (back_from tt base idx) k)).
  { intros idx k Hi Hk. pose proof (back_from_safe tt base idx Hi). destruct (back_from tt base idx); try done. apply Hk. }
  destruct (negb (Z.land b 0x80 =? 0)).
  { apply Hint. intros v p Hv Hpp. destruct (negb _); [by apply Hopt|]. apply Hback; [done|]. intros a. by apply Hopt. }
  destruct (negb (Z.land b 0x40 =? 0)).
  { apply Hint. intros v p Hv Hpp. apply Hstr; [lia|]. intros s q Hq. destruct (negb _); [by apply Hopt|].
    apply Hback; [done|]. intros a. by apply Hopt. }
  destruct (negb (Z.land b 0x20 =? 0)).
  { pose proof (read_literal_name_safe b buf pos Hp) as H. destruct (read_literal_name b buf pos) as [[n p]| | |]; try done.
    cbn [obind]. apply Hstr; [lia|]. by intros s q Hq. }
  destruct (negb (Z.land b 0x10 =? 0)).
  { apply Hint. intros v p Hv Hpp. apply Hopt. intros a. by apply Hopt. }
  apply Hint. intros v p Hv Hpp. apply Hstr; [lia|]. intros s q Hq. apply Hopt. intros a. by apply Hopt.
Qed.

Lemma add_field_Some n out h m :
  add_field n out h = Some m → m = n + entry_size h ∧ m ≤ MAX_SECTION_SIZE ∧ zlen out < MAX_SECTION_FIELDS.
Proof.
  unfold add_field, entry_size. destruct (checked_add _ _) as [x|] eqn:E; [|done]. apply checked_add_Some in E as [-> _].
  destruct (_ && _) eqn:B; [|done]. bool_prop. intros [= <-]. split_and!; [lia|done|done].
Qed.

(** The loop over the lines stays within the limits on a section. *)
Lemma fields_loop_safe field buf :
  (∀ pos b, 0 ≤ pos → field_safe buf pos (field pos b)) →
  ∀ fuel pos n out, 0 ≤ pos ≤ zlen buf → zlen buf - pos < Z.of_nat fuel →
  n = total_size out → n ≤ MAX_SECTION_SIZE → zlen out ≤ MAX_SECTION_FIELDS →
  match fields_loop fuel field buf pos n out with
  | Ok l => total_size l ≤ MAX_SECTION_SIZE ∧ zlen l ≤ MAX_SECTION_FIELDS
  | Err _ => True
  | Panic | NoFuel => False
  end.
Proof.
  intros Hfield. induction fuel as [|fuel IH]; intros pos n out Hp Hf Hn Hsize Hcount; [lia|]. cbn [fields_loop].
  destruct (get buf pos) as [b|] eqn:Eb; [|by rewrite <- Hn]. pose proof (Hfield pos b ltac:(lia)) as H.
  destruct (field pos b) as [[h p]| | |]; try done. cbn [obind]. simpl in H.
  destruct (add_field n out h) as [m|] eqn:Em; [|done]. apply add_field_Some in Em as (Hm & Hm1 & Hm2).
  apply IH; [lia|lia| |done|].
  - rewrite total_size_app. simpl. lia.
  - rewrite zlen_app. change (zlen [h]) with 1. lia.
Qed.

(** A required count that is read is one that a table can reach. *)
Lemma required_count_safe mc ic e :
  0 ≤ mc → 0 ≤ ic → 0 ≤ e → match required_count mc ic e with Ok n => 0 ≤ n | Err _ => True | _ => False end.
Proof.
  intros Hmc Hic He. unfold required_count. destruct (e =? 0) eqn:E0; [done|]. bool_prop. cbv zeta.
  destruct (Z.eqb_spec (mc / ENTRY_OVERHEAD) 0) as [|Hne]; [done|].
  assert (Hpos : 0 ≤ mc / ENTRY_OVERHEAD) by (apply Z.div_pos; unfold ENTRY_OVERHEAD; lia).
  set (m := mc / ENTRY_OVERHEAD) in *. destruct (2 * m <? e); [done|].
  pose proof (Z.div_pos (ic + m) (2 * m) ltac:(lia) ltac:(lia)).
  assert (0 ≤ (ic + m) / (2 * m) * (2 * m)) by nia.
  destruct (ic + m <? _) eqn:E1; [destruct (_ <=? 2 * m) eqn:E2; [done|]|]; cbn [obind]; destruct (_ =? 0); try done; bool_prop; lia.
Qed.

Lemma decode_field_section_safe id section d :
  dec_ok d → 0 ≤ id < MAX_INT →
  match Decoder_decode_field_section id section d with
  | Ok (Headers hs, d') => total_size hs ≤ MAX_SECTION_SIZE ∧ zlen hs ≤ MAX_SECTION_FIELDS ∧ dec_ok d' ∧ table d' = table d
  | Ok (Blocked, d') => d' = d
  | Err _ => True
  | Panic | NoFuel => False
  end.
Proof.
  intros [Ht Hm Hb] Hid. unfold Decoder_decode_field_section. cbv zeta.
  pose proof (read_int_safe section 0 8 ltac:(lia)) as H. destruct (read_int section 0 8) as [[e p]| | |]; try done.
  cbn [obind]. destruct H as [He Hp]. pose proof (to_fits _ _ Ht). pose proof (to_count _ _ Ht).
  pose proof (zlen_nonneg (entries (table d))). pose proof (to_size _ _ Ht). pose proof (total_size_nonneg (entries (table d))).
  pose proof (required_count_safe (max_capacity d) (insert_count (table d)) e ltac:(lia) ltac:(lia) ltac:(lia)) as Hn.
  destruct (required_count _ _ _) as [n| | |]; try done. cbn [obind].
  destruct (_ <? n); [done|]. destruct (get section p) as [sb|]; [|done].
  pose proof (read_int_safe section p 7 ltac:(lia)) as Hd. destruct (read_int section p 7) as [[delta q]| | |]; try done.
  cbn [obind]. destruct Hd as [Hdelta Hq].
  assert (Hbase : match (if negb (Z.land sb 0x80 =? 0) then back_from tt n delta else from_option (checked_add n delta)) with
    Ok _ | Err _ => True | _ => False end).
  { destruct (negb _); [by apply back_from_safe|]. by destruct (checked_add n delta). }
  destruct (if negb (Z.land sb 0x80 =? 0) then _ else _) as [base| | |]; try done. cbn [obind].
  pose proof (fields_loop_safe (dynamic_field (table d) base section) section
    (λ pos b, dynamic_field_safe (table d) base section pos b) (S (length section)) q 0 [] ltac:(lia) ltac:(unfold zlen in *; lia)
    eq_refl ltac:(done) ltac:(done)) as Hl.
  destruct (fields_loop _ _ _ _ _ _) as [l| | |]; try done. cbn [obind]. destruct Hl as [Hl1 Hl2].
  assert (∃ i, (if 0 <? n then push_int (E:=unit) id 7 0x80 else Ok []) = Ok i) as [i ->].
  { destruct (0 <? n); [|by eexists].
    destruct (push_int_ok (E:=unit) id 7 0x80) as (i & Hi & _); [lia|done|by vm_compute|done|]. by exists i. }
  cbn [obind]. split_and!; [done|done| |done]. by split.
Qed.
