(* ===== verification/TransportProps.v ===== *)
(** * Properties of the encrypted transports: QUIC frames and HTTP/2

    Statements about [onetdns-quic] (integers, frames) and [onetdns-http2]
    (Huffman code, HPACK, frames, header fields), with concrete instances. *)

From S2P Require Import Prelude.
From S2P Require Acl Cookie Varint QuicFrame QuicPacket QuicHandshake Huffman Hpack H2Frame Qpack QpackCodec QpackSync QpackRun.

(** ** QUIC *)

(** A QUIC integer that is written is read back, whatever follows, up to
    the 62 bits that the format holds; and no encoding of a value is shorter
    than the one written. *)
Theorem varint_roundtrip v post :
  is_u64 v →
  Varint.read (Varint.write v ++ post) = Some (v mod 2 ^ 62, Varint.len v) ∧ zlen (Varint.write v) = Varint.len v ∧
  ∀ buf n, is_bytes buf → Varint.read buf = Some (v, n) → Varint.len v ≤ n.
Proof.
  intros Hv. split; [by apply Varint.read_write|]. split; [apply Varint.zlen_write|].
  intros buf n. apply Varint.write_shortest.
Qed.

Lemma varint_roundtrip_witness :
  Varint.read (Varint.write 494878333 ++ [7]) = Some (494878333, 4).
Proof. apply (varint_roundtrip 494878333 [7]). vm_compute. split; discriminate. Defined.

(** C30. Reading the frames of a packet ends without a panic on any octets,
    yields at most 1024 frames, and what they carry (data, reasons, padding,
    acknowledged ranges) is no more than the packet held. *)
Theorem quic_frames_total buf :
  is_bytes buf → zlen buf ≤ USIZE_MAX →
  match QuicFrame.parse buf with
  | Ok fs => zlen fs ≤ QuicFrame.MAX_PARSED_FRAMES ∧ QuicFrame.frames_weight fs ≤ zlen buf
  | Err _ => True
  | Panic | NoFuel => False
  end.
Proof. apply QuicFrame.parse_total_lemma. Qed.

Lemma quic_frames_total_witness :
  match QuicFrame.parse [0; 0; 0; 1; 8; 4; 65; 66] with
  | Ok fs => zlen fs ≤ QuicFrame.MAX_PARSED_FRAMES ∧ QuicFrame.frames_weight fs ≤ 8
  | Err _ => True
  | Panic | NoFuel => False
  end.
Proof. apply (quic_frames_total [0; 0; 0; 1; 8; 4; 65; 66]); [by apply is_bytesb_ok|vm_compute; discriminate]. Defined.

(** C31. The frames that an endpoint sends are read back as they were, when
    their numbers fit the integers of the format, an acknowledgement lists at
    most 256 ranges, and padding is not split in two. *)
Theorem quic_frames_roundtrip fs :
  Forall QuicFrame.frame_ok fs → QuicFrame.no_double_padding fs →
  zlen fs ≤ QuicFrame.MAX_PARSED_FRAMES → zlen (QuicFrame.encode_all fs) ≤ USIZE_MAX →
  QuicFrame.parse (QuicFrame.encode_all fs) = Ok fs.
Proof. apply QuicFrame.parse_encode_lemma. Qed.

Definition quic_sample : list QuicFrame.Frame :=
  [QuicFrame.Ack 70000 25 3 [(1, 2); (0, 64)]; QuicFrame.Stream 4 0 false [1; 2; 3]; QuicFrame.Padding 5;
   QuicFrame.ConnectionClose 2 None [98; 121; 101]].

Lemma quic_frames_roundtrip_witness : QuicFrame.parse (QuicFrame.encode_all quic_sample) = Ok quic_sample.
Proof.
  apply (quic_frames_roundtrip quic_sample); [|exact I|vm_compute; discriminate|vm_compute; discriminate].
  repeat constructor; vm_compute; reflexivity || discriminate.
Defined.

(** C23. A packet that one endpoint protects is read by the other as it was, with
    its payload padded to where a sample can be taken: when the receiver has
    the keys, for a short header those of the packet's phase, and the number is
    in the window of half its range around the next one expected.  What follows
    a long packet in the datagram does not matter.  The ciphers are any that
    decrypt what they encrypt, with tags of 16 octets and masks of five. *)
Theorem quic_packet_roundtrip encrypt decrypt header_mask a keys n pn largest payload :
  QuicPacket.cipher_laws encrypt decrypt header_mask → 12 ≤ zlen (QuicPacket.iv keys) → 1 ≤ n ≤ 4 →
  0 ≤ largest < 2 ^ 62 → 0 ≤ pn < 2 ^ 62 → largest + 1 - 2 ^ (8 * n - 1) < pn ≤ largest + 1 + 2 ^ (8 * n - 1) →
  (∀ t dcid scid token rest, 0 ≤ t ≤ 2 → zlen dcid ≤ 20 → zlen scid ≤ 20 → zlen token ≤ 256 → zlen payload + zlen rest ≤ 2 ^ 61 →
   ∃ pkt, QuicPacket.protect_long encrypt header_mask a keys t dcid scid token pn n payload = Ok pkt ∧
     QuicPacket.unprotect_long decrypt header_mask a keys (pkt ++ rest) largest =
     Ok (QuicPacket.mkLong t QuicPacket.VERSION_1 dcid scid (if t =? QuicPacket.INITIAL then token else []) pn
           (QuicPacket.pad_payload n payload) (zlen pkt))) ∧
  (∀ recv alt phase expected dcid, zlen dcid ≤ 20 →
   (if Bool.eqb phase expected then recv = keys else alt = Some keys ∧ QuicPacket.hp recv = QuicPacket.hp keys) →
   ∃ pkt, QuicPacket.protect_short encrypt header_mask a keys dcid pn n payload phase = Ok pkt ∧
     QuicPacket.unprotect_short decrypt header_mask a recv alt expected pkt (zlen dcid) largest =
     Ok (QuicPacket.mkShort dcid pn (QuicPacket.pad_payload n payload), negb (Bool.eqb phase expected))).
Proof.
  intros Hlaws Hiv Hn Hl Hp Hw. split.
  - intros. by apply (QuicPacket.unprotect_protect_long encrypt decrypt header_mask Hlaws).
  - intros. by apply (QuicPacket.unprotect_protect_short encrypt decrypt header_mask Hlaws).
Qed.

(** A cipher for the instances: the tag sums up nonce, header and text, and
    the mask is the start of the sample. *)
Definition toy_tag (n aad m : list Z) : list Z := replicate 16 (fold_left Z.add (n ++ aad ++ m) 0 mod 256).
Definition toy_encrypt (_ : QuicPacket.Aead) (_ n aad m : list Z) : list Z := m ++ toy_tag n aad m.
Definition toy_decrypt (_ : QuicPacket.Aead) (_ n aad c : list Z) : option (list Z) :=
  let m := take (length c - 16) c in if bool_decide (drop (length c - 16) c = toy_tag n aad m) then Some m else None.
Definition toy_mask (_ : QuicPacket.Aead) (_ s : list Z) : list Z := take 5 s.

Lemma toy_laws : QuicPacket.cipher_laws toy_encrypt toy_decrypt toy_mask.
Proof.
  split.
  - intros a k n aad m. unfold toy_decrypt, toy_encrypt. assert (Hl : (length (m ++ toy_tag n aad m) - 16 = length m)%nat).
    { rewrite length_app. unfold toy_tag. rewrite length_replicate. lia. }
    rewrite Hl, take_app_length, drop_app_length. by rewrite bool_decide_eq_true_2.
  - intros a k n aad m. unfold toy_encrypt, toy_tag. rewrite zlen_app. unfold zlen at 2. by rewrite length_replicate.
  - intros a k s Hs. unfold toy_mask, zlen in *. rewrite length_take. lia.
Qed.

Definition toy_keys : QuicPacket.PacketKeys := QuicPacket.mkKeys [1] [1; 2; 3; 4; 5; 6; 7; 8; 9; 10; 11; 12] [2].

(** Number 66000, sent in two octets to a receiver that has seen 65000. *)
Lemma quic_packet_roundtrip_witness :
  ∃ pkt, QuicPacket.protect_long toy_encrypt toy_mask QuicPacket.Aes128Gcm toy_keys 0 [10; 11] [12] [13; 14] 66000 2 [42] = Ok pkt ∧
    QuicPacket.unprotect_long toy_decrypt toy_mask QuicPacket.Aes128Gcm toy_keys (pkt ++ [99; 98]) 65000 =
    Ok (QuicPacket.mkLong 0 1 [10; 11] [12] [13; 14] 66000 [42; 0] (zlen pkt)).
Proof.
  destruct (quic_packet_roundtrip toy_encrypt toy_decrypt toy_mask QuicPacket.Aes128Gcm toy_keys 2 66000 65000 [42] toy_laws) as [H _];
    [vm_compute; discriminate|lia|lia|lia|vm_compute; split; [reflexivity|discriminate]|].
  apply (H 0 [10; 11] [12] [13; 14] [99; 98]); [lia|vm_compute; discriminate..].
Defined.

(** C24. On any octets that arrive, taking off the protection ends without a
    panic, for long and short headers and whatever packet number was the
    largest; what is read names identifiers of at most 20 octets, a token of
    at most 256, never a Retry, and lies within the datagram. *)
Theorem quic_packet_total encrypt decrypt header_mask a keys alt expected pkt dcid_len largest :
  QuicPacket.cipher_laws encrypt decrypt header_mask → is_bytes pkt → 0 ≤ dcid_len → 12 ≤ zlen (QuicPacket.iv keys) →
  (∀ k, alt = Some k → 12 ≤ zlen (QuicPacket.iv k)) →
  match QuicPacket.unprotect_long decrypt header_mask a keys pkt largest with
  | Ok p => zlen (QuicPacket.lp_dcid p) ≤ 20 ∧ zlen (QuicPacket.lp_scid p) ≤ 20 ∧ zlen (QuicPacket.lp_token p) ≤ 256
            ∧ QuicPacket.lp_ptype p ≠ QuicPacket.RETRY ∧ 0 < QuicPacket.consumed p ≤ zlen pkt
  | Err _ => True
  | Panic | NoFuel => False
  end ∧
  match QuicPacket.unprotect_short decrypt header_mask a keys alt expected pkt dcid_len largest with
  | Ok (p, _) => zlen (QuicPacket.sp_dcid p) = dcid_len
  | Err _ => True
  | Panic | NoFuel => False
  end ∧
  match QuicPacket.long_packet_len pkt with Ok n => 0 < n ≤ zlen pkt | Err _ => True | Panic | NoFuel => False end.
Proof.
  intros Hlaws Hb Hd Hiv Halt. split; [by apply (QuicPacket.unprotect_long_yields encrypt)|]. split.
  - pose proof (QuicPacket.unprotect_short_yields encrypt decrypt header_mask Hlaws a keys alt expected pkt dcid_len largest Hb Hd Hiv Halt) as H.
    by destruct (QuicPacket.unprotect_short _ _ _ _ _ _ _ _ _) as [[p c]| | |].
  - pose proof (QuicPacket.parse_long_header_yields pkt Hb) as H. unfold QuicPacket.long_packet_len.
    destruct (QuicPacket.parse_long_header pkt) as [h| | |]; try done. destruct H as (_ & _ & _ & _ & H1 & H2). simpl. lia.
Qed.

(** The header of a Handshake packet whose length runs past the datagram. *)
Lemma quic_packet_total_witness :
  match QuicPacket.unprotect_long toy_decrypt toy_mask QuicPacket.Aes128Gcm toy_keys [0xe0; 0; 0; 0; 1; 1; 7; 0; 0x40; 0xff; 1; 2] 5 with
  | Ok p => 0 < QuicPacket.consumed p ≤ 12
  | Err _ => True
  | Panic | NoFuel => False
  end.
Proof.
  destruct (quic_packet_total toy_encrypt toy_decrypt toy_mask QuicPacket.Aes128Gcm toy_keys None false
    [0xe0; 0; 0; 0; 1; 1; 7; 0; 0x40; 0xff; 1; 2] 8 5 toy_laws) as (H & _);
    [by apply is_bytesb_ok|lia|vm_compute; discriminate|by intros k [=]|].
  destruct (QuicPacket.unprotect_long _ _ _ _ _ _) as [p| | |]; [apply H|exact I|exact H|exact H].
Defined.

(** C26. Transport parameters that are within their limits are read as they were
    written.  Reading any octets ends, and what it gives is within the limits,
    so it can be written and read again; a list of parameters is taken only if
    no number comes twice, and then each is applied in turn. *)
Theorem transport_params_roundtrip :
  (∀ p, QuicHandshake.ParamsSpec.params_ok p → QuicHandshake.Params.decode (QuicHandshake.Params.encode p) = Ok p) ∧
  (∀ buf, is_bytes buf →
   match QuicHandshake.Params.decode buf with
   | Ok p => QuicHandshake.ParamsSpec.params_ok p ∧ QuicHandshake.Params.decode (QuicHandshake.Params.encode p) = Ok p
   | Err _ => True
   | Panic | NoFuel => False
   end) ∧
  (∀ es, Forall (λ e, 0 ≤ e.1 < 2 ^ 62 ∧ zlen e.2 < 2 ^ 62 ∧ is_bytes e.2) es →
   zlen (concat (map QuicHandshake.ParamsSpec.raw es)) ≤ USIZE_MAX →
   QuicHandshake.Params.decode (concat (map QuicHandshake.ParamsSpec.raw es)) =
   if bool_decide (NoDup (map fst es))
   then QuicHandshake.ParamsSpec.apply_all es QuicHandshake.Params.default_params else Err tt).
Proof.
  split; [apply QuicHandshake.ParamsTotal.decode_encode|]. split.
  - intros buf Hb. pose proof (QuicHandshake.ParamsTotal.decode_loop_yields (length buf) buf 0 [] QuicHandshake.Params.default_params Hb
      ltac:(lia) ltac:(unfold zlen; lia) QuicHandshake.ParamsSpec.default_params_ok) as H.
    unfold QuicHandshake.Params.decode at 1. destruct (QuicHandshake.Params.decode_loop _ _ _ _ _) as [p| | |]; try done.
    split; [done|by apply QuicHandshake.ParamsTotal.decode_encode].
  - intros es Hes Hmax. unfold QuicHandshake.Params.decode. destruct (bool_decide _) eqn:Hd.
    + apply bool_decide_eq_true in Hd. apply QuicHandshake.ParamsSpec.decode_entries; [apply here_0|done|apply QuicHandshake.ParamsTotal.raw_length| |done|].
      * eapply Forall_impl; [exact Hes|]. simpl. tauto.
      * intros e _. apply not_elem_of_nil.
    + apply bool_decide_eq_false in Hd. apply QuicHandshake.ParamsTotal.decode_duplicate with es;
        [apply here_0|done|apply QuicHandshake.ParamsTotal.raw_length|done|apply QuicHandshake.ParamsSpec.default_params_ok|]. by intros [H _].
Qed.

Lemma transport_params_roundtrip_witness :
  QuicHandshake.Params.decode (QuicHandshake.Params.encode QuicHandshake.Params.server_defaults) = Ok QuicHandshake.Params.server_defaults.
Proof.
  apply (proj1 transport_params_roundtrip).
  split; try done; vm_compute; split; (discriminate || reflexivity).
Defined.

(** C25. A token is accepted exactly when it is the one that this server's key
    gives for the client's address, the identifier returned and the identifier
    the client now uses, both of 1 to 20 octets, at a time at most thirty
    seconds ago or five ahead; on any other octets validation ends with a
    refusal. *)
Theorem retry_token_valid_iff sha256 key token ip dcid now :
  (∀ m, zlen (sha256 m) = 32) → (∀ m, is_bytes (sha256 m)) →
  is_bytes token → is_bytes dcid → Acl.addr_ok ip → is_u64 now →
  returns (QuicHandshake.Retry.validate sha256 key token ip dcid now) ∧
  ∀ odcid, QuicHandshake.Retry.validate sha256 key token ip dcid now = Ok odcid ↔
    1 ≤ zlen odcid ≤ 20 ∧ 1 ≤ zlen dcid ≤ 20 ∧
    ∃ issued, (is_u64 issued ∧ issued ≤ now + 5 ∧ now - issued ≤ 30) ∧
      QuicHandshake.Retry.issue sha256 key ip odcid dcid issued = Ok token.
Proof. intros Hlen Hbytes. by apply QuicHandshake.RetrySpec.validate_spec. Qed.

(** A digest for the instance, and the token it gives for 192.0.2.10. *)
Definition toy_sha256 (m : list Z) : list Z := replicate 32 (fold_left (λ h b, (h * 31 + b) mod 256) m 7).
Definition toy_token : list Z :=
  match QuicHandshake.Retry.issue toy_sha256 [7] (Acl.V4 3221225994) [1; 2; 3] [4; 5] 100 with Ok t => t | _ => [] end.

Lemma retry_token_valid_iff_witness :
  QuicHandshake.Retry.validate toy_sha256 [7] toy_token (Acl.V4 3221225994) [4; 5] 130 = Ok [1; 2; 3].
Proof.
  apply (retry_token_valid_iff toy_sha256 [7] toy_token (Acl.V4 3221225994) [4; 5] 130).
  - intros m. reflexivity.
  - intros m. apply Forall_replicate. unfold is_u8, U8_MAX.
    assert (H : ∀ l h, 0 ≤ h < 256 → 0 ≤ fold_left (λ h b, (h * 31 + b) mod 256) l h < 256).
    { induction l as [|b l IH]; intros h Hh; [exact Hh|]. apply IH. apply Z.mod_pos_bound. lia. }
    specialize (H m 7 ltac:(lia)). lia.
  - apply is_bytesb_ok. vm_compute. reflexivity.
  - apply is_bytesb_ok. reflexivity.
  - vm_compute. split; [discriminate|reflexivity].
  - vm_compute. split; discriminate.
  - split; [vm_compute; split; discriminate|]. split; [vm_compute; split; discriminate|].
    exists 100. split; [vm_compute; repeat split; discriminate|vm_compute; reflexivity].
Defined.

(** ** HTTP/2 *)

(** The Huffman code of any octets is decoded to them, with its padding. *)
Theorem huffman_roundtrip input :
  is_bytes input → zlen input ≤ USIZE_MAX →
  ∃ o, Huffman.encode input = Some o ∧ Huffman.decode o = Ok input ∧ is_bytes o.
Proof. apply Huffman.decode_encode_lemma. Qed.

Lemma huffman_roundtrip_witness :
  ∃ o, Huffman.encode [80; 79; 83; 84; 0; 255] = Some o ∧ Huffman.decode o = Ok [80; 79; 83; 84; 0; 255] ∧ is_bytes o.
Proof. apply (huffman_roundtrip [80; 79; 83; 84; 0; 255]); [by apply is_bytesb_ok|vm_compute; discriminate]. Defined.

(** An HPACK integer of 64 bits is read back with any prefix width, and the
    bits above the prefix are those given. *)
Theorem hpack_int_roundtrip v p hi :
  1 ≤ p ≤ 8 → 0 ≤ v ≤ U64_MAX → is_u8 hi → hi mod 2 ^ p = 0 →
  ∃ x o, Hpack.encode_int v p hi = Some (hi + x :: o) ∧ 0 ≤ x < 2 ^ p ∧
    ∀ rest, Hpack.decode_int ((hi + x :: o) ++ rest) p = Some (v, zlen (hi + x :: o)).
Proof.
  intros Hp Hv Hhi Hmod. destruct (Hpack.int_roundtrip v p hi Hp Hv Hhi Hmod) as (x & o & He & Hx & _ & Hd & _).
  by exists x, o.
Qed.

Lemma hpack_int_roundtrip_witness :
  ∃ x o, Hpack.encode_int 18446744073709551615 5 64 = Some (64 + x :: o) ∧ 0 ≤ x < 2 ^ 5 ∧
    ∀ rest, Hpack.decode_int ((64 + x :: o) ++ rest) 5 = Some (18446744073709551615, zlen (64 + x :: o)).
Proof. apply (hpack_int_roundtrip 18446744073709551615 5 64); vm_compute; by split. Defined.

(** A response that is encoded is decoded to the same header list, and
    leaves the decoder's table as it was: the encoder needs no table. *)
Theorem hpack_response_roundtrip d hs :
  Forall Hpack.header_bytes hs → Hpack.headers_size hs ≤ Hpack.MAX_DECODED_HEADER_LIST →
  ∃ o, Hpack.encode_response hs = Some o ∧ Hpack.Decoder_decode d o = Ok (hs, d).
Proof. apply Hpack.response_roundtrip_lemma. Qed.

Definition h2_sample : list (list Z * list Z) :=
  map (λ '(n, v), (as_bytes n, as_bytes v))
    [(":status", "200"); ("content-type", "application/dns-message"); ("x-own", "1")]%string.

Lemma hpack_response_roundtrip_witness :
  ∃ o, Hpack.encode_response h2_sample = Some o ∧
    Hpack.Decoder_decode (Hpack.Decoder_new 4096) o = Ok (h2_sample, Hpack.Decoder_new 4096).
Proof.
  apply (hpack_response_roundtrip (Hpack.Decoder_new 4096) h2_sample); [|vm_compute; discriminate].
  repeat (apply Forall_cons; split; [split; by apply is_bytesb_ok|]). apply Forall_nil. exact I.
Defined.

(** C27. On any octets the decoder ends without a panic; the list it gives is
    within the limit; and whether it succeeds or not its table is accounted
    exactly, within the size the peer was allowed. *)
Theorem hpack_decoder_total d buf :
  is_bytes buf → Hpack.dec_ok d →
  match Hpack.Decoder_decode d buf with
  | Ok (hs, d') => Hpack.table_kept d d' ∧ Hpack.headers_size hs ≤ Hpack.MAX_DECODED_HEADER_LIST
  | Err d' => Hpack.table_kept d d'
  | Panic | NoFuel => False
  end.
Proof. apply Hpack.Decoder_decode_safe. Qed.

(** A size update and a literal that is indexed. *)
Lemma hpack_decoder_total_witness :
  match Hpack.Decoder_decode (Hpack.Decoder_new 100) [0x20; 0x3f; 0x10; 0x40; 1; 97; 1; 98; 0xbe] with
  | Ok (hs, d') => Hpack.table_kept (Hpack.Decoder_new 100) d' ∧ Hpack.headers_size hs ≤ Hpack.MAX_DECODED_HEADER_LIST
  | Err d' => Hpack.table_kept (Hpack.Decoder_new 100) d'
  | Panic | NoFuel => False
  end.
Proof.
  apply (hpack_decoder_total (Hpack.Decoder_new 100) [0x20; 0x3f; 0x10; 0x40; 1; 97; 1; 98; 0xbe]);
    [by apply is_bytesb_ok|]. constructor; vm_compute; [reflexivity|split; discriminate|discriminate].
Defined.

(** A frame that is written is read back with its payload, and the rest of
    the stream is left; the reserved bit of the stream number is dropped. *)
Theorem h2_frame_roundtrip ty fl sid payload rest :
  zlen payload ≤ H2Frame.DEFAULT_MAX_FRAME → is_u32 sid →
  H2Frame.read_frame (H2Frame.write_frame ty fl sid payload ++ rest) =
  Ok (H2Frame.mkFrameHeader (zlen payload) ty fl (sid mod 2 ^ 31), payload, rest).
Proof. apply H2Frame.read_write_frame. Qed.

Lemma h2_frame_roundtrip_witness :
  H2Frame.read_frame (H2Frame.write_frame 1 4 (2 ^ 31 + 5) [1; 2; 3] ++ [9]) =
  Ok (H2Frame.mkFrameHeader 3 1 4 5, [1; 2; 3], [9]).
Proof. apply (h2_frame_roundtrip 1 4 (2 ^ 31 + 5) [1; 2; 3] [9]); vm_compute; [discriminate|split; discriminate]. Defined.

(** Reading a frame from any stream takes no more than the limit, checks
    the declared length first, and fails only as closed or as a protocol error;
    the padding and priority of a frame are removed exactly, and a pad length
    beyond the payload is an error. *)
Theorem h2_frame_bounds s fl :
  is_bytes s →
  match H2Frame.read_frame s with
  | Ok (h, p, rest) => zlen p = H2Frame.fh_length h ∧ zlen p ≤ H2Frame.DEFAULT_MAX_FRAME ∧
                       H2Frame.FRAME_HEADER_LEN + zlen p + zlen rest = zlen s
  | Err e => e = H2Frame.Closed ∨ e = H2Frame.Protocol
  | Panic | NoFuel => False
  end ∧
  match H2Frame.strip_headers s fl with Ok b => zlen b ≤ zlen s | Err e => e = H2Frame.Protocol | _ => False end ∧
  ∀ prio block padding, (if Z.land fl H2Frame.PRIORITY =? 0 then prio = [] else zlen prio = 5) →
    H2Frame.strip_headers ((if Z.land fl H2Frame.PADDED =? 0 then [] else [zlen padding]) ++ prio ++ block ++
                           (if Z.land fl H2Frame.PADDED =? 0 then [] else padding)) fl = Ok block.
Proof.
  intros Hb. split; [by apply H2Frame.read_frame_bounds|]. split; [by apply H2Frame.strip_headers_total|].
  apply H2Frame.strip_headers_spec.
Qed.

Lemma h2_frame_bounds_witness :
  match H2Frame.strip_headers [2; 5; 6; 7; 0] 8 with Ok b => zlen b ≤ 5 | Err e => e = H2Frame.Protocol | _ => False end.
Proof. apply (h2_frame_bounds [2; 5; 6; 7; 0] 8). by apply is_bytesb_ok. Defined.

(** A header field that passes cannot inject another: its value has no
    NUL, CR or LF, and its name is token characters after an optional colon. *)
Theorem header_field_no_injection name value :
  H2Frame.valid_header_field name value = true →
  (∀ b, b ∈ value → b ≠ 0 ∧ b ≠ 13 ∧ b ≠ 10) ∧
  (∃ t, (name = t ∨ name = 58 :: t) ∧ t ≠ [] ∧ ∀ b, b ∈ t → H2Frame.is_token_byte b = true).
Proof. apply H2Frame.valid_header_field_spec. Qed.

Lemma header_field_no_injection_witness :
  ∃ t, (as_bytes ":path" = t ∨ as_bytes ":path" = 58 :: t) ∧ t ≠ [] ∧ ∀ b, b ∈ t → H2Frame.is_token_byte b = true.
Proof. apply (header_field_no_injection (as_bytes ":path") (as_bytes "/dns-query")). vm_compute. reflexivity. Defined.

(** ** QPACK *)






(** C29. No octets on the instruction stream and no field section make the
    decoder panic or loop, at any point of a connection: the table keeps to the
    capacity that was announced, the buffer to its limit, and the headers of a
    section to 32 KiB and 128 lines; a section leaves the table as it is. *)
Theorem qpack_decoder_total d data id section :
  QpackRun.dec_ok d → 0 ≤ id < QpackCodec.MAX_INT →
  match Qpack.on_encoder_stream data d with
  | Ok d' | Err d' => QpackRun.dec_ok d' ∧ Qpack.max_capacity d' = Qpack.max_capacity d
  | Panic | NoFuel => False
  end ∧
  match Qpack.Decoder_decode_field_section id section d with
  | Ok (Qpack.Headers hs, d') =>
      QpackCodec.total_size hs ≤ Qpack.MAX_SECTION_SIZE ∧ zlen hs ≤ Qpack.MAX_SECTION_FIELDS
      ∧ QpackRun.dec_ok d' ∧ Qpack.table d' = Qpack.table d
  | Ok (Qpack.Blocked, d') => d' = d
  | Err _ => True
  | Panic | NoFuel => False
  end.
Proof.
  intros Hd Hid. split; [by apply QpackRun.on_encoder_stream_safe|by apply QpackRun.decode_field_section_safe].
Qed.

(** A capacity, an insertion and a duplicate of an entry that is not there. *)
Lemma qpack_decoder_total_witness :
  match Qpack.on_encoder_stream [0x3f; 0x45; 0x41; 97; 1; 98; 0x05] (Qpack.Decoder_new 4096) with
  | Ok d' | Err d' => QpackRun.dec_ok d' ∧ Qpack.max_capacity d' = 4096
  | Panic | NoFuel => False
  end.
Proof.
  apply (qpack_decoder_total (Qpack.Decoder_new 4096) [0x3f; 0x45; 0x41; 97; 1; 98; 0x05] 0 []);
    [apply QpackRun.Decoder_new_ok; vm_compute; split; discriminate|vm_compute; split; [discriminate|reflexivity]].
Defined.
