(* ===== verification/Raft.v ===== *)
(** * Raft nodes

    [src/crates/onetdns-cluster/src/raft.rs]: the state machine of one node.
    Every operation of [RaftNode] is a function of the node and of its disk,
    which returns what the Rust method returns (messages, a result) with the
    new node and disk.  Time is the sequence of ticks; the pseudo-random
    generator of the election timeout is part of the node.  The disk is a
    parameter behind the interface [Storage]; logging calls are left out. *)

From stdpp Require Import sorting.
From S2P Require Import Prelude.

(** ** Constants *)
Definition MAX_LOG_ENTRIES : Z := 100000.
Definition SNAPSHOT_LOG_THRESHOLD : Z := 4096.
Definition SNAPSHOT_CHUNK_BYTES : Z := 256 * 1024.
Definition MAX_SNAPSHOT_BYTES : Z := 2 * 1024 * 1024.
Definition MAX_ENTRY_BYTES : Z := 256 * 1024.
Definition MAX_APPEND_ENTRIES : Z := 256.
Definition MAX_APPEND_BYTES : Z := 512 * 1024.

(** ** Data *)
Definition NodeId : Type := Z.

Inductive Role : Type := Follower | Candidate | Leader.

Record LogEntry := mkLogEntry { e_term : Z; e_index : Z; e_data : list Z }.

Record Snapshot := mkSnapshot { s_index : Z; s_term : Z; s_data : list Z }.

Inductive Msg : Type :=
  | RequestVote (term : Z) (candidate : NodeId) (last_log_index last_log_term : Z)
  | RequestVoteResp (term : Z) (granted : bool)
  | AppendEntries (term : Z) (leader : NodeId) (prev_log_index prev_log_term : Z)
      (entries : list LogEntry) (leader_commit : Z)
  | AppendEntriesResp (term : Z) (success : bool) (match_index : Z)
  | InstallSnapshot (term : Z) (leader : NodeId) (last_included_index last_included_term : Z)
      (offset : Z) (data : list Z) (done : bool)
  | InstallSnapshotResp (term : Z) (last_included_index next_offset : Z) (installed : bool).

Record Output := mkOutput { to : NodeId; msg : Msg }.

Record Config := mkConfig { election_base : Z; heartbeat : Z }.

Definition Config_default : Config := {| election_base := 10; heartbeat := 3 |}.

(** What survives a restart. *)
Record StableState := mkStable {
  st_current_term : Z;
  st_voted_for : option NodeId;
  st_log : list LogEntry;
  st_commit_index : Z;
  st_last_applied : Z;
  st_boot_counter : Z;
  st_snapshot : option Snapshot;
}.

Definition StableState_default : StableState := mkStable 0 None [] 0 0 0 None.

Record IncomingSnapshot := mkIncoming {
  in_leader : NodeId;
  in_leader_term : Z;
  in_index : Z;
  in_term : Z;
  in_data : list Z;
  in_complete : bool;
}.

Record LoadedState := mkLoaded {
  ld_state : StableState;
  ld_base_digest : option (list Z);
  ld_wal_len : Z;
}.

#[export] Instance Role_eq_dec : EqDecision Role.
Proof. solve_decision. Defined.
#[export] Instance LogEntry_eq_dec : EqDecision LogEntry.
Proof. solve_decision. Defined.
#[export] Instance Snapshot_eq_dec : EqDecision Snapshot.
Proof. solve_decision. Defined.
#[export] Instance Msg_eq_dec : EqDecision Msg.
Proof. solve_decision. Defined.
#[export] Instance Output_eq_dec : EqDecision Output.
Proof. solve_decision. Defined.

(** The node.  [wal_file] tells whether the write-ahead log is open. *)
Record RaftNode := mkRaftNode {
  node_id : NodeId;
  peers : list NodeId;
  role : Role;
  current_term : Z;
  voted_for : option NodeId;
  log : list LogEntry;
  commit_index : Z;
  last_applied : Z;
  leader_id : option NodeId;
  next_index : gmap Z Z;
  match_index : gmap Z Z;
  votes : gset Z;
  election_elapsed : Z;
  heartbeat_elapsed : Z;
  election_timeout : Z;
  rng_state : Z;
  cfg : Config;
  storage_path : option string;
  fatal : option string;
  boot_counter : Z;
  snapshot : option Snapshot;
  incoming_snapshot : option IncomingSnapshot;
  snapshot_offsets : gmap Z Z;
  snapshot_dirty : bool;
  durable_log_len : Z;
  base_digest : option (list Z);
  wal_len : Z;
  wal_file : bool;
}.

Definition set_role (x : Role) (n : RaftNode) : RaftNode :=
  mkRaftNode (node_id n) (peers n) x (current_term n) (voted_for n) (log n) (commit_index n)
   (last_applied n) (leader_id n) (next_index n) (match_index n) (votes n) (election_elapsed n)
   (heartbeat_elapsed n) (election_timeout n) (rng_state n) (cfg n) (storage_path n) (fatal n)
   (boot_counter n) (snapshot n) (incoming_snapshot n) (snapshot_offsets n) (snapshot_dirty n)
   (durable_log_len n) (base_digest n) (wal_len n) (wal_file n).
Definition set_current_term (x : Z) (n : RaftNode) : RaftNode :=
  mkRaftNode (node_id n) (peers n) (role n) x (voted_for n) (log n) (commit_index n) (last_applied
   n) (leader_id n) (next_index n) (match_index n) (votes n) (election_elapsed n)
   (heartbeat_elapsed n) (election_timeout n) (rng_state n) (cfg n) (storage_path n) (fatal n)
   (boot_counter n) (snapshot n) (incoming_snapshot n) (snapshot_offsets n) (snapshot_dirty n)
   (durable_log_len n) (base_digest n) (wal_len n) (wal_file n).
Definition set_voted_for (x : option NodeId) (n : RaftNode) : RaftNode :=
  mkRaftNode (node_id n) (peers n) (role n) (current_term n) x (log n) (commit_index n)
   (last_applied n) (leader_id n) (next_index n) (match_index n) (votes n) (election_elapsed n)
   (heartbeat_elapsed n) (election_timeout n) (rng_state n) (cfg n) (storage_path n) (fatal n)
   (boot_counter n) (snapshot n) (incoming_snapshot n) (snapshot_offsets n) (snapshot_dirty n)
   (durable_log_len n) (base_digest n) (wal_len n) (wal_file n).
Definition set_log (x : list LogEntry) (n : RaftNode) : RaftNode :=
  mkRaftNode (node_id n) (peers n) (role n) (current_term n) (voted_for n) x (commit_index n)
   (last_applied n) (leader_id n) (next_index n) (match_index n) (votes n) (election_elapsed n)
   (heartbeat_elapsed n) (election_timeout n) (rng_state n) (cfg n) (storage_path n) (fatal n)
   (boot_counter n) (snapshot n) (incoming_snapshot n) (snapshot_offsets n) (snapshot_dirty n)
   (durable_log_len n) (base_digest n) (wal_len n) (wal_file n).
Definition set_commit_index (x : Z) (n : RaftNode) : RaftNode :=
  mkRaftNode (node_id n) (peers n) (role n) (current_term n) (voted_for n) (log n) x (last_applied
   n) (leader_id n) (next_index n) (match_index n) (votes n) (election_elapsed n)
   (heartbeat_elapsed n) (election_timeout n) (rng_state n) (cfg n) (storage_path n) (fatal n)
   (boot_counter n) (snapshot n) (incoming_snapshot n) (snapshot_offsets n) (snapshot_dirty n)
   (durable_log_len n) (base_digest n) (wal_len n) (wal_file n).
Definition set_last_applied (x : Z) (n : RaftNode) : RaftNode :=
  mkRaftNode (node_id n) (peers n) (role n) (current_term n) (voted_for n) (log n) (commit_index
   n) x (leader_id n) (next_index n) (match_index n) (votes n) (election_elapsed n)
   (heartbeat_elapsed n) (election_timeout n) (rng_state n) (cfg n) (storage_path n) (fatal n)
   (boot_counter n) (snapshot n) (incoming_snapshot n) (snapshot_offsets n) (snapshot_dirty n)
   (durable_log_len n) (base_digest n) (wal_len n) (wal_file n).
Definition set_leader_id (x : option NodeId) (n : RaftNode) : RaftNode :=
  mkRaftNode (node_id n) (peers n) (role n) (current_term n) (voted_for n) (log n) (commit_index
   n) (last_applied n) x (next_index n) (match_index n) (votes n) (election_elapsed n)
   (heartbeat_elapsed n) (election_timeout n) (rng_state n) (cfg n) (storage_path n) (fatal n)
   (boot_counter n) (snapshot n) (incoming_snapshot n) (snapshot_offsets n) (snapshot_dirty n)
   (durable_log_len n) (base_digest n) (wal_len n) (wal_file n).
Definition set_next_index (x : gmap Z Z) (n : RaftNode) : RaftNode :=
  mkRaftNode (node_id n) (peers n) (role n) (current_term n) (voted_for n) (log n) (commit_index
   n) (last_applied n) (leader_id n) x (match_index n) (votes n) (election_elapsed n)
   (heartbeat_elapsed n) (election_timeout n) (rng_state n) (cfg n) (storage_path n) (fatal n)
   (boot_counter n) (snapshot n) (incoming_snapshot n) (snapshot_offsets n) (snapshot_dirty n)
   (durable_log_len n) (base_digest n) (wal_len n) (wal_file n).
Definition set_match_index (x : gmap Z Z) (n : RaftNode) : RaftNode :=
  mkRaftNode (node_id n) (peers n) (role n) (current_term n) (voted_for n) (log n) (commit_index
   n) (last_applied n) (leader_id n) (next_index n) x (votes n) (election_elapsed n)
   (heartbeat_elapsed n) (election_timeout n) (rng_state n) (cfg n) (storage_path n) (fatal n)
   (boot_counter n) (snapshot n) (incoming_snapshot n) (snapshot_offsets n) (snapshot_dirty n)
   (durable_log_len n) (base_digest n) (wal_len n) (wal_file n).
Definition set_votes (x : gset Z) (n : RaftNode) : RaftNode :=
  mkRaftNode (node_id n) (peers n) (role n) (current_term n) (voted_for n) (log n) (commit_index
   n) (last_applied n) (leader_id n) (next_index n) (match_index n) x (election_elapsed n)
   (heartbeat_elapsed n) (election_timeout n) (rng_state n) (cfg n) (storage_path n) (fatal n)
   (boot_counter n) (snapshot n) (incoming_snapshot n) (snapshot_offsets n) (snapshot_dirty n)
   (durable_log_len n) (base_digest n) (wal_len n) (wal_file n).
Definition set_election_elapsed (x : Z) (n : RaftNode) : RaftNode :=
  mkRaftNode (node_id n) (peers n) (role n) (current_term n) (voted_for n) (log n) (commit_index
   n) (last_applied n) (leader_id n) (next_index n) (match_index n) (votes n) x
   (heartbeat_elapsed n) (election_timeout n) (rng_state n) (cfg n) (storage_path n) (fatal n)
   (boot_counter n) (snapshot n) (incoming_snapshot n) (snapshot_offsets n) (snapshot_dirty n)
   (durable_log_len n) (base_digest n) (wal_len n) (wal_file n).
Definition set_heartbeat_elapsed (x : Z) (n : RaftNode) : RaftNode :=
  mkRaftNode (node_id n) (peers n) (role n) (current_term n) (voted_for n) (log n) (commit_index
   n) (last_applied n) (leader_id n) (next_index n) (match_index n) (votes n) (election_elapsed
   n) x (election_timeout n) (rng_state n) (cfg n) (storage_path n) (fatal n) (boot_counter n)
   (snapshot n) (incoming_snapshot n) (snapshot_offsets n) (snapshot_dirty n) (durable_log_len
   n) (base_digest n) (wal_len n) (wal_file n).
Definition set_election_timeout (x : Z) (n : RaftNode) : RaftNode :=
  mkRaftNode (node_id n) (peers n) (role n) (current_term n) (voted_for n) (log n) (commit_index
   n) (last_applied n) (leader_id n) (next_index n) (match_index n) (votes n) (election_elapsed
   n) (heartbeat_elapsed n) x (rng_state n) (cfg n) (storage_path n) (fatal n) (boot_counter n)
   (snapshot n) (incoming_snapshot n) (snapshot_offsets n) (snapshot_dirty n) (durable_log_len
   n) (base_digest n) (wal_len n) (wal_file n).
Definition set_rng_state (x : Z) (n : RaftNode) : RaftNode :=
  mkRaftNode (node_id n) (peers n) (role n) (current_term n) (voted_for n) (log n) (commit_index
   n) (last_applied n) (leader_id n) (next_index n) (match_index n) (votes n) (election_elapsed
   n) (heartbeat_elapsed n) (election_timeout n) x (cfg n) (storage_path n) (fatal n)
   (boot_counter n) (snapshot n) (incoming_snapshot n) (snapshot_offsets n) (snapshot_dirty n)
   (durable_log_len n) (base_digest n) (wal_len n) (wal_file n).
Definition set_fatal (x : option string) (n : RaftNode) : RaftNode :=
  mkRaftNode (node_id n) (peers n) (role n) (current_term n) (voted_for n) (log n) (commit_index
   n) (last_applied n) (leader_id n) (next_index n) (match_index n) (votes n) (election_elapsed
   n) (heartbeat_elapsed n) (election_timeout n) (rng_state n) (cfg n) (storage_path n) x
   (boot_counter n) (snapshot n) (incoming_snapshot n) (snapshot_offsets n) (snapshot_dirty n)
   (durable_log_len n) (base_digest n) (wal_len n) (wal_file n).
Definition set_boot_counter (x : Z) (n : RaftNode) : RaftNode :=
  mkRaftNode (node_id n) (peers n) (role n) (current_term n) (voted_for n) (log n) (commit_index
   n) (last_applied n) (leader_id n) (next_index n) (match_index n) (votes n) (election_elapsed
   n) (heartbeat_elapsed n) (election_timeout n) (rng_state n) (cfg n) (storage_path n) (fatal
   n) x (snapshot n) (incoming_snapshot n) (snapshot_offsets n) (snapshot_dirty n)
   (durable_log_len n) (base_digest n) (wal_len n) (wal_file n).
Definition set_snapshot (x : option Snapshot) (n : RaftNode) : RaftNode :=
  mkRaftNode (node_id n) (peers n) (role n) (current_term n) (voted_for n) (log n) (commit_index
   n) (last_applied n) (leader_id n) (next_index n) (match_index n) (votes n) (election_elapsed
   n) (heartbeat_elapsed n) (election_timeout n) (rng_state n) (cfg n) (storage_path n) (fatal
   n) (boot_counter n) x (incoming_snapshot n) (snapshot_offsets n) (snapshot_dirty n)
   (durable_log_len n) (base_digest n) (wal_len n) (wal_file n).
Definition set_incoming_snapshot (x : option IncomingSnapshot) (n : RaftNode) : RaftNode :=
  mkRaftNode (node_id n) (peers n) (role n) (current_term n) (voted_for n) (log n) (commit_index
   n) (last_applied n) (leader_id n) (next_index n) (match_index n) (votes n) (election_elapsed
   n) (heartbeat_elapsed n) (election_timeout n) (rng_state n) (cfg n) (storage_path n) (fatal
   n) (boot_counter n) (snapshot n) x (snapshot_offsets n) (snapshot_dirty n) (durable_log_len
   n) (base_digest n) (wal_len n) (wal_file n).
Definition set_snapshot_offsets (x : gmap Z Z) (n : RaftNode) : RaftNode :=
  mkRaftNode (node_id n) (peers n) (role n) (current_term n) (voted_for n) (log n) (commit_index
   n) (last_applied n) (leader_id n) (next_index n) (match_index n) (votes n) (election_elapsed
   n) (heartbeat_elapsed n) (election_timeout n) (rng_state n) (cfg n) (storage_path n) (fatal
   n) (boot_counter n) (snapshot n) (incoming_snapshot n) x (snapshot_dirty n) (durable_log_len
   n) (base_digest n) (wal_len n) (wal_file n).
Definition set_snapshot_dirty (x : bool) (n : RaftNode) : RaftNode :=
  mkRaftNode (node_id n) (peers n) (role n) (current_term n) (voted_for n) (log n) (commit_index
   n) (last_applied n) (leader_id n) (next_index n) (match_index n) (votes n) (election_elapsed
   n) (heartbeat_elapsed n) (election_timeout n) (rng_state n) (cfg n) (storage_path n) (fatal
   n) (boot_counter n) (snapshot n) (incoming_snapshot n) (snapshot_offsets n) x
   (durable_log_len n) (base_digest n) (wal_len n) (wal_file n).
Definition set_durable_log_len (x : Z) (n : RaftNode) : RaftNode :=
  mkRaftNode (node_id n) (peers n) (role n) (current_term n) (voted_for n) (log n) (commit_index
   n) (last_applied n) (leader_id n) (next_index n) (match_index n) (votes n) (election_elapsed
   n) (heartbeat_elapsed n) (election_timeout n) (rng_state n) (cfg n) (storage_path n) (fatal
   n) (boot_counter n) (snapshot n) (incoming_snapshot n) (snapshot_offsets n) (snapshot_dirty
   n) x (base_digest n) (wal_len n) (wal_file n).
Definition set_base_digest (x : option (list Z)) (n : RaftNode) : RaftNode :=
  mkRaftNode (node_id n) (peers n) (role n) (current_term n) (voted_for n) (log n) (commit_index
   n) (last_applied n) (leader_id n) (next_index n) (match_index n) (votes n) (election_elapsed
   n) (heartbeat_elapsed n) (election_timeout n) (rng_state n) (cfg n) (storage_path n) (fatal
   n) (boot_counter n) (snapshot n) (incoming_snapshot n) (snapshot_offsets n) (snapshot_dirty
   n) (durable_log_len n) x (wal_len n) (wal_file n).
Definition set_wal_len (x : Z) (n : RaftNode) : RaftNode :=
  mkRaftNode (node_id n) (peers n) (role n) (current_term n) (voted_for n) (log n) (commit_index
   n) (last_applied n) (leader_id n) (next_index n) (match_index n) (votes n) (election_elapsed
   n) (heartbeat_elapsed n) (election_timeout n) (rng_state n) (cfg n) (storage_path n) (fatal
   n) (boot_counter n) (snapshot n) (incoming_snapshot n) (snapshot_offsets n) (snapshot_dirty
   n) (durable_log_len n) (base_digest n) x (wal_file n).
Definition set_wal_file (x : bool) (n : RaftNode) : RaftNode :=
  mkRaftNode (node_id n) (peers n) (role n) (current_term n) (voted_for n) (log n) (commit_index
   n) (last_applied n) (leader_id n) (next_index n) (match_index n) (votes n) (election_elapsed
   n) (heartbeat_elapsed n) (election_timeout n) (rng_state n) (cfg n) (storage_path n) (fatal
   n) (boot_counter n) (snapshot n) (incoming_snapshot n) (snapshot_offsets n) (snapshot_dirty
   n) (durable_log_len n) (base_digest n) (wal_len n) x.

(** ** Queries *)
Definition map_or {A B} (default : B) (f : A → B) (o : option A) : B :=
  match o with Some a => f a | None => default end.

(** The index below which entries were compacted. *)
Definition snapshot_index (n : RaftNode) : Z := map_or 0 s_index (snapshot n).

Definition last_index (n : RaftNode) : Z :=
  match last (log n) with
  | Some entry => e_index entry
  | None => snapshot_index n
  end.

Definition last_log_term (n : RaftNode) : Z := map_or 0 e_term (last (log n)).

Definition snapshot_due (n : RaftNode) : bool :=
  SNAPSHOT_LOG_THRESHOLD <=? saturating_sub (last_applied n) (snapshot_index n).

Definition applied_entries_after_snapshot (n : RaftNode) : list LogEntry :=
  take (Z.to_nat (Z.min (saturating_sub (last_applied n) (snapshot_index n)) (zlen (log n)))) (log n).

Definition is_leader (n : RaftNode) : bool :=
  bool_decide (role n = Leader) && bool_decide (fatal n = None).

(** [usize::div_ceil(2) + 1]. *)
Definition quorum (n : RaftNode) : Z := (zlen (peers n) + 1) / 2 + 1.

Definition term_at (n : RaftNode) (index : Z) : Z :=
  if index =? 0 then 0
  else
    let after (base : Z) :=
      map_or 0 e_term (get (log n) (saturating_sub (saturating_sub index base) 1)) in
    match snapshot n with
    | Some s =>
        if index =? s_index s then s_term s
        else if index <? s_index s then 0
        else after (s_index s)
    | None => after 0
    end.

Definition election_timeout_ceiling (n : RaftNode) : Z :=
  Z.min U32_MAX (Z.max (election_base (cfg n)) 2 * 2).

Definition log_up_to_date (candidate_term candidate_index my_term my_index : Z) : bool :=
  (my_term <? candidate_term) || ((candidate_term =? my_term) && (my_index <=? candidate_index)).

(** ** Timeouts and stopping *)

(** The shifts drop the bits above the 64th. *)
Definition xorshift (x : Z) : Z :=
  let x := Z.lxor x (Z.land (Z.shiftl x 13) U64_MAX) in
  let x := Z.lxor x (Z.shiftr x 7) in
  Z.lxor x (Z.land (Z.shiftl x 17) U64_MAX).

Definition next_random (n : RaftNode) : Z * RaftNode :=
  let x := xorshift (rng_state n) in
  let x := if x =? 0 then Z.lxor 0xa0761d6478bd642f (node_id n) else x in
  (x, set_rng_state x n).

Definition reset_election_timeout (n : RaftNode) : RaftNode :=
  let base := Z.max (election_base (cfg n)) 2 in
  let '(r, n) := next_random n in
  let jitter := r mod base in
  set_election_elapsed 0 (set_election_timeout (Z.max (Z.min U32_MAX (base + jitter)) 2) n).

Definition fail_stop (error : string) (n : RaftNode) : RaftNode :=
  set_leader_id None (set_role Follower (set_fatal (Some error) n)).

(** [fatal.clone().unwrap_or_else(...)]. *)
Definition fatal_or (text : string) (n : RaftNode) : string := default text (fatal n).

Definition stable_view (n : RaftNode) : StableState :=
  {| st_current_term := current_term n; st_voted_for := voted_for n; st_log := log n;
     st_commit_index := commit_index n; st_last_applied := last_applied n;
     st_boot_counter := boot_counter n; st_snapshot := snapshot n |}.

(** ** Creation *)
Fixpoint dedup_sorted (l : list Z) : list Z :=
  match l with
  | x :: (y :: _) as k => if x =? y then dedup_sorted k else x :: dedup_sorted k
  | _ => l
  end.

Definition rotate_left_17 (x : Z) : Z :=
  Z.lor (Z.land (Z.shiftl x 17) U64_MAX) (Z.shiftr x 47).

(** [now] is the clock in nanoseconds. *)
Definition from_stable (now : Z) (id : NodeId) (ps : list NodeId) (c : Config)
    (storage : option string) (st : StableState) : RaftNode :=
  let ps := dedup_sorted (merge_sort Z.le (List.filter (λ p, negb (p =? id)) ps)) in
  reset_election_timeout
    (mkRaftNode id ps Follower (st_current_term st) (st_voted_for st) (st_log st)
       (st_commit_index st) (st_last_applied st) None ∅ ∅ ∅ 0 0 0
       (Z.lxor (Z.lxor now (rotate_left_17 id)) 0x9e3779b97f4a7c15) c storage None
       (st_boot_counter st) (st_snapshot st) None ∅ false 0 None 0 false).

(** ** Messages for a follower *)

(** The loop of [append_for] that picks the entries to send: [count] of them
    and [bytes] octets are picked so far. *)
Fixpoint pick_entries (l : list LogEntry) (count bytes : Z) : list LogEntry :=
  match l with
  | [] => []
  | entry :: l =>
      let encoded := saturating_add (saturating_add (saturating_add 8 8) 4) (zlen (e_data entry)) in
      if negb (count =? 0) &&
         ((MAX_APPEND_ENTRIES <=? count) || (MAX_APPEND_BYTES <? saturating_add bytes encoded))
      then []
      else if MAX_APPEND_BYTES <? encoded then []
      else entry :: pick_entries l (count + 1) (saturating_add bytes encoded)
  end.

(** [snapshot_for]; both callers hold the snapshot of the node. *)
Definition snapshot_for (s : Snapshot) (n : RaftNode) (peer : NodeId) : Output :=
  let requested := default 0 (snapshot_offsets n !! peer) in
  let len := zlen (s_data s) in
  let offset := if requested <=? len then requested else 0 in
  let end_ := Z.min (saturating_add offset SNAPSHOT_CHUNK_BYTES) len in
  mkOutput peer
    (InstallSnapshot (current_term n) (node_id n) (s_index s) (s_term s) offset
       (take (Z.to_nat (end_ - offset)) (drop (Z.to_nat offset) (s_data s))) (end_ =? len)).

Definition append_for (n : RaftNode) (peer : NodeId) : Output :=
  let next := default 1 (next_index n !! peer) in
  let append :=
    let prev_log_index := saturating_sub next 1 in
    mkOutput peer
      (AppendEntries (current_term n) (node_id n) prev_log_index (term_at n prev_log_index)
         (pick_entries (List.filter (λ entry, next <=? e_index entry) (log n)) 0 0)
         (commit_index n)) in
  match snapshot n with
  | Some s => if next <=? s_index s then snapshot_for s n peer else append
  | None => append
  end.

Definition broadcast_append (n : RaftNode) : list Output := map (append_for n) (peers n).

Definition append_response (n : RaftNode) (leader : NodeId) (success : bool) (match_ : Z) : Output :=
  mkOutput leader (AppendEntriesResp (current_term n) success match_).

Definition snapshot_response (n : RaftNode) (leader : NodeId) (last_included_index next_offset : Z)
    (installed : bool) : Output :=
  mkOutput leader (InstallSnapshotResp (current_term n) last_included_index next_offset installed).

(** ** Commitment *)

(** The peers known to hold the entries up to [index], and this node. *)
Definition replicated (n : RaftNode) (index : Z) : Z :=
  1 + zlen (List.filter (λ peer, index <=? default 0 (match_index n !! peer)) (peers n)).

(** The loop of [advance_commit]: [count] indices from [index] downwards. *)
Fixpoint advance_loop (count : nat) (index : Z) (n : RaftNode) : RaftNode :=
  match count with
  | O => n
  | S count =>
      if negb (term_at n index =? current_term n) then advance_loop count (index - 1) n
      else if quorum n <=? replicated n index then set_commit_index index n
      else advance_loop count (index - 1) n
  end.

Definition advance_commit (n : RaftNode) : RaftNode :=
  let first := saturating_add (commit_index n) 1 in
  advance_loop (Z.to_nat (last_index n - first + 1)) (last_index n) n.

(** ** Applying *)
Definition next_committed (n : RaftNode) : option LogEntry :=
  if commit_index n <=? last_applied n then None
  else
    index ← checked_add (last_applied n) 1;
    offset ← checked_sub index (snapshot_index n);
    offset ← checked_sub offset 1;
    get (log n) offset.

Definition next_committed_batch (n : RaftNode) (limit : Z) : list LogEntry :=
  if (limit =? 0) || (commit_index n <=? last_applied n) then []
  else
    let start := saturating_sub (last_applied n) (snapshot_index n) in
    let count := Z.min (commit_index n - last_applied n) limit in
    default [] (get_range (log n) start (saturating_add start count)).

Definition pending_snapshot (n : RaftNode) : option Snapshot :=
  match incoming_snapshot n with
  | Some i =>
      if in_complete i && (in_leader_term i =? current_term n)
         && bool_decide (leader_id n = Some (in_leader i))
      then Some (mkSnapshot (in_index i) (in_term i) (in_data i)) else None
  | None => None
  end.

(** ** The disk

    What the protocol needs of the code that stores the state: [persist_at]
    writes it, [load_state] reads it after a restart. *)
Class Storage (D : Type) := {
  persist_at : string → RaftNode * D → option string * (RaftNode * D);
  load_state : D → string + LoadedState;
}.

Section with_storage.
Context {D : Type} `{Storage D}.

Definition persist (s : RaftNode * D) : bool * (RaftNode * D) :=
  match storage_path s.1 with
  | None => (true, s)
  | Some path =>
      match persist_at path s with
      | (None, s) => (true, s)
      | (Some error, (n, d)) =>
          (false, (fail_stop ("Raft 상태를 디스크에 저장하지 못했습니다: " +:+ error) n, d))
      end
  end.

(** [new_persistent]; [now] is the clock. *)
Definition new_persistent (now : Z) (id : NodeId) (ps : list NodeId) (c : Config) (path : string)
    (d : D) : string + RaftNode :=
  match load_state d with
  | inl e => inl e
  | inr ld =>
      inr (set_wal_len (ld_wal_len ld) (set_base_digest (ld_base_digest ld)
            (set_durable_log_len (zlen (st_log (ld_state ld)))
              (from_stable now id ps c (Some path) (ld_state ld)))))
  end.

Definition next_boot_session (now : Z) (s : RaftNode * D) : (string + Z) * (RaftNode * D) :=
  let '(n, d) := s in
  match checked_add (Z.max (boot_counter n) now) 1 with
  | None => (inl "Raft 세션 카운터 계산 범위를 넘었습니다", s)
  | Some next =>
      let '(ok, (n, d)) := persist (set_boot_counter next n, d) in
      if ok then (inr next, (n, d))
      else (inl (fatal_or "Raft 세션 카운터를 디스크에 저장하지 못했습니다" n), (n, d))
  end.

(** *** Elections *)
Definition new_leader_maps (n : RaftNode) : RaftNode :=
  let next := saturating_add (last_index n) 1 in
  set_next_index (list_to_map (map (λ peer, (peer, next)) (peers n)))
    (set_match_index (list_to_map (map (λ peer, (peer, 0)) (peers n)))
      (set_snapshot_offsets ∅ n)).

Definition become_leader (s : RaftNode * D) : RaftNode * D :=
  let '(n, d) := s in
  let n := set_heartbeat_elapsed (Z.max (heartbeat (cfg n)) 1)
             (set_leader_id (Some (node_id n)) (set_role Leader n)) in
  if MAX_LOG_ENTRIES <=? zlen (log n)
  then (fail_stop "Raft 로그 상한 때문에 리더 no-op 항목을 기록할 수 없습니다" n, d)
  else match checked_add (last_index n) 1 with
  | None => (fail_stop "Raft 리더 no-op index 계산 범위를 넘었습니다" n, d)
  | Some noop_index =>
      let n := set_log (log n ++ [mkLogEntry (current_term n) noop_index []]) n in
      let '(ok, (n, d)) := persist (advance_commit n, d) in
      if ok then (new_leader_maps n, d) else (n, d)
  end.

Definition request_vote (n : RaftNode) : Msg :=
  RequestVote (current_term n) (node_id n) (last_index n) (last_log_term n).

Definition start_election (s : RaftNode * D) : list Output * (RaftNode * D) :=
  let '(n, d) := s in
  match checked_add (current_term n) 1 with
  | None => ([], (fail_stop "Raft term 계산 범위를 넘었습니다" n, d))
  | Some next_term =>
      let n := set_role Candidate (set_current_term next_term n) in
      let n := set_votes {[node_id n]} (set_leader_id None (set_voted_for (Some (node_id n)) n)) in
      let '(ok, (n, d)) := persist (reset_election_timeout n, d) in
      if negb ok then ([], (n, d))
      else if quorum n =? 1 then
        let '(n, d) := become_leader (n, d) in (broadcast_append n, (n, d))
      else (map (λ peer, mkOutput peer (request_vote n)) (peers n), (n, d))
  end.

Definition tick (s : RaftNode * D) : list Output * (RaftNode * D) :=
  let '(n, d) := s in
  if bool_decide (fatal n ≠ None) then ([], s)
  else match role n with
  | Leader =>
      let n := set_heartbeat_elapsed (Z.min U32_MAX (heartbeat_elapsed n + 1)) n in
      if Z.max (heartbeat (cfg n)) 1 <=? heartbeat_elapsed n
      then let n := set_heartbeat_elapsed 0 n in (broadcast_append n, (n, d))
      else ([], (n, d))
  | Follower | Candidate =>
      let n := set_election_elapsed (Z.min U32_MAX (election_elapsed n + 1)) n in
      if election_timeout n <=? election_elapsed n then start_election (n, d) else ([], (n, d))
  end.

Definition handle_request_vote (term : Z) (candidate : NodeId) (last_log_index last_log_term' : Z)
    (s : RaftNode * D) : list Output * (RaftNode * D) :=
  let '(n, d) := s in
  let respond granted n := [mkOutput candidate (RequestVoteResp (current_term n) granted)] in
  if (term =? current_term n)
     && match voted_for n with None => true | Some voted => voted =? candidate end
     && log_up_to_date last_log_term' last_log_index (last_log_term n) (last_index n)
  then
    let '(ok, (n, d)) := persist (reset_election_timeout (set_voted_for (Some candidate) n), d) in
    if ok then (respond true n, (n, d)) else ([], (n, d))
  else (respond false n, s).

Definition handle_vote_resp (from : NodeId) (term : Z) (granted : bool) (s : RaftNode * D) :
    list Output * (RaftNode * D) :=
  let '(n, d) := s in
  if negb (bool_decide (role n = Candidate)) || negb (term =? current_term n) then ([], s)
  else if granted then
    let n := set_votes ({[from]} ∪ votes n) n in
    if quorum n <=? Z.of_nat (size (votes n))
    then let '(n, d) := become_leader (n, d) in (broadcast_append n, (n, d))
    else ([], (n, d))
  else ([], s).

(** *** Replication *)
Definition force_replicate (s : RaftNode * D) : list Output * (RaftNode * D) :=
  let '(n, d) := s in
  if is_leader n
  then let n := set_heartbeat_elapsed 0 n in (broadcast_append n, (n, d))
  else ([], s).

(** The entries of a batch, from index [first] on. *)
Fixpoint batch_entries (term first : Z) (datas : list (list Z)) : list LogEntry :=
  match datas with
  | [] => []
  | data :: datas => mkLogEntry term first data :: batch_entries term (first + 1) datas
  end.

Definition encoded_bytes (datas : list (list Z)) : Z :=
  fold_left (λ total data,
    saturating_add (saturating_add (saturating_add (saturating_add total 8) 8) 4) (zlen data))
    datas 0.

Definition propose_batch (datas : list (list Z)) (s : RaftNode * D) :
    (string + list Z) * (RaftNode * D) :=
  let '(n, d) := s in
  if negb (is_leader n) then (inl (fatal_or "현재 노드는 리더가 아닙니다" n), s)
  else if (zlen datas =? 0) || (MAX_APPEND_ENTRIES <? zlen datas)
  then (inl "Raft 제안 배치는 1..=256개 항목이어야 합니다", s)
  else if existsb (λ data, (zlen data =? 0) || (MAX_ENTRY_BYTES <? zlen data)) datas
  then (inl "Raft 항목 크기는 1..=262144바이트여야 합니다", s)
  else if MAX_APPEND_BYTES <? encoded_bytes datas
  then (inl "Raft 제안 배치의 인코딩 크기는 524288바이트 이하여야 합니다", s)
  else if MAX_LOG_ENTRIES <? saturating_add (zlen (log n)) (zlen datas)
  then (inl "Raft 로그 상한 도달: 스냅샷 또는 운영자 압축이 필요합니다", s)
  else match checked_add (last_index n) 1 with
  | None => (inl "Raft log index 계산 범위를 넘었습니다", s)
  | Some first_index =>
      match checked_add first_index (zlen datas - 1) with
      | None => (inl "Raft log index 계산 범위를 넘었습니다", s)
      | Some _ =>
          let entries := batch_entries (current_term n) first_index datas in
          let '(ok, (n, d)) := persist (advance_commit (set_log (log n ++ entries) n), d) in
          if ok then (inr (map e_index entries), (n, d))
          else (inl (fatal_or "Raft 상태를 디스크에 저장하지 못했습니다" n), (n, d))
      end
  end.

(** [propose]; indexing the non-empty result of the batch cannot fail. *)
Definition propose (data : list Z) (s : RaftNode * D) : (string + Z) * (RaftNode * D) :=
  match propose_batch [data] s with
  | (inr indexes, s) => (inr (default 0 (head indexes)), s)
  | (inl e, s) => (inl e, s)
  end.

(** How the loop of [handle_append] over the entries ends: with the node and
    whether its log changed, with a refusal, or with the node stopped. *)
Inductive appended : Type :=
  | Appended (n : RaftNode) (changed : bool)
  | Refused (n : RaftNode)
  | Stopped (n : RaftNode).

Definition rewrite_error (index : Z) : string :=
  "Raft committed log rewrite attempt at index " +:+ pretty index.

Fixpoint append_loop (entries : list LogEntry) (base : Z) (n : RaftNode) (changed : bool) : appended :=
  match entries with
  | [] => Appended n changed
  | entry :: entries =>
      match checked_sub (e_index entry) (saturating_add base 1) with
      | None => Refused n
      | Some offset =>
          match get (log n) offset with
          | Some mine =>
              if negb (e_term mine =? e_term entry) || bool_decide (e_data mine ≠ e_data entry) then
                if e_index entry <=? commit_index n
                then Stopped (fail_stop (rewrite_error (e_index entry)) n)
                else
                  append_loop entries base
                    (set_log (take (Z.to_nat offset) (log n) ++ [entry])
                      (set_durable_log_len (Z.min (durable_log_len n) offset) n)) true
              else append_loop entries base n changed
          | None =>
              if offset =? zlen (log n)
              then append_loop entries base (set_log (log n ++ [entry]) n) true
              else Refused n
          end
      end
  end.

(** The indices of the entries follow [prev_log_index] one by one. *)
Fixpoint consecutive (expected : Z) (entries : list LogEntry) : bool :=
  match entries with
  | [] => true
  | entry :: entries => (e_index entry =? expected) && consecutive (saturating_add expected 1) entries
  end.

Definition drop_other_incoming (leader : NodeId) (term : Z) (n : RaftNode) : RaftNode :=
  match incoming_snapshot n with
  | Some i =>
      if negb (in_leader i =? leader) || negb (in_leader_term i =? term)
      then set_incoming_snapshot None n else n
  | None => n
  end.

(** Recognising a leader: the three assignments before the log is looked at. *)
Definition follow (leader : NodeId) (n : RaftNode) : RaftNode :=
  reset_election_timeout (set_leader_id (Some leader) (set_role Follower n)).

Definition handle_append (term : Z) (leader : NodeId) (prev_log_index prev_log_term : Z)
    (entries : list LogEntry) (leader_commit : Z) (s : RaftNode * D) :
    list Output * (RaftNode * D) :=
  let '(n, d) := s in
  let refuse n := [append_response n leader false (last_index n)] in
  if term <? current_term n then (refuse n, s)
  else if negb (term =? current_term n) || (MAX_APPEND_ENTRIES <? zlen entries) then (refuse n, s)
  else if existsb (λ entry, MAX_ENTRY_BYTES <? zlen (e_data entry)) entries
          || (MAX_APPEND_BYTES <?
              fold_left (λ total entry, saturating_add total (zlen (e_data entry))) entries 0)
  then (refuse n, s)
  else
    let n := follow leader (drop_other_incoming leader term n) in
    if (last_index n <? prev_log_index) || negb (term_at n prev_log_index =? prev_log_term)
    then (refuse n, (n, d))
    else if negb (consecutive (saturating_add prev_log_index 1) entries) then (refuse n, (n, d))
    else match append_loop entries (snapshot_index n) n false with
    | Refused n => (refuse n, (n, d))
    | Stopped n => ([], (n, d))
    | Appended n changed =>
        if MAX_LOG_ENTRIES <? zlen (log n)
        then ([], (fail_stop "Raft 로그 항목 수가 허용 한도를 넘었습니다" n, d))
        else
          let n := if commit_index n <? leader_commit
                   then set_commit_index (Z.min leader_commit (last_index n)) n else n in
          let '(ok, (n, d)) := if changed then persist (n, d) else (true, (n, d)) in
          if negb ok then ([], (n, d))
          else ([append_response n leader true (map_or prev_log_index e_index (last entries))], (n, d))
    end.

Definition handle_append_resp (from : NodeId) (term : Z) (success : bool) (match_ : Z)
    (s : RaftNode * D) : list Output * (RaftNode * D) :=
  let '(n, d) := s in
  if negb (bool_decide (role n = Leader)) || negb (term =? current_term n) then ([], s)
  else if success then
    let bounded := Z.max (Z.min match_ (last_index n)) (default 0 (match_index n !! from)) in
    let n := set_match_index (<[from := bounded]> (match_index n)) n in
    let n := set_next_index (<[from := saturating_add bounded 1]> (next_index n)) n in
    let n := advance_commit n in
    (if bounded <? last_index n then [append_for n from] else [], (n, d))
  else
    let next := default 1 (next_index n !! from) in
    let fallback := Z.max (saturating_sub next 1) 1 in
    let hinted := Z.max (saturating_add match_ 1) 1 in
    let n := set_next_index (<[from := Z.min fallback hinted]> (next_index n)) n in
    ([append_for n from], (n, d)).

(** *** Snapshots *)
Definition compact (data : list Z) (s : RaftNode * D) : (string + unit) * (RaftNode * D) :=
  let '(n, d) := s in
  if (zlen data =? 0) || (MAX_SNAPSHOT_BYTES <? zlen data)
  then (inl "Raft 스냅샷 크기는 1..=2097152바이트여야 합니다", s)
  else
    let previous := snapshot_index n in
    let included_index := last_applied n in
    if (included_index <=? previous) || (commit_index n <? included_index)
    then (inl "Raft 스냅샷 위치가 적용 완료 범위를 벗어났습니다", s)
    else
      let included_term := term_at n included_index in
      if included_term =? 0 then (inl "Raft 스냅샷 위치의 term을 찾을 수 없습니다", s)
      else if zlen (log n) <? included_index - previous
      then (inl "Raft 스냅샷 로그 범위가 보유 로그를 벗어났습니다", s)
      else
        let n := set_log (drop (Z.to_nat (included_index - previous)) (log n)) n in
        let n := set_snapshot (Some (mkSnapshot included_index included_term data)) n in
        let n := set_snapshot_dirty true (set_durable_log_len 0 (set_snapshot_offsets ∅ n)) in
        let '(ok, (n, d)) := persist (n, d) in
        if ok then (inr tt, (n, d))
        else (inl (fatal_or "Raft 스냅샷을 디스크에 저장하지 못했습니다" n), (n, d)).

Definition same_incoming (leader : NodeId) (term index iterm : Z) (i : IncomingSnapshot) : bool :=
  (in_leader i =? leader) && (in_leader_term i =? term) && (in_index i =? index)
  && (in_term i =? iterm).

(** The snapshot that a chunk belongs to: the one being received, a new one
    for a first chunk, none for a chunk out of order. *)
Definition incoming_for (leader : NodeId) (term index iterm offset : Z) (n : RaftNode) :
    option IncomingSnapshot :=
  let new := if negb (offset =? 0) then None
             else Some (mkIncoming leader term index iterm [] false) in
  match incoming_snapshot n with
  | Some i => if same_incoming leader term index iterm i then Some i else new
  | None => new
  end.

Definition handle_install_snapshot (term : Z) (leader : NodeId)
    (last_included_index last_included_term offset : Z) (data : list Z) (done : bool)
    (s : RaftNode * D) : list Output * (RaftNode * D) :=
  let '(n, d) := s in
  let respond n next_offset installed :=
    [snapshot_response n leader last_included_index next_offset installed] in
  if negb (term =? current_term n) || (last_included_index =? 0) || (last_included_term =? 0)
     || (SNAPSHOT_CHUNK_BYTES <? zlen data)
  then (respond n 0 false, s)
  else
    let n := follow leader n in
    if last_included_index <=? last_applied n then
      let n := set_incoming_snapshot None n in (respond n 0 true, (n, d))
    else match incoming_for leader term last_included_index last_included_term offset n with
    | None =>
        let n := set_incoming_snapshot None n in (respond n 0 false, (n, d))
    | Some i =>
        let n := set_incoming_snapshot (Some i) n in
        let expected := zlen (in_data i) in
        if offset <? expected then
          if bool_decide (get_range (in_data i) offset (saturating_add offset (zlen data)) ≠ Some data)
          then let n := set_incoming_snapshot None n in (respond n 0 false, (n, d))
          else (respond n expected false, (n, d))
        else if negb (offset =? expected)
             || ((zlen data =? 0) && negb (done && (0 <? offset)))
             || (MAX_SNAPSHOT_BYTES <? saturating_add expected (zlen data))
        then (respond n expected false, (n, d))
        else
          let i := mkIncoming (in_leader i) (in_leader_term i) (in_index i) (in_term i)
                     (in_data i ++ data) done in
          let n := set_incoming_snapshot (Some i) n in
          (if done then [] else respond n (zlen (in_data i)) false, (n, d))
    end.

(** The snapshot that [finish_snapshot_install] may install. *)
Definition finished_incoming (index : Z) (n : RaftNode) : option IncomingSnapshot :=
  match incoming_snapshot n with
  | Some i =>
      if in_complete i && (in_index i =? index) && (in_leader_term i =? current_term n)
         && bool_decide (leader_id n = Some (in_leader i))
      then Some i else None
  | None => None
  end.

Definition retained_suffix (i : IncomingSnapshot) (n : RaftNode) : list LogEntry :=
  if term_at n (in_index i) =? in_term i then
    let remove := saturating_sub (in_index i) (snapshot_index n) in
    if remove <=? zlen (log n) then drop (Z.to_nat remove) (log n) else []
  else [].

Definition finish_snapshot_install (index : Z) (s : RaftNode * D) :
    (string + Output) * (RaftNode * D) :=
  let '(n, d) := s in
  match finished_incoming index n with
  | None => (inl "완료된 Raft 스냅샷 수신 상태가 없습니다", s)
  | Some i =>
      let n := set_log (retained_suffix i n) n in
      let n := set_snapshot (Some (mkSnapshot (in_index i) (in_term i) (in_data i))) n in
      let n := set_last_applied (in_index i) (set_commit_index (Z.max (commit_index n) (in_index i)) n) in
      let '(ok, (n, d)) := persist (set_snapshot_dirty true (set_durable_log_len 0 n), d) in
      if ok then
        let n := set_incoming_snapshot None n in
        (inr (snapshot_response n (in_leader i) (in_index i) 0 true), (n, d))
      else (inl (fatal_or "Raft 스냅샷 설치 상태를 저장하지 못했습니다" n), (n, d))
  end.

Definition handle_install_snapshot_resp (from : NodeId) (term last_included_index next_offset : Z)
    (installed : bool) (s : RaftNode * D) : list Output * (RaftNode * D) :=
  let '(n, d) := s in
  if negb (bool_decide (role n = Leader)) || negb (term =? current_term n) then ([], s)
  else match snapshot n with
  | None => ([], s)
  | Some snap =>
      if negb (s_index snap =? last_included_index) then ([], s)
      else if installed then
        let n := set_snapshot_offsets (delete from (snapshot_offsets n)) n in
        let bounded := Z.max (Z.min last_included_index (last_index n))
                         (default 0 (match_index n !! from)) in
        let n := set_match_index (<[from := bounded]> (match_index n)) n in
        let n := set_next_index (<[from := saturating_add bounded 1]> (next_index n)) n in
        let n := advance_commit n in
        (if bounded <? last_index n then [append_for n from] else [], (n, d))
      else
        let offset := if next_offset <=? zlen (s_data snap) then next_offset else 0 in
        let n := set_snapshot_offsets (<[from := offset]> (snapshot_offsets n)) n in
        ([snapshot_for snap n from], (n, d))
  end.

(** *** Applying *)
Definition mark_applied_batch (first last_ : Z) (s : RaftNode * D) :
    (string + unit) * (RaftNode * D) :=
  let '(n, d) := s in
  if negb (first =? saturating_add (last_applied n) 1) || (last_ <? first) || (commit_index n <? last_)
  then (inl "Raft applied index 순서 위반", s)
  else
    let '(ok, (n, d)) := persist (set_last_applied last_ n, d) in
    if ok then (inr tt, (n, d))
    else (inl (fatal_or "Raft 상태를 디스크에 저장하지 못했습니다" n), (n, d)).

Definition mark_applied (index : Z) : RaftNode * D → (string + unit) * (RaftNode * D) :=
  mark_applied_batch index index.

(** *** Messages *)
Definition msg_term (m : Msg) : Z :=
  match m with
  | RequestVote term _ _ _ | RequestVoteResp term _ | AppendEntries term _ _ _ _ _
  | AppendEntriesResp term _ _ | InstallSnapshot term _ _ _ _ _ _
  | InstallSnapshotResp term _ _ _ => term
  end.

(** The sender a message names is the sender the transport authenticated. *)
Definition sender_matches (from : NodeId) (m : Msg) : bool :=
  match m with
  | RequestVote _ candidate _ _ => candidate =? from
  | AppendEntries _ leader _ _ _ _ => leader =? from
  | InstallSnapshot _ leader _ _ _ _ _ => leader =? from
  | _ => true
  end.

(** Seeing a higher term; [false] when the new term cannot be stored. *)
Definition observe_term (t : Z) (s : RaftNode * D) : bool * (RaftNode * D) :=
  let '(n, d) := s in
  if current_term n <? t then
    let n := set_voted_for None (set_role Follower (set_current_term t n)) in
    persist (reset_election_timeout (set_incoming_snapshot None (set_leader_id None n)), d)
  else (true, s).

Definition handle (from : NodeId) (m : Msg) : RaftNode * D → list Output * (RaftNode * D) :=
  match m with
  | RequestVote term candidate li lt => handle_request_vote term candidate li lt
  | RequestVoteResp term granted => handle_vote_resp from term granted
  | AppendEntries term leader pi pt entries commit => handle_append term leader pi pt entries commit
  | AppendEntriesResp term success match_ => handle_append_resp from term success match_
  | InstallSnapshot term leader li lt offset data done =>
      handle_install_snapshot term leader li lt offset data done
  | InstallSnapshotResp term li next installed =>
      handle_install_snapshot_resp from term li next installed
  end.

Definition step (from : NodeId) (m : Msg) (s : RaftNode * D) : list Output * (RaftNode * D) :=
  if bool_decide (fatal s.1 ≠ None) || negb (existsb (Z.eqb from) (peers s.1)) then ([], s)
  else if negb (sender_matches from m) then ([], s)
  else
    let '(ok, s) := observe_term (msg_term m) s in
    if ok then handle from m s else ([], s).
End with_storage.

#[global] Arguments persist : simpl never.
#[global] Arguments become_leader : simpl never.
#[global] Arguments start_election : simpl never.
#[global] Arguments observe_term : simpl never.
