(* ===== verification/RaftVotes.v ===== *)
(** * Raft: terms and votes of one node

    What every operation of a node does to its term, its vote, its role and
    the set of votes it collected, in memory and on the disk, and which
    messages it may send ([effect]).  The laws a disk has to obey are the
    class [StorageLaws]; the network theorems of [RaftNet] use nothing else
    about the operations. *)

From S2P Require Import Prelude Raft.

(** ** Ballots: a term and the vote given in it *)
Definition ballot : Type := Z * option NodeId.

Definition ballot_le (a b : ballot) : Prop :=
  a.1 < b.1 ∨ a.1 = b.1 ∧ (a.2 = None ∨ a.2 = b.2).

#[export] Instance ballot_le_preorder : PreOrder ballot_le.
Proof.
  split.
  - intros a. right. auto.
  - intros a b c [?|[? [?|?]]] [?|[? [?|?]]]; unfold ballot_le; try lia;
      right; split; try lia; try (left; congruence); right; congruence.
Qed.

(** A vote is final in its term. *)
Lemma ballot_le_vote t c c' b :
  ballot_le (t, Some c) b → ballot_le (t, Some c') b → t = b.1 → c = c'.
Proof. intros [?|[_ [?|?]]] [?|[_ [?|?]]]; simpl in *; try lia; congruence. Qed.

Definition ballot_of (n : RaftNode) : ballot := (current_term n, voted_for n).
Definition stable_ballot (st : StableState) : ballot := (st_current_term st, st_voted_for st).

(** ** The laws of a disk *)

(** The node [n] with the bookkeeping of the files taken from [src]. *)
Definition set_files (src n : RaftNode) : RaftNode :=
  set_snapshot_dirty (snapshot_dirty src) (set_durable_log_len (durable_log_len src)
    (set_base_digest (base_digest src) (set_wal_len (wal_len src) (set_wal_file (wal_file src) n)))).

(** A write changes nothing of the node but the bookkeeping of its files.  When
    it succeeds, a restart finds the state written; when it fails, the state
    written or what a restart would have found before. *)
Class StorageLaws (D : Type) `{Storage D} := {
  persist_at_node : ∀ path s, (persist_at path s).2.1 = set_files (persist_at path s).2.1 s.1;
  persist_at_saved : ∀ path s, (persist_at path s).1 = None →
    ∃ ld, load_state (persist_at path s).2.2 = inr ld ∧ ld_state ld = stable_view s.1;
  persist_at_failed : ∀ path s, (persist_at path s).1 ≠ None →
    load_state (persist_at path s).2.2 = load_state s.2 ∨
    ∃ ld, load_state (persist_at path s).2.2 = inr ld ∧ ld_state ld = stable_view s.1;
}.

(** ** Changes that do not touch terms, votes and elections *)
Record quiet (n n' : RaftNode) : Prop := mkQuiet {
  quiet_id : node_id n' = node_id n;
  quiet_peers : peers n' = peers n;
  quiet_path : storage_path n' = storage_path n;
  quiet_ballot : ballot_of n' = ballot_of n;
  quiet_votes : votes n' = votes n;
  quiet_fatal : fatal n' = None → fatal n = None;
  quiet_role : role n' = role n ∨ role n' = Follower;
}.

#[export] Instance quiet_preorder : PreOrder quiet.
Proof.
  split.
  - intros n. constructor; auto.
  - intros a b c [] []. constructor; try congruence; [auto|].
    destruct quiet_role0, quiet_role1; (left; congruence) || (right; congruence).
Qed.

Create HintDb quiet discriminated.

(** A node changed only in fields that [quiet] does not look at. *)
Ltac quiet_fields := constructor; (reflexivity || discriminate || (left; reflexivity) || (right; reflexivity) || exact (λ H, H)).

Lemma quiet_reset n : quiet n (reset_election_timeout n).
Proof. quiet_fields. Qed.
Lemma quiet_fail_stop e n : quiet n (fail_stop e n).
Proof. quiet_fields. Qed.
Lemma quiet_follow l n : quiet n (follow l n).
Proof. quiet_fields. Qed.
Lemma quiet_set_log x n : quiet n (set_log x n).
Proof. quiet_fields. Qed.
Lemma quiet_commit x n : quiet n (set_commit_index x n).
Proof. quiet_fields. Qed.
Lemma quiet_files src n : quiet n (set_files src n).
Proof. quiet_fields. Qed.
#[export] Hint Resolve quiet_reset quiet_fail_stop quiet_follow quiet_set_log quiet_commit quiet_files : quiet.

Lemma quiet_drop_other l t n : quiet n (drop_other_incoming l t n).
Proof. unfold drop_other_incoming. repeat case_match; try reflexivity; quiet_fields. Qed.

Lemma quiet_advance_loop count i n : quiet n (advance_loop count i n).
Proof.
  revert i. induction count as [|count IH]; intros i; [reflexivity|]. simpl.
  repeat case_match; auto with quiet.
Qed.

Lemma quiet_advance n : quiet n (advance_commit n).
Proof. apply quiet_advance_loop. Qed.
#[export] Hint Resolve quiet_drop_other quiet_advance : quiet.

Definition appended_node (a : appended) : RaftNode :=
  match a with Appended n _ | Refused n | Stopped n => n end.

Lemma quiet_append_loop es base n c : quiet n (appended_node (append_loop es base n c)).
Proof.
  revert n c. induction es as [|e es IH]; intros n c; [reflexivity|]. simpl.
  repeat case_match; simpl; auto with quiet; try reflexivity; try apply IH;
    etrans; [|apply IH| |apply IH]; quiet_fields.
Qed.

(** The same without the clause on the role, for the steps of an election. *)
Record steady (n n' : RaftNode) : Prop := mkSteady {
  steady_id : node_id n' = node_id n;
  steady_peers : peers n' = peers n;
  steady_path : storage_path n' = storage_path n;
  steady_ballot : ballot_of n' = ballot_of n;
  steady_votes : votes n' = votes n;
  steady_fatal : fatal n' = None → fatal n = None;
}.

#[export] Instance steady_preorder : PreOrder steady.
Proof.
  split; [intros n; constructor; auto|].
  intros a b c [] []. constructor; try congruence; auto.
Qed.

Lemma quiet_steady n n' : quiet n n' → steady n n'.
Proof. intros []. constructor; auto. Qed.

Ltac steady_fields := constructor; (reflexivity || discriminate || exact (λ H, H)).

(** ** Messages that speak of votes and of leadership *)
Definition granted_term (o : Output) : option Z :=
  match msg o with RequestVoteResp t true => Some t | _ => None end.
Definition request_of (o : Output) : option (Z * NodeId) :=
  match msg o with RequestVote t c _ _ => Some (t, c) | _ => None end.
Definition leader_of (o : Output) : option (Z * NodeId) :=
  match msg o with
  | AppendEntries t l _ _ _ _ | InstallSnapshot t l _ _ _ _ _ => Some (t, l)
  | _ => None
  end.

(** A message that is none of these, or a leader's own. *)
Record harmless (n : RaftNode) (o : Output) : Prop := mkHarmless {
  harmless_grant : granted_term o = None;
  harmless_request : request_of o = None;
  harmless_lead : ∀ t l, leader_of o = Some (t, l) →
    l = node_id n ∧ t = current_term n ∧ role n = Leader;
}.

Lemma append_for_leads n peer :
  granted_term (append_for n peer) = None ∧ request_of (append_for n peer) = None ∧
  leader_of (append_for n peer) = Some (current_term n, node_id n).
Proof. unfold append_for, snapshot_for. repeat case_match; auto. Qed.

Section effects.
Context {D : Type} `{Storage D} `{!StorageLaws D}.
Implicit Types (n : RaftNode) (d : D) (s : RaftNode * D).

(** What a restart would find. *)
Definition disk_ballot (d : D) : ballot :=
  match load_state d with inr ld => stable_ballot (ld_state ld) | inl _ => (0, None) end.

(** The votes a candidate or a leader holds after an operation: those it held,
    with the vote [got] just delivered, or its own in an election it starts. *)
Definition campaign (got : option (NodeId * Z)) n (outs : list Output) n' : Prop :=
  (current_term n' = current_term n ∧ role n ≠ Follower ∧
   ∀ v, v ∈ votes n' → v ∈ votes n ∨ got = Some (v, current_term n)) ∨
  (votes n' = {[node_id n]} ∧
   (quorum n = 1 ∨ ∃ o, o ∈ outs ∧ request_of o = Some (current_term n', node_id n))).

(** A leader was one before, or has a quorum of votes. *)
Definition wins n n' : Prop :=
  (role n = Leader ∧ current_term n' = current_term n ∧ votes n' = votes n) ∨
  quorum n ≤ Z.of_nat (size (votes n')).

Record effect (got : option (NodeId * Z)) s (outs : list Output) s' : Prop := mkEffect {
  eff_id : node_id s'.1 = node_id s.1;
  eff_peers : peers s'.1 = peers s.1;
  eff_path : storage_path s'.1 = storage_path s.1;
  eff_ballot : ballot_le (ballot_of s.1) (ballot_of s'.1);
  eff_disk : ballot_le (disk_ballot s.2) (ballot_of s.1) →
    ballot_le (disk_ballot s.2) (disk_ballot s'.2) ∧ ballot_le (disk_ballot s'.2) (ballot_of s'.1);
  eff_fatal : fatal s'.1 = None → fatal s.1 = None;
  eff_synced : fatal s'.1 = None → disk_ballot s.2 = ballot_of s.1 → disk_ballot s'.2 = ballot_of s'.1;
  eff_grant : ∀ o t, o ∈ outs → granted_term o = Some t → disk_ballot s'.2 = (t, Some (to o));
  eff_request : ∀ o t c, o ∈ outs → request_of o = Some (t, c) →
    c = node_id s.1 ∧ disk_ballot s'.2 = (t, Some c);
  eff_lead : ∀ o t l, o ∈ outs → leader_of o = Some (t, l) →
    l = node_id s.1 ∧ t = current_term s'.1 ∧ wins s.1 s'.1 ∧ campaign got s.1 outs s'.1;
  eff_votes : role s'.1 ≠ Follower → campaign got s.1 outs s'.1;
  eff_wins : role s'.1 = Leader → wins s.1 s'.1;
}.

(** *** Writing to the disk *)
Lemma disk_ballot_saved d n :
  (∃ ld, load_state d = inr ld ∧ ld_state ld = stable_view n) → disk_ballot d = ballot_of n.
Proof. intros (ld & E & F). unfold disk_ballot. rewrite E, F. reflexivity. Qed.

Lemma persist_spec n d ok n' d' :
  storage_path n ≠ None → persist (n, d) = (ok, (n', d')) →
  quiet n n' ∧
  if ok then n' = set_files n' n ∧ disk_ballot d' = ballot_of n
  else fatal n' ≠ None ∧ role n' = Follower ∧ (disk_ballot d' = disk_ballot d ∨ disk_ballot d' = ballot_of n).
Proof.
  unfold persist. simpl. intros Hp. destruct (storage_path n) as [path|] eqn:Ep; [|done].
  pose proof (persist_at_node path (n, d)) as Hn.
  pose proof (persist_at_saved path (n, d)) as Hs.
  pose proof (persist_at_failed path (n, d)) as Hf.
  destruct (persist_at path (n, d)) as [[e|] [n1 d1]]; simpl in *; intros [= <- <- <-].
  - split; [etrans; [|apply quiet_fail_stop]; rewrite Hn; apply quiet_files|].
    split_and!; [done|reflexivity|].
    destruct (Hf ltac:(done)) as [E|E]; [left|right; by apply disk_ballot_saved].
    unfold disk_ballot. by rewrite E.
  - split; [rewrite Hn; apply quiet_files|]. split; [exact Hn|]. apply disk_ballot_saved. auto.
Qed.

(** The disk after a write of a node whose ballot grew. *)
Lemma persist_disk n n1 d ok n' d' :
  storage_path n1 ≠ None → persist (n1, d) = (ok, (n', d')) →
  ballot_le (ballot_of n) (ballot_of n1) →
  (ballot_le (disk_ballot d) (ballot_of n) →
   ballot_le (disk_ballot d) (disk_ballot d') ∧ ballot_le (disk_ballot d') (ballot_of n')) ∧
  (fatal n' = None → disk_ballot d' = ballot_of n').
Proof.
  intros Hp E Hle. destruct (persist_spec _ _ _ _ _ Hp E) as [Hq Hd].
  rewrite (quiet_ballot _ _ Hq). destruct ok.
  - destruct Hd as [_ ->]. split; [|auto]. intros Hd. split; [by etrans|reflexivity].
  - destruct Hd as (Hf & _ & Hd). split; [|done]. intros Hd'.
    destruct Hd as [->| ->]; split; try reflexivity; by etrans.
Qed.

(** *** Operations that leave votes alone *)
Lemma quiet_campaign got n n' outs :
  quiet n n' → role n' ≠ Follower → campaign got n outs n'.
Proof.
  intros [] Hr. left. injection quiet_ballot0 as Ht _.
  split_and!; [exact Ht|destruct quiet_role0; congruence|]. rewrite quiet_votes0. auto.
Qed.

Lemma quiet_wins n n' : quiet n n' → role n = Leader → wins n n'.
Proof. intros [] Hr. left. injection quiet_ballot0 as Ht _. auto. Qed.

Lemma effect_of_quiet got n d n' d' outs :
  quiet n n' → Forall (harmless n) outs →
  (ballot_le (disk_ballot d) (ballot_of n) →
   ballot_le (disk_ballot d) (disk_ballot d') ∧ ballot_le (disk_ballot d') (ballot_of n')) →
  (fatal n' = None → disk_ballot d = ballot_of n → disk_ballot d' = ballot_of n') →
  effect got (n, d) outs (n', d').
Proof.
  intros Hq Ho Hd Hs. pose proof Hq as []. rewrite Forall_forall in Ho.
  constructor; simpl; auto.
  - rewrite quiet_ballot0. reflexivity.
  - intros o t Hin E. destruct (Ho o Hin). congruence.
  - intros o t c Hin E. destruct (Ho o Hin). congruence.
  - intros o t l Hin E. destruct (Ho o Hin) as [_ _ Hl]. destruct (Hl _ _ E) as (-> & -> & Hr).
    injection quiet_ballot0 as Ht _. split_and!; [reflexivity|auto|by apply quiet_wins|].
    left. rewrite quiet_votes0. split_and!; [exact Ht|congruence|auto].
  - intros Hr. apply quiet_campaign; auto.
  - intros Hr. apply quiet_wins; [done|]. destruct quiet_role0; congruence.
Qed.

Lemma quiet_effect got n d n' outs :
  quiet n n' → Forall (harmless n) outs → effect got (n, d) outs (n', d).
Proof.
  intros Hq Ho. apply effect_of_quiet; try done.
  - rewrite (quiet_ballot _ _ Hq). intros Hd. split; [reflexivity|done].
  - rewrite (quiet_ballot _ _ Hq). auto.
Qed.

Lemma persist_effect got n n1 d ok n' d' n2 outs :
  storage_path n ≠ None → quiet n n1 → persist (n1, d) = (ok, (n', d')) → quiet n' n2 →
  Forall (harmless n) outs → effect got (n, d) outs (n2, d').
Proof.
  intros Hp Hq E Hq2 Ho. pose proof Hq as [].
  assert (storage_path n1 ≠ None) as Hp1 by congruence.
  destruct (persist_spec _ _ _ _ _ Hp1 E) as [Hq' _].
  destruct (persist_disk n n1 d ok n' d' Hp1 E) as [Hd Hs].
  { rewrite quiet_ballot0. reflexivity. }
  apply effect_of_quiet; try done.
  - etrans; [exact Hq|]. etrans; [exact Hq'|exact Hq2].
  - rewrite (quiet_ballot _ _ Hq2). exact Hd.
  - intros Hf _. rewrite (quiet_ballot _ _ Hq2). apply Hs. by apply (quiet_fatal _ _ Hq2).
Qed.
End effects.

(** ** The messages of a leader are harmless *)
Lemma harmless_append n n' peer :
  quiet n n' → role n = Leader → harmless n (append_for n' peer).
Proof.
  intros [] Hr. destruct (append_for_leads n' peer) as (Hg & Hq & Hl). constructor; [done|done|].
  intros t l. rewrite Hl. intros [= <- <-]. injection quiet_ballot0 as Ht _. auto.
Qed.

Lemma harmless_snapshot snap n n' peer :
  quiet n n' → role n = Leader → harmless n (snapshot_for snap n' peer).
Proof.
  intros [] Hr. constructor; [done|done|].
  intros t l [= <- <-]. injection quiet_ballot0 as Ht _. auto.
Qed.

Lemma harmless_broadcast n n' :
  quiet n n' → role n = Leader → Forall (harmless n) (broadcast_append n').
Proof.
  intros Hq Hr. apply Forall_forall. intros o Ho. apply list_elem_of_fmap in Ho as (p & -> & _).
  by apply harmless_append.
Qed.

Lemma harmless_append_response n n' l ok i : harmless n (append_response n' l ok i).
Proof. by constructor. Qed.
Lemma harmless_snapshot_response n n' l i o ok : harmless n (snapshot_response n' l i o ok).
Proof. by constructor. Qed.
Lemma harmless_refuse n c t : harmless n (mkOutput c (RequestVoteResp t false)).
Proof. by constructor. Qed.
#[export] Hint Resolve harmless_append_response harmless_snapshot_response harmless_refuse : quiet.
#[export] Hint Resolve Forall_nil_2 : quiet.
#[export] Hint Extern 1 (Forall _ (_ :: _)) => apply Forall_cons_2 : quiet.
#[export] Hint Extern 2 (quiet ?n ?n) => reflexivity : quiet.

Section operations.
Context {D : Type} `{Storage D} `{!StorageLaws D}.
Implicit Types (n : RaftNode) (d : D) (s : RaftNode * D).

Definition persistent s : Prop := storage_path s.1 ≠ None.

(** The result of an operation that returns a value and no message. *)
Definition effect_of {A} s (r : A * (RaftNode * D)) : Prop := effect None s [] r.2.

(** Splits a [persist] at the head of the goal's state. *)
Ltac persist_case := match goal with
  | |- context [persist (?n, ?d)] => let ok := fresh "ok" in let n' := fresh "n'" in
      let d' := fresh "d'" in let E := fresh "E" in
      destruct (persist (n, d)) as [ok [n' d']] eqn:E
  end.

(** A branch that writes nothing. *)
Ltac unwritten := simpl; apply quiet_effect; auto with quiet.

(** Closes the goal after a write; leaves the change before it. *)
Ltac persisted :=
  eapply persist_effect; [eassumption| |eassumption|(reflexivity || quiet_fields)|auto with quiet].

Lemma next_boot_session_effect now s : persistent s → effect_of s (next_boot_session now s).
Proof.
  destruct s as [n d]. intros Hp. unfold effect_of, next_boot_session.
  case_match; [|unwritten].
  persist_case. case_match; persisted; quiet_fields.
Qed.

Lemma force_replicate_effect s : effect None s (force_replicate s).1 (force_replicate s).2.
Proof.
  destruct s as [n d]. unfold force_replicate. case_match eqn:El; [|unwritten].
  unfold is_leader in El. apply andb_prop in El as [Er _]. apply bool_decide_eq_true in Er.
  apply quiet_effect; [quiet_fields|]. apply harmless_broadcast; [quiet_fields|done].
Qed.

Lemma propose_batch_effect datas s : persistent s → effect_of s (propose_batch datas s).
Proof.
  destruct s as [n d]. intros Hp. unfold effect_of, propose_batch.
  repeat (case_match; [unwritten; fail|]).
  repeat (case_match; [|unwritten; fail]).
  persist_case. case_match; persisted;
    (etrans; [|apply quiet_advance]; quiet_fields).
Qed.

Lemma mark_applied_batch_effect a b s : persistent s → effect_of s (mark_applied_batch a b s).
Proof.
  destruct s as [n d]. intros Hp. unfold effect_of, mark_applied_batch.
  case_match; [unwritten|].
  persist_case. case_match; persisted; quiet_fields.
Qed.

Lemma compact_effect data s : persistent s → effect_of s (compact data s).
Proof.
  destruct s as [n d]. intros Hp. unfold effect_of, compact.
  repeat (case_match; [unwritten; fail|]).
  persist_case. case_match; persisted; quiet_fields.
Qed.

Lemma finish_snapshot_install_effect i s : persistent s → effect_of s (finish_snapshot_install i s).
Proof.
  destruct s as [n d]. intros Hp. unfold effect_of, finish_snapshot_install.
  case_match; [|unwritten].
  persist_case. case_match; persisted; quiet_fields.
Qed.

Lemma handle_append_effect got t l pi pt es c s : persistent s →
  effect got s (handle_append t l pi pt es c s).1 (handle_append t l pi pt es c s).2.
Proof.
  destruct s as [n d]. intros Hp. unfold handle_append.
  repeat (case_match; [unwritten; fail|]).
  set (n1 := follow l (drop_other_incoming l t n)).
  assert (quiet n n1) as Hq1 by (etrans; [apply quiet_drop_other|apply quiet_follow]).
  repeat (case_match; [unwritten; fail|]).
  pose proof (quiet_append_loop es (snapshot_index n1) n1 false) as Hq2.
  destruct (append_loop _ _ _ _) as [n2 changed|n2|n2]; simpl in Hq2;
    assert (quiet n n2) as Hq3 by (by etrans); [|unwritten..].
  case_match; [unwritten; etrans; [exact Hq3|auto with quiet]|].
  set (n3 := if commit_index n2 <? c then _ else _).
  assert (quiet n n3) as Hq4.
  { etrans; [exact Hq3|]. unfold n3. case_match; auto with quiet. }
  destruct changed.
  - persist_case. destruct ok; simpl; persisted; exact Hq4.
  - simpl. unwritten.
Qed.

Lemma handle_append_resp_effect got from t ok i s :
  effect got s (handle_append_resp from t ok i s).1 (handle_append_resp from t ok i s).2.
Proof.
  destruct s as [n d]. unfold handle_append_resp.
  destruct (bool_decide (role n = Leader)) eqn:Er; simpl; [|unwritten].
  apply bool_decide_eq_true in Er.
  repeat case_match; unwritten;
    try (apply Forall_cons_2; [apply harmless_append; [|done]|apply Forall_nil_2]);
    try quiet_fields; (etrans; [|apply quiet_advance]; quiet_fields).
Qed.

Lemma handle_install_snapshot_effect got t l li lt o data dn s :
  effect got s (handle_install_snapshot t l li lt o data dn s).1
    (handle_install_snapshot t l li lt o data dn s).2.
Proof.
  destruct s as [n d]. unfold handle_install_snapshot.
  repeat case_match; simpl; unwritten; quiet_fields.
Qed.

Lemma handle_install_snapshot_resp_effect got from t li o ok s :
  effect got s (handle_install_snapshot_resp from t li o ok s).1
    (handle_install_snapshot_resp from t li o ok s).2.
Proof.
  destruct s as [n d]. unfold handle_install_snapshot_resp.
  destruct (bool_decide (role n = Leader)) eqn:Er; simpl; [|unwritten].
  apply bool_decide_eq_true in Er.
  repeat case_match; unwritten;
    try (apply Forall_cons_2; [(apply harmless_append || apply harmless_snapshot); [|done]|apply Forall_nil_2]);
    try quiet_fields; (etrans; [|apply quiet_advance]; quiet_fields).
Qed.
End operations.

(** ** The operations of an election *)
Section elections.
Context {D : Type} `{Storage D} `{!StorageLaws D}.
Implicit Types (n : RaftNode) (d : D) (s : RaftNode * D).

(** A clause about the messages of an operation that sends none. *)
Ltac no_message := intros; match goal with H : _ ∈ [] |- _ => inversion H end.

(** [become_leader] keeps the ballot and the votes; the disk gets the ballot. *)
Lemma become_leader_spec n d n' d' :
  storage_path n ≠ None → become_leader (n, d) = (n', d') →
  steady n n' ∧
  (ballot_le (disk_ballot d) (ballot_of n) →
   ballot_le (disk_ballot d) (disk_ballot d') ∧ ballot_le (disk_ballot d') (ballot_of n')) ∧
  (fatal n' = None → disk_ballot d' = ballot_of n').
Proof.
  intros Hp. unfold become_leader. set (n1 := set_heartbeat_elapsed _ _).
  assert (steady n n1) as H1 by steady_fields.
  assert (∀ e, steady n (fail_stop e n1)) as Hstop by (intros e; steady_fields).
  assert (∀ e, (ballot_le (disk_ballot d) (ballot_of n) →
      ballot_le (disk_ballot d) (disk_ballot d) ∧ ballot_le (disk_ballot d) (ballot_of (fail_stop e n1))) ∧
      (fatal (fail_stop e n1) = None → disk_ballot d = ballot_of (fail_stop e n1))) as Hsd.
  { intros e. split; [intros Hd; split; [reflexivity|exact Hd]|done]. }
  case_match; [intros [= <- <-]; auto|]. case_match; [|intros [= <- <-]; auto].
  match goal with |- context [advance_commit ?m] => set (n2 := m) end.
  assert (steady n (advance_commit n2)) as Hst.
  { etrans; [|apply quiet_steady, quiet_advance]. steady_fields. }
  destruct (persist (advance_commit n2, d)) as [ok [n3 d3]] eqn:E.
  assert (storage_path (advance_commit n2) ≠ None) as Hp2 by (rewrite (steady_path _ _ Hst); done).
  destruct (persist_spec _ _ _ _ _ Hp2 E) as [Hq _].
  destruct (persist_disk n _ d ok n3 d3 Hp2 E) as [Hd Hs].
  { rewrite (steady_ballot _ _ Hst). reflexivity. }
  assert (steady n n3) as H3 by (etrans; [exact Hst|by apply quiet_steady]).
  destruct ok; intros [= <- <-]; [|done].
  split; [|done]. etrans; [exact H3|]. steady_fields.
Qed.

(** What an election that may have been won says to the peers. *)
Lemma broadcast_leads n o :
  o ∈ broadcast_append n →
  granted_term o = None ∧ request_of o = None ∧ leader_of o = Some (current_term n, node_id n).
Proof. intros Ho. apply list_elem_of_fmap in Ho as (p & -> & _). apply append_for_leads. Qed.

(** A candidate [n1] that becomes leader with a quorum of votes. *)
Lemma elected_effect got n d n1 d1 n' d' :
  storage_path n ≠ None → node_id n1 = node_id n → peers n1 = peers n →
  storage_path n1 = storage_path n → (fatal n1 = None → fatal n = None) →
  ballot_le (ballot_of n) (ballot_of n1) →
  (ballot_le (disk_ballot d) (ballot_of n) →
   ballot_le (disk_ballot d) (disk_ballot d1) ∧ ballot_le (disk_ballot d1) (ballot_of n1)) →
  quorum n ≤ Z.of_nat (size (votes n1)) →
  (∀ outs, campaign got n outs n1) →
  become_leader (n1, d1) = (n', d') →
  effect got (n, d) (broadcast_append n') (n', d').
Proof.
  intros Hp Hid Hps Hpath Hf Hle Hd Hv Hc E.
  assert (storage_path n1 ≠ None) as Hp1 by congruence.
  destruct (become_leader_spec _ _ _ _ Hp1 E) as ([] & Hd' & Hs').
  assert (current_term n' = current_term n1) as Ht by (injection steady_ballot0; auto).
  assert (∀ outs, campaign got n outs n') as Hc'.
  { intros outs. unfold campaign. rewrite Ht, steady_votes0. apply Hc. }
  assert (wins n n') as Hw by (right; by rewrite steady_votes0).
  constructor; simpl; auto; try congruence.
  - intros Hdn. destruct (Hd Hdn) as [A B]. destruct (Hd' B). split; [by etrans|done].
  - intros o t Ho. destruct (broadcast_leads _ _ Ho) as (-> & _). done.
  - intros o t c Ho. destruct (broadcast_leads _ _ Ho) as (_ & -> & _). done.
  - intros o t l Ho. destruct (broadcast_leads _ _ Ho) as (_ & _ & ->). intros [= <- <-].
    split_and!; [congruence|reflexivity|exact Hw|apply Hc'].
Qed.

Lemma handle_vote_resp_effect from t (granted : bool) s : persistent s →
  effect (if granted then Some (from, t) else None) s
    (handle_vote_resp from t granted s).1 (handle_vote_resp from t granted s).2.
Proof.
  destruct s as [n d]. intros Hp. unfold handle_vote_resp.
  destruct (bool_decide (role n = Candidate)) eqn:Er; simpl; [|apply quiet_effect; auto with quiet].
  apply bool_decide_eq_true in Er.
  destruct (t =? current_term n) eqn:Et; simpl; [|apply quiet_effect; auto with quiet].
  apply Z.eqb_eq in Et. subst t. destruct granted; [|apply quiet_effect; auto with quiet].
  set (n1 := set_votes _ n).
  assert (∀ outs, campaign (Some (from, current_term n)) n outs n1) as Hc.
  { intros outs. left. split_and!; [done|congruence|]. simpl. intros v. rewrite elem_of_union, elem_of_singleton.
    intros [->|]; auto. }
  case_match eqn:Eq.
  - destruct (become_leader (n1, d)) as [n' d'] eqn:E. simpl. apply Z.leb_le in Eq.
    eapply (elected_effect _ n d n1 d); eauto; try reflexivity.
    intros Hd. split; [reflexivity|exact Hd].
  - simpl. constructor; simpl; auto; try no_message; try congruence.
    + reflexivity.
    + intros Hd. split; [reflexivity|exact Hd].
Qed.

Lemma handle_request_vote_effect got t c li lt s : persistent s →
  effect got s (handle_request_vote t c li lt s).1 (handle_request_vote t c li lt s).2.
Proof.
  destruct s as [n d]. intros Hp. unfold handle_request_vote.
  case_match eqn:Eg; [|simpl; apply quiet_effect; auto with quiet].
  apply andb_prop in Eg as [Eg _]. apply andb_prop in Eg as [Et Ev]. apply Z.eqb_eq in Et. subst t.
  set (n1 := reset_election_timeout _). destruct (persist (n1, d)) as [ok [n' d']] eqn:E.
  assert (storage_path n1 ≠ None) as Hp1 by done.
  assert (ballot_le (ballot_of n) (ballot_of n1)) as Hle.
  { right. split; [done|]. simpl. destruct (voted_for n) as [v|]; [right|auto].
    apply Z.eqb_eq in Ev. by subst. }
  destruct (persist_spec _ _ _ _ _ Hp1 E) as [[] Hok].
  destruct (persist_disk n n1 d ok n' d' Hp1 E Hle) as [Hd Hs].
  assert (current_term n' = current_term n ∧ voted_for n' = Some c) as [Ht Hv].
  { injection quiet_ballot0. auto. }
  assert (∀ outs, role n' ≠ Follower → campaign got n outs n') as Hc.
  { intros outs Hr. left. split_and!; [done|destruct quiet_role0; simpl in *; congruence|].
    rewrite quiet_votes0. auto. }
  assert (role n' = Leader → wins n n') as Hw.
  { intros Hr. left. split_and!; [destruct quiet_role0; simpl in *; congruence|done|done]. }
  destruct ok; simpl; constructor; simpl; auto; try no_message.
  - rewrite quiet_ballot0. exact Hle.
  - intros o t Ho. apply list_elem_of_singleton in Ho as ->. intros [= <-]. simpl.
    destruct Hok as [_ ->]. rewrite Ht. reflexivity.
  - intros o t c' Ho. apply list_elem_of_singleton in Ho as ->. done.
  - intros o t l Ho. apply list_elem_of_singleton in Ho as ->. done.
  - rewrite quiet_ballot0. exact Hle.
Qed.

Lemma start_election_effect got s : persistent s →
  effect got s (start_election s).1 (start_election s).2.
Proof.
  destruct s as [n d]. intros Hp. unfold start_election.
  case_match eqn:Et; [|simpl; apply quiet_effect; auto with quiet].
  apply checked_add_Some in Et as [-> _].
  set (n1 := reset_election_timeout _). destruct (persist (n1, d)) as [ok [n2 d2]] eqn:E.
  assert (storage_path n1 ≠ None) as Hp1 by done.
  assert (ballot_le (ballot_of n) (ballot_of n1)) as Hle by (left; simpl; lia).
  destruct (persist_spec _ _ _ _ _ Hp1 E) as [[] Hok].
  destruct (persist_disk n n1 d ok n2 d2 Hp1 E Hle) as [Hd Hs].
  assert (ballot_le (ballot_of n) (ballot_of n2)) as Hle2 by (rewrite quiet_ballot0; exact Hle).
  destruct ok; simpl.
  - destruct Hok as [Hn2 Hd2].
    assert (quorum n2 = quorum n) as Hquo by (unfold quorum; by rewrite quiet_peers0).
    case_match eqn:Eq.
    + apply Z.eqb_eq in Eq. destruct (become_leader (n2, d2)) as [n' d'] eqn:Eb. simpl.
      eapply (elected_effect _ n d n2 d2); eauto.
      * rewrite quiet_votes0. change (votes n1) with ({[node_id n]} : gset Z). rewrite size_singleton. lia.
      * intros outs. right. rewrite quiet_votes0. split; [reflexivity|left; lia].
    + apply Z.eqb_neq in Eq.
      assert (∃ o, o ∈ map (λ peer, mkOutput peer (request_vote n2)) (peers n2) ∧
               request_of o = Some (current_term n2, node_id n)) as Hreq.
      { destruct (peers n2) as [|p ps] eqn:Ep; [unfold quorum in Eq; by rewrite Ep in Eq|].
        eexists. split; [apply list_elem_of_here|]. unfold request_of. simpl. by rewrite quiet_id0. }
      simpl. constructor; simpl; auto.
      * intros o t Ho. apply list_elem_of_fmap in Ho as (p & -> & _). done.
      * intros o t c Ho. apply list_elem_of_fmap in Ho as (p & -> & _). intros [= <- <-].
        split; [done|]. rewrite Hd2, quiet_id0. injection quiet_ballot0 as Ht _. by rewrite Ht.
      * intros o t l Ho. apply list_elem_of_fmap in Ho as (p & -> & _). done.
      * intros _. right. rewrite quiet_votes0. auto.
      * destruct quiet_role0 as [Hr|Hr]; rewrite Hr; done.
  - destruct Hok as (Hf & Hr & _). constructor; simpl; auto; try no_message; rewrite Hr; done.
Qed.

Lemma tick_effect got s : persistent s → effect got s (tick s).1 (tick s).2.
Proof.
  destruct s as [n d]. intros Hp. unfold tick.
  case_match; [simpl; apply quiet_effect; auto with quiet|].
  assert (∀ x, effect got (n, d) (start_election (set_election_elapsed x n, d)).1
                 (start_election (set_election_elapsed x n, d)).2) as Hse.
  { intros x. destruct (start_election_effect got (set_election_elapsed x n, d) Hp). constructor; auto. }
  destruct (role n) eqn:Er; [case_match|case_match|case_match]; simpl; try apply Hse;
    apply quiet_effect; auto with quiet; try quiet_fields.
  apply harmless_broadcast; [quiet_fields|done].
Qed.

(** After a higher term is seen the node is a follower. *)
Lemma observe_term_effect got t s : persistent s →
  effect got s [] (observe_term t s).2 ∧ ((observe_term t s) = (true, s) ∨ role (observe_term t s).2.1 = Follower).
Proof.
  destruct s as [n d]. intros Hp. unfold observe_term.
  case_match eqn:Et; [|split; [simpl; apply quiet_effect; auto with quiet|auto]].
  apply Z.ltb_lt in Et. set (n1 := reset_election_timeout _).
  destruct (persist (n1, d)) as [ok [n' d']] eqn:E.
  assert (storage_path n1 ≠ None) as Hp1 by done.
  assert (ballot_le (ballot_of n) (ballot_of n1)) as Hle by (left; simpl; lia).
  destruct (persist_spec _ _ _ _ _ Hp1 E) as [[] Hok].
  destruct (persist_disk n n1 d ok n' d' Hp1 E Hle) as [Hd Hs].
  assert (role n' = Follower) as Hr by (destruct quiet_role0; done).
  split; [|auto]. simpl. constructor; simpl; auto; try no_message; try congruence.
Qed.

(** An operation after one that sent nothing and left a follower. *)
Lemma effect_after got s s1 outs s' :
  role s1.1 = Follower → effect got s [] s1 → effect got s1 outs s' → effect got s outs s'.
Proof.
  intros Hr [] [].
  assert (∀ outs, campaign got s1.1 outs s'.1 → campaign got s.1 outs s'.1) as Hc.
  { intros o [(_ & Hn & _)|[Hv Hq]]; [done|]. right. split; [congruence|].
    unfold quorum in *. rewrite eff_peers0, eff_id0 in Hq. exact Hq. }
  assert (wins s1.1 s'.1 → wins s.1 s'.1) as Hw.
  { intros [[Hl _]|Hq]; [congruence|]. right. unfold quorum in *. rewrite eff_peers0 in Hq. exact Hq. }
  constructor; auto; try congruence.
  - by etrans.
  - intros Hd. destruct (eff_disk0 Hd) as [A B]. destruct (eff_disk1 B). split; [by etrans|done].
  - intros o t c Ho E. rewrite <- eff_id0. eauto.
  - intros o t l Ho E. destruct (eff_lead1 o t l Ho E) as (-> & -> & ? & ?). auto.
Qed.

(** The vote a message brings. *)
Definition vote_in (from : NodeId) (m : Msg) : option (NodeId * Z) :=
  match m with RequestVoteResp t true => Some (from, t) | _ => None end.

Lemma handle_effect from m s : persistent s →
  effect (vote_in from m) s (handle from m s).1 (handle from m s).2.
Proof.
  intros Hp. destruct m as [| t granted | | | | ]; simpl.
  - by apply handle_request_vote_effect.
  - pose proof (handle_vote_resp_effect from t granted s Hp). by destruct granted.
  - by apply handle_append_effect.
  - apply handle_append_resp_effect.
  - apply handle_install_snapshot_effect.
  - apply handle_install_snapshot_resp_effect.
Qed.

Lemma step_effect from m s : persistent s →
  effect (vote_in from m) s (step from m s).1 (step from m s).2.
Proof.
  intros Hp. unfold step. destruct s as [n d].
  case_match; [simpl; apply quiet_effect; auto with quiet|].
  case_match; [simpl; apply quiet_effect; auto with quiet|].
  destruct (observe_term_effect (vote_in from m) (msg_term m) (n, d) Hp) as [He Ho].
  destruct (observe_term (msg_term m) (n, d)) as [ok s1]; simpl in *.
  destruct ok; [|done].
  destruct Ho as [[= ->]|Hr]; [by apply handle_effect|].
  eapply effect_after; [exact Hr|exact He|]. apply handle_effect.
  unfold persistent. rewrite (eff_path _ _ _ _ He). exact Hp.
Qed.
End elections.
