(* ===== verification/RaftNet.v ===== *)
(** * Raft: a cluster on an unreliable network

    Nodes run the operations of [Raft] in any order, against a network that
    may lose, repeat and reorder messages and against crashes: a node may be
    rebuilt from its disk at any time.  [net_step] is one such event.  The main
    result is that the leaders of a term are one node ([one_leader]). *)

From stdpp Require Import sorting.
From S2P Require Import Prelude Raft RaftVotes.

(** ** The peers of a node made from a list of members *)
Section peers.
Lemma elem_of_dedup_sorted x l : x ∈ dedup_sorted l ↔ x ∈ l.
Proof.
  induction l as [|y l IH]; [done|]. destruct l as [|z l]; [done|].
  change (dedup_sorted (y :: z :: l)) with
    (if y =? z then dedup_sorted (z :: l) else y :: dedup_sorted (z :: l)).
  destruct (y =? z) eqn:E.
  - apply Z.eqb_eq in E. subst. rewrite IH, !elem_of_cons. tauto.
  - rewrite (elem_of_cons (dedup_sorted _)), IH, (elem_of_cons (z :: l)). tauto.
Qed.

Lemma NoDup_dedup_sorted l : StronglySorted Z.le l → NoDup (dedup_sorted l).
Proof.
  induction l as [|y l IH]; intros Hs; [constructor|]. inversion Hs as [|? ? Hs' Hall]; subst.
  destruct l as [|z l]; [apply NoDup_singleton|].
  change (dedup_sorted (y :: z :: l)) with
    (if y =? z then dedup_sorted (z :: l) else y :: dedup_sorted (z :: l)).
  destruct (y =? z) eqn:E; [auto|]. apply Z.eqb_neq in E. constructor; [|auto].
  rewrite elem_of_dedup_sorted. inversion Hs' as [|? ? _ Hz]; subst. inversion Hall; subst.
  rewrite elem_of_cons. intros [->|Hin]; [done|]. rewrite Forall_forall in Hz.
  specialize (Hz y Hin). lia.
Qed.

(** [from_stable] keeps each member once, without the node itself. *)
Lemma from_stable_peers now i ps c path st :
  let n := from_stable now i ps c path st in
  NoDup (peers n) ∧ ∀ x, x ∈ peers n ↔ x ∈ ps ∧ x ≠ i.
Proof.
  unfold from_stable. cbv zeta. set (l := List.filter (λ p : Z, negb (p =? i)) ps). split.
  - apply NoDup_dedup_sorted, StronglySorted_merge_sort; [intros a b e ? ?|intros a b]; lia.
  - intros x. change (x ∈ dedup_sorted (merge_sort Z.le l) ↔ x ∈ ps ∧ x ≠ i).
    rewrite elem_of_dedup_sorted, (merge_sort_Permutation Z.le l). unfold l.
    rewrite !list_elem_of_In, filter_In, negb_true_iff, Z.eqb_neq. tauto.
Qed.
End peers.

(** ** The operations of a node as events *)
Inductive Op : Type :=
  | OpTick
  | OpStep (from : NodeId) (m : Msg)
  | OpReplicate
  | OpPropose (datas : list (list Z))
  | OpCompact (data : list Z)
  | OpInstall (index : Z)
  | OpApplied (first last_ : Z)
  | OpBoot (now : Z)
  | OpFail (error : string).

Section network.
Context {D : Type} `{Storage D}.

Definition exec (op : Op) (s : RaftNode * D) : list Output * (RaftNode * D) :=
  match op with
  | OpTick => tick s
  | OpStep from m => step from m s
  | OpReplicate => force_replicate s
  | OpPropose datas => ([], (propose_batch datas s).2)
  | OpCompact data => ([], (compact data s).2)
  | OpInstall index =>
      match finish_snapshot_install index s with
      | (inr o, s) => ([o], s)
      | (inl _, s) => ([], s)
      end
  | OpApplied first last_ => ([], (mark_applied_batch first last_ s).2)
  | OpBoot now => ([], (next_boot_session now s).2)
  | OpFail e => ([], (fail_stop e s.1, s.2))
  end.

(** The cluster: the nodes with their disks, and every message ever sent with
    its sender. *)
Record Net := mkNet { nodes : gmap Z (RaftNode * D); sent : list (NodeId * Output) }.

Context (members : list NodeId).

(** A message is delivered to the node it was sent to, as often as one likes. *)
Definition deliverable (N : Net) (i : NodeId) (op : Op) : Prop :=
  match op with OpStep from m => (from, mkOutput i m) ∈ sent N | _ => True end.

Definition run_op (i : NodeId) (op : Op) (s : RaftNode * D) (N : Net) : Net :=
  mkNet (<[i := (exec op s).2]> (nodes N)) (sent N ++ map (pair i) (exec op s).1).

Inductive net_step : Net → Net → Prop :=
  | net_op N i op s :
      nodes N !! i = Some s → deliverable N i op → net_step N (run_op i op s N)
  | net_restart N i n d now c path n' :
      nodes N !! i = Some (n, d) → new_persistent now i members c path d = inr n' →
      net_step N (mkNet (<[i := (n', d)]> (nodes N)) (sent N)).

(** Every member is started from its disk, no message was sent. *)
Definition net_initial (N : Net) : Prop :=
  dom (nodes N) = list_to_set members ∧ sent N = [] ∧
  ∀ i n d, nodes N !! i = Some (n, d) → ∃ now c path, new_persistent now i members c path d = inr n.

Definition reachable (N : Net) : Prop := ∃ N0, net_initial N0 ∧ rtc net_step N0 N.
End network.
Arguments Net D : clear implicits.

(** ** Votes as the network saw them *)

(** [v] voted for [c] in term [t]: it granted its vote, or asked for votes. *)
Definition voted (S : list (NodeId * Output)) (v t : Z) (c : NodeId) : Prop :=
  (∃ o, (v, o) ∈ S ∧ granted_term o = Some t ∧ to o = c) ∨
  (v = c ∧ ∃ o, (v, o) ∈ S ∧ request_of o = Some (t, c)).

Lemma voted_mono S S' v t c : voted S v t c → voted (S ++ S') v t c.
Proof.
  intros [(o & Ho & ?)|(? & o & Ho & ?)]; [left|right; split; [done|]];
    exists o; rewrite elem_of_app; auto.
Qed.

Lemma voted_app S i outs v t c :
  voted (S ++ map (pair i) outs) v t c →
  voted S v t c ∨ (v = i ∧ ∃ o, o ∈ outs ∧
    ((granted_term o = Some t ∧ to o = c) ∨ (i = c ∧ request_of o = Some (t, c)))).
Proof.
  intros [(o & Ho & ?)|(Hv & o & Ho & ?)]; apply elem_of_app in Ho as [Ho|Ho];
    try (apply list_elem_of_fmap in Ho as (o' & [= -> ->] & Ho')).
  - left. left. eauto.
  - right. split; [done|]. eauto.
  - left. right. eauto.
  - right. subst. split; [done|]. eauto.
Qed.

Section safety.
Context {D : Type} `{Storage D} `{!StorageLaws D}.
Context (members : list NodeId).

Let cluster : gset Z := list_to_set members.
Definition majority : Z := Z.of_nat (size cluster) / 2 + 1.

(** A quorum of votes; a cluster of one node needs none but its own. *)
Definition elected (S : list (NodeId * Output)) (t : Z) (l : NodeId) : Prop :=
  majority = 1 ∨
  ∃ Q : gset Z, Q ⊆ cluster ∧ majority ≤ Z.of_nat (size Q) ∧ ∀ v, v ∈ Q → voted S v t l.

Record node_inv (S : list (NodeId * Output)) (i : NodeId) (s : RaftNode * D) : Prop := mkNodeInv {
  ni_id : node_id s.1 = i;
  ni_nodup : NoDup (peers s.1);
  ni_peers : ∀ x, x ∈ peers s.1 ↔ x ∈ members ∧ x ≠ i;
  ni_path : persistent s;
  ni_disk : ballot_le (disk_ballot s.2) (ballot_of s.1);
  ni_synced : fatal s.1 = None → disk_ballot s.2 = ballot_of s.1;
  ni_voted : ∀ t c, voted S i t c → ballot_le (t, Some c) (disk_ballot s.2);
  ni_votes : role s.1 ≠ Follower → ∀ v, v ∈ votes s.1 →
    v ∈ cluster ∧ (majority = 1 ∨ voted S v (current_term s.1) i);
  ni_leader : role s.1 = Leader → majority ≤ Z.of_nat (size (votes s.1));
}.

Record net_inv (N : Net D) : Prop := mkNetInv {
  inv_dom : dom (nodes N) = cluster;
  inv_node : ∀ i s, nodes N !! i = Some s → node_inv (sent N) i s;
  inv_sent : ∀ v o, (v, o) ∈ sent N → v ∈ cluster;
  inv_once : ∀ v t c c', voted (sent N) v t c → voted (sent N) v t c' → c = c';
  inv_lead : ∀ l o t l', (l, o) ∈ sent N → leader_of o = Some (t, l') → l' = l ∧ elected (sent N) t l;
}.

(** The quorum of a node is the majority of the cluster. *)
Lemma quorum_majority (n : RaftNode) i :
  i ∈ members → NoDup (peers n) → (∀ x, x ∈ peers n ↔ x ∈ members ∧ x ≠ i) →
  quorum n = majority.
Proof.
  intros Hi Hnd Hp. unfold quorum, majority. f_equal. f_equal.
  assert (cluster = {[i]} ∪ list_to_set (peers n)) as ->.
  { apply set_eq. intros x. unfold cluster.
    rewrite elem_of_union, elem_of_singleton, !elem_of_list_to_set, Hp.
    destruct (decide (x = i)) as [->|]; naive_solver. }
  rewrite size_union, size_singleton, size_list_to_set by
    (try done; intros x; rewrite elem_of_singleton, elem_of_list_to_set, Hp; naive_solver).
  unfold zlen, NodeId in *. lia.
Qed.

Lemma exec_effect op s i (N : Net D) :
  persistent s → deliverable N i op →
  ∃ got, effect got s (exec op s).1 (exec op s).2 ∧
         (∀ v t, got = Some (v, t) → v ∈ (list_to_set (map fst (sent N)) : gset Z) ∧ voted (sent N) v t i).
Proof.
  intros Hp Hd. destruct op as [|from m| |datas|data|index|a b|now|e]; simpl.
  - exists None. split; [by apply tick_effect|done].
  - exists (vote_in from m). split; [by apply step_effect|]. intros v t Hv.
    simpl in Hd. destruct m as [|t' [|]| | | |]; try done. injection Hv as -> ->. split.
    + rewrite elem_of_list_to_set. apply list_elem_of_fmap. by eexists (_, _).
    + left. eexists. split; [exact Hd|done].
  - exists None. split; [apply force_replicate_effect|done].
  - exists None. split; [by apply propose_batch_effect|done].
  - exists None. split; [by apply compact_effect|done].
  - exists None. split; [|done]. pose proof (finish_snapshot_install_effect index s Hp) as He.
    unfold effect_of in He. unfold finish_snapshot_install in *. destruct s as [n d].
    destruct (finished_incoming index n); [|done].
    destruct (persist _) as [ok [n' d']]. destruct ok; [|done]. simpl in *.
    destruct He. constructor; simpl in *; auto;
      try (intros o t Ho; apply list_elem_of_singleton in Ho as ->; done).
    + intros o t l Ho. apply list_elem_of_singleton in Ho as ->. done.
    + intros o t l Ho. apply list_elem_of_singleton in Ho as ->. done.
    + intros Hr. destruct (eff_votes Hr) as [?|[? [?|(o & Ho & _)]]]; [left; done|right; auto|inversion Ho].
  - exists None. split; [by apply mark_applied_batch_effect|done].
  - exists None. split; [by apply next_boot_session_effect|done].
  - exists None. split; [|done]. destruct s as [n d]. apply quiet_effect; auto with quiet.
Qed.

(** *** One operation keeps the invariant *)
Section one_operation.
Context (N : Net D) (i : NodeId) (s : RaftNode * D) (got : option (NodeId * Z))
  (outs : list Output) (s' : RaftNode * D).
Context (Hinv : net_inv N) (Hs : nodes N !! i = Some s).
Context (He : effect got s outs s').
Context (Hgot : ∀ v t, got = Some (v, t) → v ∈ cluster ∧ voted (sent N) v t i).

Let S' : list (NodeId * Output) := sent N ++ map (pair i) outs.

Lemma kept_vote v t c : voted (sent N) v t c → voted S' v t c.
Proof. apply voted_mono. Qed.

Lemma member_i : i ∈ cluster.
Proof. rewrite <- (inv_dom _ Hinv). apply elem_of_dom. eauto. Qed.

Lemma node_i : node_inv (sent N) i s.
Proof. by apply (inv_node _ Hinv). Qed.

Lemma quorum_i : quorum s.1 = majority.
Proof.
  pose proof node_i as []. apply (quorum_majority _ i); auto.
  pose proof member_i as Hm. unfold cluster in Hm. by apply elem_of_list_to_set in Hm.
Qed.

Lemma new_vote v t c :
  voted S' v t c → voted (sent N) v t c ∨ (v = i ∧ disk_ballot s'.2 = (t, Some c)).
Proof.
  intros Hv. apply voted_app in Hv as [?|(-> & o & Ho & [[Hg <-]|[<- Hr]])]; [auto|right..];
    (split; [done|]).
  - by apply (eff_grant _ _ _ _ He).
  - by destruct (eff_request _ _ _ _ He _ _ _ Ho Hr) as [_ ?].
Qed.

Lemma disk_grows :
  ballot_le (disk_ballot s.2) (disk_ballot s'.2) ∧ ballot_le (disk_ballot s'.2) (ballot_of s'.1).
Proof. apply (eff_disk _ _ _ _ He). apply (ni_disk _ _ _ node_i). Qed.

Lemma votes_on_disk t c : voted S' i t c → ballot_le (t, Some c) (disk_ballot s'.2).
Proof.
  intros Hv. destruct (new_vote _ _ _ Hv) as [Ho|[_ ->]]; [|reflexivity].
  etrans; [by apply (ni_voted _ _ _ node_i)|apply disk_grows].
Qed.

Lemma votes_once v t c c' : voted S' v t c → voted S' v t c' → c = c'.
Proof.
  intros V1 V2. destruct (decide (v = i)) as [->|Hv].
  - assert (t = (disk_ballot s'.2).1 ∨ (voted (sent N) i t c ∧ voted (sent N) i t c')) as [E|[O1 O2]].
    { destruct (new_vote _ _ _ V1) as [O1|[_ E1]]; [|left; by rewrite E1].
      destruct (new_vote _ _ _ V2) as [O2|[_ E2]]; [auto|left; by rewrite E2]. }
    + apply (ballot_le_vote t c c' (disk_ballot s'.2)); auto using votes_on_disk.
    + by apply (inv_once _ Hinv i t).
  - destruct (new_vote _ _ _ V1) as [O1|[? _]], (new_vote _ _ _ V2) as [O2|[? _]]; try done.
    by apply (inv_once _ Hinv v t).
Qed.

(** The votes of a campaign are votes of members. *)
Lemma campaign_votes v :
  campaign got s.1 outs s'.1 → v ∈ votes s'.1 →
  v ∈ cluster ∧ (majority = 1 ∨ voted S' v (current_term s'.1) i).
Proof.
  pose proof node_i as []. intros [(Ht & Hr & Hv)|(Hv & Hq)] Hin.
  - rewrite Ht. destruct (Hv v Hin) as [Hold|Hg].
    + destruct (ni_votes0 Hr v Hold) as [? [?|?]]; auto using kept_vote.
    + destruct (Hgot _ _ Hg). auto using kept_vote.
  - rewrite Hv, elem_of_singleton in Hin. subst v. rewrite ni_id0. split; [apply member_i|].
    destruct Hq as [Hq|(o & Ho & Hq)]; [left; by rewrite <- quorum_i|].
    right. right. split; [done|]. rewrite ni_id0 in Hq. exists o. split; [|exact Hq].
    apply elem_of_app. right. by apply list_elem_of_fmap_2.
Qed.

Lemma wins_majority : wins s.1 s'.1 → majority ≤ Z.of_nat (size (votes s'.1)).
Proof.
  rewrite <- quorum_i. intros [(Hr & _ & ->)|Hq]; [|exact Hq].
  rewrite quorum_i. by apply (ni_leader _ _ _ node_i).
Qed.

Lemma wins_elected t l o :
  o ∈ outs → leader_of o = Some (t, l) → l = i ∧ elected S' t i.
Proof.
  intros Ho Hl. destruct (eff_lead _ _ _ _ He o t l Ho Hl) as (-> & -> & Hw & Hc).
  rewrite (ni_id _ _ _ node_i). split; [done|].
  destruct (decide (majority = 1)) as [|Hm]; [by left|right].
  exists (votes s'.1). split_and!.
  - intros v Hv. by destruct (campaign_votes v Hc Hv).
  - by apply wins_majority.
  - intros v Hv. destruct (campaign_votes v Hc Hv) as [_ [?|?]]; done.
Qed.

Lemma elected_mono t l : elected (sent N) t l → elected S' t l.
Proof.
  intros [?|(Q & ? & ? & Hv)]; [by left|right]. exists Q. split_and!; [done|done|].
  intros v Hin. by apply kept_vote, Hv.
Qed.

Lemma node_kept j sj :
  j ≠ i → nodes N !! j = Some sj → node_inv S' j sj.
Proof.
  intros Hj Hn. destruct (inv_node _ Hinv j sj Hn). constructor; auto.
  - intros t c Hv. destruct (new_vote _ _ _ Hv) as [?|[? _]]; [auto|done].
  - intros Hr v Hv. destruct (ni_votes0 Hr v Hv) as [? [?|?]]; auto using kept_vote.
Qed.

Lemma node_new : node_inv S' i s'.
Proof.
  pose proof node_i as []. pose proof He as []. constructor; unfold persistent in *; try congruence.
  - intros x. rewrite eff_peers. apply ni_peers0.
  - apply disk_grows.
  - intros Hf. apply eff_synced; auto.
  - apply votes_on_disk.
  - intros Hr v Hv. apply campaign_votes; auto.
  - intros Hr. apply wins_majority. auto.
Qed.

Lemma net_inv_op : net_inv (mkNet (<[i := s']> (nodes N)) S').
Proof.
  constructor; simpl.
  - rewrite dom_insert_L, (inv_dom _ Hinv). pose proof member_i. set_solver.
  - intros j sj. destruct (decide (j = i)) as [->|Hj].
    + rewrite lookup_insert_eq. intros [= <-]. apply node_new.
    + rewrite lookup_insert_ne by done. by apply node_kept.
  - intros v o Ho. apply elem_of_app in Ho as [Ho|Ho]; [by apply (inv_sent _ Hinv v o)|].
    apply list_elem_of_fmap in Ho as (o' & [= -> ->] & _). apply member_i.
  - apply votes_once.
  - intros l o t l' Ho Hl. apply elem_of_app in Ho as [Ho|Ho].
    + destruct (inv_lead _ Hinv _ _ _ _ Ho Hl). auto using elected_mono.
    + apply list_elem_of_fmap in Ho as (o' & [= -> ->] & Ho).
      destruct (wins_elected _ _ _ Ho Hl) as [-> ?]. done.
Qed.
End one_operation.

(** *** Starting a node from its disk *)
Lemma new_persistent_spec now i c path d n :
  new_persistent now i members c path d = inr n →
  node_id n = i ∧ NoDup (peers n) ∧ (∀ x, x ∈ peers n ↔ x ∈ members ∧ x ≠ i) ∧
  persistent (n, d) ∧ disk_ballot d = ballot_of n ∧ role n = Follower.
Proof.
  unfold new_persistent, disk_ballot. destruct (load_state d) as [|ld]; [done|].
  intros [= <-]. pose proof (from_stable_peers now i members c (Some path) (ld_state ld)) as [Hnd Hp].
  split_and!; done.
Qed.

Lemma net_inv_initial N : net_initial members N → net_inv N.
Proof.
  intros (Hd & Hs & Hn). constructor; rewrite ?Hs; try (intros; set_solver).
  - intros i [n d] Hi. destruct (Hn i n d Hi) as (now & c & path & E).
    destruct (new_persistent_spec _ _ _ _ _ _ E) as (? & ? & ? & ? & Hb & Hr).
    constructor; auto; try (simpl in *; congruence); simpl.
    + rewrite Hb. reflexivity.
    + intros t c' [(o & Ho & _)|(_ & o & Ho & _)]; inversion Ho.
  - intros v t c c' [(o & Ho & _)|(_ & o & Ho & _)]; inversion Ho.
Qed.

Lemma net_inv_step N N' : net_inv N → net_step members N N' → net_inv N'.
Proof.
  intros Hinv Hst. destruct Hst as [N i op s Hs Hdel|N i n d now c path n' Hs E].
  - pose proof (inv_node _ Hinv i s Hs) as Hni.
    destruct (exec_effect op s i N (ni_path _ _ _ Hni) Hdel) as (got & He & Hg).
    apply (net_inv_op N i s got _ _ Hinv Hs He).
    intros v t Hvt. destruct (Hg v t Hvt) as [Hv ?]. split; [|done].
    rewrite elem_of_list_to_set in Hv. apply list_elem_of_fmap in Hv as ([v' o] & -> & Ho).
    by apply (inv_sent _ Hinv v' o).
  - pose proof (inv_node _ Hinv i _ Hs) as Hni.
    destruct (new_persistent_spec _ _ _ _ _ _ E) as (? & ? & ? & ? & Hb & Hr).
    destruct Hinv as [Hdom Hnode Hsent Honce Hlead]. constructor; simpl; auto.
    + rewrite dom_insert_L, Hdom. assert (i ∈ cluster) by (rewrite <- Hdom; apply elem_of_dom; eauto).
      set_solver.
    + intros j sj. destruct (decide (j = i)) as [->|Hj];
        [|rewrite lookup_insert_ne by done; auto].
      rewrite lookup_insert_eq. intros [= <-].
      constructor; auto; try (simpl in *; congruence); simpl.
      * rewrite Hb. reflexivity.
      * intros t c' Hv. exact (ni_voted _ _ _ Hni t c' Hv).
Qed.

Lemma net_inv_reachable N : reachable members N → net_inv N.
Proof.
  intros (N0 & H0 & Hsteps). apply net_inv_initial in H0.
  induction Hsteps as [|N1 N2 N3 Hst _ IH]; [done|]. apply IH. by eapply net_inv_step.
Qed.

(** *** Two majorities meet *)
Lemma majorities_meet (Q1 Q2 : gset Z) :
  Q1 ⊆ cluster → Q2 ⊆ cluster → majority ≤ Z.of_nat (size Q1) → majority ≤ Z.of_nat (size Q2) →
  ∃ v, v ∈ Q1 ∧ v ∈ Q2.
Proof.
  intros H1 H2 M1 M2. destruct (decide (Q1 ∩ Q2 = ∅)) as [He|Hne].
  - exfalso. assert (size (Q1 ∪ Q2) ≤ size cluster)%nat by (apply subseteq_size; set_solver).
    rewrite size_union in * by set_solver. unfold majority in *. div_mod_lia.
  - apply set_choose_L in Hne as [v Hv]. exists v. set_solver.
Qed.

Lemma elected_once N t l l' :
  net_inv N → l ∈ cluster → l' ∈ cluster → elected (sent N) t l → elected (sent N) t l' → l = l'.
Proof.
  intros Hinv Hl Hl' E1 E2.
  destruct (decide (majority = 1)) as [Hm|Hm].
  - assert (size cluster ≤ 1)%nat as Hsz by (unfold majority in Hm; div_mod_lia).
    destruct (decide (l = l')) as [|Hne]; [done|]. exfalso.
    assert ({[l; l']} ⊆ cluster) as Hsub by set_solver. apply subseteq_size in Hsub.
    rewrite size_union, !size_singleton in Hsub by set_solver. lia.
  - destruct E1 as [|(Q1 & S1 & M1 & V1)], E2 as [|(Q2 & S2 & M2 & V2)]; try done.
    destruct (majorities_meet Q1 Q2) as (v & ? & ?); auto.
    apply (inv_once _ Hinv v t); auto.
Qed.

(** A leader was elected in its term. *)
Lemma leader_elected N i s :
  net_inv N → nodes N !! i = Some s → role s.1 = Leader →
  i ∈ cluster ∧ elected (sent N) (current_term s.1) i.
Proof.
  intros Hinv Hs Hr. pose proof (inv_node _ Hinv i s Hs) as [].
  split; [by apply (member_i N i s)|].
  destruct (decide (majority = 1)) as [|Hm]; [by left|right]. exists (votes s.1).
  assert (role s.1 ≠ Follower) as Hnf by congruence. split_and!; auto.
  - intros v Hv. by destruct (ni_votes0 Hnf v Hv).
  - intros v Hv. destruct (ni_votes0 Hnf v Hv) as [_ [?|?]]; done.
Qed.
End safety.
