(* ===== verification/RaftRun.v ===== *)
(** * Raft: executable runs

    A disk that keeps the last state written, with a script of faults; a
    scheduler that runs events of [RaftNet] by computation, with the proof that
    what it computes is reachable; and runs used by the theorems. *)

From S2P Require Import Prelude Raft RaftVotes RaftNet.

(** ** A disk with scripted faults *)

(** [faults] lists the fate of the next writes: [None] succeeds, [Some b] fails
    after ([b]) or before the state reached the disk.  Later writes succeed. *)
Record FaultyDisk := mkDisk { image : StableState; faults : list (option bool) }.

Definition faulty_persist (path : string) (s : RaftNode * FaultyDisk) :
    option string * (RaftNode * FaultyDisk) :=
  let '(n, d) := s in
  match faults d with
  | [] | None :: _ => (None, (n, mkDisk (stable_view n) (tail (faults d))))
  | Some written :: fs =>
      (Some "I/O", (n, mkDisk (if written then stable_view n else image d) fs))
  end.

#[export] Instance faulty_storage : Storage FaultyDisk := {
  persist_at := faulty_persist;
  load_state := λ d, inr (mkLoaded (image d) None 0);
}.

#[export] Instance faulty_storage_laws : StorageLaws FaultyDisk.
Proof.
  split; intros path [[] [im fs]]; simpl; (destruct fs as [|[[|]|] fs]; simpl; try done); eauto.
Qed.

(** ** Running events *)
Section run.
Context {D : Type} `{Storage D} (members : list NodeId).

(** An operation of node [i], other than a delivery. *)
Definition run_local (i : NodeId) (op : Op) (N : Net D) : Net D :=
  match op, nodes N !! i with
  | OpStep _ _, _ | _, None => N
  | _, Some s => run_op i op s N
  end.

(** Delivers the [k]-th message that was sent. *)
Definition run_deliver (k : nat) (N : Net D) : Net D :=
  match sent N !! k with
  | Some (from, o) =>
      match nodes N !! to o with
      | Some s => run_op (to o) (OpStep from (msg o)) s N
      | None => N
      end
  | None => N
  end.

(** Delivers the messages from the [k]-th on that the links [allow] let
    through, and those sent on the way. *)
Fixpoint pump (fuel k : nat) (allow : NodeId → NodeId → bool) (N : Net D) : Net D :=
  match fuel with
  | O => N
  | S fuel =>
      match sent N !! k with
      | None => N
      | Some (from, o) =>
          pump fuel (S k) allow (if allow from (to o) then run_deliver k N else N)
      end
  end.

Fixpoint ticks (count : nat) (i : NodeId) (N : Net D) : Net D :=
  match count with O => N | S count => ticks count i (run_local i OpTick N) end.

Lemma run_local_steps i op N : rtc (net_step members) N (run_local i op N).
Proof.
  unfold run_local. destruct op; try reflexivity;
    (destruct (nodes N !! i) eqn:E; [|reflexivity]); apply rtc_once; by apply net_op.
Qed.

Lemma run_deliver_steps k N : rtc (net_step members) N (run_deliver k N).
Proof.
  unfold run_deliver. destruct (sent N !! k) as [[from o]|] eqn:E; [|reflexivity].
  destruct (nodes N !! to o) eqn:En; [|reflexivity]. apply rtc_once, net_op; [done|].
  simpl. apply list_elem_of_lookup_2 in E. by destruct o.
Qed.

Lemma pump_steps fuel k allow N : rtc (net_step members) N (pump fuel k allow N).
Proof.
  revert k N. induction fuel as [|fuel IH]; intros k N; [reflexivity|]. simpl.
  destruct (sent N !! k) as [[from o]|]; [|reflexivity].
  etrans; [|apply IH]. destruct (allow from (to o)); [apply run_deliver_steps|reflexivity].
Qed.

Lemma ticks_steps count i N : rtc (net_step members) N (ticks count i N).
Proof.
  revert N. induction count as [|count IH]; intros N; [reflexivity|]. simpl.
  etrans; [apply (run_local_steps i OpTick)|apply IH].
Qed.
End run.

(** ** A run in which a committed entry is lost

    Five nodes.  Node 1 leads term 1; its entry at index 2 reaches nodes 2 and 5
    and is committed; nodes 1 and 2 apply it and compact their logs to nothing.
    Node 3, which has only the first entry, then asks for votes. *)
Definition five : list NodeId := [1; 2; 3; 4; 5].
Definition blank : FaultyDisk := mkDisk StableState_default [].

Definition start (i : NodeId) : RaftNode * FaultyDisk :=
  match new_persistent 0 i five Config_default "raft.state" blank with
  | inr n => (n, blank)
  | inl _ => (from_stable 0 i five Config_default None StableState_default, blank)
  end.

Definition five_started : Net FaultyDisk :=
  mkNet (list_to_map (map (λ i, (i, start i)) five)) [].

(** The links between the nodes of [l]. *)
Definition among (l : list Z) (a b : NodeId) : bool := existsb (Z.eqb a) l && existsb (Z.eqb b) l.

Definition phase (l : list Z) (N : Net FaultyDisk) (act : Net FaultyDisk → Net FaultyDisk) : Net FaultyDisk :=
  pump 200 (length (sent N)) (among l) (act N).

Definition lost_1 : Net FaultyDisk := phase five five_started (ticks 19 1).
Definition lost_2 : Net FaultyDisk :=
  phase [1; 2; 5] lost_1 (λ N, run_local 1 OpReplicate (run_local 1 (OpPropose [[42]]) N)).
Definition lost_3 : Net FaultyDisk := phase [1; 2] lost_2 (run_local 1 OpReplicate).
Definition apply_and_compact (i : NodeId) (N : Net FaultyDisk) : Net FaultyDisk :=
  run_local i (OpCompact [7]) (run_local i (OpApplied 1 2) N).
Definition lost_4 : Net FaultyDisk := apply_and_compact 2 (apply_and_compact 1 lost_3).
Definition lost_5 : Net FaultyDisk := pump 20 (length (sent lost_4)) (among [1; 2; 3]) (ticks 18 3 lost_4).
Definition lost_6 : Net FaultyDisk := pump 20 (length (sent lost_5)) (among [3; 4; 5]) (run_local 3 OpReplicate lost_5).

Lemma phase_steps l N act :
  rtc (net_step five) N (act N) → rtc (net_step five) N (phase l N act).
Proof. intros Hact. unfold phase. etrans; [exact Hact|apply pump_steps]. Qed.

Lemma apply_and_compact_steps i N : rtc (net_step five) N (apply_and_compact i N).
Proof.
  unfold apply_and_compact. etrans; [apply (run_local_steps five i (OpApplied 1 2))|].
  apply (run_local_steps five i (OpCompact [7])).
Qed.

Lemma five_started_initial : net_initial five five_started.
Proof.
  split_and!; [by vm_compute|done|]. intros i n d. unfold five_started.
  change (nodes _) with (list_to_map (map (λ i, (i, start i)) five) : gmap Z (RaftNode * FaultyDisk)).
  intros Hi. apply elem_of_list_to_map_2, list_elem_of_fmap in Hi as (j & [= <- Hs] & _).
  exists 0, Config_default, "raft.state". by subst.
Qed.

Lemma lost_1_steps : rtc (net_step five) five_started lost_1.
Proof. unfold lost_1. apply phase_steps, ticks_steps. Qed.

Lemma lost_2_steps : rtc (net_step five) lost_1 lost_2.
Proof.
  unfold lost_2. generalize lost_1. intros N. apply phase_steps.
  etrans; [apply (run_local_steps five 1 (OpPropose [[42]]))|apply (run_local_steps five 1 OpReplicate)].
Qed.

Lemma lost_3_reachable : reachable five lost_3.
Proof.
  exists five_started. split; [apply five_started_initial|].
  etrans; [apply lost_1_steps|]. etrans; [apply lost_2_steps|].
  unfold lost_3. generalize lost_2. intros N. apply phase_steps, (run_local_steps five 1 OpReplicate).
Qed.

Lemma lost_4_steps : rtc (net_step five) lost_3 lost_4.
Proof.
  unfold lost_4. generalize lost_3. intros N.
  etrans; [apply (apply_and_compact_steps 1)|apply (apply_and_compact_steps 2)].
Qed.

Lemma lost_6_steps : rtc (net_step five) lost_3 lost_6.
Proof.
  etrans; [apply lost_4_steps|]. trans lost_5.
  - unfold lost_5. generalize lost_4. intros N. etrans; [apply (ticks_steps five 18 3)|apply pump_steps].
  - unfold lost_6. generalize lost_5. intros N.
    etrans; [apply (run_local_steps five 3 OpReplicate)|apply pump_steps].
Qed.

(** ** Runs of one node that receives messages *)
Fixpoint feed (msgs : list (NodeId * Msg)) (s : RaftNode * FaultyDisk) : RaftNode * FaultyDisk :=
  match msgs with
  | [] => s
  | (from, m) :: msgs => feed msgs (step from m s).2
  end.

Fixpoint tick_times (count : nat) (s : RaftNode * FaultyDisk) : RaftNode * FaultyDisk :=
  match count with O => s | S count => tick_times count (tick s).2 end.

(** Votes of nodes 2 and 3 for node 1 in term [t]. *)
Definition votes_of_2_and_3 (t : Z) : list (NodeId * Msg) :=
  [(2, RequestVoteResp t true); (3, RequestVoteResp t true)].

Definition old_entries : list LogEntry := map (λ i, mkLogEntry 1 i [0]) [1; 2; 3; 4; 5].
