(* ===== verification/RaftLog.v ===== *)
(** * Raft: the log of one node, applying entries and the election timer

    The invariant of a node's log ([log_ok]): indices without gaps above the
    snapshot, [snapshot <= applied <= committed <= last].  Every operation but
    the installation of a snapshot keeps it, never moves the commit index back
    and never changes an entry at or below it ([grows]). *)

From S2P Require Import Prelude Raft RaftVotes RaftNet.

(** The entry at an index, [None] when it is not in the log. *)
Definition entry_at (n : RaftNode) (i : Z) : option LogEntry := get (log n) (i - snapshot_index n - 1).

Record log_ok (n : RaftNode) : Prop := mkLogOk {
  lo_index : ∀ k e, log n !! k = Some e → e_index e = snapshot_index n + Z.of_nat k + 1;
  lo_base : 0 ≤ snapshot_index n ≤ last_applied n;
  lo_applied : last_applied n ≤ commit_index n;
  lo_commit : commit_index n ≤ snapshot_index n + zlen (log n);
}.

Record grows (n n' : RaftNode) : Prop := mkGrows {
  gr_ok : log_ok n';
  gr_base : snapshot_index n ≤ snapshot_index n';
  gr_commit : commit_index n ≤ commit_index n';
  gr_keep : ∀ i, snapshot_index n' < i ≤ commit_index n → entry_at n' i = entry_at n i;
}.

Lemma grows_trans n1 n2 n3 : grows n1 n2 → grows n2 n3 → grows n1 n3.
Proof.
  intros [] []. constructor; [done|lia|lia|]. intros i Hi. rewrite gr_keep1, gr_keep0; [done|lia|lia].
Qed.

(** Nodes with the same log, snapshot and indices. *)
Record same_log (n n' : RaftNode) : Prop := mkSameLog {
  sl_log : log n' = log n;
  sl_snapshot : snapshot n' = snapshot n;
  sl_commit : commit_index n' = commit_index n;
  sl_applied : last_applied n' = last_applied n;
}.

#[export] Instance same_log_preorder : PreOrder same_log.
Proof. split; [by constructor|]. intros a b c [] []. constructor; congruence. Qed.

Ltac same_log_fields := constructor; reflexivity.

Lemma same_log_grows n n' : log_ok n → same_log n n' → grows n n'.
Proof.
  intros [] []. assert (snapshot_index n' = snapshot_index n) as E by (unfold snapshot_index; congruence).
  constructor; [constructor| | |]; unfold entry_at; rewrite ?sl_log0, ?sl_commit0, ?sl_applied0, ?E in *; auto; lia.
Qed.

Lemma grows_refl n : log_ok n → grows n n.
Proof. intros Hn. by apply same_log_grows. Qed.

(** The snapshot of a node does not depend on its other fields. *)
Ltac same_base := repeat match goal with
  | |- context [snapshot_index (?f ?x ?n)] => change (snapshot_index (f x n)) with (snapshot_index n)
  end.

(** A node with another commit index. *)
Lemma commit_grows n c :
  log_ok n → commit_index n ≤ c ≤ snapshot_index n + zlen (log n) → grows n (set_commit_index c n).
Proof. intros [] Hc. constructor; [constructor| | |]; same_base; simpl; auto; lia. Qed.

Lemma last_index_ok n : log_ok n → last_index n = snapshot_index n + zlen (log n).
Proof.
  intros []. unfold last_index. destruct (last (log n)) as [e|] eqn:El.
  - rewrite last_lookup in El. rewrite (lo_index0 _ _ El).
    assert (log n ≠ []) as Hne by (intros E; by rewrite E in El).
    unfold zlen. destruct (log n); [done|]. simpl. lia.
  - apply last_None in El. rewrite El. unfold zlen. simpl. lia.
Qed.

(** *** Appending and cutting *)
Lemma append_grows n e :
  log_ok n → e_index e = snapshot_index n + zlen (log n) + 1 → grows n (set_log (log n ++ [e]) n).
Proof.
  intros [] He. constructor; [constructor| | |]; simpl; auto; try lia.
  - intros k x Hk. same_base.
    destruct (decide (k < length (log n))%nat) as [Hlt|Hge].
    + rewrite lookup_app_l in Hk by done. auto.
    + rewrite lookup_app_r in Hk by lia. apply list_lookup_singleton_Some in Hk as [E <-].
      rewrite He. unfold zlen. lia.
  - same_base.
    rewrite zlen_app. pose proof (zlen_nonneg [e]). lia.
  - same_base. lia.
  - same_base.
    intros i Hi. unfold entry_at. simpl. apply get_app_l.
    same_base. lia.
Qed.

(** The log is cut at [offset], above the commit index. *)
Lemma cut_grows n offset :
  log_ok n → 0 ≤ offset ≤ zlen (log n) → commit_index n ≤ snapshot_index n + offset →
  grows n (set_log (take (Z.to_nat offset) (log n)) n).
Proof.
  intros [] Ho Hc. set (n' := set_log _ n).
  assert (snapshot_index n' = snapshot_index n) as E by done.
  assert (zlen (log n') = offset) as El.
  { unfold n', zlen. simpl. rewrite length_take. unfold zlen in Ho. lia. }
  constructor; [constructor| | |]; rewrite ?E, ?El; auto; try (simpl; lia).
  - intros k e Hk. apply lookup_take_Some in Hk as [Hk _]. auto.
  - intros i Hi. unfold entry_at, n'. simpl. same_base. unfold get. case_match; [done|].
    apply lookup_take_lt. lia.
Qed.

Lemma append_all_grows n es :
  log_ok n → (∀ k e, es !! k = Some e → e_index e = snapshot_index n + zlen (log n) + Z.of_nat k + 1) →
  grows n (set_log (log n ++ es) n).
Proof.
  revert n. induction es as [|e es IH]; intros n Hn He.
  - rewrite app_nil_r. apply same_log_grows; [done|same_log_fields].
  - assert (grows n (set_log (log n ++ [e]) n)) as Hg.
    { apply append_grows; [done|]. rewrite (He 0%nat e); [lia|done]. }
    replace (log n ++ e :: es) with ((log n ++ [e]) ++ es) by (by rewrite <- app_assoc).
    eapply grows_trans; [exact Hg|].
    apply (IH (set_log (log n ++ [e]) n)); [apply Hg|]. intros k x Hk.
    rewrite (He (S k) x Hk). simpl. rewrite zlen_app. change (zlen [e]) with 1.
    same_base. lia.
Qed.

(** *** Commitment *)
Lemma advance_loop_grows count index n :
  log_ok n → index ≤ snapshot_index n + zlen (log n) → commit_index n + Z.of_nat count ≤ index ∨ commit_index n < index - Z.of_nat count + 1 →
  grows n (advance_loop count index n).
Proof.
  intros Hn. revert index. induction count as [|count IH]; intros index Hi Hc; [by apply grows_refl|]. simpl.
  case_match; [apply IH; lia|]. case_match; [|apply IH; lia].
  apply commit_grows; [done|lia].
Qed.

Lemma advance_commit_grows n : log_ok n → commit_index n < USIZE_MAX → grows n (advance_commit n).
Proof.
  intros Hn Hm. unfold advance_commit. rewrite (last_index_ok n Hn).
  assert (saturating_add (commit_index n) 1 = commit_index n + 1) as -> by (unfold saturating_add; lia).
  destruct (decide (snapshot_index n + zlen (log n) ≤ commit_index n)) as [Hle|Hgt].
  - replace (Z.to_nat _) with 0%nat by lia. by apply grows_refl.
  - apply advance_loop_grows; [done|lia|]. right. lia.
Qed.

(** ** The operations *)

(** The next index is a machine integer. *)
Definition room (n : RaftNode) : Prop := snapshot_index n + zlen (log n) < USIZE_MAX.

Lemma room_commit n : log_ok n → room n → commit_index n < USIZE_MAX.
Proof. intros [] Hr. unfold room in Hr. lia. Qed.

Create HintDb same_log discriminated.
#[export] Hint Extern 1 (same_log _ _) => same_log_fields : same_log.

Lemma same_log_drop_other l t n : same_log n (drop_other_incoming l t n).
Proof. unfold drop_other_incoming. repeat case_match; same_log_fields. Qed.

Lemma batch_entries_index term datas : ∀ first k e,
  batch_entries term first datas !! k = Some e → e_index e = first + Z.of_nat k.
Proof.
  induction datas as [|x datas IH]; intros first k e; [done|]. destruct k as [|k]; simpl.
  - intros [= <-]. simpl. lia.
  - intros Hk. rewrite (IH _ _ _ Hk). lia.
Qed.

(** The loop of [handle_append]: entries at or below the commit index stay. *)
Lemma append_loop_grows es n changed :
  log_ok n → room n → grows n (appended_node (append_loop es (snapshot_index n) n changed)).
Proof.
  intros Hn Hr. set (base := snapshot_index n).
  assert (saturating_add base 1 = base + 1) as Hb.
  { unfold saturating_add. unfold room in Hr. pose proof (zlen_nonneg (log n)). lia. }
  assert (∀ m c, grows n m → snapshot_index m = base → grows n (appended_node (append_loop es base m c))) as Hgen;
    [|by apply Hgen; [apply grows_refl|]].
  clear Hr changed. induction es as [|e es IH]; intros m c Hg Hm; [done|]. simpl. rewrite Hb.
  destruct (checked_sub (e_index e) (base + 1)) as [offset|] eqn:Ec; [|done].
  assert (offset = e_index e - (base + 1) ∧ 0 ≤ offset) as [-> Ho].
  { unfold checked_sub in Ec. case_match eqn:El; [|done]. apply Z.leb_le in El. injection Ec as <-. lia. }
  set (offset := e_index e - (base + 1)) in *. pose proof (gr_ok _ _ Hg) as Hmok.
  destruct (get (log m) offset) as [mine|] eqn:Eg.
  - case_match; [|by apply IH]. case_match eqn:Ecm; simpl.
    { eapply grows_trans; [exact Hg|]. apply same_log_grows; [done|same_log_fields]. }
    apply Z.leb_gt in Ecm. apply get_Some_lt in Eg. apply IH; [|done].
    eapply grows_trans; [exact Hg|].
    assert (grows m (set_log (take (Z.to_nat offset) (log m)) m)) as Hcut.
    { apply cut_grows; [done|lia|]. rewrite Hm. unfold offset. lia. }
    eapply grows_trans; [exact Hcut|].
    set (m' := set_log (take (Z.to_nat offset) (log m)) m) in *.
    assert (grows m' (set_log (log m' ++ [e]) m')) as Happ.
    { apply append_grows; [apply Hcut|]. change (snapshot_index m') with (snapshot_index m). rewrite Hm.
      unfold m', zlen. simpl. rewrite length_take. unfold zlen in Eg. unfold offset in *. lia. }
    eapply grows_trans; [exact Happ|]. apply same_log_grows; [apply Happ|same_log_fields].
  - case_match eqn:Eo; [|done]. apply Z.eqb_eq in Eo. apply IH; [|done].
    eapply grows_trans; [exact Hg|]. apply append_grows; [done|]. rewrite Hm. unfold offset in Eo. lia.
Qed.

Lemma append_loop_base es base n changed :
  snapshot_index (appended_node (append_loop es base n changed)) = snapshot_index n.
Proof.
  revert n changed. induction es as [|e es IH]; intros n changed; [done|]. simpl.
  repeat case_match; simpl; try done; by rewrite IH.
Qed.

Section operations.
Context {D : Type} `{Storage D} `{!StorageLaws D}.
Implicit Types (n : RaftNode) (d : D) (s : RaftNode * D).

Lemma persist_same_log n d ok n' d' : persist (n, d) = (ok, (n', d')) → same_log n n'.
Proof.
  unfold persist. simpl. destruct (storage_path n) as [path|]; [|by intros [= <- <- <-]].
  pose proof (persist_at_node path (n, d)) as Hn.
  destruct (persist_at path (n, d)) as [[e|] [n1 d1]]; simpl in *; intros [= <- <- <-];
    rewrite Hn; same_log_fields.
Qed.

Definition log_step s s' : Prop := log_ok s.1 → room s.1 → grows s.1 s'.1.

(** A change of the node, a write and a change of other fields. *)
Lemma persist_grows n n1 d ok n' d' n2 :
  grows n n1 → persist (n1, d) = (ok, (n', d')) → same_log n' n2 → grows n n2.
Proof.
  intros Hg E Hs. eapply grows_trans; [exact Hg|]. apply same_log_grows; [apply Hg|].
  etrans; [by eapply persist_same_log|exact Hs].
Qed.

Ltac persist_case := match goal with
  | |- context [persist (?n, ?d)] => let ok := fresh "ok" in let n' := fresh "n'" in
      let d' := fresh "d'" in let E := fresh "E" in
      destruct (persist (n, d)) as [ok [n' d']] eqn:E
  end.
(** A branch that leaves the log alone. *)
Ltac log_kept := simpl; apply same_log_grows; [assumption|auto with same_log; reflexivity].

Lemma propose_batch_log datas s : log_step s (propose_batch datas s).2.
Proof.
  destruct s as [n d]. intros Hn Hr. unfold propose_batch.
  repeat (case_match; [log_kept; fail|]).
  destruct (checked_add (last_index n) 1) as [first|] eqn:Ef; [|log_kept].
  apply checked_add_Some in Ef as [-> _]. rewrite (last_index_ok n Hn) in *.
  case_match; [|log_kept].
  match goal with |- context [advance_commit (set_log (log n ++ ?es) n)] => set (es' := es) end.
  assert (grows n (set_log (log n ++ es') n)) as Hg.
  { apply append_all_grows; [done|]. intros k e Hk. unfold es' in Hk.
    rewrite (batch_entries_index _ _ _ _ _ Hk). lia. }
  persist_case. apply (persist_grows n (advance_commit (set_log (log n ++ es') n)) d ok n' d');
    [|exact E|case_match; reflexivity].
  eapply grows_trans; [exact Hg|]. apply advance_commit_grows; [apply Hg|].
  change (commit_index n < USIZE_MAX). by apply room_commit.
Qed.

Lemma compact_log data s : log_step s (compact data s).2.
Proof.
  destruct s as [n d]. intros Hn Hr. unfold compact.
  case_match; [log_kept|]. case_match eqn:Ei; [log_kept|]. case_match; [log_kept|].
  case_match eqn:El; [log_kept|]. apply orb_false_elim in Ei as [Ei1 Ei2].
  apply Z.leb_gt in Ei1. apply Z.ltb_ge in Ei2, El. persist_case.
  eapply persist_grows; [|exact E|case_match; reflexivity].
  pose proof Hn as []. simpl in *. set (r := last_applied n - snapshot_index n) in *.
  constructor; [constructor| | |]; simpl.
  - intros k e Hk. rewrite lookup_drop in Hk. rewrite (lo_index0 _ _ Hk). unfold snapshot_index at 2. simpl. lia.
  - unfold snapshot_index. simpl. lia.
  - lia.
  - unfold snapshot_index at 1. simpl. unfold zlen in *. rewrite length_drop. lia.
  - unfold snapshot_index at 2. simpl. lia.
  - lia.
  - intros i Hi. unfold entry_at. simpl. unfold snapshot_index at 1 in Hi. simpl in Hi.
    unfold snapshot_index at 1. simpl. unfold get. repeat case_match; bool_prop; try lia.
    rewrite lookup_drop. f_equal. lia.
Qed.

Lemma mark_applied_batch_log a b s : log_step s (mark_applied_batch a b s).2.
Proof.
  destruct s as [n d]. intros Hn Hr. unfold mark_applied_batch.
  case_match eqn:Eg; [log_kept|]. bool_prop. persist_case.
  eapply persist_grows; [|exact E|case_match; reflexivity]. pose proof Hn as []. simpl in *.
  assert (last_applied n ≤ b). { unfold saturating_add, room in *. lia. }
  constructor; [constructor| | |]; same_base; simpl; auto; try lia.
Qed.

Lemma next_boot_session_log now s : log_step s (next_boot_session now s).2.
Proof.
  destruct s as [n d]. intros Hn Hr. unfold next_boot_session. case_match; [|log_kept].
  persist_case. eapply persist_grows; [|exact E|case_match; reflexivity].
  apply same_log_grows; [done|same_log_fields].
Qed.

Lemma become_leader_log s : log_step s (become_leader s).
Proof.
  destruct s as [n d]. intros Hn Hr. unfold become_leader. set (n1 := set_heartbeat_elapsed _ _).
  assert (same_log n n1) as Hs by same_log_fields.
  case_match; [log_kept|]. destruct (checked_add (last_index n1) 1) as [i|] eqn:Ei; [|log_kept].
  apply checked_add_Some in Ei as [-> _].
  assert (grows n n1) as Hg1 by (by apply same_log_grows).
  match goal with |- context [advance_commit (set_log (log n1 ++ [?x]) n1)] => set (e := x) end.
  assert (grows n1 (set_log (log n1 ++ [e]) n1)) as Hg2.
  { apply append_grows; [apply Hg1|]. unfold e. simpl. by rewrite (last_index_ok n1 (gr_ok _ _ Hg1)). }
  persist_case. eapply persist_grows; [|exact E|case_match; [same_log_fields|reflexivity]].
  eapply grows_trans; [exact Hg1|]. eapply grows_trans; [exact Hg2|].
  apply advance_commit_grows; [apply Hg2|]. change (commit_index n < USIZE_MAX). by apply room_commit.
Qed.

(** Elections change the log only in [become_leader]. *)
Lemma after_same_log n n1 d s' : same_log n n1 → log_step (n1, d) s' → log_step (n, d) s'.
Proof.
  intros Hs Hstep Hn Hr. simpl in *. pose proof (same_log_grows n n1 Hn Hs) as Hg.
  eapply grows_trans; [exact Hg|]. apply Hstep; [apply Hg|]. destruct Hs.
  unfold room, snapshot_index in *. simpl in *. by rewrite sl_log0, sl_snapshot0.
Qed.

Lemma same_log_step n n1 (d d' : D) : same_log n n1 → log_step (n, d) (n1, d').
Proof. intros Hs Hn _. by apply same_log_grows. Qed.

Lemma start_election_log s : log_step s (start_election s).2.
Proof.
  destruct s as [n d]. unfold start_election.
  case_match; [|by apply same_log_step; same_log_fields].
  persist_case. apply persist_same_log in E.
  assert (same_log n n') as Hs by (etrans; [|exact E]; same_log_fields).
  case_match; [by apply same_log_step|]. case_match; [|by apply same_log_step].
  pose proof (become_leader_log (n', d')) as Hb. destruct (become_leader (n', d')) as [n2 d2].
  by apply (after_same_log n n' d' (n2, d2)) in Hb.
Qed.

Lemma tick_log s : log_step s (tick s).2.
Proof.
  destruct s as [n d]. unfold tick. case_match; [by apply same_log_step|].
  repeat case_match; try (apply same_log_step; same_log_fields);
    (eapply after_same_log; [|apply start_election_log]; same_log_fields).
Qed.

Lemma handle_append_log t l pi pt es c s : log_step s (handle_append t l pi pt es c s).2.
Proof.
  destruct s as [n d]. intros Hn Hr. unfold handle_append.
  repeat (case_match; [log_kept; fail|]).
  set (n1 := follow l (drop_other_incoming l t n)).
  assert (same_log n n1) as Hs by (etrans; [apply same_log_drop_other|same_log_fields]).
  pose proof (same_log_grows n n1 Hn Hs) as Hg1.
  repeat (case_match; [exact Hg1|]).
  assert (room n1) as Hr1.
  { destruct Hs. unfold room, snapshot_index in *. by rewrite sl_log0, sl_snapshot0. }
  pose proof (append_loop_grows es n1 false (gr_ok _ _ Hg1) Hr1) as Hg2.
  destruct (append_loop _ _ _ _) as [n2 changed|n2|n2]; simpl in Hg2;
    assert (grows n n2) as Hg3 by (by eapply grows_trans); [|exact Hg3..].
  pose proof (gr_ok _ _ Hg3) as Hn2.
  case_match; [eapply grows_trans; [exact Hg3|]; simpl; apply same_log_grows; [done|same_log_fields]|].
  set (n3 := if commit_index n2 <? c then _ else _).
  assert (grows n n3) as Hg4.
  { eapply grows_trans; [exact Hg3|]. unfold n3. case_match; [|by apply grows_refl]. bool_prop.
    apply commit_grows; [done|]. rewrite (last_index_ok n2 Hn2). pose proof (lo_commit n2 Hn2). lia. }
  destruct changed; [persist_case|exact Hg4].
  eapply persist_grows; [exact Hg4|exact E|destruct ok; reflexivity].
Qed.

(** A leader that records what a peer holds may commit. *)
Lemma recorded_log n n1 (d d' : D) :
  same_log n n1 → log_step (n, d) (advance_commit n1, d').
Proof.
  intros Hs Hn Hr. pose proof (same_log_grows n n1 Hn Hs) as Hg. eapply grows_trans; [exact Hg|].
  apply advance_commit_grows; [apply Hg|]. rewrite (sl_commit _ _ Hs). by apply room_commit.
Qed.

Lemma handle_append_resp_log from t ok i s : log_step s (handle_append_resp from t ok i s).2.
Proof.
  destruct s as [n d]. unfold handle_append_resp.
  case_match; [by apply same_log_step|].
  case_match; [apply recorded_log; same_log_fields|apply same_log_step; same_log_fields].
Qed.

Lemma handle_install_snapshot_log t l li lt o data dn s :
  log_step s (handle_install_snapshot t l li lt o data dn s).2.
Proof.
  destruct s as [n d]. unfold handle_install_snapshot.
  repeat case_match; apply same_log_step; same_log_fields.
Qed.

Lemma handle_install_snapshot_resp_log from t li o ok s :
  log_step s (handle_install_snapshot_resp from t li o ok s).2.
Proof.
  destruct s as [n d]. unfold handle_install_snapshot_resp.
  repeat (case_match; try (apply same_log_step; same_log_fields; fail)); apply recorded_log; same_log_fields.
Qed.

Lemma handle_request_vote_log t c li lt s : log_step s (handle_request_vote t c li lt s).2.
Proof.
  destruct s as [n d]. unfold handle_request_vote. case_match; [|by apply same_log_step].
  persist_case. apply persist_same_log in E.
  destruct ok; apply (same_log_step n n' d d'); (etrans; [|exact E]; same_log_fields).
Qed.

Lemma handle_vote_resp_log from t g s : log_step s (handle_vote_resp from t g s).2.
Proof.
  destruct s as [n d]. unfold handle_vote_resp. case_match; [by apply same_log_step|].
  destruct g; [|by apply same_log_step]. case_match; [|apply same_log_step; same_log_fields].
  set (n1 := set_votes _ _). pose proof (become_leader_log (n1, d)) as Hb.
  destruct (become_leader (n1, d)) as [n2 d2].
  apply (after_same_log n n1 d (n2, d2)); [same_log_fields|exact Hb].
Qed.

Lemma step_log from m s : log_step s (step from m s).2.
Proof.
  destruct s as [n d]. unfold step. case_match; [by apply same_log_step|].
  case_match; [by apply same_log_step|].
  assert (same_log n (observe_term (msg_term m) (n, d)).2.1) as Hs.
  { unfold observe_term. case_match; [|done]. persist_case. apply persist_same_log in E.
    etrans; [|exact E]. same_log_fields. }
  destruct (observe_term (msg_term m) (n, d)) as [ok [n1 d1]]. simpl in Hs.
  case_match; [|by apply same_log_step].
  apply (after_same_log n n1 d1 _ Hs). destruct m; unfold handle.
  - apply handle_request_vote_log.
  - apply handle_vote_resp_log.
  - apply handle_append_log.
  - apply handle_append_resp_log.
  - apply handle_install_snapshot_log.
  - apply handle_install_snapshot_resp_log.
Qed.

Lemma force_replicate_log s : log_step s (force_replicate s).2.
Proof. destruct s as [n d]. unfold force_replicate. case_match; apply same_log_step; same_log_fields. Qed.

(** Installing a snapshot replaces the log. *)
Definition keeps_log (op : Op) : Prop := match op with OpInstall _ => False | _ => True end.

Lemma exec_log op s : keeps_log op → log_step s (exec op s).2.
Proof.
  destruct op; simpl; intros Hk; try done.
  - apply tick_log.
  - apply step_log.
  - apply force_replicate_log.
  - apply propose_batch_log.
  - apply compact_log.
  - apply mark_applied_batch_log.
  - apply next_boot_session_log.
  - destruct s as [n d]. apply same_log_step. same_log_fields.
Qed.
End operations.

(** * Raft: applying entries and the election timer *)

Section apply.
Context {D : Type} `{Storage D} `{!StorageLaws D}.

Lemma next_committed_batch_range n limit :
  log_ok n → room n → 0 < limit →
  next_committed_batch n limit =
    take (Z.to_nat (Z.min limit (commit_index n - last_applied n)))
      (drop (Z.to_nat (last_applied n - snapshot_index n)) (log n)).
Proof.
  intros [] Hr Hl. unfold room in Hr. unfold next_committed_batch.
  case_match eqn:E.
  - apply orb_prop in E as [E|E]; bool_prop; [lia|].
    assert (Z.to_nat (Z.min limit (commit_index n - last_applied n)) = 0%nat) as -> by lia. done.
  - bool_prop. unfold saturating_sub, saturating_add. rewrite Z.max_r by lia.
    rewrite (Z.min_r USIZE_MAX) by lia.
    unfold get_range. rewrite (proj2 (andb_true_iff _ _)); [simpl; do 2 f_equal; lia|].
    rewrite andb_true_iff, !Z.leb_le. lia.
Qed.

Lemma apply_in_order_lemma n (d : D) limit :
  log_ok n → room n → 0 < limit →
  let es := next_committed_batch n limit in
  let first := last_applied n + 1 in
  let last_ := last_applied n + zlen es in
  zlen es = Z.min limit (commit_index n - last_applied n) ∧
  (∀ k e, es !! k = Some e → e_index e = first + Z.of_nat k ∧ entry_at n (first + Z.of_nat k) = Some e) ∧
  (es ≠ [] → last_applied (mark_applied_batch first last_ (n, d)).2.1 = last_).
Proof.
  intros Hn Hr Hl. pose proof (next_committed_batch_range n limit Hn Hr Hl) as E.
  set (es := next_committed_batch n limit) in *. cbv zeta. pose proof Hn as [].
  assert (zlen es = Z.min limit (commit_index n - last_applied n)) as Hlen.
  { rewrite E. unfold zlen in *. rewrite length_take, length_drop. lia. }
  split_and!; [done| |].
  - intros k e Hk. rewrite E in Hk. apply lookup_take_Some in Hk as [Hk _]. rewrite lookup_drop in Hk.
    split; [rewrite (lo_index0 _ _ Hk); lia|].
    unfold entry_at, get. case_match eqn:Ez; bool_prop; [lia|]. rewrite <- Hk. f_equal. lia.
  - intros Hne. assert (0 < zlen es) by (destruct es; [done|rewrite zlen_cons; pose proof (zlen_nonneg es); lia]).
    unfold room in Hr. unfold mark_applied_batch, saturating_add. rewrite Z.min_r by lia.
    case_match eqn:Eg.
    { exfalso. rewrite Z.eqb_refl in Eg. simpl in Eg. apply orb_prop in Eg as [Eg|Eg]; bool_prop; lia. }
    destruct (persist _) as [ok [n' d']] eqn:Ep. apply persist_same_log in Ep.
    destruct ok; simpl; by rewrite (sl_applied _ _ Ep).
Qed.
End apply.

Section timer.
Context {D : Type} `{Storage D} `{!StorageLaws D}.

Definition timer_ok (n : RaftNode) : Prop :=
  0 ≤ election_elapsed n ∧ election_timeout n ≤ election_timeout_ceiling n ∧
  1 ≤ election_timeout_ceiling n ≤ U32_MAX.

(** Resetting the timeout keeps it below the ceiling. *)
Lemma reset_timer_ok n : election_base (cfg n) ≤ U32_MAX → timer_ok (reset_election_timeout n).
Proof.
  intros Hb. unfold timer_ok, election_timeout_ceiling, U32_MAX in *. simpl.
  pose proof (Z.mod_pos_bound (if xorshift (rng_state n) =? 0 then Z.lxor 11562461410679940143 (node_id n)
              else xorshift (rng_state n)) (Z.max (election_base (cfg n)) 2) ltac:(lia)).
  unfold U32_MAX. lia.
Qed.

Fixpoint tick_n (k : nat) (s : RaftNode * D) : RaftNode * D :=
  match k with O => s | S k => tick_n k (tick s).2 end.

Lemma start_election_term n (d : D) :
  storage_path n ≠ None →
  let n' := (start_election (n, d)).2.1 in current_term n' = current_term n + 1 ∨ fatal n' ≠ None.
Proof.
  intros Hp. unfold start_election. destruct (checked_add (current_term n) 1) as [t|] eqn:Et; [|by right].
  apply checked_add_Some in Et as [-> _]. set (n1 := reset_election_timeout _).
  destruct (persist (n1, d)) as [ok [n2 d2]] eqn:E.
  assert (storage_path n1 ≠ None) as Hp1 by done.
  destruct (persist_spec _ _ _ _ _ Hp1 E) as [[] _].
  assert (current_term n2 = current_term n + 1) as Ht by (injection quiet_ballot; auto).
  destruct ok; [|by left]. simpl. case_match; [|by left].
  destruct (become_leader (n2, d2)) as [n3 d3] eqn:Eb. simpl.
  assert (storage_path n2 ≠ None) as Hp2 by (rewrite quiet_path; done).
  destruct (become_leader_spec _ _ _ _ Hp2 Eb) as [[] _].
  left. injection steady_ballot as Ht3 _. congruence.
Qed.

(** A node that is no leader, one tick later. *)
Definition waited (n : RaftNode) : RaftNode :=
  set_election_elapsed (Z.min U32_MAX (election_elapsed n + 1)) n.

Lemma tick_waits n (d : D) :
  fatal n = None → role n ≠ Leader →
  (tick (n, d)).2 = if election_timeout n <=? election_elapsed (waited n)
                    then (start_election (waited n, d)).2 else (waited n, d).
Proof.
  intros Hf Hr. unfold tick. rewrite Hf. rewrite bool_decide_eq_false_2 by (intros E; by apply E).
  destruct (role n); [| |done]; fold (waited n);
    change (election_timeout (waited n)) with (election_timeout n); by case_match.
Qed.

Lemma election_within m : ∀ n (d : D),
  (Z.to_nat (election_timeout n - election_elapsed n) ≤ m)%nat →
  storage_path n ≠ None → fatal n = None → role n ≠ Leader → timer_ok n →
  ∃ k, Z.of_nat k ≤ Z.max 1 (election_timeout n - election_elapsed n) ∧
    let n' := (tick_n k (n, d)).1 in current_term n' = current_term n + 1 ∨ fatal n' ≠ None.
Proof.
  induction m as [|m IH]; intros n d Hm Hp Hf Hr Ht; pose proof Ht as (He & Hto & Hc);
    pose proof (tick_waits n d Hf Hr) as Et;
    assert (election_elapsed (waited n) = Z.min U32_MAX (election_elapsed n + 1)) as En by done;
    destruct (election_timeout n <=? election_elapsed (waited n)) eqn:El; bool_prop; try lia.
  - exists 1%nat. split; [lia|]. change (tick_n 1 (n, d)) with (tick (n, d)).2. rewrite Et.
    exact (start_election_term (waited n) d Hp).
  - exists 1%nat. split; [lia|]. change (tick_n 1 (n, d)) with (tick (n, d)).2. rewrite Et.
    exact (start_election_term (waited n) d Hp).
  - destruct (IH (waited n) d) as (k & Hk & Hres); auto.
    + change (election_timeout (waited n)) with (election_timeout n). lia.
    + unfold timer_ok. change (election_timeout (waited n)) with (election_timeout n).
      change (election_timeout_ceiling (waited n)) with (election_timeout_ceiling n). lia.
    + exists (S k). change (election_timeout (waited n)) with (election_timeout n) in Hk.
      split; [lia|]. change (tick_n (S k) (n, d)) with (tick_n k (tick (n, d)).2). rewrite Et. exact Hres.
Qed.

Lemma election_starts_lemma n (d : D) :
  storage_path n ≠ None → fatal n = None → role n ≠ Leader → timer_ok n →
  ∃ k, Z.of_nat k ≤ election_timeout_ceiling n ∧
    let n' := (tick_n k (n, d)).1 in current_term n' = current_term n + 1 ∨ fatal n' ≠ None.
Proof.
  intros Hp Hf Hr Ht. destruct (election_within _ n d (Nat.le_refl _) Hp Hf Hr Ht) as (k & Hk & Hres).
  exists k. split; [|exact Hres]. destruct Ht as (? & ? & ?). lia.
Qed.
End timer.
