(* ===== verification/RaftFile.v ===== *)
(** * Raft: the state file and the write-ahead log

    The codecs and the recovery of [src/crates/onetdns-cluster/src/raft.rs]:
    the state file, the frames of the write-ahead log, and how a restart reads
    both.  SHA-256 is an argument; opening and reading a file is a value of
    type [file].  Additions on [u64] that the source leaves unchecked wrap, as
    in the release profile. *)

From S2P Require Import Prelude Raft.

#[local] Open Scope outcome_scope.

(** ** Constants *)
Definition STATE_MAGIC : list Z := [79; 78; 69; 84; 82; 65; 70; 84; 0; 0; 0; 1].
Definition WAL_MAGIC : list Z := [79; 78; 69; 84; 82; 65; 70; 84; 87; 65; 76; 49].
Definition WAL_HEADER_LEN : Z := 12 + 32.
Definition MIN_WAL_FRAME_BODY : Z := 8 + 1 + 8 + 8 + 8 + 8 + 8 + 4.
Definition MAX_WAL_BYTES : Z := 4 * 1024 * 1024.
Definition MAX_STATE_BYTES : Z := 64 * 1024 * 1024.

Definition u64_wrap (v : Z) : Z := v mod 2 ^ 64.

(** The fixed part of a state file before the snapshot, and its digest. *)
Definition MIN_STATE_LEN : Z := 12 + 8 + 9 + 8 + 8 + 8 + 8 + 8 + 4 + 4 + 32.

Definition view_snapshot_index (st : StableState) : Z := map_or 0 s_index (st_snapshot st).
Definition view_snapshot_term (st : StableState) : Z := map_or 0 s_term (st_snapshot st).
Definition view_snapshot_data (st : StableState) : list Z := map_or [] s_data (st_snapshot st).

(** ** Reading integers *)
Definition take_u64 (bytes : list Z) (pos : Z) : outcome string (Z * Z) :=
  match checked_add pos 8 with
  | None => Err "Raft 상태 파일에서 64비트 값을 읽을 위치를 계산할 수 없습니다"
  | Some end_ =>
      match get_range bytes pos end_ with
      | None => Err "Raft 상태 데이터가 중간에서 잘렸습니다"
      | Some slice => Ok (be_val 0 slice, end_)
      end
  end.

Definition take_u32 (bytes : list Z) (pos : Z) : outcome string (Z * Z) :=
  match checked_add pos 4 with
  | None => Err "Raft 상태 파일에서 32비트 값을 읽을 위치를 계산할 수 없습니다"
  | Some end_ =>
      match get_range bytes pos end_ with
      | None => Err "Raft 상태 데이터가 중간에서 잘렸습니다"
      | Some slice => Ok (be_val 0 slice, end_)
      end
  end.

(** Octets of a given length. *)
Definition take_bytes (e_range e_cut : string) (bytes : list Z) (pos len : Z) :
    outcome string (list Z * Z) :=
  match checked_add pos len with
  | None => Err e_range
  | Some end_ =>
      match get_range bytes pos end_ with
      | None => Err e_cut
      | Some slice => Ok (slice, end_)
      end
  end.

(** The loops of [decode_state] and [apply_wal_frame] over the entries, which
    differ in their error texts: [count] entries, the first with index [expected]. *)
Fixpoint take_entries (e_form e_range e_cut : string) (count : nat) (expected : Z) (body : list Z)
    (pos : Z) : outcome string (list LogEntry * Z) :=
  match count with
  | O => Ok ([], pos)
  | S count =>
      try! (term, pos) := take_u64 body pos in
      try! (index, pos) := take_u64 body pos in
      try! (len, pos) := take_u32 body pos in
      if negb (index =? u64_wrap expected) || (MAX_ENTRY_BYTES <? len) then Err e_form
      else
        try! (data, pos) := take_bytes e_range e_cut body pos len in
        try! (log, pos) := take_entries e_form e_range e_cut count (expected + 1) body pos in
        Ok (mkLogEntry term index data :: log, pos)
  end.

Definition decode_entries : nat → Z → list Z → Z → outcome string (list LogEntry * Z) :=
  take_entries "Raft log 형식이 올바르지 않습니다" "Raft 로그 항목의 길이를 계산할 수 없습니다"
    "Raft 로그 데이터가 중간에서 잘렸습니다".

Definition frame_entries : nat → Z → list Z → Z → outcome string (list LogEntry * Z) :=
  take_entries "Raft WAL 항목 형식이 올바르지 않습니다" "Raft WAL 길이 계산 범위를 넘었습니다"
    "Raft WAL 데이터가 중간에서 잘렸습니다".

(** The flag and the number of a vote. *)
Definition take_vote (e_missing e_bad : string) (bytes : list Z) (pos : Z) :
    outcome string (option NodeId * Z) :=
  match get bytes pos with
  | None => Err e_missing
  | Some flag =>
      try! (id, pos) := take_u64 bytes (pos + 1) in
      if flag =? 0 then Ok (None, pos)
      else if flag =? 1 then Ok (Some id, pos)
      else Err e_bad
  end.

(** ** Writing *)
Definition vote_bytes (v : option NodeId) : list Z :=
  match v with Some id => 1 :: u64_to_be id | None => 0 :: u64_to_be 0 end.

Definition entry_bytes (e : LogEntry) : list Z :=
  u64_to_be (e_term e) ++ u64_to_be (e_index e) ++
  u32_to_be (zlen (e_data e) mod 2 ^ 32) ++ e_data e.

(** The loop of [encode_state] over the log. *)
Fixpoint encode_entries (log : list LogEntry) (expected : Z) (out : list Z) : outcome string (list Z) :=
  match log with
  | [] => Ok out
  | entry :: log =>
      if negb (e_index entry =? expected) || (MAX_ENTRY_BYTES <? zlen (e_data entry))
      then Err "Raft log index 또는 항목 크기가 올바르지 않습니다"
      else
        let out := out ++ entry_bytes entry in
        if MAX_STATE_BYTES - 32 <? zlen out then Err "Raft 상태 파일이 허용 크기를 넘었습니다"
        else encode_entries log (expected + 1) out
  end.

Definition state_header (st : StableState) : list Z :=
  STATE_MAGIC ++ u64_to_be (st_current_term st) ++ vote_bytes (st_voted_for st) ++
  u64_to_be (st_commit_index st) ++ u64_to_be (st_last_applied st) ++
  u64_to_be (st_boot_counter st) ++ u64_to_be (view_snapshot_index st) ++
  u64_to_be (view_snapshot_term st) ++ u32_to_be (zlen (view_snapshot_data st) mod 2 ^ 32) ++
  view_snapshot_data st ++ u32_to_be (zlen (st_log st) mod 2 ^ 32).

Definition is_empty (l : list Z) : bool := zlen l =? 0.

Section digest.
Context (sha256 : list Z → list Z).

Definition encode_state (st : StableState) : outcome string (list Z) :=
  let snapshot_index := view_snapshot_index st in
  match checked_add snapshot_index (zlen (st_log st)) with
  | None => Err "Raft 영구 상태의 로그 위치가 범위를 넘었습니다"
  | Some last_index =>
      if (MAX_LOG_ENTRIES <? zlen (st_log st)) || (last_index <? st_commit_index st)
         || (st_last_applied st <? snapshot_index)
         || (MAX_SNAPSHOT_BYTES <? zlen (view_snapshot_data st))
         || xorb (snapshot_index =? 0) (is_empty (view_snapshot_data st))
         || xorb (snapshot_index =? 0) (view_snapshot_term st =? 0)
      then Err "Raft 영구 상태의 값 범위가 올바르지 않습니다"
      else if st_commit_index st <? st_last_applied st
      then Err "Raft에서 마지막으로 적용한 로그 위치가 확정된 로그 위치보다 큽니다"
      else
        try! out := encode_entries (st_log st) (snapshot_index + 1) (state_header st) in
        Ok (out ++ sha256 out)
  end.

(** The part of [decode_state] after the digest and the magic number. *)
Definition decode_body (body : list Z) : outcome string StableState :=
  try! (current_term, pos) := take_u64 body (zlen STATE_MAGIC) in
  try! (voted_for, pos) := take_vote "Raft 투표 상태 값이 빠져 있습니다"
                             "Raft 투표 상태 값이 올바르지 않습니다" body pos in
  try! (commit_index, pos) := take_u64 body pos in
  try! (last_applied, pos) := take_u64 body pos in
  try! (boot_counter, pos) := take_u64 body pos in
  try! (snapshot_index, pos) := take_u64 body pos in
  try! (snapshot_term, pos) := take_u64 body pos in
  try! (snapshot_len, pos) := take_u32 body pos in
  if (MAX_SNAPSHOT_BYTES <? snapshot_len) || xorb (snapshot_index =? 0) (snapshot_len =? 0)
     || xorb (snapshot_index =? 0) (snapshot_term =? 0)
  then Err "Raft 스냅샷 형식이 올바르지 않습니다"
  else
    try! (snapshot_data, pos) := take_bytes "Raft 스냅샷 길이를 계산할 수 없습니다"
                                   "Raft 스냅샷 데이터가 중간에서 잘렸습니다" body pos snapshot_len in
    try! (count, pos) := take_u32 body pos in
    if MAX_LOG_ENTRIES <? count then Err "Raft 로그 항목이 허용 크기를 넘었습니다"
    else
      try! (log, pos) := decode_entries (Z.to_nat count) (snapshot_index + 1) body pos in
      match checked_add snapshot_index count with
      | None => Err "Raft 로그 마지막 위치가 범위를 넘었습니다"
      | Some last_index =>
          if negb (pos =? zlen body) || (last_index <? commit_index) || (commit_index <? last_applied)
             || (last_applied <? snapshot_index)
          then Err "Raft 상태 파일에 불필요한 데이터가 있거나 값이 허용 범위를 벗어났습니다"
          else
            Ok (mkStable current_term voted_for log commit_index last_applied boot_counter
                  (if snapshot_index =? 0 then None
                   else Some (mkSnapshot snapshot_index snapshot_term snapshot_data)))
      end.

Definition decode_state (bytes : list Z) : outcome string StableState :=
  if (zlen bytes <? MIN_STATE_LEN) || (MAX_STATE_BYTES <? zlen bytes)
  then Err "Raft 상태 파일의 크기가 올바르지 않습니다"
  else
    let body := take (Z.to_nat (zlen bytes - 32)) bytes in
    let stored_digest := drop (Z.to_nat (zlen bytes - 32)) bytes in
    if bool_decide (sha256 body ≠ stored_digest)
    then Err "Raft 상태 파일의 검사합이 일치하지 않습니다"
    else if bool_decide (get_range body 0 (zlen STATE_MAGIC) ≠ Some STATE_MAGIC)
    then Err "Raft 상태 파일의 식별자 또는 버전이 현재 형식과 일치하지 않습니다"
    else decode_body body.

(** ** Frames of the write-ahead log *)
Fixpoint encode_frame_entries (entries : list LogEntry) (expected : Z) (out : list Z) :
    outcome string (list Z) :=
  match entries with
  | [] => Ok out
  | entry :: entries =>
      if negb (e_index entry =? u64_wrap expected) || (MAX_ENTRY_BYTES <? zlen (e_data entry))
      then Err "Raft WAL 항목 index/크기가 올바르지 않습니다"
      else encode_frame_entries entries (expected + 1) (out ++ entry_bytes entry)
  end.

Definition frame_header (st : StableState) (truncate_to count : Z) : list Z :=
  u64_to_be (st_current_term st) ++ vote_bytes (st_voted_for st) ++
  u64_to_be (st_commit_index st) ++ u64_to_be (st_last_applied st) ++
  u64_to_be (st_boot_counter st) ++ u64_to_be truncate_to ++ u32_to_be (count mod 2 ^ 32).

Definition encode_wal_body (st : StableState) (truncate_to : Z) : outcome string (list Z) :=
  if (zlen (st_log st) <? truncate_to) || (MAX_LOG_ENTRIES <? zlen (st_log st))
  then Err "Raft WAL 프레임 범위가 올바르지 않습니다"
  else
    let entries := drop (Z.to_nat truncate_to) (st_log st) in
    encode_frame_entries entries (view_snapshot_index st + truncate_to + 1)
      (frame_header st truncate_to (zlen entries)).

Definition encode_wal_frame (st : StableState) (truncate_to : Z) : outcome string (list Z) :=
  try! body := encode_wal_body st truncate_to in
  Ok (u32_to_be (zlen body mod 2 ^ 32) ++ body ++ sha256 body).

(** [apply_wal_frame]; after an error the state is not used any more. *)
Definition apply_wal_frame (st : StableState) (body : list Z) : outcome string StableState :=
  try! (current_term, pos) := take_u64 body 0 in
  try! (voted_for, pos) := take_vote "Raft WAL 투표 상태 값이 빠져 있습니다"
                             "Raft 로그 파일의 투표 상태 값이 올바르지 않습니다" body pos in
  try! (commit_index, pos) := take_u64 body pos in
  try! (last_applied, pos) := take_u64 body pos in
  try! (boot_counter, pos) := take_u64 body pos in
  try! (truncate_to, pos) := take_u64 body pos in
  try! (count, pos) := take_u32 body pos in
  if (current_term <? st_current_term st) || (commit_index <? st_commit_index st)
     || (last_applied <? st_last_applied st) || (commit_index <? last_applied)
     || (boot_counter <? st_boot_counter st)
  then Err "Raft WAL 단조성 위반"
  else if (current_term =? st_current_term st)
          && bool_decide (st_voted_for st ≠ None) && bool_decide (voted_for ≠ st_voted_for st)
  then Err "Raft WAL 동일 term 투표 변경"
  else
    let snapshot_index := view_snapshot_index st in
    let truncate_index := saturating_add snapshot_index truncate_to in
    if (zlen (st_log st) <? truncate_to) || (truncate_index <? st_commit_index st)
    then Err "Raft WAL truncate 범위가 올바르지 않습니다"
    else match checked_add truncate_to count with
    | None => Err "Raft WAL 로그 길이 계산 범위를 넘었습니다"
    | Some final_len =>
        match checked_add snapshot_index final_len with
        | None => Err "Raft WAL 마지막 로그 위치가 범위를 넘었습니다"
        | Some final_index =>
            if (MAX_LOG_ENTRIES <? final_len) || (final_index <? commit_index)
               || (last_applied <? snapshot_index)
            then Err "Raft WAL 로그 범위가 올바르지 않습니다"
            else
              try! (entries, pos) := frame_entries (Z.to_nat count)
                                       (snapshot_index + truncate_to + 1) body pos in
              if negb (pos =? zlen body) then Err "Raft 로그 파일 끝에 불필요한 데이터가 남아 있습니다"
              else
                Ok (mkStable current_term voted_for
                      (take (Z.to_nat truncate_to) (st_log st) ++ entries)
                      commit_index last_applied boot_counter (st_snapshot st))
        end
    end.

(** ** Recovery *)

(** What opening and reading a file gives: nothing there, an error, octets. *)
Inductive file : Type := Absent | Broken (error : string) | Bytes (content : list Z).

(** The frames of the log from [pos] on; [valid] is the length that is known
    to be good.  Every frame has more than 32 octets: the length of the file
    is enough fuel. *)
Fixpoint replay (fuel : nat) (bytes : list Z) (pos : Z) (st : StableState) :
    outcome string (Z * StableState) :=
  match fuel with
  | O => NoFuel
  | S fuel =>
      if zlen bytes <=? pos then Ok (pos, st)
      else
        match checked_add pos 4 with
        | None => Err "Raft WAL 프레임 길이 위치 계산 범위를 넘었습니다"
        | Some length_end =>
            match get_range bytes pos length_end with
            | None => Ok (pos, st)
            | Some len_bytes =>
                let body_len := be_val 0 len_bytes in
                if (body_len <? MIN_WAL_FRAME_BODY) || (MAX_WAL_BYTES <? body_len)
                then Err "Raft WAL 프레임 길이가 올바르지 않습니다"
                else match checked_add length_end body_len with
                | None => Err "Raft WAL 프레임 끝 계산 범위를 넘었습니다"
                | Some digest_start =>
                    match checked_add digest_start 32 with
                    | None => Err "Raft WAL 검사합 끝 계산 범위를 넘었습니다"
                    | Some frame_end =>
                        match get_range bytes length_end digest_start,
                              get_range bytes digest_start frame_end with
                        | Some body, Some digest =>
                            if bool_decide (sha256 body ≠ digest) then
                              if frame_end <? zlen bytes
                              then Err "Raft WAL 중간 프레임의 검사합이 일치하지 않습니다"
                              else Ok (pos, st)
                            else
                              try! st := apply_wal_frame st body in
                              replay fuel bytes frame_end st
                        | _, _ => Ok (pos, st)
                        end
                    end
                end
            end
        end
  end.

Definition load_wal (wal : file) (base_digest : list Z) (st : StableState) :
    outcome string (Z * StableState) :=
  match wal with
  | Absent => Ok (0, st)
  | Broken e => Err e
  | Bytes bytes =>
      if MAX_WAL_BYTES <? zlen bytes then Err "Raft WAL 파일이 너무 큽니다"
      else if (zlen bytes <? WAL_HEADER_LEN)
              || bool_decide (get_range bytes 0 (zlen WAL_MAGIC) ≠ Some WAL_MAGIC)
      then Err "Raft WAL 헤더 손상"
      else if bool_decide (get_range bytes (zlen WAL_MAGIC) WAL_HEADER_LEN ≠ Some base_digest)
      then Ok (0, st)
      else replay (S (length bytes)) bytes WAL_HEADER_LEN st
  end.

Definition load_files (state wal : file) : outcome string LoadedState :=
  match state with
  | Absent => Ok (mkLoaded StableState_default None 0)
  | Broken e => Err e
  | Bytes bytes =>
      if MAX_STATE_BYTES <? zlen bytes then Err "Raft 상태 파일이 허용 크기를 넘었습니다"
      else
        try! st := decode_state bytes in
        let base_digest := drop (Z.to_nat (zlen bytes - 32)) bytes in
        try! (wal_len, st) := load_wal wal base_digest st in
        Ok (mkLoaded st (Some base_digest) wal_len)
  end.

(** What [reset_wal] writes. *)
Definition wal_header (base_digest : list Z) : list Z := WAL_MAGIC ++ base_digest.
End digest.
