(* ===== verification/RaftFileSpec.v ===== *)
(** * Raft: the state file and the write-ahead log read back what was written *)

From S2P Require Import Prelude Raft RaftFile.

#[local] Open Scope outcome_scope.
#[local] Arguments entry_bytes : simpl never.
#[local] Arguments vote_bytes : simpl never.
#[local] Arguments take_u64 : simpl never.
#[local] Arguments take_u32 : simpl never.
#[local] Arguments take_bytes : simpl never.
#[local] Arguments take_vote : simpl never.

(** ** Reading at a position *)

(** What is left of [body] at [pos] is [s]. *)
Definition at_ (body : list Z) (pos : Z) (s : list Z) : Prop :=
  zlen body ≤ USIZE_MAX ∧ ∃ pre, body = pre ++ s ∧ pos = zlen pre.

Lemma at_start body : zlen body ≤ USIZE_MAX → at_ body 0 body.
Proof. intros Hb. split; [done|]. by exists []. Qed.

Lemma at_skip body pos a s : at_ body pos (a ++ s) → at_ body (pos + zlen a) s.
Proof.
  intros (Hb & pre & -> & ->). split; [done|]. exists (pre ++ a).
  split; [by rewrite app_assoc|by rewrite zlen_app].
Qed.

Lemma at_end body pos : at_ body pos [] → pos = zlen body.
Proof. intros (_ & pre & -> & ->). by rewrite app_nil_r. Qed.

Lemma file_at_range body pos a s : at_ body pos (a ++ s) →
  checked_add pos (zlen a) = Some (pos + zlen a) ∧ get_range body pos (pos + zlen a) = Some a.
Proof.
  intros (Hb & pre & -> & ->). rewrite !zlen_app in Hb. pose proof (zlen_nonneg s).
  split; [unfold checked_add; case_match; bool_prop; [done|lia]|apply get_range_app].
Qed.

Lemma zlen_u64 v : zlen (u64_to_be v) = 8.
Proof. reflexivity. Qed.

Lemma zlen_u32 v : zlen (u32_to_be v) = 4.
Proof. reflexivity. Qed.

#[local] Opaque u64_to_be u32_to_be.

Lemma take_u64_at body pos v s :
  is_u64 v → at_ body pos (u64_to_be v ++ s) →
  take_u64 body pos = Ok (v, pos + 8) ∧ at_ body (pos + 8) s.
Proof.
  intros Hv Ha. destruct (file_at_range _ _ _ _ Ha) as [Hc Hg]. rewrite zlen_u64 in *.
  unfold take_u64. rewrite Hc, Hg, be_val_u64 by done. split; [done|]. by apply at_skip in Ha.
Qed.

Lemma take_u32_at body pos v s :
  is_u32 v → at_ body pos (u32_to_be v ++ s) →
  take_u32 body pos = Ok (v, pos + 4) ∧ at_ body (pos + 4) s.
Proof.
  intros Hv Ha. destruct (file_at_range _ _ _ _ Ha) as [Hc Hg]. rewrite zlen_u32 in *.
  unfold take_u32. rewrite Hc, Hg, be_val_u32 by done. split; [done|]. by apply at_skip in Ha.
Qed.

Lemma take_bytes_at e1 e2 body pos a s :
  at_ body pos (a ++ s) →
  take_bytes e1 e2 body pos (zlen a) = Ok (a, pos + zlen a) ∧ at_ body (pos + zlen a) s.
Proof.
  intros Ha. destruct (file_at_range _ _ _ _ Ha) as [Hc Hg]. unfold take_bytes. rewrite Hc, Hg.
  split; [done|]. by apply at_skip.
Qed.

Lemma take_vote_at e1 e2 body pos v s :
  (∀ id, v = Some id → is_u64 id) → at_ body pos (vote_bytes v ++ s) →
  take_vote e1 e2 body pos = Ok (v, pos + 9) ∧ at_ body (pos + 9) s.
Proof.
  intros Hv Ha. unfold take_vote.
  assert (∃ b id, vote_bytes v = b :: u64_to_be id ∧ is_u64 id ∧
            b = (if v then 1 else 0) ∧ (∀ i, v = Some i → i = id)) as (b & id & E & Hid & -> & Hi).
  { destruct v as [id|]; [exists 1, id|exists 0, 0]; split_and!; auto; try done. by intros i [= ->]. }
  rewrite E in Ha. change (at_ body pos ([if v then 1 else 0] ++ u64_to_be id ++ s)) in Ha.
  assert (get body pos = Some (if v then 1 else 0)) as ->.
  { destruct Ha as (_ & pre & -> & ->). apply get_app_mid. }
  apply at_skip in Ha. change (zlen [_]) with 1 in Ha.
  destruct (take_u64_at _ _ _ _ Hid Ha) as [-> Ha']. replace (pos + 1 + 8) with (pos + 9) in * by lia.
  split; [|done]. destruct v as [i|]; simpl; [by rewrite (Hi i)|done].
Qed.

(** ** Entries *)
Record entry_ok (expected : Z) (e : LogEntry) : Prop := mkEntryOk {
  eo_term : is_u64 (e_term e);
  eo_index : e_index e = expected;
  eo_u64 : is_u64 expected;
  eo_len : zlen (e_data e) ≤ MAX_ENTRY_BYTES;
}.

Definition entries_ok (expected : Z) (log : list LogEntry) : Prop :=
  ∀ k e, log !! k = Some e → entry_ok (expected + Z.of_nat k) e.

Lemma entries_ok_cons expected e log :
  entries_ok expected (e :: log) → entry_ok expected e ∧ entries_ok (expected + 1) log.
Proof.
  intros H. split.
  - replace expected with (expected + Z.of_nat 0) by lia. by apply H.
  - intros k x Hk. replace (expected + 1 + Z.of_nat k) with (expected + Z.of_nat (S k)) by lia. by apply H.
Qed.

Lemma u64_wrap_id v : is_u64 v → u64_wrap v = v.
Proof. unfold is_u64, U64_MAX, u64_wrap. intros Hv. apply Z.mod_small. lia. Qed.

Lemma take_entries_at e1 e2 e3 log : ∀ expected body pos s,
  entries_ok expected log → at_ body pos (concat (map entry_bytes log) ++ s) →
  ∃ pos', take_entries e1 e2 e3 (length log) expected body pos = Ok (log, pos') ∧ at_ body pos' s.
Proof.
  induction log as [|e log IH]; intros expected body pos s Hok Ha; [by eexists|].
  apply entries_ok_cons in Hok as [He Hok]. simpl in Ha. unfold entry_bytes in Ha at 1.
  rewrite <- !app_assoc in Ha. destruct e as [term index data]. destruct He as [Ht Hi Hu Hl]. simpl in *.
  subst index. assert (zlen data mod 2 ^ 32 = zlen data) as Hm.
  { apply Z.mod_small. pose proof (zlen_nonneg data). unfold MAX_ENTRY_BYTES in Hl. lia. }
  rewrite Hm in Ha.
  destruct (take_u64_at _ _ _ _ Ht Ha) as [-> Ha1]. simpl.
  destruct (take_u64_at _ _ _ _ Hu Ha1) as [-> Ha2]. simpl.
  assert (is_u32 (zlen data)) as Hz.
  { unfold is_u32, U32_MAX, MAX_ENTRY_BYTES in *. pose proof (zlen_nonneg data). lia. }
  destruct (take_u32_at _ _ _ _ Hz Ha2) as [-> Ha3].
  simpl. rewrite u64_wrap_id, Z.eqb_refl by done. simpl.
  destruct (Z.ltb_spec MAX_ENTRY_BYTES (zlen data)); [lia|].
  destruct (take_bytes_at e2 e3 _ _ _ _ Ha3) as [-> Ha4]. simpl.
  destruct (IH _ _ _ _ Hok Ha4) as (pos' & -> & Ha5). simpl. eauto.
Qed.

(** ** The state file *)

(** The ranges of the Rust types. *)
Record stable_ok (st : StableState) : Prop := mkStableOk {
  so_term : is_u64 (st_current_term st);
  so_vote : ∀ id, st_voted_for st = Some id → is_u64 id;
  so_commit : is_u64 (st_commit_index st);
  so_applied : is_u64 (st_last_applied st);
  so_boot : is_u64 (st_boot_counter st);
  so_sindex : is_u64 (view_snapshot_index st);
  so_sterm : is_u64 (view_snapshot_term st);
  so_terms : Forall (λ e, is_u64 (e_term e)) (st_log st);
}.

Lemma encode_entries_spec log : ∀ expected out b,
  Forall (λ e, is_u64 (e_term e)) log → 0 ≤ expected → expected + zlen log ≤ U64_MAX + 1 →
  encode_entries log expected out = Ok b →
  b = out ++ concat (map entry_bytes log) ∧ entries_ok expected log ∧
  zlen b ≤ Z.max (zlen out) (MAX_STATE_BYTES - 32).
Proof.
  induction log as [|e log IH]; intros expected out b Hf H0 Hu; simpl.
  - intros [= <-]. rewrite app_nil_r. split_and!; [done|by intros k e Hk|lia].
  - rewrite zlen_cons in Hu. pose proof (zlen_nonneg log). inversion Hf as [|? ? Ht Hf']; subst.
    case_match eqn:E1; [done|]. case_match eqn:E2; [done|]. apply orb_false_elim in E1 as [E1 E3].
    bool_prop. intros E. destruct (IH (expected + 1) (out ++ entry_bytes e) b Hf' ltac:(lia) ltac:(lia) E) as (-> & Hok & Hl).
    split_and!; [by rewrite <- app_assoc| |lia].
    intros [|k] x; simpl; [intros [= <-]|intros Hk].
    + constructor; [done|lia|unfold is_u64; lia|done].
    + replace (expected + Z.of_nat (S k)) with (expected + 1 + Z.of_nat k) by lia. auto.
Qed.

(** The fixed part of a state read back. *)
Lemma state_header_len st : zlen (state_header st) = 77 + zlen (view_snapshot_data st).
Proof.
  unfold state_header. rewrite !zlen_app. unfold vote_bytes. destruct (st_voted_for st);
    rewrite ?zlen_cons, !zlen_u64, !zlen_u32; change (zlen STATE_MAGIC) with 12; lia.
Qed.

(** A missing snapshot is one with index 0. *)
Lemma view_snapshot_eq st :
  view_snapshot_index st ≠ 0 ∨ st_snapshot st = None →
  (if view_snapshot_index st =? 0 then None
   else Some (mkSnapshot (view_snapshot_index st) (view_snapshot_term st) (view_snapshot_data st))) =
  st_snapshot st.
Proof.
  unfold view_snapshot_index, view_snapshot_term, view_snapshot_data.
  destruct (st_snapshot st) as [[i t data]|]; simpl; [|done]. intros [Hi|]; [|done].
  by apply Z.eqb_neq in Hi as ->.
Qed.

Section digest.
Context (sha256 : list Z → list Z).

Lemma encode_state_spec st b :
  stable_ok st → encode_state sha256 st = Ok b →
  ∃ body, b = body ++ sha256 body ∧
    body = state_header st ++ concat (map entry_bytes (st_log st)) ∧
    entries_ok (view_snapshot_index st + 1) (st_log st) ∧
    zlen body ≤ MAX_STATE_BYTES - 32 ∧
    view_snapshot_index st + zlen (st_log st) ≤ U64_MAX ∧ zlen (st_log st) ≤ MAX_LOG_ENTRIES ∧
    st_commit_index st ≤ view_snapshot_index st + zlen (st_log st) ∧
    view_snapshot_index st ≤ st_last_applied st ≤ st_commit_index st ∧
    zlen (view_snapshot_data st) ≤ MAX_SNAPSHOT_BYTES ∧
    xorb (view_snapshot_index st =? 0) (zlen (view_snapshot_data st) =? 0) = false ∧
    xorb (view_snapshot_index st =? 0) (view_snapshot_term st =? 0) = false.
Proof.
  intros []. unfold encode_state. destruct (checked_add _ _) as [last|] eqn:Ec; [|done].
  apply checked_add_Some in Ec as [-> Hu]. case_match eqn:E; [done|].
  case_match eqn:E'; [done|]. repeat (apply orb_false_elim in E as [E ?]). bool_prop.
  destruct (encode_entries _ _ _) as [out| | |] eqn:Ee; try done. simpl. intros [= <-].
  apply encode_entries_spec in Ee as (Hout & Hok & Hl); [|done|unfold is_u64 in *; lia|].
  2:{ unfold USIZE_MAX, U64_MAX in *. lia. }
  rewrite state_header_len in Hl. exists out. split_and!; auto; try (unfold USIZE_MAX, U64_MAX in *; lia).
  unfold MAX_STATE_BYTES, MAX_SNAPSHOT_BYTES in *. lia.
Qed.

(** The body of a state file read back. *)
Lemma decode_body_spec st body :
  stable_ok st → view_snapshot_index st ≠ 0 ∨ st_snapshot st = None →
  body = state_header st ++ concat (map entry_bytes (st_log st)) →
  entries_ok (view_snapshot_index st + 1) (st_log st) →
  zlen body ≤ MAX_STATE_BYTES - 32 →
  view_snapshot_index st + zlen (st_log st) ≤ U64_MAX → zlen (st_log st) ≤ MAX_LOG_ENTRIES →
  st_commit_index st ≤ view_snapshot_index st + zlen (st_log st) →
  view_snapshot_index st ≤ st_last_applied st ≤ st_commit_index st →
  zlen (view_snapshot_data st) ≤ MAX_SNAPSHOT_BYTES →
  xorb (view_snapshot_index st =? 0) (zlen (view_snapshot_data st) =? 0) = false →
  xorb (view_snapshot_index st =? 0) (view_snapshot_term st =? 0) = false →
  decode_body body = Ok st.
Proof.
  intros [] Hsn Hb Hent Hlen Hu Hlog Hc Ha Hs Hx1 Hx2.
  assert (at_ body 0 (body ++ [])) as R0.
  { rewrite app_nil_r. apply at_start. unfold MAX_STATE_BYTES, USIZE_MAX in *. lia. }
  rewrite Hb in R0 at 2. unfold state_header in R0. rewrite <- !app_assoc in R0.
  pose proof (zlen_nonneg (view_snapshot_data st)). pose proof (zlen_nonneg (st_log st)).
  rewrite (Z.mod_small (zlen (view_snapshot_data st))) in R0 by (unfold MAX_SNAPSHOT_BYTES in *; lia).
  rewrite (Z.mod_small (zlen (st_log st))) in R0 by (unfold MAX_LOG_ENTRIES in *; lia).
  assert (is_u32 (zlen (view_snapshot_data st))) as Hu1.
  { unfold is_u32, U32_MAX, MAX_SNAPSHOT_BYTES in *. lia. }
  assert (is_u32 (zlen (st_log st))) as Hu2.
  { unfold is_u32, U32_MAX, MAX_LOG_ENTRIES in *. lia. }
  unfold decode_body. apply at_skip in R0. rewrite Z.add_0_l in R0.
  destruct (take_u64_at _ _ _ _ so_term0 R0) as [-> R1]. cbn [obind].
  destruct (take_vote_at "Raft 투표 상태 값이 빠져 있습니다" "Raft 투표 상태 값이 올바르지 않습니다"
              _ _ _ _ so_vote0 R1) as [-> R2]. cbn [obind].
  destruct (take_u64_at _ _ _ _ so_commit0 R2) as [-> R3]. cbn [obind].
  destruct (take_u64_at _ _ _ _ so_applied0 R3) as [-> R4]. cbn [obind].
  destruct (take_u64_at _ _ _ _ so_boot0 R4) as [-> R5]. cbn [obind].
  destruct (take_u64_at _ _ _ _ so_sindex0 R5) as [-> R6]. cbn [obind].
  destruct (take_u64_at _ _ _ _ so_sterm0 R6) as [-> R7]. cbn [obind].
  destruct (take_u32_at _ _ _ _ Hu1 R7) as [-> R8]. cbn [obind].
  rewrite Hx1, Hx2. destruct (Z.ltb_spec MAX_SNAPSHOT_BYTES (zlen (view_snapshot_data st))); [lia|].
  cbn [orb].
  destruct (take_bytes_at "Raft 스냅샷 길이를 계산할 수 없습니다" "Raft 스냅샷 데이터가 중간에서 잘렸습니다"
              _ _ _ _ R8) as [-> R9]. cbn [obind].
  destruct (take_u32_at _ _ _ _ Hu2 R9) as [-> R10]. cbn [obind].
  destruct (Z.ltb_spec MAX_LOG_ENTRIES (zlen (st_log st))); [lia|].
  unfold decode_entries. replace (Z.to_nat (zlen (st_log st))) with (length (st_log st)) by (unfold zlen; lia).
  destruct (take_entries_at "Raft log 형식이 올바르지 않습니다" "Raft 로그 항목의 길이를 계산할 수 없습니다"
              "Raft 로그 데이터가 중간에서 잘렸습니다" _ _ _ _ _ Hent R10) as (pos & -> & R11). cbn [obind].
  apply at_end in R11 as ->. unfold checked_add.
  destruct (Z.leb_spec (view_snapshot_index st + zlen (st_log st)) USIZE_MAX);
    [|unfold USIZE_MAX, U64_MAX in *; lia].
  rewrite Z.eqb_refl. destruct (Z.ltb_spec (view_snapshot_index st + zlen (st_log st)) (st_commit_index st)); [lia|].
  destruct (Z.ltb_spec (st_commit_index st) (st_last_applied st)); [lia|].
  destruct (Z.ltb_spec (st_last_applied st) (view_snapshot_index st)); [lia|]. cbn [orb negb].
  rewrite view_snapshot_eq by done. by destruct st.
Qed.

Lemma state_roundtrip_lemma st b :
  (∀ m, zlen (sha256 m) = 32) → stable_ok st →
  view_snapshot_index st ≠ 0 ∨ st_snapshot st = None →
  encode_state sha256 st = Ok b → decode_state sha256 b = Ok st.
Proof.
  intros Hsha Hok Hsn He.
  destruct (encode_state_spec st b Hok He) as (body & -> & Hbody & Hent & Hlen & ? & ? & ? & ? & ? & ? & ?).
  assert (77 ≤ zlen body) as Hmin.
  { rewrite Hbody, zlen_app, state_header_len. pose proof (zlen_nonneg (view_snapshot_data st)).
    pose proof (zlen_nonneg (concat (map entry_bytes (st_log st)))). lia. }
  unfold decode_state. rewrite zlen_app, Hsha.
  replace (Z.to_nat (zlen body + 32 - 32)) with (length body) by (unfold zlen; lia).
  rewrite take_app_length, drop_app_length.
  destruct (Z.ltb_spec (zlen body + 32) MIN_STATE_LEN); [unfold MIN_STATE_LEN in *; lia|].
  destruct (Z.ltb_spec MAX_STATE_BYTES (zlen body + 32)); [lia|]. cbn [orb].
  rewrite bool_decide_eq_false_2 by auto. rewrite bool_decide_eq_false_2.
  - by apply decode_body_spec.
  - intros Hne. apply Hne. rewrite Hbody. unfold state_header. rewrite <- !app_assoc.
    apply (get_range_app [] STATE_MAGIC).
Qed.

(** ** Frames *)

(** [st'] is what the protocol may have made of the stored state [st], with
    the first [k] entries of the log unchanged. *)
Record extends (st : StableState) (k : Z) (st' : StableState) : Prop := mkExtends {
  ex_ok : stable_ok st';
  ex_range : 0 ≤ k ≤ zlen (st_log st);
  ex_log : take (Z.to_nat k) (st_log st') = take (Z.to_nat k) (st_log st);
  ex_snapshot : st_snapshot st' = st_snapshot st;
  ex_term : st_current_term st ≤ st_current_term st';
  ex_vote : st_current_term st' = st_current_term st → st_voted_for st ≠ None →
    st_voted_for st' = st_voted_for st;
  ex_commit : st_commit_index st ≤ st_commit_index st' ≤ view_snapshot_index st' + zlen (st_log st');
  ex_kept : st_commit_index st ≤ view_snapshot_index st + k;
  ex_applied : st_last_applied st ≤ st_last_applied st' ≤ st_commit_index st';
  ex_base : view_snapshot_index st ≤ st_last_applied st';
  ex_boot : st_boot_counter st ≤ st_boot_counter st';
  ex_u64 : view_snapshot_index st' + zlen (st_log st') ≤ U64_MAX;
}.

Lemma encode_frame_entries_spec log : ∀ expected out b,
  Forall (λ e, is_u64 (e_term e)) log → 0 ≤ expected → expected + zlen log ≤ U64_MAX + 1 →
  encode_frame_entries log expected out = Ok b →
  b = out ++ concat (map entry_bytes log) ∧ entries_ok expected log.
Proof.
  induction log as [|e log IH]; intros expected out b Hf H0 Hu; simpl.
  - intros [= <-]. rewrite app_nil_r. split; [done|by intros k e Hk].
  - rewrite zlen_cons in Hu. pose proof (zlen_nonneg log). inversion Hf as [|? ? Ht Hf']; subst.
    assert (is_u64 expected) as He by (unfold is_u64, U64_MAX in *; lia). rewrite (u64_wrap_id _ He).
    case_match eqn:E1; [done|]. apply orb_false_elim in E1 as [E1 E3]. bool_prop. intros E.
    destruct (IH (expected + 1) (out ++ entry_bytes e) b Hf' ltac:(lia) ltac:(lia) E) as (-> & Hok).
    split; [by rewrite <- app_assoc|].
    intros [|k] x; simpl; [intros [= <-]|intros Hk].
    + constructor; [done|lia|by rewrite Z.add_0_r|done].
    + replace (expected + Z.of_nat (S k)) with (expected + 1 + Z.of_nat k) by lia. auto.
Qed.

Lemma frame_header_len st k c : zlen (frame_header st k c) = MIN_WAL_FRAME_BODY.
Proof.
  unfold frame_header. rewrite !zlen_app. unfold vote_bytes. destruct (st_voted_for st);
    rewrite ?zlen_cons, !zlen_u64, !zlen_u32; reflexivity.
Qed.

(** Every frame has at least the fixed part. *)
Lemma encode_wal_body_min st k b : encode_wal_body st k = Ok b → MIN_WAL_FRAME_BODY ≤ zlen b.
Proof.
  unfold encode_wal_body. case_match; [done|].
  assert (∀ log expected out, encode_frame_entries log expected out = Ok b → zlen out ≤ zlen b) as Hm.
  { induction log as [|e log IH]; intros expected out; simpl; [intros [= <-]; lia|].
    case_match; [done|]. intros E. apply IH in E. rewrite zlen_app in E.
    pose proof (zlen_nonneg (entry_bytes e)). lia. }
  intros E. apply Hm in E. by rewrite frame_header_len in E.
Qed.

Lemma apply_wal_frame_spec st k st' body :
  stable_ok st → extends st k st' → encode_wal_body st' k = Ok body → zlen body ≤ USIZE_MAX →
  apply_wal_frame st body = Ok st'.
Proof.
  intros Hst [] Hb Hlen. unfold encode_wal_body in Hb. case_match eqn:Eg; [done|].
  apply orb_false_elim in Eg as [Eg1 Eg2]. bool_prop. pose proof ex_ok0 as [].
  set (es := drop (Z.to_nat k) (st_log st')) in *.
  assert (zlen es = zlen (st_log st') - k) as Hes by (unfold es, zlen in *; rewrite length_drop; lia).
  assert (view_snapshot_index st' = view_snapshot_index st) as Hsi.
  { unfold view_snapshot_index. by rewrite ex_snapshot0. }
  apply encode_frame_entries_spec in Hb as [Hb Hent];
    [|by apply Forall_drop|unfold is_u64 in *; lia|rewrite Hes; lia].
  assert (at_ body 0 (body ++ [])) as A0 by (rewrite app_nil_r; by apply at_start).
  rewrite Hb in A0 at 2. unfold frame_header in A0. rewrite <- !app_assoc in A0.
  pose proof (zlen_nonneg es).
  rewrite (Z.mod_small (zlen es)) in A0 by (unfold MAX_LOG_ENTRIES in *; lia).
  assert (is_u32 (zlen es)) as Hu by (unfold is_u32, U32_MAX, MAX_LOG_ENTRIES in *; lia).
  assert (is_u64 k) as Hk by (unfold is_u64, U64_MAX, MAX_LOG_ENTRIES in *; lia).
  unfold apply_wal_frame.
  destruct (take_u64_at _ _ _ _ so_term0 A0) as [-> A1]. cbn [obind].
  destruct (take_vote_at "Raft WAL 투표 상태 값이 빠져 있습니다" "Raft 로그 파일의 투표 상태 값이 올바르지 않습니다"
              _ _ _ _ so_vote0 A1) as [-> A2]. cbn [obind].
  destruct (take_u64_at _ _ _ _ so_commit0 A2) as [-> A3]. cbn [obind].
  destruct (take_u64_at _ _ _ _ so_applied0 A3) as [-> A4]. cbn [obind].
  destruct (take_u64_at _ _ _ _ so_boot0 A4) as [-> A5]. cbn [obind].
  destruct (take_u64_at _ _ _ _ Hk A5) as [-> A6]. cbn [obind].
  destruct (take_u32_at _ _ _ _ Hu A6) as [-> A7]. cbn [obind].
  repeat match goal with |- context [?a <? ?b] =>
    destruct (Z.ltb_spec a b); [unfold saturating_add, USIZE_MAX, U64_MAX, is_u64, MAX_LOG_ENTRIES in *; lia|] end.
  cbn [orb]. destruct ((st_current_term st' =? st_current_term st) && _ && _) eqn:Ev.
  { exfalso. apply andb_prop in Ev as [Ev V3]. apply andb_prop in Ev as [V1 V2]. bool_prop.
    apply bool_decide_eq_true in V2, V3. auto. }
  unfold checked_add.
  destruct (Z.leb_spec (k + zlen es) USIZE_MAX); [|unfold USIZE_MAX, MAX_LOG_ENTRIES in *; lia].
  destruct (Z.leb_spec (view_snapshot_index st + (k + zlen es)) USIZE_MAX); [|unfold USIZE_MAX, U64_MAX in *; lia].
  repeat match goal with |- context [?a <? ?b] => destruct (Z.ltb_spec a b); [lia|] end. cbn [orb].
  rewrite <- Hsi. unfold frame_entries. replace (Z.to_nat (zlen es)) with (length es) by (unfold zlen; lia).
  destruct (take_entries_at "Raft WAL 항목 형식이 올바르지 않습니다" "Raft WAL 길이 계산 범위를 넘었습니다"
              "Raft WAL 데이터가 중간에서 잘렸습니다" _ _ _ _ _ Hent A7) as (pos & -> & A8). cbn [obind].
  apply at_end in A8 as ->. rewrite Z.eqb_refl. cbn [negb].
  rewrite <- ex_log0, <- ex_snapshot0. unfold es. rewrite take_drop. by destruct st'.
Qed.

(** ** Replaying *)
Lemma encode_wal_frame_spec st k fr :
  encode_wal_frame sha256 st k = Ok fr →
  ∃ body, encode_wal_body st k = Ok body ∧
    fr = u32_to_be (zlen body mod 2 ^ 32) ++ body ++ sha256 body ∧ MIN_WAL_FRAME_BODY ≤ zlen body.
Proof.
  unfold encode_wal_frame. destruct (encode_wal_body st k) as [body| | |] eqn:E; try done.
  simpl. intros [= <-]. eauto using encode_wal_body_min.
Qed.

Context (Hsha : ∀ m, zlen (sha256 m) = 32).

(** What the replay sees of a frame whose length field is complete. *)
Lemma replay_unfold fuel (bytes : list Z) pos st (body s : list Z) :
  MIN_WAL_FRAME_BODY ≤ zlen body ≤ MAX_WAL_BYTES → zlen bytes ≤ MAX_WAL_BYTES →
  at_ bytes pos (u32_to_be (zlen body mod 2 ^ 32) ++ s) →
  replay sha256 (S fuel) bytes pos st =
    match get_range bytes (pos + 4) (pos + 4 + zlen body),
          get_range bytes (pos + 4 + zlen body) (pos + 4 + zlen body + 32) with
    | Some b, Some digest =>
        if bool_decide (sha256 b ≠ digest) then
          if pos + 4 + zlen body + 32 <? zlen bytes
          then Err "Raft WAL 중간 프레임의 검사합이 일치하지 않습니다" else Ok (pos, st)
        else obind (apply_wal_frame st b) (replay sha256 fuel bytes (pos + 4 + zlen body + 32))
    | _, _ => Ok (pos, st)
    end.
Proof.
  intros Hb Hmax Ha. destruct (file_at_range _ _ _ _ Ha) as [Hc Hg]. rewrite zlen_u32 in *.
  assert (0 ≤ pos) as Hpos by (destruct Ha as (_ & pre & _ & ->); apply zlen_nonneg).
  pose proof (at_skip _ _ _ _ Ha) as (_ & pre' & Epre & Hpre). rewrite zlen_u32 in Hpre.
  assert (pos + 4 ≤ zlen bytes) by (rewrite Epre, zlen_app; pose proof (zlen_nonneg s); lia).
  pose proof (zlen_nonneg body). cbn [replay]. destruct (Z.leb_spec (zlen bytes) pos); [lia|].
  rewrite Hc, Hg. rewrite be_val_u32 by (unfold is_u32, U32_MAX; div_mod_lia).
  rewrite (Z.mod_small (zlen body)) by (unfold MAX_WAL_BYTES in *; lia). cbv zeta. rewrite Z.mul_0_l, Z.add_0_l.
  destruct (Z.ltb_spec (zlen body) MIN_WAL_FRAME_BODY); [lia|].
  destruct (Z.ltb_spec MAX_WAL_BYTES (zlen body)); [lia|]. cbn [orb].
  unfold checked_add, MAX_WAL_BYTES in *.
  destruct (Z.leb_spec (pos + 4 + zlen body) USIZE_MAX); [|unfold USIZE_MAX in *; lia].
  destruct (Z.leb_spec (pos + 4 + zlen body + 32) USIZE_MAX); [|unfold USIZE_MAX in *; lia].
  reflexivity.
Qed.

Lemma replay_frame fuel (bytes : list Z) pos st k st' fr rest :
  stable_ok st → extends st k st' → encode_wal_frame sha256 st' k = Ok fr →
  zlen bytes ≤ MAX_WAL_BYTES → at_ bytes pos (fr ++ rest) →
  replay sha256 (S fuel) bytes pos st = replay sha256 fuel bytes (pos + zlen fr) st' ∧
  at_ bytes (pos + zlen fr) rest.
Proof.
  intros Hst Hext Hfr Hmax Ha. split; [|by apply at_skip].
  destruct (encode_wal_frame_spec _ _ _ Hfr) as (body & Hbody & -> & Hmin).
  rewrite <- !app_assoc in Ha.
  assert (zlen body ≤ MAX_WAL_BYTES) as Hle.
  { destruct Ha as (_ & pre & -> & _). rewrite !zlen_app in Hmax. pose proof (zlen_nonneg pre).
    pose proof (zlen_nonneg rest). rewrite zlen_u32, Hsha in Hmax. lia. }
  rewrite (replay_unfold fuel bytes pos st body (body ++ sha256 body ++ rest)) by done.
  pose proof (at_skip _ _ _ _ Ha) as Ha1. rewrite zlen_u32 in Ha1.
  destruct (file_at_range _ _ _ _ Ha1) as [_ ->]. pose proof (at_skip _ _ _ _ Ha1) as Ha2.
  destruct (file_at_range _ _ _ _ Ha2) as [_ Hg]. rewrite Hsha in Hg. rewrite Hg.
  rewrite bool_decide_eq_false_2 by auto.
  rewrite (apply_wal_frame_spec st k st' body) by (try done; unfold MAX_WAL_BYTES, USIZE_MAX in *; lia).
  cbn [obind]. rewrite !zlen_app, zlen_u32, Hsha. f_equal. lia.
Qed.

Lemma get_range_past {A} (l : list A) a b : zlen l < b → get_range l a b = None.
Proof.
  intros Hb. unfold get_range. case_match eqn:E; [|done]. apply andb_prop in E as [_ E]. bool_prop. lia.
Qed.

(** A frame that was cut short is ignored. *)
Lemma replay_torn fuel (bytes : list Z) pos st k st' (fr tail tail' : list Z) :
  encode_wal_frame sha256 st' k = Ok fr → zlen fr ≤ MAX_WAL_BYTES → fr = tail ++ tail' → tail' ≠ [] →
  zlen bytes ≤ MAX_WAL_BYTES → at_ bytes pos tail →
  replay sha256 (S fuel) bytes pos st = Ok (pos, st).
Proof.
  intros Hfr Hle Ht Hne Hmax Ha.
  destruct (encode_wal_frame_spec _ _ _ Hfr) as (body & _ & Ebody & Hmin).
  assert (zlen bytes = pos + zlen tail) as Hlen.
  { destruct Ha as (_ & pre & -> & ->). by rewrite zlen_app. }
  assert (0 ≤ pos) as Hpos by (destruct Ha as (_ & pre & _ & ->); apply zlen_nonneg).
  assert (zlen tail < zlen fr) as Hshort.
  { rewrite Ht, zlen_app. destruct tail' as [|x l]; [done|]. rewrite zlen_cons. pose proof (zlen_nonneg l). lia. }
  assert (zlen fr = 4 + zlen body + 32) as Hfl by (rewrite Ebody, !zlen_app, zlen_u32, Hsha; lia).
  pose proof (zlen_nonneg tail).
  destruct (decide (zlen tail < 4)) as [H4|H4].
  - cbn [replay]. case_match; [done|]. unfold checked_add. unfold MAX_WAL_BYTES, USIZE_MAX in *.
    destruct (Z.leb_spec (pos + 4) 18446744073709551615); [|lia].
    rewrite get_range_past by lia. done.
  - assert (∃ s, tail = u32_to_be (zlen body mod 2 ^ 32) ++ s) as (s & Hs).
    { rewrite Ht in Ebody. exists (drop 4 tail).
      assert (take 4 tail = u32_to_be (zlen body mod 2 ^ 32)) as <-; [|by rewrite take_drop].
      apply (f_equal (take 4)) in Ebody. rewrite !take_app_le in Ebody by (rewrite ?length_app; unfold zlen in *; simpl; lia).
      rewrite Ebody. by apply take_app_length'. }
    rewrite Hs in Ha.
    rewrite (replay_unfold fuel bytes pos st body s); [|lia|done|done].
    case_match; [|done]. rewrite get_range_past by lia. done.
Qed.

(** The frames of a run of the protocol, from one stored state to another. *)
Inductive logged : StableState → list Z → StableState → Prop :=
  | logged_nil st : logged st [] st
  | logged_cons st k st1 fr rest st2 :
      extends st k st1 → encode_wal_frame sha256 st1 k = Ok fr → logged st1 rest st2 →
      logged st (fr ++ rest) st2.

(** What a crash in the middle of a write may leave behind. *)
Definition torn (tail : list Z) : Prop :=
  tail = [] ∨ ∃ st k fr tail', encode_wal_frame sha256 st k = Ok fr ∧ zlen fr ≤ MAX_WAL_BYTES ∧
    fr = tail ++ tail' ∧ tail' ≠ [].

Lemma replay_logged st w st' tail :
  logged st w st' → torn tail → ∀ bytes pos fuel,
  stable_ok st → zlen bytes ≤ MAX_WAL_BYTES → at_ bytes pos (w ++ tail) →
  (length w < fuel)%nat → replay sha256 fuel bytes pos st = Ok (pos + zlen w, st').
Proof.
  intros Hl Ht. induction Hl as [st|st k st1 fr rest st2 Hext Hfr _ IH]; intros bytes pos fuel Hst Hmax Ha Hf.
  - destruct fuel as [|fuel]; [simpl in Hf; lia|]. change (zlen []) with 0. rewrite Z.add_0_r.
    destruct Ht as [->|(st' & k & fr & tail' & Hfr & Hle & Heq & Hne)].
    + apply at_end in Ha as ->. cbn [replay]. by rewrite Z.leb_refl.
    + by apply (replay_torn fuel bytes pos st k st' fr tail tail').
  - destruct fuel as [|fuel]; [lia|]. rewrite <- app_assoc in Ha.
    destruct (replay_frame fuel _ _ _ _ _ _ _ Hst Hext Hfr Hmax Ha) as [-> Ha'].
    rewrite (IH bytes _ fuel (ex_ok _ _ _ Hext) Hmax Ha').
    + rewrite zlen_app. do 2 f_equal. lia.
    + rewrite length_app in Hf. destruct (encode_wal_frame_spec _ _ _ Hfr) as (body & _ & -> & _).
      rewrite length_app in Hf. change (length (u32_to_be _)) with 4%nat in Hf. lia.
Qed.

(** The digest at the end of a state file. *)
Definition digest_of (b : list Z) : list Z := drop (Z.to_nat (zlen b - 32)) b.

Lemma zlen_digest_of st b : stable_ok st → encode_state sha256 st = Ok b → zlen (digest_of b) = 32.
Proof.
  intros Hok He. destruct (encode_state_spec st b Hok He) as (body & -> & _).
  unfold digest_of. rewrite zlen_app, Hsha.
  replace (Z.to_nat (zlen body + 32 - 32)) with (length body) by (unfold zlen; lia).
  by rewrite drop_app_length.
Qed.

(** The state file by itself. *)
Lemma load_files_based st0 b wal :
  stable_ok st0 → view_snapshot_index st0 ≠ 0 ∨ st_snapshot st0 = None →
  encode_state sha256 st0 = Ok b →
  load_files sha256 (Bytes b) wal =
    obind (load_wal sha256 wal (digest_of b) st0) (λ '(len, st), Ok (mkLoaded st (Some (digest_of b)) len)).
Proof.
  intros Hok Hsn He. pose proof (state_roundtrip_lemma st0 b Hsha Hok Hsn He) as Hd.
  destruct (encode_state_spec st0 b Hok He) as (body & Eb & _ & _ & Hlen & _).
  unfold load_files. destruct (Z.ltb_spec MAX_STATE_BYTES (zlen b)).
  { rewrite Eb, zlen_app, Hsha in *. lia. }
  by rewrite Hd.
Qed.

(** The header of the log decides whether its frames are read. *)
Lemma load_wal_header h rest h' st :
  zlen h = 32 → zlen (wal_header h ++ rest) ≤ MAX_WAL_BYTES →
  let wal := wal_header h ++ rest in
  load_wal sha256 (Bytes wal) h' st =
    (if bool_decide (h ≠ h') then Ok (0, st)
     else replay sha256 (S (length wal)) wal WAL_HEADER_LEN st) ∧
  at_ wal WAL_HEADER_LEN rest.
Proof.
  intros Hh Hmax wal. unfold load_wal.
  destruct (Z.ltb_spec MAX_WAL_BYTES (zlen wal)); [unfold wal in *; lia|].
  assert (at_ wal 0 (WAL_MAGIC ++ h ++ rest)) as A0.
  { unfold wal, wal_header. rewrite <- app_assoc. apply at_start.
    unfold wal, wal_header in Hmax. rewrite <- app_assoc in Hmax. unfold MAX_WAL_BYTES, USIZE_MAX in *. lia. }
  destruct (file_at_range _ _ _ _ A0) as [_ G0]. rewrite Z.add_0_l in G0. rewrite G0.
  pose proof (at_skip _ _ _ _ A0) as A1. destruct (file_at_range _ _ _ _ A1) as [_ G1].
  pose proof (at_skip _ _ _ _ A1) as A2. rewrite Z.add_0_l in *.
  assert (zlen WAL_MAGIC + zlen h = WAL_HEADER_LEN) as Hhl by (rewrite Hh; reflexivity).
  rewrite Hhl in *. rewrite bool_decide_eq_false_2 by auto.
  destruct (Z.ltb_spec (zlen wal) WAL_HEADER_LEN).
  { destruct A2 as (_ & pre & E & Hp). rewrite E, zlen_app in *. pose proof (zlen_nonneg rest). lia. }
  cbn [orb]. rewrite G1. split; [|done].
  destruct (decide (h = h')) as [->|Hne].
  - rewrite !bool_decide_eq_false_2 by (intros Hne; by apply Hne). done.
  - rewrite !bool_decide_eq_true_2 by congruence. done.
Qed.

Lemma recovery_lemma st0 b w st tail :
  stable_ok st0 → view_snapshot_index st0 ≠ 0 ∨ st_snapshot st0 = None →
  encode_state sha256 st0 = Ok b → logged st0 w st → torn tail →
  let digest := drop (Z.to_nat (zlen b - 32)) b in
  let wal := wal_header digest ++ w ++ tail in
  zlen wal ≤ MAX_WAL_BYTES →
  load_files sha256 (Bytes b) (Bytes wal) = Ok (mkLoaded st (Some digest) (WAL_HEADER_LEN + zlen w)).
Proof.
  intros Hok Hsn He Hl Ht digest wal Hmax. rewrite (load_files_based st0) by done.
  destruct (load_wal_header (digest_of b) (w ++ tail) (digest_of b) st0) as [E Ha];
    [by eapply zlen_digest_of|done|]. change (wal_header (digest_of b) ++ w ++ tail) with wal in *.
  rewrite E, bool_decide_eq_false_2 by auto.
  rewrite (replay_logged st0 w st tail Hl Ht wal WAL_HEADER_LEN); [done|done|done|done|].
  unfold wal. rewrite !length_app. lia.
Qed.
End digest.
