(* ===== verification/RaftRecovery.v ===== *)
(** * Raft: what a restart accepts

    Whatever octets the two files hold, recovery returns a state or an error;
    a state it returns satisfies the invariant of the log. *)

From S2P Require Import Prelude Raft RaftLog.
From S2P Require Import RaftFile.

#[local] Open Scope outcome_scope.

(** A value with [P], or an error. *)
Definition yields {E A} (P : A → Prop) (o : outcome E A) : Prop :=
  match o with Ok a => P a | Err _ => True | Panic | NoFuel => False end.

Lemma yields_bind {E A B} (P : A → Prop) (Q : B → Prop) (o : outcome E A) (k : A → outcome E B) :
  yields P o → (∀ a, P a → yields Q (k a)) → yields Q (obind o k).
Proof. destruct o; simpl; auto. Qed.

(** A machine integer, whatever the position behind it. *)
Definition number (r : Z * Z) : Prop := is_u64 r.1.

Lemma be_val_slice body a b s :
  is_bytes body → b - a ≤ 8 → get_range body a b = Some s → is_u64 (be_val 0 s).
Proof.
  intros Hb Hw Hg. pose proof (Forall_get_range _ _ _ _ _ Hb Hg) as Hs.
  apply get_range_Some in Hg as (? & ? & _ & Hl).
  pose proof (be_val_bound s 0 Hs ltac:(lia)) as Hv.
  assert (256 ^ zlen s ≤ 256 ^ 8) by (apply Z.pow_le_mono_r; lia). unfold is_u64, U64_MAX. lia.
Qed.

Section bytes.
Context (body : list Z) (Hb : is_bytes body).

Lemma take_u64_yields pos : yields number (take_u64 body pos).
Proof.
  unfold take_u64. destruct (checked_add pos 8) as [e|] eqn:Ec; [|done].
  apply checked_add_Some in Ec as [-> _]. destruct (get_range _ _ _) as [s|] eqn:Eg; [|done].
  apply (be_val_slice body pos (pos + 8)); [done|lia|done].
Qed.

Lemma take_u32_yields pos : yields number (take_u32 body pos).
Proof.
  unfold take_u32. destruct (checked_add pos 4) as [e|] eqn:Ec; [|done].
  apply checked_add_Some in Ec as [-> _]. destruct (get_range _ _ _) as [s|] eqn:Eg; [|done].
  apply (be_val_slice body pos (pos + 4)); [done|lia|done].
Qed.

Lemma take_bytes_yields e1 e2 pos len : yields (λ _, True) (take_bytes e1 e2 body pos len).
Proof. unfold take_bytes. by repeat case_match. Qed.

Lemma take_vote_yields e1 e2 pos : yields (λ _, True) (take_vote e1 e2 body pos).
Proof.
  unfold take_vote. case_match; [|done]. eapply yields_bind; [apply take_u64_yields|].
  intros [id p] _. by repeat case_match.
Qed.

Lemma take_entries_yields e1 e2 e3 count : ∀ expected pos,
  yields (λ r, length r.1 = count ∧
               ∀ k e, r.1 !! k = Some e → e_index e = u64_wrap (expected + Z.of_nat k))
    (take_entries e1 e2 e3 count expected body pos).
Proof.
  induction count as [|count IH]; intros expected pos; simpl; [done|].
  eapply yields_bind; [apply take_u64_yields|]. intros [term p1] _.
  eapply yields_bind; [apply take_u64_yields|]. intros [index p2] _.
  eapply yields_bind; [apply take_u32_yields|]. intros [len p3] _.
  case_match eqn:E; [done|]. apply orb_false_elim in E as [E _]. bool_prop.
  eapply yields_bind; [apply take_bytes_yields|]. intros [data p4] _.
  eapply yields_bind; [apply (IH (expected + 1))|]. intros [log p5] [Hl Hi]. simpl in *.
  split; [by rewrite Hl|]. intros [|k] e; simpl.
  - intros [= <-]. simpl. by rewrite Z.add_0_r.
  - intros Hk. rewrite (Hi _ _ Hk). f_equal. lia.
Qed.
End bytes.

(** ** Valid states *)
Record state_valid (st : StableState) : Prop := mkStateValid {
  sv_index : ∀ k e, st_log st !! k = Some e → e_index e = view_snapshot_index st + Z.of_nat k + 1;
  sv_base : 0 ≤ view_snapshot_index st ≤ st_last_applied st;
  sv_applied : st_last_applied st ≤ st_commit_index st;
  sv_commit : st_commit_index st ≤ view_snapshot_index st + zlen (st_log st);
}.

Lemma state_valid_default : state_valid StableState_default.
Proof. constructor; [done|by vm_compute..]. Qed.

Lemma state_valid_log_ok now i ps c path st :
  state_valid st → log_ok (from_stable now i ps c path st).
Proof. intros []. constructor; auto. Qed.

(** Indices that were read are the expected ones when they fit in 64 bits. *)
Lemma wrapped_indices base log (k : nat) e :
  0 ≤ base → base + zlen log ≤ USIZE_MAX →
  (∀ k e, log !! k = Some e → e_index e = u64_wrap (base + 1 + Z.of_nat k)) →
  log !! k = Some e → e_index e = base + Z.of_nat k + 1.
Proof.
  intros H0 Hl Hi Hk. rewrite (Hi _ _ Hk). apply lookup_lt_Some in Hk.
  unfold u64_wrap, zlen, USIZE_MAX in *. rewrite Z.mod_small by lia. lia.
Qed.

Lemma decode_body_yields body : is_bytes body → yields state_valid (decode_body body).
Proof.
  intros Hb. unfold decode_body.
  eapply yields_bind; [by apply take_u64_yields|]. intros [term p1] _.
  eapply yields_bind; [by apply take_vote_yields|]. intros [vote p2] _.
  eapply yields_bind; [by apply take_u64_yields|]. intros [commit p3] _.
  eapply yields_bind; [by apply take_u64_yields|]. intros [applied p4] _.
  eapply yields_bind; [by apply take_u64_yields|]. intros [boot p5] _.
  eapply yields_bind; [by apply take_u64_yields|]. intros [si p6] Hsi.
  eapply yields_bind; [by apply take_u64_yields|]. intros [sterm p7] _.
  eapply yields_bind; [by apply take_u32_yields|]. intros [slen p8] _.
  case_match; [done|].
  eapply yields_bind; [by apply take_bytes_yields|]. intros [sdata p9] _.
  eapply yields_bind; [by apply take_u32_yields|]. intros [count p10] Hcount.
  case_match; [done|].
  eapply yields_bind; [by apply take_entries_yields|]. intros [log p11] [Hlen Hind].
  unfold number, is_u64 in *. simpl in *.
  destruct (checked_add si count) as [last|] eqn:Ec; [|done]. apply checked_add_Some in Ec as [-> Hmax].
  case_match eqn:Eg; [done|]. repeat (apply orb_false_elim in Eg as [Eg ?]). bool_prop. simpl.
  assert (zlen log = count) as Hz by (unfold zlen; lia).
  assert (view_snapshot_index (mkStable term vote log commit applied boot
            (if si =? 0 then None else Some (mkSnapshot si sterm sdata))) = si) as Hv.
  { unfold view_snapshot_index. simpl. destruct (Z.eqb_spec si 0); simpl; lia. }
  constructor; rewrite ?Hv; simpl; [|lia..].
  intros k e Hk. apply (wrapped_indices si log); [lia|lia|done|done].
Qed.

Section digest.
Context (sha256 : list Z → list Z).

Lemma decode_state_yields b : is_bytes b → yields state_valid (decode_state sha256 b).
Proof.
  intros Hb. unfold decode_state. repeat (case_match; [done|]).
  apply decode_body_yields. by apply Forall_take.
Qed.

Lemma apply_wal_frame_yields st body :
  state_valid st → is_bytes body → yields state_valid (apply_wal_frame st body).
Proof.
  intros [] Hb. unfold apply_wal_frame.
  eapply yields_bind; [by apply take_u64_yields|]. intros [term p1] _.
  eapply yields_bind; [by apply take_vote_yields|]. intros [vote p2] _.
  eapply yields_bind; [by apply take_u64_yields|]. intros [commit p3] _.
  eapply yields_bind; [by apply take_u64_yields|]. intros [applied p4] _.
  eapply yields_bind; [by apply take_u64_yields|]. intros [boot p5] _.
  eapply yields_bind; [by apply take_u64_yields|]. intros [k p6] Hk.
  eapply yields_bind; [by apply take_u32_yields|]. intros [count p7] Hcount.
  unfold number, is_u64 in *. simpl in *.
  case_match eqn:E1; [done|]. case_match; [done|]. case_match eqn:E2; [done|].
  destruct (checked_add k count) as [fl|] eqn:Ec1; [|done]. apply checked_add_Some in Ec1 as [-> _].
  destruct (checked_add _ (k + count)) as [fi|] eqn:Ec2; [|done]. apply checked_add_Some in Ec2 as [-> Hmax].
  case_match eqn:E3; [done|].
  eapply yields_bind; [by apply take_entries_yields|]. intros [es p8] [Hlen Hind]. simpl in *.
  case_match; [done|]. simpl. repeat (apply orb_false_elim in E1 as [E1 ?]).
  repeat (apply orb_false_elim in E2 as [E2 ?]). repeat (apply orb_false_elim in E3 as [E3 ?]). bool_prop.
  assert (zlen es = count) as Hz by (unfold zlen; lia).
  assert (zlen (take (Z.to_nat k) (st_log st)) = k) as Hzk.
  { unfold zlen in *. rewrite length_take. lia. }
  constructor; simpl; change (view_snapshot_index (mkStable _ _ _ _ _ _ _)) with (view_snapshot_index st);
    [|lia|lia|rewrite zlen_app; lia].
  intros j e Hj. apply lookup_app_Some in Hj as [Hj|[Hge Hj]].
  - apply lookup_take_Some in Hj as [Hj _]. auto.
  - rewrite (wrapped_indices (view_snapshot_index st + k) es _ _ ltac:(lia) ltac:(lia) Hind Hj).
    unfold zlen in Hzk. lia.
Qed.

Lemma replay_yields bytes : is_bytes bytes → ∀ fuel pos st,
  state_valid st → 0 ≤ pos → (Z.to_nat (zlen bytes - pos) < fuel)%nat →
  yields (λ r, state_valid r.2) (replay sha256 fuel bytes pos st).
Proof.
  intros Hb. induction fuel as [|fuel IH]; intros pos st Hst Hpos Hf; [lia|]. simpl.
  case_match eqn:Ep; [done|]. bool_prop.
  destruct (checked_add pos 4) as [le|] eqn:Ec; [|done]. apply checked_add_Some in Ec as [-> _].
  destruct (get_range bytes pos (pos + 4)) as [lb|] eqn:Eg; [|done]. case_match eqn:El; [done|].
  destruct (checked_add (pos + 4) (be_val 0 lb)) as [ds|] eqn:Ec2; [|done].
  apply checked_add_Some in Ec2 as [-> _].
  destruct (checked_add _ 32) as [fe|] eqn:Ec3; [|done]. apply checked_add_Some in Ec3 as [-> _].
  destruct (get_range bytes (pos + 4) _) as [body|] eqn:Eb; [|done].
  destruct (get_range bytes (pos + 4 + be_val 0 lb) _) as [digest|] eqn:Ed; [|done].
  case_match; [by case_match|].
  eapply yields_bind; [apply apply_wal_frame_yields; [done|by eapply Forall_get_range]|].
  intros st' Hst'. apply orb_false_elim in El as [El _]. bool_prop. unfold MIN_WAL_FRAME_BODY in El.
  apply IH; [done|lia|lia].
Qed.

Lemma load_files_yields sb wb :
  is_bytes sb → is_bytes wb →
  yields (λ ld, state_valid (ld_state ld)) (load_files sha256 (Bytes sb) (Bytes wb)).
Proof.
  intros Hs Hw. unfold load_files. case_match; [done|].
  eapply yields_bind; [by apply decode_state_yields|]. intros st Hst.
  eapply (yields_bind (λ r, state_valid r.2)); [|by intros [len st'] ?].
  unfold load_wal. repeat (case_match; [done|]).
  apply replay_yields; [done|done|unfold WAL_HEADER_LEN; lia|].
  unfold WAL_HEADER_LEN, zlen. lia.
Qed.
End digest.
