(* ===== verification/RaftDisk.v ===== *)
(** * Raft: writing the state

    [persist_at], [append_wal_frame] and the atomic replacement of a file, of
    [src/crates/onetdns-cluster/src/raft.rs], on a disk of two files.  Every
    system call takes its fate from a script: it succeeds, or it fails after
    some part of its effect reached the disk.  A failed call that was not yet
    made durable by an [fsync] may be undone, as by a loss of power, so the
    disk after a failure is also the disk after a crash at that point. *)

From S2P Require Import Prelude Raft.
From S2P Require Import RaftFile.

(** ** Computations over a state that may fail *)
Definition run (S A : Type) : Type := S → outcome string A * S.

Definition rret {S A} (a : A) : run S A := λ s, (Ok a, s).

Definition rbind {S A B} (m : run S A) (k : A → run S B) : run S B := λ s,
  match m s with
  | (Ok a, s) => k a s
  | (Err e, s) => (Err e, s)
  | (Panic, s) => (Panic, s)
  | (NoFuel, s) => (NoFuel, s)
  end.

Definition rread {S} : run S S := λ s, (Ok s, s).
Definition rlift {S A} (o : outcome string A) : run S A := λ s, (o, s).
Definition rfail {S A} (e : string) : run S A := λ s, (Err e, s).

(** [cleanup] runs after a failure of [m]; its own outcome is ignored. *)
Definition ron_error {S A} (m : run S A) (cleanup : S → S) : run S A := λ s,
  match m s with
  | (Ok a, s) => (Ok a, s)
  | (o, s) => (o, cleanup s)
  end.

Declare Scope run_scope.
Delimit Scope run_scope with run.
Notation "'step!' x := m 'in' k" := (rbind m (fun x => k))
  (at level 200, x pattern, m at level 100, k at level 200) : run_scope.
Notation "'do!' m 'in' k" := (rbind m (fun _ => k))
  (at level 200, m at level 100, k at level 200) : run_scope.
#[local] Open Scope run_scope.

(** ** The disk *)

(** The two files: [path] and [wal_path path]. *)
Inductive Which : Type := StateFile | WalFile.

(** The failure of a call: how much of its effect reached the disk, and the
    error. *)
Record Fate := mkFate { kept : nat; io_error : string }.

(** [f_tmp] is the content of the temporary file being written. *)
Record Files := mkFiles {
  f_state : file;
  f_wal : file;
  f_tmp : list Z;
  f_fates : list (option Fate);
}.

Definition get_file (p : Which) (d : Files) : file :=
  match p with StateFile => f_state d | WalFile => f_wal d end.

Definition put_file (p : Which) (x : file) (d : Files) : Files :=
  match p with
  | StateFile => mkFiles x (f_wal d) (f_tmp d) (f_fates d)
  | WalFile => mkFiles (f_state d) x (f_tmp d) (f_fates d)
  end.

Definition put_tmp (x : list Z) (d : Files) : Files := mkFiles (f_state d) (f_wal d) x (f_fates d).
Definition put_fates (x : list (option Fate)) (d : Files) : Files :=
  mkFiles (f_state d) (f_wal d) (f_tmp d) x.

(** A system call: its effect, and the part of it that a failure may leave. *)
Definition syscall (what : string) (whole : Files → Files) (part : nat → Files → Files) :
    run Files unit := λ d,
  match f_fates d with
  | Some f :: fates => (Err (what +:+ io_error f), part (kept f) (put_fates fates d))
  | fates => (Ok tt, whole (put_fates (tail fates) d))
  end.

(** A call without an effect of its own; when it fails, nothing happens. *)
Definition request (what : string) : run Files unit := syscall what id (λ _, id).

(** A change of file [p] from [old] that is not durable yet is lost with the
    power when nothing of it was kept. *)
Definition undone (p : Which) (old : file) (kept : nat) (d : Files) : Files :=
  match kept with O => put_file p old d | S _ => d end.

(** ** Replacing a file *)
Definition write_tmp (bytes : list Z) : run Files unit :=
  syscall "Raft 상태 파일에 데이터를 쓰지 못했습니다: " (put_tmp bytes) (λ k, put_tmp (take k bytes)).

(** [replace_state_file]: the temporary file takes the place of [p]. *)
Definition replace_state_file (p : Which) : run Files unit :=
  syscall "Raft 상태 파일을 원자적으로 교체하지 못했습니다: "
    (λ d, put_file p (Bytes (f_tmp d)) d) (λ _, id).

(** [sync_state_parent] opens the directory and syncs it. *)
Definition sync_state_parent (p : Which) (old : file) : run Files unit :=
  let what := "Raft 상태 디렉터리를 디스크에 동기화하지 못했습니다: " in
  do! syscall what id (undone p old) in
  syscall what id (undone p old).

(** The closure of [write_state_file_atomic]. *)
Definition write_and_replace (p : Which) (bytes : list Z) (old : file) : run Files unit :=
  do! syscall "Raft 상태를 저장할 임시 파일을 열지 못했습니다: " (put_tmp []) (λ _, id) in
  do! request "Raft 임시 상태 파일의 접근 권한을 제한하지 못했습니다: " in
  do! write_tmp bytes in
  do! request "Raft 상태 파일을 디스크에 동기화하지 못했습니다: " in
  do! replace_state_file p in
  do! syscall "Raft 상태 파일의 접근 권한을 제한하지 못했습니다: " id (undone p old) in
  sync_state_parent p old.

Definition remove_tmp (d : Files) : Files := (syscall "" (put_tmp []) (λ _, id) d).2.

Definition write_state_file_atomic (p : Which) (bytes : list Z) : run Files unit :=
  do! request "Raft 상태 파일을 저장할 디렉터리를 만들지 못했습니다: " in
  step! d := rread in
  ron_error (write_and_replace p bytes (get_file p d)) remove_tmp.

Definition reset_wal (base_digest : list Z) : run Files unit :=
  write_state_file_atomic WalFile (wal_header base_digest).

(** ** Appending to the write-ahead log *)

(** [fs::metadata(&wal)?.len()]. *)
Definition wal_metadata_len : run Files Z :=
  let what := "Raft WAL metadata 실패: " in
  do! request what in
  step! d := rread in
  match f_wal d with
  | Bytes bytes => rret (zlen bytes)
  | Absent => rfail what
  | Broken e => rfail (what +:+ e)
  end.

Definition wal_bytes (d : Files) : list Z :=
  match f_wal d with Bytes bytes => bytes | _ => [] end.

(** Cutting the log back to [len] octets. *)
Definition repair_wal (len : Z) : run Files unit :=
  step! d := rread in
  do! request "Raft WAL 열기 실패: " in
  do! syscall "Raft WAL 끝부분 절단 실패: "
        (put_file WalFile (Bytes (take (Z.to_nat len) (wal_bytes d)))) (λ _, id) in
  syscall "Raft WAL 절단 fsync 실패: " id (undone WalFile (f_wal d)).

(** [write_all] and [sync_all] on the open log.  Until the sync succeeds, any
    part of the frame may be lost. *)
Definition append_synced (frame : list Z) : run Files unit :=
  step! d := rread in
  let keep k := put_file WalFile (Bytes (wal_bytes d ++ take k frame)) in
  do! syscall "Raft WAL 쓰지 못했습니다: " (put_file WalFile (Bytes (wal_bytes d ++ frame))) keep in
  syscall "Raft WAL fsync 실패: " id keep.

Definition on_disk {A} (m : run Files A) : run (RaftNode * Files) A := λ s,
  let '(r, d) := m s.2 in (r, (s.1, d)).

Definition on_node (f : RaftNode → RaftNode) : run (RaftNode * Files) unit := λ s,
  (Ok tt, (f s.1, s.2)).

(** The part of [append_wal_frame] that opens the log. *)
Definition create_wal (n : RaftNode) : run (RaftNode * Files) unit :=
  if wal_len n <? WAL_HEADER_LEN then
    match base_digest n with
    | None => rfail "Raft 로그 파일을 만들려면 기준 상태의 지문이 필요합니다"
    | Some digest =>
        do! on_disk (reset_wal digest) in
        on_node (set_wal_len WAL_HEADER_LEN)
    end
  else rret tt.

Definition open_wal : run (RaftNode * Files) unit :=
  step! s := rread in
  do! create_wal s.1 in
  step! on_disk_len := on_disk wal_metadata_len in
  step! s := rread in
  do! (if wal_len s.1 <? on_disk_len then on_disk (repair_wal (wal_len s.1)) else rret tt) in
  do! on_disk (request "Raft WAL append 열기 실패: ") in
  on_node (set_wal_file true).

Definition append_wal_frame (frame : list Z) : run (RaftNode * Files) unit :=
  step! s := rread in
  do! (if wal_file s.1 then rret tt else open_wal) in
  do! ron_error (on_disk (append_synced frame)) (λ s, (set_wal_file false s.1, s.2)) in
  on_node (λ n, set_wal_len (saturating_add (wal_len n) (zlen frame)) n).

(** ** Storing the state of a node *)
Section digest.
Context (sha256 : list Z → list Z).

(** [store_state]; slicing the digest off a shorter string would panic. *)
Definition store_state (st : StableState) : run Files (list Z) :=
  step! bytes := rlift (encode_state sha256 st) in
  if zlen bytes <? 32 then rlift Panic
  else
    let digest := drop (Z.to_nat (zlen bytes - 32)) bytes in
    do! write_state_file_atomic StateFile bytes in
    rret digest.

(** The branch of [persist_at] that rewrites the state file. *)
Definition persist_whole : run (RaftNode * Files) unit :=
  do! on_node (set_wal_file false) in
  step! s := rread in
  step! digest := on_disk (store_state (stable_view s.1)) in
  do! on_disk (reset_wal digest) in
  on_node (λ n, set_snapshot_dirty false (set_base_digest (Some digest) (set_wal_len WAL_HEADER_LEN n))).

Definition must_compact (n : RaftNode) (frame : list Z) : bool :=
  snapshot_dirty n || bool_decide (base_digest n = None)
  || (MAX_WAL_BYTES <? saturating_add (wal_len n) (zlen frame)).

Definition persist_files : run (RaftNode * Files) unit :=
  step! s := rread in
  let truncate_to := Z.min (durable_log_len s.1) (zlen (log s.1)) in
  step! frame := rlift (encode_wal_frame sha256 (stable_view s.1) truncate_to) in
  do! (if must_compact s.1 frame then persist_whole else append_wal_frame frame) in
  on_node (λ n, set_durable_log_len (zlen (log n)) n).

(** [persist_at] and [load_state], as the interface [Storage] of the protocol
    has them.  Storing a state neither panics nor loops. *)
Definition two_files : Storage Files := {|
  persist_at := λ _ s,
    match persist_files s with
    | (Ok _, s) => (None, s)
    | (Err e, s) => (Some e, s)
    | (_, s) => (Some "", s)
    end;
  load_state := λ d,
    match load_files sha256 (f_state d) (f_wal d) with
    | Ok ld => inr ld
    | Err e => inl e
    | _ => inl ""
    end;
|}.
End digest.
