(* ===== verification/RaftDiskSpec.v ===== *)
(** * Raft: writing the state is crash consistent

    Whatever the fates of the system calls, [persist_at] leaves the old state
    or the new one on the disk, and the new one when it succeeds. *)

From S2P Require Import Prelude Raft RaftVotes.
From S2P Require Import RaftFile RaftFileSpec RaftDisk.

#[local] Open Scope run_scope.

(** ** Reasoning about computations

    [leaves m s Q E]: from [s], [m] returns a value and a state with [Q], or
    an error and a state with [E]. *)
Definition leaves {S A} (m : run S A) (s : S) (Q : A → S → Prop) (E : S → Prop) : Prop :=
  match m s with
  | (Ok a, s') => Q a s'
  | (Err _, s') => E s'
  | _ => False
  end.

Lemma leaves_ret {S A} (a : A) (s : S) Q E : Q a s → leaves (rret a) s Q E.
Proof. done. Qed.

Lemma leaves_bind {S A B} (m : run S A) (k : A → run S B) s Q E Q' :
  leaves m s Q' E → (∀ a s', Q' a s' → leaves (k a) s' Q E) → leaves (rbind m k) s Q E.
Proof.
  unfold leaves, rbind. destruct (m s) as [[a|e| |] s']; try done. intros Hm Hk. by apply Hk.
Qed.

Lemma leaves_weaken {S A} (m : run S A) s Q E (Q' : A → S → Prop) (E' : S → Prop) :
  leaves m s Q' E' → (∀ a s', Q' a s' → Q a s') → (∀ s', E' s' → E s') → leaves m s Q E.
Proof. unfold leaves. destruct (m s) as [[a|e| |] s']; auto. Qed.

Lemma leaves_error {S A} (m : run S A) s Q E (E' : S → Prop) :
  leaves m s Q E' → (∀ s', E' s' → E s') → leaves m s Q E.
Proof. unfold leaves. destruct (m s) as [[a|e| |] s']; auto. Qed.

Lemma leaves_on_error {S A} (m : run S A) f s Q E :
  leaves m s Q (λ s', E (f s')) → leaves (ron_error m f) s Q E.
Proof. unfold leaves, ron_error. by destruct (m s) as [[a|e| |] s']. Qed.

(** A computation that reads the state before it runs. *)
Lemma leaves_read {S A} (k : S → run S A) s Q E : leaves (k s) s Q E → leaves (rbind rread k) s Q E.
Proof. done. Qed.

Lemma leaves_syscall what whole part d Q E :
  (∀ fs, Q tt (whole (put_fates fs d))) → (∀ k fs, E (part k (put_fates fs d))) →
  leaves (syscall what whole part) d Q E.
Proof. intros HQ HE. unfold leaves, syscall. destruct (f_fates d) as [|[f|] fs]; auto. Qed.

Lemma leaves_on_disk {A} (m : run Files A) n d (Q : A → RaftNode * Files → Prop) E :
  leaves m d (λ a d', Q a (n, d')) (λ d', E (n, d')) → leaves (on_disk m) (n, d) Q E.
Proof. unfold leaves, on_disk. cbn [fst snd]. by destruct (m d) as [[a|e| |] d']. Qed.

(** ** Replacing a file

    [same_but p d d']: the files other than [p] are the same. *)
Definition same_but (p : Which) (d d' : Files) : Prop := ∀ q, q ≠ p → get_file q d' = get_file q d.

(** The two files are those of [d], but [p] holds [x]. *)
Definition holds_file (p : Which) (x : file) (d d' : Files) : Prop :=
  same_but p d d' ∧ get_file p d' = x.

Lemma get_put_file p x d : get_file p (put_file p x d) = x.
Proof. by destruct p. Qed.

Lemma get_put_file_ne p q x d : q ≠ p → get_file q (put_file p x d) = get_file q d.
Proof. by destruct p, q. Qed.

Lemma get_put_fates p fs d : get_file p (put_fates fs d) = get_file p d.
Proof. by destruct p. Qed.

Lemma get_put_tmp p x d : get_file p (put_tmp x d) = get_file p d.
Proof. by destruct p. Qed.

Lemma holds_file_put p x y d d' :
  holds_file p x d d' → holds_file p y d (put_file p y d').
Proof.
  intros [Ho _]. split; [|apply get_put_file]. intros q Hq. rewrite get_put_file_ne by done. by apply Ho.
Qed.

Lemma holds_file_fates p x d d' fs : holds_file p x d d' → holds_file p x d (put_fates fs d').
Proof. intros [Ho <-]. split; [intros q Hq; rewrite get_put_fates; auto|by rewrite get_put_fates]. Qed.

Lemma holds_file_tmp p x d d' t : holds_file p x d d' → holds_file p x d (put_tmp t d').
Proof. intros [Ho <-]. split; [intros q Hq; rewrite get_put_tmp; auto|by rewrite get_put_tmp]. Qed.

Lemma holds_file_undone p x d d' k :
  holds_file p x d d' → holds_file p (get_file p d) d (undone p (get_file p d) k d') ∨
                        holds_file p x d (undone p (get_file p d) k d').
Proof. intros H. destruct k; [left; by eapply holds_file_put|by right]. Qed.

Lemma holds_file_refl p d : holds_file p (get_file p d) d d.
Proof. by split. Qed.

#[local] Hint Resolve holds_file_fates holds_file_tmp holds_file_refl : core.

(** A replacement that succeeds has the new content; one that fails, the old
    or the new. *)
Definition replaced (p : Which) (bytes : list Z) (d d' : Files) : Prop :=
  holds_file p (get_file p d) d d' ∨ holds_file p (Bytes bytes) d d'.

(** One call of the replacement. *)
Ltac call :=
  apply leaves_syscall; intros; unfold id;
  first [by auto|by left; auto|by apply holds_file_undone; auto|idtac].

Lemma write_and_replace_spec p bytes d0 d :
  holds_file p (get_file p d0) d0 d →
  leaves (write_and_replace p bytes (get_file p d0)) d
    (λ _ d', holds_file p (Bytes bytes) d0 d') (replaced p bytes d0).
Proof.
  intros Hd. unfold write_and_replace, request, write_tmp, sync_state_parent.
  apply (leaves_bind _ _ _ _ _ (λ _, holds_file p (get_file p d0) d0)); [call|]. intros _ d1 H1.
  apply (leaves_bind _ _ _ _ _ (λ _, holds_file p (get_file p d0) d0)); [call|]. intros _ d2 H2.
  apply (leaves_bind _ _ _ _ _ (λ _ d', holds_file p (get_file p d0) d0 d' ∧ f_tmp d' = bytes)); [call; split; auto|]. intros _ d3 [H3 T3].
  apply (leaves_bind _ _ _ _ _ (λ _ d', holds_file p (get_file p d0) d0 d' ∧ f_tmp d' = bytes)); [call; split; auto|]. intros _ d4 [H4 T4].
  apply (leaves_bind _ _ _ _ _ (λ _, holds_file p (Bytes bytes) d0)).
  { call. change (f_tmp (put_fates fs d4)) with (f_tmp d4). rewrite T4.
    by eapply holds_file_put, holds_file_fates. }
  intros _ d5 H5. apply (leaves_bind _ _ _ _ _ (λ _, holds_file p (Bytes bytes) d0)); [call|].
  intros _ d6 H6. apply (leaves_bind _ _ _ _ _ (λ _, holds_file p (Bytes bytes) d0)); [call|]. intros _ d7 H7. call.
Qed.

Lemma replaced_remove_tmp p bytes d d' : replaced p bytes d d' → replaced p bytes d (remove_tmp d').
Proof.
  unfold replaced, remove_tmp, syscall. destruct (f_fates d') as [|[f|] fs]; cbn [snd]; intros [|]; auto.
Qed.

Lemma write_state_file_atomic_spec p bytes d :
  leaves (write_state_file_atomic p bytes) d
    (λ _ d', holds_file p (Bytes bytes) d d') (replaced p bytes d).
Proof.
  unfold write_state_file_atomic. apply leaves_bind with (λ _ d', holds_file p (get_file p d) d d').
  { apply leaves_syscall; intros; [unfold id; auto|left; unfold id; auto]. }
  intros _ d1 H1. apply leaves_read.
  apply leaves_on_error. pose proof H1 as [_ Hg]. rewrite Hg.
  eapply leaves_weaken; [by apply write_and_replace_spec|done|apply replaced_remove_tmp].
Qed.

Section digest.
Context (sha256 : list Z → list Z) (Hsha : ∀ m, zlen (sha256 m) = 32).

(** ** What the disk holds *)

Definition snapshot_sane (st : StableState) : Prop :=
  view_snapshot_index st ≠ 0 ∨ st_snapshot st = None.

(** [b] is a state file with the state [st]. *)
Definition based (b : list Z) (st : StableState) : Prop :=
  stable_ok st ∧ snapshot_sane st ∧ encode_state sha256 st = Ok b.

(** A write-ahead log of the base with digest [h], of a bearable length. *)
Definition wal_of (h rest : list Z) (x : file) : Prop :=
  x = Bytes (wal_header h ++ rest) ∧ zlen h = 32 ∧ zlen (wal_header h ++ rest) ≤ MAX_WAL_BYTES.

Definition wal_ok (x : file) : Prop := x = Absent ∨ ∃ h rest, wal_of h rest x.

(** The disk holds [st]: nothing was written yet; or the state file alone
    counts; or the log of its base continues it.  The digest of the base and
    the length of the good part of the log are those a restart finds. *)
Inductive holds (d : Files) : option (list Z) → Z → StableState → Prop :=
  | holds_nothing : f_state d = Absent → wal_ok (f_wal d) → holds d None 0 StableState_default
  | holds_base b st : f_state d = Bytes b → based b st → wal_ok (f_wal d) →
      (∀ rest, ¬ wal_of (digest_of b) rest (f_wal d)) → holds d (Some (digest_of b)) 0 st
  | holds_log b st0 w st tail : f_state d = Bytes b → based b st0 → logged sha256 st0 w st →
      torn sha256 tail → wal_of (digest_of b) (w ++ tail) (f_wal d) →
      holds d (Some (digest_of b)) (WAL_HEADER_LEN + zlen w) st.

(** Some base and log on the disk hold [st]. *)
Definition keeps (d : Files) (st : StableState) : Prop := ∃ dg len, holds d dg len st.

Lemma holds_same_files d d' dg len st :
  f_state d' = f_state d → f_wal d' = f_wal d → holds d dg len st → holds d' dg len st.
Proof.
  intros Es Ew []; [apply holds_nothing|apply holds_base|eapply holds_log]; rewrite ?Es, ?Ew; eauto.
Qed.

Lemma keeps_ext d d' st : f_state d' = f_state d → f_wal d' = f_wal d → keeps d st → keeps d' st.
Proof. intros Es Ew (dg & len & H). exists dg, len. by eapply holds_same_files. Qed.

Lemma keeps_fates d fs st : keeps d st → keeps (put_fates fs d) st.
Proof. by apply keeps_ext. Qed.

Lemma holds_keeps d dg len st : holds d dg len st → keeps d st.
Proof. unfold keeps. eauto. Qed.

Lemma holds_wal_ok d dg len st : holds d dg len st → wal_ok (f_wal d).
Proof. intros []; [done..|]. right. eauto. Qed.

Lemma based_digest b st : based b st → zlen (digest_of b) = 32.
Proof. intros (? & _ & ?). by eapply zlen_digest_of. Qed.

Lemma wal_of_inj h h' rest rest' x : wal_of h rest x → wal_of h' rest' x → h = h' ∧ rest = rest'.
Proof.
  intros (-> & Hh & _) ([= E] & Hh' & _). apply app_inj_1 in E as [-> ->]; [done|]. unfold zlen in *. lia.
Qed.

Lemma logged_snoc st0 w st k fr st1 :
  logged sha256 st0 w st → extends st k st1 → encode_wal_frame sha256 st1 k = Ok fr →
  logged sha256 st0 (w ++ fr) st1.
Proof.
  induction 1 as [|??????? Hext' _ IH]; intros He Hf.
  - rewrite app_nil_l, <- (app_nil_r fr). eapply logged_cons; [done..|constructor].
  - rewrite <- app_assoc. eapply logged_cons; eauto.
Qed.

(** A restart finds the state that the disk holds. *)
Lemma holds_load d dg len st :
  holds d dg len st → load_files sha256 (f_state d) (f_wal d) = Ok (mkLoaded st dg len).
Proof.
  intros [Es Hw|b st' Es (Hok & Hsn & He) Hw Hne|b st0 w st' tail Es (Hok & Hsn & He) Hl Ht (Ew & Hh & Hm)];
    rewrite Es.
  - done.
  - rewrite (load_files_based sha256 Hsha st') by done. destruct Hw as [->|(h & rest & Hw)]; [done|].
    pose proof Hw as (Ew & Hh & Hm). rewrite Ew.
    destruct (load_wal_header sha256 h rest (digest_of b) st' Hh Hm) as [-> _].
    rewrite bool_decide_eq_true_2; [done|]. intros ->. by apply (Hne rest).
  - rewrite Ew. by apply recovery_lemma with st0.
Qed.

(** ** The steps of a rewrite *)

(** A new state file, before the log is reset. *)
Lemma holds_new_base d d' dg len st b st' :
  holds d dg len st → based b st' →
  (∀ rest, wal_of (digest_of b) rest (f_wal d) → f_state d = Bytes b) →
  f_state d' = Bytes b → f_wal d' = f_wal d → keeps d' st ∨ keeps d' st'.
Proof.
  intros H Hb Hfresh Es Ew. pose proof (holds_wal_ok _ _ _ _ H) as Hw.
  destruct Hw as [Ha|(h & rest & Hw)].
  - right. exists (Some (digest_of b)), 0. apply holds_base; [done|done|left; congruence|].
    intros rest (E & _). congruence.
  - destruct (decide (h = digest_of b)) as [->|Hne].
    + left. exists dg, len. eapply holds_same_files; [|done|done]. rewrite Es. symmetry. by eapply Hfresh.
    + right. exists (Some (digest_of b)), 0. apply holds_base; rewrite ?Ew; [done|done|right; eauto|].
      intros rest' Hw'. by destruct (wal_of_inj _ _ _ _ _ Hw Hw').
Qed.

Lemma zlen_wal_header h : zlen h = 32 → zlen (wal_header h) = WAL_HEADER_LEN.
Proof. intros Hh. unfold wal_header. by rewrite zlen_app, Hh. Qed.

(** An empty log of the base. *)
Lemma holds_reset d b st :
  f_state d = Bytes b → based b st → f_wal d = Bytes (wal_header (digest_of b)) →
  holds d (Some (digest_of b)) WAL_HEADER_LEN st.
Proof.
  intros Es Hb Ew. change WAL_HEADER_LEN with (WAL_HEADER_LEN + zlen (@nil Z)).
  apply holds_log with st []; [done|done|constructor|by left|].
  pose proof (based_digest _ _ Hb). split_and!; rewrite ?app_nil_r; [done|done|].
  rewrite zlen_wal_header by done. done.
Qed.

Lemma reset_wal_spec d b st :
  f_state d = Bytes b → based b st → keeps d st →
  leaves (reset_wal (digest_of b)) d
    (λ _ d', f_state d' = Bytes b ∧ f_wal d' = Bytes (wal_header (digest_of b))) (λ d', keeps d' st).
Proof.
  intros Es Hb Hk. eapply leaves_weaken; [apply write_state_file_atomic_spec|..].
  - intros _ d' [Ho Hf]. split; [|done]. rewrite <- Es. by apply (Ho StateFile).
  - intros d' [[Ho Hf]|[Ho Hf]]; pose proof (Ho StateFile ltac:(done)) as Hs; simpl in Hf, Hs.
    + by eapply keeps_ext.
    + eapply holds_keeps, holds_reset; [|done|done]. congruence.
Qed.

(** ** Opening the log and appending a frame *)

(** The bookkeeping of the node agrees with the disk. *)
Definition tracks (n : RaftNode) (d : Files) (st : StableState) : Prop :=
  holds d (base_digest n) (wal_len n) st ∧
  (wal_file n = true → ∃ x, f_wal d = Bytes x ∧ zlen x = wal_len n).

Definition opened (n n' : RaftNode) : Prop :=
  ∃ len, n' = set_wal_file true (set_wal_len len n) ∧ (len = wal_len n ∨ len = WAL_HEADER_LEN).

Lemma repair_spec d n st x :
  holds d (base_digest n) (wal_len n) st → f_wal d = Bytes x → WAL_HEADER_LEN ≤ wal_len n ≤ zlen x →
  let cut := Bytes (take (Z.to_nat (wal_len n)) x) in
  ∀ d', f_state d' = f_state d → f_wal d' = cut →
  holds d' (base_digest n) (wal_len n) st ∧ zlen (take (Z.to_nat (wal_len n)) x) = wal_len n.
Proof.
  intros H Ew Hle cut d' Es Ew'. split; [|unfold zlen in *; rewrite length_take; unfold WAL_HEADER_LEN in *; lia].
  inversion H as [? ? Hd Hl|b ? ? ? ? ? Hd Hl|b st0 w ? tail Es0 Hb Hlog Ht (E & Hh & Hm) Hd Hl Hst].
  - rewrite <- Hl in Hle. unfold WAL_HEADER_LEN in Hle. lia.
  - rewrite <- Hl in Hle. unfold WAL_HEADER_LEN in Hle. lia.
  - assert (x = wal_header (digest_of b) ++ w ++ tail) as -> by congruence.
    assert (take (Z.to_nat (wal_len n)) (wal_header (digest_of b) ++ w ++ tail) = wal_header (digest_of b) ++ w) as Et.
    { rewrite <- Hl, app_assoc. apply take_app_length'. rewrite length_app.
      pose proof (zlen_wal_header _ Hh). unfold zlen, WAL_HEADER_LEN in *. lia. }
    unfold cut in Ew'. rewrite Et in Ew'. apply holds_log with st0 []; rewrite ?app_nil_r; try congruence.
    + by left.
    + split_and!; [done|done|]. rewrite !zlen_app in *. pose proof (zlen_nonneg tail). lia.
Qed.

(** The log as [open_wal] finds it, and what it leaves. *)
Lemma holds_some d n st : holds d (base_digest n) (wal_len n) st → base_digest n ≠ None →
  ∃ b st0, f_state d = Bytes b ∧ based b st0 ∧ base_digest n = Some (digest_of b) ∧
    (wal_len n < WAL_HEADER_LEN → st0 = st).
Proof.
  intros H Hne. inversion H as [? ? Hd|b ? ? ? ? ? Hd Hl|b st0 w ? tail ? ? ? ? ? Hd Hl].
  - by rewrite <- Hd in Hne.
  - by exists b, st.
  - exists b, st0. split_and!; try done. pose proof (zlen_nonneg w). lia.
Qed.

Lemma holds_long d n st : holds d (base_digest n) (wal_len n) st → WAL_HEADER_LEN ≤ wal_len n →
  ∃ x, f_wal d = Bytes x ∧ wal_len n ≤ zlen x.
Proof.
  intros H Hl. inversion H as [? ? Hd Hlen|b ? ? ? ? ? Hd Hlen|b st0 w ? tail ? ? ? ? (E & Hh & _) Hd Hlen].
  - rewrite <- Hlen in Hl. unfold WAL_HEADER_LEN in Hl. lia.
  - rewrite <- Hlen in Hl. unfold WAL_HEADER_LEN in Hl. lia.
  - eexists. split; [done|]. rewrite !zlen_app, (zlen_wal_header _ Hh). pose proof (zlen_nonneg tail). lia.
Qed.

Definition spoiled (st : StableState) (s : RaftNode * Files) : Prop := keeps s.2 st.

Lemma create_wal_spec n d st :
  holds d (base_digest n) (wal_len n) st → base_digest n ≠ None →
  leaves (create_wal n) (n, d)
    (λ _ s, ∃ len, s.1 = set_wal_len len n ∧ (len = wal_len n ∨ len = WAL_HEADER_LEN) ∧
       WAL_HEADER_LEN ≤ len ∧ holds s.2 (base_digest n) len st)
    (spoiled st).
Proof.
  intros H Hne. unfold create_wal. destruct (Z.ltb_spec (wal_len n) WAL_HEADER_LEN) as [Hl|Hl].
  - destruct (holds_some _ _ _ H Hne) as (b & st0 & Es & Hb & Ed & Hst). rewrite Ed.
    apply leaves_bind with (λ _ s, s.1 = n ∧ holds s.2 (Some (digest_of b)) WAL_HEADER_LEN st).
    + apply leaves_on_disk. eapply leaves_weaken.
      * apply (reset_wal_spec d b st); [done| |by eapply holds_keeps]. by rewrite <- (Hst Hl).
      * intros _ d' [Es' Ew']. split; [done|]. apply holds_reset; [done| |done]. by rewrite <- (Hst Hl).
      * done.
    + intros _ [n1 d1] [En H1]. simpl in En, H1. subst n1. exists WAL_HEADER_LEN.
      split_and!; auto; lia.
  - exists (wal_len n). split_and!; [by destruct n|by left|done|done].
Qed.

Lemma wal_metadata_spec d st (Q : Z → Files → Prop) :
  keeps d st → (∀ x fs, f_wal d = Bytes x → Q (zlen x) (put_fates fs d)) → (∃ x, f_wal d = Bytes x) →
  leaves wal_metadata_len d Q (λ d', keeps d' st).
Proof.
  intros Hk HQ [x Ex]. unfold wal_metadata_len. apply leaves_bind with (λ _ d', ∃ fs, d' = put_fates fs d).
  - apply leaves_syscall; intros; [by exists fs|by apply keeps_fates].
  - intros _ d1 [fs ->]. apply leaves_read. simpl. rewrite Ex. by apply HQ.
Qed.

Lemma repair_wal_spec d n st x :
  holds d (base_digest n) (wal_len n) st → f_wal d = Bytes x → WAL_HEADER_LEN ≤ wal_len n ≤ zlen x →
  leaves (repair_wal (wal_len n)) d
    (λ _ d', holds d' (base_digest n) (wal_len n) st ∧ ∃ y, f_wal d' = Bytes y ∧ zlen y = wal_len n)
    (λ d', keeps d' st).
Proof.
  intros H Ew Hl. pose proof (holds_keeps _ _ _ _ H) as Hk. unfold repair_wal.
  apply leaves_read. unfold wal_bytes. rewrite Ew.
  apply leaves_bind with (λ _ d', f_state d' = f_state d ∧ f_wal d' = f_wal d).
  { apply leaves_syscall; intros; [done|by apply keeps_fates]. }
  intros _ d1 [Es1 Ew1].
  apply leaves_bind with (λ _ d', f_state d' = f_state d ∧
    f_wal d' = Bytes (take (Z.to_nat (wal_len n)) x)).
  { apply leaves_syscall; intros; [|by apply (keeps_ext d)].
    done. }
  intros _ d2 [Es2 Ew2]. pose proof (repair_spec d n st x H Ew Hl) as Hr.
  apply leaves_syscall; intros.
  - destruct (Hr (id (put_fates fs d2)) Es2 Ew2) as [Hh Hz]. split; [done|]. exists (take (Z.to_nat (wal_len n)) x). done.
  - destruct k; simpl.
    + by apply (keeps_ext d).
    + eapply holds_keeps. apply (Hr (put_fates fs d2) Es2 Ew2).
Qed.

Lemma open_wal_spec n d st :
  holds d (base_digest n) (wal_len n) st → base_digest n ≠ None →
  leaves open_wal (n, d)
    (λ _ s, opened n s.1 ∧ tracks s.1 s.2 st) (spoiled st).
Proof.
  intros H Hne. unfold open_wal. apply leaves_read. eapply leaves_bind; [by apply create_wal_spec|].
  intros _ [n1 d1] (len & En & Hor & Hl & H1). simpl in En, H1. subst n1. set (n1 := set_wal_len len n).
  change (base_digest n) with (base_digest n1) in H1. change len with (wal_len n1) in H1, Hl.
  destruct (holds_long d1 n1 st H1 Hl) as (x & Ex & Hx). pose proof (holds_keeps _ _ _ _ H1) as Hk.
  apply leaves_bind with (λ l s, l = zlen x ∧ ∃ fs, s = (n1, put_fates fs d1)).
  { apply leaves_on_disk. eapply (wal_metadata_spec _ st); [done| |eauto].
    intros y fs E. split; [congruence|eauto]. }
  intros l s2 [-> [fs ->]]. apply leaves_read. cbn [fst].
  apply leaves_bind with (λ _ s, s.1 = n1 ∧ holds s.2 (base_digest n1) (wal_len n1) st ∧
    ∃ y, f_wal s.2 = Bytes y ∧ zlen y = wal_len n1).
  { destruct (Z.ltb_spec (wal_len n1) (zlen x)) as [Hlt|Hge].
    - apply leaves_on_disk. eapply leaves_weaken; [apply (repair_wal_spec _ n1 st x)| |].
      + by eapply holds_same_files, H1.
      + done.
      + lia.
      + by intros [] d' Hd'.
      + done.
    - split_and!; [done|by eapply holds_same_files, H1|]. exists x. split; [done|lia]. }
  intros _ [n2 d2] (En2 & H2 & y & Ey & Hy). simpl in *. subst n2.
  apply leaves_bind with (λ _ s, ∃ fs', s = (n1, put_fates fs' d2)).
  { apply leaves_on_disk, leaves_syscall; intros; [eauto|].
    by eapply keeps_fates, holds_keeps. }
  intros _ s3 [fs' ->]. simpl. split; [by exists len|]. split; [by eapply holds_same_files, H2|eauto].
Qed.

(** ** Writing a state *)

(** The state of [n] may be written over [st]: it is representable, and unless
    the state file is rewritten it extends [st] from the entries on the disk. *)
Record writable (st : StableState) (n : RaftNode) : Prop := mkWritable {
  wr_ok : stable_ok (stable_view n);
  wr_sane : snapshot_sane (stable_view n);
  wr_extends : snapshot_dirty n = false → base_digest n ≠ None →
    extends st (Z.min (durable_log_len n) (zlen (log n))) (stable_view n);
}.

(** The digest of the new state file is not the one that a log on the disk
    names, unless it is the file that is there. *)
Definition fresh_base (n : RaftNode) (d : Files) : Prop := ∀ b rest,
  encode_state sha256 (stable_view n) = Ok b → wal_of (digest_of b) rest (f_wal d) → f_state d = Bytes b.

(** Either of two states is on the disk. *)
Definition either (st st' : StableState) (s : RaftNode * Files) : Prop := keeps s.2 st ∨ keeps s.2 st'.

(** The open log ends with its last good frame. *)
Record clean_log (n : RaftNode) (d : Files) (st : StableState) (b : list Z) (st0 : StableState) (w : list Z) :
    Prop := mkCleanLog {
  cl_state : f_state d = Bytes b;
  cl_based : based b st0;
  cl_logged : logged sha256 st0 w st;
  cl_digest : base_digest n = Some (digest_of b);
  cl_wal : f_wal d = Bytes (wal_header (digest_of b) ++ w);
  cl_len : wal_len n = WAL_HEADER_LEN + zlen w;
}.

Lemma tracks_clean n d st :
  tracks n d st → wal_file n = true → base_digest n ≠ None → ∃ b st0 w, clean_log n d st b st0 w.
Proof.
  intros [H Hopen] Hf Hne. destruct (Hopen Hf) as (x & Ex & Hx).
  inversion H as [? ? Hd Hl|b ? Es Hb Hw Hnot Hd Hl|b st0 w ? tail Es Hb Hlog Ht (E & Hh & _) Hd Hl].
  - by rewrite <- Hd in Hne.
  - exfalso. destruct Hw as [?|(h & rest & Ew & Hh & _)]; [congruence|].
    assert (x = wal_header h ++ rest) as -> by congruence.
    rewrite zlen_app, (zlen_wal_header _ Hh) in Hx. pose proof (zlen_nonneg rest). unfold WAL_HEADER_LEN in Hx. lia.
  - assert (x = wal_header (digest_of b) ++ w ++ tail) as -> by congruence.
    rewrite !zlen_app, (zlen_wal_header _ Hh) in Hx.
    assert (tail = []) as -> by (destruct tail; [done|rewrite zlen_cons in Hx; pose proof (zlen_nonneg tail); lia]).
    rewrite app_nil_r in E. exists b, st0, w. by constructor.
Qed.

Section append.
Context (n : RaftNode) (d : Files) (st : StableState) (b : list Z) (st0 : StableState) (w : list Z).
Context (k : Z) (frame : list Z) (st' : StableState).
Hypothesis Hclean : clean_log n d st b st0 w.
Hypothesis Hext : extends st k st'.
Hypothesis Hframe : encode_wal_frame sha256 st' k = Ok frame.
Hypothesis Hmax : wal_len n + zlen frame ≤ MAX_WAL_BYTES.

Lemma appended_bound : zlen (wal_header (digest_of b) ++ w ++ frame) ≤ MAX_WAL_BYTES.
Proof.
  destruct Hclean. rewrite !zlen_app, (zlen_wal_header _ (based_digest _ _ cl_based0)). lia.
Qed.

Lemma holds_appended d' :
  f_state d' = f_state d → f_wal d' = Bytes ((wal_header (digest_of b) ++ w) ++ frame) →
  holds d' (base_digest n) (wal_len n + zlen frame) st'.
Proof.
  intros Es Ew. pose proof appended_bound. destruct Hclean.
  rewrite cl_digest0, cl_len0, <- Z.add_assoc, <- zlen_app. rewrite <- app_assoc in Ew.
  apply holds_log with st0 []; rewrite ?app_nil_r; [congruence|done|by eapply logged_snoc|by left|].
  split_and!; [done|by eapply based_digest|done].
Qed.

Lemma keeps_part j d' :
  f_state d' = f_state d → f_wal d' = Bytes ((wal_header (digest_of b) ++ w) ++ take j frame) →
  keeps d' st ∨ keeps d' st'.
Proof.
  intros Es Ew. destruct (decide (length frame ≤ j)%nat) as [Hj|Hj].
  - right. rewrite take_ge in Ew by done. by eapply holds_keeps, holds_appended.
  - left. pose proof appended_bound as Hm. destruct Hclean. rewrite <- app_assoc in Ew.
    pose proof (zlen_nonneg w). pose proof (based_digest _ _ cl_based0) as Hh.
    eapply holds_keeps, (holds_log _ b st0 w st (take j frame)); [congruence|done|done| |].
    + right. exists st', k, frame, (drop j frame). split_and!; [done| |by rewrite take_drop|].
      * unfold WAL_HEADER_LEN in *. lia.
      * intros E. apply (f_equal length) in E. rewrite length_drop in E. simpl in E. lia.
    + split_and!; [done|done|]. rewrite !zlen_app in *. unfold zlen in *. rewrite length_take. lia.
Qed.

Lemma append_synced_spec :
  leaves (append_synced frame) d
    (λ _ d', holds d' (base_digest n) (wal_len n + zlen frame) st' ∧
       ∃ x, f_wal d' = Bytes x ∧ zlen x = wal_len n + zlen frame)
    (λ d', keeps d' st ∨ keeps d' st').
Proof.
  assert (Hb : wal_bytes d = wal_header (digest_of b) ++ w) by (unfold wal_bytes; by destruct Hclean as [_ _ _ _ -> _]).
  unfold append_synced. apply leaves_read. rewrite Hb.
  apply leaves_bind with (λ _ d', f_state d' = f_state d ∧
    f_wal d' = Bytes ((wal_header (digest_of b) ++ w) ++ frame)).
  { apply leaves_syscall; intros; [done|by eapply keeps_part]. }
  intros _ d1 [Es1 Ew1]. apply leaves_syscall; intros; [|by eapply keeps_part].
  split; [by apply holds_appended|]. eexists. split; [done|]. destruct Hclean.
  rewrite !zlen_app, (zlen_wal_header _ (based_digest _ _ cl_based0)). lia.
Qed.
End append.

(** What is known of the node after a successful write. *)
Definition written (n : RaftNode) (st : StableState) (s : RaftNode * Files) : Prop :=
  s.1 = set_files s.1 n ∧ tracks s.1 s.2 st ∧ snapshot_dirty s.1 = false ∧ base_digest s.1 ≠ None.

Lemma append_wal_frame_spec n d st frame k :
  tracks n d st → base_digest n ≠ None → snapshot_dirty n = false →
  extends st k (stable_view n) → encode_wal_frame sha256 (stable_view n) k = Ok frame →
  WAL_HEADER_LEN + zlen frame ≤ MAX_WAL_BYTES → wal_len n + zlen frame ≤ MAX_WAL_BYTES →
  leaves (append_wal_frame frame) (n, d)
    (λ _ s, written n (stable_view n) s) (either st (stable_view n)).
Proof.
  intros Ht Hne Hdirty Hext Hfr Hfit Hmax. unfold append_wal_frame. apply leaves_read. cbn [fst].
  apply leaves_bind with (λ _ s, ∃ len, s.1 = set_wal_file true (set_wal_len len n) ∧
    tracks s.1 s.2 st ∧ len + zlen frame ≤ MAX_WAL_BYTES).
  { destruct (wal_file n) eqn:Ef.
    - exists (wal_len n). split_and!; [|done|done]. simpl. destruct n; simpl in *; by subst.
    - eapply leaves_weaken; [apply open_wal_spec; [apply Ht|done]| |by left].
      intros [] [n1 d1] ((len & En & Hlen) & Ht1). exists len. split_and!; [done|done|].
      destruct Hlen as [Hlen | Hlen]; rewrite Hlen; done. }
  intros _ [n1 d1] (len & En & Ht1 & Hm). simpl in En, Ht1, Hm.
  assert (wal_len n1 = len ∧ wal_file n1 = true ∧ base_digest n1 = base_digest n ∧
    snapshot_dirty n1 = false) as (El & Ef & Ed & Edirty) by (by subst n1).
  rewrite <- El in Hm. destruct (tracks_clean _ _ _ Ht1 Ef) as (b & st0 & w & Hc); [by rewrite Ed|].
  apply leaves_bind with (λ _ s, s.1 = n1 ∧ holds s.2 (base_digest n1) (wal_len n1 + zlen frame) (stable_view n) ∧
    ∃ x, f_wal s.2 = Bytes x ∧ zlen x = wal_len n1 + zlen frame).
  { apply leaves_on_error, leaves_on_disk.
    eapply leaves_weaken; [by eapply append_synced_spec|by intros [] d' Hd'|by intros d' Hd']. }
  intros _ [n2 d2] (En2 & Hh & Hx). simpl in En2, Hh, Hx. subst n2. simpl.
  assert (saturating_add (wal_len n1) (zlen frame) = wal_len n1 + zlen frame) as Es.
  { unfold saturating_add, MAX_WAL_BYTES, USIZE_MAX in *. lia. }
  split_and!.
  - rewrite En. by destruct n.
  - split; simpl; rewrite Es; auto.
  - done.
  - simpl. by rewrite Ed.
Qed.

Lemma either_disk n d st st' : keeps d st ∨ keeps d st' → either st st' (n, d).
Proof. done. Qed.

(** The encoders return. *)
Lemma encode_entries_returns es : ∀ i out,
  (∃ b, encode_entries es i out = Ok b) ∨ ∃ e, encode_entries es i out = Err e.
Proof.
  induction es as [|e es IH]; intros i out; simpl; [eauto|]. repeat (case_match; [eauto|]).
  unfold obind. repeat case_match; eauto.
Qed.

Lemma encode_state_returns st :
  (∃ b, encode_state sha256 st = Ok b) ∨ ∃ e, encode_state sha256 st = Err e.
Proof.
  unfold encode_state. case_match; [|eauto]. do 2 (case_match; [eauto|]).
  destruct (encode_entries_returns (st_log st) (view_snapshot_index st + 1) (state_header st)) as [[b ->]|[e ->]];
    simpl; eauto.
Qed.

Lemma encode_frame_entries_returns es : ∀ i out,
  (∃ b, encode_frame_entries es i out = Ok b) ∨ ∃ e, encode_frame_entries es i out = Err e.
Proof. induction es as [|e es IH]; intros i out; simpl; [eauto|]. case_match; [eauto|apply IH]. Qed.

Lemma encode_wal_frame_returns st k :
  (∃ b, encode_wal_frame sha256 st k = Ok b) ∨ ∃ e, encode_wal_frame sha256 st k = Err e.
Proof.
  unfold encode_wal_frame, encode_wal_body. case_match; [simpl; eauto|].
  edestruct encode_frame_entries_returns as [[b ->]|[e ->]]; simpl; eauto.
Qed.

(** Rewriting the state file. *)
Lemma store_state_spec d dg len st st' :
  holds d dg len st → stable_ok st' → snapshot_sane st' →
  (∀ b rest, encode_state sha256 st' = Ok b → wal_of (digest_of b) rest (f_wal d) → f_state d = Bytes b) →
  leaves (store_state sha256 st') d
    (λ dg' d', ∃ b, dg' = digest_of b ∧ based b st' ∧ f_state d' = Bytes b ∧ (keeps d' st ∨ keeps d' st'))
    (λ d', keeps d' st ∨ keeps d' st').
Proof.
  intros H Hok Hsane Hfresh. pose proof (holds_keeps _ _ _ _ H) as Hk. unfold store_state.
  destruct (encode_state_returns st') as [[b Eb]|[e Eb]]; rewrite Eb; [|by left].
  assert (Hb : based b st') by done.
  apply leaves_bind with (λ b' d', b' = b ∧ d' = d); [done|]. intros _ _ [-> ->].
  assert (Hlen : zlen b <? 32 = false).
  { destruct (encode_state_spec sha256 _ b Hok Eb) as (body & -> & _).
    apply Z.ltb_ge. rewrite zlen_app, Hsha. pose proof (zlen_nonneg body). lia. }
  rewrite Hlen. eapply leaves_bind.
  - eapply leaves_error; [apply write_state_file_atomic_spec|].
    intros d' [[Ho Hf]|[Ho Hf]]; pose proof (Ho WalFile ltac:(done)) as Hw; simpl in Hf, Hw.
    + left. by apply (keeps_ext d).
    + eapply holds_new_base; eauto.
  - intros [] d' [Ho Hf]. pose proof (Ho WalFile ltac:(done)) as Hw. simpl in Hf, Hw. exists b.
    split_and!; [done|done|done|]. eapply holds_new_base; eauto.
Qed.

Lemma persist_whole_spec n d st :
  tracks n d st → writable st n → fresh_base n d →
  leaves (persist_whole sha256) (n, d) (λ _ s, written n (stable_view n) s) (either st (stable_view n)).
Proof.
  intros [H _] [Hok Hsane _] Hfresh. unfold persist_whole.
  apply leaves_bind with (λ _ s, s = (set_wal_file false n, d)); [done|]. intros _ _ ->. apply leaves_read. change (stable_view (set_wal_file false n, d).1) with (stable_view n).
  apply leaves_bind with (λ dg s, ∃ b, dg = digest_of b ∧ based b (stable_view n) ∧
    s.1 = set_wal_file false n ∧ f_state s.2 = Bytes b ∧ (keeps s.2 st ∨ keeps s.2 (stable_view n))).
  { apply leaves_on_disk. eapply leaves_weaken; [by eapply store_state_spec| |done].
    intros dg d' (b & ? & ? & ? & ?). by exists b. }
  intros dg [n1 d1] (b & -> & Hb & En & Es & Hk1). simpl in En, Es, Hk1. subst n1.
  apply leaves_bind with (λ _ s, s.1 = set_wal_file false n ∧ holds s.2 (Some (digest_of b)) WAL_HEADER_LEN (stable_view n)).
  { apply leaves_on_disk. eapply leaves_weaken; [apply write_state_file_atomic_spec|..].
    - intros [] d' [Ho Hf]. split; [done|]. apply holds_reset; [|done|done]. rewrite <- Es. by apply (Ho StateFile).
    - intros d' [[Ho Hf]|[Ho Hf]]; pose proof (Ho StateFile ltac:(done)) as Hs; simpl in Hf, Hs; apply either_disk.
      + destruct Hk1; [left|right]; by apply (keeps_ext d1).
      + right. eapply holds_keeps, holds_reset; [|done|done]. congruence. }
  intros _ [n2 d2] [En H2]. simpl in En, H2. subst n2. split_and!; [by destruct n| |done|done].
  split; [done|]. by intros [=].
Qed.

(** A frame that fits a new log. *)
Definition frame_fits (n : RaftNode) : Prop := ∀ k frame,
  encode_wal_frame sha256 (stable_view n) k = Ok frame → WAL_HEADER_LEN + zlen frame ≤ MAX_WAL_BYTES.

Lemma persist_files_spec n d st :
  tracks n d st → writable st n → fresh_base n d → frame_fits n →
  leaves (persist_files sha256) (n, d)
    (λ _ s, written n (stable_view n) s ∧ durable_log_len s.1 = zlen (log n)) (either st (stable_view n)).
Proof.
  intros Ht Hw Hfresh Hfits. pose proof (holds_keeps _ _ _ _ (proj1 Ht)) as Hk.
  unfold persist_files. apply leaves_read. cbn [fst]. set (k := Z.min (durable_log_len n) (zlen (log n))).
  apply leaves_bind with (λ fr s, s = (n, d) ∧ encode_wal_frame sha256 (stable_view n) k = Ok fr).
  { unfold leaves, rlift. destruct (encode_wal_frame _ _ k) as [fr|e| |] eqn:Ef; [done|by left|..];
      by destruct (encode_wal_frame_returns (stable_view n) k) as [[? E]|[? E]]; rewrite E in Ef. }
  intros fr _ [-> Hfr]. apply leaves_bind with (λ _ s, written n (stable_view n) s).
  { destruct (must_compact n fr) eqn:Ec; [by apply persist_whole_spec|].
    unfold must_compact in Ec. apply orb_false_elim in Ec as [Ec Hlen]. apply orb_false_elim in Ec as [Hd Hb].
    apply bool_decide_eq_false in Hb. bool_prop.
    apply append_wal_frame_spec with k; [done|done|done|by apply Hw|done|by eapply Hfits|].
    unfold saturating_add, MAX_WAL_BYTES, USIZE_MAX in *. lia. }
  intros _ [n1 d1] (En & [H1 Ho1] & Hd1 & Hb1). simpl in *. split; [|simpl; by rewrite En].
  split_and!; [simpl; rewrite En; by destruct n|by split|done|done].
Qed.

(** ** The node *)

(** [m] changes nothing of the node but the bookkeeping of its files. *)
Definition files_only {A} (m : run (RaftNode * Files) A) : Prop :=
  ∀ s, (m s).2.1 = set_files (m s).2.1 s.1.

Lemma files_only_bind {A B} (m : run (RaftNode * Files) A) (k : A → run (RaftNode * Files) B) :
  files_only m → (∀ a, files_only (k a)) → files_only (rbind m k).
Proof.
  intros Hm Hk s. specialize (Hm s). unfold rbind. destruct (m s) as [[a|e| |] s1]; simpl in *; try done.
  specialize (Hk a s1). rewrite Hm in Hk. rewrite Hk at 1. done.
Qed.

Lemma files_only_pure {A} (o : outcome string A) : files_only (λ s, (o, s)).
Proof. intros [n d]. by destruct n. Qed.

Lemma files_only_read : files_only rread.
Proof. intros [n d]. by destruct n. Qed.

Lemma files_only_disk {A} (m : run Files A) : files_only (on_disk m).
Proof. intros [n d]. unfold on_disk. destruct (m _) as [o d']. by destruct n. Qed.

Lemma files_only_node f : (∀ n, f n = set_files (f n) n) → files_only (on_node f).
Proof. intros Hf [n d]. apply Hf. Qed.

Lemma files_only_error {A} (m : run (RaftNode * Files) A) : files_only m →
  files_only (ron_error m (λ s, (set_wal_file false s.1, s.2))).
Proof.
  intros Hm s. specialize (Hm s). unfold ron_error. destruct (m s) as [[a|e| |] [n d]]; simpl in *;
    [done|rewrite Hm; by destruct n..].
Qed.

Lemma persist_files_only : files_only (persist_files sha256).
Proof.
  assert (Hcreate : ∀ n, files_only (create_wal n)).
  { intros n. unfold create_wal. repeat case_match; try apply files_only_pure.
    apply files_only_bind; [apply files_only_disk|intros _; apply files_only_node; by intros []]. }
  assert (Hopen : files_only open_wal).
  { unfold open_wal. apply files_only_bind; [apply files_only_read|intros s].
    apply files_only_bind; [apply Hcreate|intros _]. apply files_only_bind; [apply files_only_disk|intros l].
    apply files_only_bind; [apply files_only_read|intros s'].
    apply files_only_bind; [case_match; [apply files_only_disk|apply files_only_pure]|intros _].
    apply files_only_bind; [apply files_only_disk|intros _; apply files_only_node; by intros []]. }
  unfold persist_files. apply files_only_bind; [apply files_only_read|intros s].
  apply files_only_bind; [apply files_only_pure|intros fr].
  apply files_only_bind; [|intros _; apply files_only_node; by intros []]. case_match.
  - unfold persist_whole. apply files_only_bind; [apply files_only_node; by intros []|intros _].
    apply files_only_bind; [apply files_only_read|intros s']. apply files_only_bind; [apply files_only_disk|intros dg].
    apply files_only_bind; [apply files_only_disk|intros _; apply files_only_node; by intros []].
  - unfold append_wal_frame. apply files_only_bind; [apply files_only_read|intros s'].
    apply files_only_bind; [case_match; [apply files_only_pure|apply Hopen]|intros _].
    apply files_only_bind; [apply files_only_error, files_only_disk|intros _; apply files_only_node; by intros []].
Qed.

(** ** Writes and restarts *)

(** A restart from a disk that holds [st]. *)
Lemma restart_lemma now id ps c path d dg len st :
  holds d dg len st →
  ∃ n, new_persistent (H := two_files sha256) now id ps c path d = inr n ∧ tracks n d st ∧
    stable_view n = st ∧ durable_log_len n = zlen (st_log st).
Proof.
  intros H. unfold new_persistent, load_state, two_files. rewrite (holds_load _ _ _ _ H). eexists. split; [done|].
  cbn [ld_wal_len ld_base_digest ld_state]. by destruct st.
Qed.

Lemma persist_at_lemma path n d st :
  tracks n d st → writable st n → fresh_base n d → frame_fits n →
  let '(r, (n', d')) := persist_at (Storage := two_files sha256) path (n, d) in
  n' = set_files n' n ∧
  match r with
  | None => tracks n' d' (stable_view n) ∧ durable_log_len n' = zlen (log n) ∧ snapshot_dirty n' = false
  | Some _ => ∃ dg len st', holds d' dg len st' ∧ (st' = st ∨ st' = stable_view n)
  end.
Proof.
  intros Ht Hw Hf Hfit. pose proof (persist_files_spec n d st Ht Hw Hf Hfit) as Hp.
  pose proof (persist_files_only (n, d)) as Hn. unfold leaves in Hp. unfold persist_at, two_files.
  destruct (persist_files sha256 (n, d)) as [[[]|e| |] [n' d']]; try done; cbn [snd fst] in *.
  - destruct Hp as [(_ & Htr & Hd & _) Hlen]. done.
  - split; [done|]. destruct Hp as [(dg & len & Hh)|(dg & len & Hh)]; exists dg, len; eauto.
Qed.
End digest.
