(* ===== verification/RaftProps.v ===== *)
(** * Properties of the consensus machine *)

From S2P Require Import Prelude Raft RaftVotes RaftNet.
From S2P Require Import RaftLog RaftRun.
From S2P Require Import RaftFile RaftFileSpec RaftRecovery RaftDisk RaftDiskSpec.

Section props.
Context {D : Type} `{Storage D} `{!StorageLaws D}.



(** C21. no operation but the installation of a snapshot ever changes or
    drops an entry at or below the commit index (compaction moves it into the
    snapshot), moves the commit index back, or leaves a gap in the indices. *)
Theorem committed_prefix_kept (op : Op) (s : RaftNode * D) :
  keeps_log op → log_ok s.1 → room s.1 →
  let n := s.1 in let n' := (exec op s).2.1 in
  log_ok n' ∧ commit_index n ≤ commit_index n' ∧
  ∀ i, snapshot_index n' < i ≤ commit_index n → entry_at n' i = entry_at n i.
Proof. intros Hk Hn Hr. destruct (exec_log op s Hk Hn Hr). auto. Qed.

(** C34. applying: a batch holds the committed entries that follow the last
    applied one, in order, as many as asked for; reporting it applied moves
    the applied index to its end. *)
Theorem apply_in_order (n : RaftNode) (d : D) (limit : Z) :
  log_ok n → room n → 0 < limit →
  let es := next_committed_batch n limit in
  let first := last_applied n + 1 in
  let last_ := last_applied n + zlen es in
  zlen es = Z.min limit (commit_index n - last_applied n) ∧
  (∀ k e, es !! k = Some e → e_index e = first + Z.of_nat k ∧ entry_at n (first + Z.of_nat k) = Some e) ∧
  (es ≠ [] → last_applied (mark_applied_batch first last_ (n, d)).2.1 = last_).
Proof. apply apply_in_order_lemma. Qed.

End props.




(** Node 1 with three entries of node 4, two of them committed. *)
Definition follower_of_4 : RaftNode * FaultyDisk :=
  feed [(4, AppendEntries 1 4 0 0 (take 3 old_entries) 2)] (start 1).

(** A checker for [log_ok]. *)
Definition log_okb (n : RaftNode) : bool :=
  forallb (λ p : nat * LogEntry, e_index p.2 =? snapshot_index n + Z.of_nat p.1 + 1)
    (imap pair (log n)) &&
  (0 <=? snapshot_index n) && (snapshot_index n <=? last_applied n) &&
  (last_applied n <=? commit_index n) && (commit_index n <=? snapshot_index n + zlen (log n)).

Lemma log_okb_ok n : log_okb n = true → log_ok n.
Proof.
  unfold log_okb. rewrite !andb_true_iff, !Z.leb_le. intros ((((Hf & ?) & ?) & ?) & ?).
  constructor; [|lia..]. intros k e Hk. rewrite forallb_forall in Hf.
  specialize (Hf (k, e)). simpl in Hf. apply Z.eqb_eq, Hf.
  apply list_elem_of_In, (list_elem_of_lookup_2 _ k). by rewrite list_lookup_imap, Hk.
Qed.

Lemma follower_of_4_ok : log_ok follower_of_4.1 ∧ room follower_of_4.1.
Proof. split; [apply log_okb_ok; vm_compute; reflexivity|vm_compute; reflexivity]. Qed.

Lemma committed_prefix_kept_witness :
  let op := OpStep 5 (AppendEntries 2 5 2 1 [mkLogEntry 2 3 [9]] 3) in
  let n := follower_of_4.1 in let n' := (exec op follower_of_4).2.1 in
  commit_index n = 2 ∧ commit_index n' = 3 ∧
  (log_ok n' ∧ commit_index n ≤ commit_index n' ∧
   ∀ i, snapshot_index n' < i ≤ commit_index n → entry_at n' i = entry_at n i).
Proof.
  cbv zeta. split; [vm_compute; reflexivity|]. split; [vm_compute; reflexivity|].
  exact (committed_prefix_kept (OpStep 5 (AppendEntries 2 5 2 1 [mkLogEntry 2 3 [9]] 3)) follower_of_4 I
    (proj1 follower_of_4_ok) (proj2 follower_of_4_ok)).
Defined.

Lemma apply_in_order_witness :
  let n := follower_of_4.1 in
  let es := next_committed_batch n 256 in
  map e_index es = [1; 2] ∧
  (zlen es = Z.min 256 (commit_index n - last_applied n) ∧
   (∀ k e, es !! k = Some e → e_index e = last_applied n + 1 + Z.of_nat k ∧
                              entry_at n (last_applied n + 1 + Z.of_nat k) = Some e) ∧
   (es ≠ [] → last_applied (mark_applied_batch (last_applied n + 1) (last_applied n + zlen es)
                (n, follower_of_4.2)).2.1 = last_applied n + zlen es)).
Proof.
  cbv zeta. split; [vm_compute; reflexivity|].
  exact (apply_in_order follower_of_4.1 follower_of_4.2 256 (proj1 follower_of_4_ok) (proj2 follower_of_4_ok)
    eq_refl).
Defined.


(** ** The files *)

(** C6. crash consistency of the two files: from a state file and a log of
    frames, each written after the state before it, with anything that a crash
    in the middle of writing one more frame may leave behind, recovery returns
    the state of the last complete frame, and the length up to which the log is
    good. *)
Theorem recovery_after_crash (sha256 : list Z → list Z) (st0 st : StableState) (b w tail : list Z) :
  (∀ m, zlen (sha256 m) = 32) → stable_ok st0 →
  view_snapshot_index st0 ≠ 0 ∨ st_snapshot st0 = None →
  encode_state sha256 st0 = Ok b → logged sha256 st0 w st → torn sha256 tail →
  let digest := drop (Z.to_nat (zlen b - 32)) b in
  let wal := wal_header digest ++ w ++ tail in
  zlen wal ≤ MAX_WAL_BYTES →
  load_files sha256 (Bytes b) (Bytes wal) = Ok (mkLoaded st (Some digest) (WAL_HEADER_LEN + zlen w)).
Proof. intros Hsha. by apply recovery_lemma. Qed.

(** A digest of the right length, and a stored state with one frame after it:
    node 3 votes for node 2 in term 1 and takes over an entry. *)
Definition toy_digest (m : list Z) : list Z := replicate 31 0 ++ [fold_left Z.add m 0 mod 256].
Definition stored_1 : StableState := mkStable 1 (Some 2) [mkLogEntry 1 1 [5; 6]] 1 0 9 None.
Definition bytes_of (o : outcome string (list Z)) : list Z := match o with Ok b => b | _ => [] end.
Definition stored_0_bytes : list Z := bytes_of (encode_state toy_digest StableState_default).
Definition frame_1 : list Z := bytes_of (encode_wal_frame toy_digest stored_1 0).

Lemma toy_digest_len m : zlen (toy_digest m) = 32.
Proof. unfold toy_digest. by rewrite zlen_app. Qed.

Lemma u64_ok v : (0 <=? v) && (v <=? U64_MAX) = true → is_u64 v.
Proof. rewrite andb_true_iff, !Z.leb_le. done. Qed.

Lemma stored_1_ok : stable_ok stored_1.
Proof.
  constructor; [by apply u64_ok| |by apply u64_ok..|].
  - intros id [= <-]. by apply u64_ok.
  - repeat constructor; apply u64_ok; reflexivity.
Qed.

Lemma default_ok : stable_ok StableState_default.
Proof. constructor; [by apply u64_ok|done|by apply u64_ok..|constructor]. Qed.

Lemma stored_1_extends : extends StableState_default 0 stored_1.
Proof. constructor; [exact stored_1_ok|..]; simpl; unfold zlen, view_snapshot_index, U64_MAX; simpl; (lia || done). Qed.

Lemma recovery_after_crash_witness :
  let digest := drop (Z.to_nat (zlen stored_0_bytes - 32)) stored_0_bytes in
  load_files toy_digest (Bytes stored_0_bytes)
    (Bytes (wal_header digest ++ frame_1 ++ take 40 frame_1)) =
  Ok (mkLoaded stored_1 (Some digest) (WAL_HEADER_LEN + zlen frame_1)).
Proof.
  apply (recovery_after_crash toy_digest StableState_default stored_1 stored_0_bytes frame_1 (take 40 frame_1)).
  - exact toy_digest_len.
  - exact default_ok.
  - right. reflexivity.
  - vm_compute. reflexivity.
  - rewrite <- (app_nil_r frame_1). eapply (logged_cons _ _ 0 stored_1);
      [exact stored_1_extends|vm_compute; reflexivity|constructor].
  - right. exists stored_1, 0, frame_1, (drop 40 frame_1).
    split_and!; [vm_compute; reflexivity|vm_compute; discriminate|by rewrite take_drop|vm_compute; discriminate].
  - vm_compute. discriminate.
Defined.





(** C32. whatever octets the two files hold, recovery returns an error or a
    state from which every node starts with the invariant of the log: indices
    without gaps and [snapshot <= applied <= committed <= last]. *)
Theorem recovery_total (sha256 : list Z → list Z) (sb wb : list Z) :
  is_bytes sb → is_bytes wb →
  match load_files sha256 (Bytes sb) (Bytes wb) with
  | Ok ld => ∀ now i ps c path, log_ok (from_stable now i ps c path (ld_state ld))
  | Err _ => True
  | Panic | NoFuel => False
  end.
Proof.
  intros Hs Hw. pose proof (load_files_yields sha256 sb wb Hs Hw) as Hy.
  destruct (load_files _ _ _); simpl in *; try done. intros. by apply state_valid_log_ok.
Qed.

Lemma recovery_total_witness :
  match load_files toy_digest (Bytes stored_0_bytes) (Bytes [79; 78; 69]) with
  | Ok ld => ∀ now i ps c path, log_ok (from_stable now i ps c path (ld_state ld))
  | Err _ => True
  | Panic | NoFuel => False
  end.
Proof.
  apply (recovery_total toy_digest stored_0_bytes [79; 78; 69]); apply is_bytesb_ok; vm_compute; reflexivity.
Defined.

(** ** What the protocol does not guarantee *)

(** What a leader of [N] has committed, and its entry at an index. *)
Definition seen (N : Net FaultyDisk) (i index : Z) : option (Z * option LogEntry * Role) :=
  (λ s, (commit_index s.1, entry_at s.1 index, role s.1)) <$> nodes N !! i.

Lemma seen_Some N i index c e :
  seen N i index = Some (c, Some e, Leader) →
  ∃ s, nodes N !! i = Some s ∧ commit_index s.1 = c ∧ entry_at s.1 index = Some e ∧ role s.1 = Leader.
Proof. unfold seen. intros E. apply fmap_Some in E as (s & Hs & E). injection E as -> -> ->. eauto. Qed.

(** C37. a committed entry can be lost.  Without any fault of a disk, node 1
    commits its entry [42] at index 2, and after two nodes compact their logs
    node 3, which never had that entry, is elected and commits another entry at
    index 2: the last term a node with an empty log compares votes with is 0,
    not the term of its snapshot. *)
Theorem committed_entry_lost :
  reachable five lost_3 ∧ rtc (net_step five) lost_3 lost_6 ∧
  ∃ s1 s3 e1 e3, nodes lost_3 !! 1 = Some s1 ∧ nodes lost_6 !! 3 = Some s3 ∧
    commit_index s1.1 = 2 ∧ entry_at s1.1 2 = Some e1 ∧ role s1.1 = Leader ∧
    commit_index s3.1 = 2 ∧ entry_at s3.1 2 = Some e3 ∧ role s3.1 = Leader ∧ e_data e1 ≠ e_data e3.
Proof.
  split; [exact lost_3_reachable|]. split; [exact lost_6_steps|].
  destruct (seen_Some lost_3 1 2 2 (mkLogEntry 1 2 [42]) ltac:(vm_compute; reflexivity)) as (s1 & ? & ? & ? & ?).
  destruct (seen_Some lost_6 3 2 2 (mkLogEntry 2 2 []) ltac:(vm_compute; reflexivity)) as (s3 & ? & ? & ? & ?).
  exists s1, s3, (mkLogEntry 1 2 [42]), (mkLogEntry 2 2 []). split_and!; done.
Qed.

(** C39. a new leader can commit its first entry before any peer has it: the
    matches of an earlier leadership are cleared only after the commit index is
    advanced.  Node 1 leads term 3 and learns that nodes 2 and 3 hold four
    entries; the leader of term 4 shortens its log; elected again in term 5 it
    commits its no-op at index 4 at once, and then sets every match to 0. *)
Theorem stale_match_commits_noop :
  let s3 := feed (votes_of_2_and_3 3) (tick_times 36 (feed [(4, AppendEntries 1 4 0 0 old_entries 0)] (start 1))) in
  let s4 := feed [(2, AppendEntriesResp 3 true 4); (3, AppendEntriesResp 3 true 4);
                  (5, AppendEntries 4 5 1 1 [mkLogEntry 2 2 [9]; mkLogEntry 4 3 []] 0)] s3 in
  let s5 := feed (votes_of_2_and_3 5) (tick_times 19 s4) in
  commit_index s4.1 = 0 ∧ role s5.1 = Leader ∧ current_term s5.1 = 5 ∧
  entry_at s5.1 4 = Some (mkLogEntry 5 4 []) ∧ commit_index s5.1 = 4 ∧
  map (λ peer, match_index s5.1 !! peer) (peers s5.1) = [Some 0; Some 0; Some 0; Some 0].
Proof. cbv zeta. split_and!; vm_compute; reflexivity. Qed.

(** C38. a follower can commit entries that its leader does not have: it bounds
    the leader's commit index by its own last entry instead of the last entry
    that the message confirms.  Here the leader of term 2 confirms index 2 only,
    and the follower commits its old entry at index 3. *)
Theorem unconfirmed_entry_committed :
  let s := feed [(4, AppendEntries 1 4 0 0 (take 3 old_entries) 0)] (start 1) in
  let '(outs, s') := step 5 (AppendEntries 2 5 1 1 [mkLogEntry 1 2 [0]] 3) s in
  outs = [mkOutput 5 (AppendEntriesResp 2 true 2)] ∧
  commit_index s'.1 = 3 ∧ entry_at s'.1 3 = Some (mkLogEntry 1 3 [0]).
Proof. vm_compute. auto. Qed.

(** A node whose disk fails while it becomes leader stops, but still sends
    its peers the entry that the disk does not have. *)
Theorem stopped_leader_still_sends :
  let s := (((start 1).1, mkDisk (image blank) [None; Some false]) : RaftNode * FaultyDisk) in
  let s := feed [(2, RequestVoteResp 1 true)] (tick_times 19 s) in
  let '(outs, s') := step 3 (RequestVoteResp 1 true) s in
  fatal s'.1 ≠ None ∧ st_log (image s'.2) = [] ∧
  outs = map (λ p, mkOutput p (AppendEntries 1 1 0 0 [mkLogEntry 1 1 []] 0)) [2; 3; 4; 5].
Proof. vm_compute. split_and!; [discriminate|reflexivity|reflexivity]. Qed.
